(* ===== verification/_CoqProject ===== *)
-Q . S2P
Prelude.v
JsMap.v
JsObject.v
Lifecycle.v
LifecycleStore.v
DataFrame.v
TunnelTypes.v
TunnelSession.v
SessionRegistry.v
PeerRegistry.v
RelayCoordinator.v
TtlTable.v
RuntimeState.v
Forwarding.v
FlowControl.v
Json.v
Text.v
Locale.v
LogLines.v
TelemetryIngress.v
Zod.v
PlanTypes.v
PlanExample.v
EgressRoutes.v
PlanValidation.v
PlanAssembly.v
PlanSpec.v
PlanWellFormed.v
McpConfig.v
PlanCompiler.v
PlanCompilerSpec.v
NatsRelay.v
NatsRelaySpec.v
PortAccessHost.v
HealthMonitor.v
Protocol.v
Translator.v
TranslatorSpec.v
StreamFrame.v
MessageHandler.v
ForwardingReadiness.v
DrainRegistry.v
AttachmentRenewal.v
PresenceRenewal.v
DeadlineQueue.v
SessionService.v
JsNumber.v
TokenSearch.v
PayloadFilter.v
FilterEvaluation.v
ActorPolicy.v
TriggerRouting.v
Programs.v
Cache.v
CredentialCache.v
CredentialInvalidation.v
CredentialResolution.v
Fetch.v
ManagedEgress.v
OperationRecords.v
OperationEvents.v
OperationIngress.v
OperationQueue.v
