(* ===== verification/Prelude.v ===== *)
(** * Mistle: a verification library of its gateway, sandbox lifecycle, runtime plans, triggers and egress

    Mistle runs coding agents in sandboxes.  A sandbox keeps one websocket, its bootstrap tunnel,
    open to a node of the data-plane gateway; dashboards and command lines connect to the gateway
    and talk to the sandbox through that tunnel.  The data-plane API and worker keep the status
    of the sandbox in a database.  What runs in a sandbox is a runtime plan, compiled from the
    bindings of a sandbox profile by their integrations; webhook events of the integrations
    trigger new runs.  Requests a sandbox makes to the providers go through the gateway, which adds
    the credentials.  This library models these parts and proves what they promise each other.
    Paths below are under src/; [gateway] stands for apps/data-plane-gateway/src.

    ** Shared

    - this file: numbers, the error monad [M] over a state, its laws and its notations ([x ← m; k],
      [_ ← m; k], [x =?= y]), lemmas on lists, options and integers, hints and tactics.
    - JsMap.v, JsObject.v, Json.v, Text.v, Locale.v: what the code uses of the language: [Map]
      and [Set] in insertion order, objects as records, JSON, UTF-8 and base64, white space and
      [trim], case mapping and collation.  JsNumber.v: doubles, [Number(text)] and [===] on numbers.
    - TtlTable.v: tables of records that expire, and the relation [tracks] to an ideal table.
    - Zod.v: the schemas of the library zod.
    - Programs.v: [async] calls that run beside each other as programs over operations, their
      interleaving, and a logic of rely and guarantee for them.
    - Fetch.v: [Headers], [URL] and [encodeURIComponent] of the platform.
    - Cache.v: packages/cache/src, a key/value store with deadlines, in memory and over Valkey.

    ** The sandbox lifecycle

    - Lifecycle.v: packages/sandbox-lifecycle, the status machine and the policies read from it.
    - LifecycleStore.v: the writers of the status column in apps/data-plane-worker and
      apps/data-plane-api.  Their statements interleave; [store_follows_lifecycle] says that each
      statement leaves the column alone or writes the row of its call along an arrow of the
      machine from the status the row holds then, and what a call that returns has seen.

    ** The tunnel of a sandbox

    A message of a websocket takes this way: MessageHandler.v (gateway/tunnel/
    tunnel-websocket-message-handler.ts) hands it to Translator.v (tunnel/protocol/
    tunnel-protocol-translator.ts), which parses it with Protocol.v
    (packages/sandbox-session-protocol) or DataFrame.v, finds the stream it belongs to through
    Forwarding.v (tunnel/gateway-forwarding/), on the node that owns the sandbox, in the session
    of SessionRegistry.v and TunnelSession.v (tunnel/tunnel-session/), and rewrites its stream id;
    RelayCoordinator.v (tunnel/relay-coordinator.ts) then looks the receiver up in PeerRegistry.v
    (tunnel/local-peer-registry/) and gives the message to a relay transport: the one in memory, or
    NatsRelay.v between nodes.  TunnelTypes.v has the types all of them share.
    - SessionService.v (tunnel/session/tunnel-session-service.ts) attaches and detaches the peers;
      HealthMonitor.v, AttachmentRenewal.v and PresenceRenewal.v are the timers it starts for them,
      and DeadlineQueue.v (deadlines/sandbox-deadline-lifecycle-coordinator.ts) the queue it gives
      its deadline operations to.
    - RuntimeState.v (gateway/runtime-state/, tunnel/ownership/): the stores in memory of
      attachments, presence leases, keepalives and readiness, the owner of a sandbox, and the
      calls on the data plane.
    - FlowControl.v (tunnel/operation-ingress/, tunnel/telemetry-ingress/): the sessions of the
      streams a sandbox sends telemetry and the records of its operations on.  LogLines.v and
      TelemetryIngress.v (telemetry-ingress/) take the telemetry; OperationIngress.v
      (sandbox-operation-ingress-service.ts) parses the records (OperationRecords.v) and stores
      them in the database (OperationEvents.v, packages/db); OperationQueue.v is about their order.
    - ForwardingReadiness.v and DrainRegistry.v (gateway/runtime/): when a node is replaced, and how
      it drains.
    - PortAccessHost.v (packages/port-access-auth): the host names of published ports.

    What is proved.  Of a session: ids are never used twice, bindings are found by both of their keys,
    counts and limits are kept ([session_history], [registry_history], [reattach_spec]).  Of the
    relay: exactly the newest peer of a slot is current and gets what is sent to it ([relay_history]);
    a frame published in chunks arrives once ([chunked_frame_relayed]).  Of the protocol: no message belongs to
    two families, frames and messages survive being rewritten ([families_exclusive],
    [decodeDataFrame_exact]).  Of the translator and the handler: what a message of either side may
    cause ([bootstrap_messages_confined], [inbound_messages_accepted],
    [connection_message_effects], with StreamFrame.v for the streams it can open or close), and that
    what a client sends comes back to it and to nobody else ([relayed_echo]).  Of the service: what attaching and detaching a peer changes, and that the
    late close of a replaced tunnel changes nothing ([bootstrap_attach], [current_detach],
    [stale_detach_harmless], [connection_detach]).  Of timers and queues: their invariants over all
    histories, and that a silent peer is detected, a lease is kept and operations are serial
    ([monitor_history], [silent_peer_detected], [attachment_renewal_history],
    [renewal_keeps_lease], [presence_renewal_history], [deadline_operations_serial]).  Of a node:
    [forwarding_history], [drain_history].  Of the ingress: the window of a session is
    the credit of its peer ([ingress_flow_control]), and a delivery leaves the sink and
    the sessions in step ([serial_delivery]).  Of the operations: what the text of a record is
    ([operation_record_roundtrip]), that reported records are stored and what a failure does
    ([reported_records_stored], [failed_data_resets]), the limit on stored output in any
    interleaving and where its events come from ([transcript_budget]), that the deliveries of a connection run one after another,
    as a refinement of DeadlineQueue.v ([deliveries_refine_queue]), and the numbers of the events
    under concurrent writers ([operation_events_numbered]).

    ** Runtime plans (packages/integrations-core)

    PlanTypes.v has the data; PlanCompiler.v is compiler/index.ts, which uses PlanValidation.v
    (validation/), PlanAssembly.v (runtime-plan/), EgressRoutes.v (egress/) and McpConfig.v
    (mcp-config/).  PlanSpec.v, PlanWellFormed.v and PlanCompilerSpec.v have the theorems: a
    compiled plan is well-formed ([compiled_plan_ok]); it has of every key the first entry of its
    fragments, and no other ([assembled_plan_covers]), their routes ([compiled_routes]) and their
    MCP servers ([collected_servers]); what passes the validation can be assembled ([validated_fragments_assemble]), and at most one route matches a
    request ([validated_routes_unambiguous]).  PlanExample.v is a small profile for examples.

    ** Webhook events and triggers

    The control-plane worker decides what an event of a provider sets off
    (apps/control-plane-worker/openworkflow; [worker] below).  TriggerRouting.v
    (worker/handle-integration-webhook-event/resolve-webhook-trigger-targets.ts,
    worker/shared/associated-resource-routing.ts) goes through the stored conditions of the
    triggers: it parses their payload filters with PayloadFilter.v (packages/webhooks), evaluates
    them on the event's payload with FilterEvaluation.v (worker/shared/
    webhook-payload-filter-evaluator.ts over packages/integrations-core/src/triggers) and
    TokenSearch.v (triggers/operators.ts), and asks ActorPolicy.v
    (resolve-webhook-trigger-actor-policy.ts, shared/actor-policy-query-helpers.ts) whether the
    event's actor may set them off.

    What is proved.  What the parser accepts is a well-formed filter and its JSON is parsed to it
    ([payload_filter_roundtrip]).  The evaluators compute what a filter says, a relation stated
    without cursors, loops and normal forms ([webhook_filter_meaning]), the search of tokens ends and
    finds exactly the occurrences between boundaries ([contains_token_exact]), and the dialect of
    trigger rules agrees with the one of webhooks ([trigger_filter_agrees]).  A policy lets exactly
    the actors through it names, and missing data excludes ([actor_policy_decides],
    [relationship_matched]).  Put together: an event reaches exactly the targets of the enabled
    triggers with a condition that holds ([resolved_targets]), and an event on a resource is
    supported exactly when a rule takes it ([associated_event_supported]).

    ** Egress requests and their credentials

    A sandbox sends its requests to the providers through the gateway (gateway/egress/).
    ManagedEgress.v is managed-egress-request.ts: [buildManagedEgressRequest] takes the route of
    the plan that EgressRoutes.v found, drops the headers of the hop, runs the middleware of the
    integration, selects the credential resolver, writes the credential where the route's
    [authInjection] says and leaves a request for the upstream.  CredentialResolution.v is the part
    of the same file that gets the credential from the control plane, a minted token or the
    platform's configuration, through the cache of CredentialCache.v
    (credential-cache.ts), which CredentialInvalidation.v empties for a connection.

    What is proved.  Beside any number of other calls: a request that is built goes to the
    upstream of its route and carries a credential issued for its binding and the selected resolver
    (for AWS: the headers the signer answered for it; [managed_request]), and a hit of the cache was
    written under the same key with an expiry that, when the lookup read the clock, was not near
    ([hit_credential]).  Which headers and
    which path are sent ([outgoing_headers_exact], [forward_path_exact]); that a credential in a
    path stays one segment of it ([credential_segment_exact]); which queries an AWS request can be
    signed with ([query_bag]).  Calls one after another: invalidating a connection removes its
    credentials and no others ([invalidation_exact]); two concurrent stores can break this
    ([concurrent_sets_survive]).

    ** How the code is modelled

    - A class is a record of its fields, a method a function in [M], an [Error] a value: [JsError]
      (TunnelTypes.v) keeps the classes apart that [instanceof] tells apart.  A closure over
      variables is a record of these variables.
    - Where a method [await]s and something else may run, it is cut there and a step relation
      interleaves it: LifecycleStore.v, TelemetryIngress.v, HealthMonitor.v, AttachmentRenewal.v,
      PresenceRenewal.v, DeadlineQueue.v, DrainRegistry.v, OperationEvents.v.  The egress calls and
      the deliveries of operations are programs (Programs.v), cut at every command of a store and
      every call of a service, each of which may fail.  The other methods run in one
      piece; TunnelSession.v to Translator.v and SessionService.v are cut nowhere.
    - A clock reading is an argument ([nowMs], [clock]), never assumed monotone unless a theorem says so.
    - Numbers are integers; where the width matters it is written out (DataFrame.v, PortAccessHost.v).
      [number] is an integer or any other value of the language.
    - An interface of the code is a class of operations, with a class of laws: the client's
      theorems use the laws, and the instance that the code has meets them: [TunnelSessionRegistryLaws],
      [LocalPeerRegistryLaws], [InteractiveStreamLaws], [InteractiveStreamFrame], [IngressSession].
    - Code outside of the repository is a class too, with documented behaviour as its laws and an
      instance that the witnesses use: [Zod], [Base64], [Locale], [Urls], [Toml], the database
      ([InstanceTable]), the port access services ([PublishingServices], no laws), the tables of
      Unicode ([Unicode]) and the text of a fraction ([NumberText]), no laws, the parsing of dates
      ([DateParse]), URL objects ([URLs]) and the client of Valkey ([ValkeyClient]).  The services
      the egress calls ask are operations whose answers the world keeps, and the definitions of the
      integrations a registry of functions ([EgressRegistry]).
    - Tables that are only read are lists of rows, a query the rows that satisfy its condition in the
      order of the list, which stands for any order the database may choose (ActorPolicy.v,
      TriggerRouting.v); the unique indexes are an invariant of the tables ([tables_ok]).

    Fuel: the search for a free stream id may run as often as there are ids in use, after
    which the next one is free ([next_free_id_spec]); [JSON.parse] has twice the length of its text
    and 2, which [JSON_roundtrip] shows to be enough for every text [JSON.stringify] writes; a delivery
    of the telemetry ingress ends after at most two answers of its sink ([serial_delivery]); the
    loops over the bits of base 32 run at most as often as there are bits in the buffer
    ([encode_drain_spec], [decode_drain_spec]); the search for a token starts at most once at every
    index ([token_loop_exact]); a schema that refers to itself is unfolded as often as the size of
    the value it parses ([schema_depth]).

    ** Not modelled

    The dashboard and the command line (user interfaces); the control-plane API, the rest of the
    control-plane worker and of the data-plane API and worker (handlers over a database and workflows of
    a workflow engine: their core lives in SQL); the parsing of trigger rules; the definitions of
    the single integrations; the sandbox daemon (written in Rust); the adapters of Valkey and NATS
    other than the relay and the cache; HTTP glue, the streams of proxied requests and the port
    access services of the gateway; the signature of an AWS request (a library's, behind an
    operation); generated clients, configuration, telemetry, test harnesses.  PROJECT.json lists
    them.
    In the modelled parts log lines, metrics and traces are left out. *)

From Stdlib Require Export ZArith Lia.
From stdpp Require Export base tactics list option strings gmap pretty sorting.

(** ** Scope and strings *)

Declare Scope mistle_scope.
Delimit Scope mistle_scope with mistle.
Open Scope mistle_scope.

(** [String(n)] and [`${n}`] on an integer: its decimal text. *)
Definition String_of_number (n : Z) : string := pretty n.

(** A JavaScript [number]: an integer, or anything else (a fraction, an infinity,
    [NaN]) by its text. *)
Inductive number : Type :=
| Int (n : Z)
| NonInteger (text : string).

#[export] Instance number_eq_dec : EqDecision number.
Proof. solve_decision. Defined.

Definition Number_isInteger (x : number) : bool :=
  match x with Int _ => true | NonInteger _ => false end.

(** The integer of a number the code has checked with [Number.isInteger]. *)
Definition integer_of (x : number) : Z :=
  match x with Int n => n | NonInteger _ => 0 end.

(** [String(x)] *)
Definition String_of (x : number) : string :=
  match x with Int n => String_of_number n | NonInteger text => text end.

(** [===] on values with decidable equality. *)
Notation "a =?= b" := (bool_decide (a = b)) (at level 70, no associativity) : mistle_scope.

(** ** Exceptions and mutable state

    An [async] method or a method of a class with private fields is a function
    of the state of the object it is called on.  A [throw] keeps the changes
    already made to that state: the state is returned beside the error. *)
Definition M (E S A : Type) : Type := S → (E + A) * S.

Section Monad.
Context {E S : Type}.

#[global] Instance M_ret : MRet (M E S) := λ A a s, (inr a, s).

#[global] Instance M_bind : MBind (M E S) := λ A B f m s,
  match m s with
  | (inr a, s') => f a s'
  | (inl e, s') => (inl e, s')
  end.

#[global] Instance M_fmap : FMap (M E S) := λ A B f m s,
  match m s with
  | (inr a, s') => (inr (f a), s')
  | (inl e, s') => (inl e, s')
  end.

Definition throw {A} (e : E) : M E S A := λ s, (inl e, s).

(** [try { m } catch (error) { h(error) }] *)
Definition try_catch {A} (m : M E S A) (h : E → M E S A) : M E S A := λ s,
  match m s with
  | (inl e, s') => h e s'
  | r => r
  end.

(** A synchronous operation that reads or replaces the state. *)
Definition gets {A} (f : S → A) : M E S A := λ s, (inr (f s), s).
Definition modify (f : S → S) : M E S unit := λ s, (inr tt, f s).
Definition update {A} (f : S → A * S) : M E S A :=
  λ s, let (a, s') := f s in (inr a, s').

(** [for (const a of l) { body(a) }] *)
Fixpoint for_each {A} (l : list A) (body : A → M E S unit) : M E S unit :=
  match l with
  | [] => mret tt
  | a :: l => _ ← body a; for_each l body
  end.

(** A synchronous operation that may throw, on the same state. *)
Definition lift_sum {A} (f : S → (E + A) * S) : M E S A := f.
End Monad.

Lemma M_bind_ret {E S A B} (a : A) (f : A → M E S B) s :
  (mret a ≫= f) s = f a s.
Proof. reflexivity. Qed.

Lemma M_bind_throw {E S A B} (e : E) (f : A → M E S B) s :
  (throw e ≫= f) s = (inl e, s).
Proof. reflexivity. Qed.

Lemma M_bind_run {E S A B} (m : M E S A) (f : A → M E S B) s a s' :
  m s = (inr a, s') → (m ≫= f) s = f a s'.
Proof. intros Hm. unfold mbind, M_bind. by rewrite Hm. Qed.

Lemma M_bind_assoc {E S A B C} (m : M E S A) (f : A → M E S B) (g : B → M E S C) s :
  ((m ≫= f) ≫= g) s = (m ≫= λ x, f x ≫= g) s.
Proof. unfold mbind, M_bind. by destruct (m s) as [[]]. Qed.

(** The successful results of a bind come from successful results of its parts. *)
Lemma M_bind_inr {E S A B} (m : M E S A) (f : A → M E S B) s b s' :
  (m ≫= f) s = (inr b, s') ↔ ∃ a s1, m s = (inr a, s1) ∧ f a s1 = (inr b, s').
Proof.
  unfold mbind, M_bind. split.
  - destruct (m s) as [[e|a] s1]; [done|eauto].
  - by intros (a & s1 & -> & ?).
Qed.

Lemma M_bind_inl {E S A B} (m : M E S A) (f : A → M E S B) s e s' :
  (m ≫= f) s = (inl e, s') ↔
  m s = (inl e, s') ∨ ∃ a s1, m s = (inr a, s1) ∧ f a s1 = (inl e, s').
Proof.
  unfold mbind, M_bind. split.
  - destruct (m s) as [[e1|a] s1]; intros; simplify_eq; eauto 6.
  - by intros [-> | (a & s1 & -> & ?)].
Qed.

(** ** Synchronous code that may throw

    Code without mutable state of its own is a function into [E + A]. *)

#[export] Instance sum_ret {E} : MRet (sum E) := λ A a, inr a.
#[export] Instance sum_bind {E} : MBind (sum E) := λ A B f m,
  match m with inl e => inl e | inr a => f a end.

(** [if (condition) { throw e }] *)
Definition throw_if {E} (condition : bool) (e : E) : E + unit :=
  if condition then inl e else inr tt.

(** A loop over the elements of a list that updates the variables [s]. *)
Fixpoint fold_each {E S A} (body : S → A → E + S) (s : S) (l : list A) : E + S :=
  match l with
  | [] => inr s
  | a :: l => s' ← body s a; fold_each body s' l
  end.

(** The same without variables. *)
Fixpoint try_each {E A} (body : A → E + unit) (l : list A) : E + unit :=
  match l with
  | [] => inr tt
  | a :: l => _ ← body a; try_each body l
  end.

(** [l.map(f)] with an [f] that may throw. *)
Fixpoint try_map {E A B} (f : A → E + B) (l : list A) : E + list B :=
  match l with
  | [] => inr []
  | a :: l => b ← f a; bs ← try_map f l; inr (b :: bs)
  end.

(** [l.some(f)] with an [f] that may throw. *)
Fixpoint try_some {E A} (f : A → E + bool) (l : list A) : E + bool :=
  match l with
  | [] => inr false
  | a :: l => b ← f a; if b : bool then inr true else try_some f l
  end.

Lemma sum_bind_inr {E A B} (m : E + A) (f : A → E + B) b :
  m ≫= f = inr b ↔ ∃ a, m = inr a ∧ f a = inr b.
Proof. destruct m; simpl; naive_solver. Qed.

Lemma throw_if_inr {E} condition (e : E) u : throw_if condition e = inr u ↔ condition = false.
Proof. destruct condition, u; naive_solver. Qed.

Lemma try_each_inr {E A} (body : A → E + unit) l u :
  try_each body l = inr u ↔ Forall (λ a, body a = inr tt) l.
Proof.
  destruct u. induction l as [|a l IH]; simpl; [naive_solver constructor|].
  rewrite sum_bind_inr, Forall_cons, <- IH. split; [|naive_solver]. by intros ([] & ? & ?).
Qed.

Lemma try_map_inr {E A B} (f : A → E + B) l bs :
  try_map f l = inr bs ↔ Forall2 (λ a b, f a = inr b) l bs.
Proof.
  revert bs. induction l as [|a l IH]; intros bs; simpl.
  - split; [intros [= <-]; constructor|]. by inversion 1.
  - rewrite sum_bind_inr. split.
    + intros (b & Hb & (bs' & Hbs & [= <-])%sum_bind_inr). constructor; [done|by apply IH].
    + inversion 1 as [|? b ? bs' Hb Hbs]; subst. exists b. split; [done|].
      apply sum_bind_inr. exists bs'. split; [by apply IH|done].
Qed.

Lemma fold_each_app {E S A} (body : S → A → E + S) s l1 l2 :
  fold_each body s (l1 ++ l2) = (s' ← fold_each body s l1; fold_each body s' l2).
Proof. revert s. induction l1 as [|a l1 IH]; intros s; simpl; [done|]. destruct (body s a); simpl; [done|apply IH]. Qed.

Lemma fold_each_fmap {E S A B} (f : A → B) (body : S → B → E + S) s l :
  fold_each body s (f <$> l) = fold_each (λ s a, body s (f a)) s l.
Proof. revert s. induction l as [|a l IH]; intros s; simpl; [done|]. destruct (body s (f a)); simpl; [done|apply IH]. Qed.

Lemma try_some_inr {E A} (f : A → E + bool) l :
  try_some f l = inr false ↔ Forall (λ a, f a = inr false) l.
Proof.
  induction l as [|a l IH]; simpl; [naive_solver constructor|].
  rewrite sum_bind_inr, Forall_cons, <- IH. split; [|naive_solver]. by intros ([] & ? & ?).
Qed.

Lemma try_some_true {E A} (f : A → E + bool) l :
  try_some f l = inr true → ∃ a, a ∈ l ∧ f a = inr true.
Proof.
  induction l as [|a l IH]; simpl; [done|]. rewrite sum_bind_inr. intros ([] & Ha & Hl).
  - exists a. split; [left|done].
  - destruct (IH Hl) as (a' & ? & ?). exists a'. split; [by right|done].
Qed.

(** When no element makes [f] throw, [l.some(f)] decides whether one has the property. *)
Lemma try_some_exact {E A} (f : A → E + bool) (P : A → Prop) l :
  Forall (λ a, ∃ b, f a = inr b ∧ (b = true ↔ P a)) l →
  ∃ b, try_some f l = inr b ∧ (b = true ↔ Exists P l).
Proof.
  induction 1 as [|a l (b' & Hb' & Hspec') _ (b & Hb & Hspec)].
  - exists false. split; [done|]. split; [done|]. by intros []%Exists_nil.
  - exists (b' || b). cbn [try_some]. rewrite Hb'. cbn [mbind sum_bind].
    split; [by destruct b'|]. by rewrite orb_true_iff, Exists_cons, Hspec, Hspec'.
Qed.

(** ** Tactics *)

(** Case analysis on every [match] and [if] of the goal or of a hypothesis. *)
Ltac split_matches :=
  repeat (case_match; simplify_eq/=; try done).

(** Turn boolean tests of the code into propositions. *)
Ltac bools :=
  repeat match goal with
  | H : bool_decide _ = true |- _ => apply bool_decide_eq_true in H
  | H : bool_decide _ = false |- _ => apply bool_decide_eq_false in H
  | H : negb _ = true |- _ => apply negb_true_iff in H
  | H : negb _ = false |- _ => apply negb_false_iff in H
  | H : (_ && _)%bool = true |- _ => apply andb_true_iff in H as [? ?]
  | H : (_ || _)%bool = false |- _ => apply orb_false_iff in H as [? ?]
  | H : (_ =? _)%Z = true |- _ => apply Z.eqb_eq in H
  | H : (_ =? _)%Z = false |- _ => apply Z.eqb_neq in H
  | H : (_ <=? _)%Z = true |- _ => apply Z.leb_le in H
  | H : (_ <=? _)%Z = false |- _ => apply Z.leb_gt in H
  | H : (_ <? _)%Z = true |- _ => apply Z.ltb_lt in H
  | H : (_ <? _)%Z = false |- _ => apply Z.ltb_ge in H
  end.

Create HintDb mistle.

(** ** Lists *)

Lemma elem_of_filter_map_bool {A} (f : A → bool) (l : list A) x :
  x ∈ List.filter f l ↔ x ∈ l ∧ f x = true.
Proof. rewrite !list_elem_of_In. apply List.filter_In. Qed.

Lemma Forall2_elem_of_l {A B} (R : A → B → Prop) l k a :
  Forall2 R l k → a ∈ l → ∃ b, b ∈ k ∧ R a b.
Proof.
  intros Hall (i & Hi)%list_elem_of_lookup. destruct (Forall2_lookup_l _ _ _ _ _ Hall Hi) as (b & Hb & ?).
  exists b. split; [by eapply list_elem_of_lookup_2|done].
Qed.

Lemma Forall2_elem_of_r {A B} (R : A → B → Prop) l k b :
  Forall2 R l k → b ∈ k → ∃ a, a ∈ l ∧ R a b.
Proof. intros Hall. apply (Forall2_elem_of_l (flip R)). by apply Forall2_flip. Qed.

Lemma filter_length_split {A} (f : A → bool) (l : list A) :
  length (List.filter f l) + length (List.filter (λ x, negb (f x)) l) = length l.
Proof. induction l as [|x l IH]; simpl; [done|]. destruct (f x); simpl; lia. Qed.

(** [l.sort(compare)]: the sort of the language is stable.  What it does when
    [compare] is no consistent order is left to the implementation; the laws of a
    comparison are [consistent]. *)
Section Sort.
Context {A : Type} (compare : A → A → Z).

Fixpoint insert_sorted (x : A) (l : list A) : list A :=
  match l with
  | [] => [x]
  | y :: l' => if (compare x y <=? 0)%Z then x :: l else y :: insert_sorted x l'
  end.

Fixpoint sort (l : list A) : list A :=
  match l with
  | [] => []
  | x :: l => insert_sorted x (sort l)
  end.

Definition consistent : Prop :=
  (∀ x y, Z.sgn (compare x y) = - Z.sgn (compare y x))%Z ∧
  (∀ x y z, compare x y <= 0 → compare y z <= 0 → compare x z <= 0)%Z.

Definition in_order : list A → Prop := StronglySorted (λ x y, compare x y <= 0)%Z.

Lemma insert_sorted_perm x l : insert_sorted x l ≡ₚ x :: l.
Proof.
  induction l as [|y l IH]; simpl; [done|]. case_match; [done|]. rewrite IH. constructor.
Qed.

Lemma sort_perm l : sort l ≡ₚ l.
Proof. induction l as [|x l IH]; simpl; [done|]. by rewrite insert_sorted_perm, IH. Qed.

Lemma elem_of_sort x l : x ∈ sort l ↔ x ∈ l.
Proof. by rewrite sort_perm. Qed.

Lemma sort_in_order l : consistent → in_order (sort l).
Proof.
  intros [Hsgn Htrans]. unfold in_order. induction l as [|x l IH]; simpl; [constructor|].
  induction IH as [|y l' Hl' IHl Hy]; simpl; [repeat constructor|].
  destruct (compare x y <=? 0)%Z eqn:Hxy.
  - apply Z.leb_le in Hxy. constructor; [by constructor|]. constructor; [done|].
    eapply Forall_impl; [exact Hy|]. intros z Hz. cbv beta in *. by apply (Htrans x y z).
  - apply Z.leb_gt in Hxy. constructor; [done|]. apply Forall_forall. intros z.
    rewrite insert_sorted_perm, elem_of_cons. intros [->|Hz].
    + specialize (Hsgn x y). destruct (compare x y) eqn:?, (compare y x) eqn:?; simpl in *; lia.
    + by apply (proj1 (Forall_forall _ _) Hy).
Qed.
End Sort.

Lemma NoDup_sort {A B} (f : A → B) compare (l : list A) :
  NoDup (f <$> l) → NoDup (f <$> sort compare l).
Proof. by rewrite sort_perm. Qed.

(** ** Keys joined by a separator

    The code joins the parts of a key with [":"].  Two such keys are equal only
    when their parts are, provided the last part (or the first one) holds no
    colon. *)

Fixpoint has_char (c : Ascii.ascii) (s : string) : bool :=
  match s with
  | EmptyString => false
  | String c' s => (c' =?= c) || has_char c s
  end.

Definition colon : Ascii.ascii := Ascii.ascii_of_nat 58.

Lemma app_empty_l (s : string) : "" +:+ s = s.
Proof. reflexivity. Qed.

Lemma app_String (c : Ascii.ascii) (s t : string) : String c s +:+ t = String c (s +:+ t).
Proof. reflexivity. Qed.

Lemma has_char_app c s t : has_char c (s +:+ t) = has_char c s || has_char c t.
Proof. induction s as [|c' s IH]; [done|]. rewrite app_String. simpl. by rewrite IH, orb_assoc. Qed.

Lemma pretty_N_char_digit x c : has_char c "0123456789" = false → pretty_N_char x ≠ c.
Proof.
  intros Hc <-. revert Hc. unfold pretty_N_char. repeat case_match; by vm_compute.
Qed.

Lemma has_char_pretty_N_go c x s :
  has_char c "0123456789" = false → has_char c (pretty_N_go x s) = has_char c s.
Proof.
  intros Hc. revert s. induction (N.lt_wf_0 x) as [x _ IH]; intros s.
  assert (x = 0 ∨ 0 < x)%N as [->|?] by lia; [by rewrite pretty_N_go_0|].
  rewrite pretty_N_go_step, IH by (done || by apply N.div_lt). simpl.
  by rewrite bool_decide_false by (by apply pretty_N_char_digit).
Qed.

Lemma no_colon_String_of_number n : has_char colon (String_of_number n) = false.
Proof.
  assert (∀ x : N, has_char colon (pretty x) = false) as HN.
  { intros x. unfold pretty, pretty_N. case_decide; [done|].
    by rewrite has_char_pretty_N_go. }
  unfold String_of_number. destruct n as [|p|p]; [done|apply (HN (Npos p))|].
  unfold pretty, pretty_Z. rewrite has_char_app. apply (HN (Npos p)).
Qed.

Lemma String_of_number_inj n m : String_of_number n = String_of_number m → n = m.
Proof. apply pretty_Z_inj. Qed.

Lemma string_app_assoc (a b c : string) : (a +:+ b) +:+ c = a +:+ (b +:+ c).
Proof. induction a as [|c' a IH]; [done|]. by rewrite !app_String, IH. Qed.

(** The last part holds no colon. *)
Lemma key_inj_last (a a' x y : string) :
  has_char colon x = false → has_char colon y = false →
  a +:+ ":" +:+ x = a' +:+ ":" +:+ y → a = a' ∧ x = y.
Proof.
  assert (∀ b z, has_char colon (b +:+ String (Ascii.Ascii false true false true true true false false) z) = true) as Hcolon.
  { intros b z. rewrite has_char_app. simpl. by rewrite orb_true_r. }
  intros Hx Hy. revert a'.
  induction a as [|c a IH]; intros [|c' a']; rewrite ?app_empty_l, ?app_String, ?app_empty_l;
    intros Heq; simplify_eq; [done| | |by destruct (IH a') as [-> ->]].
  - by rewrite Hcolon in Hx.
  - by rewrite Hcolon in Hy.
Qed.

(** The first part holds no colon. *)
Lemma key_inj_first (a a' x y : string) :
  has_char colon a = false → has_char colon a' = false →
  a +:+ ":" +:+ x = a' +:+ ":" +:+ y → a = a' ∧ x = y.
Proof.
  revert a'. induction a as [|c a IH]; intros [|c' a'] Ha Ha';
    rewrite ?app_empty_l, ?app_String, ?app_empty_l; intros Heq; simplify_eq; try done.
  simpl in *. bools. destruct (IH a') as [-> ->]; auto.
Qed.
