(* ===== verification/JsMap.v ===== *)
(** * ECMAScript [Map] and [Set]

    The gateway keeps its state in private [Map] and [Set] fields.  A [Map] is
    iterated in insertion order, and several operations of the code return
    the values in that order, so a map is an association list: [set] overwrites
    in place or appends, [delete] removes the entry and reports whether it was
    there.  [to_gmap] forgets the order: the lookup structure of a [Map] is
    stdpp's [gmap], which the proofs use where the order does not matter. *)

From S2P Require Import Prelude.

Module JsMap.

Definition t (K V : Type) : Type := list (K * V).

Section Operations.
Context {K V : Type} `{EqDecision K}.

Definition empty : t K V := [].

(** [map.get(k)] *)
Fixpoint get (m : t K V) (k : K) : option V :=
  match m with
  | [] => None
  | (k', v) :: m' => if decide (k' = k) then Some v else get m' k
  end.

(** [map.has(k)] *)
Definition has (m : t K V) (k : K) : bool := bool_decide (is_Some (get m k)).

(** [map.set(k, v)] *)
Fixpoint set (m : t K V) (k : K) (v : V) : t K V :=
  match m with
  | [] => [(k, v)]
  | (k', v') :: m' => if decide (k' = k) then (k, v) :: m' else (k', v') :: set m' k v
  end.

(** The map after [map.delete(k)]; the call returns [map.has(k)]. *)
Definition delete (m : t K V) (k : K) : t K V :=
  List.filter (λ e, negb (bool_decide (e.1 = k))) m.

Definition keys (m : t K V) : list K := m.*1.
Definition values (m : t K V) : list V := m.*2.
Definition size (m : t K V) : nat := length m.

(** [for (const [k, v] of map.entries()) if (drop k v) map.delete(k)]: a [Map]
    may lose the current entry while it is iterated. *)
Definition delete_where (drop : K → V → bool) (m : t K V) : t K V :=
  List.filter (λ e, negb (drop e.1 e.2)) m.

(** A [Map] never holds a key twice. *)
Definition wf (m : t K V) : Prop := NoDup (keys m).
End Operations.

(** [new Map(entries)] *)
Definition of_list {K V} `{EqDecision K} (l : list (K * V)) : t K V :=
  foldl (λ m e, set m e.1 e.2) empty l.

Section Theory.
Context {K V : Type} `{EqDecision K}.
Implicit Types (m : t K V) (k : K) (v : V).

Lemma get_empty k : get (empty : t K V) k = None.
Proof. done. Qed.

Lemma get_set_eq m k v : get (set m k v) k = Some v.
Proof.
  induction m as [|[k' v'] m IH]; simpl; [by rewrite decide_True|].
  destruct (decide (k' = k)) as [->|]; simpl; [by rewrite decide_True|].
  by rewrite decide_False.
Qed.

Lemma get_set_ne m k k' v : k ≠ k' → get (set m k v) k' = get m k'.
Proof.
  intros Hne. induction m as [|[k1 v1] m IH]; simpl; [by rewrite decide_False|].
  destruct (decide (k1 = k)) as [->|]; simpl; [by rewrite !decide_False|].
  by rewrite IH.
Qed.

Lemma get_set m k k' v :
  get (set m k v) k' = if decide (k = k') then Some v else get m k'.
Proof. case_decide; subst; auto using get_set_eq, get_set_ne. Qed.

Lemma set_set m k v v' : set (set m k v) k v' = set m k v'.
Proof.
  induction m as [|[k1 v1] m IH]; simpl; [by rewrite decide_True|].
  destruct (decide (k1 = k)) as [->|]; simpl; [by rewrite decide_True|].
  by rewrite decide_False, IH.
Qed.

Lemma set_same m k v : get m k = Some v → set m k v = m.
Proof.
  induction m as [|[k1 v1] m IH]; simpl; [done|].
  destruct (decide (k1 = k)) as [->|]; [by intros [= ->]|]. intros. by rewrite IH.
Qed.

Lemma get_delete_where (drop : K → V → bool) m k :
  wf m →
  get (delete_where drop m) k =
    match get m k with
    | Some v => if drop k v then None else Some v
    | None => None
    end.
Proof.
  unfold wf, keys. induction m as [|[k1 v1] m IH]; simpl; [done|].
  intros [Hk Hnd]%NoDup_cons. specialize (IH Hnd).
  destruct (decide (k1 = k)) as [->|Hne]; simpl.
  - destruct (drop k v1); simpl; [|by rewrite decide_True].
    rewrite IH. destruct (get m k) as [v|] eqn:Hg; [|done].
    exfalso. apply Hk. clear -Hg. induction m as [|[k1 v2] m IH]; [done|].
    simpl in *. case_decide; subst; set_solver.
  - destruct (drop k1 v1); simpl; [done|]. by rewrite decide_False.
Qed.

Lemma get_delete m k k' :
  get (delete m k) k' = if decide (k = k') then None else get m k'.
Proof.
  induction m as [|[k1 v1] m IH]; simpl; [by case_decide|].
  destruct (decide (k1 = k)) as [->|Hne]; simpl.
  - rewrite bool_decide_true by done. simpl. rewrite IH.
    by repeat case_decide.
  - rewrite bool_decide_false by done. simpl.
    destruct (decide (k1 = k')) as [->|].
    + by rewrite decide_False.
    + by rewrite IH.
Qed.

Lemma get_delete_eq m k : get (delete m k) k = None.
Proof. rewrite get_delete. by case_decide. Qed.

Lemma get_delete_ne m k k' : k ≠ k' → get (delete m k) k' = get m k'.
Proof. intros. rewrite get_delete. by case_decide. Qed.

Lemma elem_of_keys m k : k ∈ keys m ↔ is_Some (get m k).
Proof.
  unfold keys. induction m as [|[k1 v1] m IH]; simpl.
  - rewrite elem_of_nil. split; [done|by intros []].
  - rewrite elem_of_cons, IH. destruct (decide (k1 = k)) as [->|].
    + by split; eauto.
    + naive_solver.
Qed.

Lemma has_spec m k : has m k = true ↔ is_Some (get m k).
Proof. apply bool_decide_eq_true. Qed.

Lemma has_false m k : has m k = false ↔ get m k = None.
Proof. unfold has. rewrite bool_decide_eq_false. symmetry. apply eq_None_not_Some. Qed.

Lemma elem_of_get m k v : wf m → (k, v) ∈ m ↔ get m k = Some v.
Proof.
  unfold wf, keys. induction m as [|[k1 v1] m IH]; simpl.
  - intros _. by rewrite elem_of_nil.
  - intros [Hk Hnd]%NoDup_cons. rewrite elem_of_cons, (IH Hnd).
    destruct (decide (k1 = k)) as [->|]; [|naive_solver].
    split; [|naive_solver]. intros [?|Hg]; [naive_solver|].
    exfalso. apply Hk. apply elem_of_keys. eauto.
Qed.

Lemma elem_of_values m v : wf m → v ∈ values m ↔ ∃ k, get m k = Some v.
Proof.
  intros Hwf. unfold values. rewrite list_elem_of_fmap. split.
  - intros ([k v'] & -> & Hin). exists k. by apply elem_of_get.
  - intros [k Hk]. exists (k, v). split; [done|]. by apply elem_of_get.
Qed.

(** *** Preservation of well-formedness *)

(** What the values of a changed map are among. *)
Lemma elem_of_values_set m k v v' : v' ∈ values (set m k v) → v' = v ∨ v' ∈ values m.
Proof.
  unfold values. induction m as [|[k1 v1] m IH]; cbn; [by intros ->%list_elem_of_singleton; left|].
  case_decide; cbn; intros [->|Hin]%elem_of_cons; [by left|by right; right|by right; left|].
  destruct (IH Hin) as [->|?]; [by left|by right; right].
Qed.

Lemma elem_of_values_delete m k v : v ∈ values (delete m k) → v ∈ values m.
Proof.
  unfold values, delete. induction m as [|[k1 v1] m IH]; cbn; [done|].
  case_bool_decide; cbn; [by right; apply IH|]. intros [->|Hin]%elem_of_cons; [by left|by right; apply IH].
Qed.

Lemma wf_empty : wf (empty : t K V).
Proof. apply NoDup_nil_2. Qed.

Lemma keys_set m k v :
  keys (set m k v) = if decide (k ∈ keys m) then keys m else keys m ++ [k].
Proof.
  unfold keys. induction m as [|[k1 v1] m IH]; cbn [set].
  - case_decide as Hin; [by apply not_elem_of_nil in Hin|done].
  - destruct (decide (k1 = k)) as [->|]; cbn [fmap list_fmap fst].
    + clear IH. case_decide as Hin; [done|]. destruct Hin. left.
    + rewrite IH. repeat case_decide; set_solver.
Qed.

Lemma wf_set m k v : wf m → wf (set m k v).
Proof.
  unfold wf. intros. rewrite keys_set. case_decide; [done|].
  apply NoDup_app. split_and!; [done| |apply NoDup_singleton]. set_solver.
Qed.

Lemma wf_delete_where (drop : K → V → bool) m : wf m → wf (delete_where drop m).
Proof.
  unfold wf, keys. induction m as [|[k1 v1] m IH]; simpl; [done|].
  intros [Hk Hnd]%NoDup_cons.
  destruct (drop k1 v1); simpl; [by apply IH|].
  apply NoDup_cons. split; [|by apply IH].
  contradict Hk. apply list_elem_of_fmap in Hk as (e & -> & He).
  apply elem_of_filter_map_bool in He as [? _]. apply list_elem_of_fmap; eauto.
Qed.

Lemma delete_as_delete_where m k :
  delete m k = delete_where (λ k' _, bool_decide (k' = k)) m.
Proof. done. Qed.

Lemma wf_delete m k : wf m → wf (delete m k).
Proof. rewrite delete_as_delete_where. apply wf_delete_where. Qed.

(** *** Sizes *)

Lemma size_set m k v :
  size (set m k v) = if decide (is_Some (get m k)) then size m else S (size m).
Proof.
  assert (size (set m k v) = length (keys (set m k v))) as ->
    by (unfold keys, size; by rewrite length_fmap).
  rewrite keys_set. unfold size.
  repeat case_decide; try (by rewrite elem_of_keys in *);
    unfold keys; rewrite ?length_app, length_fmap; simpl; lia.
Qed.

Lemma delete_absent m k : get m k = None → delete m k = m.
Proof.
  induction m as [|[k1 v1] m IH]; simpl; [done|].
  case_decide; [done|]. intros. rewrite bool_decide_false by done.
  simpl. f_equal. auto.
Qed.

Lemma size_delete m k :
  wf m → size (delete m k) = if decide (is_Some (get m k)) then pred (size m) else size m.
Proof.
  intros Hwf. destruct (get m k) as [v|] eqn:Hg; cycle 1.
  { rewrite delete_absent by done. rewrite decide_False; [done|].
    by apply eq_None_not_Some. }
  rewrite decide_True by eauto. revert Hwf Hg. unfold wf, keys, size.
  induction m as [|[k1 v1] m IH]; simpl; [done|].
  intros [Hk Hnd]%NoDup_cons. destruct (decide (k1 = k)) as [->|]; intros Hg.
  - rewrite bool_decide_true by done. simpl. fold (delete m k).
    rewrite delete_absent; [done|].
    apply eq_None_not_Some. by rewrite <-elem_of_keys.
  - rewrite bool_decide_false by done. simpl. fold (delete m k).
    rewrite (IH Hnd Hg). by destruct m.
Qed.

Lemma size_zero m : size m = 0 ↔ ∀ k, get m k = None.
Proof.
  destruct m as [|[k v] m]; simpl; [done|]. split; [done|].
  intros H. specialize (H k). rewrite decide_True in H by done. done.
Qed.
(** *** Adding a new key, deleting several, counting values *)

Lemma set_fresh m k v : get m k = None → set m k v = m ++ [(k, v)].
Proof.
  induction m as [|[k1 v1] m IH]; simpl; [done|].
  destruct (decide (k1 = k)); [done|]. intros. by rewrite IH.
Qed.

Lemma foldl_delete {A} (f : A → K) (l : list A) m :
  foldl (λ m a, delete m (f a)) m l = delete_where (λ k _, bool_decide (k ∈ f <$> l)) m.
Proof.
  revert m. induction l as [|a l IH]; intros m; cbn [foldl].
  - unfold delete_where. induction m as [|e m IHm]; cbn [List.filter]; [done|].
    rewrite bool_decide_false by apply not_elem_of_nil. cbn [negb]. by f_equal.
  - rewrite IH. unfold delete, delete_where.
    induction m as [|[k v] m IHm]; cbn [List.filter fst]; [done|].
    destruct (decide (k = f a)) as [->|Hne].
    + rewrite bool_decide_true by done. rewrite bool_decide_true by set_solver. done.
    + rewrite (bool_decide_false (k = f a)) by done. cbn [negb List.filter fst].
      rewrite (bool_decide_ext (k ∈ f <$> a :: l) (k ∈ f <$> l)) by set_solver.
      destruct (bool_decide (k ∈ f <$> l)); cbn [negb]; by rewrite IHm.
Qed.

Lemma delete_where_ext (f g : K → V → bool) m :
  (∀ k v, (k, v) ∈ m → f k v = g k v) → delete_where f m = delete_where g m.
Proof.
  unfold delete_where. induction m as [|[k v] m IH]; simpl; intros Hfg; [done|].
  rewrite (Hfg k v) by left. rewrite IH; [done|]. intros. apply Hfg. by right.
Qed.

Lemma values_delete_where (f : V → bool) m :
  values (delete_where (λ _ v, f v) m) = List.filter (λ v, negb (f v)) (values m).
Proof.
  unfold values, delete_where. induction m as [|[k v] m IH]; simpl; [done|].
  destruct (f v); simpl; [exact IH|f_equal; exact IH].
Qed.

Definition count (f : V → bool) (m : t K V) : nat := length (List.filter f (values m)).

Lemma count_set_fresh f m k v :
  get m k = None → count f (set m k v) = (count f m + if f v then 1 else 0)%nat.
Proof.
  intros. rewrite set_fresh by done. unfold count, values.
  rewrite fmap_app, List.filter_app, length_app. simpl. by destruct (f v).
Qed.

Lemma count_cons f k v m : count f ((k, v) :: m) = ((if f v then 1 else 0) + count f m)%nat.
Proof. unfold count, values. cbn [List.filter fmap list_fmap snd]. by destruct (f v). Qed.

Lemma count_delete f m k v :
  wf m → get m k = Some v → count f m = (count f (delete m k) + if f v then 1 else 0)%nat.
Proof.
  unfold wf, keys. induction m as [|[k1 v1] m IH]; [done|]. rewrite count_cons.
  intros [Hk Hnd]%NoDup_cons Hg. unfold delete. cbn [List.filter fst]. fold (delete m k).
  cbn [get] in Hg. destruct (decide (k1 = k)) as [->|]; simplify_eq.
  - rewrite bool_decide_true by done. cbn [negb].
    rewrite delete_absent; [lia|]. apply eq_None_not_Some. by rewrite <-elem_of_keys.
  - rewrite bool_decide_false by done. cbn [negb]. rewrite count_cons, (IH Hnd Hg). lia.
Qed.

Lemma count_delete_where f g m :
  count f (delete_where (λ _ v, g v) m) = count (λ v, f v && negb (g v)) m.
Proof.
  unfold count. rewrite values_delete_where. f_equal.
  induction (values m) as [|v l IH]; simpl; [done|].
  destruct (g v), (f v) eqn:Hf; simpl; rewrite ?Hf; simpl; by rewrite IH.
Qed.

Lemma count_ext f g m : (∀ v, f v = g v) → count f m = count g m.
Proof. intros Hfg. unfold count. f_equal. by apply List.filter_ext. Qed.

Lemma count_pos f m : wf m → count f m ≠ 0 ↔ ∃ k v, get m k = Some v ∧ f v = true.
Proof.
  intros Hwf. unfold count. rewrite length_zero_iff_nil. split.
  - destruct (List.filter f (values m)) as [|v l] eqn:Hl; [done|]. intros _.
    assert (v ∈ List.filter f (values m)) as Hv by (rewrite Hl; left).
    apply elem_of_filter_map_bool in Hv as [Hv ?].
    apply elem_of_values in Hv as [k ?]; eauto.
  - intros (k & v & Hk & Hf) Hnil.
    assert (v ∈ List.filter f (values m)) as Hv; [|rewrite Hnil in Hv; by apply not_elem_of_nil in Hv].
    apply elem_of_filter_map_bool. split; [|done]. apply elem_of_values; eauto.
Qed.
End Theory.

#[export] Hint Resolve wf_empty wf_set wf_delete wf_delete_where : mistle.
#[export] Hint Rewrite @get_empty @get_set_eq @get_delete_eq : mistle.

(** ** Refinement of finite maps *)
Section Refinement.
Context {K V : Type} `{Countable K}.
Implicit Types (m : t K V).

Definition to_gmap (m : t K V) : gmap K V := list_to_map m.

Lemma lookup_to_gmap m k : to_gmap m !! k = get m k.
Proof.
  unfold to_gmap. induction m as [|[k1 v1] m IH]; simpl; [done|].
  rewrite lookup_insert. repeat case_decide; congruence.
Qed.

Lemma to_gmap_empty : to_gmap empty = ∅.
Proof. done. Qed.

Lemma to_gmap_set m k v : to_gmap (set m k v) = <[k := v]> (to_gmap m).
Proof.
  apply map_eq. intros k'. rewrite lookup_to_gmap, get_set, lookup_insert.
  by rewrite lookup_to_gmap.
Qed.

Lemma to_gmap_delete m k : to_gmap (delete m k) = base.delete k (to_gmap m).
Proof.
  apply map_eq. intros k'. rewrite lookup_to_gmap, get_delete, lookup_delete.
  by rewrite lookup_to_gmap.
Qed.

Lemma to_gmap_size m : wf m → size m = base.size (to_gmap m).
Proof.
  unfold wf, keys, size, to_gmap. intros Hwf.
  induction m as [|[k v] m IH]; simpl in *; [by rewrite map_size_empty|].
  apply NoDup_cons in Hwf as [Hk Hnd].
  rewrite map_size_insert_None; [by rewrite IH|].
  by apply not_elem_of_list_to_map_1.
Qed.
End Refinement.
End JsMap.

(** [Set<K>]: only membership is observed by the code modelled here. *)
Module JsSet.
Section Operations.
Context {K : Type} `{Countable K}.
Definition has (s : gset K) (k : K) : bool := bool_decide (k ∈ s).
Definition add (s : gset K) (k : K) : gset K := {[ k ]} ∪ s.
Definition delete (s : gset K) (k : K) : gset K := s ∖ {[ k ]}.
End Operations.
End JsSet.
