(* ===== verification/JsObject.v ===== *)
(** * Objects used as records

    The own properties of an object are listed with the keys that are array
    indices first, in numeric order, and then the other keys in the order they
    were first written ([Object.entries], [JSON.stringify]).  [o[k] = v] for the
    key ["__proto__"] sets the prototype, or nothing when [v] is no object; the
    functions that create properties ([Object.fromEntries], [JSON.parse]) do not
    treat that key specially. *)

From S2P Require Import Prelude JsMap.
Local Open Scope Z_scope.

Module JsObject.

Fixpoint index_digits (acc : Z) (s : string) : option Z :=
  match s with
  | EmptyString => Some acc
  | String c s =>
      let d := Z.of_nat (Ascii.nat_of_ascii c) - 48 in
      if (0 <=? d) && (d <=? 9) then index_digits (10 * acc + d) s else None
  end.

(** The array index a key is, if it is one: its canonical decimal text. *)
Definition index_of (key : string) : option Z :=
  match key with
  | EmptyString => None
  | String c s =>
      if key =?= "0" then Some 0
      else if Z.of_nat (Ascii.nat_of_ascii c) =? 48 then None
      else n ← index_digits 0 key; if n <? 2 ^ 32 - 1 then Some n else None
  end.

Definition is_index (key : string) : bool := bool_decide (is_Some (index_of key)).

Section Operations.
Context {V : Type}.
Implicit Types (o : JsMap.t string V).

Definition compare_index (e f : string * V) : Z :=
  default 0 (index_of e.1) - default 0 (index_of f.1).

(** The listing order of the properties written in the order of [o]. *)
Definition ordered o : JsMap.t string V :=
  sort compare_index (List.filter (λ e, is_index e.1) o) ++ List.filter (λ e, negb (is_index e.1)) o.

(** A property is created or overwritten. *)
Definition set o (k : string) (v : V) : JsMap.t string V := ordered (JsMap.set o k v).

(** [o[k] = v] for a value [v] that is no object *)
Definition assign o (k : string) (v : V) : JsMap.t string V :=
  if k =?= "__proto__" then o else set o k v.

(** [Object.fromEntries(l)] *)
Definition fromEntries (l : list (string * V)) : JsMap.t string V := ordered (JsMap.of_list l).
End Operations.

Section Theory.
Context {V : Type}.
Implicit Types (o : JsMap.t string V).

Lemma filter_perm (f : string * V → bool) o :
  List.filter f o ++ List.filter (λ e, negb (f e)) o ≡ₚ o.
Proof.
  induction o as [|e o IH]; simpl; [done|]. destruct (f e); simpl.
  - by rewrite IH.
  - by rewrite <- Permutation_middle, IH.
Qed.

Lemma ordered_perm o : ordered o ≡ₚ o.
Proof. unfold ordered. rewrite sort_perm. apply (filter_perm (λ e, is_index e.1)). Qed.

Lemma wf_ordered o : JsMap.wf o → JsMap.wf (ordered o).
Proof. unfold JsMap.wf, JsMap.keys. by rewrite ordered_perm. Qed.

Lemma get_ordered o k : JsMap.wf o → JsMap.get (ordered o) k = JsMap.get o k.
Proof.
  intros Hwf. apply option_eq. intros v.
  rewrite <- !JsMap.elem_of_get by auto using wf_ordered. by rewrite ordered_perm.
Qed.

Lemma ordered_plain o : Forall (λ e, is_index e.1 = false) o → ordered o = o.
Proof.
  unfold ordered. intros Hall.
  assert (List.filter (λ e, is_index e.1) o = [] ∧ List.filter (λ e, negb (is_index e.1)) o = o)
    as [-> ->]; [|done].
  induction Hall as [|e o He Hall [IH1 IH2]]; simpl; [done|]. rewrite He. cbn [negb].
  by rewrite IH1, IH2.
Qed.

Lemma wf_object_set o k v : JsMap.wf o → JsMap.wf (set o k v).
Proof. intros. by apply wf_ordered, JsMap.wf_set. Qed.

Lemma get_object_set o k k' v :
  JsMap.wf o → JsMap.get (set o k v) k' = if decide (k = k') then Some v else JsMap.get o k'.
Proof. intros. unfold set. by rewrite get_ordered, JsMap.get_set by (by apply JsMap.wf_set). Qed.

Lemma wf_assign o k v : JsMap.wf o → JsMap.wf (assign o k v).
Proof. unfold assign. case_match; auto using wf_object_set. Qed.

Lemma wf_of_list (l : list (string * V)) : JsMap.wf (JsMap.of_list l).
Proof.
  unfold JsMap.of_list.
  assert (∀ o, JsMap.wf o → JsMap.wf (foldl (λ m e, JsMap.set m e.1 e.2) o l)) as H.
  { induction l as [|e l IH]; simpl; auto using JsMap.wf_set. }
  apply H, JsMap.wf_empty.
Qed.

Lemma wf_fromEntries (l : list (string * V)) : JsMap.wf (fromEntries l).
Proof. apply wf_ordered, wf_of_list. Qed.
End Theory.

#[export] Hint Resolve wf_ordered wf_object_set wf_assign wf_of_list wf_fromEntries : mistle.

End JsObject.
