(* ===== verification/Lifecycle.v ===== *)
(** * Sandbox lifecycle (packages/sandbox-lifecycle)

    The status machine of a sandbox instance and the policies read from it:
    - [SandboxInstanceStatuses], [isSandboxInstanceStatus],
      [assertSandboxInstanceLifecycleStatus]: statuses.ts;
    - [SandboxLifecycleEvents], [transitionSandboxLifecycle], [transitionFrom]:
      transition.ts;
    - delivery, token exchange, user stop, disconnect reconciliation and
      effective status: policy.ts.

    The theorems describe the transition graph ([lifecycle_edge]) by rule
    induction, and relate each policy to the transitions it allows. *)

From S2P Require Import Prelude.

(** ** statuses.ts *)

Module SandboxInstanceStatuses.
Inductive SandboxInstanceStatus : Type :=
| PENDING | STARTING | STARTED | INITIALIZING | RUNNING
| DEGRADED | RECONNECTING | STOPPING | STOPPED | FAILED.

#[export] Instance eq_dec : EqDecision SandboxInstanceStatus.
Proof. solve_decision. Defined.

Definition all_statuses : list SandboxInstanceStatus :=
  [PENDING; STARTING; STARTED; INITIALIZING; RUNNING;
   DEGRADED; RECONNECTING; STOPPING; STOPPED; FAILED].

(** The string a status is at run time. *)
Definition status_value (s : SandboxInstanceStatus) : string :=
  match s with
  | PENDING => "pending"
  | STARTING => "starting"
  | STARTED => "started"
  | INITIALIZING => "initializing"
  | RUNNING => "running"
  | DEGRADED => "degraded"
  | RECONNECTING => "reconnecting"
  | STOPPING => "stopping"
  | STOPPED => "stopped"
  | FAILED => "failed"
  end.

(** The status a string denotes. *)
Definition status_of_string (input : string) : option SandboxInstanceStatus :=
  list_find (λ s, status_value s = input) all_statuses ≫= λ p, Some p.2.
End SandboxInstanceStatuses.
Import (hints) SandboxInstanceStatuses.
Local Notation Status := SandboxInstanceStatuses.SandboxInstanceStatus.

Definition isSandboxInstanceStatus (input : string) : bool :=
  if input =?= SandboxInstanceStatuses.status_value SandboxInstanceStatuses.PENDING then true
  else if input =?= SandboxInstanceStatuses.status_value SandboxInstanceStatuses.STARTING then true
  else if input =?= SandboxInstanceStatuses.status_value SandboxInstanceStatuses.STARTED then true
  else if input =?= SandboxInstanceStatuses.status_value SandboxInstanceStatuses.INITIALIZING then true
  else if input =?= SandboxInstanceStatuses.status_value SandboxInstanceStatuses.RUNNING then true
  else if input =?= SandboxInstanceStatuses.status_value SandboxInstanceStatuses.DEGRADED then true
  else if input =?= SandboxInstanceStatuses.status_value SandboxInstanceStatuses.RECONNECTING then true
  else if input =?= SandboxInstanceStatuses.status_value SandboxInstanceStatuses.STOPPING then true
  else if input =?= SandboxInstanceStatuses.status_value SandboxInstanceStatuses.STOPPED then true
  else if input =?= SandboxInstanceStatuses.status_value SandboxInstanceStatuses.FAILED then true
  else false.

(** [asserts input is SandboxInstanceStatus]: throws unless [input] is a status. *)
Definition assertSandboxInstanceLifecycleStatus (input : string) : string + unit :=
  if negb (isSandboxInstanceStatus input)
  then inl ("Unsupported sandbox instance status '" +:+ input +:+ "'.")
  else inr tt.

(** ** transition.ts *)

Module SandboxLifecycleEvents.
Inductive SandboxLifecycleEvent : Type :=
| PROVIDER_START_REQUESTED | PROVIDER_START_ACCEPTED
| PROVIDER_RUNTIME_INITIALIZATION_STARTED | RUNTIME_READY
| BOOTSTRAP_DEGRADED | BOOTSTRAP_RECOVERED | BOOTSTRAP_DETACHED
| BOOTSTRAP_REATTACHED_NOT_READY | BOOTSTRAP_REATTACHED_READY
| STOP_REQUESTED | PROVIDER_STOPPED | FAILURE_RECORDED.

#[export] Instance eq_dec : EqDecision SandboxLifecycleEvent.
Proof. solve_decision. Defined.

Definition event_value (e : SandboxLifecycleEvent) : string :=
  match e with
  | PROVIDER_START_REQUESTED => "provider_start_requested"
  | PROVIDER_START_ACCEPTED => "provider_start_accepted"
  | PROVIDER_RUNTIME_INITIALIZATION_STARTED => "provider_runtime_initialization_started"
  | RUNTIME_READY => "runtime_ready"
  | BOOTSTRAP_DEGRADED => "bootstrap_degraded"
  | BOOTSTRAP_RECOVERED => "bootstrap_recovered"
  | BOOTSTRAP_DETACHED => "bootstrap_detached"
  | BOOTSTRAP_REATTACHED_NOT_READY => "bootstrap_reattached_not_ready"
  | BOOTSTRAP_REATTACHED_READY => "bootstrap_reattached_ready"
  | STOP_REQUESTED => "stop_requested"
  | PROVIDER_STOPPED => "provider_stopped"
  | FAILURE_RECORDED => "failure_recorded"
  end.
End SandboxLifecycleEvents.
Import (hints) SandboxLifecycleEvents.
Local Notation Event := SandboxLifecycleEvents.SandboxLifecycleEvent.

Inductive SandboxLifecycleTransitionResult : Type :=
| Transition (from to : Status)
| Unchanged (status : Status)
| Invalid (status : Status) (event : Event) (reason : string).

Record TransitionRule : Type := {
  rule_from : list Status;
  rule_to : Status;
  rule_idempotent : option (list Status);
}.

Definition includes {A} `{EqDecision A} (l : list A) (x : A) : bool :=
  bool_decide (x ∈ l).

Definition transitionFrom (status : Status) (event : Event) (rule : TransitionRule)
    : SandboxLifecycleTransitionResult :=
  if includes rule.(rule_from) status then
    if status =?= rule.(rule_to) then Unchanged status
    else Transition status rule.(rule_to)
  else if default false ((λ l, includes l status) <$> rule.(rule_idempotent)) then Unchanged status
  else Invalid status event
         ("Cannot apply sandbox lifecycle event '" +:+ SandboxLifecycleEvents.event_value event
          +:+ "' while status is '" +:+ SandboxInstanceStatuses.status_value status +:+ "'.").

Section Transition.
Import SandboxInstanceStatuses SandboxLifecycleEvents.

Definition transitionSandboxLifecycle (status : Status) (event : Event)
    : SandboxLifecycleTransitionResult :=
  match event with
  | PROVIDER_START_REQUESTED =>
      transitionFrom status event
        {| rule_from := [PENDING; STOPPED; FAILED];
           rule_to := STARTING; rule_idempotent := Some [STARTING] |}
  | PROVIDER_START_ACCEPTED =>
      transitionFrom status event
        {| rule_from := [STARTING]; rule_to := STARTED; rule_idempotent := Some [STARTED] |}
  | PROVIDER_RUNTIME_INITIALIZATION_STARTED =>
      transitionFrom status event
        {| rule_from := [STARTED]; rule_to := INITIALIZING;
           rule_idempotent := Some [INITIALIZING] |}
  | RUNTIME_READY =>
      transitionFrom status event
        {| rule_from := [INITIALIZING]; rule_to := RUNNING; rule_idempotent := Some [RUNNING] |}
  | BOOTSTRAP_DEGRADED =>
      transitionFrom status event
        {| rule_from := [RUNNING]; rule_to := DEGRADED; rule_idempotent := Some [DEGRADED] |}
  | BOOTSTRAP_RECOVERED =>
      transitionFrom status event
        {| rule_from := [DEGRADED]; rule_to := RUNNING; rule_idempotent := Some [RUNNING] |}
  | BOOTSTRAP_DETACHED =>
      transitionFrom status event
        {| rule_from := [RUNNING; DEGRADED]; rule_to := RECONNECTING;
           rule_idempotent := Some [RECONNECTING] |}
  | BOOTSTRAP_REATTACHED_NOT_READY =>
      transitionFrom status event
        {| rule_from := [RECONNECTING]; rule_to := INITIALIZING;
           rule_idempotent := Some [INITIALIZING] |}
  | BOOTSTRAP_REATTACHED_READY =>
      transitionFrom status event
        {| rule_from := [RECONNECTING]; rule_to := RUNNING; rule_idempotent := Some [RUNNING] |}
  | STOP_REQUESTED =>
      transitionFrom status event
        {| rule_from := [STARTING; STARTED; RUNNING; DEGRADED; RECONNECTING; INITIALIZING];
           rule_to := STOPPING; rule_idempotent := Some [STOPPING] |}
  | PROVIDER_STOPPED =>
      transitionFrom status event
        {| rule_from := [STOPPING]; rule_to := STOPPED; rule_idempotent := Some [STOPPED] |}
  | FAILURE_RECORDED =>
      transitionFrom status event
        {| rule_from := [PENDING; STARTING; STARTED; INITIALIZING; RUNNING; DEGRADED;
                         RECONNECTING; STOPPING; STOPPED];
           rule_to := FAILED; rule_idempotent := Some [FAILED] |}
  end.
End Transition.

(** ** policy.ts *)

Module SandboxDeliveryDispositions.
Inductive SandboxDeliveryDisposition : Type := DELIVER | WAIT | RESUME | RECOVER | NON_DELIVERABLE.
#[export] Instance eq_dec : EqDecision SandboxDeliveryDisposition.
Proof. solve_decision. Defined.
End SandboxDeliveryDispositions.

Module SandboxDisconnectReconciliationPhases.
Inductive SandboxDisconnectReconciliationPhase : Type := STARTUP | RUNTIME | STOPPING.
#[export] Instance eq_dec : EqDecision SandboxDisconnectReconciliationPhase.
Proof. solve_decision. Defined.
End SandboxDisconnectReconciliationPhases.
Import (hints) SandboxDeliveryDispositions SandboxDisconnectReconciliationPhases.

Section Policy.
Import SandboxInstanceStatuses.

Definition getSandboxDeliveryDisposition (status : Status) : SandboxDeliveryDispositions.SandboxDeliveryDisposition :=
  match status with
  | RUNNING => SandboxDeliveryDispositions.DELIVER
  | PENDING | STARTING | STARTED | INITIALIZING | DEGRADED | RECONNECTING =>
      SandboxDeliveryDispositions.WAIT
  | STOPPED => SandboxDeliveryDispositions.RESUME
  | FAILED => SandboxDeliveryDispositions.RECOVER
  | STOPPING => SandboxDeliveryDispositions.NON_DELIVERABLE
  end.

Definition isSandboxBootstrapTokenExchangeEligible (status : Status) : bool :=
  match status with
  | STARTING | STARTED | INITIALIZING | RUNNING | DEGRADED | RECONNECTING => true
  | PENDING | STOPPING | STOPPED | FAILED => false
  end.

Definition isSandboxUserStopEligible (status : Status) : bool :=
  match status with
  | RUNNING | DEGRADED | RECONNECTING => true
  | PENDING | STARTING | STARTED | INITIALIZING | STOPPING | STOPPED | FAILED => false
  end.

Definition getSandboxDisconnectReconciliationPhase (status : Status)
    : option SandboxDisconnectReconciliationPhases.SandboxDisconnectReconciliationPhase :=
  match status with
  | STARTING | STARTED | INITIALIZING => Some SandboxDisconnectReconciliationPhases.STARTUP
  | RUNNING | DEGRADED | RECONNECTING => Some SandboxDisconnectReconciliationPhases.RUNTIME
  | STOPPING => Some SandboxDisconnectReconciliationPhases.STOPPING
  | PENDING | STOPPED | FAILED => None
  end.

Definition isSandboxDisconnectReconciliationCandidate (status : Status) : bool :=
  negb (getSandboxDisconnectReconciliationPhase status =?= None).

Definition getSandboxEffectiveStatus (persistedStatus : Status)
    (runtimeReady bootstrapAttached : bool) : Status :=
  match persistedStatus with
  | PENDING | FAILED | DEGRADED | RECONNECTING | STOPPING => persistedStatus
  | RUNNING =>
      if runtimeReady then RUNNING
      else if bootstrapAttached then INITIALIZING
      else RECONNECTING
  | STOPPED =>
      if runtimeReady then RUNNING
      else if bootstrapAttached then INITIALIZING
      else STOPPED
  | STARTING | STARTED | INITIALIZING =>
      if runtimeReady then RUNNING
      else if bootstrapAttached then INITIALIZING
      else persistedStatus
  end.
End Policy.

(** ** The transition graph *)

(** One accepted lifecycle event that changes the status. *)
Definition lifecycle_edge (s t : Status) : Prop :=
  ∃ e, transitionSandboxLifecycle s e = Transition s t.

(** A run of the machine: the statuses visited, oldest first. *)
Inductive lifecycle_path : list Status → Status → Prop :=
| path_start s : lifecycle_path [s] s
| path_step p s t : lifecycle_path p s → lifecycle_edge s t → lifecycle_path (p ++ [t]) t.

Section Graph.
Import SandboxInstanceStatuses SandboxLifecycleEvents.

(** The successors of a status, read off the rules of transition.ts. *)
Definition successors (s : Status) : list Status :=
  match s with
  | PENDING => [STARTING; FAILED]
  | STARTING => [STARTED; STOPPING; FAILED]
  | STARTED => [INITIALIZING; STOPPING; FAILED]
  | INITIALIZING => [RUNNING; STOPPING; FAILED]
  | RUNNING => [DEGRADED; RECONNECTING; STOPPING; FAILED]
  | DEGRADED => [RUNNING; RECONNECTING; STOPPING; FAILED]
  | RECONNECTING => [INITIALIZING; RUNNING; STOPPING; FAILED]
  | STOPPING => [STOPPED; FAILED]
  | STOPPED => [STARTING; FAILED]
  | FAILED => [STARTING]
  end.

(** The statuses every run from PENDING has gone through to be at [s]. *)
Definition milestones (s : Status) : list Status :=
  match s with
  | PENDING => [PENDING]
  | STARTING => [PENDING; STARTING]
  | STARTED => [PENDING; STARTING; STARTED]
  | INITIALIZING => [PENDING; STARTING; STARTED; INITIALIZING]
  | RUNNING => [PENDING; STARTING; STARTED; INITIALIZING; RUNNING]
  | DEGRADED => [PENDING; STARTING; STARTED; INITIALIZING; RUNNING; DEGRADED]
  | RECONNECTING => [PENDING; STARTING; STARTED; INITIALIZING; RUNNING; RECONNECTING]
  | STOPPING => [PENDING; STARTING; STOPPING]
  | STOPPED => [PENDING; STARTING; STOPPING; STOPPED]
  | FAILED => [PENDING; FAILED]
  end.

(** The arrows of the machine, each with its event: what an event means for a
    sandbox instance, written down without the rules of transition.ts. *)
Inductive lifecycle_arrow : Event → Status → Status → Prop :=
| arrow_start s : s = PENDING ∨ s = STOPPED ∨ s = FAILED →
    lifecycle_arrow PROVIDER_START_REQUESTED s STARTING
| arrow_started : lifecycle_arrow PROVIDER_START_ACCEPTED STARTING STARTED
| arrow_initializing : lifecycle_arrow PROVIDER_RUNTIME_INITIALIZATION_STARTED STARTED INITIALIZING
| arrow_ready : lifecycle_arrow RUNTIME_READY INITIALIZING RUNNING
| arrow_degraded : lifecycle_arrow BOOTSTRAP_DEGRADED RUNNING DEGRADED
| arrow_recovered : lifecycle_arrow BOOTSTRAP_RECOVERED DEGRADED RUNNING
| arrow_detached s : s = RUNNING ∨ s = DEGRADED → lifecycle_arrow BOOTSTRAP_DETACHED s RECONNECTING
| arrow_reattached : lifecycle_arrow BOOTSTRAP_REATTACHED_NOT_READY RECONNECTING INITIALIZING
| arrow_reattached_ready : lifecycle_arrow BOOTSTRAP_REATTACHED_READY RECONNECTING RUNNING
| arrow_stop s : s ≠ PENDING → s ≠ STOPPING → s ≠ STOPPED → s ≠ FAILED →
    lifecycle_arrow STOP_REQUESTED s STOPPING
| arrow_stopped : lifecycle_arrow PROVIDER_STOPPED STOPPING STOPPED
| arrow_failed s : s ≠ FAILED → lifecycle_arrow FAILURE_RECORDED s FAILED.
End Graph.

(** Settle a finite goal about statuses and events by evaluation. *)
Ltac by_status := intros *; cbv -[String.append not]; intros; simplify_eq; try done.

(** The rules of transition.ts accept exactly the arrows. *)
Lemma transition_arrow (s : Status) (e : Event) (f t : Status) :
  transitionSandboxLifecycle s e = Transition f t ↔ f = s ∧ lifecycle_arrow e s t.
Proof.
  split.
  - intros H. destruct s, e; vm_compute in H; simplify_eq;
      (split; [done|constructor; naive_solver]).
  - intros [-> H]. destruct H; destruct_or?; simplify_eq; try done; by destruct s.
Qed.

Lemma status_of_string_value (s : Status) :
  SandboxInstanceStatuses.status_of_string (SandboxInstanceStatuses.status_value s) = Some s.
Proof. by destruct s. Qed.

Lemma status_value_inj (s t : Status) :
  SandboxInstanceStatuses.status_value s = SandboxInstanceStatuses.status_value t → s = t.
Proof.
  intros Heq. apply (inj Some). by rewrite <-!status_of_string_value, Heq.
Qed.

Lemma isSandboxInstanceStatus_value (s : Status) :
  isSandboxInstanceStatus (SandboxInstanceStatuses.status_value s) = true.
Proof. by destruct s. Qed.

Lemma isSandboxInstanceStatus_inv (input : string) :
  isSandboxInstanceStatus input = true →
  ∃ s, input = SandboxInstanceStatuses.status_value s.
Proof.
  unfold isSandboxInstanceStatus. intros H.
  repeat (case_bool_decide; [by eexists|]). done.
Qed.

Lemma transition_from_self (s : Status) (e : Event) (f t : Status) :
  transitionSandboxLifecycle s e = Transition f t → f = s.
Proof. destruct s, e; by_status. Qed.

Lemma transition_target_unchanged (s : Status) (e : Event) (t : Status) :
  transitionSandboxLifecycle s e = Transition s t →
  transitionSandboxLifecycle t e = Unchanged t.
Proof. destruct s, e; by_status. Qed.

Lemma transition_unchanged_self (s : Status) (e : Event) (t : Status) :
  transitionSandboxLifecycle s e = Unchanged t → t = s.
Proof. destruct s, e; by_status. Qed.

Lemma transition_changes (s : Status) (e : Event) (f t : Status) :
  transitionSandboxLifecycle s e = Transition f t → s ≠ t.
Proof. destruct s, e; by_status. Qed.

Lemma lifecycle_edge_successors (s t : Status) :
  lifecycle_edge s t ↔ t ∈ successors s.
Proof.
  split.
  - intros [e He]. revert He.
    destruct s, e; vm_compute; intros; simplify_eq; repeat constructor.
  - intros Ht. unfold lifecycle_edge.
    destruct s; cbn [successors] in Ht; rewrite !elem_of_cons in Ht;
      repeat destruct Ht as [->|Ht]; try (by apply not_elem_of_nil in Ht);
      first [ by exists SandboxLifecycleEvents.PROVIDER_START_REQUESTED
            | by exists SandboxLifecycleEvents.PROVIDER_START_ACCEPTED
            | by exists SandboxLifecycleEvents.PROVIDER_RUNTIME_INITIALIZATION_STARTED
            | by exists SandboxLifecycleEvents.RUNTIME_READY
            | by exists SandboxLifecycleEvents.BOOTSTRAP_DEGRADED
            | by exists SandboxLifecycleEvents.BOOTSTRAP_RECOVERED
            | by exists SandboxLifecycleEvents.BOOTSTRAP_DETACHED
            | by exists SandboxLifecycleEvents.BOOTSTRAP_REATTACHED_NOT_READY
            | by exists SandboxLifecycleEvents.BOOTSTRAP_REATTACHED_READY
            | by exists SandboxLifecycleEvents.STOP_REQUESTED
            | by exists SandboxLifecycleEvents.PROVIDER_STOPPED
            | by exists SandboxLifecycleEvents.FAILURE_RECORDED ].
Qed.

#[export] Hint Resolve status_value_inj isSandboxInstanceStatus_value
  transition_target_unchanged : mistle.

(** ** Properties *)

(** A sandbox instance that runs has been started properly: every run of
    the status machine from [pending] contains, in order, the milestones of the
    status it ends in (for [running]: pending, starting, started,
    initializing, running). *)
Theorem lifecycle_path_milestones (p : list Status) (s : Status) :
  lifecycle_path p s →
  head p = Some SandboxInstanceStatuses.PENDING →
  milestones s `sublist_of` p.
Proof.
  induction 1 as [s|p s t Hp IH Hst]; intros Hhead.
  - injection Hhead as ->. reflexivity.
  - transitivity (milestones s ++ [t]); cycle 1.
    { apply sublist_app; [|reflexivity]. apply IH.
      by destruct Hp as [|[] ????]. }
    apply lifecycle_edge_successors in Hst.
    destruct s; cbn [successors] in Hst; rewrite !elem_of_cons in Hst;
      repeat destruct Hst as [->|Hst]; try (by apply not_elem_of_nil in Hst);
      cbn [milestones app];
      repeat first [apply sublist_nil | apply sublist_skip | apply sublist_cons].
Qed.

(** The start-up run of a sandbox, then a loss and recovery of its bootstrap tunnel. *)
Lemma lifecycle_path_milestones_witness :
  milestones SandboxInstanceStatuses.RUNNING `sublist_of`
    [SandboxInstanceStatuses.PENDING; SandboxInstanceStatuses.STARTING;
     SandboxInstanceStatuses.STARTED; SandboxInstanceStatuses.INITIALIZING;
     SandboxInstanceStatuses.RUNNING; SandboxInstanceStatuses.RECONNECTING;
     SandboxInstanceStatuses.RUNNING].
Proof.
  apply (lifecycle_path_milestones _ SandboxInstanceStatuses.RUNNING); [|reflexivity].
  apply (path_step [_; _; _; _; _; _] SandboxInstanceStatuses.RECONNECTING); [|by exists SandboxLifecycleEvents.BOOTSTRAP_REATTACHED_READY].
  apply (path_step [_; _; _; _; _] SandboxInstanceStatuses.RUNNING); [|by exists SandboxLifecycleEvents.BOOTSTRAP_DETACHED].
  apply (path_step [_; _; _; _] SandboxInstanceStatuses.INITIALIZING); [|by exists SandboxLifecycleEvents.RUNTIME_READY].
  apply (path_step [_; _; _] SandboxInstanceStatuses.STARTED);
    [|by exists SandboxLifecycleEvents.PROVIDER_RUNTIME_INITIALIZATION_STARTED].
  apply (path_step [_; _] SandboxInstanceStatuses.STARTING); [|by exists SandboxLifecycleEvents.PROVIDER_START_ACCEPTED].
  apply (path_step [_] SandboxInstanceStatuses.PENDING); [|by exists SandboxLifecycleEvents.PROVIDER_START_REQUESTED].
  apply path_start.
Defined.

(** [transitionSandboxLifecycle] is total and deterministic on its rules:
    it changes the status exactly along [successors], reports the current
    status otherwise, and applying an event a second time leaves the status it
    reached unchanged, so a retried event is never rejected. *)
Theorem transitionSandboxLifecycle_spec (s : Status) (e : Event) :
  match transitionSandboxLifecycle s e with
  | Transition f t =>
      f = s ∧ t ∈ successors s ∧ t ≠ s ∧ transitionSandboxLifecycle t e = Unchanged t
  | Unchanged t => t = s
  | Invalid t e' _ => t = s ∧ e' = e ∧ ∀ t', ¬ transitionSandboxLifecycle s e = Transition s t'
  end.
Proof.
  destruct (transitionSandboxLifecycle s e) as [f t|t|t e' r] eqn:He.
  - pose proof (transition_from_self _ _ _ _ He) as ->.
    split_and!; [done| |apply not_eq_sym; by eapply transition_changes|
                 by eapply transition_target_unchanged].
    apply lifecycle_edge_successors. by exists e.
  - by apply (transition_unchanged_self _ e).
  - revert He. destruct s, e; by_status.
Qed.

(** No status is a dead end: [running] can be reached from every status,
    and every status but [failed] can record a failure. *)
Theorem lifecycle_recoverable (s : Status) :
  rtc lifecycle_edge s SandboxInstanceStatuses.RUNNING ∧
  (s ≠ SandboxInstanceStatuses.FAILED → lifecycle_edge s SandboxInstanceStatuses.FAILED).
Proof.
  assert (∀ a b, b ∈ successors a → rtc lifecycle_edge b SandboxInstanceStatuses.RUNNING →
                 rtc lifecycle_edge a SandboxInstanceStatuses.RUNNING) as Hstep.
  { intros a b Hab Hb. eapply rtc_l; [|done]. by apply lifecycle_edge_successors. }
  assert (rtc lifecycle_edge SandboxInstanceStatuses.STARTING
              SandboxInstanceStatuses.RUNNING) as Hstarting.
  { apply (Hstep _ SandboxInstanceStatuses.STARTED); [set_solver|].
    apply (Hstep _ SandboxInstanceStatuses.INITIALIZING); [set_solver|].
    apply (Hstep _ SandboxInstanceStatuses.RUNNING); [set_solver|]. reflexivity. }
  split.
  - destruct s; try done; try reflexivity;
      first [ apply (Hstep _ SandboxInstanceStatuses.STARTING); [set_solver|done]
            | apply (Hstep _ SandboxInstanceStatuses.RUNNING); [set_solver|reflexivity]
            | apply (Hstep _ SandboxInstanceStatuses.INITIALIZING); [set_solver|];
              apply (Hstep _ SandboxInstanceStatuses.RUNNING); [set_solver|reflexivity]
            | apply (Hstep _ SandboxInstanceStatuses.STOPPED); [set_solver|];
              apply (Hstep _ SandboxInstanceStatuses.STARTING); [set_solver|done] ].
  - intros Hs. apply lifecycle_edge_successors. destruct s; set_solver.
Qed.

(** The policies agree with the status machine: a user may stop exactly the
    sandboxes in the runtime phase and their stop is accepted; a sandbox a
    delivery must resume or recover accepts a start; a sandbox is reconciled
    after a disconnect exactly when it may hold a bootstrap token or is
    stopping; and the failure of a reconciled sandbox is accepted. *)
Theorem lifecycle_policies_agree (s : Status) :
  (isSandboxUserStopEligible s = true ↔
     getSandboxDisconnectReconciliationPhase s
     = Some SandboxDisconnectReconciliationPhases.RUNTIME) ∧
  (isSandboxUserStopEligible s = true →
     transitionSandboxLifecycle s SandboxLifecycleEvents.STOP_REQUESTED
     = Transition s SandboxInstanceStatuses.STOPPING) ∧
  (getSandboxDeliveryDisposition s = SandboxDeliveryDispositions.RESUME ∨
   getSandboxDeliveryDisposition s = SandboxDeliveryDispositions.RECOVER →
     transitionSandboxLifecycle s SandboxLifecycleEvents.PROVIDER_START_REQUESTED
     = Transition s SandboxInstanceStatuses.STARTING) ∧
  (isSandboxDisconnectReconciliationCandidate s = true ↔
     isSandboxBootstrapTokenExchangeEligible s = true ∨ s = SandboxInstanceStatuses.STOPPING) ∧
  (isSandboxDisconnectReconciliationCandidate s = true →
     transitionSandboxLifecycle s SandboxLifecycleEvents.FAILURE_RECORDED
     = Transition s SandboxInstanceStatuses.FAILED).
Proof. destruct s; vm_compute; intuition (try done). Qed.

(** The status shown to users is [running] exactly when the runtime is
    ready and the persisted status is one a ready runtime can override; the
    persisted statuses pending, failed, degraded, reconnecting and stopping are
    shown as they are. *)
Theorem getSandboxEffectiveStatus_running (s : Status) (ready attached : bool) :
  (getSandboxEffectiveStatus s ready attached = SandboxInstanceStatuses.RUNNING ↔
     ready = true ∧
     s ∈ [SandboxInstanceStatuses.RUNNING; SandboxInstanceStatuses.STOPPED;
          SandboxInstanceStatuses.STARTING; SandboxInstanceStatuses.STARTED;
          SandboxInstanceStatuses.INITIALIZING]) ∧
  (s ∈ [SandboxInstanceStatuses.PENDING; SandboxInstanceStatuses.FAILED;
        SandboxInstanceStatuses.DEGRADED; SandboxInstanceStatuses.RECONNECTING;
        SandboxInstanceStatuses.STOPPING] →
     getSandboxEffectiveStatus s ready attached = s).
Proof. destruct s, ready, attached; simpl; set_solver. Qed.
