(* ===== verification/LifecycleStore.v ===== *)
(** * Lifecycle events on the stored sandbox instance

    The two services that write the status column through the status machine:
    - [applySandboxLifecycleEvent]: the data-plane worker
      (apps/data-plane-worker/openworkflow/shared/apply-sandbox-lifecycle-event.ts);
    - [applySandboxRuntimeLifecycleEvent]: the data-plane API
      (apps/data-plane-api/src/internal/sandbox-instances/services/
      apply-sandbox-runtime-lifecycle-event.ts), with the readiness predicates of
      apps/data-plane-api/src/runtime-state.

    Both read the status, compute a transition and write it with a
    compare-and-swap [UPDATE].  The database is a service: a table is the class
    [InstanceTable], whose laws say that a statement is atomic.  Between two
    statements of a call any other call may run, also inside the transaction of
    the API, which runs at the default isolation level (READ COMMITTED).  So a
    call is a small program counter machine ([worker_pc], [runtime_pc]) that
    makes one statement per step, and [store_step] interleaves any number of
    calls. *)

From S2P Require Import Prelude JsMap Lifecycle.

Local Notation Status := SandboxInstanceStatuses.SandboxInstanceStatus.
Local Notation Event := SandboxLifecycleEvents.SandboxLifecycleEvent.
Import (hints) SandboxInstanceStatuses SandboxLifecycleEvents.

(** ** The table of sandbox instances *)

(** [findFirst] selects the status of the row with this id and no [deletedAt];
    [update … where id = … and status = from and deletedAt is null returning
    status] returns the new status of the row it updated, if any. *)
Class InstanceTable (T : Type) : Type := {
  find_status : T → string → option Status;
  cas_status : T → string → Status → Status → option Status * T;
}.

Class InstanceTableLaws (T : Type) `{InstanceTable T} : Prop := {
  cas_status_result t id from to :
    (cas_status t id from to).1 =
      if decide (find_status t id = Some from) then Some to else None;
  find_after_cas t id from to id' :
    find_status (cas_status t id from to).2 id' =
      if decide (find_status t id = Some from ∧ id' = id) then Some to
      else find_status t id';
}.

(** A table in memory: the status and whether [deletedAt] is set. *)
Notation MemoryTable := (JsMap.t string (Status * bool)).

#[export] Instance memory_table : InstanceTable MemoryTable := {
  find_status t id :=
    match JsMap.get t id with Some (s, false) => Some s | _ => None end;
  cas_status t id from to :=
    match JsMap.get t id with
    | Some (s, false) =>
        if decide (s = from) then (Some to, JsMap.set t id (to, false)) else (None, t)
    | _ => (None, t)
    end;
}.

#[export] Instance memory_table_laws : InstanceTableLaws MemoryTable.
Proof.
  split; unfold cas_status, find_status; simpl.
  - intros t id from to. destruct (JsMap.get t id) as [[s []]|];
      repeat case_decide; naive_solver.
  - intros t id from to id'. destruct (JsMap.get t id) as [[s []]|] eqn:Hid; simpl.
    2: destruct (decide (s = from)) as [->|]; simpl; [rewrite JsMap.get_set|].
    all: repeat case_decide; naive_solver.
Qed.

(** ** Names of the log records *)

Section LogNames.
Import SandboxInstanceStatuses.

Definition resolveRuntimeLifecycleLogEventName (from to : Status) : string :=
  if (from =?= RECONNECTING) && (to =?= RUNNING) then "sandbox.reconnected"
  else match to with
       | DEGRADED => "sandbox.degraded"
       | RECONNECTING => "sandbox.reconnecting"
       | INITIALIZING => "sandbox.initializing"
       | RUNNING => "sandbox.running"
       | PENDING => "sandbox.pending"
       | STARTING => "sandbox.starting"
       | STARTED => "sandbox.started"
       | STOPPING => "sandbox.stopping"
       | STOPPED => "sandbox.stopped"
       | FAILED => "sandbox.failed"
       end.

Definition resolveSandboxLifecycleLogEventName (from to : Status) : string :=
  if (status_value from =?= "reconnecting") && (status_value to =?= "running")
  then "sandbox.reconnected"
  else match to with
       | STARTING => "sandbox.starting"
       | STARTED => "sandbox.started"
       | INITIALIZING => "sandbox.initializing"
       | RUNNING => "sandbox.running"
       | DEGRADED => "sandbox.degraded"
       | RECONNECTING => "sandbox.reconnecting"
       | STOPPING => "sandbox.stopping"
       | STOPPED => "sandbox.stopped"
       | FAILED => "sandbox.failed"
       | PENDING => "sandbox.pending"
       end.
End LogNames.

(** ** The runtime state snapshot the API reads from the gateway *)

Record SandboxRuntimeAttachment : Type := {
  attachment_sandboxInstanceId : string;
  attachment_ownerLeaseId : string;
  attachment_nodeId : string;
  attachment_sessionId : string;
  attachment_attachedAtMs : Z;
}.

Record SandboxRuntimeStateSnapshot : Type := {
  snapshot_ownerLeaseId : option string;
  snapshot_attachment : option SandboxRuntimeAttachment;
  snapshot_presence_activeCount : Z;
  snapshot_keepalive_active : bool;
  snapshot_runtime_ready : bool;
}.

Definition isSandboxBootstrapAttached (snapshot : SandboxRuntimeStateSnapshot) : bool :=
  match snapshot.(snapshot_ownerLeaseId) with
  | None => false
  | Some ownerLeaseId =>
      (attachment_ownerLeaseId <$> snapshot.(snapshot_attachment)) =?= Some ownerLeaseId
  end.

Definition isSandboxRuntimeReady (snapshot : SandboxRuntimeStateSnapshot) : bool :=
  if negb (isSandboxBootstrapAttached snapshot) then false
  else snapshot.(snapshot_runtime_ready).

(** effective-sandbox-instance-status.ts; the caller's string is narrowed first. *)
Definition resolveEffectiveSandboxInstanceStatus (persistedStatus : string)
    (runtimeStateSnapshot : option SandboxRuntimeStateSnapshot) : string + Status :=
  match assertSandboxInstanceLifecycleStatus persistedStatus with
  | inl e => inl e
  | inr tt =>
      (** The assertion narrows the string to the status it denotes: the default
          is never taken ([resolveEffectiveSandboxInstanceStatus_value]). *)
      let status := default SandboxInstanceStatuses.PENDING
                      (SandboxInstanceStatuses.status_of_string persistedStatus) in
      inr (getSandboxEffectiveStatus status
             (match runtimeStateSnapshot with
              | None => false | Some s => isSandboxRuntimeReady s end)
             (match runtimeStateSnapshot with
              | None => false | Some s => isSandboxBootstrapAttached s end))
  end.

(** ** The input of the API call *)

Inductive ApplySandboxRuntimeLifecycleEventInput : Type :=
| bootstrap_detached (sandboxInstanceId ownerLeaseId : string)
| bootstrap_degraded (sandboxInstanceId ownerLeaseId : string)
| bootstrap_recovered (sandboxInstanceId ownerLeaseId : string)
| runtime_readiness_reported (sandboxInstanceId ownerLeaseId : string) (runtimeReady : bool).

Definition input_sandboxInstanceId (input : ApplySandboxRuntimeLifecycleEventInput) : string :=
  match input with
  | bootstrap_detached id _ | bootstrap_degraded id _ | bootstrap_recovered id _
  | runtime_readiness_reported id _ _ => id
  end.

Definition input_ownerLeaseId (input : ApplySandboxRuntimeLifecycleEventInput) : string :=
  match input with
  | bootstrap_detached _ lease | bootstrap_degraded _ lease | bootstrap_recovered _ lease
  | runtime_readiness_reported _ lease _ => lease
  end.

(** The part of [isRuntimeLifecycleEventOwnerCurrent] after the snapshot is read. *)
Definition isRuntimeLifecycleEventOwnerCurrent (input : ApplySandboxRuntimeLifecycleEventInput)
    (snapshot : SandboxRuntimeStateSnapshot) : bool :=
  match input with
  | bootstrap_detached _ ownerLeaseId =>
      if (snapshot.(snapshot_ownerLeaseId) =?= None)
         && (match snapshot.(snapshot_attachment) with None => true | Some _ => false end)
      then true
      else (snapshot.(snapshot_ownerLeaseId) =?= Some ownerLeaseId)
           || ((attachment_ownerLeaseId <$> snapshot.(snapshot_attachment))
                 =?= Some ownerLeaseId)
  | _ => true
  end.

Section ResolveLifecycleEvent.
Import SandboxInstanceStatuses SandboxLifecycleEvents.

Definition resolveLifecycleEvent (status : Status)
    (input : ApplySandboxRuntimeLifecycleEventInput) : option Event :=
  match input with
  | bootstrap_detached _ _ =>
      if status =?= RECONNECTING then None
      else if negb (status =?= RUNNING) && negb (status =?= DEGRADED) then None
      else Some BOOTSTRAP_DETACHED
  | bootstrap_degraded _ _ =>
      if negb (status =?= RUNNING) then None else Some BOOTSTRAP_DEGRADED
  | bootstrap_recovered _ _ =>
      if negb (status =?= DEGRADED) then None else Some BOOTSTRAP_RECOVERED
  | runtime_readiness_reported _ _ runtimeReady =>
      if status =?= RECONNECTING then
        if runtimeReady then Some BOOTSTRAP_REATTACHED_READY
        else Some BOOTSTRAP_REATTACHED_NOT_READY
      else if runtimeReady && ((status =?= INITIALIZING) || (status =?= RUNNING))
      then Some RUNTIME_READY
      else None
  end.
End ResolveLifecycleEvent.

(** ** One call, one statement at a time *)

(** The world of a call: the table and the log records written. *)
Record StoreWorld (T : Type) : Type := mkWorld { world_table : T; world_log : list string }.
Arguments mkWorld {T} _ _.
Arguments world_table {T} _.
Arguments world_log {T} _.

(** Where a worker call is: before its [findFirst], its [update], the second
    [findFirst] after an update that matched no row, or at its result. *)
Inductive worker_pc : Type :=
| WorkerFind
| WorkerUpdate (from to : Status)
| WorkerRefind (from to : Status)
| WorkerReturn (result : string + Status).

(** Where an API call is: reading the snapshot, the [findFirst] of a stale owner,
    the [findFirst] of the transaction, its [update], or at its result. *)
Inductive runtime_pc : Type :=
| RuntimeSnapshot
| RuntimeStaleFind
| RuntimeFind
| RuntimeUpdate (event : Event) (from to : Status)
| RuntimeReturn (result : string + Status).

Section Calls.
Context {T : Type} `{InstanceTable T}.

Definition not_found (id : string) : string :=
  "Sandbox instance '" +:+ id +:+ "' was not found.".

Definition failed_to_apply (event : Event) (from to : Status) : string :=
  "Failed to apply sandbox lifecycle event '" +:+ SandboxLifecycleEvents.event_value event
  +:+ "' from '" +:+ SandboxInstanceStatuses.status_value from
  +:+ "' to '" +:+ SandboxInstanceStatuses.status_value to +:+ "'.".

Definition applySandboxLifecycleEvent_step (id : string) (event : Event) (pc : worker_pc)
    (w : StoreWorld T) : worker_pc * StoreWorld T :=
  match pc with
  | WorkerFind =>
      match find_status w.(world_table) id with
      | None =>
          (WorkerReturn (inl ("Sandbox instance '" +:+ id +:+
             "' was not found for lifecycle event '"
             +:+ SandboxLifecycleEvents.event_value event +:+ "'.")), w)
      | Some status =>
          match transitionSandboxLifecycle status event with
          | Invalid _ _ reason => (WorkerReturn (inl reason), w)
          | Unchanged status => (WorkerReturn (inr status), w)
          | Transition from to => (WorkerUpdate from to, w)
          end
      end
  | WorkerUpdate from to =>
      let (row, table) := cas_status w.(world_table) id from to in
      if negb (row =?= Some to) then (WorkerRefind from to, mkWorld table w.(world_log))
      else (WorkerReturn (inr to),
            mkWorld table (w.(world_log) ++ [resolveSandboxLifecycleLogEventName from to]))
  | WorkerRefind from to =>
      match find_status w.(world_table) id with
      | None =>
          (WorkerReturn (inl ("Sandbox instance '" +:+ id +:+
             "' was not found after lifecycle event '"
             +:+ SandboxLifecycleEvents.event_value event
             +:+ "' missed its compare-and-swap update.")), w)
      | Some current =>
          match transitionSandboxLifecycle current event with
          | Unchanged status => (WorkerReturn (inr status), w)
          | _ => (WorkerReturn (inl (failed_to_apply event from to)), w)
          end
      end
  | WorkerReturn _ => (pc, w)
  end.

(** [snapshot] is what [readSnapshot] answers when this call makes it. *)
Definition applySandboxRuntimeLifecycleEvent_step
    (input : ApplySandboxRuntimeLifecycleEventInput)
    (snapshot : SandboxRuntimeStateSnapshot) (pc : runtime_pc)
    (w : StoreWorld T) : runtime_pc * StoreWorld T :=
  let id := input_sandboxInstanceId input in
  match pc with
  | RuntimeSnapshot =>
      if negb (isRuntimeLifecycleEventOwnerCurrent input snapshot)
      then (RuntimeStaleFind, w) else (RuntimeFind, w)
  | RuntimeStaleFind =>
      match find_status w.(world_table) id with
      | None => (RuntimeReturn (inl (not_found id)), w)
      | Some status =>
          (RuntimeReturn (inr status),
           mkWorld w.(world_table)
             (w.(world_log) ++ ["sandbox.runtime_lifecycle.stale_owner_ignored"]))
      end
  | RuntimeFind =>
      match find_status w.(world_table) id with
      | None => (RuntimeReturn (inl (not_found id)), w)
      | Some status =>
          match resolveLifecycleEvent status input with
          | None => (RuntimeReturn (inr status), w)
          | Some event =>
              match transitionSandboxLifecycle status event with
              | Invalid _ _ reason => (RuntimeReturn (inl reason), w)
              | Unchanged status => (RuntimeReturn (inr status), w)
              | Transition from to => (RuntimeUpdate event from to, w)
              end
          end
      end
  | RuntimeUpdate event from to =>
      let (row, table) := cas_status w.(world_table) id from to in
      if negb (row =?= Some to)
      then (RuntimeReturn (inl (failed_to_apply event from to)), mkWorld table w.(world_log))
      else (RuntimeReturn (inr to),
            mkWorld table (w.(world_log) ++ [resolveRuntimeLifecycleLogEventName from to]))
  | RuntimeReturn _ => (pc, w)
  end.

(** A call that nothing interrupts: at most three statements of the worker
    call, at most three of the API call (the snapshot included). *)
Definition applySandboxLifecycleEvent (id : string) (event : Event) (w : StoreWorld T)
    : worker_pc * StoreWorld T :=
  Nat.iter 3 (λ p, applySandboxLifecycleEvent_step id event p.1 p.2) (WorkerFind, w).

Definition applySandboxRuntimeLifecycleEvent
    (input : ApplySandboxRuntimeLifecycleEventInput) (snapshot : SandboxRuntimeStateSnapshot)
    (w : StoreWorld T) : runtime_pc * StoreWorld T :=
  Nat.iter 3 (λ p, applySandboxRuntimeLifecycleEvent_step input snapshot p.1 p.2)
    (RuntimeSnapshot, w).
End Calls.

(** ** Interleavings of calls *)

(** A call in flight. *)
Inductive store_call : Type :=
| WorkerCall (id : string) (event : Event) (pc : worker_pc)
| RuntimeCall (input : ApplySandboxRuntimeLifecycleEventInput) (pc : runtime_pc).

Definition call_start (c : store_call) : Prop :=
  match c with
  | WorkerCall _ _ pc => pc = WorkerFind
  | RuntimeCall _ pc => pc = RuntimeSnapshot
  end.

Definition call_id (c : store_call) : string :=
  match c with
  | WorkerCall id _ _ => id
  | RuntimeCall input _ => input_sandboxInstanceId input
  end.

(** What a call has returned, if it has. *)
Definition call_result (c : store_call) : option (string + Status) :=
  match c with
  | WorkerCall _ _ (WorkerReturn r) | RuntimeCall _ (RuntimeReturn r) => Some r
  | _ => None
  end.

Section ReportedEvents.
Import SandboxInstanceStatuses SandboxLifecycleEvents.

(** What a report of the gateway means for an instance of a given status. *)
Inductive reported_event : ApplySandboxRuntimeLifecycleEventInput → Status → Event → Prop :=
| reported_detached id lease s : s = RUNNING ∨ s = DEGRADED →
    reported_event (bootstrap_detached id lease) s BOOTSTRAP_DETACHED
| reported_degraded id lease :
    reported_event (bootstrap_degraded id lease) RUNNING BOOTSTRAP_DEGRADED
| reported_recovered id lease :
    reported_event (bootstrap_recovered id lease) DEGRADED BOOTSTRAP_RECOVERED
| reported_reattached id lease :
    reported_event (runtime_readiness_reported id lease false) RECONNECTING
      BOOTSTRAP_REATTACHED_NOT_READY
| reported_reattached_ready id lease :
    reported_event (runtime_readiness_reported id lease true) RECONNECTING
      BOOTSTRAP_REATTACHED_READY
| reported_ready id lease s : s = INITIALIZING ∨ s = RUNNING →
    reported_event (runtime_readiness_reported id lease true) s RUNTIME_READY.
End ReportedEvents.

Lemma resolveLifecycleEvent_reported status input event :
  resolveLifecycleEvent status input = Some event ↔ reported_event input status event.
Proof.
  split.
  - intros Hr. destruct input as [| | |? ? []], status; vm_compute in Hr; simplify_eq;
      constructor; auto.
  - destruct 1; destruct_or?; by simplify_eq.
Qed.

(** The event a call stands for when its row holds the status [s]. *)
Definition call_event (c : store_call) (s : Status) (event : Event) : Prop :=
  match c with
  | WorkerCall _ e _ => event = e
  | RuntimeCall input _ => reported_event input s event
  end.

(** The two services name a status change in the logs alike. *)
Lemma resolveLifecycleLogEventName_agree (from to : Status) :
  resolveRuntimeLifecycleLogEventName from to = resolveSandboxLifecycleLogEventName from to.
Proof. by destruct from, to. Qed.

Section Interleaving.
Context {T : Type} `{InstanceTableLaws T}.

(** One statement of one call of the pool; the API's snapshot may be anything. *)
Inductive store_step : StoreWorld T * list store_call → StoreWorld T * list store_call → Prop :=
| step_worker w w' pool i id event pc pc' :
    pool !! i = Some (WorkerCall id event pc) →
    applySandboxLifecycleEvent_step id event pc w = (pc', w') →
    store_step (w, pool) (w', <[i := WorkerCall id event pc']> pool)
| step_runtime w w' pool i input snapshot pc pc' :
    pool !! i = Some (RuntimeCall input pc) →
    applySandboxRuntimeLifecycleEvent_step input snapshot pc w = (pc', w') →
    store_step (w, pool) (w', <[i := RuntimeCall input pc']> pool).

(** What a call knows: the transition it is about to write is an arrow of the
    event it was asked for, and a worker result is a status its event leaves
    unchanged. *)
Definition call_ok (c : store_call) : Prop :=
  match c with
  | WorkerCall _ event (WorkerUpdate from to) => lifecycle_arrow event from to
  | WorkerCall _ event (WorkerReturn (inr s)) =>
      transitionSandboxLifecycle s event = Unchanged s
  | RuntimeCall input (RuntimeUpdate event from to) =>
      reported_event input from event ∧ lifecycle_arrow event from to
  | _ => True
  end.

(** The change a call at its update is about to make. *)
Definition call_update (c : store_call) : option (Status * Status) :=
  match c with
  | WorkerCall _ _ (WorkerUpdate from to) | RuntimeCall _ (RuntimeUpdate _ from to) =>
      Some (from, to)
  | _ => None
  end.

(** Nothing is written: no status changes, and the log only records that the
    report of a stale owner was ignored. *)
Definition nothing_written (c : store_call) (w w' : StoreWorld T) : Prop :=
  (∀ id, find_status w'.(world_table) id = find_status w.(world_table) id) ∧
  (w'.(world_log) = w.(world_log) ∨
   (∃ input, c = RuntimeCall input RuntimeStaleFind) ∧
   w'.(world_log) = w.(world_log) ++ ["sandbox.runtime_lifecycle.stale_owner_ignored"]).

(** The status [t] is written over the status [s] that the row of the call
    holds, along an arrow of the event the call stands for. *)
Definition arrow_written (c c' : store_call) (w w' : StoreWorld T) : Prop :=
  ∃ event s t,
    call_event c s event ∧ lifecycle_arrow event s t ∧
    find_status w.(world_table) (call_id c) = Some s ∧
    (∀ id, find_status w'.(world_table) id =
             if decide (id = call_id c) then Some t else find_status w.(world_table) id) ∧
    w'.(world_log) = w.(world_log) ++ [resolveSandboxLifecycleLogEventName s t] ∧
    call_result c' = Some (inr t).

(** One statement of a call: what it writes, that its update is made when its
    row is as it was read, and that a status it answers is the status of its
    row at that moment, to which its event has nothing left to do (unless it is
    the report of an owner that was replaced). *)
Definition statement_effect (c c' : store_call) (w w' : StoreWorld T) : Prop :=
  (nothing_written c w w' ∨ arrow_written c c' w w') ∧
  (∀ s t, call_update c = Some (s, t) → find_status w.(world_table) (call_id c) = Some s →
     find_status w'.(world_table) (call_id c) = Some t) ∧
  (∀ r, call_result c = None → call_result c' = Some (inr r) →
     find_status w'.(world_table) (call_id c) = Some r ∧
     ((∃ input, c = RuntimeCall input RuntimeStaleFind) ∨
      ∀ event t, call_event c r event → ¬ lifecycle_arrow event r t)).

Lemma nothing_written_refl c w : nothing_written c w w.
Proof. by split; [|left]. Qed.
#[local] Hint Resolve nothing_written_refl : core.

(** A status is reached for good: no arrow of the event leaves its target. *)
Lemma arrow_done c event s t event' t' :
  call_event c s event → lifecycle_arrow event s t →
  call_event c t event' → ¬ lifecycle_arrow event' t t'.
Proof.
  destruct c as [id e pc|input pc]; simpl.
  - intros -> Ha -> Hb. destruct Ha; inversion Hb; naive_solver.
  - intros He Ha He' Hb.
    destruct He; inversion Ha; subst; inversion He'; subst; inversion Hb; subst; naive_solver.
Qed.

Lemma unchanged_done event s event' t :
  transitionSandboxLifecycle s event = Unchanged s → event' = event →
  ¬ lifecycle_arrow event' s t.
Proof.
  intros Hu -> Ha. assert (transitionSandboxLifecycle s event = Transition s t) as Ht.
  { by apply transition_arrow. }
  congruence.
Qed.

Lemma update_effect c c' w event s t row table :
  call_event c s event → lifecycle_arrow event s t → call_update c = Some (s, t) →
  cas_status w.(world_table) (call_id c) s t = (row, table) →
  (row = Some t → call_result c' = Some (inr t)) →
  (row ≠ Some t → ∀ r, call_result c' ≠ Some (inr r)) →
  statement_effect c c' w
    (mkWorld table (if decide (row = Some t)
                    then w.(world_log) ++ [resolveSandboxLifecycleLogEventName s t]
                    else w.(world_log))).
Proof.
  intros Hev Harrow Hupd Hcas Hwritten Hmissed.
  pose proof (cas_status_result w.(world_table) (call_id c) s t) as Hr.
  pose proof (find_after_cas w.(world_table) (call_id c) s t) as Hf.
  rewrite Hcas in Hr, Hf. simpl in Hr, Hf.
  destruct (decide (find_status _ _ = Some s)) as [Hs|Hs]; subst row.
  - rewrite decide_True by done. specialize (Hwritten eq_refl).
    assert (∀ id, find_status table id =
      if decide (id = call_id c) then Some t else find_status w.(world_table) id) as Hall.
    { intros id. rewrite Hf. repeat case_decide; naive_solver. }
    split; [right; by exists event, s, t|]. split; simpl.
    + intros s' t' ? _. rewrite Hall, decide_True by done. congruence.
    + intros r _ Hret. rewrite Hall, decide_True by done. split; [congruence|]. right.
      assert (r = t) as -> by congruence. intros event' t' Hev'. exact (arrow_done c event s t event' t' Hev Harrow Hev').
  - rewrite decide_False by done. split; [left|split].
    + split; [|by left]. intros id. simpl. rewrite Hf, decide_False; [done|naive_solver].
    + intros s' t' ? Hs'. congruence.
    + intros r _ Hret. by destruct (Hmissed ltac:(done) r).
Qed.

(** A statement that writes nothing and returns no status. *)
Lemma effect_silent c c' w :
  call_update c = None → (∀ r, call_result c = None → call_result c' ≠ Some (inr r)) →
  statement_effect c c' w w.
Proof.
  intros Hu Hr. split; [by auto|split].
  - intros s t Hu'. congruence.
  - intros r Hn Hret. by destruct (Hr r Hn).
Qed.

(** A statement that writes nothing and returns the status it read. *)
Lemma effect_returns c c' w s :
  call_update c = None → call_result c' = Some (inr s) →
  find_status w.(world_table) (call_id c) = Some s →
  (∀ event t, call_event c s event → ¬ lifecycle_arrow event s t) →
  statement_effect c c' w w.
Proof.
  intros Hu Hr Hs Hdone. split; [by auto|split].
  - intros s' t Hu'. congruence.
  - intros r Hn Hret. assert (r = s) as -> by congruence. by auto.
Qed.

Lemma worker_step_ok id event pc pc' w w' :
  call_ok (WorkerCall id event pc) →
  applySandboxLifecycleEvent_step id event pc w = (pc', w') →
  call_ok (WorkerCall id event pc') ∧
  statement_effect (WorkerCall id event pc) (WorkerCall id event pc') w w'.
Proof.
  intros Hok Hstep.
  destruct pc as [|from to|from to|r]; cbn [applySandboxLifecycleEvent_step] in Hstep.
  - destruct (find_status _ _) as [s|] eqn:Hs; simplify_eq; [|by split; [|apply effect_silent]].
    pose proof (transitionSandboxLifecycle_spec s event) as Hspec.
    destruct (transitionSandboxLifecycle s event) as [f t|t|] eqn:Ht; simplify_eq.
    + apply transition_arrow in Ht as [-> ?]. by split; [|apply effect_silent].
    + simplify_eq. split; [done|]. apply (effect_returns _ _ _ s); [done..|].
      intros event' t He. by eapply unchanged_done.
    + by split; [|apply effect_silent].
  - destruct (cas_status _ _ _ _) as [row t] eqn:Hcas.
    pose proof (update_effect (WorkerCall id event (WorkerUpdate from to))
                  (WorkerCall id event pc') w event from to row t eq_refl Hok eq_refl Hcas) as Heff.
    case_bool_decide; simplify_eq/=.
    + rewrite decide_True in Heff by done. split; [|by apply Heff].
      eapply transition_target_unchanged, transition_arrow. by split.
    + rewrite decide_False in Heff by done. split; [done|by apply Heff].
  - destruct (find_status _ _) as [s|] eqn:Hs; simplify_eq; [|by split; [|apply effect_silent]].
    pose proof (transitionSandboxLifecycle_spec s event) as Hspec.
    destruct (transitionSandboxLifecycle s event) as [f t|t|] eqn:Ht; simplify_eq.
    + by split; [|apply effect_silent].
    + simplify_eq. split; [done|]. apply (effect_returns _ _ _ s); [done..|].
      intros event' t He. by eapply unchanged_done.
    + by split; [|apply effect_silent].
  - simplify_eq. by split; [|apply effect_silent].
Qed.

Lemma runtime_find_done input status :
  (∀ event, resolveLifecycleEvent status input = Some event →
     transitionSandboxLifecycle status event = Unchanged status) →
  ∀ event t, reported_event input status event → ¬ lifecycle_arrow event status t.
Proof.
  intros Hun event t Hrep%resolveLifecycleEvent_reported.
  exact (unchanged_done event status event t (Hun event Hrep) eq_refl).
Qed.

Lemma runtime_step_ok input snapshot pc pc' w w' :
  call_ok (RuntimeCall input pc) →
  applySandboxRuntimeLifecycleEvent_step input snapshot pc w = (pc', w') →
  call_ok (RuntimeCall input pc') ∧
  statement_effect (RuntimeCall input pc) (RuntimeCall input pc') w w'.
Proof.
  intros Hok Hstep.
  destruct pc as [| | |event from to|r];
    cbn [applySandboxRuntimeLifecycleEvent_step] in Hstep.
  - destruct (negb _); simplify_eq; by split; [|apply effect_silent].
  - destruct (find_status _ _) as [s|] eqn:Hs; simplify_eq;
      [|by split; [|apply effect_silent]].
    split; [done|]. split; [left; split; [done|right; by eauto]|]. split; simpl; [done|].
    intros r _ [= ->]. by eauto.
  - destruct (find_status _ _) as [s|] eqn:Hs; simplify_eq; [|by split; [|apply effect_silent]].
    destruct (resolveLifecycleEvent s input) as [event|] eqn:Hev; simplify_eq.
    2: { split; [done|]. apply (effect_returns _ _ _ s); [done..|].
         apply runtime_find_done. congruence. }
    pose proof (transitionSandboxLifecycle_spec s event) as Hspec.
    destruct (transitionSandboxLifecycle s event) as [f t|t|] eqn:Ht; simplify_eq.
    + apply transition_arrow in Ht as [-> ?]. split; [|by apply effect_silent].
      by split; [apply resolveLifecycleEvent_reported|].
    + simplify_eq. split; [done|]. apply (effect_returns _ _ _ s); [done..|].
      apply runtime_find_done. congruence.
    + by split; [|apply effect_silent].
  - destruct (cas_status _ _ _ _) as [row t] eqn:Hcas. destruct Hok as [Hrep Harrow].
    pose proof (update_effect (RuntimeCall input (RuntimeUpdate event from to))
                  (RuntimeCall input pc') w event from to row t Hrep Harrow eq_refl Hcas) as Heff.
    case_bool_decide; simplify_eq/=.
    + rewrite resolveLifecycleLogEventName_agree. rewrite decide_True in Heff by done.
      split; [done|by apply Heff].
    + rewrite decide_False in Heff by done. split; [done|by apply Heff].
  - simplify_eq. by split; [|apply effect_silent].
Qed.

Lemma store_step_ok w pool w' pool' :
  Forall call_ok pool → store_step (w, pool) (w', pool') →
  Forall call_ok pool' ∧
  ∃ i c c', pool !! i = Some c ∧ pool' = <[i := c']> pool ∧ statement_effect c c' w w'.
Proof.
  intros Hpool Hstep.
  inversion Hstep as [? ? ? i id event pc pc' Hi Hs|? ? ? i input snapshot pc pc' Hi Hs]; subst.
  - edestruct worker_step_ok as [Hok Hf]; [|exact Hs|].
    + by eapply (Forall_lookup_1 call_ok).
    + split; [by apply Forall_insert|]. eexists i, _, _. by split_and!.
  - edestruct runtime_step_ok as [Hok Hf]; [|exact Hs|].
    + by eapply (Forall_lookup_1 call_ok).
    + split; [by apply Forall_insert|]. eexists i, _, _. by split_and!.
Qed.

Lemma store_steps_ok x y :
  rtc store_step x y → Forall call_ok x.2 → Forall call_ok y.2.
Proof.
  induction 1 as [x|[w1 p1] [w2 p2] y Hstep _ IH]; intros Hok; [done|].
  apply IH. by destruct (store_step_ok _ _ _ _ Hok Hstep).
Qed.

Lemma call_start_ok c : call_start c → call_ok c.
Proof. destruct c as [? ? []|? []]; simpl; naive_solver. Qed.
End Interleaving.

(** ** Lemmas on single calls *)

Lemma resolveLifecycleEvent_accepted status input event :
  resolveLifecycleEvent status input = Some event →
  transitionSandboxLifecycle status event = Unchanged status ∨
  ∃ t, transitionSandboxLifecycle status event = Transition status t.
Proof.
  intros Hr. destruct input as [| | |? ? []], status; vm_compute in Hr; simplify_eq;
    first [by left | by right; eexists].
Qed.

Lemma resolveEffectiveSandboxInstanceStatus_value (s : Status) snapshot :
  resolveEffectiveSandboxInstanceStatus (SandboxInstanceStatuses.status_value s) snapshot =
  inr (getSandboxEffectiveStatus s
         (match snapshot with None => false | Some x => isSandboxRuntimeReady x end)
         (match snapshot with None => false | Some x => isSandboxBootstrapAttached x end)).
Proof.
  unfold resolveEffectiveSandboxInstanceStatus, assertSandboxInstanceLifecycleStatus.
  by rewrite isSandboxInstanceStatus_value, status_of_string_value.
Qed.

Lemma isSandboxRuntimeReady_inv snapshot :
  isSandboxRuntimeReady snapshot = true →
  snapshot.(snapshot_runtime_ready) = true ∧
  ∃ a, snapshot.(snapshot_attachment) = Some a ∧
       snapshot.(snapshot_ownerLeaseId) = Some a.(attachment_ownerLeaseId).
Proof.
  unfold isSandboxRuntimeReady, isSandboxBootstrapAttached. intros H.
  destruct (snapshot_ownerLeaseId snapshot) as [l|]; [|done].
  destruct (snapshot_attachment snapshot) as [a|]; simpl in H; [|done].
  case_bool_decide; simpl in H; simplify_eq. eauto.
Qed.

(** ** Properties *)

Section Properties.
Context {T : Type} `{InstanceTableLaws T}.

(** C1: however the statements of the calls of the worker and of the API
    interleave, and whatever the snapshots say, each statement either changes
    no status, or writes the row of its call only: over the status [s] the row
    holds at that moment, along an arrow of the machine for the event the call
    stands for at [s], with one log record, and the call returns the status
    written.  An update whose row is as the call read it is always made, and a
    status a call returns is the status its row has at that moment, to which
    its event has nothing left to do (but for the report of a stale owner,
    which is ignored): a missed update is never reported as done. *)
Theorem store_follows_lifecycle (w w1 w2 : StoreWorld T) (pool pool1 pool2 : list store_call) :
  Forall call_start pool →
  rtc store_step (w, pool) (w1, pool1) →
  store_step (w1, pool1) (w2, pool2) →
  ∃ i c c', pool1 !! i = Some c ∧ pool2 = <[i := c']> pool1 ∧
    ((∀ id, find_status w2.(world_table) id = find_status w1.(world_table) id) ∧
     (w2.(world_log) = w1.(world_log) ∨
      (∃ input, c = RuntimeCall input RuntimeStaleFind) ∧
      w2.(world_log) = w1.(world_log) ++ ["sandbox.runtime_lifecycle.stale_owner_ignored"]) ∨
     ∃ event s t,
       call_event c s event ∧ lifecycle_arrow event s t ∧
       find_status w1.(world_table) (call_id c) = Some s ∧
       (∀ id, find_status w2.(world_table) id =
                if decide (id = call_id c) then Some t else find_status w1.(world_table) id) ∧
       w2.(world_log) = w1.(world_log) ++ [resolveSandboxLifecycleLogEventName s t] ∧
       call_result c' = Some (inr t)) ∧
    (∀ s t, call_update c = Some (s, t) → find_status w1.(world_table) (call_id c) = Some s →
       find_status w2.(world_table) (call_id c) = Some t) ∧
    (∀ r, call_result c = None → call_result c' = Some (inr r) →
       find_status w2.(world_table) (call_id c) = Some r ∧
       ((∃ input, c = RuntimeCall input RuntimeStaleFind) ∨
        ∀ event t, call_event c r event → ¬ lifecycle_arrow event r t)).
Proof.
  intros Hstart Hsteps Hstep. pose proof (store_steps_ok _ _ Hsteps) as Hok.
  eapply store_step_ok; [|exact Hstep]. apply Hok. simpl.
  eapply Forall_impl; [exact Hstart|]. apply call_start_ok.
Qed.

(** In every interleaving a worker call that returns a status returns one
    its event has been applied to: applying the event again changes nothing. *)
Theorem worker_result_applied (w w' : StoreWorld T) (pool pool' : list store_call) i id event s :
  Forall call_start pool →
  rtc store_step (w, pool) (w', pool') →
  pool' !! i = Some (WorkerCall id event (WorkerReturn (inr s))) →
  transitionSandboxLifecycle s event = Unchanged s.
Proof.
  intros Hstart Hsteps Hi.
  pose proof (store_steps_ok _ _ Hsteps) as Hok. simpl in Hok.
  refine (Forall_lookup_1 _ _ _ _ (Hok _) Hi).
  eapply Forall_impl; [exact Hstart|]. apply call_start_ok.
Qed.

(** A worker call that nothing interrupts returns after at most three
    statements.  It reports a missing row, rejects an event the status machine
    rejects and leaves the table alone, and otherwise writes the status the
    event leads to, to this row only, with one log record per change. *)
Theorem applySandboxLifecycleEvent_spec (id : string) (event : Event) (w : StoreWorld T) :
  ∃ r w', applySandboxLifecycleEvent id event w = (WorkerReturn r, w') ∧
    match find_status w.(world_table) id with
    | None => (∃ message, r = inl message) ∧ w' = w
    | Some s =>
        match transitionSandboxLifecycle s event with
        | Invalid _ _ reason => r = inl reason ∧ w' = w
        | Unchanged _ => r = inr s ∧ w' = w
        | Transition _ t =>
            r = inr t ∧
            (∀ id', find_status w'.(world_table) id' =
                      if decide (id' = id) then Some t else find_status w.(world_table) id') ∧
            w'.(world_log) = w.(world_log) ++ [resolveSandboxLifecycleLogEventName s t]
        end
    end.
Proof.
  unfold applySandboxLifecycleEvent. simpl Nat.iter.
  unfold applySandboxLifecycleEvent_step at 3. simpl.
  destruct (find_status (world_table w) id) as [s|] eqn:Hs; simpl; [|by eauto 6].
  pose proof (transitionSandboxLifecycle_spec s event) as Hspec.
  destruct (transitionSandboxLifecycle s event) as [f t|t|t e' reason] eqn:Ht; simpl;
    [|destruct Hspec; subst; by eauto|by eauto].
  destruct Hspec as (-> & _). pose proof (cas_status_result (world_table w) id s t) as Hr.
  pose proof (find_after_cas (world_table w) id s t) as Hf. rewrite Hs in Hr.
  destruct (cas_status _ _ _ _) as [row tbl]. simpl in *.
  rewrite decide_True in Hr by done. subst row.
  rewrite bool_decide_true by done. simpl. eexists _, _. split; [done|].
  split_and!; [done| |done]. intros id'. simpl. rewrite Hf, Hs.
  repeat case_decide; naive_solver.
Qed.

(** An API call that nothing interrupts never throws for an instance that
    exists: the event it derives from the status is one the machine accepts.
    A detach reported by a stale owner is acknowledged with the current status
    and changes nothing; every other report leaves the other rows alone. *)
Theorem applySandboxRuntimeLifecycleEvent_spec
    (input : ApplySandboxRuntimeLifecycleEventInput) (snapshot : SandboxRuntimeStateSnapshot)
    (w : StoreWorld T) (s : Status) :
  find_status w.(world_table) (input_sandboxInstanceId input) = Some s →
  ∃ s' w', applySandboxRuntimeLifecycleEvent input snapshot w = (RuntimeReturn (inr s'), w') ∧
    find_status w'.(world_table) (input_sandboxInstanceId input) = Some s' ∧
    (s' = s ∨ lifecycle_edge s s') ∧
    (isRuntimeLifecycleEventOwnerCurrent input snapshot = false → s' = s) ∧
    (∀ id', id' ≠ input_sandboxInstanceId input →
      find_status w'.(world_table) id' = find_status w.(world_table) id').
Proof.
  intros Hs. unfold applySandboxRuntimeLifecycleEvent. simpl Nat.iter.
  unfold applySandboxRuntimeLifecycleEvent_step at 3. simpl.
  destruct (isRuntimeLifecycleEventOwnerCurrent input snapshot); simpl.
  2: { rewrite Hs. simpl. eexists _, _. split; [done|]. simpl. auto. }
  rewrite Hs. destruct (resolveLifecycleEvent s input) as [event|] eqn:Hr; simpl.
  2: { eexists _, _. split; [done|]. auto. }
  destruct (resolveLifecycleEvent_accepted _ _ _ Hr) as [Ht|[t Ht]]; rewrite Ht; simpl.
  { eexists _, _. split; [done|]. auto. }
  pose proof (cas_status_result (world_table w) (input_sandboxInstanceId input) s t) as Hrow.
  pose proof (find_after_cas (world_table w) (input_sandboxInstanceId input) s t) as Hf.
  rewrite Hs in Hrow. destruct (cas_status _ _ _ _) as [row tbl]. simpl in *.
  rewrite decide_True in Hrow by done. subst row.
  rewrite bool_decide_true by done. simpl. eexists _, _. split; [done|]. simpl.
  rewrite Hf, decide_True by done. split_and!; [done|right; by exists event|done|].
  intros id' Hne. rewrite Hf, decide_False; [done|]. naive_solver.
Qed.
End Properties.

(** A status shown as [running] is backed by the gateway: the snapshot has
    an attachment, fenced by the current owner lease, whose runtime is ready. *)
Theorem effective_running_is_attached (persisted : string)
    (snapshot : option SandboxRuntimeStateSnapshot) :
  resolveEffectiveSandboxInstanceStatus persisted snapshot
    = inr SandboxInstanceStatuses.RUNNING →
  ∃ x a, snapshot = Some x ∧ x.(snapshot_attachment) = Some a ∧
         x.(snapshot_ownerLeaseId) = Some a.(attachment_ownerLeaseId) ∧
         x.(snapshot_runtime_ready) = true.
Proof.
  intros H. assert (isSandboxInstanceStatus persisted = true) as [s ->]%isSandboxInstanceStatus_inv.
  { unfold resolveEffectiveSandboxInstanceStatus, assertSandboxInstanceLifecycleStatus in H.
    by destruct (isSandboxInstanceStatus persisted). }
  rewrite resolveEffectiveSandboxInstanceStatus_value in H. simplify_eq.
  apply getSandboxEffectiveStatus_running in H as [Hready _].
  destruct snapshot as [x|]; [|done].
  apply isSandboxRuntimeReady_inv in Hready as (? & a & ? & ?). eauto 10.
Qed.

(** ** Witnesses: one instance in memory, two calls racing for it *)

Definition demo_table : MemoryTable := [("sbi_1", (SandboxInstanceStatuses.RUNNING, false))].

Definition demo_world : StoreWorld MemoryTable := mkWorld demo_table [].

Definition demo_snapshot : SandboxRuntimeStateSnapshot := {|
  snapshot_ownerLeaseId := Some "lease_1";
  snapshot_attachment := Some {|
    attachment_sandboxInstanceId := "sbi_1"; attachment_ownerLeaseId := "lease_1";
    attachment_nodeId := "node_1"; attachment_sessionId := "session_1";
    attachment_attachedAtMs := 7 |};
  snapshot_presence_activeCount := 0;
  snapshot_keepalive_active := false;
  snapshot_runtime_ready := true |}.

(** The worker reads [running] and prepares to stop; the API's detach of the same
    instance runs in between; the worker's update matches no row and its second
    read finds a status the stop has not been applied to. *)
Definition demo_pool : list store_call :=
  [WorkerCall "sbi_1" SandboxLifecycleEvents.STOP_REQUESTED WorkerFind;
   RuntimeCall (bootstrap_detached "sbi_1" "lease_1") RuntimeSnapshot].

Definition demo_run : StoreWorld MemoryTable * list store_call :=
  let (p1, w1) := applySandboxLifecycleEvent_step "sbi_1"
                    SandboxLifecycleEvents.STOP_REQUESTED WorkerFind demo_world in
  let (p2, w2) := applySandboxRuntimeLifecycleEvent
                    (bootstrap_detached "sbi_1" "lease_1") demo_snapshot w1 in
  let (p3, w3) := applySandboxLifecycleEvent_step "sbi_1"
                    SandboxLifecycleEvents.STOP_REQUESTED p1 w2 in
  let (p4, w4) := applySandboxLifecycleEvent_step "sbi_1"
                    SandboxLifecycleEvents.STOP_REQUESTED p3 w3 in
  (w4, [WorkerCall "sbi_1" SandboxLifecycleEvents.STOP_REQUESTED p4;
        RuntimeCall (bootstrap_detached "sbi_1" "lease_1") p2]).

Example demo_run_result :
  demo_run.2 =
    [WorkerCall "sbi_1" SandboxLifecycleEvents.STOP_REQUESTED
       (WorkerReturn (inl ("Failed to apply sandbox lifecycle event 'stop_requested' "
                           +:+ "from 'running' to 'stopping'.")));
     RuntimeCall (bootstrap_detached "sbi_1" "lease_1")
       (RuntimeReturn (inr SandboxInstanceStatuses.RECONNECTING))].
Proof. vm_compute. reflexivity. Qed.

Lemma demo_run_steps : rtc store_step (demo_world, demo_pool) demo_run.
Proof.
  eapply rtc_l; [eapply (step_worker _ _ _ 0); [reflexivity|vm_compute; reflexivity]|].
  do 3 (eapply rtc_l;
    [eapply (step_runtime _ _ _ 1 _ demo_snapshot); [reflexivity|vm_compute; reflexivity]|]).
  do 2 (eapply rtc_l;
    [eapply (step_worker _ _ _ 0); [reflexivity|vm_compute; reflexivity]|]).
  vm_compute. apply rtc_refl.
Qed.

(** Just before the API's update in [demo_run]. *)
Definition demo_before_update : list store_call :=
  [WorkerCall "sbi_1" SandboxLifecycleEvents.STOP_REQUESTED
     (WorkerUpdate SandboxInstanceStatuses.RUNNING SandboxInstanceStatuses.STOPPING);
   RuntimeCall (bootstrap_detached "sbi_1" "lease_1")
     (RuntimeUpdate SandboxLifecycleEvents.BOOTSTRAP_DETACHED
        SandboxInstanceStatuses.RUNNING SandboxInstanceStatuses.RECONNECTING)].

Definition demo_updated : StoreWorld MemoryTable :=
  mkWorld [("sbi_1", (SandboxInstanceStatuses.RECONNECTING, false))] ["sandbox.reconnecting"].

Lemma store_follows_lifecycle_witness :
  ∃ i c c', demo_before_update !! i = Some c ∧ call_result c' =
    Some (inr SandboxInstanceStatuses.RECONNECTING) ∧
    <[1 := RuntimeCall (bootstrap_detached "sbi_1" "lease_1")
             (RuntimeReturn (inr SandboxInstanceStatuses.RECONNECTING))]> demo_before_update =
    <[i := c']> demo_before_update.
Proof.
  destruct (store_follows_lifecycle demo_world demo_world demo_updated demo_pool
    demo_before_update
    (<[1 := RuntimeCall (bootstrap_detached "sbi_1" "lease_1")
              (RuntimeReturn (inr SandboxInstanceStatuses.RECONNECTING))]> demo_before_update))
    as (i & c & c' & Hc & Hpool & [[Hsame _]|(event & s & t & _ & _ & Hs & Hw & _ & Hr)] & _).
  - repeat constructor.
  - eapply rtc_l; [eapply (step_worker _ _ _ 0); [reflexivity|vm_compute; reflexivity]|].
    do 2 (eapply rtc_l;
      [eapply (step_runtime _ _ _ 1 _ demo_snapshot); [reflexivity|vm_compute; reflexivity]|]).
    vm_compute. apply rtc_refl.
  - eapply (step_runtime _ _ _ 1 _ demo_snapshot); [reflexivity|vm_compute; reflexivity].
  - exfalso. specialize (Hsame "sbi_1"). vm_compute in Hsame. discriminate Hsame.
  - exists i, c, c'. split; [exact Hc|]. split; [|exact Hpool].
    rewrite Hr. f_equal. f_equal. specialize (Hw "sbi_1").
    destruct (decide ("sbi_1" = call_id c)); vm_compute in Hw; congruence.
Defined.

(** The same worker call alone stops the sandbox. *)
Definition demo_stop : StoreWorld MemoryTable * list store_call :=
  let (p, w) := applySandboxLifecycleEvent "sbi_1"
                  SandboxLifecycleEvents.STOP_REQUESTED demo_world in
  (w, [WorkerCall "sbi_1" SandboxLifecycleEvents.STOP_REQUESTED p]).

Lemma worker_result_applied_witness :
  transitionSandboxLifecycle SandboxInstanceStatuses.STOPPING
    SandboxLifecycleEvents.STOP_REQUESTED = Unchanged SandboxInstanceStatuses.STOPPING.
Proof.
  apply (worker_result_applied demo_world demo_stop.1
    [WorkerCall "sbi_1" SandboxLifecycleEvents.STOP_REQUESTED WorkerFind] demo_stop.2
    0 "sbi_1").
  - repeat constructor.
  - do 2 (eapply rtc_l;
      [eapply (step_worker _ _ _ 0); [reflexivity|vm_compute; reflexivity]|]).
    vm_compute. apply rtc_refl.
  - vm_compute. reflexivity.
Defined.

Lemma applySandboxLifecycleEvent_spec_witness :
  ∃ r w', applySandboxLifecycleEvent "sbi_1" SandboxLifecycleEvents.STOP_REQUESTED demo_world
            = (WorkerReturn r, w') ∧ r = inr SandboxInstanceStatuses.STOPPING.
Proof.
  destruct (applySandboxLifecycleEvent_spec "sbi_1" SandboxLifecycleEvents.STOP_REQUESTED
              demo_world) as (r & w' & Hrun & Hspec).
  exists r, w'. split; [exact Hrun|]. exact (proj1 Hspec).
Defined.

Lemma applySandboxRuntimeLifecycleEvent_spec_witness :
  ∃ s' w', applySandboxRuntimeLifecycleEvent (bootstrap_detached "sbi_1" "lease_0")
             demo_snapshot demo_world = (RuntimeReturn (inr s'), w') ∧
           s' = SandboxInstanceStatuses.RUNNING.
Proof.
  destruct (applySandboxRuntimeLifecycleEvent_spec (bootstrap_detached "sbi_1" "lease_0")
              demo_snapshot demo_world SandboxInstanceStatuses.RUNNING)
    as (s' & w' & Hrun & _ & _ & Hstale & _); [reflexivity|].
  exists s', w'. split; [exact Hrun|]. apply Hstale. reflexivity.
Defined.

Lemma effective_running_is_attached_witness :
  ∃ x a, Some demo_snapshot = Some x ∧ x.(snapshot_attachment) = Some a ∧
         x.(snapshot_ownerLeaseId) = Some a.(attachment_ownerLeaseId) ∧
         x.(snapshot_runtime_ready) = true.
Proof.
  apply (effective_running_is_attached "stopped"). vm_compute. reflexivity.
Defined.
