(* ===== verification/DataFrame.v ===== *)
(** * Binary data frames

    - [encodeDataFrame], [decodeDataFrame] and their validators:
      packages/sandbox-session-protocol/src/data-frame.ts;
    - [readDataFrameHeader], [rewriteStreamId]: the gateway's [FrameCodec]
      (apps/data-plane-gateway/src/tunnel/protocol/frame-codec.ts).

    A [Uint8Array] or [ArrayBuffer] is the list of its bytes, integers between 0
    and 255 ([bytes]).  A [DataView] reads and writes big-endian; a write keeps
    the low 8 or 32 bits of its argument. *)

From S2P Require Import Prelude.
Open Scope Z_scope.

(** ** Bytes and [DataView] *)

Definition byte_ok (b : Z) : Prop := 0 ≤ b < 256.
Definition bytes (l : list Z) : Prop := Forall byte_ok l.

Definition getUint8 (view : list Z) (i : nat) : Z := nth i view 0.
Definition getUint32 (view : list Z) (i : nat) : Z :=
  getUint8 view i * 2 ^ 24 + getUint8 view (i + 1) * 2 ^ 16
  + getUint8 view (i + 2) * 2 ^ 8 + getUint8 view (i + 3).

Definition setUint8 (view : list Z) (i : nat) (v : Z) : list Z := <[i := v `mod` 2 ^ 8]> view.
Definition setUint32 (view : list Z) (i : nat) (v : Z) : list Z :=
  let v := v `mod` 2 ^ 32 in
  setUint8 (setUint8 (setUint8 (setUint8 view
    i (v `div` 2 ^ 24)) (i + 1) (v `div` 2 ^ 16)) (i + 2) (v `div` 2 ^ 8)) (i + 3) v.

(** [target.set(source, offset)] when the source fits. *)
Definition Uint8Array_set (target source : list Z) (offset : nat) : list Z :=
  take offset target ++ source ++ drop (offset + length source) target.

(** [view.subarray(start, end)] *)
Definition subarray (view : list Z) (start stop : nat) : list Z := drop start (take stop view).

(** ** data-frame.ts *)

Definition DataFrameHeaderByteLength : nat := 6.
Definition DataFrameKindData : Z := 1.
Definition PayloadKindRawBytes : Z := 1.
Definition PayloadKindWebSocketText : Z := 2.
Definition PayloadKindWebSocketBinary : Z := 3.
Definition MaxStreamId : Z := 4294967295.
Definition DefaultStreamWindowBytes : Z := 16 * 1024 * 1024.
Definition MaxStreamWindowBytes : Z := 16 * 1024 * 1024.

Record StreamDataFrame : Type := {
  frameKind : Z;
  frame_streamId : Z;
  frame_payloadKind : Z;
  frame_payload : list Z;
}.

Definition validateStreamId (streamId : number) : string + unit :=
  if negb (Number_isInteger streamId) || (integer_of streamId <=? 0)
     || (MaxStreamId <? integer_of streamId)
  then inl ("streamId must be an integer between 1 and " +:+ String_of_number MaxStreamId)
  else inr tt.

Definition validatePayloadKind (payloadKind : Z) : string + unit :=
  if negb (payloadKind =? PayloadKindRawBytes)
     && negb (payloadKind =? PayloadKindWebSocketText)
     && negb (payloadKind =? PayloadKindWebSocketBinary)
  then inl ("payloadKind is not supported: " +:+ String_of_number payloadKind)
  else inr tt.

Definition encodeDataFrame (streamId : number) (payloadKind : Z) (payload : list Z)
    : string + list Z :=
  match validateStreamId streamId with
  | inl e => inl e
  | inr _ =>
      match validatePayloadKind payloadKind with
      | inl e => inl e
      | inr _ =>
          let encoded := replicate (DataFrameHeaderByteLength + length payload) 0 in
          let encoded := setUint8 encoded 0 DataFrameKindData in
          let encoded := setUint32 encoded 1 (integer_of streamId) in
          let encoded := setUint8 encoded 5 payloadKind in
          inr (Uint8Array_set encoded payload DataFrameHeaderByteLength)
      end
  end.

Definition decodeDataFrame (encoded : list Z) : string + StreamDataFrame :=
  if (length encoded <? DataFrameHeaderByteLength)%nat
  then inl ("data frame must be at least "
            +:+ String_of_number (Z.of_nat DataFrameHeaderByteLength) +:+ " bytes long")
  else
    let frameKind := getUint8 encoded 0 in
    if negb (frameKind =? DataFrameKindData)
    then inl ("frameKind is not supported: " +:+ String_of_number frameKind)
    else
      let streamId := getUint32 encoded 1 in
      match validateStreamId (Int streamId) with
      | inl e => inl e
      | inr _ =>
          let payloadKind := getUint8 encoded 5 in
          match validatePayloadKind payloadKind with
          | inl e => inl e
          | inr _ =>
              inr {| frameKind := frameKind; frame_streamId := streamId;
                     frame_payloadKind := payloadKind;
                     frame_payload := drop DataFrameHeaderByteLength encoded |}
          end
      end.

(** ** frame-codec.ts *)

Record TunnelDataFrameHeader : Type := {
  header_payloadKind : Z;
  header_streamId : Z;
}.

Definition isSupportedDataFramePayloadKind (payloadKind : Z) : bool :=
  (payloadKind =? PayloadKindRawBytes) || (payloadKind =? PayloadKindWebSocketText)
  || (payloadKind =? PayloadKindWebSocketBinary).

Definition readDataFrameHeader (payload : list Z) : option TunnelDataFrameHeader :=
  if (length payload <? DataFrameHeaderByteLength)%nat then None
  else if negb (getUint8 payload 0 =? DataFrameKindData) then None
  else
    let streamId := getUint32 payload 1 in
    if (streamId =? 0) || (MaxStreamId <? streamId) then None
    else
      let payloadKind := getUint8 payload 5 in
      if negb (isSupportedDataFramePayloadKind payloadKind) then None
      else Some {| header_payloadKind := payloadKind; header_streamId := streamId |}.

Definition rewriteStreamId (payload : list Z) (streamId : number) : option (list Z) :=
  if negb (Number_isInteger streamId) || (integer_of streamId <=? 0)
     || (MaxStreamId <? integer_of streamId)
  then None
  else match readDataFrameHeader payload with
       | None => None
       | Some _ => Some (setUint32 payload 1 (integer_of streamId))
       end.

(** ** The layout of a frame *)

Definition supported_kind (kind : Z) : Prop :=
  kind = PayloadKindRawBytes ∨ kind = PayloadKindWebSocketText
  ∨ kind = PayloadKindWebSocketBinary.

Definition valid_stream_id (n : Z) : Prop := 1 ≤ n ≤ MaxStreamId.

(** The four bytes of a 32-bit integer, most significant first. *)
Definition be32 (n : Z) : list Z :=
  [n `div` 2 ^ 24 `mod` 2 ^ 8; n `div` 2 ^ 16 `mod` 2 ^ 8; n `div` 2 ^ 8 `mod` 2 ^ 8;
   n `mod` 2 ^ 8].

(** The abstract specification of the format. *)
Definition frame_bytes (n kind : Z) (payload : list Z) : list Z :=
  DataFrameKindData :: be32 n ++ kind :: payload.

Lemma validateStreamId_ok n : validateStreamId (Int n) = inr tt ↔ valid_stream_id n.
Proof.
  unfold validateStreamId, valid_stream_id. simpl.
  destruct (Z.leb_spec n 0), (Z.ltb_spec MaxStreamId n); simpl;
    split; intros; try done; lia.
Qed.

Lemma validatePayloadKind_ok kind : validatePayloadKind kind = inr tt ↔ supported_kind kind.
Proof.
  unfold validatePayloadKind, supported_kind.
  destruct (Z.eqb_spec kind PayloadKindRawBytes), (Z.eqb_spec kind PayloadKindWebSocketText),
    (Z.eqb_spec kind PayloadKindWebSocketBinary); simpl; naive_solver.
Qed.

Lemma supported_kind_spec kind : isSupportedDataFramePayloadKind kind = true ↔ supported_kind kind.
Proof.
  unfold isSupportedDataFramePayloadKind, supported_kind.
  rewrite !orb_true_iff, !Z.eqb_eq. tauto.
Qed.

Lemma supported_kind_byte kind : supported_kind kind → kind `mod` 2 ^ 8 = kind.
Proof. by intros [->|[->| ->]]. Qed.

Lemma be32_mod n : valid_stream_id n → be32 (n `mod` 2 ^ 32) = be32 n.
Proof. unfold valid_stream_id, MaxStreamId. intros. by rewrite Z.mod_small by lia. Qed.

Lemma getUint32_be32 n k rest :
  valid_stream_id n → getUint32 (k :: be32 n ++ rest) 1 = n.
Proof.
  unfold valid_stream_id, MaxStreamId, getUint32, getUint8, be32. simpl. intros Hn.
  pose proof (Z.div_mod n (2^8)). pose proof (Z.div_mod (n / 2^8) (2^8)).
  pose proof (Z.div_mod (n / 2^16) (2^8)). pose proof (Z.div_mod (n / 2^24) (2^8)).
  rewrite !Z.div_div in * by lia. change (2^8 * 2^8) with (2^16) in *.
  change (2^16 * 2^8) with (2^24) in *. change (2^24 * 2^8) with (2^32) in *.
  assert (n / 2^32 = 0) by (apply Z.div_small; lia). simpl in *. lia.
Qed.

Lemma be32_getUint32 b1 b2 b3 b4 :
  bytes [b1; b2; b3; b4] →
  be32 (b1 * 2 ^ 24 + b2 * 2 ^ 16 + b3 * 2 ^ 8 + b4) = [b1; b2; b3; b4].
Proof.
  unfold bytes, byte_ok. rewrite !Forall_cons. intros (? & ? & ? & ? & _).
  unfold be32. repeat f_equal; simpl; Z.to_euclidean_division_equations; lia.
Qed.

Lemma setUint32_frame k b1 b2 b3 b4 rest n :
  setUint32 (k :: b1 :: b2 :: b3 :: b4 :: rest) 1 n = k :: be32 (n `mod` 2 ^ 32) ++ rest.
Proof. reflexivity. Qed.

Lemma setUint32_frame_bytes id n kind payload :
  valid_stream_id n →
  setUint32 (frame_bytes id kind payload) 1 n = frame_bytes n kind payload.
Proof. intros. unfold frame_bytes, be32 at 1. simpl app. by rewrite setUint32_frame, be32_mod. Qed.

Lemma split_header (l : list Z) :
  (DataFrameHeaderByteLength ≤ length l)%nat →
  ∃ b0 b1 b2 b3 b4 b5 rest, l = b0 :: b1 :: b2 :: b3 :: b4 :: b5 :: rest.
Proof.
  unfold DataFrameHeaderByteLength.
  destruct l as [|? [|? [|? [|? [|? [|? ?]]]]]]; simpl; intros; try lia. eauto 10.
Qed.

Lemma encodeDataFrame_bytes n kind payload :
  valid_stream_id n → supported_kind kind →
  encodeDataFrame (Int n) kind payload = inr (frame_bytes n kind payload).
Proof.
  intros Hn Hk. unfold encodeDataFrame.
  rewrite (proj2 (validateStreamId_ok n) Hn), (proj2 (validatePayloadKind_ok kind) Hk).
  cbn [DataFrameHeaderByteLength Nat.add replicate]. simpl integer_of.
  change (setUint8 (0 :: 0 :: 0 :: 0 :: 0 :: 0 :: replicate (length payload) 0) 0
            DataFrameKindData)
    with (DataFrameKindData :: 0 :: 0 :: 0 :: 0 :: 0 :: replicate (length payload) 0).
  rewrite setUint32_frame, be32_mod by done.
  unfold setUint8, Uint8Array_set, frame_bytes. f_equal.
  rewrite (supported_kind_byte kind Hk). unfold be32. simpl. do 6 f_equal.
  rewrite drop_ge; [by rewrite app_nil_r|]. by rewrite length_replicate.
Qed.

Lemma readDataFrameHeader_frame l h :
  readDataFrameHeader l = Some h →
  ∃ b1 b2 b3 b4 payload,
    l = DataFrameKindData :: b1 :: b2 :: b3 :: b4 :: h.(header_payloadKind) :: payload ∧
    h.(header_streamId) = getUint32 l 1 ∧ supported_kind h.(header_payloadKind) ∧
    h.(header_streamId) ≠ 0 ∧ h.(header_streamId) ≤ MaxStreamId.
Proof.
  unfold readDataFrameHeader.
  destruct (Nat.ltb_spec (length l) DataFrameHeaderByteLength) as [|Hlen]; [done|].
  destruct (Z.eqb_spec (getUint8 l 0) DataFrameKindData) as [Hk|]; simpl; [|done].
  destruct (Z.eqb_spec (getUint32 l 1) 0); simpl; [done|].
  destruct (Z.ltb_spec MaxStreamId (getUint32 l 1)); simpl; [done|].
  destruct (isSupportedDataFramePayloadKind _) eqn:Hs; simpl; [|done].
  intros [= <-]. simpl. apply supported_kind_spec in Hs.
  apply split_header in Hlen as (b0 & b1 & b2 & b3 & b4 & b5 & rest & ->).
  cbv in Hk. subst b0. exists b1, b2, b3, b4, rest. done.
Qed.

Lemma bytes_getUint32 l i : bytes l → 0 ≤ getUint32 l i < 2 ^ 32.
Proof.
  intros Hl. assert (∀ j, 0 ≤ getUint8 l j < 256) as Hb.
  { intros j. unfold getUint8. destruct (nth_in_or_default j l 0) as [Hin| ->]; [|lia].
    apply list_elem_of_In in Hin. by eapply Forall_forall in Hl. }
  unfold getUint32. pose proof (Hb i). pose proof (Hb (i + 1)%nat).
  pose proof (Hb (i + 2)%nat). pose proof (Hb (i + 3)%nat). lia.
Qed.

Lemma readDataFrameHeader_bytes n kind payload :
  valid_stream_id n → supported_kind kind →
  readDataFrameHeader (frame_bytes n kind payload)
    = Some {| header_payloadKind := kind; header_streamId := n |}.
Proof.
  intros Hn Hk. unfold readDataFrameHeader, frame_bytes.
  rewrite (getUint32_be32 n _ (kind :: payload) Hn).
  replace (length _ <? DataFrameHeaderByteLength)%nat with false by reflexivity.
  replace (getUint8 _ 0 =? DataFrameKindData) with true by reflexivity.
  replace (getUint8 _ 5) with kind by reflexivity. simpl.
  unfold valid_stream_id in Hn.
  destruct (Z.eqb_spec n 0), (Z.ltb_spec MaxStreamId n); simpl; [lia..|].
  by rewrite (proj2 (supported_kind_spec kind) Hk).
Qed.

Lemma decodeDataFrame_bytes n kind payload :
  valid_stream_id n → supported_kind kind →
  decodeDataFrame (frame_bytes n kind payload) =
    inr {| frameKind := DataFrameKindData; frame_streamId := n;
           frame_payloadKind := kind; frame_payload := payload |}.
Proof.
  intros Hn Hk. unfold decodeDataFrame, frame_bytes.
  rewrite (getUint32_be32 n _ (kind :: payload) Hn).
  replace (length _ <? DataFrameHeaderByteLength)%nat with false by reflexivity.
  replace (getUint8 _ 0) with DataFrameKindData by reflexivity.
  replace (getUint8 _ 5) with kind by reflexivity. simpl.
  by rewrite (proj2 (validateStreamId_ok n) Hn), (proj2 (validatePayloadKind_ok kind) Hk).
Qed.

(** A frame either side accepts is [frame_bytes] of its fields. *)
Lemma readDataFrameHeader_inv l h :
  bytes l → readDataFrameHeader l = Some h →
  ∃ payload, l = frame_bytes h.(header_streamId) h.(header_payloadKind) payload ∧
    valid_stream_id h.(header_streamId) ∧ supported_kind h.(header_payloadKind).
Proof.
  intros Hl Hh. pose proof (bytes_getUint32 l 1 Hl) as Hrange.
  destruct (readDataFrameHeader_frame _ _ Hh)
    as (b1 & b2 & b3 & b4 & payload & -> & Hid & Hk & ? & ?).
  exists payload. rewrite <-Hid in Hrange.
  split; [|split; [unfold valid_stream_id; lia|done]].
  unfold frame_bytes. rewrite Hid. unfold getUint32, getUint8. simpl nth.
  rewrite be32_getUint32; [done|].
  unfold bytes in *. do 5 (apply Forall_cons in Hl as [? Hl]).
  do 4 (apply Forall_cons_2; [done|]). apply Forall_nil_2.
Qed.

(** Rewriting the id of a frame. *)
Lemma rewriteStreamId_bytes n t kind payload :
  valid_stream_id n → supported_kind kind → valid_stream_id t →
  rewriteStreamId (frame_bytes n kind payload) (Int t) = Some (frame_bytes t kind payload).
Proof.
  intros Hn Hk Ht. unfold rewriteStreamId. rewrite readDataFrameHeader_bytes by done.
  unfold valid_stream_id in Ht. cbn [Number_isInteger integer_of negb orb].
  destruct (Z.leb_spec t 0), (Z.ltb_spec MaxStreamId t); [lia..|]. cbn [orb].
  by rewrite setUint32_frame_bytes.
Qed.

Lemma decodeDataFrame_inr l f :
  decodeDataFrame l = inr f →
  readDataFrameHeader l
    = Some {| header_payloadKind := f.(frame_payloadKind);
              header_streamId := f.(frame_streamId) |} ∧
  f.(frameKind) = DataFrameKindData ∧ f.(frame_payload) = drop DataFrameHeaderByteLength l.
Proof.
  unfold decodeDataFrame, readDataFrameHeader.
  destruct (_ <? _)%nat; [done|].
  destruct (Z.eqb_spec (getUint8 l 0) DataFrameKindData) as [Hk|]; simpl; [|done].
  destruct (validateStreamId _) as [|[]] eqn:Hv; [done|].
  destruct (validatePayloadKind _) as [|[]] eqn:Hp; [done|].
  intros [= <-]. simpl. apply validateStreamId_ok in Hv. apply validatePayloadKind_ok in Hp.
  unfold valid_stream_id in Hv.
  destruct (Z.eqb_spec (getUint32 l 1) 0), (Z.ltb_spec MaxStreamId (getUint32 l 1));
    simpl; [lia..|]. by rewrite (proj2 (supported_kind_spec _) Hp).
Qed.

(** ** Properties *)

(** Encoding then decoding a frame gives it back, and the bytes are the frame
    layout: kind, big-endian stream id, payload kind, payload. *)
Theorem encode_decode_roundtrip (n kind : Z) (payload : list Z) :
  valid_stream_id n → supported_kind kind →
  ∃ l, encodeDataFrame (Int n) kind payload = inr l ∧ l = frame_bytes n kind payload ∧
       decodeDataFrame l =
         inr {| frameKind := DataFrameKindData; frame_streamId := n;
                frame_payloadKind := kind; frame_payload := payload |}.
Proof. intros. eexists. eauto using encodeDataFrame_bytes, decodeDataFrame_bytes. Qed.

Lemma encode_decode_roundtrip_witness :
  ∃ l, encodeDataFrame (Int MaxStreamId) PayloadKindWebSocketText [104; 105] = inr l ∧
       l = [1; 255; 255; 255; 255; 2; 104; 105] ∧
       decodeDataFrame l =
         inr {| frameKind := 1; frame_streamId := 4294967295;
                frame_payloadKind := 2; frame_payload := [104; 105] |}.
Proof.
  apply (encode_decode_roundtrip MaxStreamId PayloadKindWebSocketText [104; 105]).
  - vm_compute. split; discriminate.
  - right. left. reflexivity.
Defined.

(** C40: the decoder accepts exactly the encoder's images: every byte string it
    accepts is the encoding of the frame it returns, and every other byte string
    and every out-of-range stream id or payload kind is refused. *)
Theorem decodeDataFrame_exact (l : list Z) :
  bytes l →
  match decodeDataFrame l with
  | inr f => encodeDataFrame (Int f.(frame_streamId)) f.(frame_payloadKind) f.(frame_payload)
             = inr l
  | inl _ => ∀ id kind payload, encodeDataFrame id kind payload ≠ inr l
  end.
Proof.
  intros Hl. destruct (decodeDataFrame l) as [e|f] eqn:Hd.
  - intros id kind payload Henc. unfold encodeDataFrame in Henc.
    destruct (validateStreamId id) as [|[]] eqn:Hid; [done|].
    destruct (validatePayloadKind kind) as [|[]] eqn:Hk; [done|].
    destruct id as [n|text]; [|done].
    apply validateStreamId_ok in Hid. apply validatePayloadKind_ok in Hk.
    pose proof (encodeDataFrame_bytes n kind payload Hid Hk) as Hb.
    unfold encodeDataFrame in Hb.
    rewrite (proj2 (validateStreamId_ok n) Hid), (proj2 (validatePayloadKind_ok kind) Hk) in Hb.
    rewrite Hb in Henc. injection Henc as <-.
    by rewrite decodeDataFrame_bytes in Hd.
  - destruct (decodeDataFrame_inr _ _ Hd) as (Hh & _ & Hp).
    destruct (readDataFrameHeader_inv _ _ Hl Hh) as (payload & Hfb & Hn & Hk).
    simpl in *. rewrite Hp, Hfb. by apply encodeDataFrame_bytes.
Qed.

Lemma decodeDataFrame_exact_witness :
  encodeDataFrame (Int 258) 3 [7] = inr [1; 0; 0; 1; 2; 3; 7].
Proof.
  refine (decodeDataFrame_exact [1; 0; 0; 1; 2; 3; 7] _).
  unfold bytes, byte_ok. repeat constructor; lia.
Defined.

(** The gateway's frame codec and the session protocol package read the same
    frames, with the same header. *)
Theorem readDataFrameHeader_decodeDataFrame (l : list Z) :
  bytes l →
  readDataFrameHeader l =
    match decodeDataFrame l with
    | inr f => Some {| header_payloadKind := f.(frame_payloadKind);
                       header_streamId := f.(frame_streamId) |}
    | inl _ => None
    end.
Proof.
  intros Hl. destruct (decodeDataFrame l) as [e|f] eqn:Hd.
  - destruct (readDataFrameHeader l) as [h|] eqn:Hh; [|done].
    destruct (readDataFrameHeader_inv _ _ Hl Hh) as (payload & -> & Hn & Hk).
    by rewrite decodeDataFrame_bytes in Hd.
  - by apply decodeDataFrame_inr.
Qed.

Lemma readDataFrameHeader_decodeDataFrame_witness :
  readDataFrameHeader [1; 0; 0; 0; 9; 1] =
    Some {| header_payloadKind := 1; header_streamId := 9 |}.
Proof.
  apply (readDataFrameHeader_decodeDataFrame [1; 0; 0; 0; 9; 1]).
  unfold bytes, byte_ok. repeat constructor; lia.
Defined.

(** Rewriting the stream id of a frame succeeds exactly on frames the codec
    reads and ids in range; it changes the id and nothing else, and rewriting
    back gives the original bytes, so a frame crosses the tunnel unchanged. *)
Theorem rewriteStreamId_spec (l : list Z) (id : number) :
  bytes l →
  match rewriteStreamId l id with
  | Some l' =>
      ∃ n f, id = Int n ∧ valid_stream_id n ∧ decodeDataFrame l = inr f ∧
        decodeDataFrame l' =
          inr {| frameKind := f.(frameKind); frame_streamId := n;
                 frame_payloadKind := f.(frame_payloadKind);
                 frame_payload := f.(frame_payload) |} ∧
        rewriteStreamId l' (Int f.(frame_streamId)) = Some l
  | None => validateStreamId id ≠ inr tt ∨ readDataFrameHeader l = None
  end.
Proof.
  intros Hl. unfold rewriteStreamId.
  destruct (negb (Number_isInteger id) || _ || _) eqn:Hv.
  { left. unfold validateStreamId. by rewrite Hv. }
  destruct (readDataFrameHeader l) as [h|] eqn:Hh; [|by right].
  destruct id as [n|]; [|done]. simpl in *.
  assert (valid_stream_id n) as Hn.
  { apply validateStreamId_ok. unfold validateStreamId. simpl. by rewrite Hv. }
  destruct (readDataFrameHeader_inv _ _ Hl Hh) as (payload & -> & Hid & Hk).
  exists n. eexists. split_and!; [done|done|by apply decodeDataFrame_bytes| |]; simpl.
  - rewrite setUint32_frame_bytes by done. by apply decodeDataFrame_bytes.
  - rewrite setUint32_frame_bytes by done. by apply rewriteStreamId_bytes.
Qed.

Lemma rewriteStreamId_spec_witness :
  rewriteStreamId [1; 0; 0; 0; 9; 1; 42] (Int 70000) = Some [1; 0; 1; 17; 112; 1; 42] ∧
  ∃ n f, Int 70000 = Int n ∧ valid_stream_id n ∧
    decodeDataFrame [1; 0; 0; 0; 9; 1; 42] = inr f ∧
    decodeDataFrame [1; 0; 1; 17; 112; 1; 42] =
      inr {| frameKind := f.(frameKind); frame_streamId := n;
             frame_payloadKind := f.(frame_payloadKind);
             frame_payload := f.(frame_payload) |} ∧
    rewriteStreamId [1; 0; 1; 17; 112; 1; 42] (Int f.(frame_streamId))
      = Some [1; 0; 0; 0; 9; 1; 42].
Proof.
  split; [reflexivity|].
  refine (rewriteStreamId_spec [1; 0; 0; 0; 9; 1; 42] (Int 70000) _).
  unfold bytes, byte_ok. repeat constructor; lia.
Defined.
