(* ===== verification/TunnelTypes.v ===== *)
(** * Types shared by the tunnel components (apps/data-plane-gateway/src/tunnel/types.ts)

    The identity of a relay peer, the envelopes the relay transport carries, and
    the errors of the tunnel as a tagged union over the JavaScript classes the
    code tells apart with [instanceof]. *)

From S2P Require Import Prelude.

Inductive RelayPeerSide : Type :=
| SideBootstrap | SideConnection | SidePtyClient | SidePtySandbox.

#[export] Instance RelayPeerSide_eq_dec : EqDecision RelayPeerSide.
Proof. solve_decision. Defined.

(** The string a side is at run time. *)
Definition side_value (side : RelayPeerSide) : string :=
  match side with
  | SideBootstrap => "bootstrap"
  | SideConnection => "connection"
  | SidePtyClient => "ptyClient"
  | SidePtySandbox => "ptySandbox"
  end.

Lemma side_value_inj (a b : RelayPeerSide) : side_value a = side_value b → a = b.
Proof. by destruct a, b. Qed.

Record RelayTarget : Type := mkTarget {
  target_sandboxInstanceId : string;
  target_side : RelayPeerSide;
  target_nodeId : string;
  target_sessionId : string;
}.

#[export] Instance RelayTarget_eq_dec : EqDecision RelayTarget.
Proof. solve_decision. Defined.

Record SessionPeerDescriptor : Type := mkSessionPeer {
  peer_sandboxInstanceId : string;
  peer_side : RelayPeerSide;
  peer_sessionId : string;
}.

(** [string | ArrayBuffer] *)
Inductive RelayPayload : Type :=
| TextPayload (text : string)
| BinaryPayload (data : list Z).

#[export] Instance RelayPayload_eq_dec : EqDecision RelayPayload.
Proof. solve_decision. Defined.

Inductive RelayEnvelope : Type :=
| RelayFrameEnvelope (target : RelayTarget) (payload : RelayPayload)
| RelayCloseEnvelope (target : RelayTarget) (closeCode : Z) (closeReason : string).

#[export] Instance RelayEnvelope_eq_dec : EqDecision RelayEnvelope.
Proof. solve_decision. Defined.

Definition envelope_target (e : RelayEnvelope) : RelayTarget :=
  match e with
  | RelayFrameEnvelope target _ => target
  | RelayCloseEnvelope target _ _ => target
  end.

(** [StreamChannel["kind"]] *)
Inductive StreamChannelKind : Type :=
| AgentChannel | ProcessesChannel | FileUploadChannel | ExecChannel | FileSearchChannel.

#[export] Instance StreamChannelKind_eq_dec : EqDecision StreamChannelKind.
Proof. solve_decision. Defined.

Definition channel_value (kind : StreamChannelKind) : string :=
  match kind with
  | AgentChannel => "agent"
  | ProcessesChannel => "processes"
  | FileUploadChannel => "fileUpload"
  | ExecChannel => "exec"
  | FileSearchChannel => "fileSearch"
  end.

(** ** Gateway forwarding targets and errors *)

Record GatewayForwardingTarget : Type := mkForwardingTarget {
  sourceNodeId : string;
  targetNodeId : string;
  targetBootstrapSessionId : string;
}.

#[export] Instance GatewayForwardingTarget_eq_dec : EqDecision GatewayForwardingTarget.
Proof. solve_decision. Defined.

Inductive GatewayForwardingOperation : Type :=
| OpOpenInteractiveStream | OpFindInteractiveStreamByClient | OpFindInteractiveStreamByTunnel
| OpCloseInteractiveStream | OpReleaseClientSessionStreams | OpAuthorizePortAccessTarget
| OpOpenPortAccessStream | OpReleasePortAccessStream.

Inductive GatewayForwardingUnavailableReason : Type :=
| connection_closed | connection_draining | no_responders.

Inductive GatewayForwardingPortAccessAuthorizationErrorCode : Type :=
| bootstrap_disconnected | bootstrap_not_connected | target_authorize_timed_out.

(** The classes of [Error] the tunnel throws; [PlainError] is [new Error(message)]. *)
Inductive JsError : Type :=
| PlainError (message : string)
| TunnelSessionBindingLimitExceededError (maxBindingCount : Z)
| BootstrapTunnelNotConnectedError (sandboxInstanceId : string)
| GatewayForwardingUnavailableError (message : string) (operation : GatewayForwardingOperation)
    (reason : GatewayForwardingUnavailableReason) (sandboxInstanceId subject : string)
    (target : GatewayForwardingTarget)
| GatewayForwardingPortAccessAuthorizationError
    (code : GatewayForwardingPortAccessAuthorizationErrorCode) (message : string)
| TunnelProtocolViolationError (message : string)
| GatewayForwardingNotReadyForRuntimeAttachmentError (message : string).

#[export] Instance GatewayForwardingOperation_eq_dec : EqDecision GatewayForwardingOperation.
Proof. solve_decision. Defined.
#[export] Instance GatewayForwardingUnavailableReason_eq_dec :
  EqDecision GatewayForwardingUnavailableReason.
Proof. solve_decision. Defined.
#[export] Instance PortAccessAuthorizationErrorCode_eq_dec :
  EqDecision GatewayForwardingPortAccessAuthorizationErrorCode.
Proof. solve_decision. Defined.
#[export] Instance JsError_eq_dec : EqDecision JsError.
Proof. solve_decision. Defined.

(** [error.message] *)
Definition error_message (e : JsError) : string :=
  match e with
  | PlainError message => message
  | TunnelSessionBindingLimitExceededError maxBindingCount =>
      "Bootstrap tunnel session already has the maximum "
      +:+ String_of_number maxBindingCount +:+ " active interactive stream bindings."
  | BootstrapTunnelNotConnectedError sandboxInstanceId =>
      "Sandbox bootstrap tunnel is not connected for sandbox '" +:+ sandboxInstanceId +:+ "'."
  | GatewayForwardingUnavailableError message _ _ _ _ _ => message
  | GatewayForwardingPortAccessAuthorizationError _ message => message
  | TunnelProtocolViolationError message => message
  | GatewayForwardingNotReadyForRuntimeAttachmentError message => message
  end.
