(* ===== verification/TunnelSession.v ===== *)
(** * One bootstrap tunnel session (tunnel/tunnel-session/sandbox-tunnel-session.ts)

    [SandboxTunnelSession] is the state of the class of that name: the bindings
    between the streams of client websockets and the streams of the bootstrap
    tunnel, in two maps, with the number of bindings per client, the reserved
    tunnel streams and the next id.  Its operations are in the error monad over
    that state.

    [session_ok] is the invariant: the two maps hold the same bindings, an id is
    bound or reserved at most once, the counters are right and the limit is kept.
    [session_run] applies a list of operations; the theorems hold after any
    such list on a new session.

    [clientStreamId] is a JavaScript number; the decimal text of an integer is
    [String(n)] below 10^21, far above the ids the protocol admits. *)

From S2P Require Import Prelude JsMap TunnelTypes.
Local Open Scope Z_scope.

(** ** The class *)

Record ClientStreamBinding : Type := mkBinding {
  channelKind : StreamChannelKind;
  clientSessionId : string;
  clientStreamId : number;
  tunnelStreamId : Z;
}.

#[export] Instance ClientStreamBinding_eq_dec : EqDecision ClientStreamBinding.
Proof. solve_decision. Defined.

Definition toClientBindingKey (clientSessionId : string) (clientStreamId : number) : string :=
  clientSessionId +:+ ":" +:+ String_of clientStreamId.

Record SandboxTunnelSession : Type := mkSession {
  bootstrapTarget : RelayTarget;
  maxBindingCount : option Z;
  bindingsByClientKey : JsMap.t string ClientStreamBinding;
  bindingsByTunnelStreamId : JsMap.t Z ClientStreamBinding;
  bindingCountsByClientSessionId : JsMap.t string Z;
  reservedTunnelStreamIds : gset Z;
  nextTunnelStreamId : Z;
}.

(** [new SandboxTunnelSession(bootstrapTarget, maxBindingCount)] *)
Definition new_session (target : RelayTarget) (max : option Z) : SandboxTunnelSession :=
  {| bootstrapTarget := target;
     maxBindingCount := max;
     bindingsByClientKey := JsMap.empty;
     bindingsByTunnelStreamId := JsMap.empty;
     bindingCountsByClientSessionId := JsMap.empty;
     reservedTunnelStreamIds := ∅;
     nextTunnelStreamId := 1 |}.

Notation SessionM := (M JsError SandboxTunnelSession).

(** [this.#bindingsByTunnelStreamId.has(id) || this.#reservedTunnelStreamIds.has(id)] *)
Definition tunnel_stream_in_use (s : SandboxTunnelSession) (id : Z) : bool :=
  JsMap.has s.(bindingsByTunnelStreamId) id || JsSet.has s.(reservedTunnelStreamIds) id.

(** The [while] loop: the first id from [id] on that is not in use, looked for
    [fuel] times; [next_free_id_spec] shows that [allocation_fuel] is enough. *)
Fixpoint next_free_id (s : SandboxTunnelSession) (fuel : nat) (id : Z) : Z :=
  match fuel with
  | O => id
  | S fuel => if tunnel_stream_in_use s id then next_free_id s fuel (id + 1) else id
  end.

Definition allocation_fuel (s : SandboxTunnelSession) : nat :=
  JsMap.size s.(bindingsByTunnelStreamId) + size s.(reservedTunnelStreamIds).

Definition allocateTunnelStreamId (s : SandboxTunnelSession) : Z * SandboxTunnelSession :=
  let id := next_free_id s (allocation_fuel s) s.(nextTunnelStreamId) in
  (id, mkSession s.(bootstrapTarget) s.(maxBindingCount) s.(bindingsByClientKey)
         s.(bindingsByTunnelStreamId) s.(bindingCountsByClientSessionId)
         s.(reservedTunnelStreamIds) (id + 1)).

Definition bindClientStream (kind : StreamChannelKind) (session : string) (stream : number)
    : SessionM ClientStreamBinding := λ s,
  if negb (Number_isInteger stream) || (integer_of stream <=? 0) then
    (inl (PlainError "Client stream id must be a positive integer."), s)
  else if match s.(maxBindingCount) with
          | Some max => max <=? Z.of_nat (JsMap.size s.(bindingsByTunnelStreamId))
          | None => false
          end then
    (inl (TunnelSessionBindingLimitExceededError (default 0 s.(maxBindingCount))), s)
  else
    let clientBindingKey := toClientBindingKey session stream in
    if JsMap.has s.(bindingsByClientKey) clientBindingKey then
      (inl (PlainError ("Client stream binding already exists for session '" +:+ session
                        +:+ "' stream " +:+ String_of stream +:+ ".")), s)
    else
      let (id, s) := allocateTunnelStreamId s in
      let binding := mkBinding kind session stream id in
      (inr binding,
       mkSession s.(bootstrapTarget) s.(maxBindingCount)
         (JsMap.set s.(bindingsByClientKey) clientBindingKey binding)
         (JsMap.set s.(bindingsByTunnelStreamId) binding.(tunnelStreamId) binding)
         (JsMap.set s.(bindingCountsByClientSessionId) session
            (default 0 (JsMap.get s.(bindingCountsByClientSessionId) session) + 1))
         s.(reservedTunnelStreamIds) s.(nextTunnelStreamId)).

Definition reserveTunnelStream : SessionM Z := λ s,
  let (id, s) := allocateTunnelStreamId s in
  (inr id,
   mkSession s.(bootstrapTarget) s.(maxBindingCount) s.(bindingsByClientKey)
     s.(bindingsByTunnelStreamId) s.(bindingCountsByClientSessionId)
     (JsSet.add s.(reservedTunnelStreamIds) id) s.(nextTunnelStreamId)).

Definition releaseReservedTunnelStream (id : Z) : SessionM bool := λ s,
  (inr (JsSet.has s.(reservedTunnelStreamIds) id),
   mkSession s.(bootstrapTarget) s.(maxBindingCount) s.(bindingsByClientKey)
     s.(bindingsByTunnelStreamId) s.(bindingCountsByClientSessionId)
     (JsSet.delete s.(reservedTunnelStreamIds) id) s.(nextTunnelStreamId)).

Definition getBindingByClientStream (s : SandboxTunnelSession) (session : string)
    (stream : number) : option ClientStreamBinding :=
  JsMap.get s.(bindingsByClientKey) (toClientBindingKey session stream).

Definition getBindingByTunnelStreamId (s : SandboxTunnelSession) (id : Z)
    : option ClientStreamBinding :=
  JsMap.get s.(bindingsByTunnelStreamId) id.

Definition unbindClientStream (session : string) (stream : number)
    : SessionM (option ClientStreamBinding) := λ s,
  let clientBindingKey := toClientBindingKey session stream in
  match JsMap.get s.(bindingsByClientKey) clientBindingKey with
  | None => (inr None, s)
  | Some binding =>
      let counts := s.(bindingCountsByClientSessionId) in
      let nextBindingCount := default 1 (JsMap.get counts binding.(clientSessionId)) - 1 in
      (inr (Some binding),
       mkSession s.(bootstrapTarget) s.(maxBindingCount)
         (JsMap.delete s.(bindingsByClientKey) clientBindingKey)
         (JsMap.delete s.(bindingsByTunnelStreamId) binding.(tunnelStreamId))
         (if nextBindingCount <=? 0 then JsMap.delete counts binding.(clientSessionId)
          else JsMap.set counts binding.(clientSessionId) nextBindingCount)
         s.(reservedTunnelStreamIds) s.(nextTunnelStreamId))
  end.

Definition releaseAllBindings : SessionM (list ClientStreamBinding) := λ s,
  (inr (JsMap.values s.(bindingsByTunnelStreamId)),
   mkSession s.(bootstrapTarget) s.(maxBindingCount) JsMap.empty JsMap.empty JsMap.empty
     ∅ s.(nextTunnelStreamId)).

Definition releaseClientSessionBindings (session : string)
    : SessionM (list ClientStreamBinding) := λ s,
  let released :=
    List.filter (λ b, b.(clientSessionId) =?= session)
      (JsMap.values s.(bindingsByTunnelStreamId)) in
  (inr released,
   mkSession s.(bootstrapTarget) s.(maxBindingCount)
     (foldl (λ m b, JsMap.delete m (toClientBindingKey b.(clientSessionId) b.(clientStreamId)))
        s.(bindingsByClientKey) released)
     (foldl (λ m b, JsMap.delete m b.(tunnelStreamId)) s.(bindingsByTunnelStreamId) released)
     (match released with
      | [] => s.(bindingCountsByClientSessionId)
      | _ => JsMap.delete s.(bindingCountsByClientSessionId) session
      end)
     s.(reservedTunnelStreamIds) s.(nextTunnelStreamId)).

Definition bindingCount (s : SandboxTunnelSession) : nat :=
  JsMap.size s.(bindingsByTunnelStreamId).

(** ** Histories of a session *)

Inductive session_op : Type :=
| Bind (kind : StreamChannelKind) (session : string) (stream : number)
| Reserve
| ReleaseReserved (id : Z)
| Unbind (session : string) (stream : number)
| ReleaseAll
| ReleaseSession (session : string).

(** One operation: the id it allocates, if any, and the state after it. *)
Definition session_apply (op : session_op) (s : SandboxTunnelSession)
    : option Z * SandboxTunnelSession :=
  match op with
  | Bind kind session stream =>
      let (r, s) := bindClientStream kind session stream s in
      (match r with inr b => Some b.(tunnelStreamId) | inl _ => None end, s)
  | Reserve =>
      let (r, s) := reserveTunnelStream s in
      (match r with inr id => Some id | inl _ => None end, s)
  | ReleaseReserved id => (None, (releaseReservedTunnelStream id s).2)
  | Unbind session stream => (None, (unbindClientStream session stream s).2)
  | ReleaseAll => (None, (releaseAllBindings s).2)
  | ReleaseSession session => (None, (releaseClientSessionBindings session s).2)
  end.

(** The ids a list of operations allocates, in order, and the state after it. *)
Fixpoint session_run (ops : list session_op) (s : SandboxTunnelSession)
    : list Z * SandboxTunnelSession :=
  match ops with
  | [] => ([], s)
  | op :: ops =>
      let (id, s1) := session_apply op s in
      let (ids, s2) := session_run ops s1 in
      (option_list id ++ ids, s2)
  end.

(** ** Allocation *)

Lemma tunnel_stream_in_use_spec s id :
  tunnel_stream_in_use s id = true ↔
  is_Some (JsMap.get s.(bindingsByTunnelStreamId) id) ∨ id ∈ s.(reservedTunnelStreamIds).
Proof.
  unfold tunnel_stream_in_use, JsSet.has. rewrite orb_true_iff, JsMap.has_spec.
  by rewrite bool_decide_eq_true.
Qed.

Lemma next_free_id_scan s fuel id :
  let r := next_free_id s fuel id in
  id ≤ r ≤ id + Z.of_nat fuel ∧ (∀ j, id ≤ j < r → tunnel_stream_in_use s j = true) ∧
  (r < id + Z.of_nat fuel → tunnel_stream_in_use s r = false).
Proof.
  revert id. induction fuel as [|fuel IH]; intros id; simpl.
  { split_and!; [lia..|intros; lia|lia]. }
  destruct (tunnel_stream_in_use s id) eqn:Hid.
  - destruct (IH (id + 1)) as (? & Hused & Hfree). split_and!; [lia..| |].
    + intros j ?. destruct (decide (j = id)) as [->|]; [done|]. apply Hused. lia.
    + intros. apply Hfree. lia.
  - split_and!; [lia..|intros; lia|done].
Qed.

(** The loop of [allocateTunnelStreamId] ends, in any state: it finds the first id
    that is not in use. *)
Lemma next_free_id_spec s id :
  let r := next_free_id s (allocation_fuel s) id in
  id ≤ r ∧ tunnel_stream_in_use s r = false ∧
  ∀ j, id ≤ j < r → tunnel_stream_in_use s j = true.
Proof.
  pose proof (next_free_id_scan s (allocation_fuel s) id) as (Hr & Hused & Hfree).
  simpl in *. set (r := next_free_id _ _ _) in *. split_and!; [lia| |done].
  destruct (tunnel_stream_in_use s r) eqn:Hin; [|done]. exfalso.
  assert (r = id + Z.of_nat (allocation_fuel s)) as Hreq.
  { destruct (decide (r < id + Z.of_nat (allocation_fuel s))) as [Hlt|]; [|lia].
    by specialize (Hfree Hlt). }
  set (used := JsMap.keys s.(bindingsByTunnelStreamId)
               ++ elements s.(reservedTunnelStreamIds)).
  assert (length used = allocation_fuel s) as Hlen.
  { unfold used, allocation_fuel, JsMap.keys, JsMap.size.
    rewrite length_app, length_fmap. done. }
  assert (seqZ id (Z.of_nat (S (allocation_fuel s))) ⊆+ used) as Hsub.
  { apply NoDup_submseteq; [apply NoDup_seqZ|]. intros j Hj%elem_of_seqZ.
    assert (tunnel_stream_in_use s j = true) as Hj'.
    { destruct (decide (j = r)) as [->|]; [done|]. apply Hused. lia. }
    apply tunnel_stream_in_use_spec in Hj'. unfold used.
    by rewrite elem_of_app, JsMap.elem_of_keys, elem_of_elements. }
  apply submseteq_length in Hsub. rewrite length_seqZ, Hlen in Hsub. lia.
Qed.

(** ** The invariant *)

Definition binding_key (b : ClientStreamBinding) : string :=
  toClientBindingKey b.(clientSessionId) b.(clientStreamId).

Definition of_session (session : string) (b : ClientStreamBinding) : bool :=
  b.(clientSessionId) =?= session.

Definition positive_integer (x : number) : Prop := ∃ n, x = Int n ∧ 0 < n.

Record session_ok (s : SandboxTunnelSession) : Prop := mkSessionOk {
  ok_wf_client : JsMap.wf s.(bindingsByClientKey);
  ok_wf_tunnel : JsMap.wf s.(bindingsByTunnelStreamId);
  ok_wf_counts : JsMap.wf s.(bindingCountsByClientSessionId);
  ok_client : ∀ k b, JsMap.get s.(bindingsByClientKey) k = Some b →
    k = binding_key b ∧ JsMap.get s.(bindingsByTunnelStreamId) b.(tunnelStreamId) = Some b;
  ok_tunnel : ∀ t b, JsMap.get s.(bindingsByTunnelStreamId) t = Some b →
    t = b.(tunnelStreamId) ∧ positive_integer b.(clientStreamId) ∧
    JsMap.get s.(bindingsByClientKey) (binding_key b) = Some b;
  ok_bound : ∀ t, is_Some (JsMap.get s.(bindingsByTunnelStreamId) t) →
    1 ≤ t < s.(nextTunnelStreamId) ∧ t ∉ s.(reservedTunnelStreamIds);
  ok_reserved : ∀ t, t ∈ s.(reservedTunnelStreamIds) → 1 ≤ t < s.(nextTunnelStreamId);
  ok_next : 1 ≤ s.(nextTunnelStreamId);
  ok_counts : ∀ session,
    JsMap.get s.(bindingCountsByClientSessionId) session =
      match JsMap.count (of_session session) s.(bindingsByTunnelStreamId) with
      | O => None
      | n => Some (Z.of_nat n)
      end;
  ok_limit : ∀ max, s.(maxBindingCount) = Some max →
    Z.of_nat (JsMap.size s.(bindingsByTunnelStreamId)) ≤ Z.max 0 max;
}.

Lemma toClientBindingKey_inj session session' x x' :
  positive_integer x → positive_integer x' →
  toClientBindingKey session x = toClientBindingKey session' x' → session = session' ∧ x = x'.
Proof.
  unfold toClientBindingKey. intros (n & -> & _) (n' & -> & _) Heq. simpl in Heq.
  apply key_inj_last in Heq as [-> ->%String_of_number_inj];
    auto using no_colon_String_of_number.
Qed.

Lemma positive_stream_check x :
  negb (Number_isInteger x) || (integer_of x <=? 0) = false ↔ positive_integer x.
Proof.
  unfold positive_integer. destruct x as [n|]; simpl; [|naive_solver].
  rewrite Z.leb_gt. naive_solver.
Qed.

(** Under the invariant the loop body of the allocator never runs. *)
Lemma next_not_in_use s : session_ok s → tunnel_stream_in_use s s.(nextTunnelStreamId) = false.
Proof.
  intros Hs. apply not_true_iff_false. rewrite tunnel_stream_in_use_spec.
  intros [Hb|Hr]; [apply (ok_bound _ Hs) in Hb|apply (ok_reserved _ Hs) in Hr]; lia.
Qed.

Lemma allocate_next s :
  session_ok s →
  allocateTunnelStreamId s =
    (s.(nextTunnelStreamId),
     mkSession s.(bootstrapTarget) s.(maxBindingCount) s.(bindingsByClientKey)
       s.(bindingsByTunnelStreamId) s.(bindingCountsByClientSessionId)
       s.(reservedTunnelStreamIds) (s.(nextTunnelStreamId) + 1)).
Proof.
  intros Hs. unfold allocateTunnelStreamId.
  assert (∀ fuel, next_free_id s fuel s.(nextTunnelStreamId) = s.(nextTunnelStreamId)) as ->;
    [|done].
  intros [|fuel]; simpl; [done|]. by rewrite next_not_in_use.
Qed.

Lemma new_session_ok target max : session_ok (new_session target max).
Proof. split; try apply JsMap.wf_empty; simpl; try naive_solver (set_solver || lia); lia. Qed.

(** *** Every operation preserves it *)

Lemma bind_state_ok s kind session stream :
  session_ok s → positive_integer stream →
  JsMap.get s.(bindingsByClientKey) (toClientBindingKey session stream) = None →
  (∀ max, s.(maxBindingCount) = Some max →
    Z.of_nat (JsMap.size s.(bindingsByTunnelStreamId)) < max) →
  let b := mkBinding kind session stream s.(nextTunnelStreamId) in
  session_ok
    (mkSession s.(bootstrapTarget) s.(maxBindingCount)
       (JsMap.set s.(bindingsByClientKey) (binding_key b) b)
       (JsMap.set s.(bindingsByTunnelStreamId) b.(tunnelStreamId) b)
       (JsMap.set s.(bindingCountsByClientSessionId) session
          (default 0 (JsMap.get s.(bindingCountsByClientSessionId) session) + 1))
       s.(reservedTunnelStreamIds) (s.(nextTunnelStreamId) + 1)).
Proof.
  intros Hs Hstream Hfresh Hmax b.
  pose proof (next_not_in_use _ Hs) as Hnext.
  apply not_true_iff_false in Hnext. rewrite tunnel_stream_in_use_spec in Hnext.
  assert (JsMap.get s.(bindingsByTunnelStreamId) s.(nextTunnelStreamId) = None) as Hnone.
  { apply eq_None_not_Some. tauto. }
  pose proof (ok_next _ Hs).
  split; simpl.
  - apply JsMap.wf_set, Hs.
  - apply JsMap.wf_set, Hs.
  - apply JsMap.wf_set, Hs.
  - intros k b'. rewrite !JsMap.get_set. case_decide as Hk; intros Hb'; simplify_eq.
    { split; [done|]. by rewrite decide_True. }
    destruct (ok_client _ Hs _ _ Hb') as [-> Ht]. split; [done|].
    rewrite decide_False; [done|]. intros Heq. rewrite <-Heq, Hnone in Ht. done.
  - intros t b'. rewrite !JsMap.get_set. case_decide as Hk; intros Hb'; simplify_eq.
    { split_and!; [done|done|]. by rewrite decide_True. }
    destruct (ok_tunnel _ Hs _ _ Hb') as (-> & Hpos & Hc). split_and!; [done..|].
    rewrite decide_False; [done|]. intros Heq. unfold binding_key in Hc, Heq. simpl in Heq.
    rewrite <-Heq, Hfresh in Hc. done.
  - intros t. rewrite JsMap.get_set. case_decide; subst.
    + intros _. split; [lia|tauto].
    + intros [? ?]%(ok_bound _ Hs). split; [lia|done].
  - intros t ?%(ok_reserved _ Hs). lia.
  - lia.
  - intros session'. rewrite JsMap.count_set_fresh by done.
    rewrite JsMap.get_set, !(ok_counts _ Hs). unfold of_session at 4. simpl.
    case_decide as Hses; subst.
    + rewrite bool_decide_true by done. rewrite Nat.add_1_r.
      destruct (JsMap.count _ _); simpl; f_equal; lia.
    + rewrite bool_decide_false by done. by rewrite Nat.add_0_r.
  - intros max Hm. rewrite JsMap.size_set, decide_False by (rewrite Hnone; by intros []).
    specialize (Hmax _ Hm). lia.
Qed.

Lemma reserve_state_ok s :
  session_ok s →
  session_ok
    (mkSession s.(bootstrapTarget) s.(maxBindingCount) s.(bindingsByClientKey)
       s.(bindingsByTunnelStreamId) s.(bindingCountsByClientSessionId)
       (JsSet.add s.(reservedTunnelStreamIds) s.(nextTunnelStreamId))
       (s.(nextTunnelStreamId) + 1)).
Proof.
  intros Hs. pose proof (ok_next _ Hs). destruct Hs. unfold JsSet.add.
  split; simpl; try done; [| |lia].
  - intros t Ht. destruct (ok_bound0 t Ht). split; [lia|]. set_unfold. intros [->|?]; [lia|done].
  - intros t. set_unfold. intros [->|?%ok_reserved0]; lia.
Qed.

Lemma release_reserved_state_ok s id :
  session_ok s → session_ok (releaseReservedTunnelStream id s).2.
Proof.
  intros []. unfold releaseReservedTunnelStream, JsSet.delete. split; simpl; try done.
  - intros t Ht. destruct (ok_bound0 t Ht). split; [lia|]. set_solver.
  - intros t Ht. apply ok_reserved0. set_solver.
Qed.

Lemma release_all_state_ok s : session_ok s → session_ok (releaseAllBindings s).2.
Proof.
  intros Hs. pose proof (ok_next _ Hs).
  split; try apply JsMap.wf_empty; simpl; try naive_solver (set_solver || lia); lia.
Qed.

Lemma unbind_state_ok s session stream :
  session_ok s → session_ok (unbindClientStream session stream s).2.
Proof.
  intros Hs. unfold unbindClientStream.
  destruct (JsMap.get _ _) as [b|] eqn:Hkey; [|done].
  destruct (ok_client _ Hs _ _ Hkey) as [Hk Ht]. rewrite Hk in *. cbn [snd].
  assert (∀ f, JsMap.count f s.(bindingsByTunnelStreamId) =
    (JsMap.count f (JsMap.delete s.(bindingsByTunnelStreamId) b.(tunnelStreamId))
     + if f b then 1 else 0)%nat) as Hcount.
  { intros f. apply JsMap.count_delete; [apply Hs|done]. }
  assert (of_session b.(clientSessionId) b = true) as Hb by (by apply bool_decide_eq_true).
  split; simpl.
  - apply JsMap.wf_delete, Hs.
  - apply JsMap.wf_delete, Hs.
  - destruct (_ <=? 0); [apply JsMap.wf_delete|apply JsMap.wf_set]; apply Hs.
  - intros k b'. rewrite !JsMap.get_delete. case_decide as Hne; [done|]. intros Hb'.
    destruct (ok_client _ Hs _ _ Hb') as [-> Ht']. split; [done|].
    rewrite decide_False; [done|]. intros Heq. rewrite <-Heq, Ht in Ht'. by simplify_eq.
  - intros t b'. rewrite !JsMap.get_delete. case_decide as Hne; [done|]. intros Hb'.
    destruct (ok_tunnel _ Hs _ _ Hb') as (-> & Hpos & Hc). split_and!; [done..|].
    rewrite decide_False; [done|]. intros Heq. rewrite <-Heq, Hkey in Hc. by simplify_eq.
  - intros t. rewrite JsMap.get_delete. case_decide; [by intros []|]. apply Hs.
  - apply (ok_reserved _ Hs).
  - apply (ok_next _ Hs).
  - intros session'. specialize (Hcount (of_session session')).
    pose proof (ok_counts _ Hs session') as Hsc. rewrite Hcount in Hsc.
    destruct (decide (b.(clientSessionId) = session')) as [<-|Hne].
    + rewrite Hb, Nat.add_1_r in Hsc. rewrite Hsc. cbn [default from_option]. unfold id.
      destruct (JsMap.count _ (JsMap.delete _ _)) as [|n];
        match goal with |- context [if ?c then _ else _] => destruct c eqn:? end; bools; try lia.
      * apply JsMap.get_delete_eq.
      * rewrite JsMap.get_set_eq. f_equal. lia.
    + assert (of_session session' b = false) as Hf by (by apply bool_decide_eq_false).
      rewrite Hf, Nat.add_0_r in Hsc.
      destruct (_ <=? 0); rewrite ?JsMap.get_delete_ne, ?JsMap.get_set_ne by done; done.
  - intros max Hm. specialize (ok_limit _ Hs _ Hm).
    rewrite JsMap.size_delete by apply Hs. case_decide; lia.
Qed.

(** *** Releasing the bindings of one client session *)

Section ReleaseSession.
Context (s : SandboxTunnelSession) (session : string) (Hs : session_ok s).

Let released : list ClientStreamBinding :=
  List.filter (of_session session) (JsMap.values s.(bindingsByTunnelStreamId)).

Lemma elem_of_released b :
  b ∈ released ↔
  JsMap.get s.(bindingsByTunnelStreamId) b.(tunnelStreamId) = Some b ∧
  b.(clientSessionId) = session.
Proof.
  unfold released. rewrite elem_of_filter_map_bool.
  rewrite JsMap.elem_of_values by apply Hs. unfold of_session. rewrite bool_decide_eq_true.
  split; [|naive_solver]. intros [[t Ht] ?].
  by destruct (ok_tunnel _ Hs _ _ Ht) as (-> & _).
Qed.

(** The two loops of [delete] calls are one filter on each map. *)
Lemma release_by_tunnel :
  foldl (λ m b, JsMap.delete m b.(tunnelStreamId)) s.(bindingsByTunnelStreamId) released =
  JsMap.delete_where (λ _, of_session session) s.(bindingsByTunnelStreamId).
Proof.
  rewrite (JsMap.foldl_delete tunnelStreamId). apply JsMap.delete_where_ext. intros t b Hin.
  apply JsMap.elem_of_get in Hin; [|apply Hs].
  destruct (ok_tunnel _ Hs _ _ Hin) as (-> & _). apply bool_decide_ext.
  rewrite list_elem_of_fmap. setoid_rewrite elem_of_released.
  split; [|naive_solver]. intros (b' & Heq & Hb' & <-). rewrite <-Heq in Hb'.
  rewrite Hin in Hb'. by simplify_eq.
Qed.

Lemma release_by_client :
  foldl (λ m b, JsMap.delete m (binding_key b)) s.(bindingsByClientKey) released =
  JsMap.delete_where (λ _, of_session session) s.(bindingsByClientKey).
Proof.
  rewrite (JsMap.foldl_delete binding_key). apply JsMap.delete_where_ext. intros k b Hin.
  apply JsMap.elem_of_get in Hin; [|apply Hs].
  destruct (ok_client _ Hs _ _ Hin) as [-> Ht]. apply bool_decide_ext.
  rewrite list_elem_of_fmap. setoid_rewrite elem_of_released.
  split; [|naive_solver]. intros (b' & Heq & Hb' & <-).
  destruct (ok_tunnel _ Hs _ _ Hb') as (_ & _ & Hc). rewrite <-Heq, Hin in Hc. by simplify_eq.
Qed.

Lemma released_nil : released = [] ↔ JsMap.count (of_session session) s.(bindingsByTunnelStreamId) = 0%nat.
Proof. unfold JsMap.count. by rewrite length_zero_iff_nil. Qed.

Lemma release_session_state :
  releaseClientSessionBindings session s =
  (inr released,
   mkSession s.(bootstrapTarget) s.(maxBindingCount)
     (JsMap.delete_where (λ _, of_session session) s.(bindingsByClientKey))
     (JsMap.delete_where (λ _, of_session session) s.(bindingsByTunnelStreamId))
     (JsMap.delete s.(bindingCountsByClientSessionId) session)
     s.(reservedTunnelStreamIds) s.(nextTunnelStreamId)).
Proof.
  assert (match released with
          | [] => s.(bindingCountsByClientSessionId)
          | _ => JsMap.delete s.(bindingCountsByClientSessionId) session
          end = JsMap.delete s.(bindingCountsByClientSessionId) session) as Hcounts.
  { destruct released as [|b l] eqn:Hrel; [|done].
    rewrite JsMap.delete_absent; [done|].
    rewrite (ok_counts _ Hs). apply released_nil in Hrel. by rewrite Hrel. }
  rewrite <-Hcounts, <-release_by_tunnel, <-release_by_client. reflexivity.
Qed.

Lemma release_session_state_ok : session_ok (releaseClientSessionBindings session s).2.
Proof.
  rewrite release_session_state. split; simpl.
  - apply JsMap.wf_delete_where, Hs.
  - apply JsMap.wf_delete_where, Hs.
  - apply JsMap.wf_delete, Hs.
  - intros k b. rewrite !JsMap.get_delete_where by apply Hs.
    destruct (JsMap.get _ k) as [b'|] eqn:Hk; [|done].
    destruct (of_session session b') eqn:Hb'; intros; simplify_eq.
    destruct (ok_client _ Hs _ _ Hk) as [-> ->]. by rewrite Hb'.
  - intros t b. rewrite !JsMap.get_delete_where by apply Hs.
    destruct (JsMap.get _ t) as [b'|] eqn:Ht; [|done].
    destruct (of_session session b') eqn:Hb'; intros; simplify_eq.
    destruct (ok_tunnel _ Hs _ _ Ht) as (-> & ? & ->). by rewrite Hb'.
  - intros t. rewrite JsMap.get_delete_where by apply Hs. intros Ht. apply Hs.
    destruct (JsMap.get _ t); [eauto|by destruct Ht].
  - apply (ok_reserved _ Hs).
  - apply (ok_next _ Hs).
  - intros session'. rewrite JsMap.get_delete, JsMap.count_delete_where, (ok_counts _ Hs).
    case_decide as Hse.
    + subst session'. erewrite (JsMap.count_ext (λ v, _ v && negb (_ v)) (λ _, false)).
      * unfold JsMap.count. by induction (JsMap.values _).
      * intros b. by destruct (of_session session b).
    + erewrite (JsMap.count_ext (λ v, _ v && negb (_ v)) (of_session session')); [done|].
      intros b. unfold of_session. repeat case_bool_decide; simpl; congruence.
  - intros max Hm. specialize (ok_limit _ Hs _ Hm). unfold JsMap.size, JsMap.delete_where.
    pose proof (List.filter_length_le (λ e : Z * ClientStreamBinding, negb (of_session session e.2))
      s.(bindingsByTunnelStreamId)). lia.
Qed.
End ReleaseSession.

(** ** Specifications of the operations *)

(** The state after a successful [bindClientStream]. *)
Definition bound_state (s : SandboxTunnelSession) (b : ClientStreamBinding) : SandboxTunnelSession :=
  mkSession s.(bootstrapTarget) s.(maxBindingCount)
    (JsMap.set s.(bindingsByClientKey) (binding_key b) b)
    (JsMap.set s.(bindingsByTunnelStreamId) b.(tunnelStreamId) b)
    (JsMap.set s.(bindingCountsByClientSessionId) b.(clientSessionId)
       (default 0 (JsMap.get s.(bindingCountsByClientSessionId) b.(clientSessionId)) + 1))
    s.(reservedTunnelStreamIds) (s.(nextTunnelStreamId) + 1).

Inductive bind_outcome (s : SandboxTunnelSession) (kind : StreamChannelKind) (session : string)
    (stream : number) : (JsError + ClientStreamBinding) * SandboxTunnelSession → Prop :=
| bind_invalid_id :
    ¬ positive_integer stream →
    bind_outcome s kind session stream
      (inl (PlainError "Client stream id must be a positive integer."), s)
| bind_limit max :
    positive_integer stream → s.(maxBindingCount) = Some max →
    max ≤ Z.of_nat (bindingCount s) →
    bind_outcome s kind session stream (inl (TunnelSessionBindingLimitExceededError max), s)
| bind_duplicate :
    positive_integer stream → is_Some (getBindingByClientStream s session stream) →
    bind_outcome s kind session stream
      (inl (PlainError ("Client stream binding already exists for session '" +:+ session
                        +:+ "' stream " +:+ String_of stream +:+ ".")), s)
| bind_success :
    positive_integer stream →
    getBindingByClientStream s session stream = None →
    (∀ max, s.(maxBindingCount) = Some max → Z.of_nat (bindingCount s) < max) →
    tunnel_stream_in_use s s.(nextTunnelStreamId) = false →
    bind_outcome s kind session stream
      (inr (mkBinding kind session stream s.(nextTunnelStreamId)),
       bound_state s (mkBinding kind session stream s.(nextTunnelStreamId))).

Lemma bind_outcome_ok s kind session stream :
  session_ok s → bind_outcome s kind session stream (bindClientStream kind session stream s).
Proof.
  intros Hs. unfold bindClientStream.
  destruct (negb _ || _) eqn:Hpos.
  { apply bind_invalid_id. rewrite <-positive_stream_check. by rewrite Hpos. }
  apply positive_stream_check in Hpos.
  destruct (match s.(maxBindingCount) with Some _ => _ | None => _ end) eqn:Hlim.
  { destruct (maxBindingCount s) as [max|] eqn:Hmax; [|done]. bools. by eapply bind_limit. }
  destruct (JsMap.has _ _) eqn:Hhas.
  { apply JsMap.has_spec in Hhas. by eapply bind_duplicate. }
  apply JsMap.has_false in Hhas. rewrite allocate_next by done.
  apply bind_success; [done|done| |by apply next_not_in_use].
  intros max Hmax. rewrite Hmax in Hlim. by bools.
Qed.

Lemma bound_state_ok s kind session stream r s' :
  session_ok s → bind_outcome s kind session stream (r, s') → session_ok s'.
Proof.
  intros Hs Ho. inversion Ho; subst; try done. by apply bind_state_ok.
Qed.

Lemma session_apply_ok op s :
  session_ok s →
  let (id, s') := session_apply op s in
  session_ok s' ∧
  ((id = Some s.(nextTunnelStreamId) ∧ s'.(nextTunnelStreamId) = s.(nextTunnelStreamId) + 1) ∨
   (id = None ∧ s'.(nextTunnelStreamId) = s.(nextTunnelStreamId))).
Proof.
  intros Hs. destruct op as [kind session stream| |id|session stream| |session]; unfold session_apply.
  - pose proof (bind_outcome_ok s kind session stream Hs) as Ho.
    destruct (bindClientStream _ _ _ s) as [r s'] eqn:Hb.
    split; [by eapply bound_state_ok|]. inversion Ho; subst; auto.
  - unfold reserveTunnelStream. rewrite allocate_next by done. simpl.
    split; [by apply reserve_state_ok|auto].
  - split; [by apply release_reserved_state_ok|auto].
  - split; [by apply unbind_state_ok|]. right. split; [done|].
    unfold unbindClientStream. by destruct (JsMap.get _ _).
  - split; [by apply release_all_state_ok|auto].
  - split; [by apply release_session_state_ok|]. right. by rewrite release_session_state.
Qed.

Lemma session_run_ok ops s :
  session_ok s →
  let (ids, s') := session_run ops s in
  session_ok s' ∧ ids = seqZ s.(nextTunnelStreamId) (Z.of_nat (length ids)) ∧
  s'.(nextTunnelStreamId) = s.(nextTunnelStreamId) + Z.of_nat (length ids).
Proof.
  revert s. induction ops as [|op ops IH]; intros s Hs; simpl.
  { split_and!; [done|done|lia]. }
  pose proof (session_apply_ok op s Hs) as Hop.
  destruct (session_apply op s) as [id s1]. destruct Hop as [Hs1 Hid].
  specialize (IH s1 Hs1). destruct (session_run ops s1) as [ids s2].
  destruct IH as (Hs2 & Hids & Hnext). split; [done|].
  destruct Hid as [[-> Heq]|[-> Heq]]; rewrite Heq in *; simpl; [|done].
  rewrite Hids at 1. split; [|lia].
  rewrite (seqZ_cons s.(nextTunnelStreamId)) by lia. do 2 f_equal; lia.
Qed.

(** C3: after any history of a session the invariant holds (the two maps hold the
    same bindings, no id is both bound and reserved, the counters are right, the
    limit is kept), and the tunnel streams were allocated in the order 1, 2, 3, ...:
    no id is ever used twice, released or not. *)
Theorem session_history (target : RelayTarget) (max : option Z) (ops : list session_op) :
  let (ids, s) := session_run ops (new_session target max) in
  session_ok s ∧ ids = seqZ 1 (Z.of_nat (length ids)) ∧
  s.(nextTunnelStreamId) = 1 + Z.of_nat (length ids).
Proof. apply (session_run_ok ops (new_session target max)), new_session_ok. Qed.

(** [bindClientStream] either throws and changes nothing, for an id that is not
    a positive integer, a full session or a stream already bound, in that order;
    or it binds the stream to an id nothing uses, found again by both lookups,
    and every other stream keeps its binding. *)
Theorem bindClientStream_spec (s : SandboxTunnelSession) (kind : StreamChannelKind)
    (session : string) (stream : number) :
  session_ok s →
  let (r, s') := bindClientStream kind session stream s in
  bind_outcome s kind session stream (r, s') ∧
  match r with
  | inl _ => s' = s
  | inr b =>
      getBindingByTunnelStreamId s b.(tunnelStreamId) = None ∧
      b.(tunnelStreamId) ∉ s.(reservedTunnelStreamIds) ∧
      getBindingByClientStream s' session stream = Some b ∧
      getBindingByTunnelStreamId s' b.(tunnelStreamId) = Some b ∧
      (∀ t, t ≠ b.(tunnelStreamId) →
        getBindingByTunnelStreamId s' t = getBindingByTunnelStreamId s t) ∧
      (∀ session' n, 0 < n → (session', Int n) ≠ (session, stream) →
        getBindingByClientStream s' session' (Int n) = getBindingByClientStream s session' (Int n))
  end.
Proof.
  intros Hs. pose proof (bind_outcome_ok s kind session stream Hs) as Ho.
  destruct (bindClientStream _ _ _ s) as [r s']. split; [done|].
  inversion Ho as [| | |Hpos Hnone Hlim Hfree]; subst; try done.
  apply not_true_iff_false in Hfree. rewrite tunnel_stream_in_use_spec in Hfree.
  unfold getBindingByTunnelStreamId, getBindingByClientStream. simpl. split_and!.
  - apply eq_None_not_Some. tauto.
  - tauto.
  - apply JsMap.get_set_eq.
  - apply JsMap.get_set_eq.
  - intros. by apply JsMap.get_set_ne.
  - intros session' n Hn Hne. apply JsMap.get_set_ne. unfold binding_key. simpl. intros Heq.
    apply toClientBindingKey_inj in Heq as [-> ->]; [done|done|unfold positive_integer; eauto].
Qed.

Definition demo_target : RelayTarget := mkTarget "sbi_1" SideBootstrap "node_a" "session_1".

Definition demo_session : SandboxTunnelSession :=
  (session_run [Bind AgentChannel "client_a" (Int 1); Reserve; Bind ExecChannel "client_b" (Int 1)]
     (new_session demo_target (Some 3))).2.

Lemma demo_session_ok : session_ok demo_session.
Proof.
  unfold demo_session. set (ops := [_; _; _]).
  pose proof (session_run_ok ops _ (new_session_ok demo_target (Some 3))) as H.
  destruct (session_run ops _). by destruct H.
Qed.

Lemma bindClientStream_spec_witness :
  (bindClientStream AgentChannel "client_a" (Int 2) demo_session).1 =
    inr (mkBinding AgentChannel "client_a" (Int 2) 4) ∧
  let (r, s') := bindClientStream AgentChannel "client_a" (Int 2) demo_session in
  bind_outcome demo_session AgentChannel "client_a" (Int 2) (r, s').
Proof.
  split; [vm_compute; reflexivity|].
  pose proof (bindClientStream_spec demo_session AgentChannel "client_a" (Int 2)
    demo_session_ok) as H.
  destruct (bindClientStream _ _ _ _) as [r s']. exact (proj1 H).
Defined.

(** [unbindClientStream] and [releaseClientSessionBindings] return exactly the
    bindings they remove: the one of the stream, or all those of the client
    session.  Neither lookup finds a removed binding again, and the bindings of
    other streams and sessions are untouched. *)
Theorem release_spec (s : SandboxTunnelSession) :
  session_ok s →
  (∀ session stream,
    let (r, s') := unbindClientStream session stream s in
    r = inr (getBindingByClientStream s session stream) ∧
    ∀ t, getBindingByTunnelStreamId s' t =
      match getBindingByTunnelStreamId s t with
      | Some b => if getBindingByClientStream s session stream =?= Some b then None else Some b
      | None => None
      end) ∧
  (∀ session,
    let (r, s') := releaseClientSessionBindings session s in
    ∃ released, r = inr released ∧
      (∀ b, b ∈ released ↔ getBindingByTunnelStreamId s b.(tunnelStreamId) = Some b ∧
                           b.(clientSessionId) = session) ∧
      (∀ t, getBindingByTunnelStreamId s' t =
        match getBindingByTunnelStreamId s t with
        | Some b => if b.(clientSessionId) =?= session then None else Some b
        | None => None
        end) ∧
      (∀ stream, positive_integer stream → getBindingByClientStream s' session stream = None) ∧
      (bindingCount s' + length released)%nat = bindingCount s).
Proof.
  intros Hs. split.
  - intros session stream. unfold unbindClientStream, getBindingByClientStream.
    destruct (JsMap.get s.(bindingsByClientKey) _) as [b|] eqn:Hk; cbn beta iota.
    + split; [done|]. intros t. unfold getBindingByTunnelStreamId.
      cbn [bindingsByTunnelStreamId].
      destruct (ok_client _ Hs _ _ Hk) as [_ Hb]. rewrite JsMap.get_delete.
      destruct (JsMap.get s.(bindingsByTunnelStreamId) t) as [b'|] eqn:Ht;
        [|by case_decide].
      destruct (ok_tunnel _ Hs _ _ Ht) as (-> & _).
      case_decide as Hid; [rewrite bool_decide_true|rewrite bool_decide_false]; try done.
      * rewrite Hid, Ht in Hb. congruence.
      * congruence.
    + split; [done|]. intros t. by destruct (getBindingByTunnelStreamId s t).
  - intros session. rewrite release_session_state by done. eexists. split; [done|].
    split_and!.
    + intros b. by apply elem_of_released.
    + intros t. unfold getBindingByTunnelStreamId. simpl.
      rewrite JsMap.get_delete_where by apply Hs. done.
    + intros stream Hstream. unfold getBindingByClientStream. simpl.
      rewrite JsMap.get_delete_where by apply Hs.
      destruct (JsMap.get _ _) as [b|] eqn:Hk; [|done].
      destruct (ok_client _ Hs _ _ Hk) as [Hkey Ht].
      apply toClientBindingKey_inj in Hkey as [-> _]; [|done|by apply (ok_tunnel _ Hs _ _ Ht)].
      unfold of_session. by rewrite bool_decide_true.
    + unfold bindingCount, JsMap.size. simpl. rewrite <-(length_fmap snd).
      change ((JsMap.delete_where _ _).*2)
        with (JsMap.values (JsMap.delete_where (λ _, of_session session)
                              s.(bindingsByTunnelStreamId))).
      rewrite JsMap.values_delete_where, Nat.add_comm, filter_length_split.
      unfold JsMap.values. by rewrite length_fmap.
Qed.

Lemma release_spec_witness :
  (releaseClientSessionBindings "client_a" demo_session).1 =
    inr [mkBinding AgentChannel "client_a" (Int 1) 1] ∧
  (unbindClientStream "client_b" (Int 1) demo_session).1 =
    inr (getBindingByClientStream demo_session "client_b" (Int 1)).
Proof.
  split; [vm_compute; reflexivity|].
  pose proof (proj1 (release_spec demo_session demo_session_ok) "client_b" (Int 1)) as H.
  destruct (unbindClientStream _ _ _) as [r s']. exact (proj1 H).
Defined.
