(* ===== verification/SessionRegistry.v ===== *)
(** * The tunnel session registry (tunnel/tunnel-session/)

    - [TunnelSessionRegistryAdapter]: the interface of
      tunnel-session-registry-adapter.ts, as a class of operations over a state;
      [TunnelSessionRegistryLaws] is its contract: the registry is a family of
      independent [SandboxTunnelSession]s, one per attached sandbox.
    - [MemoryRegistry]: adapters/in-memory-tunnel-session-registry-adapter.ts,
      the proof that it meets the contract, and what it does through any history
      ([registry_history]).
    - [TunnelSessionRegistry]: the wrapper of tunnel-session-registry.ts, with
      the availability probes it keeps beside the adapter.  A probe is a closure
      over a websocket; what it answers when it is called is a parameter. *)

From S2P Require Import Prelude JsMap TunnelTypes TunnelSession.
Local Open Scope Z_scope.

Record AttachBootstrapSessionResult : Type := mkAttachResult {
  replacedBootstrapTarget : option RelayTarget;
  attach_releasedBindings : list ClientStreamBinding;
}.

Record DetachBootstrapSessionResult : Type := mkDetachResult {
  detachedBootstrapTarget : RelayTarget;
  detach_releasedBindings : list ClientStreamBinding;
}.

(** ** The interface *)

Class TunnelSessionRegistryAdapter (R : Type) : Type := {
  adapter_attachBootstrapSession : RelayTarget → M JsError R AttachBootstrapSessionResult;
  adapter_getBootstrapTarget : R → string → option RelayTarget;
  adapter_detachBootstrapSession : RelayTarget → M JsError R (option DetachBootstrapSessionResult);
  adapter_bindClientStream :
    string → StreamChannelKind → string → number → M JsError R ClientStreamBinding;
  adapter_reserveTunnelStream : string → M JsError R Z;
  adapter_releaseReservedTunnelStream : string → Z → M JsError R bool;
  adapter_getBindingByClientStream : R → string → string → number → option ClientStreamBinding;
  adapter_getBindingByTunnelStreamId : R → string → Z → option ClientStreamBinding;
  adapter_unbindClientStream :
    string → string → number → M JsError R (option ClientStreamBinding);
  adapter_releaseClientSessionBindings : string → string → M JsError R (list ClientStreamBinding);
}.

Definition not_registered (sandboxInstanceId : string) : JsError :=
  PlainError ("Bootstrap tunnel session is not registered for sandbox '"
              +:+ sandboxInstanceId +:+ "'.").

(** [f] on the sandbox [id], the others as they are. *)
Definition update_at {A} (f : string → option A) (id : string) (a : option A) : string → option A :=
  λ id', if decide (id = id') then a else f id'.

(** What an operation on one sandbox does to the sessions [view]: it runs [op] on
    the live session, or answers [missing] when there is none. *)
Definition runs_on {A} (view view' : string → option SandboxTunnelSession) (id : string)
    (missing : JsError + A) (op : SessionM A) (r : JsError + A) : Prop :=
  match view id with
  | None => r = missing ∧ view' = view
  | Some s => r = (op s).1 ∧ ∀ id', view' id' = update_at view id (Some (op s).2) id'
  end.

(** The contract of the interface: [registry_view] is the live session of each
    sandbox. *)
Class TunnelSessionRegistryLaws (R : Type) `{TunnelSessionRegistryAdapter R} : Type := {
  registry_view : R → string → option SandboxTunnelSession;
  registry_limit : R → option Z;
  law_attach t r :
    ∃ r', adapter_attachBootstrapSession t r =
      (inr (mkAttachResult (bootstrapTarget <$> registry_view r t.(target_sandboxInstanceId))
              (match registry_view r t.(target_sandboxInstanceId) with
               | Some s => JsMap.values s.(bindingsByTunnelStreamId)
               | None => []
               end)), r') ∧
    (∀ id, registry_view r' id =
      update_at (registry_view r) t.(target_sandboxInstanceId)
        (Some (new_session t (registry_limit r))) id) ∧
    registry_limit r' = registry_limit r;
  law_getBootstrapTarget r id :
    adapter_getBootstrapTarget r id = bootstrapTarget <$> registry_view r id;
  law_detach t r :
    let (res, r') := adapter_detachBootstrapSession t r in
    registry_limit r' = registry_limit r ∧
    match registry_view r t.(target_sandboxInstanceId) with
    | Some s =>
        if decide (s.(bootstrapTarget) = t) then
          res = inr (Some (mkDetachResult t (JsMap.values s.(bindingsByTunnelStreamId)))) ∧
          ∀ id, registry_view r' id =
            update_at (registry_view r) t.(target_sandboxInstanceId) None id
        else res = inr None ∧ r' = r
    | None => res = inr None ∧ r' = r
    end;
  law_bind r id kind session stream :
    let (res, r') := adapter_bindClientStream id kind session stream r in
    registry_limit r' = registry_limit r ∧
    runs_on (registry_view r) (registry_view r') id (inl (not_registered id))
      (bindClientStream kind session stream) res;
  law_reserve r id :
    let (res, r') := adapter_reserveTunnelStream id r in
    registry_limit r' = registry_limit r ∧
    runs_on (registry_view r) (registry_view r') id (inl (not_registered id))
      reserveTunnelStream res;
  law_releaseReserved r id stream :
    let (res, r') := adapter_releaseReservedTunnelStream id stream r in
    registry_limit r' = registry_limit r ∧
    runs_on (registry_view r) (registry_view r') id (inr false)
      (releaseReservedTunnelStream stream) res;
  law_getByClient r id session stream :
    adapter_getBindingByClientStream r id session stream =
      (registry_view r id ≫= λ s, getBindingByClientStream s session stream);
  law_getByTunnel r id stream :
    adapter_getBindingByTunnelStreamId r id stream =
      (registry_view r id ≫= λ s, getBindingByTunnelStreamId s stream);
  law_unbind r id session stream :
    let (res, r') := adapter_unbindClientStream id session stream r in
    registry_limit r' = registry_limit r ∧
    runs_on (registry_view r) (registry_view r') id (inr None)
      (unbindClientStream session stream) res;
  law_releaseSession r id session :
    let (res, r') := adapter_releaseClientSessionBindings id session r in
    registry_limit r' = registry_limit r ∧
    runs_on (registry_view r) (registry_view r') id (inr [])
      (releaseClientSessionBindings session) res;
}.

(** ** The in-memory adapter *)

Record MemoryRegistry : Type := mkMemoryRegistry {
  sessionsBySandboxInstanceId : JsMap.t string SandboxTunnelSession;
  memory_maxBindingCount : option Z;
}.

Definition isSameBootstrapTarget (left right : RelayTarget) : bool :=
  (left.(target_sandboxInstanceId) =?= right.(target_sandboxInstanceId))
  && (left.(target_side) =?= right.(target_side))
  && (left.(target_nodeId) =?= right.(target_nodeId))
  && (left.(target_sessionId) =?= right.(target_sessionId)).

(** A method call on the session object the map holds for [id]: the map sees the
    object after the call. *)
Definition on_session {A} (id : string) (missing : JsError + A) (op : SessionM A)
    : M JsError MemoryRegistry A := λ r,
  match JsMap.get r.(sessionsBySandboxInstanceId) id with
  | None => (missing, r)
  | Some session =>
      let (res, session) := op session in
      (res, mkMemoryRegistry (JsMap.set r.(sessionsBySandboxInstanceId) id session)
              r.(memory_maxBindingCount))
  end.

Definition memory_attachBootstrapSession (input : RelayTarget)
    : M JsError MemoryRegistry AttachBootstrapSessionResult := λ r,
  let replacedSession :=
    JsMap.get r.(sessionsBySandboxInstanceId) input.(target_sandboxInstanceId) in
  let session := new_session input r.(memory_maxBindingCount) in
  (inr (mkAttachResult (bootstrapTarget <$> replacedSession)
          (match replacedSession with
           | Some s => match (releaseAllBindings s).1 with inr l => l | inl _ => [] end
           | None => []
           end)),
   mkMemoryRegistry
     (JsMap.set r.(sessionsBySandboxInstanceId) input.(target_sandboxInstanceId) session)
     r.(memory_maxBindingCount)).

Definition memory_getBootstrapTarget (r : MemoryRegistry) (id : string) : option RelayTarget :=
  bootstrapTarget <$> JsMap.get r.(sessionsBySandboxInstanceId) id.

Definition memory_detachBootstrapSession (input : RelayTarget)
    : M JsError MemoryRegistry (option DetachBootstrapSessionResult) := λ r,
  match JsMap.get r.(sessionsBySandboxInstanceId) input.(target_sandboxInstanceId) with
  | None => (inr None, r)
  | Some currentSession =>
      if negb (isSameBootstrapTarget currentSession.(bootstrapTarget) input) then (inr None, r)
      else
        (inr (Some (mkDetachResult currentSession.(bootstrapTarget)
           (match (releaseAllBindings currentSession).1 with inr l => l | inl _ => [] end))),
         mkMemoryRegistry
           (JsMap.delete r.(sessionsBySandboxInstanceId) input.(target_sandboxInstanceId))
           r.(memory_maxBindingCount))
  end.

Definition memory_bindClientStream (id : string) (kind : StreamChannelKind) (session : string)
    (stream : number) : M JsError MemoryRegistry ClientStreamBinding :=
  on_session id (inl (not_registered id)) (bindClientStream kind session stream).

Definition memory_reserveTunnelStream (id : string) : M JsError MemoryRegistry Z :=
  on_session id (inl (not_registered id)) reserveTunnelStream.

Definition memory_releaseReservedTunnelStream (id : string) (stream : Z)
    : M JsError MemoryRegistry bool :=
  on_session id (inr false) (releaseReservedTunnelStream stream).

Definition memory_getBindingByClientStream (r : MemoryRegistry) (id session : string)
    (stream : number) : option ClientStreamBinding :=
  s ← JsMap.get r.(sessionsBySandboxInstanceId) id; getBindingByClientStream s session stream.

Definition memory_getBindingByTunnelStreamId (r : MemoryRegistry) (id : string) (stream : Z)
    : option ClientStreamBinding :=
  s ← JsMap.get r.(sessionsBySandboxInstanceId) id; getBindingByTunnelStreamId s stream.

Definition memory_unbindClientStream (id session : string) (stream : number)
    : M JsError MemoryRegistry (option ClientStreamBinding) :=
  on_session id (inr None) (unbindClientStream session stream).

Definition memory_releaseClientSessionBindings (id session : string)
    : M JsError MemoryRegistry (list ClientStreamBinding) :=
  on_session id (inr []) (releaseClientSessionBindings session).

#[export] Instance memory_registry : TunnelSessionRegistryAdapter MemoryRegistry := {
  adapter_attachBootstrapSession := memory_attachBootstrapSession;
  adapter_getBootstrapTarget := memory_getBootstrapTarget;
  adapter_detachBootstrapSession := memory_detachBootstrapSession;
  adapter_bindClientStream := memory_bindClientStream;
  adapter_reserveTunnelStream := memory_reserveTunnelStream;
  adapter_releaseReservedTunnelStream := memory_releaseReservedTunnelStream;
  adapter_getBindingByClientStream := memory_getBindingByClientStream;
  adapter_getBindingByTunnelStreamId := memory_getBindingByTunnelStreamId;
  adapter_unbindClientStream := memory_unbindClientStream;
  adapter_releaseClientSessionBindings := memory_releaseClientSessionBindings;
}.

(** *** It meets the contract *)

Definition memory_view (r : MemoryRegistry) (id : string) : option SandboxTunnelSession :=
  JsMap.get r.(sessionsBySandboxInstanceId) id.

Lemma isSameBootstrapTarget_eq a b : isSameBootstrapTarget a b = bool_decide (a = b).
Proof.
  unfold isSameBootstrapTarget. destruct a, b; simpl.
  repeat case_bool_decide; simpl; naive_solver.
Qed.

Lemma on_session_runs {A} id missing (op : SessionM A) r :
  let (res, r') := on_session id missing op r in
  r'.(memory_maxBindingCount) = r.(memory_maxBindingCount) ∧
  runs_on (memory_view r) (memory_view r') id missing op res.
Proof.
  unfold on_session, runs_on, memory_view.
  destruct (JsMap.get _ id) as [s|] eqn:Hs; simpl; [|done].
  destruct (op s) as [res s']. simpl. split; [done|split; [done|]].
  intros id'. rewrite JsMap.get_set. done.
Qed.

#[export] Instance memory_registry_laws : TunnelSessionRegistryLaws MemoryRegistry.
Proof.
  apply (Build_TunnelSessionRegistryLaws _ _ memory_view memory_maxBindingCount).
  - intros t r. exists (memory_attachBootstrapSession t r).2.
    split; [reflexivity|split; [|done]].
    intros id. unfold memory_view, update_at. simpl. by rewrite JsMap.get_set.
  - done.
  - intros t r. unfold adapter_detachBootstrapSession; simpl.
    unfold memory_detachBootstrapSession, memory_view.
    destruct (JsMap.get _ _) as [s|] eqn:Hs; [|done].
    rewrite isSameBootstrapTarget_eq. case_bool_decide as Ht; simpl.
    + subst t. rewrite decide_True by done. split; [done|split; [done|]].
      intros id. by rewrite JsMap.get_delete.
    + by rewrite decide_False.
  - intros. apply on_session_runs.
  - intros. apply on_session_runs.
  - intros. apply on_session_runs.
  - done.
  - done.
  - intros. apply on_session_runs.
  - intros. apply on_session_runs.
Defined.

(** ** The wrapper (tunnel-session-registry.ts) *)

Definition createBootstrapAvailabilityKey (sandboxInstanceId sessionId : string) : string :=
  sandboxInstanceId +:+ ":" +:+ sessionId.

Record TunnelSessionRegistry (R Probe : Type) : Type := mkRegistry {
  registry_adapter : R;
  bootstrapAvailabilityByKey : JsMap.t string Probe;
}.
Arguments mkRegistry {R Probe}.
Arguments registry_adapter {R Probe}.
Arguments bootstrapAvailabilityByKey {R Probe}.

Section Wrapper.
Context {R : Type} `{TunnelSessionRegistryAdapter R} {Probe : Type}.
Implicit Types (r : TunnelSessionRegistry R Probe).

(** [return this.adapter.method(input)] *)
Definition on_adapter {A} (op : M JsError R A) : M JsError (TunnelSessionRegistry R Probe) A :=
  λ r, let (res, adapter) := op r.(registry_adapter) in
       (res, mkRegistry adapter r.(bootstrapAvailabilityByKey)).

Definition attachBootstrapSession (input : RelayTarget) :=
  on_adapter (adapter_attachBootstrapSession input).

Definition getBootstrapTarget r (id : string) : option RelayTarget :=
  adapter_getBootstrapTarget r.(registry_adapter) id.

Definition setBootstrapSessionAvailability (id session : string) (isAvailable : Probe)
    : M JsError (TunnelSessionRegistry R Probe) unit :=
  modify (λ r, mkRegistry r.(registry_adapter)
    (JsMap.set r.(bootstrapAvailabilityByKey) (createBootstrapAvailabilityKey id session)
       isAvailable)).

Definition clearBootstrapSessionAvailability (id session : string)
    : M JsError (TunnelSessionRegistry R Probe) unit :=
  modify (λ r, mkRegistry r.(registry_adapter)
    (JsMap.delete r.(bootstrapAvailabilityByKey) (createBootstrapAvailabilityKey id session))).

Definition detachBootstrapSession (input : RelayTarget)
    : M JsError (TunnelSessionRegistry R Probe) (option DetachBootstrapSessionResult) :=
  result ← on_adapter (adapter_detachBootstrapSession input);
  _ ← match result with
      | Some _ => clearBootstrapSessionAvailability input.(target_sandboxInstanceId)
                    input.(target_sessionId)
      | None => mret tt
      end;
  mret result.

(** [run_probe] is what the probes answer at the time of the call. *)
Definition isBootstrapSessionAvailable (run_probe : Probe → bool) r (input : RelayTarget) : bool :=
  default true
    (run_probe <$> JsMap.get r.(bootstrapAvailabilityByKey)
       (createBootstrapAvailabilityKey input.(target_sandboxInstanceId)
          input.(target_sessionId))).

Definition registry_bindClientStream (id : string) (kind : StreamChannelKind) (session : string)
    (stream : number) :=
  on_adapter (adapter_bindClientStream id kind session stream).

Definition registry_reserveTunnelStream (id : string) :=
  on_adapter (adapter_reserveTunnelStream id).

Definition registry_releaseReservedTunnelStream (id : string) (stream : Z) :=
  on_adapter (adapter_releaseReservedTunnelStream id stream).

Definition registry_getBindingByClientStream r (id session : string) (stream : number) :=
  adapter_getBindingByClientStream r.(registry_adapter) id session stream.

Definition registry_getBindingByTunnelStreamId r (id : string) (stream : Z) :=
  adapter_getBindingByTunnelStreamId r.(registry_adapter) id stream.

Definition registry_unbindClientStream (id session : string) (stream : number) :=
  on_adapter (adapter_unbindClientStream id session stream).

Definition registry_releaseClientSessionBindings (id session : string) :=
  on_adapter (adapter_releaseClientSessionBindings id session).
End Wrapper.

(** ** Histories of a registry *)

(** What a call answers. *)
Inductive registry_answer : Type :=
| Attached (result : JsError + AttachBootstrapSessionResult)
| Detached (result : JsError + option DetachBootstrapSessionResult)
| Bound (result : JsError + ClientStreamBinding)
| Reserved (result : JsError + Z)
| ReservedReleased (result : JsError + bool)
| Unbound (result : JsError + option ClientStreamBinding)
| SessionReleased (result : JsError + list ClientStreamBinding)
| NoCall.

Inductive registry_op : Type :=
| Attach (target : RelayTarget)
| Detach (target : RelayTarget)
| OnSandbox (id : string) (op : session_op).

Section Histories.
Context {R : Type} `{TunnelSessionRegistryLaws R} {Probe : Type}.
Implicit Types (r : TunnelSessionRegistry R Probe) (id : string).

(** The operations of [session_op] that the interface offers; [releaseAllBindings]
    is called by attach and detach only. *)
Definition registry_apply (op : registry_op) r : TunnelSessionRegistry R Probe :=
  match op with
  | Attach target => (attachBootstrapSession target r).2
  | Detach target => (detachBootstrapSession target r).2
  | OnSandbox id (Bind kind session stream) => (registry_bindClientStream id kind session stream r).2
  | OnSandbox id Reserve => (registry_reserveTunnelStream id r).2
  | OnSandbox id (ReleaseReserved stream) => (registry_releaseReservedTunnelStream id stream r).2
  | OnSandbox id (Unbind session stream) => (registry_unbindClientStream id session stream r).2
  | OnSandbox id (ReleaseSession session) => (registry_releaseClientSessionBindings id session r).2
  | OnSandbox _ ReleaseAll => r
  end.

Definition registry_call (op : registry_op) r : registry_answer :=
  match op with
  | Attach target => Attached (attachBootstrapSession target r).1
  | Detach target => Detached (detachBootstrapSession target r).1
  | OnSandbox id (Bind kind session stream) => Bound (registry_bindClientStream id kind session stream r).1
  | OnSandbox id Reserve => Reserved (registry_reserveTunnelStream id r).1
  | OnSandbox id (ReleaseReserved stream) =>
      ReservedReleased (registry_releaseReservedTunnelStream id stream r).1
  | OnSandbox id (Unbind session stream) => Unbound (registry_unbindClientStream id session stream r).1
  | OnSandbox id (ReleaseSession session) =>
      SessionReleased (registry_releaseClientSessionBindings id session r).1
  | OnSandbox _ ReleaseAll => NoCall
  end.

Definition view r : string → option SandboxTunnelSession := registry_view r.(registry_adapter).

(** Every live session is well formed and attached under its own sandbox. *)
Definition registry_ok r : Prop :=
  ∀ id s, view r id = Some s → session_ok s ∧ s.(bootstrapTarget).(target_sandboxInstanceId) = id.

(** The sandbox an operation is about, and what it makes of its session. *)
Definition op_sandbox (op : registry_op) : string :=
  match op with
  | Attach t | Detach t => t.(target_sandboxInstanceId)
  | OnSandbox id _ => id
  end.

Definition op_session (limit : option Z) (op : registry_op) (s : option SandboxTunnelSession)
    : option SandboxTunnelSession :=
  match op, s with
  | Attach t, _ => Some (new_session t limit)
  | Detach t, Some s => if decide (s.(bootstrapTarget) = t) then None else Some s
  | OnSandbox _ ReleaseAll, Some s => Some s
  | OnSandbox _ op, Some s => Some (session_apply op s).2
  | _, None => None
  end.

(** What an operation answers for a sandbox whose session is [s]: an attach hands out the
    session it replaces, a detach the one it ends if it is the current one, and everything else
    is answered by the session itself. *)
Definition op_answer (op : registry_op) (s : option SandboxTunnelSession) : registry_answer :=
  match op with
  | Attach _ =>
      Attached (inr (mkAttachResult (bootstrapTarget <$> s)
        (default [] ((λ s, JsMap.values s.(bindingsByTunnelStreamId)) <$> s))))
  | Detach t =>
      Detached (inr (s ≫= λ s,
        if decide (s.(bootstrapTarget) = t)
        then Some (mkDetachResult t (JsMap.values s.(bindingsByTunnelStreamId))) else None))
  | OnSandbox id (Bind kind session stream) =>
      Bound (from_option (λ s, (bindClientStream kind session stream s).1) (inl (not_registered id)) s)
  | OnSandbox id Reserve =>
      Reserved (from_option (λ s, (reserveTunnelStream s).1) (inl (not_registered id)) s)
  | OnSandbox _ (ReleaseReserved stream) =>
      ReservedReleased (from_option (λ s, (releaseReservedTunnelStream stream s).1) (inr false) s)
  | OnSandbox _ (Unbind session stream) =>
      Unbound (from_option (λ s, (unbindClientStream session stream s).1) (inr None) s)
  | OnSandbox _ (ReleaseSession session) =>
      SessionReleased (from_option (λ s, (releaseClientSessionBindings session s).1) (inr []) s)
  | OnSandbox _ ReleaseAll => NoCall
  end.

Definition limit r : option Z := registry_limit r.(registry_adapter).

Lemma update_at_same {A} (f : string → option A) id id' : update_at f id (f id) id' = f id'.
Proof. unfold update_at. by case_decide; subst. Qed.

Lemma runs_on_view {A} r (adapter' : R) id missing (op : SessionM A) res f :
  (∀ s, (op s).2 = f s) →
  runs_on (view r) (registry_view adapter') id missing op res →
  ∀ id', registry_view adapter' id' = update_at (view r) id (f <$> view r id) id'.
Proof.
  unfold runs_on. intros Hf Hrun id'. destruct (view r id) as [s|] eqn:Hs.
  - simpl. rewrite <-Hf. apply Hrun.
  - destruct Hrun as [_ ->]. simpl. rewrite <-Hs. by rewrite update_at_same.
Qed.

Ltac adapter_law law op :=
  let Hlaw := fresh in
  pose proof law as Hlaw;
  match type of Hlaw with let (_, _) := ?call in _ => destruct call as [? ?] end;
  destruct Hlaw as [? Hlaw]; split; [done|]; intros ?;
  refine (runs_on_view _ _ _ _ _ _ (λ s, (session_apply op s).2) _ Hlaw _);
  intros ?; unfold session_apply; try done; repeat case_match; by simplify_eq/=.

(** Every operation acts on the session of its own sandbox, and on nothing else. *)
Lemma registry_apply_view op r :
  limit (registry_apply op r) = limit r ∧
  ∀ id, view (registry_apply op r) id =
    update_at (view r) (op_sandbox op) (op_session (limit r) op (view r (op_sandbox op))) id.
Proof.
  destruct op as [t|t|id op]; simpl.
  - unfold attachBootstrapSession, on_adapter, limit, view.
    destruct (law_attach t r.(registry_adapter)) as (r' & -> & Hview & Hlimit). by split.
  - unfold detachBootstrapSession, on_adapter, mbind, M_bind, limit, view.
    pose proof (law_detach t r.(registry_adapter)) as Hlaw.
    destruct (adapter_detachBootstrapSession t _) as [res r']. destruct Hlaw as [Hl Hlaw].
    assert (∀ id, registry_view r' id = update_at (registry_view r.(registry_adapter))
      t.(target_sandboxInstanceId) (op_session (limit r) (Detach t)
        (registry_view r.(registry_adapter) t.(target_sandboxInstanceId))) id) as Hv.
    { intros id. simpl. destruct (registry_view _ t.(target_sandboxInstanceId)) as [s|] eqn:Hs.
      - case_decide; [apply Hlaw|]. destruct Hlaw as [_ ->].
        rewrite <-Hs. by rewrite update_at_same.
      - destruct Hlaw as [_ ->]. rewrite <-Hs. by rewrite update_at_same. }
    by destruct res as [|[]].
  - destruct op as [kind session stream| |stream|session stream| |session];
      unfold registry_bindClientStream, registry_reserveTunnelStream,
        registry_releaseReservedTunnelStream, registry_unbindClientStream,
        registry_releaseClientSessionBindings, on_adapter, limit.
    + adapter_law (law_bind r.(registry_adapter) id kind session stream)
        (Bind kind session stream).
    + adapter_law (law_reserve r.(registry_adapter) id) Reserve.
    + adapter_law (law_releaseReserved r.(registry_adapter) id stream) (ReleaseReserved stream).
    + adapter_law (law_unbind r.(registry_adapter) id session stream) (Unbind session stream).
    + split; [done|]. intros id'.
      replace (match view r id with Some s => Some s | None => None end) with (view r id)
        by (by destruct (view r id)).
      by rewrite update_at_same.
    + adapter_law (law_releaseSession r.(registry_adapter) id session) (ReleaseSession session).
Qed.

Lemma runs_on_answer {A} (view view' : string → option SandboxTunnelSession) id missing (op : SessionM A) res :
  runs_on view view' id missing op res → res = from_option (λ s, (op s).1) missing (view id).
Proof. unfold runs_on. destruct (view id); simpl; by intros [-> _]. Qed.

Ltac adapter_answer law :=
  let Hlaw := fresh in
  pose proof law as Hlaw;
  match type of Hlaw with let (_, _) := ?call in _ => destruct call as [? ?] end;
  destruct Hlaw as [_ Hlaw]; simpl; f_equal; exact (runs_on_answer _ _ _ _ _ _ Hlaw).

(** Every answer is determined by the session of the operation's own sandbox. *)
Lemma registry_call_answer op r :
  registry_call op r = op_answer op (view r (op_sandbox op)).
Proof.
  destruct op as [t|t|id op]; simpl.
  - unfold attachBootstrapSession, on_adapter, view.
    destruct (law_attach t r.(registry_adapter)) as (r' & -> & _). simpl.
    by destruct (registry_view _ _).
  - unfold detachBootstrapSession, on_adapter, mbind, M_bind, view.
    pose proof (law_detach t r.(registry_adapter)) as Hlaw.
    destruct (adapter_detachBootstrapSession t _) as [res r']. destruct Hlaw as [_ Hlaw].
    destruct (registry_view _ _) as [s|]; simpl; [case_decide|]; by destruct Hlaw as [-> _].
  - unfold view. destruct op as [kind session stream| |stream|session stream| |session]; simpl; [..|done|];
      unfold registry_bindClientStream, registry_reserveTunnelStream,
        registry_releaseReservedTunnelStream, registry_unbindClientStream,
        registry_releaseClientSessionBindings, on_adapter.
    + adapter_answer (law_bind r.(registry_adapter) id kind session stream).
    + adapter_answer (law_reserve r.(registry_adapter) id).
    + adapter_answer (law_releaseReserved r.(registry_adapter) id stream).
    + adapter_answer (law_unbind r.(registry_adapter) id session stream).
    + adapter_answer (law_releaseSession r.(registry_adapter) id session).
Qed.

(** What the operations of a session keep. *)
Lemma session_op_keeps op s :
  session_ok s →
  session_ok (session_apply op s).2 ∧
  (session_apply op s).2.(bootstrapTarget) = s.(bootstrapTarget).
Proof.
  intros Hs. pose proof (session_apply_ok op s Hs) as Hop.
  destruct (session_apply op s) as [i s'] eqn:Ha. destruct Hop as [Hs' _]. split; [done|].
  cbn [snd]. revert Ha. destruct op; unfold session_apply.
  - pose proof (bind_outcome_ok s kind session stream Hs) as Ho.
    destruct (bindClientStream _ _ _ s) as [res s1]. inversion Ho; subst; by intros [= _ <-].
  - unfold reserveTunnelStream. rewrite allocate_next by done. by intros [= _ <-].
  - by intros [= _ <-].
  - intros [= _ <-]. unfold unbindClientStream. by destruct (JsMap.get _ _).
  - by intros [= _ <-].
  - rewrite release_session_state by done. by intros [= _ <-].
Qed.

Lemma registry_apply_ok op r : registry_ok r → registry_ok (registry_apply op r).
Proof.
  intros Hr id s. destruct (registry_apply_view op r) as [_ ->]. unfold update_at.
  case_decide as Hid; [|apply Hr]. intros Hs. subst id.
  destruct op as [t|t|id op]; simpl in *.
  - simplify_eq. split; [apply new_session_ok|done].
  - destruct (view r _) as [s0|] eqn:Hs0; [|done]. case_decide; simplify_eq. by apply Hr.
  - destruct (view r id) as [s0|] eqn:Hs0; [|by destruct op].
    destruct (Hr _ _ Hs0) as [Hok Htarget].
    destruct (session_op_keeps op s0 Hok) as [Hok' Hkeep].
    destruct op; simplify_eq; split; try done; by rewrite Hkeep.
Qed.

Definition registry_run (ops : list registry_op) r : TunnelSessionRegistry R Probe :=
  foldl (λ r op, registry_apply op r) r ops.

Lemma registry_run_ok ops r : registry_ok r → registry_ok (registry_run ops r).
Proof.
  unfold registry_run. revert r. induction ops as [|op ops IH]; intros r Hr; simpl; [done|].
  by apply IH, registry_apply_ok.
Qed.

Lemma registry_empty_ok r : (∀ id, view r id = None) → registry_ok r.
Proof. intros Hempty id s. by rewrite Hempty. Qed.

(** The session of a sandbox is what the operations on it made of it. *)
Lemma registry_run_view r ops id :
  view (registry_run ops r) id =
    foldl (λ s op, op_session (limit r) op s) (view r id) (List.filter (λ op, op_sandbox op =?= id) ops).
Proof.
  unfold registry_run. revert r.
  induction ops as [|op ops IH]; intros r; cbn [foldl List.filter]; [done|].
  destruct (registry_apply_view op r) as [Hlimit Hview].
  rewrite IH, Hlimit, Hview. unfold update_at.
  case_decide as Hid; [rewrite bool_decide_true by done|by rewrite bool_decide_false].
  simpl. by rewrite Hid.
Qed.

(** A bootstrap tunnel that reconnects starts afresh: attaching returns the
    previous target and all its bindings, no stream of the previous tunnel is
    found any more, and the late disconnect of the previous tunnel changes
    nothing. *)
Theorem reattach_spec r (old : SandboxTunnelSession) (target : RelayTarget) :
  let id := target.(target_sandboxInstanceId) in
  view r id = Some old → old.(bootstrapTarget) ≠ target →
  ∃ r', attachBootstrapSession target r =
      (inr (mkAttachResult (Some old.(bootstrapTarget))
              (JsMap.values old.(bindingsByTunnelStreamId))), r') ∧
    getBootstrapTarget r' id = Some target ∧
    (∀ session stream, registry_getBindingByClientStream r' id session stream = None) ∧
    (∀ stream, registry_getBindingByTunnelStreamId r' id stream = None) ∧
    (old.(bootstrapTarget).(target_sandboxInstanceId) = id →
      detachBootstrapSession old.(bootstrapTarget) r' = (inr None, r')).
Proof.
  intros id Hold Hne. subst id.
  destruct (law_attach target r.(registry_adapter)) as (adapter & Hattach & Hview & _).
  unfold view in Hold. rewrite Hold in Hattach.
  exists (mkRegistry adapter r.(bootstrapAvailabilityByKey)).
  unfold attachBootstrapSession, on_adapter. rewrite Hattach. simpl.
  assert (registry_view adapter target.(target_sandboxInstanceId) =
          Some (new_session target (registry_limit r.(registry_adapter)))) as Hnew.
  { rewrite Hview. unfold update_at. by rewrite decide_True. }
  split; [done|]. unfold getBootstrapTarget, registry_getBindingByClientStream,
    registry_getBindingByTunnelStreamId. cbn [registry_adapter].
  rewrite law_getBootstrapTarget, Hnew. split; [done|split; [|split]].
  - intros. by rewrite law_getByClient, Hnew.
  - intros. by rewrite law_getByTunnel, Hnew.
  - intros Hid. unfold detachBootstrapSession, on_adapter, mbind, M_bind. cbn [registry_adapter].
    pose proof (law_detach old.(bootstrapTarget) adapter) as Hlaw.
    destruct (adapter_detachBootstrapSession _ adapter) as [res adapter'].
    rewrite Hid, Hnew in Hlaw. destruct Hlaw as [_ Hlaw]. rewrite decide_False in Hlaw by done.
    by destruct Hlaw as [-> ->].
Qed.
End Histories.

(** ** The registry in memory *)

Definition empty_registry {Probe} (maxBindingCount : option Z) : TunnelSessionRegistry MemoryRegistry Probe :=
  mkRegistry (mkMemoryRegistry JsMap.empty maxBindingCount) JsMap.empty.

(** The session of a sandbox after the operations on it. *)
Definition session_after (maxBindingCount : option Z) (ops : list registry_op) (id : string)
    : option SandboxTunnelSession :=
  foldl (λ s op, op_session maxBindingCount op s) None (List.filter (λ op, op_sandbox op =?= id) ops).

(** C28: The registry over the in-memory adapter implements a family of independent sessions,
    one per sandbox.  After any calls from the empty registry, the session of a sandbox is what
    the calls on that sandbox alone make of it: an attach starts a new one, a detach of
    the current target ends it, every other call is one of [SandboxTunnelSession] on it.  What any
    next call answers (the replaced target and its bindings, the ended session's, the binding, an
    error for a sandbox that is not attached, ...) and what the lookups find depends on that
    session only; it is well formed and attached under its sandbox. *)
Theorem registry_history {Probe : Type} (maxBindingCount : option Z) (ops : list registry_op) :
  let r : TunnelSessionRegistry MemoryRegistry Probe := registry_run ops (empty_registry maxBindingCount) in
  (∀ op, registry_call op r = op_answer op (session_after maxBindingCount ops (op_sandbox op))) ∧
  ∀ id, let s := session_after maxBindingCount ops id in
    JsMap.get r.(registry_adapter).(sessionsBySandboxInstanceId) id = s ∧
    getBootstrapTarget r id = bootstrapTarget <$> s ∧
    (∀ session stream, registry_getBindingByClientStream r id session stream =
       s ≫= λ s, getBindingByClientStream s session stream) ∧
    (∀ stream, registry_getBindingByTunnelStreamId r id stream =
       s ≫= λ s, getBindingByTunnelStreamId s stream) ∧
    ∀ live, s = Some live → session_ok live ∧ live.(bootstrapTarget).(target_sandboxInstanceId) = id.
Proof.
  intros r. assert (∀ id, view r id = session_after maxBindingCount ops id) as Hview.
  { intros id. exact (registry_run_view (empty_registry maxBindingCount) ops id). }
  split; [intros op; by rewrite <-Hview, <-registry_call_answer|].
  intros id s. subst s. rewrite <-Hview. split_and!; [done|done|done|done|].
  apply registry_run_ok, registry_empty_ok. intros id'. apply JsMap.get_empty.
Qed.

Definition demo_registry : TunnelSessionRegistry MemoryRegistry bool :=
  mkRegistry (mkMemoryRegistry JsMap.empty (Some 8)) JsMap.empty.

Definition demo_ops : list registry_op :=
  [Attach demo_target; OnSandbox "sbi_1" (Bind AgentChannel "client_a" (Int 1));
   Attach (mkTarget "sbi_2" SideBootstrap "node_a" "session_2");
   OnSandbox "sbi_2" Reserve; OnSandbox "sbi_1" (Bind ExecChannel "client_b" (Int 7))].

Lemma reattach_spec_witness :
  let target := mkTarget "sbi_1" SideBootstrap "node_a" "session_9" in
  let r := registry_run demo_ops demo_registry in
  ∃ old r', attachBootstrapSession target r =
    (inr (mkAttachResult (Some demo_target) (JsMap.values old.(bindingsByTunnelStreamId))), r') ∧
    length (JsMap.values old.(bindingsByTunnelStreamId)) = 2%nat ∧
    detachBootstrapSession demo_target r' = (inr None, r').
Proof.
  intros target r.
  destruct (view r "sbi_1") as [old|] eqn:Hold; [|by vm_compute in Hold].
  assert (old.(bootstrapTarget) = demo_target ∧
          length (JsMap.values old.(bindingsByTunnelStreamId)) = 2%nat) as [Htarget Hlen].
  { vm_compute in Hold. by injection Hold as <-. }
  destruct (reattach_spec r old target Hold) as (r' & Hattach & _ & _ & _ & Hdetach).
  { by rewrite Htarget. }
  rewrite Htarget in *. exists old, r'. auto.
Defined.
