(* ===== verification/PeerRegistry.v ===== *)
(** * The local peer registry (tunnel/local-peer-registry/)

    - [LocalPeerRegistryAdapter]: the interface of local-peer-registry-adapter.ts;
      [LocalPeerRegistryLaws]: its contract, two finite maps, one from sandboxes
      to their bootstrap peer and one from session descriptors to their peer.
    - [MemoryPeers]: adapters/in-memory-local-peer-registry-adapter.ts, which keeps
      them under keys joined with [":"], and the proof that it meets the contract
      for sandbox ids without a colon.
    - [LocalRelayPeerResolver]: local-relay-peer-resolver.ts, an instance of the
      interface of relay-peer-resolver.ts. *)

From S2P Require Import Prelude JsMap TunnelTypes.
Local Open Scope Z_scope.

(** ** The interface *)

Class LocalPeerRegistryAdapter (P : Type) : Type := {
  getBootstrapPeer : P → string → option RelayTarget;
  setBootstrapPeer : RelayTarget → P → option RelayTarget * P;
  getConnectionPeer : P → SessionPeerDescriptor → option RelayTarget;
  setConnectionPeer : RelayTarget → P → option RelayTarget * P;
  getSessionPeer : P → SessionPeerDescriptor → option RelayTarget;
  setSessionPeer : RelayTarget → P → option RelayTarget * P;
  listConnectionPeers : P → string → list RelayTarget;
  listSessionPeers : P → string → RelayPeerSide → list RelayTarget;
  removePeer : RelayTarget → P → bool * P;
}.

Definition valid_sandbox_id (id : string) : Prop := has_char colon id = false.

(** The session descriptor of a target. *)
Definition descriptor (t : RelayTarget) : SessionPeerDescriptor :=
  mkSessionPeer t.(target_sandboxInstanceId) t.(target_side) t.(target_sessionId).

#[export] Instance SessionPeerDescriptor_eq_dec : EqDecision SessionPeerDescriptor.
Proof. solve_decision. Defined.

(** The peer a removal of [t] would remove. *)
Definition current_peer {P} `{LocalPeerRegistryAdapter P} (p : P) (t : RelayTarget)
    : option RelayTarget :=
  match t.(target_side) with
  | SideBootstrap => getBootstrapPeer p t.(target_sandboxInstanceId)
  | _ => getSessionPeer p (descriptor t)
  end.

Class LocalPeerRegistryLaws (P : Type) `{LocalPeerRegistryAdapter P} : Type := {
  peers_ok : P → Prop;
  law_getConnectionPeer p d : getConnectionPeer p d = getSessionPeer p d;
  law_setConnectionPeer t p : setConnectionPeer t p = setSessionPeer t p;
  law_listConnectionPeers p id : listConnectionPeers p id = listSessionPeers p id SideConnection;
  (** A peer is found under its own descriptor. *)
  law_session_own p d t :
    peers_ok p → valid_sandbox_id d.(peer_sandboxInstanceId) →
    getSessionPeer p d = Some t → descriptor t = d;
  law_bootstrap_own p id t :
    peers_ok p → getBootstrapPeer p id = Some t →
    t.(target_sandboxInstanceId) = id ∧ t.(target_side) = SideBootstrap;
  law_setBootstrapPeer t p :
    peers_ok p → t.(target_side) = SideBootstrap →
    let (previous, p') := setBootstrapPeer t p in
    peers_ok p' ∧ previous = getBootstrapPeer p t.(target_sandboxInstanceId) ∧
    (∀ id, getBootstrapPeer p' id =
      if decide (t.(target_sandboxInstanceId) = id) then Some t else getBootstrapPeer p id) ∧
    (∀ d, getSessionPeer p' d = getSessionPeer p d);
  law_setSessionPeer t p :
    peers_ok p → valid_sandbox_id t.(target_sandboxInstanceId) →
    let (previous, p') := setSessionPeer t p in
    peers_ok p' ∧ previous = getSessionPeer p (descriptor t) ∧
    (∀ d, valid_sandbox_id d.(peer_sandboxInstanceId) → getSessionPeer p' d =
      if decide (descriptor t = d) then Some t else getSessionPeer p d) ∧
    (∀ id, getBootstrapPeer p' id = getBootstrapPeer p id);
  law_listSessionPeers p id side t :
    peers_ok p → valid_sandbox_id id →
    t ∈ listSessionPeers p id side ↔
      getSessionPeer p (descriptor t) = Some t ∧
      t.(target_sandboxInstanceId) = id ∧ t.(target_side) = side;
  law_listSessionPeers_NoDup p id side :
    peers_ok p → NoDup (listSessionPeers p id side);
  law_removePeer t p :
    peers_ok p → valid_sandbox_id t.(target_sandboxInstanceId) →
    let (removed, p') := removePeer t p in
    peers_ok p' ∧
    match current_peer p t with
    | Some current =>
        if decide (current.(target_nodeId) = t.(target_nodeId) ∧
                   current.(target_sessionId) = t.(target_sessionId))
        then removed = true ∧
          (∀ id, getBootstrapPeer p' id =
            if decide (t.(target_side) = SideBootstrap ∧ t.(target_sandboxInstanceId) = id)
            then None else getBootstrapPeer p id) ∧
          (∀ d, valid_sandbox_id d.(peer_sandboxInstanceId) → getSessionPeer p' d =
            if decide (t.(target_side) ≠ SideBootstrap ∧ descriptor t = d)
            then None else getSessionPeer p d)
        else removed = false ∧ p' = p
    | None => removed = false ∧ p' = p
    end;
}.

(** ** The in-memory adapter *)

Definition createBootstrapPeerKey (sandboxInstanceId : string) : string :=
  sandboxInstanceId +:+ ":bootstrap".

Definition createSessionPeerKey (d : SessionPeerDescriptor) : string :=
  d.(peer_sandboxInstanceId) +:+ ":" +:+ side_value d.(peer_side) +:+ ":" +:+ d.(peer_sessionId).

Record MemoryPeers : Type := mkMemoryPeers {
  bootstrapPeersByKey : JsMap.t string RelayTarget;
  sessionPeersByKey : JsMap.t string RelayTarget;
}.

Definition memory_getBootstrapPeer (p : MemoryPeers) (id : string) : option RelayTarget :=
  JsMap.get p.(bootstrapPeersByKey) (createBootstrapPeerKey id).

Definition memory_setBootstrapPeer (input : RelayTarget) (p : MemoryPeers)
    : option RelayTarget * MemoryPeers :=
  let key := createBootstrapPeerKey input.(target_sandboxInstanceId) in
  let previous := JsMap.get p.(bootstrapPeersByKey) key in
  (previous, mkMemoryPeers (JsMap.set p.(bootstrapPeersByKey) key input) p.(sessionPeersByKey)).

Definition memory_getSessionPeer (p : MemoryPeers) (input : SessionPeerDescriptor)
    : option RelayTarget :=
  JsMap.get p.(sessionPeersByKey) (createSessionPeerKey input).

Definition memory_getConnectionPeer (p : MemoryPeers) (input : SessionPeerDescriptor)
    : option RelayTarget :=
  memory_getSessionPeer p input.

Definition memory_setSessionPeer (input : RelayTarget) (p : MemoryPeers)
    : option RelayTarget * MemoryPeers :=
  let key := createSessionPeerKey (descriptor input) in
  let previous := JsMap.get p.(sessionPeersByKey) key in
  (previous, mkMemoryPeers p.(bootstrapPeersByKey) (JsMap.set p.(sessionPeersByKey) key input)).

Definition memory_setConnectionPeer (input : RelayTarget) (p : MemoryPeers)
    : option RelayTarget * MemoryPeers :=
  memory_setSessionPeer input p.

(** [key.startsWith(prefix)] *)
Definition startsWith (key pre : string) : bool := String.prefix pre key.

Definition memory_listSessionPeers (p : MemoryPeers) (id : string) (side : RelayPeerSide)
    : list RelayTarget :=
  (List.filter (λ e, startsWith e.1 (id +:+ ":" +:+ side_value side +:+ ":"))
     p.(sessionPeersByKey)).*2.

Definition memory_listConnectionPeers (p : MemoryPeers) (id : string) : list RelayTarget :=
  memory_listSessionPeers p id SideConnection.

Definition memory_removePeer (input : RelayTarget) (p : MemoryPeers) : bool * MemoryPeers :=
  let bootstrap := input.(target_side) =?= SideBootstrap in
  let key := if bootstrap then createBootstrapPeerKey input.(target_sandboxInstanceId)
             else createSessionPeerKey (descriptor input) in
  let peersByKey := if bootstrap then p.(bootstrapPeersByKey) else p.(sessionPeersByKey) in
  match JsMap.get peersByKey key with
  | None => (false, p)
  | Some existing =>
      if negb (existing.(target_nodeId) =?= input.(target_nodeId))
         || negb (existing.(target_sessionId) =?= input.(target_sessionId))
      then (false, p)
      else (true,
            if bootstrap
            then mkMemoryPeers (JsMap.delete peersByKey key) p.(sessionPeersByKey)
            else mkMemoryPeers p.(bootstrapPeersByKey) (JsMap.delete peersByKey key))
  end.

#[export] Instance memory_peers : LocalPeerRegistryAdapter MemoryPeers := {
  getBootstrapPeer := memory_getBootstrapPeer;
  setBootstrapPeer := memory_setBootstrapPeer;
  getConnectionPeer := memory_getConnectionPeer;
  setConnectionPeer := memory_setConnectionPeer;
  getSessionPeer := memory_getSessionPeer;
  setSessionPeer := memory_setSessionPeer;
  listConnectionPeers := memory_listConnectionPeers;
  listSessionPeers := memory_listSessionPeers;
  removePeer := memory_removePeer;
}.

(** *** Keys *)

Lemma side_value_no_colon side : has_char colon (side_value side) = false.
Proof. by destruct side. Qed.

Lemma createBootstrapPeerKey_inj id id' :
  createBootstrapPeerKey id = createBootstrapPeerKey id' → id = id'.
Proof.
  unfold createBootstrapPeerKey. change ":bootstrap" with (":" +:+ "bootstrap").
  intros Heq. by apply key_inj_last in Heq as [-> _].
Qed.

Lemma createSessionPeerKey_inj d d' :
  valid_sandbox_id d.(peer_sandboxInstanceId) → valid_sandbox_id d'.(peer_sandboxInstanceId) →
  createSessionPeerKey d = createSessionPeerKey d' → d = d'.
Proof.
  destruct d as [id side session], d' as [id' side' session'].
  unfold createSessionPeerKey. simpl. intros Hid Hid' Heq.
  apply key_inj_first in Heq as [-> Heq]; [|done..].
  apply key_inj_first in Heq as [Heq ->]; [|apply side_value_no_colon..].
  by apply side_value_inj in Heq as ->.
Qed.

Lemma startsWith_app key pre : startsWith key pre = true ↔ ∃ rest, key = pre +:+ rest.
Proof.
  unfold startsWith. revert key. induction pre as [|c pre IH]; intros key.
  { destruct key; simpl; naive_solver. }
  destruct key as [|c' key]; simpl.
  { split; [done|]. by intros [rest [=]]. }
  destruct (Ascii.ascii_dec c c') as [<-|Hne].
  - rewrite IH. split.
    + intros [rest ->]. by exists rest.
    + intros [rest Heq]. rewrite app_String in Heq. simplify_eq. eauto.
  - split; [done|]. intros [rest Heq]. rewrite app_String in Heq. by simplify_eq.
Qed.

Lemma startsWith_key d id side :
  valid_sandbox_id d.(peer_sandboxInstanceId) → valid_sandbox_id id →
  startsWith (createSessionPeerKey d) (id +:+ ":" +:+ side_value side +:+ ":") = true ↔
  d.(peer_sandboxInstanceId) = id ∧ d.(peer_side) = side.
Proof.
  destruct d as [id' side' session]. unfold createSessionPeerKey. simpl. intros Hid' Hid.
  rewrite startsWith_app. split.
  - intros [rest Heq]. rewrite !string_app_assoc in Heq.
    apply key_inj_first in Heq as [-> Heq]; [|done..].
    apply key_inj_first in Heq as [Heq _]; [|apply side_value_no_colon..].
    by apply side_value_inj in Heq as ->.
  - intros [-> ->]. exists session. by rewrite !string_app_assoc.
Qed.

(** *** It meets the contract *)

Record memory_peers_ok (p : MemoryPeers) : Prop := mkMemoryPeersOk {
  mp_bootstrap_wf : JsMap.wf p.(bootstrapPeersByKey);
  mp_session_wf : JsMap.wf p.(sessionPeersByKey);
  mp_session_key : ∀ k t, JsMap.get p.(sessionPeersByKey) k = Some t →
    k = createSessionPeerKey (descriptor t) ∧ valid_sandbox_id t.(target_sandboxInstanceId);
  mp_bootstrap_key : ∀ k t, JsMap.get p.(bootstrapPeersByKey) k = Some t →
    k = createBootstrapPeerKey t.(target_sandboxInstanceId) ∧ t.(target_side) = SideBootstrap;
}.

Lemma memory_session_own p d t :
  memory_peers_ok p → valid_sandbox_id d.(peer_sandboxInstanceId) →
  memory_getSessionPeer p d = Some t → descriptor t = d.
Proof.
  intros Hp Hd Ht. destruct (mp_session_key _ Hp _ _ Ht) as [Hk Hv].
  symmetry. by apply createSessionPeerKey_inj.
Qed.

Lemma memory_set_session t p :
  memory_peers_ok p → valid_sandbox_id t.(target_sandboxInstanceId) →
  memory_peers_ok (memory_setSessionPeer t p).2 ∧
  ∀ d, valid_sandbox_id d.(peer_sandboxInstanceId) →
    memory_getSessionPeer (memory_setSessionPeer t p).2 d =
      if decide (descriptor t = d) then Some t else memory_getSessionPeer p d.
Proof.
  intros Hp Ht. unfold memory_getSessionPeer. simpl. split.
  - split; simpl; [apply Hp|apply JsMap.wf_set, Hp| |apply Hp].
    intros k t'. rewrite JsMap.get_set. case_decide; [naive_solver|apply Hp].
  - intros d Hd. rewrite JsMap.get_set. repeat case_decide; try done; [|congruence].
    exfalso. by apply createSessionPeerKey_inj in H.
Qed.

Lemma memory_list_session p id side t :
  memory_peers_ok p → valid_sandbox_id id →
  t ∈ memory_listSessionPeers p id side ↔
    memory_getSessionPeer p (descriptor t) = Some t ∧
    t.(target_sandboxInstanceId) = id ∧ t.(target_side) = side.
Proof.
  intros Hp Hid. unfold memory_listSessionPeers, memory_getSessionPeer.
  rewrite list_elem_of_fmap. setoid_rewrite elem_of_filter_map_bool. split.
  - intros ([k t'] & Ht & Hin & Hpre). simpl in *. subst t'.
    apply JsMap.elem_of_get in Hin; [|apply Hp].
    destruct (mp_session_key _ Hp _ _ Hin) as [-> Hv]. split; [done|].
    by apply (startsWith_key (descriptor t)) in Hpre.
  - intros (Hget & <- & <-). exists (createSessionPeerKey (descriptor t), t).
    split; [done|]. rewrite JsMap.elem_of_get by apply Hp. split; [done|].
    by apply (startsWith_key (descriptor t)).
Qed.

Lemma memory_list_session_NoDup p id side :
  memory_peers_ok p → NoDup (memory_listSessionPeers p id side).
Proof.
  intros Hp. unfold memory_listSessionPeers.
  assert (∀ e, e ∈ p.(sessionPeersByKey) → e.1 = createSessionPeerKey (descriptor e.2)) as Hkey.
  { intros [k t] He. apply JsMap.elem_of_get in He; [|apply Hp].
    by destruct (mp_session_key _ Hp _ _ He). }
  pose proof (mp_session_wf _ Hp) as Hwf. clear Hp. unfold JsMap.wf, JsMap.keys in Hwf.
  induction (sessionPeersByKey p) as [|e l IH]; cbn [List.filter]; [apply NoDup_nil_2|].
  apply NoDup_cons in Hwf as [He Hwf].
  assert (NoDup (List.filter (λ e, startsWith e.1 (id +:+ ":" +:+ side_value side +:+ ":")) l).*2)
    as Hrest.
  { apply IH; [|done]. intros. apply Hkey. by right. }
  destruct (startsWith _ _); [|done]. apply NoDup_cons. split; [|done].
  contradict He. apply list_elem_of_fmap in He as (e' & Heq & He').
  apply elem_of_filter_map_bool in He' as [He' _].
  apply list_elem_of_fmap. exists e'. split; [|done].
  rewrite (Hkey e), (Hkey e') by (by left || by right). by rewrite Heq.
Qed.

Lemma memory_remove t p :
  memory_peers_ok p → valid_sandbox_id t.(target_sandboxInstanceId) →
  let (removed, p') := memory_removePeer t p in
  memory_peers_ok p' ∧
  match current_peer p t with
  | Some current =>
      if decide (current.(target_nodeId) = t.(target_nodeId) ∧
                 current.(target_sessionId) = t.(target_sessionId))
      then removed = true ∧
        (∀ id, memory_getBootstrapPeer p' id =
          if decide (t.(target_side) = SideBootstrap ∧ t.(target_sandboxInstanceId) = id)
          then None else memory_getBootstrapPeer p id) ∧
        (∀ d, valid_sandbox_id d.(peer_sandboxInstanceId) → memory_getSessionPeer p' d =
          if decide (t.(target_side) ≠ SideBootstrap ∧ descriptor t = d)
          then None else memory_getSessionPeer p d)
      else removed = false ∧ p' = p
  | None => removed = false ∧ p' = p
  end.
Proof.
  intros Hp Ht. unfold memory_removePeer, current_peer.
  assert (∀ existing, negb (existing.(target_nodeId) =?= t.(target_nodeId))
    || negb (existing.(target_sessionId) =?= t.(target_sessionId)) =
    negb (bool_decide (existing.(target_nodeId) = t.(target_nodeId) ∧
                       existing.(target_sessionId) = t.(target_sessionId)))) as Hcond.
  { intros. by rewrite bool_decide_and, negb_andb. }
  destruct (decide (t.(target_side) = SideBootstrap)) as [Hside|Hside].
  - rewrite bool_decide_true by done.
    replace (match target_side t with SideBootstrap => _ | _ => _ end)
      with (memory_getBootstrapPeer p t.(target_sandboxInstanceId)) by (by rewrite Hside).
    unfold memory_getBootstrapPeer, memory_getSessionPeer.
    destruct (JsMap.get _ _) as [current|] eqn:Hcur; [|done].
    rewrite Hcond. case_bool_decide; case_decide; try done. simpl.
    split; [split; [apply JsMap.wf_delete, Hp|apply Hp|apply (mp_session_key _ Hp)|]|].
    { intros k t'. simpl. rewrite JsMap.get_delete. case_decide; [done|apply Hp]. }
    split; [done|split].
    + intros id. rewrite JsMap.get_delete. repeat case_decide; try done; [|naive_solver].
      exfalso. apply createBootstrapPeerKey_inj in H1. naive_solver.
    + intros d _. rewrite decide_False; [done|naive_solver].
  - rewrite bool_decide_false by done.
    replace (match target_side t with SideBootstrap => _ | _ => _ end)
      with (memory_getSessionPeer p (descriptor t)) by (by destruct (target_side t)).
    unfold memory_getBootstrapPeer, memory_getSessionPeer.
    destruct (JsMap.get _ _) as [current|] eqn:Hcur; [|done].
    rewrite Hcond. case_bool_decide; case_decide; try done. simpl.
    split; [split; [apply Hp|apply JsMap.wf_delete, Hp| |apply (mp_bootstrap_key _ Hp)]|split; [done|split]].
    + intros k t'. simpl. rewrite JsMap.get_delete. case_decide; [done|apply Hp].
    + intros id. rewrite decide_False; [done|naive_solver].
    + intros d Hd. rewrite JsMap.get_delete. repeat case_decide; try done; [|naive_solver].
      exfalso. apply createSessionPeerKey_inj in H1; naive_solver.
Qed.

#[export] Instance memory_peers_laws : LocalPeerRegistryLaws MemoryPeers.
Proof.
  apply (Build_LocalPeerRegistryLaws _ _ memory_peers_ok).
  - done.
  - done.
  - done.
  - apply memory_session_own.
  - intros p id t Hp Ht. destruct (mp_bootstrap_key _ Hp _ _ Ht) as [Hk Hside].
    by apply createBootstrapPeerKey_inj in Hk.
  - intros t p Hp Hside. split_and!; try done.
    + split; simpl; [apply JsMap.wf_set, Hp|apply Hp|apply (mp_session_key _ Hp)|].
      intros k t'. rewrite JsMap.get_set. case_decide; [naive_solver|apply Hp].
    + intros id. simpl. unfold memory_getBootstrapPeer. simpl. rewrite JsMap.get_set.
      repeat case_decide; try done; [|congruence]. exfalso.
      by apply createBootstrapPeerKey_inj in H.
  - intros t p Hp Ht. destruct (memory_set_session t p Hp Ht) as [Hok Hget].
    split_and!; try done.
  - apply memory_list_session.
  - apply memory_list_session_NoDup.
  - apply memory_remove.
Defined.

(** ** The resolver (relay-peer-resolver.ts, local-relay-peer-resolver.ts) *)

Class RelayPeerResolver (P : Type) : Type := {
  resolveBootstrapPeer : P → string → option string → option RelayTarget;
  resolveConnectionPeer : P → string → string → option RelayTarget;
  resolveSessionPeer : P → string → RelayPeerSide → string → option RelayTarget;
}.

Section Resolver.
Context {P : Type} `{LocalPeerRegistryAdapter P}.

Definition local_resolveBootstrapPeer (p : P) (id : string) (targetSessionId : option string)
    : option RelayTarget :=
  match getBootstrapPeer p id with
  | None => None
  | Some target =>
      match targetSessionId with
      | Some session => if negb (target.(target_sessionId) =?= session) then None else Some target
      | None => Some target
      end
  end.

Definition local_resolveSessionPeer (p : P) (id : string) (side : RelayPeerSide)
    (session : string) : option RelayTarget :=
  getConnectionPeer p (mkSessionPeer id side session).

Definition local_resolveConnectionPeer (p : P) (id session : string) : option RelayTarget :=
  local_resolveSessionPeer p id SideConnection session.

#[export] Instance LocalRelayPeerResolver : RelayPeerResolver P := {
  resolveBootstrapPeer := local_resolveBootstrapPeer;
  resolveConnectionPeer := local_resolveConnectionPeer;
  resolveSessionPeer := local_resolveSessionPeer;
}.
End Resolver.
