(* ===== verification/RelayCoordinator.v ===== *)
(** * Relay transport and coordinator (tunnel/relay-transport/, tunnel/relay-coordinator.ts)

    - [RelayTransportAdapter]: the interface of relay-transport-adapter.ts, and
      [MemoryTransport], adapters/in-memory-relay-transport-adapter.ts.  A socket
      is its identity; whether its [readyState] is OPEN when it is used is a
      parameter, and the calls made on sockets are recorded in order.
    - [TunnelRelayCoordinator]: relay-coordinator.ts over any peer registry and
      transport, with the default resolver.  A delivery the coordinator does not
      wait for ([void ... .catch(() => undefined)]) loses its error.

    The theorems are proved against the two interfaces; the last ones are about
    the in-memory composition of create-in-memory-relay-coordinator.ts. *)

From S2P Require Import Prelude JsMap TunnelTypes PeerRegistry.
Local Open Scope Z_scope.

(** ** The transport *)

Class RelayTransportAdapter (Socket T : Type) : Type := {
  registerLocalPeer : RelayTarget → Socket → M JsError T unit;
  unregisterLocalPeer : RelayTarget → T → T;
  deliverEnvelope : RelayEnvelope → M JsError T unit;
}.

Inductive SocketCall : Type :=
| SocketSend (socket : nat) (payload : RelayPayload)
| SocketClose (socket : nat) (code : Z) (reason : string).

Record MemoryTransport : Type := mkMemoryTransport {
  transport_nodeId : string;
  socketsByPeerKey : JsMap.t string nat;
  socket_calls : list SocketCall;
}.

Definition createPeerKey (target : RelayTarget) : string :=
  side_value target.(target_side) +:+ ":" +:+ target.(target_sessionId).

Section MemoryTransport.
(** [socket.readyState === WebSocket.OPEN] *)
Context (is_open : nat → bool).

Definition memory_registerLocalPeer (target : RelayTarget) (socket : nat)
    : M JsError MemoryTransport unit := λ t,
  if negb (target.(target_nodeId) =?= t.(transport_nodeId)) then
    (inl (PlainError "Expected local peer registration to target current gateway node."), t)
  else
    (inr tt, mkMemoryTransport t.(transport_nodeId)
               (JsMap.set t.(socketsByPeerKey) (createPeerKey target) socket)
               t.(socket_calls)).

Definition memory_unregisterLocalPeer (target : RelayTarget) (t : MemoryTransport)
    : MemoryTransport :=
  if negb (target.(target_nodeId) =?= t.(transport_nodeId)) then t
  else mkMemoryTransport t.(transport_nodeId)
         (JsMap.delete t.(socketsByPeerKey) (createPeerKey target)) t.(socket_calls).

Definition memory_deliverEnvelope (envelope : RelayEnvelope) : M JsError MemoryTransport unit :=
  λ t,
  if negb ((envelope_target envelope).(target_nodeId) =?= t.(transport_nodeId)) then
    (inl (PlainError "Expected in-memory relay transport target to be local."), t)
  else
    match JsMap.get t.(socketsByPeerKey) (createPeerKey (envelope_target envelope)) with
    | None => (inr tt, t)
    | Some socket =>
        if negb (is_open socket) then (inr tt, t)
        else
          let call := match envelope with
                      | RelayFrameEnvelope _ payload => SocketSend socket payload
                      | RelayCloseEnvelope _ code reason => SocketClose socket code reason
                      end in
          (inr tt, mkMemoryTransport t.(transport_nodeId) t.(socketsByPeerKey)
                     (t.(socket_calls) ++ [call]))
    end.

Definition memory_transport : RelayTransportAdapter nat MemoryTransport := {|
  registerLocalPeer := memory_registerLocalPeer;
  unregisterLocalPeer := memory_unregisterLocalPeer;
  deliverEnvelope := memory_deliverEnvelope;
|}.
End MemoryTransport.

(** ** The coordinator *)

Definition CloseCode_REPLACED : Z := 1012.
Definition CloseCode_PEER_DISCONNECTED : Z := 1012.

Definition isSamePeerLocation (left right : RelayTarget) : bool :=
  (left.(target_sandboxInstanceId) =?= right.(target_sandboxInstanceId))
  && (left.(target_side) =?= right.(target_side))
  && (left.(target_nodeId) =?= right.(target_nodeId))
  && (left.(target_sessionId) =?= right.(target_sessionId)).

Definition toFrameEnvelope (target : RelayTarget) (payload : RelayPayload) : RelayEnvelope :=
  RelayFrameEnvelope target payload.

Definition toCloseEnvelope (target : RelayTarget) (closeCode : Z) (closeReason : string)
    : RelayEnvelope :=
  RelayCloseEnvelope target closeCode closeReason.

Record TunnelRelayCoordinator (P T : Type) : Type := mkCoordinator {
  coordinator_nodeId : string;
  peerRegistry : P;
  relayTransport : T;
}.
Arguments mkCoordinator {P T}.
Arguments coordinator_nodeId {P T}.
Arguments peerRegistry {P T}.
Arguments relayTransport {P T}.

Section Coordinator.
Context {P Socket T : Type}.
Context `{LocalPeerRegistryAdapter P} `{RelayPeerResolver P} `{RelayTransportAdapter Socket T}.
Notation Coordinator := (TunnelRelayCoordinator P T).
Notation CoordinatorM := (M JsError Coordinator).

(** A call on the transport. *)
Definition on_transport {A} (op : M JsError T A) : CoordinatorM A := λ c,
  let (res, t) := op c.(relayTransport) in
  (res, mkCoordinator c.(coordinator_nodeId) c.(peerRegistry) t).

(** A synchronous call on the registry. *)
Definition on_registry {A} (op : P → A * P) : CoordinatorM A := λ c,
  let (a, p) := op c.(peerRegistry) in
  (inr a, mkCoordinator c.(coordinator_nodeId) p c.(relayTransport)).

(** [void this.relayTransport.deliverEnvelope(envelope).catch(() => undefined)] *)
Definition deliver_ignoring_errors (envelope : RelayEnvelope) : CoordinatorM unit :=
  try_catch (on_transport (deliverEnvelope envelope)) (λ _, mret tt).

Definition attachPeer (sandboxInstanceId : string) (side : RelayPeerSide) (socket : Socket)
    (sessionId : string) : CoordinatorM RelayTarget :=
  nodeId ← gets coordinator_nodeId;
  let target := mkTarget sandboxInstanceId side nodeId sessionId in
  _ ← on_transport (registerLocalPeer target socket);
  replacedPeer ← on_registry
    (if side =?= SideBootstrap then setBootstrapPeer target else setSessionPeer target);
  _ ← match replacedPeer with
      | Some replacedPeer =>
          deliver_ignoring_errors
            (toCloseEnvelope replacedPeer CloseCode_REPLACED
               "Replaced by newer sandbox tunnel connection.")
      | None => mret tt
      end;
  mret target.

Definition isCurrentPeer (c : Coordinator) (input : RelayTarget) : bool :=
  let current :=
    if input.(target_side) =?= SideBootstrap
    then getBootstrapPeer c.(peerRegistry) input.(target_sandboxInstanceId)
    else getSessionPeer c.(peerRegistry) (descriptor input) in
  match current with
  | None => false
  | Some current => isSamePeerLocation current input
  end.

Definition forwardPeerMessage (sandboxInstanceId : string) (fromSide : RelayPeerSide)
    (payload : RelayPayload) (targetSessionId : option string) : CoordinatorM unit :=
  target ← gets (λ c,
    if fromSide =?= SideConnection
    then resolveBootstrapPeer c.(peerRegistry) sandboxInstanceId targetSessionId
    else match targetSessionId with
         | None => None
         | Some session => resolveConnectionPeer c.(peerRegistry) sandboxInstanceId session
         end);
  match target with
  | None => mret tt
  | Some target => on_transport (deliverEnvelope (toFrameEnvelope target payload))
  end.

Definition forwardSessionPeerMessage (sandboxInstanceId : string) (targetSide : RelayPeerSide)
    (targetSessionId : string) (payload : RelayPayload) : CoordinatorM unit :=
  if targetSide =?= SideBootstrap then
    throw (PlainError "Use forwardPeerMessage to target bootstrap peers.")
  else
    target ← gets (λ c,
      resolveSessionPeer c.(peerRegistry) sandboxInstanceId targetSide targetSessionId);
    match target with
    | None => mret tt
    | Some target => on_transport (deliverEnvelope (toFrameEnvelope target payload))
    end.

Definition coordinator_resolveSessionPeer (c : Coordinator) (sandboxInstanceId : string)
    (side : RelayPeerSide) (sessionId : string) : option RelayTarget :=
  if side =?= SideBootstrap
  then resolveBootstrapPeer c.(peerRegistry) sandboxInstanceId (Some sessionId)
  else resolveSessionPeer c.(peerRegistry) sandboxInstanceId side sessionId.

Definition coordinator_resolveBootstrapPeer (c : Coordinator) (sandboxInstanceId : string)
    (targetSessionId : option string) : option RelayTarget :=
  resolveBootstrapPeer c.(peerRegistry) sandboxInstanceId targetSessionId.

Definition closePeer (target : RelayTarget) (closeCode : Z) (closeReason : string)
    : CoordinatorM unit :=
  on_transport (deliverEnvelope (toCloseEnvelope target closeCode closeReason)).

Definition closeSessionPeer (sandboxInstanceId : string) (targetSide : RelayPeerSide)
    (targetSessionId : string) (closeCode : Z) (closeReason : string) : CoordinatorM unit :=
  if targetSide =?= SideBootstrap then
    throw (PlainError "Use closePeer to target bootstrap peers.")
  else
    target ← gets (λ c,
      coordinator_resolveSessionPeer c sandboxInstanceId targetSide targetSessionId);
    match target with
    | None => mret tt
    | Some target => closePeer target closeCode closeReason
    end.

Definition listOppositePeersForDetachedPeer (p : P) (target : RelayTarget) : list RelayTarget :=
  if target.(target_side) =?= SideConnection then []
  else if (target.(target_side) =?= SidePtyClient) || (target.(target_side) =?= SidePtySandbox)
  then
    let oppositeSide :=
      if target.(target_side) =?= SidePtyClient then SidePtySandbox else SidePtyClient in
    List.filter (λ peer, peer.(target_sessionId) =?= target.(target_sessionId))
      (listSessionPeers p target.(target_sandboxInstanceId) oppositeSide)
  else
    listConnectionPeers p target.(target_sandboxInstanceId)
    ++ listSessionPeers p target.(target_sandboxInstanceId) SidePtyClient
    ++ listSessionPeers p target.(target_sandboxInstanceId) SidePtySandbox.

Definition detachPeerWithOptions (target : RelayTarget) (notifyOppositePeer : bool)
    : CoordinatorM unit :=
  _ ← on_transport (modify (unregisterLocalPeer target));
  removed ← on_registry (removePeer target);
  if negb removed then mret tt
  else
    oppositePeers ← gets (λ c, listOppositePeersForDetachedPeer c.(peerRegistry) target);
    if negb notifyOppositePeer || (length oppositePeers =? 0)%nat then mret tt
    else for_each oppositePeers (λ peer,
           deliver_ignoring_errors
             (toCloseEnvelope peer CloseCode_PEER_DISCONNECTED
                "Sandbox tunnel peer disconnected.")).

Definition detachPeer (input : RelayTarget) : CoordinatorM unit :=
  detachPeerWithOptions input true.

Definition coordinator_getConnectionPeer (c : Coordinator) (sandboxInstanceId sessionId : string)
    : option RelayTarget :=
  getConnectionPeer c.(peerRegistry) (mkSessionPeer sandboxInstanceId SideConnection sessionId).

Definition coordinator_getBootstrapPeer (c : Coordinator) (sandboxInstanceId : string)
    : option RelayTarget :=
  getBootstrapPeer c.(peerRegistry) sandboxInstanceId.
End Coordinator.

(** ** Slots

    The registry holds at most one peer per slot: the bootstrap peer of a sandbox,
    or the peer of a session on one side. *)

Definition Slot : Type := string * RelayPeerSide * option string.

Definition slot (t : RelayTarget) : Slot :=
  (t.(target_sandboxInstanceId), t.(target_side),
   if t.(target_side) =?= SideBootstrap then None else Some t.(target_sessionId)).

Definition valid_target (t : RelayTarget) : Prop :=
  valid_sandbox_id t.(target_sandboxInstanceId).

Lemma slot_bootstrap t t' :
  t.(target_side) = SideBootstrap → t'.(target_side) = SideBootstrap →
  slot t = slot t' ↔ t.(target_sandboxInstanceId) = t'.(target_sandboxInstanceId).
Proof.
  unfold slot. intros -> ->. rewrite bool_decide_true by done.
  split; [congruence|by intros ->].
Qed.

Lemma slot_session t t' :
  t.(target_side) ≠ SideBootstrap →
  slot t = slot t' ↔ descriptor t = descriptor t'.
Proof.
  unfold slot, descriptor. intros Hside. rewrite bool_decide_false by done.
  split; [case_bool_decide; congruence|].
  intros [= -> Heq ->]. by rewrite <-Heq, bool_decide_false.
Qed.

Lemma isSamePeerLocation_eq a b : isSamePeerLocation a b = bool_decide (a = b).
Proof.
  unfold isSamePeerLocation. destruct a, b; simpl.
  repeat case_bool_decide; simpl; naive_solver.
Qed.

(** The envelopes of a list, delivered in order, errors ignored. *)
Definition deliver_all {Socket T} `{RelayTransportAdapter Socket T} (envelopes : list RelayEnvelope)
    (t : T) : T :=
  foldl (λ t e, (deliverEnvelope e t).2) t envelopes.

(** Who is told that [t] is gone. *)
Definition opposite (t peer : RelayTarget) : Prop :=
  peer.(target_sandboxInstanceId) = t.(target_sandboxInstanceId) ∧
  match t.(target_side) with
  | SideBootstrap => peer.(target_side) ≠ SideBootstrap
  | SideConnection => False
  | SidePtyClient =>
      peer.(target_side) = SidePtySandbox ∧ peer.(target_sessionId) = t.(target_sessionId)
  | SidePtySandbox =>
      peer.(target_side) = SidePtyClient ∧ peer.(target_sessionId) = t.(target_sessionId)
  end.

Section Theory.
Context {P Socket T : Type}.
Context `{LocalPeerRegistryLaws P} `{RelayPeerResolver P} `{!RelayTransportAdapter Socket T}.
Implicit Types (c : TunnelRelayCoordinator P T) (p : P).

Definition set_peer (t : RelayTarget) : P → option RelayTarget * P :=
  if t.(target_side) =?= SideBootstrap then setBootstrapPeer t else setSessionPeer t.

Lemma isCurrentPeer_current c t :
  isCurrentPeer c t = bool_decide (current_peer c.(peerRegistry) t = Some t).
Proof.
  unfold isCurrentPeer, current_peer.
  destruct t.(target_side) eqn:Hside; simpl;
    (destruct (getBootstrapPeer _ _) as [u|] || destruct (getSessionPeer _ _) as [u|]);
    rewrite ?isSamePeerLocation_eq; try (by apply bool_decide_ext; split; congruence);
    by rewrite bool_decide_false.
Qed.

Lemma current_peer_slot p t t' :
  peers_ok p → valid_target t → current_peer p t = Some t' → slot t' = slot t.
Proof.
  intros Hp Ht. unfold current_peer. destruct t.(target_side) eqn:Hside; intros Hcur.
  { destruct (law_bootstrap_own _ _ _ Hp Hcur) as [? ?]. by apply slot_bootstrap. }
  all: apply law_session_own in Hcur; [|done..];
    symmetry; apply slot_session; [by rewrite Hside|done].
Qed.

Lemma current_peer_set t p :
  peers_ok p → valid_target t →
  let (previous, p') := set_peer t p in
  peers_ok p' ∧ previous = current_peer p t ∧
  ∀ t', valid_target t' → current_peer p' t' =
    if decide (slot t = slot t') then Some t else current_peer p t'.
Proof.
  intros Hp Ht. unfold set_peer. case_bool_decide as Hside.
  - pose proof (law_setBootstrapPeer t p Hp Hside) as Hlaw.
    destruct (setBootstrapPeer t p) as [prev p']. destruct Hlaw as (Hok & -> & Hb & Hs).
    split; [done|split; [unfold current_peer; by rewrite Hside|]].
    intros t' Ht'. unfold current_peer.
    destruct (decide (t'.(target_side) = SideBootstrap)) as [Hside'|Hside'].
    + rewrite Hside', Hb. pose proof (slot_bootstrap t t' Hside Hside').
      repeat case_decide; tauto.
    + rewrite decide_False by (unfold slot; congruence).
      destruct (target_side t'); try done; apply Hs.
  - pose proof (law_setSessionPeer t p Hp Ht) as Hlaw.
    destruct (setSessionPeer t p) as [prev p']. destruct Hlaw as (Hok & -> & Hs & Hb).
    split; [done|split; [unfold current_peer; by destruct (target_side t)|]].
    intros t' Ht'. pose proof (slot_session t t' Hside). unfold current_peer.
    destruct (decide (t'.(target_side) = SideBootstrap)) as [Hside'|Hside'].
    + rewrite Hside', Hb. rewrite decide_False; [done|]. unfold slot. congruence.
    + assert (getSessionPeer p' (descriptor t') =
        if decide (slot t = slot t') then Some t else getSessionPeer p (descriptor t')) as Heq.
      { rewrite Hs by done. repeat case_decide; tauto. }
      destruct (target_side t'); done.
Qed.

Lemma current_peer_remove t p :
  peers_ok p → valid_target t →
  let (removed, p') := removePeer t p in
  peers_ok p' ∧ removed = bool_decide (current_peer p t = Some t) ∧
  (removed = false → p' = p) ∧
  (removed = true → ∀ t', valid_target t' → current_peer p' t' =
    if decide (slot t = slot t') then None else current_peer p t').
Proof.
  intros Hp Ht. pose proof (law_removePeer t p Hp Ht) as Hlaw.
  destruct (removePeer t p) as [removed p']. destruct Hlaw as [Hok Hlaw]. split; [done|].
  destruct (current_peer p t) as [cur|] eqn:Hcur; cycle 1.
  { destruct Hlaw as [-> ->]. by rewrite bool_decide_false. }
  pose proof (current_peer_slot p t cur Hp Ht Hcur) as Hslot.
  case_decide as Hsame; cycle 1.
  { destruct Hlaw as [-> ->]. rewrite bool_decide_false; naive_solver. }
  destruct Hlaw as (-> & Hb & Hs). destruct Hsame as [Hnode Hsession].
  split; [rewrite bool_decide_true; [done|]|].
  { destruct cur, t. unfold slot in Hslot. simpl in *. by simplify_eq. }
  split; [done|]. intros _ t' Ht'. unfold current_peer.
  destruct (decide (t'.(target_side) = SideBootstrap)) as [Hside'|Hside'].
  - rewrite Hside', Hb. destruct (decide (t.(target_side) = SideBootstrap)) as [Hside|Hside].
    + pose proof (slot_bootstrap t t' Hside Hside'). repeat case_decide; tauto.
    + rewrite !decide_False; [done| |tauto]. unfold slot. congruence.
  - assert (getSessionPeer p' (descriptor t') =
      if decide (slot t = slot t') then None else getSessionPeer p (descriptor t')) as Heq.
    { rewrite Hs by done. destruct (decide (t.(target_side) = SideBootstrap)) as [Hside|Hside].
      - rewrite !decide_False; [done| |tauto]. unfold slot. congruence.
      - pose proof (slot_session t t' Hside). repeat case_decide; tauto. }
    destruct (target_side t'); done.
Qed.

(** *** Opposite peers *)

Lemma elem_of_opposite p t peer :
  peers_ok p → valid_target t →
  peer ∈ listOppositePeersForDetachedPeer p t ↔
  current_peer p peer = Some peer ∧ opposite t peer.
Proof.
  intros Hp Ht. unfold listOppositePeersForDetachedPeer, opposite, current_peer.
  rewrite law_listConnectionPeers.
  destruct t.(target_side) eqn:Hside; simpl;
    rewrite ?elem_of_app, ?elem_of_filter_map_bool, ?law_listSessionPeers by done.
  - destruct (target_side peer); naive_solver.
  - rewrite elem_of_nil. naive_solver.
  - rewrite bool_decide_eq_true. destruct (target_side peer) eqn:?; naive_solver.
  - rewrite bool_decide_eq_true. destruct (target_side peer) eqn:?; naive_solver.
Qed.

Lemma NoDup_opposite p t :
  peers_ok p → valid_target t → NoDup (listOppositePeersForDetachedPeer p t).
Proof.
  intros Hp Ht. unfold listOppositePeersForDetachedPeer. rewrite law_listConnectionPeers.
  repeat case_match; try apply NoDup_nil_2.
  1,2: apply NoDup_ListNoDup, List.NoDup_filter, NoDup_ListNoDup, law_listSessionPeers_NoDup, Hp.
  repeat (apply NoDup_app; split_and!);
    try (by apply law_listSessionPeers_NoDup);
    intros u; rewrite ?elem_of_app, !law_listSessionPeers by done; intuition congruence.
Qed.

(** *** Deliveries *)

Lemma deliver_ignoring_errors_run envelope c :
  deliver_ignoring_errors envelope c =
    (inr tt, mkCoordinator c.(coordinator_nodeId) c.(peerRegistry)
               (deliver_all [envelope] c.(relayTransport))).
Proof.
  unfold deliver_ignoring_errors, on_transport, try_catch, deliver_all. simpl.
  by destruct (deliverEnvelope envelope _) as [[e|[]] t'].
Qed.

Lemma for_each_deliver (envelope : RelayTarget → RelayEnvelope) l c :
  for_each l (λ peer, deliver_ignoring_errors (envelope peer)) c =
    (inr tt, mkCoordinator c.(coordinator_nodeId) c.(peerRegistry)
               (deliver_all (envelope <$> l) c.(relayTransport))).
Proof.
  revert c. induction l as [|peer l IH]; intros c; [by destruct c|].
  cbn [for_each]. unfold mbind at 1, M_bind at 1.
  by rewrite deliver_ignoring_errors_run, IH.
Qed.
(** *** Specifications *)

Definition attached_target c (id : string) (side : RelayPeerSide) (session : string)
    : RelayTarget :=
  mkTarget id side c.(coordinator_nodeId) session.

Lemma attachPeer_run c id side socket session t1 :
  registerLocalPeer (attached_target c id side session) socket c.(relayTransport) = (inr tt, t1) →
  attachPeer id side socket session c =
    (let target := attached_target c id side session in
     let (previous, p') := set_peer target c.(peerRegistry) in
     (inr target, mkCoordinator c.(coordinator_nodeId) p'
       (deliver_all (option_list ((λ old, toCloseEnvelope old CloseCode_REPLACED
          "Replaced by newer sandbox tunnel connection.") <$> previous)) t1))).
Proof.
  intros Hreg. unfold attachPeer, set_peer, mbind, M_bind, gets, on_registry.
  change (mkTarget _ _ _ _) with (attached_target c id side session).
  unfold on_transport at 1. rewrite Hreg. cbn [attached_target target_side peerRegistry].
  destruct (if side =?= SideBootstrap then _ else _) as [previous p'].
  destruct previous as [old|]; [|done]. by rewrite deliver_ignoring_errors_run.
Qed.

(** [attachPeer] makes the new target the current peer of its slot and closes
    the peer it replaces, and only that one, with code 1012; the peers of other
    slots stay as they were, and no other target of the slot is current. *)
Theorem attachPeer_spec c (id : string) (side : RelayPeerSide) (socket : Socket)
    (session : string) (t1 : T) :
  peers_ok c.(peerRegistry) → valid_sandbox_id id →
  let target := attached_target c id side session in
  registerLocalPeer target socket c.(relayTransport) = (inr tt, t1) →
  ∃ c', attachPeer id side socket session c = (inr target, c') ∧
    peers_ok c'.(peerRegistry) ∧
    c'.(coordinator_nodeId) = c.(coordinator_nodeId) ∧
    c'.(relayTransport) =
      deliver_all (match current_peer c.(peerRegistry) target with
                   | Some old => [RelayCloseEnvelope old 1012
                                    "Replaced by newer sandbox tunnel connection."]
                   | None => []
                   end) t1 ∧
    ∀ t, valid_target t → isCurrentPeer c' t =
      if decide (slot target = slot t) then bool_decide (t = target) else isCurrentPeer c t.
Proof.
  intros Hp Hid target Hreg. rewrite (attachPeer_run _ _ _ _ _ _ Hreg). cbv zeta.
  pose proof (current_peer_set target c.(peerRegistry) Hp Hid) as Hset.
  change (attached_target c id side session) with target.
  destruct (set_peer target _) as [previous p']. destruct Hset as (Hp' & -> & Hcur).
  eexists. split; [done|]. cbn [peerRegistry coordinator_nodeId relayTransport].
  split_and!; [done|done|by destruct (current_peer _ target)|].
  intros t Ht. rewrite !isCurrentPeer_current. cbn [peerRegistry]. rewrite Hcur by done.
  case_decide; [|done]. apply bool_decide_ext. split; congruence.
Qed.

Lemma detachPeer_run c t notify :
  peers_ok c.(peerRegistry) → valid_target t →
  ∃ p', detachPeerWithOptions t notify c =
    (inr tt, mkCoordinator c.(coordinator_nodeId) p'
      (deliver_all
         (if bool_decide (current_peer c.(peerRegistry) t = Some t) && notify then
            (λ peer, toCloseEnvelope peer CloseCode_PEER_DISCONNECTED
                       "Sandbox tunnel peer disconnected.")
            <$> listOppositePeersForDetachedPeer p' t
          else [])
         (unregisterLocalPeer t c.(relayTransport)))) ∧
    removePeer t c.(peerRegistry) =
      (bool_decide (current_peer c.(peerRegistry) t = Some t), p').
Proof.
  intros Hp Ht. pose proof (current_peer_remove t c.(peerRegistry) Hp Ht) as Hrem.
  unfold detachPeerWithOptions, mbind, M_bind, on_registry, gets.
  unfold on_transport, modify. cbn [peerRegistry relayTransport coordinator_nodeId].
  destruct (removePeer t c.(peerRegistry)) as [removed p'].
  destruct Hrem as (_ & -> & _). exists p'. split; [|done].
  case_bool_decide; [|done]. cbn [negb andb peerRegistry].
  destruct notify; [|done]. cbn [negb orb].
  destruct (listOppositePeersForDetachedPeer p' t) as [|u l] eqn:Hl; [done|].
  cbn [length Nat.eqb]. rewrite <-Hl.
  by rewrite (for_each_deliver (λ peer, toCloseEnvelope peer CloseCode_PEER_DISCONNECTED _)).
Qed.

(** [detachPeer] of a peer that is no longer current (it was replaced, or
    detached before) forgets its socket and does nothing else.  Otherwise the
    slot becomes empty and each peer on the opposite side is closed once: every
    client and pty peer of the sandbox for a bootstrap tunnel, the other end of
    the same session for a pty peer, nobody for a client connection. *)
Theorem detachPeer_spec c (t : RelayTarget) :
  peers_ok c.(peerRegistry) → valid_target t →
  ∃ c' notified, detachPeer t c = (inr tt, c') ∧ peers_ok c'.(peerRegistry) ∧
    c'.(coordinator_nodeId) = c.(coordinator_nodeId) ∧
    c'.(relayTransport) =
      deliver_all ((λ peer, RelayCloseEnvelope peer 1012 "Sandbox tunnel peer disconnected.")
                   <$> notified) (unregisterLocalPeer t c.(relayTransport)) ∧
    NoDup notified ∧
    (∀ peer, peer ∈ notified ↔
      isCurrentPeer c t = true ∧ isCurrentPeer c peer = true ∧ opposite t peer) ∧
    (∀ u, valid_target u → isCurrentPeer c' u = isCurrentPeer c u && negb (bool_decide (u = t))).
Proof.
  intros Hp Ht. destruct (detachPeer_run c t true Hp Ht) as (p' & Hrun & Hremove).
  pose proof (current_peer_remove t c.(peerRegistry) Hp Ht) as Hrem.
  rewrite Hremove in Hrem. destruct Hrem as (Hp' & _ & Hfalse & Htrue).
  unfold detachPeer. rewrite Hrun, andb_true_r.
  set (gone := bool_decide (current_peer c.(peerRegistry) t = Some t)) in *.
  eexists _, (if gone then listOppositePeersForDetachedPeer p' t else []).
  split; [done|]. cbn [peerRegistry coordinator_nodeId relayTransport].
  split_and!; [done|done|by destruct gone| | |].
  - destruct gone; [by apply NoDup_opposite|apply NoDup_nil_2].
  - intros peer. rewrite !isCurrentPeer_current. fold gone. rewrite bool_decide_eq_true.
    destruct gone; cycle 1.
    { rewrite elem_of_nil. naive_solver. }
    rewrite elem_of_opposite by done.
    assert (opposite t peer → valid_target peer ∧ slot t ≠ slot peer) as Hopp.
    { intros [Hsb Hside]. split; [unfold valid_target; by rewrite Hsb|]. unfold slot.
      destruct (target_side t), (target_side peer) eqn:?; naive_solver. }
    split; [intros [Hc Ho]|intros (_ & Hc & Ho)]; destruct (Hopp Ho) as [Hv Hslot];
      rewrite Htrue in * by done; rewrite decide_False in * by done; done.
  - intros u Hu. rewrite !isCurrentPeer_current. cbn [peerRegistry].
    destruct gone eqn:Hgone.
    + rewrite Htrue by done. apply bool_decide_eq_true in Hgone. case_decide as Hslot.
      * rewrite (bool_decide_false (None = _)) by done. symmetry. apply andb_false_iff.
        rewrite negb_false_iff, bool_decide_eq_false, bool_decide_eq_true.
        destruct (decide (u = t)); [by right|left]. intros Hcu.
        assert (current_peer c.(peerRegistry) u = current_peer c.(peerRegistry) t) as Heq;
          [|congruence].
        unfold current_peer. unfold slot in Hslot.
        destruct (target_side t) eqn:?, (target_side u) eqn:?; simplify_eq/=; try congruence;
          unfold descriptor; congruence.
      * rewrite (bool_decide_false (u = t)) by congruence. by rewrite andb_true_r.
    + rewrite Hfalse by done. case_bool_decide as Hcu; [|done].
      rewrite bool_decide_false; [done|]. intros ->.
      apply bool_decide_eq_false in Hgone. done.
Qed.
End Theory.

(** ** The in-memory composition (create-in-memory-relay-coordinator.ts) *)

Section InMemory.
Context (is_open : nat → bool) (nodeId : string).
#[local] Existing Instance memory_transport.
#[local] Instance the_transport : RelayTransportAdapter nat MemoryTransport :=
  memory_transport is_open.
Notation Coordinator := (TunnelRelayCoordinator MemoryPeers MemoryTransport).

Definition createInMemoryTunnelRelayCoordinator : Coordinator :=
  mkCoordinator nodeId (mkMemoryPeers JsMap.empty JsMap.empty)
    (mkMemoryTransport nodeId JsMap.empty []).

Inductive relay_op : Type :=
| RelayAttach (id : string) (side : RelayPeerSide) (socket : nat) (session : string)
| RelayDetach (target : RelayTarget).

Definition relay_apply (op : relay_op) (c : Coordinator) : Coordinator :=
  match op with
  | RelayAttach id side socket session => (attachPeer id side socket session c).2
  | RelayDetach target => (detachPeer target c).2
  end.

Definition relay_run (ops : list relay_op) (c : Coordinator) : Coordinator :=
  foldl (λ c op, relay_apply op c) c ops.

(** The specification: which target each slot holds. *)
Definition table_apply (table : Slot → option RelayTarget) (op : relay_op)
    : Slot → option RelayTarget :=
  match op with
  | RelayAttach id side _ session =>
      let target := mkTarget id side nodeId session in
      λ s, if decide (slot target = s) then Some target else table s
  | RelayDetach target =>
      λ s, if decide (slot target = s ∧ table s = Some target) then None else table s
  end.

Definition relay_table (ops : list relay_op) : Slot → option RelayTarget :=
  foldl table_apply (λ _, None) ops.

(** The targets a history attaches, with their sockets. *)
Definition attachments (ops : list relay_op) : list (RelayTarget * nat) :=
  omap (λ op, match op with
              | RelayAttach id side socket session =>
                  Some (mkTarget id side nodeId session, socket)
              | RelayDetach _ => None
              end) ops.

(** Every connection has a session id of its own on its side, and only attached
    targets are detached. *)
Definition relay_history_ok (ops : list relay_op) : Prop :=
  NoDup ((λ a, createPeerKey a.1) <$> attachments ops) ∧
  (∀ a, a ∈ attachments ops → valid_target a.1) ∧
  (∀ t, RelayDetach t ∈ ops → t ∈ (attachments ops).*1).

Lemma createPeerKey_inj t t' :
  createPeerKey t = createPeerKey t' →
  t.(target_side) = t'.(target_side) ∧ t.(target_sessionId) = t'.(target_sessionId).
Proof.
  unfold createPeerKey. intros [Hside ->]%key_inj_first; [|apply side_value_no_colon..].
  by apply side_value_inj in Hside.
Qed.

Lemma memory_deliver_keeps envelopes t :
  (deliver_all envelopes t).(transport_nodeId) = t.(transport_nodeId) ∧
  (deliver_all envelopes t).(socketsByPeerKey) = t.(socketsByPeerKey).
Proof.
  unfold deliver_all. revert t. induction envelopes as [|e l IH]; intros t; [done|].
  cbn [foldl]. destruct (IH (deliverEnvelope e t).2) as [-> ->].
  simpl. unfold memory_deliverEnvelope. by repeat case_match.
Qed.

(** What holds between the coordinator and its history: [att] is everything that
    is ever attached. *)
Record relay_inv (att : list (RelayTarget * nat)) (table : Slot → option RelayTarget)
    (c : Coordinator) : Prop := mkRelayInv {
  inv_peers : memory_peers_ok c.(peerRegistry);
  inv_node : c.(coordinator_nodeId) = nodeId ∧ c.(relayTransport).(transport_nodeId) = nodeId;
  inv_table : ∀ t, valid_target t → isCurrentPeer c t = bool_decide (table (slot t) = Some t);
  inv_slot : ∀ s t, table s = Some t → slot t = s;
  inv_socket : ∀ a, a ∈ att → table (slot a.1) = Some a.1 →
    JsMap.get c.(relayTransport).(socketsByPeerKey) (createPeerKey a.1) = Some a.2;
}.

Lemma attachment_unique att (a b : RelayTarget * nat) :
  NoDup ((λ a, createPeerKey a.1) <$> att) → a ∈ att → b ∈ att →
  createPeerKey a.1 = createPeerKey b.1 → a = b.
Proof.
  intros Hnd Ha Hb Heq. apply list_elem_of_lookup in Ha as [i Hi].
  apply list_elem_of_lookup in Hb as [j Hj].
  assert (i = j) as ->; [|congruence].
  eapply (NoDup_lookup ((λ a, createPeerKey a.1) <$> att) _ _ (createPeerKey a.1)); [done|..];
    rewrite list_lookup_fmap; [by rewrite Hi|by rewrite Hj, Heq].
Qed.

Lemma relay_inv_attach att table c id side socket session :
  NoDup ((λ a, createPeerKey a.1) <$> att) → (∀ a, a ∈ att → valid_target a.1) →
  (mkTarget id side nodeId session, socket) ∈ att →
  relay_inv att table c →
  relay_inv att (table_apply table (RelayAttach id side socket session))
    (relay_apply (RelayAttach id side socket session) c).
Proof.
  intros Hnd Hvalid Hin [Hp [Hnode Htnode] Htable Hslot Hsocket].
  pose proof (Hvalid _ Hin) as Hid. unfold valid_target in Hid. simpl in Hid.
  set (t1 := mkMemoryTransport nodeId
    (JsMap.set c.(relayTransport).(socketsByPeerKey) (side_value side +:+ ":" +:+ session) socket)
    c.(relayTransport).(socket_calls)).
  assert (registerLocalPeer (attached_target c id side session) socket c.(relayTransport)
          = (inr tt, t1)) as Hreg.
  { simpl. unfold memory_registerLocalPeer. cbn [attached_target target_nodeId].
    rewrite Hnode, Htnode, bool_decide_true by done. done. }
  pose proof (attachPeer_run c id side socket session t1 Hreg) as Hrun. cbv zeta in Hrun.
  pose proof (current_peer_set (attached_target c id side session) c.(peerRegistry) Hp Hid) as Hset.
  destruct (set_peer _ _) as [previous p']. destruct Hset as (Hp' & -> & Hcur).
  unfold attached_target in *. rewrite Hnode in *. set (target := mkTarget _ _ _ _) in *.
  simpl. rewrite Hrun. cbn [snd].
  match goal with |- context [deliver_all ?es t1] => set (envs := es) end.
  destruct (memory_deliver_keeps envs t1) as [Hn Hs].
  split; cbn [peerRegistry coordinator_nodeId relayTransport].
  - done.
  - by rewrite Hn.
  - intros t Ht. rewrite isCurrentPeer_current. cbn [peerRegistry]. rewrite Hcur by done.
    fold target. case_decide; [done|]. rewrite <-Htable by done. by rewrite isCurrentPeer_current.
  - intros s t. fold target. case_decide; [naive_solver|apply Hslot].
  - intros [t k] Ha. fold target. cbn [fst snd]. rewrite Hs.
    change (side_value side +:+ ":" +:+ session) with (createPeerKey target).
    unfold t1. cbn [socketsByPeerKey].
    change (side_value side +:+ ":" +:+ session) with (createPeerKey target).
    rewrite JsMap.get_set. destruct (decide (createPeerKey target = createPeerKey t)) as [Heq|Hne].
    + by pose proof (attachment_unique _ _ _ Hnd Hin Ha Heq) as [= <- <-].
    + case_decide; [naive_solver|]. apply (Hsocket (t, k) Ha).
Qed.

Lemma relay_inv_detach att table c t :
  NoDup ((λ a, createPeerKey a.1) <$> att) → (∀ a, a ∈ att → valid_target a.1) →
  t ∈ att.*1 → relay_inv att table c →
  relay_inv att (table_apply table (RelayDetach t)) (relay_apply (RelayDetach t) c).
Proof.
  intros Hnd Hvalid Hin [Hp [Hnode Htnode] Htable Hslot Hsocket].
  apply list_elem_of_fmap in Hin as ([t0 k0] & Heq & Hin). simpl in Heq. subst t0.
  pose proof (Hvalid _ Hin) as Ht. simpl in Ht.
  change (peers_ok c.(peerRegistry)) in Hp.
  destruct (detachPeer_run c t true Hp Ht) as (p' & Hrun & Hremove).
  pose proof (current_peer_remove t c.(peerRegistry) Hp Ht) as Hrem.
  rewrite Hremove in Hrem. destruct Hrem as (Hp' & _ & Hfalse & Htrue).
  unfold relay_apply, detachPeer. rewrite Hrun. cbn [snd]. rewrite andb_true_r.
  pose proof (Htable t Ht) as Hgone. rewrite isCurrentPeer_current in Hgone.
  assert (current_peer c.(peerRegistry) t = Some t ↔ table (slot t) = Some t) as Hiff.
  { rewrite <-(bool_decide_eq_true (current_peer _ _ = _)), Hgone. apply bool_decide_eq_true. }
  match goal with |- context [deliver_all ?es _] => set (envs := es) end.
  destruct (memory_deliver_keeps envs (unregisterLocalPeer t c.(relayTransport))) as [Hn Hs].
  split; cbn [peerRegistry coordinator_nodeId relayTransport table_apply].
  - done.
  - split; [done|]. rewrite Hn. simpl. unfold memory_unregisterLocalPeer. by destruct (negb _).
  - intros u Hu. rewrite isCurrentPeer_current. cbn [peerRegistry].
    case_bool_decide as Hcur.
    + apply Hiff in Hcur as Htab. rewrite Htrue by done.
      pose proof (Htable u Hu) as Hu'. rewrite isCurrentPeer_current in Hu'.
      destruct (decide (slot t = slot u)) as [Hsl|Hsl].
      * rewrite <-Hsl, decide_True by done. done.
      * rewrite (decide_False (P := slot t = slot u ∧ _)) by tauto. done.
    + rewrite Hfalse by done.
      rewrite <-isCurrentPeer_current, Htable by done.
      rewrite (decide_False (P := slot t = slot u ∧ _)); [done|].
      intros [Hsl Hu']. rewrite <-Hsl in Hu'. tauto.
  - intros s u. destruct (decide (slot t = s ∧ table s = Some t)); [by intros|apply Hslot].
  - intros [u k] Ha. cbn [fst snd]. rewrite Hs. simpl.
    unfold memory_unregisterLocalPeer.
    destruct (decide (slot t = slot u ∧ table (slot u) = Some t)) as [|Hsl]; [by intros|].
    intros Hu.
    destruct (decide (createPeerKey t = createPeerKey u)) as [Heq|Hne].
    { pose proof (attachment_unique _ _ _ Hnd Hin Ha Heq) as [= <- <-]. tauto. }
    specialize (Hsocket (u, k) Ha Hu). destruct (negb _); [done|]. simpl.
    by rewrite JsMap.get_delete_ne.
Qed.

Lemma relay_inv_run att ops table c :
  NoDup ((λ a, createPeerKey a.1) <$> att) → (∀ a, a ∈ att → valid_target a.1) →
  (∀ a, a ∈ attachments ops → a ∈ att) → (∀ t, RelayDetach t ∈ ops → t ∈ att.*1) →
  relay_inv att table c → relay_inv att (foldl table_apply table ops) (relay_run ops c).
Proof.
  intros Hnd Hvalid. revert table c. induction ops as [|op ops IH]; intros table c Hatt Hdet Hinv;
    [done|]. cbn [foldl relay_run].
  apply IH.
  - intros a Ha. apply Hatt. unfold attachments. simpl. destruct op; [by right|done].
  - intros t Ht. apply Hdet. by right.
  - destruct op as [id side socket session|t].
    + apply relay_inv_attach; try done. apply Hatt. left.
    + apply relay_inv_detach; try done. apply Hdet. left.
Qed.

Lemma relay_history_inv (ops : list relay_op) :
  relay_history_ok ops →
  relay_inv (attachments ops) (relay_table ops)
    (relay_run ops createInMemoryTunnelRelayCoordinator).
Proof.
  intros (Hnd & Hvalid & Hdet). apply relay_inv_run; [done..|].
  split; [split; try apply JsMap.wf_empty; done|done| |done|done].
  intros u _. rewrite isCurrentPeer_current. unfold current_peer.
  by destruct (target_side u).
Qed.

(** The gateway after a frame has been sent to [socket]. *)
Definition sent_to (socket : nat) (payload : RelayPayload) (c : Coordinator) : Coordinator :=
  mkCoordinator c.(coordinator_nodeId) c.(peerRegistry)
    (mkMemoryTransport c.(relayTransport).(transport_nodeId) c.(relayTransport).(socketsByPeerKey)
       (c.(relayTransport).(socket_calls) ++ (if is_open socket then [SocketSend socket payload] else []))).

Lemma relay_inv_sent att table c socket payload :
  relay_inv att table c → relay_inv att table (sent_to socket payload c).
Proof. by intros [Hp Hnode Htable Hslot Hsocket]. Qed.

(** A frame for a current peer goes to the socket it attached with. *)
Lemma relay_inv_delivers att table c t socket payload :
  relay_inv att table c → (t, socket) ∈ att → valid_target t → isCurrentPeer c t = true →
  t.(target_nodeId) = nodeId →
  deliverEnvelope (toFrameEnvelope t payload) c.(relayTransport) =
    (inr tt, (sent_to socket payload c).(relayTransport)).
Proof.
  intros [_ [_ Hnode] Htable _ Hsocket] Hin Ht Hcur Htn.
  rewrite Htable in Hcur by done. apply bool_decide_eq_true in Hcur.
  specialize (Hsocket _ Hin Hcur). cbn [fst snd] in Hsocket.
  simpl. unfold memory_deliverEnvelope, toFrameEnvelope. cbn [envelope_target].
  rewrite Htn, Hnode, bool_decide_true by done. cbn [negb]. rewrite Hsocket.
  destruct (is_open socket); cbn [negb]; rewrite <-?Hnode; [done|]. rewrite app_nil_r.
  by destruct (relayTransport c).
Qed.

Lemma attachments_node ops t socket : (t, socket) ∈ attachments ops → t.(target_nodeId) = nodeId.
Proof. intros Hin. unfold attachments in Hin. apply list_elem_of_omap in Hin as ([] & _ & Heq); by simplify_eq/=. Qed.

(** C7: in the in-memory gateway, after any history of attaches and detaches whose
    connections have their own session ids, the current peer of every slot is the
    last one attached there and not detached since, and a frame for a current
    peer is sent on the very socket that peer attached with (when that socket is
    still open), and nowhere else. *)
Theorem relay_history (ops : list relay_op) (t : RelayTarget) :
  relay_history_ok ops → valid_target t →
  let c := relay_run ops createInMemoryTunnelRelayCoordinator in
  isCurrentPeer c t = bool_decide (relay_table ops (slot t) = Some t) ∧
  ∀ socket payload, (t, socket) ∈ attachments ops → isCurrentPeer c t = true →
    deliverEnvelope (toFrameEnvelope t payload) c.(relayTransport) =
      (inr tt, mkMemoryTransport nodeId c.(relayTransport).(socketsByPeerKey)
        (c.(relayTransport).(socket_calls)
         ++ (if is_open socket then [SocketSend socket payload] else []))).
Proof.
  intros Hops Ht c.
  pose proof (relay_history_inv ops Hops) as Hinv. fold c in Hinv. clearbody c.
  split; [by apply Hinv|]. intros socket payload Hin Hcur.
  rewrite (relay_inv_delivers _ _ _ _ _ _ Hinv Hin Ht Hcur (attachments_node _ _ _ Hin)).
  destruct Hinv as [_ [_ Hnode] _ _ _]. unfold sent_to. cbn [relayTransport]. by rewrite Hnode.
Qed.

(** A peer attached again under the session id it already has is its own
    replacement: the close envelope meant for the old socket finds the new one,
    which was registered first. *)
Theorem reattach_same_session_closes_new_socket (c : Coordinator) (id session : string)
    (side : RelayPeerSide) (socket : nat) :
  let target := attached_target c id side session in
  c.(relayTransport).(transport_nodeId) = c.(coordinator_nodeId) →
  peers_ok c.(peerRegistry) → valid_sandbox_id id →
  isCurrentPeer c target = true → is_open socket = true →
  (attachPeer id side socket session c).2.(relayTransport).(socket_calls) =
    c.(relayTransport).(socket_calls)
    ++ [SocketClose socket 1012 "Replaced by newer sandbox tunnel connection."].
Proof.
  intros target Hnode Hp Hid Hcur Hopen.
  set (t1 := mkMemoryTransport c.(relayTransport).(transport_nodeId)
    (JsMap.set c.(relayTransport).(socketsByPeerKey) (createPeerKey target) socket)
    c.(relayTransport).(socket_calls)).
  assert (registerLocalPeer target socket c.(relayTransport) = (inr tt, t1)) as Hreg.
  { simpl. unfold memory_registerLocalPeer. cbn [target attached_target target_nodeId].
    rewrite Hnode, bool_decide_true by done. by rewrite <-Hnode. }
  rewrite (attachPeer_run _ _ _ _ _ _ Hreg). cbv zeta. fold target.
  pose proof (current_peer_set target c.(peerRegistry) Hp Hid) as Hset.
  destruct (set_peer target _) as [previous p']. destruct Hset as (_ & -> & _).
  rewrite isCurrentPeer_current, bool_decide_eq_true in Hcur. rewrite Hcur.
  cbn [snd relayTransport fmap option_fmap option_map option_list option_rect].
  unfold deliver_all. cbn [foldl]. simpl. unfold memory_deliverEnvelope, toCloseEnvelope.
  cbn [envelope_target]. unfold t1. cbn [transport_nodeId socketsByPeerKey socket_calls].
  unfold target at 1, attached_target. cbn [target_nodeId]. fold target.
  rewrite Hnode, bool_decide_true by done. cbn [negb].
  by rewrite JsMap.get_set_eq, Hopen.
Qed.
End InMemory.

(** ** Witnesses *)

#[local] Instance demo_transport : RelayTransportAdapter nat MemoryTransport :=
  memory_transport (λ _, true).

Definition demo_relay_ops : list relay_op :=
  [RelayAttach "sbi_1" SideBootstrap 1 "b1"; RelayAttach "sbi_1" SideConnection 2 "c1";
   RelayAttach "sbi_1" SidePtyClient 3 "p1"; RelayAttach "sbi_2" SideConnection 4 "c2";
   RelayAttach "sbi_1" SideBootstrap 5 "b2";
   RelayDetach (mkTarget "sbi_1" SideBootstrap "node_a" "b1")].

Definition demo_coordinator : TunnelRelayCoordinator MemoryPeers MemoryTransport :=
  relay_run (λ _, true) demo_relay_ops (createInMemoryTunnelRelayCoordinator "node_a").

Lemma demo_history_ok : relay_history_ok "node_a" demo_relay_ops.
Proof.
  split_and!.
  - by apply (bool_decide_unpack _); vm_compute.
  - intros a Ha. vm_compute in Ha. 
    repeat (apply elem_of_cons in Ha as [->|Ha]; [reflexivity|]). by apply elem_of_nil in Ha.
  - intros t Ht. unfold demo_relay_ops in Ht.
    repeat (apply elem_of_cons in Ht as [[=]|Ht]; subst); [left|by apply elem_of_nil in Ht].
Qed.

Lemma demo_peers_ok : peers_ok demo_coordinator.(peerRegistry).
Proof. apply (relay_history_inv (λ _, true) _ _ demo_history_ok). Qed.

Lemma relay_history_witness :
  let b2 := mkTarget "sbi_1" SideBootstrap "node_a" "b2" in
  isCurrentPeer demo_coordinator b2 = true ∧
  isCurrentPeer demo_coordinator (mkTarget "sbi_1" SideBootstrap "node_a" "b1") = false ∧
  (memory_deliverEnvelope (λ _, true) (toFrameEnvelope b2 (TextPayload "hello"))
    demo_coordinator.(relayTransport)).1 = inr tt.
Proof.
  intros b2. split; [reflexivity|split; [reflexivity|]].
  destruct (relay_history (λ _, true) "node_a" demo_relay_ops b2 demo_history_ok) as [_ H];
    [reflexivity|].
  assert ((b2, 5%nat) ∈ attachments "node_a" demo_relay_ops) as Hin by (do 4 right; left).
  exact (f_equal fst (H 5%nat (TextPayload "hello") Hin eq_refl)).
Defined.

Lemma attachPeer_spec_witness :
  ∃ t1 c', attachPeer (Socket := nat)
      "sbi_1" SideBootstrap 9%nat "b3" demo_coordinator =
      (inr (mkTarget "sbi_1" SideBootstrap "node_a" "b3"), c') ∧
    c'.(relayTransport) =
      deliver_all
        [RelayCloseEnvelope (mkTarget "sbi_1" SideBootstrap "node_a" "b2") 1012
           "Replaced by newer sandbox tunnel connection."] t1.
Proof.
  set (t1 := (registerLocalPeer (mkTarget "sbi_1" SideBootstrap "node_a" "b3") 9%nat
    demo_coordinator.(relayTransport)).2).
  assert (registerLocalPeer (attached_target demo_coordinator "sbi_1" SideBootstrap "b3") 9%nat
    demo_coordinator.(relayTransport) = (inr tt, t1)) as Hreg by (vm_compute; reflexivity).
  destruct (attachPeer_spec demo_coordinator "sbi_1" SideBootstrap 9%nat "b3" t1
    demo_peers_ok eq_refl Hreg) as (c' & Hrun & _ & _ & Ht & _).
  exists t1, c'. split; [exact Hrun|exact Ht].
Defined.

Lemma detachPeer_spec_witness :
  let b2 := mkTarget "sbi_1" SideBootstrap "node_a" "b2" in
  ∃ c', detachPeer (Socket := nat) b2 demo_coordinator = (inr tt, c') ∧
    isCurrentPeer c' b2 = false ∧
    c'.(relayTransport).(socket_calls) =
      [SocketClose 1 1012 "Replaced by newer sandbox tunnel connection.";
       SocketClose 2 1012 "Sandbox tunnel peer disconnected.";
       SocketClose 3 1012 "Sandbox tunnel peer disconnected."].
Proof.
  intros b2.
  destruct (detachPeer_spec (Socket := nat)
    demo_coordinator b2 demo_peers_ok eq_refl) as (c' & notified & Hrun & _ & _ & _ & _ & _ & Hcur).
  exists c'. split; [exact Hrun|]. split.
  - rewrite Hcur by reflexivity. by rewrite (bool_decide_true (b2 = b2)), andb_false_r.
  - replace c' with (detachPeer (Socket := nat) b2 demo_coordinator).2
      by (by rewrite Hrun).
    reflexivity.
Defined.

Lemma reattach_same_session_closes_new_socket_witness :
  (attachPeer (Socket := nat)
     "sbi_1" SidePtyClient 9%nat "p1" demo_coordinator).2.(relayTransport).(socket_calls) =
  demo_coordinator.(relayTransport).(socket_calls)
  ++ [SocketClose 9 1012 "Replaced by newer sandbox tunnel connection."].
Proof.
  apply (reattach_same_session_closes_new_socket (λ _, true) demo_coordinator);
    [reflexivity|exact demo_peers_ok|reflexivity..].
Defined.
