(* ===== verification/TtlTable.v ===== *)
(** * Tables of records that expire

    The in-memory runtime-state stores keep records with an expiry time under a
    sandbox id, some of them in a nested [Map], and drop expired records only
    when they come across them.  This file holds what the stores share: the
    nested map, the pruning loop, and the relation [tracks] between such a table
    and an ideal one that never drops anything, which is blind to expired
    records. *)

From S2P Require Import Prelude JsMap.
Local Open Scope Z_scope.

Section Ttl.
Context {V : Type} (expires : V → Z).

(** A record seen at time [t]. *)
Definition live (t : Z) (o : option V) : option V :=
  match o with
  | Some v => if expires v <=? t then None else Some v
  | None => None
  end.

Lemma live_later t t' o : t ≤ t' → live t' (live t o) = live t' o.
Proof.
  intros Ht. destruct o as [v|]; [|done]. simpl.
  destruct (Z.leb_spec (expires v) t); simpl; [|done].
  destruct (Z.leb_spec (expires v) t'); [done|lia].
Qed.

Lemma live_congr t t' o o' : t ≤ t' → live t o = live t o' → live t' o = live t' o'.
Proof. intros Ht Heq. rewrite <-(live_later t t' o), <-(live_later t t' o') by done. by rewrite Heq. Qed.

Lemma live_Some t o v : live t o = Some v ↔ o = Some v ∧ t < expires v.
Proof.
  destruct o as [v'|]; simpl; [|naive_solver].
  destruct (Z.leb_spec (expires v') t); naive_solver lia.
Qed.

(** ** Flat tables *)

Definition tracks_flat (t : Z) (m : JsMap.t string V) (a : string → option V) : Prop :=
  ∀ id, live t (JsMap.get m id) = live t (a id).

Definition put (a : string → option V) (id : string) (o : option V) : string → option V :=
  λ id', if decide (id = id') then o else a id'.

Lemma tracks_flat_later t t' m a : t ≤ t' → tracks_flat t m a → tracks_flat t' m a.
Proof. intros Ht Hm id. by eapply live_congr. Qed.

Lemma tracks_flat_set t m a id v :
  tracks_flat t m a → tracks_flat t (JsMap.set m id v) (put a id (Some v)).
Proof. intros Hm id'. rewrite JsMap.get_set. unfold put. by case_decide. Qed.

Lemma tracks_flat_delete t m a id :
  tracks_flat t m a → tracks_flat t (JsMap.delete m id) (put a id None).
Proof. intros Hm id'. rewrite JsMap.get_delete. unfold put. by case_decide. Qed.

(** [if (record.expiresAtMs <= nowMs) map.delete(id)] *)
Definition expire_flat (m : JsMap.t string V) (id : string) (now : Z) : JsMap.t string V :=
  match JsMap.get m id with
  | None => m
  | Some v => if expires v <=? now then JsMap.delete m id else m
  end.

Lemma get_expire_flat m id now id' :
  JsMap.get (expire_flat m id now) id' =
    if decide (id = id') then live now (JsMap.get m id') else JsMap.get m id'.
Proof.
  unfold expire_flat. case_decide as Hid; [subst id'|].
  - destruct (JsMap.get m id) as [v|] eqn:Hv; [|done]. simpl.
    destruct (Z.leb_spec (expires v) now); [apply JsMap.get_delete_eq|done].
  - destruct (JsMap.get m id) as [v|]; [|done].
    destruct (_ <=? now); [by apply JsMap.get_delete_ne|done].
Qed.

Lemma tracks_flat_expire t m a id now :
  t ≤ now → tracks_flat t m a → tracks_flat now (expire_flat m id now) a.
Proof.
  intros Ht Hm id'. rewrite get_expire_flat. case_decide.
  - rewrite live_later by lia. by apply (tracks_flat_later t now m a).
  - by apply (tracks_flat_later t now m a).
Qed.

(** ** Nested tables *)

Definition nested : Type := JsMap.t string (JsMap.t string V).

Definition nested_get (m : nested) (id key : string) : option V :=
  JsMap.get m id ≫= λ inner, JsMap.get inner key.

(** [for (const [key, record] of inner.entries()) if (record.expiresAtMs <= nowMs)
    inner.delete(key)], and the inner map goes when it is empty. *)
Definition prune (m : nested) (id : string) (now : Z) : nested :=
  match JsMap.get m id with
  | None => m
  | Some inner =>
      let inner := JsMap.delete_where (λ _ v, expires v <=? now) inner in
      if (JsMap.size inner =? 0)%nat then JsMap.delete m id else JsMap.set m id inner
  end.

(** Every key once, and no empty inner map is left behind. *)
Definition nested_ok (m : nested) : Prop :=
  JsMap.wf m ∧
  ∀ id inner, JsMap.get m id = Some inner → JsMap.wf inner ∧ JsMap.size inner ≠ 0%nat.

Definition put2 (a : string → string → option V) (id key : string) (o : option V)
    : string → string → option V :=
  λ id' key', if decide (id = id' ∧ key = key') then o else a id' key'.

Definition tracks (t : Z) (m : nested) (a : string → string → option V) : Prop :=
  nested_ok m ∧ ∀ id key, live t (nested_get m id key) = live t (a id key).

Lemma tracks_empty t : tracks t JsMap.empty (λ _ _, None).
Proof. split; [split; [apply JsMap.wf_empty|done]|done]. Qed.

Lemma tracks_later t t' m a : t ≤ t' → tracks t m a → tracks t' m a.
Proof. intros Ht [Hok Hm]. split; [done|]. intros id key. by eapply live_congr. Qed.

Lemma nested_get_prune m id now id' key :
  nested_ok m →
  nested_get (prune m id now) id' key =
    if decide (id = id') then live now (nested_get m id' key) else nested_get m id' key.
Proof.
  intros [_ Hinner]. unfold prune, nested_get.
  destruct (JsMap.get m id) as [inner|] eqn:Hm; cycle 1.
  { case_decide; [|done]. subst id'. by rewrite Hm. }
  destruct (Hinner _ _ Hm) as [Hwf _].
  assert (∀ k, JsMap.get (JsMap.delete_where (λ _ v, expires v <=? now) inner) k =
               live now (JsMap.get inner k)) as Hget.
  { intros k. rewrite JsMap.get_delete_where by done. done. }
  destruct (JsMap.size _ =? 0)%nat eqn:Hsize.
  - apply Nat.eqb_eq in Hsize. rewrite JsMap.size_zero in Hsize. rewrite JsMap.get_delete.
    case_decide; [subst id'|done]. rewrite Hm. simpl. by rewrite <-Hget, Hsize.
  - rewrite JsMap.get_set. case_decide; [subst id'|done]. rewrite Hm. simpl. apply Hget.
Qed.

Lemma nested_ok_prune m id now : nested_ok m → nested_ok (prune m id now).
Proof.
  intros [Hwf Hinner]. unfold prune. destruct (JsMap.get m id) as [inner|] eqn:Hm; [|done].
  destruct (JsMap.size _ =? 0)%nat eqn:Hsize.
  - split; [by apply JsMap.wf_delete|]. intros id' inner'. rewrite JsMap.get_delete.
    case_decide; [done|apply Hinner].
  - split; [by apply JsMap.wf_set|]. intros id' inner'. rewrite JsMap.get_set.
    case_decide; [|apply Hinner]. intros [= <-]. apply Nat.eqb_neq in Hsize.
    split; [|done]. apply JsMap.wf_delete_where, (Hinner _ _ Hm).
Qed.

Lemma tracks_prune t m a id now :
  t ≤ now → tracks t m a → tracks now (prune m id now) a.
Proof.
  intros Ht Hm. pose proof (tracks_later _ _ _ _ Ht Hm) as [_ Hnow]. destruct Hm as [Hok _].
  split; [by apply nested_ok_prune|]. intros id' key. rewrite nested_get_prune by done.
  case_decide; [|done]. by rewrite live_later.
Qed.

(** After a pruning at [now], what is in the map of [id] is what is live at [now]. *)
Lemma nested_get_pruned t m a id now key :
  t ≤ now → tracks t m a → nested_get (prune m id now) id key = live now (a id key).
Proof.
  intros Ht Hm. pose proof (tracks_later _ _ _ _ Ht Hm) as [Hok Hnow].
  rewrite nested_get_prune, decide_True by done. apply Hnow.
Qed.

(** [inner.set(key, v)] on the map of [id], made when it is missing. *)
Definition nested_set (m : nested) (id key : string) (v : V) : nested :=
  JsMap.set m id (JsMap.set (default JsMap.empty (JsMap.get m id)) key v).

Lemma nested_get_set m id key v id' key' :
  nested_get (nested_set m id key v) id' key' =
    if decide (id = id' ∧ key = key') then Some v else nested_get m id' key'.
Proof.
  unfold nested_set, nested_get. rewrite JsMap.get_set.
  destruct (decide (id = id')) as [->|Hid]; simpl; [|by rewrite decide_False by tauto].
  rewrite JsMap.get_set. destruct (decide (key = key')) as [->|Hkey].
  - by rewrite decide_True.
  - rewrite (decide_False (P := id' = id' ∧ _)) by tauto. by destruct (JsMap.get m id').
Qed.

Lemma nested_ok_set m id key v : nested_ok m → nested_ok (nested_set m id key v).
Proof.
  intros [Hwf Hinner]. split; [by apply JsMap.wf_set|]. intros id' inner. unfold nested_set.
  rewrite JsMap.get_set. case_decide; [|apply Hinner]. intros [= <-]. split.
  - apply JsMap.wf_set. destruct (JsMap.get m id) as [inner|] eqn:Hm; simpl.
    + apply (Hinner _ _ Hm).
    + apply JsMap.wf_empty.
  - rewrite JsMap.size_zero. intros Hnone. specialize (Hnone key).
    by rewrite JsMap.get_set_eq in Hnone.
Qed.

Lemma tracks_set t m a id key v :
  tracks t m a → tracks t (nested_set m id key v) (put2 a id key (Some v)).
Proof.
  intros [Hok Hm]. split; [by apply nested_ok_set|]. intros id' key'.
  rewrite nested_get_set. unfold put2. by case_decide.
Qed.

(** [inner.delete(key)] on the map of [id], which goes when it is empty. *)
Definition nested_delete (m : nested) (id key : string) : nested :=
  match JsMap.get m id with
  | None => m
  | Some inner =>
      let inner := JsMap.delete inner key in
      if (JsMap.size inner =? 0)%nat then JsMap.delete m id else JsMap.set m id inner
  end.

Lemma nested_get_delete m id key id' key' :
  nested_get (nested_delete m id key) id' key' =
    if decide (id = id' ∧ key = key') then None else nested_get m id' key'.
Proof.
  unfold nested_delete, nested_get. destruct (JsMap.get m id) as [inner|] eqn:Hm; cycle 1.
  { case_decide as Hk; [|done]. destruct Hk as [<- <-]. by rewrite Hm. }
  destruct (JsMap.size _ =? 0)%nat eqn:Hsize.
  - apply Nat.eqb_eq in Hsize. rewrite JsMap.size_zero in Hsize. specialize (Hsize key').
    rewrite JsMap.get_delete. destruct (decide (id = id')) as [<-|].
    + rewrite Hm. simpl. rewrite JsMap.get_delete in Hsize.
      destruct (decide (key = key')); [by rewrite decide_True|].
      by rewrite decide_False by tauto.
    + by rewrite decide_False by tauto.
  - rewrite JsMap.get_set. destruct (decide (id = id')) as [<-|]; simpl.
    + rewrite Hm. simpl. rewrite JsMap.get_delete. destruct (decide (key = key')).
      * by rewrite decide_True.
      * by rewrite decide_False by tauto.
    + by rewrite decide_False by tauto.
Qed.

Lemma nested_ok_delete m id key : nested_ok m → nested_ok (nested_delete m id key).
Proof.
  intros [Hwf Hinner]. unfold nested_delete.
  destruct (JsMap.get m id) as [inner|] eqn:Hm; [|done].
  destruct (JsMap.size _ =? 0)%nat eqn:Hsize.
  - split; [by apply JsMap.wf_delete|]. intros id' inner'. rewrite JsMap.get_delete.
    case_decide; [done|apply Hinner].
  - split; [by apply JsMap.wf_set|]. intros id' inner'. rewrite JsMap.get_set.
    case_decide; [|apply Hinner]. intros [= <-]. apply Nat.eqb_neq in Hsize.
    split; [|done]. apply JsMap.wf_delete, (Hinner _ _ Hm).
Qed.

Lemma tracks_delete t m a id key :
  tracks t m a → tracks t (nested_delete m id key) (put2 a id key None).
Proof.
  intros [Hok Hm]. split; [by apply nested_ok_delete|]. intros id' key'.
  rewrite nested_get_delete. unfold put2. by case_decide.
Qed.

(** The number of records in the map of [id]. *)
Definition inner_size (m : nested) (id : string) : nat :=
  match JsMap.get m id with Some inner => JsMap.size inner | None => 0 end.

Lemma inner_size_pruned t m a id now :
  t ≤ now → tracks t m a →
  ∃ keys, NoDup keys ∧ length keys = inner_size (prune m id now) id ∧
    ∀ key, key ∈ keys ↔ is_Some (live now (a id key)).
Proof.
  intros Ht Hm. pose proof (λ key, nested_get_pruned _ _ _ id now key Ht Hm) as Hget.
  assert (nested_ok (prune m id now)) as [_ Hok] by (apply nested_ok_prune; by destruct Hm).
  unfold inner_size. unfold nested_get in Hget.
  destruct (JsMap.get (prune m id now) id) as [inner|] eqn:Hinner.
  - exists (JsMap.keys inner). destruct (Hok _ _ Hinner) as [Hwf _]. split; [done|split].
    + unfold JsMap.keys. by rewrite length_fmap.
    + intros key. rewrite JsMap.elem_of_keys, <-Hget. done.
  - exists []. split; [apply NoDup_nil_2|split; [done|]]. intros key.
    rewrite <-Hget. simpl. rewrite elem_of_nil. split; [done|by intros []].
Qed.

Lemma inner_size_positive t m a id now :
  t ≤ now → tracks t m a →
  (0 <? inner_size (prune m id now) id)%nat = true ↔ ∃ key, is_Some (live now (a id key)).
Proof.
  intros Ht Hm. destruct (inner_size_pruned _ _ _ id now Ht Hm) as (keys & _ & <- & Hkeys).
  rewrite Nat.ltb_lt. split.
  - destruct keys as [|key keys]; simpl; [lia|]. intros _. exists key. apply Hkeys. left.
  - intros [key Hkey]. apply Hkeys in Hkey. destruct keys; simpl; [by apply elem_of_nil in Hkey|lia].
Qed.
End Ttl.

Arguments nested : clear implicits.
