(* ===== verification/RuntimeState.v ===== *)
(** * Gateway runtime state (runtime-state/, tunnel/ownership/)

    The in-memory stores of the gateway and what reads them:
    - [KeepaliveStore]: adapters/in-memory-sandbox-keepalive-store.ts;
    - [PresenceStore]: adapters/in-memory-sandbox-presence-store.ts;
    - [AttachmentStore]: adapters/in-memory-sandbox-runtime-attachment-store.ts,
      which is also the active session store of active-bootstrap-session-store.ts;
    - [ReadinessStore]: adapters/in-memory-sandbox-runtime-readiness-store.ts;
    - [resolveOwner]: ownership/attachment-backed-sandbox-owner-resolver.ts;
    - the two control-message repositories (tunnel/sandbox-keepalive-repository.ts,
      tunnel/sandbox-runtime-readiness-repository.ts) over
      deadlines/sandbox-instance-deadline-service.ts, whose calls on the data
      plane are recorded in order.

    [nowMs] and [clock] are milliseconds; [clock] is [this.clock.nowMs()] at the
    time of the call.  Log calls are left out: they read the state only. *)

From S2P Require Import Prelude JsMap TtlTable.
Local Open Scope Z_scope.

(** ** durations.ts *)

Definition OWNER_LEASE_RENEW_INTERVAL_MS : Z := 10000.
Definition OWNER_LEASE_TTL_MS : Z := 30000.
Definition ATTACHMENT_TTL_MS : Z := 30000.
Definition IDLE_TIMEOUT_MS : Z := 300000.
Definition BOOTSTRAP_DISCONNECT_GRACE_MS : Z := 60000.
Definition PRESENCE_LEASE_RENEW_INTERVAL_MS : Z := 10000.
Definition PRESENCE_LEASE_TTL_MS : Z := 30000.
Definition ACTIVITY_LEASE_RENEW_INTERVAL_MS : Z := 10000.
Definition ACTIVITY_LEASE_TTL_MS : Z := 30000.

(** A call on a store: it takes effect on [s], or fails. *)
Definition store_call {E S A} (failure : option E) (op : S → A * S) (s : S) : (E + A) * S :=
  match failure with
  | Some e => (inl e, s)
  | None => let (a, s) := op s in (inr a, s)
  end.

(** ** Keepalives *)

(** A value the code carries and never looks at, by its text. *)
Record Unknown : Type := mkUnknown { unknown_text : string }.

Record InMemoryKeepaliveRecord : Type := mkKeepalive {
  keepalive_sandboxInstanceId : string;
  keepalive_keepaliveId : string;
  keepalive_source : string;
  keepalive_externalSubjectId : option string;
  keepalive_metadata : option Unknown;
  keepalive_nodeId : string;
  keepalive_expiresAtMs : Z;
}.

Record InMemoryKeepaliveState : Type := mkKeepaliveState {
  state_sandboxInstanceId : string;
  state_ownerLeaseId : string;
  state_nodeId : string;
  state_active : bool;
  state_expiresAtMs : Z;
}.

Record KeepaliveStore : Type := mkKeepaliveStore {
  keepalivesBySandboxInstanceId : nested InMemoryKeepaliveRecord;
  stateBySandboxInstanceId : JsMap.t string InMemoryKeepaliveState;
}.

Definition touchKeepalive (id keepaliveId source : string) (externalSubjectId : option string)
    (metadata : option Unknown) (nodeId : string) (ttlMs nowMs : Z) (s : KeepaliveStore)
    : KeepaliveStore :=
  let expiresAtMs := nowMs + ttlMs in
  mkKeepaliveStore
    (nested_set s.(keepalivesBySandboxInstanceId) id keepaliveId
       (mkKeepalive id keepaliveId source externalSubjectId metadata nodeId
          expiresAtMs))
    s.(stateBySandboxInstanceId).

Definition keepalive_replaceStateForOwner (id ownerLeaseId nodeId : string) (ttlMs nowMs : Z)
    (active : bool) (s : KeepaliveStore) : KeepaliveStore :=
  let expiresAtMs := nowMs + ttlMs in
  mkKeepaliveStore s.(keepalivesBySandboxInstanceId)
    (JsMap.set s.(stateBySandboxInstanceId) id
       (mkKeepaliveState id ownerLeaseId nodeId active expiresAtMs)).

Definition pruneExpiredKeepalives (id : string) (nowMs : Z) (s : KeepaliveStore)
    : KeepaliveStore :=
  mkKeepaliveStore (prune keepalive_expiresAtMs s.(keepalivesBySandboxInstanceId) id nowMs)
    s.(stateBySandboxInstanceId).

Definition pruneExpiredState (id : string) (nowMs : Z) (s : KeepaliveStore) : KeepaliveStore :=
  mkKeepaliveStore s.(keepalivesBySandboxInstanceId)
    (expire_flat state_expiresAtMs s.(stateBySandboxInstanceId) id nowMs).

Definition renewKeepalive (id keepaliveId : string) (ttlMs nowMs clock : Z) (s : KeepaliveStore)
    : bool * KeepaliveStore :=
  let s := pruneExpiredKeepalives id clock s in
  match nested_get s.(keepalivesBySandboxInstanceId) id keepaliveId with
  | None => (false, s)
  | Some currentKeepalive =>
      (true,
       mkKeepaliveStore
         (nested_set s.(keepalivesBySandboxInstanceId) id keepaliveId
            (mkKeepalive currentKeepalive.(keepalive_sandboxInstanceId)
               currentKeepalive.(keepalive_keepaliveId) currentKeepalive.(keepalive_source)
               currentKeepalive.(keepalive_externalSubjectId)
               currentKeepalive.(keepalive_metadata)
               currentKeepalive.(keepalive_nodeId) (nowMs + ttlMs)))
         s.(stateBySandboxInstanceId))
  end.

Definition releaseKeepalive (id keepaliveId : string) (clock : Z) (s : KeepaliveStore)
    : bool * KeepaliveStore :=
  let s := pruneExpiredKeepalives id clock s in
  match JsMap.get s.(keepalivesBySandboxInstanceId) id with
  | None => (false, s)
  | Some currentKeepalives =>
      let didDelete := JsMap.has currentKeepalives keepaliveId in
      (didDelete,
       mkKeepaliveStore (nested_delete s.(keepalivesBySandboxInstanceId) id keepaliveId)
         s.(stateBySandboxInstanceId))
  end.

Definition keepalive_summarize (id : string) (nowMs : Z) (ownerLeaseId : option string)
    (s : KeepaliveStore) : bool * KeepaliveStore :=
  let s := pruneExpiredState id nowMs (pruneExpiredKeepalives id nowMs s) in
  let currentState := JsMap.get s.(stateBySandboxInstanceId) id in
  ((0 <? inner_size s.(keepalivesBySandboxInstanceId) id)%nat
   || match ownerLeaseId, currentState with
      | Some owner, Some state => state.(state_active) && (state.(state_ownerLeaseId) =?= owner)
      | _, _ => false
      end, s).

(** ** Presence leases *)

Inductive SandboxPresenceLeaseSource : Type := Dashboard | Cli.

Record InMemoryPresenceLeaseRecord : Type := mkPresence {
  presence_sandboxInstanceId : string;
  presence_leaseId : string;
  presence_source : SandboxPresenceLeaseSource;
  presence_sessionId : string;
  presence_expiresAtMs : Z;
}.

Notation PresenceStore := (nested InMemoryPresenceLeaseRecord).

Definition touchLease (id leaseId : string) (source : SandboxPresenceLeaseSource)
    (sessionId : string) (ttlMs nowMs : Z) (s : PresenceStore) : PresenceStore :=
  let expiresAtMs := nowMs + ttlMs in
  nested_set s id leaseId (mkPresence id leaseId source sessionId expiresAtMs).

Definition pruneExpiredLeases (id : string) (nowMs : Z) (s : PresenceStore) : PresenceStore :=
  prune presence_expiresAtMs s id nowMs.

Definition releaseLease (id leaseId : string) (clock : Z) (s : PresenceStore)
    : bool * PresenceStore :=
  let s := pruneExpiredLeases id clock s in
  match JsMap.get s id with
  | None => (false, s)
  | Some currentLeases =>
      let didDelete := JsMap.has currentLeases leaseId in
      (didDelete, nested_delete s id leaseId)
  end.

Definition countActiveLeases (id : string) (nowMs : Z) (s : PresenceStore)
    : nat * PresenceStore :=
  let s := pruneExpiredLeases id nowMs s in (inner_size s id, s).

Definition hasAnyActiveLease (id : string) (nowMs : Z) (s : PresenceStore)
    : bool * PresenceStore :=
  let (n, s) := countActiveLeases id nowMs s in ((0 <? n)%nat, s).

(** ** Runtime attachments *)

Record RuntimeAttachment : Type := mkAttachment {
  attachment_sandboxInstanceId : string;
  attachment_ownerLeaseId : string;
  attachment_nodeId : string;
  attachment_sessionId : string;
  attachment_attachedAtMs : Z;
}.

Record InMemoryAttachmentRecord : Type := mkAttachmentRecord {
  record_attachment : RuntimeAttachment;
  record_expiresAtMs : Z;
}.

Notation AttachmentStore := (JsMap.t string InMemoryAttachmentRecord).

Definition upsertAttachment (input : RuntimeAttachment) (ttlMs nowMs : Z) (s : AttachmentStore)
    : AttachmentStore :=
  JsMap.set s input.(attachment_sandboxInstanceId) (mkAttachmentRecord input (nowMs + ttlMs)).

Definition getAttachment (id : string) (nowMs : Z) (s : AttachmentStore)
    : option RuntimeAttachment * AttachmentStore :=
  match JsMap.get s id with
  | None => (None, s)
  | Some currentRecord =>
      if nowMs <? currentRecord.(record_expiresAtMs)
      then (Some currentRecord.(record_attachment), s)
      else (None, JsMap.delete s id)
  end.

Definition clearAttachment (id ownerLeaseId : string) (clock : Z) (s : AttachmentStore)
    : bool * AttachmentStore :=
  let (currentRecord, s) := getAttachment id clock s in
  match currentRecord with
  | None => (false, s)
  | Some currentRecord =>
      if negb (currentRecord.(attachment_ownerLeaseId) =?= ownerLeaseId) then (false, s)
      else (true, JsMap.delete s id)
  end.

(** active-bootstrap-session-store.ts: the active session is the attachment. *)
Definition getActiveSession (id : string) (nowMs : Z) (s : AttachmentStore)
    : option RuntimeAttachment * AttachmentStore :=
  getAttachment id nowMs s.

(** ** Runtime readiness *)

Record InMemoryRuntimeReadinessState : Type := mkReadiness {
  readiness_sandboxInstanceId : string;
  readiness_ownerLeaseId : string;
  readiness_nodeId : string;
  readiness_ready : bool;
}.

Notation ReadinessStore := (JsMap.t string InMemoryRuntimeReadinessState).

Definition readiness_replaceStateForOwner (id ownerLeaseId nodeId : string) (ready : bool)
    (s : ReadinessStore) : ReadinessStore :=
  JsMap.set s id (mkReadiness id ownerLeaseId nodeId ready).

Definition readiness_summarize (id : string) (ownerLeaseId : option string) (s : ReadinessStore)
    : bool :=
  match ownerLeaseId with
  | None => false
  | Some owner =>
      match JsMap.get s id with
      | None => false
      | Some currentState =>
          if negb (currentState.(readiness_ownerLeaseId) =?= owner) then false
          else currentState.(readiness_ready)
      end
  end.

(** ** Ownership *)

Record SandboxOwner : Type := mkOwner {
  owner_sandboxInstanceId : string;
  owner_nodeId : string;
  owner_sessionId : string;
  owner_leaseId : string;
  owner_expiresAt : Z;
}.

Inductive SandboxOwnerResolution : Type :=
| OwnerMissing
| OwnerLocal (owner : SandboxOwner)
| OwnerRemote (owner : SandboxOwner).

Definition resolveOwner (nodeId id : string) (clock : Z) (s : AttachmentStore)
    : SandboxOwnerResolution * AttachmentStore :=
  let (activeSession, s) := getActiveSession id clock s in
  match activeSession with
  | None => (OwnerMissing, s)
  | Some activeSession =>
      let owner := mkOwner activeSession.(attachment_sandboxInstanceId)
                     activeSession.(attachment_nodeId) activeSession.(attachment_sessionId)
                     activeSession.(attachment_ownerLeaseId)
                     activeSession.(attachment_attachedAtMs) in
      if owner.(owner_nodeId) =?= nodeId then (OwnerLocal owner, s) else (OwnerRemote owner, s)
  end.

(** ** Keepalives against a store that never drops anything

    The specification keeps every record for ever and asks for the live ones. *)

Definition with_expiry (k : InMemoryKeepaliveRecord) (expiresAtMs : Z) : InMemoryKeepaliveRecord :=
  mkKeepalive k.(keepalive_sandboxInstanceId) k.(keepalive_keepaliveId) k.(keepalive_source)
    k.(keepalive_externalSubjectId) k.(keepalive_metadata) k.(keepalive_nodeId) expiresAtMs.

Inductive keepalive_op : Type :=
| KTouch (id keepaliveId source : string) (externalSubjectId : option string)
    (metadata : option Unknown) (nodeId : string) (ttlMs nowMs : Z)
| KReplace (id ownerLeaseId nodeId : string) (ttlMs nowMs : Z) (active : bool)
| KRenew (id keepaliveId : string) (ttlMs nowMs clock : Z)
| KRelease (id keepaliveId : string) (clock : Z)
| KSummarize (id : string) (nowMs : Z) (ownerLeaseId : option string).

Definition keepalive_apply (op : keepalive_op) (s : KeepaliveStore)
    : option bool * KeepaliveStore :=
  match op with
  | KTouch id k src ext meta node ttl now => (None, touchKeepalive id k src ext meta node ttl now s)
  | KReplace id owner node ttl now active =>
      (None, keepalive_replaceStateForOwner id owner node ttl now active s)
  | KRenew id k ttl now clock =>
      let (b, s) := renewKeepalive id k ttl now clock s in (Some b, s)
  | KRelease id k clock => let (b, s) := releaseKeepalive id k clock s in (Some b, s)
  | KSummarize id now owner => let (b, s) := keepalive_summarize id now owner s in (Some b, s)
  end.

Fixpoint keepalive_run (ops : list keepalive_op) (s : KeepaliveStore) : list (option bool) :=
  match ops with
  | [] => []
  | op :: ops => let (r, s) := keepalive_apply op s in r :: keepalive_run ops s
  end.

Record KeepaliveSpec : Type := mkKeepaliveSpec {
  spec_keepalives : string → string → option InMemoryKeepaliveRecord;
  spec_states : string → option InMemoryKeepaliveState;
}.

Notation live_keepalive := (live keepalive_expiresAtMs).
Notation live_state := (live state_expiresAtMs).

(** What the store is for: a sandbox is kept alive at [now] when a keepalive is
    live, or when its current owner said so and that is still fresh. *)
Definition kept_alive (a : KeepaliveSpec) (id : string) (now : Z) (owner : option string) : Prop :=
  (∃ k, is_Some (live_keepalive now (a.(spec_keepalives) id k))) ∨
  (∃ state, live_state now (a.(spec_states) id) = Some state ∧
            state.(state_active) = true ∧ owner = Some state.(state_ownerLeaseId)).

Inductive keepalive_spec_step (a : KeepaliveSpec)
    : keepalive_op → option bool → KeepaliveSpec → Prop :=
| spec_touch id k src ext meta node ttl now :
    keepalive_spec_step a (KTouch id k src ext meta node ttl now) None
      (mkKeepaliveSpec (put2 a.(spec_keepalives) id k
         (Some (mkKeepalive id k src ext meta node (now + ttl)))) a.(spec_states))
| spec_replace id owner node ttl now active :
    keepalive_spec_step a (KReplace id owner node ttl now active) None
      (mkKeepaliveSpec a.(spec_keepalives)
         (put a.(spec_states) id (Some (mkKeepaliveState id owner node active (now + ttl)))))
| spec_renew_live id k ttl now clock r :
    live_keepalive clock (a.(spec_keepalives) id k) = Some r →
    keepalive_spec_step a (KRenew id k ttl now clock) (Some true)
      (mkKeepaliveSpec (put2 a.(spec_keepalives) id k (Some (with_expiry r (now + ttl))))
         a.(spec_states))
| spec_renew_gone id k ttl now clock :
    live_keepalive clock (a.(spec_keepalives) id k) = None →
    keepalive_spec_step a (KRenew id k ttl now clock) (Some false) a
| spec_release id k clock b :
    (b = true ↔ is_Some (live_keepalive clock (a.(spec_keepalives) id k))) →
    keepalive_spec_step a (KRelease id k clock) (Some b)
      (mkKeepaliveSpec (put2 a.(spec_keepalives) id k None) a.(spec_states))
| spec_summarize id now owner b :
    (b = true ↔ kept_alive a id now owner) →
    keepalive_spec_step a (KSummarize id now owner) (Some b) a.

Inductive keepalive_spec_run : KeepaliveSpec → list keepalive_op → list (option bool) → Prop :=
| spec_run_nil a : keepalive_spec_run a [] []
| spec_run_cons a op r a' ops rs :
    keepalive_spec_step a op r a' → keepalive_spec_run a' ops rs →
    keepalive_spec_run a (op :: ops) (r :: rs).

(** The time an operation prunes at; a history's times do not go back. *)
Definition prune_time (op : keepalive_op) : option Z :=
  match op with
  | KTouch _ _ _ _ _ _ _ _ | KReplace _ _ _ _ _ _ => None
  | KRenew _ _ _ _ clock | KRelease _ _ clock => Some clock
  | KSummarize _ now _ => Some now
  end.

Fixpoint times_ok {A} (time : A → option Z) (t : Z) (ops : list A) : Prop :=
  match ops with
  | [] => True
  | op :: ops => t ≤ default t (time op) ∧ times_ok time (default t (time op)) ops
  end.

Definition keepalive_tracks (t : Z) (s : KeepaliveStore) (a : KeepaliveSpec) : Prop :=
  tracks keepalive_expiresAtMs t s.(keepalivesBySandboxInstanceId) a.(spec_keepalives) ∧
  tracks_flat state_expiresAtMs t s.(stateBySandboxInstanceId) a.(spec_states).

Lemma nested_has {V} (m : nested V) id key inner :
  JsMap.get m id = Some inner → JsMap.has inner key = true ↔ is_Some (nested_get m id key).
Proof. intros Hm. rewrite JsMap.has_spec. unfold nested_get. by rewrite Hm. Qed.

(** Releasing a record: the answer, and the table after it. *)
Lemma release_tracks {V} (expires : V → Z) t (m : nested V) a id key clock :
  t ≤ clock → tracks expires t m a →
  let m' := prune expires m id clock in
  tracks expires clock (nested_delete m' id key) (put2 a id key None) ∧
  (match JsMap.get m' id with Some inner => JsMap.has inner key | None => false end = true
   ↔ is_Some (live expires clock (a id key))).
Proof.
  intros Ht Hm m'. split; [by apply tracks_delete, (tracks_prune _ t)|].
  rewrite <-(nested_get_pruned expires t m a id clock key Ht Hm). fold m'.
  destruct (JsMap.get m' id) as [inner|] eqn:Hin; [by apply nested_has|].
  unfold nested_get. rewrite Hin. split; [done|by intros []].
Qed.

Lemma keepalive_step_tracks t s a op :
  t ≤ default t (prune_time op) → keepalive_tracks t s a →
  let (r, s') := keepalive_apply op s in
  ∃ a', keepalive_spec_step a op r a' ∧ keepalive_tracks (default t (prune_time op)) s' a'.
Proof.
  intros Ht [Hk Hs]. destruct op as [id k src ext meta node ttl now|id owner node ttl now active|
    id k ttl now clock|id k clock|id now owner]; simpl in Ht |- *.
  - eexists. split; [apply spec_touch|]. split; [by apply tracks_set|done].
  - eexists. split; [apply spec_replace|]. split; [done|by apply tracks_flat_set].
  - unfold renewKeepalive. simpl.
    pose proof (tracks_prune keepalive_expiresAtMs t _ _ id clock Ht Hk) as Hk'.
    pose proof (tracks_flat_later state_expiresAtMs t clock _ _ Ht Hs) as Hs'.
    rewrite (nested_get_pruned keepalive_expiresAtMs t _ _ id clock k Ht Hk).
    destruct (live_keepalive clock _) as [r|] eqn:Hr.
    + eexists. split; [by apply spec_renew_live|]. split; [by apply tracks_set|done].
    + eexists. split; [by apply spec_renew_gone|]. by split.
  - unfold releaseKeepalive. simpl.
    destruct (release_tracks keepalive_expiresAtMs t _ _ id k clock Ht Hk) as [Hk' Hb].
    pose proof (tracks_flat_later state_expiresAtMs t clock _ _ Ht Hs) as Hs'.
    unfold nested_delete in Hk'.
    destruct (JsMap.get (prune _ _ id clock) id) as [inner|] eqn:Hin; simpl.
    + eexists. split; [by apply spec_release|]. split; [|done]. unfold nested_delete. by rewrite Hin.
    + eexists. split; [by apply spec_release|]. by split.
  - unfold keepalive_summarize. simpl.
    pose proof (tracks_prune keepalive_expiresAtMs t _ _ id now Ht Hk) as Hk'.
    pose proof (tracks_flat_expire state_expiresAtMs t _ _ id now Ht Hs) as Hs'.
    eexists. split; [|by split]. apply spec_summarize. unfold kept_alive.
    rewrite orb_true_iff.
    rewrite (inner_size_positive keepalive_expiresAtMs t _ _ id now Ht Hk).
    rewrite get_expire_flat, decide_True by done.
    rewrite (tracks_flat_later state_expiresAtMs t now _ _ Ht Hs id).
    apply or_iff_compat_l. destruct owner as [owner|]; [|naive_solver].
    destruct (live_state now _) as [st|]; [|naive_solver].
    rewrite andb_true_iff, bool_decide_eq_true. naive_solver.
Qed.

(** The in-memory keepalive store answers every call as a store that never
    drops anything would, as long as its clock does not go back: dropping expired
    records, here and there, is never visible.  In particular [summarize] is true
    exactly when a keepalive is live or the given owner's own fresh report says
    active. *)
Theorem keepalive_history (ops : list keepalive_op) (t : Z) :
  times_ok prune_time t ops →
  keepalive_spec_run (mkKeepaliveSpec (λ _ _, None) (λ _, None)) ops
    (keepalive_run ops (mkKeepaliveStore JsMap.empty JsMap.empty)).
Proof.
  assert (∀ s a, keepalive_tracks t s a → times_ok prune_time t ops →
    keepalive_spec_run a ops (keepalive_run ops s)) as Hrun.
  { revert t. induction ops as [|op ops IH]; intros t s a Hs; simpl; [constructor|].
    intros [Ht Htimes]. pose proof (keepalive_step_tracks t s a op Ht Hs) as Hstep.
    destruct (keepalive_apply op s) as [r s']. destruct Hstep as (a' & Hstep & Hs').
    econstructor; [done|]. by eapply IH. }
  apply Hrun. split; [apply tracks_empty|done].
Qed.

Lemma keepalive_history_witness :
  let ops := [KTouch "sbi" "k1" "exec" None None "n" 100 0;
              KReplace "sbi" "lease_1" "n" 50 10 true;
              KSummarize "sbi" 40 (Some "lease_2");
              KRenew "sbi" "k1" 100 120 120;
              KSummarize "sbi" 150 (Some "lease_1")] in
  keepalive_run ops (mkKeepaliveStore JsMap.empty JsMap.empty) =
    [None; None; Some true; Some false; Some false] ∧
  keepalive_spec_run (mkKeepaliveSpec (λ _ _, None) (λ _, None)) ops
    (keepalive_run ops (mkKeepaliveStore JsMap.empty JsMap.empty)).
Proof.
  intros ops. split; [vm_compute; reflexivity|].
  apply (keepalive_history ops 0). unfold ops. simpl. lia.
Defined.

(** ** Presence, attachments and owners *)

Notation presence_tracks := (tracks presence_expiresAtMs).
Notation live_lease := (live presence_expiresAtMs).

(** Presence leases: touching makes the lease live until its expiry, releasing
    answers whether it was live and removes it, counting answers the number of
    live leases, and the pruning these calls do is invisible. *)
Theorem presence_spec (t now : Z) (s : PresenceStore)
    (a : string → string → option InMemoryPresenceLeaseRecord) :
  t ≤ now → presence_tracks t s a →
  (∀ id lease source session ttl,
    presence_tracks t (touchLease id lease source session ttl now s)
      (put2 a id lease (Some (mkPresence id lease source session (now + ttl))))) ∧
  (∀ id lease, let (released, s') := releaseLease id lease now s in
    presence_tracks now s' (put2 a id lease None) ∧
    (released = true ↔ is_Some (live_lease now (a id lease)))) ∧
  (∀ id, let (n, s') := countActiveLeases id now s in
    presence_tracks now s' a ∧
    ∃ leases, NoDup leases ∧ length leases = n ∧
      ∀ lease, lease ∈ leases ↔ is_Some (live_lease now (a id lease))) ∧
  (∀ id, (hasAnyActiveLease id now s).1 = true ↔ ∃ lease, is_Some (live_lease now (a id lease))).
Proof.
  intros Ht Hs. split_and!.
  - intros. by apply tracks_set.
  - intros id lease.
    destruct (release_tracks presence_expiresAtMs t s a id lease now Ht Hs) as [Hs' Hb].
    unfold releaseLease, pruneExpiredLeases. unfold nested_delete in *.
    by destruct (JsMap.get (prune _ _ id now) id) as [inner|] eqn:Hin.
  - intros id. unfold countActiveLeases, pruneExpiredLeases.
    split; [by apply (tracks_prune _ t)|]. by apply (inner_size_pruned _ t).
  - intros id. unfold hasAnyActiveLease, countActiveLeases, pruneExpiredLeases. cbn [fst].
    by apply (inner_size_positive _ t).
Qed.

Definition demo_presence : PresenceStore :=
  touchLease "sbi" "l2" Cli "s2" 100 50 (touchLease "sbi" "l1" Dashboard "s1" 30 40 JsMap.empty).

Lemma presence_spec_witness :
  (countActiveLeases "sbi" 60 demo_presence).1 = 2%nat ∧
  (countActiveLeases "sbi" 80 demo_presence).1 = 1%nat ∧
  ((hasAnyActiveLease "sbi" 80 demo_presence).1 = true ↔
   ∃ lease, is_Some (live_lease 80
     (put2 (put2 (λ _ _, None) "sbi" "l1" (Some (mkPresence "sbi" "l1" Dashboard "s1" 70)))
        "sbi" "l2" (Some (mkPresence "sbi" "l2" Cli "s2" 150)) "sbi" lease))).
Proof.
  split; [reflexivity|split; [reflexivity|]].
  refine (proj2 (proj2 (proj2 (presence_spec 0 80 demo_presence _ _ _))) "sbi"); [lia|].
  apply tracks_set, tracks_set, tracks_empty.
Defined.

Notation attachment_tracks := (tracks_flat record_expiresAtMs).
Notation live_attachment now a id := (record_attachment <$> live record_expiresAtMs now (a id)).

Lemma getAttachment_tracks t now (s : AttachmentStore) a id :
  t ≤ now → attachment_tracks t s a →
  let (r, s') := getAttachment id now s in
  r = live_attachment now a id ∧ attachment_tracks now s' a.
Proof.
  intros Ht Hs. rewrite <-(tracks_flat_later _ t now _ _ Ht Hs id). unfold getAttachment.
  pose proof (tracks_flat_expire record_expiresAtMs t s a id now Ht Hs) as Hexp.
  unfold expire_flat in Hexp. destruct (JsMap.get s id) as [r|] eqn:Hr; [|done]. simpl.
  destruct (Z.ltb_spec now r.(record_expiresAtMs)), (Z.leb_spec r.(record_expiresAtMs) now);
    simpl; [lia|done|done|lia].
Qed.

(** The attachment of a sandbox at [now] is the last one written, unless it
    has expired or its own owner cleared it: a clear by any other owner is
    refused and changes nothing.  Reading through [resolveOwner], every node
    sees the same owner, and only the owner's node sees it as local. *)
Theorem attachment_spec (t now : Z) (s : AttachmentStore) a :
  t ≤ now → attachment_tracks t s a →
  (∀ input ttl, attachment_tracks t (upsertAttachment input ttl now s)
    (put a input.(attachment_sandboxInstanceId) (Some (mkAttachmentRecord input (now + ttl))))) ∧
  (∀ id owner, let (cleared, s') := clearAttachment id owner now s in
    (cleared = true ↔ ∃ r, live_attachment now a id = Some r ∧ r.(attachment_ownerLeaseId) = owner) ∧
    attachment_tracks now s' (if cleared then put a id None else a)) ∧
  (∀ node id, let (resolution, s') := resolveOwner node id now s in
    attachment_tracks now s' a ∧
    match live_attachment now a id with
    | None => resolution = OwnerMissing
    | Some r =>
        let owner := mkOwner r.(attachment_sandboxInstanceId) r.(attachment_nodeId)
          r.(attachment_sessionId) r.(attachment_ownerLeaseId) r.(attachment_attachedAtMs) in
        resolution = if r.(attachment_nodeId) =?= node then OwnerLocal owner else OwnerRemote owner
    end).
Proof.
  intros Ht Hs. split_and!.
  - intros. by apply tracks_flat_set.
  - intros id owner. unfold clearAttachment.
    pose proof (getAttachment_tracks t now s a id Ht Hs) as Hget.
    destruct (getAttachment id now s) as [r s']. destruct Hget as [-> Hs'].
    destruct (live_attachment now a id) as [r|] eqn:Hr; [|naive_solver].
    case_bool_decide as Howner; simpl.
    + split; [naive_solver|]. by apply tracks_flat_delete.
    + split; [naive_solver|done].
  - intros node id. unfold resolveOwner, getActiveSession.
    pose proof (getAttachment_tracks t now s a id Ht Hs) as Hget.
    destruct (getAttachment id now s) as [r s']. destruct Hget as [-> Hs'].
    destruct (live_attachment now a id) as [r|]; [|by split].
    cbn [owner_nodeId]. by case_bool_decide.
Qed.

Definition demo_attachment (lease node : string) : RuntimeAttachment :=
  mkAttachment "sbi" lease node "session" 5.

Lemma attachment_spec_witness :
  let s := upsertAttachment (demo_attachment "lease_2" "node_b") 30 10 JsMap.empty in
  (clearAttachment "sbi" "lease_1" 20 s).1 = false ∧
  (resolveOwner "node_a" "sbi" 20 s).1 =
    OwnerRemote (mkOwner "sbi" "node_b" "session" "lease_2" 5).
Proof.
  intros s.
  assert (attachment_tracks 10 s (put (λ _, None) "sbi"
    (Some (mkAttachmentRecord (demo_attachment "lease_2" "node_b") 40)))) as Hs
    by (by apply tracks_flat_set).
  destruct (attachment_spec 10 20 s _ ltac:(lia) Hs) as (_ & _ & Howner).
  split; [reflexivity|]. specialize (Howner "node_a" "sbi").
  destruct (resolveOwner "node_a" "sbi" 20 s) as [r s']. exact (proj2 Howner).
Defined.

(** The in-memory write is not fenced: whatever is stored, also the attachment
    of a newer owner, a late write by an earlier owner replaces it. *)
Theorem upsertAttachment_unfenced (input : RuntimeAttachment) (ttl now : Z) (s : AttachmentStore) :
  0 < ttl →
  (getAttachment input.(attachment_sandboxInstanceId) now (upsertAttachment input ttl now s)).1 =
    Some input.
Proof.
  intros Httl. unfold getAttachment, upsertAttachment. rewrite JsMap.get_set_eq. simpl.
  destruct (Z.ltb_spec now (now + ttl)); [done|lia].
Qed.

Lemma upsertAttachment_unfenced_witness :
  let newer := upsertAttachment (demo_attachment "lease_2" "node_b") 30 10 JsMap.empty in
  (getAttachment "sbi" 12 newer).1 = Some (demo_attachment "lease_2" "node_b") ∧
  (getAttachment "sbi" 12 (upsertAttachment (demo_attachment "lease_1" "node_a") 30 12 newer)).1 =
    Some (demo_attachment "lease_1" "node_a").
Proof.
  intros newer. split; [reflexivity|].
  apply (upsertAttachment_unfenced (demo_attachment "lease_1" "node_a") 30 12 newer). lia.
Defined.

(** ** Deadlines and control messages

    deadlines/sandbox-instance-deadline-service.ts: every method makes one or more
    calls on the data plane, in order.  [respond] is what the data plane answers
    to a call: an error, or nothing. *)

Inductive DeadlineKind : Type := IdleDeadline | DisconnectDeadline.

Inductive DataPlaneCall : Type :=
| PutSandboxInstanceDeadline (id : string) (kind : DeadlineKind) (ownerLeaseId : string)
    (dueAtMs : Z) (testEnvironmentId : option string)
| DeleteSandboxInstanceDeadline (id : string) (kind : DeadlineKind) (ownerLeaseId : string)
    (testEnvironmentId : option string)
| ApplyBootstrapDetached (id ownerLeaseId : string) (testEnvironmentId : option string)
| ApplyBootstrapDegraded (id ownerLeaseId : string) (testEnvironmentId : option string)
| ApplyBootstrapRecovered (id ownerLeaseId : string) (testEnvironmentId : option string)
| ApplyRuntimeReadinessReported (id ownerLeaseId : string) (runtimeReady : bool)
    (testEnvironmentId : option string).

Record GatewayRuntime : Type := mkGatewayRuntime {
  rt_attachments : AttachmentStore;
  rt_keepalives : KeepaliveStore;
  rt_readiness : ReadinessStore;
  rt_calls : list DataPlaneCall;
}.

Section DeadlineService.
Context {E : Type} (respond : DataPlaneCall → option E).
Context (idleTimeoutMs bootstrapDisconnectGraceMs : Z).
Context (gatewayNodeId : string).
Notation RuntimeM := (M E GatewayRuntime).

Definition data_plane (call : DataPlaneCall) : RuntimeM unit := λ g,
  let g := mkGatewayRuntime g.(rt_attachments) g.(rt_keepalives) g.(rt_readiness)
             (g.(rt_calls) ++ [call]) in
  match respond call with
  | Some e => (inl e, g)
  | None => (inr tt, g)
  end.

Definition touchIdleDeadline (id ownerLeaseId : string) (env : option string) (clock : Z)
    : RuntimeM unit :=
  data_plane (PutSandboxInstanceDeadline id IdleDeadline ownerLeaseId (clock + idleTimeoutMs) env).

Definition clearIdleDeadline (id ownerLeaseId : string) (env : option string) : RuntimeM unit :=
  data_plane (DeleteSandboxInstanceDeadline id IdleDeadline ownerLeaseId env).

Definition handleBootstrapAttach (id ownerLeaseId : string) (env : option string) (clock : Z)
    : RuntimeM unit :=
  _ ← data_plane (ApplyBootstrapRecovered id ownerLeaseId env);
  _ ← data_plane (ApplyRuntimeReadinessReported id ownerLeaseId false env);
  touchIdleDeadline id ownerLeaseId env clock.

Definition handleBootstrapDisconnect (id ownerLeaseId : string) (env : option string) (clock : Z)
    : RuntimeM unit :=
  _ ← clearIdleDeadline id ownerLeaseId env;
  _ ← data_plane (ApplyBootstrapDetached id ownerLeaseId env);
  data_plane (PutSandboxInstanceDeadline id DisconnectDeadline ownerLeaseId
                (clock + bootstrapDisconnectGraceMs) env).

Definition handleBootstrapDegraded (id ownerLeaseId : string) (env : option string)
    : RuntimeM unit :=
  data_plane (ApplyBootstrapDegraded id ownerLeaseId env).

Definition handleBootstrapRecovered (id ownerLeaseId : string) (env : option string)
    : RuntimeM unit :=
  data_plane (ApplyBootstrapRecovered id ownerLeaseId env).

Definition handleRuntimeReadiness (id ownerLeaseId : string) (ready : bool)
    (env : option string) : RuntimeM unit :=
  data_plane (ApplyRuntimeReadinessReported id ownerLeaseId ready env).

(** [await this.activeBootstrapSessionStore.getActiveSession(...)] *)
Definition read_active_session (id : string) (nowMs : Z) : RuntimeM (option RuntimeAttachment) :=
  update (λ g,
    let (r, s) := getActiveSession id nowMs g.(rt_attachments) in
    (r, mkGatewayRuntime s g.(rt_keepalives) g.(rt_readiness) g.(rt_calls))).

(** [SandboxKeepaliveRepository.applyControlMessage]: [nowMs] is read first,
    [clock] when the deadline is touched. *)
Definition keepalive_applyControlMessage (active : bool) (ttlMs : Z) (id ownerLeaseId : string)
    (env : option string) (nowMs clock : Z) : RuntimeM unit :=
  activeSession ← read_active_session id nowMs;
  match activeSession with
  | None => mret tt
  | Some activeSession =>
      if negb (activeSession.(attachment_ownerLeaseId) =?= ownerLeaseId) then mret tt
      else
        _ ← modify (λ g,
          mkGatewayRuntime g.(rt_attachments)
            (keepalive_replaceStateForOwner id ownerLeaseId gatewayNodeId ttlMs nowMs active
               g.(rt_keepalives))
            g.(rt_readiness) g.(rt_calls));
        if negb active then mret tt
        else touchIdleDeadline id activeSession.(attachment_ownerLeaseId) env clock
  end.

(** [SandboxRuntimeReadinessRepository.applyControlMessage] *)
Definition readiness_applyControlMessage (ready : bool) (id ownerLeaseId : string)
    (env : option string) (nowMs : Z) : RuntimeM unit :=
  activeSession ← read_active_session id nowMs;
  match activeSession with
  | None => mret tt
  | Some activeSession =>
      if negb (activeSession.(attachment_ownerLeaseId) =?= ownerLeaseId) then mret tt
      else
        _ ← modify (λ g,
          mkGatewayRuntime g.(rt_attachments) g.(rt_keepalives)
            (readiness_replaceStateForOwner id ownerLeaseId gatewayNodeId ready g.(rt_readiness))
            g.(rt_calls));
        handleRuntimeReadiness id activeSession.(attachment_ownerLeaseId) ready env
  end.

(** The control messages of a bootstrap tunnel are fenced.  From a tunnel whose
    lease is not the sandbox's live attachment they change no keepalive or
    readiness state and make no call.  From the owner, the readiness the gateway
    then reports for that owner is what the message says (and for any other
    owner it is not ready), an active keepalive keeps the sandbox alive for its
    ttl, and the one call made is under the owner's lease. *)
Theorem control_messages_fenced (id ownerLeaseId : string) (env : option string) (t nowMs : Z)
    (g : GatewayRuntime) (a : string → option InMemoryAttachmentRecord) :
  t ≤ nowMs → attachment_tracks t g.(rt_attachments) a →
  let owns := ∃ r, live_attachment nowMs a id = Some r ∧ r.(attachment_ownerLeaseId) = ownerLeaseId in
  (¬ owns →
    (∀ ready, let (r, g') := readiness_applyControlMessage ready id ownerLeaseId env nowMs g in
      r = inr tt ∧ g'.(rt_readiness) = g.(rt_readiness) ∧
      g'.(rt_keepalives) = g.(rt_keepalives) ∧ g'.(rt_calls) = g.(rt_calls)) ∧
    (∀ active ttl clock,
      let (r, g') := keepalive_applyControlMessage active ttl id ownerLeaseId env nowMs clock g in
      r = inr tt ∧ g'.(rt_readiness) = g.(rt_readiness) ∧
      g'.(rt_keepalives) = g.(rt_keepalives) ∧ g'.(rt_calls) = g.(rt_calls))) ∧
  (owns →
    (∀ ready, let (_, g') := readiness_applyControlMessage ready id ownerLeaseId env nowMs g in
      (∀ owner, readiness_summarize id owner g'.(rt_readiness) =
        ready && bool_decide (owner = Some ownerLeaseId)) ∧
      g'.(rt_keepalives) = g.(rt_keepalives) ∧
      g'.(rt_calls) = g.(rt_calls) ++ [ApplyRuntimeReadinessReported id ownerLeaseId ready env]) ∧
    (∀ active ttl clock,
      let (_, g') := keepalive_applyControlMessage active ttl id ownerLeaseId env nowMs clock g in
      g'.(rt_readiness) = g.(rt_readiness) ∧
      g'.(rt_calls) = g.(rt_calls) ++
        (if active then [PutSandboxInstanceDeadline id IdleDeadline ownerLeaseId
                           (clock + idleTimeoutMs) env] else []) ∧
      (active = true → ∀ now', now' < nowMs + ttl →
        (keepalive_summarize id now' (Some ownerLeaseId) g'.(rt_keepalives)).1 = true))).
Proof.
  intros Ht Hs owns.
  pose proof (getAttachment_tracks t nowMs g.(rt_attachments) a id Ht Hs) as Hget.
  unfold readiness_applyControlMessage, keepalive_applyControlMessage, read_active_session,
    update, mbind, M_bind, getActiveSession.
  destruct (getAttachment id nowMs g.(rt_attachments)) as [r s']. destruct Hget as [-> _].
  split.
  - intros Hno. subst owns.
    destruct (live_attachment nowMs a id) as [r|]; [|by split].
    rewrite bool_decide_false by naive_solver. by split.
  - intros (r & -> & <-). rewrite bool_decide_true by done. cbn [negb modify].
    split.
    + intros ready. unfold handleRuntimeReadiness, data_plane.
      cbn [rt_attachments rt_keepalives rt_readiness rt_calls].
      destruct (respond _); cbn [rt_keepalives rt_readiness rt_calls]; (split; [|done]);
        intros [owner|]; unfold readiness_summarize, readiness_replaceStateForOwner;
        rewrite ?JsMap.get_set_eq; cbn [readiness_ownerLeaseId readiness_ready];
        repeat case_bool_decide; simplify_eq; destruct ready; done.
    + intros active ttl clock. unfold touchIdleDeadline, data_plane, modify.
      assert (∀ now', now' < nowMs + ttl → active = true →
        (keepalive_summarize id now' (Some r.(attachment_ownerLeaseId))
          (keepalive_replaceStateForOwner id r.(attachment_ownerLeaseId) gatewayNodeId ttl nowMs
             active g.(rt_keepalives))).1 = true) as Hactive.
      { intros now' Hnow ->. unfold keepalive_summarize. cbn [fst]. apply orb_true_iff. right.
        simpl. rewrite get_expire_flat, decide_True, JsMap.get_set_eq by done. simpl.
        destruct (Z.leb_spec (nowMs + ttl) now'); [lia|]. simpl. by apply bool_decide_eq_true. }
      destruct active; cbn [negb mret M_ret rt_calls rt_readiness rt_keepalives].
      * destruct (respond _); cbn [rt_calls rt_readiness rt_keepalives]; eauto.
      * rewrite app_nil_r. by split.
Qed.
End DeadlineService.

Lemma control_messages_fenced_witness :
  let g := mkGatewayRuntime (upsertAttachment (demo_attachment "lease_2" "n") 30 10 JsMap.empty)
             (mkKeepaliveStore JsMap.empty JsMap.empty) JsMap.empty [] in
  let respond := λ _ : DataPlaneCall, @None string in
  let late := readiness_applyControlMessage respond "n" true "sbi" "lease_1" None 20 g in
  late.1 = inr tt ∧ late.2.(rt_calls) = [] ∧
  (readiness_applyControlMessage respond "n" true "sbi" "lease_2" None 20 g).2.(rt_calls) =
    [ApplyRuntimeReadinessReported "sbi" "lease_2" true None].
Proof.
  intros g respond late.
  set (a := put (λ _, None) "sbi" (Some (mkAttachmentRecord (demo_attachment "lease_2" "n") 40))).
  assert (attachment_tracks 10 g.(rt_attachments) a) as Hs by (by apply tracks_flat_set).
  assert (live_attachment 20 a "sbi" = Some (demo_attachment "lease_2" "n")) as Hlive
    by reflexivity.
  split_and!; [| |reflexivity].
  - destruct (control_messages_fenced respond 0 "n" "sbi" "lease_1" None 10 20 g a ltac:(lia) Hs)
      as [H _]. destruct H as [H _]; [intros (r & Hr & Hl); rewrite Hlive in Hr; by simplify_eq/=|].
    specialize (H true). subst late. destruct (readiness_applyControlMessage _ _ _ _ _ _ _ _).
    apply H.
  - reflexivity.
Defined.
