(* ===== verification/Forwarding.v ===== *)
(** * Forwarding interactive streams to the owner node (tunnel/gateway-forwarding/)

    - [GatewayForwardingServerAdapter] and [GatewayForwardingClientAdapter]: the two
      interfaces of that name, as classes of operations over a world [W];
    - the server on the owner node,
      adapters/local-gateway-forwarding-server-adapter.ts, over any tunnel session
      registry that meets [TunnelSessionRegistryLaws];
    - the in-process client, adapters/local-gateway-forwarding-client-adapter.ts;
    - [InteractiveStreamRouter]: interactive-stream-router.ts, over any owner
      resolver and any client.

    The port-access handlers are arguments of the server's constructor; their
    targets and results are carried through and never looked at. *)

From S2P Require Import Prelude JsMap TunnelTypes TunnelSession SessionRegistry RuntimeState.
Local Open Scope Z_scope.

(** ** types.ts *)

Record InteractiveStreamRoute : Type := mkRoute {
  route_bootstrapTarget : RelayTarget;
  route_binding : ClientStreamBinding;
}.

Record ReleaseClientSessionStreamsResult : Type := mkReleaseResult {
  release_bootstrapTarget : option RelayTarget;
  release_releasedBindings : list ClientStreamBinding;
}.

Record OpenInteractiveStreamInput : Type := mkOpenInput {
  open_sandboxInstanceId : string;
  open_clientSessionId : string;
  open_clientStreamId : number;
  open_channelKind : StreamChannelKind;
}.

Record ClientStreamInput : Type := mkClientStreamInput {
  client_sandboxInstanceId : string;
  client_clientSessionId : string;
  client_clientStreamId : number;
}.

Record FindInteractiveStreamByTunnelInput : Type := mkTunnelInput {
  tunnel_sandboxInstanceId : string;
  tunnel_tunnelStreamId : Z;
}.

Record ReleaseClientSessionStreamsInput : Type := mkReleaseInput {
  release_sandboxInstanceId : string;
  release_clientSessionId : string;
}.

Record OpenPortAccessStreamInput : Type := mkOpenPortInput {
  port_sandboxInstanceId : string;
  port_sourceConnectionSessionId : string;
}.

Record OpenPortAccessStreamResult : Type := mkOpenPortResult {
  port_bootstrapTarget : RelayTarget;
  port_streamId : Z;
}.

Record ReleasePortAccessStreamInput : Type := mkReleasePortInput {
  releasePort_sandboxInstanceId : string;
  releasePort_streamId : Z;
}.

(** ** The interfaces *)

Class GatewayForwardingServerAdapter (PortTarget AuthorizeResult W : Type) : Type := {
  server_openInteractiveStream :
    GatewayForwardingTarget → OpenInteractiveStreamInput → M JsError W InteractiveStreamRoute;
  server_findInteractiveStreamByClient :
    GatewayForwardingTarget → ClientStreamInput → M JsError W (option InteractiveStreamRoute);
  server_findInteractiveStreamByTunnel :
    GatewayForwardingTarget → FindInteractiveStreamByTunnelInput →
    M JsError W (option InteractiveStreamRoute);
  server_closeInteractiveStream :
    GatewayForwardingTarget → ClientStreamInput → M JsError W (option InteractiveStreamRoute);
  server_releaseClientSessionStreams :
    GatewayForwardingTarget → ReleaseClientSessionStreamsInput →
    M JsError W ReleaseClientSessionStreamsResult;
  server_authorizePortAccessTarget :
    GatewayForwardingTarget → string → PortTarget → M JsError W AuthorizeResult;
  server_openPortAccessStream :
    GatewayForwardingTarget → OpenPortAccessStreamInput → M JsError W OpenPortAccessStreamResult;
  server_releasePortAccessStream :
    GatewayForwardingTarget → ReleasePortAccessStreamInput → M JsError W unit;
}.

Class GatewayForwardingClientAdapter (PortTarget AuthorizeResult W : Type) : Type := {
  client_openInteractiveStream :
    GatewayForwardingTarget → OpenInteractiveStreamInput → M JsError W InteractiveStreamRoute;
  client_findInteractiveStreamByClient :
    GatewayForwardingTarget → ClientStreamInput → M JsError W (option InteractiveStreamRoute);
  client_findInteractiveStreamByTunnel :
    GatewayForwardingTarget → FindInteractiveStreamByTunnelInput →
    M JsError W (option InteractiveStreamRoute);
  client_closeInteractiveStream :
    GatewayForwardingTarget → ClientStreamInput → M JsError W (option InteractiveStreamRoute);
  client_releaseClientSessionStreams :
    GatewayForwardingTarget → ReleaseClientSessionStreamsInput →
    M JsError W ReleaseClientSessionStreamsResult;
  client_authorizePortAccessTarget :
    GatewayForwardingTarget → string → PortTarget → M JsError W AuthorizeResult;
  client_openPortAccessStream :
    GatewayForwardingTarget → OpenPortAccessStreamInput → M JsError W OpenPortAccessStreamResult;
  client_releasePortAccessStream :
    GatewayForwardingTarget → ReleasePortAccessStreamInput → M JsError W unit;
}.

(** ** The server on the owner node *)

Section Server.
Context {R Probe PortTarget AuthorizeResult : Type} `{TunnelSessionRegistryAdapter R}.
Notation Registry := (TunnelSessionRegistry R Probe).
Context (run_probe : Probe → bool).
Context (authorizeHandler :
  option (GatewayForwardingTarget → string → PortTarget → M JsError Registry AuthorizeResult)).
Context (openPortHandler :
  option (GatewayForwardingTarget → OpenPortAccessStreamInput →
          M JsError Registry OpenPortAccessStreamResult)).
Context (releasePortHandler :
  GatewayForwardingTarget → ReleasePortAccessStreamInput → M JsError Registry unit).

Definition getMatchingBootstrapTarget (target : GatewayForwardingTarget) (id : string)
    (r : Registry) : option RelayTarget :=
  match getBootstrapTarget r id with
  | None => None
  | Some bootstrapTarget =>
      if negb (bootstrapTarget.(target_sessionId) =?= target.(targetBootstrapSessionId))
      then None else Some bootstrapTarget
  end.

Definition requireBootstrapTarget (target : GatewayForwardingTarget) (id : string)
    : M JsError Registry RelayTarget := λ r,
  match getBootstrapTarget r id with
  | None => (inl (BootstrapTunnelNotConnectedError id), r)
  | Some bootstrapTarget =>
      if negb (bootstrapTarget.(target_sessionId) =?= target.(targetBootstrapSessionId))
      then (inl (PlainError ("Resolved bootstrap session is no longer current for sandbox '"
                             +:+ id +:+ "'.")), r)
      else if negb (isBootstrapSessionAvailable run_probe r bootstrapTarget)
      then (inl (BootstrapTunnelNotConnectedError id), r)
      else (inr bootstrapTarget, r)
  end.

Definition local_openInteractiveStream (target : GatewayForwardingTarget)
    (input : OpenInteractiveStreamInput) : M JsError Registry InteractiveStreamRoute :=
  bootstrapTarget ← requireBootstrapTarget target input.(open_sandboxInstanceId);
  binding ← registry_bindClientStream input.(open_sandboxInstanceId)
              input.(open_channelKind) input.(open_clientSessionId)
              input.(open_clientStreamId);
  mret (mkRoute bootstrapTarget binding).

Definition local_findInteractiveStreamByClient (target : GatewayForwardingTarget)
    (input : ClientStreamInput) : M JsError Registry (option InteractiveStreamRoute) :=
  bootstrapTarget ← gets (getMatchingBootstrapTarget target input.(client_sandboxInstanceId));
  match bootstrapTarget with
  | None => mret None
  | Some bootstrapTarget =>
      binding ← gets (λ r,
        registry_getBindingByClientStream r input.(client_sandboxInstanceId)
          input.(client_clientSessionId) input.(client_clientStreamId));
      match binding with
      | None => mret None
      | Some binding => mret (Some (mkRoute bootstrapTarget binding))
      end
  end.

Definition local_findInteractiveStreamByTunnel (target : GatewayForwardingTarget)
    (input : FindInteractiveStreamByTunnelInput)
    : M JsError Registry (option InteractiveStreamRoute) :=
  bootstrapTarget ← gets (getMatchingBootstrapTarget target input.(tunnel_sandboxInstanceId));
  match bootstrapTarget with
  | None => mret None
  | Some bootstrapTarget =>
      binding ← gets (λ r,
        registry_getBindingByTunnelStreamId r input.(tunnel_sandboxInstanceId)
          input.(tunnel_tunnelStreamId));
      match binding with
      | None => mret None
      | Some binding => mret (Some (mkRoute bootstrapTarget binding))
      end
  end.

Definition local_closeInteractiveStream (target : GatewayForwardingTarget)
    (input : ClientStreamInput) : M JsError Registry (option InteractiveStreamRoute) :=
  bootstrapTarget ← gets (getMatchingBootstrapTarget target input.(client_sandboxInstanceId));
  match bootstrapTarget with
  | None => mret None
  | Some bootstrapTarget =>
      binding ← registry_unbindClientStream input.(client_sandboxInstanceId)
                  input.(client_clientSessionId) input.(client_clientStreamId);
      match binding with
      | None => mret None
      | Some binding => mret (Some (mkRoute bootstrapTarget binding))
      end
  end.

Definition local_releaseClientSessionStreams (target : GatewayForwardingTarget)
    (input : ReleaseClientSessionStreamsInput)
    : M JsError Registry ReleaseClientSessionStreamsResult :=
  bootstrapTarget ← gets (getMatchingBootstrapTarget target input.(release_sandboxInstanceId));
  match bootstrapTarget with
  | None => mret (mkReleaseResult None [])
  | Some bootstrapTarget =>
      releasedBindings ← registry_releaseClientSessionBindings
        input.(release_sandboxInstanceId) input.(release_clientSessionId);
      mret (mkReleaseResult (Some bootstrapTarget) releasedBindings)
  end.

Definition local_authorizePortAccessTarget (target : GatewayForwardingTarget) (id : string)
    (portTarget : PortTarget) : M JsError Registry AuthorizeResult :=
  match authorizeHandler with
  | None => throw (PlainError "Port Access target authorization handler is not configured.")
  | Some handler =>
      _ ← requireBootstrapTarget target id;
      handler target id portTarget
  end.

Definition local_openPortAccessStream (target : GatewayForwardingTarget)
    (input : OpenPortAccessStreamInput) : M JsError Registry OpenPortAccessStreamResult :=
  match openPortHandler with
  | None => throw (PlainError "Port Access stream forwarding handler is not configured.")
  | Some open =>
      _ ← requireBootstrapTarget target input.(port_sandboxInstanceId);
      open target input
  end.

Definition local_releasePortAccessStream (target : GatewayForwardingTarget)
    (input : ReleasePortAccessStreamInput) : M JsError Registry unit :=
  match openPortHandler with
  | None => throw (PlainError "Port Access stream forwarding handler is not configured.")
  | Some _ => releasePortHandler target input
  end.

Definition LocalGatewayForwardingServerAdapter :
    GatewayForwardingServerAdapter PortTarget AuthorizeResult Registry := {|
  server_openInteractiveStream := local_openInteractiveStream;
  server_findInteractiveStreamByClient := local_findInteractiveStreamByClient;
  server_findInteractiveStreamByTunnel := local_findInteractiveStreamByTunnel;
  server_closeInteractiveStream := local_closeInteractiveStream;
  server_releaseClientSessionStreams := local_releaseClientSessionStreams;
  server_authorizePortAccessTarget := local_authorizePortAccessTarget;
  server_openPortAccessStream := local_openPortAccessStream;
  server_releasePortAccessStream := local_releasePortAccessStream;
|}.
End Server.

(** ** The in-process client *)

Section Client.
Context {PortTarget AuthorizeResult W : Type}.
Context `{GatewayForwardingServerAdapter PortTarget AuthorizeResult W} (localNodeId : string).

Definition assertLocalTarget (target : GatewayForwardingTarget) : M JsError W unit :=
  if negb (target.(targetNodeId) =?= localNodeId) then
    throw (PlainError ("Local forwarding client can only target node '" +:+ localNodeId
                       +:+ "', received '" +:+ target.(targetNodeId) +:+ "'."))
  else mret tt.

Definition asserting {I A} (op : GatewayForwardingTarget → I → M JsError W A)
    (target : GatewayForwardingTarget) (input : I) : M JsError W A :=
  _ ← assertLocalTarget target; op target input.

Definition LocalGatewayForwardingClientAdapter :
    GatewayForwardingClientAdapter PortTarget AuthorizeResult W := {|
  client_openInteractiveStream := asserting server_openInteractiveStream;
  client_findInteractiveStreamByClient := asserting server_findInteractiveStreamByClient;
  client_findInteractiveStreamByTunnel := asserting server_findInteractiveStreamByTunnel;
  client_closeInteractiveStream := asserting server_closeInteractiveStream;
  client_releaseClientSessionStreams := asserting server_releaseClientSessionStreams;
  client_authorizePortAccessTarget := λ target id portTarget,
    asserting (λ target portTarget, server_authorizePortAccessTarget target id portTarget)
      target portTarget;
  client_openPortAccessStream := asserting server_openPortAccessStream;
  client_releasePortAccessStream := asserting server_releasePortAccessStream;
|}.
End Client.

(** ** The router (interactive-stream-router.ts) *)

Definition sameForwardingTarget (left right : GatewayForwardingTarget) : bool :=
  (left.(sourceNodeId) =?= right.(sourceNodeId))
  && (left.(targetNodeId) =?= right.(targetNodeId))
  && (left.(targetBootstrapSessionId) =?= right.(targetBootstrapSessionId)).

Definition isUnavailable (error : JsError) : bool :=
  match error with GatewayForwardingUnavailableError _ _ _ _ _ _ => true | _ => false end.

(** [resolution.owner] when the resolution has one. *)
Definition resolution_owner (resolution : SandboxOwnerResolution) : option SandboxOwner :=
  match resolution with
  | OwnerMissing => None
  | OwnerLocal owner | OwnerRemote owner => Some owner
  end.

(** [inl] is the [throw] of the function. *)
Definition resolveGatewayForwardingRetryTarget (currentTarget : GatewayForwardingTarget)
    (error : JsError) (retryOwnerResolution : SandboxOwnerResolution) (sourceNode : string)
    : JsError + option GatewayForwardingTarget :=
  if negb (isUnavailable error) then inl error
  else match resolution_owner retryOwnerResolution with
       | None => inr None
       | Some owner =>
           let retryTarget :=
             mkForwardingTarget sourceNode owner.(owner_nodeId) owner.(owner_sessionId) in
           if sameForwardingTarget currentTarget retryTarget then inr None
           else inr (Some retryTarget)
       end.

Section Router.
Context {PortTarget AuthorizeResult W : Type}.
Context `{GatewayForwardingClientAdapter PortTarget AuthorizeResult W}.
Context (sourceNode : string) (resolve_owner : string → M JsError W SandboxOwnerResolution).

Definition resolveForwardingTarget (id : string) : M JsError W GatewayForwardingTarget :=
  ownerResolution ← resolve_owner id;
  match resolution_owner ownerResolution with
  | None => throw (BootstrapTunnelNotConnectedError id)
  | Some owner =>
      mret (mkForwardingTarget sourceNode owner.(owner_nodeId) owner.(owner_sessionId))
  end.

Definition resolveRetryTarget (currentTarget : GatewayForwardingTarget) (error : JsError)
    (id : string) : M JsError W (option GatewayForwardingTarget) :=
  if negb (isUnavailable error) then throw error
  else
    retryOwnerResolution ← resolve_owner id;
    match resolveGatewayForwardingRetryTarget currentTarget error retryOwnerResolution sourceNode
    with
    | inl e => throw e
    | inr t => mret t
    end.

Definition router_openInteractiveStream (input : OpenInteractiveStreamInput)
    : M JsError W InteractiveStreamRoute :=
  target ← resolveForwardingTarget input.(open_sandboxInstanceId);
  try_catch (client_openInteractiveStream target input) (λ error,
    retryTarget ← resolveRetryTarget target error input.(open_sandboxInstanceId);
    match retryTarget with
    | None => throw (BootstrapTunnelNotConnectedError input.(open_sandboxInstanceId))
    | Some retryTarget => client_openInteractiveStream retryTarget input
    end).

Definition router_findInteractiveStreamByClient (input : ClientStreamInput)
    : M JsError W (option InteractiveStreamRoute) :=
  target ← resolveForwardingTarget input.(client_sandboxInstanceId);
  try_catch (client_findInteractiveStreamByClient target input) (λ error,
    retryTarget ← resolveRetryTarget target error input.(client_sandboxInstanceId);
    match retryTarget with
    | None => mret None
    | Some retryTarget => client_findInteractiveStreamByClient retryTarget input
    end).

Definition router_findInteractiveStreamByTunnel (input : FindInteractiveStreamByTunnelInput)
    : M JsError W (option InteractiveStreamRoute) :=
  target ← resolveForwardingTarget input.(tunnel_sandboxInstanceId);
  try_catch (client_findInteractiveStreamByTunnel target input) (λ error,
    retryTarget ← resolveRetryTarget target error input.(tunnel_sandboxInstanceId);
    match retryTarget with
    | None => mret None
    | Some retryTarget => client_findInteractiveStreamByTunnel retryTarget input
    end).

Definition router_closeInteractiveStream (input : ClientStreamInput)
    : M JsError W (option InteractiveStreamRoute) :=
  target ← resolveForwardingTarget input.(client_sandboxInstanceId);
  try_catch (client_closeInteractiveStream target input) (λ error,
    retryTarget ← resolveRetryTarget target error input.(client_sandboxInstanceId);
    match retryTarget with
    | None => mret None
    | Some retryTarget => client_closeInteractiveStream retryTarget input
    end).

Definition router_releaseClientSessionStreams (input : ReleaseClientSessionStreamsInput)
    : M JsError W ReleaseClientSessionStreamsResult :=
  ownerResolution ← resolve_owner input.(release_sandboxInstanceId);
  match resolution_owner ownerResolution with
  | None => mret (mkReleaseResult None [])
  | Some owner =>
      let target := mkForwardingTarget sourceNode owner.(owner_nodeId) owner.(owner_sessionId) in
      try_catch (client_releaseClientSessionStreams target input) (λ error,
        retryTarget ← resolveRetryTarget target error input.(release_sandboxInstanceId);
        match retryTarget with
        | None => mret (mkReleaseResult None [])
        | Some retryTarget => client_releaseClientSessionStreams retryTarget input
        end)
  end.
End Router.

(** ** What the router does *)

Section RouterTheory.
Context {PortTarget AuthorizeResult W : Type}.
Context `{GatewayForwardingClientAdapter PortTarget AuthorizeResult W}.
Context (sourceNode : string) (resolve_owner : string → M JsError W SandboxOwnerResolution).

Definition owner_target (owner : SandboxOwner) : GatewayForwardingTarget :=
  mkForwardingTarget sourceNode owner.(owner_nodeId) owner.(owner_sessionId).

(** One routed operation: [call] on a target, [missing] when the sandbox has no
    owner, [gone] when the owner cannot be reached and has not moved.  The list
    holds the targets called, in order. *)
Inductive routed {A} (id : string) (call : GatewayForwardingTarget → M JsError W A)
    (missing gone : M JsError W A) (w : W)
    : list GatewayForwardingTarget → (JsError + A) * W → Prop :=
| routed_resolver_fails e w1 :
    resolve_owner id w = (inl e, w1) → routed id call missing gone w [] (inl e, w1)
| routed_missing resolution w1 :
    resolve_owner id w = (inr resolution, w1) → resolution_owner resolution = None →
    routed id call missing gone w [] (missing w1)
| routed_ok resolution owner w1 a w2 :
    resolve_owner id w = (inr resolution, w1) → resolution_owner resolution = Some owner →
    call (owner_target owner) w1 = (inr a, w2) →
    routed id call missing gone w [owner_target owner] (inr a, w2)
| routed_error resolution owner w1 e w2 :
    resolve_owner id w = (inr resolution, w1) → resolution_owner resolution = Some owner →
    call (owner_target owner) w1 = (inl e, w2) → isUnavailable e = false →
    routed id call missing gone w [owner_target owner] (inl e, w2)
| routed_retry_resolver_fails resolution owner w1 e w2 e' w3 :
    resolve_owner id w = (inr resolution, w1) → resolution_owner resolution = Some owner →
    call (owner_target owner) w1 = (inl e, w2) → isUnavailable e = true →
    resolve_owner id w2 = (inl e', w3) →
    routed id call missing gone w [owner_target owner] (inl e', w3)
| routed_gone resolution owner w1 e w2 resolution' w3 :
    resolve_owner id w = (inr resolution, w1) → resolution_owner resolution = Some owner →
    call (owner_target owner) w1 = (inl e, w2) → isUnavailable e = true →
    resolve_owner id w2 = (inr resolution', w3) →
    (∀ owner', resolution_owner resolution' = Some owner' →
      owner_target owner' = owner_target owner) →
    routed id call missing gone w [owner_target owner] (gone w3)
| routed_moved resolution owner w1 e w2 resolution' owner' w3 :
    resolve_owner id w = (inr resolution, w1) → resolution_owner resolution = Some owner →
    call (owner_target owner) w1 = (inl e, w2) → isUnavailable e = true →
    resolve_owner id w2 = (inr resolution', w3) → resolution_owner resolution' = Some owner' →
    owner_target owner' ≠ owner_target owner →
    routed id call missing gone w [owner_target owner; owner_target owner']
      (call (owner_target owner') w3).

(** The form of the five methods. *)
Definition route_once {A} (id : string) (call : GatewayForwardingTarget → M JsError W A)
    (missing gone : M JsError W A) : M JsError W A :=
  ownerResolution ← resolve_owner id;
  match resolution_owner ownerResolution with
  | None => missing
  | Some owner =>
      try_catch (call (owner_target owner)) (λ error,
        retryTarget ← resolveRetryTarget sourceNode resolve_owner (owner_target owner) error id;
        match retryTarget with
        | None => gone
        | Some retryTarget => call retryTarget
        end)
  end.

Lemma sameForwardingTarget_eq a b : sameForwardingTarget a b = bool_decide (a = b).
Proof.
  unfold sameForwardingTarget. destruct a, b; simpl.
  repeat case_bool_decide; simpl; naive_solver.
Qed.

Lemma route_once_routed {A} id (call : GatewayForwardingTarget → M JsError W A) missing gone w :
  ∃ targets, routed id call missing gone w targets (route_once id call missing gone w) ∧
             (length targets ≤ 2)%nat ∧ NoDup targets.
Proof.
  unfold route_once. unfold mbind at 1, M_bind at 1.
  destruct (resolve_owner id w) as [[e|res] w1] eqn:Hres.
  { exists []. split; [by apply routed_resolver_fails|]. split; [simpl; lia|apply NoDup_nil_2]. }
  destruct (resolution_owner res) as [owner|] eqn:Howner; cycle 1.
  { exists []. split; [by eapply routed_missing|]. split; [simpl; lia|apply NoDup_nil_2]. }
  assert (NoDup [owner_target owner]) as Hnd by apply NoDup_singleton.
  unfold try_catch. destruct (call (owner_target owner) w1) as [[e|a] w2] eqn:Hcall; cycle 1.
  { exists [owner_target owner]. split; [by eapply routed_ok|]. split; [simpl; lia|done]. }
  unfold resolveRetryTarget. destruct (isUnavailable e) eqn:He; cbn [negb]; cycle 1.
  { exists [owner_target owner]. split; [by eapply routed_error|]. split; [simpl; lia|done]. }
  unfold mbind, M_bind. destruct (resolve_owner id w2) as [[e'|res'] w3] eqn:Hres'.
  { exists [owner_target owner].
    split; [by eapply routed_retry_resolver_fails|]. split; [simpl; lia|done]. }
  unfold resolveGatewayForwardingRetryTarget. rewrite He. cbn [negb].
  destruct (resolution_owner res') as [owner'|] eqn:Howner'; cycle 1.
  { exists [owner_target owner]. split; [|split; [simpl; lia|done]].
    eapply routed_gone; try done. by rewrite Howner'. }
  fold (owner_target owner'). rewrite sameForwardingTarget_eq.
  case_bool_decide as Hsame.
  - exists [owner_target owner]. split; [|split; [simpl; lia|done]].
    eapply routed_gone; try done. rewrite Howner'. by intros ? [= <-].
  - exists [owner_target owner; owner_target owner']. split; [by eapply routed_moved|].
    split; [simpl; lia|]. apply NoDup_cons. split; [|apply NoDup_singleton].
    by rewrite list_elem_of_singleton.
Qed.

Lemma resolveForwardingTarget_then {A} id (k : GatewayForwardingTarget → M JsError W A) w :
  (resolveForwardingTarget sourceNode resolve_owner id ≫= k) w =
  (resolve_owner id ≫= λ resolution,
     match resolution_owner resolution with
     | None => throw (BootstrapTunnelNotConnectedError id)
     | Some owner => k (owner_target owner)
     end) w.
Proof.
  unfold resolveForwardingTarget, mbind, M_bind.
  destruct (resolve_owner id w) as [[e'|res] w1]; [done|]. by destruct (resolution_owner res).
Qed.

(** Every method of the router asks for the owner and calls it once.  It calls a
    second node exactly when the first could not be reached and the sandbox has
    moved to another node or session since; never a third, and never the same
    target twice.  Every other error goes to the caller as it is, and a sandbox
    that is gone is an error only for [openInteractiveStream]. *)
Theorem router_attempts (w : W) :
  let once {A} id (call : GatewayForwardingTarget → M JsError W A) missing gone result :=
    ∃ targets, routed id call missing gone w targets result ∧
               (length targets ≤ 2)%nat ∧ NoDup targets in
  (∀ input, let not_connected :=
      throw (BootstrapTunnelNotConnectedError input.(open_sandboxInstanceId)) in
    once input.(open_sandboxInstanceId) (λ t, client_openInteractiveStream t input)
      not_connected not_connected
      (router_openInteractiveStream sourceNode resolve_owner input w)) ∧
  (∀ input, once input.(client_sandboxInstanceId)
    (λ t, client_findInteractiveStreamByClient t input)
    (throw (BootstrapTunnelNotConnectedError input.(client_sandboxInstanceId))) (mret None)
    (router_findInteractiveStreamByClient sourceNode resolve_owner input w)) ∧
  (∀ input, once input.(tunnel_sandboxInstanceId)
    (λ t, client_findInteractiveStreamByTunnel t input)
    (throw (BootstrapTunnelNotConnectedError input.(tunnel_sandboxInstanceId))) (mret None)
    (router_findInteractiveStreamByTunnel sourceNode resolve_owner input w)) ∧
  (∀ input, once input.(client_sandboxInstanceId)
    (λ t, client_closeInteractiveStream t input)
    (throw (BootstrapTunnelNotConnectedError input.(client_sandboxInstanceId))) (mret None)
    (router_closeInteractiveStream sourceNode resolve_owner input w)) ∧
  (∀ input, once input.(release_sandboxInstanceId)
    (λ t, client_releaseClientSessionStreams t input)
    (mret (mkReleaseResult None [])) (mret (mkReleaseResult None []))
    (router_releaseClientSessionStreams sourceNode resolve_owner input w)).
Proof.
  intros once. split_and!; intros input; try (intros not_connected; subst not_connected);
    unfold once;
    lazymatch goal with
    | |- ∃ _, routed ?id ?call ?missing ?gone _ _ ?r ∧ _ =>
        replace r with (route_once id call missing gone w); [apply route_once_routed|]
    end; symmetry; try apply resolveForwardingTarget_then.
  unfold router_releaseClientSessionStreams, route_once, mbind, M_bind.
  destruct (resolve_owner _ w) as [[e'|res] w1]; [done|].
  by destruct (resolution_owner res).
Qed.
End RouterTheory.

(** ** What the owner node does *)

Section ServerTheory.
Context {R : Type} `{TunnelSessionRegistryLaws R} {Probe : Type} (run_probe : Probe → bool).
Implicit Types (r : TunnelSessionRegistry R Probe).

Lemma getBootstrapTarget_view r id : getBootstrapTarget r id = bootstrapTarget <$> view r id.
Proof. apply law_getBootstrapTarget. Qed.

Lemma getByClient_view r id session stream :
  registry_getBindingByClientStream r id session stream =
    (view r id ≫= λ s, getBindingByClientStream s session stream).
Proof. apply law_getByClient. Qed.

Lemma getByTunnel_view r id stream :
  registry_getBindingByTunnelStreamId r id stream =
    (view r id ≫= λ s, getBindingByTunnelStreamId s stream).
Proof. apply law_getByTunnel. Qed.

(** A matching target is the live session's. *)
Lemma matching_view target id r :
  getMatchingBootstrapTarget target id r =
    match view r id with
    | Some s =>
        if decide (s.(bootstrapTarget).(target_sessionId) = target.(targetBootstrapSessionId))
        then Some s.(bootstrapTarget) else None
    | None => None
    end.
Proof.
  unfold getMatchingBootstrapTarget. rewrite getBootstrapTarget_view.
  destruct (view r id) as [s|]; [|done]. simpl. case_bool_decide; by case_decide.
Qed.

Lemma find_by_client_view target input r s :
  view r input.(client_sandboxInstanceId) = Some s →
  local_findInteractiveStreamByClient target input r =
    (inr (if decide (s.(bootstrapTarget).(target_sessionId) = target.(targetBootstrapSessionId))
          then mkRoute s.(bootstrapTarget) <$>
                 getBindingByClientStream s input.(client_clientSessionId)
                   input.(client_clientStreamId)
          else None), r).
Proof.
  intros Hs. unfold local_findInteractiveStreamByClient, mbind, M_bind, gets.
  rewrite matching_view, Hs. case_decide; [|done]. rewrite getByClient_view, Hs. simpl.
  by destruct (getBindingByClientStream s _ _).
Qed.

Lemma find_by_tunnel_view target input r s :
  view r input.(tunnel_sandboxInstanceId) = Some s →
  local_findInteractiveStreamByTunnel target input r =
    (inr (if decide (s.(bootstrapTarget).(target_sessionId) = target.(targetBootstrapSessionId))
          then mkRoute s.(bootstrapTarget) <$>
                 getBindingByTunnelStreamId s input.(tunnel_tunnelStreamId)
          else None), r).
Proof.
  intros Hs. unfold local_findInteractiveStreamByTunnel, mbind, M_bind, gets.
  rewrite matching_view, Hs. case_decide; [|done]. rewrite getByTunnel_view, Hs. simpl.
  by destruct (getBindingByTunnelStreamId s _).
Qed.

(** Binding on the registry is binding on the live session. *)
Lemma bind_view r id kind session stream s :
  view r id = Some s →
  ∃ r', registry_bindClientStream id kind session stream r =
      ((bindClientStream kind session stream s).1, r') ∧
    ∀ id', view r' id' = update_at (view r) id (Some (bindClientStream kind session stream s).2) id'.
Proof.
  intros Hs. unfold registry_bindClientStream, on_adapter.
  pose proof (law_bind r.(registry_adapter) id kind session stream) as Hlaw.
  destruct (adapter_bindClientStream _ _ _ _ _) as [res r']. destruct Hlaw as [_ Hlaw].
  unfold runs_on in Hlaw. unfold view in Hs. rewrite Hs in Hlaw. destruct Hlaw as [-> Hv].
  by eexists.
Qed.

Lemma unbind_view r id session stream s :
  view r id = Some s →
  ∃ r', registry_unbindClientStream id session stream r =
      ((unbindClientStream session stream s).1, r') ∧
    ∀ id', view r' id' = update_at (view r) id (Some (unbindClientStream session stream s).2) id'.
Proof.
  intros Hs. unfold registry_unbindClientStream, on_adapter.
  pose proof (law_unbind r.(registry_adapter) id session stream) as Hlaw.
  destruct (adapter_unbindClientStream _ _ _ _) as [res r']. destruct Hlaw as [_ Hlaw].
  unfold runs_on in Hlaw. unfold view in Hs. rewrite Hs in Hlaw. destruct Hlaw as [-> Hv].
  by eexists.
Qed.

Lemma release_view r id session s :
  view r id = Some s →
  ∃ r', registry_releaseClientSessionBindings id session r =
      ((releaseClientSessionBindings session s).1, r') ∧
    ∀ id', view r' id' = update_at (view r) id (Some (releaseClientSessionBindings session s).2) id'.
Proof.
  intros Hs. unfold registry_releaseClientSessionBindings, on_adapter.
  pose proof (law_releaseSession r.(registry_adapter) id session) as Hlaw.
  destruct (adapter_releaseClientSessionBindings _ _ _) as [res r']. destruct Hlaw as [_ Hlaw].
  unfold runs_on in Hlaw. unfold view in Hs. rewrite Hs in Hlaw. destruct Hlaw as [-> Hv].
  by eexists.
Qed.

Lemma update_at_eq {A} (f : string → option A) id a : update_at f id a id = a.
Proof. unfold update_at. by rewrite decide_True. Qed.

(** A binding just made is found by both lookups, and unbinding it undoes that. *)
Lemma bound_state_lookups s b :
  getBindingByClientStream (bound_state s b) b.(clientSessionId) b.(clientStreamId) = Some b ∧
  getBindingByTunnelStreamId (bound_state s b) b.(tunnelStreamId) = Some b.
Proof. split; apply JsMap.get_set_eq. Qed.

Lemma bound_state_unbind s b :
  let undone := unbindClientStream b.(clientSessionId) b.(clientStreamId) (bound_state s b) in
  undone.1 = inr (Some b) ∧
  getBindingByClientStream undone.2 b.(clientSessionId) b.(clientStreamId) = None ∧
  getBindingByTunnelStreamId undone.2 b.(tunnelStreamId) = None.
Proof.
  unfold unbindClientStream. simpl. fold (binding_key b). rewrite JsMap.get_set_eq. simpl.
  split; [done|]. unfold getBindingByClientStream, getBindingByTunnelStreamId. simpl.
  fold (binding_key b). by rewrite !JsMap.get_delete_eq.
Qed.

(** On the owner node a stream is opened only on the bootstrap session the
    caller resolved, while that session is attached and available, and then
    both lookups find its route, until it is closed: closing returns the same
    route and after it neither does.  A caller that resolved another session
    (the tunnel has reconnected since) finds nothing and can open nothing.  A
    failed open leaves every session as it was. *)
Theorem local_stream_roundtrip r (target : GatewayForwardingTarget)
    (input : OpenInteractiveStreamInput) :
  registry_ok r →
  let id := input.(open_sandboxInstanceId) in
  let stream := mkClientStreamInput id input.(open_clientSessionId) input.(open_clientStreamId) in
  let (res, r') := local_openInteractiveStream run_probe target input r in
  match res with
  | inl _ => ∀ id', view r' id' = view r id'
  | inr route =>
      route.(route_bootstrapTarget).(target_sessionId) = target.(targetBootstrapSessionId) ∧
      getBootstrapTarget r id = Some route.(route_bootstrapTarget) ∧
      isBootstrapSessionAvailable run_probe r route.(route_bootstrapTarget) = true ∧
      local_findInteractiveStreamByClient target stream r = (inr None, r) ∧
      local_findInteractiveStreamByClient target stream r' = (inr (Some route), r') ∧
      local_findInteractiveStreamByTunnel target
        (mkTunnelInput id route.(route_binding).(tunnelStreamId)) r' = (inr (Some route), r') ∧
      (∀ stale, stale.(targetBootstrapSessionId) ≠ target.(targetBootstrapSessionId) →
        local_findInteractiveStreamByClient stale stream r' = (inr None, r') ∧
        local_openInteractiveStream run_probe stale input r' =
          (inl (PlainError ("Resolved bootstrap session is no longer current for sandbox '"
                            +:+ id +:+ "'.")), r')) ∧
      ∃ closed, local_closeInteractiveStream target stream r' = (inr (Some route), closed) ∧
        local_findInteractiveStreamByClient target stream closed = (inr None, closed) ∧
        local_findInteractiveStreamByTunnel target
          (mkTunnelInput id route.(route_binding).(tunnelStreamId)) closed = (inr None, closed)
  end.
Proof.
  intros Hr id stream. unfold local_openInteractiveStream at 1, mbind, M_bind.
  unfold requireBootstrapTarget at 1. rewrite getBootstrapTarget_view. fold id.
  destruct (view r id) as [s|] eqn:Hs; [simpl|done].
  case_bool_decide as Hsession; [simpl|done].
  destruct (isBootstrapSessionAvailable run_probe r s.(bootstrapTarget)) eqn:Havail; [simpl|done].
  destruct (Hr _ _ Hs) as [Hok _].
  destruct (bind_view r id input.(open_channelKind) input.(open_clientSessionId)
    input.(open_clientStreamId) s Hs) as (r' & -> & Hview).
  pose proof (bind_outcome_ok s input.(open_channelKind) input.(open_clientSessionId)
    input.(open_clientStreamId) Hok) as Ho.
  destruct (bindClientStream _ _ _ s) as [res s'] eqn:Hbind. cbn [fst snd] in *.
  inversion Ho as [| | |Hpos Hnone Hlim Hfree]; subst res s'.
  1-3: intros id'; rewrite Hview; unfold update_at; case_decide; by subst.
  set (b := mkBinding _ _ _ _) in *.
  assert (view r' id = Some (bound_state s b)) as Hs' by (rewrite Hview; apply update_at_eq).
  destruct (bound_state_lookups s b) as [Hc Ht].
  cbn [route_bootstrapTarget route_binding].
  split_and!; [done|by rewrite getBootstrapTarget_view, Hs|done| | | | |].
  - rewrite (find_by_client_view target stream r s Hs), decide_True by done. simpl. by rewrite Hnone.
  - rewrite (find_by_client_view target stream r' _ Hs'), decide_True by done.
    change (getBindingByClientStream (bound_state s b) _ _)
      with (getBindingByClientStream (bound_state s b) b.(clientSessionId) b.(clientStreamId)).
    by rewrite Hc.
  - rewrite (find_by_tunnel_view target (mkTunnelInput id _) r' _ Hs'), decide_True by done. cbn [tunnel_tunnelStreamId route_binding].
    by rewrite Ht.
  - intros stale Hstale. split.
    + rewrite (find_by_client_view stale stream r' _ Hs'). rewrite decide_False; [done|]. simpl. congruence.
    + unfold local_openInteractiveStream, mbind, M_bind, requireBootstrapTarget.
      rewrite getBootstrapTarget_view. fold id. rewrite Hs'. simpl.
      rewrite bool_decide_false by congruence. done.
  - destruct (unbind_view r' id b.(clientSessionId) b.(clientStreamId) _ Hs')
      as (r2 & Hunbind & Hview2).
    unfold local_closeInteractiveStream, mbind, M_bind, gets. rewrite matching_view.
    cbn [client_sandboxInstanceId client_clientSessionId client_clientStreamId stream].
    rewrite Hs', decide_True by done.
    change (registry_unbindClientStream id _ _)
      with (registry_unbindClientStream (R := R) (Probe := Probe) id b.(clientSessionId)
              b.(clientStreamId)).
    rewrite Hunbind. destruct (bound_state_unbind s b) as (Hres & Hc2 & Ht2). rewrite Hres. exists r2. split; [done|].
    set (s2 := (unbindClientStream _ _ (bound_state s b)).2) in *.
    assert (view r2 id = Some s2) as Hs2 by (rewrite Hview2; apply update_at_eq).
    rewrite (find_by_client_view target stream r2 _ Hs2),
      (find_by_tunnel_view target (mkTunnelInput id _) r2 _ Hs2).
    cbn [tunnel_tunnelStreamId route_binding].
    change (getBindingByClientStream s2 _ _)
      with (getBindingByClientStream s2 b.(clientSessionId) b.(clientStreamId)).
    rewrite Hc2, Ht2. split; by case_decide.
Qed.
End ServerTheory.

Lemma local_stream_roundtrip_witness :
  let r := registry_run demo_ops demo_registry in
  let target := mkForwardingTarget "node_b" "node_a" "session_1" in
  let input := mkOpenInput "sbi_1" "client_c" (Int 4) ExecChannel in
  ∃ r', local_openInteractiveStream (λ b, b) target input r =
      (inr (mkRoute demo_target (mkBinding ExecChannel "client_c" (Int 4) 3)), r') ∧
    local_findInteractiveStreamByTunnel target (mkTunnelInput "sbi_1" 3) r' =
      (inr (Some (mkRoute demo_target (mkBinding ExecChannel "client_c" (Int 4) 3))), r').
Proof.
  intros r target input.
  assert (registry_ok r) as Hr by (by apply registry_run_ok, registry_empty_ok).
  pose proof (local_stream_roundtrip (λ b, b) r target input Hr) as H. cbv zeta in H.
  destruct (local_openInteractiveStream (λ b, b) target input r) as [res r'] eqn:Hopen.
  assert (res = inr (mkRoute demo_target (mkBinding ExecChannel "client_c" (Int 4) 3))) as ->.
  { change res with (res, r').1. rewrite <-Hopen. vm_compute. reflexivity. }
  exists r'. split; [done|]. apply H.
Defined.

(** ** The routes a caller may rely on

    What a forwarding client promises of the routes it returns: they are routes of
    the stream asked for.  [stream_world_ok] is the invariant of the world the
    promise depends on, and every call keeps it. *)
Definition is_route_of (route : InteractiveStreamRoute) (session : string) (stream : number) : Prop :=
  route.(route_binding).(clientSessionId) = session ∧
  route.(route_binding).(clientStreamId) = stream ∧ 1 ≤ route.(route_binding).(tunnelStreamId).

Class InteractiveStreamLaws {PortTarget AuthorizeResult W : Type}
    `{GatewayForwardingClientAdapter PortTarget AuthorizeResult W} : Type := {
  stream_world_ok : W → Prop;
  law_client_open target input w res w' :
    stream_world_ok w → client_openInteractiveStream target input w = (res, w') →
    stream_world_ok w' ∧ ∀ route, res = inr route →
      is_route_of route input.(open_clientSessionId) input.(open_clientStreamId) ∧
      route.(route_binding).(channelKind) = input.(open_channelKind);
  law_client_find_by_client target input w res w' :
    stream_world_ok w → client_findInteractiveStreamByClient target input w = (res, w') →
    stream_world_ok w' ∧ ∀ route, res = inr (Some route) →
      positive_integer input.(client_clientStreamId) →
      is_route_of route input.(client_clientSessionId) input.(client_clientStreamId);
  law_client_find_by_tunnel target input w res w' :
    stream_world_ok w → client_findInteractiveStreamByTunnel target input w = (res, w') →
    stream_world_ok w' ∧ ∀ route, res = inr (Some route) →
      route.(route_binding).(tunnelStreamId) = input.(tunnel_tunnelStreamId) ∧
      positive_integer route.(route_binding).(clientStreamId);
}.

(** The in-process client on the owner node keeps these promises. *)
Section LocalStreamLaws.
Context {R : Type} `{TunnelSessionRegistryLaws R} {Probe : Type} (run_probe : Probe → bool).
Context {PortTarget AuthorizeResult : Type} (localNodeId : string).
Notation Registry := (TunnelSessionRegistry R Probe).
Context (authorizeHandler :
  option (GatewayForwardingTarget → string → PortTarget → M JsError Registry AuthorizeResult)).
Context (openPortHandler :
  option (GatewayForwardingTarget → OpenPortAccessStreamInput →
          M JsError Registry OpenPortAccessStreamResult)).
Context (releasePortHandler :
  GatewayForwardingTarget → ReleasePortAccessStreamInput → M JsError Registry unit).

Definition local_client : GatewayForwardingClientAdapter PortTarget AuthorizeResult Registry :=
  @LocalGatewayForwardingClientAdapter PortTarget AuthorizeResult Registry
    (LocalGatewayForwardingServerAdapter run_probe authorizeHandler openPortHandler
       releasePortHandler) localNodeId.

Lemma asserting_cases {I A} (op : GatewayForwardingTarget → I → M JsError Registry A)
    target input w res w' :
  asserting localNodeId op target input w = (res, w') →
  op target input w = (res, w') ∨ (∃ e, res = inl e) ∧ w' = w.
Proof.
  unfold asserting, assertLocalTarget, mbind, M_bind. destruct (negb _); cbn; [|by left].
  intros [= <- <-]. right. eauto.
Qed.

(** A failed lookup, or a lookup in the session the sandbox has. *)
Lemma find_by_client_cases target input (r : Registry) :
  local_findInteractiveStreamByClient target input r = (inr None, r) ∨
  ∃ s b, view r input.(client_sandboxInstanceId) = Some s ∧
    getBindingByClientStream s input.(client_clientSessionId) input.(client_clientStreamId) = Some b ∧
    local_findInteractiveStreamByClient target input r = (inr (Some (mkRoute s.(bootstrapTarget) b)), r).
Proof.
  destruct (view r input.(client_sandboxInstanceId)) as [s|] eqn:Hs; cycle 1.
  { left. unfold local_findInteractiveStreamByClient, mbind, M_bind, gets.
    by rewrite matching_view, Hs. }
  rewrite (find_by_client_view _ _ _ _ Hs). destruct (decide _) as [|]; [|by left].
  destruct (getBindingByClientStream s _ _) as [b|] eqn:Hb; [|by left]. right. by exists s, b.
Qed.

Lemma find_by_tunnel_cases target input (r : Registry) :
  local_findInteractiveStreamByTunnel target input r = (inr None, r) ∨
  ∃ s b, view r input.(tunnel_sandboxInstanceId) = Some s ∧
    getBindingByTunnelStreamId s input.(tunnel_tunnelStreamId) = Some b ∧
    local_findInteractiveStreamByTunnel target input r = (inr (Some (mkRoute s.(bootstrapTarget) b)), r).
Proof.
  destruct (view r input.(tunnel_sandboxInstanceId)) as [s|] eqn:Hs; cycle 1.
  { left. unfold local_findInteractiveStreamByTunnel, mbind, M_bind, gets.
    by rewrite matching_view, Hs. }
  rewrite (find_by_tunnel_view _ _ _ _ Hs). destruct (decide _) as [|]; [|by left].
  destruct (getBindingByTunnelStreamId s _) as [b|] eqn:Hb; [|by left]. right. by exists s, b.
Qed.

Lemma bound_by_client_stream s session stream b :
  session_ok s → positive_integer stream → getBindingByClientStream s session stream = Some b →
  b.(clientSessionId) = session ∧ b.(clientStreamId) = stream ∧ 1 ≤ b.(tunnelStreamId) ∧
  getBindingByTunnelStreamId s b.(tunnelStreamId) = Some b.
Proof.
  intros Hok Hpos Hb. destruct (ok_client s Hok _ _ Hb) as [Hkey Ht].
  destruct (ok_tunnel s Hok _ _ Ht) as (_ & Hpos' & _).
  destruct (toClientBindingKey_inj _ _ _ _ Hpos Hpos' Hkey) as [-> ->].
  destruct (ok_bound s Hok b.(tunnelStreamId)) as [[? _] _]; [by eexists|]. done.
Qed.

Lemma registry_bind_ok (r : Registry) id kind session stream r' res :
  registry_ok r → registry_bindClientStream id kind session stream r = (res, r') → registry_ok r'.
Proof.
  intros Hr Hbind.
  pose proof (registry_apply_ok (OnSandbox id (Bind kind session stream)) r Hr) as Hok.
  simpl in Hok. by rewrite Hbind in Hok.
Qed.

Lemma local_open_cases target input (r : Registry) res r' :
  registry_ok r → local_openInteractiveStream run_probe target input r = (res, r') →
  registry_ok r' ∧ ∀ route, res = inr route →
    is_route_of route input.(open_clientSessionId) input.(open_clientStreamId) ∧
    route.(route_binding).(channelKind) = input.(open_channelKind).
Proof.
  intros Hr. unfold local_openInteractiveStream, requireBootstrapTarget, mbind, M_bind.
  rewrite getBootstrapTarget_view.
  destruct (view r input.(open_sandboxInstanceId)) as [s|] eqn:Hs; [simpl|by intros [= <- <-]].
  case_bool_decide; [simpl|by intros [= <- <-]].
  destruct (isBootstrapSessionAvailable _ _ _); [simpl|by intros [= <- <-]].
  destruct (Hr _ _ Hs) as [Hok _].
  destruct (bind_view r input.(open_sandboxInstanceId) input.(open_channelKind)
    input.(open_clientSessionId) input.(open_clientStreamId) s Hs) as (r1 & Hbind & _).
  rewrite Hbind. pose proof (registry_bind_ok _ _ _ _ _ _ _ Hr Hbind) as Hr1.
  pose proof (bind_outcome_ok s input.(open_channelKind) input.(open_clientSessionId)
    input.(open_clientStreamId) Hok) as Ho.
  destruct (bindClientStream _ _ _ s) as [out s'].
  inversion Ho as [| | |Hpos Hnone Hlim Hfree]; subst out s'; simpl; intros [= <- <-];
    (split; [done|]); intros ? [= <-].
  split; [|done]. split; [done|]. split; [done|]. simpl. apply (ok_next s Hok).
Qed.

#[refine] Instance local_stream_laws : @InteractiveStreamLaws _ _ _ local_client := {
  stream_world_ok := registry_ok;
}.
Proof.
  - intros target input w res w' Hw [Hop | [[e ->] ->]]%asserting_cases; [|done].
    exact (local_open_cases target input w res w' Hw Hop).
  - intros target input w res w' Hw [Hop | [[e ->] ->]]%asserting_cases; [|done].
    cbn in Hop. destruct (find_by_client_cases target input w) as [Heq | (s & b & Hs & Hb & Heq)];
      rewrite Heq in Hop; simplify_eq; [done|]. split; [done|]. intros route [= <-] Hpos.
    destruct (Hw _ _ Hs) as [Hok _].
    by destruct (bound_by_client_stream s _ _ b Hok Hpos Hb) as (? & ? & ? & _).
  - intros target input w res w' Hw [Hop | [[e ->] ->]]%asserting_cases; [|done].
    cbn in Hop. destruct (find_by_tunnel_cases target input w) as [Heq | (s & b & Hs & Hb & Heq)];
      rewrite Heq in Hop; simplify_eq; [done|]. split; [done|]. intros route [= <-].
    destruct (Hw _ _ Hs) as [Hok _]. by destruct (ok_tunnel s Hok _ _ Hb) as (-> & ? & _).
Defined.
(** On the owner node, for the sandbox it owns, the router finds what the session
    holds. *)
Context (sourceNode : string) (resolve_owner : string → M JsError Registry SandboxOwnerResolution).

Definition owned_here (r : Registry) (id : string) (s : SandboxTunnelSession) : Prop :=
  view r id = Some s ∧ ∃ owner, resolve_owner id r = (inr (OwnerLocal owner), r) ∧
    owner.(owner_nodeId) = localNodeId ∧
    owner.(owner_sessionId) = s.(bootstrapTarget).(target_sessionId).

Lemma owned_find_by_client r id s session stream :
  owned_here r id s →
  @router_findInteractiveStreamByClient _ _ _ local_client sourceNode resolve_owner
    (mkClientStreamInput id session stream) r =
    (inr (mkRoute s.(bootstrapTarget) <$> getBindingByClientStream s session stream), r).
Proof.
  intros (Hs & owner & Howner & Hnode & Hsession).
  unfold router_findInteractiveStreamByClient. rewrite resolveForwardingTarget_then.
  unfold mbind, M_bind. simpl. rewrite Howner. simpl.
  unfold try_catch, asserting, assertLocalTarget, mbind, M_bind. simpl. rewrite Hnode.
  rewrite bool_decide_true by done. simpl.
  rewrite (find_by_client_view _ _ _ s) by done. simpl. by rewrite decide_True.
Qed.

Lemma owned_find_by_tunnel r id s stream :
  owned_here r id s →
  @router_findInteractiveStreamByTunnel _ _ _ local_client sourceNode resolve_owner
    (mkTunnelInput id stream) r =
    (inr (mkRoute s.(bootstrapTarget) <$> getBindingByTunnelStreamId s stream), r).
Proof.
  intros (Hs & owner & Howner & Hnode & Hsession).
  unfold router_findInteractiveStreamByTunnel. rewrite resolveForwardingTarget_then.
  unfold mbind, M_bind. simpl. rewrite Howner. simpl.
  unfold try_catch, asserting, assertLocalTarget, mbind, M_bind. simpl. rewrite Hnode.
  rewrite bool_decide_true by done. simpl.
  rewrite (find_by_tunnel_view _ _ _ s) by done. simpl. by rewrite decide_True.
Qed.

Lemma owned_release r id s session :
  owned_here r id s →
  ∃ released r', (releaseClientSessionBindings session s).1 = inr released ∧
    @router_releaseClientSessionStreams _ _ _ local_client sourceNode resolve_owner
      (mkReleaseInput id session) r = (inr (mkReleaseResult (Some s.(bootstrapTarget)) released), r') ∧
    ∀ id', view r' id' = update_at (view r) id (Some (releaseClientSessionBindings session s).2) id'.
Proof.
  intros (Hs & owner & Howner & Hnode & Hsession).
  destruct (release_view r id session s Hs) as (r' & Hrun & Hview).
  eexists _, r'. split; [reflexivity|]. split; [|exact Hview].
  unfold router_releaseClientSessionStreams. unfold mbind, M_bind. simpl. rewrite Howner. simpl.
  unfold try_catch, asserting, assertLocalTarget, mbind, M_bind. simpl. rewrite Hnode.
  rewrite bool_decide_true by done. simpl.
  unfold local_releaseClientSessionStreams, mbind, M_bind, gets. rewrite matching_view. simpl. rewrite Hs. simpl.
  rewrite decide_True by done. by rewrite Hrun.
Qed.
End LocalStreamLaws.

(** The router keeps them, whatever the targets it calls. *)
Section RouterLaws.
Context {PortTarget AuthorizeResult W : Type}.
Context `{InteractiveStreamLaws PortTarget AuthorizeResult W}.
Context (sourceNode : string) (resolve_owner : string → M JsError W SandboxOwnerResolution).
Context (resolve_owner_ok : ∀ id w, stream_world_ok w → stream_world_ok (resolve_owner id w).2).

Lemma routed_ok_world {A} (Q : JsError + A → Prop) id
    (call : GatewayForwardingTarget → M JsError W A) missing gone w targets result :
  (∀ e, Q (inl e)) →
  (∀ target w res w', stream_world_ok w → call target w = (res, w') → stream_world_ok w' ∧ Q res) →
  (∀ w, (missing w).2 = w ∧ Q (missing w).1) → (∀ w, (gone w).2 = w ∧ Q (gone w).1) →
  stream_world_ok w → routed sourceNode resolve_owner id call missing gone w targets result →
  stream_world_ok result.2 ∧ Q result.1.
Proof.
  intros Herr Hcall Hmissing Hgone Hw Hrouted.
  assert (∀ w1 a w2, stream_world_ok w1 → resolve_owner id w1 = (a, w2) → stream_world_ok w2) as Hres.
  { intros w1 a w2 Hw1 Heq. pose proof (resolve_owner_ok id w1 Hw1) as Hw2. by rewrite Heq in Hw2. }
  assert (∀ target w, stream_world_ok w →
    stream_world_ok (call target w).2 ∧ Q (call target w).1) as Hcall'.
  { intros target w1 Hw1. destruct (call target w1) eqn:Heq. by eapply Hcall. }
  destruct Hrouted as [e w1 Hr|? w1 Hr _|? ? w1 a w2 Hr _ Hc|? ? w1 e w2 Hr _ Hc _
    |? ? w1 e w2 e' w3 Hr _ Hc _ Hr'|? ? w1 e w2 ? w3 Hr _ Hc _ Hr' _
    |? ? w1 e w2 ? ? w3 Hr _ Hc _ Hr' _ _];
    pose proof (Hres _ _ _ Hw Hr) as Hw1; simpl;
    try (destruct (Hcall _ _ _ _ Hw1 Hc) as [Hw2 HQ]);
    try (pose proof (Hres _ _ _ Hw2 Hr') as Hw3); try by auto.
  - by destruct (Hmissing w1) as [-> ?].
  - by destruct (Hgone w3) as [-> ?].
Qed.

Lemma routed_of_once {A} id (call : GatewayForwardingTarget → M JsError W A) missing gone w result :
  result = route_once sourceNode resolve_owner id call missing gone w →
  ∃ targets, routed sourceNode resolve_owner id call missing gone w targets result.
Proof.
  intros ->. destruct (route_once_routed sourceNode resolve_owner id call missing gone w)
    as (targets & Hr & _). by exists targets.
Qed.

Lemma router_open_routed input w :
  let not_connected := throw (BootstrapTunnelNotConnectedError input.(open_sandboxInstanceId)) in
  ∃ targets, routed sourceNode resolve_owner input.(open_sandboxInstanceId)
    (λ t, client_openInteractiveStream t input) not_connected not_connected w targets
    (router_openInteractiveStream sourceNode resolve_owner input w).
Proof. apply routed_of_once, resolveForwardingTarget_then. Qed.

Lemma router_find_by_client_routed input w :
  ∃ targets, routed sourceNode resolve_owner input.(client_sandboxInstanceId)
    (λ t, client_findInteractiveStreamByClient t input)
    (throw (BootstrapTunnelNotConnectedError input.(client_sandboxInstanceId))) (mret None) w targets
    (router_findInteractiveStreamByClient sourceNode resolve_owner input w).
Proof. apply routed_of_once, resolveForwardingTarget_then. Qed.

Lemma router_find_by_tunnel_routed input w :
  ∃ targets, routed sourceNode resolve_owner input.(tunnel_sandboxInstanceId)
    (λ t, client_findInteractiveStreamByTunnel t input)
    (throw (BootstrapTunnelNotConnectedError input.(tunnel_sandboxInstanceId))) (mret None) w targets
    (router_findInteractiveStreamByTunnel sourceNode resolve_owner input w).
Proof. apply routed_of_once, resolveForwardingTarget_then. Qed.

Lemma router_open_laws input w res w' :
  stream_world_ok w → router_openInteractiveStream sourceNode resolve_owner input w = (res, w') →
  stream_world_ok w' ∧ ∀ route, res = inr route →
    is_route_of route input.(open_clientSessionId) input.(open_clientStreamId) ∧
    route.(route_binding).(channelKind) = input.(open_channelKind).
Proof.
  intros Hw Heq. destruct (router_open_routed input w) as [targets Hr]. rewrite Heq in Hr.
  eapply (routed_ok_world (λ res, ∀ route, res = inr route → _)) in Hr; try done.
  intros target w1 res1 w2. apply law_client_open.
Qed.

Lemma router_find_by_client_laws input w res w' :
  stream_world_ok w →
  router_findInteractiveStreamByClient sourceNode resolve_owner input w = (res, w') →
  stream_world_ok w' ∧ ∀ route, res = inr (Some route) →
    positive_integer input.(client_clientStreamId) →
    is_route_of route input.(client_clientSessionId) input.(client_clientStreamId).
Proof.
  intros Hw Heq. destruct (router_find_by_client_routed input w) as [targets Hr]. rewrite Heq in Hr.
  eapply (routed_ok_world (λ res, ∀ route, res = inr (Some route) → _)) in Hr; try done.
  intros target w1 res1 w2. apply law_client_find_by_client.
Qed.

Lemma router_find_by_tunnel_laws input w res w' :
  stream_world_ok w →
  router_findInteractiveStreamByTunnel sourceNode resolve_owner input w = (res, w') →
  stream_world_ok w' ∧ ∀ route, res = inr (Some route) →
    route.(route_binding).(tunnelStreamId) = input.(tunnel_tunnelStreamId) ∧
    positive_integer route.(route_binding).(clientStreamId).
Proof.
  intros Hw Heq. destruct (router_find_by_tunnel_routed input w) as [targets Hr]. rewrite Heq in Hr.
  eapply (routed_ok_world (λ res, ∀ route, res = inr (Some route) → _)) in Hr; try done.
  intros target w1 res1 w2. apply law_client_find_by_tunnel.
Qed.
End RouterLaws.
