(* ===== verification/FlowControl.v ===== *)
(** * Bootstrap ingress streams (tunnel/operation-ingress/, tunnel/telemetry-ingress/)

    A sandbox sends operation records and telemetry to the gateway over streams
    with a receive window.  This file holds the two sessions that own those
    streams, bootstrap-operation-session.ts and bootstrap-telemetry-session.ts,
    the control messages they answer with, and the window they promise the peer:
    - [IngressSession]: what both classes offer, with its laws;
    - [peer_ledger]: the credit the peer computes from what it sent and received;
    - [flow_control]: the window of a session is that credit, always.

    A stream object of the code is mutable and shared with the caller, which
    reads only the fields that never change; here it is a value.  Byte counts are
    integers. *)

From S2P Require Import Prelude JsMap DataFrame.
Local Open Scope Z_scope.

(** ** Streams and control messages *)

Record ActiveStream (I : Type) : Type := mkStream {
  consumedSinceLastWindowGrantBytes : Z;
  stream_info : I;
  remainingWindowBytes : Z;
  stream_streamId : Z;
}.
Arguments mkStream {I}. Arguments consumedSinceLastWindowGrantBytes {I}.
Arguments stream_info {I}. Arguments remainingWindowBytes {I}. Arguments stream_streamId {I}.

(** The ["operation.…"] and ["telemetry.…"] messages have the same fields. *)
Inductive IngressFamily : Type := OperationFamily | TelemetryFamily.

Inductive IngressControlMessage : Type :=
| OpenOK (family : IngressFamily) (streamId initialWindowBytes : Z)
| OpenError (family : IngressFamily) (streamId : Z) (code message : string)
| StreamReset (family : IngressFamily) (streamId : Z) (code message : string)
| StreamWindow (family : IngressFamily) (streamId bytes : Z).

Definition family_value (family : IngressFamily) : string :=
  match family with OperationFamily => "operation" | TelemetryFamily => "telemetry" end.

(** The ["type"] of a message. *)
Definition message_type (message : IngressControlMessage) : string :=
  match message with
  | OpenOK family _ _ => family_value family +:+ ".open.ok"
  | OpenError family _ _ _ => family_value family +:+ ".open.error"
  | StreamReset family _ _ _ => family_value family +:+ ".reset"
  | StreamWindow family _ _ => family_value family +:+ ".window"
  end.

Inductive OpenStreamResult (I : Type) : Type :=
| OpenAccepted (response : IngressControlMessage) (stream : ActiveStream I)
| OpenRejected (response : IngressControlMessage).
Arguments OpenAccepted {I}. Arguments OpenRejected {I}.

Inductive ConsumeWindowResult (I : Type) : Type :=
| ConsumeOk (stream : ActiveStream I)
| ConsumeReset (response : IngressControlMessage) (stream : option (ActiveStream I)).
Arguments ConsumeOk {I}. Arguments ConsumeReset {I}.

(** ** Operation sessions *)

(** [SandboxOperationKind], by its text: the session only carries it. *)
Record OperationInfo : Type := mkOperationInfo {
  operationId : string;
  operationKind : string;
}.

Notation ActiveBootstrapOperationStream := (ActiveStream OperationInfo).

Record OpenOperationInput : Type := mkOpenOperation {
  openOperation_format : string;
  openOperation_operationId : string;
  openOperation_operationKind : string;
  openOperation_streamId : Z;
}.

Definition createOperationOpenOk (streamId initialWindowBytes : Z) : IngressControlMessage :=
  OpenOK OperationFamily streamId initialWindowBytes.
Definition createOperationOpenError (streamId : Z) (code message : string)
    : IngressControlMessage :=
  OpenError OperationFamily streamId code message.
Definition createOperationReset (streamId : Z) (code message : string) : IngressControlMessage :=
  StreamReset OperationFamily streamId code message.
Definition createOperationWindow (streamId bytes : Z) : IngressControlMessage :=
  StreamWindow OperationFamily streamId bytes.

Definition OperationWindowGrantBatchBytes : Z := 16 * 1024.
Definition OperationStreamFormat : string := "mistle.sandbox-operation.v1+jsonl".
Definition OperationStreamId : Z := 0xfffffffd.

Record BootstrapOperationSession : Type := mkOperationSession {
  operation_streamsById : JsMap.t Z ActiveBootstrapOperationStream;
  operation_initialWindowBytes : Z;
  operation_windowGrantBatchBytes : Z;
}.

Definition new_operation_session (initialWindowBytes windowGrantBatchBytes : Z)
    : BootstrapOperationSession :=
  mkOperationSession JsMap.empty initialWindowBytes windowGrantBatchBytes.

Definition with_operation_streams (s : BootstrapOperationSession)
    (m : JsMap.t Z ActiveBootstrapOperationStream) : BootstrapOperationSession :=
  mkOperationSession m s.(operation_initialWindowBytes) s.(operation_windowGrantBatchBytes).

Definition operation_openStream (input : OpenOperationInput) (s : BootstrapOperationSession)
    : OpenStreamResult OperationInfo * BootstrapOperationSession :=
  let id := input.(openOperation_streamId) in
  if negb (id =?= OperationStreamId) then
    (OpenRejected (createOperationOpenError id "unsupported_operation_stream"
       ("Operation stream " +:+ String_of_number id
        +:+ " is not reserved for sandbox operation records.")), s)
  else if negb (input.(openOperation_format) =?= OperationStreamFormat) then
    (OpenRejected (createOperationOpenError id "unsupported_operation_stream"
       ("Operation stream format '" +:+ input.(openOperation_format) +:+ "' is not supported.")), s)
  else if JsMap.has s.(operation_streamsById) id then
    (OpenRejected (createOperationOpenError id "operation_stream_already_open"
       ("Operation stream " +:+ String_of_number id +:+ " is already open.")), s)
  else
    let stream := mkStream 0
      (mkOperationInfo input.(openOperation_operationId) input.(openOperation_operationKind))
      s.(operation_initialWindowBytes) id in
    (OpenAccepted (createOperationOpenOk stream.(stream_streamId) s.(operation_initialWindowBytes))
       stream,
     with_operation_streams s
       (JsMap.set s.(operation_streamsById) stream.(stream_streamId) stream)).

Definition operation_closeStream (streamId : Z) (s : BootstrapOperationSession)
    : option ActiveBootstrapOperationStream * BootstrapOperationSession :=
  match JsMap.get s.(operation_streamsById) streamId with
  | None => (None, s)
  | Some stream =>
      (Some stream, with_operation_streams s (JsMap.delete s.(operation_streamsById) streamId))
  end.

Definition operation_closeAllStreams (s : BootstrapOperationSession)
    : list ActiveBootstrapOperationStream * BootstrapOperationSession :=
  let streams := JsMap.values s.(operation_streamsById) in
  (streams, with_operation_streams s JsMap.empty).

Definition operation_consumeWindow (payloadByteLength streamId : Z)
    (s : BootstrapOperationSession)
    : ConsumeWindowResult OperationInfo * BootstrapOperationSession :=
  match JsMap.get s.(operation_streamsById) streamId with
  | None =>
      (ConsumeReset (createOperationReset streamId "operation_stream_not_found"
         ("Operation stream " +:+ String_of_number streamId
          +:+ " is not open on this bootstrap session.")) None, s)
  | Some stream =>
      if stream.(remainingWindowBytes) <? payloadByteLength then
        let s := (operation_closeStream stream.(stream_streamId) s).2 in
        (ConsumeReset (createOperationReset streamId "operation_window_exhausted"
           ("Operation stream " +:+ String_of_number streamId +:+ " exhausted its receive window."))
           (Some stream), s)
      else
        let stream := mkStream (stream.(consumedSinceLastWindowGrantBytes) + payloadByteLength)
          stream.(stream_info) (stream.(remainingWindowBytes) - payloadByteLength)
          stream.(stream_streamId) in
        (ConsumeOk stream,
         with_operation_streams s (JsMap.set s.(operation_streamsById) streamId stream))
  end.

Definition operation_grantWindowIfNeeded (streamId : Z) (s : BootstrapOperationSession)
    : option IngressControlMessage * BootstrapOperationSession :=
  match JsMap.get s.(operation_streamsById) streamId with
  | None => (None, s)
  | Some stream =>
      if stream.(consumedSinceLastWindowGrantBytes) <? s.(operation_windowGrantBatchBytes) then
        (None, s)
      else
        let grantedBytes := stream.(consumedSinceLastWindowGrantBytes) in
        (Some (createOperationWindow streamId grantedBytes),
         with_operation_streams s (JsMap.set s.(operation_streamsById) streamId
           (mkStream 0 stream.(stream_info) (stream.(remainingWindowBytes) + grantedBytes)
              stream.(stream_streamId))))
  end.

Definition operation_streamCount (s : BootstrapOperationSession) : nat :=
  JsMap.size s.(operation_streamsById).

(** ** Telemetry sessions *)

(** telemetry-stream-format.ts *)
Inductive TelemetrySignal : Type := Logs | Traces.

#[export] Instance TelemetrySignal_eq_dec : EqDecision TelemetrySignal.
Proof. solve_decision. Defined.

Definition signal_value (signal : TelemetrySignal) : string :=
  match signal with Logs => "logs" | Traces => "traces" end.

Definition SandboxTelemetryLogFormat : string := "mistle.sandbox-runtime.log.v1".
Definition SandboxTelemetryTraceJsonFormat : string := "otlp.http.traces.v1+json".

Definition SupportedFormatsBySignal (signal : TelemetrySignal) : list string :=
  match signal with
  | Logs => [SandboxTelemetryLogFormat]
  | Traces => [SandboxTelemetryTraceJsonFormat]
  end.

Record TelemetryInfo : Type := mkTelemetryInfo {
  telemetry_format : string;
  telemetry_signal : TelemetrySignal;
}.

Definition isSupportedTelemetryStream (input : TelemetryInfo) : bool :=
  bool_decide (input.(telemetry_format) ∈ SupportedFormatsBySignal input.(telemetry_signal)).

Definition getTelemetryContentType (input : TelemetryInfo) : option string :=
  if negb (isSupportedTelemetryStream input) then None
  else if input.(telemetry_signal) =?= Logs then None
  else if input.(telemetry_format) =?= SandboxTelemetryTraceJsonFormat
  then Some "application/json"
  else None.

Notation ActiveBootstrapTelemetryStream := (ActiveStream TelemetryInfo).

Record OpenTelemetryInput : Type := mkOpenTelemetry {
  openTelemetry_info : TelemetryInfo;
  openTelemetry_streamId : Z;
}.

Definition createTelemetryOpenOk (streamId initialWindowBytes : Z) : IngressControlMessage :=
  OpenOK TelemetryFamily streamId initialWindowBytes.
Definition createTelemetryOpenError (streamId : Z) (code message : string)
    : IngressControlMessage :=
  OpenError TelemetryFamily streamId code message.
Definition createTelemetryReset (streamId : Z) (code message : string) : IngressControlMessage :=
  StreamReset TelemetryFamily streamId code message.
Definition createTelemetryWindow (streamId bytes : Z) : IngressControlMessage :=
  StreamWindow TelemetryFamily streamId bytes.

Definition TelemetryWindowGrantBatchBytes : Z := 16 * 1024.

Record BootstrapTelemetrySession : Type := mkTelemetrySession {
  telemetry_streamsById : JsMap.t Z ActiveBootstrapTelemetryStream;
  telemetry_streamIdsBySignal : JsMap.t TelemetrySignal Z;
  telemetry_initialWindowBytes : Z;
  telemetry_windowGrantBatchBytes : Z;
}.

Definition new_telemetry_session (initialWindowBytes windowGrantBatchBytes : Z)
    : BootstrapTelemetrySession :=
  mkTelemetrySession JsMap.empty JsMap.empty initialWindowBytes windowGrantBatchBytes.

Definition with_telemetry_maps (s : BootstrapTelemetrySession)
    (m : JsMap.t Z ActiveBootstrapTelemetryStream) (signals : JsMap.t TelemetrySignal Z)
    : BootstrapTelemetrySession :=
  mkTelemetrySession m signals s.(telemetry_initialWindowBytes)
    s.(telemetry_windowGrantBatchBytes).

Definition telemetry_openStream (input : OpenTelemetryInput) (s : BootstrapTelemetrySession)
    : OpenStreamResult TelemetryInfo * BootstrapTelemetrySession :=
  let id := input.(openTelemetry_streamId) in
  let info := input.(openTelemetry_info) in
  if negb (isSupportedTelemetryStream info) then
    (OpenRejected (createTelemetryOpenError id "unsupported_telemetry_stream"
       ("Telemetry format '" +:+ info.(telemetry_format) +:+ "' is not supported for signal '"
        +:+ signal_value info.(telemetry_signal) +:+ "'.")), s)
  else
    match JsMap.get s.(telemetry_streamsById) id with
    | Some _ =>
        (OpenRejected (createTelemetryOpenError id "telemetry_stream_already_open"
           ("Telemetry stream " +:+ String_of_number id +:+ " is already open.")), s)
    | None =>
        match JsMap.get s.(telemetry_streamIdsBySignal) info.(telemetry_signal) with
        | Some _ =>
            (OpenRejected (createTelemetryOpenError id "telemetry_stream_already_open"
               ("A " +:+ signal_value info.(telemetry_signal)
                +:+ " telemetry stream is already active for this bootstrap session.")), s)
        | None =>
            let stream := mkStream 0 info s.(telemetry_initialWindowBytes) id in
            (OpenAccepted
               (createTelemetryOpenOk stream.(stream_streamId) s.(telemetry_initialWindowBytes))
               stream,
             with_telemetry_maps s
               (JsMap.set s.(telemetry_streamsById) stream.(stream_streamId) stream)
               (JsMap.set s.(telemetry_streamIdsBySignal)
                  stream.(stream_info).(telemetry_signal) stream.(stream_streamId)))
        end
    end.

Definition telemetry_closeStream (streamId : Z) (s : BootstrapTelemetrySession)
    : option ActiveBootstrapTelemetryStream * BootstrapTelemetrySession :=
  match JsMap.get s.(telemetry_streamsById) streamId with
  | None => (None, s)
  | Some stream =>
      (Some stream,
       with_telemetry_maps s
         (JsMap.delete s.(telemetry_streamsById) streamId)
         (JsMap.delete s.(telemetry_streamIdsBySignal) stream.(stream_info).(telemetry_signal)))
  end.

Definition telemetry_closeAllStreams (s : BootstrapTelemetrySession)
    : list ActiveBootstrapTelemetryStream * BootstrapTelemetrySession :=
  let streams := JsMap.values s.(telemetry_streamsById) in
  (streams, with_telemetry_maps s JsMap.empty JsMap.empty).

Definition telemetry_stream_not_found (streamId : Z) : IngressControlMessage :=
  createTelemetryReset streamId "telemetry_stream_not_found"
    ("Telemetry stream " +:+ String_of_number streamId
     +:+ " is not open on this bootstrap session.").

Definition telemetry_consumeWindow (payloadByteLength streamId : Z)
    (s : BootstrapTelemetrySession)
    : ConsumeWindowResult TelemetryInfo * BootstrapTelemetrySession :=
  match JsMap.get s.(telemetry_streamsById) streamId with
  | None => (ConsumeReset (telemetry_stream_not_found streamId) None, s)
  | Some stream =>
      if stream.(remainingWindowBytes) <? payloadByteLength then
        let s := (telemetry_closeStream stream.(stream_streamId) s).2 in
        (ConsumeReset (createTelemetryReset streamId "telemetry_window_exhausted"
           ("Telemetry stream " +:+ String_of_number streamId +:+ " exhausted its receive window."))
           (Some stream), s)
      else
        let stream := mkStream (stream.(consumedSinceLastWindowGrantBytes) + payloadByteLength)
          stream.(stream_info) (stream.(remainingWindowBytes) - payloadByteLength)
          stream.(stream_streamId) in
        (ConsumeOk stream,
         with_telemetry_maps s (JsMap.set s.(telemetry_streamsById) streamId stream)
           s.(telemetry_streamIdsBySignal))
  end.

Definition telemetry_grantWindowIfNeeded (streamId : Z) (s : BootstrapTelemetrySession)
    : option IngressControlMessage * BootstrapTelemetrySession :=
  match JsMap.get s.(telemetry_streamsById) streamId with
  | None => (None, s)
  | Some stream =>
      if stream.(consumedSinceLastWindowGrantBytes) <? s.(telemetry_windowGrantBatchBytes) then
        (None, s)
      else
        let grantedBytes := stream.(consumedSinceLastWindowGrantBytes) in
        (Some (createTelemetryWindow streamId grantedBytes),
         with_telemetry_maps s
           (JsMap.set s.(telemetry_streamsById) streamId
              (mkStream 0 stream.(stream_info) (stream.(remainingWindowBytes) + grantedBytes)
                 stream.(stream_streamId)))
           s.(telemetry_streamIdsBySignal))
  end.

(** The payload kind of the input is not read. *)
Definition telemetry_invalidateStream (streamId : Z) (s : BootstrapTelemetrySession)
    : (IngressControlMessage * option ActiveBootstrapTelemetryStream)
      * BootstrapTelemetrySession :=
  let (stream, s) := telemetry_closeStream streamId s in
  match stream with
  | None => ((telemetry_stream_not_found streamId, None), s)
  | Some stream =>
      ((createTelemetryReset streamId "invalid_telemetry_payload_kind"
          "Telemetry streams only accept raw-bytes payloads.", Some stream), s)
  end.

Definition telemetry_streamCount (s : BootstrapTelemetrySession) : nat :=
  JsMap.size s.(telemetry_streamsById).

(** ** The interface of a session and its laws *)

Class IngressSession (Open Info T : Type) : Type := {
  session_new : Z → Z → T;
  session_ok : T → Prop;
  session_streams : T → JsMap.t Z (ActiveStream Info);
  session_initialWindowBytes : T → Z;
  session_windowGrantBatchBytes : T → Z;
  session_openStream : Open → T → OpenStreamResult Info * T;
  session_closeStream : Z → T → option (ActiveStream Info) * T;
  session_closeAllStreams : T → list (ActiveStream Info) * T;
  session_consumeWindow : Z → Z → T → ConsumeWindowResult Info * T;
  session_grantWindowIfNeeded : Z → T → option IngressControlMessage * T;
}.

(** [s'] is a well-formed session with the parameters of [s] and these streams. *)
Definition becomes `{IngressSession Open Info T} (s s' : T) (streams : Z → option (ActiveStream Info))
    : Prop :=
  session_ok s' ∧
  session_initialWindowBytes s' = session_initialWindowBytes s ∧
  session_windowGrantBatchBytes s' = session_windowGrantBatchBytes s ∧
  ∀ id, JsMap.get (session_streams s') id = streams id.

Definition put_stream {I} (streams : JsMap.t Z (ActiveStream I)) (id : Z)
    (o : option (ActiveStream I)) : Z → option (ActiveStream I) :=
  λ id', if decide (id = id') then o else JsMap.get streams id'.

Definition consumed {I} (stream : ActiveStream I) (n : Z) : ActiveStream I :=
  mkStream (stream.(consumedSinceLastWindowGrantBytes) + n) stream.(stream_info)
    (stream.(remainingWindowBytes) - n) stream.(stream_streamId).

Definition granted {I} (stream : ActiveStream I) : ActiveStream I :=
  mkStream 0 stream.(stream_info)
    (stream.(remainingWindowBytes) + stream.(consumedSinceLastWindowGrantBytes))
    stream.(stream_streamId).

Class IngressSessionLaws (Open Info T : Type) `{IngressSession Open Info T} : Prop := {
  law_new initial batch :
    session_ok (session_new initial batch) ∧
    session_initialWindowBytes (session_new initial batch) = initial ∧
    session_windowGrantBatchBytes (session_new initial batch) = batch ∧
    ∀ id, JsMap.get (session_streams (session_new initial batch)) id = None;
  law_open o s : session_ok s →
    let (result, s') := session_openStream o s in
    match result with
    | OpenAccepted response stream => ∃ family,
        let id := stream.(stream_streamId) in
        response = OpenOK family id (session_initialWindowBytes s) ∧
        JsMap.get (session_streams s) id = None ∧
        stream.(consumedSinceLastWindowGrantBytes) = 0 ∧
        stream.(remainingWindowBytes) = session_initialWindowBytes s ∧
        becomes s s' (put_stream (session_streams s) id (Some stream))
    | OpenRejected response => s' = s ∧ ∃ family id code message,
        response = OpenError family id code message
    end;
  law_close id s : session_ok s →
    let (result, s') := session_closeStream id s in
    result = JsMap.get (session_streams s) id ∧
    becomes s s' (put_stream (session_streams s) id None);
  law_closeAll s : session_ok s →
    let (result, s') := session_closeAllStreams s in
    result = JsMap.values (session_streams s) ∧ becomes s s' (λ _, None);
  law_consume n id s : session_ok s →
    let (result, s') := session_consumeWindow n id s in
    match JsMap.get (session_streams s) id with
    | None => s' = s ∧ ∃ family code message,
        result = ConsumeReset (StreamReset family id code message) None
    | Some stream =>
        if decide (n ≤ stream.(remainingWindowBytes)) then
          result = ConsumeOk (consumed stream n) ∧
          becomes s s' (put_stream (session_streams s) id (Some (consumed stream n)))
        else
          (∃ family code message,
            result = ConsumeReset (StreamReset family id code message) (Some stream)) ∧
          becomes s s' (put_stream (session_streams s) id None)
    end;
  law_grant id s : session_ok s →
    let (result, s') := session_grantWindowIfNeeded id s in
    match JsMap.get (session_streams s) id with
    | Some stream =>
        if decide (session_windowGrantBatchBytes s ≤ stream.(consumedSinceLastWindowGrantBytes))
        then (∃ family, result =
                Some (StreamWindow family id stream.(consumedSinceLastWindowGrantBytes))) ∧
             becomes s s' (put_stream (session_streams s) id (Some (granted stream)))
        else result = None ∧ s' = s
    | None => result = None ∧ s' = s
    end;
}.

#[export] Instance operation_session
    : IngressSession OpenOperationInput OperationInfo BootstrapOperationSession := {
  session_new := new_operation_session;
  session_ok s := ∀ id stream, JsMap.get s.(operation_streamsById) id = Some stream →
    stream.(stream_streamId) = id ∧ id = OperationStreamId;
  session_streams := operation_streamsById;
  session_initialWindowBytes := operation_initialWindowBytes;
  session_windowGrantBatchBytes := operation_windowGrantBatchBytes;
  session_openStream := operation_openStream;
  session_closeStream := operation_closeStream;
  session_closeAllStreams := operation_closeAllStreams;
  session_consumeWindow := operation_consumeWindow;
  session_grantWindowIfNeeded := operation_grantWindowIfNeeded;
}.

(** The two maps of a telemetry session agree, and a stream has a format its
    signal supports. *)
Record telemetry_ok (s : BootstrapTelemetrySession) : Prop := {
  telemetry_ok_id id stream : JsMap.get s.(telemetry_streamsById) id = Some stream →
    stream.(stream_streamId) = id ∧ isSupportedTelemetryStream stream.(stream_info) = true;
  telemetry_ok_signal signal id :
    JsMap.get s.(telemetry_streamIdsBySignal) signal = Some id ↔
    ∃ stream, JsMap.get s.(telemetry_streamsById) id = Some stream ∧
              stream.(stream_info).(telemetry_signal) = signal;
}.

#[export] Instance telemetry_session
    : IngressSession OpenTelemetryInput TelemetryInfo BootstrapTelemetrySession := {
  session_new := new_telemetry_session;
  session_ok := telemetry_ok;
  session_streams := telemetry_streamsById;
  session_initialWindowBytes := telemetry_initialWindowBytes;
  session_windowGrantBatchBytes := telemetry_windowGrantBatchBytes;
  session_openStream := telemetry_openStream;
  session_closeStream := telemetry_closeStream;
  session_closeAllStreams := telemetry_closeAllStreams;
  session_consumeWindow := telemetry_consumeWindow;
  session_grantWindowIfNeeded := telemetry_grantWindowIfNeeded;
}.

(** ** The laws hold *)

Lemma get_set_put {I} (m : JsMap.t Z (ActiveStream I)) id stream id' :
  JsMap.get (JsMap.set m id stream) id' = put_stream m id (Some stream) id'.
Proof. apply JsMap.get_set. Qed.

Lemma get_delete_put {I} (m : JsMap.t Z (ActiveStream I)) id id' :
  JsMap.get (JsMap.delete m id) id' = put_stream m id None id'.
Proof. apply JsMap.get_delete. Qed.

Lemma put_stream_absent {I} (m : JsMap.t Z (ActiveStream I)) id id' :
  JsMap.get m id = None → JsMap.get m id' = put_stream m id None id'.
Proof. intros. unfold put_stream. by case_decide; subst. Qed.

Lemma put_stream_cases {I} (m : JsMap.t Z (ActiveStream I)) id o id' stream :
  put_stream m id o id' = Some stream →
  (id = id' ∧ o = Some stream) ∨ JsMap.get m id' = Some stream.
Proof. unfold put_stream. case_decide; auto. Qed.

#[export] Hint Rewrite @get_set_put @get_delete_put : mistle.

(** A session whose streams are those of [m], all of them as the invariant [P] wants. *)
Ltac becomes_put :=
  split; [|split; [done|split; [done|
    intros ?; cbn [session_streams operation_session telemetry_session operation_streamsById
      telemetry_streamsById with_operation_streams with_telemetry_maps];
    first [apply get_set_put|apply get_delete_put|by apply put_stream_absent|done]]]].

Lemma operation_put_ok (s : BootstrapOperationSession) m id o :
  session_ok s → (∀ id', JsMap.get m id' = put_stream s.(operation_streamsById) id o id') →
  (∀ stream, o = Some stream → stream.(stream_streamId) = id ∧ id = OperationStreamId) →
  session_ok (with_operation_streams s m).
Proof.
  intros Hs Hm Ho id' stream. simpl. rewrite Hm.
  intros [[<- ?]|?]%put_stream_cases; [by apply Ho|by apply Hs].
Qed.

#[export] Instance operation_session_laws :
  IngressSessionLaws OpenOperationInput OperationInfo BootstrapOperationSession.
Proof.
  apply (Build_IngressSessionLaws _ _ _ _).
  - done.
  - intros o s Hs. cbn [session_openStream operation_session]. unfold operation_openStream.
    cbv zeta. case_bool_decide as Hid; cbn [negb]; [|by eauto 8].
    case_bool_decide; cbn [negb]; [|by eauto 8].
    destruct (JsMap.has _ _) eqn:Hhas; [by eauto 8|].
    apply JsMap.has_false in Hhas. eexists. do 4 (split; [done|]). becomes_put.
    eapply operation_put_ok; [done|intros ?; apply get_set_put|]. by intros ? [= <-].
  - intros id s Hs. cbn [session_closeStream operation_session]. unfold operation_closeStream.
    cbn [session_streams operation_session].
    destruct (JsMap.get _ id) as [stream|] eqn:Hget; (split; [done|]); becomes_put; [|done].
    by eapply operation_put_ok; [done|intros ?; apply get_delete_put|].
  - done.
  - intros n id s Hs. cbn [session_consumeWindow session_streams operation_session].
    unfold operation_consumeWindow.
    destruct (JsMap.get _ id) as [stream|] eqn:Hget; [|by eauto 8].
    destruct (Hs _ _ Hget) as [Hid Hop].
    destruct (Z.ltb_spec (remainingWindowBytes stream) n).
    + rewrite decide_False by lia. split; [by eauto|]. unfold operation_closeStream.
      rewrite Hid, Hget. becomes_put.
      by eapply operation_put_ok; [done|intros ?; apply get_delete_put|].
    + rewrite decide_True by lia. split; [done|]. becomes_put.
      eapply operation_put_ok; [done|intros ?; apply get_set_put|]. by intros ? [= <-].
  - intros id s Hs. cbn [session_grantWindowIfNeeded session_streams operation_session].
    unfold operation_grantWindowIfNeeded. cbn [session_windowGrantBatchBytes operation_session].
    destruct (JsMap.get _ id) as [stream|] eqn:Hget; [|done].
    destruct (Hs _ _ Hget) as [Hid Hop].
    destruct (Z.ltb_spec (consumedSinceLastWindowGrantBytes stream)
      s.(operation_windowGrantBatchBytes)); [by rewrite decide_False by lia|].
    rewrite decide_True by lia. split; [by eauto|]. becomes_put.
    eapply operation_put_ok; [done|intros ?; apply get_set_put|]. by intros ? [= <-].
Qed.

(** Changing a stream's window keeps a telemetry session well-formed; so do
    adding a stream for a free signal and removing one with its signal. *)
Lemma telemetry_update_ok (s : BootstrapTelemetrySession) id stream stream' :
  telemetry_ok s → JsMap.get s.(telemetry_streamsById) id = Some stream →
  stream'.(stream_info) = stream.(stream_info) →
  stream'.(stream_streamId) = stream.(stream_streamId) →
  telemetry_ok (with_telemetry_maps s (JsMap.set s.(telemetry_streamsById) id stream')
    s.(telemetry_streamIdsBySignal)).
Proof.
  intros Hs Hget Hinfo Hid. split; simpl.
  - intros id' r. rewrite get_set_put. intros [[<- [= <-]]|?]%put_stream_cases;
      [rewrite Hinfo, Hid|]; by apply (telemetry_ok_id _ Hs).
  - intros signal id'. rewrite (telemetry_ok_signal _ Hs), get_set_put. unfold put_stream.
    case_decide; subst; [|done]. rewrite Hget. naive_solver congruence.
Qed.

Lemma telemetry_add_ok (s : BootstrapTelemetrySession) stream :
  telemetry_ok s → isSupportedTelemetryStream stream.(stream_info) = true →
  JsMap.get s.(telemetry_streamsById) stream.(stream_streamId) = None →
  JsMap.get s.(telemetry_streamIdsBySignal) stream.(stream_info).(telemetry_signal) = None →
  telemetry_ok (with_telemetry_maps s
    (JsMap.set s.(telemetry_streamsById) stream.(stream_streamId) stream)
    (JsMap.set s.(telemetry_streamIdsBySignal) stream.(stream_info).(telemetry_signal)
       stream.(stream_streamId))).
Proof.
  intros Hs Hsup Hfree Hsignal. split; simpl.
  - intros id' r. rewrite get_set_put. intros [[<- [= <-]]|?]%put_stream_cases; [done|].
    by apply (telemetry_ok_id _ Hs).
  - intros signal id'. rewrite JsMap.get_set, get_set_put. unfold put_stream.
    pose proof (telemetry_ok_signal _ Hs signal id') as Hag.
    destruct (decide (_ = signal)) as [<-|], (decide (_ = id')) as [<-|]; rewrite ?Hag.
    + split; [by eauto|done].
    + split; [congruence|]. intros Hr. apply Hag in Hr. congruence.
    + split; naive_solver congruence.
    + done.
Qed.

Lemma telemetry_remove_ok (s : BootstrapTelemetrySession) id stream :
  telemetry_ok s → JsMap.get s.(telemetry_streamsById) id = Some stream →
  telemetry_ok (with_telemetry_maps s
    (JsMap.delete s.(telemetry_streamsById) id)
    (JsMap.delete s.(telemetry_streamIdsBySignal) stream.(stream_info).(telemetry_signal))).
Proof.
  intros Hs Hget. split; simpl.
  - intros id' r. rewrite get_delete_put. intros [[_ ?]|?]%put_stream_cases; [done|].
    by apply (telemetry_ok_id _ Hs).
  - intros signal id'. rewrite JsMap.get_delete, get_delete_put. unfold put_stream.
    pose proof (telemetry_ok_signal _ Hs) as Hag.
    assert (JsMap.get s.(telemetry_streamIdsBySignal) stream.(stream_info).(telemetry_signal) = Some id)
      as Hown by (apply Hag; eauto).
    case_decide; subst.
    + split; [done|]. case_decide; [naive_solver|]. intros (r & Hr & Heq).
      assert (JsMap.get s.(telemetry_streamIdsBySignal) stream.(stream_info).(telemetry_signal) = Some id')
        by (apply Hag; eauto). congruence.
    + rewrite Hag. case_decide; [|done]. subst. split; [|naive_solver].
      intros (r & Hr & Heq). congruence.
Qed.

#[export] Instance telemetry_session_laws :
  IngressSessionLaws OpenTelemetryInput TelemetryInfo BootstrapTelemetrySession.
Proof.
  apply (Build_IngressSessionLaws _ _ _ _).
  - intros initial batch. split; [|done]. split; [done|]. intros signal id. simpl.
    split; [done|naive_solver].
  - intros o s Hs. cbn [session_openStream telemetry_session]. unfold telemetry_openStream.
    cbv zeta. destruct (isSupportedTelemetryStream _) eqn:Hsup; cbn [negb]; [|by eauto 8].
    destruct (JsMap.get _ o.(openTelemetry_streamId)) eqn:Hid; [by eauto 8|].
    destruct (JsMap.get _ (telemetry_signal _)) eqn:Hsignal; [by eauto 8|].
    eexists. do 4 (split; [done|]). becomes_put. by apply telemetry_add_ok.
  - intros id s Hs. cbn [session_closeStream telemetry_session]. unfold telemetry_closeStream.
    cbn [session_streams telemetry_session].
    destruct (JsMap.get _ id) as [stream|] eqn:Hget; (split; [done|]); becomes_put; [|done].
    by apply telemetry_remove_ok.
  - intros s Hs. split; [done|]. split; [|done]. split; [done|]. intros signal id. simpl.
    split; [done|naive_solver].
  - intros n id s Hs. cbn [session_consumeWindow session_streams telemetry_session].
    unfold telemetry_consumeWindow, telemetry_stream_not_found, createTelemetryReset.
    destruct (JsMap.get _ id) as [stream|] eqn:Hget; [|by eauto 8].
    destruct (telemetry_ok_id _ Hs _ _ Hget) as [Hid _].
    destruct (Z.ltb_spec (remainingWindowBytes stream) n).
    + rewrite decide_False by lia. split; [by eauto|]. unfold telemetry_closeStream.
      rewrite Hid, Hget. becomes_put. by apply telemetry_remove_ok.
    + rewrite decide_True by lia. split; [done|]. becomes_put.
      by apply telemetry_update_ok with stream.
  - intros id s Hs. cbn [session_grantWindowIfNeeded session_streams telemetry_session].
    unfold telemetry_grantWindowIfNeeded.
    cbn [session_windowGrantBatchBytes telemetry_session].
    destruct (JsMap.get _ id) as [stream|] eqn:Hget; [|done].
    destruct (Z.ltb_spec (consumedSinceLastWindowGrantBytes stream)
      s.(telemetry_windowGrantBatchBytes)); [by rewrite decide_False by lia|].
    rewrite decide_True by lia. split; [by eauto|]. becomes_put.
    by apply telemetry_update_ok with stream.
Qed.

(** ** The peer's credit *)

(** What happens to a session, one atomic step each: a data frame is consumed in
    one step and the window granted in a later one, since the service persists
    the payload in between and other frames may arrive meanwhile. *)
Inductive ingress_event (Open : Type) : Type :=
| PeerOpens (input : Open)
| PeerSends (streamId payloadByteLength : Z)
| PeerCloses (streamId : Z)
| GatewayGrants (streamId : Z)
| GatewayClosesAll.
Arguments PeerOpens {Open}. Arguments PeerSends {Open}. Arguments PeerCloses {Open}.
Arguments GatewayGrants {Open}. Arguments GatewayClosesAll {Open}.

Section Ledger.
Context `{IngressSessionLaws Open Info T}.
Implicit Types (s : T) (event : ingress_event Open).

(** The control messages sent to the peer, and the session after the event. *)
Definition ingress_step event s : list IngressControlMessage * T :=
  match event with
  | PeerOpens input =>
      let (result, s) := session_openStream input s in
      (match result with OpenAccepted response _ | OpenRejected response => [response] end, s)
  | PeerSends id n =>
      let (result, s) := session_consumeWindow n id s in
      (match result with ConsumeOk _ => [] | ConsumeReset response _ => [response] end, s)
  | PeerCloses id => let (_, s) := session_closeStream id s in ([], s)
  | GatewayGrants id =>
      let (result, s) := session_grantWindowIfNeeded id s in (option_list result, s)
  | GatewayClosesAll => let (_, s) := session_closeAllStreams s in ([], s)
  end.

(** The credit of each open stream as the peer sees it. *)
Definition peer_ledger : Type := Z → option Z.

Definition put_credit (l : peer_ledger) (id : Z) (o : option Z) : peer_ledger :=
  λ id', if decide (id = id') then o else l id'.

Definition peer_acts event (l : peer_ledger) : peer_ledger :=
  match event with
  | PeerSends id n => put_credit l id ((λ c, c - n) <$> l id)
  | PeerCloses id => put_credit l id None
  | GatewayClosesAll => λ _, None
  | PeerOpens _ | GatewayGrants _ => l
  end.

Definition peer_receives (l : peer_ledger) (message : IngressControlMessage) : peer_ledger :=
  match message with
  | OpenOK _ id window => put_credit l id (Some window)
  | OpenError _ _ _ _ => l
  | StreamReset _ id _ _ => put_credit l id None
  | StreamWindow _ id bytes => put_credit l id ((λ c, c + bytes) <$> l id)
  end.

Fixpoint ingress_run (events : list (ingress_event Open)) (s : T) (l : peer_ledger)
    : T * peer_ledger :=
  match events with
  | [] => (s, l)
  | event :: events =>
      let (messages, s) := ingress_step event s in
      ingress_run events s (foldl peer_receives (peer_acts event l) messages)
  end.

Definition payload_ok event : Prop :=
  match event with PeerSends _ n => 0 ≤ n | _ => True end.

(** The window of every stream is the peer's credit, and what the gateway has
    consumed and not granted yet is what the credit lacks. *)
Record ledger_ok (initial batch : Z) s (l : peer_ledger) : Prop := {
  ledger_session_ok : session_ok s;
  ledger_initial : session_initialWindowBytes s = initial;
  ledger_batch : session_windowGrantBatchBytes s = batch;
  ledger_credit id : l id = remainingWindowBytes <$> JsMap.get (session_streams s) id;
  ledger_window id stream : JsMap.get (session_streams s) id = Some stream →
    stream.(remainingWindowBytes) + stream.(consumedSinceLastWindowGrantBytes) = initial ∧
    0 ≤ stream.(remainingWindowBytes) ∧ 0 ≤ stream.(consumedSinceLastWindowGrantBytes);
}.

Lemma ledger_ok_put initial batch s s' l l' id (o : option (ActiveStream Info)) :
  ledger_ok initial batch s l → becomes s s' (put_stream (session_streams s) id o) →
  (∀ id', l' id' = put_credit l id (remainingWindowBytes <$> o) id') →
  (∀ stream, o = Some stream →
    stream.(remainingWindowBytes) + stream.(consumedSinceLastWindowGrantBytes) = initial ∧
    0 ≤ stream.(remainingWindowBytes) ∧ 0 ≤ stream.(consumedSinceLastWindowGrantBytes)) →
  ledger_ok initial batch s' l'.
Proof.
  intros [] (? & ? & ? & Hstreams) Hl Ho. split; [done|congruence|congruence| |].
  - intros id'. rewrite Hl, Hstreams. unfold put_credit, put_stream. by case_decide.
  - intros id' stream. rewrite Hstreams. intros [[_ ?]|?]%put_stream_cases; eauto.
Qed.

Lemma put_credit_twice l id a b id' :
  put_credit (put_credit l id a) id b id' = put_credit l id b id'.
Proof. unfold put_credit. by case_decide. Qed.

Lemma put_credit_same l id id' : l id' = put_credit l id (l id) id'.
Proof. unfold put_credit. case_decide; by subst. Qed.

Lemma ingress_step_ok initial batch event s l :
  0 ≤ initial → ledger_ok initial batch s l → payload_ok event →
  let (messages, s') := ingress_step event s in
  ledger_ok initial batch s' (foldl peer_receives (peer_acts event l) messages).
Proof.
  intros Hinit Hok Hpay. pose proof (ledger_session_ok _ _ _ _ Hok) as Hs.
  destruct event as [o|id n|id|id|]; simpl.
  - pose proof (law_open o s Hs) as Hlaw. destruct (session_openStream o s) as [[]s']; simpl.
    + destruct Hlaw as (family & -> & Hnone & Hcon & Hrem & Hb). simpl.
      eapply ledger_ok_put; [done..| |].
      * intros id'. simpl. by rewrite Hrem.
      * intros ? [= <-]. rewrite Hcon, Hrem, (ledger_initial _ _ _ _ Hok). lia.
    + by destruct Hlaw as (-> & ? & ? & ? & ? & ->).
  - pose proof (law_consume n id s Hs) as Hlaw. pose proof (ledger_credit _ _ _ _ Hok id) as Hc.
    destruct (session_consumeWindow n id s) as [result s'].
    destruct (JsMap.get (session_streams s) id) as [stream|] eqn:Hget.
    + destruct (ledger_window _ _ _ _ Hok _ _ Hget) as (Hsum & Hr & Hcon).
      case_decide; destruct Hlaw as [Hres Hb].
      * subst result. simpl. eapply ledger_ok_put; [done..| |].
        -- intros id'. by rewrite Hc.
        -- intros ? [= <-]. simpl in *. lia.
      * destruct Hres as (? & ? & ? & ->). simpl. eapply ledger_ok_put; [done..| |done].
        intros id'. apply put_credit_twice.
    + destruct Hlaw as (-> & ? & ? & ? & ->). simpl. destruct Hok. split; try done.
      intros id'. rewrite put_credit_twice. unfold put_credit. case_decide; subst; [by rewrite Hget|done].
  - pose proof (law_close id s Hs) as Hlaw. destruct (session_closeStream id s) as [r s'].
    destruct Hlaw as [_ Hb]. by eapply ledger_ok_put.
  - pose proof (law_grant id s Hs) as Hlaw. pose proof (ledger_credit _ _ _ _ Hok id) as Hc.
    destruct (session_grantWindowIfNeeded id s) as [result s'].
    destruct (JsMap.get (session_streams s) id) as [stream|] eqn:Hget; [|by destruct Hlaw as [-> ->]].
    destruct (ledger_window _ _ _ _ Hok _ _ Hget) as (Hsum & Hr & Hcon).
    case_decide; [|by destruct Hlaw as [-> ->]].
    destruct Hlaw as [[family ->] Hb]. simpl. eapply ledger_ok_put; [done..| |].
    + intros id'. by rewrite Hc.
    + intros ? [= <-]. simpl in *. lia.
  - pose proof (law_closeAll s Hs) as Hlaw. destruct (session_closeAllStreams s) as [r s'].
    destruct Hlaw as (_ & ? & ? & ? & Hnone). destruct Hok.
    split; [done|congruence|congruence| |]; intros id; by rewrite Hnone.
Qed.

Lemma ingress_run_ok initial batch events s l :
  0 ≤ initial → ledger_ok initial batch s l → Forall payload_ok events →
  let (s', l') := ingress_run events s l in ledger_ok initial batch s' l'.
Proof.
  intros Hinit. revert s l. induction events as [|event events IH]; [done|].
  intros s l Hok [Hpay Hpays]%Forall_cons. simpl.
  pose proof (ingress_step_ok initial batch event s l Hinit Hok Hpay) as Hstep.
  destruct (ingress_step event s). by apply IH.
Qed.

Lemma ledger_ok_new initial batch : ledger_ok initial batch (session_new initial batch) (λ _, None).
Proof.
  destruct (law_new initial batch) as (? & ? & ? & Hnone).
  split; [done..| |]; intros id; by rewrite Hnone.
Qed.
End Ledger.

(** ** What the windows promise *)

(** In every state a session can reach from its creation, a data frame is accepted
    exactly when it fits the credit the peer computes, that credit is within
    the window, and after a grant it is within a batch of the whole window. *)
Definition window_is_credit (T : Type) `{IngressSession Open Info T} (initial batch : Z) : Prop :=
  ∀ events : list (ingress_event Open), Forall payload_ok events →
  let (s, l) := ingress_run events (session_new (T := T) initial batch) (λ _, None) in
  (∀ id n, (∃ stream, (session_consumeWindow n id s).1 = ConsumeOk stream) ↔
           ∃ c, l id = Some c ∧ n ≤ c) ∧
  (∀ id c, l id = Some c → 0 ≤ c ≤ initial) ∧
  (∀ id c, let (messages, _) := ingress_step (GatewayGrants id) s in
    foldl peer_receives l messages id = Some c → initial - batch < c).

Lemma window_is_credit_laws `{IngressSessionLaws Open Info T} (initial batch : Z) :
  0 ≤ initial → 0 < batch → window_is_credit T initial batch.
Proof.
  intros Hinit Hbatch events Hpay.
  pose proof (ingress_run_ok initial batch events _ _ Hinit (ledger_ok_new initial batch) Hpay) as Hok.
  destruct (ingress_run _ _ _) as [s l]. pose proof (ledger_session_ok _ _ _ _ Hok) as Hs.
  split_and!.
  - intros id n. rewrite (ledger_credit _ _ _ _ Hok id).
    pose proof (law_consume n id s Hs) as Hlaw. destruct (session_consumeWindow n id s) as [r s'].
    destruct (JsMap.get _ id) as [stream|]; simpl.
    + case_decide; destruct Hlaw as [Hr _]; [subst r; naive_solver|].
      destruct Hr as (? & ? & ? & ->). naive_solver.
    + destruct Hlaw as (_ & ? & ? & ? & ->). naive_solver.
  - intros id c. rewrite (ledger_credit _ _ _ _ Hok id).
    destruct (JsMap.get _ id) as [stream|] eqn:Hget; [|done]. intros [= <-].
    pose proof (ledger_window _ _ _ _ Hok _ _ Hget). lia.
  - intros id c. simpl. pose proof (law_grant id s Hs) as Hlaw.
    pose proof (ledger_credit _ _ _ _ Hok id) as Hc.
    destruct (session_grantWindowIfNeeded id s) as [r s'].
    destruct (JsMap.get _ id) as [stream|] eqn:Hget.
    + pose proof (ledger_window _ _ _ _ Hok _ _ Hget). rewrite (ledger_batch _ _ _ _ Hok) in Hlaw.
      case_decide; destruct Hlaw as [Hr ?]; [destruct Hr as [family ->]|subst r];
        simpl; [unfold put_credit; rewrite decide_True by done|]; rewrite Hc; intros [= <-]; lia.
    + destruct Hlaw as [-> _]. simpl. by rewrite Hc.
Qed.

(** C18: flow control, for operation and for telemetry streams, however frames,
    grants, opens and closes interleave.  A frame is accepted exactly when it
    fits the credit its sender computes from the messages it has seen: a sender
    that keeps to its credit is never reset for an exhausted window, and one
    that does not always is.  The credit never exceeds the window, and after a
    grant it is more than the window less a batch, so a sender is never starved. *)
Theorem ingress_flow_control (initial batch : Z) :
  0 ≤ initial → 0 < batch →
  window_is_credit BootstrapOperationSession initial batch ∧
  window_is_credit BootstrapTelemetrySession initial batch.
Proof. intros. split; by apply window_is_credit_laws. Qed.

Lemma ingress_flow_control_witness :
  let events := [PeerOpens (mkOpenTelemetry (mkTelemetryInfo SandboxTelemetryLogFormat Logs) 7);
                 PeerSends 7 60; PeerSends 7 30; GatewayGrants 7; PeerSends 7 20] in
  let (s, l) := ingress_run events (session_new (T := BootstrapTelemetrySession) 100 50)
                  (λ _, None) in
  l 7 = Some 80 ∧
  (telemetry_consumeWindow 80 7 s).1 =
    ConsumeOk (mkStream 100 (mkTelemetryInfo SandboxTelemetryLogFormat Logs) 0 7) ∧
  ¬ ∃ stream, (session_consumeWindow 81 7 s).1 = ConsumeOk stream.
Proof.
  destruct (ingress_flow_control 100 50 ltac:(lia) ltac:(lia)) as [_ H].
  specialize (H [PeerOpens (mkOpenTelemetry (mkTelemetryInfo SandboxTelemetryLogFormat Logs) 7);
                 PeerSends 7 60; PeerSends 7 30; GatewayGrants 7; PeerSends 7 20]
                ltac:(repeat constructor; simpl; lia)).
  cbv zeta. destruct (ingress_run _ _ _) as [s l] eqn:Hrun. destruct H as (H & _ & _).
  assert (l 7 = Some 80) as Hl.
  { change l with (s, l).2. rewrite <-Hrun. vm_compute. reflexivity. }
  split; [done|]. split.
  - change s with (s, l).1. rewrite <-Hrun. vm_compute. reflexivity.
  - rewrite H, Hl. intros (c & [= <-] & ?). lia.
Defined.

(** The invariant of a session needs nothing of its peer. *)
Lemma ingress_run_session_ok `{IngressSessionLaws Open Info T} (events : list (ingress_event Open))
    (s : T) l : session_ok s → session_ok (ingress_run events s l).1.
Proof.
  revert s l. induction events as [|event events IH]; intros s l Hs; [done|]. simpl.
  assert (session_ok (ingress_step event s).2) as Hstep.
  { destruct event as [o|id n|id|id|]; simpl.
    - pose proof (law_open o s Hs). destruct (session_openStream o s) as [[]?]; simpl;
        unfold becomes in *; naive_solver.
    - pose proof (law_consume n id s Hs). destruct (session_consumeWindow n id s) as [??]; simpl.
      destruct (JsMap.get _ id); [case_decide|]; unfold becomes in *; naive_solver.
    - pose proof (law_close id s Hs). destruct (session_closeStream id s) as [??]; simpl.
      unfold becomes in *; naive_solver.
    - pose proof (law_grant id s Hs). destruct (session_grantWindowIfNeeded id s) as [??]; simpl.
      destruct (JsMap.get _ id); [case_decide|]; unfold becomes in *; naive_solver.
    - pose proof (law_closeAll s Hs). destruct (session_closeAllStreams s) as [??]; simpl.
      unfold becomes in *; naive_solver. }
  destruct (ingress_step event s) as [messages s']. by apply IH.
Qed.

Lemma telemetry_open_accepts input s :
  telemetry_ok s →
  (∃ response stream, (telemetry_openStream input s).1 = OpenAccepted response stream) ↔
  isSupportedTelemetryStream input.(openTelemetry_info) = true ∧
  JsMap.get s.(telemetry_streamsById) input.(openTelemetry_streamId) = None ∧
  ¬ ∃ id stream, JsMap.get s.(telemetry_streamsById) id = Some stream ∧
      stream.(stream_info).(telemetry_signal) = input.(openTelemetry_info).(telemetry_signal).
Proof.
  intros Hs. unfold telemetry_openStream. cbv zeta.
  destruct (isSupportedTelemetryStream _); cbn [negb]; [|naive_solver].
  destruct (JsMap.get _ input.(openTelemetry_streamId)); [naive_solver|].
  pose proof (telemetry_ok_signal _ Hs (input.(openTelemetry_info).(telemetry_signal))) as Hag.
  destruct (JsMap.get _ (telemetry_signal _)) as [id|]; simpl.
  - split; [naive_solver|]. intros (_ & _ & []). exists id. by apply Hag.
  - split; [|by eauto]. intros _. do 2 (split; [done|]). intros (id & H).
    by apply Hag in H.
Qed.

Lemma telemetry_invalidate_closes id s :
  telemetry_ok s →
  let '(response, stream, s') := telemetry_invalidateStream id s in
  stream = JsMap.get s.(telemetry_streamsById) id ∧ telemetry_ok s' ∧
  JsMap.get s'.(telemetry_streamsById) id = None ∧
  match stream with
  | None => s' = s ∧ response = telemetry_stream_not_found id
  | Some stream =>
      JsMap.get s'.(telemetry_streamIdsBySignal) stream.(stream_info).(telemetry_signal) = None ∧
      response = createTelemetryReset id "invalid_telemetry_payload_kind"
                   "Telemetry streams only accept raw-bytes payloads."
  end.
Proof.
  intros Hs. unfold telemetry_invalidateStream, telemetry_closeStream.
  destruct (JsMap.get _ id) as [stream|] eqn:Hget; [|done].
  split; [done|]. split; [by apply telemetry_remove_ok|]. simpl. by rewrite !JsMap.get_delete_eq.
Qed.

Lemma operation_open_accepts input s :
  session_ok (T := BootstrapOperationSession) s →
  (∃ response stream, (operation_openStream input s).1 = OpenAccepted response stream) ↔
  input.(openOperation_streamId) = OperationStreamId ∧
  input.(openOperation_format) = OperationStreamFormat ∧
  ∀ id, JsMap.get s.(operation_streamsById) id = None.
Proof.
  intros Hs. unfold operation_openStream. cbv zeta.
  case_bool_decide as Hid; cbn [negb]; [|naive_solver].
  case_bool_decide; cbn [negb]; [|naive_solver]. rewrite Hid.
  destruct (JsMap.has _ _) eqn:Hhas; simpl.
  - apply JsMap.has_spec in Hhas as [? Hget]. split; [naive_solver|].
    intros (_ & _ & Hnone). by rewrite Hnone in Hget.
  - apply JsMap.has_false in Hhas. split; [|by eauto]. intros _. do 2 (split; [done|]).
    intros id. destruct (JsMap.get _ id) as [stream|] eqn:Hget; [|done].
    destruct (Hs _ _ Hget) as [_ ->]. congruence.
Qed.

(** In every state a telemetry session can reach, its two maps agree, so a
    signal has at most one open stream; and a stream is opened exactly when its
    format is the signal's, its id is not open and its signal has no stream.
    Invalidating a stream closes it and answers why, and with it frees its
    signal; an operation stream is opened exactly under the reserved id, with
    its one format, once. *)
Theorem ingress_open_spec (initial batch : Z) :
  (∀ events,
    let s := (ingress_run events (session_new (T := BootstrapTelemetrySession) initial batch)
                (λ _, None)).1 in
    telemetry_ok s ∧
    (∀ input, (∃ response stream, (telemetry_openStream input s).1 = OpenAccepted response stream) ↔
      isSupportedTelemetryStream input.(openTelemetry_info) = true ∧
      JsMap.get s.(telemetry_streamsById) input.(openTelemetry_streamId) = None ∧
      ¬ ∃ id stream, JsMap.get s.(telemetry_streamsById) id = Some stream ∧
          stream.(stream_info).(telemetry_signal) = input.(openTelemetry_info).(telemetry_signal)) ∧
    (∀ id, let '(response, stream, s') := telemetry_invalidateStream id s in
      stream = JsMap.get s.(telemetry_streamsById) id ∧ telemetry_ok s' ∧
      JsMap.get s'.(telemetry_streamsById) id = None ∧
      match stream with
      | None => s' = s ∧ response = telemetry_stream_not_found id
      | Some stream =>
          JsMap.get s'.(telemetry_streamIdsBySignal) stream.(stream_info).(telemetry_signal) = None ∧
          response = createTelemetryReset id "invalid_telemetry_payload_kind"
                       "Telemetry streams only accept raw-bytes payloads."
      end)) ∧
  (∀ events,
    let s := (ingress_run events (session_new (T := BootstrapOperationSession) initial batch)
                (λ _, None)).1 in
    ∀ input, (∃ response stream, (operation_openStream input s).1 = OpenAccepted response stream) ↔
      input.(openOperation_streamId) = OperationStreamId ∧
      input.(openOperation_format) = OperationStreamFormat ∧
      ∀ id, JsMap.get s.(operation_streamsById) id = None).
Proof.
  assert (∀ events, telemetry_ok
    (ingress_run events (session_new (T := BootstrapTelemetrySession) initial batch)
       (λ _, None)).1) as Htel.
  { intros events. change (session_ok (T := BootstrapTelemetrySession)
      (ingress_run events (session_new (T := BootstrapTelemetrySession) initial batch)
         (λ _, None)).1). apply ingress_run_session_ok, law_new. }
  split.
  - intros events s. specialize (Htel events). change (telemetry_ok s) in Htel. split; [done|].
    split; [by intros; apply telemetry_open_accepts|by intros; apply telemetry_invalidate_closes].
  - intros events s input. apply operation_open_accepts, ingress_run_session_ok, law_new.
Qed.
