(* ===== verification/Json.v ===== *)
(** * JSON values and their text

    [JSON.parse] and [JSON.stringify] of the language, on strings as their UTF-8
    bytes, and the round trip the protocol relies on.  An object is a [Map] of its
    properties in the order the language lists them (JsObject.v).  A number is an integer in
    the range where integers are exact, or anything else by its text. *)

From S2P Require Import Prelude JsMap JsObject.
Local Open Scope Z_scope.

Inductive json : Type :=
| JNull
| JBool (b : bool)
| JNumber (x : number)
| JString (s : string)
| JArray (l : list json)
| JObject (fields : JsMap.t string json).

(** Induction with the hypothesis for every element and field. *)
Fixpoint json_ind' (P : json → Prop) (Hnull : P JNull) (Hbool : ∀ b, P (JBool b))
    (Hnumber : ∀ x, P (JNumber x)) (Hstring : ∀ s, P (JString s))
    (Harray : ∀ l, Forall P l → P (JArray l))
    (Hobject : ∀ fields, Forall (λ f, P f.2) fields → P (JObject fields)) (v : json) : P v :=
  let rec := json_ind' P Hnull Hbool Hnumber Hstring Harray Hobject in
  match v with
  | JNull => Hnull
  | JBool b => Hbool b
  | JNumber x => Hnumber x
  | JString s => Hstring s
  | JArray l => Harray l
      ((fix go l := match l return Forall P l with
         | [] => List.Forall_nil _
         | v :: l => List.Forall_cons _ v l (rec v) (go l)
         end) l)
  | JObject fields => Hobject fields
      ((fix go l := match l return Forall (λ f, P f.2) l with
         | [] => List.Forall_nil _
         | f :: l => List.Forall_cons _ f l (rec f.2) (go l)
         end) fields)
  end.

(** ** Characters *)

Definition char (n : nat) : Ascii.ascii := Ascii.ascii_of_nat n.
Definition code (c : Ascii.ascii) : Z := Z.of_nat (Ascii.nat_of_ascii c).

Definition is_space (c : Ascii.ascii) : bool :=
  (code c =? 32) || (code c =? 9) || (code c =? 10) || (code c =? 13).
Definition is_digit (c : Ascii.ascii) : bool := (48 <=? code c) && (code c <=? 57).

Fixpoint skip_space (s : string) : string :=
  match s with
  | String c s' => if is_space c then skip_space s' else s
  | EmptyString => s
  end.

(** ** Strings *)

Definition hex_digit (c : Ascii.ascii) : option Z :=
  let n := code c in
  if is_digit c then Some (n - 48)
  else if (97 <=? n) && (n <=? 102) then Some (n - 87)
  else if (65 <=? n) && (n <=? 70) then Some (n - 55)
  else None.

Definition hex_code (n : Z) : Ascii.ascii :=
  Ascii.ascii_of_nat (Z.to_nat (if n <? 10 then n + 48 else n + 87)).

Definition byte (n : Z) : Ascii.ascii := Ascii.ascii_of_nat (Z.to_nat n).

(** The UTF-8 bytes of a code point (of a lone surrogate, its three bytes). *)
Definition utf8 (n : Z) (s : string) : string :=
  if n <? 128 then String (byte n) s
  else if n <? 2048 then String (byte (192 + n `div` 64)) (String (byte (128 + n `mod` 64)) s)
  else if n <? 65536 then
    String (byte (224 + n `div` 4096)) (String (byte (128 + n `div` 64 `mod` 64))
      (String (byte (128 + n `mod` 64)) s))
  else
    String (byte (240 + n `div` 262144)) (String (byte (128 + n `div` 4096 `mod` 64))
      (String (byte (128 + n `div` 64 `mod` 64)) (String (byte (128 + n `mod` 64)) s))).

Definition parse_hex4 (s : string) : option (Z * string) :=
  match s with
  | String a (String b (String c (String d s))) =>
      a ← hex_digit a; b ← hex_digit b; c ← hex_digit c; d ← hex_digit d;
      Some (((a * 16 + b) * 16 + c) * 16 + d, s)
  | _ => None
  end.

Definition escape_of (n : Z) : option Z :=
  if n =? 34 then Some 34 else if n =? 92 then Some 92 else if n =? 47 then Some 47
  else if n =? 98 then Some 8 else if n =? 102 then Some 12 else if n =? 110 then Some 10
  else if n =? 114 then Some 13 else if n =? 116 then Some 9 else None.

(** The characters of a string literal up to its closing quote. *)
Fixpoint parse_chars (n : nat) (s : string) : option (string * string) :=
  match n with
  | O => None
  | S n =>
      match s with
      | EmptyString => None
      | String c s =>
          if code c =? 34 then Some (EmptyString, s)
          else if code c <? 32 then None
          else if negb (code c =? 92) then
            '(t, s) ← parse_chars n s; Some (String c t, s)
          else
            match s with
            | EmptyString => None
            | String e s =>
                if code e =? 117 then
                  '(u, s) ← parse_hex4 s;
                  if (55296 <=? u) && (u <? 56320) then
                    match s with
                    | String b1 (String b2 s2) =>
                        match parse_hex4 s2 with
                        | Some (l, s3) =>
                            if (code b1 =? 92) && (code b2 =? 117) && (56320 <=? l) && (l <? 57344)
                            then '(t, s) ← parse_chars n s3;
                                 Some (utf8 (65536 + (u - 55296) * 1024 + (l - 56320)) t, s)
                            else '(t, s) ← parse_chars n s; Some (utf8 u t, s)
                        | None => '(t, s) ← parse_chars n s; Some (utf8 u t, s)
                        end
                    | _ => '(t, s) ← parse_chars n s; Some (utf8 u t, s)
                    end
                  else '(t, s) ← parse_chars n s; Some (utf8 u t, s)
                else
                  e ← escape_of (code e);
                  '(t, s) ← parse_chars n s; Some (String (byte e) t, s)
            end
      end
  end.

(** The text of a string literal after its opening quote. *)
Fixpoint chars_text (s : string) : string :=
  match s with
  | EmptyString => String (char 34) EmptyString
  | String c s =>
      let n := code c in
      let escaped e := String (char 92) (String (char e) (chars_text s)) in
      if n =? 34 then escaped 34%nat else if n =? 92 then escaped 92%nat
      else if n =? 8 then escaped 98%nat else if n =? 12 then escaped 102%nat
      else if n =? 10 then escaped 110%nat else if n =? 13 then escaped 114%nat
      else if n =? 9 then escaped 116%nat
      else if n <? 32 then
        String (char 92) (String (char 117) (String (char 48) (String (char 48)
          (String (hex_code (n `div` 16)) (String (hex_code (n `mod` 16)) (chars_text s))))))
      else String c (chars_text s)
  end.

Definition string_text (s : string) : string := String (char 34) (chars_text s).

(** ** Numbers *)

Fixpoint span_digits (s : string) : string * string :=
  match s with
  | String c s' =>
      if is_digit c then let (d, r) := span_digits s' in (String c d, r) else (EmptyString, s)
  | EmptyString => (EmptyString, EmptyString)
  end.

Fixpoint digits_value (acc : Z) (s : string) : Z :=
  match s with
  | EmptyString => acc
  | String c s => digits_value (acc * 10 + (code c - 48)) s
  end.

Definition MAX_SAFE_INTEGER : Z := 2 ^ 53 - 1.

(** The number [m * 10 ^ e] with its text. *)
Definition decimal (m e : Z) (text : string) : number :=
  let whole n := if (- MAX_SAFE_INTEGER <=? n) && (n <=? MAX_SAFE_INTEGER) then Int n
                 else NonInteger text in
  if m =? 0 then Int 0
  else if 0 <=? e then if e <=? 16 then whole (m * 10 ^ e) else NonInteger text
  else if (- 400 <=? e) && (m `mod` 10 ^ (- e) =? 0) then whole (m `div` 10 ^ (- e))
  else NonInteger text.

Definition parse_int_part (s : string) : option (string * string) :=
  match s with
  | String c s' =>
      if code c =? 48 then Some (String c EmptyString, s')
      else if is_digit c then Some (span_digits s) else None
  | EmptyString => None
  end.

(** The digits after a point, when there is one. *)
Definition parse_fraction (s : string) : option (string * string) :=
  match s with
  | String c s' =>
      if code c =? 46 then
        let (d, r) := span_digits s' in if d =?= "" then None else Some (d, r)
      else Some (EmptyString, s)
  | EmptyString => Some (EmptyString, EmptyString)
  end.

Definition parse_exponent (s : string) : option (Z * string) :=
  match s with
  | String c s' =>
      if (code c =? 101) || (code c =? 69) then
        let '(sign, s') := match s' with
          | String c s'' => if code c =? 45 then (-1, s'') else if code c =? 43 then (1, s'') else (1, s')
          | EmptyString => (1, s')
          end in
        let (d, r) := span_digits s' in
        if d =?= "" then None else Some (sign * digits_value 0 d, r)
      else Some (0, s)
  | EmptyString => Some (0, EmptyString)
  end.

Definition parse_number (s : string) : option (number * string) :=
  let '(sign, s) := match s with
    | String c s' => if code c =? 45 then (-1, s') else (1, s)
    | EmptyString => (1, s)
    end in
  '(i, s) ← parse_int_part s;
  '(f, s) ← parse_fraction s;
  '(e, s) ← parse_exponent s;
  let m := digits_value 0 (i +:+ f) in
  Some (decimal (sign * m) (e - Z.of_nat (String.length f))
          ((if sign =? 1 then "" else "-") +:+ i +:+ "." +:+ f +:+ "e" +:+ String_of_number e), s).

Definition number_text (x : number) : string :=
  match x with
  | Int n => String_of_number n
  | NonInteger text => text
  end.

(** ** Values *)

Fixpoint strip_prefix (word s : string) : option string :=
  match word, s with
  | EmptyString, _ => Some s
  | String c word, String c' s => if c =?= c' then strip_prefix word s else None
  | String _ _, EmptyString => None
  end.

Definition parse_word (word : string) (v : json) (s : string) : option (json * string) :=
  s ← strip_prefix word s; Some (v, s).

Fixpoint parse_value (n : nat) (s : string) : option (json * string) :=
  match n with
  | O => None
  | S n =>
      match skip_space s with
      | EmptyString => None
      | String c s' =>
          let k := code c in
          if k =? 34 then '(t, r) ← parse_chars (String.length s) s'; Some (JString t, r)
          else if k =? 91 then
            match skip_space s' with
            | String c' r => if code c' =? 93 then Some (JArray [], r)
                             else '(l, r) ← parse_elements n s'; Some (JArray l, r)
            | EmptyString => None
            end
          else if k =? 123 then
            match skip_space s' with
            | String c' r => if code c' =? 125 then Some (JObject JsMap.empty, r)
                             else '(l, r) ← parse_members n s'; Some (JObject (JsObject.fromEntries l), r)
            | EmptyString => None
            end
          else if k =? 116 then parse_word "true" (JBool true) (String c s')
          else if k =? 102 then parse_word "false" (JBool false) (String c s')
          else if k =? 110 then parse_word "null" JNull (String c s')
          else '(x, r) ← parse_number (String c s'); Some (JNumber x, r)
      end
  end
with parse_elements (n : nat) (s : string) : option (list json * string) :=
  match n with
  | O => None
  | S n =>
      '(v, s) ← parse_value n s;
      match skip_space s with
      | String c s => if code c =? 44 then '(l, s) ← parse_elements n s; Some (v :: l, s)
                      else if code c =? 93 then Some ([v], s) else None
      | EmptyString => None
      end
  end
with parse_members (n : nat) (s : string) : option (list (string * json) * string) :=
  match n with
  | O => None
  | S n =>
      match skip_space s with
      | String c s =>
          if code c =? 34 then
            '(k, s) ← parse_chars (S (String.length s)) s;
            match skip_space s with
            | String c s =>
                if code c =? 58 then
                  '(v, s) ← parse_value n s;
                  match skip_space s with
                  | String c s => if code c =? 44 then '(l, s) ← parse_members n s; Some ((k, v) :: l, s)
                                  else if code c =? 125 then Some ([(k, v)], s) else None
                  | EmptyString => None
                  end
                else None
            | EmptyString => None
            end
          else None
      | EmptyString => None
      end
  end.

(** [JSON.parse(text)]; [None] is the [SyntaxError].  A value nests less deep than
    its text is long. *)
Definition JSON_parse (text : string) : option json :=
  '(v, s) ← parse_value (2 * String.length text + 2) text;
  if skip_space s =?= "" then Some v else None.

(** Texts one after the other, separated by commas. *)
Fixpoint comma_separated (l : list string) : string :=
  match l with
  | [] => ""
  | [t] => t
  | t :: l => t +:+ "," +:+ comma_separated l
  end.

(** [JSON.stringify(value)] *)
Fixpoint JSON_stringify (v : json) : string :=
  match v with
  | JNull => "null"
  | JBool b => if b then "true" else "false"
  | JNumber x => number_text x
  | JString s => string_text s
  | JArray l => "[" +:+ comma_separated (List.map JSON_stringify l) +:+ "]"
  | JObject fields =>
      "{" +:+ comma_separated
        (List.map (λ f, string_text f.1 +:+ ":" +:+ JSON_stringify f.2) fields) +:+ "}"
  end.

(** ** Values the text determines *)

Fixpoint json_ok (v : json) : Prop :=
  match v with
  | JNull | JBool _ | JString _ => True
  | JNumber x => match x with Int n => - MAX_SAFE_INTEGER ≤ n ≤ MAX_SAFE_INTEGER | NonInteger _ => False end
  | JArray l => (fix go l := match l with [] => True | v :: l => json_ok v ∧ go l end) l
  | JObject fields => (JsMap.wf fields ∧ Forall (λ f, JsObject.is_index f.1 = false) fields) ∧
      (fix go l := match l with [] => True | f :: l => json_ok f.2 ∧ go l end) fields
  end.

(** ** The round trip *)

Lemma parse_chars_char c n s rest :
  parse_chars (S n) (chars_text (String c s) +:+ rest) =
    ('(t, r) ← parse_chars n (chars_text s +:+ rest); Some (String c t, r)).
Proof. destruct c as [[] [] [] [] [] [] [] []]; reflexivity. Qed.

Lemma parse_chars_text s n rest :
  (String.length s < n)%nat → parse_chars n (chars_text s +:+ rest) = Some (s, rest).
Proof.
  revert n. induction s as [|c s IH]; intros [|n] Hn; simpl in Hn; try lia; [done|].
  rewrite parse_chars_char, IH by lia. done.
Qed.

Lemma string_length_app (s t : string) :
  String.length (s +:+ t) = (String.length s + String.length t)%nat.
Proof. induction s as [|c s IH]; [done|]. rewrite app_String. simpl. by rewrite IH. Qed.

Lemma chars_text_length s : (String.length s < String.length (chars_text s))%nat.
Proof.
  induction s as [|c s IH]; simpl; [lia|]. repeat case_match; simpl; lia.
Qed.

(** *** Numbers *)

(** A text that does not go on with the number before it. *)
Definition number_ends (s : string) : Prop :=
  match s with
  | EmptyString => True
  | String c _ => is_digit c = false ∧ code c ≠ 46 ∧ code c ≠ 101 ∧ code c ≠ 69
  end.

Fixpoint all_digits (s : string) : bool :=
  match s with String c s => is_digit c && all_digits s | EmptyString => true end.

Lemma span_digits_app d rest :
  all_digits d = true → number_ends rest → span_digits (d +:+ rest) = (d, rest).
Proof.
  induction d as [|c d IH]; simpl.
  - intros _. destruct rest as [|c rest]; [done|]. intros (Hd & _). rewrite app_empty_l. simpl.
    by rewrite Hd.
  - intros [Hc Hd]%andb_true_iff Hrest. rewrite Hc. by rewrite IH.
Qed.

Lemma pretty_N_char_digit_code x :
  (x < 10)%N → is_digit (pretty_N_char x) = true ∧ code (pretty_N_char x) = 48 + Z.of_N x.
Proof.
  intros Hx. assert (x = 0 ∨ x = 1 ∨ x = 2 ∨ x = 3 ∨ x = 4 ∨ x = 5 ∨ x = 6 ∨ x = 7 ∨ x = 8 ∨ x = 9)%N
    as Hcases by lia.
  repeat destruct Hcases as [-> | Hcases]; subst; done.
Qed.

Lemma pretty_N_go_digits x s :
  all_digits s = true → all_digits (pretty_N_go x s) = true ∧
  ∀ acc, acc = 0 → digits_value acc (pretty_N_go x s) = digits_value (Z.of_N x) s.
Proof.
  revert s. induction (N.lt_wf_0 x) as [x _ IH]; intros s Hs.
  assert (x = 0 ∨ 0 < x)%N as [->|Hx] by lia; [by rewrite pretty_N_go_0; split; [|intros ? ->]|].
  rewrite pretty_N_go_step by done.
  destruct (pretty_N_char_digit_code (x `mod` 10)) as [Hd Hc]; [by apply N.mod_lt|].
  destruct (IH (x `div` 10)%N (N.div_lt x 10 Hx eq_refl) (String (pretty_N_char (x `mod` 10)) s))
    as [Hall Hval]; [simpl; by rewrite Hd|].
  split; [done|]. intros acc Hacc. rewrite (Hval acc Hacc). simpl. f_equal. rewrite Hc.
  pose proof (N.div_mod x 10 ltac:(done)) as Hdm. lia.
Qed.

(** The first digit of a positive number is not zero. *)
Lemma pretty_N_go_first x s :
  (0 < x)%N → ∃ c t, pretty_N_go x s = String c t ∧ is_digit c = true ∧ code c ≠ 48.
Proof.
  revert s. induction (N.lt_wf_0 x) as [x _ IH]; intros s Hx.
  rewrite pretty_N_go_step by done.
  destruct (decide (x < 10)%N) as [Hlt|Hge].
  - rewrite N.div_small, pretty_N_go_0, N.mod_small by done.
    destruct (pretty_N_char_digit_code x Hlt) as [Hd Hc].
    do 2 eexists. split; [done|]. split; [done|]. lia.
  - apply IH; [by apply N.div_lt|]. apply N.div_str_pos. lia.
Qed.

Lemma pretty_N_go_parse_int x rest :
  (0 < x)%N → number_ends rest →
  ∃ d, pretty_N_go x "" = d ∧ parse_int_part (d +:+ rest) = Some (d, rest) ∧
       digits_value 0 d = Z.of_N x ∧ ∃ c t, d = String c t ∧ is_digit c = true.
Proof.
  intros Hx Hrest. exists (pretty_N_go x ""). split; [done|].
  destruct (pretty_N_go_digits x "" eq_refl) as [Hall Hval].
  destruct (pretty_N_go_first x "" Hx) as (c & t & Heq & Hd & H0).
  split; [|split; [by rewrite (Hval 0)|by exists c, t]].
  rewrite Heq in *. pose proof (span_digits_app (String c t) rest Hall Hrest) as Hspan.
  rewrite app_String in *. cbn [parse_int_part]. destruct (Z.eqb_spec (code c) 48); [done|].
  by rewrite Hd, Hspan.
Qed.

Lemma parse_tail rest :
  number_ends rest → parse_fraction rest = Some ("", rest) ∧ parse_exponent rest = Some (0, rest).
Proof.
  destruct rest as [|c rest]; [done|]. simpl. intros (_ & H1 & H2 & H3).
  destruct (Z.eqb_spec (code c) 46), (Z.eqb_spec (code c) 101), (Z.eqb_spec (code c) 69);
    naive_solver.
Qed.

Lemma decimal_whole m text :
  - MAX_SAFE_INTEGER ≤ m ≤ MAX_SAFE_INTEGER → decimal m 0 text = Int m.
Proof.
  intros Hm. unfold decimal. destruct (Z.eqb_spec m 0) as [->|]; [done|]. simpl.
  rewrite Z.mul_1_r. destruct (Z.leb_spec (- MAX_SAFE_INTEGER) m), (Z.leb_spec m MAX_SAFE_INTEGER);
    simpl; try lia. done.
Qed.

Lemma String_of_number_pos p : String_of_number (Zpos p) = pretty_N_go (Npos p) "".
Proof. reflexivity. Qed.

Lemma String_of_number_neg p : String_of_number (Zneg p) = String (char 45) (pretty_N_go (Npos p) "").
Proof.
  reflexivity.
Qed.

Lemma string_app_nil_r (s : string) : s +:+ "" = s.
Proof. induction s as [|c s IH]; [done|]. by rewrite app_String, IH. Qed.

Lemma parse_number_text z rest :
  - MAX_SAFE_INTEGER ≤ z ≤ MAX_SAFE_INTEGER → number_ends rest →
  parse_number (String_of_number z +:+ rest) = Some (Int z, rest).
Proof.
  intros Hz Hrest. destruct (parse_tail rest Hrest) as [Hf He].
  destruct z as [|p|p].
  - change (String_of_number 0 +:+ rest) with (String (char 48) rest). unfold parse_number. simpl.
    rewrite Hf. simpl. rewrite He. done.
  - rewrite String_of_number_pos.
    destruct (pretty_N_go_parse_int (Npos p) rest eq_refl Hrest) as (d & -> & Hint & Hval & c & t & Heq & Hd).
    unfold parse_number.
    assert (match d +:+ rest with
      | String c s' => if code c =? 45 then (-1, s') else (1, d +:+ rest)
      | EmptyString => (1, d +:+ rest) end = (1, d +:+ rest)) as ->.
    { rewrite Heq, app_String. destruct (Z.eqb_spec (code c) 45) as [Hc|]; [|done].
      unfold is_digit in Hd. rewrite Hc in Hd. done. }
    rewrite Hint. simpl. rewrite Hf. simpl. rewrite He. simpl. rewrite string_app_nil_r, Hval.
    f_equal. f_equal. apply decimal_whole. lia.
  - rewrite String_of_number_neg, app_String.
    destruct (pretty_N_go_parse_int (Npos p) rest eq_refl Hrest) as (d & -> & Hint & Hval & _).
    unfold parse_number. simpl. rewrite Hint. simpl. rewrite Hf. simpl. rewrite He.
    cbn [mbind option_bind]. rewrite string_app_nil_r, Hval.
    f_equal. f_equal. replace (-1 * Z.of_N (Npos p)) with (Zneg p) by lia. by apply decimal_whole.
Qed.

(** *** Values *)

Lemma strip_prefix_app w rest : strip_prefix w (w +:+ rest) = Some rest.
Proof.
  induction w as [|c w IH]; [done|]. rewrite app_String. simpl. by rewrite bool_decide_true.
Qed.

(** How deep the parser goes into a value. *)
Fixpoint json_size (v : json) : nat :=
  match v with
  | JNull | JBool _ | JNumber _ | JString _ => 1
  | JArray l => 2 + sum_list_with (λ v, S (json_size v)) l
  | JObject fields => 2 + sum_list_with (λ f, S (json_size f.2)) fields
  end%nat.

(** A value's text begins with none of the characters the parser looks for first. *)
Definition value_starts (s : string) : Prop :=
  ∃ c t, s = String c t ∧ is_space c = false ∧ code c ≠ 93 ∧ code c ≠ 125.

Lemma skip_space_start s rest : value_starts s → skip_space (s +:+ rest) = s +:+ rest.
Proof. intros (c & t & -> & Hc & _). rewrite app_String. simpl. by rewrite Hc. Qed.

Lemma is_digit_start c : is_digit c = true → is_space c = false ∧ code c ≠ 93 ∧ code c ≠ 125.
Proof.
  unfold is_digit, is_space. rewrite andb_true_iff, !Z.leb_le. intros [H1 H2].
  repeat match goal with |- context [code c =? ?n] => destruct (Z.eqb_spec (code c) n); [lia|] end.
  split; [done|lia].
Qed.

Lemma number_text_starts n : value_starts (String_of_number n) ∧
  ∃ c t, String_of_number n = String c t ∧ (is_digit c = true ∨ code c = 45).
Proof.
  destruct n as [|p|p].
  - split; [|eexists _, _; split; [reflexivity|by left]].
    eexists _, _. split; [reflexivity|]. split; [done|]. by vm_compute.
  - rewrite String_of_number_pos.
    destruct (pretty_N_go_first (Npos p) "" eq_refl) as (c & t & -> & Hd & _).
    split; [|by eauto]. eexists _, _. split; [done|]. by apply is_digit_start.
  - rewrite String_of_number_neg. split; [|eexists _, _; split; [reflexivity|by right]].
    eexists _, _. split; [reflexivity|]. split; [done|]. by vm_compute.
Qed.

Lemma value_starts_text v : json_ok v → value_starts (JSON_stringify v).
Proof.
  destruct v as [|[]|[n|text]|s|l|fields]; simpl; intros Hv; try done;
    try (eexists _, _; split; [reflexivity|]; split; [done|by vm_compute]).
  apply number_text_starts.
Qed.

(** The parser's dispatch on the first character of a number. *)
Lemma parse_value_number n z rest :
  - MAX_SAFE_INTEGER ≤ z ≤ MAX_SAFE_INTEGER → number_ends rest →
  parse_value (S n) (String_of_number z +:+ rest) = Some (JNumber (Int z), rest).
Proof.
  intros Hz Hrest. destruct (number_text_starts z) as [Hstart (c & t & Heq & Hc)].
  cbn [parse_value]. rewrite skip_space_start by done.
  pose proof (parse_number_text z rest Hz Hrest) as Hp. rewrite Heq, app_String in *.
  assert (45 ≤ code c ≤ 57) as Hrange.
  { destruct Hc as [Hc|Hc]; [|lia]. unfold is_digit in Hc.
    rewrite andb_true_iff, !Z.leb_le in Hc. lia. }
  repeat match goal with |- context [code c =? ?k] => destruct (Z.eqb_spec (code c) k); [lia|] end.
  rewrite Hp. done.
Qed.

Definition parses (v : json) : Prop :=
  ∀ n rest, (json_size v ≤ n)%nat → number_ends rest →
  parse_value n (JSON_stringify v +:+ rest) = Some (v, rest).

Lemma parse_elements_text l n rest :
  l ≠ [] → Forall parses l → (sum_list_with (λ v, S (json_size v)) l ≤ n)%nat →
  parse_elements n (comma_separated (List.map JSON_stringify l) +:+ String (char 93) rest) =
    Some (l, rest).
Proof.
  revert n. induction l as [|v l IH]; intros n Hne Hall Hn; [done|].
  apply Forall_cons in Hall as [Hv Hall]. simpl in Hn. destruct n as [|n]; [lia|].
  destruct l as [|w l].
  - simpl. rewrite (Hv n (String (char 93) rest)) by (simpl in *; done || lia). done.
  - change (comma_separated (List.map JSON_stringify (v :: w :: l)))
      with (JSON_stringify v +:+ "," +:+ comma_separated (List.map JSON_stringify (w :: l))).
    rewrite !string_app_assoc. cbn [parse_elements].
    rewrite (Hv n) by (done || lia). cbn [mbind option_bind].
    rewrite app_String, app_empty_l. cbn [skip_space]. change (is_space _) with false.
    cbn [orb]. change (code _ =? 44) with true. cbv iota. by rewrite IH by (done || lia).
Qed.

Lemma parse_members_text fields n rest :
  fields ≠ [] → Forall (λ f : string * json, parses f.2) fields →
  (sum_list_with (λ f, S (json_size f.2)) fields ≤ n)%nat →
  parse_members n (comma_separated
      (List.map (λ f, string_text f.1 +:+ ":" +:+ JSON_stringify f.2) fields)
      +:+ String (char 125) rest) = Some (fields, rest).
Proof.
  revert n. induction fields as [|[k v] l IH]; intros n Hne Hall Hn; [done|].
  apply Forall_cons in Hall as [Hv Hall]. simpl in Hn, Hv. destruct n as [|n]; [lia|].
  assert (∀ more, number_ends more →
    parse_members (S n) ((string_text k +:+ ":" +:+ JSON_stringify v) +:+ more) =
      match skip_space more with
      | String c s => if code c =? 44 then '(l, s) ← parse_members n s; Some ((k, v) :: l, s)
                      else if code c =? 125 then Some ([(k, v)], s) else None
      | EmptyString => None
      end) as Hone.
  { intros more Hmore. unfold string_text. rewrite !string_app_assoc, app_String.
    cbn [parse_members skip_space]. change (is_space (char 34)) with false. cbv iota.
    change (code (char 34) =? 34) with true. cbv iota.
    rewrite parse_chars_text by (rewrite string_length_app; pose proof (chars_text_length k); lia).
    cbn [mbind option_bind]. rewrite app_String, app_empty_l. cbn [skip_space].
    change (is_space _) with false. cbv iota. change (code _ =? 58) with true. cbv iota.
    rewrite (Hv n more) by (done || lia). done. }
  destruct l as [|f l].
  - cbn [List.map comma_separated]. rewrite Hone by done. done.
  - change (comma_separated (List.map ?g ((k, v) :: f :: l)))
      with (g (k, v) +:+ "," +:+ comma_separated (List.map g (f :: l))).
    cbv beta. cbn [fst snd]. rewrite (string_app_assoc _ ("," +:+ _)), Hone by done.
    rewrite string_app_assoc, app_String, app_empty_l. cbn [skip_space].
    change (is_space _) with false. cbv iota. change (code _ =? 44) with true. cbv iota.
    by rewrite IH by (done || lia).
Qed.

Lemma json_ok_array l : json_ok (JArray l) ↔ Forall json_ok l.
Proof.
  simpl. induction l as [|v l IH]; [by split|]. by rewrite Forall_cons, IH.
Qed.

Lemma json_ok_object fields :
  json_ok (JObject fields) ↔ (JsMap.wf fields ∧ Forall (λ f, JsObject.is_index f.1 = false) fields)
    ∧ Forall (λ f, json_ok f.2) fields.
Proof.
  simpl. f_equiv. induction fields as [|v l IH]; [by split|]. by rewrite Forall_cons, IH.
Qed.

Lemma comma_separated_starts (f : string) (l : list string) :
  value_starts f → value_starts (comma_separated (f :: l)).
Proof.
  intros (c & t & -> & Hc). destruct l; [by exists c, t|].
  eexists c, _. split; [|done]. cbn [comma_separated]. by rewrite app_String.
Qed.

Lemma Forall_impl_ok {A} (P Q : A → Prop) l :
  Forall (λ x, P x → Q x) l → Forall P l → Forall Q l.
Proof. rewrite !Forall_forall. naive_solver. Qed.

Lemma of_list_wf {V} (m : JsMap.t string V) : JsMap.wf m → JsMap.of_list m = m.
Proof.
  unfold JsMap.of_list. intros Hwf.
  assert (∀ done_ : JsMap.t string V, JsMap.wf (done_ ++ m) →
    foldl (λ m e, JsMap.set m e.1 e.2) done_ m = done_ ++ m) as H; [|by apply (H [])].
  clear Hwf. induction m as [|[k v] m IH]; intros done_ Hwf; simpl; [by rewrite app_nil_r|].
  assert (JsMap.get done_ k = None) as Hk.
  { destruct (JsMap.get done_ k) eqn:Hget; [|done].
    assert (k ∈ JsMap.keys done_) as Hin by (apply JsMap.elem_of_keys; eauto).
    unfold JsMap.wf, JsMap.keys in *. rewrite fmap_app in Hwf.
    apply NoDup_app in Hwf as (_ & Hdisj & _). destruct (Hdisj k Hin). left. }
  rewrite JsMap.set_fresh by done. rewrite IH; by rewrite <-app_assoc.
Qed.

Lemma parse_chars_fuel s rest more :
  parse_chars (S (String.length (chars_text s +:+ rest))) (chars_text s +:+ rest +:+ more) =
    Some (s, rest +:+ more).
Proof.
  apply parse_chars_text. rewrite string_length_app.
  pose proof (chars_text_length s). lia.
Qed.

Lemma parses_ok v : json_ok v → parses v.
Proof.
  induction v as [|b|x|s|l IH|fields IH] using json_ind'; intros Hok [|n] rest Hn Hrest;
    try (simpl in Hn; lia).
  - reflexivity.
  - by destruct b.
  - destruct x as [z|]; [|done]. by apply parse_value_number.
  - cbn [JSON_stringify]. unfold string_text. rewrite app_String. cbn [parse_value skip_space].
    change (is_space (char 34)) with false. cbv iota. change (code (char 34) =? 34) with true.
    cbv iota zeta. rewrite parse_chars_text; [done|]. simpl. rewrite string_length_app.
    pose proof (chars_text_length s). lia.
  - rewrite json_ok_array in Hok. pose proof (Forall_impl_ok _ _ _ IH Hok) as Hparses.
    cbn [JSON_stringify]. rewrite !string_app_assoc, app_String, app_empty_l.
    change ("]" +:+ rest) with (String (char 93) rest). cbn [parse_value skip_space].
    change (is_space _) with false. cbv iota zeta.
    change (code _ =? 34) with false. change (code _ =? 91) with true. cbv iota.
    destruct l as [|v l]; [reflexivity|].
    change (2 + sum_list_with (λ v, S (json_size v)) (v :: l) ≤ S n)%nat in Hn.
    apply Forall_cons in Hok as [Hv _].
    destruct (comma_separated_starts _ (List.map JSON_stringify l) (value_starts_text v Hv))
      as (c & t & Heq & Hc & Hc93 & _).
    pose proof (parse_elements_text (v :: l) n rest ltac:(done) Hparses ltac:(lia)) as Hp.
    cbn [List.map] in *. rewrite Heq, app_String in *. cbn [skip_space]. rewrite Hc.
    destruct (Z.eqb_spec (code c) 93); [done|]. by rewrite Hp.
  - rewrite json_ok_object in Hok. destruct Hok as [Hwf Hok].
    pose proof (Forall_impl_ok _ _ _ IH Hok) as Hparses.
    cbn [JSON_stringify]. rewrite !string_app_assoc, app_String, app_empty_l.
    change ("}" +:+ rest) with (String (char 125) rest). cbn [parse_value skip_space].
    change (is_space _) with false. cbv iota zeta.
    change (code _ =? 34) with false. change (code _ =? 91) with false.
    change (code _ =? 123) with true. cbv iota.
    destruct fields as [|[k v] fields]; [reflexivity|].
    change (2 + sum_list_with (λ f : string * json, S (json_size f.2)) ((k, v) :: fields)
            ≤ S n)%nat in Hn.
    assert (value_starts (string_text k +:+ ":" +:+ JSON_stringify v)) as Hstart.
    { eexists _, _. split; [unfold string_text; by rewrite app_String|]. split; [done|by vm_compute]. }
    destruct (comma_separated_starts _ (List.map (λ f : string * json,
      string_text f.1 +:+ ":" +:+ JSON_stringify f.2) fields) Hstart) as (c & t & Heq & Hc & _ & Hc125).
    pose proof (parse_members_text ((k, v) :: fields) n rest ltac:(done) Hparses ltac:(lia)) as Hp.
    cbn [List.map fst snd] in *. rewrite Heq, app_String in *. cbn [skip_space]. rewrite Hc.
    destruct (Z.eqb_spec (code c) 125); [done|]. rewrite Hp. cbn [mbind option_bind].
    unfold JsObject.fromEntries. destruct Hwf as [Hwf Hplain].
    by rewrite of_list_wf, JsObject.ordered_plain.
Qed.

Lemma comma_separated_length (l : list string) :
  (sum_list_with (λ t, S (String.length t)) l ≤ S (String.length (comma_separated l)))%nat.
Proof.
  induction l as [|t [|t' l] IH]; [simpl; lia|simpl; lia|].
  cbn [comma_separated sum_list_with] in *. rewrite !string_length_app. simpl in *. lia.
Qed.

Lemma sum_list_map {A} (f : A → string) (g : A → nat) l :
  Forall (λ x, g x ≤ 2 * String.length (f x))%nat l →
  (sum_list_with (λ x, S (g x)) l ≤
   2 * sum_list_with (λ t, S (String.length t)) (List.map f l))%nat.
Proof. induction 1; simpl in *; lia. Qed.

Lemma json_size_text v : json_ok v → (json_size v ≤ 2 * String.length (JSON_stringify v))%nat.
Proof.
  induction v as [|b|x|s|l IH|fields IH] using json_ind'; intros Hok;
    pose proof (value_starts_text _ Hok) as (c & t & Heq & _);
    try (rewrite Heq; simpl; lia).
  - rewrite json_ok_array in Hok. pose proof (Forall_impl_ok _ _ _ IH Hok) as Hall.
    cbn [json_size JSON_stringify]. rewrite !string_length_app.
    pose proof (sum_list_map JSON_stringify json_size l Hall).
    pose proof (comma_separated_length (List.map JSON_stringify l)). simpl. lia.
  - rewrite json_ok_object in Hok. destruct Hok as [_ Hok].
    pose proof (Forall_impl_ok _ _ _ IH Hok) as Hall.
    cbn [json_size JSON_stringify]. rewrite !string_length_app.
    assert (Forall (λ f : string * json, json_size f.2 ≤
      2 * String.length (string_text f.1 +:+ ":" +:+ JSON_stringify f.2))%nat fields) as Hall'.
    { eapply Forall_impl; [exact Hall|]. intros f Hf. cbn beta in *. rewrite !string_length_app. lia. }
    pose proof (sum_list_map _ (λ f : string * json, json_size f.2) fields Hall').
    pose proof (comma_separated_length (List.map (λ f : string * json,
      string_text f.1 +:+ ":" +:+ JSON_stringify f.2) fields)). simpl. lia.
Qed.

(** [JSON.parse(JSON.stringify(v))] is [v]. *)
Lemma JSON_roundtrip v : json_ok v → JSON_parse (JSON_stringify v) = Some v.
Proof.
  intros Hok. unfold JSON_parse.
  pose proof (parses_ok v Hok (2 * String.length (JSON_stringify v) + 2)%nat "") as Hp.
  rewrite string_app_nil_r in Hp. rewrite Hp; [done| |done].
  pose proof (json_size_text v Hok). lia.
Qed.

(** ** What a parsed value is: no object has a key twice *)

Inductive json_wf : json → Prop :=
| wf_object fields : JsMap.wf fields → (∀ k v, (k, v) ∈ fields → json_wf v) → json_wf (JObject fields)
| wf_array l : (∀ v, v ∈ l → json_wf v) → json_wf (JArray l)
| wf_null : json_wf JNull
| wf_bool b : json_wf (JBool b)
| wf_number x : json_wf (JNumber x)
| wf_string s : json_wf (JString s).

#[export] Hint Constructors json_wf : mistle.

Lemma elem_of_fromEntries {V} (l : list (string * V)) e : e ∈ JsObject.fromEntries l → e ∈ l.
Proof.
  unfold JsObject.fromEntries. rewrite JsObject.ordered_perm. unfold JsMap.of_list.
  assert (∀ m : JsMap.t string V, e ∈ foldl (λ m e, JsMap.set m e.1 e.2) m l → e ∈ m ∨ e ∈ l) as H.
  { induction l as [|[k v] l IH]; intros m; simpl; [by left|]. intros [He|He]%IH.
    - assert (∀ m : JsMap.t string V, e ∈ JsMap.set m k v → e ∈ m ∨ e = (k, v)) as Hset.
      { clear. intros m. induction m as [|[k' v'] m IH]; simpl; [intros ->%list_elem_of_singleton; by right|].
        case_decide; rewrite !elem_of_cons; naive_solver. }
      destruct (Hset _ He) as [?| ->]; [by left|right; left].
    - right. by right. }
  intros He%H. destruct He as [He|He]; [by apply elem_of_nil in He|done].
Qed.

Lemma parse_word_wf word v s v' r : json_wf v → parse_word word v s = Some (v', r) → json_wf v'.
Proof. unfold parse_word. intros Hv (? & _ & [= <- <-])%bind_Some. done. Qed.

Lemma parse_wf n :
  (∀ s v r, parse_value n s = Some (v, r) → json_wf v) ∧
  (∀ s l r, parse_elements n s = Some (l, r) → Forall json_wf l) ∧
  (∀ s l r, parse_members n s = Some (l, r) → Forall (λ e, json_wf e.2) l).
Proof.
  induction n as [|n (IHv & IHe & IHm)]; [done|].
  assert (∀ l, Forall json_wf l → json_wf (JArray l)) as Harray.
  { intros l Hl. constructor. by apply Forall_forall. }
  assert (∀ l, Forall (λ e, json_wf e.2) l → json_wf (JObject (JsObject.fromEntries l))) as Hobject.
  { intros l Hl. constructor; [apply JsObject.wf_fromEntries|]. intros k v He%elem_of_fromEntries.
    by apply (proj1 (Forall_forall _ _) Hl (k, v)). }
  repeat split; intros s x r; simpl.
  - destruct (skip_space s) as [|c s']; [done|].
    repeat match goal with |- (if ?b then _ else _) = _ → _ => destruct b end;
      try (apply parse_word_wf; by auto with mistle).
    + intros ([t r'] & _ & [= <- <-])%bind_Some. constructor.
    + destruct (skip_space s') as [|c' r']; [done|]. case_match; [intros [= <- <-]; by apply Harray|].
      intros ([l r''] & Hl & [= <- <-])%bind_Some. eauto.
    + destruct (skip_space s') as [|c' r']; [done|]. case_match; [intros [= <- <-]; by apply (Hobject [])|].
      intros ([l r''] & Hl & [= <- <-])%bind_Some. eauto.
    + intros ([t r'] & _ & [= <- <-])%bind_Some. constructor.
  - intros ([v s'] & Hv & Hs)%bind_Some. apply IHv in Hv.
    destruct (skip_space s') as [|c s'']; [done|]. repeat case_match; simplify_eq; [|by repeat constructor].
    apply bind_Some in Hs as ([l r''] & Hl & [= <- <-]). constructor; eauto.
  - destruct (skip_space s) as [|c s']; [done|]. case_match; [|done].
    intros ([k s''] & _ & Hs)%bind_Some. destruct (skip_space s'') as [|c' s3]; [done|]. case_match; [|done].
    apply bind_Some in Hs as ([v s4] & Hv & Hs). apply IHv in Hv.
    destruct (skip_space s4) as [|c'' s5]; [done|]. repeat case_match; simplify_eq; [|by repeat constructor].
    apply bind_Some in Hs as ([l r''] & Hl & [= <- <-]). constructor; eauto.
Qed.

Lemma JSON_parse_wf text v : JSON_parse text = Some v → json_wf v.
Proof.
  unfold JSON_parse. intros ([v' s] & Hv%parse_wf & Hs)%bind_Some. by case_match; simplify_eq.
Qed.
