(* ===== verification/Text.v ===== *)
(** * Text and bytes: [TextEncoder], [TextDecoder] and [Buffer]

    A JavaScript string is its UTF-8 bytes (of a lone surrogate, the three bytes
    its code would have); [bytes_of] and [string_of_bytes] pass between the
    characters and the integers below 256 of DataFrame.v.

    - [TextEncoder_encode], [TextDecoder_decode] and [TextDecoder_decode_fatal] are the
      UTF-8 encoder and decoders of the platform's Encoding standard: one byte at a
      time, a malformed sequence becoming U+FFFD (or the error of a fatal decoder),
      a byte order mark at the start dropped.
    - [Base64] is Node's [Buffer]: [base64_encode] is [toString("base64")],
      [base64_decode] is [Buffer.from(value, "base64")]; its laws are the round trip, the
      length and the alphabet.  [reference_base64] is a function with these laws.
    - [trim] is the language's, over the UTF-8 bytes of a string. *)

From S2P Require Import Prelude JsMap Json DataFrame.
Local Open Scope Z_scope.

Fixpoint bytes_of (s : string) : list Z :=
  match s with EmptyString => [] | String c s => code c :: bytes_of s end.

Fixpoint string_of_bytes (l : list Z) : string :=
  match l with [] => "" | b :: l => String (byte b) (string_of_bytes l) end.

(** ** UTF-8 *)

(** A lone surrogate is encoded as U+FFFD. *)
Fixpoint encode_bytes (l : list Z) : list Z :=
  match l with
  | [] => []
  | b1 :: tl =>
      match tl with
      | b2 :: b3 :: rest =>
          if (b1 =? 237) && (160 <=? b2) then 239 :: 191 :: 189 :: encode_bytes rest
          else b1 :: encode_bytes tl
      | _ => b1 :: encode_bytes tl
      end
  end.

Definition TextEncoder_encode (s : string) : list Z := encode_bytes (bytes_of s).

(** The decoder between two bytes: nothing pending, or the bytes of a character of
    which [needed] are missing, the next one between [lower] and [upper]. *)
Inductive utf8_state : Type :=
| Utf8Ready
| Utf8Pending (seen : list Z) (needed : nat) (lower upper : Z).

(** A decoded character, or [None] for a malformed sequence. *)
Definition utf8_token : Type := option (list Z).

Definition utf8_start (b : Z) : list utf8_token * utf8_state :=
  if b <=? 127 then ([Some [b]], Utf8Ready)
  else if (194 <=? b) && (b <=? 223) then ([], Utf8Pending [b] 1 128 191)
  else if (224 <=? b) && (b <=? 239) then
    ([], Utf8Pending [b] 2 (if b =? 224 then 160 else 128) (if b =? 237 then 159 else 191))
  else if (240 <=? b) && (b <=? 244) then
    ([], Utf8Pending [b] 3 (if b =? 240 then 144 else 128) (if b =? 244 then 143 else 191))
  else ([None], Utf8Ready).

Definition utf8_step (st : utf8_state) (b : Z) : list utf8_token * utf8_state :=
  match st with
  | Utf8Ready => utf8_start b
  | Utf8Pending seen needed lower upper =>
      if (lower <=? b) && (b <=? upper) then
        match needed with
        | S (S n) => ([], Utf8Pending (seen ++ [b]) (S n) 128 191)
        | _ => ([Some (seen ++ [b])], Utf8Ready)
        end
      else let (tokens, st) := utf8_start b in (None :: tokens, st)
  end.

Fixpoint utf8_run (st : utf8_state) (l : list Z) : list utf8_token * utf8_state :=
  match l with
  | [] => ([], st)
  | b :: l =>
      let (tokens, st) := utf8_step st b in
      let (tokens', st) := utf8_run st l in (tokens ++ tokens', st)
  end.

Definition utf8_tokens (l : list Z) : list utf8_token :=
  let (tokens, st) := utf8_run Utf8Ready l in
  tokens ++ match st with Utf8Ready => [] | _ => [None] end.

Definition ByteOrderMark : list Z := [239; 187; 191].
Definition skip_byte_order_mark (l : list Z) : list Z :=
  if take 3 l =?= ByteOrderMark then drop 3 l else l.

(** [new TextDecoder().decode(bytes)] *)
Definition TextDecoder_decode (l : list Z) : string :=
  string_of_bytes
    (List.concat (List.map (default [239; 191; 189]) (utf8_tokens (skip_byte_order_mark l)))).

(** [buffer.toString("utf8")], which keeps a byte order mark. *)
Definition Buffer_toString (l : list Z) : string :=
  string_of_bytes (List.concat (List.map (default [239; 191; 189]) (utf8_tokens l))).

(** [new TextDecoder("utf-8", { fatal: true }).decode(bytes)]; [None] where it throws. *)
Definition TextDecoder_decode_fatal (l : list Z) : option string :=
  (λ characters, string_of_bytes (List.concat characters))
    <$> mapM id (utf8_tokens (skip_byte_order_mark l)).

(** A string without lone surrogates. *)
Definition well_formed (s : string) : Prop :=
  Forall is_Some (utf8_run Utf8Ready (bytes_of s)).1
  ∧ (utf8_run Utf8Ready (bytes_of s)).2 = Utf8Ready.

#[export] Instance utf8_state_eq_dec : EqDecision utf8_state.
Proof. solve_decision. Defined.
#[export] Instance well_formed_dec s : Decision (well_formed s).
Proof. unfold well_formed. apply _. Defined.

Definition starts_with_byte_order_mark (s : string) : bool :=
  take 3 (bytes_of s) =?= ByteOrderMark.

(** ** Characters and bytes *)

Lemma byte_code c : byte (code c) = c.
Proof. unfold byte, code. rewrite Nat2Z.id. apply Ascii.ascii_nat_embedding. Qed.

Lemma code_byte b : byte_ok b → code (byte b) = b.
Proof.
  unfold byte_ok, byte, code. intros. rewrite Ascii.nat_ascii_embedding by lia. lia.
Qed.

Lemma code_ok c : byte_ok (code c).
Proof.
  unfold byte_ok, code. pose proof (Ascii.nat_ascii_bounded c). lia.
Qed.

Lemma string_of_bytes_of s : string_of_bytes (bytes_of s) = s.
Proof. induction s as [|c s IH]; [done|]. cbn. by rewrite byte_code, IH. Qed.

Lemma bytes_of_string_of l : bytes l → bytes_of (string_of_bytes l) = l.
Proof.
  induction 1 as [|b l Hb _ IH]; [done|]. cbn [string_of_bytes bytes_of].
  by rewrite code_byte, IH.
Qed.

Lemma bytes_of_ok s : bytes (bytes_of s).
Proof. induction s; constructor; auto using code_ok. Qed.

Lemma bytes_of_app a b : bytes_of (a +:+ b) = bytes_of a ++ bytes_of b.
Proof. induction a as [|c a IH]; [done|]. rewrite app_String. cbn. by rewrite IH. Qed.

Lemma bytes_of_length s : length (bytes_of s) = String.length s.
Proof. induction s; cbn; congruence. Qed.

(** ** Running the decoder *)

Lemma utf8_run_app st a b :
  utf8_run st (a ++ b) =
    ((utf8_run st a).1 ++ (utf8_run (utf8_run st a).2 b).1, (utf8_run (utf8_run st a).2 b).2).
Proof.
  revert st. induction a as [|x a IH]; intros st; cbn [utf8_run app fst snd].
  - by destruct (utf8_run st b).
  - destruct (utf8_step st x) as [ts st']. rewrite IH.
    destruct (utf8_run st' a) as [ts1 st1]. cbn [fst snd]. by rewrite app_assoc.
Qed.

(** The run from [st] over [l] meets no malformed sequence. *)
Definition runs_clean (st : utf8_state) (l : list Z) : Prop :=
  Forall is_Some (utf8_run st l).1.
Definition complete (st : utf8_state) (l : list Z) : Prop :=
  runs_clean st l ∧ (utf8_run st l).2 = Utf8Ready.

Lemma complete_cons st b l :
  complete st (b :: l) ↔ Forall is_Some (utf8_step st b).1 ∧ complete (utf8_step st b).2 l.
Proof.
  unfold complete, runs_clean. cbn [utf8_run]. destruct (utf8_step st b) as [ts st'].
  cbn [fst snd]. destruct (utf8_run st' l) as [ts' st'']. cbn [fst snd].
  rewrite Forall_app. tauto.
Qed.

Lemma complete_app a b : complete Utf8Ready a → complete Utf8Ready b → complete Utf8Ready (a ++ b).
Proof.
  intros [Ha Ea] [Hb Eb]. unfold complete, runs_clean in *. rewrite utf8_run_app, Ea. cbn.
  by rewrite Forall_app.
Qed.

Lemma well_formed_app a b : well_formed a → well_formed b → well_formed (a +:+ b).
Proof.
  unfold well_formed. rewrite bytes_of_app. exact (complete_app (bytes_of a) (bytes_of b)).
Qed.

Lemma complete_ascii b l : b <= 127 → complete Utf8Ready l → complete Utf8Ready (b :: l).
Proof.
  intros Hb Hl. apply complete_cons. cbn [utf8_step]. unfold utf8_start.
  rewrite (proj2 (Z.leb_le b 127) Hb). split; [by repeat constructor|done].
Qed.

(** A byte that completes or continues a character is not an ASCII one. *)
Definition pending_ok (st : utf8_state) : Prop :=
  match st with
  | Utf8Ready => True
  | Utf8Pending _ needed lower upper => needed ≠ 0%nat ∧ 128 <= lower ∧ upper <= 191
  end.

Lemma utf8_step_ok st b : pending_ok st → pending_ok (utf8_step st b).2.
Proof.
  assert (pending_ok (utf8_start b).2) as Hstart.
  { unfold utf8_start. repeat case_match; simpl; repeat split; lia. }
  intros Hst. destruct st as [|seen needed lower upper]; [done|]. cbn [utf8_step].
  destruct (_ && _); [destruct needed as [|[|n]]; cbn; repeat split; lia|].
  by destruct (utf8_start b).
Qed.

Lemma complete_step st b l :
  pending_ok st → complete st (b :: l) →
  pending_ok (utf8_step st b).2 ∧ complete (utf8_step st b).2 l
  ∧ (b <= 127 → st = Utf8Ready ∧ (utf8_step st b).2 = Utf8Ready)
  ∧ (b = 237 → utf8_step st b = ([], Utf8Pending [237] 2 128 159)).
Proof.
  intros Hst [Hstep Hl]%complete_cons. split_and!; [by apply utf8_step_ok|done| |];
    intros Hb; destruct st as [|seen needed lower upper]; cbn [utf8_step pending_ok] in *.
  - unfold utf8_start. by rewrite (proj2 (Z.leb_le b 127) Hb).
  - replace (lower <=? b) with false in * by (symmetry; apply Z.leb_gt; lia). cbn [andb] in *.
    destruct (utf8_start b). apply Forall_cons in Hstep as [[? ?] _]. done.
  - by subst.
  - subst. replace (237 <=? upper) with false in * by (symmetry; apply Z.leb_gt; lia).
    rewrite andb_false_r in Hstep. apply Forall_cons in Hstep as [[? ?] _]. done.
Qed.

(** A complete text has no encoded surrogate. *)
Lemma encode_complete l st : pending_ok st → complete st l → encode_bytes l = l.
Proof.
  revert st. induction l as [|b1 l IH]; intros st Hst Hl; [done|].
  destruct (complete_step st b1 l Hst Hl) as (Hst' & Hl' & _ & Hsurrogate).
  specialize (IH _ Hst' Hl'). cbn [encode_bytes]. destruct l as [|b2 [|b3 rest]]; try by rewrite IH.
  destruct ((b1 =? 237) && (160 <=? b2)) eqn:Hb; [|by rewrite IH]. bools. exfalso.
  rewrite (Hsurrogate ltac:(done)) in Hl'. apply complete_cons in Hl' as [Hbad _].
  cbn [utf8_step snd] in Hbad.
  replace (b2 <=? 159) with false in Hbad by (symmetry; apply Z.leb_gt; lia).
  rewrite andb_false_r in Hbad. destruct (utf8_start b2).
  by apply Forall_cons in Hbad as [[? ?] _].
Qed.

(** The characters decoded are the bytes read. *)
Definition pending_bytes (st : utf8_state) : list Z :=
  match st with Utf8Ready => [] | Utf8Pending seen _ _ _ => seen end.

Lemma utf8_step_bytes st b :
  Forall is_Some (utf8_step st b).1 →
  pending_bytes st ++ [b]
  = List.concat (List.map (default []) (utf8_step st b).1) ++ pending_bytes (utf8_step st b).2.
Proof.
  destruct st as [|seen needed lower upper]; cbn [utf8_step pending_bytes].
  - unfold utf8_start. repeat case_match; try done. by intros [[? ?] _]%Forall_cons.
  - destruct (_ && _); [destruct needed as [|[|n]]; cbn; by rewrite ?app_nil_r|].
    destruct (utf8_start b). by intros [[? ?] _]%Forall_cons.
Qed.

Lemma utf8_run_bytes st l :
  runs_clean st l →
  pending_bytes st ++ l
  = List.concat (List.map (default []) (utf8_run st l).1) ++ pending_bytes (utf8_run st l).2.
Proof.
  revert st. induction l as [|b l IH]; intros st; unfold runs_clean; cbn [utf8_run].
  - intros _. by rewrite app_nil_r.
  - pose proof (utf8_step_bytes st b) as Hstep. destruct (utf8_step st b) as [ts st'].
    specialize (IH st'). unfold runs_clean in IH. destruct (utf8_run st' l) as [ts' st''].
    cbn [fst snd] in *. intros [H1 H2]%Forall_app. specialize (Hstep H1). specialize (IH H2).
    rewrite List.map_app, List.concat_app. change (b :: l) with ([b] ++ l).
    by rewrite app_assoc, Hstep, <- !app_assoc, IH.
Qed.

Lemma utf8_tokens_complete l :
  complete Utf8Ready l →
  Forall is_Some (utf8_tokens l) ∧ List.concat (List.map (default []) (utf8_tokens l)) = l.
Proof.
  intros [Hclean Hready]. pose proof (utf8_run_bytes Utf8Ready l Hclean) as Hbytes.
  unfold utf8_tokens. unfold runs_clean in Hclean.
  destruct (utf8_run Utf8Ready l) as [ts st]. cbn [fst snd pending_bytes] in *. subst st.
  rewrite app_nil_r in *. by split.
Qed.

Lemma map_default_clean (d d' : list Z) (ts : list utf8_token) :
  Forall is_Some ts → List.map (default d) ts = List.map (default d') ts.
Proof. induction 1 as [|t ts [? ->] _ IH]; [done|]. cbn. by rewrite IH. Qed.

(** ** Encoding and decoding *)

Lemma TextEncoder_well_formed s : well_formed s → TextEncoder_encode s = bytes_of s.
Proof. intros. by apply (encode_complete _ Utf8Ready). Qed.

Lemma decode_well_formed s :
  well_formed s → starts_with_byte_order_mark s = false → TextDecoder_decode (bytes_of s) = s.
Proof.
  intros Hs Hbom. unfold TextDecoder_decode, skip_byte_order_mark, starts_with_byte_order_mark in *.
  rewrite Hbom. destruct (utf8_tokens_complete (bytes_of s) Hs) as [Hclean Hbytes].
  rewrite (map_default_clean _ []) by done. by rewrite Hbytes, string_of_bytes_of.
Qed.

Lemma decode_encode_text s :
  well_formed s → starts_with_byte_order_mark s = false →
  TextDecoder_decode (TextEncoder_encode s) = s.
Proof. intros. rewrite TextEncoder_well_formed by done. by apply decode_well_formed. Qed.

Lemma Buffer_toString_well_formed s : well_formed s → Buffer_toString (bytes_of s) = s.
Proof.
  intros Hs. unfold Buffer_toString. destruct (utf8_tokens_complete (bytes_of s) Hs) as [Hclean Hbytes].
  rewrite (map_default_clean _ []) by done. by rewrite Hbytes, string_of_bytes_of.
Qed.

(** A fatal decoder accepts exactly the well-formed texts. *)
Lemma decode_fatal_spec l :
  bytes l → take 3 l ≠ ByteOrderMark →
  TextDecoder_decode_fatal l =
    if decide (well_formed (string_of_bytes l)) then Some (string_of_bytes l) else None.
Proof.
  intros Hl Hbom. unfold TextDecoder_decode_fatal, skip_byte_order_mark.
  rewrite (bool_decide_false (take 3 l = ByteOrderMark)) by done.
  destruct (decide _) as [Hc|Hc]; unfold well_formed in Hc;
    rewrite (bytes_of_string_of l) in Hc by done.
  - destruct (utf8_tokens_complete l Hc) as [Hclean Hbytes].
    assert (mapM id (utf8_tokens l) = Some (List.map (default []) (utf8_tokens l))) as ->.
    { clear Hbytes. induction Hclean as [|t ts [x ->] _ IH]; [done|]. cbn. by rewrite IH. }
    cbn. by rewrite Hbytes.
  - assert (¬ Forall is_Some (utf8_tokens l)) as Hbad.
    { contradict Hc. unfold utf8_tokens in Hc. destruct (utf8_run Utf8Ready l) as [ts st].
      rewrite Forall_app in Hc. destruct Hc as [? Hend]. split; [done|].
      destruct st; [done|]. apply Forall_cons in Hend as [[? ?] _]. done. }
    destruct (mapM id (utf8_tokens l)) as [r|] eqn:Hr; [|done]. destruct Hbad. clear -Hr.
    revert r Hr. induction (utf8_tokens l) as [|[x|] ts IH]; intros r Hr; [constructor| |done].
    cbn in Hr. destruct (mapM id ts) as [r'|]; [|done]. constructor; [done|by eapply IH].
Qed.

(** ** JSON text *)

(** Every string of the value is well-formed. *)
Fixpoint json_well_formed (v : json) : Prop :=
  match v with
  | JNull | JBool _ => True
  | JNumber x => match x with Int _ => True | NonInteger t => well_formed t end
  | JString s => well_formed s
  | JArray l => (fix go l := match l with [] => True | v :: l => json_well_formed v ∧ go l end) l
  | JObject fields =>
      (fix go l := match l with
       | [] => True | f :: l => (well_formed f.1 ∧ json_well_formed f.2) ∧ go l end) fields
  end.

(** A string of ASCII characters. *)
Fixpoint ascii (s : string) : bool :=
  match s with EmptyString => true | String c s => (code c <=? 127) && ascii s end.

Lemma well_formed_empty : well_formed "".
Proof. by split; [constructor|]. Qed.

Lemma well_formed_ascii s : ascii s = true → well_formed s.
Proof.
  induction s as [|c s IH]; [intros; apply well_formed_empty|]. cbn [ascii]. intros [? ?]%andb_true_iff.
  apply complete_ascii; [bools; lia|by apply IH].
Qed.

Lemma well_formed_number n : well_formed (String_of_number n).
Proof.
  apply well_formed_ascii.
  assert (∀ x s, ascii s = true → ascii (pretty_N_go x s) = true) as Hgo.
  { intros x. induction (N.lt_wf_0 x) as [x _ IH]; intros s Hs.
    assert (x = 0 ∨ 0 < x)%N as [->|?] by lia; [by rewrite pretty_N_go_0|].
    rewrite pretty_N_go_step by done. apply IH; [by apply N.div_lt|]. cbn [ascii].
    rewrite Hs, andb_true_r. apply Z.leb_le.
    destruct (pretty_N_char_digit_code (x `mod` 10)) as [_ ->]; [by apply N.mod_lt|].
    pose proof (N.mod_lt x 10). lia. }
  destruct n as [|p|p]; [done|..].
  - rewrite String_of_number_pos. by apply Hgo.
  - rewrite String_of_number_neg. cbn [ascii]. by apply andb_true_iff, conj, Hgo.
Qed.

(** Escapes replace ASCII characters by ASCII characters. *)
Lemma chars_text_complete s st :
  pending_ok st → complete st (bytes_of s) → complete st (bytes_of (chars_text s)).
Proof.
  assert (∀ n, 0 <= n < 128 → code (byte n) <= 127) as Hbyte.
  { intros n Hn. rewrite code_byte; unfold byte_ok; lia. }
  revert st. induction s as [|c s IH]; intros st Hst Hs.
  - destruct Hs as [_ Hready]. cbn in Hready. subst st.
    by apply complete_ascii; [|split; [constructor|]].
  - destruct (complete_step st (code c) (bytes_of s) Hst Hs) as (Hst' & Hs' & Hascii & _).
    specialize (IH _ Hst' Hs').
    assert (code c <= 127 → ∀ l, Forall (λ b, b <= 127) l →
      complete st (l ++ bytes_of (chars_text s))) as Hescape.
    { intros [-> Hready]%Hascii l Hl. rewrite Hready in IH. clear -IH Hl.
      induction Hl as [|b l Hb _ IHl]; [done|]. by apply complete_ascii. }
    clear Hascii. cbn [chars_text]. cbv zeta.
    assert (0 <= code c) as Hpos by apply (code_ok c).
    assert (∀ n, 0 <= n < 16 → code (hex_code n) <= 127) as Hhex.
    { intros n Hn. unfold hex_code. destruct (n <? 10) eqn:?; bools;
        (change (code (byte (n + 48)) <= 127) || change (code (byte (n + 87)) <= 127));
        apply Hbyte; lia. }
    repeat match goal with
    | |- context [if ?b then _ else _] => destruct b eqn:?
    end; bools; cbn [bytes_of];
      try (by (apply (Hescape ltac:(lia) [_; _]); repeat constructor)).
    + apply (Hescape ltac:(lia) [_; _; _; _; _; _]).
      repeat constructor; try (by vm_compute); apply Hhex;
        [split; [by apply Z.div_pos|apply Z.div_lt_upper_bound; lia]|by apply Z.mod_pos_bound].
    + by apply complete_cons; apply complete_cons in Hs as [? _].
Qed.

Lemma well_formed_string_text s : well_formed s → well_formed (string_text s).
Proof.
  intros Hs. apply complete_ascii; [by vm_compute|]. by apply chars_text_complete.
Qed.

Lemma well_formed_comma_separated l : Forall well_formed l → well_formed (comma_separated l).
Proof.
  induction 1 as [|t l Ht Hl IH]; [apply well_formed_empty|]. cbn [comma_separated].
  destruct l; [done|]. apply well_formed_app; [done|]. apply well_formed_app; [by apply well_formed_ascii|done].
Qed.

Lemma well_formed_JSON v : json_well_formed v → well_formed (JSON_stringify v).
Proof.
  induction v as [|b|x|s|l IH|fields IH] using json_ind'; cbn [json_well_formed JSON_stringify].
  - intros _. by apply well_formed_ascii.
  - intros _. by destruct b; apply well_formed_ascii.
  - destruct x; [intros; apply well_formed_number|done].
  - apply well_formed_string_text.
  - intros Hl. apply well_formed_app; [by apply well_formed_ascii|]. apply well_formed_app; [|by apply well_formed_ascii].
    apply well_formed_comma_separated. induction IH as [|v l Hv _ IH]; constructor; naive_solver.
  - intros Hl. apply well_formed_app; [by apply well_formed_ascii|]. apply well_formed_app; [|by apply well_formed_ascii].
    apply well_formed_comma_separated. induction IH as [|f l Hf _ IH]; constructor; [|naive_solver].
    destruct Hl as [[Hk Hv] _]. apply well_formed_app; [by apply well_formed_string_text|].
    apply well_formed_app; [by apply well_formed_ascii|by apply Hf].
Qed.

(** ** White space *)

(** [value.trim()]: white space and line terminators, by their UTF-8 bytes. *)
Definition is_space_1 (b : Z) : bool := ((9 <=? b) && (b <=? 13)) || (b =? 32).
Definition is_space_2 (b1 b2 : Z) : bool := (b1 =? 194) && (b2 =? 160).
Definition is_space_3 (b1 b2 b3 : Z) : bool :=
  ((b1 =? 225) && (b2 =? 154) && (b3 =? 128))
  || ((b1 =? 226) && (b2 =? 128)
      && (((128 <=? b3) && (b3 <=? 138)) || (b3 =? 168) || (b3 =? 169) || (b3 =? 175)))
  || ((b1 =? 226) && (b2 =? 129) && (b3 =? 159))
  || ((b1 =? 227) && (b2 =? 128) && (b3 =? 128))
  || ((b1 =? 239) && (b2 =? 187) && (b3 =? 191)).

Fixpoint trim_start (l : list Z) : list Z :=
  match l with
  | [] => []
  | b1 :: l1 =>
      if is_space_1 b1 then trim_start l1
      else match l1 with
           | [] => l
           | b2 :: l2 =>
               if is_space_2 b1 b2 then trim_start l2
               else match l2 with
                    | [] => l
                    | b3 :: l3 => if is_space_3 b1 b2 b3 then trim_start l3 else l
                    end
           end
  end.

(** The same from the end, on the reversed bytes. *)
Fixpoint trim_end (l : list Z) : list Z :=
  match l with
  | [] => []
  | b1 :: l1 =>
      if is_space_1 b1 then trim_end l1
      else match l1 with
           | [] => l
           | b2 :: l2 =>
               if is_space_2 b2 b1 then trim_end l2
               else match l2 with
                    | [] => l
                    | b3 :: l3 => if is_space_3 b3 b2 b1 then trim_end l3 else l
                    end
           end
  end.

Definition trim (s : string) : string :=
  string_of_bytes (rev (trim_end (rev (trim_start (bytes_of s))))).

Lemma trim_start_suffix l : ∃ p, l = p ++ trim_start l.
Proof.
  induction l as [l IH] using (well_founded_ind (well_founded_ltof _ length)).
  destruct l as [|b1 l1]; [by exists []|]. cbn [trim_start].
  destruct (is_space_1 b1).
  { destruct (IH l1) as [p Hp]; [unfold ltof; cbn; lia|]. exists (b1 :: p). cbn. by rewrite <- Hp. }
  destruct l1 as [|b2 l2]; [by exists []|]. destruct (is_space_2 b1 b2).
  { destruct (IH l2) as [p Hp]; [unfold ltof; cbn; lia|]. exists (b1 :: b2 :: p). cbn. by rewrite <- Hp. }
  destruct l2 as [|b3 l3]; [by exists []|]. destruct (is_space_3 b1 b2 b3); [|by exists []].
  destruct (IH l3) as [p Hp]; [unfold ltof; cbn; lia|]. exists (b1 :: b2 :: b3 :: p). cbn. by rewrite <- Hp.
Qed.

Lemma trim_end_length l : (length (trim_end l) <= length l)%nat.
Proof.
  induction l as [l IH] using (well_founded_ind (well_founded_ltof _ length)).
  destruct l as [|b1 l1]; [done|]. cbn [trim_end].
  assert (∀ l', (length l' < length (b1 :: l1))%nat → (length (trim_end l') <= length (b1 :: l1))%nat) as Hlt.
  { intros l' Hl'. specialize (IH l' Hl'). lia. }
  repeat case_match; subst; try lia; apply Hlt; cbn; lia.
Qed.

(** A trimmed string starts with no byte order mark, which is white space. *)
Lemma trimmed_no_byte_order_mark s : trim s = s → starts_with_byte_order_mark s = false.
Proof.
  intros Htrim. apply bool_decide_eq_false. intros Hbom.
  destruct (trim_start_suffix (bytes_of s)) as [p Hp].
  assert (length (bytes_of s) <= length (trim_start (bytes_of s)))%nat as Hlen.
  { rewrite <- Htrim at 1. unfold trim.
    assert (∀ l, length (bytes_of (string_of_bytes l)) = length l) as Hbytes.
    { clear. induction l as [|b l IH]; cbn; [done|]. by rewrite IH. }
    rewrite Hbytes, length_rev. etransitivity; [apply trim_end_length|]. by rewrite length_rev. }
  destruct (bytes_of s) as [|b1 [|b2 [|b3 l]]]; try done. injection Hbom as -> -> ->.
  change (trim_start (239 :: 187 :: 191 :: l)) with (trim_start l) in Hlen.
  destruct (trim_start_suffix l) as [p' Hp']. apply (f_equal length) in Hp'.
  rewrite length_app in Hp'. cbn in Hlen. lia.
Qed.

(** ** Base64 *)

Class Base64 : Type := {
  base64_encode : list Z → string;
  base64_decode : string → list Z;
}.

(** A character of base64 text. *)
Definition base64_char (c : Ascii.ascii) : bool :=
  let n := code c in
  ((65 <=? n) && (n <=? 90)) || ((97 <=? n) && (n <=? 122)) || is_digit c
  || (n =? 43) || (n =? 47) || (n =? 61).

Fixpoint base64_text (s : string) : bool :=
  match s with EmptyString => true | String c s => base64_char c && base64_text s end.

Class Base64Laws `{Base64} : Prop := {
  base64_roundtrip b : bytes b → base64_decode (base64_encode b) = b;
  base64_length b :
    bytes b → String.length (base64_encode b) = (4 * ((length b + 2) / 3))%nat;
  base64_alphabet b : bytes b → base64_text (base64_encode b) = true;
  base64_bytes s : bytes (base64_decode s);
}.

(** *** A function with these laws *)

Definition base64_digit (n : Z) : Ascii.ascii :=
  byte (if n <? 26 then n + 65 else if n <? 52 then n + 71 else if n <? 62 then n - 4
        else if n =? 62 then 43 else 47).

Definition base64_value (c : Ascii.ascii) : Z :=
  let n := code c in
  if (65 <=? n) && (n <=? 90) then n - 65 else if (97 <=? n) && (n <=? 122) then n - 71
  else if is_digit c then n + 4 else if n =? 43 then 62 else 63.

Definition base64_padding : Ascii.ascii := byte 61.

Fixpoint encode64 (l : list Z) : string :=
  match l with
  | [] => ""
  | [a] => String (base64_digit (a `div` 4)) (String (base64_digit (a `mod` 4 * 16))
             (String base64_padding (String base64_padding "")))
  | [a; b] => String (base64_digit (a `div` 4)) (String (base64_digit (a `mod` 4 * 16 + b `div` 16))
                (String (base64_digit (b `mod` 16 * 4)) (String base64_padding "")))
  | a :: b :: c :: rest =>
      String (base64_digit (a `div` 4)) (String (base64_digit (a `mod` 4 * 16 + b `div` 16))
        (String (base64_digit (b `mod` 16 * 4 + c `div` 64))
          (String (base64_digit (c `mod` 64)) (encode64 rest))))
  end.

Fixpoint decode64 (s : string) : list Z :=
  match s with
  | String x (String y (String z (String w rest))) =>
      let a := (base64_value x * 4 + base64_value y `div` 16) `mod` 256 in
      let b := (base64_value y * 16 + base64_value z `div` 4) `mod` 256 in
      let c := (base64_value z * 64 + base64_value w) `mod` 256 in
      if z =?= base64_padding then [a]
      else if w =?= base64_padding then [a; b]
      else a :: b :: c :: decode64 rest
  | _ => []
  end.

Definition reference_base64 : Base64 := {| base64_encode := encode64; base64_decode := decode64 |}.

Lemma base64_digit_spec n :
  0 <= n < 64 →
  base64_value (base64_digit n) = n ∧ base64_digit n ≠ base64_padding
  ∧ base64_char (base64_digit n) = true.
Proof.
  intros Hn. assert (∀ k, (k < 64)%nat →
    (base64_value (base64_digit (Z.of_nat k)) =? Z.of_nat k)
    && negb (base64_digit (Z.of_nat k) =?= base64_padding)
    && base64_char (base64_digit (Z.of_nat k)) = true) as Hall.
  { intros k Hk.
    assert (forallb (λ k, (base64_value (base64_digit (Z.of_nat k)) =? Z.of_nat k)
      && negb (base64_digit (Z.of_nat k) =?= base64_padding)
      && base64_char (base64_digit (Z.of_nat k))) (seq 0 64) = true) as Hseq by by vm_compute.
    rewrite List.forallb_forall in Hseq. apply Hseq. apply List.in_seq. lia. }
  specialize (Hall (Z.to_nat n) ltac:(lia)). rewrite Z2Nat.id in Hall by lia.
  apply andb_true_iff in Hall as [[? ?]%andb_true_iff ?]. bools. by split_and!.
Qed.

(** Induction by groups of three bytes. *)
Lemma list_ind_three {A} (P : list A → Prop) :
  P [] → (∀ a, P [a]) → (∀ a b, P [a; b]) → (∀ a b c l, P l → P (a :: b :: c :: l)) → ∀ l, P l.
Proof.
  intros H0 H1 H2 H3 l. induction l as [l IH] using (well_founded_ind (well_founded_ltof _ length)).
  destruct l as [|a [|b [|c l]]]; auto. apply H3, IH. unfold ltof. simpl. lia.
Qed.

Ltac sextets :=
  repeat match goal with
  | |- context [base64_value (base64_digit ?n)] =>
      rewrite (proj1 (base64_digit_spec n ltac:(Z.to_euclidean_division_equations; lia)))
  | |- context [bool_decide (base64_digit ?n = base64_padding)] =>
      rewrite (bool_decide_false (base64_digit n = base64_padding))
        by (apply base64_digit_spec; Z.to_euclidean_division_equations; lia)
  end.

#[export] Instance reference_base64_laws : @Base64Laws reference_base64.
Proof.
  split; intros l; cbn [base64_encode base64_decode reference_base64].
  - induction l as [|a|a b|a b c l IH] using list_ind_three; unfold bytes; [done|..];
      rewrite ?Forall_cons; unfold byte_ok; cbn [encode64 decode64]; cbv zeta.
    + intros [? _]. sextets. rewrite (bool_decide_true (base64_padding = base64_padding)) by done.
      f_equal. Z.to_euclidean_division_equations. lia.
    + intros (? & ? & _). sextets. rewrite (bool_decide_true (base64_padding = base64_padding)) by done.
      f_equal; [|f_equal]; Z.to_euclidean_division_equations; lia.
    + intros (? & ? & ? & Hl). sextets. rewrite IH by done.
      f_equal; [|f_equal; [|f_equal]]; Z.to_euclidean_division_equations; lia.
  - intros _. induction l as [|a|a b|a b c l IH] using list_ind_three; try done.
    cbn [encode64 String.length length]. rewrite IH.
    replace (S (S (S (length l))) + 2)%nat with (length l + 2 + 1 * 3)%nat by lia.
    rewrite Nat.div_add by lia. lia.
  - assert (base64_char base64_padding = true) as Hpad by reflexivity.
    induction l as [|a|a b|a b c l IH] using list_ind_three; unfold bytes; [done|..];
      rewrite ?Forall_cons; unfold byte_ok; cbn [encode64 base64_text]; intros; destruct_and!;
      rewrite ?Hpad, ?andb_true_iff; split_and!;
      lazymatch goal with
      | |- base64_text _ = true => by apply IH
      | |- base64_char _ = true => apply base64_digit_spec; Z.to_euclidean_division_equations; lia
      | |- _ => reflexivity
      end.
  - assert (∀ n s, (String.length s <= n)%nat → bytes (decode64 s)) as Hall; [|by eapply Hall].
    intros n. induction n as [|n IH]; intros s Hs; destruct s as [|x [|y [|z [|w s]]]];
      cbn [String.length] in Hs; try lia; try constructor.
    cbn [decode64]. cbv zeta.
    assert (∀ k, byte_ok (k `mod` 256)) as Hmod by (intros; by apply Z.mod_pos_bound).
    repeat case_match; repeat (constructor; [apply Hmod|]); try constructor. apply IH. lia.
Qed.
