(* ===== verification/Locale.v ===== *)
(** * Strings and numbers of the language, as the runtime plan uses them

    - [Locale]: the functions of the language that depend on Unicode tables:
      [toLowerCase], [toUpperCase] and [localeCompare].  Of the case mappings nothing is
      assumed; [LocaleLaws] says that [localeCompare] is an order: the collation
      of ECMA-402 is one.  [reference_locale] is an instance on ASCII.
    - [Urls]: the URL parser of the platform: the protocol and the path name of a
      string that is a URL.
    - prefixes and lengths of strings, and comparisons of numbers with zero. *)

From S2P Require Import Prelude JsMap Json DataFrame Text.
Local Open Scope Z_scope.

(** ** Locale *)

Class Locale : Type := {
  toLowerCase : string → string;
  toUpperCase : string → string;
  localeCompare : string → string → Z;
}.

Class LocaleLaws `{Locale} : Prop := {
  localeCompare_consistent : consistent localeCompare;
}.

(** A comparison by a key, and one comparison after another ([a || b] on numbers). *)
Lemma consistent_by {A B} (f : A → B) compare :
  consistent compare → consistent (λ x y, compare (f x) (f y)).
Proof. intros [Hsgn Htrans]. split; eauto. Qed.

Definition then_by {A} (c1 c2 : A → A → Z) (x y : A) : Z :=
  if c1 x y =? 0 then c2 x y else c1 x y.

Lemma consistent_then {A} (c1 c2 : A → A → Z) :
  consistent c1 → consistent c2 → consistent (then_by c1 c2).
Proof.
  intros [S1 T1] [S2 T2]. unfold then_by. split.
  - intros x y. pose proof (S1 x y). destruct (Z.eqb_spec (c1 x y) 0), (Z.eqb_spec (c1 y x) 0); auto; lia.
  - intros x y z. pose proof (T1 x y z) as Hxyz. pose proof (T1 z x y) as Hzxy. pose proof (T1 y z x) as Hyzx.
    pose proof (S1 x y). pose proof (S1 y z). pose proof (S1 z x).
    pose proof (T2 x y z). pose proof (S1 x z). pose proof (S1 z y). pose proof (S1 y x).
    destruct (Z.eqb_spec (c1 x y) 0), (Z.eqb_spec (c1 y z) 0), (Z.eqb_spec (c1 x z) 0); intros; auto; lia.
Qed.

Lemma consistent_number {A} (f : A → Z) : consistent (λ x y, f x - f y).
Proof. split; intros; lia. Qed.

(** [a - b] the other way round *)
Lemma consistent_number_desc {A} (f : A → Z) : consistent (λ x y, f y - f x).
Proof. split; intros; lia. Qed.

#[export] Hint Resolve consistent_by consistent_then consistent_number consistent_number_desc : mistle.

(** A reference instance: ASCII. *)

Fixpoint ascii_lower (s : string) : string :=
  match s with
  | EmptyString => EmptyString
  | String c s =>
      String (if (65 <=? code c) && (code c <=? 90) then byte (code c + 32) else c) (ascii_lower s)
  end.

Fixpoint ascii_upper (s : string) : string :=
  match s with
  | EmptyString => EmptyString
  | String c s =>
      String (if (97 <=? code c) && (code c <=? 122) then byte (code c - 32) else c) (ascii_upper s)
  end.

Fixpoint compare_bytes (l l' : list Z) : Z :=
  match l, l' with
  | [], [] => 0
  | [], _ => -1
  | _, [] => 1
  | b :: l, b' :: l' => if b =? b' then compare_bytes l l' else b - b'
  end.

#[export] Instance reference_locale : Locale :=
  {| toLowerCase := ascii_lower; toUpperCase := ascii_upper;
     localeCompare := λ s t, compare_bytes (bytes_of s) (bytes_of t) |}.

Lemma compare_bytes_consistent : consistent compare_bytes.
Proof.
  split.
  - induction x as [|b x IH]; intros [|b' y]; simpl; try done.
    destruct (Z.eqb_spec b b') as [->|]; [by rewrite Z.eqb_refl|].
    destruct (Z.eqb_spec b' b); lia.
  - induction x as [|b x IH]; intros y z; [by destruct z|].
    destruct y as [|b' y]; [simpl; lia|]. destruct z as [|b'' z]; [simpl; repeat case_match; lia|]. simpl.
    destruct (Z.eqb_spec b b') as [->|]; [destruct (Z.eqb_spec b' b'') as [->|]; [eauto|lia]|].
    destruct (Z.eqb_spec b' b'') as [->|]; destruct (Z.eqb_spec b b''); lia.
Qed.

#[export] Instance reference_locale_laws : LocaleLaws.
Proof. constructor. apply (consistent_by bytes_of), compare_bytes_consistent. Qed.

(** ** URLs *)

(** [new URL(text)]: its [protocol] and [pathname]; [None] when it throws. *)
Class Urls : Type := { URL_parse : string → option (string * string) }.

(** A reference instance: [scheme://authority/path], without [.] and [..] segments and
    percent encoding. *)
Fixpoint split_at_char (c : Ascii.ascii) (s : string) : string * string :=
  match s with
  | EmptyString => (EmptyString, EmptyString)
  | String c' rest =>
      if c' =?= c then (EmptyString, s) else let (before, after) := split_at_char c rest in (String c' before, after)
  end.

Definition reference_urls : Urls :=
  {| URL_parse := λ text,
       let (scheme, rest) := split_at_char colon text in
       rest ← strip_prefix "://" rest;
       let (authority, path) := split_at_char (Ascii.ascii_of_nat 47) rest in
       if (scheme =?= "") || (authority =?= "") then None
       else Some (scheme +:+ ":", if path =?= "" then "/" else path) |}.

(** ** Prefixes and lengths *)

(** [s.startsWith(prefix)], [s.endsWith(suffix)], [s.slice(0, -1)] *)
Definition starts_with (s prefix : string) : bool := bool_decide (is_Some (strip_prefix prefix s)).

Fixpoint ends_with (s : string) (c : Ascii.ascii) : bool :=
  match s with
  | EmptyString => false
  | String c' EmptyString => c' =?= c
  | String _ s => ends_with s c
  end.

Fixpoint drop_last (s : string) : string :=
  match s with
  | EmptyString | String _ EmptyString => EmptyString
  | String c s => String c (drop_last s)
  end.

(** [s.length]: the UTF-16 code units of the string. *)
Definition code_units (b : Z) : Z :=
  if b <? 128 then 1 else if b <? 192 then 0 else if b <? 240 then 1 else 2.
Definition string_length (s : string) : Z := foldr (λ b n, code_units b + n) 0 (bytes_of s).

(** [s.trim().length === 0] *)
Definition blank (s : string) : bool := trim s =?= "".

Lemma strip_prefix_some p s t : strip_prefix p s = Some t ↔ s = p +:+ t.
Proof.
  revert s. induction p as [|c p IH]; intros s; simpl.
  - rewrite app_empty_l. naive_solver.
  - rewrite app_String. destruct s as [|c' s]; [done|]. case_bool_decide as Hc; [subst|naive_solver].
    rewrite IH. naive_solver.
Qed.

Lemma starts_with_spec s p : starts_with s p = true ↔ ∃ t, s = p +:+ t.
Proof.
  unfold starts_with. rewrite bool_decide_eq_true. unfold is_Some. by setoid_rewrite strip_prefix_some.
Qed.

Lemma ends_with_spec s c : ends_with s c = true ↔ s = drop_last s +:+ String c "".
Proof.
  induction s as [|c' [|c'' s] IH]; [done| |].
  - cbn [ends_with drop_last]. rewrite bool_decide_eq_true, app_empty_l. split; [by intros ->|by intros [= ->]].
  - change (ends_with (String c' (String c'' s)) c) with (ends_with (String c'' s) c).
    change (drop_last (String c' (String c'' s))) with (String c' (drop_last (String c'' s))).
    rewrite IH, app_String. split; [by intros <-|by injection 1].
Qed.

(** Of two prefixes of a string, one is a prefix of the other. *)
Lemma prefix_comparable p q s s' :
  p +:+ s = q +:+ s' → (∃ t, q = p +:+ t) ∨ (∃ t, p = q +:+ t).
Proof.
  revert q. induction p as [|c p IH]; intros [|c' q]; rewrite ?app_empty_l, ?app_String; intros Heq;
    [by left; exists ""|left; by eexists|right; by eexists|].
  injection Heq as -> Heq. destruct (IH q Heq) as [[t ->]|[t ->]]; [left|right]; by exists t.
Qed.

Lemma string_app_inj_r p q c c' : p +:+ String c "" = q +:+ String c' "" → p = q ∧ c = c'.
Proof.
  revert q. induction p as [|c1 p IH]; intros [|c2 q]; rewrite ?app_empty_l, ?app_String; intros Heq;
    simplify_eq; [done| | |by destruct (IH q) as [-> ->]].
  - by destruct q.
  - by destruct p.
Qed.

Lemma string_last t : t = "" ∨ ∃ t' c, t = t' +:+ String c "".
Proof.
  induction t as [|c t IH]; [by left|right]. destruct IH as [->|(t' & c' & ->)].
  - by exists "", c.
  - by exists (String c t'), c'.
Qed.

(** ** Numbers *)

(** [x < 0] and [x <= 0]: the text of a number that is no integer starts with ["-"] when it
    is negative. *)
Definition number_negative (x : number) : bool :=
  match x with Int n => n <? 0 | NonInteger text => starts_with text "-" end.
Definition number_nonpositive (x : number) : bool :=
  match x with Int n => n <=? 0 | NonInteger text => starts_with text "-" end.

(** [x === y] on numbers, and on optional ones. *)
Definition number_equal (x y : number) : bool := (x =?= y) && negb (x =?= NonInteger "NaN").
Definition optional_number_equal (x y : option number) : bool :=
  match x, y with
  | Some x, Some y => number_equal x y
  | None, None => true
  | _, _ => false
  end.
