(* ===== verification/LogLines.v ===== *)
(** * Telemetry log lines (telemetry-ingress/sandbox-telemetry-log-line-decoder.ts)

    The decoder cuts a stream of chunks into lines.  A chunk boundary may fall
    anywhere, also inside a character: bytes that do not yet end in a newline
    wait in [pendingBytes].  [append] is the code's loop over byte positions;
    [lines_of] is the reference it is proved equal to.

    [decode_utf8] is [new TextDecoder("utf-8", { fatal: true }).decode], [None]
    where it throws; nothing is assumed of it. *)

From S2P Require Import Prelude DataFrame.
Local Open Scope Z_scope.

(** errors.ts *)
Record SandboxTelemetryResetError : Type := mkTelemetryResetError {
  resetError_code : string;
  resetError_message : string;
}.

Definition LineDelimiterByte : Z := 10.
Definition MaxTelemetryLineBytes : Z := 16 * 1024 * 1024.

Definition concatenateBytes (parts : list (list Z)) : list Z :=
  let totalLength := foldl (λ sum part, (sum + length part)%nat) 0%nat parts in
  let combined := replicate totalLength 0 in
  (foldl (λ '(combined, offset) part,
     (Uint8Array_set combined part offset, (offset + length part)%nat)) (combined, 0%nat) parts).1.

Definition invalid_line : SandboxTelemetryResetError :=
  mkTelemetryResetError "invalid_telemetry_log_shape"
    "Telemetry log line does not match mistle.sandbox-runtime.log.v1.".

Section Decoder.
Context (decode_utf8 : list Z → option string).
Notation Error := SandboxTelemetryResetError.

Definition decodeUtf8Line (lineBytes : list Z) : Error + string :=
  match decode_utf8 lineBytes with
  | Some line => inr line
  | None => inl invalid_line
  end.

Definition ensureLineByteLength (lineBytes : list Z) : Error + unit :=
  if Z.of_nat (length lineBytes) <=? MaxTelemetryLineBytes then inr tt else inl invalid_line.

(** One turn of the loop: [(lineStartIndex, completedLines)]. *)
Definition append_byte (combined : list Z) (st : nat * list string) (byteIndex : nat)
    : Error + (nat * list string) :=
  let (lineStartIndex, completedLines) := st in
  if negb (nth byteIndex combined 0 =? LineDelimiterByte) then inr st
  else
    let lineBytes := subarray combined lineStartIndex byteIndex in
    let lineStartIndex := (byteIndex + 1)%nat in
    if (length lineBytes =? 0)%nat then inr (lineStartIndex, completedLines)
    else
      match ensureLineByteLength lineBytes with
      | inl e => inl e
      | inr _ =>
          match decodeUtf8Line lineBytes with
          | inl e => inl e
          | inr line => inr (lineStartIndex, completedLines ++ [line])
          end
      end.

Fixpoint append_bytes (combined : list Z) (st : nat * list string) (byteIndexes : list nat)
    : Error + (nat * list string) :=
  match byteIndexes with
  | [] => inr st
  | byteIndex :: byteIndexes =>
      match append_byte combined st byteIndex with
      | inl e => inl e
      | inr st => append_bytes combined st byteIndexes
      end
  end.

(** The state is [#pendingBytes]; a throw leaves it as it was. *)
Definition append (payload : list Z) : M Error (list Z) (list string) := λ pendingBytes,
  if (length payload =? 0)%nat then (inr [], pendingBytes)
  else
    let combined := concatenateBytes [pendingBytes; payload] in
    match append_bytes combined (0%nat, []) (seq 0 (length combined)) with
    | inl e => (inl e, pendingBytes)
    | inr (lineStartIndex, completedLines) => (inr completedLines, drop lineStartIndex combined)
    end.

Definition finalize : M Error (list Z) unit := λ pendingBytes,
  if (length pendingBytes =? 0)%nat then (inr tt, pendingBytes)
  else (inl (mkTelemetryResetError "unterminated_telemetry_line"
          "Telemetry stream closed with an incomplete log line."), []).

(** ** The reference *)

(** The newline-terminated lines of a text, and what follows the last newline. *)
Fixpoint split_lines (text : list Z) : list (list Z) * list Z :=
  match text with
  | [] => ([], [])
  | b :: text =>
      let (lines, rest) := split_lines text in
      if b =? LineDelimiterByte then ([] :: lines, rest)
      else match lines with
           | [] => ([], b :: rest)
           | line :: lines => ((b :: line) :: lines, rest)
           end
  end.

(** A line in the decoder's terms; an empty one is skipped. *)
Definition read_line (lineBytes : list Z) : Error + list string :=
  if (length lineBytes =? 0)%nat then inr []
  else if MaxTelemetryLineBytes <? Z.of_nat (length lineBytes) then inl invalid_line
  else match decode_utf8 lineBytes with
       | Some line => inr [line]
       | None => inl invalid_line
       end.

Fixpoint read_lines (lines : list (list Z)) : Error + list string :=
  match lines with
  | [] => inr []
  | line :: lines =>
      match read_line line, read_lines lines with
      | inl e, _ => inl e
      | inr _, inl e => inl e
      | inr l, inr ls => inr (l ++ ls)
      end
  end.

(** The lines of a whole text, or the error its first bad line gives. *)
Definition lines_of (text : list Z) : Error + list string := read_lines (split_lines text).1.

(** The decoder over a sequence of chunks, as its caller uses it: the first
    error ends the stream. *)
Fixpoint append_all (chunks : list (list Z)) : M Error (list Z) (list string) :=
  match chunks with
  | [] => mret []
  | chunk :: chunks =>
      lines ← append chunk;
      more ← append_all chunks;
      mret (lines ++ more)
  end.

(** ** The loop computes the reference *)

Lemma concatenateBytes_2 a b : concatenateBytes [a; b] = a ++ b.
Proof.
  unfold concatenateBytes, Uint8Array_set. cbn [foldl fst Nat.add].
  rewrite take_0, app_nil_l.
  rewrite take_app_length, !drop_replicate, drop_app_add, drop_replicate.
  replace (_ - _ - _)%nat with 0%nat by lia. by rewrite app_nil_r.
Qed.

Lemma read_lines_app l1 l2 :
  read_lines (l1 ++ l2) =
    match read_lines l1, read_lines l2 with
    | inl e, _ => inl e
    | inr _, inl e => inl e
    | inr a, inr b => inr (a ++ b)
    end.
Proof.
  induction l1 as [|line l1 IH]; simpl; [by destruct (read_lines l2)|].
  rewrite IH. destruct (read_line line), (read_lines l1), (read_lines l2); try done.
  by rewrite app_assoc.
Qed.

Lemma split_lines_app t1 t2 :
  split_lines (t1 ++ t2) =
    let (l1, rest) := split_lines t1 in
    let (l2, rest2) := split_lines (rest ++ t2) in (l1 ++ l2, rest2).
Proof.
  induction t1 as [|b t1 IH]; simpl; [by destruct (split_lines t2)|].
  rewrite IH. destruct (split_lines t1) as [[|line l1] rest];
    destruct (Z.eqb_spec b LineDelimiterByte) as [|Hb]; cbn [app split_lines];
    destruct (split_lines (rest ++ t2)) as [l2 rest2]; try done.
  destruct (Z.eqb_spec b LineDelimiterByte); [done|]. by destruct l2.
Qed.

(** What follows the last newline holds no newline. *)
Lemma split_lines_no_newline text :
  LineDelimiterByte ∉ text → split_lines text = ([], text).
Proof.
  induction text as [|b text IH]; [done|]. rewrite not_elem_of_cons. intros [Hb Ht]. simpl.
  rewrite IH by done. by destruct (Z.eqb_spec b LineDelimiterByte).
Qed.

Lemma split_lines_rest text : LineDelimiterByte ∉ (split_lines text).2.
Proof.
  induction text as [|b text IH]; simpl; [apply not_elem_of_nil|].
  destruct (split_lines text) as [[|line lines] rest]; simpl in *;
    destruct (Z.eqb_spec b LineDelimiterByte); simpl; try done. by apply not_elem_of_cons.
Qed.

Lemma split_lines_line line text :
  LineDelimiterByte ∉ line →
  split_lines (line ++ LineDelimiterByte :: text) =
    (line :: (split_lines text).1, (split_lines text).2).
Proof.
  induction line as [|b line IH]; [by simpl; destruct (split_lines text)|].
  rewrite not_elem_of_cons. intros [Hb Hline]. simpl. rewrite IH by done.
  by destruct (Z.eqb_spec b LineDelimiterByte).
Qed.

Lemma append_byte_line done_ current todo completed :
  append_byte (done_ ++ current ++ LineDelimiterByte :: todo) (length done_, completed)
      (length done_ + length current) =
    match read_line current with
    | inl e => inl e
    | inr ls => inr (length (done_ ++ current ++ [LineDelimiterByte]), completed ++ ls)
    end.
Proof.
  unfold append_byte. rewrite app_nth2_plus, app_nth2 by lia. rewrite Nat.sub_diag. simpl.
  replace (length (done_ ++ current ++ [LineDelimiterByte]))
    with (length done_ + length current + 1)%nat by (rewrite !length_app; simpl; lia).
  replace (subarray _ _ _) with current; cycle 1.
  { unfold subarray. rewrite app_assoc, take_app_length' by (rewrite length_app; lia).
    by rewrite drop_app_length. }
  unfold read_line, ensureLineByteLength, decodeUtf8Line.
  destruct (length current =? 0)%nat; [by rewrite app_nil_r|].
  destruct (Z.leb_spec (Z.of_nat (length current)) MaxTelemetryLineBytes),
    (Z.ltb_spec MaxTelemetryLineBytes (Z.of_nat (length current))); try lia; [|done].
  by destruct (decode_utf8 current).
Qed.

(** The loop from any position: the bytes before [current] are cut already and
    [current] holds no newline. *)
Lemma append_bytes_lines todo done_ current completed :
  LineDelimiterByte ∉ current →
  let combined := done_ ++ current ++ todo in
  ∃ start, drop start combined = (split_lines (current ++ todo)).2 ∧
    append_bytes combined (length done_, completed)
        (seq (length done_ + length current) (length todo)) =
      match lines_of (current ++ todo) with
      | inl e => inl e
      | inr ls => inr (start, completed ++ ls)
      end.
Proof.
  revert done_ current completed. induction todo as [|b todo IH]; intros done_ current completed Hcur.
  - exists (length done_). unfold lines_of. rewrite app_nil_r, split_lines_no_newline by done.
    rewrite drop_app_length. simpl. by rewrite app_nil_r.
  - intros combined. destruct (decide (b = LineDelimiterByte)) as [->|Hb].
    + destruct (IH (done_ ++ current ++ [LineDelimiterByte]) []
        (completed ++ match read_line current with inr ls => ls | inl _ => [] end)
        (not_elem_of_nil _)) as (start & Hdrop & Hrun).
      exists start. unfold lines_of in *. rewrite split_lines_line by done. cbn [fst snd].
      assert ((done_ ++ current ++ [LineDelimiterByte]) ++ [] ++ todo = combined) as Hcomb
        by (subst combined; by rewrite <-!app_assoc).
      rewrite Hcomb in Hrun, Hdrop. split; [done|]. cbn [length seq append_bytes read_lines].
      unfold combined at 1. rewrite append_byte_line.
      destruct (read_line current) as [e|ls] eqn:Hline; [done|].
      replace (S (length done_ + length current))
        with (length (done_ ++ current ++ [LineDelimiterByte]) + length ([] : list Z))%nat
        by (rewrite !length_app; simpl; lia).
      rewrite Hrun. simpl. destruct (read_lines _); [done|]. by rewrite app_assoc.
    + destruct (IH done_ (current ++ [b]) completed) as (start & Hdrop & Hrun).
      { rewrite elem_of_app, list_elem_of_singleton. naive_solver. }
      exists start. rewrite <-app_assoc in Hdrop, Hrun. simpl in Hdrop, Hrun.
      split; [done|]. cbn [length seq append_bytes]. unfold append_byte at 1. unfold combined at 1.
      rewrite app_nth2_plus, app_nth2 by lia. rewrite Nat.sub_diag. simpl.
      destruct (Z.eqb_spec b LineDelimiterByte); [done|]. simpl.
      rewrite length_app in Hrun. simpl in Hrun.
      by replace (S (length done_ + length current)) with (length done_ + (length current + 1))%nat by lia.
Qed.

Lemma append_run pendingBytes payload :
  LineDelimiterByte ∉ pendingBytes →
  append payload pendingBytes =
    match lines_of (pendingBytes ++ payload) with
    | inl e => (inl e, pendingBytes)
    | inr ls => (inr ls, (split_lines (pendingBytes ++ payload)).2)
    end.
Proof.
  intros Hpending. unfold append. destruct (Nat.eqb_spec (length payload) 0) as [Hp|Hp].
  - destruct payload; [|done]. unfold lines_of. by rewrite app_nil_r, split_lines_no_newline.
  - rewrite concatenateBytes_2.
    destruct (append_bytes_lines (pendingBytes ++ payload) [] [] []) as (start & Hdrop & Hrun);
      [apply not_elem_of_nil|]. simpl in Hdrop, Hrun. rewrite Hrun.
    destruct (lines_of _); [done|]. by rewrite Hdrop.
Qed.

Lemma append_all_run chunks pendingBytes :
  LineDelimiterByte ∉ pendingBytes →
  (append_all chunks pendingBytes).1 = lines_of (pendingBytes ++ concat chunks) ∧
  (∀ ls, lines_of (pendingBytes ++ concat chunks) = inr ls →
    (append_all chunks pendingBytes).2 = (split_lines (pendingBytes ++ concat chunks)).2).
Proof.
  revert pendingBytes. induction chunks as [|chunk chunks IH]; intros pendingBytes Hp; simpl.
  - unfold lines_of. by rewrite app_nil_r, split_lines_no_newline.
  - rewrite app_assoc.
    destruct (split_lines (pendingBytes ++ chunk)) as [l1 rest] eqn:Hsplit.
    assert (lines_of (pendingBytes ++ chunk) = read_lines l1) as Hl1
      by (unfold lines_of; by rewrite Hsplit).
    assert (LineDelimiterByte ∉ rest) as Hrest
      by (pose proof (split_lines_rest (pendingBytes ++ chunk)) as Hr; by rewrite Hsplit in Hr).
    destruct (IH rest Hrest) as [Hres Hst]. unfold lines_of in Hres, Hst |- *.
    rewrite split_lines_app, Hsplit.
    unfold mbind, M_bind. rewrite append_run, Hl1, Hsplit by done. cbn [snd].
    destruct (split_lines (rest ++ concat chunks)) as [l2 rest2]. cbn [fst snd] in *.
    rewrite read_lines_app. destruct (read_lines l1) as [e|a]; [done|].
    destruct (append_all chunks rest) as [[e|b] st]; cbn [fst snd] in *; rewrite <-Hres; [done|].
    split; [done|]. intros ls _. by eapply Hst.
Qed.

(** The chunk boundaries do not matter.  Fed the chunks of a text one after the
    other, the decoder yields the non-empty lines of the text in order, or fails
    exactly when some line is too long or not UTF-8; and after that the stream
    may be closed exactly when the text is empty or ends in a newline. *)
Theorem decoder_chunks (chunks : list (list Z)) :
  let text := concat chunks in
  (append_all chunks []).1 = lines_of text ∧
  (∀ ls, lines_of text = inr ls →
    let (closed, pendingBytes) := finalize (append_all chunks []).2 in
    pendingBytes = [] ∧ (closed = inr tt ↔ text = [] ∨ last text = Some LineDelimiterByte)).
Proof.
  intros text. destruct (append_all_run chunks [] (not_elem_of_nil _)) as [Hres Hst].
  split; [done|]. intros ls Hls. rewrite (Hst ls Hls). cbn [app]. fold text.
  assert ((split_lines text).2 = [] ↔ text = [] ∨ last text = Some LineDelimiterByte) as Hend.
  { clear. induction text as [|b text IH]; [naive_solver|]. rewrite last_cons. simpl.
    destruct (split_lines text) as [lines rest] eqn:Ht; cbn [fst snd] in *.
    destruct text as [|b' text]; simpl in *.
    - simplify_eq. destruct (Z.eqb_spec b LineDelimiterByte); simpl; naive_solver.
    - destruct lines as [|line lines]; destruct (Z.eqb_spec b LineDelimiterByte); simpl;
        destruct (last (b' :: text)) eqn:Hlast; try (by apply last_None in Hlast);
        rewrite ?IH; try naive_solver.
      split; [done|]. intros [?|[= ->]]; [done|]. assert (rest = []) as -> by naive_solver.
      exfalso. revert Ht. clear. destruct (split_lines text) as [[|??] ?];
        destruct (Z.eqb_spec b' LineDelimiterByte); simpl; naive_solver. }
  unfold finalize. destruct (split_lines text).2 as [|b rest]; simpl; (split; [done|]); naive_solver.
Qed.
End Decoder.

Lemma decoder_chunks_witness :
  let decode (l : list Z) : option string := if bool_decide (255 ∈ l) then None else Some "line" in
  (append_all decode [[104; 105]; [10; 10]; [111; 107; 10]] []).1 = inr ["line"; "line"] ∧
  finalize (append_all decode [[104; 105]; [10; 10]; [111; 107; 10]] []).2 = (inr tt, []).
Proof.
  intros decode. destruct (decoder_chunks decode [[104; 105]; [10; 10]; [111; 107; 10]])
    as [Hres Hclose].
  split; [by rewrite Hres|]. specialize (Hclose ["line"; "line"] eq_refl). 
  destruct (finalize _) as [closed pending]. destruct Hclose as [-> Hclosed].
  f_equal. apply Hclosed. right. reflexivity.
Defined.
