(* ===== verification/TelemetryIngress.v ===== *)
(** * The telemetry ingress service (telemetry-ingress/sandbox-telemetry-ingress-service.ts)

    The service keeps a session object per bootstrap connection and forwards its
    streams to a sink.  Session objects are shared: a handler that waits for the
    sink holds a reference to its session, which other handlers may change or
    drop from the map meanwhile.  So the model has a [heap] of sessions, and
    [handleDelivery] is cut at its [await]s: [start] runs a delivery to its first
    wait, [resume] runs a waiting handler on from the sink's answer.
    - [finish] runs a delivery with nothing in between;
    - [ingress_step_any] interleaves any number of handlers.

    The sink's calls are recorded; its answers are arbitrary. *)

From S2P Require Import Prelude JsMap DataFrame TunnelTypes FlowControl LogLines.
Local Open Scope Z_scope.

(** The kinds of [TelemetryDelivery]. *)
Inductive TelemetryDelivery : Type :=
| TelemetryOpenDelivery (input : OpenTelemetryInput)
| TelemetryCloseDelivery (streamId : Z)
| TelemetryDataDelivery (payload : list Z) (streamId : Z)
| TelemetryInvalidDataDelivery (payloadKind streamId : Z).

Record IngressConnection : Type := mkConnection {
  ingress_relaySessionId : string;
  ingress_sandboxInstanceId : string;
}.

Definition toSessionKey (input : IngressConnection) : string :=
  input.(ingress_sandboxInstanceId) +:+ ":" +:+ input.(ingress_relaySessionId).

Record SandboxTelemetryIngressStream : Type := mkIngressStream {
  ingressStream_info : TelemetryInfo;
  ingressStream_connection : IngressConnection;
  ingressStream_streamId : Z;
}.

Definition toIngressStream (connection : IngressConnection)
    (stream : ActiveBootstrapTelemetryStream) : SandboxTelemetryIngressStream :=
  mkIngressStream stream.(stream_info) connection stream.(stream_streamId).

Inductive SinkCall : Type :=
| SinkOpen (stream : SandboxTelemetryIngressStream)
| SinkAppend (stream : SandboxTelemetryIngressStream) (payload : list Z)
| SinkClose (stream : SandboxTelemetryIngressStream).

(** What the sink throws. *)
Inductive SinkError : Type :=
| SinkResetError (error : SandboxTelemetryResetError)
| SinkOtherError.

Definition TelemetrySinkFailureMessage : string := "Gateway failed to ingest telemetry bytes.".

Definition toTelemetryReset (error : SinkError) (streamId : Z) : IngressControlMessage :=
  match error with
  | SinkResetError error =>
      createTelemetryReset streamId error.(resetError_code) error.(resetError_message)
  | SinkOtherError =>
      createTelemetryReset streamId "telemetry_sink_failed" TelemetrySinkFailureMessage
  end.

(** [#sessions] holds references into [heap]; [sink_calls] and [sent] record what
    was asked of the sink and sent to each connection, oldest first. *)
Record SandboxTelemetryIngressService : Type := mkIngressService {
  heap : gmap nat BootstrapTelemetrySession;
  sessions : JsMap.t string nat;
  sink_calls : list SinkCall;
  sent : list (IngressConnection * IngressControlMessage);
}.

Definition new_ingress_service : SandboxTelemetryIngressService :=
  mkIngressService ∅ JsMap.empty [] [].

Notation Service := SandboxTelemetryIngressService.

Definition with_sessions (m : JsMap.t string nat) (s : Service) : Service :=
  mkIngressService s.(heap) m s.(sink_calls) s.(sent).
Definition with_session (ref : nat) (session : BootstrapTelemetrySession) (s : Service) : Service :=
  mkIngressService (<[ref := session]> s.(heap)) s.(sessions) s.(sink_calls) s.(sent).
Definition call_sink (call : SinkCall) (s : Service) : Service :=
  mkIngressService s.(heap) s.(sessions) (s.(sink_calls) ++ [call]) s.(sent).
Definition sendControlMessage (c : IngressConnection) (message : IngressControlMessage)
    (s : Service) : Service :=
  mkIngressService s.(heap) s.(sessions) s.(sink_calls) (s.(sent) ++ [(c, message)]).

(** The session an object reference stands for. *)
Definition deref (s : Service) (ref : nat) : BootstrapTelemetrySession :=
  default (new_telemetry_session DefaultStreamWindowBytes TelemetryWindowGrantBatchBytes)
    (s.(heap) !! ref).

(** [new BootstrapTelemetrySession()]: an object no one else refers to. *)
Definition allocate_session (s : Service) : nat * Service :=
  let ref := fresh (dom s.(heap)) in
  (ref, with_session ref
     (new_telemetry_session DefaultStreamWindowBytes TelemetryWindowGrantBatchBytes) s).

Definition deleteSessionIfEmpty (sessionKey : string) (ref : nat) (s : Service) : Service :=
  if (telemetry_streamCount (deref s ref) =? 0)%nat
  then with_sessions (JsMap.delete s.(sessions) sessionKey) s
  else s.

Definition closeSinkStream (c : IngressConnection) (stream : ActiveBootstrapTelemetryStream)
    (s : Service) : Service :=
  call_sink (SinkClose (toIngressStream c stream)) s.

(** A handler that waits for the sink, by the [await] it is at. *)
Inductive WaitingHandler : Type :=
| AwaitOpen (c : IngressConnection) (ref : nat) (stream : ActiveBootstrapTelemetryStream)
    (response : IngressControlMessage)
| AwaitAppend (c : IngressConnection) (ref : nat) (stream : ActiveBootstrapTelemetryStream)
| AwaitCloseAfterFailure (c : IngressConnection) (ref : nat)
    (stream : ActiveBootstrapTelemetryStream) (error : SinkError)
| AwaitClose (c : IngressConnection) (ref : nat) (stream : ActiveBootstrapTelemetryStream)
| AwaitIgnoredClose (c : IngressConnection) (ref : nat).

(** What a handler does next: it waits, it has returned, or it has thrown. *)
Inductive Progress : Type :=
| Waits (handler : WaitingHandler)
| Returned
| Threw (message : string).

Definition handleOpen (c : IngressConnection) (input : OpenTelemetryInput) (s : Service)
    : Progress * Service :=
  let sessionKey := toSessionKey c in
  let (ref, s) := match JsMap.get s.(sessions) sessionKey with
                  | Some ref => (ref, s)
                  | None => allocate_session s
                  end in
  let (openResult, session) := telemetry_openStream input (deref s ref) in
  let s := with_session ref session s in
  match openResult with
  | OpenRejected response =>
      let s := sendControlMessage c response s in
      (Returned, deleteSessionIfEmpty sessionKey ref s)
  | OpenAccepted response stream =>
      (Waits (AwaitOpen c ref stream response), call_sink (SinkOpen (toIngressStream c stream)) s)
  end.

Definition handleData (c : IngressConnection) (payload : list Z) (streamId : Z) (ref : nat)
    (s : Service) : Progress * Service :=
  match decodeDataFrame payload with
  | inl message => (Threw message, s)
  | inr frame =>
      let (consumeResult, session) :=
        telemetry_consumeWindow (Z.of_nat (length frame.(frame_payload))) streamId (deref s ref) in
      let s := with_session ref session s in
      match consumeResult with
      | ConsumeReset response stream =>
          let s := sendControlMessage c response s in
          match stream with
          | Some stream => (Waits (AwaitIgnoredClose c ref), closeSinkStream c stream s)
          | None => (Returned, deleteSessionIfEmpty (toSessionKey c) ref s)
          end
      | ConsumeOk stream =>
          (Waits (AwaitAppend c ref stream),
           call_sink (SinkAppend (toIngressStream c stream) frame.(frame_payload)) s)
      end
  end.

(** [handleDelivery] to its first [await] of the sink. *)
Definition start (c : IngressConnection) (delivery : TelemetryDelivery) (s : Service)
    : Progress * Service :=
  match delivery with
  | TelemetryOpenDelivery input => handleOpen c input s
  | TelemetryCloseDelivery streamId =>
      match JsMap.get s.(sessions) (toSessionKey c) with
      | None => (Returned, s)
      | Some ref =>
          let (stream, session) := telemetry_closeStream streamId (deref s ref) in
          let s := with_session ref session s in
          match stream with
          | None => (Returned, deleteSessionIfEmpty (toSessionKey c) ref s)
          | Some stream => (Waits (AwaitClose c ref stream), closeSinkStream c stream s)
          end
      end
  | TelemetryDataDelivery payload streamId =>
      match JsMap.get s.(sessions) (toSessionKey c) with
      | None => (Returned, sendControlMessage c (telemetry_stream_not_found streamId) s)
      | Some ref => handleData c payload streamId ref s
      end
  | TelemetryInvalidDataDelivery _ streamId =>
      match JsMap.get s.(sessions) (toSessionKey c) with
      | None => (Returned, sendControlMessage c (telemetry_stream_not_found streamId) s)
      | Some ref =>
          let '(response, stream, session) := telemetry_invalidateStream streamId (deref s ref) in
          let s := sendControlMessage c response (with_session ref session s) in
          match stream with
          | Some stream => (Waits (AwaitIgnoredClose c ref), closeSinkStream c stream s)
          | None => (Returned, deleteSessionIfEmpty (toSessionKey c) ref s)
          end
      end
  end.

(** The rest of a handler once the sink has answered: [None] is success. *)
Definition resume (handler : WaitingHandler) (answer : option SinkError) (s : Service)
    : Progress * Service :=
  match handler, answer with
  | AwaitOpen c ref stream response, Some _ =>
      let s := with_session ref
        (telemetry_closeStream stream.(stream_streamId) (deref s ref)).2 s in
      let s := sendControlMessage c
        (createTelemetryOpenError stream.(stream_streamId) "telemetry_sink_failed"
           TelemetrySinkFailureMessage) s in
      (Returned, deleteSessionIfEmpty (toSessionKey c) ref s)
  | AwaitOpen c ref stream response, None =>
      let s := with_sessions (JsMap.set s.(sessions) (toSessionKey c) ref) s in
      (Returned, sendControlMessage c response s)
  | AwaitAppend c ref stream, Some error =>
      let s := with_session ref
        (telemetry_closeStream stream.(stream_streamId) (deref s ref)).2 s in
      (Waits (AwaitCloseAfterFailure c ref stream error), closeSinkStream c stream s)
  | AwaitAppend c ref stream, None =>
      let (replenishWindow, session) :=
        telemetry_grantWindowIfNeeded stream.(stream_streamId) (deref s ref) in
      let s := with_session ref session s in
      (Returned, match replenishWindow with
                 | Some message => sendControlMessage c message s
                 | None => s
                 end)
  | AwaitCloseAfterFailure c ref stream error, _ =>
      let s := sendControlMessage c (toTelemetryReset error stream.(stream_streamId)) s in
      (Returned, deleteSessionIfEmpty (toSessionKey c) ref s)
  | AwaitClose c ref stream, answer =>
      let s := match answer with
               | Some error =>
                   sendControlMessage c (toTelemetryReset error stream.(stream_streamId)) s
               | None => s
               end in
      (Returned, deleteSessionIfEmpty (toSessionKey c) ref s)
  | AwaitIgnoredClose c ref, _ => (Returned, deleteSessionIfEmpty (toSessionKey c) ref s)
  end.

(** [detachBootstrapSession]: the session is dropped and all its streams are
    closed in the sink at once; what the sink answers is only logged. *)
Definition ingress_detachBootstrapSession (c : IngressConnection) (s : Service) : Service :=
  match JsMap.get s.(sessions) (toSessionKey c) with
  | None => s
  | Some ref =>
      let s := with_sessions (JsMap.delete s.(sessions) (toSessionKey c)) s in
      let (streams, session) := telemetry_closeAllStreams (deref s ref) in
      foldl (λ s stream, closeSinkStream c stream s) (with_session ref session s) streams
  end.

Definition shutdown (s : Service) : Service := with_sessions JsMap.empty s.

(** ** Interleavings *)

Definition handler_connection (h : WaitingHandler) : IngressConnection :=
  match h with
  | AwaitOpen c _ _ _ | AwaitAppend c _ _ | AwaitCloseAfterFailure c _ _ _
  | AwaitClose c _ _ | AwaitIgnoredClose c _ => c
  end.

Definition handler_ref (h : WaitingHandler) : nat :=
  match h with
  | AwaitOpen _ ref _ _ | AwaitAppend _ ref _ | AwaitCloseAfterFailure _ ref _ _
  | AwaitClose _ ref _ | AwaitIgnoredClose _ ref => ref
  end.

Definition still_waiting (p : Progress) : list WaitingHandler :=
  match p with Waits h => [h] | Returned | Threw _ => [] end.

(** A service and the handlers that wait for the sink. *)
Definition Ingress : Type := Service * list WaitingHandler.

(** One atomic step, by the connection it is taken for. *)
Inductive ingress_step_any : option IngressConnection → Ingress → Ingress → Prop :=
| step_start c delivery s s' p ws :
    start c delivery s = (p, s') →
    ingress_step_any (Some c) (s, ws) (s', still_waiting p ++ ws)
| step_resume h answer s s' p ws1 ws2 :
    resume h answer s = (p, s') →
    ingress_step_any (Some (handler_connection h)) (s, ws1 ++ h :: ws2)
      (s', still_waiting p ++ ws1 ++ ws2)
| step_detach c s ws :
    ingress_step_any (Some c) (s, ws) (ingress_detachBootstrapSession c s, ws)
| step_shutdown s ws : ingress_step_any None (s, ws) (shutdown s, ws).

Inductive ingress_reachable : Ingress → Prop :=
| reachable_start : ingress_reachable (new_ingress_service, [])
| reachable_step label i i' :
    ingress_reachable i → ingress_step_any label i i' → ingress_reachable i'.

(** The session of a connection. *)
Definition session_of (s : Service) (c : IngressConnection) : option BootstrapTelemetrySession :=
  deref s <$> JsMap.get s.(sessions) (toSessionKey c).

Definition call_stream (call : SinkCall) : SandboxTelemetryIngressStream :=
  match call with SinkOpen st | SinkAppend st _ | SinkClose st => st end.

Definition heap_ok (s : Service) : Prop :=
  ∀ ref session, s.(heap) !! ref = Some session → telemetry_ok session.

(** The map refers to existing objects. *)
Definition map_live (s : Service) : Prop :=
  ∀ key ref, JsMap.get s.(sessions) key = Some ref → is_Some (s.(heap) !! ref).

(** [s'] is [s] after work on the object [ref] for the connection [c]. *)
Record touches (c : IngressConnection) (ref : nat) (s s' : Service) : Prop := {
  touches_heap ref' : ref' ≠ ref → s'.(heap) !! ref' = s.(heap) !! ref';
  touches_present : is_Some (s.(heap) !! ref) → is_Some (s'.(heap) !! ref);
  touches_ok : heap_ok s → heap_ok s';
  touches_live : map_live s → map_live s';
  touches_sessions key : key ≠ toSessionKey c →
    JsMap.get s'.(sessions) key = JsMap.get s.(sessions) key;
  touches_entry : JsMap.get s'.(sessions) (toSessionKey c) = None ∨
    JsMap.get s'.(sessions) (toSessionKey c) = JsMap.get s.(sessions) (toSessionKey c) ∨
    JsMap.get s'.(sessions) (toSessionKey c) = Some ref;
  touches_sent : ∃ messages, s'.(sent) = s.(sent) ++ ((λ m, (c, m)) <$> messages);
  touches_calls : ∃ calls, s'.(sink_calls) = s.(sink_calls) ++ calls ∧
    Forall (λ call, (call_stream call).(ingressStream_connection) = c) calls;
}.

#[export] Instance touches_preorder c ref : PreOrder (touches c ref).
Proof.
  split.
  - intros s. split; try done; eauto; exists []; by rewrite app_nil_r.
  - intros s1 s2 s3 H1 H2. split.
    + intros ref' Hne. by rewrite (touches_heap _ _ _ _ H2), (touches_heap _ _ _ _ H1).
    + intros Hs. by apply (touches_present _ _ _ _ H2), (touches_present _ _ _ _ H1).
    + intros Hs. by apply (touches_ok _ _ _ _ H2), (touches_ok _ _ _ _ H1).
    + intros Hs. by apply (touches_live _ _ _ _ H2), (touches_live _ _ _ _ H1).
    + intros key Hne. by rewrite (touches_sessions _ _ _ _ H2), (touches_sessions _ _ _ _ H1).
    + destruct (touches_entry _ _ _ _ H2) as [-> | [-> | ->]]; [by left|exact (touches_entry _ _ _ _ H1)|by right; right].
    + destruct (touches_sent _ _ _ _ H1) as [m1 Heq1], (touches_sent _ _ _ _ H2) as [m2 Heq2].
      exists (m1 ++ m2). by rewrite Heq2, Heq1, fmap_app, app_assoc.
    + destruct (touches_calls _ _ _ _ H1) as (l1 & Heq1 & Hall1), (touches_calls _ _ _ _ H2) as (l2 & Heq2 & Hall2).
      exists (l1 ++ l2). rewrite Heq2, Heq1, app_assoc. split; [done|by apply Forall_app].
Qed.

Lemma touches_send c ref message s : touches c ref s (sendControlMessage c message s).
Proof. split; try done; eauto; [by exists [message]|exists []; by rewrite app_nil_r]. Qed.

Lemma touches_sink c ref call s :
  (call_stream call).(ingressStream_connection) = c → touches c ref s (call_sink call s).
Proof.
  intros Hc. split; try done; auto.
  - exists []. by rewrite app_nil_r.
  - exists [call]. split; [done|by repeat constructor].
Qed.

Lemma touches_with_session c ref session s :
  telemetry_ok session → touches c ref s (with_session ref session s).
Proof.
  intros Hok. split; simpl; auto; try (exists []; by rewrite app_nil_r).
  - intros ref' Hne. by rewrite lookup_insert_ne.
  - rewrite lookup_insert_eq. by eauto.
  - intros Hs ref' session'. simpl. rewrite lookup_insert. case_decide; naive_solver.
  - intros Hs key ref' Hget. simpl. rewrite lookup_insert. case_decide; [by eauto|].
    by apply (Hs key).
Qed.

Lemma touches_delete c ref s :
  touches c ref s (with_sessions (JsMap.delete s.(sessions) (toSessionKey c)) s).
Proof.
  split; simpl; auto; try (exists []; by rewrite app_nil_r).
  - intros Hs key ref'. simpl. rewrite JsMap.get_delete. case_decide; [done|apply Hs].
  - intros key Hne. by rewrite JsMap.get_delete_ne.
  - left. apply JsMap.get_delete_eq.
Qed.

Lemma touches_set c ref s :
  is_Some (s.(heap) !! ref) →
  touches c ref s (with_sessions (JsMap.set s.(sessions) (toSessionKey c) ref) s).
Proof.
  intros Href. split; simpl; auto; try (exists []; by rewrite app_nil_r).
  - intros Hs key ref'. simpl. rewrite JsMap.get_set. case_decide; [by intros [= <-]|apply Hs].
  - intros key Hne. by rewrite JsMap.get_set_ne.
  - rewrite JsMap.get_set_eq. auto.
Qed.

Lemma touches_delete_if_empty c ref s :
  touches c ref s (deleteSessionIfEmpty (toSessionKey c) ref s).
Proof. unfold deleteSessionIfEmpty. case_match; [apply touches_delete|done]. Qed.

Lemma touches_close_sink c ref stream s : touches c ref s (closeSinkStream c stream s).
Proof. by apply touches_sink. Qed.

#[export] Hint Resolve touches_send touches_with_session touches_delete touches_set
  touches_delete_if_empty touches_close_sink : mistle.

(** ** Every operation of a session keeps it well-formed *)

Lemma opened_session_ok initial batch : telemetry_ok (new_telemetry_session initial batch).
Proof. split; simpl; [done|]. intros signal id. split; [done|naive_solver]. Qed.

Lemma deref_ok s ref : heap_ok s → telemetry_ok (deref s ref).
Proof.
  intros Hs. unfold deref. destruct (s.(heap) !! ref) as [x|] eqn:Hx; [by apply (Hs ref)|].
  apply opened_session_ok.
Qed.

Lemma open_session_ok input x : telemetry_ok x → telemetry_ok (telemetry_openStream input x).2.
Proof.
  intros Hx. pose proof (law_open (T := BootstrapTelemetrySession) input x Hx) as Hlaw.
  cbn [session_openStream telemetry_session] in Hlaw.
  destruct (telemetry_openStream input x) as [[] x']; simpl.
  - destruct Hlaw as (? & _ & _ & _ & _ & Hb & _). apply Hb.
  - by destruct Hlaw as [-> _].
Qed.

Lemma close_session_ok id x : telemetry_ok x → telemetry_ok (telemetry_closeStream id x).2.
Proof.
  intros Hx. pose proof (law_close (T := BootstrapTelemetrySession) id x Hx) as Hlaw.
  cbn [session_closeStream telemetry_session] in Hlaw.
  destruct (telemetry_closeStream id x) as [r x']. apply Hlaw.
Qed.

Lemma invalidate_session_ok id x : telemetry_ok x → telemetry_ok (telemetry_invalidateStream id x).2.
Proof.
  intros Hx. unfold telemetry_invalidateStream. pose proof (close_session_ok id x Hx).
  by destruct (telemetry_closeStream id x) as [[]?].
Qed.

Lemma consume_session_ok n id x : telemetry_ok x → telemetry_ok (telemetry_consumeWindow n id x).2.
Proof.
  intros Hx. pose proof (law_consume (T := BootstrapTelemetrySession) n id x Hx) as Hlaw.
  cbn [session_consumeWindow telemetry_session] in Hlaw.
  destruct (telemetry_consumeWindow n id x) as [r x']. simpl.
  destruct (JsMap.get _ id); [case_decide|]; [apply Hlaw|apply Hlaw|by destruct Hlaw as [-> _]].
Qed.

Lemma grant_session_ok id x : telemetry_ok x → telemetry_ok (telemetry_grantWindowIfNeeded id x).2.
Proof.
  intros Hx. pose proof (law_grant (T := BootstrapTelemetrySession) id x Hx) as Hlaw.
  cbn [session_grantWindowIfNeeded telemetry_session] in Hlaw.
  destruct (telemetry_grantWindowIfNeeded id x) as [r x']. simpl.
  destruct (JsMap.get _ id); [case_decide|]; [apply Hlaw|by destruct Hlaw as [_ ->]..].
Qed.

Lemma close_all_session_ok x : telemetry_ok (telemetry_closeAllStreams x).2.
Proof. split; simpl; [done|]. intros signal id. split; [done|naive_solver]. Qed.

#[export] Hint Resolve opened_session_ok deref_ok open_session_ok close_session_ok
  invalidate_session_ok consume_session_ok grant_session_ok close_all_session_ok : mistle.

(** Where a handler stands after a step on [ref] for [c]. *)
Definition waits_on (c : IngressConnection) (ref : nat) (p : Progress) (s : Service) : Prop :=
  match p with
  | Waits h => handler_connection h = c ∧ handler_ref h = ref ∧ is_Some (s.(heap) !! ref)
  | Returned | Threw _ => True
  end.

(** The objects a connection may work on: its own, and new ones. *)
Definition session_ref (s : Service) (c : IngressConnection) (ref : nat) : Prop :=
  JsMap.get s.(sessions) (toSessionKey c) = Some ref ∨ s.(heap) !! ref = None.

(** Chains the steps of a handler: an update of the object, then messages, calls
    of the sink and changes of the map. *)
Ltac touch :=
  first
  [ assumption
  | done
  | apply touches_send | apply touches_delete_if_empty | apply touches_close_sink
  | by apply touches_sink | by apply touches_with_session
  | by apply touches_set | apply touches_delete
  | etrans; [|first [ apply touches_send | apply touches_delete_if_empty
                    | apply touches_close_sink | by apply touches_sink
                    | by apply touches_set | apply touches_delete
                    | by apply touches_with_session]]; touch ].

(** The handler waits on the object just written. *)
Ltac waiting := first [done | split; [done|split; [done|simpl; rewrite ?lookup_insert_eq; by eauto]]].

Lemma handleOpen_touches c input s p s' :
  heap_ok s → handleOpen c input s = (p, s') →
  ∃ ref, session_ref s c ref ∧ touches c ref s s' ∧ waits_on c ref p s'.
Proof.
  intros Hs. unfold handleOpen.
  assert (∃ ref s1, match JsMap.get s.(sessions) (toSessionKey c) with
      | Some ref => (ref, s) | None => allocate_session s end = (ref, s1) ∧
    session_ref s c ref ∧ touches c ref s s1) as (ref & s1 & -> & Href & Ht).
  { destruct (JsMap.get _ _) as [ref|] eqn:Hget.
    - exists ref, s. split; [done|]. split; [by left|done].
    - eexists _, _. split; [done|]. split; [right|apply touches_with_session; auto with mistle].
      apply not_elem_of_dom. apply is_fresh. }
  assert (heap_ok s1) as Hs1 by by apply (touches_ok _ _ _ _ Ht).
  pose proof (open_session_ok input _ (deref_ok s1 ref Hs1)) as Hok.
  destruct (telemetry_openStream input (deref s1 ref)) as [[response stream|response] x]; simpl in Hok;
    intros [= <- <-]; exists ref; (split; [done|]); split.
  - touch.
  - waiting.
  - touch.
  - done.
Qed.

Lemma handleData_touches c payload id ref s p s' :
  heap_ok s → handleData c payload id ref s = (p, s') →
  touches c ref s s' ∧ waits_on c ref p s'.
Proof.
  intros Hs. unfold handleData.
  destruct (decodeDataFrame payload) as [message|frame]; [by intros [= <- <-]|].
  pose proof (consume_session_ok (Z.of_nat (length frame.(frame_payload))) id _ (deref_ok s ref Hs)) as Hok.
  destruct (telemetry_consumeWindow _ id (deref s ref)) as [[stream|response [stream|]] x];
    simpl in Hok; intros [= <- <-]; (split; [touch|waiting]).
Qed.

Lemma start_touches c delivery s p s' :
  heap_ok s → start c delivery s = (p, s') →
  ∃ ref, session_ref s c ref ∧ touches c ref s s' ∧ waits_on c ref p s'.
Proof.
  intros Hs.
  assert (∃ ref, session_ref s c ref) as (none & Hnone).
  { exists (fresh (dom s.(heap))). right. apply not_elem_of_dom, is_fresh. }
  destruct delivery as [input|id|payload id|kind id]; simpl; [by apply handleOpen_touches|..];
    (destruct (JsMap.get _ _) as [ref|] eqn:Hget;
      [|intros [= <- <-]; exists none; split; [done|split; [touch|done]]]).
  - pose proof (close_session_ok id _ (deref_ok s ref Hs)) as Hok.
    destruct (telemetry_closeStream id (deref s ref)) as [[stream|] x]; simpl in Hok;
      intros [= <- <-]; exists ref; (split; [by left|split; [touch|waiting]]).
  - intros Hdata. exists ref. split; [by left|]. by eapply handleData_touches.
  - pose proof (invalidate_session_ok id _ (deref_ok s ref Hs)) as Hok.
    destruct (telemetry_invalidateStream id (deref s ref)) as [[response [stream|]] x]; simpl in Hok;
      intros [= <- <-]; exists ref; (split; [by left|split; [touch|waiting]]).
Qed.

Lemma resume_touches h answer s p s' :
  heap_ok s → is_Some (s.(heap) !! handler_ref h) → resume h answer s = (p, s') →
  touches (handler_connection h) (handler_ref h) s s' ∧
  waits_on (handler_connection h) (handler_ref h) p s'.
Proof.
  intros Hs Href. destruct h as [c ref stream response|c ref stream|c ref stream error|c ref stream|c ref];
    destruct answer as [error'|]; cbn [resume handler_connection handler_ref];
    try (pose proof (grant_session_ok stream.(stream_streamId) _ (deref_ok s ref Hs)) as Hgrant;
         destruct (telemetry_grantWindowIfNeeded _ (deref s ref)) as [[message|] x];
         simpl in Hgrant);
    try pose proof (close_session_ok stream.(stream_streamId) _ (deref_ok s ref Hs)) as Hclose;
    intros [= <- <-]; (split; [touch|waiting]).
Qed.

Lemma detach_touches c s :
  heap_ok s → ∃ ref, session_ref s c ref ∧ touches c ref s (ingress_detachBootstrapSession c s).
Proof.
  intros Hs. unfold ingress_detachBootstrapSession.
  destruct (JsMap.get _ _) as [ref|] eqn:Hget.
  - exists ref. split; [by left|].
    pose proof (close_all_session_ok (deref (with_sessions (JsMap.delete s.(sessions) (toSessionKey c)) s) ref)) as Hok.
    destruct (telemetry_closeAllStreams _) as [streams x]. simpl in Hok.
    generalize (touches_with_session c ref x _ Hok :
      touches c ref (with_sessions (JsMap.delete s.(sessions) (toSessionKey c)) s) _).
    generalize (with_session ref x (with_sessions (JsMap.delete s.(sessions) (toSessionKey c)) s)).
    intros s1 H1. assert (touches c ref s s1) as Ht by (etrans; [apply touches_delete|exact H1]).
    clear H1 Hok. revert s1 Ht. induction streams as [|stream streams IH]; intros s1 Ht; [done|].
    simpl. apply IH. touch.
  - exists (fresh (dom s.(heap))). split; [|done]. right. apply not_elem_of_dom, is_fresh.
Qed.

(** Every object belongs to one connection's key: the map and the waiting handlers
    only refer to objects of their own. *)
Record ingress_ok (i : Ingress) (owner : nat → string) : Prop := {
  ingress_heap_ok : heap_ok i.1;
  ingress_entry key ref : JsMap.get i.1.(sessions) key = Some ref →
    is_Some (i.1.(heap) !! ref) ∧ owner ref = key;
  ingress_handler h : h ∈ i.2 →
    is_Some (i.1.(heap) !! handler_ref h) ∧ owner (handler_ref h) = toSessionKey (handler_connection h);
}.

Lemma touches_ingress_ok s s' ws ws' c ref owner :
  ingress_ok (s, ws) owner → touches c ref s s' →
  (is_Some (s.(heap) !! ref) → owner ref = toSessionKey c) →
  (∀ h, h ∈ ws' → h ∈ ws ∨
    (handler_connection h = c ∧ handler_ref h = ref ∧ is_Some (s'.(heap) !! ref))) →
  ∃ owner', ingress_ok (s', ws') owner'.
Proof.
  intros [Hheap Hentry Hhandler] Ht Howner Hws. cbn [fst snd] in *.
  assert (map_live s) as Hlive by (intros key r Hr; apply (Hentry _ _ Hr)).
  assert (∀ r, is_Some (s.(heap) !! r) → is_Some (s'.(heap) !! r)) as Hkeep.
  { intros r Hr. destruct (decide (r = ref)) as [->|]; [by apply (touches_present _ _ _ _ Ht)|].
    by rewrite (touches_heap _ _ _ _ Ht). }
  exists (λ r, if decide (r = ref) then toSessionKey c else owner r). split; cbn [fst snd].
  - by apply (touches_ok _ _ _ _ Ht).
  - intros key r Hget. split; [by apply (touches_live _ _ _ _ Ht Hlive key)|].
    destruct (decide (key = toSessionKey c)) as [->|Hne].
    + case_decide; [done|].
      destruct (touches_entry _ _ _ _ Ht) as [He|[He|He]]; rewrite He in Hget; [done| |congruence].
      by apply Hentry.
    + rewrite (touches_sessions _ _ _ _ Ht) in Hget by done.
      destruct (Hentry _ _ Hget) as [Hr Ho]. case_decide; [|done]. subst r.
      by rewrite Howner in Ho.
  - intros h Hin. destruct (Hws h Hin) as [Hold|(<- & Hr & Hpresent)].
    + destruct (Hhandler h Hold) as [Hr Ho]. split; [by apply Hkeep|].
      case_decide as Heq; [|done]. rewrite <-Ho, Heq. symmetry. apply Howner. by rewrite <-Heq.
    + rewrite Hr. split; [done|]. by rewrite decide_True.
Qed.

Lemma session_ref_owner s ws owner c ref :
  ingress_ok (s, ws) owner → session_ref s c ref →
  is_Some (s.(heap) !! ref) → owner ref = toSessionKey c.
Proof.
  intros Hok [Hget|Hnone] Href; [by apply (ingress_entry _ _ Hok)|].
  rewrite Hnone in Href. by destruct Href.
Qed.

(** A step is work on one object of its connection. *)
Lemma step_touches label s ws i' owner :
  ingress_ok (s, ws) owner → ingress_step_any label (s, ws) i' →
  match label with
  | Some c => ∃ ref, touches c ref s i'.1 ∧
      (is_Some (s.(heap) !! ref) → owner ref = toSessionKey c) ∧
      (∀ h, h ∈ i'.2 → h ∈ ws ∨
        (handler_connection h = c ∧ handler_ref h = ref ∧ is_Some (i'.1.(heap) !! ref)))
  | None => i' = (shutdown s, ws)
  end.
Proof.
  intros Hok Hstep. pose proof (ingress_heap_ok _ _ Hok) as Hheap. cbn [fst] in Hheap.
  inversion Hstep as [c delivery ? s' p ? Hrun|h answer ? s' p ws1 ws2 Hrun|c|]; subst;
    cbn [fst snd].
  - destruct (start_touches _ _ _ _ _ Hheap Hrun) as (ref & Href & Ht & Hw).
    exists ref. split; [done|]. split; [by apply (session_ref_owner s ws)|].
    intros h. rewrite elem_of_app. intros [Hin|]; [|by left]. right.
    destruct p; simpl in Hin; [|by apply not_elem_of_nil in Hin..].
    by apply list_elem_of_singleton in Hin as ->.
  - destruct (ingress_handler _ _ Hok h) as [Hr Ho]; [cbn [snd]; set_solver|].
    destruct (resume_touches _ _ _ _ _ Hheap Hr Hrun) as [Ht Hw].
    exists (handler_ref h). split; [done|]. split; [done|].
    intros h'. rewrite elem_of_app. intros [Hin|Hin]; [right|left; set_solver].
    destruct p; simpl in Hin; [|by apply not_elem_of_nil in Hin..].
    by apply list_elem_of_singleton in Hin as ->.
  - destruct (detach_touches c s Hheap) as (ref & Href & Ht).
    exists ref. split; [done|]. split; [by apply (session_ref_owner s ws)|]. by left.
  - done.
Qed.

Lemma ingress_reachable_ok i : ingress_reachable i → ∃ owner, ingress_ok i owner.
Proof.
  induction 1 as [|label [s ws] i' Hr [owner Hok] Hstep].
  - exists (λ _, ""). split; simpl; [done|done|]. intros h Hh. by apply not_elem_of_nil in Hh.
  - pose proof (step_touches _ _ _ _ _ Hok Hstep) as Ht. destruct label as [c|].
    + destruct Ht as (ref & Ht & Howner & Hws), i' as [s' ws'].
      by apply (touches_ingress_ok s s' ws ws' c ref owner).
    + subst i'. exists owner. destruct Hok as [? ? ?]. by split.
Qed.

(** Whatever the interleaving of handlers and whatever the sink answers, the
    service is a family of independent well-formed sessions: a step taken for
    one connection leaves the sessions of the others as they were, sends
    messages to its own connection only, and asks the sink only about its own
    streams. *)
Theorem ingress_isolation (s : Service) (ws : list WaitingHandler) (i : Ingress)
    (c : IngressConnection) :
  ingress_reachable (s, ws) → ingress_step_any (Some c) (s, ws) i →
  (∀ ref session, i.1.(heap) !! ref = Some session → telemetry_ok session) ∧
  (∀ c', toSessionKey c' ≠ toSessionKey c → session_of i.1 c' = session_of s c') ∧
  (∃ messages, i.1.(sent) = s.(sent) ++ ((λ m, (c, m)) <$> messages)) ∧
  (∃ calls, i.1.(sink_calls) = s.(sink_calls) ++ calls ∧
    Forall (λ call, (call_stream call).(ingressStream_connection) = c) calls).
Proof.
  intros Hr Hstep. destruct (ingress_reachable_ok _ Hr) as [owner Hok].
  destruct (step_touches _ _ _ _ _ Hok Hstep) as (ref & Ht & Howner & _).
  split; [by apply (touches_ok _ _ _ _ Ht), (ingress_heap_ok _ _ Hok)|].
  split; [|by split; [apply (touches_sent _ _ _ _ Ht)|apply (touches_calls _ _ _ _ Ht)]].
  intros c' Hne. unfold session_of. rewrite (touches_sessions _ _ _ _ Ht) by done.
  destruct (JsMap.get _ (toSessionKey c')) as [r|] eqn:Hget; [|done]. simpl. f_equal.
  destruct (ingress_entry _ _ Hok _ _ Hget) as [Hpresent Hown]. cbn [fst] in *.
  unfold deref. rewrite (touches_heap _ _ _ _ Ht); [done|]. intros ->.
  by rewrite Howner in Hown.
Qed.

(** ** Two opens that overlap *)

Lemma deref_with_session ref x s : deref (with_session ref x s) ref = x.
Proof. unfold deref, with_session. cbn [heap]. by rewrite lookup_insert_eq. Qed.

(** A fresh session accepts any supported stream. *)
Lemma open_on_new input initial batch :
  isSupportedTelemetryStream input.(openTelemetry_info) = true →
  let stream := mkStream 0 input.(openTelemetry_info) initial input.(openTelemetry_streamId) in
  let x := mkTelemetrySession [(input.(openTelemetry_streamId), stream)]
             [(input.(openTelemetry_info).(telemetry_signal), input.(openTelemetry_streamId))]
             initial batch in
  telemetry_openStream input (new_telemetry_session initial batch) =
    (OpenAccepted (OpenOK TelemetryFamily input.(openTelemetry_streamId) initial) stream, x).
Proof. intros Hsup stream x. unfold telemetry_openStream. cbv zeta. by rewrite Hsup. Qed.

Definition opened_stream (input : OpenTelemetryInput) : ActiveBootstrapTelemetryStream :=
  mkStream 0 input.(openTelemetry_info) DefaultStreamWindowBytes input.(openTelemetry_streamId).

Definition opened_session (input : OpenTelemetryInput) : BootstrapTelemetrySession :=
  mkTelemetrySession [(input.(openTelemetry_streamId), opened_stream input)]
    [(input.(openTelemetry_info).(telemetry_signal), input.(openTelemetry_streamId))]
    DefaultStreamWindowBytes TelemetryWindowGrantBatchBytes.

Definition opened_ok (input : OpenTelemetryInput) : IngressControlMessage :=
  OpenOK TelemetryFamily input.(openTelemetry_streamId) DefaultStreamWindowBytes.

Definition opened_in_sink (c : IngressConnection) (input : OpenTelemetryInput)
    : SandboxTelemetryIngressStream :=
  mkIngressStream input.(openTelemetry_info) c input.(openTelemetry_streamId).

(** The first open of a connection allocates a session that is not in the map. *)
Lemma first_open c input s :
  JsMap.get s.(sessions) (toSessionKey c) = None →
  isSupportedTelemetryStream input.(openTelemetry_info) = true →
  let ref := fresh (dom s.(heap)) in
  ∃ s', start c (TelemetryOpenDelivery input) s =
    (Waits (AwaitOpen c ref (opened_stream input) (opened_ok input)), s') ∧
    s'.(heap) !! ref = Some (opened_session input) ∧
    (∀ ref', ref' ≠ ref → s'.(heap) !! ref' = s.(heap) !! ref') ∧
    s'.(sessions) = s.(sessions) ∧ s'.(sent) = s.(sent) ∧
    s'.(sink_calls) = s.(sink_calls) ++ [SinkOpen (opened_in_sink c input)].
Proof.
  intros Hnone Hsup ref. simpl. unfold handleOpen. rewrite Hnone. unfold allocate_session.
  fold ref. rewrite deref_with_session, open_on_new by done.
  eexists. split; [reflexivity|]. simpl. rewrite lookup_insert_eq. split; [done|].
  split; [|done]. intros ref' Hne. by rewrite !lookup_insert_ne.
Qed.

(** Two opens of a connection that overlap, as when both arrive before the sink
    has answered the first, lose a stream.  Both are accepted and both streams
    are open in the sink, but the connection is left with the second session
    only: data for the first stream is answered with not found, and when the
    connection detaches only the second stream is closed in the sink. *)
Theorem overlapping_opens_lose_a_stream (c : IngressConnection) (s : Service)
    (first second : OpenTelemetryInput) :
  JsMap.get s.(sessions) (toSessionKey c) = None →
  isSupportedTelemetryStream first.(openTelemetry_info) = true →
  isSupportedTelemetryStream second.(openTelemetry_info) = true →
  first.(openTelemetry_streamId) ≠ second.(openTelemetry_streamId) →
  ∃ h1 s1 h2 s2 s3 s4,
    start c (TelemetryOpenDelivery first) s = (Waits h1, s1) ∧
    start c (TelemetryOpenDelivery second) s1 = (Waits h2, s2) ∧
    resume h1 None s2 = (Returned, s3) ∧ resume h2 None s3 = (Returned, s4) ∧
    s4.(sent) = s.(sent) ++ [(c, opened_ok first); (c, opened_ok second)] ∧
    s4.(sink_calls) = s.(sink_calls) ++
      [SinkOpen (opened_in_sink c first); SinkOpen (opened_in_sink c second)] ∧
    (∀ payload frame, decodeDataFrame payload = inr frame →
      (start c (TelemetryDataDelivery payload first.(openTelemetry_streamId)) s4).2.(sent) =
        s4.(sent) ++ [(c, telemetry_stream_not_found first.(openTelemetry_streamId))]) ∧
    (ingress_detachBootstrapSession c s4).(sink_calls) =
      s4.(sink_calls) ++ [SinkClose (opened_in_sink c second)].
Proof.
  intros Hnone Hsup1 Hsup2 Hne.
  destruct (first_open c first s Hnone Hsup1) as (s1 & Hs1 & Hh1 & _ & Hm1 & Hsent1 & Hc1).
  set (ref1 := fresh (dom s.(heap))) in *.
  destruct (first_open c second s1) as (s2 & Hs2 & Hh2 & Hother & Hm2 & Hsent2 & Hc2);
    [by rewrite Hm1|done|].
  set (ref2 := fresh (dom s1.(heap))) in *.
  set (s3 := sendControlMessage c (opened_ok first)
    (with_sessions (JsMap.set s2.(sessions) (toSessionKey c) ref1) s2)).
  set (s4 := sendControlMessage c (opened_ok second)
    (with_sessions (JsMap.set s3.(sessions) (toSessionKey c) ref2) s3)).
  assert (deref s4 ref2 = opened_session second) as Hderef
    by (unfold deref; by rewrite (Hh2 : s4.(heap) !! ref2 = _)).
  assert (JsMap.get s4.(sessions) (toSessionKey c) = Some ref2) as Hentry
    by apply JsMap.get_set_eq.
  eexists _, s1, _, s2, s3, s4. split; [exact Hs1|]. split; [exact Hs2|].
  split; [reflexivity|]. split; [reflexivity|].
  split; [simpl; by rewrite Hsent2, Hsent1, <-app_assoc|].
  split; [simpl; by rewrite Hc2, Hc1, <-app_assoc|]. split.
  - intros payload frame Hframe. cbn [start]. rewrite Hentry. unfold handleData.
    rewrite Hframe, Hderef. unfold telemetry_consumeWindow, opened_session.
    cbn [telemetry_streamsById JsMap.get]. rewrite decide_False by congruence.
    cbn [snd]. unfold deleteSessionIfEmpty. by case_match.
  - unfold ingress_detachBootstrapSession. rewrite Hentry.
    replace (deref _ ref2) with (opened_session second) by (by rewrite <-Hderef). reflexivity.
Qed.

Definition demo_connection : IngressConnection := mkConnection "relay_1" "sbi_1".
Definition demo_logs : OpenTelemetryInput :=
  mkOpenTelemetry (mkTelemetryInfo SandboxTelemetryLogFormat Logs) 11.
Definition demo_traces : OpenTelemetryInput :=
  mkOpenTelemetry (mkTelemetryInfo SandboxTelemetryTraceJsonFormat Traces) 12.

Lemma overlapping_opens_lose_a_stream_witness :
  ∃ h1 s1 h2 s2 s3 s4,
    start demo_connection (TelemetryOpenDelivery demo_logs) new_ingress_service = (Waits h1, s1) ∧
    start demo_connection (TelemetryOpenDelivery demo_traces) s1 = (Waits h2, s2) ∧
    resume h1 None s2 = (Returned, s3) ∧ resume h2 None s3 = (Returned, s4) ∧
    (start demo_connection (TelemetryDataDelivery [1; 0; 0; 0; 11; 1; 65] 11) s4).2.(sent) =
      s4.(sent) ++ [(demo_connection, telemetry_stream_not_found 11)].
Proof.
  destruct (overlapping_opens_lose_a_stream demo_connection new_ingress_service demo_logs
    demo_traces eq_refl eq_refl eq_refl ltac:(done))
    as (h1 & s1 & h2 & s2 & s3 & s4 & Hs1 & Hs2 & Hs3 & Hs4 & _ & _ & Hdata & _).
  exists h1, s1, h2, s2, s3, s4. do 4 (split; [done|]).
  apply (Hdata _ {| frameKind := 1; frame_streamId := 11; frame_payloadKind := 1;
    frame_payload := [65] |}). reflexivity.
Defined.

Lemma ingress_isolation_witness :
  let s := (start demo_connection (TelemetryOpenDelivery demo_logs) new_ingress_service).2 in
  let h := AwaitOpen demo_connection (fresh (dom (∅ : gmap nat BootstrapTelemetrySession)))
             (opened_stream demo_logs) (opened_ok demo_logs) in
  let other := mkConnection "relay_2" "sbi_2" in
  session_of (start other (TelemetryOpenDelivery demo_traces) s).2 demo_connection =
    session_of s demo_connection.
Proof.
  intros s h other.
  assert (ingress_reachable (s, [h])) as Hr.
  { eapply reachable_step; [constructor|]. by apply (step_start demo_connection
      (TelemetryOpenDelivery demo_logs) new_ingress_service s (Waits h) []). }
  destruct (start other (TelemetryOpenDelivery demo_traces) s) as [p s'] eqn:Hstart.
  by apply (ingress_isolation s [h] (s', still_waiting p ++ [h]) other Hr
    (step_start other _ s s' p [h] Hstart) ).
Defined.

(** ** Deliveries one at a time *)

#[export] Instance IngressConnection_eq_dec : EqDecision IngressConnection.
Proof. solve_decision. Defined.

(** Runs a handler to its end with the answers the sink gives it; [None] when
    there are too few. *)
Fixpoint finish (answers : list (option SinkError)) (r : Progress * Service)
    : option (option string * Service) :=
  match r with
  | (Returned, s) => Some (None, s)
  | (Threw message, s) => Some (Some message, s)
  | (Waits h, s) =>
      match answers with
      | [] => None
      | answer :: answers => finish answers (resume h answer s)
      end
  end.

(** The streams of the sessions in the map, as the sink knows them. *)
Definition session_has (c : IngressConnection) (x : BootstrapTelemetrySession)
    (st : SandboxTelemetryIngressStream) : Prop :=
  st.(ingressStream_connection) = c ∧
  ∃ stream, JsMap.get x.(telemetry_streamsById) st.(ingressStream_streamId) = Some stream ∧
            stream.(stream_info) = st.(ingressStream_info).

Definition open_in_service (s : Service) (st : SandboxTelemetryIngressStream) : Prop :=
  ∃ x, session_of s st.(ingressStream_connection) = Some x ∧
       session_has st.(ingressStream_connection) x st.

(** The streams open in the sink after these calls, the first of which was
    answered [answer]. *)
Definition open_after (calls : list SinkCall) (answer : option SinkError)
    (before : SandboxTelemetryIngressStream → Prop) (st : SandboxTelemetryIngressStream) : Prop :=
  (before st ∧ SinkClose st ∉ calls) ∨ (calls = [SinkOpen st] ∧ answer = None).

Record service_ok (s : Service) : Prop := {
  service_heap_ok : heap_ok s;
  service_live : map_live s;
  service_injective k1 k2 ref :
    JsMap.get s.(sessions) k1 = Some ref → JsMap.get s.(sessions) k2 = Some ref → k1 = k2;
  service_nonempty key ref :
    JsMap.get s.(sessions) key = Some ref → telemetry_streamCount (deref s ref) ≠ 0%nat;
}.

(** [s'] is [s] with [x] as the session of [c], or with none when [x] is empty. *)
Record settles (c : IngressConnection) (x : BootstrapTelemetrySession) (s s' : Service) : Prop := {
  settles_ref : ∃ ref, session_ref s c ref ∧
    (∀ ref', s'.(heap) !! ref' = if decide (ref' = ref) then Some x else s.(heap) !! ref') ∧
    (∀ key, JsMap.get s'.(sessions) key =
      if decide (key = toSessionKey c)
      then if decide (telemetry_streamCount x = 0%nat) then None else Some ref
      else JsMap.get s.(sessions) key);
  settles_ok : telemetry_ok x;
}.

(** The object of [c] is no other key's. *)
Lemma session_ref_private c ref s key :
  service_ok s → session_ref s c ref → JsMap.get s.(sessions) key = Some ref →
  key = toSessionKey c.
Proof.
  intros Hs [Hget|Hnone] Hkey; [by eapply (service_injective _ Hs)|].
  destruct (service_live _ Hs _ _ Hkey) as [? ?]. by rewrite Hnone in *.
Qed.

Lemma settles_service_ok c x s s' : service_ok s → settles c x s s' → service_ok s'.
Proof.
  intros Hs [(ref & Href & Hheap & Hsessions) Hx]. split.
  - intros r y. rewrite Hheap. destruct (decide (r = ref)); [naive_solver|].
    apply (service_heap_ok _ Hs).
  - intros key r. rewrite Hsessions, Hheap. destruct (decide (r = ref)); [by eauto|].
    destruct (decide (key = _)); [destruct (decide (_ = 0%nat)); naive_solver|].
    apply (service_live _ Hs).
  - intros k1 k2 r. rewrite !Hsessions.
    destruct (decide (k1 = _)), (decide (k2 = _)); subst; try done;
      try destruct (decide (_ = 0%nat)); try done.
    + intros [= <-] Hget. by rewrite (session_ref_private c ref s k2).
    + intros Hget [= <-]. by rewrite (session_ref_private c ref s k1).
    + apply (service_injective _ Hs).
    + apply (service_injective _ Hs).
  - intros key r. rewrite Hsessions. unfold deref. rewrite Hheap.
    destruct (decide (key = _)) as [|Hne].
    + destruct (decide (_ = 0%nat)); [done|]. intros [= <-]. by rewrite decide_True.
    + intros Hget. rewrite decide_False; [by apply (service_nonempty _ Hs key)|].
      intros ->. by apply Hne, (session_ref_private c ref s).
Qed.

Lemma settles_session_of c x s s' c' :
  service_ok s → settles c x s s' →
  session_of s' c' =
    if decide (toSessionKey c' = toSessionKey c)
    then if decide (telemetry_streamCount x = 0%nat) then None else Some x
    else session_of s c'.
Proof.
  intros Hs [(ref & Href & Hheap & Hsessions) _]. unfold session_of. rewrite Hsessions.
  unfold deref. destruct (decide (toSessionKey c' = _)) as [|Hne].
  - destruct (decide (_ = 0%nat)); [done|]. simpl. by rewrite Hheap, decide_True.
  - destruct (JsMap.get _ (toSessionKey c')) as [r|] eqn:Hget; [|done]. simpl. f_equal.
    rewrite Hheap, decide_False; [done|]. intros ->.
    by apply Hne, (session_ref_private c ref s).
Qed.

(** The session a delivery of [c] works on. *)
Definition session_or_new (s : Service) (c : IngressConnection) : BootstrapTelemetrySession :=
  default (new_telemetry_session DefaultStreamWindowBytes TelemetryWindowGrantBatchBytes)
    (session_of s c).

(** What a delivery of [c] does, run alone: these calls, and this session. *)
Definition delivers (c : IngressConnection) (answer : option SinkError) (s s' : Service) : Prop :=
  ∃ calls, s'.(sink_calls) = s.(sink_calls) ++ calls ∧
  (∀ st, SinkClose st ∈ calls ∨ SinkOpen st ∈ calls → st.(ingressStream_connection) = c) ∧
  ((s'.(heap) = s.(heap) ∧ s'.(sessions) = s.(sessions) ∧ calls = []) ∨
   ∃ x, settles c x s s' ∧
     ∀ st, session_has c x st ↔ open_after calls answer (session_has c (session_or_new s c)) st).

Lemma streamCount_zero x :
  telemetry_streamCount x = 0%nat ↔ ∀ id, JsMap.get x.(telemetry_streamsById) id = None.
Proof. apply JsMap.size_zero. Qed.

(** Keys tell connections apart when sandbox ids hold no colon. *)
Definition plain_connection (c : IngressConnection) : Prop :=
  has_char colon c.(ingress_sandboxInstanceId) = false.

Lemma toSessionKey_inj c c' :
  plain_connection c → plain_connection c' → toSessionKey c = toSessionKey c' → c = c'.
Proof.
  unfold toSessionKey. intros Hc Hc' Hk. destruct c, c'.
  by destruct (key_inj_first _ _ _ _ Hc Hc' Hk) as [? ?]; simplify_eq/=.
Qed.

Lemma delivers_open c answer s s' :
  service_ok s → plain_connection c → delivers c answer s s' →
  service_ok s' ∧ ∃ calls, s'.(sink_calls) = s.(sink_calls) ++ calls ∧
    ∀ st, plain_connection st.(ingressStream_connection) →
      (open_in_service s' st ↔ open_after calls answer (open_in_service s) st).
Proof.
  intros Hs Hc (calls & Hcalls & Hown & [(Hheap & Hsessions & ->)|(x & Hx & Hstreams)]).
  - assert (∀ c', session_of s' c' = session_of s c') as Hsame
      by (intros; unfold session_of, deref; by rewrite Hsessions, Hheap).
    split.
    + destruct Hs as [H1 H2 H3 H4]. split; unfold heap_ok, map_live, deref;
        rewrite ?Hheap, ?Hsessions; done.
    + exists []. split; [done|]. intros st _. unfold open_in_service, open_after. rewrite Hsame.
      split; [|naive_solver]. intros ?. left. split; [done|apply not_elem_of_nil].
  - split; [by eapply settles_service_ok|]. exists calls. split; [done|].
    intros st Hst. unfold open_after, open_in_service. cbn beta.
    rewrite (settles_session_of c x s s') by done.
    destruct (decide (ingressStream_connection st = c)) as [Heq|Hne].
    + rewrite Heq, decide_True by done. specialize (Hstreams st). unfold open_after in Hstreams.
      assert (session_has c (session_or_new s c) st ↔
        ∃ y, session_of s c = Some y ∧ session_has c y st) as Hold.
      { unfold session_or_new. destruct (session_of s c) as [y|]; simpl.
        - naive_solver.
        - split; [|naive_solver]. intros (_ & ? & ? & _). done. }
      rewrite <-Hold, <-Hstreams. case_decide as Hcount; [|naive_solver].
      rewrite streamCount_zero in Hcount. split; [naive_solver|].
      intros (_ & ? & Hget & _). by rewrite Hcount in Hget.
    + rewrite decide_False by (contradict Hne; by apply toSessionKey_inj).
      split.
      * intros Hopen. left. split; [done|]. contradict Hne. apply Hown. by left.
      * intros [[? _]|[-> _]]; [done|]. contradict Hne. apply Hown. right. set_solver.
Qed.

(** *** The streams of a session after each of its operations *)

Lemma has_close c x id stream st :
  telemetry_ok x → JsMap.get x.(telemetry_streamsById) id = Some stream →
  session_has c (telemetry_closeStream id x).2 st ↔
    session_has c x st ∧ st ≠ toIngressStream c stream.
Proof.
  intros Hx Hget. pose proof (law_close (T := BootstrapTelemetrySession) id x Hx) as Hlaw.
  cbn [session_closeStream session_streams telemetry_session] in Hlaw.
  destruct (telemetry_ok_id _ Hx _ _ Hget) as [Hid _].
  destruct (telemetry_closeStream id x) as [r x'].
  destruct Hlaw as (_ & _ & _ & _ & Hstreams). cbn [snd]. unfold session_has.
  cbn [session_streams telemetry_session] in Hstreams.
  rewrite Hstreams. unfold put_stream.
  destruct (decide (id = st.(ingressStream_streamId))) as [Heq|Hne].
  - split; [naive_solver|]. intros [(Hc & stream' & Hget' & Hinfo) []].
    destruct st as [info connection id']. unfold toIngressStream. simpl in *. congruence.
  - split; [|naive_solver]. intros H. split; [done|]. intros ->. simpl in Hne. congruence.
Qed.

Lemma has_same_streams c x x' id stream stream' st :
  (∀ id', JsMap.get x'.(telemetry_streamsById) id' =
     put_stream x.(telemetry_streamsById) id (Some stream') id') →
  JsMap.get x.(telemetry_streamsById) id = Some stream →
  stream'.(stream_info) = stream.(stream_info) →
  session_has c x' st ↔ session_has c x st.
Proof.
  intros Hx' Hget Hinfo. unfold session_has. rewrite Hx'. unfold put_stream.
  destruct (decide (id = st.(ingressStream_streamId))) as [<-|]; [|done].
  rewrite Hget. naive_solver congruence.
Qed.

Lemma has_open c x input response stream x' st :
  telemetry_ok x → telemetry_openStream input x = (OpenAccepted response stream, x') →
  (session_has c x' st ↔ session_has c x st ∨ st = toIngressStream c stream) ∧
  ¬ session_has c x (toIngressStream c stream) ∧
  JsMap.get x'.(telemetry_streamsById) stream.(stream_streamId) = Some stream.
Proof.
  intros Hx Hopen. pose proof (law_open (T := BootstrapTelemetrySession) input x Hx) as Hlaw.
  cbn [session_openStream telemetry_session] in Hlaw. rewrite Hopen in Hlaw.
  destruct Hlaw as (family & _ & Hnone & _ & _ & _ & _ & _ & Hstreams).
  cbn [session_streams telemetry_session] in *. unfold session_has.
  split; [|split; [|rewrite Hstreams; unfold put_stream; by rewrite decide_True]]; cycle 1.
  { simpl. rewrite Hnone. naive_solver. }
  rewrite Hstreams. unfold put_stream.
  destruct (decide (stream_streamId stream = st.(ingressStream_streamId))) as [Heq|Hne].
  - rewrite <-Heq, Hnone. destruct st as [info connection id']. unfold toIngressStream. simpl in *.
    naive_solver congruence.
  - split; [by left|]. intros [?| ->]; [done|]. simpl in Hne. congruence.
Qed.

Lemma has_consume c x n id stream x' :
  telemetry_ok x → telemetry_consumeWindow n id x = (ConsumeOk stream, x') →
  stream.(stream_streamId) = id ∧ JsMap.get x'.(telemetry_streamsById) id = Some stream ∧
  ∀ st, session_has c x' st ↔ session_has c x st.
Proof.
  intros Hx Hrun. pose proof (law_consume (T := BootstrapTelemetrySession) n id x Hx) as Hlaw.
  cbn [session_consumeWindow session_streams telemetry_session] in Hlaw. rewrite Hrun in Hlaw.
  destruct (JsMap.get _ id) as [old|] eqn:Hget; [|naive_solver].
  destruct (telemetry_ok_id _ Hx _ _ Hget) as [Hid _].
  destruct (decide (n ≤ _)); [|naive_solver].
  destruct Hlaw as ([= ->] & _ & _ & _ & Hstreams).
  cbn [session_streams telemetry_session] in Hstreams.
  split; [done|]. split; [rewrite Hstreams; unfold put_stream; by rewrite decide_True|].
  intros st. by apply (has_same_streams c x x' id old (consumed old n)).
Qed.

Lemma has_grant c x id st :
  telemetry_ok x →
  session_has c (telemetry_grantWindowIfNeeded id x).2 st ↔ session_has c x st.
Proof.
  intros Hx. pose proof (law_grant (T := BootstrapTelemetrySession) id x Hx) as Hlaw.
  cbn [session_grantWindowIfNeeded session_streams telemetry_session] in Hlaw.
  destruct (telemetry_grantWindowIfNeeded id x) as [r x']. cbn [snd].
  destruct (JsMap.get _ id) as [old|] eqn:Hget; [|by destruct Hlaw as [_ ->]].
  destruct (decide (_ ≤ _)); [|by destruct Hlaw as [_ ->]].
  destruct Hlaw as (_ & _ & _ & _ & Hstreams).
  cbn [session_streams telemetry_session] in Hstreams.
  by apply (has_same_streams c x x' id old (granted old)).
Qed.

Lemma streamCount_has x id stream :
  JsMap.get x.(telemetry_streamsById) id = Some stream → telemetry_streamCount x ≠ 0%nat.
Proof. intros Hget Hz. rewrite streamCount_zero in Hz. by rewrite Hz in Hget. Qed.

(** *** Settling *)

(** [s'] is [s] with [x] as the object [ref], its map untouched. *)
Definition works (ref : nat) (x : BootstrapTelemetrySession) (s s' : Service) : Prop :=
  (∀ ref', s'.(heap) !! ref' = if decide (ref' = ref) then Some x else s.(heap) !! ref') ∧
  s'.(sessions) = s.(sessions).

Lemma works_update ref x y s s1 :
  works ref y s s1 → works ref x s (with_session ref x s1).
Proof.
  intros [Hheap Hm]. split; [|done]. intros ref'. cbn [heap with_session]. rewrite lookup_insert.
  rewrite Hheap. destruct (decide (ref = ref')) as [<-|]; [by rewrite decide_True|].
  by rewrite !decide_False.
Qed.

Lemma works_deref ref x s s' : works ref x s s' → deref s' ref = x.
Proof. intros [Hheap _]. unfold deref. by rewrite Hheap, decide_True. Qed.

Lemma settles_keep c ref x s s' :
  works ref x s s' → JsMap.get s.(sessions) (toSessionKey c) = Some ref →
  telemetry_ok x → telemetry_streamCount x ≠ 0%nat → settles c x s s'.
Proof.
  intros [Hheap Hm] Hget Hx Hne. split; [|done]. exists ref. split; [by left|]. split; [done|].
  intros key. rewrite Hm. destruct (decide (key = _)) as [->|]; [|done]. by rewrite decide_False.
Qed.

Lemma settles_set c ref x s s' :
  works ref x s s' → session_ref s c ref → telemetry_ok x → telemetry_streamCount x ≠ 0%nat →
  settles c x s (with_sessions (JsMap.set s'.(sessions) (toSessionKey c) ref) s').
Proof.
  intros [Hheap Hm] Href Hx Hne. split; [|done]. exists ref. split; [done|]. split; [done|].
  intros key. cbn [sessions with_sessions]. rewrite JsMap.get_set, Hm.
  destruct (decide (_ = key)) as [<-|].
  - by rewrite decide_True, decide_False.
  - by rewrite decide_False.
Qed.

Definition own_ref (s : Service) (c : IngressConnection) (ref : nat) : Prop :=
  JsMap.get s.(sessions) (toSessionKey c) = Some ref ∨
  (JsMap.get s.(sessions) (toSessionKey c) = None ∧ s.(heap) !! ref = None).

Lemma own_session_ref s c ref : own_ref s c ref → session_ref s c ref.
Proof. intros [?|[_ ?]]; [by left|by right]. Qed.

Lemma settles_delete c ref x s s' :
  works ref x s s' → own_ref s c ref → telemetry_ok x →
  (JsMap.get s.(sessions) (toSessionKey c) = None → telemetry_streamCount x = 0%nat) →
  settles c x s (deleteSessionIfEmpty (toSessionKey c) ref s').
Proof.
  intros Hw Href Hx Hnone. unfold deleteSessionIfEmpty. rewrite (works_deref _ _ _ _ Hw).
  destruct Hw as [Hheap Hm]. split; [|done]. exists ref. split; [by apply own_session_ref|].
  destruct (Nat.eqb_spec (telemetry_streamCount x) 0) as [Hz|Hz]; (split; [done|]); intros key.
  - cbn [sessions with_sessions]. rewrite JsMap.get_delete, Hm.
    destruct (decide (_ = key)) as [<-|].
    + by rewrite !decide_True.
    + by rewrite decide_False.
  - rewrite Hm. destruct (decide (key = _)) as [->|]; [|done]. rewrite decide_False by done.
    destruct Href as [|[Hget _]]; [done|]. destruct Hz. by apply Hnone.
Qed.

(** *** One delivery *)

Lemma session_or_new_deref s c ref :
  JsMap.get s.(sessions) (toSessionKey c) = Some ref → session_or_new s c = deref s ref.
Proof. intros Hget. unfold session_or_new, session_of. by rewrite Hget. Qed.

(** The object [handleOpen] starts from. *)
Lemma open_object c s :
  ∃ ref s1, match JsMap.get s.(sessions) (toSessionKey c) with
      | Some ref => (ref, s) | None => allocate_session s end = (ref, s1) ∧
    own_ref s c ref ∧ deref s1 ref = session_or_new s c ∧
    s1.(sink_calls) = s.(sink_calls) ∧ s1.(sessions) = s.(sessions) ∧
    (∀ ref', ref' ≠ ref → s1.(heap) !! ref' = s.(heap) !! ref').
Proof.
  destruct (JsMap.get _ _) as [ref|] eqn:Hget.
  - exists ref, s. split; [done|]. split; [by left|].
    by rewrite (session_or_new_deref s c ref).
  - eexists _, _. split; [done|]. split; [right; split; [done|apply not_elem_of_dom, is_fresh]|].
    split; [rewrite deref_with_session; unfold session_or_new, session_of; by rewrite Hget|].
    split; [done|]. split; [done|]. intros ref' Hne. simpl. by rewrite lookup_insert_ne.
Qed.

Lemma session_or_new_ok s c : heap_ok s → telemetry_ok (session_or_new s c).
Proof.
  intros Hs. unfold session_or_new, session_of.
  destruct (JsMap.get _ _); simpl; [by apply deref_ok|apply opened_session_ok].
Qed.

Lemma no_streams c x : (∀ st, ¬ session_has c x st) → telemetry_streamCount x = 0%nat.
Proof.
  intros Hno. apply streamCount_zero. intros id.
  destruct (JsMap.get _ id) as [stream|] eqn:Hget; [|done].
  destruct (Hno (mkIngressStream stream.(stream_info) c id)). split; [done|]. eauto.
Qed.

Lemma new_has_none s c st :
  JsMap.get s.(sessions) (toSessionKey c) = None → ¬ session_has c (session_or_new s c) st.
Proof.
  intros Hnone. unfold session_or_new, session_of. rewrite Hnone. simpl.
  by intros (_ & ? & ? & _).
Qed.

Lemma delete_if_empty_calls key ref s :
  (deleteSessionIfEmpty key ref s).(sink_calls) = s.(sink_calls).
Proof. unfold deleteSessionIfEmpty. by case_match. Qed.

(** How the calls of a delivery change what is open. *)
Lemma open_after_closed c x stream answer (before : SandboxTelemetryIngressStream → Prop) st calls :
  (∀ st', SinkClose st' ∈ calls ↔ st' = toIngressStream c stream) →
  (∀ st', calls ≠ [SinkOpen st']) →
  (session_has c x st ↔ before st ∧ st ≠ toIngressStream c stream) →
  session_has c x st ↔ open_after calls answer before st.
Proof. unfold open_after. intros Hclose Hopen ->. rewrite Hclose. naive_solver. Qed.

Lemma open_after_same c x answer (before : SandboxTelemetryIngressStream → Prop) st calls :
  (∀ st', SinkClose st' ∉ calls) → (∀ st', calls ≠ [SinkOpen st'] ∨ answer ≠ None) →
  (session_has c x st ↔ before st) →
  session_has c x st ↔ open_after calls answer before st.
Proof. unfold open_after. intros Hclose Hopen ->. naive_solver. Qed.

Lemma serial_open c input a1 a2 s :
  service_ok s →
  ∃ s', finish [a1; a2] (start c (TelemetryOpenDelivery input) s) = Some (None, s') ∧
        delivers c a1 s s'.
Proof.
  intros Hs. cbn [start]. unfold handleOpen.
  destruct (open_object c s) as (ref & s1 & -> & Hown & -> & Hcalls & Hm & Hheap).
  pose proof (session_or_new_ok s c (service_heap_ok _ Hs)) as Hx.
  assert (∀ y, works ref y s (with_session ref y s1)) as Hworks.
  { intros y. split; [|done]. intros ref'. cbn [heap with_session]. rewrite lookup_insert.
    destruct (decide (ref = ref')) as [<-|]; [by rewrite decide_True|].
    rewrite decide_False by done. by apply Hheap. }
  pose proof (open_session_ok input _ Hx) as Hx'.
  destruct (telemetry_openStream input (session_or_new s c)) as [[response stream|response] x] eqn:Hopen;
    cbn [snd] in Hx'.
  - assert (∀ st, _ ∧ _) as Hhas by exact (λ st, has_open c _ _ _ _ _ st Hx Hopen).
    destruct (Hhas (toIngressStream c stream)) as (_ & Hnew & Hget).
    destruct a1 as [error|]; cbn [finish resume];
      rewrite ?(works_deref ref x s (call_sink _ (with_session ref x s1)) (Hworks x));
      eexists; (split; [done|]); exists [SinkOpen (toIngressStream c stream)].
    + split; [rewrite delete_if_empty_calls; simpl; by rewrite Hcalls|].
      split; [set_solver|]. right. exists (telemetry_closeStream stream.(stream_streamId) x).2.
      assert (∀ st, session_has c (telemetry_closeStream stream.(stream_streamId) x).2 st ↔
        session_has c (session_or_new s c) st) as Hsame.
      { intros st. rewrite (has_close c x _ stream), (proj1 (Hhas st)) by done. naive_solver. }
      split.
      * apply settles_delete; [|done|by apply close_session_ok|].
        -- apply (works_update ref _ x s (with_session ref x s1)), Hworks.
        -- intros Hnone. apply (no_streams c). intros st. rewrite Hsame. by apply new_has_none.
      * intros st. apply open_after_same; [set_solver|by right|done].
    + split; [simpl; by rewrite Hcalls|].
      split; [set_solver|]. right. exists x. split.
      * apply (settles_set c ref x s (sendControlMessage c response
          (call_sink (SinkOpen (toIngressStream c stream)) (with_session ref x s1))));
          [apply Hworks|by apply own_session_ref|done|by eapply streamCount_has].
      * intros st. rewrite (proj1 (Hhas st)). unfold open_after. set_solver.
  - pose proof (law_open (T := BootstrapTelemetrySession) input _ Hx) as Hlaw.
    cbn [session_openStream telemetry_session] in Hlaw. rewrite Hopen in Hlaw.
    destruct Hlaw as [-> _]. cbn [finish]. eexists. split; [done|]. exists [].
    split; [rewrite delete_if_empty_calls; simpl; by rewrite Hcalls, app_nil_r|].
    split; [set_solver|]. right. exists (session_or_new s c). split.
    + apply settles_delete; [apply Hworks|done|done|]. intros Hnone.
      apply (no_streams c). intros st. by apply new_has_none.
    + intros st. apply open_after_same; [set_solver|by left|done].
Qed.

(** A delivery for a stream of the session [ref] of the connection. *)
Section OnSession.
Context (c : IngressConnection) (s : Service) (ref : nat).
Context (Hs : service_ok s) (Hget : JsMap.get s.(sessions) (toSessionKey c) = Some ref).
Let x := deref s ref.

Lemma on_session_ok : telemetry_ok x.
Proof. apply deref_ok, (service_heap_ok _ Hs). Qed.

Lemma on_session_works y : works ref y s (with_session ref y s).
Proof.
  split; [|done]. intros ref'. cbn [heap with_session]. rewrite lookup_insert.
  destruct (decide (ref = ref')) as [<-|]; [by rewrite decide_True|by rewrite decide_False].
Qed.

(** The session ends as [y] with the streams it had, and [calls] close none. *)
Lemma delivers_same answer y s1 calls :
  works ref y s s1 → telemetry_ok y → (∀ st, session_has c y st ↔ session_has c x st) →
  s1.(sink_calls) = s.(sink_calls) ++ calls → Forall (λ call, ∃ st payload, call = SinkAppend st payload) calls →
  delivers c answer s s1 ∧ delivers c answer s (deleteSessionIfEmpty (toSessionKey c) ref s1).
Proof.
  intros Hw Hy Hsame Hcalls Happend. rewrite Forall_forall in Happend.
  assert (∀ st, session_has c y st ↔ open_after calls answer (session_has c (session_or_new s c)) st) as Hstreams.
  { intros st. rewrite (session_or_new_deref s c ref Hget). apply open_after_same; [| |apply Hsame].
    - intros st' Hin. by destruct (Happend _ Hin) as (? & ? & ?).
    - intros st'. left. intros ->. destruct (Happend (SinkOpen st')) as (? & ? & ?); [left|done]. }
  assert (∀ st, SinkClose st ∈ calls ∨ SinkOpen st ∈ calls → st.(ingressStream_connection) = c) as Hown.
  { intros st [Hin|Hin]; by destruct (Happend _ Hin) as (? & ? & ?). }
  assert (telemetry_streamCount y ≠ 0%nat) as Hne.
  { intros Hz. apply (service_nonempty _ Hs _ _ Hget). apply (no_streams c). intros st.
    intros Hold. apply (Hsame st) in Hold as (_ & r & Hr & _). apply streamCount_zero with (id := ingressStream_streamId st) in Hz.
    by rewrite Hz in Hr. }
  split; exists calls; rewrite ?delete_if_empty_calls; (split; [done|]); (split; [done|]);
    right; exists y; (split; [|done]).
  - by eapply settles_keep.
  - apply settles_delete; [done|by left|done|]. by rewrite Hget.
Qed.

(** The stream [stream] is closed, in the session and by one call of the sink. *)
Lemma delivers_closed answer y stream s1 calls :
  works ref y s s1 → telemetry_ok y →
  (∀ st, session_has c y st ↔ session_has c x st ∧ st ≠ toIngressStream c stream) →
  s1.(sink_calls) = s.(sink_calls) ++ calls →
  (∀ call, call ∈ calls → call = SinkClose (toIngressStream c stream) ∨
    ∃ payload, call = SinkAppend (toIngressStream c stream) payload) →
  SinkClose (toIngressStream c stream) ∈ calls →
  delivers c answer s (deleteSessionIfEmpty (toSessionKey c) ref s1).
Proof.
  intros Hw Hy Hhas Hcalls Hall Hin. exists calls. rewrite delete_if_empty_calls.
  split; [done|]. split; [intros st [H|H]; destruct (Hall _ H) as [?|[? ?]]; simplify_eq/=; done|].
  right. exists y. split; [apply settles_delete; [done|by left|done|by rewrite Hget]|].
  intros st. rewrite (session_or_new_deref s c ref Hget). apply (open_after_closed c y stream).
  - intros st'. split; [|by intros ->]. intros H. by destruct (Hall _ H) as [?|[? ?]]; simplify_eq.
  - intros st' ->. apply list_elem_of_singleton in Hin. done.
  - apply Hhas.
Qed.
Lemma serial_close id a1 a2 :
  ∃ thrown s', finish [a1; a2]
    (let (stream, session) := telemetry_closeStream id x in
     let s1 := with_session ref session s in
     match stream with
     | None => (Returned, deleteSessionIfEmpty (toSessionKey c) ref s1)
     | Some stream => (Waits (AwaitClose c ref stream), closeSinkStream c stream s1)
     end) = Some (thrown, s') ∧ delivers c a1 s s'.
Proof.
  pose proof on_session_ok as Hx. pose proof (close_session_ok id x Hx) as Hok.
  pose proof (has_close c x id) as Hhas. unfold telemetry_closeStream in *.
  destruct (JsMap.get _ id) as [stream|] eqn:Hid; cbn [snd] in Hok.
  - specialize (Hhas stream). destruct a1; cbn [finish resume]; (eexists _, _; split; [done|]);
      (eapply (delivers_closed _ _ stream _ [SinkClose (toIngressStream c stream)]);
      [apply on_session_works|done|by intros; apply Hhas|done|set_solver|set_solver]).
  - eexists _, _. split; [done|].
    apply (delivers_same a1 x _ []); [apply on_session_works|done|done|by rewrite app_nil_r|done].
Qed.

Lemma serial_invalid id a1 a2 :
  ∃ thrown s', finish [a1; a2]
    (let '(response, stream, session) := telemetry_invalidateStream id x in
     let s1 := sendControlMessage c response (with_session ref session s) in
     match stream with
     | Some stream => (Waits (AwaitIgnoredClose c ref), closeSinkStream c stream s1)
     | None => (Returned, deleteSessionIfEmpty (toSessionKey c) ref s1)
     end) = Some (thrown, s') ∧ delivers c a1 s s'.
Proof.
  pose proof on_session_ok as Hx. pose proof (close_session_ok id x Hx) as Hok.
  pose proof (has_close c x id) as Hhas. unfold telemetry_invalidateStream, telemetry_closeStream in *.
  destruct (JsMap.get _ id) as [stream|] eqn:Hid; cbn [snd] in Hok.
  - specialize (Hhas stream). cbn [finish resume]. eexists _, _. split; [done|].
    eapply (delivers_closed a1 _ stream _ [SinkClose (toIngressStream c stream)]);
      [apply on_session_works|done|by intros; apply Hhas|done|set_solver|set_solver].
  - eexists _, _. split; [done|].
    apply (delivers_same a1 x _ []); [apply on_session_works|done|done|by rewrite app_nil_r|done].
Qed.

Lemma serial_data payload id a1 a2 :
  ∃ thrown s', finish [a1; a2] (handleData c payload id ref s) = Some (thrown, s') ∧
    delivers c a1 s s'.
Proof.
  pose proof on_session_ok as Hx. unfold handleData.
  destruct (decodeDataFrame payload) as [message|frame].
  { eexists _, s. split; [done|]. exists []. split; [by rewrite app_nil_r|].
    split; [set_solver|by left]. }
  set (n := Z.of_nat _). pose proof (consume_session_ok n id x Hx) as Hok.
  pose proof (law_consume (T := BootstrapTelemetrySession) n id x Hx) as Hlaw.
  cbn [session_consumeWindow session_streams telemetry_session] in Hlaw.
  fold x. destruct (telemetry_consumeWindow n id x) as [[stream|response stream] y] eqn:Hrun;
    cbn [snd] in Hok.
  - destruct (has_consume c x n id stream y Hx Hrun) as (Hid & Hstream & Hhas).
    destruct a1 as [error|]; cbn [finish resume];
      rewrite (works_deref ref y s (call_sink _ (with_session ref y s)) (on_session_works y)).
    + eexists _, _. split; [done|].
      eapply (delivers_closed (Some error) (telemetry_closeStream stream.(stream_streamId) y).2 stream _
        [SinkAppend (toIngressStream c stream) frame.(frame_payload);
         SinkClose (toIngressStream c stream)]);
        [|by apply close_session_ok| | | |].
      * by eapply (works_update ref _ y s (with_session ref y s)), on_session_works.
      * intros st. rewrite (has_close c y _ stream) by (done || by rewrite Hid). by rewrite Hhas.
      * simpl. by rewrite <-app_assoc.
      * set_solver.
      * set_solver.
    + pose proof (grant_session_ok stream.(stream_streamId) y Hok) as Hgok.
      pose proof (λ st, has_grant c y stream.(stream_streamId) st Hok) as Hgrant.
      destruct (telemetry_grantWindowIfNeeded _ y) as [[message|] z]; cbn [snd] in *;
        (eexists _, _; split; [done|]);
        (eapply (delivers_same None z _ [SinkAppend (toIngressStream c stream) frame.(frame_payload)]);
          [by eapply (works_update ref z y s (with_session ref y s)), on_session_works|done
          |intros st; by rewrite Hgrant, Hhas|done|by repeat econstructor]).
  - destruct (JsMap.get _ id) as [old|] eqn:Hget'.
    + destruct (decide (n ≤ _)); [naive_solver|]. destruct Hlaw as [(? & ? & ? & [= -> ->]) Hb].
      cbn [finish resume]. eexists _, _. split; [done|].
      eapply (delivers_closed a1 y old _ [SinkClose (toIngressStream c old)]);
        [apply on_session_works|done| |done|set_solver|set_solver].
      intros st. rewrite <-(has_close c x id old st Hx Hget').
      destruct Hb as (_ & _ & _ & Hstreams). cbn [session_streams telemetry_session] in Hstreams.
      unfold session_has. rewrite Hstreams. unfold telemetry_closeStream. rewrite Hget'. simpl.
      by rewrite get_delete_put.
    + destruct Hlaw as (-> & ? & ? & ? & [= -> ->]). eexists _, _. split; [done|].
      apply (delivers_same a1 x _ []);
        [apply on_session_works|done|done|by rewrite app_nil_r|done].
Qed.
End OnSession.

Lemma delivers_nothing c answer answers p s s' :
  (p = Returned ∧ s'.(heap) = s.(heap) ∧ s'.(sessions) = s.(sessions) ∧
   s'.(sink_calls) = s.(sink_calls)) →
  ∃ thrown s'', finish answers (p, s') = Some (thrown, s'') ∧ delivers c answer s s''.
Proof.
  intros (-> & ? & ? & ?). exists None, s'. split; [by destruct answers|].
  exists []. rewrite app_nil_r. split; [done|]. split; [set_solver|by left].
Qed.


Lemma serial_delivers c delivery a1 a2 s :
  service_ok s →
  ∃ thrown s', finish [a1; a2] (start c delivery s) = Some (thrown, s') ∧ delivers c a1 s s'.
Proof.
  intros Hs. destruct delivery as [input|id|payload id|kind id].
  - destruct (serial_open c input a1 a2 s Hs) as (s' & ? & ?). by exists None, s'.
  - cbn [start]. destruct (JsMap.get _ _) as [ref|] eqn:Hget; [|by apply delivers_nothing].
    by apply serial_close.
  - cbn [start]. destruct (JsMap.get _ _) as [ref|] eqn:Hget; [|by apply delivers_nothing].
    by apply serial_data.
  - cbn [start]. destruct (JsMap.get _ _) as [ref|] eqn:Hget; [|by apply delivers_nothing].
    by apply serial_invalid.
Qed.

(** Deliveries handled one at a time never leak.  Every delivery comes to its
    end with at most two answers of the sink, whatever they are; and after it
    the streams open in the service are exactly those the sink has open: the
    ones it has opened with success and has not been asked to close since. *)
Theorem serial_delivery (c : IngressConnection) (delivery : TelemetryDelivery)
    (a1 a2 : option SinkError) (s : Service) :
  service_ok s → plain_connection c →
  ∃ thrown s', finish [a1; a2] (start c delivery s) = Some (thrown, s') ∧ service_ok s' ∧
    ∃ calls, s'.(sink_calls) = s.(sink_calls) ++ calls ∧
      ∀ st, plain_connection st.(ingressStream_connection) →
        (open_in_service s' st ↔ open_after calls a1 (open_in_service s) st).
Proof.
  intros Hs Hc. destruct (serial_delivers c delivery a1 a2 s Hs) as (thrown & s' & Hrun & Hd).
  exists thrown, s'. split; [done|]. by apply delivers_open with c.
Qed.

Lemma serial_delivery_witness :
  ∃ s', finish [None; None] (start demo_connection (TelemetryOpenDelivery demo_logs)
          new_ingress_service) = Some (None, s') ∧ service_ok s' ∧
    open_in_service s' (opened_in_sink demo_connection demo_logs) ∧
    s'.(sink_calls) = [SinkOpen (opened_in_sink demo_connection demo_logs)].
Proof.
  destruct (serial_delivery demo_connection (TelemetryOpenDelivery demo_logs) None None
    new_ingress_service) as (thrown & s' & Hrun & Hok & calls & Hcalls & Hopen);
    [by split|reflexivity|].
  assert (thrown = None ∧ s'.(sink_calls) = [SinkOpen (opened_in_sink demo_connection demo_logs)])
    as [-> Hs'] by (vm_compute in Hrun; by simplify_eq).
  exists s'. do 2 (split; [done|]). split; [|done].
  apply Hopen; [reflexivity|]. right. split; [|done]. by rewrite Hs' in Hcalls.
Defined.
