(* ===== verification/Zod.v ===== *)
(** * Schemas

    The protocol describes its messages with the schema library zod, which is not
    part of the repository.  [schema] has one constructor per combinator the
    protocol calls; [Zod] is the library, and its laws are the documented meaning
    of [safeParse] on each combinator: which values it accepts and the data it
    returns, where an object keeps the keys of its shape and drops all others.
    [zod_parse] is a function with these laws.

    What the proofs take from a schema: a value parsed once parses to itself, is
    determined by its JSON text, and stays valid when one of its fields is
    replaced by another valid value. *)

From S2P Require Import Prelude JsMap JsObject Json.
Local Open Scope Z_scope.

Inductive schema : Type :=
| ZString                                       (* z.string() *)
| ZNonEmptyString                               (* z.string().min(1) *)
| ZUrl                                          (* z.url() *)
| ZInt (minimum maximum : option Z)             (* z.int().min(..).max(..) *)
| ZBoolean                                      (* z.boolean() *)
| ZLiteral (value : string)                     (* z.literal("...") *)
| ZLiteralBoolean (value : bool)                (* z.literal(true) *)
| ZEnum (values : list string)                  (* z.enum([...]) *)
| ZArray (element : schema)                     (* z.array(...) *)
| ZRecord (key value : schema)                  (* z.record(..., ...) *)
| ZOptional (s : schema)                        (* ....optional() *)
| ZObject (shape : list (string * schema))      (* z.object({...}) *)
| ZStrictObject (shape : list (string * schema)) (* z.object({...}).strict() *)
| ZUnion (options : list schema)                (* z.union([...]) *)
| ZDiscriminatedUnion (key : string) (options : list schema)
| ZNumber                                       (* z.number() *)
| ZNull                                         (* z.null() *)
| ZNonEmptyArray (element : schema).            (* z.array(...).min(1) *)

Definition is_optional (s : schema) : bool :=
  match s with ZOptional _ => true | _ => false end.

Definition shape_get (shape : list (string * schema)) (key : string) : option schema :=
  JsMap.get shape key.

(** The literal an option of a discriminated union requires under [key]. *)
Definition discriminator (key : string) (s : schema) : option string :=
  match s with
  | ZObject shape | ZStrictObject shape =>
      match shape_get shape key with Some (ZLiteral value) => Some value | _ => None end
  | _ => None
  end.

Fixpoint find_option (key value : string) (options : list schema) : option schema :=
  match options with
  | [] => None
  | o :: options => if discriminator key o =?= Some value then Some o
                    else find_option key value options
  end.

(** [value[key]] *)
Definition field (v : json) (key : string) : option json :=
  match v with JObject fields => JsMap.get fields key | _ => None end.

(** [value.type], [value.streamId] and the like on a parsed value. *)
Definition string_field (v : json) (key : string) : string :=
  match field v key with Some (JString s) => s | _ => "" end.
Definition number_field (v : json) (key : string) : number :=
  match field v key with Some (JNumber x) => x | _ => NonInteger "NaN" end.

Definition in_range (minimum maximum : option Z) (n : Z) : bool :=
  (- MAX_SAFE_INTEGER <=? n) && (n <=? MAX_SAFE_INTEGER)
  && match minimum with Some lo => lo <=? n | None => true end
  && match maximum with Some hi => n <=? hi | None => true end.

(** No key but those of the shape. *)
Definition known_keys (shape : list (string * schema)) (fields : JsMap.t string json) : bool :=
  forallb (λ k, bool_decide (k ∈ shape.*1)) (JsMap.keys fields).

Section Combinators.
Context (p : schema → json → option json).

Fixpoint parse_list (s : schema) (l : list json) : option (list json) :=
  match l with
  | [] => Some []
  | v :: l => w ← p s v; ws ← parse_list s l; Some (w :: ws)
  end.

Fixpoint parse_entries (key value : schema) (fields : list (string * json))
    : option (list (string * json)) :=
  match fields with
  | [] => Some []
  | (k, v) :: fields =>
      _ ← p key (JString k); w ← p value v; ws ← parse_entries key value fields;
      Some ((k, w) :: ws)
  end.

Fixpoint parse_shape (shape : list (string * schema)) (fields : JsMap.t string json)
    : option (list (string * json)) :=
  match shape with
  | [] => Some []
  | (k, s) :: shape =>
      match JsMap.get fields k with
      | Some v => w ← p s v; ws ← parse_shape shape fields; Some ((k, w) :: ws)
      | None => if is_optional s then parse_shape shape fields else None
      end
  end.

Fixpoint parse_first (options : list schema) (v : json) : option json :=
  match options with
  | [] => None
  | s :: options => match p s v with Some w => Some w | None => parse_first options v end
  end.

(** The parse of the option [find_option] picks. *)
Fixpoint parse_discriminated (key value : string) (options : list schema) (v : json)
    : option json :=
  match options with
  | [] => None
  | o :: options => if discriminator key o =?= Some value then p o v
                    else parse_discriminated key value options v
  end.

Lemma parse_discriminated_find key value options v :
  parse_discriminated key value options v =
    match find_option key value options with Some o => p o v | None => None end.
Proof. induction options as [|o options IH]; [done|]. simpl. by case_bool_decide. Qed.
End Combinators.

(** ** The library *)

Class Zod : Type := { safeParse : schema → json → option json }.

Class ZodLaws `{Zod} : Prop := {
  zod_string v : safeParse ZString v = match v with JString _ => Some v | _ => None end;
  zod_non_empty v : safeParse ZNonEmptyString v =
    match v with JString s => if s =?= "" then None else Some v | _ => None end;
  zod_url v w : safeParse ZUrl v = Some w → w = v ∧ ∃ s, v = JString s;
  zod_int minimum maximum v : safeParse (ZInt minimum maximum) v =
    match v with JNumber (Int n) => if in_range minimum maximum n then Some v else None
               | _ => None end;
  zod_boolean v : safeParse ZBoolean v = match v with JBool _ => Some v | _ => None end;
  zod_literal value v : safeParse (ZLiteral value) v =
    match v with JString s => if s =?= value then Some v else None | _ => None end;
  zod_literal_boolean value v : safeParse (ZLiteralBoolean value) v =
    match v with JBool b => if Bool.eqb b value then Some v else None | _ => None end;
  zod_enum values v : safeParse (ZEnum values) v =
    match v with JString s => if bool_decide (s ∈ values) then Some v else None | _ => None end;
  zod_array s v : safeParse (ZArray s) v =
    match v with JArray l => JArray <$> parse_list safeParse s l | _ => None end;
  zod_record key value v : safeParse (ZRecord key value) v =
    match v with JObject fields => JObject <$> parse_entries safeParse key value fields
               | _ => None end;
  zod_optional s v : safeParse (ZOptional s) v = safeParse s v;
  zod_object shape v : safeParse (ZObject shape) v =
    match v with JObject fields => JObject <$> parse_shape safeParse shape fields
               | _ => None end;
  zod_strict_object shape v : safeParse (ZStrictObject shape) v =
    match v with
    | JObject fields => if known_keys shape fields then safeParse (ZObject shape) v else None
    | _ => None
    end;
  zod_union options v : safeParse (ZUnion options) v = parse_first safeParse options v;
  zod_discriminated_union key options v : safeParse (ZDiscriminatedUnion key options) v =
    match field v key with
    | Some (JString value) => parse_discriminated safeParse key value options v
    | _ => None
    end;
  zod_number v w : safeParse ZNumber v = Some w → w = v ∧ ∃ x, v = JNumber x;
  zod_number_int n : safeParse ZNumber (JNumber (Int n)) = Some (JNumber (Int n));
  zod_null v : safeParse ZNull v = match v with JNull => Some v | _ => None end;
  zod_non_empty_array s v : safeParse (ZNonEmptyArray s) v =
    match v with JArray (_ :: _) => safeParse (ZArray s) v | _ => None end;
}.

(** A function with these laws; it takes any string with a scheme for a URL. *)
Fixpoint zod_parse (s : schema) (v : json) : option json :=
  match s with
  | ZString => match v with JString _ => Some v | _ => None end
  | ZNonEmptyString =>
      match v with JString t => if t =?= "" then None else Some v | _ => None end
  | ZUrl => match v with JString t => if has_char colon t then Some v else None | _ => None end
  | ZInt minimum maximum =>
      match v with JNumber (Int n) => if in_range minimum maximum n then Some v else None
                 | _ => None end
  | ZBoolean => match v with JBool _ => Some v | _ => None end
  | ZLiteral value =>
      match v with JString t => if t =?= value then Some v else None | _ => None end
  | ZLiteralBoolean value =>
      match v with JBool b => if Bool.eqb b value then Some v else None | _ => None end
  | ZEnum values =>
      match v with JString t => if bool_decide (t ∈ values) then Some v else None | _ => None end
  | ZArray s => match v with JArray l => JArray <$> parse_list zod_parse s l | _ => None end
  | ZRecord key value =>
      match v with JObject fields => JObject <$> parse_entries zod_parse key value fields
                 | _ => None end
  | ZOptional s => zod_parse s v
  | ZObject shape =>
      match v with JObject fields => JObject <$> parse_shape zod_parse shape fields
                 | _ => None end
  | ZStrictObject shape =>
      match v with
      | JObject fields =>
          if known_keys shape fields then JObject <$> parse_shape zod_parse shape fields else None
      | _ => None
      end
  | ZUnion options => parse_first zod_parse options v
  | ZDiscriminatedUnion key options =>
      match field v key with
      | Some (JString value) => parse_discriminated zod_parse key value options v
      | _ => None
      end
  | ZNumber => match v with JNumber _ => Some v | _ => None end
  | ZNull => match v with JNull => Some v | _ => None end
  | ZNonEmptyArray s =>
      match v with JArray ((_ :: _) as l) => JArray <$> parse_list zod_parse s l | _ => None end
  end.

Definition reference_zod : Zod := {| safeParse := zod_parse |}.

Lemma reference_zod_laws : @ZodLaws reference_zod.
Proof.
  split; try done.
  - intros [] w; simpl; try done. case_match; naive_solver.
  - by intros shape [].
  - intros [] w; simpl; naive_solver.
  - by intros s [| | | |[]|].
Qed.

(** ** What parsing preserves *)

Fixpoint schema_ind' (P : schema → Prop)
    (Hleaf : ∀ s, match s with
       | ZArray _ | ZRecord _ _ | ZOptional _ | ZObject _ | ZStrictObject _ | ZUnion _
       | ZDiscriminatedUnion _ _ | ZNonEmptyArray _ => False
       | _ => True end → P s)
    (Harray : ∀ s, P s → P (ZArray s)) (Hrecord : ∀ k v, P k → P v → P (ZRecord k v))
    (Hoptional : ∀ s, P s → P (ZOptional s))
    (Hobject : ∀ shape, Forall (λ e, P e.2) shape → P (ZObject shape))
    (Hstrict : ∀ shape, P (ZObject shape) → P (ZStrictObject shape))
    (Hunion : ∀ options, Forall P options → P (ZUnion options))
    (Hdiscriminated : ∀ key options, Forall P options → P (ZDiscriminatedUnion key options))
    (Hnonempty : ∀ s, P s → P (ZNonEmptyArray s)) (s : schema) : P s :=
  let rec := schema_ind' P Hleaf Harray Hrecord Hoptional Hobject Hstrict Hunion Hdiscriminated Hnonempty in
  let all := fix all l := match l return Forall P l with
    | [] => List.Forall_nil _ | s :: l => List.Forall_cons _ s l (rec s) (all l) end in
  let fields := fix go l := match l return Forall (λ e, P e.2) l with
    | [] => List.Forall_nil _ | e :: l => List.Forall_cons _ e l (rec e.2) (go l) end in
  match s with
  | ZArray s => Harray s (rec s)
  | ZRecord k v => Hrecord k v (rec k) (rec v)
  | ZOptional s => Hoptional s (rec s)
  | ZObject shape => Hobject shape (fields shape)
  | ZStrictObject shape => Hstrict shape (Hobject shape (fields shape))
  | ZUnion options => Hunion options (all options)
  | ZDiscriminatedUnion key options => Hdiscriminated key options (all options)
  | ZNonEmptyArray s => Hnonempty s (rec s)
  | s => Hleaf s I
  end.

(** Schemas of fixed shape: no records, no plain unions and none of the combinators only the
    payload filters use, no key twice, and every option of a discriminated union has its
    literal. *)
Fixpoint fixed (s : schema) : bool :=
  match s with
  | ZRecord _ _ | ZUnion _ | ZNumber | ZNull | ZNonEmptyArray _ => false
  | ZArray s | ZOptional s => fixed s
  | ZObject shape | ZStrictObject shape => bool_decide (NoDup shape.*1) && forallb (λ e, fixed e.2) shape
  | ZDiscriminatedUnion key options =>
      forallb (λ o, fixed o && bool_decide (is_Some (discriminator key o))) options
  | _ => true
  end.

(** Schemas of objects without a key that is an array index. *)
Fixpoint plain_keys (s : schema) : bool :=
  match s with
  | ZArray s | ZOptional s | ZNonEmptyArray s => plain_keys s
  | ZObject shape | ZStrictObject shape =>
      forallb (λ e, negb (JsObject.is_index e.1) && plain_keys e.2) shape
  | ZDiscriminatedUnion _ options | ZUnion options => forallb plain_keys options
  | _ => true
  end.

Lemma forallb_Forall {A} (f : A → bool) l : forallb f l = true ↔ Forall (λ x, f x = true) l.
Proof. rewrite List.forallb_forall, Forall_forall. setoid_rewrite list_elem_of_In. done. Qed.

Section Theory.
Context `{ZodLaws}.

Lemma parse_shape_get shape fields r k :
  NoDup shape.*1 → parse_shape safeParse shape fields = Some r →
  match shape_get shape k with
  | None => JsMap.get r k = None
  | Some s => match JsMap.get fields k with
              | Some v => JsMap.get r k = safeParse s v ∧ is_Some (safeParse s v)
              | None => JsMap.get r k = None ∧ is_optional s = true
              end
  end.
Proof.
  unfold shape_get. revert r. induction shape as [|[k0 s0] shape IH]; intros r Hnd Hr; simpl in *.
  - by simplify_eq.
  - apply NoDup_cons in Hnd as [Hk0 Hnd].
    assert (k0 = k → JsMap.get shape k = None) as Hother.
    { intros <-. apply eq_None_not_Some. intros Hs. by apply Hk0, JsMap.elem_of_keys. }
    destruct (JsMap.get fields k0) as [v|] eqn:Hget.
    + destruct (safeParse s0 v) as [w|] eqn:Hw; [|done]. simpl in Hr.
      destruct (parse_shape _ shape fields) as [ws|] eqn:Hws; [|done]. simplify_eq/=.
      destruct (decide (k0 = k)) as [<-|]; [rewrite Hget, Hw; by eauto|]. by apply IH.
    + destruct (is_optional s0) eqn:Hopt; [|done]. specialize (IH _ Hnd Hr).
      destruct (decide (k0 = k)) as [<-|]; [|done]. rewrite Hother in IH by done.
      by rewrite Hget.
Qed.

Lemma parse_shape_keys shape fields r :
  parse_shape safeParse shape fields = Some r →
  (∀ k, k ∈ r.*1 → k ∈ shape.*1) ∧ (NoDup shape.*1 → NoDup r.*1).
Proof.
  revert r. induction shape as [|[k0 s0] shape IH]; intros r Hr; simpl in *.
  - simplify_eq. split; [done|]. intros. apply NoDup_nil_2.
  - destruct (JsMap.get fields k0) as [v|].
    + destruct (safeParse s0 v) as [w|]; [|done]. simpl in Hr.
      destruct (parse_shape _ shape fields) as [ws|]; [|done]. simplify_eq/=.
      destruct (IH ws eq_refl) as [Hin Hnd]. split.
      * intros k. rewrite !elem_of_cons. naive_solver.
      * rewrite !NoDup_cons. naive_solver.
    + destruct (is_optional s0); [|done]. destruct (IH r Hr) as [Hin Hnd]. split.
      * intros k Hk. right. by apply Hin.
      * rewrite NoDup_cons. naive_solver.
Qed.

Lemma parse_shape_known shape fields r :
  parse_shape safeParse shape fields = Some r → known_keys shape r = true.
Proof.
  intros Hr. apply forallb_Forall, Forall_forall. intros k Hk.
  apply bool_decide_eq_true. by apply (parse_shape_keys shape fields r Hr).
Qed.

(** A shape reads its own keys only. *)
Lemma parse_shape_ext shape fields fields' :
  (∀ k, k ∈ shape.*1 → JsMap.get fields' k = JsMap.get fields k) →
  parse_shape safeParse shape fields' = parse_shape safeParse shape fields.
Proof.
  induction shape as [|[k0 s0] shape IH]; intros Heq; [done|]. simpl in *.
  rewrite (Heq k0) by left. rewrite IH; [done|]. intros k Hk. apply Heq. by right.
Qed.

(** Parsing the fields again, each of which parses to itself, changes nothing. *)
Lemma parse_shape_again shape fields r :
  NoDup shape.*1 →
  Forall (λ e, ∀ v w, safeParse e.2 v = Some w → safeParse e.2 w = Some w) shape →
  parse_shape safeParse shape fields = Some r → parse_shape safeParse shape r = Some r.
Proof.
  revert r. induction shape as [|[k0 s0] shape IH]; intros r Hnd Hidem Hr; simpl in *; [done|].
  apply NoDup_cons in Hnd as [Hk0 Hnd]. apply Forall_cons in Hidem as [Hs0 Hidem]. simpl in Hs0.
  destruct (JsMap.get fields k0) as [v|] eqn:Hget.
  - destruct (safeParse s0 v) as [w|] eqn:Hw; [|done]. simpl in Hr.
    destruct (parse_shape _ shape fields) as [ws|] eqn:Hws; [|done]. simplify_eq/=.
    rewrite decide_True by done. rewrite (Hs0 v w Hw). simpl.
    rewrite (parse_shape_ext shape ws); [by rewrite (IH ws)|].
    intros k Hk. simpl. rewrite decide_False; [done|]. by intros ->.
  - destruct (is_optional s0) eqn:Hopt; [|done].
    assert (JsMap.get r k0 = None) as ->; [|by apply IH].
    apply eq_None_not_Some. intros Hs%JsMap.elem_of_keys.
    by apply Hk0, (proj1 (parse_shape_keys _ _ _ Hr)).
Qed.

(** Replacing a field of a result by a value its schema keeps. *)
Lemma parse_shape_set shape r k s v :
  NoDup shape.*1 → parse_shape safeParse shape r = Some r →
  shape_get shape k = Some s → is_Some (JsMap.get r k) → safeParse s v = Some v →
  parse_shape safeParse shape (JsMap.set r k v) = Some (JsMap.set r k v).
Proof.
  intros Hnd Hr Hs Hk Hv.
  assert (∀ shape' ws, NoDup shape'.*1 → parse_shape safeParse shape' r = Some ws →
    shape_get shape' k = Some s →
    parse_shape safeParse shape' (JsMap.set r k v) = Some (JsMap.set ws k v)) as Hgen; [|by apply Hgen].
  clear Hr Hs Hnd. intros shape'. induction shape' as [|[k0 s0] shape' IH]; intros ws Hnd Hws Hget;
    [done|].
  simpl in *. apply NoDup_cons in Hnd as [Hk0 Hnd]. unfold shape_get in *. simpl in Hget.
  rewrite JsMap.get_set. destruct (decide (k0 = k)) as [->|Hne].
  - simplify_eq. rewrite decide_True, Hv by done. simpl. destruct Hk as [old Hold].
    rewrite Hold in Hws. destruct (safeParse s old); [|done]. simpl in Hws.
    rewrite (parse_shape_ext shape' r (JsMap.set r k v)); cycle 1.
    { intros k' Hk'. apply JsMap.get_set_ne. by intros ->. }
    destruct (parse_shape _ shape' r); [|done]. simplify_eq/=. by rewrite decide_True.
  - rewrite decide_False by done. destruct (JsMap.get r k0) as [v0|].
    + destruct (safeParse s0 v0); [|done]. simpl in *.
      destruct (parse_shape _ shape' r) as [ws'|] eqn:Hws'; [|done]. simplify_eq/=.
      rewrite (IH ws' Hnd eq_refl Hget). simpl. by rewrite decide_False.
    + destruct (is_optional s0); [|done]. by apply IH.
Qed.

Lemma find_option_in key value options o :
  find_option key value options = Some o → o ∈ options ∧ discriminator key o = Some value.
Proof.
  induction options as [|o' options IH]; simpl; [done|]. case_bool_decide.
  - intros [= ->]. split; [left|done].
  - intros [? ?]%IH. split; [by right|done].
Qed.

(** The parse of an option keeps the discriminator. *)
Lemma discriminator_kept key value o v w :
  fixed o = true → discriminator key o = Some value → safeParse o v = Some w →
  field w key = Some (JString value).
Proof.
  intros Hfixed Hd Hw.
  assert (∃ shape, discriminator key (ZObject shape) = Some value ∧ fixed (ZObject shape) = true ∧
    safeParse (ZObject shape) v = Some w) as (shape & Hs & Hf & Hv).
  { destruct o as [| | | | | | | | | | |shape|shape| | | | |]; try done; exists shape; [done|].
    rewrite zod_strict_object in Hw. destruct v; try done. by destruct (known_keys _ _). }
  clear o Hfixed Hd Hw. rename Hs into Hd, Hf into Hfixed. revert Hv. simpl in *.
  rewrite zod_object. destruct v as [| | | | |fields]; try done.
  destruct (parse_shape _ shape fields) as [r|] eqn:Hr; [|done]. intros [= <-]. simpl.
  apply andb_true_iff in Hfixed as [Hnd%bool_decide_eq_true _].
  pose proof (parse_shape_get shape fields r key Hnd Hr) as Hget.
  destruct (shape_get shape key) as [[]|] eqn:Hs; try done. simplify_eq.
  destruct (JsMap.get fields key) as [v|]; [|by destruct Hget].
  destruct Hget as [Hget [w Hw]]. rewrite Hget. rewrite zod_literal in *.
  destruct v; try done. by case_bool_decide; simplify_eq.
Qed.

Lemma parse_list_again s l ws :
  (∀ v w, safeParse s v = Some w → safeParse s w = Some w) →
  parse_list safeParse s l = Some ws → parse_list safeParse s ws = Some ws.
Proof.
  intros Hs. revert ws. induction l as [|v l IH]; intros ws Hws; simpl in *; [by simplify_eq|].
  destruct (safeParse s v) as [w|] eqn:Hw; [|done]. simpl in Hws.
  destruct (parse_list _ s l) as [ws'|]; [|done]. simplify_eq/=.
  rewrite (Hs v w Hw). simpl. by rewrite (IH ws').
Qed.

(** A parsed value parses to itself. *)
Lemma parse_again s v w : fixed s = true → safeParse s v = Some w → safeParse s w = Some w.
Proof.
  revert v w. induction s as [s Hleaf|s IH|k s IHk IH|s IH|shape IH|shape IH|options IH|key options IH|s IH]
    using schema_ind'; intros v w Hfixed Hw.
  - destruct s; try done; clear Hfixed Hleaf;
      [rewrite zod_string in *|rewrite zod_non_empty in *|destruct (zod_url _ _ Hw) as [-> _]; done
      |rewrite zod_int in *|rewrite zod_boolean in *|rewrite zod_literal in *
      |rewrite zod_literal_boolean in *|rewrite zod_enum in *];
      destruct v as [|?|[?|?]|?|?|?]; simplify_eq/=; try done;
      match goal with Hw : (if ?b then _ else _) = _ |- _ => destruct b eqn:Hb end;
      simplify_eq/=; by rewrite ?Hb.
  - rewrite zod_array in *. destruct v as [| | | |l|]; try done.
    destruct (parse_list _ s l) as [ws|] eqn:Hws; [|done]. simplify_eq/=.
    by rewrite (parse_list_again s l ws (λ v w, IH v w Hfixed) Hws).
  - done.
  - rewrite zod_optional in *. by eapply IH.
  - rewrite zod_object in *. destruct v as [| | | | |fields]; try done.
    destruct (parse_shape _ shape fields) as [r|] eqn:Hr; [|done]. simplify_eq/=.
    apply andb_true_iff in Hfixed as [Hnd%bool_decide_eq_true Hall%forallb_Forall].
    rewrite (parse_shape_again shape fields r); [done|done| |done].
    rewrite Forall_forall in *. intros e He v w. apply (IH e He). by apply Hall.
  - rewrite zod_strict_object in Hw. destruct v as [| | | | |fields]; try done.
    destruct (known_keys shape fields); [|done]. specialize (IH _ _ Hfixed Hw).
    rewrite zod_object in Hw. destruct (parse_shape _ shape fields) as [r|] eqn:Hr; [|done].
    injection Hw as <-. rewrite zod_strict_object. by rewrite (parse_shape_known shape fields r).
  - done.
  - rewrite zod_discriminated_union in *.
    destruct (field v key) as [[| | |value| |]|]; try done.
    rewrite parse_discriminated_find in Hw.
    destruct (find_option key value options) as [o|] eqn:Ho; [|done].
    pose proof (find_option_in _ _ _ _ Ho) as [Hin Hd].
    simpl in Hfixed. rewrite forallb_Forall, Forall_forall in Hfixed.
    specialize (Hfixed o Hin). apply andb_true_iff in Hfixed as [Hfo _].
    rewrite (discriminator_kept key value o v w) by done.
    rewrite parse_discriminated_find, Ho. rewrite Forall_forall in IH. by apply (IH o Hin v).
  - done.
Qed.

Lemma plain_shape shape fields r :
  Forall (λ e, negb (JsObject.is_index e.1) && plain_keys e.2 = true) shape →
  parse_shape safeParse shape fields = Some r → Forall (λ f, JsObject.is_index f.1 = false) r.
Proof.
  intros Hplain. revert r. induction Hplain as [|[k s] shape Hk Hplain IH]; intros r Hr; simpl in Hr;
    [by simplify_eq|].
  apply andb_true_iff in Hk as [Hk%negb_true_iff _]. destruct (JsMap.get fields k) as [v|].
  - destruct (safeParse s v) as [w|]; [|done]. simpl in Hr.
    destruct (parse_shape _ shape fields) as [ws|]; [|done]. simplify_eq/=. constructor; auto.
  - destruct (is_optional s); [by apply IH|done].
Qed.

(** A parsed value is determined by its JSON text. *)
Lemma parse_json_ok s v w : fixed s = true → plain_keys s = true → safeParse s v = Some w → json_ok w.
Proof.
  revert v w. induction s as [s Hleaf|s IH|k s IHk IH|s IH|shape IH|shape IH|options IH|key options IH|s IH]
    using schema_ind'; intros v w Hfixed Hplain Hw.
  - destruct s; try done; clear Hfixed Hleaf;
      [rewrite zod_string in *|rewrite zod_non_empty in *|destruct (zod_url _ _ Hw) as [-> [? ->]]; done
      |rewrite zod_int in *|rewrite zod_boolean in *|rewrite zod_literal in *
      |rewrite zod_literal_boolean in *|rewrite zod_enum in *];
      destruct v as [|?|[?|?]|?|?|?]; simplify_eq/=; try done;
      match goal with Hw : (if ?b then _ else _) = _ |- _ => destruct b eqn:Hb end;
      simplify_eq/=; try done.
    unfold in_range in *. bools. lia.
  - rewrite zod_array in *. destruct v as [| | | |l|]; try done.
    destruct (parse_list _ s l) as [ws|] eqn:Hws; [|done]. simplify_eq/=.
    apply json_ok_array. revert ws Hws. induction l as [|v l IHl]; intros ws Hws; simpl in Hws;
      [by simplify_eq|].
    destruct (safeParse s v) as [w|] eqn:Hw; [|done]. simpl in Hws.
    destruct (parse_list _ s l) as [ws'|]; [|done]. simplify_eq/=. constructor; [by eapply IH|].
    by apply IHl.
  - done.
  - rewrite zod_optional in *. by eapply IH.
  - rewrite zod_object in *. destruct v as [| | | | |fields]; try done.
    destruct (parse_shape _ shape fields) as [r|] eqn:Hr; [|done]. simplify_eq/=.
    apply andb_true_iff in Hfixed as [Hnd%bool_decide_eq_true Hall%forallb_Forall].
    apply forallb_Forall in Hplain.
    apply (json_ok_object r). split; [split; [by apply (parse_shape_keys shape fields)|by eapply plain_shape]|].
    clear Hnd. revert r Hr. induction shape as [|[k0 s0] shape IHs]; intros r Hr; simpl in Hr;
      [by simplify_eq|].
    apply Forall_cons in IH as [IH0 IH]. apply Forall_cons in Hall as [Hf0 Hall].
    apply Forall_cons in Hplain as [[_ Hp0]%andb_true_iff Hplain].
    destruct (JsMap.get fields k0) as [v|].
    + destruct (safeParse s0 v) as [w|] eqn:Hw; [|done]. simpl in Hr.
      destruct (parse_shape _ shape fields) as [ws|]; [|done]. simplify_eq/=.
      constructor; [by eapply IH0|by apply IHs].
    + destruct (is_optional s0); [by apply IHs|done].
  - rewrite zod_strict_object in Hw. destruct v as [| | | | |fields]; try done.
    destruct (known_keys shape fields); [|done]. by eapply IH.
  - done.
  - rewrite zod_discriminated_union in *.
    destruct (field v key) as [[| | |value| |]|]; try done.
    rewrite parse_discriminated_find in Hw.
    destruct (find_option key value options) as [o|] eqn:Ho; [|done].
    pose proof (find_option_in _ _ _ _ Ho) as [Hin Hd].
    simpl in Hfixed. rewrite forallb_Forall, Forall_forall in Hfixed.
    specialize (Hfixed o Hin). apply andb_true_iff in Hfixed as [Hfo _].
    simpl in Hplain. rewrite forallb_Forall, Forall_forall in Hplain.
    rewrite Forall_forall in IH. by apply (IH o Hin v w Hfo (Hplain o Hin)).
  - done.
Qed.

(** An object whose fields are those of the shape, in its order, each parsed to itself. *)
Definition fits (shape : list (string * schema)) (fields : list (string * json)) : Prop :=
  Forall2 (λ e f, e.1 = f.1 ∧ safeParse e.2 f.2 = Some f.2) shape fields.

Lemma parse_shape_fits shape fields :
  NoDup shape.*1 → fits shape fields → parse_shape safeParse shape fields = Some fields.
Proof.
  intros Hnd Hfits. induction Hfits as [|[k s] [k' v] shape fields [Hk Hv] _ IH]; [done|].
  simpl in Hk, Hv. subst k'. apply NoDup_cons in Hnd as [Hin Hnd]. cbn [parse_shape JsMap.get].
  rewrite decide_True by done. rewrite Hv. cbn [mbind option_bind].
  rewrite (parse_shape_ext shape fields); [by rewrite IH|].
  intros k' Hk'. cbn [JsMap.get]. rewrite decide_False; [done|]. by intros ->.
Qed.

Lemma parse_strict shape fields :
  NoDup shape.*1 → fits shape fields →
  safeParse (ZStrictObject shape) (JObject fields) = Some (JObject fields).
Proof.
  intros Hnd Hfits. pose proof (parse_shape_fits shape fields Hnd Hfits) as Hr.
  rewrite zod_strict_object, (parse_shape_known shape fields fields Hr), zod_object. by rewrite Hr.
Qed.

End Theory.
