(* ===== verification/PlanTypes.v ===== *)
(** * The data of a runtime plan (packages/integrations-core/src/types/index.ts)

    What an integration definition compiles a binding to, the fragments the
    compiler makes of it, and the plan a sandbox is started from; with the errors
    of the compiler (errors/index.ts) and the launch templates of an agent runtime
    (agent-runtimes/types.ts).  A [Record<string, T>] is an object of JsObject.v, an
    [unknown] a [json].  The [cause] of an error is left out. *)

From S2P Require Import Prelude JsMap JsObject Json Text Locale.
Local Open Scope Z_scope.

(** ** Errors *)

Inductive CompilerErrorCode : Type :=
| CONNECTION_MISMATCH | TARGET_DISABLED | CONNECTION_NOT_ACTIVE | KIND_MISMATCH
| INVALID_TARGET_CONFIG | INVALID_TARGET_SECRETS | INVALID_BINDING_CONFIG
| AGENT_RUNTIME_NOT_FOUND | INVALID_AGENT_RUNTIME_CONFIG
| AGENT_RUNTIME_MCP_TARGET_CLIENT_MISSING | ROUTE_CONFLICT | ARTIFACT_CONFLICT | MCP_CONFLICT
| MCP_INVALID_REF | RUNTIME_CLIENT_SETUP_CONFLICT | RUNTIME_CLIENT_SETUP_INVALID_REF
| AGENT_RUNTIME_CONFLICT.

#[export] Instance CompilerErrorCode_eq_dec : EqDecision CompilerErrorCode.
Proof. solve_decision. Defined.

(** What the compiler throws: an error of its own, one of the registry of definitions, a
    plain [Error], or what a definition it calls has thrown. *)
Inductive PlanError : Type :=
| IntegrationCompilerError (code : CompilerErrorCode) (message : string)
| IntegrationDefinitionRegistryError (message : string)
| PlainError (message : string)
| DefinitionError (message : string).

Definition quote (s : string) : string := "'" +:+ s +:+ "'".

(** ** Integrations *)

Inductive IntegrationKind : Type := KindAgent | KindGit | KindConnector | KindSandbox.
#[export] Instance IntegrationKind_eq_dec : EqDecision IntegrationKind.
Proof. solve_decision. Defined.

Definition kind_value (k : IntegrationKind) : string :=
  match k with
  | KindAgent => "agent" | KindGit => "git" | KindConnector => "connector" | KindSandbox => "sandbox"
  end.

Inductive IntegrationConnectionStatus : Type := ConnectionActive | ConnectionError | ConnectionRevoked.
#[export] Instance IntegrationConnectionStatus_eq_dec : EqDecision IntegrationConnectionStatus.
Proof. solve_decision. Defined.

Record IntegrationTarget : Type := mkTarget {
  target_familyId : string;
  target_variantId : string;
  target_enabled : bool;
  target_config : json;
  target_secrets : json;
}.

Record IntegrationConnection : Type := mkConnection {
  connection_id : string;
  connection_status : IntegrationConnectionStatus;
  connection_externalSubjectId : option string;
  connection_config : json;
}.

Record IntegrationBinding : Type := mkBinding {
  binding_id : string;
  binding_kind : IntegrationKind;
  binding_connectionId : string;
  binding_config : json;
}.

(** ** MCP servers *)

Inductive IntegrationMcpTransport : Type := STREAMABLE_HTTP | STDIO.
#[export] Instance IntegrationMcpTransport_eq_dec : EqDecision IntegrationMcpTransport.
Proof. solve_decision. Defined.

Definition transport_value (t : IntegrationMcpTransport) : string :=
  match t with STREAMABLE_HTTP => "streamable-http" | STDIO => "stdio" end.

Record IntegrationMcpServer : Type := mkMcpServer {
  serverId : string;
  serverName : string;
  mcp_transport : IntegrationMcpTransport;
  mcp_description : option string;
  mcp_url : option string;
  mcp_command : option string;
  mcp_args : option (list string);
  mcp_env : option (JsMap.t string string);
  mcp_httpHeaders : option (JsMap.t string string);
}.

Inductive ResolvedIntegrationMcpServerSource : Type :=
| IntegrationSource (bindingId connectionId targetKey familyId variantId : string)
| MistleSource.

Record ResolvedIntegrationMcpServer : Type := mkResolvedServer {
  mcp_source : ResolvedIntegrationMcpServerSource;
  mcp_server : IntegrationMcpServer;
}.

Inductive IntegrationMcpConfigFormat : Type := TOML | JSON.
#[export] Instance IntegrationMcpConfigFormat_eq_dec : EqDecision IntegrationMcpConfigFormat.
Proof. solve_decision. Defined.

Record IntegrationMcpConfig : Type := mkMcpConfig {
  mcpConfig_clientId : string;
  mcpConfig_fileId : string;
  mcpConfig_format : IntegrationMcpConfigFormat;
  mcpConfig_path : list string;
}.

(** ** Egress routes *)

Inductive EgressCredentialResolverRef : Type :=
| IntegrationConnectionResolver (connectionId secretType : string) (slotKey resolverKey : option string)
| LinkedPrincipalResolver (providerFamily : string) (integrationConnectionId credentialKind : option string)
    (actingUserRequired : bool) (resolutionRequired : bool)
| MistleMcpTokenResolver (apiKeyId : string)
| MistleMcpSetupAssistantTokenResolver (sandboxProfileId : string) (sandboxProfileVersion : number)
| MistleMcpDesignerTokenResolver (designerSessionId : string)
| PlatformOpenAiApiKeyResolver
| PlatformLangfuseSecretKeyResolver.

Inductive AuthInjection : Type :=
| AuthBearer (target : string)
| AuthBasic (target : string) (username : option string)
| AuthHeader (target : string) (credentialPrefix : option string)
| AuthQuery (target : string)
| AuthPathSegmentPrefix (segmentPrefix : string)
| AuthAwsSigv4 (service region : string).

(** What a definition compiles; the compiler adds the identifiers. *)
Record CompileBindingEgressRoute : Type := mkBindingRoute {
  match_hosts : list string;
  match_pathPrefixes : option (list string);
  match_methods : option (list string);
  upstream_baseUrl : string;
  authInjection : AuthInjection;
  additionalHeaders : option (JsMap.t string string);
  additionalCredentialHeaders : option (list (string * EgressCredentialResolverRef));
  credentialResolver : EgressCredentialResolverRef;
  requestMiddleware : option (list string);
}.

Record EgressCredentialRoute : Type := mkRoute {
  egressRuleId : string;
  route_bindingId : string;
  route_familyId : string;
  route_variantId : string;
  route_body : CompileBindingEgressRoute;
}.

(** ** Artifacts *)

Record RuntimeExecCommand : Type := mkExec {
  exec_args : list string;
  exec_env : option (JsMap.t string string);
  exec_cwd : option string;
  exec_timeoutMs : option number;
}.

Inductive RuntimeArtifactGitHubReleaseSelector : Type :=
| ReleaseLatest
| ReleaseTagExact (tag : string)
| ReleaseTagPrefix (prefix : string).

(** [extractedPath] is [None] when the property is absent. *)
Inductive AssetFormat : Type := BinaryAsset | TarGzAsset (extractedPath : option string).

Record RuntimeArtifactGitHubReleaseInstallAssetShape : Type := mkAsset {
  asset_fileName : string;
  asset_format : AssetFormat;
  asset_sha256 : option string;
}.

Inductive RuntimeArtifactGitHubReleaseInstallAsset : Type :=
| AssetExact (asset : RuntimeArtifactGitHubReleaseInstallAssetShape)
| AssetByArch (x86_64 aarch64 : RuntimeArtifactGitHubReleaseInstallAssetShape).

Inductive RuntimeArtifactInstallStep : Type :=
| StepGitHubReleaseInstall (repository : string) (release : RuntimeArtifactGitHubReleaseSelector)
    (asset : RuntimeArtifactGitHubReleaseInstallAsset) (installPath : string) (timeoutMs : option number)
| StepMiseInstall (tools : list string) (force : option bool) (timeoutMs : option number)
| StepExec (command : RuntimeExecCommand).

Record CompiledRuntimeArtifactSpec : Type := mkArtifact {
  artifactKey : string;
  artifact_name : string;
  artifact_description : option string;
  artifact_env : option (JsMap.t string string);
  artifact_install : list RuntimeArtifactInstallStep;
}.

(** ** Runtime clients *)

Inductive RuntimeFileWriteMode : Type := OVERWRITE | IF_ABSENT | MERGE.
#[export] Instance RuntimeFileWriteMode_eq_dec : EqDecision RuntimeFileWriteMode.
Proof. solve_decision. Defined.

Record RuntimeClientSetupFile : Type := mkFile {
  fileId : string;
  file_path : string;
  file_mode : number;
  file_content : string;
  file_writeMode : option RuntimeFileWriteMode;
}.

Record RuntimeClientSetup : Type := mkSetup {
  setup_env : JsMap.t string string;
  setup_files : list RuntimeClientSetupFile;
  setup_launchArgs : option (list string);
}.

Inductive RuntimeClientProcessReadiness : Type :=
| ReadinessNone
| ReadinessTcp (host : string) (port timeoutMs : number)
| ReadinessWs (url : string) (timeoutMs : number)
| ReadinessHttp (url : string) (expectedStatus timeoutMs : number).

Inductive StopSignal : Type := Sigterm | Sigkill.
#[export] Instance StopSignal_eq_dec : EqDecision StopSignal.
Proof. solve_decision. Defined.

Record RuntimeClientProcessStopPolicy : Type := mkStop {
  stop_signal : StopSignal;
  stop_timeoutMs : number;
  stop_gracePeriodMs : option number;
}.

Record RuntimeClientProcessSpec : Type := mkProcess {
  processKey : string;
  process_command : RuntimeExecCommand;
  process_readiness : RuntimeClientProcessReadiness;
  process_stop : RuntimeClientProcessStopPolicy;
}.

Inductive ConnectionMode : Type := Dedicated | Shared.
#[export] Instance ConnectionMode_eq_dec : EqDecision ConnectionMode.
Proof. solve_decision. Defined.

(** The transport is always a [ws] one. *)
Record RuntimeClientEndpointSpec : Type := mkEndpoint {
  endpointKey : string;
  endpoint_url : string;
  endpoint_processKey : option string;
  endpoint_connectionMode : ConnectionMode;
}.

Record RuntimeClient : Type := mkClient {
  clientId : string;
  client_setup : RuntimeClientSetup;
  client_processes : list RuntimeClientProcessSpec;
  client_endpoints : list RuntimeClientEndpointSpec;
}.

(** ** Agent runtimes *)

Inductive AgentPtyLaunchArgument : Type := LiteralArgument (value : string) | ThreadIdArgument.

Record AgentPtyLaunchTemplate : Type := mkTemplate {
  ptySessionId : string;
  template_cols : number;
  template_rows : number;
  template_cwd : option string;
  template_command : string;
  template_args : list AgentPtyLaunchArgument;
}.

Record AgentPtyLaunchSpec : Type := mkLaunch {
  launch_runtimeId : string;
  launch_displayName : string;
  newLaunch : AgentPtyLaunchTemplate;
  resumeLaunch : AgentPtyLaunchTemplate;
}.

Inductive CreateConversationRetryPolicy : Type := RetryIdempotent | RetrySingleAttempt.

Record AgentRuntimeCapabilities : Type := mkCapabilities {
  associatedResourceDelivery : bool;
  conversationDelivery : option (string * CreateConversationRetryPolicy);
}.

Record CompiledAgentRuntime : Type := mkAgentRuntime {
  agent_runtimeId : string;
  runtimeKey : string;
  agent_clientId : string;
  agent_endpointKey : string;
  ptyLaunch : AgentPtyLaunchSpec;
  agent_capabilities : option AgentRuntimeCapabilities;
}.

(** ** Fragments and plans *)

Record CompiledWorkspaceSource : Type := mkSource {
  source_path : string;
  source_originUrl : string;
}.

Record CompiledRuntimePlanFragment : Type := mkFragment {
  egressRoutes : list EgressCredentialRoute;
  artifacts : list CompiledRuntimeArtifactSpec;
  runtimeClients : list RuntimeClient;
  workspaceSources : list CompiledWorkspaceSource;
  agentRuntimes : list CompiledAgentRuntime;
}.

Inductive ResolvedSandboxImage : Type := BaseImage (imageRef : string) | SnapshotImage (imageRef : string).

Inductive SlackThreadMessageMode : Type := MessageModeAll | MessageModeAppMentionsOnly.

Record AssociatedResourceEventRoutingResourceRule : Type := mkResourceRule {
  rule_resourceKind : string;
  rule_eventTypes : list string;
  rule_messageMode : option SlackThreadMessageMode;
  rule_payloadFilter : option (JsMap.t string json);
  rule_config : option (JsMap.t string json);
}.

Record AssociatedResourceEventRouting : Type := mkRouting {
  routing_enabled : bool;
  routing_resources : list AssociatedResourceEventRoutingResourceRule;
}.

Record CompiledRuntimePlan : Type := mkPlan {
  plan_sandboxProfileId : string;
  plan_version : number;
  plan_image : ResolvedSandboxImage;
  plan_egressRoutes : list EgressCredentialRoute;
  plan_artifacts : list CompiledRuntimeArtifactSpec;
  plan_workspaceSources : list CompiledWorkspaceSource;
  plan_runtimeClients : list RuntimeClient;
  plan_agentRuntimes : list CompiledAgentRuntime;
  plan_associatedResourceEventRouting : AssociatedResourceEventRouting;
}.

(** ** Comparisons shared by the validation and the assembly *)

(** [stringArrayEquals] *)
Definition stringArrayEquals (left right : list string) : bool := left =?= right.

(** [stringRecordEquals]: the same number of entries, and every entry of [left] in [right]. *)
Definition stringRecordEquals (left right : option (JsMap.t string string)) : bool :=
  match left, right with
  | Some l, Some r =>
      (length l =? length r)%nat && forallb (λ e, JsMap.get r e.1 =?= Some e.2) l
  | None, None => true
  | _, _ => false
  end.

Definition runtimeExecCommandEquals (left right : RuntimeExecCommand) : bool :=
  stringArrayEquals left.(exec_args) right.(exec_args)
  && stringRecordEquals left.(exec_env) right.(exec_env)
  && (left.(exec_cwd) =?= right.(exec_cwd))
  && optional_number_equal left.(exec_timeoutMs) right.(exec_timeoutMs).

Definition runtimeClientProcessReadinessEquals (left right : RuntimeClientProcessReadiness) : bool :=
  match left, right with
  | ReadinessNone, ReadinessNone => true
  | ReadinessTcp h p t, ReadinessTcp h' p' t' => (h =?= h') && number_equal p p' && number_equal t t'
  | ReadinessWs u t, ReadinessWs u' t' => (u =?= u') && number_equal t t'
  | ReadinessHttp u s t, ReadinessHttp u' s' t' =>
      (u =?= u') && number_equal s s' && number_equal t t'
  | _, _ => false
  end.

Definition runtimeClientProcessStopPolicyEquals (left right : RuntimeClientProcessStopPolicy) : bool :=
  (left.(stop_signal) =?= right.(stop_signal))
  && number_equal left.(stop_timeoutMs) right.(stop_timeoutMs)
  && optional_number_equal left.(stop_gracePeriodMs) right.(stop_gracePeriodMs).

Definition runtimeClientProcessSpecEquals (left right : RuntimeClientProcessSpec) : bool :=
  runtimeExecCommandEquals left.(process_command) right.(process_command)
  && runtimeClientProcessReadinessEquals left.(process_readiness) right.(process_readiness)
  && runtimeClientProcessStopPolicyEquals left.(process_stop) right.(process_stop).

Definition runtimeClientEndpointSpecEquals (left right : RuntimeClientEndpointSpec) : bool :=
  (left.(endpoint_connectionMode) =?= right.(endpoint_connectionMode))
  && (left.(endpoint_processKey) =?= right.(endpoint_processKey))
  && (left.(endpoint_url) =?= right.(endpoint_url)).

(** ** Launching an agent runtime (agent-runtimes/pty-launch.ts) *)

Record ResolvedLaunch : Type := mkResolvedLaunch {
  resolved_ptySessionId : string;
  resolved_cols : number;
  resolved_rows : number;
  resolved_cwd : option string;
  resolved_command : string;
  resolved_args : list string;
}.

Definition materializeAgentPtyLaunchArgs (template : AgentPtyLaunchTemplate) (threadId : option string)
    : PlanError + list string :=
  try_map (λ argument, match argument with
    | LiteralArgument value => inr value
    | ThreadIdArgument =>
        match threadId with
        | None => inl (PlainError "threadId is required to materialize a resume PTY launch template.")
        | Some id => inr id
        end
    end) template.(template_args).

Definition resolveAgentPtyLaunchTemplate (launch : AgentPtyLaunchSpec) (threadId : option string)
    : PlanError + ResolvedLaunch :=
  let template := match threadId with None => launch.(newLaunch) | Some _ => launch.(resumeLaunch) end in
  args ← materializeAgentPtyLaunchArgs template threadId;
  inr (mkResolvedLaunch template.(ptySessionId) template.(template_cols) template.(template_rows)
         template.(template_cwd) template.(template_command) args).
