(* ===== verification/PlanExample.v ===== *)
(** * A small profile, for the examples of the runtime plan files

    An integration with two egress routes, an artifact and a workspace source, and an agent
    runtime with a client of one process and one endpoint. *)

From S2P Require Import Prelude JsMap JsObject Json DataFrame Text Locale PlanTypes.
Local Open Scope Z_scope.

Definition example_body (methods : list string) (pathPrefix : string) : CompileBindingEgressRoute :=
  mkBindingRoute ["api.github.com"] (Some [pathPrefix]) (Some methods) "https://api.github.com"
    (AuthBearer "authorization") None None PlatformOpenAiApiKeyResolver None.
Definition example_read : CompileBindingEgressRoute := example_body ["GET"] "/repos".
Definition example_write : CompileBindingEgressRoute := example_body ["POST"; "PATCH"] "/repos/issues".

Definition example_routes : list EgressCredentialRoute :=
  [mkRoute "egress_rule_bnd_1" "bnd_1" "github" "cloud" example_read;
   mkRoute "egress_rule_bnd_1_2" "bnd_1" "github" "cloud" example_write].

Definition example_artifact : CompiledRuntimeArtifactSpec :=
  mkArtifact "gh" "GitHub CLI" None None [StepExec (mkExec ["apt-get"; "install"; "gh"] None None None)].

Definition example_source : CompiledWorkspaceSource := mkSource "/root/repo" "https://github.com/acme/repo".

Definition example_fragment : CompiledRuntimePlanFragment :=
  mkFragment example_routes [example_artifact] [] [example_source] [].

Definition example_process : RuntimeClientProcessSpec :=
  mkProcess "app-server" (mkExec ["codex"; "app-server"] None None None)
    (ReadinessWs "ws://127.0.0.1:4500/" (Int 5000)) (mkStop Sigterm (Int 10000) None).
Definition example_endpoint : RuntimeClientEndpointSpec :=
  mkEndpoint "app-server" "ws://127.0.0.1:4500/" (Some "app-server") Dedicated.
Definition example_file (content : string) : RuntimeClientSetupFile :=
  mkFile "config" "/root/.codex/config.json" (Int 384) content None.
Definition example_client (content : string) : RuntimeClient :=
  mkClient "codex" (mkSetup [("CODEX_HOME", "/root/.codex")] [example_file content] None)
    [example_process] [example_endpoint].

Definition example_template (args : list AgentPtyLaunchArgument) : AgentPtyLaunchTemplate :=
  mkTemplate "codex" (Int 120) (Int 40) None "codex" args.
Definition example_launch : AgentPtyLaunchSpec :=
  mkLaunch "codex" "Codex" (example_template []) (example_template [LiteralArgument "resume"; ThreadIdArgument]).
Definition example_runtime : CompiledAgentRuntime :=
  mkAgentRuntime "codex" "codex" "codex" "app-server" example_launch None.

Definition example_runtime_fragment : CompiledRuntimePlanFragment :=
  mkFragment [] [] [example_client "{}"] [] [example_runtime].

Definition example_fragments : list CompiledRuntimePlanFragment := [example_fragment; example_runtime_fragment].

Definition example_routing : AssociatedResourceEventRouting := mkRouting false [].

(** The plan of the fragments. *)
Definition example_plan : CompiledRuntimePlan :=
  mkPlan "sbp_1" (Int 1) (BaseImage "image") example_routes [example_artifact] [example_source]
    [example_client "{}"] [example_runtime] example_routing.

Definition example_method (method : string) : list EgressCredentialRoute :=
  List.filter (λ r, bool_decide (method ∈ default [] r.(route_body).(match_methods))) example_routes.
