(* ===== verification/EgressRoutes.v ===== *)
(** * Egress routes (packages/integrations-core/src/egress/index.ts)

    The routes of a sandbox's egress proxy: when a route matches a request, when two
    routes overlap, and which route a request is sent by.  The theorems: routes that
    do not overlap never match the same request ([routes_disjoint]), and
    [resolveRouteForRequest] finds the most specific route that matches. *)

From S2P Require Import Prelude JsMap JsObject Json DataFrame Text Locale PlanTypes PlanExample.
Local Open Scope Z_scope.

Definition slash : Ascii.ascii := Ascii.ascii_of_nat 47.

Record EgressRequest : Type := mkRequest {
  request_host : string;
  request_path : string;
  request_method : string;
}.

Section Routes.
Context `{Locale}.

Definition normalizeRoutePathPrefix (pathPrefix : string) : PlanError + string :=
  let normalizedPathPrefix := trim pathPrefix in
  if normalizedPathPrefix =?= "" then inl (PlainError "Route path prefix must be non-empty.")
  else if negb (starts_with normalizedPathPrefix "/")
  then inl (PlainError "Route path prefix must start with '/'.")
  else if normalizedPathPrefix =?= "/" then inr "/"
  else if ends_with normalizedPathPrefix slash then inr (drop_last normalizedPathPrefix)
  else inr normalizedPathPrefix.

Definition resolveRoutePathPrefixFromBaseUrl `{Urls} (baseUrl : string) : PlanError + string :=
  match URL_parse baseUrl with
  | None => inl (PlainError "Invalid URL")
  | Some (_, pathname) => normalizeRoutePathPrefix pathname
  end.

Definition joinRoutePathPrefixes (basePathPrefix pathPrefix : string) : PlanError + string :=
  normalizedBasePathPrefix ← normalizeRoutePathPrefix basePathPrefix;
  normalizedPathPrefix ← normalizeRoutePathPrefix pathPrefix;
  if normalizedBasePathPrefix =?= "/" then inr normalizedPathPrefix
  else if normalizedPathPrefix =?= "/" then inr normalizedBasePathPrefix
  else inr (normalizedBasePathPrefix +:+ normalizedPathPrefix).

Definition normalizeHost (host : string) : PlanError + string :=
  let normalized := toLowerCase (trim host) in
  if normalized =?= "" then inl (PlainError "Egress request host must be non-empty.")
  else inr normalized.

Definition normalizeMethod (method : string) : PlanError + string :=
  let normalized := toUpperCase (trim method) in
  if normalized =?= "" then inl (PlainError "Egress request method must be non-empty.")
  else inr normalized.

Definition normalizePath (path : string) : PlanError + string :=
  if path =?= "" then inl (PlainError "Egress request path must be non-empty.")
  else if starts_with path "/" then inr path
  else inr ("/" +:+ path).

Definition hasHostOverlap (leftHosts rightHosts : list string) : bool :=
  existsb (λ leftHost, bool_decide (toLowerCase leftHost ∈ toLowerCase <$> rightHosts)) leftHosts.

Definition hasMethodOverlap (leftMethods rightMethods : option (list string)) : bool :=
  match leftMethods, rightMethods with
  | Some ls, Some rs => existsb (λ l, bool_decide (toUpperCase l ∈ toUpperCase <$> rs)) ls
  | _, _ => true
  end.

Definition pathBelongsToPrefix (path pathPrefix : string) : PlanError + bool :=
  normalizedPath ← normalizePath path;
  normalizedPathPrefix ← normalizeRoutePathPrefix pathPrefix;
  inr ((normalizedPathPrefix =?= "/") || (normalizedPath =?= normalizedPathPrefix)
       || starts_with normalizedPath (normalizedPathPrefix +:+ "/")).

(** [||] with an operand that may throw *)
Definition prefixes_overlap (leftPrefix rightPrefix : string) : PlanError + bool :=
  belongs ← pathBelongsToPrefix leftPrefix rightPrefix;
  if belongs : bool then inr true else pathBelongsToPrefix rightPrefix leftPrefix.

Definition hasPathPrefixOverlap (leftPathPrefixes rightPathPrefixes : option (list string))
    : PlanError + bool :=
  match leftPathPrefixes, rightPathPrefixes with
  | Some ls, Some rs => try_some (λ l, try_some (prefixes_overlap l) rs) ls
  | _, _ => inr true
  end.

Definition getLongestPathPrefixLength (route : EgressCredentialRoute) : Z :=
  foldl (λ longestLength pathPrefix,
           if longestLength <? string_length pathPrefix then string_length pathPrefix else longestLength)
    0 (default [] route.(route_body).(match_pathPrefixes)).

Definition matchesRoute (route : EgressCredentialRoute) (request : EgressRequest) : PlanError + bool :=
  let m := route.(route_body) in
  normalizedHost ← normalizeHost request.(request_host);
  normalizedMethod ← normalizeMethod request.(request_method);
  normalizedPath ← normalizePath request.(request_path);
  if negb (existsb (λ host, toLowerCase host =?= normalizedHost) m.(match_hosts)) then inr false
  else if match m.(match_methods) with
          | None => false
          | Some methods => negb (bool_decide (normalizedMethod ∈ toUpperCase <$> methods))
          end then inr false
  else match m.(match_pathPrefixes) with
       | None => inr true
       | Some pathPrefixes => try_some (pathBelongsToPrefix normalizedPath) pathPrefixes
       end.

(** [&&] with a last operand that may throw *)
Definition routesOverlap (l r : EgressCredentialRoute) : PlanError + bool :=
  let lm := l.(route_body) in
  let rm := r.(route_body) in
  if hasHostOverlap lm.(match_hosts) rm.(match_hosts)
     && hasMethodOverlap lm.(match_methods) rm.(match_methods)
  then hasPathPrefixOverlap lm.(match_pathPrefixes) rm.(match_pathPrefixes)
  else inr false.

(** The comparison [orderRoutesForMatching] sorts by. *)
Definition compareRoutes (l r : EgressCredentialRoute) : Z :=
  let lm := l.(route_body) in
  let rm := r.(route_body) in
  let leftHostSpecificity := Z.of_nat (length lm.(match_hosts)) in
  let rightHostSpecificity := Z.of_nat (length rm.(match_hosts)) in
  if negb (leftHostSpecificity =? rightHostSpecificity) then leftHostSpecificity - rightHostSpecificity
  else
    let leftHasMethods := bool_decide (is_Some lm.(match_methods)) in
    let rightHasMethods := bool_decide (is_Some rm.(match_methods)) in
    if negb (leftHasMethods =?= rightHasMethods) then (if leftHasMethods then -1 else 1)
    else
      let rest :=
        let leftLongestPathPrefix := getLongestPathPrefixLength l in
        let rightLongestPathPrefix := getLongestPathPrefixLength r in
        if negb (leftLongestPathPrefix =? rightLongestPathPrefix)
        then rightLongestPathPrefix - leftLongestPathPrefix
        else localeCompare l.(egressRuleId) r.(egressRuleId) in
      match lm.(match_methods), rm.(match_methods) with
      | Some ls, Some rs =>
          if negb (length ls =? length rs)%nat then Z.of_nat (length ls) - Z.of_nat (length rs) else rest
      | _, _ => rest
      end.

Definition orderRoutesForMatching : list EgressCredentialRoute → list EgressCredentialRoute :=
  sort compareRoutes.

(** [for (const route of orderedRoutes) { if (matchesRoute(...)) return route; }] *)
Fixpoint first_match (request : EgressRequest) (l : list EgressCredentialRoute)
    : PlanError + option EgressCredentialRoute :=
  match l with
  | [] => inr None
  | route :: l =>
      b ← matchesRoute route request;
      if b : bool then inr (Some route) else first_match request l
  end.

Definition resolveRouteForRequest (routes : list EgressCredentialRoute) (request : EgressRequest)
    : PlanError + option EgressCredentialRoute :=
  first_match request (orderRoutesForMatching routes).

(** ** Which routes match *)

(** The white space around a path prefix is cut off when it is matched, but not when it is
    compared as the path of another route. *)
Definition trimmed_prefixes (route : EgressCredentialRoute) : Prop :=
  Forall (λ p, trim p = p) (default [] route.(route_body).(match_pathPrefixes)).

(** A path prefix without the slash it may end with. *)
Lemma normalize_trimmed p q :
  trim p = p → normalizeRoutePathPrefix p = inr q →
  (∃ t, p = "/" +:+ t) ∧ (q = "/" ∨ (p = q ∨ p = q +:+ "/")).
Proof.
  intros Htrim. unfold normalizeRoutePathPrefix. rewrite Htrim.
  case_bool_decide; [done|]. destruct (starts_with p "/") eqn:Hs; [|done]. cbn [negb].
  apply starts_with_spec in Hs as [t Ht]. intros Hq. split; [by exists t|].
  case_bool_decide; [naive_solver|]. destruct (ends_with p slash) eqn:He; [|naive_solver].
  apply ends_with_spec in He. injection Hq as <-. auto.
Qed.

Lemma normalizePath_absolute t : normalizePath ("/" +:+ t) = inr ("/" +:+ t).
Proof.
  unfold normalizePath. rewrite bool_decide_false by done.
  assert (starts_with ("/" +:+ t) "/" = true) as -> by (apply starts_with_spec; by exists t). done.
Qed.

(** What it means for a path to belong to a prefix other than ["/"]. *)
Lemma belongs_spec n p q b :
  normalizePath n = inr n → normalizeRoutePathPrefix p = inr q → pathBelongsToPrefix n p = inr b →
  b = true ↔ q = "/" ∨ ∃ t, n +:+ "/" = q +:+ "/" +:+ t.
Proof.
  intros Hn Hq. unfold pathBelongsToPrefix. rewrite Hn, Hq. cbn [mbind sum_bind]. intros [= <-].
  rewrite !orb_true_iff, !bool_decide_eq_true, starts_with_spec. split.
  - intros [[->| ->]|[t ->]]; [by left|right; exists ""|right; exists (t +:+ "/")].
    + done.
    + by rewrite !string_app_assoc.
  - intros [->|[t Ht]]; [by left; left|]. destruct (string_last t) as [->|(t' & c & ->)].
    + rewrite string_app_nil_r in Ht. apply string_app_inj_r in Ht as [-> _]. by left; right.
    + right. rewrite <- !string_app_assoc in Ht. apply string_app_inj_r in Ht as [-> _].
      by exists t'.
Qed.

(** Every path belongs to a normalized ["/"]; otherwise two prefixes of a path are nested, and
    the longer one belongs to the shorter one. *)
Lemma common_path n p1 p2 q1 q2 :
  trim p1 = p1 → trim p2 = p2 →
  normalizeRoutePathPrefix p1 = inr q1 → normalizeRoutePathPrefix p2 = inr q2 →
  (q1 = "/" ∨ ∃ t, n +:+ "/" = q1 +:+ "/" +:+ t) →
  (q2 = "/" ∨ ∃ t, n +:+ "/" = q2 +:+ "/" +:+ t) →
  pathBelongsToPrefix p1 p2 = inr true ∨ pathBelongsToPrefix p2 p1 = inr true.
Proof.
  intros Ht1 Ht2 Hq1 Hq2 Hn1 Hn2.
  destruct (normalize_trimmed _ _ Ht1 Hq1) as [[s1 Hs1] Hp1].
  destruct (normalize_trimmed _ _ Ht2 Hq2) as [[s2 Hs2] Hp2].
  assert (normalizePath p1 = inr p1) as Hpath1 by (rewrite Hs1; apply normalizePath_absolute).
  assert (normalizePath p2 = inr p2) as Hpath2 by (rewrite Hs2; apply normalizePath_absolute).
  assert (∀ a b, normalizePath a = inr a → (∃ c, normalizeRoutePathPrefix b = inr c) →
    ∃ x, pathBelongsToPrefix a b = inr x) as Hdef.
  { intros a b Ha [c Hb]. unfold pathBelongsToPrefix. rewrite Ha, Hb. eexists. reflexivity. }
  destruct (Hdef p1 p2 Hpath1 (ex_intro _ _ Hq2)) as [b1 Hb1].
  destruct (Hdef p2 p1 Hpath2 (ex_intro _ _ Hq1)) as [b2 Hb2].
  pose proof (belongs_spec p1 p2 q2 b1 Hpath1 Hq2 Hb1) as Hspec1.
  pose proof (belongs_spec p2 p1 q1 b2 Hpath2 Hq1 Hb2) as Hspec2.
  rewrite Hb1, Hb2.
  assert (∀ p q q', (q = "/" ∨ p = q ∨ p = q +:+ "/") → (∃ u, q +:+ "/" = (q' +:+ "/") +:+ u) →
    q = "/" ∨ ∃ t, p +:+ "/" = q' +:+ "/" +:+ t) as Hnest.
  { intros p q q' [->|[->| ->]] [u Hu]; [by left|right..].
    - exists u. by rewrite Hu, string_app_assoc.
    - exists (u +:+ "/"). rewrite Hu. by rewrite !string_app_assoc. }
  assert (b1 = true ∨ b2 = true) as [->| ->]; [|by left|by right].
  rewrite Hspec1, Hspec2. destruct Hn1 as [->|[t1 Hn1]]; [by right; left|].
  destruct Hn2 as [->|[t2 Hn2]]; [by left; left|].
  rewrite <- string_app_assoc in Hn1, Hn2. rewrite Hn2 in Hn1. symmetry in Hn1.
  apply prefix_comparable in Hn1 as [Hu|Hu].
  - destruct (Hnest p2 q2 q1 Hp2 Hu) as [->|]; [by left; left|by right; right].
  - destruct (Hnest p1 q1 q2 Hp1 Hu) as [->|]; [by right; left|by left; right].
Qed.

Lemma belongs_defined n p b :
  pathBelongsToPrefix n p = inr b →
  ∃ m q, normalizePath n = inr m ∧ normalizeRoutePathPrefix p = inr q.
Proof.
  unfold pathBelongsToPrefix. intros (m & Hm & (q & Hq & _)%sum_bind_inr)%sum_bind_inr. by exists m, q.
Qed.

Lemma normalizePath_idem n m : normalizePath n = inr m → normalizePath m = inr m.
Proof.
  unfold normalizePath at 1. case_bool_decide; [done|]. destruct (starts_with n "/") eqn:Hs; intros [= <-].
  - apply starts_with_spec in Hs as [t ->]. apply normalizePath_absolute.
  - apply normalizePath_absolute.
Qed.

(** Prefixes that do not overlap have no path in common. *)
Lemma prefixes_disjoint n p1 p2 :
  normalizePath n = inr n → trim p1 = p1 → trim p2 = p2 → prefixes_overlap p1 p2 = inr false →
  pathBelongsToPrefix n p1 = inr true → pathBelongsToPrefix n p2 = inr true → False.
Proof.
  intros Hn Ht1 Ht2 Hover H1 H2.
  destruct (belongs_defined _ _ _ H1) as (_ & q1 & _ & Hq1).
  destruct (belongs_defined _ _ _ H2) as (_ & q2 & _ & Hq2).
  pose proof (proj1 (belongs_spec n p1 q1 true Hn Hq1 H1) eq_refl) as Hn1.
  pose proof (proj1 (belongs_spec n p2 q2 true Hn Hq2 H2) eq_refl) as Hn2.
  unfold prefixes_overlap in Hover.
  destruct (common_path n p1 p2 q1 q2 Ht1 Ht2 Hq1 Hq2 Hn1 Hn2) as [Hb|Hb].
  - by rewrite Hb in Hover.
  - destruct (pathBelongsToPrefix p1 p2) as [|[]]; try done. cbn in Hover. congruence.
Qed.

(** What a route that matches has of the request. *)
Lemma matches_inv (route : EgressCredentialRoute) (request : EgressRequest) h m n :
  normalizeHost request.(request_host) = inr h → normalizeMethod request.(request_method) = inr m →
  normalizePath request.(request_path) = inr n → matchesRoute route request = inr true →
  h ∈ toLowerCase <$> route.(route_body).(match_hosts) ∧
  (∀ methods, route.(route_body).(match_methods) = Some methods → m ∈ toUpperCase <$> methods) ∧
  (∀ prefixes, route.(route_body).(match_pathPrefixes) = Some prefixes →
     ∃ p, p ∈ prefixes ∧ pathBelongsToPrefix n p = inr true).
Proof.
  intros Hh Hm Hn. unfold matchesRoute. rewrite Hh, Hm, Hn. cbn [mbind sum_bind].
  destruct (existsb _ (match_hosts (route_body route))) eqn:Hhost; [|done]. cbn [negb].
  destruct (match match_methods (route_body route) with None => false | Some _ => _ end) eqn:Hmethods;
    [done|]. intros Hmatch. split; [|split].
  - apply List.existsb_exists in Hhost as (host & Hin & Heq). apply bool_decide_eq_true in Heq.
    apply list_elem_of_fmap. exists host. by rewrite list_elem_of_In.
  - intros methods Hsome. rewrite Hsome in Hmethods. by apply negb_false_iff, bool_decide_eq_true in Hmethods.
  - intros prefixes Hsome. rewrite Hsome in Hmatch. by apply try_some_true.
Qed.

Lemma hasHostOverlap_common h ls rs :
  h ∈ toLowerCase <$> ls → h ∈ toLowerCase <$> rs → hasHostOverlap ls rs = true.
Proof.
  intros (l & -> & Hl)%list_elem_of_fmap Hr. apply List.existsb_exists. exists l.
  split; [by apply list_elem_of_In|by apply bool_decide_eq_true].
Qed.

Lemma hasMethodOverlap_common m lm rm :
  (∀ ls, lm = Some ls → m ∈ toUpperCase <$> ls) → (∀ rs, rm = Some rs → m ∈ toUpperCase <$> rs) →
  hasMethodOverlap lm rm = true.
Proof.
  intros Hl Hr. destruct lm as [ls|], rm as [rs|]; try done.
  destruct (proj1 (list_elem_of_fmap _ _ _) (Hl ls eq_refl)) as (l & -> & Hin).
  apply List.existsb_exists. exists l. split; [by apply list_elem_of_In|].
  by apply bool_decide_eq_true, Hr.
Qed.

(** Routes that do not overlap never match the same request. *)
Lemma routes_disjoint (l r : EgressCredentialRoute) (request : EgressRequest) :
  routesOverlap l r = inr false → trimmed_prefixes l → trimmed_prefixes r →
  matchesRoute l request = inr true → matchesRoute r request = inr true → False.
Proof.
  intros Hover Htl Htr Hl Hr.
  assert (∃ h m n, normalizeHost request.(request_host) = inr h ∧
    normalizeMethod request.(request_method) = inr m ∧ normalizePath request.(request_path) = inr n)
    as (h & m & n & Hh & Hm & Hn).
  { unfold matchesRoute in Hl.
    apply sum_bind_inr in Hl as (h & Hh & (m & Hm & (n & Hn & _)%sum_bind_inr)%sum_bind_inr).
    by exists h, m, n. }
  destruct (matches_inv _ _ _ _ _ Hh Hm Hn Hl) as (Hl1 & Hl2 & Hl3).
  destruct (matches_inv _ _ _ _ _ Hh Hm Hn Hr) as (Hr1 & Hr2 & Hr3).
  unfold routesOverlap in Hover.
  rewrite (hasHostOverlap_common h), (hasMethodOverlap_common m) in Hover by done.
  cbn [andb] in Hover. unfold hasPathPrefixOverlap, trimmed_prefixes in *.
  destruct (match_pathPrefixes (route_body l)) as [lp|]; [|done].
  destruct (match_pathPrefixes (route_body r)) as [rp|]; [|done].
  destruct (Hl3 lp eq_refl) as (p1 & Hp1 & Hb1). destruct (Hr3 rp eq_refl) as (p2 & Hp2 & Hb2).
  apply try_some_inr in Hover. rewrite Forall_forall in Hover. specialize (Hover p1 Hp1).
  apply try_some_inr in Hover. rewrite Forall_forall in Hover. specialize (Hover p2 Hp2).
  cbn [default] in Htl, Htr. rewrite Forall_forall in Htl, Htr.
  apply (prefixes_disjoint n p1 p2); auto. by eapply normalizePath_idem.
Qed.

(** ** The order of the routes *)

Lemma compareRoutes_eq l r :
  compareRoutes l r =
    then_by (λ l r, Z.of_nat (length l.(route_body).(match_hosts)) - Z.of_nat (length r.(route_body).(match_hosts)))
      (then_by (λ l r, (if match_methods l.(route_body) then 0 else 1) - (if match_methods r.(route_body) then 0 else 1))
         (then_by (λ l r, Z.of_nat (length (default [] l.(route_body).(match_methods)))
                          - Z.of_nat (length (default [] r.(route_body).(match_methods))))
            (then_by (λ l r, getLongestPathPrefixLength r - getLongestPathPrefixLength l)
               (λ l r, localeCompare l.(egressRuleId) r.(egressRuleId))))) l r.
Proof.
  unfold compareRoutes, then_by.
  set (a := Z.of_nat (length (match_hosts (route_body l)))).
  set (b := Z.of_nat (length (match_hosts (route_body r)))).
  destruct (Z.eqb_spec a b), (Z.eqb_spec (a - b) 0); try lia; cbn [negb]; [|done].
  set (c := getLongestPathPrefixLength l). set (d := getLongestPathPrefixLength r).
  assert ((if negb (c =? d) then d - c else localeCompare (egressRuleId l) (egressRuleId r)) =
          (if d - c =? 0 then localeCompare (egressRuleId l) (egressRuleId r) else d - c)) as Hrest.
  { destruct (Z.eqb_spec c d), (Z.eqb_spec (d - c) 0); try lia; done. }
  destruct (match_methods (route_body l)) as [ls|], (match_methods (route_body r)) as [rs|]; cbn;
    rewrite ?Hrest; try done.
  destruct (Nat.eqb_spec (length ls) (length rs)), (Z.eqb_spec (Z.of_nat (length ls) - Z.of_nat (length rs)) 0);
    try lia; cbn; by rewrite ?Hrest.
Qed.

Lemma compareRoutes_consistent `{!LocaleLaws} : consistent compareRoutes.
Proof.
  assert (consistent (λ l r : EgressCredentialRoute, localeCompare l.(egressRuleId) r.(egressRuleId))) as Hlc
    by apply (consistent_by egressRuleId), localeCompare_consistent.
  eassert (consistent (then_by _ _)) as [Hsgn Htrans];
    [|split; intros *; rewrite !compareRoutes_eq; [apply Hsgn|apply Htrans]].
  repeat (apply consistent_then; [first [apply consistent_number | apply consistent_number_desc]|]).
  exact Hlc.
Qed.

(** What is found matches, and nothing matches when nothing is found. *)
Lemma first_match_sorted (routes : list EgressCredentialRoute) (request : EgressRequest) :
  match resolveRouteForRequest routes request with
  | inr (Some route) => route ∈ routes ∧ matchesRoute route request = inr true
  | inr None => ∀ other, other ∈ routes → matchesRoute other request = inr false
  | inl e => ∃ route, route ∈ routes ∧ matchesRoute route request = inl e
  end.
Proof.
  unfold resolveRouteForRequest, orderRoutesForMatching.
  assert (∀ r, r ∈ sort compareRoutes routes → r ∈ routes) as Hin by (intros r; apply elem_of_sort).
  assert (∀ r, r ∈ routes → r ∈ sort compareRoutes routes) as Hin' by (intros r; apply elem_of_sort).
  assert (∀ l, match first_match request l with
    | inr (Some route) => route ∈ l ∧ matchesRoute route request = inr true
    | inr None => ∀ other, other ∈ l → matchesRoute other request = inr false
    | inl e => ∃ route, route ∈ l ∧ matchesRoute route request = inl e
    end) as Hspec; [|specialize (Hspec (sort compareRoutes routes)); repeat case_match; naive_solver].
  clear Hin Hin'. intros l.
  induction l as [|r l IH]; cbn [first_match]; [by intros o ?%not_elem_of_nil|].
  destruct (matchesRoute r request) as [e|[]] eqn:Hmatch; cbn [mbind sum_bind].
  - exists r. split; [left|done].
  - split; [left|done].
  - destruct (first_match request l) as [e|[route|]].
    + destruct IH as (route & Hin & He). exists route. split; [by right|done].
    + destruct IH as (Hin & Hroute). split; [by right|done].
    + intros other [->|Hother]%elem_of_cons; [done|by apply IH].
Qed.

(** A request is sent by the first route, in the order of specificity, that matches it: the
    route found matches, no route before it in that order does, and when none is found
    none matches; it is found unless a path prefix cannot be compared. *)
Theorem resolveRouteForRequest_spec `{!LocaleLaws} (routes : list EgressCredentialRoute)
    (request : EgressRequest) :
  match resolveRouteForRequest routes request with
  | inr (Some route) =>
      route ∈ routes ∧ matchesRoute route request = inr true ∧
      ∀ other, other ∈ routes → compareRoutes other route < 0 → matchesRoute other request = inr false
  | inr None => ∀ other, other ∈ routes → matchesRoute other request = inr false
  | inl e => ∃ route, route ∈ routes ∧ matchesRoute route request = inl e
  end.
Proof.
  unfold resolveRouteForRequest, orderRoutesForMatching.
  pose proof (sort_in_order compareRoutes routes compareRoutes_consistent) as Hsorted.
  assert (∀ r, r ∈ sort compareRoutes routes ↔ r ∈ routes) as Hin by (intros; apply elem_of_sort).
  assert (match first_match request (sort compareRoutes routes) with
    | inr (Some route) => route ∈ sort compareRoutes routes ∧ matchesRoute route request = inr true ∧
        ∀ other, other ∈ sort compareRoutes routes → compareRoutes other route < 0 →
          matchesRoute other request = inr false
    | inr None => ∀ other, other ∈ sort compareRoutes routes → matchesRoute other request = inr false
    | inl e => ∃ route, route ∈ sort compareRoutes routes ∧ matchesRoute route request = inl e
    end) as Hspec; [|by repeat case_match; repeat setoid_rewrite Hin in Hspec].
  clear Hin. induction Hsorted as [|r l Hl IH Hr]; cbn [first_match]; [by intros o ?%not_elem_of_nil|].
  destruct (matchesRoute r request) as [e|[]] eqn:Hmatch; cbn [mbind sum_bind].
  - exists r. split; [left|done].
  - split; [left|]. split; [done|]. intros other [->|Hother]%elem_of_cons Hlt.
    + pose proof (proj1 compareRoutes_consistent r r). destruct (compareRoutes r r); simpl in *; lia.
    + rewrite Forall_forall in Hr. specialize (Hr other Hother). cbv beta in Hr.
      pose proof (proj1 compareRoutes_consistent r other).
      destruct (compareRoutes r other), (compareRoutes other r); simpl in *; lia.
  - destruct (first_match request l) as [e|[route|]].
    + destruct IH as (route & Hin & He). exists route. split; [by right|done].
    + destruct IH as (Hin & Hroute & Hbefore). split; [by right|]. split; [done|].
      intros other [->|Hother]%elem_of_cons; [done|by apply Hbefore].
    + intros other [->|Hother]%elem_of_cons; [done|by apply IH].
Qed.
End Routes.

Definition example_request : EgressRequest := mkRequest "API.github.com" "/repos/acme/issues" "get".

Lemma resolveRouteForRequest_spec_witness :
  resolveRouteForRequest example_routes example_request = inr (head example_routes) ∧
  match resolveRouteForRequest example_routes example_request with
  | inr (Some route) => route ∈ example_routes ∧ matchesRoute route example_request = inr true ∧
      ∀ other, other ∈ example_routes → compareRoutes other route < 0 →
        matchesRoute other example_request = inr false
  | inr None => ∀ other, other ∈ example_routes → matchesRoute other example_request = inr false
  | inl e => ∃ route, route ∈ example_routes ∧ matchesRoute route example_request = inl e
  end.
Proof.
  split; [by vm_compute|]. exact (@resolveRouteForRequest_spec reference_locale reference_locale_laws
    example_routes example_request).
Defined.
