(* ===== verification/PlanValidation.v ===== *)
(** * Validating the fragments of a runtime plan
      (packages/integrations-core/src/validation/index.ts)

    Every check of [validateCompiledRuntimePlanFragments], in its order: a check throws
    the first error it finds.  The loops over runtime clients keep their entries in
    [Map]s per client, which the assembly (PlanAssembly.v) builds again: the loops
    [add_env], [add_files], [add_processes] and [add_endpoints] serve both. *)

From S2P Require Import Prelude JsMap JsObject Json DataFrame Text Locale PlanTypes EgressRoutes.
Local Open Scope Z_scope.

(** ** Flattening the fragments *)

Definition flattenCompiledRuntimePlanFragments (input : list CompiledRuntimePlanFragment)
    : CompiledRuntimePlanFragment :=
  mkFragment (input ≫= egressRoutes) (input ≫= artifacts) (input ≫= runtimeClients)
    (input ≫= workspaceSources) (input ≫= agentRuntimes).

Definition with_index {A} (l : list A) : list (Z * A) := imap (λ i a, (Z.of_nat i, a)) l.

(** ** Artifacts *)

Definition ReservedArtifactEnvKeys : list string :=
  ["HTTP_PROXY"; "HTTPS_PROXY"; "ALL_PROXY"; "NO_PROXY"; "http_proxy"; "https_proxy"; "all_proxy";
   "no_proxy"; "SSL_CERT_FILE"; "CURL_CA_BUNDLE"; "GIT_SSL_CAINFO"; "REQUESTS_CA_BUNDLE";
   "NODE_EXTRA_CA_CERTS"; "NIX_SSL_CERT_FILE"; "SSL_CERT_DIR"; "GIT_SSL_CAPATH"].

Definition equals_sign : Ascii.ascii := Ascii.ascii_of_nat 61.

Definition artifact_conflict (message : string) : PlanError :=
  IntegrationCompilerError ARTIFACT_CONFLICT message.

(** A tar.gz asset names the path to extract. *)
Definition missing_extractedPath (asset : RuntimeArtifactGitHubReleaseInstallAssetShape) : bool :=
  match asset.(asset_format) with TarGzAsset None => true | _ => false end.

Definition validateArtifactInstallEntry (key : string) (installEntry : RuntimeArtifactInstallStep)
    : PlanError + unit :=
  let contains what := artifact_conflict ("Artifact " +:+ quote key +:+ " contains " +:+ what) in
  let step what := contains ("a github release install step with " +:+ what) in
  match installEntry with
  | StepExec command =>
      match command.(exec_args) with
      | [] => inl (contains "an exec install step with no args.")
      | commandName :: _ => throw_if (blank commandName) (contains "an exec install step with an empty command.")
      end
  | StepMiseInstall tools _ _ =>
      _ ← throw_if (tools =?= []) (contains "a mise install step with no tools.");
      try_each (λ tool, throw_if (blank tool) (contains "a mise install step with an empty tool entry.")) tools
  | StepGitHubReleaseInstall repository release asset installPath _ =>
      _ ← throw_if (blank repository) (step "an empty repository.");
      _ ← throw_if (blank installPath) (step "an empty installPath.");
      _ ← match release with
          | ReleaseLatest => inr tt
          | ReleaseTagExact tag => throw_if (blank tag) (step "an empty exact tag selector.")
          | ReleaseTagPrefix prefix => throw_if (blank prefix) (step "an empty tag prefix selector.")
          end;
      match asset with
      | AssetExact a =>
          _ ← throw_if (blank a.(asset_fileName)) (step "an empty asset fileName.");
          throw_if (missing_extractedPath a)
            (step ("tar.gz asset " +:+ quote a.(asset_fileName) +:+ " missing extractedPath."))
      | AssetByArch x86_64 aarch64 =>
          try_each (λ arch,
            _ ← throw_if (blank arch.2.(asset_fileName)) (step ("empty " +:+ arch.1 +:+ " asset fileName."));
            throw_if (missing_extractedPath arch.2)
              (step ("tar.gz " +:+ arch.1 +:+ " asset " +:+ quote arch.2.(asset_fileName)
                     +:+ " missing extractedPath.")))
            [("x86_64", x86_64); ("aarch64", aarch64)]
      end
  end.

(** *** When two artifacts of a key are the same *)

Definition runtimeArtifactGitHubReleaseSelectorEquals
    (l r : RuntimeArtifactGitHubReleaseSelector) : bool :=
  match l, r with
  | ReleaseLatest, ReleaseLatest => true
  | ReleaseTagExact tag, ReleaseTagExact tag' => tag =?= tag'
  | ReleaseTagPrefix prefix, ReleaseTagPrefix prefix' => prefix =?= prefix'
  | _, _ => false
  end.

(** The sha256 is not compared. *)
Definition runtimeArtifactGitHubReleaseAssetShapeEquals
    (l r : RuntimeArtifactGitHubReleaseInstallAssetShape) : bool :=
  (l.(asset_fileName) =?= r.(asset_fileName))
  && match l.(asset_format), r.(asset_format) with
     | BinaryAsset, BinaryAsset => true
     | TarGzAsset path, TarGzAsset path' => path =?= path'
     | _, _ => false
     end.

Definition runtimeArtifactInstallEntryEquals (l r : RuntimeArtifactInstallStep) : bool :=
  match l, r with
  | StepExec command, StepExec command' => runtimeExecCommandEquals command command'
  | StepMiseInstall tools force timeout, StepMiseInstall tools' force' timeout' =>
      stringArrayEquals tools tools' && (force =?= force') && optional_number_equal timeout timeout'
  | StepGitHubReleaseInstall repo release asset path timeout,
    StepGitHubReleaseInstall repo' release' asset' path' timeout' =>
      runtimeArtifactGitHubReleaseSelectorEquals release release'
      && (repo =?= repo') && (path =?= path') && optional_number_equal timeout timeout'
      && match asset, asset' with
         | AssetExact a, AssetExact a' => runtimeArtifactGitHubReleaseAssetShapeEquals a a'
         | AssetByArch x a, AssetByArch x' a' =>
             runtimeArtifactGitHubReleaseAssetShapeEquals x x'
             && runtimeArtifactGitHubReleaseAssetShapeEquals a a'
         | _, _ => false
         end
  | _, _ => false
  end.

Fixpoint artifactCommandsEqual (l r : list RuntimeArtifactInstallStep) : bool :=
  match l, r with
  | [], [] => true
  | a :: l, b :: r => runtimeArtifactInstallEntryEquals a b && artifactCommandsEqual l r
  | _, _ => false
  end.

Definition validate_env_key (key envKey : string) : PlanError + unit :=
  let artifact := "Artifact " +:+ quote key in
  _ ← throw_if (blank envKey) (artifact_conflict (artifact +:+ " contains an empty env key."));
  _ ← throw_if (has_char equals_sign envKey)
        (artifact_conflict (artifact +:+ " contains an invalid env key " +:+ quote envKey +:+ "."));
  throw_if (bool_decide (envKey ∈ ReservedArtifactEnvKeys))
    (artifact_conflict (artifact +:+ " may not define reserved env key " +:+ quote envKey +:+ ".")).

(** [hasEquivalentSpec]: the env is not compared. *)
Definition hasEquivalentSpec (existing artifact : CompiledRuntimeArtifactSpec) : bool :=
  (existing.(artifact_name) =?= artifact.(artifact_name))
  && (existing.(artifact_description) =?= artifact.(artifact_description))
  && artifactCommandsEqual existing.(artifact_install) artifact.(artifact_install).

(** One round of the loop over the artifacts, on [artifactByKey]. *)
Definition validate_artifact (artifactByKey : JsMap.t string CompiledRuntimeArtifactSpec)
    (artifact : CompiledRuntimeArtifactSpec) : PlanError + JsMap.t string CompiledRuntimeArtifactSpec :=
  let key := artifact.(artifactKey) in
  _ ← match artifact.(artifact_env) with
      | None => inr tt
      | Some env => try_each (validate_env_key key) (JsMap.keys env)
      end;
  _ ← throw_if (bool_decide (length artifact.(artifact_install) = 0%nat))
        (artifact_conflict ("Artifact " +:+ quote key +:+ " must include at least one install command."));
  _ ← try_each (validateArtifactInstallEntry key) artifact.(artifact_install);
  match JsMap.get artifactByKey key with
  | None => inr (JsMap.set artifactByKey key artifact)
  | Some existingArtifact =>
      _ ← throw_if (negb (hasEquivalentSpec existingArtifact artifact))
            (artifact_conflict ("Artifact key conflict detected for " +:+ quote key +:+ "."));
      inr artifactByKey
  end.

Definition validateArtifacts (input : list CompiledRuntimeArtifactSpec) : PlanError + unit :=
  _ ← fold_each validate_artifact JsMap.empty input; inr tt.

(** ** Workspace sources *)

Definition setup_conflict (message : string) : PlanError :=
  IntegrationCompilerError RUNTIME_CLIENT_SETUP_CONFLICT message.

Definition validate_workspace_source (sourceByPath : JsMap.t string CompiledWorkspaceSource)
    (workspaceSource : CompiledWorkspaceSource) : PlanError + JsMap.t string CompiledWorkspaceSource :=
  let path := workspaceSource.(source_path) in
  _ ← throw_if (blank path) (setup_conflict "Workspace source path must be non-empty.");
  _ ← throw_if (blank workspaceSource.(source_originUrl))
        (setup_conflict ("Workspace source " +:+ quote path +:+ " must define a non-empty originUrl."));
  _ ← throw_if (JsMap.has sourceByPath path)
        (setup_conflict ("Workspace source path conflict detected for " +:+ quote path +:+ "."));
  inr (JsMap.set sourceByPath path workspaceSource).

Definition validateWorkspaceSources (input : list CompiledWorkspaceSource) : PlanError + unit :=
  _ ← fold_each validate_workspace_source JsMap.empty input; inr tt.

(** ** Routes *)

Definition route_conflict (message : string) : PlanError :=
  IntegrationCompilerError ROUTE_CONFLICT message.

Definition validate_route (egressRuleIdToRoute : JsMap.t string EgressCredentialRoute)
    (route : EgressCredentialRoute) : PlanError + JsMap.t string EgressCredentialRoute :=
  let id := route.(egressRuleId) in
  _ ← try_each (λ entry : Z * string,
        throw_if (blank entry.2)
          (route_conflict ("Egress route " +:+ quote id +:+ " contains an empty path prefix at index "
                           +:+ String_of_number entry.1 +:+ ".")))
        (with_index (default [] route.(route_body).(match_pathPrefixes)));
  match JsMap.get egressRuleIdToRoute id with
  | Some existingRoute =>
      inl (route_conflict ("Duplicate egress rule id " +:+ quote id +:+ " detected for bindings "
             +:+ quote existingRoute.(route_bindingId) +:+ " and " +:+ quote route.(route_bindingId) +:+ "."))
  | None => inr (JsMap.set egressRuleIdToRoute id route)
  end.

Section Validation.
Context `{Locale} `{Urls}.

(** Every route against the routes after it. *)
Fixpoint validate_route_pairs (input : list EgressCredentialRoute) : PlanError + unit :=
  match input with
  | [] => inr tt
  | leftRoute :: input =>
      _ ← try_each (λ rightRoute,
            overlap ← routesOverlap leftRoute rightRoute;
            throw_if overlap
              (route_conflict ("Overlapping egress routes detected: " +:+ quote leftRoute.(egressRuleId)
                               +:+ " and " +:+ quote rightRoute.(egressRuleId) +:+ "."))) input;
      validate_route_pairs input
  end.

Definition validateRoutes (input : list EgressCredentialRoute) : PlanError + unit :=
  _ ← fold_each validate_route JsMap.empty input; validate_route_pairs input.

(** ** Launch templates of agent runtimes *)

Definition agent_conflict (message : string) : PlanError :=
  IntegrationCompilerError AGENT_RUNTIME_CONFLICT message.

Inductive templateName : Type := NewLaunch | ResumeLaunch.
Definition templateName_value (t : templateName) : string :=
  match t with NewLaunch => "newLaunch" | ResumeLaunch => "resumeLaunch" end.

Definition is_threadId (argument : AgentPtyLaunchArgument) : bool :=
  match argument with ThreadIdArgument => true | LiteralArgument _ => false end.

Definition validateLaunchTemplate (sourceKey key : string) (t : templateName)
    (template : AgentPtyLaunchTemplate) : PlanError + unit :=
  let name := templateName_value t in
  let source := "Agent runtime " +:+ quote key +:+ " for source " +:+ quote sourceKey in
  let error what := agent_conflict (source +:+ what) in
  _ ← throw_if (blank template.(ptySessionId))
        (error (" must define a non-empty ptyLaunch." +:+ name +:+ ".ptySessionId."));
  _ ← throw_if (number_nonpositive template.(template_cols) || number_nonpositive template.(template_rows))
        (error (" must define positive ptyLaunch." +:+ name +:+ " dimensions."));
  _ ← throw_if (match template.(template_cwd) with Some cwd => blank cwd | None => false end)
        (error (" must not define an empty ptyLaunch." +:+ name +:+ ".cwd."));
  _ ← throw_if (blank template.(template_command))
        (error (" must define a non-empty ptyLaunch." +:+ name +:+ ".command."));
  _ ← try_each (λ entry : Z * AgentPtyLaunchArgument,
        throw_if (match entry.2 with LiteralArgument value => blank value | ThreadIdArgument => false end)
          (error (" contains an empty literal ptyLaunch." +:+ name +:+ " arg at index "
                  +:+ String_of_number entry.1 +:+ "."))) (with_index template.(template_args));
  let threadIdArgumentCount := length (List.filter is_threadId template.(template_args)) in
  match t with
  | NewLaunch => throw_if (negb (threadIdArgumentCount =? 0)%nat)
                   (error " must not define threadId placeholders in ptyLaunch.newLaunch.")
  | ResumeLaunch => throw_if (threadIdArgumentCount =? 0)%nat
                      (error " must define at least one threadId placeholder in ptyLaunch.resumeLaunch.")
  end.

Definition validateAgentPtyLaunch (sourceKey key runtimeId : string) (launch : AgentPtyLaunchSpec)
    : PlanError + unit :=
  let source := "Agent runtime " +:+ quote key +:+ " for source " +:+ quote sourceKey in
  _ ← throw_if (negb (launch.(launch_runtimeId) =?= runtimeId))
        (agent_conflict (source +:+ " must declare a ptyLaunch.runtimeId matching " +:+ quote runtimeId +:+ "."));
  _ ← throw_if (blank launch.(launch_displayName))
        (agent_conflict (source +:+ " must define a non-empty ptyLaunch.displayName."));
  _ ← validateLaunchTemplate sourceKey key NewLaunch launch.(newLaunch);
  validateLaunchTemplate sourceKey key ResumeLaunch launch.(resumeLaunch).

(** ** Processes and endpoints *)

Definition valid_port (port : number) : bool :=
  Number_isInteger port && (1 <=? integer_of port) && (integer_of port <=? 65535).
Definition valid_status (status : number) : bool :=
  Number_isInteger status && (100 <=? integer_of status) && (integer_of status <=? 599).

Definition websocket_protocol (protocol : string) : bool :=
  (protocol =?= "ws:") || (protocol =?= "wss:").

Definition validateRuntimeClientProcess (client : string) (process : RuntimeClientProcessSpec)
    : PlanError + unit :=
  let subject := "Runtime client process " +:+ quote process.(processKey) +:+ " for client " +:+ quote client in
  let error what := setup_conflict (subject +:+ what) in
  _ ← throw_if (blank process.(processKey))
        (setup_conflict ("Runtime client process for client " +:+ quote client
                         +:+ " must define a non-empty processKey."));
  _ ← match process.(process_command).(exec_args) with
      | [] => inl (error " must define at least one command arg.")
      | commandName :: _ => throw_if (blank commandName) (error " has an empty command name.")
      end;
  _ ← throw_if (match process.(process_command).(exec_timeoutMs) with
                | Some timeoutMs => number_nonpositive timeoutMs | None => false end)
        (error " command timeoutMs must be greater than zero when provided.");
  _ ← match process.(process_readiness) with
      | ReadinessNone => inr tt
      | ReadinessTcp host port timeoutMs =>
          _ ← throw_if (blank host) (error " tcp readiness host must be non-empty.");
          _ ← throw_if (negb (valid_port port))
                (error " tcp readiness port must be an integer between 1 and 65535.");
          throw_if (number_nonpositive timeoutMs)
            (error " tcp readiness timeoutMs must be greater than zero.")
      | ReadinessHttp url expectedStatus timeoutMs =>
          _ ← throw_if (bool_decide (URL_parse url = None)) (error " http readiness url must be a valid URL.");
          _ ← throw_if (negb (valid_status expectedStatus))
                (error " http readiness expectedStatus must be an integer between 100 and 599.");
          throw_if (number_nonpositive timeoutMs)
            (error " http readiness timeoutMs must be greater than zero.")
      | ReadinessWs url timeoutMs =>
          _ ← match URL_parse url with
              | None => inl (error " ws readiness url must be a valid URL.")
              | Some (protocol, _) =>
                  throw_if (negb (websocket_protocol protocol))
                    (error " ws readiness url must use ws or wss scheme.")
              end;
          throw_if (number_nonpositive timeoutMs)
            (error " ws readiness timeoutMs must be greater than zero.")
      end;
  _ ← throw_if (number_nonpositive process.(process_stop).(stop_timeoutMs))
        (error " stop timeoutMs must be greater than zero.");
  throw_if (match process.(process_stop).(stop_gracePeriodMs) with
            | Some gracePeriodMs => number_negative gracePeriodMs | None => false end)
    (error " stop gracePeriodMs must be greater than or equal to zero when provided.").

Definition validateRuntimeClientEndpoint (client : string) (endpoint : RuntimeClientEndpointSpec)
    : PlanError + unit :=
  let subject := "Runtime client endpoint " +:+ quote endpoint.(endpointKey) +:+ " for client " +:+ quote client in
  let error what := setup_conflict (subject +:+ what) in
  _ ← throw_if (blank endpoint.(endpointKey))
        (setup_conflict ("Runtime client endpoint for client " +:+ quote client
                         +:+ " must define a non-empty endpointKey."));
  _ ← throw_if (match endpoint.(endpoint_processKey) with Some key => blank key | None => false end)
        (error " must define a non-empty processKey when provided.");
  match URL_parse endpoint.(endpoint_url) with
  | None => inl (error " ws transport url must be a valid URL.")
  | Some (protocol, _) =>
      throw_if (negb (websocket_protocol protocol)) (error " ws transport url must use ws or wss scheme.")
  end.

(** ** The entries of a runtime client

    The [Map]s of files hold the file without the part that is the key; here they
    hold the whole file. *)

Definition same_content (existing file : RuntimeClientSetupFile) : bool :=
  number_equal existing.(file_mode) file.(file_mode)
  && (existing.(file_content) =?= file.(file_content))
  && (existing.(file_writeMode) =?= file.(file_writeMode)).

Definition add_env_entry (client : string) (envByKey : JsMap.t string string) (entry : string * string)
    : PlanError + JsMap.t string string :=
  _ ← throw_if (match JsMap.get envByKey entry.1 with
                | Some existingValue => negb (existingValue =?= entry.2) | None => false end)
        (setup_conflict ("Runtime client env conflict for client " +:+ quote client
                         +:+ " and key " +:+ quote entry.1 +:+ "."));
  inr (JsMap.set envByKey entry.1 entry.2).

Definition add_env (client : string) : JsMap.t string string → list (string * string) →
    PlanError + JsMap.t string string := fold_each (add_env_entry client).

Definition file_maps : Type :=
  JsMap.t string RuntimeClientSetupFile * JsMap.t string RuntimeClientSetupFile.

Definition add_file (client : string) (maps : file_maps) (file : RuntimeClientSetupFile)
    : PlanError + file_maps :=
  let '(filesByPath, filesById) := maps in
  _ ← throw_if (match JsMap.get filesByPath file.(file_path) with
                | Some existingFileByPath =>
                    negb ((existingFileByPath.(fileId) =?= file.(fileId))
                          && same_content existingFileByPath file)
                | None => false end)
        (setup_conflict ("Runtime client file conflict for client " +:+ quote client
                         +:+ " and path " +:+ quote file.(file_path) +:+ "."));
  _ ← throw_if (match JsMap.get filesById file.(fileId) with
                | Some existingFileById =>
                    negb ((existingFileById.(file_path) =?= file.(file_path))
                          && same_content existingFileById file)
                | None => false end)
        (setup_conflict ("Runtime client file conflict for client " +:+ quote client
                         +:+ " and fileId " +:+ quote file.(fileId) +:+ "."));
  inr (JsMap.set filesByPath file.(file_path) file, JsMap.set filesById file.(fileId) file).

Definition add_files (client : string) : file_maps → list RuntimeClientSetupFile → PlanError + file_maps :=
  fold_each (add_file client).

(** Entries with a key of their own that may come again if they are equal: the first one is
    kept. *)
Definition add_keyed {A} (key : A → string) (equals : A → A → bool) (check : A → PlanError + unit)
    (conflict : string → PlanError) (byKey : JsMap.t string A) (a : A) : PlanError + JsMap.t string A :=
  _ ← check a;
  match JsMap.get byKey (key a) with
  | None => inr (JsMap.set byKey (key a) a)
  | Some existing => _ ← throw_if (negb (equals existing a)) (conflict (key a)); inr byKey
  end.

Definition add_processes (check : RuntimeClientProcessSpec → PlanError + unit) (conflict : string → PlanError)
    : JsMap.t string RuntimeClientProcessSpec → list RuntimeClientProcessSpec →
      PlanError + JsMap.t string RuntimeClientProcessSpec :=
  fold_each (add_keyed processKey runtimeClientProcessSpecEquals check conflict).

Definition add_endpoints (check : RuntimeClientEndpointSpec → PlanError + unit) (conflict : string → PlanError)
    : JsMap.t string RuntimeClientEndpointSpec → list RuntimeClientEndpointSpec →
      PlanError + JsMap.t string RuntimeClientEndpointSpec :=
  fold_each (add_keyed endpointKey runtimeClientEndpointSpecEquals check conflict).

(** An endpoint that names a process of its client. *)
Definition check_endpoint_process (client : string) (processesByKey : JsMap.t string RuntimeClientProcessSpec)
    (endpoint : RuntimeClientEndpointSpec) : PlanError + unit :=
  match endpoint.(endpoint_processKey) with
  | None => inr tt
  | Some key =>
      throw_if (negb (JsMap.has processesByKey key))
        (setup_conflict ("Runtime client endpoint " +:+ quote endpoint.(endpointKey)
           +:+ " references missing process " +:+ quote key +:+ " for client " +:+ quote client +:+ "."))
  end.

(** ** Runtime clients *)

(** The variables of [validateRuntimeClients]: per client id, the entries seen so far. *)
Record ClientMaps : Type := mkClientMaps {
  clientEnvByClientId : JsMap.t string (JsMap.t string string);
  clientFilesByClientId : JsMap.t string file_maps;
  clientProcessesByKey : JsMap.t string (JsMap.t string RuntimeClientProcessSpec);
  clientEndpointsByKey : JsMap.t string (JsMap.t string RuntimeClientEndpointSpec);
}.

Definition validate_runtime_client (maps : ClientMaps) (client : RuntimeClient) : PlanError + ClientMaps :=
  let id := client.(clientId) in
  _ ← throw_if (blank id) (setup_conflict "Runtime client must define a non-empty clientId.");
  env ← add_env id (default JsMap.empty (JsMap.get maps.(clientEnvByClientId) id))
          client.(client_setup).(setup_env);
  files ← add_files id (default (JsMap.empty, JsMap.empty) (JsMap.get maps.(clientFilesByClientId) id))
            client.(client_setup).(setup_files);
  processes ← add_processes (validateRuntimeClientProcess id)
                (λ key, setup_conflict ("Runtime client process key conflict for client " +:+ quote id
                                        +:+ " and process " +:+ quote key +:+ "."))
                (default JsMap.empty (JsMap.get maps.(clientProcessesByKey) id)) client.(client_processes);
  endpoints ← add_endpoints (validateRuntimeClientEndpoint id)
                (λ key, setup_conflict ("Runtime client endpoint key conflict for client " +:+ quote id
                                        +:+ " and endpoint " +:+ quote key +:+ "."))
                (default JsMap.empty (JsMap.get maps.(clientEndpointsByKey) id)) client.(client_endpoints);
  inr (mkClientMaps (JsMap.set maps.(clientEnvByClientId) id env)
         (JsMap.set maps.(clientFilesByClientId) id files)
         (JsMap.set maps.(clientProcessesByKey) id processes)
         (JsMap.set maps.(clientEndpointsByKey) id endpoints)).

Definition no_clients : ClientMaps := mkClientMaps JsMap.empty JsMap.empty JsMap.empty JsMap.empty.

Definition validateRuntimeClients (input : list RuntimeClient) : PlanError + unit :=
  maps ← fold_each validate_runtime_client no_clients input;
  try_each (λ entry,
      let processesByKey := default JsMap.empty (JsMap.get maps.(clientProcessesByKey) entry.1) in
      try_each (check_endpoint_process entry.1 processesByKey) (JsMap.values entry.2))
    maps.(clientEndpointsByKey).

(** ** Agent runtimes *)

Definition add_endpoint_keys (endpointKeysByClientId : JsMap.t string (list string)) (client : RuntimeClient)
    : JsMap.t string (list string) :=
  let endpointKeys := default [] (JsMap.get endpointKeysByClientId client.(clientId)) in
  JsMap.set endpointKeysByClientId client.(clientId)
    (endpointKeys ++ (endpointKey <$> client.(client_endpoints))).

Definition validate_agent_runtime (endpointKeysByClientId : JsMap.t string (list string))
    (runtimeKeys : list string) (agentRuntime : CompiledAgentRuntime) : PlanError + list string :=
  let key := agentRuntime.(runtimeKey) in
  let subject := "Agent runtime " +:+ quote key in
  let client := agentRuntime.(agent_clientId) in
  let endpoint := agentRuntime.(agent_endpointKey) in
  _ ← throw_if (blank key) (agent_conflict "Agent runtime must define a non-empty runtimeKey.");
  _ ← throw_if (bool_decide (key ∈ runtimeKeys))
        (agent_conflict ("Duplicate agent runtime key " +:+ quote key +:+ " detected."));
  _ ← throw_if (blank agentRuntime.(agent_runtimeId))
        (agent_conflict (subject +:+ " must define a non-empty runtimeId."));
  _ ← throw_if (blank client) (agent_conflict (subject +:+ " must define a non-empty clientId."));
  _ ← match JsMap.get endpointKeysByClientId client with
      | None => inl (agent_conflict (subject +:+ " references missing runtime client " +:+ quote client +:+ "."))
      | Some endpointKeys =>
          _ ← throw_if (blank endpoint) (agent_conflict (subject +:+ " must define a non-empty endpointKey."));
          throw_if (negb (bool_decide (endpoint ∈ endpointKeys)))
            (agent_conflict (subject +:+ " references missing endpoint " +:+ quote endpoint
                             +:+ " on client " +:+ quote client +:+ "."))
      end;
  _ ← validateAgentPtyLaunch key key agentRuntime.(agent_runtimeId) agentRuntime.(ptyLaunch);
  inr (runtimeKeys ++ [key]).

Definition validateAgentRuntimes (clients : list RuntimeClient) (input : list CompiledAgentRuntime)
    : PlanError + unit :=
  let endpointKeysByClientId := foldl add_endpoint_keys JsMap.empty clients in
  _ ← fold_each (validate_agent_runtime endpointKeysByClientId) [] input; inr tt.

(** ** All of it *)

Definition validateCompiledRuntimePlanFragments (input : list CompiledRuntimePlanFragment)
    : PlanError + unit :=
  let flattened := flattenCompiledRuntimePlanFragments input in
  _ ← validateRoutes flattened.(egressRoutes);
  _ ← validateArtifacts flattened.(artifacts);
  _ ← validateWorkspaceSources flattened.(workspaceSources);
  _ ← validateRuntimeClients flattened.(runtimeClients);
  validateAgentRuntimes flattened.(runtimeClients) flattened.(agentRuntimes).
End Validation.
