(* ===== verification/PlanAssembly.v ===== *)
(** * Assembling a runtime plan (packages/integrations-core/src/runtime-plan/index.ts)

    [assembleCompiledRuntimePlan] flattens the fragments, merges the runtime clients of
    the same id, drops artifacts of the same key and sorts every part.  The theorems are
    in PlanSpec.v. *)

From S2P Require Import Prelude JsMap JsObject Json DataFrame Text Locale PlanTypes EgressRoutes PlanValidation.
Local Open Scope Z_scope.

Section Assembly.
Context `{Locale}.

(** ** Runtime clients *)

(** [env[key] = value] for every entry: a copy of the record. *)
Definition copy_env (env : JsMap.t string string) : JsMap.t string string :=
  foldl (λ copy e, JsObject.assign copy e.1 e.2) JsMap.empty env.

Definition resolveRuntimeClients (input : list RuntimeClient) : list RuntimeClient :=
  (λ client, mkClient client.(clientId)
     (mkSetup (copy_env client.(client_setup).(setup_env)) client.(client_setup).(setup_files)
        client.(client_setup).(setup_launchArgs))
     client.(client_processes) client.(client_endpoints)) <$> input.

Definition sortRecord (input : JsMap.t string string) : JsMap.t string string :=
  JsObject.fromEntries (sort (λ l r, localeCompare l.1 r.1) input).

(** The entries of one client id merged so far. *)
Record MergedClient : Type := mkMerged {
  merged_env : JsMap.t string string;
  merged_files : file_maps;
  merged_launchArgs : list string;
  merged_processesByKey : JsMap.t string RuntimeClientProcessSpec;
  merged_endpointsByKey : JsMap.t string RuntimeClientEndpointSpec;
}.

Definition new_merged : MergedClient := mkMerged JsMap.empty (JsMap.empty, JsMap.empty) [] JsMap.empty JsMap.empty.

Definition merge_runtime_client (mergedByClientId : JsMap.t string MergedClient) (client : RuntimeClient)
    : PlanError + JsMap.t string MergedClient :=
  let id := client.(clientId) in
  let merged := default new_merged (JsMap.get mergedByClientId id) in
  env ← add_env id merged.(merged_env) client.(client_setup).(setup_env);
  files ← add_files id merged.(merged_files) client.(client_setup).(setup_files);
  processes ← add_processes (λ _, inr tt)
                (λ key, setup_conflict ("Runtime client process conflict for client " +:+ quote id
                                        +:+ " and processKey " +:+ quote key +:+ "."))
                merged.(merged_processesByKey) client.(client_processes);
  endpoints ← add_endpoints (λ _, inr tt)
                (λ key, setup_conflict ("Runtime client endpoint conflict for client " +:+ quote id
                                        +:+ " and endpointKey " +:+ quote key +:+ "."))
                merged.(merged_endpointsByKey) client.(client_endpoints);
  inr (JsMap.set mergedByClientId id
         (mkMerged env files (merged.(merged_launchArgs) ++ default [] client.(client_setup).(setup_launchArgs))
            processes endpoints)).

(** The client built of the entries of a client id. *)
Definition merged_client (entry : string * MergedClient) : PlanError + RuntimeClient :=
  let '(id, merged) := entry in
  let env := sortRecord (JsObject.fromEntries merged.(merged_env)) in
  let files := (λ e : string * RuntimeClientSetupFile,
      mkFile e.2.(fileId) e.1 e.2.(file_mode) e.2.(file_content) e.2.(file_writeMode))
    <$> sort (λ l r, localeCompare l.1 r.1) merged.(merged_files).1 in
  let processes := sort (λ l r, localeCompare l.(processKey) r.(processKey))
                     (JsMap.values merged.(merged_processesByKey)) in
  let endpoints := sort (λ l r, localeCompare l.(endpointKey) r.(endpointKey))
                     (JsMap.values merged.(merged_endpointsByKey)) in
  _ ← try_each (check_endpoint_process id merged.(merged_processesByKey)) endpoints;
  inr (mkClient id
         (mkSetup env files
            (if merged.(merged_launchArgs) =?= [] then None else Some merged.(merged_launchArgs)))
         processes endpoints).

Definition mergeRuntimeClients (input : list RuntimeClient) : PlanError + list RuntimeClient :=
  mergedByClientId ← fold_each merge_runtime_client JsMap.empty input;
  try_map merged_client (sort (λ l r, localeCompare l.1 r.1) mergedByClientId).

(** ** Artifacts *)

Definition sortArtifacts (input : list CompiledRuntimeArtifactSpec) : list CompiledRuntimeArtifactSpec :=
  sort (λ l r, localeCompare l.(artifactKey) r.(artifactKey))
    ((λ artifact, mkArtifact artifact.(artifactKey) artifact.(artifact_name) artifact.(artifact_description)
        (sortRecord <$> artifact.(artifact_env)) artifact.(artifact_install)) <$> input).

Definition dedupeArtifacts (input : list CompiledRuntimeArtifactSpec) : list CompiledRuntimeArtifactSpec :=
  JsMap.values (foldl (λ artifactsByKey artifact,
      if JsMap.has artifactsByKey artifact.(artifactKey) then artifactsByKey
      else JsMap.set artifactsByKey artifact.(artifactKey) artifact) JsMap.empty input).

(** ** The plan *)

Definition assembleCompiledRuntimePlan (sandboxProfileId : string) (version : number)
    (image : ResolvedSandboxImage) (associatedResourceEventRouting : AssociatedResourceEventRouting)
    (fragments : list CompiledRuntimePlanFragment) : PlanError + CompiledRuntimePlan :=
  let routes := orderRoutesForMatching (fragments ≫= egressRoutes) in
  let plan_artifacts := sortArtifacts (dedupeArtifacts (fragments ≫= artifacts)) in
  clients ← mergeRuntimeClients (resolveRuntimeClients (fragments ≫= runtimeClients));
  let runtimes := sort (then_by (λ l r, localeCompare l.(runtimeKey) r.(runtimeKey))
                         (then_by (λ l r, localeCompare l.(agent_clientId) r.(agent_clientId))
                            (λ l r, localeCompare l.(agent_endpointKey) r.(agent_endpointKey))))
                    (fragments ≫= agentRuntimes) in
  let sources := sort (then_by (λ l r, localeCompare l.(source_path) r.(source_path))
                         (λ l r, localeCompare l.(source_originUrl) r.(source_originUrl)))
                   (fragments ≫= workspaceSources) in
  inr (mkPlan sandboxProfileId version image routes plan_artifacts sources clients runtimes
         associatedResourceEventRouting).
End Assembly.
