(* ===== verification/PlanSpec.v ===== *)
(** * What the validation and the assembly of a runtime plan promise

    - [validated_routes_unambiguous]: validated routes send every request by at most one
      route, in whatever order they are kept;
    - [validated_fragments_assemble]: what has been validated can be assembled;
    - the lemmas about the parts of a plan that PlanWellFormed.v puts together: clients
      ([plan_clients]), artifacts, workspace sources and launch templates. *)

From S2P Require Import Prelude JsMap JsObject Json DataFrame Text Locale PlanTypes PlanExample EgressRoutes.
From S2P Require Import PlanValidation PlanAssembly.
Local Open Scope Z_scope.

(** ** Loops that keep entries by their key *)

Lemma number_equal_eq x y : number_equal x y = true → x = y.
Proof. intros [H _]%andb_true_iff. by apply bool_decide_eq_true in H. Qed.

Lemma same_file_eq (f g : RuntimeClientSetupFile) :
  f.(fileId) = g.(fileId) → f.(file_path) = g.(file_path) → same_content f g = true → f = g.
Proof.
  unfold same_content. intros Hid Hpath Hc. apply andb_true_iff in Hc as [[Hm Hc]%andb_true_iff Hw].
  apply number_equal_eq in Hm. apply bool_decide_eq_true in Hc, Hw. destruct f, g; simpl in *; congruence.
Qed.

(** What holds before a loop and is kept by every round holds after it. *)
Lemma fold_each_ind {E S A} (body : S → A → E + S) (P : list A → S → Prop) l s s' :
  P [] s → (∀ done a s s', P done s → body s a = inr s' → P (done ++ [a]) s') →
  fold_each body s l = inr s' → P l s'.
Proof.
  intros Hnil Hstep. assert (∀ done s, P done s → fold_each body s l = inr s' → P (done ++ l) s') as H.
  { clear s Hnil. induction l as [|a l IH]; intros done s Hdone; simpl.
    - intros [= <-]. by rewrite app_nil_r.
    - intros (s1 & Hs1 & Hl)%sum_bind_inr. rewrite cons_middle, app_assoc. eauto. }
  by apply (H []).
Qed.

(** *** Environment variables *)

Lemma add_env_spec client env entries env' :
  JsMap.wf env → add_env client env entries = inr env' →
  JsMap.wf env' ∧ ∀ k v, JsMap.get env' k = Some v ↔ JsMap.get env k = Some v ∨ (k, v) ∈ entries.
Proof.
  intros Hwf. unfold add_env.
  apply (fold_each_ind _ (λ l e, JsMap.wf e ∧
    ∀ k v, JsMap.get e k = Some v ↔ JsMap.get env k = Some v ∨ (k, v) ∈ l)).
  - split; [done|]. intros k v. split; [by left|]. by intros [?| ?%not_elem_of_nil].
  - intros done [k0 v0] e e' [Hwfe He] (u & Hthrow%throw_if_inr & [= <-])%sum_bind_inr. simpl in *.
    split; [by apply JsMap.wf_set|]. intros k v. rewrite JsMap.get_set, elem_of_app, list_elem_of_singleton.
    case_decide as Hk; [subst k|rewrite He; naive_solver].
    destruct (JsMap.get e k0) as [v1|] eqn:Hget.
    + apply negb_false_iff, bool_decide_eq_true in Hthrow. subst v1. apply He in Hget as Hget'.
      assert (∀ v, JsMap.get env k0 = Some v ∨ (k0, v) ∈ done → v = v0) as Huniq.
      { intros v' Hv'%He. congruence. }
      split; [by intros [= <-]; destruct Hget'; auto|]. intros [Hv|[Hv|[= ->]]]; auto.
      * by rewrite (Huniq v (or_introl Hv)).
      * by rewrite (Huniq v (or_intror Hv)).
    + assert (∀ v, ¬ (JsMap.get env k0 = Some v ∨ (k0, v) ∈ done)) as Hnone.
      { intros v' Hv'%He. congruence. }
      split; [by intros [= <-]; auto|]. intros [Hv|[Hv|[= ->]]]; [|  |done].
      * destruct (Hnone v (or_introl Hv)).
      * destruct (Hnone v (or_intror Hv)).
Qed.

(** Entries without a conflict can be added, to any part of the variables. *)
Lemma add_env_total client env entries final :
  (∀ k v, JsMap.get env k = Some v → JsMap.get final k = Some v) →
  Forall (λ e, JsMap.get final e.1 = Some e.2) entries →
  ∃ env', add_env client env entries = inr env' ∧
    ∀ k v, JsMap.get env' k = Some v → JsMap.get final k = Some v.
Proof.
  intros Hsub Hall. revert env Hsub. induction Hall as [|[k0 v0] entries Hk0 Hall IH]; intros env Hsub.
  - by exists env.
  - unfold add_env. cbn [fold_each].
    assert (add_env_entry client env (k0, v0) = inr (JsMap.set env k0 v0)) as ->.
    { unfold add_env_entry. cbn [fst snd] in *. destruct (JsMap.get env k0) as [v|] eqn:Hv; [|done].
      apply Hsub in Hv. assert (v = v0) as -> by congruence. by rewrite bool_decide_true. }
    cbn [mbind sum_bind]. apply IH. intros k v. rewrite JsMap.get_set.
    case_decide as Hk; [intros [= <-]; by subst|apply Hsub].
Qed.

(** *** Files *)

(** The two maps hold the same files. *)
Definition files_ok (maps : file_maps) : Prop :=
  JsMap.wf maps.1 ∧ JsMap.wf maps.2 ∧
  (∀ p f, JsMap.get maps.1 p = Some f → f.(file_path) = p ∧ JsMap.get maps.2 f.(fileId) = Some f) ∧
  (∀ i f, JsMap.get maps.2 i = Some f → f.(fileId) = i ∧ JsMap.get maps.1 f.(file_path) = Some f).

(** A file is added that is already there, or whose path and id are both new. *)
Lemma add_file_cases client maps file maps' :
  files_ok maps → add_file client maps file = inr maps' →
  (JsMap.get maps.1 file.(file_path) = Some file ∧ maps' = maps) ∨
  (JsMap.get maps.1 file.(file_path) = None ∧ JsMap.get maps.2 file.(fileId) = None ∧
   maps' = (JsMap.set maps.1 file.(file_path) file, JsMap.set maps.2 file.(fileId) file)).
Proof.
  destruct maps as [byPath byId]. intros (_ & _ & Hpath & Hid). simpl in *.
  intros (u & H1%throw_if_inr & (u' & H2%throw_if_inr & [= <-])%sum_bind_inr)%sum_bind_inr.
  destruct (JsMap.get byPath file.(file_path)) as [f|] eqn:Hf.
  - left. apply negb_false_iff, andb_true_iff in H1 as [Hi%bool_decide_eq_true Hc].
    destruct (Hpath _ _ Hf) as [Hp Hf']. assert (f = file) as -> by (by apply same_file_eq).
    split; [done|]. by rewrite !JsMap.set_same.
  - right. destruct (JsMap.get byId file.(fileId)) as [f|] eqn:Hf'; [|done].
    apply negb_false_iff, andb_true_iff in H2 as [Hp%bool_decide_eq_true _].
    destruct (Hid _ _ Hf') as [_ Hf'']. rewrite Hp in Hf''. congruence.
Qed.

Lemma add_file_ok client maps file maps' :
  files_ok maps → add_file client maps file = inr maps' →
  files_ok maps' ∧ ∀ p f, JsMap.get maps'.1 p = Some f ↔ JsMap.get maps.1 p = Some f ∨ f = file ∧ p = file.(file_path).
Proof.
  intros Hok Hadd. destruct (add_file_cases _ _ _ _ Hok Hadd) as [[Hf ->]|(Hf & Hf' & ->)].
  { split; [done|]. naive_solver. }
  destruct Hok as (Hwf1 & Hwf2 & Hpath & Hid). split.
  - split; [by apply JsMap.wf_set|]. split; [by apply JsMap.wf_set|]. simpl. split.
    + intros p f. rewrite !JsMap.get_set. case_decide as Hp.
      * intros [= <-]. split; [done|]. by rewrite decide_True.
      * intros Hget. destruct (Hpath _ _ Hget) as [? Hget']. split; [done|].
        rewrite decide_False; [done|]. intros Heq. rewrite <- Heq in Hget'. congruence.
    + intros i f. rewrite !JsMap.get_set. case_decide as Hi.
      * intros [= <-]. split; [done|]. by rewrite decide_True.
      * intros Hget. destruct (Hid _ _ Hget) as [? Hget']. split; [done|].
        rewrite decide_False; [done|]. intros Heq. rewrite <- Heq in Hget'. congruence.
  - intros p f. simpl. rewrite JsMap.get_set. case_decide as Hp; [subst p|naive_solver].
    split; [intros [= <-]; auto|]. intros [Hget|[-> _]]; [congruence|done].
Qed.

Lemma add_files_spec client maps files maps' :
  files_ok maps → add_files client maps files = inr maps' →
  files_ok maps' ∧
  ∀ p f, JsMap.get maps'.1 p = Some f ↔ JsMap.get maps.1 p = Some f ∨ f ∈ files ∧ p = f.(file_path).
Proof.
  intros Hok. apply (fold_each_ind _ (λ l m, files_ok m ∧
    ∀ p f, JsMap.get m.1 p = Some f ↔ JsMap.get maps.1 p = Some f ∨ f ∈ l ∧ p = f.(file_path))).
  - split; [done|]. intros p f. split; [by left|]. by intros [?|[?%not_elem_of_nil _]].
  - intros done file m m' [Hm Hspec] Hadd. destruct (add_file_ok _ _ _ _ Hm Hadd) as [Hm' Hspec'].
    split; [done|]. intros p f. rewrite Hspec', Hspec, elem_of_app, list_elem_of_singleton. naive_solver.
Qed.

Lemma no_files_ok : files_ok (JsMap.empty, JsMap.empty).
Proof. split; [apply JsMap.wf_empty|]. split; [apply JsMap.wf_empty|done]. Qed.

(** *** Processes and endpoints *)

(** [a] is the first entry of [l] that has its key. *)
Definition first_of {A} (key : A → string) (l : list A) (a : A) : Prop :=
  ∃ before after, l = before ++ a :: after ∧ key a ∉ key <$> before.

Lemma first_of_in {A} (key : A → string) l a : first_of key l a → a ∈ l.
Proof. intros (before & after & -> & _). apply elem_of_app. right. by left. Qed.

Lemma first_of_app_l {A} (key : A → string) l l' a : first_of key l a → first_of key (l ++ l') a.
Proof. intros (before & after & -> & Hnew). exists before, (after ++ l'). by rewrite <- app_assoc. Qed.

Lemma first_of_app_r {A} (key : A → string) l l' a :
  key a ∉ key <$> l → first_of key l' a → first_of key (l ++ l') a.
Proof.
  intros Hl (before & after & -> & Hnew). exists (l ++ before), after. rewrite app_assoc. split; [done|].
  rewrite fmap_app, elem_of_app. naive_solver.
Qed.

Lemma first_of_end {A} (key : A → string) l a : key a ∉ key <$> l → first_of key (l ++ [a]) a.
Proof. intros Hl. by exists l, []. Qed.

Section Keyed.
Context {A : Type} (key : A → string) (equals : A → A → bool) (check : A → PlanError + unit)
  (conflict : string → PlanError).

Definition keyed_ok (byKey : JsMap.t string A) : Prop :=
  JsMap.wf byKey ∧ ∀ k a, JsMap.get byKey k = Some a → key a = k ∧ check a = inr tt.

Lemma add_keyed_spec byKey l byKey' :
  keyed_ok byKey → fold_each (add_keyed key equals check conflict) byKey l = inr byKey' →
  keyed_ok byKey' ∧
  (∀ k a, JsMap.get byKey k = Some a → JsMap.get byKey' k = Some a) ∧
  (∀ a, a ∈ l → ∃ b, JsMap.get byKey' (key a) = Some b ∧ (a = b ∨ equals b a = true)) ∧
  (∀ k a, JsMap.get byKey' k = Some a →
     JsMap.get byKey k = Some a ∨ JsMap.get byKey k = None ∧ first_of key l a).
Proof.
  intros Hok. apply (fold_each_ind _ (λ l m, keyed_ok m ∧
    (∀ k a, JsMap.get byKey k = Some a → JsMap.get m k = Some a) ∧
    (∀ a, a ∈ l → ∃ b, JsMap.get m (key a) = Some b ∧ (a = b ∨ equals b a = true)) ∧
    (∀ k a, JsMap.get m k = Some a →
       JsMap.get byKey k = Some a ∨ JsMap.get byKey k = None ∧ first_of key l a))).
  { split; [done|]. split; [done|]. split; [by intros a ?%not_elem_of_nil|auto]. }
  intros done a m m' ((Hwf & Hm) & Hkeep & Hall & Honly) (u & Hcheck & Hadd)%sum_bind_inr. destruct u.
  destruct (JsMap.get m (key a)) as [b|] eqn:Hget.
  - apply sum_bind_inr in Hadd as (u & Hequal%throw_if_inr & [= <-]). apply negb_false_iff in Hequal.
    split; [done|]. split; [done|]. split.
    + intros a' [Ha'| ->%list_elem_of_singleton]%elem_of_app; [by apply Hall|eauto].
    + intros k a' Ha'. destruct (Honly k a' Ha') as [|[? ?]]; auto using first_of_app_l.
  - injection Hadd as <-. split; [split; [by apply JsMap.wf_set|]|split; [|split]].
    + intros k a'. rewrite JsMap.get_set. case_decide as Hk; [by intros [= <-]|apply Hm].
    + intros k a' Ha'. rewrite JsMap.get_set. case_decide as Hk; [|by apply Hkeep].
      subst k. apply Hkeep in Ha'. congruence.
    + intros a' [Ha'| ->%list_elem_of_singleton]%elem_of_app.
      * destruct (Hall a' Ha') as (b & Hb & ?). exists b. split; [|done]. rewrite JsMap.get_set.
        case_decide as Hk; [|done]. rewrite <- Hk in Hb. congruence.
      * exists a. split; [apply JsMap.get_set_eq|by left].
    + intros k a'. rewrite JsMap.get_set. case_decide as Hk.
      * intros [= <-]. subst k. right. split; [|apply first_of_end].
        -- destruct (JsMap.get byKey (key a)) eqn:Hold; [|done]. apply Hkeep in Hold. congruence.
        -- intros (b & Hb & Hin)%list_elem_of_fmap. destruct (Hall b Hin) as (c & Hc & _). congruence.
      * intros Ha'. destruct (Honly k a' Ha') as [|[? ?]]; auto using first_of_app_l.
Qed.

(** Without the checks, the same entries are kept. *)
Lemma add_keyed_unchecked conflict' byKey l byKey' :
  fold_each (add_keyed key equals check conflict) byKey l = inr byKey' →
  fold_each (add_keyed key equals (λ _, inr tt) conflict') byKey l = inr byKey'.
Proof.
  revert byKey. induction l as [|a l IH]; intros byKey; simpl; [done|].
  intros (m & (u & _ & Hadd)%sum_bind_inr & Hl)%sum_bind_inr.
  apply sum_bind_inr. exists m. split; [|by apply IH]. unfold add_keyed. cbn [mbind sum_bind].
  destruct (JsMap.get byKey (key a)) as [b|]; [|done].
  apply sum_bind_inr in Hadd as (u' & Hequal & Hm). apply throw_if_inr in Hequal. by rewrite Hequal.
Qed.

Lemma keyed_ok_empty : keyed_ok JsMap.empty.
Proof. split; [apply JsMap.wf_empty|done]. Qed.
End Keyed.

(** ** Loops over clients, one client id at a time *)

Definition of_key {A} (key : A → string) (k : string) (l : list A) : list A :=
  List.filter (λ a, key a =?= k) l.

Section ByKey.
Context {S A M : Type} (key : A → string) (step : M → A → PlanError + M) (view : M → string → S)
  (one : string → S → A → PlanError + S).
Hypothesis Hstep : ∀ m a m', step m a = inr m' →
  one (key a) (view m (key a)) a = inr (view m' (key a)) ∧ ∀ k, k ≠ key a → view m' k = view m k.

Lemma fold_by_key m l m' k :
  fold_each step m l = inr m' → fold_each (one k) (view m k) (of_key key k l) = inr (view m' k).
Proof.
  revert m. induction l as [|a l IH]; intros m; simpl; [by intros [= <-]|].
  intros (m1 & Hm1 & Hl)%sum_bind_inr. apply Hstep in Hm1 as [Hsame Hother]. apply IH in Hl.
  case_bool_decide as Hk; simpl.
  - subst k. by rewrite Hsame.
  - by rewrite <- Hother by congruence.
Qed.

Hypothesis Htotal : ∀ m a s, one (key a) (view m (key a)) a = inr s → ∃ m', step m a = inr m'.

Lemma fold_by_key_total m l :
  (∀ k, ∃ s, fold_each (one k) (view m k) (of_key key k l) = inr s) → ∃ m', fold_each step m l = inr m'.
Proof.
  revert m. induction l as [|a l IH]; intros m Hall; [by exists m|]. simpl.
  destruct (Hall (key a)) as [s Hs]. simpl in Hs. rewrite bool_decide_true in Hs by done.
  simpl in Hs. apply sum_bind_inr in Hs as (s1 & Hs1 & _). destruct (Htotal _ _ _ Hs1) as [m1 Hm1].
  rewrite Hm1. cbn [mbind sum_bind]. apply IH. intros k. destruct (Hall k) as [s' Hs'].
  apply Hstep in Hm1 as [Hsame Hother]. simpl in Hs'. case_bool_decide as Hk; simpl in Hs'.
  - subst k. rewrite Hsame in Hs'. by exists s'.
  - rewrite Hother by congruence. by exists s'.
Qed.
End ByKey.

Section Clients.
Context `{Locale} `{Urls}.

(** The entries of a client id: variables, files, processes and endpoints. *)
Definition client_entries : Type :=
  JsMap.t string string * file_maps * JsMap.t string RuntimeClientProcessSpec
  * JsMap.t string RuntimeClientEndpointSpec.

Definition no_entries : client_entries := (JsMap.empty, (JsMap.empty, JsMap.empty), JsMap.empty, JsMap.empty).

(** One round of the loops of the validation and of the merge, for one client id. *)
Definition add_client (checkP : RuntimeClientProcessSpec → PlanError + unit) (conflictP : string → PlanError)
    (checkE : RuntimeClientEndpointSpec → PlanError + unit) (conflictE : string → PlanError)
    (id : string) (entries : client_entries) (client : RuntimeClient) : PlanError + client_entries :=
  let '(env, files, processes, endpoints) := entries in
  env ← add_env id env client.(client_setup).(setup_env);
  files ← add_files id files client.(client_setup).(setup_files);
  processes ← add_processes checkP conflictP processes client.(client_processes);
  endpoints ← add_endpoints checkE conflictE endpoints client.(client_endpoints);
  inr (env, files, processes, endpoints).

Definition validation_view (maps : ClientMaps) (id : string) : client_entries :=
  (default JsMap.empty (JsMap.get maps.(clientEnvByClientId) id),
   default (JsMap.empty, JsMap.empty) (JsMap.get maps.(clientFilesByClientId) id),
   default JsMap.empty (JsMap.get maps.(clientProcessesByKey) id),
   default JsMap.empty (JsMap.get maps.(clientEndpointsByKey) id)).

Definition merge_view (merged : JsMap.t string MergedClient) (id : string) : client_entries :=
  let m := default new_merged (JsMap.get merged id) in
  (m.(merged_env), m.(merged_files), m.(merged_processesByKey), m.(merged_endpointsByKey)).

Definition validation_step (id : string) : client_entries → RuntimeClient → PlanError + client_entries :=
  add_client (validateRuntimeClientProcess id)
    (λ key, setup_conflict ("Runtime client process key conflict for client " +:+ quote id
                            +:+ " and process " +:+ quote key +:+ "."))
    (validateRuntimeClientEndpoint id)
    (λ key, setup_conflict ("Runtime client endpoint key conflict for client " +:+ quote id
                            +:+ " and endpoint " +:+ quote key +:+ ".")) id.

Definition merge_step (id : string) : client_entries → RuntimeClient → PlanError + client_entries :=
  add_client (λ _, inr tt)
    (λ key, setup_conflict ("Runtime client process conflict for client " +:+ quote id
                            +:+ " and processKey " +:+ quote key +:+ "."))
    (λ _, inr tt)
    (λ key, setup_conflict ("Runtime client endpoint conflict for client " +:+ quote id
                            +:+ " and endpointKey " +:+ quote key +:+ ".")) id.

Lemma add_client_inr checkP conflictP checkE conflictE id env files processes endpoints client s :
  add_client checkP conflictP checkE conflictE id (env, files, processes, endpoints) client = inr s ↔
  ∃ env' files' processes' endpoints', s = (env', files', processes', endpoints') ∧
    add_env id env client.(client_setup).(setup_env) = inr env' ∧
    add_files id files client.(client_setup).(setup_files) = inr files' ∧
    add_processes checkP conflictP processes client.(client_processes) = inr processes' ∧
    add_endpoints checkE conflictE endpoints client.(client_endpoints) = inr endpoints'.
Proof.
  unfold add_client. rewrite sum_bind_inr. repeat setoid_rewrite sum_bind_inr. split.
  - intros (e & He & f & Hf & p & Hp & n & Hn & [= <-]). by exists e, f, p, n.
  - intros (e & f & p & n & -> & He & Hf & Hp & Hn). by exists e; split; [|exists f; split; [|exists p; split; [|exists n]]].
Qed.

Lemma validate_step_view maps client maps' :
  validate_runtime_client maps client = inr maps' →
  validation_step client.(clientId) (validation_view maps client.(clientId)) client
    = inr (validation_view maps' client.(clientId)) ∧
  ∀ id, id ≠ client.(clientId) → validation_view maps' id = validation_view maps id.
Proof.
  unfold validate_runtime_client.
  intros (u & _ & (e & He & (f & Hf & (p & Hp & (n & Hn & [= <-])%sum_bind_inr)%sum_bind_inr)%sum_bind_inr)%sum_bind_inr)%sum_bind_inr.
  split.
  - unfold validation_step, validation_view. apply add_client_inr. exists e, f, p, n.
    split; [|done]. cbn. by rewrite !JsMap.get_set_eq.
  - intros id Hid. unfold validation_view. cbn. by rewrite !JsMap.get_set_ne by done.
Qed.

Lemma merge_step_view merged client merged' :
  merge_runtime_client merged client = inr merged' →
  merge_step client.(clientId) (merge_view merged client.(clientId)) client
    = inr (merge_view merged' client.(clientId)) ∧
  ∀ id, id ≠ client.(clientId) → merge_view merged' id = merge_view merged id.
Proof.
  unfold merge_runtime_client.
  intros (e & He & (f & Hf & (p & Hp & (n & Hn & [= <-])%sum_bind_inr)%sum_bind_inr)%sum_bind_inr)%sum_bind_inr.
  split.
  - unfold merge_step, merge_view. cbv zeta. apply add_client_inr. exists e, f, p, n.
    split; [|done]. cbn. by rewrite !JsMap.get_set_eq.
  - intros id Hid. unfold merge_view. cbn. by rewrite !JsMap.get_set_ne by done.
Qed.

Lemma merge_step_total merged client s :
  merge_step client.(clientId) (merge_view merged client.(clientId)) client = inr s →
  ∃ merged', merge_runtime_client merged client = inr merged'.
Proof.
  unfold merge_step, merge_view. cbv zeta. intros Hstep%add_client_inr.
  destruct Hstep as (e & f & p & n & _ & He & Hf & Hp & Hn). unfold merge_runtime_client. cbv zeta.
  rewrite He. cbn [mbind sum_bind]. rewrite Hf. cbn [mbind sum_bind]. rewrite Hp. cbn [mbind sum_bind].
  rewrite Hn. eexists. reflexivity.
Qed.

(** *** What the entries of a client id are after the clients [cs] of that id *)

(** The keyed entries [m] are those of [l], of equal ones the first. *)
Definition keyed_entries {A} (key : A → string) (equals : A → A → bool) (check : A → PlanError + unit)
    (l : list A) (m : JsMap.t string A) : Prop :=
  keyed_ok key check m ∧
  (∀ a, a ∈ l → ∃ b, JsMap.get m (key a) = Some b ∧ (a = b ∨ equals b a = true)) ∧
  (∀ k a, JsMap.get m k = Some a → first_of key l a).

Lemma keyed_entries_add {A} (key : A → string) equals check conflict (l l' : list A) m m' :
  keyed_entries key equals check l m → fold_each (add_keyed key equals check conflict) m l' = inr m' →
  keyed_entries key equals check (l ++ l') m'.
Proof.
  intros (Hok & Hall & Honly) Hfold.
  destruct (add_keyed_spec key equals check conflict m l' m' Hok Hfold) as (Hok' & Hkeep & Hnew & Honly').
  split; [done|]. split.
  - intros a [Ha|Ha]%elem_of_app; [|by apply Hnew]. destruct (Hall a Ha) as (b & Hb & ?).
    exists b. split; [by apply Hkeep|done].
  - intros k a Ha. destruct (Honly' k a Ha) as [Hold|[Hnone Hfirst]].
    + apply first_of_app_l. by eapply Honly.
    + apply first_of_app_r; [|done]. intros (b & Hb & Hin)%list_elem_of_fmap.
      destruct (Hall b Hin) as (c & Hc & _). apply Hok' in Ha as [Hk _]. congruence.
Qed.

Record entries_of (checkP : RuntimeClientProcessSpec → PlanError + unit)
    (checkE : RuntimeClientEndpointSpec → PlanError + unit) (cs : list RuntimeClient) (s : client_entries)
    : Prop := mkEntriesOf {
  entries_env_wf : JsMap.wf s.1.1.1;
  entries_env : ∀ k v, JsMap.get s.1.1.1 k = Some v ↔ ∃ c, c ∈ cs ∧ (k, v) ∈ c.(client_setup).(setup_env);
  entries_files_ok : files_ok s.1.1.2;
  entries_files : ∀ p f, JsMap.get s.1.1.2.1 p = Some f ↔
    (∃ c, c ∈ cs ∧ f ∈ c.(client_setup).(setup_files)) ∧ p = f.(file_path);
  entries_processes : keyed_entries processKey runtimeClientProcessSpecEquals checkP
    (cs ≫= client_processes) s.1.2;
  entries_endpoints : keyed_entries endpointKey runtimeClientEndpointSpecEquals checkE
    (cs ≫= client_endpoints) s.2;
}.

Lemma exists_snoc {A} (l : list A) a (P : A → Prop) :
  (∃ c, c ∈ l ++ [a] ∧ P c) ↔ (∃ c, c ∈ l ∧ P c) ∨ P a.
Proof.
  setoid_rewrite elem_of_app. setoid_rewrite list_elem_of_singleton. split.
  - intros (c & [Hc| ->] & HP); [left; by exists c|by right].
  - intros [(c & Hc & HP)|HP]; [exists c; auto|exists a; auto].
Qed.

Lemma add_clients_spec checkP conflictP checkE conflictE id cs s :
  fold_each (add_client checkP conflictP checkE conflictE id) no_entries cs = inr s →
  entries_of checkP checkE cs s.
Proof.
  apply fold_each_ind.
  - constructor; simpl; try apply JsMap.wf_empty; try apply no_files_ok.
    + intros k v. split; [done|]. by intros (c & ?%not_elem_of_nil & _).
    + intros p f. split; [done|]. by intros [(c & ?%not_elem_of_nil & _) _].
    + split; [apply keyed_ok_empty|]. split; [by intros a ?%not_elem_of_nil|done].
    + split; [apply keyed_ok_empty|]. split; [by intros a ?%not_elem_of_nil|done].
  - intros done c [[[env files] processes] endpoints] s' [Henvwf Henv Hfok Hfiles Hproc Hend] Hadd.
    apply add_client_inr in Hadd as (e & f & p & n & -> & He & Hf & Hp & Hn). simpl in *.
    destruct (add_env_spec _ _ _ _ Henvwf He) as [Hewf Hespec].
    destruct (add_files_spec _ _ _ _ Hfok Hf) as [Hfok' Hfspec].
    constructor; simpl; try done.
    + intros k v. rewrite Hespec, Henv, exists_snoc. done.
    + intros q g. rewrite Hfspec, Hfiles, exists_snoc. naive_solver.
    + rewrite bind_app, bind_singleton. by eapply keyed_entries_add.
    + rewrite bind_app, bind_singleton. by eapply keyed_entries_add.
Qed.

(** *** The copies of the variables *)

Lemma copy_fold_wf (env copy : JsMap.t string string) :
  JsMap.wf copy → JsMap.wf (foldl (λ copy e, JsObject.assign copy e.1 e.2) copy env).
Proof. revert copy. induction env as [|e env IH]; intros copy; simpl; auto using JsObject.wf_assign. Qed.

Lemma get_assign (o : JsMap.t string string) k k' v :
  JsMap.wf o → JsMap.get (JsObject.assign o k v) k' =
    if decide (k = k' ∧ k ≠ "__proto__") then Some v else JsMap.get o k'.
Proof.
  intros Hwf. unfold JsObject.assign. case_bool_decide as Hk; [rewrite decide_False by naive_solver; done|].
  rewrite JsObject.get_object_set by done. repeat case_decide; naive_solver.
Qed.

Lemma copy_fold_get (env copy : JsMap.t string string) k v :
  JsMap.wf copy → JsMap.get (foldl (λ copy e, JsObject.assign copy e.1 e.2) copy env) k = Some v →
  JsMap.get copy k = Some v ∨ (k, v) ∈ env ∧ k ≠ "__proto__".
Proof.
  revert copy. induction env as [|[k0 v0] env IH]; intros copy Hwf; simpl; [by left|]. intros Hget.
  destruct (IH _ (JsObject.wf_assign _ _ _ Hwf) Hget) as [Hold|[Hin ?]]; [|right; split; [by right|done]].
  rewrite get_assign in Hold by done. case_decide as Hk; [|by left].
  destruct Hk as [-> Hk]. injection Hold as ->. right. split; [left|done].
Qed.

Lemma copy_fold_keep (env copy : JsMap.t string string) k v :
  JsMap.wf copy → JsMap.get copy k = Some v → k ∉ JsMap.keys env →
  JsMap.get (foldl (λ copy e, JsObject.assign copy e.1 e.2) copy env) k = Some v.
Proof.
  revert copy. induction env as [|[k0 v0] env IH]; intros copy Hwf Hget Hk; simpl; [done|].
  unfold JsMap.keys in Hk. cbn in Hk. apply not_elem_of_cons in Hk as [Hk0 Hk].
  apply IH; [by apply JsObject.wf_assign| |done]. rewrite get_assign by done.
  rewrite decide_False; [done|]. intros [-> _]. done.
Qed.

(** The copy of a record has the variables of the record, without ["__proto__"]. *)
Lemma copy_env_get (env : JsMap.t string string) k v :
  JsMap.wf env → JsMap.get (copy_env env) k = Some v ↔ (k, v) ∈ env ∧ k ≠ "__proto__".
Proof.
  intros Hwf. unfold copy_env. split.
  - intros [Hget|?]%copy_fold_get; [done|done|apply JsMap.wf_empty].
  - intros [Hin Hk]. revert Hwf Hin. generalize (JsMap.wf_empty : JsMap.wf (JsMap.empty : JsMap.t string string)).
    generalize (JsMap.empty : JsMap.t string string). unfold JsMap.wf, JsMap.keys.
    induction env as [|[k0 v0] env IH]; intros copy Hwf; simpl; [by intros _ ?%not_elem_of_nil|].
    intros [Hk0 Hnd]%NoDup_cons [Heq|Hin]%elem_of_cons.
    + injection Heq as <- <-. apply copy_fold_keep; [by apply JsObject.wf_assign| |done].
      rewrite get_assign by done. by rewrite decide_True.
    + apply IH; [by apply JsObject.wf_assign|done|done].
Qed.

Lemma copy_env_in (env : JsMap.t string string) e :
  e ∈ copy_env env → e ∈ env ∧ e.1 ≠ "__proto__".
Proof.
  intros He. assert (JsMap.wf (copy_env env)) as Hwf by apply copy_fold_wf, JsMap.wf_empty.
  destruct e as [k v]. apply JsMap.elem_of_get in He; [|done].
  apply copy_fold_get in He as [He|He]; [done|done|apply JsMap.wf_empty].
Qed.

(** ** What is validated can be assembled *)

Lemma of_key_resolve id cs :
  of_key clientId id (resolveRuntimeClients cs) = resolveRuntimeClients (of_key clientId id cs).
Proof.
  unfold of_key, resolveRuntimeClients. induction cs as [|c cs IH]; [done|]. cbn [fmap list_fmap List.filter clientId].
  case_bool_decide; cbn; by rewrite IH.
Qed.

(** The entries of the merge: the same, but for variables that are not copied. *)
Lemma merge_follows id cs v v' m :
  fold_each (validation_step id) v cs = inr v' →
  JsMap.wf v.1.1.1 → (∀ k x, JsMap.get m.1.1.1 k = Some x → JsMap.get v.1.1.1 k = Some x) →
  m.1.1.2 = v.1.1.2 → m.1.2 = v.1.2 → m.2 = v.2 →
  ∃ m', fold_each (merge_step id) m (resolveRuntimeClients cs) = inr m' ∧
    m'.1.1.2 = v'.1.1.2 ∧ m'.1.2 = v'.1.2 ∧ m'.2 = v'.2.
Proof.
  revert v m. induction cs as [|c cs IH]; intros v m; cbn [fold_each resolveRuntimeClients fmap list_fmap].
  { intros [= <-] _ _ Hf Hp He. by exists m. }
  destruct v as [[[env files] processes] endpoints], m as [[[env2 files2] processes2] endpoints2]. cbn [fst snd].
  intros (v1 & Hv1%add_client_inr & Hrest)%sum_bind_inr Hwf Hsub -> -> ->.
  destruct Hv1 as (e & f & p & n & -> & He & Hf & Hp & Hn).
  destruct (add_env_spec _ _ _ _ Hwf He) as [Hewf Hespec].
  destruct (add_env_total id env2 (copy_env c.(client_setup).(setup_env)) e) as (e2 & He2 & Hsub2).
  { intros k x Hx. apply Hespec. left. by apply Hsub. }
  { apply Forall_forall. intros [k x] [Hin _]%copy_env_in. apply Hespec. by right. }
  destruct (IH (e, f, p, n) (e2, f, p, n) Hrest Hewf Hsub2 eq_refl eq_refl eq_refl) as (m' & Hm' & Hsame).
  exists m'. split; [|done]. apply sum_bind_inr. exists (e2, f, p, n). split; [|exact Hm'].
  unfold merge_step. apply add_client_inr. exists e2, f, p, n. simpl. split; [done|]. split; [done|]. split; [done|].
  split; [by eapply add_keyed_unchecked|by eapply add_keyed_unchecked].
Qed.

Lemma resolve_bind {B} (f : RuntimeClient → list B) cs :
  (∀ c c', c.(client_processes) = c'.(client_processes) → c.(client_endpoints) = c'.(client_endpoints) →
     f c = f c') → resolveRuntimeClients cs ≫= f = cs ≫= f.
Proof.
  intros Hf. unfold resolveRuntimeClients. induction cs as [|c cs IH]; [done|].
  rewrite fmap_cons, !bind_cons, IH. f_equal. by apply Hf.
Qed.

Lemma elem_of_resolve c cs :
  c ∈ resolveRuntimeClients cs ↔ ∃ c0, c0 ∈ cs ∧
    c = mkClient c0.(clientId) (mkSetup (copy_env c0.(client_setup).(setup_env)) c0.(client_setup).(setup_files)
          c0.(client_setup).(setup_launchArgs)) c0.(client_processes) c0.(client_endpoints).
Proof. unfold resolveRuntimeClients. rewrite list_elem_of_fmap. naive_solver. Qed.

(** The map of the merge has the ids of the clients, and keeps its order. *)
Lemma merged_keys cs merged :
  fold_each merge_runtime_client JsMap.empty cs = inr merged →
  JsMap.wf merged ∧ ∀ id, is_Some (JsMap.get merged id) ↔ id ∈ clientId <$> cs.
Proof.
  apply (fold_each_ind _ (λ l m, JsMap.wf m ∧ ∀ id, is_Some (JsMap.get m id) ↔ id ∈ clientId <$> l)).
  - split; [apply JsMap.wf_empty|]. intros id. cbn. rewrite elem_of_nil. split; [by intros []|done].
  - intros done c m m' [Hwf Hkeys]. unfold merge_runtime_client. cbv zeta.
    intros (e & _ & (f & _ & (p & _ & (n & _ & [= <-])%sum_bind_inr)%sum_bind_inr)%sum_bind_inr)%sum_bind_inr.
    split; [by apply JsMap.wf_set|]. intros id. rewrite JsMap.get_set, fmap_app, elem_of_app, <- Hkeys.
    cbn [fmap list_fmap]. rewrite list_elem_of_singleton. case_decide as Hid; [subst|naive_solver].
    split; [auto|eauto].
Qed.

(** What the validation and the merge agree on, per client id. *)
Lemma merge_entries cs maps merged id :
  fold_each validate_runtime_client no_clients cs = inr maps →
  fold_each merge_runtime_client JsMap.empty (resolveRuntimeClients cs) = inr merged →
  (merge_view merged id).1.1.2 = (validation_view maps id).1.1.2 ∧
  (merge_view merged id).1.2 = (validation_view maps id).1.2 ∧
  (merge_view merged id).2 = (validation_view maps id).2 ∧
  entries_of (validateRuntimeClientProcess id) (validateRuntimeClientEndpoint id)
    (of_key clientId id (resolveRuntimeClients cs)) (merge_view merged id).
Proof.
  intros Hv Hm.
  pose proof (fold_by_key clientId _ validation_view validation_step validate_step_view _ _ _ id Hv) as Hvid.
  pose proof (fold_by_key clientId _ merge_view merge_step merge_step_view _ _ _ id Hm) as Hmid.
  change (validation_view no_clients id) with no_entries in Hvid.
  change (merge_view JsMap.empty id) with no_entries in Hmid.
  pose proof (add_clients_spec _ _ _ _ _ _ _ Hvid) as [_ _ Hfok Hfiles Hproc Hend].
  pose proof (add_clients_spec _ _ _ _ _ _ _ Hmid) as [Hwf Henv _ _ _ _].
  rewrite of_key_resolve in Hmid.
  destruct (merge_follows id (of_key clientId id cs) no_entries _ no_entries Hvid)
    as (m' & Hm' & Hf & Hp & He); try done; [apply JsMap.wf_empty|].
  rewrite Hmid in Hm'. injection Hm' as <-. split; [done|]. split; [done|]. split; [done|].
  rewrite of_key_resolve in *. constructor; try done.
  - by rewrite Hf.
  - intros p f. rewrite Hf, Hfiles. setoid_rewrite elem_of_resolve. split.
    + intros [(c & Hc & Hin) ->]. split; [|done]. eexists. split; [by exists c|done].
    + intros [(c & (c0 & Hc0 & ->) & Hin) ->]. split; [|done]. by exists c0.
  - rewrite Hp. by rewrite (resolve_bind client_processes) by done.
  - rewrite He. by rewrite (resolve_bind client_endpoints) by done.
Qed.

Lemma validate_clients_inv cs u :
  validateRuntimeClients cs = inr u →
  ∃ maps, fold_each validate_runtime_client no_clients cs = inr maps ∧
    ∀ id endpoint, endpoint ∈ JsMap.values (validation_view maps id).2 →
      check_endpoint_process id (validation_view maps id).1.2 endpoint = inr tt.
Proof.
  unfold validateRuntimeClients. intros (maps & Hmaps & Hall%try_each_inr)%sum_bind_inr.
  exists maps. split; [done|]. intros id endpoint. unfold validation_view. cbn [snd fst].
  destruct (JsMap.get maps.(clientEndpointsByKey) id) as [endpoints|] eqn:Hget; cbn [default];
    [|by intros ?%not_elem_of_nil]. intros Hin.
  assert ((id, endpoints) ∈ maps.(clientEndpointsByKey)) as Hentry.
  { clear -Hget. revert Hget. generalize (clientEndpointsByKey maps). intros m.
    induction m as [|[k v] m IH]; cbn; [done|]. case_decide as Hk; [intros [= ->]; subst; left|right; auto]. }
  rewrite Forall_forall in Hall. specialize (Hall _ Hentry). cbn in Hall.
  apply try_each_inr in Hall. rewrite Forall_forall in Hall. by apply Hall.
Qed.

Lemma merge_view_get merged id m :
  JsMap.get merged id = Some m →
  merge_view merged id = (m.(merged_env), m.(merged_files), m.(merged_processesByKey), m.(merged_endpointsByKey)).
Proof. intros Hget. unfold merge_view. by rewrite Hget. Qed.

(** Fragments that have been validated can be assembled: the conflicts and dangling references
    [assembleCompiledRuntimePlan] checks again cannot occur any more. *)
Theorem validated_fragments_assemble (sandboxProfileId : string) (version : number)
    (image : ResolvedSandboxImage) (routing : AssociatedResourceEventRouting)
    (fragments : list CompiledRuntimePlanFragment) :
  validateCompiledRuntimePlanFragments fragments = inr tt →
  ∃ plan, assembleCompiledRuntimePlan sandboxProfileId version image routing fragments = inr plan.
Proof.
  unfold validateCompiledRuntimePlanFragments. cbv zeta.
  intros (u1 & _ & (u2 & _ & (u3 & _ & (u4 & Hclients & _)%sum_bind_inr)%sum_bind_inr)%sum_bind_inr)%sum_bind_inr.
  cbn [runtimeClients flattenCompiledRuntimePlanFragments] in Hclients.
  unfold assembleCompiledRuntimePlan. cbv zeta. revert Hclients. generalize (fragments ≫= runtimeClients).
  intros cs (maps & Hmaps & Hcheck)%validate_clients_inv.
  assert (∃ clients, mergeRuntimeClients (resolveRuntimeClients cs) = inr clients) as [clients ->];
    [|eexists; reflexivity].
  destruct (fold_by_key_total clientId _ merge_view merge_step merge_step_view merge_step_total
              JsMap.empty (resolveRuntimeClients cs)) as [merged Hmerged].
  { intros id. rewrite of_key_resolve. change (merge_view JsMap.empty id) with no_entries.
    pose proof (fold_by_key clientId _ validation_view validation_step validate_step_view _ _ _ id Hmaps) as Hvid.
    destruct (merge_follows id (of_key clientId id cs) no_entries _ no_entries Hvid) as (m' & Hm' & _);
      try done; [apply JsMap.wf_empty|]. by exists m'. }
  unfold mergeRuntimeClients. rewrite Hmerged. cbn [mbind sum_bind].
  destruct (merged_keys _ _ Hmerged) as [Hwf _].
  assert (Forall (λ e, ∃ c, merged_client e = inr c) (sort (λ l r, localeCompare l.1 r.1) merged)) as Hall.
  { apply Forall_forall. intros [id m]. rewrite elem_of_sort. intros Hin%JsMap.elem_of_get; [|done].
    destruct (merge_entries cs maps merged id Hmaps Hmerged) as (_ & Hp & He & _).
    rewrite (merge_view_get _ _ _ Hin) in Hp, He. cbn [fst snd] in Hp, He.
    unfold merged_client. cbv zeta. eexists. apply sum_bind_inr. exists tt. split; [|reflexivity].
    apply try_each_inr, Forall_forall. intros endpoint. rewrite elem_of_sort, He, Hp. apply Hcheck. }
  clear -Hall. induction Hall as [|e l [c Hc] _ [cs IH]]; [by exists []|].
  exists (c :: cs). cbn [try_map]. rewrite Hc. cbn [mbind sum_bind]. by rewrite IH.
Qed.

(** ** Routes *)

Definition unambiguous (routes : list EgressCredentialRoute) : Prop :=
  ∀ request i j l r, routes !! i = Some l → routes !! j = Some r →
    matchesRoute l request = inr true → matchesRoute r request = inr true → i = j.

Lemma validate_pairs_inv routes u i j l r :
  validate_route_pairs routes = inr u → (i < j)%nat → routes !! i = Some l → routes !! j = Some r →
  routesOverlap l r = inr false.
Proof.
  revert i j. induction routes as [|a routes IH]; intros i j; simpl; [done|].
  intros (u' & Ha%try_each_inr & Hrest)%sum_bind_inr Hij Hi Hj. destruct j as [|j]; [lia|].
  simpl in Hj. destruct i as [|i]; [|by apply (IH i j); [done|lia|..]]. injection Hi as ->.
  rewrite Forall_forall in Ha. specialize (Ha r (list_elem_of_lookup_2 _ _ _ Hj)). cbv beta in Ha.
  apply sum_bind_inr in Ha as (b & Hb & Hthrow%throw_if_inr). by subst b.
Qed.

Lemma validated_unambiguous routes u :
  validate_route_pairs routes = inr u → Forall trimmed_prefixes routes → unambiguous routes.
Proof.
  intros Hpairs Htrim request i j l r Hi Hj Hl Hr. rewrite Forall_forall in Htrim.
  pose proof (Htrim l (list_elem_of_lookup_2 _ _ _ Hi)). pose proof (Htrim r (list_elem_of_lookup_2 _ _ _ Hj)).
  destruct (Nat.lt_trichotomy i j) as [Hij|[Hij|Hij]]; [|done|]; exfalso.
  - by apply (routes_disjoint l r request); [eapply validate_pairs_inv|..].
  - by apply (routes_disjoint r l request); [eapply validate_pairs_inv|..].
Qed.

Lemma unambiguous_perm routes routes' : routes' ≡ₚ routes → unambiguous routes → unambiguous routes'.
Proof.
  intros [_ (f & Hinj & Hf)]%Permutation_inj Hun request i j l r Hi Hj Hl Hr.
  apply Hinj. rewrite Hf in Hi, Hj. eauto.
Qed.

Lemma validated_route_ids routes u : validateRoutes routes = inr u → NoDup (egressRuleId <$> routes).
Proof.
  intros (ids & Hids & _)%sum_bind_inr.
  assert (NoDup (egressRuleId <$> routes) ∧
    ∀ id, is_Some (JsMap.get ids id) ↔ id ∈ egressRuleId <$> routes) as [H' _]; [|done].
  revert Hids. apply (fold_each_ind _ (λ l m, NoDup (egressRuleId <$> l) ∧
    ∀ id, is_Some (JsMap.get m id) ↔ id ∈ egressRuleId <$> l)).
  { split; [apply NoDup_nil_2|]. intros id. cbn. rewrite elem_of_nil. split; [by intros []|done]. }
  intros done r m m' [Hnd Hm] (v & _ & Hadd)%sum_bind_inr.
  destruct (JsMap.get m r.(egressRuleId)) eqn:Hget; [done|]. injection Hadd as <-.
  rewrite fmap_app. split.
  - apply NoDup_app. split; [done|]. split; [|apply NoDup_singleton].
    intros id Hid ->%list_elem_of_singleton. apply Hm in Hid. rewrite Hget in Hid. by destruct Hid.
  - intros id. rewrite JsMap.get_set, elem_of_app, <- Hm. cbn [fmap list_fmap].
    rewrite list_elem_of_singleton. case_decide as Hid; [subst; split; [auto|eauto]|naive_solver].
Qed.

(** C27: once the routes of a plan are validated, at most one of them matches a request, so that the
    order they are kept in does not matter: a request that can be compared with the
    routes is sent by the route that matches it, from any order of the routes.  (The
    path prefixes are to have no white space around them.) *)
Theorem validated_routes_unambiguous (routes kept : list EgressCredentialRoute)
    (request : EgressRequest) (route : EgressCredentialRoute) :
  validateRoutes routes = inr tt → Forall trimmed_prefixes routes → kept ≡ₚ routes →
  (∀ other, other ∈ routes → is_Some (match matchesRoute other request with inr b => Some b | inl _ => None end)) →
  NoDup (egressRuleId <$> kept) ∧ unambiguous kept ∧
  (resolveRouteForRequest kept request = inr (Some route) ↔
     route ∈ routes ∧ matchesRoute route request = inr true).
Proof.
  intros Hvalid Htrim Hperm Hdef. pose proof Hvalid as (ids & _ & Hpairs)%sum_bind_inr.
  pose proof (unambiguous_perm _ _ Hperm (validated_unambiguous _ _ Hpairs Htrim)) as Hun.
  split; [rewrite Hperm; by apply (validated_route_ids _ tt)|]. split; [done|].
  pose proof (first_match_sorted kept request) as Hspec. split.
  - intros Hres. rewrite Hres in Hspec. by rewrite <- Hperm.
  - intros [Hin Hmatch]. rewrite <- Hperm in Hin.
    destruct (resolveRouteForRequest kept request) as [e|[found|]].
    + destruct Hspec as (o & Ho & He). rewrite Hperm in Ho. specialize (Hdef o Ho). rewrite He in Hdef.
      by destruct Hdef.
    + destruct Hspec as [Hfound Hmatch']. apply list_elem_of_lookup in Hin as [i Hi], Hfound as [j Hj].
      assert (i = j) as -> by (by eapply Hun). congruence.
    + rewrite (Hspec route Hin) in Hmatch. congruence.
Qed.

(** ** The clients of a plan *)

(** The list [out] has the first entry of every key of [l], which the others of that key equal. *)
Definition list_entries {A} (key : A → string) (equals : A → A → bool) (check : A → PlanError + unit)
    (l out : list A) : Prop :=
  NoDup (key <$> out) ∧ Forall (λ a, check a = inr tt) out ∧
  (∀ a, a ∈ l → ∃ b, b ∈ out ∧ key b = key a ∧ (a = b ∨ equals b a = true)) ∧
  (∀ a, a ∈ out → first_of key l a).

Lemma keyed_values {A} (key : A → string) check (m : JsMap.t string A) :
  keyed_ok key check m → key <$> JsMap.values m = JsMap.keys m.
Proof.
  intros [Hwf Hm]. unfold JsMap.values, JsMap.keys.
  assert (Forall (λ e : string * A, key e.2 = e.1) m) as Hall.
  { apply Forall_forall. intros [k a] Hin%JsMap.elem_of_get; [|done]. by apply Hm in Hin as [? _]. }
  clear -Hall. induction Hall as [|[k a] m Hk _ IH]; cbn in *; [done|]. by rewrite Hk, IH.
Qed.

Lemma keyed_list {A} (key : A → string) equals check compare (l : list A) (m : JsMap.t string A) :
  keyed_entries key equals check l m → list_entries key equals check l (sort compare (JsMap.values m)).
Proof.
  intros (Hok & Hall & Honly). pose proof Hok as [Hwf Hm]. split; [|split; [|split]].
  - apply NoDup_sort. by rewrite (keyed_values key check m Hok).
  - apply Forall_forall. intros a. rewrite elem_of_sort, JsMap.elem_of_values by done.
    intros [k Hk]. by apply Hm in Hk as [_ ?].
  - intros a Ha. destruct (Hall a Ha) as (b & Hb & Hab). exists b. apply Hm in Hb as Hkey.
    split; [|split; [apply Hkey|done]]. rewrite elem_of_sort, JsMap.elem_of_values by done. eauto.
  - intros a. rewrite elem_of_sort, JsMap.elem_of_values by done. intros [k Hk]. by eapply Honly.
Qed.

Record client_of (id : string) (cs : list RuntimeClient) (c : RuntimeClient) : Prop := mkClientOf {
  client_of_id : c.(clientId) = id;
  client_of_env_wf : JsMap.wf c.(client_setup).(setup_env);
  client_of_env : ∀ k v, JsMap.get c.(client_setup).(setup_env) k = Some v ↔
    ∃ c0, c0 ∈ cs ∧ (k, v) ∈ c0.(client_setup).(setup_env);
  client_of_files : ∀ f, f ∈ c.(client_setup).(setup_files) ↔ ∃ c0, c0 ∈ cs ∧ f ∈ c0.(client_setup).(setup_files);
  client_of_paths : NoDup (file_path <$> c.(client_setup).(setup_files));
  client_of_fileIds : NoDup (fileId <$> c.(client_setup).(setup_files));
  client_of_processes : list_entries processKey runtimeClientProcessSpecEquals
    (validateRuntimeClientProcess id) (cs ≫= client_processes) c.(client_processes);
  client_of_endpoints : list_entries endpointKey runtimeClientEndpointSpecEquals
    (validateRuntimeClientEndpoint id) (cs ≫= client_endpoints) c.(client_endpoints);
  client_of_references : ∀ endpoint key, endpoint ∈ c.(client_endpoints) →
    endpoint.(endpoint_processKey) = Some key → key ∈ processKey <$> c.(client_processes);
}.

Lemma sortRecord_perm (o : JsMap.t string string) : JsMap.wf o → sortRecord o ≡ₚ o.
Proof.
  intros Hwf. unfold sortRecord, JsObject.fromEntries.
  assert (JsMap.wf (sort (λ l r : string * string, localeCompare l.1 r.1) o)) as Hsorted.
  { unfold JsMap.wf, JsMap.keys. by apply NoDup_sort. }
  rewrite of_list_wf by done. rewrite JsObject.ordered_perm. apply sort_perm.
Qed.

Lemma get_perm {V} (o o' : JsMap.t string V) k : JsMap.wf o → o ≡ₚ o' → JsMap.get o k = JsMap.get o' k.
Proof.
  intros Hwf Hperm. assert (JsMap.wf o') as Hwf' by (unfold JsMap.wf, JsMap.keys; by rewrite <- Hperm).
  apply option_eq. intros v. rewrite <- !JsMap.elem_of_get by done. by rewrite Hperm.
Qed.

Lemma fromEntries_perm {V} (o : JsMap.t string V) : JsMap.wf o → JsObject.fromEntries o ≡ₚ o.
Proof. intros Hwf. unfold JsObject.fromEntries. rewrite of_list_wf by done. apply JsObject.ordered_perm. Qed.

Lemma file_list (files : file_maps) compare :
  files_ok files →
  (λ e : string * RuntimeClientSetupFile, mkFile e.2.(fileId) e.1 e.2.(file_mode) e.2.(file_content) e.2.(file_writeMode))
    <$> sort compare files.1 ≡ₚ JsMap.values files.1.
Proof.
  intros (Hwf & _ & Hpath & _). rewrite sort_perm. unfold JsMap.values.
  assert (Forall (λ e : string * RuntimeClientSetupFile, e.2.(file_path) = e.1) files.1) as Hall.
  { apply Forall_forall. intros [p f] Hin%JsMap.elem_of_get; [|done]. by apply Hpath in Hin as [? _]. }
  clear -Hall. induction Hall as [|[p f] l Hp _ IH]; cbn in *; [done|].
  rewrite IH. destruct f. cbn in *. by subst.
Qed.

Lemma files_NoDup (files : file_maps) :
  files_ok files → NoDup (file_path <$> JsMap.values files.1) ∧ NoDup (fileId <$> JsMap.values files.1).
Proof.
  intros (Hwf & Hwf2 & Hpath & Hid).
  assert (NoDup (file_path <$> JsMap.values files.1)) as Hpaths.
  { rewrite (keyed_values file_path (λ _, inr tt) files.1); [done|]. split; [done|].
    intros p f Hf. by apply Hpath in Hf as [? _]. }
  split; [done|]. apply NoDup_fmap_2_strong; [|by eapply NoDup_fmap_1].
  intros f g Hf Hg Heq. rewrite JsMap.elem_of_values in Hf, Hg by done.
  destruct Hf as [p Hf], Hg as [q Hg]. apply Hpath in Hf as [_ Hf], Hg as [_ Hg].
  rewrite Heq in Hf. congruence.
Qed.

Lemma merged_client_of id m cs c :
  entries_of (validateRuntimeClientProcess id) (validateRuntimeClientEndpoint id) cs
    (m.(merged_env), m.(merged_files), m.(merged_processesByKey), m.(merged_endpointsByKey)) →
  merged_client (id, m) = inr c → client_of id cs c.
Proof.
  intros [Henvwf Henv Hfok Hfiles Hproc Hend]. cbn [fst snd] in *. unfold merged_client. cbv zeta.
  intros (u & Hcheck%try_each_inr & [= <-])%sum_bind_inr.
  assert (JsMap.wf (sortRecord (JsObject.fromEntries (merged_env m))))
    as Hwf by apply JsObject.wf_fromEntries.
  pose proof (file_list (merged_files m) (λ l r, localeCompare l.1 r.1) Hfok) as Hperm.
  destruct (files_NoDup _ Hfok) as [Hpaths Hids].
  constructor; cbn [clientId client_setup setup_env setup_files client_processes client_endpoints].
  - done.
  - done.
  - intros k v. rewrite (get_perm _ (merged_env m)); [apply Henv|done|].
    rewrite sortRecord_perm by apply JsObject.wf_fromEntries. by apply fromEntries_perm.
  - intros f. rewrite Hperm, JsMap.elem_of_values by apply Hfok. split.
    + intros [p [Hex _]%Hfiles]. exact Hex.
    + intros Hex. exists f.(file_path). apply Hfiles. by split.
  - by rewrite Hperm.
  - by rewrite Hperm.
  - by apply keyed_list.
  - by apply keyed_list.
  - intros endpoint key Hin Hkey. rewrite Forall_forall in Hcheck. specialize (Hcheck endpoint Hin).
    unfold check_endpoint_process in Hcheck. rewrite Hkey in Hcheck.
    apply throw_if_inr, negb_false_iff, JsMap.has_spec, JsMap.elem_of_keys in Hcheck.
    destruct Hproc as [Hok _]. rewrite <- (keyed_values _ _ _ Hok) in Hcheck.
    rewrite (fmap_Permutation processKey _ _ (sort_perm _ _)). exact Hcheck.
Qed.

(** The clients of a plan, of the clients [cs] of its fragments. *)
Lemma plan_clients cs clients u :
  validateRuntimeClients cs = inr u → mergeRuntimeClients (resolveRuntimeClients cs) = inr clients →
  NoDup (clientId <$> clients) ∧ (∀ id, id ∈ clientId <$> clients ↔ id ∈ clientId <$> cs) ∧
  Forall (λ c, client_of c.(clientId) (of_key clientId c.(clientId) (resolveRuntimeClients cs)) c) clients.
Proof.
  intros (maps & Hmaps & _)%validate_clients_inv (merged & Hmerged & Hclients%try_map_inr)%sum_bind_inr.
  destruct (merged_keys _ _ Hmerged) as [Hwf Hkeys].
  assert (clientId <$> clients = JsMap.keys (sort (λ l r, localeCompare l.1 r.1) merged)) as Hids.
  { unfold JsMap.keys. clear -Hclients. induction Hclients as [|[id m] c l cs Hc _ IH]; [done|].
    cbn [fmap list_fmap fst]. change (@fmap list list_fmap) with (@fmap list _) in *. f_equal; [|exact IH].
    unfold merged_client in Hc. cbv zeta in Hc. by apply sum_bind_inr in Hc as (u & _ & [= <-]). }
  split; [rewrite Hids; by apply NoDup_sort|]. split.
  - intros id. rewrite Hids. unfold JsMap.keys. rewrite (fmap_Permutation fst _ _ (sort_perm _ _)).
    change (id ∈ JsMap.keys merged ↔ id ∈ clientId <$> cs).
    rewrite JsMap.elem_of_keys, Hkeys. unfold resolveRuntimeClients.
    rewrite <- list_fmap_compose. done.
  - apply Forall_forall. intros c Hc.
    apply list_elem_of_lookup in Hc as [i Hi].
    destruct (Forall2_lookup_r _ _ _ _ _ Hclients Hi) as ([id m] & Hid & Hbuilt).
    apply list_elem_of_lookup_2, elem_of_sort, JsMap.elem_of_get in Hid; [|done].
    destruct (merge_entries cs maps merged id Hmaps Hmerged) as (_ & _ & _ & Hentries).
    rewrite (merge_view_get _ _ _ Hid) in Hentries.
    pose proof (merged_client_of _ _ _ _ Hentries Hbuilt) as Hof.
    by rewrite (client_of_id _ _ _ Hof).
Qed.

(** ** Artifacts, workspace sources and agent runtimes *)

Definition check_artifact (artifact : CompiledRuntimeArtifactSpec) : PlanError + unit :=
  let key := artifact.(artifactKey) in
  _ ← match artifact.(artifact_env) with
      | None => inr tt
      | Some env => try_each (validate_env_key key) (JsMap.keys env)
      end;
  _ ← throw_if (bool_decide (length artifact.(artifact_install) = 0%nat))
        (artifact_conflict ("Artifact " +:+ quote key +:+ " must include at least one install command."));
  try_each (validateArtifactInstallEntry key) artifact.(artifact_install).

Definition conflicting_artifact (key : string) : PlanError :=
  artifact_conflict ("Artifact key conflict detected for " +:+ quote key +:+ ".").

Lemma validate_artifact_keyed m artifact :
  validate_artifact m artifact
  = add_keyed artifactKey hasEquivalentSpec check_artifact conflicting_artifact m artifact.
Proof.
  unfold validate_artifact, add_keyed, check_artifact. cbv zeta.
  destruct (match artifact_env artifact with None => inr tt | Some _ => _ end); [done|]. cbn [mbind sum_bind].
  destruct (throw_if _ _); [done|]. cbn [mbind sum_bind]. by destruct (try_each _ _).
Qed.

Lemma dedupe_keyed (l : list CompiledRuntimeArtifactSpec) m m' :
  fold_each (add_keyed artifactKey hasEquivalentSpec check_artifact conflicting_artifact) m l = inr m' →
  foldl (λ m a, if JsMap.has m a.(artifactKey) then m else JsMap.set m a.(artifactKey) a) m l = m'.
Proof.
  revert m. induction l as [|a l IH]; intros m; cbn [fold_each foldl]; [by intros [= ->]|].
  intros (m1 & (u & _ & Hadd)%sum_bind_inr & Hl)%sum_bind_inr. rewrite <- (IH m1 Hl). f_equal.
  destruct (JsMap.get m a.(artifactKey)) as [b|] eqn:Hget.
  - apply sum_bind_inr in Hadd as (u' & _ & [= <-]). by rewrite (proj2 (JsMap.has_spec _ _)) by eauto.
  - injection Hadd as <-. by rewrite (proj2 (JsMap.has_false _ _)) by done.
Qed.

(** The artifacts of a plan are those of the fragments, the first of every key, with their
    variables sorted. *)
Definition artifacts_of (l out : list CompiledRuntimeArtifactSpec) : Prop :=
  ∃ kept, list_entries artifactKey hasEquivalentSpec check_artifact l kept ∧
    out ≡ₚ (λ a, mkArtifact a.(artifactKey) a.(artifact_name) a.(artifact_description)
                   (sortRecord <$> a.(artifact_env)) a.(artifact_install)) <$> kept.

Lemma validated_artifacts l u : validateArtifacts l = inr u → artifacts_of l (sortArtifacts (dedupeArtifacts l)).
Proof.
  intros (m & Hm & _)%sum_bind_inr.
  assert (fold_each (add_keyed artifactKey hasEquivalentSpec check_artifact conflicting_artifact) JsMap.empty l
          = inr m) as Hkeyed.
  { rewrite <- Hm. clear. generalize (JsMap.empty : JsMap.t string CompiledRuntimeArtifactSpec).
    induction l as [|a l IH]; intros m; cbn [fold_each]; [done|]. rewrite validate_artifact_keyed.
    destruct (add_keyed _ _ _ _ _ _); [done|apply IH]. }
  pose proof (dedupe_keyed l _ _ Hkeyed) as Hdedupe.
  assert (keyed_entries artifactKey hasEquivalentSpec check_artifact ([] ++ l) m) as Hentries.
  { eapply keyed_entries_add; [|exact Hkeyed]. split; [apply keyed_ok_empty|].
    split; [by intros a ?%not_elem_of_nil|done]. }
  exists (sort (λ _ _, 0) (JsMap.values m)). split; [by apply keyed_list|].
  unfold sortArtifacts, dedupeArtifacts. by rewrite Hdedupe, !sort_perm.
Qed.

Lemma validated_sources l u :
  validateWorkspaceSources l = inr u →
  NoDup (source_path <$> l) ∧
  Forall (λ s, blank s.(source_path) = false ∧ blank s.(source_originUrl) = false) l.
Proof.
  intros (m & Hm & _)%sum_bind_inr. revert Hm.
  assert (fold_each validate_workspace_source JsMap.empty l = inr m →
    NoDup (source_path <$> l) ∧ (∀ p, is_Some (JsMap.get m p) ↔ p ∈ source_path <$> l) ∧
    Forall (λ s, blank s.(source_path) = false ∧ blank s.(source_originUrl) = false) l) as H'; [|naive_solver].
  apply (fold_each_ind _ (λ l m, NoDup (source_path <$> l) ∧
    (∀ p, is_Some (JsMap.get m p) ↔ p ∈ source_path <$> l) ∧
    Forall (λ s, blank s.(source_path) = false ∧ blank s.(source_originUrl) = false) l)).
  - split; [apply NoDup_nil_2|]. split; [|constructor]. intros p. cbn. rewrite elem_of_nil.
    split; [by intros []|done].
  - intros done s m1 m2 (Hnd & Hkeys & Hall). unfold validate_workspace_source. cbv zeta.
    intros (u1 & H1%throw_if_inr & (u2 & H2%throw_if_inr & (u3 & H3%throw_if_inr & [= <-])%sum_bind_inr)%sum_bind_inr)%sum_bind_inr.
    apply JsMap.has_false in H3. rewrite fmap_app. split; [|split].
    + apply NoDup_app. split; [done|]. split; [|apply NoDup_singleton].
      intros p Hp ->%list_elem_of_singleton. apply Hkeys in Hp. rewrite H3 in Hp. by destruct Hp.
    + intros p. rewrite JsMap.get_set, elem_of_app, <- Hkeys. cbn [fmap list_fmap].
      rewrite list_elem_of_singleton. case_decide; [subst; split; [auto|eauto]|naive_solver].
    + apply Forall_app. split; [done|]. by constructor.
Qed.

(** A launch template that can be used: for a new conversation without a thread id, and for a
    conversation to resume with its thread id. *)
Definition launch_ok (launch : AgentPtyLaunchSpec) : Prop :=
  (∃ resolved, resolveAgentPtyLaunchTemplate launch None = inr resolved ∧
     Forall (λ argument, blank argument = false) resolved.(resolved_args)) ∧
  ∀ threadId, ∃ resolved, resolveAgentPtyLaunchTemplate launch (Some threadId) = inr resolved ∧
    threadId ∈ resolved.(resolved_args).

Lemma with_index_snd {A} (l : list A) : (with_index l).*2 = l.
Proof. unfold with_index. rewrite fmap_imap. apply list_eq. intros i. rewrite list_lookup_imap. by destruct (l !! i). Qed.

Lemma template_inv source key t template u :
  validateLaunchTemplate source key t template = inr u →
  Forall (λ a, match a with LiteralArgument value => blank value = false | ThreadIdArgument => True end)
    template.(template_args) ∧
  match t with
  | NewLaunch => Forall (λ a, is_threadId a = false) template.(template_args)
  | ResumeLaunch => ThreadIdArgument ∈ template.(template_args)
  end.
Proof.
  unfold validateLaunchTemplate. cbv zeta.
  intros (u1 & _ & (u2 & _ & (u3 & _ & (u4 & _ & (u5 & Hargs%try_each_inr & Hcount)%sum_bind_inr)%sum_bind_inr)%sum_bind_inr)%sum_bind_inr)%sum_bind_inr.
  split.
  - rewrite <- (with_index_snd (template_args template)). apply Forall_fmap.
    eapply Forall_impl; [exact Hargs|]. intros [i a] Ha%throw_if_inr. cbn in *. by destruct a.
  - destruct t; apply throw_if_inr in Hcount.
    + apply negb_false_iff, Nat.eqb_eq, length_zero_iff_nil in Hcount. apply Forall_forall. intros a Ha.
      destruct (is_threadId a) eqn:Hid; [|done]. exfalso.
      assert (a ∈ List.filter is_threadId template.(template_args)) as Hin
        by (by apply elem_of_filter_map_bool).
      rewrite Hcount in Hin. by apply not_elem_of_nil in Hin.
    + apply Nat.eqb_neq in Hcount. destruct (List.filter is_threadId _) as [|a l] eqn:Hl; [done|].
      assert (a ∈ List.filter is_threadId template.(template_args)) as Hin by (rewrite Hl; left).
      apply elem_of_filter_map_bool in Hin as [Hin Ha]. by destruct a.
Qed.

Lemma materialize_new template :
  Forall (λ a, match a with LiteralArgument value => blank value = false | ThreadIdArgument => True end)
    template.(template_args) →
  Forall (λ a, is_threadId a = false) template.(template_args) →
  ∃ args, materializeAgentPtyLaunchArgs template None = inr args ∧ Forall (λ a, blank a = false) args.
Proof.
  unfold materializeAgentPtyLaunchArgs. generalize (template_args template). intros l.
  induction l as [|[value|] l IH]; cbn; [by exists []| |].
  - intros [Hv Hlit]%Forall_cons [_ Hnew]%Forall_cons. destruct (IH Hlit Hnew) as (args & -> & Hargs).
    exists (value :: args). split; [done|]. by constructor.
  - by intros _ [? _]%Forall_cons.
Qed.

Lemma materialize_resume template threadId :
  ThreadIdArgument ∈ template.(template_args) →
  ∃ args, materializeAgentPtyLaunchArgs template (Some threadId) = inr args ∧ threadId ∈ args.
Proof.
  unfold materializeAgentPtyLaunchArgs. generalize (template_args template). intros l Hin.
  assert (∀ l, ∃ args, try_map (λ argument, match argument with LiteralArgument value => inr value
    | ThreadIdArgument => inr threadId end : PlanError + string) l = inr args) as Htotal.
  { clear. induction l as [|[value|] l [args IH]]; cbn; [by exists []|rewrite IH; by eexists|rewrite IH; by eexists]. }
  induction l as [|a l IH]; [by apply not_elem_of_nil in Hin|]. apply elem_of_cons in Hin as [<-|Hin].
  - destruct (Htotal l) as [args Hargs]. exists (threadId :: args). cbn. cbn in Hargs. rewrite Hargs. split; [done|left].
  - destruct (IH Hin) as (args & Hargs & Hid). destruct a as [value|]; cbn; cbn in Hargs; rewrite Hargs;
      (eexists; split; [reflexivity|by right]).
Qed.

Lemma validated_launch source key runtimeId launch u :
  validateAgentPtyLaunch source key runtimeId launch = inr u → launch_ok launch.
Proof.
  unfold validateAgentPtyLaunch. cbv zeta.
  intros (u1 & _ & (u2 & _ & (u3 & [Hlit Hnew]%template_inv & [_ Hresume]%template_inv)%sum_bind_inr)%sum_bind_inr)%sum_bind_inr.
  unfold launch_ok, resolveAgentPtyLaunchTemplate. split.
  - destruct (materialize_new _ Hlit Hnew) as (args & Hargs & Hblank).
    eexists. split; [cbv beta iota zeta; rewrite Hargs; reflexivity|done].
  - intros threadId. destruct (materialize_resume _ threadId Hresume) as (args & Hargs & Hin).
    eexists. split; [cbv beta iota zeta; rewrite Hargs; reflexivity|done].
Qed.
End Clients.

(** *** The theorems on the example *)

Lemma validated_fragments_assemble_witness :
  ∃ plan, @assembleCompiledRuntimePlan reference_locale "sbp_1" (Int 1) (BaseImage "image") example_routing
            example_fragments = inr plan.
Proof.
  apply (@validated_fragments_assemble reference_locale reference_urls). vm_compute. reflexivity.
Defined.

Definition example_get : EgressRequest := mkRequest "api.github.com" "/repos/acme" "GET".

Definition example_get_route : EgressCredentialRoute :=
  mkRoute "egress_rule_bnd_1" "bnd_1" "github" "cloud" example_read.

Lemma validated_routes_unambiguous_witness :
  resolveRouteForRequest (rev example_routes) example_get = inr (Some example_get_route).
Proof.
  refine (proj2 (proj2 (proj2 (@validated_routes_unambiguous reference_locale example_routes (rev example_routes)
    example_get example_get_route _ _ _ _))) _).
  - vm_compute. reflexivity.
  - constructor; [vm_compute; repeat constructor|constructor; [vm_compute; repeat constructor|constructor]].
  - rewrite rev_alt. apply reverse_Permutation.
  - intros other Hother. apply elem_of_cons in Hother as [->|Hother]; [vm_compute; by eexists|].
    apply list_elem_of_singleton in Hother as ->. vm_compute. by eexists.
  - split; [left|vm_compute; reflexivity].
Defined.
