(* ===== verification/PlanWellFormed.v ===== *)
(** * Well-formed runtime plans

    [plan_ok] says what a sandbox may rely on in a plan: unique keys, references that
    resolve, entries that pass the checks, a sorted listing.  [assembled_plan_ok]: what is
    assembled of validated fragments is such a plan; [assembled_plan_covers]: what it has
    of the fragments, and what is dropped of entries that share a key. *)

From S2P Require Import Prelude JsMap JsObject Json DataFrame Text Locale PlanTypes EgressRoutes PlanValidation.
From S2P Require Import PlanExample PlanAssembly PlanSpec.
Local Open Scope Z_scope.

Section WellFormed.
Context `{Locale} `{Urls}.

(** ** Agent runtimes *)

(** The runtime names a client of [clients] and one of its endpoints. *)
Definition agent_resolved (clients : list RuntimeClient) (a : CompiledAgentRuntime) : Prop :=
  ∃ c, c ∈ clients ∧ c.(clientId) = a.(agent_clientId) ∧
    a.(agent_endpointKey) ∈ endpointKey <$> c.(client_endpoints).

Lemma endpoint_keys_spec clients id keys key :
  JsMap.get (foldl add_endpoint_keys JsMap.empty clients) id = Some keys → key ∈ keys →
  ∃ c, c ∈ clients ∧ c.(clientId) = id ∧ key ∈ endpointKey <$> c.(client_endpoints).
Proof.
  assert (∀ m, JsMap.get (foldl add_endpoint_keys m clients) id = Some keys → key ∈ keys →
    (∃ ks, JsMap.get m id = Some ks ∧ key ∈ ks) ∨
    ∃ c, c ∈ clients ∧ c.(clientId) = id ∧ key ∈ endpointKey <$> c.(client_endpoints)) as H'.
  { induction clients as [|c clients IH]; cbn [foldl]; intros m Hget Hkey; [left; eauto|].
    destruct (IH _ Hget Hkey) as [(ks & Hks & Hin)|(c' & Hc' & ?)]; [|right; exists c'; split; [by right|done]].
    unfold add_endpoint_keys in Hks. cbv zeta in Hks. rewrite JsMap.get_set in Hks.
    case_decide as Hid; [|left; eauto]. injection Hks as <-. apply elem_of_app in Hin as [Hin|Hin].
    - rewrite Hid in Hin. destruct (JsMap.get m id) as [ks|]; cbn in Hin; [left; eauto|by apply not_elem_of_nil in Hin].
    - right. exists c. split; [left|done]. }
  intros Hget Hkey. destruct (H' _ Hget Hkey) as [(ks & ? & _)|]; done.
Qed.

Lemma validated_agents clients l u :
  validateAgentRuntimes clients l = inr u →
  NoDup (runtimeKey <$> l) ∧ Forall (λ a, agent_resolved clients a ∧ launch_ok a.(ptyLaunch)) l.
Proof.
  unfold validateAgentRuntimes. cbv zeta. intros (keys & Hfold & _)%sum_bind_inr. revert Hfold.
  assert (fold_each (validate_agent_runtime (foldl add_endpoint_keys JsMap.empty clients)) [] l = inr keys →
    NoDup (runtimeKey <$> l) ∧ keys = runtimeKey <$> l ∧
    Forall (λ a, agent_resolved clients a ∧ launch_ok a.(ptyLaunch)) l) as H'; [|naive_solver].
  apply (fold_each_ind _ (λ l keys, NoDup (runtimeKey <$> l) ∧ keys = runtimeKey <$> l ∧
    Forall (λ a, agent_resolved clients a ∧ launch_ok a.(ptyLaunch)) l)).
  { split; [apply NoDup_nil_2|]. split; [done|constructor]. }
  intros done a ks ks' (Hnd & -> & Hall). unfold validate_agent_runtime. cbv zeta.
  intros (u1 & _ & (u2 & Hnew%throw_if_inr & (u3 & _ & (u4 & _ & (u5 & Hendpoint & (u6 & Hlaunch%validated_launch & [= <-])%sum_bind_inr)%sum_bind_inr)%sum_bind_inr)%sum_bind_inr)%sum_bind_inr)%sum_bind_inr.
  apply bool_decide_eq_false in Hnew. rewrite fmap_app. split; [|split].
  - apply NoDup_app. split; [done|]. split; [|apply NoDup_singleton].
    by intros k Hk ->%list_elem_of_singleton.
  - done.
  - apply Forall_app. split; [done|]. constructor; [|done]. split; [|done].
    destruct (JsMap.get _ a.(agent_clientId)) as [keys'|] eqn:Hget; [|done].
    apply sum_bind_inr in Hendpoint as (u7 & _ & Hin%throw_if_inr).
    apply negb_false_iff, bool_decide_eq_true in Hin. by apply (endpoint_keys_spec clients _ keys').
Qed.

(** ** Well-formed plans *)

Record artifact_ok (a : CompiledRuntimeArtifactSpec) : Prop := mkArtifactOk {
  artifact_installs : a.(artifact_install) ≠ [];
  artifact_steps : Forall (λ step, validateArtifactInstallEntry a.(artifactKey) step = inr tt) a.(artifact_install);
  artifact_env_keys : ∀ env key, a.(artifact_env) = Some env → key ∈ JsMap.keys env →
    validate_env_key a.(artifactKey) key = inr tt;
}.

Record client_ok (c : RuntimeClient) : Prop := mkClientOk {
  client_env_wf : JsMap.wf c.(client_setup).(setup_env);
  client_paths : NoDup (file_path <$> c.(client_setup).(setup_files));
  client_fileIds : NoDup (fileId <$> c.(client_setup).(setup_files));
  client_processKeys : NoDup (processKey <$> c.(client_processes));
  client_endpointKeys : NoDup (endpointKey <$> c.(client_endpoints));
  client_processes_valid :
    Forall (λ p, validateRuntimeClientProcess c.(clientId) p = inr tt) c.(client_processes);
  client_endpoints_valid :
    Forall (λ e, validateRuntimeClientEndpoint c.(clientId) e = inr tt) c.(client_endpoints);
  client_references : ∀ endpoint key, endpoint ∈ c.(client_endpoints) →
    endpoint.(endpoint_processKey) = Some key → key ∈ processKey <$> c.(client_processes);
}.

Record plan_ok (plan : CompiledRuntimePlan) : Prop := mkPlanOk {
  plan_route_ids : NoDup (egressRuleId <$> plan.(plan_egressRoutes));
  plan_routes_unambiguous :
    Forall trimmed_prefixes plan.(plan_egressRoutes) → unambiguous plan.(plan_egressRoutes);
  plan_artifact_keys : NoDup (artifactKey <$> plan.(plan_artifacts));
  plan_artifacts_ok : Forall artifact_ok plan.(plan_artifacts);
  plan_source_paths : NoDup (source_path <$> plan.(plan_workspaceSources));
  plan_client_ids : NoDup (clientId <$> plan.(plan_runtimeClients));
  plan_clients_ok : Forall client_ok plan.(plan_runtimeClients);
  plan_runtime_keys : NoDup (runtimeKey <$> plan.(plan_agentRuntimes));
  plan_runtimes_ok :
    Forall (λ a, agent_resolved plan.(plan_runtimeClients) a ∧ launch_ok a.(ptyLaunch)) plan.(plan_agentRuntimes);
}.

(** What the parts of the assembled plan are. *)
Lemma assembled_parts sandboxProfileId version image routing fragments plan :
  assembleCompiledRuntimePlan sandboxProfileId version image routing fragments = inr plan →
  plan.(plan_egressRoutes) = orderRoutesForMatching (fragments ≫= egressRoutes) ∧
  plan.(plan_artifacts) = sortArtifacts (dedupeArtifacts (fragments ≫= artifacts)) ∧
  plan.(plan_workspaceSources) ≡ₚ (fragments ≫= workspaceSources) ∧
  plan.(plan_agentRuntimes) ≡ₚ (fragments ≫= agentRuntimes) ∧
  mergeRuntimeClients (resolveRuntimeClients (fragments ≫= runtimeClients)) = inr plan.(plan_runtimeClients).
Proof.
  unfold assembleCompiledRuntimePlan. cbv zeta. intros (clients & Hclients & [= <-])%sum_bind_inr.
  cbn [plan_egressRoutes plan_artifacts plan_workspaceSources plan_agentRuntimes plan_runtimeClients].
  split; [done|]. split; [done|]. split; [apply sort_perm|]. split; [apply sort_perm|done].
Qed.

Lemma validated_parts fragments u :
  validateCompiledRuntimePlanFragments fragments = inr u →
  validateRoutes (fragments ≫= egressRoutes) = inr tt ∧ validateArtifacts (fragments ≫= artifacts) = inr tt ∧
  validateWorkspaceSources (fragments ≫= workspaceSources) = inr tt ∧
  validateRuntimeClients (fragments ≫= runtimeClients) = inr tt ∧
  validateAgentRuntimes (fragments ≫= runtimeClients) (fragments ≫= agentRuntimes) = inr tt.
Proof.
  unfold validateCompiledRuntimePlanFragments. cbv zeta. destruct u.
  intros ([] & H1 & ([] & H2 & ([] & H3 & ([] & H4 & H5)%sum_bind_inr)%sum_bind_inr)%sum_bind_inr)%sum_bind_inr.
  done.
Qed.

Lemma of_list_in {V} (l : list (string * V)) e : e ∈ JsMap.of_list l → e ∈ l.
Proof.
  unfold JsMap.of_list.
  assert (∀ m : JsMap.t string V, e ∈ foldl (λ m e, JsMap.set m e.1 e.2) m l → e ∈ m ∨ e ∈ l) as H'.
  { induction l as [|[k v] l IH]; intros m; cbn [foldl]; [auto|]. intros [Hin|Hin]%IH; [|right; by right].
    assert (∀ m : JsMap.t string V, e ∈ JsMap.set m k v → e ∈ m ∨ e = (k, v)) as Hset.
    { clear. induction m as [|[k' v'] m IHm]; cbn; [by intros ->%list_elem_of_singleton; right|].
      case_decide; intros [->|Hin]%elem_of_cons; [by right|left; by right|left; left|].
      destruct (IHm Hin); [left; by right|by right]. }
    destruct (Hset m Hin) as [?| ->]; [by left|right; left]. }
  intros [He|]%H'; [by apply not_elem_of_nil in He|done].
Qed.

Lemma sortRecord_in (o : JsMap.t string string) e : e ∈ sortRecord o → e ∈ o.
Proof.
  unfold sortRecord, JsObject.fromEntries. rewrite JsObject.ordered_perm.
  intros Hin%of_list_in. by rewrite sort_perm in Hin.
Qed.

Lemma artifacts_ok l out : artifacts_of l out → NoDup (artifactKey <$> out) ∧ Forall artifact_ok out.
Proof.
  intros (kept & (Hnd & Hchecked & _) & Hperm). rewrite Hperm. split.
  - rewrite <- list_fmap_compose. exact Hnd.
  - apply Forall_fmap. eapply Forall_impl; [exact Hchecked|]. intros a. unfold check_artifact. cbv zeta beta.
    intros (u1 & Henv & (u2 & Hlen%throw_if_inr & Hsteps%try_each_inr)%sum_bind_inr)%sum_bind_inr.
    constructor; cbn [artifactKey artifact_install artifact_env compose].
    + apply bool_decide_eq_false in Hlen. by intros Hnil; rewrite Hnil in Hlen.
    + exact Hsteps.
    + intros env key Hsome Hkey. destruct (artifact_env a) as [env0|]; [|done]. injection Hsome as <-.
      apply try_each_inr in Henv. rewrite Forall_forall in Henv. apply Henv. unfold JsMap.keys in *.
      apply list_elem_of_fmap in Hkey as (e & -> & He%sortRecord_in). by apply list_elem_of_fmap_2.
Qed.

Lemma client_of_ok id cs c : client_of id cs c → client_ok c.
Proof.
  intros [Hid Hwf _ _ Hpaths Hids (Hp1 & Hp2 & _) (He1 & He2 & _) Hrefs]. subst id. by constructor.
Qed.

Lemma elem_of_of_key {A} (key : A → string) k l a : a ∈ of_key key k l ↔ a ∈ l ∧ key a = k.
Proof. unfold of_key. by rewrite elem_of_filter_map_bool, bool_decide_eq_true. Qed.

(** Validated fragments make a well-formed plan. *)
Lemma assembled_plan_ok sandboxProfileId version image routing fragments plan :
  validateCompiledRuntimePlanFragments fragments = inr tt →
  assembleCompiledRuntimePlan sandboxProfileId version image routing fragments = inr plan → plan_ok plan.
Proof.
  intros (Hroutes & Hartifacts & Hsources & Hclients & Hagents)%validated_parts
    (Hr & Ha & Hs & Hg & Hc)%assembled_parts.
  destruct (artifacts_ok _ _ (validated_artifacts _ _ Hartifacts)) as [Hakeys Haok].
  destruct (validated_sources _ _ Hsources) as [Hskeys _].
  destruct (plan_clients _ _ _ Hclients Hc) as (Hids & Hsame & Hof).
  destruct (validated_agents _ _ _ Hagents) as [Hgkeys Hgok].
  pose proof Hroutes as (ids & _ & Hpairs)%sum_bind_inr.
  assert (plan.(plan_egressRoutes) ≡ₚ (fragments ≫= egressRoutes)) as Hperm by (rewrite Hr; apply sort_perm).
  constructor.
  - rewrite Hperm. by apply (validated_route_ids _ tt).
  - intros Htrim. rewrite Hperm in Htrim. eapply unambiguous_perm; [exact Hperm|].
    by eapply validated_unambiguous.
  - by rewrite Ha.
  - by rewrite Ha.
  - by rewrite Hs.
  - done.
  - eapply Forall_impl; [exact Hof|]. intros c. apply client_of_ok.
  - by rewrite Hg.
  - rewrite Hg. eapply Forall_impl; [exact Hgok|]. intros a [(c0 & Hc0 & Hid & Hkey) Hlaunch].
    split; [|done]. assert (a.(agent_clientId) ∈ clientId <$> plan.(plan_runtimeClients)) as Hin.
    { apply Hsame, list_elem_of_fmap. by exists c0. }
    apply list_elem_of_fmap in Hin as (c & Hcid & Hcin). exists c. split; [done|]. split; [done|].
    rewrite Forall_forall in Hof. destruct (client_of_endpoints _ _ _ (Hof c Hcin)) as (_ & _ & Hall & _).
    apply list_elem_of_fmap in Hkey as (endpoint & -> & Hendpoint).
    destruct (Hall endpoint) as (b & Hb & <- & _); [|by apply list_elem_of_fmap_2].
    apply list_elem_of_bind. rewrite of_key_resolve.
    exists (mkClient c0.(clientId) (mkSetup (copy_env c0.(client_setup).(setup_env))
              c0.(client_setup).(setup_files) c0.(client_setup).(setup_launchArgs))
              c0.(client_processes) c0.(client_endpoints)).
    split; [done|]. apply elem_of_resolve. exists c0. split; [|done]. apply elem_of_of_key.
    split; [done|congruence].
Qed.

(** ** What is in the plan *)

Lemma merged_launchArgs_spec cs merged id :
  fold_each merge_runtime_client JsMap.empty cs = inr merged →
  (default new_merged (JsMap.get merged id)).(merged_launchArgs)
  = of_key clientId id cs ≫= λ c, default [] c.(client_setup).(setup_launchArgs).
Proof.
  intros Hfold.
  set (view := λ (m : JsMap.t string MergedClient) (id : string),
                 (default new_merged (JsMap.get m id)).(merged_launchArgs)).
  set (one := λ (_ : string) (args : list string) (c : RuntimeClient),
                inr (args ++ default [] c.(client_setup).(setup_launchArgs)) : PlanError + list string).
  assert (∀ m c m', merge_runtime_client m c = inr m' →
    one c.(clientId) (view m c.(clientId)) c = inr (view m' c.(clientId)) ∧
    ∀ k, k ≠ c.(clientId) → view m' k = view m k) as Hstep.
  { intros m c m'. unfold merge_runtime_client. cbv zeta.
    intros (e & _ & (f & _ & (p & _ & (n & _ & [= <-])%sum_bind_inr)%sum_bind_inr)%sum_bind_inr)%sum_bind_inr.
    unfold view, one. split; [by rewrite JsMap.get_set_eq|]. intros k Hk. by rewrite JsMap.get_set_ne. }
  pose proof (fold_by_key clientId _ view one Hstep _ _ _ id Hfold) as Hargs.
  change (view JsMap.empty id) with ([] : list string) in Hargs. unfold view in Hargs.
  assert (∀ l args, fold_each (one id) args l
    = inr (args ++ (l ≫= λ c, default [] c.(client_setup).(setup_launchArgs)))) as Hall.
  { induction l as [|c l IH]; intros args; cbn [fold_each]; [by rewrite app_nil_r|].
    assert (one id args c = inr (args ++ default [] c.(client_setup).(setup_launchArgs))) as -> by done.
    cbn [mbind sum_bind]. rewrite IH, <- app_assoc. done. }
  rewrite Hall in Hargs. by injection Hargs as <-.
Qed.

(** *** Entries that agree *)

(** The records have the same entries. *)
Definition same_record (l r : option (JsMap.t string string)) : Prop :=
  match l, r with
  | Some l, Some r => length l = length r ∧ ∀ k v, (k, v) ∈ l → JsMap.get r k = Some v
  | None, None => True
  | _, _ => False
  end.

Definition commands_agree (l r : RuntimeExecCommand) : Prop :=
  l.(exec_args) = r.(exec_args) ∧ same_record l.(exec_env) r.(exec_env) ∧
  l.(exec_cwd) = r.(exec_cwd) ∧ l.(exec_timeoutMs) = r.(exec_timeoutMs).

(** The checksums of assets may differ. *)
Definition assets_agree (l r : RuntimeArtifactGitHubReleaseInstallAssetShape) : Prop :=
  l.(asset_fileName) = r.(asset_fileName) ∧ l.(asset_format) = r.(asset_format).

Definition steps_agree (l r : RuntimeArtifactInstallStep) : Prop :=
  match l, r with
  | StepExec command, StepExec command' => commands_agree command command'
  | StepMiseInstall _ _ _, StepMiseInstall _ _ _ => l = r
  | StepGitHubReleaseInstall repository release asset path timeout,
    StepGitHubReleaseInstall repository' release' asset' path' timeout' =>
      repository = repository' ∧ release = release' ∧ path = path' ∧ timeout = timeout' ∧
      match asset, asset' with
      | AssetExact a, AssetExact a' => assets_agree a a'
      | AssetByArch x a, AssetByArch x' a' => assets_agree x x' ∧ assets_agree a a'
      | _, _ => False
      end
  | _, _ => False
  end.

(** The environments of artifacts may differ. *)
Definition artifacts_agree (l r : CompiledRuntimeArtifactSpec) : Prop :=
  l.(artifact_name) = r.(artifact_name) ∧ l.(artifact_description) = r.(artifact_description) ∧
  Forall2 steps_agree l.(artifact_install) r.(artifact_install).

Definition processes_agree (l r : RuntimeClientProcessSpec) : Prop :=
  commands_agree l.(process_command) r.(process_command) ∧
  l.(process_readiness) = r.(process_readiness) ∧ l.(process_stop) = r.(process_stop).

Lemma optional_number_equal_eq x y : optional_number_equal x y = true → x = y.
Proof. destruct x, y; simpl; try done. by intros ->%number_equal_eq. Qed.

(** Split a conjunction of comparisons into equations. *)
Ltac compared := repeat match goal with
  | H : _ && _ = true |- _ => apply andb_true_iff in H as [? ?]
  | H : (_ =?= _) = true |- _ => apply bool_decide_eq_true in H
  | H : number_equal _ _ = true |- _ => apply number_equal_eq in H
  | H : optional_number_equal _ _ = true |- _ => apply optional_number_equal_eq in H
  end.

Lemma equal_commands l r : runtimeExecCommandEquals l r = true → commands_agree l r.
Proof.
  unfold runtimeExecCommandEquals, stringArrayEquals. intros H'. compared. split_and!; try done.
  destruct (exec_env l) as [e|], (exec_env r) as [e'|]; try done. cbn [stringRecordEquals] in *. compared.
  split; [by apply Nat.eqb_eq|]. intros k v Hin. rewrite forallb_forall in *.
  match goal with H : ∀ _, In _ _ → _ |- _ => specialize (H (k, v)); simpl in H end.
  match goal with H : In _ _ → _ |- _ => apply list_elem_of_In, H in Hin end. by compared.
Qed.

Lemma equal_assets l r : runtimeArtifactGitHubReleaseAssetShapeEquals l r = true → assets_agree l r.
Proof.
  unfold runtimeArtifactGitHubReleaseAssetShapeEquals. intros H'. compared. split; [done|].
  destruct (asset_format l), (asset_format r); try done. compared. by subst.
Qed.

Lemma equal_releases l r : runtimeArtifactGitHubReleaseSelectorEquals l r = true → l = r.
Proof. destruct l, r; simpl; intros H'; compared; by subst. Qed.

Lemma equal_steps l r : runtimeArtifactInstallEntryEquals l r = true → steps_agree l r.
Proof.
  destruct l as [repository release asset path timeout|tools force timeout|command], r; simpl; try done; intros H'.
  - compared. split_and!; try done; [by apply equal_releases|]. destruct asset, asset0; try done; compared;
      [by apply equal_assets|split; by apply equal_assets].
  - unfold stringArrayEquals in H'. compared. by subst.
  - by apply equal_commands.
Qed.

Lemma equal_artifacts l r : hasEquivalentSpec l r = true → artifacts_agree l r.
Proof.
  unfold hasEquivalentSpec. intros H'. compared. split_and!; [done|done|].
  match goal with H : artifactCommandsEqual _ _ = true |- _ => revert H end.
  generalize (artifact_install r). induction (artifact_install l) as [|a l' IH]; intros [|b r'] Heq; try done.
  simpl in Heq. compared. constructor; [by apply equal_steps|by apply IH].
Qed.

Lemma equal_processes l r : runtimeClientProcessSpecEquals l r = true → processes_agree l r.
Proof.
  unfold runtimeClientProcessSpecEquals. intros H'. compared. split_and!; [by apply equal_commands| |].
  - destruct (process_readiness l), (process_readiness r); simpl in *; try done; compared; by subst.
  - unfold runtimeClientProcessStopPolicyEquals in *. compared.
    destruct (process_stop l), (process_stop r); simpl in *. by subst.
Qed.

Lemma equal_endpoints l r :
  l.(endpointKey) = r.(endpointKey) → runtimeClientEndpointSpecEquals l r = true → l = r.
Proof.
  unfold runtimeClientEndpointSpecEquals. intros Hkey H'. compared. destruct l, r; simpl in *. by subst.
Qed.

(** *** What is kept *)

(** Of every key of [l] the first entry is in [out], and nothing else; the others of
    that key are the same entry or agree with it. *)
Definition keeps_first {A} (key : A → string) (agree : A → A → Prop) (l out : list A) : Prop :=
  NoDup (key <$> out) ∧ (∀ a, a ∈ out ↔ first_of key l a) ∧
  ∀ a, a ∈ l → ∃ b, b ∈ out ∧ key b = key a ∧ (a = b ∨ agree b a).

Lemma first_of_unique {A} (key : A → string) (l : list A) a b :
  first_of key l a → first_of key l b → key a = key b → a = b.
Proof.
  intros (l1 & l2 & -> & Ha). revert Ha. induction l1 as [|c l1 IH]; simpl; intros Ha (l3 & l4 & Hl & Hb) Hkey.
  - destruct l3 as [|c l3]; injection Hl as Hc Hl; [done|].
    exfalso. apply Hb. rewrite <- Hkey, Hc. by left.
  - apply not_elem_of_cons in Ha as [Hc Ha]. destruct l3 as [|c' l3]; injection Hl as Hc' Hl.
    + congruence.
    + apply IH; [done| |done]. exists l3, l4. split; [done|]. by apply not_elem_of_cons in Hb as [_ ?].
Qed.

Lemma list_entries_keeps {A} (key : A → string) equals check (agree : A → A → Prop) l out :
  (∀ a b, key a = key b → equals a b = true → agree a b) →
  list_entries key equals check l out → keeps_first key agree l out.
Proof.
  intros Hagree (Hnd & _ & Hall & Honly). split; [done|]. split.
  - intros a. split; [apply Honly|]. intros Ha. destruct (Hall a (first_of_in _ _ _ Ha)) as (b & Hb & Hkey & _).
    by rewrite (first_of_unique key l a b Ha (Honly b Hb) (eq_sym Hkey)).
  - intros a Ha. destruct (Hall a Ha) as (b & Hb & Hkey & Hab). exists b. split_and!; [done|done|].
    destruct Hab as [?|Hab]; [by left|right; by apply Hagree].
Qed.

(** The artifact [p] of the plan is the artifact [a] of a fragment, with its variables in
    some order. *)
Definition same_artifact (a p : CompiledRuntimeArtifactSpec) : Prop :=
  p.(artifactKey) = a.(artifactKey) ∧ p.(artifact_name) = a.(artifact_name) ∧
  p.(artifact_description) = a.(artifact_description) ∧ p.(artifact_install) = a.(artifact_install) ∧
  match a.(artifact_env), p.(artifact_env) with
  | Some env, Some env' => env' ≡ₚ env
  | None, None => True
  | _, _ => False
  end.

Lemma plan_artifacts_kept l out :
  Forall (λ a, ∀ env, a.(artifact_env) = Some env → JsMap.wf env) l →
  artifacts_of l out →
  ∃ kept planned, keeps_first artifactKey artifacts_agree l kept ∧ out ≡ₚ planned ∧
    Forall2 same_artifact kept planned.
Proof.
  intros Hwf (kept & Hkept & Hout). eexists kept, _. split; [|split; [exact Hout|]].
  - apply (list_entries_keeps _ hasEquivalentSpec check_artifact); [|done].
    intros a b _. apply equal_artifacts.
  - apply Forall2_fmap_r, Forall_Forall2_diag. apply Forall_forall. intros a Ha.
    destruct Hkept as (_ & _ & _ & Honly). pose proof (first_of_in _ _ _ (Honly a Ha)) as Hin.
    rewrite Forall_forall in Hwf. specialize (Hwf a Hin). split_and!; [done..|]. simpl.
    destruct (artifact_env a) as [env|]; [|done]. simpl. apply sortRecord_perm. by apply Hwf.
Qed.

(** The variables, files, processes, endpoints and launch arguments of a client of the plan are
    those of the clients [cs] that share its id. *)
Record client_covers (cs : list RuntimeClient) (c : RuntimeClient) : Prop := mkCovers {
  covers_env : ∀ k v, JsMap.get c.(client_setup).(setup_env) k = Some v ↔
    k ≠ "__proto__" ∧ ∃ c0, c0 ∈ cs ∧ JsMap.get c0.(client_setup).(setup_env) k = Some v;
  covers_files : ∀ f, f ∈ c.(client_setup).(setup_files) ↔ ∃ c0, c0 ∈ cs ∧ f ∈ c0.(client_setup).(setup_files);
  covers_processes : keeps_first processKey processes_agree (cs ≫= client_processes) c.(client_processes);
  covers_endpoints : keeps_first endpointKey eq (cs ≫= client_endpoints) c.(client_endpoints);
  covers_launchArgs : default [] c.(client_setup).(setup_launchArgs)
    = cs ≫= λ c0, default [] c0.(client_setup).(setup_launchArgs);
}.

Lemma client_of_covers id cs c :
  Forall (λ c0, JsMap.wf c0.(client_setup).(setup_env)) cs →
  client_of id (resolveRuntimeClients cs) c →
  default [] c.(client_setup).(setup_launchArgs)
    = resolveRuntimeClients cs ≫= (λ c0, default [] c0.(client_setup).(setup_launchArgs)) →
  client_covers cs c.
Proof.
  intros Hwf [_ _ Henv Hfiles _ _ Hproc Hend _] Hargs.
  rewrite (resolve_bind client_processes) in Hproc by done.
  rewrite (resolve_bind client_endpoints) in Hend by done. constructor.
  - intros k v. rewrite Henv. setoid_rewrite elem_of_resolve. rewrite Forall_forall in Hwf. split.
    + intros (c1 & (c0 & Hc0 & ->) & Hin). cbn in Hin.
      apply JsMap.elem_of_get in Hin; [|apply copy_fold_wf, JsMap.wf_empty].
      apply (copy_env_get _ _ _ (Hwf c0 Hc0)) in Hin as [Hin Hk]. split; [done|]. exists c0. split; [done|].
      by apply JsMap.elem_of_get; [apply Hwf|].
    + intros [Hk (c0 & Hc0 & Hget)]. eexists. split; [by exists c0|]. cbn.
      apply JsMap.elem_of_get; [apply copy_fold_wf, JsMap.wf_empty|]. apply copy_env_get; [by apply Hwf|].
      split; [|done]. by apply JsMap.elem_of_get; [apply Hwf|].
  - intros f. rewrite Hfiles. setoid_rewrite elem_of_resolve. split.
    + intros (c1 & (c0 & Hc0 & ->) & Hin). by exists c0.
    + intros (c0 & Hc0 & Hin). eexists. split; [by exists c0|done].
  - eapply list_entries_keeps; [|exact Hproc]. intros a b _. apply equal_processes.
  - eapply list_entries_keeps; [|exact Hend]. apply equal_endpoints.
  - rewrite Hargs. unfold resolveRuntimeClients. clear. induction cs as [|c0 cs IH]; [done|].
    rewrite fmap_cons, !bind_cons, IH. done.
Qed.

Lemma plan_launchArgs cs clients c :
  mergeRuntimeClients cs = inr clients → c ∈ clients →
  default [] c.(client_setup).(setup_launchArgs)
  = of_key clientId c.(clientId) cs ≫= λ c0, default [] c0.(client_setup).(setup_launchArgs).
Proof.
  intros (merged & Hmerged & Hclients%try_map_inr)%sum_bind_inr Hc.
  destruct (merged_keys _ _ Hmerged) as [Hwf _].
  apply list_elem_of_lookup in Hc as [i Hi].
  destruct (Forall2_lookup_r _ _ _ _ _ Hclients Hi) as ([id m] & Hid & Hbuilt).
  apply list_elem_of_lookup_2, elem_of_sort, JsMap.elem_of_get in Hid; [|done].
  unfold merged_client in Hbuilt. cbv zeta in Hbuilt. apply sum_bind_inr in Hbuilt as (u & _ & [= <-]).
  cbn [clientId client_setup setup_launchArgs].
  rewrite <- (merged_launchArgs_spec _ _ id Hmerged), Hid.
  change (default new_merged (Some m)) with m. case_bool_decide as Hnil; [by rewrite Hnil|done].
Qed.

(** C26: What the assembly makes of validated fragments.  The routes, workspace sources and
    agent runtimes of the plan are those of the fragments.  Its artifacts are the first one of
    every key, as it is, with its variables; the later ones of a key agree with it in name,
    description and install steps (but for checksums), and their environments and checksums are
    dropped.  Every client id has one client, with the variables (but for ["__proto__"]), files
    and launch arguments of all clients of that id, and the first of their processes and of
    their endpoints of every key; the later processes and endpoints of a key agree with it. *)
Theorem assembled_plan_covers (sandboxProfileId : string) (version : number) (image : ResolvedSandboxImage)
    (routing : AssociatedResourceEventRouting) (fragments : list CompiledRuntimePlanFragment)
    (plan : CompiledRuntimePlan) :
  let clients := fragments ≫= runtimeClients in
  Forall (λ c, JsMap.wf c.(client_setup).(setup_env)) clients →
  Forall (λ a, ∀ env, a.(artifact_env) = Some env → JsMap.wf env) (fragments ≫= artifacts) →
  validateCompiledRuntimePlanFragments fragments = inr tt →
  assembleCompiledRuntimePlan sandboxProfileId version image routing fragments = inr plan →
  plan.(plan_egressRoutes) ≡ₚ (fragments ≫= egressRoutes) ∧
  plan.(plan_workspaceSources) ≡ₚ (fragments ≫= workspaceSources) ∧
  plan.(plan_agentRuntimes) ≡ₚ (fragments ≫= agentRuntimes) ∧
  (∃ kept planned, keeps_first artifactKey artifacts_agree (fragments ≫= artifacts) kept ∧
     plan.(plan_artifacts) ≡ₚ planned ∧ Forall2 same_artifact kept planned) ∧
  (∀ id, id ∈ clientId <$> plan.(plan_runtimeClients) ↔ id ∈ clientId <$> clients) ∧
  NoDup (clientId <$> plan.(plan_runtimeClients)) ∧
  Forall (λ c, client_covers (of_key clientId c.(clientId) clients) c) plan.(plan_runtimeClients).
Proof.
  intros cs Hwf Hawf (_ & Hartifacts & _ & Hclients & _)%validated_parts (Hr & Ha & Hs & Hg & Hc)%assembled_parts.
  destruct (plan_clients _ _ _ Hclients Hc) as (Hids & Hsame & Hof).
  split; [rewrite Hr; apply sort_perm|]. split; [done|]. split; [done|].
  split; [rewrite Ha; apply plan_artifacts_kept; [done|by eapply validated_artifacts]|].
  split; [done|]. split; [done|].
  apply Forall_forall. intros c Hin. rewrite Forall_forall in Hof. specialize (Hof c Hin).
  pose proof (plan_launchArgs _ _ _ Hc Hin) as Hargs. rewrite of_key_resolve in Hof, Hargs.
  apply (client_of_covers c.(clientId)); [|done|done].
  apply Forall_forall. intros c0 [Hc0 _]%elem_of_of_key. rewrite Forall_forall in Hwf. by apply Hwf.
Qed.
End WellFormed.

(** *** The theorem on the example *)

Lemma assembled_plan_covers_witness :
  @assembleCompiledRuntimePlan reference_locale "sbp_1" (Int 1) (BaseImage "image") example_routing
    example_fragments = inr example_plan ∧
  Forall (λ c, client_covers (of_key clientId c.(clientId) (example_fragments ≫= runtimeClients)) c)
    example_plan.(plan_runtimeClients).
Proof.
  assert (@assembleCompiledRuntimePlan reference_locale "sbp_1" (Int 1) (BaseImage "image") example_routing
    example_fragments = inr example_plan) as Heq by (by vm_compute).
  split; [exact Heq|].
  refine (proj2 (proj2 (proj2 (proj2 (proj2 (proj2 (@assembled_plan_covers reference_locale reference_urls
    _ _ _ _ _ _ _ _ _ Heq))))))).
  - constructor; [|constructor]. apply NoDup_singleton.
  - constructor; [|constructor]. intros env Henv. discriminate Henv.
  - vm_compute. reflexivity.
Defined.
