(* ===== verification/McpConfig.v ===== *)
(** * Writing MCP servers into setup files (packages/integrations-core/src/mcp-config/index.ts)

    [applyMcpConfigToRuntimeClients] rewrites the file of a client that holds the MCP
    servers: the file is parsed, the value at a path of keys is replaced, and the file
    written again.  An object is changed in place in the code; here the changed object
    is returned.

    The TOML library (smol-toml) is the class [Toml]; a TOML table is taken as the JSON
    object of its entries.  [mcp_config_written] says what is at which path afterwards. *)

From S2P Require Import Prelude JsMap JsObject Json DataFrame Text Locale PlanTypes.
Local Open Scope Z_scope.

(** [parse] and [stringify] of smol-toml; [None] when it throws. *)
Class Toml : Type := {
  parseToml : string → option json;
  stringifyToml : json → string;
}.

(** ** [JSON.stringify(value, null, 2)] *)

Definition newline : string := String (Ascii.ascii_of_nat 10) "".

Fixpoint joined (separator : string) (l : list string) : string :=
  match l with
  | [] => ""
  | [t] => t
  | t :: l => t +:+ separator +:+ joined separator l
  end.

Fixpoint JSON_stringify_indented (indent : string) (v : json) : string :=
  let inner := indent +:+ "  " in
  let block opening closing parts :=
    opening +:+ newline +:+ inner +:+ joined ("," +:+ newline +:+ inner) parts +:+ newline +:+ indent +:+ closing in
  match v with
  | JArray (_ :: _ as l) => block "[" "]" (List.map (JSON_stringify_indented inner) l)
  | JObject (_ :: _ as fields) =>
      block "{" "}" (List.map (λ f, string_text f.1 +:+ ": " +:+ JSON_stringify_indented inner f.2) fields)
  | _ => JSON_stringify v
  end.

(** ** Paths of keys *)

Definition mcp_conflict (message : string) : PlanError := IntegrationCompilerError MCP_CONFLICT message.

Definition ForbiddenObjectPathKeys : list string := ["__proto__"; "constructor"; "prototype"].

Definition assertSafeObjectPath (path : list string) (invalidPathMessage : string) : PlanError + unit :=
  try_each (λ key, throw_if (bool_decide (key ∈ ForbiddenObjectPathKeys)) (PlainError invalidPathMessage)) path.

(** What an object inherits: reading one of these keys of an object without it gives a
    function, which is no record. *)
Definition inherited_keys : list string :=
  ["__defineGetter__"; "__defineSetter__"; "__lookupGetter__"; "__lookupSetter__"; "hasOwnProperty";
   "isPrototypeOf"; "propertyIsEnumerable"; "toLocaleString"; "toString"; "valueOf"].

Fixpoint setObjectValueAtPath (root : JsMap.t string json) (path : list string) (value : json)
    (invalidPathMessage : string) : PlanError + JsMap.t string json :=
  match path with
  | [] => inl (mcp_conflict invalidPathMessage)
  | firstKey :: remainingPath =>
      _ ← match assertSafeObjectPath [firstKey] invalidPathMessage with
          | inl _ => inl (mcp_conflict invalidPathMessage)
          | inr u => inr u
          end;
      match remainingPath with
      | [] => inr (JsObject.set root firstKey value)
      | _ :: _ =>
          match JsMap.get root firstKey with
          | None =>
              if bool_decide (firstKey ∈ inherited_keys) then inl (mcp_conflict invalidPathMessage)
              else
                nextValue ← setObjectValueAtPath JsMap.empty remainingPath value invalidPathMessage;
                inr (JsObject.set root firstKey (JObject nextValue))
          | Some (JObject existingValue) =>
              nextValue ← setObjectValueAtPath existingValue remainingPath value invalidPathMessage;
              inr (JsObject.set root firstKey (JObject nextValue))
          | Some _ => inl (mcp_conflict invalidPathMessage)
          end
      end
  end.

(** ** The configuration of the servers *)

Definition optional_field {A} (key : string) (f : A → json) (value : option A) : list (string * json) :=
  match value with Some a => [(key, f a)] | None => [] end.

Definition record_json (r : JsMap.t string string) : json := JObject ((λ e, (e.1, JString e.2)) <$> r).

Definition createMcpServerConfig (format : IntegrationMcpConfigFormat) (server : IntegrationMcpServer) : json :=
  match server.(mcp_transport) with
  | STDIO =>
      JObject (optional_field "command" JString server.(mcp_command)
               ++ optional_field "args" (λ args, JArray (JString <$> args)) server.(mcp_args)
               ++ optional_field "env" record_json server.(mcp_env))
  | STREAMABLE_HTTP =>
      JObject (optional_field "url" JString server.(mcp_url)
               ++ optional_field (if decide (format = TOML) then "http_headers" else "httpHeaders") record_json
                    server.(mcp_httpHeaders))
  end.

Definition createMcpConfigValue (format : IntegrationMcpConfigFormat)
    (mcpServers : list ResolvedIntegrationMcpServer) : JsMap.t string json :=
  foldl (λ config s, JsObject.assign config s.(mcp_server).(serverName) (createMcpServerConfig format s.(mcp_server)))
    JsMap.empty mcpServers.

Definition invalid_path (mcpConfig : IntegrationMcpConfig) : string :=
  "MCP config path " +:+ quote (joined "." mcpConfig.(mcpConfig_path)) +:+ " is not writable in "
  +:+ quote mcpConfig.(mcpConfig_fileId) +:+ ".".

Section McpConfig.
Context `{Toml}.

Definition replaceJsonMcpConfig (content : string) (mcpConfig : IntegrationMcpConfig)
    (mcpServers : list ResolvedIntegrationMcpServer) : PlanError + string :=
  let target := "MCP config target " +:+ quote mcpConfig.(mcpConfig_fileId) in
  match JSON_parse content with
  | None => inl (mcp_conflict (target +:+ " contains invalid JSON."))
  | Some (JObject root) =>
      root ← setObjectValueAtPath root mcpConfig.(mcpConfig_path)
               (JObject (createMcpConfigValue mcpConfig.(mcpConfig_format) mcpServers)) (invalid_path mcpConfig);
      inr (JSON_stringify_indented "" (JObject root) +:+ newline)
  | Some _ => inl (mcp_conflict (target +:+ " must contain a JSON object."))
  end.

Definition replaceTomlMcpConfig (content : string) (mcpConfig : IntegrationMcpConfig)
    (mcpServers : list ResolvedIntegrationMcpServer) : PlanError + string :=
  let target := "MCP config target " +:+ quote mcpConfig.(mcpConfig_fileId) in
  match parseToml content with
  | None => inl (mcp_conflict (target +:+ " contains invalid TOML."))
  | Some (JObject root) =>
      root ← setObjectValueAtPath root mcpConfig.(mcpConfig_path)
               (JObject (createMcpConfigValue mcpConfig.(mcpConfig_format) mcpServers)) (invalid_path mcpConfig);
      inr (stringifyToml (JObject root))
  | Some _ => inl (mcp_conflict (target +:+ " must contain a TOML table."))
  end.

Definition replaceMcpConfigContent (content : string) (mcpConfig : IntegrationMcpConfig)
    (mcpServers : list ResolvedIntegrationMcpServer) : PlanError + string :=
  if mcpConfig.(mcpConfig_path) =?= []
  then inl (mcp_conflict ("MCP config for file " +:+ quote mcpConfig.(mcpConfig_fileId)
                          +:+ " must define a non-empty path."))
  else match mcpConfig.(mcpConfig_format) with
       | JSON => replaceJsonMcpConfig content mcpConfig mcpServers
       | TOML => replaceTomlMcpConfig content mcpConfig mcpServers
       end.

Definition configure_file (mcpConfig : IntegrationMcpConfig) (mcpServers : list ResolvedIntegrationMcpServer)
    (file : RuntimeClientSetupFile) : PlanError + RuntimeClientSetupFile :=
  if negb (file.(fileId) =?= mcpConfig.(mcpConfig_fileId)) then inr file
  else
    content ← replaceMcpConfigContent file.(file_content) mcpConfig mcpServers;
    inr (mkFile file.(fileId) file.(file_path) file.(file_mode) content file.(file_writeMode)).

Definition configure_client (mcpConfig : IntegrationMcpConfig) (mcpServers : list ResolvedIntegrationMcpServer)
    (client : RuntimeClient) : PlanError + RuntimeClient :=
  if negb (client.(clientId) =?= mcpConfig.(mcpConfig_clientId)) then inr client
  else
    files ← try_map (configure_file mcpConfig mcpServers) client.(client_setup).(setup_files);
    inr (mkClient client.(clientId)
           (mkSetup client.(client_setup).(setup_env) files client.(client_setup).(setup_launchArgs))
           client.(client_processes) client.(client_endpoints)).

(** [foundClient] and [foundFile]: whether the loops came across them. *)
Definition target_clients (mcpConfig : IntegrationMcpConfig) (clients : list RuntimeClient) : list RuntimeClient :=
  List.filter (λ c, c.(clientId) =?= mcpConfig.(mcpConfig_clientId)) clients.
Definition has_target_file (mcpConfig : IntegrationMcpConfig) (clients : list RuntimeClient) : bool :=
  existsb (λ c, existsb (λ f, f.(fileId) =?= mcpConfig.(mcpConfig_fileId)) c.(client_setup).(setup_files))
    (target_clients mcpConfig clients).

Definition applyMcpConfigToRuntimeClients (mcpConfig : IntegrationMcpConfig)
    (mcpServers : list ResolvedIntegrationMcpServer) (clients : list RuntimeClient)
    : PlanError + list RuntimeClient :=
  if bool_decide (length mcpServers = 0%nat) then inr clients
  else
    configured ← try_map (configure_client mcpConfig mcpServers) clients;
    _ ← throw_if (bool_decide (length (target_clients mcpConfig clients) = 0%nat))
          (mcp_conflict ("MCP config target client " +:+ quote mcpConfig.(mcpConfig_clientId) +:+ " was not found."));
    _ ← throw_if (negb (has_target_file mcpConfig clients))
          (mcp_conflict ("MCP config target file " +:+ quote mcpConfig.(mcpConfig_fileId)
                         +:+ " was not found on client " +:+ quote mcpConfig.(mcpConfig_clientId) +:+ "."));
    inr configured.
End McpConfig.

(** ** What is written

    [value_at v path]: the value a path of keys leads to. *)

Fixpoint value_at (v : json) (path : list string) : option json :=
  match path with
  | [] => Some v
  | key :: path => match v with JObject fields => JsMap.get fields key ≫= λ v, value_at v path | _ => None end
  end.

Lemma set_value_at path root value message root' :
  json_wf (JObject root) → setObjectValueAtPath root path value message = inr root' →
  value_at (JObject root') path = Some value ∧
  ∀ other, ¬ path `prefix_of` other → ¬ other `prefix_of` path →
    value_at (JObject root') other = value_at (JObject root) other.
Proof.
  revert root root'. induction path as [|key path IH]; intros root root' Hroot; [done|].
  cbn [setObjectValueAtPath]. intros (u & _ & Hset)%sum_bind_inr.
  inversion Hroot as [fields Hwf Hvalues| | | | |]; subst fields.
  assert (∀ inner inner', json_wf (JObject inner) → (∀ p, p ≠ [] → value_at (JObject inner) p =
      JsMap.get root key ≫= λ v, value_at v p) →
    setObjectValueAtPath inner path value message = inr inner' → path ≠ [] →
    value_at (JObject (JsObject.set root key (JObject inner'))) (key :: path) = Some value ∧
    ∀ other, ¬ key :: path `prefix_of` other → ¬ other `prefix_of` key :: path →
      value_at (JObject (JsObject.set root key (JObject inner'))) other = value_at (JObject root) other) as Hdeep.
  { intros inner inner' Hinner Hsame Hset' Hne. destruct (IH _ _ Hinner Hset') as [Hat Hrest]. split.
    - cbn [value_at]. rewrite JsObject.get_object_set, decide_True by done. exact Hat.
    - intros [|key' other] Hpre Hpre'; [by destruct Hpre'; apply prefix_nil|]. cbn [value_at].
      rewrite JsObject.get_object_set by done. destruct (decide (key = key')) as [<-|]; [|done]. cbn [mbind option_bind].
      assert (¬ path `prefix_of` other) by (intros ?; by apply Hpre, prefix_cons).
      assert (¬ other `prefix_of` path) as Hother by (intros ?; by apply Hpre', prefix_cons).
      rewrite Hrest by done. apply Hsame. intros ->. apply Hother, prefix_nil. }
  destruct path as [|key2 path].
  - injection Hset as <-. cbn [value_at]. rewrite JsObject.get_object_set, decide_True by done. split; [done|].
    intros [|key' other] Hpre Hpre'; [by destruct Hpre'; apply prefix_nil|]. cbn [value_at].
    rewrite JsObject.get_object_set by done. destruct (decide (key = key')) as [<-|]; [|done].
    destruct Hpre. by apply prefix_cons, prefix_nil.
  - destruct (JsMap.get root key) as [[| | | | |existing]|] eqn:Hget; try done.
    + apply sum_bind_inr in Hset as (inner' & Hset & [= <-]). apply (Hdeep existing); try done.
      apply (Hvalues key), JsMap.elem_of_get; done.
    + case_match; [done|]. apply sum_bind_inr in Hset as (inner' & Hset & [= <-]).
      apply (Hdeep JsMap.empty); try done.
      * constructor; [apply JsMap.wf_empty|]. by intros k v ?%elem_of_nil.
      * by intros [|].
Qed.

(** The configuration has an entry for every server. *)
Lemma wf_createMcpConfigValue format servers : JsMap.wf (createMcpConfigValue format servers).
Proof.
  unfold createMcpConfigValue. generalize (JsMap.wf_empty (K := string) (V := json)).
  generalize (JsMap.empty : JsMap.t string json). induction servers as [|s servers IH]; intros m Hm; [done|].
  simpl. by apply IH, JsObject.wf_assign.
Qed.

Lemma get_createMcpConfigValue format servers s :
  NoDup ((serverName ∘ mcp_server) <$> servers) → s ∈ servers → s.(mcp_server).(serverName) ≠ "__proto__" →
  JsMap.get (createMcpConfigValue format servers) s.(mcp_server).(serverName) =
    Some (createMcpServerConfig format s.(mcp_server)).
Proof.
  unfold createMcpConfigValue. intros Hnodup Hs Hname. generalize (JsMap.wf_empty (K := string) (V := json)).
  generalize (JsMap.empty : JsMap.t string json). revert Hnodup Hs.
  induction servers as [|s' servers IH] using rev_ind; intros Hnodup Hs m Hm; [by apply elem_of_nil in Hs|].
  rewrite foldl_app. cbn [foldl]. rewrite fmap_app in Hnodup. apply NoDup_app in Hnodup as (Hnd & Hdis & _).
  set (m' := foldl _ m servers).
  assert (JsMap.wf m') as Hm'.
  { subst m'. clear -Hm. revert m Hm. induction servers as [|s servers IH]; intros m Hm; [done|].
    simpl. by apply IH, JsObject.wf_assign. }
  unfold JsObject.assign at 1. apply elem_of_app in Hs as [Hs| ->%list_elem_of_singleton].
  - case_bool_decide; [by apply IH|]. rewrite JsObject.get_object_set by done.
    destruct (decide (s'.(mcp_server).(serverName) = s.(mcp_server).(serverName))) as [Heq|]; [|by apply IH].
    destruct (Hdis s.(mcp_server).(serverName)); [apply list_elem_of_fmap; by exists s|].
    apply list_elem_of_fmap. exists s'. by split; [|left].
  - rewrite bool_decide_false by done. by rewrite JsObject.get_object_set, decide_True by done.
Qed.

(** A TOML table has no key twice. *)
Class TomlLaws `{Toml} : Prop := {
  parseToml_wf : ∀ content v, parseToml content = Some v → json_wf v;
}.

Section Written.
Context `{HT : Toml, HL : !TomlLaws}.

Definition parse_config (format : IntegrationMcpConfigFormat) (content : string) : option json :=
  match format with JSON => JSON_parse content | TOML => parseToml content end.
Definition print_config (format : IntegrationMcpConfigFormat) (v : json) : string :=
  match format with JSON => JSON_stringify_indented "" v +:+ newline | TOML => stringifyToml v end.

(** The new content is that of an object which has the servers at the path, and elsewhere what the
    object of the old content has. *)
Definition content_configured (cfg : IntegrationMcpConfig) (servers : list ResolvedIntegrationMcpServer)
    (content content' : string) : Prop :=
  ∃ root root', parse_config cfg.(mcpConfig_format) content = Some (JObject root) ∧
    content' = print_config cfg.(mcpConfig_format) (JObject root') ∧
    value_at (JObject root') cfg.(mcpConfig_path) =
      Some (JObject (createMcpConfigValue cfg.(mcpConfig_format) servers)) ∧
    ∀ other, ¬ cfg.(mcpConfig_path) `prefix_of` other → ¬ other `prefix_of` cfg.(mcpConfig_path) →
      value_at (JObject root') other = value_at (JObject root) other.

Definition is_target (cfg : IntegrationMcpConfig) (c : RuntimeClient) (f : RuntimeClientSetupFile) : Prop :=
  c.(clientId) = cfg.(mcpConfig_clientId) ∧ f.(fileId) = cfg.(mcpConfig_fileId).

Definition file_configured cfg servers (c : RuntimeClient) (f f' : RuntimeClientSetupFile) : Prop :=
  f' = mkFile f.(fileId) f.(file_path) f.(file_mode) f'.(file_content) f.(file_writeMode) ∧
  (is_target cfg c f → content_configured cfg servers f.(file_content) f'.(file_content)) ∧
  (¬ is_target cfg c f → f'.(file_content) = f.(file_content)).

(** Only contents of setup files change. *)
Definition client_configured cfg servers (c c' : RuntimeClient) : Prop :=
  c' = mkClient c.(clientId)
         (mkSetup c.(client_setup).(setup_env) c'.(client_setup).(setup_files) c.(client_setup).(setup_launchArgs))
         c.(client_processes) c.(client_endpoints) ∧
  Forall2 (file_configured cfg servers c) c.(client_setup).(setup_files) c'.(client_setup).(setup_files).

Lemma replaceMcpConfigContent_spec content cfg servers content' :
  replaceMcpConfigContent content cfg servers = inr content' → content_configured cfg servers content content'.
Proof.
  unfold replaceMcpConfigContent, content_configured. case_bool_decide; [done|].
  unfold replaceTomlMcpConfig, replaceJsonMcpConfig.
  destruct cfg.(mcpConfig_format); cbn [parse_config print_config].
  - destruct (parseToml content) as [[]|] eqn:Hparse; try done.
    intros (root' & Hset & [= <-])%sum_bind_inr. eexists _, root'. do 2 (split; [done|]).
    eapply set_value_at; [by eapply parseToml_wf|done].
  - destruct (JSON_parse content) as [[]|] eqn:Hparse; try done.
    intros (root' & Hset & [= <-])%sum_bind_inr. eexists _, root'. do 2 (split; [done|]).
    eapply set_value_at; [by eapply JSON_parse_wf|done].
Qed.

Lemma file_untouched cfg servers c f : ¬ is_target cfg c f → file_configured cfg servers c f f.
Proof. intros. by destruct f. Qed.

Lemma configure_client_spec cfg servers c c' :
  configure_client cfg servers c = inr c' → client_configured cfg servers c c'.
Proof.
  unfold configure_client. case_bool_decide as Hid; cbn [negb].
  - intros (files & Hfiles%try_map_inr & [= <-])%sum_bind_inr. split; [done|]. cbn.
    eapply Forall2_impl; [exact Hfiles|]. intros f f'. unfold configure_file. case_bool_decide as Hf; cbn [negb].
    + intros (content & Hcontent%replaceMcpConfigContent_spec & [= <-])%sum_bind_inr.
      split; [done|]. by split; [|intros []].
    + intros [= <-]. apply file_untouched. by intros [].
  - intros [= <-]. destruct c as [id [env files args] processes endpoints]. split; [done|]. cbn.
    apply Forall_Forall2_diag, Forall_forall. intros f _. apply file_untouched. by intros [].
Qed.

Lemma has_target_file_spec cfg clients :
  has_target_file cfg clients = true → ∃ c f, c ∈ clients ∧ f ∈ c.(client_setup).(setup_files) ∧ is_target cfg c f.
Proof.
  unfold has_target_file. intros (c & Hc & Hex)%existsb_exists. apply existsb_exists in Hex as (f & Hf & Heq).
  apply list_elem_of_In, elem_of_filter_map_bool in Hc as [Hc Hid]. apply list_elem_of_In in Hf. bools.
  by exists c, f.
Qed.

(** Writing the MCP servers into a setup file: when the mapping succeeds, its target
    exists, and nothing but the contents of its target files has changed; each of these is
    the text of an object with an entry for every server under the configured path
    (names are unique and none is [__proto__]), and with the old values at every path that
    does not meet it. *)
Theorem mcp_config_written (cfg : IntegrationMcpConfig) (servers : list ResolvedIntegrationMcpServer)
    (clients clients' : list RuntimeClient) :
  servers ≠ [] → applyMcpConfigToRuntimeClients cfg servers clients = inr clients' →
  Forall2 (client_configured cfg servers) clients clients' ∧
  (∃ c f, c ∈ clients ∧ f ∈ c.(client_setup).(setup_files) ∧ is_target cfg c f) ∧
  (NoDup ((serverName ∘ mcp_server) <$> servers) → ∀ s, s ∈ servers → s.(mcp_server).(serverName) ≠ "__proto__" →
    JsMap.get (createMcpConfigValue cfg.(mcpConfig_format) servers) s.(mcp_server).(serverName) =
      Some (createMcpServerConfig cfg.(mcpConfig_format) s.(mcp_server))).
Proof.
  intros Hne. unfold applyMcpConfigToRuntimeClients.
  rewrite bool_decide_false by (by destruct servers).
  intros (configured & Hmap%try_map_inr & (u1 & _ & (u2 & Hfile%throw_if_inr & [= <-])%sum_bind_inr)%sum_bind_inr)%sum_bind_inr.
  apply negb_false_iff, has_target_file_spec in Hfile. split; [|split; [done|]].
  - eapply Forall2_impl; [exact Hmap|]. intros c c'. apply configure_client_spec.
  - intros Hnodup s. by apply get_createMcpConfigValue.
Qed.
End Written.

(** *** An example, with TOML taken for JSON *)

Definition json_toml : Toml := {| parseToml := JSON_parse; stringifyToml := JSON_stringify |}.
Definition json_toml_laws : @TomlLaws json_toml.
Proof. split. apply JSON_parse_wf. Defined.

Definition demo_server : ResolvedIntegrationMcpServer :=
  mkResolvedServer MistleSource
    (mkMcpServer "s1" "linear" STREAMABLE_HTTP None (Some "https://mcp.linear.app") None None None None).
Definition demo_config : IntegrationMcpConfig := mkMcpConfig "codex" "config" JSON ["mcp"; "servers"].
Definition demo_client (content : string) : RuntimeClient :=
  mkClient "codex" (mkSetup [] [mkFile "config" "/root/config.json" (Int 384) content None;
                                mkFile "other" "/root/other.json" (Int 384) "{" None] None) [] [].
Definition demo_before : string := JSON_stringify (JObject [("model", JString "m"); ("mcp", JObject [("timeout", JNumber (Int 5))])]).
Definition demo_after : string :=
  JSON_stringify_indented "" (JObject [("model", JString "m"); ("mcp", JObject [("timeout", JNumber (Int 5));
    ("servers", JObject [("linear", JObject [("url", JString "https://mcp.linear.app")])])])]) +:+ newline.

Lemma mcp_config_written_witness :
  @applyMcpConfigToRuntimeClients json_toml demo_config [demo_server] [demo_client demo_before]
    = inr [demo_client demo_after] ∧
  Forall2 (@client_configured json_toml demo_config [demo_server]) [demo_client demo_before] [demo_client demo_after].
Proof.
  assert (@applyMcpConfigToRuntimeClients json_toml demo_config [demo_server] [demo_client demo_before]
    = inr [demo_client demo_after]) as Heq by (by vm_compute).
  split; [exact Heq|]. refine (proj1 (@mcp_config_written json_toml json_toml_laws demo_config [demo_server] _ _ _ Heq)).
  discriminate.
Defined.
