(* ===== verification/PlanCompiler.v ===== *)
(** * Compiling a runtime plan (packages/integrations-core/src/compiler/index.ts)

    [compileRuntimePlan]: every binding of a sandbox profile is checked and compiled by
    the definition of its integration, the MCP servers of the bindings are collected
    and written into setup files, the agent runtime is compiled, and the fragments are
    validated and assembled.

    Integration definitions and agent runtimes are the interfaces
    [IntegrationDefinition] and [AgentRuntimeDefinition]: records of the functions the
    compiler calls; a schema is its [parse] on [unknown] values.  [refs] only offers constants
    and constructors of install steps ([RuntimeArtifactRefs]).  The registries are the maps
    of registry/index.ts and agent-runtimes/registry.ts after registration. *)

From S2P Require Import Prelude JsMap JsObject Json DataFrame Text Locale PlanTypes EgressRoutes PlanValidation.
From S2P Require Import PlanAssembly McpConfig.
Local Open Scope Z_scope.

(** ** Paths of the sandbox *)

Record SandboxPathRefs : Type := mkPaths {
  userHomeDir : string;
  workspaceDir : string;
  runtimeDataDir : string;
  runtimeArtifactDir : string;
  runtimeArtifactBinDir : string;
}.

Definition DefaultSandboxWorkspaceDir : string := "/root".
Definition SandboxPaths : SandboxPathRefs :=
  mkPaths "/root" DefaultSandboxWorkspaceDir "/var/lib/mistle" "/var/lib/mistle/artifacts" "/usr/local/bin".
Definition artifactBinPath (name : string) : string := SandboxPaths.(runtimeArtifactBinDir) +:+ "/" +:+ name.

(** ** Artifacts of a definition *)

Record CompileContext : Type := mkContext {
  context_organizationId : string;
  context_sandboxProfileId : string;
  context_version : number;
  context_targetKey : string;
  context_bindingId : string;
}.

Record RuntimeArtifactRefs : Type := mkRefs {
  refs_exec : RuntimeExecCommand → RuntimeArtifactInstallStep;
  refs_mise_install : list string → option bool → option number → RuntimeArtifactInstallStep;
  refs_githubReleases_install : string → RuntimeArtifactGitHubReleaseSelector →
    RuntimeArtifactGitHubReleaseInstallAsset → string → option number → RuntimeArtifactInstallStep;
  refs_sandboxPaths : SandboxPathRefs;
  refs_artifactBinPath : string → string;
  refs_compileContext : CompileContext;
}.

Definition createGitHubReleaseInstallStep (repository : string) (release : RuntimeArtifactGitHubReleaseSelector)
    (asset : RuntimeArtifactGitHubReleaseInstallAsset) (installPath : string) (timeoutMs : option number)
    : RuntimeArtifactInstallStep :=
  StepGitHubReleaseInstall repository release asset installPath timeoutMs.

Definition createRuntimeArtifactRefs (context : CompileContext) : RuntimeArtifactRefs :=
  mkRefs StepExec StepMiseInstall createGitHubReleaseInstallStep SandboxPaths artifactBinPath context.

Inductive RuntimeArtifactLifecycleHook : Type :=
| HookSteps (steps : list RuntimeArtifactInstallStep)
| HookBuilder (build : RuntimeArtifactRefs → PlanError + list RuntimeArtifactInstallStep).

Record RuntimeArtifactSpec : Type := mkArtifactSpec {
  spec_artifactKey : string;
  spec_name : string;
  spec_description : option string;
  spec_env : option (JsMap.t string string);
  spec_install : option RuntimeArtifactLifecycleHook;
}.

Definition resolveLifecycleHook (key : string) (hook : option RuntimeArtifactLifecycleHook)
    (refs : RuntimeArtifactRefs) : PlanError + option (list RuntimeArtifactInstallStep) :=
  match hook with
  | None => inr None
  | Some (HookSteps steps) => inr (Some steps)
  | Some (HookBuilder build) =>
      match build refs with
      | inr steps => inr (Some steps)
      | inl _ => inl (artifact_conflict ("Failed resolving artifact lifecycle hook 'install' for " +:+ quote key +:+ "."))
      end
  end.

Definition resolveRuntimeArtifacts (specs : list RuntimeArtifactSpec) (context : CompileContext)
    : PlanError + list CompiledRuntimeArtifactSpec :=
  let refs := createRuntimeArtifactRefs context in
  try_map (λ artifact,
    install ← resolveLifecycleHook artifact.(spec_artifactKey) artifact.(spec_install) refs;
    match install with
    | None => inl (artifact_conflict ("Artifact " +:+ quote artifact.(spec_artifactKey)
                                      +:+ " must define install commands."))
    | Some install => inr (mkArtifact artifact.(spec_artifactKey) artifact.(spec_name)
                             artifact.(spec_description) artifact.(spec_env) install)
    end) specs.

(** ** Integration definitions *)

(** [schema.parse(value)]; [None] when it throws. *)
Definition ConfigSchema : Type := json → option json.

Record CompileBindingInput : Type := mkBindingInput {
  input_organizationId : string;
  input_sandboxProfileId : string;
  input_version : number;
  input_targetKey : string;
  input_target : IntegrationTarget;
  input_connection : IntegrationConnection;
  input_bindingId : string;
  input_bindingKind : IntegrationKind;
  input_bindingConfig : json;
}.

Record CompileBindingResult : Type := mkBindingResult {
  result_egressRoutes : list CompileBindingEgressRoute;
  result_artifacts : list RuntimeArtifactSpec;
  result_runtimeClients : list RuntimeClient;
  result_workspaceSources : option (list CompiledWorkspaceSource);
  result_agentRuntimes : option (list CompiledAgentRuntime);
}.

Inductive IntegrationMcpDefinitionValue : Type :=
| OneMcpServer (server : IntegrationMcpServer)
| ManyMcpServers (servers : list IntegrationMcpServer).

Inductive IntegrationMcpDefinition : Type :=
| McpValue (value : IntegrationMcpDefinitionValue)
| McpFunction (resolve : CompileBindingInput → PlanError + IntegrationMcpDefinitionValue).

Record BindingWriteValidationIssue : Type := mkIssue {
  issue_code : string;
  issue_field : string;
  issue_safeMessage : string;
}.

Record BindingWriteValidationContext : Type := mkWriteContext {
  write_targetKey : string;
  write_bindingIdOrDraftIndex : string;
  write_familyId : string;
  write_variantId : string;
  write_targetConfig : JsMap.t string json;
  write_connectionId : string;
  write_connectionConfig : JsMap.t string json;
  write_bindingKind : IntegrationKind;
  write_bindingConfig : JsMap.t string json;
}.

Record IntegrationConnectionMethod : Type := mkMethod {
  method_id : string;
  method_configSchema : option ConfigSchema;
}.

Record IntegrationDefinition : Type := mkDefinition {
  definition_familyId : string;
  definition_variantId : string;
  definition_kind : IntegrationKind;
  targetConfigSchema : ConfigSchema;
  targetSecretSchema : ConfigSchema;
  bindingConfigSchema : ConfigSchema;
  connectionMethods : list IntegrationConnectionMethod;
  definition_mcp : option IntegrationMcpDefinition;
  definition_mcpConfig : option IntegrationMcpConfig;
  (** [Some (inr [])] is a result that is [ok]. *)
  validateBindingWriteContext : option (BindingWriteValidationContext →
    PlanError + (list BindingWriteValidationIssue + unit));
  compileBinding : CompileBindingInput → PlanError + CompileBindingResult;
}.

(** *** The registry *)

Definition createDefinitionKey (familyId variantId : string) : string := familyId +:+ "::" +:+ variantId.

Definition IntegrationRegistry : Type := JsMap.t string IntegrationDefinition.

Definition getDefinition (registry : IntegrationRegistry) (familyId variantId : string)
    : option IntegrationDefinition := JsMap.get registry (createDefinitionKey familyId variantId).

Definition getDefinitionOrThrow (registry : IntegrationRegistry) (familyId variantId : string)
    : PlanError + IntegrationDefinition :=
  match getDefinition registry familyId variantId with
  | Some definition => inr definition
  | None => inl (IntegrationDefinitionRegistryError ("Integration definition "
                   +:+ quote (createDefinitionKey familyId variantId) +:+ " was not found."))
  end.

(** *** Validating what is written to a binding (binding-validation/index.ts) *)

Definition toUnknownRecord (value : json) : option (JsMap.t string json) :=
  match value with
  | JObject fields => Some (foldl (λ record e, JsObject.assign record e.1 e.2) JsMap.empty fields)
  | _ => None
  end.

Definition sanitizeSchemaFailureMessage (familyId variantId bindingIdOrDraftIndex : string) : string :=
  "Binding " +:+ quote bindingIdOrDraftIndex
  +:+ " has invalid config reference: Binding config is invalid for integration "
  +:+ quote (familyId +:+ "/" +:+ variantId) +:+ ".".

Definition readConnectionMethodId (value : json) : option string :=
  match value with
  | JObject fields => match JsMap.get fields "connection_method" with Some (JString id) => Some id | _ => None end
  | _ => None
  end.

Definition resolveConnectionMethodDefinition (methods : list IntegrationConnectionMethod)
    (rawConnectionConfig : json) : option IntegrationConnectionMethod :=
  id ← readConnectionMethodId rawConnectionConfig;
  head (List.filter (λ method, method.(method_id) =?= id) methods).

(** The outcome: the issues, or the parsed configurations of target, binding and connection. *)
Definition runDefinitionBindingWriteValidation (definition : IntegrationDefinition) (targetKey : string)
    (target : IntegrationTarget) (connection : IntegrationConnection) (kind : IntegrationKind)
    (bindingConfig : json) (bindingIdOrDraftIndex : string)
    : PlanError + (list BindingWriteValidationIssue
                   + JsMap.t string json * JsMap.t string json * JsMap.t string json) :=
  let invalid code field :=
    inr (inl [mkIssue code field (sanitizeSchemaFailureMessage target.(target_familyId)
                                    target.(target_variantId) bindingIdOrDraftIndex)]) in
  match definition.(targetConfigSchema) target.(target_config) ≫= toUnknownRecord with
  | None => invalid "system.invalid_target_config_shape" "config"
  | Some parsedTargetConfig =>
      match definition.(bindingConfigSchema) bindingConfig ≫= toUnknownRecord with
      | None => invalid "system.invalid_binding_config_shape" "config"
      | Some parsedBindingConfig =>
          let candidate :=
            match resolveConnectionMethodDefinition definition.(connectionMethods) connection.(connection_config) with
            | Some (mkMethod _ (Some schema)) => schema connection.(connection_config)
            | _ => Some connection.(connection_config)
            end in
          match candidate ≫= toUnknownRecord with
          | None => invalid "system.invalid_connection_config_shape" "connection.config"
          | Some parsedConnectionConfig =>
              let ok := inr (inr (parsedTargetConfig, parsedBindingConfig, parsedConnectionConfig)) in
              match definition.(validateBindingWriteContext) with
              | None => ok
              | Some validate =>
                  match validate (mkWriteContext targetKey bindingIdOrDraftIndex target.(target_familyId)
                          target.(target_variantId) parsedTargetConfig connection.(connection_id)
                          parsedConnectionConfig kind parsedBindingConfig) with
                  | inl _ => inl (IntegrationCompilerError INVALID_BINDING_CONFIG
                      ("Binding " +:+ quote bindingIdOrDraftIndex +:+ " contextual validation failed unexpectedly."))
                  | inr (inl issues) => inr (inl issues)
                  | inr (inr _) => ok
                  end
              end
          end
      end
  end.


(** ** Compiling a binding *)

Definition resolveEgressRuleId (bindingId : string) (routeIndex : Z) : string :=
  if routeIndex =? 0 then "egress_rule_" +:+ bindingId
  else "egress_rule_" +:+ bindingId +:+ "_" +:+ String_of_number (routeIndex + 1).

Definition compileBindingResultToCompiledRuntimePlanFragment (context : CompileContext)
    (familyId variantId : string) (result : CompileBindingResult) : PlanError + CompiledRuntimePlanFragment :=
  let bindingId := context.(context_bindingId) in
  let routes := imap (λ routeIndex route,
      mkRoute (resolveEgressRuleId bindingId (Z.of_nat routeIndex)) bindingId familyId variantId route)
    result.(result_egressRoutes) in
  compiled ← resolveRuntimeArtifacts result.(result_artifacts) context;
  inr (mkFragment routes compiled result.(result_runtimeClients)
         (default [] result.(result_workspaceSources)) (default [] result.(result_agentRuntimes))).

Record CompileRuntimePlanBindingInput : Type := mkPlanBinding {
  plan_targetKey : string;
  plan_target : IntegrationTarget;
  plan_connection : IntegrationConnection;
  plan_binding : IntegrationBinding;
}.

Record PreparedBindingContext : Type := mkPrepared {
  prepared_definition : IntegrationDefinition;
  prepared_input : CompileBindingInput;
  prepared_fragment : CompiledRuntimePlanFragment;
}.

Definition compiler_error {A} (code : CompilerErrorCode) (message : string) : PlanError + A :=
  inl (IntegrationCompilerError code message).

(** [try { schema.parse(value) } catch (error) { throw new IntegrationCompilerError(code, message) }] *)
Definition parse_or_throw (schema : ConfigSchema) (value : json) (code : CompilerErrorCode) (message : string)
    : PlanError + json :=
  match schema value with Some parsed => inr parsed | None => compiler_error code message end.

(** What every compilation is of. *)
Record Profile : Type := mkProfile {
  profile_organizationId : string;
  profile_sandboxProfileId : string;
  profile_version : number;
}.

(** The body of the loop of [compileBindings]. *)
Definition prepare_binding (profile : Profile) (integrationRegistry : IntegrationRegistry)
    (enforceRuntimeEligibility : bool) (bindingInput : CompileRuntimePlanBindingInput)
    : PlanError + PreparedBindingContext :=
  let target := bindingInput.(plan_target) in
  let connection := bindingInput.(plan_connection) in
  let binding := bindingInput.(plan_binding) in
  let targetKey := bindingInput.(plan_targetKey) in
  _ ← throw_if (negb (connection.(connection_id) =?= binding.(binding_connectionId)))
        (IntegrationCompilerError CONNECTION_MISMATCH
           ("Binding " +:+ quote binding.(binding_id) +:+ " references connection "
            +:+ quote binding.(binding_connectionId) +:+ " but resolved connection was "
            +:+ quote connection.(connection_id) +:+ "."));
  _ ← throw_if (enforceRuntimeEligibility && negb target.(target_enabled))
        (IntegrationCompilerError TARGET_DISABLED ("Target " +:+ quote targetKey +:+ " is disabled."));
  _ ← throw_if (enforceRuntimeEligibility && negb (connection.(connection_status) =?= ConnectionActive))
        (IntegrationCompilerError CONNECTION_NOT_ACTIVE
           ("Connection " +:+ quote connection.(connection_id) +:+ " is not active."));
  definition ← getDefinitionOrThrow integrationRegistry target.(target_familyId) target.(target_variantId);
  let name := quote (definition.(definition_familyId) +:+ "::" +:+ definition.(definition_variantId)) in
  _ ← throw_if (negb (definition.(definition_kind) =?= binding.(binding_kind)))
        (IntegrationCompilerError KIND_MISMATCH
           ("Binding " +:+ quote binding.(binding_id) +:+ " has kind " +:+ quote (kind_value binding.(binding_kind))
            +:+ " but definition " +:+ name +:+ " has kind "
            +:+ quote (kind_value definition.(definition_kind)) +:+ "."));
  parsedTargetConfig ← parse_or_throw definition.(targetConfigSchema) target.(target_config) INVALID_TARGET_CONFIG
    ("Target config for " +:+ quote targetKey +:+ " did not satisfy " +:+ name +:+ " schema.");
  parsedTargetSecrets ← parse_or_throw definition.(targetSecretSchema) target.(target_secrets) INVALID_TARGET_SECRETS
    ("Target secrets for " +:+ quote targetKey +:+ " did not satisfy " +:+ name +:+ " schema.");
  parsedBindingConfig ← parse_or_throw definition.(bindingConfigSchema) binding.(binding_config) INVALID_BINDING_CONFIG
    ("Binding config for " +:+ quote binding.(binding_id) +:+ " did not satisfy " +:+ name +:+ " schema.");
  bindingWriteValidation ← runDefinitionBindingWriteValidation definition targetKey target connection
    binding.(binding_kind) binding.(binding_config) binding.(binding_id);
  _ ← match bindingWriteValidation with
      | inr _ => inr tt
      | inl issues => compiler_error INVALID_BINDING_CONFIG
          (default "Binding contextual validation failed." (issue_safeMessage <$> head issues))
      end;
  let compileBindingInput := mkBindingInput profile.(profile_organizationId) profile.(profile_sandboxProfileId)
    profile.(profile_version) targetKey
    (mkTarget target.(target_familyId) target.(target_variantId) target.(target_enabled)
       parsedTargetConfig parsedTargetSecrets)
    connection binding.(binding_id) binding.(binding_kind) parsedBindingConfig in
  compileBindingResult ← definition.(compileBinding) compileBindingInput;
  compiledRuntimePlanFragment ← compileBindingResultToCompiledRuntimePlanFragment
    (mkContext profile.(profile_organizationId) profile.(profile_sandboxProfileId) profile.(profile_version)
       targetKey binding.(binding_id))
    target.(target_familyId) target.(target_variantId) compileBindingResult;
  inr (mkPrepared definition compileBindingInput compiledRuntimePlanFragment).

(** ** The MCP servers of the bindings *)

Definition normalizeMcpDefinitionValue (value : IntegrationMcpDefinitionValue) : list IntegrationMcpServer :=
  match value with OneMcpServer server => [server] | ManyMcpServers servers => servers end.

(** [value === undefined || value.trim().length === 0] *)
Definition missing_or_blank (value : option string) : bool :=
  match value with None => true | Some value => blank value end.

Definition validateMcpServerShape (bindingId : string) (server : IntegrationMcpServer) : PlanError + unit :=
  let where_ := "MCP server " +:+ quote server.(serverName) +:+ " on binding " +:+ quote bindingId in
  _ ← throw_if (blank server.(serverId))
        (mcp_conflict ("Binding " +:+ quote bindingId +:+ " declared an MCP server with an empty serverId."));
  _ ← throw_if (blank server.(serverName))
        (mcp_conflict ("Binding " +:+ quote bindingId +:+ " declared an MCP server with an empty serverName."));
  match server.(mcp_transport) with
  | STDIO => throw_if (missing_or_blank server.(mcp_command))
               (mcp_conflict (where_ +:+ " must define a command for stdio transport."))
  | STREAMABLE_HTTP => throw_if (missing_or_blank server.(mcp_url))
               (mcp_conflict (where_ +:+ " must define a url for "
                              +:+ quote (transport_value server.(mcp_transport)) +:+ " transport."))
  end.

(** The copy of a server: its records are written anew. *)
Definition resolve_server (server : IntegrationMcpServer) : IntegrationMcpServer :=
  mkMcpServer server.(serverId) server.(serverName) server.(mcp_transport) server.(mcp_description)
    server.(mcp_url) server.(mcp_command) server.(mcp_args) (copy_env <$> server.(mcp_env))
    (copy_env <$> server.(mcp_httpHeaders)).

(** [serverIds], [serverNames] and [resolvedServers] *)
Record Collected : Type := mkCollected {
  serverIds : list string;
  serverNames : list string;
  resolvedServers : list ResolvedIntegrationMcpServer;
}.

Definition server_key (bindingId serverId : string) : string := bindingId +:+ ":" +:+ serverId.

Definition collect_server (prepared : PreparedBindingContext) (collected : Collected)
    (server : IntegrationMcpServer) : PlanError + Collected :=
  let input := prepared.(prepared_input) in
  let bindingId := input.(input_bindingId) in
  let serverKey := server_key bindingId server.(serverId) in
  _ ← throw_if (bool_decide (serverKey ∈ collected.(serverIds)))
        (mcp_conflict ("Binding " +:+ quote bindingId +:+ " declared duplicate MCP server id "
                       +:+ quote server.(serverId) +:+ "."));
  _ ← throw_if (bool_decide (server.(serverName) ∈ collected.(serverNames)))
        (mcp_conflict ("Duplicate MCP server name " +:+ quote server.(serverName)
                       +:+ " detected across sandbox profile bindings."));
  _ ← validateMcpServerShape bindingId server;
  let source := IntegrationSource bindingId input.(input_connection).(connection_id) input.(input_targetKey)
                  input.(input_target).(target_familyId) input.(input_target).(target_variantId) in
  inr (mkCollected (serverKey :: collected.(serverIds)) (server.(serverName) :: collected.(serverNames))
         (collected.(resolvedServers) ++ [mkResolvedServer source (resolve_server server)])).

Definition declared_servers (prepared : PreparedBindingContext) : PlanError + list IntegrationMcpServer :=
  match prepared.(prepared_definition).(definition_mcp) with
  | None => inr []
  | Some (McpValue value) => inr (normalizeMcpDefinitionValue value)
  | Some (McpFunction resolve) =>
      value ← resolve prepared.(prepared_input); inr (normalizeMcpDefinitionValue value)
  end.

Definition source_sort_key (server : ResolvedIntegrationMcpServer) : string :=
  match server.(mcp_source) with
  | IntegrationSource bindingId _ _ _ _ => bindingId
  | MistleSource => "mistle"
  end.

Section Compiler.
Context `{Locale} `{Toml} `{Urls}.

Definition compare_servers (l r : ResolvedIntegrationMcpServer) : Z :=
  if negb (source_sort_key l =?= source_sort_key r) then localeCompare (source_sort_key l) (source_sort_key r)
  else localeCompare l.(mcp_server).(serverId) r.(mcp_server).(serverId).

Definition collectResolvedMcpServers (preparedBindings : list PreparedBindingContext)
    : PlanError + list ResolvedIntegrationMcpServer :=
  collected ← fold_each (λ collected prepared,
      servers ← declared_servers prepared;
      fold_each (collect_server prepared) collected servers)
    (mkCollected [] [] []) preparedBindings;
  inr (sort compare_servers collected.(resolvedServers)).

(** [applyMcpMappings]: a definition of an agent has no [mcpConfig]. *)
Definition provider_mcp_config (definition : IntegrationDefinition) : option IntegrationMcpConfig :=
  if definition.(definition_kind) =?= KindAgent then None else definition.(definition_mcpConfig).

Definition with_clients (fragment : CompiledRuntimePlanFragment) (clients : list RuntimeClient)
    : CompiledRuntimePlanFragment :=
  mkFragment fragment.(egressRoutes) fragment.(artifacts) clients fragment.(workspaceSources)
    fragment.(agentRuntimes).

Definition applyMcpMappings (preparedBindings : list PreparedBindingContext)
    (mcpServers : list ResolvedIntegrationMcpServer) : PlanError + list CompiledRuntimePlanFragment :=
  try_map (λ prepared,
    match provider_mcp_config prepared.(prepared_definition) with
    | None => inr prepared.(prepared_fragment)
    | Some mcpConfig =>
        clients ← applyMcpConfigToRuntimeClients mcpConfig mcpServers
                    prepared.(prepared_fragment).(runtimeClients);
        inr (with_clients prepared.(prepared_fragment) clients)
    end) preparedBindings.

Definition compileBindings (profile : Profile) (integrationRegistry : IntegrationRegistry)
    (bindings : list CompileRuntimePlanBindingInput) (enforceRuntimeEligibility : bool)
    : PlanError + (list CompiledRuntimePlanFragment * list ResolvedIntegrationMcpServer) :=
  preparedBindings ← try_map (prepare_binding profile integrationRegistry enforceRuntimeEligibility) bindings;
  resolvedMcpServers ← collectResolvedMcpServers preparedBindings;
  compiledRuntimePlanFragments ← applyMcpMappings preparedBindings resolvedMcpServers;
  inr (compiledRuntimePlanFragments, resolvedMcpServers).

End Compiler.

(** ** Agent runtimes *)

Record CompileAgentRuntimeInput : Type := mkRuntimeInput {
  runtime_profile : Profile;
  runtime_runtimeId : string;
  runtime_runtimeConfig : json;
  runtime_mcpServers : list ResolvedIntegrationMcpServer;
  runtime_mergeRuntimeSetupFiles : option bool;
}.

Record CompileAgentRuntimeResult : Type := mkRuntimeResult {
  compiled_artifacts : option (list RuntimeArtifactSpec);
  compiled_workspaceSources : option (list CompiledWorkspaceSource);
  compiled_agentRuntimes : list CompiledAgentRuntime;
  compiled_runtimeClients : option (list RuntimeClient);
  renderRuntimeClients : option (list EgressCredentialRoute → PlanError + list RuntimeClient);
}.

Record AgentRuntimeDefinition : Type := mkRuntimeDefinition {
  definition_runtimeId : string;
  runtime_configSchema : ConfigSchema;
  runtime_capabilities : option AgentRuntimeCapabilities;
  materializeMcpConfig : option (list IntegrationMcpConfig);
  compileRuntime : CompileAgentRuntimeInput → PlanError + CompileAgentRuntimeResult;
}.

Definition AgentRuntimeRegistry : Type := JsMap.t string AgentRuntimeDefinition.

Definition getRuntime (registry : AgentRuntimeRegistry) (runtimeId : string) : option AgentRuntimeDefinition :=
  JsMap.get registry runtimeId.

Definition thrown_message (error : PlanError) : string :=
  match error with
  | IntegrationCompilerError _ message | IntegrationDefinitionRegistryError message
  | PlainError message | DefinitionError message => message
  end.

Definition with_capabilities (capabilities : option AgentRuntimeCapabilities) (runtime : CompiledAgentRuntime)
    : CompiledAgentRuntime :=
  match capabilities with
  | None => runtime
  | Some _ => mkAgentRuntime runtime.(agent_runtimeId) runtime.(runtimeKey) runtime.(agent_clientId)
                runtime.(agent_endpointKey) runtime.(ptyLaunch) capabilities
  end.

Section AgentRuntimes.
Context `{Locale} `{Toml} `{Urls}.

Definition apply_agent_mcp_config (runtimeId : string) (mcpServers : list ResolvedIntegrationMcpServer)
    (clients : list RuntimeClient) (mcpConfig : IntegrationMcpConfig) : PlanError + list RuntimeClient :=
  let targetClient := head (List.filter (λ c, c.(clientId) =?= mcpConfig.(mcpConfig_clientId)) clients) in
  let targetFile := client ← targetClient;
    head (List.filter (λ f, f.(fileId) =?= mcpConfig.(mcpConfig_fileId)) client.(client_setup).(setup_files)) in
  match targetFile with
  | None => compiler_error AGENT_RUNTIME_MCP_TARGET_CLIENT_MISSING
      ("Agent runtime " +:+ quote runtimeId +:+ " MCP config target "
       +:+ quote (mcpConfig.(mcpConfig_clientId) +:+ "::" +:+ mcpConfig.(mcpConfig_fileId)) +:+ " was not found.")
  | Some _ => applyMcpConfigToRuntimeClients mcpConfig mcpServers clients
  end.

Definition applyAgentRuntimeMcpMappings (runtimeId : string) (runtimeDefinition : AgentRuntimeDefinition)
    (mcpServers : list ResolvedIntegrationMcpServer) (clients : list RuntimeClient)
    : PlanError + list RuntimeClient :=
  if bool_decide (length mcpServers = 0%nat) then inr clients
  else fold_each (apply_agent_mcp_config runtimeId mcpServers) clients
         (default [] runtimeDefinition.(materializeMcpConfig)).

Definition render_clients (runtimeId : string) (result : CompileAgentRuntimeResult)
    (routes : list EgressCredentialRoute) : PlanError + list RuntimeClient :=
  match result.(renderRuntimeClients) with
  | None => inr (default [] result.(compiled_runtimeClients))
  | Some render =>
      match render routes with
      | inr clients => inr clients
      | inl error => compiler_error INVALID_AGENT_RUNTIME_CONFIG
          ("Agent runtime " +:+ quote runtimeId +:+ " failed to render runtime clients. " +:+ thrown_message error)
      end
  end.

Definition compileProfileAgentRuntimeFragment (profile : Profile) (agentRuntimeRegistry : AgentRuntimeRegistry)
    (agentRuntimeId : string) (routes : list EgressCredentialRoute)
    (mcpServers : list ResolvedIntegrationMcpServer) (mergeRuntimeSetupFiles : option bool)
    : PlanError + CompiledRuntimePlanFragment :=
  match getRuntime agentRuntimeRegistry agentRuntimeId with
  | None => compiler_error AGENT_RUNTIME_NOT_FOUND
      ("Sandbox profile references unknown agent runtime " +:+ quote agentRuntimeId +:+ ".")
  | Some runtimeDefinition =>
      parsedRuntimeConfig ← parse_or_throw runtimeDefinition.(runtime_configSchema) (JObject [])
        INVALID_AGENT_RUNTIME_CONFIG
        ("Sandbox profile has invalid config for agent runtime " +:+ quote agentRuntimeId +:+ ".");
      result ← runtimeDefinition.(compileRuntime)
        (mkRuntimeInput profile agentRuntimeId parsedRuntimeConfig mcpServers mergeRuntimeSetupFiles);
      renderedRuntimeClients ← render_clients agentRuntimeId result routes;
      compiled ← resolveRuntimeArtifacts (default [] result.(compiled_artifacts))
        (mkContext profile.(profile_organizationId) profile.(profile_sandboxProfileId) profile.(profile_version)
           "agent-runtime" ("agent-runtime-" +:+ agentRuntimeId));
      clients ← applyAgentRuntimeMcpMappings agentRuntimeId runtimeDefinition mcpServers renderedRuntimeClients;
      inr (mkFragment [] compiled clients (default [] result.(compiled_workspaceSources))
             (with_capabilities runtimeDefinition.(runtime_capabilities) <$> result.(compiled_agentRuntimes)))
  end.

(** ** The plan *)

Record CompileRuntimePlanInput : Type := mkPlanInput {
  plan_input_profile : Profile;
  plan_input_image : ResolvedSandboxImage;
  plan_input_agentRuntimeId : string;
  plan_input_bindings : list CompileRuntimePlanBindingInput;
  plan_input_egressRoutes : option (list EgressCredentialRoute);
  plan_input_mcpServers : option (list ResolvedIntegrationMcpServer);
  plan_input_routing : AssociatedResourceEventRouting;
  plan_input_mergeRuntimeSetupFiles : option bool;
  integrationRegistry : IntegrationRegistry;
  agentRuntimeRegistry : AgentRuntimeRegistry;
}.

Definition platform_fragment (input : CompileRuntimePlanInput) : CompiledRuntimePlanFragment :=
  mkFragment (default [] input.(plan_input_egressRoutes)) [] [] [] [].

(** The servers a runtime sees: those of the bindings and those of the platform. *)
Definition plan_servers (input : CompileRuntimePlanInput) (servers : list ResolvedIntegrationMcpServer)
    : list ResolvedIntegrationMcpServer :=
  sort (λ l r, localeCompare l.(mcp_server).(serverName) r.(mcp_server).(serverName))
    (servers ++ default [] input.(plan_input_mcpServers)).

Definition compile_fragments (input : CompileRuntimePlanInput) : PlanError + list CompiledRuntimePlanFragment :=
  let profile := input.(plan_input_profile) in
  compiledBindings ← compileBindings profile input.(integrationRegistry) input.(plan_input_bindings) true;
  let resolvedMcpServers := plan_servers input compiledBindings.2 in
  let compiledBindingAndPlatformFragments := compiledBindings.1 ++ [platform_fragment input] in
  runtimeFragment ← compileProfileAgentRuntimeFragment profile input.(agentRuntimeRegistry)
    input.(plan_input_agentRuntimeId) (compiledBindingAndPlatformFragments ≫= egressRoutes)
    resolvedMcpServers input.(plan_input_mergeRuntimeSetupFiles);
  inr (compiledBindingAndPlatformFragments ++ [runtimeFragment]).

Definition compileRuntimePlan (input : CompileRuntimePlanInput) : PlanError + CompiledRuntimePlan :=
  let profile := input.(plan_input_profile) in
  compiledRuntimePlanFragments ← compile_fragments input;
  _ ← validateCompiledRuntimePlanFragments compiledRuntimePlanFragments;
  assembleCompiledRuntimePlan profile.(profile_sandboxProfileId) profile.(profile_version)
    input.(plan_input_image) input.(plan_input_routing) compiledRuntimePlanFragments.
End AgentRuntimes.
