(* ===== verification/PlanCompilerSpec.v ===== *)
(** * What the compiler of runtime plans promises

    - [compiled_plan_ok]: what is compiled is a well-formed plan (PlanWellFormed.v).
    - [compiled_routes]: only eligible bindings are compiled, and the egress routes of the plan
      are those of the platform and those the definitions of the bindings have compiled,
      under identifiers of their bindings.
    - [collected_servers]: when the MCP servers of the bindings are accepted, and what they are.

    The last section has an example that the theorems are applied to. *)

From S2P Require Import Prelude JsMap JsObject Json DataFrame Text Locale PlanTypes EgressRoutes PlanValidation.
From S2P Require Import PlanExample PlanAssembly PlanSpec PlanWellFormed McpConfig PlanCompiler.
Local Open Scope Z_scope.

Section Spec.
Context `{HL : Locale} `{HT : Toml} `{HU : Urls}.

(** ** Bindings *)

(** The definition a binding is compiled by, and what it is compiled from. *)
Record compiled_by (registry : IntegrationRegistry) (profile : Profile) (b : CompileRuntimePlanBindingInput)
    (definition : IntegrationDefinition) (result : CompileBindingResult) : Prop := mkCompiledBy {
  by_definition : getDefinition registry b.(plan_target).(target_familyId) b.(plan_target).(target_variantId)
    = Some definition;
  by_kind : definition.(definition_kind) = b.(plan_binding).(binding_kind);
  by_result : ∃ targetConfig targetSecrets bindingConfig,
    definition.(targetConfigSchema) b.(plan_target).(target_config) = Some targetConfig ∧
    definition.(targetSecretSchema) b.(plan_target).(target_secrets) = Some targetSecrets ∧
    definition.(bindingConfigSchema) b.(plan_binding).(binding_config) = Some bindingConfig ∧
    definition.(compileBinding)
      (mkBindingInput profile.(profile_organizationId) profile.(profile_sandboxProfileId) profile.(profile_version)
         b.(plan_targetKey)
         (mkTarget b.(plan_target).(target_familyId) b.(plan_target).(target_variantId)
            b.(plan_target).(target_enabled) targetConfig targetSecrets)
         b.(plan_connection) b.(plan_binding).(binding_id) b.(plan_binding).(binding_kind) bindingConfig)
      = inr result;
}.

(** A sandbox may start with the binding. *)
Definition eligible (b : CompileRuntimePlanBindingInput) : Prop :=
  b.(plan_connection).(connection_id) = b.(plan_binding).(binding_connectionId) ∧
  b.(plan_target).(target_enabled) = true ∧
  b.(plan_connection).(connection_status) = ConnectionActive.

(** The route is the [i]-th one of the result, under the identifiers of the binding. *)
Definition route_of (b : CompileRuntimePlanBindingInput) (result : CompileBindingResult)
    (route : EgressCredentialRoute) : Prop :=
  ∃ i body, result.(result_egressRoutes) !! i = Some body ∧
    route = mkRoute (resolveEgressRuleId b.(plan_binding).(binding_id) (Z.of_nat i)) b.(plan_binding).(binding_id)
              b.(plan_target).(target_familyId) b.(plan_target).(target_variantId) body.

Lemma parse_or_throw_inr schema value code message parsed :
  parse_or_throw schema value code message = inr parsed ↔ schema value = Some parsed.
Proof. unfold parse_or_throw. destruct (schema value); naive_solver. Qed.

Lemma getDefinitionOrThrow_inr registry familyId variantId definition :
  getDefinitionOrThrow registry familyId variantId = inr definition ↔
  getDefinition registry familyId variantId = Some definition.
Proof. unfold getDefinitionOrThrow. destruct (getDefinition registry familyId variantId); naive_solver. Qed.

(** A prepared binding: its fragment has the routes of its result. *)
Lemma prepare_binding_inr profile registry b prepared :
  prepare_binding profile registry true b = inr prepared →
  eligible b ∧ ∃ result, compiled_by registry profile b prepared.(prepared_definition) result ∧
    ∀ route, route ∈ prepared.(prepared_fragment).(egressRoutes) ↔ route_of b result route.
Proof.
  unfold prepare_binding. cbv zeta.
  intros (u1 & Hid%throw_if_inr & (u2 & Hen%throw_if_inr & (u3 & Hst%throw_if_inr & H)%sum_bind_inr)%sum_bind_inr)%sum_bind_inr.
  apply sum_bind_inr in H as (definition & Hdef%getDefinitionOrThrow_inr & H).
  apply sum_bind_inr in H as (u4 & Hkind%throw_if_inr & H).
  apply sum_bind_inr in H as (tc & Htc%parse_or_throw_inr & H).
  apply sum_bind_inr in H as (ts & Hts%parse_or_throw_inr & H).
  apply sum_bind_inr in H as (bc & Hbc%parse_or_throw_inr & H).
  apply sum_bind_inr in H as (validation & _ & H). apply sum_bind_inr in H as (u5 & _ & H).
  apply sum_bind_inr in H as (result & Hresult & H). apply sum_bind_inr in H as (fragment & Hfragment & [= <-]).
  cbn [andb] in *. bools. split; [done|]. exists result. cbn [prepared_definition prepared_fragment]. split.
  { constructor; [done|done|]. by exists tc, ts, bc. }
  unfold compileBindingResultToCompiledRuntimePlanFragment in Hfragment. cbv zeta in Hfragment.
  apply sum_bind_inr in Hfragment as (compiled & _ & [= <-]). cbn [egressRoutes context_bindingId].
  intros route. rewrite list_elem_of_lookup. unfold route_of. setoid_rewrite list_lookup_imap.
  setoid_rewrite fmap_Some. naive_solver.
Qed.

(** ** The fragments *)

Lemma compiled_by_unique registry profile b d1 r1 d2 r2 :
  compiled_by registry profile b d1 r1 → compiled_by registry profile b d2 r2 → r1 = r2.
Proof. intros [Hd _ (?&?&?&?&?&?&?)] [Hd' _ (?&?&?&?&?&?&?)]. congruence. Qed.

Lemma applyMcpMappings_routes prepared servers fragments :
  applyMcpMappings prepared servers = inr fragments →
  fragments ≫= egressRoutes = prepared ≫= (egressRoutes ∘ prepared_fragment).
Proof.
  intros Hmap%try_map_inr. induction Hmap as [|p f prepared fragments Hp Hmap IH]; [done|].
  cbn [mbind list_bind]. rewrite IH. f_equal. destruct (provider_mcp_config _); [|by injection Hp as <-].
  by apply sum_bind_inr in Hp as (? & _ & [= <-]).
Qed.

(** The routes of the fragments. *)
Lemma compile_fragments_routes input fragments :
  compile_fragments input = inr fragments →
  Forall eligible input.(plan_input_bindings) ∧
  (∀ b, b ∈ input.(plan_input_bindings) →
    ∃ definition result, compiled_by input.(integrationRegistry) input.(plan_input_profile) b definition result) ∧
  ∀ route, route ∈ fragments ≫= egressRoutes ↔
    route ∈ default [] input.(plan_input_egressRoutes) ∨
    ∃ b definition result, b ∈ input.(plan_input_bindings) ∧
      compiled_by input.(integrationRegistry) input.(plan_input_profile) b definition result ∧
      route_of b result route.
Proof.
  unfold compile_fragments. cbv zeta.
  intros ([bindings servers] & Hbindings & (runtime & Hruntime & [= <-])%sum_bind_inr)%sum_bind_inr.
  assert (runtime.(egressRoutes) = []) as Hempty.
  { revert Hruntime. clear. unfold compileProfileAgentRuntimeFragment. destruct (getRuntime _ _); [|done].
    intros (? & _ & H)%sum_bind_inr. apply sum_bind_inr in H as (? & _ & H).
    apply sum_bind_inr in H as (? & _ & H). apply sum_bind_inr in H as (? & _ & H).
    by apply sum_bind_inr in H as (? & _ & [= <-]). }
  unfold compileBindings in Hbindings.
  apply sum_bind_inr in Hbindings as (prepared & Hprepared%try_map_inr & Hb).
  apply sum_bind_inr in Hb as (resolved & _ & Hb). apply sum_bind_inr in Hb as (fs & Hfs & [= <- <-]).
  cbn [fst]. rewrite !bind_app, (applyMcpMappings_routes _ _ _ Hfs). cbn [mbind list_bind].
  rewrite Hempty, !app_nil_r. unfold platform_fragment. cbn [egressRoutes].
  split; [|split].
  - clear -Hprepared. induction Hprepared; constructor; [|done]. by eapply prepare_binding_inr.
  - intros b Hb. destruct (Forall2_elem_of_l _ _ _ _ Hprepared Hb) as (p & _ & Hp).
    apply prepare_binding_inr in Hp as (_ & result & Hby & _). eauto.
  - intros route. rewrite elem_of_app, list_elem_of_bind. split.
    + intros [(p & Hr & Hp)|?]; [right|by left].
      destruct (Forall2_elem_of_r _ _ _ _ Hprepared Hp) as (b & Hb & Hprep).
      apply prepare_binding_inr in Hprep as (_ & result & Hby & Hroutes). exists b, p.(prepared_definition), result.
      by rewrite <- Hroutes.
    + intros [?|(b & definition & result & Hb & Hby & Hroute)]; [by right|left].
      destruct (Forall2_elem_of_l _ _ _ _ Hprepared Hb) as (p & Hp & Hprep).
      apply prepare_binding_inr in Hprep as (_ & result' & Hby' & Hroutes). exists p. split; [|done].
      apply Hroutes. by rewrite (compiled_by_unique _ _ _ _ _ _ _ Hby' Hby).
Qed.

(** ** MCP servers *)

Definition shape_ok (server : IntegrationMcpServer) : Prop :=
  blank server.(serverId) = false ∧ blank server.(serverName) = false ∧
  match server.(mcp_transport) with
  | STDIO => missing_or_blank server.(mcp_command) = false
  | STREAMABLE_HTTP => missing_or_blank server.(mcp_url) = false
  end.

Lemma validateMcpServerShape_inr bindingId server u :
  validateMcpServerShape bindingId server = inr u ↔ shape_ok server.
Proof.
  unfold validateMcpServerShape, shape_ok. cbv zeta. split.
  - intros (? & ?%throw_if_inr & (? & ?%throw_if_inr & H)%sum_bind_inr)%sum_bind_inr.
    do 2 (split; [done|]). by destruct server.(mcp_transport); apply throw_if_inr in H.
  - intros (-> & -> & H). cbn [throw_if mbind sum_bind]. by destruct server.(mcp_transport); apply throw_if_inr.
Qed.

(** The servers with the bindings that declare them. *)
Definition declaration : Type := PreparedBindingContext * IntegrationMcpServer.
Definition declarations (prepared : list PreparedBindingContext) (servers : list (list IntegrationMcpServer))
    : list declaration := concat (zip_with (λ p l, pair p <$> l) prepared servers).

Definition declared_key (d : declaration) : string :=
  server_key d.1.(prepared_input).(input_bindingId) d.2.(serverId).
Definition declared_name (d : declaration) : string := d.2.(serverName).
Definition resolved_of (d : declaration) : ResolvedIntegrationMcpServer :=
  let input := d.1.(prepared_input) in
  mkResolvedServer
    (IntegrationSource input.(input_bindingId) input.(input_connection).(connection_id) input.(input_targetKey)
       input.(input_target).(target_familyId) input.(input_target).(target_variantId))
    (resolve_server d.2).

Lemma collect_server_inr d c c' :
  collect_server d.1 c d.2 = inr c' ↔
  declared_key d ∉ c.(serverIds) ∧ declared_name d ∉ c.(serverNames) ∧ shape_ok d.2 ∧
  c' = mkCollected (declared_key d :: c.(serverIds)) (declared_name d :: c.(serverNames))
         (c.(resolvedServers) ++ [resolved_of d]).
Proof.
  unfold collect_server. cbv zeta. split.
  - intros (? & ?%throw_if_inr & (? & ?%throw_if_inr & (? & ?%validateMcpServerShape_inr & [= <-])%sum_bind_inr)%sum_bind_inr)%sum_bind_inr.
    by bools.
  - intros (Hkey & Hname & Hshape%(validateMcpServerShape_inr d.1.(prepared_input).(input_bindingId) _ tt) & ->).
    rewrite !bool_decide_false by done. cbn [throw_if mbind sum_bind]. by rewrite Hshape.
Qed.

Lemma collect_declarations ds c c' :
  fold_each (λ c d, collect_server d.1 c d.2) c ds = inr c' ↔
  NoDup (declared_key <$> ds) ∧ NoDup (declared_name <$> ds) ∧
  Forall (λ d, declared_key d ∉ c.(serverIds) ∧ declared_name d ∉ c.(serverNames) ∧ shape_ok d.2) ds ∧
  c' = mkCollected (reverse (declared_key <$> ds) ++ c.(serverIds)) (reverse (declared_name <$> ds) ++ c.(serverNames))
         (c.(resolvedServers) ++ (resolved_of <$> ds)).
Proof.
  revert c. induction ds as [|d ds IH]; intros c; cbn [fold_each].
  { change (reverse (_ <$> [])) with (@nil string). cbn [fmap list_fmap app]. rewrite app_nil_r. split.
    - intros [= <-]. do 3 (split; [constructor|]). by destruct c.
    - intros (_ & _ & _ & ->). by destruct c. }
  rewrite sum_bind_inr. setoid_rewrite collect_server_inr. setoid_rewrite IH.
  cbn [fmap list_fmap]. rewrite !NoDup_cons, Forall_cons, !reverse_cons, <- !app_assoc. cbn [app]. split.
  - intros (c1 & (Hk & Hn & Hs & ->) & Hnk & Hnn & Hall & ->). cbn [serverIds serverNames resolvedServers] in *.
    rewrite <- app_assoc. cbn [app].
    assert (Forall (λ x, declared_key x ≠ declared_key d ∧ declared_name x ≠ declared_name d) ds) as Hne.
    { eapply Forall_impl; [exact Hall|]. intros x. set_solver. }
    split; [split; [|done]|split; [split; [|done]|split; [|done]]].
    + intros (x & Hx & Hin)%list_elem_of_fmap. by destruct (proj1 (Forall_forall _ _) Hne x Hin).
    + intros (x & Hx & Hin)%list_elem_of_fmap. by destruct (proj1 (Forall_forall _ _) Hne x Hin).
    + split; [done|]. eapply Forall_impl; [exact Hall|]. intros x. set_solver.
  - intros ([Hk Hnk] & [Hn Hnn] & [(Hk' & Hn' & Hs) Hall] & ->). eexists. split; [done|].
    cbn [serverIds serverNames resolvedServers]. rewrite <- app_assoc. cbn [app].
    do 2 (split; [done|]). split; [|done]. apply Forall_forall. intros x Hx.
    destruct (proj1 (Forall_forall _ _) Hall x Hx) as (Hxk & Hxn & Hxs). rewrite !not_elem_of_cons.
    split; [|split; [|done]]; (split; [|done]); intros Heq.
    + apply Hk. rewrite <- Heq. by apply list_elem_of_fmap_2.
    + apply Hn. rewrite <- Heq. by apply list_elem_of_fmap_2.
Qed.

Lemma collect_bindings prepared c c' :
  fold_each (λ collected p, servers ← declared_servers p; fold_each (collect_server p) collected servers) c prepared
    = inr c' ↔
  ∃ servers, Forall2 (λ p l, declared_servers p = inr l) prepared servers ∧
    fold_each (λ c d, collect_server d.1 c d.2) c (declarations prepared servers) = inr c'.
Proof.
  revert c. induction prepared as [|p prepared IH]; intros c; cbn [fold_each].
  { split; [intros [= <-]; by exists []|]. by intros (servers & ->%Forall2_nil_inv_l & [= <-]). }
  assert (∀ l, fold_each (λ c d, collect_server d.1 c d.2) c (pair p <$> l) = fold_each (collect_server p) c l)
    as Hpair by (intros l; by rewrite fold_each_fmap).
  rewrite sum_bind_inr. split.
  - intros (c1 & (l & Hl & Hfold)%sum_bind_inr & (servers & Hall & Hrest)%IH). exists (l :: servers).
    split; [by constructor|]. unfold declarations. cbn [zip_with concat].
    by rewrite fold_each_app, Hpair, Hfold.
  - intros (servers & Hall & Hfold). apply Forall2_cons_inv_l in Hall as (l & servers' & Hl & Hall & ->).
    unfold declarations in Hfold. cbn [zip_with concat] in Hfold.
    rewrite fold_each_app, Hpair in Hfold.
    apply sum_bind_inr in Hfold as (c1 & Hfold & Hrest). exists c1. split; [rewrite Hl; exact Hfold|].
    apply IH. by exists servers'.
Qed.

(** The MCP servers of the bindings are accepted exactly when every definition gives its servers, no
    two have the same binding and id or the same name, and each has an id, a name and what its
    transport needs; then the result is the copies of all of them, with their bindings as
    sources, sorted. *)
Theorem collected_servers (prepared : list PreparedBindingContext) (resolved : list ResolvedIntegrationMcpServer) :
  collectResolvedMcpServers prepared = inr resolved ↔
  ∃ servers, Forall2 (λ p l, declared_servers p = inr l) prepared servers ∧
    NoDup (declared_key <$> declarations prepared servers) ∧
    NoDup (declared_name <$> declarations prepared servers) ∧
    Forall (λ d, shape_ok d.2) (declarations prepared servers) ∧
    resolved = sort compare_servers (resolved_of <$> declarations prepared servers).
Proof.
  unfold collectResolvedMcpServers. rewrite sum_bind_inr. setoid_rewrite collect_bindings.
  setoid_rewrite collect_declarations. split.
  - intros (c & (servers & Hall & Hkeys & Hnames & Hok & ->) & [= <-]). exists servers.
    do 3 (split; [done|]). split; [|done]. eapply Forall_impl; [exact Hok|]. by intros d (_ & _ & ?).
  - intros (servers & Hall & Hkeys & Hnames & Hok & ->). eexists (mkCollected _ _ ([] ++ (resolved_of <$> declarations prepared servers))). split; [|done].
    exists servers. do 3 (split; [done|]). split; [|done]. eapply Forall_impl; [exact Hok|].
    intros d Hd. split; [apply not_elem_of_nil|split; [apply not_elem_of_nil|done]].
Qed.

(** ** The plan *)

(** C2: Whatever the definitions and the agent runtime compile: the plan that comes out is
    well formed: identifiers and keys are unique, egress routes do not overlap, artifacts,
    clients and launch specifications pass the checks, and every agent runtime names a client
    and an endpoint of the plan. *)
Theorem compiled_plan_ok (input : CompileRuntimePlanInput) (plan : CompiledRuntimePlan) :
  compileRuntimePlan input = inr plan → plan_ok plan.
Proof.
  unfold compileRuntimePlan. cbv zeta.
  intros (fragments & _ & ([] & Hvalid & Hplan)%sum_bind_inr)%sum_bind_inr. by eapply assembled_plan_ok.
Qed.

(** C25: A plan is compiled only of bindings that may run: the connection is the one the binding
    names and active, the target enabled, and the definition of the target of the kind of the
    binding.  Its egress routes are exactly those of the platform and those the definitions
    have compiled from the parsed configurations, each under the identifiers of its binding. *)
Theorem compiled_routes (input : CompileRuntimePlanInput) (plan : CompiledRuntimePlan) :
  compileRuntimePlan input = inr plan →
  Forall eligible input.(plan_input_bindings) ∧
  (∀ b, b ∈ input.(plan_input_bindings) →
    ∃ definition result, compiled_by input.(integrationRegistry) input.(plan_input_profile) b definition result) ∧
  ∀ route, route ∈ plan.(plan_egressRoutes) ↔
    route ∈ default [] input.(plan_input_egressRoutes) ∨
    ∃ b definition result, b ∈ input.(plan_input_bindings) ∧
      compiled_by input.(integrationRegistry) input.(plan_input_profile) b definition result ∧
      route_of b result route.
Proof.
  unfold compileRuntimePlan. cbv zeta.
  intros (fragments & Hfragments%compile_fragments_routes & ([] & _ & (Hroutes & _)%assembled_parts)%sum_bind_inr)%sum_bind_inr.
  destruct Hfragments as (Heligible & Hcompiled & Hspec). split; [done|]. split; [done|].
  intros route. rewrite <- Hspec, Hroutes. unfold orderRoutesForMatching. apply elem_of_sort.
Qed.
End Spec.

(** ** An example *)

Definition object_schema : ConfigSchema := λ v, match v with JObject _ => Some v | _ => None end.

Definition example_definition : IntegrationDefinition :=
  mkDefinition "github" "cloud" KindGit object_schema object_schema object_schema []
    (Some (McpValue (OneMcpServer (mkMcpServer "mcp" "github" STREAMABLE_HTTP None
             (Some "https://api.githubcopilot.com/mcp/") None None None None))))
    None None
    (λ input, inr (mkBindingResult [example_read; example_write]
       [mkArtifactSpec "gh" "GitHub CLI" None None
          (Some (HookBuilder (λ refs, inr [refs.(refs_exec) (mkExec ["apt-get"; "install"; "gh"] None None None)])))]
       [] (Some [example_source]) None)).

Definition example_runtime_definition : AgentRuntimeDefinition :=
  mkRuntimeDefinition "codex" object_schema None
    (Some [mkMcpConfig "codex" "config" JSON ["mcp"; "servers"]])
    (λ input, inr (mkRuntimeResult None None [example_runtime] (Some [example_client "{}"]) None)).

Definition example_binding : CompileRuntimePlanBindingInput :=
  mkPlanBinding "github"
    (mkTarget "github" "cloud" true (JObject []) (JObject []))
    (mkConnection "icn_1" ConnectionActive None (JObject []))
    (mkBinding "bnd_1" KindGit "icn_1" (JObject [])).

Definition example_input : CompileRuntimePlanInput :=
  mkPlanInput (mkProfile "org_1" "sbp_1" (Int 1)) (BaseImage "image") "codex" [example_binding] None None
    example_routing None [("github::cloud", example_definition)] [("codex", example_runtime_definition)].

(** The text of the setup file with the MCP server of the binding in it. *)
Definition example_setup : string :=
  JSON_stringify_indented "" (JObject [("mcp", JObject [("servers", JObject [("github",
    JObject [("url", JString "https://api.githubcopilot.com/mcp/")])])])]) +:+ newline.

Definition example_compiled : CompiledRuntimePlan :=
  mkPlan "sbp_1" (Int 1) (BaseImage "image") example_routes [example_artifact] [example_source]
    [example_client example_setup] [example_runtime] example_routing.

Lemma compiled_plan_ok_witness :
  @compileRuntimePlan reference_locale json_toml reference_urls example_input = inr example_compiled ∧
  @plan_ok reference_locale reference_urls example_compiled.
Proof.
  assert (@compileRuntimePlan reference_locale json_toml reference_urls example_input = inr example_compiled) as Heq
    by (by vm_compute).
  split; [exact Heq|]. exact (@compiled_plan_ok reference_locale json_toml reference_urls _ _ Heq).
Defined.

Lemma compiled_routes_witness :
  @compileRuntimePlan reference_locale json_toml reference_urls example_input = inr example_compiled ∧
  Forall eligible [example_binding].
Proof.
  assert (@compileRuntimePlan reference_locale json_toml reference_urls example_input = inr example_compiled) as Heq
    by (by vm_compute).
  split; [exact Heq|].
  exact (proj1 (@compiled_routes reference_locale json_toml reference_urls _ _ Heq)).
Defined.
