(* ===== verification/NatsRelay.v ===== *)
(** * The NATS relay transport (tunnel/relay-transport/adapters/nats-relay-transport-adapter.ts)

    The transport between gateway nodes: an envelope for a peer of this node goes
    to its socket, any other one is published as JSON on the subject of its node.
    A frame whose JSON is too large for one message is published in chunks, which
    the other node puts together again.

    [NatsTransport] is the state of one adapter.  The NATS connection is not part
    of the repository: the calls of [publish] are recorded in order, and
    [publish_error n] is what the n-th of them throws, if anything.  [randomUUID n] is
    the n-th identifier drawn; the two readings of [Date.now()] in one chunk are
    arguments.  The calls made on sockets are recorded as in RelayCoordinator.v;
    the metrics are left out. *)

From S2P Require Import Prelude JsMap Json DataFrame Text Zod TunnelTypes RelayCoordinator.
Local Open Scope Z_scope.

Definition MaxDirectNatsRelayEncodedBytes : Z := 900000.
Definition MaxChunkPayloadBytes : Z := 512 * 1024.
Definition MaxReassembledPayloadBytes : Z := 64 * 1024 * 1024.
Definition ReassemblyTimeoutMs : Z := 30000.

(** ** The wire format *)

Definition RelayTargetSchema : schema :=
  ZStrictObject [("sandboxInstanceId", ZNonEmptyString);
   ("side", ZEnum ["bootstrap"; "connection"; "ptyClient"; "ptySandbox"]);
   ("nodeId", ZNonEmptyString);
   ("sessionId", ZNonEmptyString)].

Definition WireRelayEnvelopeSchema : schema :=
  ZDiscriminatedUnion "kind"
   [ZStrictObject [("kind", ZLiteral "frame");
      ("target", RelayTargetSchema);
      ("payload", ZDiscriminatedUnion "kind"
         [ZStrictObject [("kind", ZLiteral "text"); ("value", ZString)];
          ZStrictObject [("kind", ZLiteral "base64"); ("value", ZString)]])];
    ZStrictObject [("kind", ZLiteral "close");
      ("target", RelayTargetSchema);
      ("closeCode", ZInt (Some 1000) (Some 4999));
      ("closeReason", ZString)];
    ZStrictObject [("kind", ZLiteral "frame_chunk");
      ("target", RelayTargetSchema);
      ("messageId", ZNonEmptyString);
      ("payloadKind", ZEnum ["text"; "binary"]);
      ("chunkIndex", ZInt (Some 0) None);
      ("chunkCount", ZInt (Some 1) None);
      ("originalPayloadBytes", ZInt (Some 0) (Some MaxReassembledPayloadBytes));
      ("value", ZString)]].

Inductive WireRelayPayloadKind : Type := WireTextKind | WireBinaryKind.

#[export] Instance WireRelayPayloadKind_eq_dec : EqDecision WireRelayPayloadKind.
Proof. solve_decision. Defined.

Definition payload_kind_value (kind : WireRelayPayloadKind) : string :=
  match kind with WireTextKind => "text" | WireBinaryKind => "binary" end.

Inductive WirePayload : Type :=
| WireText (value : string)
| WireBase64 (value : string).

Record WireRelayFrameChunkEnvelope : Type := mkChunk {
  chunk_target : RelayTarget;
  messageId : string;
  chunk_payloadKind : WireRelayPayloadKind;
  chunkIndex : Z;
  chunk_chunkCount : Z;
  chunk_originalPayloadBytes : Z;
  chunk_value : string;
}.

Inductive WireRelayEnvelope : Type :=
| WireFrame (target : RelayTarget) (payload : WirePayload)
| WireClose (target : RelayTarget) (closeCode : Z) (closeReason : string)
| WireFrameChunk (chunk : WireRelayFrameChunkEnvelope).

(** The value given to [JSON.stringify]. *)
Definition target_json (target : RelayTarget) : json :=
  JObject [("sandboxInstanceId", JString target.(target_sandboxInstanceId));
           ("side", JString (side_value target.(target_side)));
           ("nodeId", JString target.(target_nodeId));
           ("sessionId", JString target.(target_sessionId))].

Definition wire_payload_json (payload : WirePayload) : json :=
  match payload with
  | WireText value => JObject [("kind", JString "text"); ("value", JString value)]
  | WireBase64 value => JObject [("kind", JString "base64"); ("value", JString value)]
  end.

Definition envelope_json (e : WireRelayEnvelope) : json :=
  match e with
  | WireFrame target payload =>
      JObject [("kind", JString "frame"); ("target", target_json target);
               ("payload", wire_payload_json payload)]
  | WireClose target closeCode closeReason =>
      JObject [("kind", JString "close"); ("target", target_json target);
               ("closeCode", JNumber (Int closeCode)); ("closeReason", JString closeReason)]
  | WireFrameChunk chunk =>
      JObject [("kind", JString "frame_chunk"); ("target", target_json chunk.(chunk_target));
               ("messageId", JString chunk.(messageId));
               ("payloadKind", JString (payload_kind_value chunk.(chunk_payloadKind)));
               ("chunkIndex", JNumber (Int chunk.(chunkIndex)));
               ("chunkCount", JNumber (Int chunk.(chunk_chunkCount)));
               ("originalPayloadBytes", JNumber (Int chunk.(chunk_originalPayloadBytes)));
               ("value", JString chunk.(chunk_value))]
  end.

(** The parsed value read at its type [z.infer<typeof WireRelayEnvelopeSchema>]. *)
Definition read_side (s : string) : RelayPeerSide :=
  if s =?= "bootstrap" then SideBootstrap else if s =?= "connection" then SideConnection
  else if s =?= "ptyClient" then SidePtyClient else SidePtySandbox.

Definition child (v : json) (key : string) : json := default JNull (field v key).

Definition read_target (v : json) : RelayTarget :=
  mkTarget (string_field v "sandboxInstanceId") (read_side (string_field v "side"))
    (string_field v "nodeId") (string_field v "sessionId").

Definition read_wire_payload (v : json) : WirePayload :=
  if string_field v "kind" =?= "text" then WireText (string_field v "value")
  else WireBase64 (string_field v "value").

Definition read_envelope (v : json) : WireRelayEnvelope :=
  let kind := string_field v "kind" in
  let target := read_target (child v "target") in
  if kind =?= "frame" then WireFrame target (read_wire_payload (child v "payload"))
  else if kind =?= "close" then
    WireClose target (integer_of (number_field v "closeCode")) (string_field v "closeReason")
  else
    WireFrameChunk (mkChunk target (string_field v "messageId")
      (if string_field v "payloadKind" =?= "text" then WireTextKind else WireBinaryKind)
      (integer_of (number_field v "chunkIndex")) (integer_of (number_field v "chunkCount"))
      (integer_of (number_field v "originalPayloadBytes")) (string_field v "value")).

Definition encodeJson (e : WireRelayEnvelope) : list Z :=
  TextEncoder_encode (JSON_stringify (envelope_json e)).

Definition decodeJson (data : list Z) : option json := JSON_parse (TextDecoder_decode data).

(** ** The adapter *)

Record ReassemblyState : Type := mkReassembly {
  chunkCount : Z;
  chunks : JsMap.t Z (list Z);
  createdAtMs : Z;
  originalPayloadBytes : Z;
  payloadKind : WireRelayPayloadKind;
  receivedBytes : Z;
  reassembly_target : RelayTarget;
}.

Record NatsTransport : Type := mkNats {
  nats_nodeId : string;
  subjectPrefix : string;
  chunkReassemblyByKey : JsMap.t string ReassemblyState;
  nats_socketsByPeerKey : JsMap.t string nat;
  (** [connection] and [subscription] are both defined or both undefined. *)
  nats_started : bool;
  uuids_drawn : nat;
  published : list (string * list Z);
  nats_socket_calls : list SocketCall;
}.

Definition with_reassembly (m : JsMap.t string ReassemblyState) (t : NatsTransport)
    : NatsTransport :=
  mkNats t.(nats_nodeId) t.(subjectPrefix) m t.(nats_socketsByPeerKey) t.(nats_started)
    t.(uuids_drawn) t.(published) t.(nats_socket_calls).
Definition with_sockets (m : JsMap.t string nat) (t : NatsTransport) : NatsTransport :=
  mkNats t.(nats_nodeId) t.(subjectPrefix) t.(chunkReassemblyByKey) m t.(nats_started)
    t.(uuids_drawn) t.(published) t.(nats_socket_calls).
Definition with_started (b : bool) (t : NatsTransport) : NatsTransport :=
  mkNats t.(nats_nodeId) t.(subjectPrefix) t.(chunkReassemblyByKey) t.(nats_socketsByPeerKey) b
    t.(uuids_drawn) t.(published) t.(nats_socket_calls).
Definition with_uuids (n : nat) (t : NatsTransport) : NatsTransport :=
  mkNats t.(nats_nodeId) t.(subjectPrefix) t.(chunkReassemblyByKey) t.(nats_socketsByPeerKey)
    t.(nats_started) n t.(published) t.(nats_socket_calls).
Definition with_published (l : list (string * list Z)) (t : NatsTransport) : NatsTransport :=
  mkNats t.(nats_nodeId) t.(subjectPrefix) t.(chunkReassemblyByKey) t.(nats_socketsByPeerKey)
    t.(nats_started) t.(uuids_drawn) l t.(nats_socket_calls).
Definition with_calls (l : list SocketCall) (t : NatsTransport) : NatsTransport :=
  mkNats t.(nats_nodeId) t.(subjectPrefix) t.(chunkReassemblyByKey) t.(nats_socketsByPeerKey)
    t.(nats_started) t.(uuids_drawn) t.(published) l.

Notation NatsM := (M JsError NatsTransport).

Definition new_nats_transport (nodeId subjectPrefix : string) : NatsTransport :=
  mkNats nodeId subjectPrefix JsMap.empty JsMap.empty false 0 [] [].

Definition createChunkReassemblyKey (chunk : WireRelayFrameChunkEnvelope) : string :=
  createPeerKey chunk.(chunk_target) +:+ ":" +:+ chunk.(messageId).

Definition isSameRelayTarget (left right : RelayTarget) : bool :=
  (left.(target_nodeId) =?= right.(target_nodeId))
  && (left.(target_sandboxInstanceId) =?= right.(target_sandboxInstanceId))
  && (left.(target_sessionId) =?= right.(target_sessionId))
  && (left.(target_side) =?= right.(target_side)).

Definition isCompatibleChunkState (state : ReassemblyState) (chunk : WireRelayFrameChunkEnvelope)
    : bool :=
  (state.(chunkCount) =? chunk.(chunk_chunkCount))
  && (state.(originalPayloadBytes) =? chunk.(chunk_originalPayloadBytes))
  && (state.(payloadKind) =?= chunk.(chunk_payloadKind))
  && isSameRelayTarget state.(reassembly_target) chunk.(chunk_target).

Definition describeRelayFramePayload (payload : RelayPayload) : list Z * WireRelayPayloadKind :=
  match payload with
  | TextPayload text => (TextEncoder_encode text, WireTextKind)
  | BinaryPayload data => (data, WireBinaryKind)
  end.

Definition relaySubject (prefix nodeId : string) : string := prefix +:+ ".relay." +:+ nodeId.

Definition nats_start : NatsM unit := λ t,
  if t.(nats_started) then
    (inl (PlainError "NATS relay transport adapter is already started."), t)
  else (inr tt, with_started true t).

Definition nats_stop (t : NatsTransport) : NatsTransport :=
  if negb t.(nats_started) then t
  else with_reassembly JsMap.empty (with_started false t).

Definition nats_registerLocalPeer (target : RelayTarget) (socket : nat) : NatsM unit := λ t,
  if negb (target.(target_nodeId) =?= t.(nats_nodeId)) then
    (inl (PlainError "Expected local peer registration to target current gateway node."), t)
  else
    (inr tt, with_sockets (JsMap.set t.(nats_socketsByPeerKey) (createPeerKey target) socket) t).

Definition deleteReassemblyStatesForTarget (target : RelayTarget) (t : NatsTransport)
    : NatsTransport :=
  with_reassembly
    (JsMap.delete_where (λ _ state, isSameRelayTarget state.(reassembly_target) target)
       t.(chunkReassemblyByKey)) t.

Definition nats_unregisterLocalPeer (target : RelayTarget) (t : NatsTransport) : NatsTransport :=
  if negb (target.(target_nodeId) =?= t.(nats_nodeId)) then t
  else deleteReassemblyStatesForTarget target
         (with_sockets (JsMap.delete t.(nats_socketsByPeerKey) (createPeerKey target)) t).

Definition deleteExpiredReassemblyStates (nowMs : Z) (t : NatsTransport) : NatsTransport :=
  let cutoffMs := nowMs - ReassemblyTimeoutMs in
  with_reassembly
    (JsMap.delete_where (λ _ state, state.(createdAtMs) <? cutoffMs) t.(chunkReassemblyByKey)) t.

(** One turn of the loop: [(payload, offset)]; [None] where a chunk is missing. *)
Definition reassemble_chunk (state : ReassemblyState) (acc : option (list Z * nat)) (index : nat)
    : option (list Z * nat) :=
  match acc, JsMap.get state.(chunks) (Z.of_nat index) with
  | Some (payload, offset), Some chunk =>
      Some (Uint8Array_set payload chunk offset, (offset + length chunk)%nat)
  | _, _ => None
  end.

Definition reassemblePayload (state : ReassemblyState) : JsError + RelayPayload :=
  let payload := replicate (Z.to_nat state.(originalPayloadBytes)) 0 in
  match foldl (reassemble_chunk state) (Some (payload, 0%nat))
          (seq 0 (Z.to_nat state.(chunkCount))) with
  | None => inl (PlainError "Cannot reassemble relay payload with a missing chunk.")
  | Some (payload, _) =>
      inr (match state.(payloadKind) with
           | WireTextKind => TextPayload (TextDecoder_decode payload)
           | WireBinaryKind => BinaryPayload payload
           end)
  end.

Section Adapter.
Context `{Base64} `{Zod}.
Context (is_open : nat → bool) (publish_error : nat → option JsError) (randomUUID : nat → string).

Definition toRelayPayload (payload : WirePayload) : RelayPayload :=
  match payload with
  | WireText value => TextPayload value
  | WireBase64 value => BinaryPayload (base64_decode value)
  end.

Definition toWireEnvelope (envelope : RelayEnvelope) : WireRelayEnvelope :=
  match envelope with
  | RelayCloseEnvelope target closeCode closeReason => WireClose target closeCode closeReason
  | RelayFrameEnvelope target payload =>
      WireFrame target
        (match payload with
         | TextPayload text => WireText text
         | BinaryPayload data => WireBase64 (base64_encode data)
         end)
  end.

Definition deliverLocalEnvelope (envelope : RelayEnvelope) : NatsM unit := λ t,
  if negb ((envelope_target envelope).(target_nodeId) =?= t.(nats_nodeId)) then
    (inl (PlainError "Expected local relay envelope to target current gateway node."), t)
  else
    match JsMap.get t.(nats_socketsByPeerKey) (createPeerKey (envelope_target envelope)) with
    | None => (inr tt, t)
    | Some socket =>
        if negb (is_open socket) then (inr tt, t)
        else
          let call := match envelope with
                      | RelayFrameEnvelope _ payload => SocketSend socket payload
                      | RelayCloseEnvelope _ code reason => SocketClose socket code reason
                      end in
          (inr tt, with_calls (t.(nats_socket_calls) ++ [call]) t)
    end.

(** ** Sending *)

Definition publishEncodedEnvelope (nodeId : string) (encodedEnvelope : list Z) : NatsM unit := λ t,
  match publish_error (length t.(published)) with
  | Some error => (inl error, t)
  | None =>
      (inr tt, with_published
         (t.(published) ++ [(relaySubject t.(subjectPrefix) nodeId, encodedEnvelope)]) t)
  end.

Definition wire_chunk (target : RelayTarget) (messageId : string) (payload : RelayPayload)
    (chunkCount : Z) (chunkIndex : nat) : WireRelayFrameChunkEnvelope :=
  let (bytes, kind) := describeRelayFramePayload payload in
  let byteLength := Z.of_nat (length bytes) in
  let start := Z.of_nat chunkIndex * MaxChunkPayloadBytes in
  let stop := Z.min (start + MaxChunkPayloadBytes) byteLength in
  mkChunk target messageId kind (Z.of_nat chunkIndex) chunkCount byteLength
    (base64_encode (subarray bytes (Z.to_nat start) (Z.to_nat stop))).

(** [Math.ceil(byteLength / MaxChunkPayloadBytes)] *)
Definition chunk_count (byteLength : Z) : Z :=
  (byteLength + MaxChunkPayloadBytes - 1) `div` MaxChunkPayloadBytes.

Definition publishChunkedFrameEnvelope (target : RelayTarget) (payload : RelayPayload)
    : NatsM unit := λ t,
  let id := randomUUID t.(uuids_drawn) in
  let t := with_uuids (S t.(uuids_drawn)) t in
  let byteLength := Z.of_nat (length (describeRelayFramePayload payload).1) in
  if MaxReassembledPayloadBytes <? byteLength then
    (inl (PlainError ("Relay frame payload is too large for NATS chunk reassembly: "
       +:+ String_of_number byteLength +:+ " bytes exceeds "
       +:+ String_of_number MaxReassembledPayloadBytes +:+ " bytes.")), t)
  else
    let chunkCount := chunk_count byteLength in
    for_each (seq 0 (Z.to_nat chunkCount)) (λ chunkIndex,
      publishEncodedEnvelope target.(target_nodeId)
        (encodeJson (WireFrameChunk (wire_chunk target id payload chunkCount chunkIndex)))) t.

Definition nats_deliverEnvelope (envelope : RelayEnvelope) : NatsM unit := λ t,
  if (envelope_target envelope).(target_nodeId) =?= t.(nats_nodeId) then
    deliverLocalEnvelope envelope t
  else if negb t.(nats_started) then
    (inl (PlainError "NATS relay transport adapter has not been started."), t)
  else
    let encodedEnvelope := encodeJson (toWireEnvelope envelope) in
    match envelope with
    | RelayFrameEnvelope target payload =>
        if MaxDirectNatsRelayEncodedBytes <? Z.of_nat (length encodedEnvelope)
        then publishChunkedFrameEnvelope target payload t
        else publishEncodedEnvelope target.(target_nodeId) encodedEnvelope t
    | RelayCloseEnvelope target _ _ =>
        publishEncodedEnvelope target.(target_nodeId) encodedEnvelope t
    end.

Definition nats_transport : RelayTransportAdapter nat NatsTransport := {|
  registerLocalPeer := nats_registerLocalPeer;
  unregisterLocalPeer := nats_unregisterLocalPeer;
  deliverEnvelope := nats_deliverEnvelope;
|}.

(** ** Receiving *)

(** The body of [receiveFrameChunk] after the old states are deleted. *)
Definition receive_chunk (nowMs : Z) (chunk : WireRelayFrameChunkEnvelope)
    : NatsM (option RelayEnvelope) := λ t,
  if chunk.(chunk_chunkCount) <=? chunk.(chunkIndex) then (inr None, t)
  else
    let key := createChunkReassemblyKey chunk in
    let state := default
      (mkReassembly chunk.(chunk_chunkCount) JsMap.empty nowMs chunk.(chunk_originalPayloadBytes)
         chunk.(chunk_payloadKind) 0 chunk.(chunk_target))
      (JsMap.get t.(chunkReassemblyByKey) key) in
    if negb (isCompatibleChunkState state chunk) then
      (inr None, with_reassembly (JsMap.delete t.(chunkReassemblyByKey) key) t)
    else if JsMap.has state.(chunks) chunk.(chunkIndex) then (inr None, t)
    else
      let chunkBytes := base64_decode chunk.(chunk_value) in
      let nextReceivedBytes := state.(receivedBytes) + Z.of_nat (length chunkBytes) in
      if state.(originalPayloadBytes) <? nextReceivedBytes then
        (inr None, with_reassembly (JsMap.delete t.(chunkReassemblyByKey) key) t)
      else
        let state := mkReassembly state.(chunkCount)
          (JsMap.set state.(chunks) chunk.(chunkIndex) chunkBytes) state.(createdAtMs)
          state.(originalPayloadBytes) state.(payloadKind) nextReceivedBytes
          state.(reassembly_target) in
        let t := with_reassembly (JsMap.set t.(chunkReassemblyByKey) key state) t in
        if negb (Z.of_nat (JsMap.size state.(chunks)) =? state.(chunkCount)) then (inr None, t)
        else
          let t := with_reassembly (JsMap.delete t.(chunkReassemblyByKey) key) t in
          match reassemblePayload state with
          | inl error => (inl error, t)
          | inr payload => (inr (Some (RelayFrameEnvelope state.(reassembly_target) payload)), t)
          end.

(** [expiryNowMs] is the clock when old states are deleted, [nowMs] when a new one
    is made. *)
Definition receiveFrameChunk (expiryNowMs nowMs : Z) (chunk : WireRelayFrameChunkEnvelope)
    : NatsM (option RelayEnvelope) := λ t,
  receive_chunk nowMs chunk (deleteExpiredReassemblyStates expiryNowMs t).

(** [WireRelayEnvelopeSchema.parse(decodeJson(data))]; [None] where it throws. *)
Definition parse_envelope (data : list Z) : option WireRelayEnvelope :=
  v ← decodeJson data; read_envelope <$> safeParse WireRelayEnvelopeSchema v.

(** The error of a message that does not parse is only recorded. *)
Definition decodeEnvelope (expiryNowMs nowMs : Z) (data : list Z) : NatsM (option RelayEnvelope) :=
  match parse_envelope data with
  | None => throw (PlainError "not a relay envelope")
  | Some (WireClose target closeCode closeReason) =>
      mret (Some (RelayCloseEnvelope target closeCode closeReason))
  | Some (WireFrameChunk chunk) => receiveFrameChunk expiryNowMs nowMs chunk
  | Some (WireFrame target payload) =>
      mret (Some (RelayFrameEnvelope target (toRelayPayload payload)))
  end.

(** One turn of the loop over the subscription. *)
Definition process_message (message : (Z * Z) * list Z) : NatsM unit :=
  envelope ← try_catch (decodeEnvelope message.1.1 message.1.2 message.2) (λ _, mret None);
  match envelope with
  | None => mret tt
  | Some envelope => deliverLocalEnvelope envelope
  end.

(** An error of the loop's body ends the loop. *)
Definition processSubscription (messages : list ((Z * Z) * list Z)) : NatsM unit :=
  for_each messages process_message.
End Adapter.
