(* ===== verification/NatsRelaySpec.v ===== *)
(** * Theorems about the NATS relay transport (NatsRelay.v)

    What is put on the wire is read back ([parse_encode]); a frame that needs
    chunks is delivered once, whatever order its chunks arrive in and whatever else
    arrives between them; messages are bounded; the receiving loop keeps its
    reassembly states well-formed. *)

From S2P Require Import Prelude JsMap Json DataFrame Text Zod TunnelTypes.
From S2P Require Import RelayCoordinator NatsRelay.
Local Open Scope Z_scope.

(** ** The wire format *)

Definition text_ok (s : string) : Prop := s ≠ "" ∧ well_formed s.

Definition target_ok (t : RelayTarget) : Prop :=
  text_ok t.(target_sandboxInstanceId) ∧ text_ok t.(target_nodeId) ∧ text_ok t.(target_sessionId).

Definition chunk_ok (c : WireRelayFrameChunkEnvelope) : Prop :=
  target_ok c.(chunk_target) ∧ text_ok c.(messageId) ∧ 0 <= c.(chunkIndex) <= MAX_SAFE_INTEGER
  ∧ 1 <= c.(chunk_chunkCount) <= MAX_SAFE_INTEGER
  ∧ 0 <= c.(chunk_originalPayloadBytes) <= MaxReassembledPayloadBytes
  ∧ well_formed c.(chunk_value).

Definition wire_ok (e : WireRelayEnvelope) : Prop :=
  match e with
  | WireFrame target (WireText value) | WireFrame target (WireBase64 value) =>
      target_ok target ∧ well_formed value
  | WireClose target closeCode closeReason =>
      target_ok target ∧ 1000 <= closeCode <= 4999 ∧ well_formed closeReason
  | WireFrameChunk chunk => chunk_ok chunk
  end.

Lemma read_target_json target : read_target (target_json target) = target.
Proof. by destruct target as [? [] ? ?]. Qed.

Lemma read_envelope_json e : read_envelope (envelope_json e) = e.
Proof.
  destruct e as [target [value|value]|target code reason|[target id [] index count size value]].
  - change (WireFrame (read_target (target_json target)) (WireText value) = WireFrame target (WireText value)).
    by rewrite read_target_json.
  - change (WireFrame (read_target (target_json target)) (WireBase64 value)
            = WireFrame target (WireBase64 value)). by rewrite read_target_json.
  - change (WireClose (read_target (target_json target)) code reason = WireClose target code reason).
    by rewrite read_target_json.
  - change (WireFrameChunk (mkChunk (read_target (target_json target)) id WireTextKind index count size value)
            = WireFrameChunk (mkChunk target id WireTextKind index count size value)).
    by rewrite read_target_json.
  - change (WireFrameChunk (mkChunk (read_target (target_json target)) id WireBinaryKind index count size value)
            = WireFrameChunk (mkChunk target id WireBinaryKind index count size value)).
    by rewrite read_target_json.
Qed.

Section Wire.
Context `{ZodLaws}.

Lemma parse_non_empty s : s ≠ "" → safeParse ZNonEmptyString (JString s) = Some (JString s).
Proof. intros. rewrite zod_non_empty. by rewrite bool_decide_false. Qed.

Ltac zod_field :=
  rewrite ?zod_string, ?zod_int, ?zod_literal, ?zod_enum; cbn [safeParse];
  try (by apply parse_non_empty); try done.

Lemma parse_target target :
  target_ok target → safeParse RelayTargetSchema (target_json target) = Some (target_json target).
Proof.
  intros ([? _] & [? _] & [? _]). apply parse_strict.
  - apply (bool_decide_unpack _). by vm_compute.
  - repeat constructor; cbn [fst snd]; zod_field. by destruct (target_side target).
Qed.

Lemma parse_int minimum maximum n :
  in_range minimum maximum n = true →
  safeParse (ZInt minimum maximum) (JNumber (Int n)) = Some (JNumber (Int n)).
Proof. intros Hn. by rewrite zod_int, Hn. Qed.

Lemma parse_literal value : safeParse (ZLiteral value) (JString value) = Some (JString value).
Proof. rewrite zod_literal. by rewrite bool_decide_true. Qed.

Lemma parse_wire_payload payload :
  safeParse (ZDiscriminatedUnion "kind"
    [ZStrictObject [("kind", ZLiteral "text"); ("value", ZString)];
     ZStrictObject [("kind", ZLiteral "base64"); ("value", ZString)]]) (wire_payload_json payload)
  = Some (wire_payload_json payload).
Proof.
  rewrite zod_discriminated_union. destruct payload as [value|value]; apply parse_strict;
    try (apply (bool_decide_unpack _); by vm_compute);
    repeat constructor; cbn [fst snd]; auto using parse_literal; by rewrite zod_string.
Qed.

Lemma in_range_intro minimum maximum n :
  - MAX_SAFE_INTEGER <= n <= MAX_SAFE_INTEGER →
  default True ((λ lo, lo <= n) <$> minimum) → default True ((λ hi, n <= hi) <$> maximum) →
  in_range minimum maximum n = true.
Proof.
  intros [Hlo Hhi] Hmin Hmax. unfold in_range.
  rewrite (proj2 (Z.leb_le _ _) Hlo), (proj2 (Z.leb_le _ _) Hhi). cbn.
  destruct minimum as [lo|], maximum as [hi|]; cbn in *;
    rewrite ?(proj2 (Z.leb_le _ _) Hmin), ?(proj2 (Z.leb_le _ _) Hmax); done.
Qed.

Lemma parse_wire e :
  wire_ok e → safeParse WireRelayEnvelopeSchema (envelope_json e) = Some (envelope_json e).
Proof.
  intros He. assert (67108864 <= MAX_SAFE_INTEGER) as Hmax by done.
  unfold WireRelayEnvelopeSchema. rewrite zod_discriminated_union.
  destruct e as [target payload|target code reason|chunk]; apply parse_strict;
    try (apply (bool_decide_unpack _); by vm_compute);
    repeat constructor; cbn [fst snd];
    auto using parse_literal, parse_wire_payload; try (by rewrite zod_string).
  - apply parse_target. by destruct payload, He.
  - by apply parse_target, He.
  - destruct He as (_ & ? & _). apply parse_int, in_range_intro; simpl; lia.
  - by apply parse_target, He.
  - by apply parse_non_empty, He.
  - rewrite zod_enum. by destruct (chunk_payloadKind chunk).
  - destruct He as (_ & _ & ? & _). apply parse_int, in_range_intro; simpl; lia.
  - destruct He as (_ & _ & _ & ? & _). apply parse_int, in_range_intro; simpl; lia.
  - destruct He as (_ & _ & _ & _ & ? & _). unfold MaxReassembledPayloadBytes in *.
    apply parse_int, in_range_intro; simpl; lia.
Qed.

Ltac well_formed_fields :=
  repeat match goal with
  | |- _ ∧ _ => split
  | |- True => done
  | Hs : text_ok ?s |- well_formed ?s => apply Hs
  | Hs : well_formed ?s |- well_formed ?s => exact Hs
  | |- well_formed (side_value ?side) => by destruct side; apply well_formed_ascii
  | |- well_formed (payload_kind_value ?kind) => by destruct kind; apply well_formed_ascii
  | |- well_formed _ => by apply well_formed_ascii
  end.

Lemma target_well_formed target : target_ok target → json_well_formed (target_json target).
Proof.
  destruct target as [id side node session]. intros ([_ ?] & [_ ?] & [_ ?]). cbn in *.
  well_formed_fields.
Qed.

Lemma wire_well_formed e : wire_ok e → json_well_formed (envelope_json e).
Proof.
  destruct e as [target [value|value]|target code reason|[target id kind index count size value]];
    cbn [wire_ok]; unfold chunk_ok; intros; cbn -[target_json] in *; destruct_and!;
    well_formed_fields; by apply target_well_formed.
Qed.

Lemma encode_wire e : wire_ok e → encodeJson e = bytes_of (JSON_stringify (envelope_json e)).
Proof. intros He. by apply TextEncoder_well_formed, well_formed_JSON, wire_well_formed. Qed.

(** What a node puts on the wire another node reads. *)
Lemma parse_encode e : wire_ok e → parse_envelope (encodeJson e) = Some e.
Proof.
  intros He. unfold parse_envelope, decodeJson. rewrite encode_wire by done.
  rewrite decode_well_formed; cycle 1.
  - by apply well_formed_JSON, wire_well_formed.
  - apply bool_decide_eq_false. by destruct e as [|?|].
  - rewrite JSON_roundtrip; cycle 1.
    { apply (parse_json_ok WireRelayEnvelopeSchema (envelope_json e)); [done|by vm_compute|by apply parse_wire]. }
    cbn [mbind option_bind]. rewrite parse_wire by done. cbn. by rewrite read_envelope_json.
Qed.
End Wire.

(** ** What is sent *)

(** The bytes of one chunk. *)
Definition ChunkSize : nat := Z.to_nat MaxChunkPayloadBytes.
Lemma chunk_size_eq : Z.of_nat ChunkSize = MaxChunkPayloadBytes.
Proof. unfold ChunkSize. by rewrite Z2Nat.id. Qed.

#[local] Opaque ChunkSize.
Definition chunk_bytes (l : list Z) (i : nat) : list Z := take ChunkSize (drop (i * ChunkSize) l).

Lemma chunk_subarray l i :
  subarray l (Z.to_nat (Z.of_nat i * MaxChunkPayloadBytes))
    (Z.to_nat (Z.min (Z.of_nat i * MaxChunkPayloadBytes + MaxChunkPayloadBytes) (Z.of_nat (length l))))
  = chunk_bytes l i.
Proof.
  unfold subarray, chunk_bytes. rewrite <- chunk_size_eq. generalize ChunkSize as k. intros k.
  replace (Z.to_nat (Z.of_nat i * Z.of_nat k)) with (i * k)%nat by lia.
  replace (Z.to_nat _) with (Nat.min (i * k + k) (length l)) by lia.
  rewrite <- take_take, (take_ge l) by done. by rewrite take_drop_commute.
Qed.

Lemma chunk_bytes_length l i :
  length (chunk_bytes l i) = Nat.min ChunkSize (length l - i * ChunkSize).
Proof. unfold chunk_bytes. by rewrite length_take, length_drop. Qed.

(** The number of chunks is the least that holds the payload. *)
Lemma chunk_count_spec (l : list Z) :
  let n := Z.to_nat (chunk_count (Z.of_nat (length l))) in
  chunk_count (Z.of_nat (length l)) = Z.of_nat n ∧ (length l <= n * ChunkSize)%nat
  ∧ (n * ChunkSize < length l + ChunkSize)%nat.
Proof.
  cbv zeta. unfold chunk_count. pose proof chunk_size_eq as Hsize. rewrite <- Hsize.
  assert (0 < ChunkSize)%nat as Hpos by (unfold MaxChunkPayloadBytes in Hsize; lia).
  clear Hsize. revert Hpos. generalize ChunkSize as k. intros k Hpos.
  pose proof (Z.div_mod (Z.of_nat (length l) + Z.of_nat k - 1) (Z.of_nat k) ltac:(lia)).
  pose proof (Z.mod_pos_bound (Z.of_nat (length l) + Z.of_nat k - 1) (Z.of_nat k) ltac:(lia)).
  assert (0 <= (Z.of_nat (length l) + Z.of_nat k - 1) `div` Z.of_nat k) by (apply Z.div_pos; lia).
  rewrite Z2Nat.id by done. split; [done|]. nia.
Qed.

Lemma take_chunk (l : list Z) i :
  take (i * ChunkSize) l ++ chunk_bytes l i = take (S i * ChunkSize) l.
Proof.
  unfold chunk_bytes. rewrite take_drop_commute.
  replace (S i * ChunkSize)%nat with (i * ChunkSize + ChunkSize)%nat by lia.
  rewrite <- (take_drop (i * ChunkSize) (take (i * ChunkSize + ChunkSize) l)) at 2.
  by rewrite take_take, Nat.min_l by lia.
Qed.

Section Sending.
Context `{Base64Laws} `{ZodLaws}.
Context (publish_error : nat → option JsError) (randomUUID : nat → string).

Lemma publish_all (target : RelayTarget) (f : nat → list Z) l t :
  (∀ n, publish_error n = None) →
  for_each l (λ i, publishEncodedEnvelope publish_error target.(target_nodeId) (f i)) t
  = (inr tt, with_published (t.(published)
       ++ List.map (λ i, (relaySubject t.(subjectPrefix) target.(target_nodeId), f i)) l) t).
Proof.
  intros Hok. revert t. induction l as [|i l IH]; intros t.
  - cbn. rewrite app_nil_r. by destruct t.
  - cbn [for_each]. unfold mbind at 1, M_bind at 1. unfold publishEncodedEnvelope at 1.
    rewrite Hok, IH. cbn. by rewrite <- app_assoc.
Qed.

(** The messages a frame is published as. *)
Definition frame_chunks (target : RelayTarget) (id : string) (payload : RelayPayload)
    : list WireRelayFrameChunkEnvelope :=
  let n := chunk_count (Z.of_nat (length (describeRelayFramePayload payload).1)) in
  List.map (wire_chunk target id payload n) (seq 0 (Z.to_nat n)).

Definition frame_messages (target : RelayTarget) (id : string) (payload : RelayPayload)
    : list (list Z) :=
  let encoded := encodeJson (toWireEnvelope (RelayFrameEnvelope target payload)) in
  if MaxDirectNatsRelayEncodedBytes <? Z.of_nat (length encoded)
  then List.map (λ chunk, encodeJson (WireFrameChunk chunk)) (frame_chunks target id payload)
  else [encoded].

Definition payload_fits (payload : RelayPayload) : Prop :=
  Z.of_nat (length (describeRelayFramePayload payload).1) <= MaxReassembledPayloadBytes.

Lemma deliver_published is_open target payload t :
  (∀ n, publish_error n = None) → t.(nats_started) = true →
  target.(target_nodeId) ≠ t.(nats_nodeId) → payload_fits payload →
  let '(result, t') := nats_deliverEnvelope is_open publish_error randomUUID
                         (RelayFrameEnvelope target payload) t in
  result = inr tt ∧
  t'.(published) = t.(published)
    ++ List.map (pair (relaySubject t.(subjectPrefix) target.(target_nodeId)))
         (frame_messages target (randomUUID t.(uuids_drawn)) payload).
Proof.
  intros Hok Hstarted Hnode Hfits. unfold nats_deliverEnvelope, frame_messages. cbn [envelope_target].
  rewrite bool_decide_false, Hstarted by done. cbn [negb].
  destruct (MaxDirectNatsRelayEncodedBytes <? _).
  - unfold publishChunkedFrameEnvelope. unfold payload_fits in Hfits.
    replace (MaxReassembledPayloadBytes <? _) with false by (symmetry; apply Z.ltb_ge; lia).
    rewrite (publish_all target (λ i, encodeJson (WireFrameChunk
      (wire_chunk target (randomUUID t.(uuids_drawn)) payload _ i)))) by done.
    split; [done|]. cbn. unfold frame_chunks. by rewrite !List.map_map.
  - unfold publishEncodedEnvelope. by rewrite Hok.
Qed.
End Sending.

(** ** The size of a message *)

Lemma pretty_N_go_length k x s :
  (x < 10 ^ N.of_nat k)%N → (String.length (pretty_N_go x s) <= k + String.length s)%nat.
Proof.
  revert x s. induction k as [|k IH]; intros x s Hx.
  - assert (x = 0%N) as -> by (cbn in Hx; lia). rewrite pretty_N_go_0. lia.
  - assert (x = 0 ∨ 0 < x)%N as [->|Hpos] by lia; [rewrite pretty_N_go_0; lia|].
    rewrite pretty_N_go_step by done.
    etransitivity; [apply IH|cbn [String.length]; lia].
    apply N.Div0.div_lt_upper_bound. rewrite <- N.pow_succ_r' by lia.
    by replace (N.succ (N.of_nat k)) with (N.of_nat (S k)) by lia.
Qed.

Lemma number_length k bound n :
  (0 < k)%nat → bound = 10 ^ Z.of_nat k → 0 <= n < bound →
  (String.length (String_of_number n) <= k)%nat.
Proof.
  intros Hk -> Hn. destruct n as [|p|p]; [cbn; lia| |lia]. rewrite String_of_number_pos.
  etransitivity; [apply (pretty_N_go_length k)|cbn; lia].
  apply N2Z.inj_lt. rewrite N2Z.inj_pow, nat_N_Z. exact (proj2 Hn).
Qed.

(** No character of base64 text is escaped. *)
Lemma base64_text_length s : base64_text s = true → String.length (string_text s) = (String.length s + 2)%nat.
Proof.
  intros Hs. unfold string_text. cbn [String.length]. rewrite Nat.add_succ_r. f_equal.
  induction s as [|c s IH]; [done|]. cbn [base64_text] in Hs. apply andb_true_iff in Hs as [Hc Hs].
  specialize (IH Hs). assert (∀ n, n ≠ 34 → n ≠ 92 → 32 <= n → code c = n →
    chars_text (String c s) = String c (chars_text s)) as Hplain.
  { intros n H1 H2 H3 Hn. cbn [chars_text]. rewrite Hn. cbv zeta.
    repeat (rewrite (proj2 (Z.eqb_neq _ _)) by lia). by rewrite (proj2 (Z.ltb_ge n 32)) by lia. }
  rewrite (Hplain (code c)); [cbn [String.length]; lia|..|done]; unfold base64_char in Hc;
    intros; destruct (is_digit c) eqn:Hd; unfold is_digit in Hd; clear -Hc Hd; lia.
Qed.

Section Size.
Context `{Base64Laws} `{ZodLaws}.

Definition payload_ok (payload : RelayPayload) : Prop :=
  match payload with TextPayload text => well_formed text | BinaryPayload data => bytes data end.

Lemma describe_bytes payload : payload_ok payload → bytes (describeRelayFramePayload payload).1.
Proof.
  destruct payload as [text|data]; [|done]. intros Htext. cbn.
  rewrite TextEncoder_well_formed by done. apply bytes_of_ok.
Qed.

Lemma chunk_bytes_ok l i : bytes l → bytes (chunk_bytes l i).
Proof. intros. by apply Forall_take, Forall_drop. Qed.

Lemma wire_chunk_value target id payload n i :
  (wire_chunk target id payload n i).(chunk_value)
  = base64_encode (chunk_bytes (describeRelayFramePayload payload).1 i).
Proof.
  unfold wire_chunk. destruct (describeRelayFramePayload payload) as [l kind]. cbn.
  by rewrite chunk_subarray.
Qed.

Lemma well_formed_base64 l : bytes l → well_formed (base64_encode l).
Proof.
  intros Hl. apply well_formed_ascii. pose proof (base64_alphabet l Hl) as Ha. revert Ha.
  induction (base64_encode l) as [|c s IH]; [done|]. cbn. intros [Hc Hs]%andb_true_iff.
  rewrite IH, andb_true_r by done. apply Z.leb_le. unfold base64_char, is_digit in Hc. lia.
Qed.

(** The chunks of a frame are valid messages. *)
Lemma wire_chunk_ok target id payload i :
  target_ok target → text_ok id → payload_ok payload → payload_fits payload →
  let n := chunk_count (Z.of_nat (length (describeRelayFramePayload payload).1)) in
  (i < Z.to_nat n)%nat → chunk_ok (wire_chunk target id payload n i) ∧ n <= 128.
Proof.
  cbv zeta. intros Ht Hid Hp Hfits Hi. pose proof (describe_bytes payload Hp) as Hbytes.
  destruct (chunk_count_spec (describeRelayFramePayload payload).1) as (Hn & Hlo & Hhi).
  pose proof chunk_size_eq as Hsize.
  unfold payload_fits, MaxReassembledPayloadBytes, MaxChunkPayloadBytes in *.
  assert (chunk_count (Z.of_nat (length (describeRelayFramePayload payload).1)) <= 128) by nia.
  split; [|done].
  assert (128 <= MAX_SAFE_INTEGER) by done.
  pose proof (wire_chunk_value target id payload
    (chunk_count (Z.of_nat (length (describeRelayFramePayload payload).1))) i) as Hvalue.
  unfold chunk_ok. rewrite Hvalue. clear Hvalue.
  unfold wire_chunk. destruct (describeRelayFramePayload payload) as [l kind]. cbn in *.
  unfold MaxReassembledPayloadBytes.
  refine (conj Ht (conj Hid (conj _ (conj _ (conj _ _))))); [lia..|].
  by apply well_formed_base64, chunk_bytes_ok.
Qed.

Lemma chunk_value_length (l : list Z) :
  bytes l → (length l <= ChunkSize)%nat → Z.of_nat (String.length (base64_encode l)) <= 699052.
Proof.
  intros Hl Hlen. rewrite base64_length by done. pose proof chunk_size_eq as Hsize.
  unfold MaxChunkPayloadBytes in Hsize.
  rewrite Nat2Z.inj_mul, Nat2Z.inj_div, Nat2Z.inj_add.
  assert ((Z.of_nat (length l) + Z.of_nat 2) `div` Z.of_nat 3 < 174764); [|lia].
  apply Z.div_lt_upper_bound; lia.
Qed.
(** The JSON of a chunk, without its target, identifier and value. *)
Lemma chunk_json_length (c : WireRelayFrameChunkEnvelope) :
  0 <= c.(chunkIndex) < 1000 → 0 <= c.(chunk_chunkCount) < 1000 →
  0 <= c.(chunk_originalPayloadBytes) < 100000000 → base64_text c.(chunk_value) = true →
  (String.length (JSON_stringify (envelope_json (WireFrameChunk c)))
   <= 150 + String.length (JSON_stringify (target_json c.(chunk_target)))
      + String.length (string_text c.(messageId)) + String.length c.(chunk_value))%nat.
Proof.
  intros Hi Hn Hb Hv. destruct c as [target id kind index count size value]. cbn in Hi, Hn, Hb, Hv.
  pose proof (number_length 3 1000 index ltac:(lia) eq_refl Hi).
  pose proof (number_length 3 1000 count ltac:(lia) eq_refl Hn).
  pose proof (number_length 8 100000000 size ltac:(lia) eq_refl Hb). pose proof (base64_text_length value Hv).
  assert (String.length (string_text (payload_kind_value kind)) <= 8)%nat
    by (apply Nat.leb_le; by destruct kind; vm_compute).
  cbn [envelope_json chunk_target messageId chunk_payloadKind chunkIndex chunk_chunkCount
       chunk_originalPayloadBytes chunk_value JSON_stringify List.map comma_separated fst snd number_text].
  rewrite !string_length_app.
  repeat match goal with
  | |- context [String.length (string_text ?s)] =>
      lazymatch s with
      | String _ _ => let n := eval vm_compute in (String.length (string_text s)) in
                      change (String.length (string_text s)) with n
      end
  end.
  change (String.length "{") with 1%nat. change (String.length "}") with 1%nat.
  change (String.length ",") with 1%nat. change (String.length ":") with 1%nat. lia.
Qed.

(** The length of a message is bounded by its target, whatever the payload. *)
Lemma frame_message_length target id payload d :
  target_ok target → text_ok id → payload_ok payload → payload_fits payload →
  Z.of_nat (String.length (JSON_stringify (target_json target)) + String.length (string_text id))
    <= 200000 →
  d ∈ frame_messages target id payload → Z.of_nat (length d) <= MaxDirectNatsRelayEncodedBytes.
Proof.
  intros Ht Hid Hp Hfits Hlen. unfold frame_messages.
  destruct (MaxDirectNatsRelayEncodedBytes <? _) eqn:Hdirect; [clear Hdirect|].
  2:{ intros ->%list_elem_of_singleton. bools. done. }
  unfold frame_chunks. intros (chunk & -> & Hchunk)%list_elem_of_fmap.
  apply list_elem_of_fmap in Hchunk as (i & -> & Hi%elem_of_seq).
  destruct (wire_chunk_ok target id payload i Ht Hid Hp Hfits ltac:(lia)) as [Hok Hcount].
  rewrite encode_wire, bytes_of_length by done.
  pose proof (wire_chunk_value target id payload
    (chunk_count (Z.of_nat (length (describeRelayFramePayload payload).1))) i) as Hvalue.
  pose proof (describe_bytes payload Hp) as Hbytes.
  assert (bytes (chunk_bytes (describeRelayFramePayload payload).1 i)) as Hcb by by apply chunk_bytes_ok.
  pose proof (chunk_json_length (wire_chunk target id payload
    (chunk_count (Z.of_nat (length (describeRelayFramePayload payload).1))) i)) as Hjson.
  rewrite Hvalue in Hjson. pose proof (chunk_value_length _ Hcb) as Hvl.
  rewrite chunk_bytes_length in Hvl. specialize (Hvl ltac:(lia)).
  destruct Hok as (_ & _ & Hindex & Hn & Ho & _).
  unfold wire_chunk in *. destruct (describeRelayFramePayload payload) as [l kind]. cbn in *.
  unfold MaxDirectNatsRelayEncodedBytes, MaxReassembledPayloadBytes in *.
  specialize (Hjson ltac:(lia) ltac:(lia) ltac:(lia) (base64_alphabet _ Hcb)). lia.
Qed.
End Size.

(** ** Putting a frame together again *)

(** The payload the receiver puts together: the decoder drops a byte order mark. *)
Definition relayed_payload (payload : RelayPayload) : RelayPayload :=
  match payload with
  | TextPayload text =>
      TextPayload (if starts_with_byte_order_mark text
                   then string_of_bytes (drop 3 (bytes_of text)) else text)
  | BinaryPayload data => BinaryPayload data
  end.

Lemma complete_after_byte_order_mark l :
  complete Utf8Ready (ByteOrderMark ++ l) → complete Utf8Ready l.
Proof. unfold ByteOrderMark. cbn [app]. rewrite !complete_cons. cbn. tauto. Qed.

Lemma decode_text text :
  well_formed text →
  TextPayload (TextDecoder_decode (TextEncoder_encode text)) = relayed_payload (TextPayload text).
Proof.
  intros Hw. cbn. destruct (starts_with_byte_order_mark text) eqn:Hbom.
  - rewrite TextEncoder_well_formed by done. unfold TextDecoder_decode, skip_byte_order_mark.
    unfold starts_with_byte_order_mark in Hbom. rewrite Hbom.
    assert (complete Utf8Ready (drop 3 (bytes_of text))) as Hrest.
    { apply bool_decide_eq_true in Hbom. apply complete_after_byte_order_mark.
      rewrite <- Hbom. rewrite take_drop. exact Hw. }
    destruct (utf8_tokens_complete _ Hrest) as [Hclean Hbytes].
    by rewrite (map_default_clean _ [] _ Hclean), Hbytes.
  - by rewrite decode_encode_text.
Qed.

Lemma concat_chunks l m :
  List.concat (List.map (chunk_bytes l) (seq 0 m)) = take (m * ChunkSize) l.
Proof.
  induction m as [|m IH]; [done|].
  rewrite seq_S, List.map_app, List.concat_app, IH. cbn [List.map List.concat Nat.add].
  by rewrite app_nil_r, take_chunk.
Qed.

Definition chunk_lengths (l : list Z) (seen : list nat) : nat :=
  sum_list_with (λ j, length (chunk_bytes l j)) seen.

Lemma chunk_lengths_seq l m : chunk_lengths l (seq 0 m) = length (take (m * ChunkSize) l).
Proof.
  rewrite <- concat_chunks. unfold chunk_lengths. induction (seq 0 m) as [|j js IH]; [done|].
  cbn. by rewrite length_app, IH.
Qed.

(** Different chunks never hold more than the payload. *)
Lemma chunk_lengths_le l m seen :
  NoDup seen → (∀ j, j ∈ seen → (j < m)%nat) → (chunk_lengths l seen <= length l)%nat.
Proof.
  intros Hnd Hlt. assert (seen ⊆+ seq 0 m) as Hsub.
  { apply NoDup_submseteq; [done|]. intros j Hj. apply elem_of_seq. specialize (Hlt j Hj). lia. }
  apply submseteq_Permutation in Hsub as [rest Hperm].
  assert (chunk_lengths l (seq 0 m) = chunk_lengths l seen + chunk_lengths l rest)%nat as Hsum.
  { unfold chunk_lengths. rewrite Hperm. apply sum_list_with_app. }
  rewrite chunk_lengths_seq, length_take in Hsum. lia.
Qed.

Section Reassembly.
Context (l : list Z).

Lemma reassemble_foldl (state : ReassemblyState) m :
  (∀ j, (j < m)%nat → JsMap.get state.(chunks) (Z.of_nat j) = Some (chunk_bytes l j)) →
  foldl (reassemble_chunk state) (Some (replicate (length l) 0, 0%nat)) (seq 0 m)
  = Some (take (m * ChunkSize) l ++ replicate (length l - m * ChunkSize) 0,
          length (take (m * ChunkSize) l)).
Proof.
  intros Hget. induction m as [|m IH].
  - cbn. by rewrite Nat.sub_0_r.
  - rewrite seq_S, foldl_app, IH by auto with lia. cbn [foldl Nat.add]. unfold reassemble_chunk.
    rewrite Hget by lia. unfold Uint8Array_set. rewrite <- take_chunk, take_app_length.
    rewrite drop_app_add, drop_replicate, chunk_bytes_length, length_app, <- app_assoc.
    replace (length l - m * ChunkSize - _)%nat with (length l - S m * ChunkSize)%nat by lia.
    by rewrite chunk_bytes_length.
Qed.
(** The state that has received the chunks [seen], in this order. *)
Definition partial (target : RelayTarget) (kind : WireRelayPayloadKind) (n : nat) (t0 : Z)
    (seen : list nat) : ReassemblyState :=
  mkReassembly (Z.of_nat n) (List.map (λ j, (Z.of_nat j, chunk_bytes l j)) seen) t0
    (Z.of_nat (length l)) kind (Z.of_nat (chunk_lengths l seen)) target.

Lemma partial_get target kind n t0 seen j :
  JsMap.get (partial target kind n t0 seen).(chunks) (Z.of_nat j)
  = if decide (j ∈ seen) then Some (chunk_bytes l j) else None.
Proof.
  cbn. induction seen as [|j' seen IH]; [done|]. cbn. rewrite IH.
  destruct (decide (Z.of_nat j' = Z.of_nat j)) as [Heq|Hne].
  - assert (j' = j) as -> by lia. by rewrite decide_True by left.
  - assert (j' ≠ j) by lia. destruct (decide (j ∈ seen)).
    + by rewrite decide_True by (by right).
    + rewrite decide_False; [done|]. rewrite elem_of_cons. naive_solver.
Qed.

Lemma partial_set target kind n t0 seen j :
  j ∉ seen →
  JsMap.set (partial target kind n t0 seen).(chunks) (Z.of_nat j) (chunk_bytes l j)
  = (partial target kind n t0 (seen ++ [j])).(chunks).
Proof.
  cbn. intros Hj. induction seen as [|j' seen IH]; [done|].
  apply not_elem_of_cons in Hj as [Hne Hj]. cbn. rewrite decide_False by lia. by rewrite IH.
Qed.

Lemma chunk_lengths_snoc seen j :
  chunk_lengths l (seen ++ [j]) = (chunk_lengths l seen + length (chunk_bytes l j))%nat.
Proof. unfold chunk_lengths. rewrite sum_list_with_app. cbn. lia. Qed.

Lemma reassemble_partial target kind n t0 seen :
  (∀ j, (j < n)%nat → j ∈ seen) → (length l <= n * ChunkSize)%nat →
  reassemblePayload (partial target kind n t0 seen)
  = inr (match kind with
         | WireTextKind => TextPayload (TextDecoder_decode l)
         | WireBinaryKind => BinaryPayload l
         end).
Proof.
  intros Hall Hlen. unfold reassemblePayload.
  change (chunkCount (partial target kind n t0 seen)) with (Z.of_nat n).
  change (originalPayloadBytes (partial target kind n t0 seen)) with (Z.of_nat (length l)).
  rewrite !Nat2Z.id, reassemble_foldl; cycle 1.
  { intros j Hj. by rewrite partial_get, decide_True by auto. }
  rewrite take_ge by done. replace (length l - n * ChunkSize)%nat with 0%nat by lia.
  by rewrite app_nil_r.
Qed.
End Reassembly.

(** ** States that differ in one reassembly *)

Lemma get_live (T : Z) (m : JsMap.t string ReassemblyState) k :
  JsMap.wf m →
  JsMap.get (JsMap.delete_where (λ _ state, state.(createdAtMs) <? T - ReassemblyTimeoutMs) m) k
  = (st ← JsMap.get m k; if st.(createdAtMs) <? T - ReassemblyTimeoutMs then None else Some st).
Proof. intros. by rewrite JsMap.get_delete_where by done. Qed.

Section Agreement.
Context `{Base64Laws} `{ZodLaws}.
Context (is_open : nat → bool) (key : string).

(** [t] is [u] but for its state under [key], which is [own]. *)
Record same (own : option ReassemblyState) (t u : NatsTransport) : Prop := mkSame {
  same_state : t = with_reassembly t.(chunkReassemblyByKey) u;
  same_wf_t : JsMap.wf t.(chunkReassemblyByKey);
  same_wf_u : JsMap.wf u.(chunkReassemblyByKey);
  same_other k : k ≠ key → JsMap.get t.(chunkReassemblyByKey) k = JsMap.get u.(chunkReassemblyByKey) k;
  same_own : JsMap.get t.(chunkReassemblyByKey) key = own;
}.

Lemma same_map own t u (f : JsMap.t string ReassemblyState → JsMap.t string ReassemblyState) :
  (∀ m, JsMap.wf m → JsMap.wf (f m)) →
  (∀ m, JsMap.wf m → JsMap.get (f m) key = JsMap.get m key) →
  (∀ m m' k, JsMap.wf m → JsMap.wf m' → k ≠ key →
     (∀ k', k' ≠ key → JsMap.get m k' = JsMap.get m' k') → JsMap.get (f m) k = JsMap.get (f m') k) →
  same own t u →
  same own (with_reassembly (f t.(chunkReassemblyByKey)) t)
    (with_reassembly (f u.(chunkReassemblyByKey)) u).
Proof.
  intros Hwf Hkey Hother [Hstate Hwt Hwu Hsame Hown].
  split; cbn; [by rewrite Hstate|by apply Hwf|by apply Hwf| |by rewrite Hkey].
  intros k Hk. by apply Hother.
Qed.

Lemma same_set own t u k st :
  k ≠ key → same own t u →
  same own (with_reassembly (JsMap.set t.(chunkReassemblyByKey) k st) t)
    (with_reassembly (JsMap.set u.(chunkReassemblyByKey) k st) u).
Proof.
  intros Hk. apply (same_map own t u (λ m, JsMap.set m k st)).
  - intros. by apply JsMap.wf_set.
  - intros. by rewrite JsMap.get_set_ne.
  - intros m m' k' _ _ Hk' Heq. rewrite !JsMap.get_set. by rewrite Heq.
Qed.

Lemma same_delete own t u k :
  k ≠ key → same own t u →
  same own (with_reassembly (JsMap.delete t.(chunkReassemblyByKey) k) t)
    (with_reassembly (JsMap.delete u.(chunkReassemblyByKey) k) u).
Proof.
  intros Hk. apply (same_map own t u (λ m, JsMap.delete m k)).
  - intros. rewrite JsMap.delete_as_delete_where. by apply JsMap.wf_delete_where.
  - intros. by rewrite JsMap.get_delete_ne.
  - intros m m' k' _ _ Hk' Heq. rewrite !JsMap.get_delete. by rewrite Heq.
Qed.

(** [own] is not expired at [e]. *)
Definition survives (e : Z) (own : option ReassemblyState) : Prop :=
  match own with Some st => e - ReassemblyTimeoutMs <= st.(createdAtMs) | None => True end.

Lemma same_expire own t u e :
  survives e own → same own t u →
  same own (deleteExpiredReassemblyStates e t) (deleteExpiredReassemblyStates e u).
Proof.
  intros Hsurvives [Hstate Hwt Hwu Hsame Hown]. split; cbn [chunkReassemblyByKey with_reassembly
    deleteExpiredReassemblyStates]; [by rewrite Hstate|by apply JsMap.wf_delete_where..| |].
  - intros k Hk. by rewrite !get_live, Hsame by done.
  - rewrite get_live, Hown by done. destruct own as [st|]; [|done]. cbn in *.
    replace (createdAtMs st <? _) with false; [done|]. symmetry. apply Z.ltb_ge. lia.
Qed.

Lemma expire_twice T e t :
  T <= e →
  deleteExpiredReassemblyStates e (deleteExpiredReassemblyStates T t)
  = deleteExpiredReassemblyStates e t.
Proof.
  intros HT. unfold deleteExpiredReassemblyStates. cbn [chunkReassemblyByKey with_reassembly].
  unfold with_reassembly. cbn. f_equal. unfold JsMap.delete_where.
  induction (chunkReassemblyByKey t) as [|[k st] m IH]; [done|]. cbn.
  destruct (createdAtMs st <? T - ReassemblyTimeoutMs) eqn:Hexp; cbn.
  - bools. replace (createdAtMs st <? e - ReassemblyTimeoutMs) with true; [done|].
    symmetry. apply Z.ltb_lt. lia.
  - by rewrite IH.
Qed.

(** The states agree once what is expired at [T] is left out. *)
Definition agrees (T : Z) (own : option ReassemblyState) (t u : NatsTransport) : Prop :=
  same own (deleteExpiredReassemblyStates T t) (deleteExpiredReassemblyStates T u).

Lemma agrees_later T e own t u :
  T <= e → survives e own → agrees T own t u → agrees e own t u.
Proof.
  intros HT Hs Hag. unfold agrees. rewrite <- (expire_twice T e t), <- (expire_twice T e u) by done.
  by apply same_expire.
Qed.

Lemma same_agrees T own t u : survives T own → same own t u → agrees T own t u.
Proof. apply same_expire. Qed.

(** *** Delivery to a socket *)

Definition local_result (envelope : RelayEnvelope) (t : NatsTransport) : JsError + unit :=
  if (envelope_target envelope).(target_nodeId) =?= t.(nats_nodeId) then inr tt
  else inl (PlainError "Expected local relay envelope to target current gateway node.").

Definition local_calls (envelope : RelayEnvelope) (t : NatsTransport) : list SocketCall :=
  if negb ((envelope_target envelope).(target_nodeId) =?= t.(nats_nodeId)) then []
  else match JsMap.get t.(nats_socketsByPeerKey) (createPeerKey (envelope_target envelope)) with
       | None => []
       | Some socket =>
           if negb (is_open socket) then []
           else [match envelope with
                 | RelayFrameEnvelope _ payload => SocketSend socket payload
                 | RelayCloseEnvelope _ code reason => SocketClose socket code reason
                 end]
       end.

Lemma deliverLocalEnvelope_eq envelope t :
  deliverLocalEnvelope is_open envelope t
  = (local_result envelope t, with_calls (t.(nats_socket_calls) ++ local_calls envelope t) t).
Proof.
  unfold deliverLocalEnvelope, local_result, local_calls.
  destruct (_ =?= _); cbn [negb]; [|by rewrite app_nil_r; destruct t].
  destruct (JsMap.get _ _) as [socket|]; [|by rewrite app_nil_r; destruct t].
  destruct (is_open socket); cbn [negb]; [done|]. by rewrite app_nil_r; destruct t.
Qed.

(** [t] and [u] are one state but for their reassemblies. *)
Definition reassembly_apart (t u : NatsTransport) : Prop :=
  t = with_reassembly t.(chunkReassemblyByKey) u.

Lemma agrees_apart T own t u : agrees T own t u → reassembly_apart t u.
Proof.
  intros [Hstate _ _ _ _]. destruct t, u. unfold reassembly_apart, deleteExpiredReassemblyStates, with_reassembly in *.
  cbn in *. congruence.
Qed.

Lemma apart_local t u envelope :
  reassembly_apart t u →
  local_result envelope t = local_result envelope u ∧
  local_calls envelope t = local_calls envelope u ∧ t.(nats_socket_calls) = u.(nats_socket_calls).
Proof. intros Hap. rewrite Hap. done. Qed.

Lemma agrees_deliver T own t u envelope :
  agrees T own t u →
  local_result envelope t = local_result envelope u ∧
  local_calls envelope t = local_calls envelope u ∧
  agrees T own (deliverLocalEnvelope is_open envelope t).2 (deliverLocalEnvelope is_open envelope u).2.
Proof.
  intros Hag. pose proof (agrees_apart T own t u Hag) as Hap. rewrite !deliverLocalEnvelope_eq.
  destruct (apart_local t u envelope Hap) as (Hr & Hc & Hcalls). split; [done|]. split; [done|].
  cbn [snd]. rewrite Hc, Hcalls. destruct Hag as [Hstate ? ? ? ?]. split; try done.
  rewrite Hap. done.
Qed.

(** *** Messages of other frames *)

Lemma same_receive own t u nowMs chunk :
  same own t u → createChunkReassemblyKey chunk ≠ key →
  (receive_chunk nowMs chunk t).1 = (receive_chunk nowMs chunk u).1 ∧
  same own (receive_chunk nowMs chunk t).2 (receive_chunk nowMs chunk u).2.
Proof.
  intros Hs Hk. unfold receive_chunk. rewrite (same_other _ _ _ Hs _ Hk).
  destruct (chunk_chunkCount chunk <=? chunkIndex chunk); [done|].
  generalize (default (mkReassembly (chunk_chunkCount chunk) JsMap.empty nowMs
    (chunk_originalPayloadBytes chunk) (chunk_payloadKind chunk) 0 (chunk_target chunk))
    (JsMap.get u.(chunkReassemblyByKey) (createChunkReassemblyKey chunk))) as st. intros st.
  destruct (isCompatibleChunkState st chunk); cbn [negb]; [|split; [done|by apply same_delete]].
  destruct (JsMap.has _ _); [done|].
  destruct (originalPayloadBytes st <? _); [split; [done|by apply same_delete]|].
  destruct (negb _); [split; [done|by apply same_set]|].
  destruct (reassemblePayload _); (split; [done|]); by apply same_delete, same_set.
Qed.

(** The message is not a chunk of the frame under [key]. *)
Definition foreign (data : list Z) : Prop :=
  match parse_envelope data with
  | Some (WireFrameChunk chunk) => createChunkReassemblyKey chunk ≠ key
  | _ => True
  end.

Lemma process_foreign T own t u e nowMs data u' :
  agrees T own t u → T <= e → survives e own → foreign data →
  process_message is_open ((e, nowMs), data) u = (inr tt, u') →
  ∃ t', process_message is_open ((e, nowMs), data) t = (inr tt, t') ∧ agrees e own t' u'.
Proof.
  intros Hag HT Hsurvives Hforeign. pose proof (agrees_later _ _ _ _ _ HT Hsurvives Hag) as Hage.
  assert (∀ envelope a b, agrees e own a b → deliverLocalEnvelope is_open envelope b = (inr tt, u') →
    ∃ t', deliverLocalEnvelope is_open envelope a = (inr tt, t') ∧ agrees e own t' u') as Hdeliver.
  { intros envelope a b Hab Hb. destruct (agrees_deliver _ _ _ _ envelope Hab) as (Hr & _ & Hab').
    rewrite Hb in Hab'. rewrite deliverLocalEnvelope_eq in Hb. injection Hb as Hres _.
    exists (deliverLocalEnvelope is_open envelope a).2. split; [|done].
    rewrite deliverLocalEnvelope_eq. cbn [snd]. by rewrite Hr, Hres. }
  unfold process_message, decodeEnvelope, foreign, mbind, M_bind, try_catch in *. cbn [fst snd] in *.
  destruct (parse_envelope data) as [[target payload|target code reason|chunk]|].
  - by apply Hdeliver.
  - by apply Hdeliver.
  - unfold receiveFrameChunk. destruct (same_receive own _ _ nowMs chunk Hage Hforeign) as [Hr Hs].
    apply (same_agrees e) in Hs; [|done].
    destruct (receive_chunk nowMs chunk (deleteExpiredReassemblyStates e t)) as [r1 t1].
    destruct (receive_chunk nowMs chunk (deleteExpiredReassemblyStates e u)) as [r2 u1].
    cbn [fst snd] in *. subst r2. destruct r1 as [error|[envelope|]].
    + intros [= <-]. by exists t1.
    + by apply Hdeliver.
    + intros [= <-]. by exists t1.
  - intros [= <-]. by exists t.
Qed.
End Agreement.

(** ** A frame in chunks *)

Section Frame.
Context `{Base64Laws} `{ZodLaws}.
Context (is_open : nat → bool) (target : RelayTarget) (id : string) (payload : RelayPayload).
Context (Htarget : target_ok target) (Hid : text_ok id).
Context (Hpayload : payload_ok payload) (Hfits : payload_fits payload).

Definition frame_bytes_of : list Z := (describeRelayFramePayload payload).1.
Definition frame_kind : WireRelayPayloadKind := (describeRelayFramePayload payload).2.
Definition frame_count : nat := Z.to_nat (chunk_count (Z.of_nat (length frame_bytes_of))).
Definition frame_key : string := createPeerKey target +:+ ":" +:+ id.
Definition frame_chunk (i : nat) : WireRelayFrameChunkEnvelope :=
  wire_chunk target id payload (Z.of_nat frame_count) i.

Definition own_state (t0 : Z) (seen : list nat) : option ReassemblyState :=
  match seen with
  | [] => None
  | _ => Some (partial frame_bytes_of target frame_kind frame_count t0 seen)
  end.

Lemma frame_count_eq :
  chunk_count (Z.of_nat (length frame_bytes_of)) = Z.of_nat frame_count
  ∧ (length frame_bytes_of <= frame_count * ChunkSize)%nat.
Proof. by destruct (chunk_count_spec frame_bytes_of) as (? & ? & _). Qed.

Lemma frame_chunk_eq i :
  frame_chunk i = mkChunk target id frame_kind (Z.of_nat i) (Z.of_nat frame_count)
    (Z.of_nat (length frame_bytes_of)) (base64_encode (chunk_bytes frame_bytes_of i)).
Proof.
  unfold frame_chunk, frame_kind, frame_bytes_of, wire_chunk.
  destruct (describeRelayFramePayload payload) as [l kind] eqn:Hd. cbn [fst snd].
  by rewrite chunk_subarray.
Qed.

Lemma frame_chunk_key i : createChunkReassemblyKey (frame_chunk i) = frame_key.
Proof. by rewrite frame_chunk_eq. Qed.

Lemma frame_chunk_parse i :
  (i < frame_count)%nat →
  parse_envelope (encodeJson (WireFrameChunk (frame_chunk i))) = Some (WireFrameChunk (frame_chunk i)).
Proof.
  intros Hi. apply parse_encode. unfold frame_chunk. destruct frame_count_eq as [<- _].
  by apply wire_chunk_ok.
Qed.

Lemma frame_payload :
  match frame_kind with
  | WireTextKind => TextPayload (TextDecoder_decode frame_bytes_of)
  | WireBinaryKind => BinaryPayload frame_bytes_of
  end = relayed_payload payload.
Proof. unfold frame_kind, frame_bytes_of. destruct payload as [text|data]; [by apply decode_text|done]. Qed.

(** When the state of the frame was made, once it is. *)
Definition created (t0 nowMs : Z) (seen : list nat) : Z :=
  match seen with [] => nowMs | _ => t0 end.

Lemma receive_own t t0 nowMs seen i :
  NoDup seen → (∀ j, j ∈ seen → (j < frame_count)%nat) → (i < frame_count)%nat →
  JsMap.get t.(chunkReassemblyByKey) frame_key = own_state t0 seen →
  receive_chunk nowMs (frame_chunk i) t =
    if decide (i ∈ seen) then (inr None, t)
    else
      let state := partial frame_bytes_of target frame_kind frame_count
                     (created t0 nowMs seen) (seen ++ [i]) in
      if decide (S (length seen) = frame_count) then
        (inr (Some (RelayFrameEnvelope target (relayed_payload payload))),
         with_reassembly (JsMap.delete (JsMap.set t.(chunkReassemblyByKey) frame_key state) frame_key) t)
      else (inr None, with_reassembly (JsMap.set t.(chunkReassemblyByKey) frame_key state) t).
Proof.
  intros Hnd Hseen Hi Hget. unfold receive_chunk. rewrite frame_chunk_key, Hget.
  assert (default (mkReassembly (frame_chunk i).(chunk_chunkCount) JsMap.empty nowMs
    (frame_chunk i).(chunk_originalPayloadBytes) (frame_chunk i).(chunk_payloadKind) 0
    (frame_chunk i).(chunk_target)) (own_state t0 seen)
    = partial frame_bytes_of target frame_kind frame_count (created t0 nowMs seen) seen) as ->.
  { rewrite frame_chunk_eq. by destruct seen. }
  set (st := partial _ _ _ _ _ seen). rewrite frame_chunk_eq.
  cbn [chunk_chunkCount chunkIndex chunk_value].
  replace (Z.of_nat frame_count <=? Z.of_nat i) with false by (symmetry; apply Z.leb_gt; lia).
  assert (isCompatibleChunkState st (mkChunk target id frame_kind (Z.of_nat i) (Z.of_nat frame_count)
    (Z.of_nat (length frame_bytes_of)) (base64_encode (chunk_bytes frame_bytes_of i))) = true) as ->.
  { unfold isCompatibleChunkState, isSameRelayTarget. cbn. rewrite !Z.eqb_refl.
    by rewrite !bool_decide_true. }
  cbn [negb]. unfold JsMap.has, st. rewrite partial_get. destruct (decide (i ∈ seen)) as [|Hnew]; [done|].
  rewrite bool_decide_false by (by intros []).
  rewrite base64_roundtrip by (apply chunk_bytes_ok; by apply describe_bytes).
  rewrite partial_set by done. cbn [receivedBytes originalPayloadBytes partial].
  rewrite <- Nat2Z.inj_add, <- chunk_lengths_snoc.
  assert (NoDup (seen ++ [i])) as Hnd'.
  { apply NoDup_app. split_and!; [done|set_solver|apply NoDup_singleton]. }
  assert (∀ j, j ∈ seen ++ [i] → (j < frame_count)%nat) as Hseen' by set_solver.
  pose proof (chunk_lengths_le frame_bytes_of frame_count (seen ++ [i]) Hnd' Hseen') as Hle.
  replace (Z.of_nat (length frame_bytes_of) <? _) with false by (symmetry; apply Z.ltb_ge; lia).
  unfold JsMap.size. cbn [chunks partial chunkCount]. rewrite List.length_map, length_app.
  cbn [length]. rewrite Nat.add_1_r.
  destruct (decide (S (length seen) = frame_count)) as [Hlast|Hmore].
  - rewrite Hlast, Z.eqb_refl. cbn [negb].
    change (mkReassembly _ _ _ _ _ _ _) with (partial frame_bytes_of target frame_kind frame_count
      (created t0 nowMs seen) (seen ++ [i])).
    rewrite reassemble_partial; [|intros j Hj|apply frame_count_eq].
    + by rewrite frame_payload.
    + assert (seq 0 frame_count ≡ₚ seen ++ [i]) as <-; [|apply elem_of_seq; lia].
      symmetry. apply submseteq_length_Permutation.
      * apply NoDup_submseteq; [done|]. intros k Hk. apply elem_of_seq. specialize (Hseen' k Hk). lia.
      * rewrite length_seq, length_app. cbn. lia.
  - rewrite (proj2 (Z.eqb_neq _ _)) by lia. done.
Qed.
(** *** Chunks arriving among other messages *)

Inductive arrival : Type :=
| ArriveChunk (i : nat)
| ArriveOther (data : list Z).

Definition arrival_data (a : arrival) : list Z :=
  match a with
  | ArriveChunk i => encodeJson (WireFrameChunk (frame_chunk i))
  | ArriveOther data => data
  end.

Definition arrival_ok (a : arrival) : Prop :=
  match a with
  | ArriveChunk i => (i < frame_count)%nat
  | ArriveOther data => foreign frame_key data
  end.

Definition messages (trace : list ((Z * Z) * arrival)) : list ((Z * Z) * list Z) :=
  List.map (λ m, (m.1, arrival_data m.2)) trace.
Definition other_messages (trace : list ((Z * Z) * arrival)) : list ((Z * Z) * list Z) :=
  omap (λ m, match m.2 with ArriveOther data => Some (m.1, data) | _ => None end) trace.
Definition chunk_arrivals (trace : list ((Z * Z) * arrival)) : list nat :=
  omap (λ m, match m.2 with ArriveChunk i => Some i | _ => None end) trace.

(** The clock of the messages runs from [start] to [stop]. *)
Fixpoint timed {A} (start stop : Z) (trace : list ((Z * Z) * A)) : Prop :=
  match trace with
  | [] => True
  | ((e, nowMs), _) :: trace => start <= e <= nowMs ∧ nowMs <= stop ∧ timed nowMs stop trace
  end.

Lemma process_keeps m t :
  ∃ m' calls, (process_message is_open m t).2 = with_calls calls (with_reassembly m' t).
Proof.
  unfold process_message, decodeEnvelope, mbind, M_bind, try_catch.
  assert (∀ m' calls envelope, ∃ m'' calls',
    (deliverLocalEnvelope is_open envelope (with_calls calls (with_reassembly m' t))).2
    = with_calls calls' (with_reassembly m'' t)) as Hlocal.
  { intros m' calls envelope. rewrite deliverLocalEnvelope_eq. by eexists _, _. }
  assert (t = with_calls t.(nats_socket_calls) (with_reassembly t.(chunkReassemblyByKey) t)) as Ht
    by by destruct t.
  pose proof (Hlocal t.(chunkReassemblyByKey) t.(nats_socket_calls)) as Hplain.
  rewrite <- Ht in Hplain.
  destruct (parse_envelope m.2) as [[tg p|tg code reason|chunk]|]; cbn [throw mret M_ret].
  - apply Hplain.
  - apply Hplain.
  - assert (∃ m' calls, (receiveFrameChunk m.1.1 m.1.2 chunk t).2
      = with_calls calls (with_reassembly m' t)) as (m1 & calls1 & Hr).
    { exists (receiveFrameChunk m.1.1 m.1.2 chunk t).2.(chunkReassemblyByKey), t.(nats_socket_calls).
      unfold receiveFrameChunk, receive_chunk. by repeat case_match. }
    destruct (receiveFrameChunk _ _ _ t) as [[error|[envelope|]] t1]; cbn [snd] in *; subst t1;
      try (by eexists _, _). apply Hlocal.
  - by exists t.(chunkReassemblyByKey), t.(nats_socket_calls).
Qed.

Lemma processSubscription_keeps ms t :
  (processSubscription is_open ms t).2.(nats_nodeId) = t.(nats_nodeId)
  ∧ (processSubscription is_open ms t).2.(nats_socketsByPeerKey) = t.(nats_socketsByPeerKey).
Proof.
  revert t. unfold processSubscription. induction ms as [|m ms IH]; intros t; [done|].
  cbn [for_each]. unfold mbind at 1 2, M_bind at 1 2.
  destruct (process_keeps m t) as (m' & calls & Hm).
  destruct (process_message is_open m t) as [[error|[]] t1]; cbn [snd] in *; subst t1; [done|].
  by destruct (IH (with_calls calls (with_reassembly m' t))) as [-> ->].
Qed.

Lemma same_own_set own t u st :
  same frame_key own t u →
  same frame_key (Some st)
    (with_reassembly (JsMap.set t.(chunkReassemblyByKey) frame_key st) t) u.
Proof.
  intros [Hstate Hwt Hwu Hsame Hown]. split; cbn; [by rewrite Hstate|by apply JsMap.wf_set|done| |].
  - intros k Hk. rewrite JsMap.get_set_ne by done. by apply Hsame.
  - apply JsMap.get_set_eq.
Qed.

Lemma same_own_delete own t u :
  same frame_key own t u →
  same frame_key None (with_reassembly (JsMap.delete t.(chunkReassemblyByKey) frame_key) t) u.
Proof.
  intros [Hstate Hwt Hwu Hsame Hown].
  split; cbn; [by rewrite Hstate|by apply JsMap.wf_delete|done| |].
  - intros k Hk. rewrite JsMap.get_delete_ne by done. by apply Hsame.
  - apply JsMap.get_delete_eq.
Qed.

Lemma agrees_of_same e own t u :
  survives e own → same frame_key own t (deleteExpiredReassemblyStates e u) →
  agrees frame_key e own t u.
Proof.
  intros Hs Hsame. unfold agrees. rewrite <- (expire_twice e e u) by lia. by apply same_expire.
Qed.

Definition seen_ok (seen : list nat) : Prop :=
  NoDup seen ∧ ∀ j, j ∈ seen → (j < frame_count)%nat.

(** One more chunk, not the last. *)
Lemma process_own T t0 seen t u e nowMs i :
  agrees frame_key T (own_state t0 seen) t u → seen_ok seen → (i < frame_count)%nat →
  T <= e <= nowMs → (seen ≠ [] → e - ReassemblyTimeoutMs <= t0) →
  (i ∈ seen ∨ S (length seen) ≠ frame_count) →
  ∃ t', process_message is_open ((e, nowMs), arrival_data (ArriveChunk i)) t = (inr tt, t') ∧
    (if decide (i ∈ seen) then agrees frame_key e (own_state t0 seen) t' u
     else agrees frame_key e (own_state (created t0 nowMs seen) (seen ++ [i])) t' u).
Proof.
  intros Hag [Hnd Hseen] Hi HT Ht0 Hmore.
  assert (survives e (own_state t0 seen)) as Hs by (destruct seen; [done|]; by apply Ht0).
  pose proof (agrees_later _ _ _ _ _ _ (proj1 HT) Hs Hag) as Hage.
  assert (process_message is_open ((e, nowMs), arrival_data (ArriveChunk i)) t
    = (envelope ← try_catch (receive_chunk nowMs (frame_chunk i)) (λ _, mret None);
       match envelope with
       | None => mret tt
       | Some envelope => deliverLocalEnvelope is_open envelope
       end) (deleteExpiredReassemblyStates e t)) as ->.
  { unfold process_message, decodeEnvelope, arrival_data. cbn [fst snd].
    by rewrite (frame_chunk_parse i Hi). }
  unfold mbind at 1, M_bind at 1, try_catch.
  rewrite (receive_own _ t0 nowMs seen i) by (done || apply Hage).
  destruct (decide (i ∈ seen)) as [Hin|Hnew]; [|rewrite decide_False by (by destruct Hmore)].
  - eexists. split; [done|]. apply agrees_of_same; [done|]. exact Hage.
  - eexists. split; [done|]. cbv zeta.
    replace (own_state (created t0 nowMs seen) (seen ++ [i])) with (Some (partial frame_bytes_of target
      frame_kind frame_count (created t0 nowMs seen) (seen ++ [i]))) by (by destruct seen).
    apply agrees_of_same; [|by eapply same_own_set].
    cbn. destruct seen; [unfold ReassemblyTimeoutMs; cbn; lia|]. by apply Ht0.
Qed.

(** The last chunk. *)
Lemma process_last T t0 seen t u e nowMs i :
  agrees frame_key T (own_state t0 seen) t u → seen_ok seen → (i < frame_count)%nat →
  T <= e → (seen ≠ [] → e - ReassemblyTimeoutMs <= t0) →
  i ∉ seen → S (length seen) = frame_count →
  ∃ t1, process_message is_open ((e, nowMs), arrival_data (ArriveChunk i)) t
        = deliverLocalEnvelope is_open (RelayFrameEnvelope target (relayed_payload payload)) t1
        ∧ agrees frame_key e None t1 u ∧ t1.(nats_nodeId) = t.(nats_nodeId)
        ∧ t1.(nats_socketsByPeerKey) = t.(nats_socketsByPeerKey)
        ∧ JsMap.get t1.(chunkReassemblyByKey) frame_key = None.
Proof.
  intros Hag [Hnd Hseen] Hi HT Ht0 Hnew Hlast.
  assert (survives e (own_state t0 seen)) as Hs by (destruct seen; [done|]; by apply Ht0).
  pose proof (agrees_later _ _ _ _ _ _ HT Hs Hag) as Hage.
  unfold process_message, decodeEnvelope, arrival_data. cbn [fst snd].
  rewrite (frame_chunk_parse i Hi). unfold mbind at 1, M_bind at 1, try_catch, receiveFrameChunk.
  rewrite (receive_own _ t0 nowMs seen i) by (done || apply Hage).
  rewrite decide_False, decide_True by done. cbv zeta.
  eexists. split; [done|]. split_and!; [|done|done|apply JsMap.get_delete_eq].
  apply agrees_of_same; [done|]. set (st := partial _ _ _ _ _ _).
  exact (same_own_delete _ _ _ (same_own_set _ _ _ st Hage)).
Qed.
(** The chunks received after the arrivals of a trace. *)
Definition received (seen arrivals : list nat) : list nat :=
  foldl (λ seen i, if decide (i ∈ seen) then seen else seen ++ [i]) seen arrivals.

Lemma elem_of_received seen arrivals j : j ∈ received seen arrivals ↔ j ∈ seen ∨ j ∈ arrivals.
Proof.
  unfold received. revert seen. induction arrivals as [|i arrivals IH]; intros seen; cbn.
  - set_solver.
  - rewrite IH. case_decide; set_solver.
Qed.

Lemma received_ok seen arrivals :
  seen_ok seen → (∀ j, j ∈ arrivals → (j < frame_count)%nat) → seen_ok (received seen arrivals).
Proof.
  unfold received. revert seen. induction arrivals as [|i arrivals IH]; intros seen Hseen Hi; [done|].
  cbn. apply IH; [|set_solver]. case_decide; [done|]. destruct Hseen as [Hnd Hlt]. split; [|set_solver].
  apply NoDup_app. split_and!; [done|set_solver|apply NoDup_singleton].
Qed.

(** A chunk is missing while one of its number has not been received. *)
Lemma seen_incomplete seen i :
  seen_ok seen → (i < frame_count)%nat → i ∉ seen → (S (length seen) <= frame_count)%nat
  ∧ ((∃ j, (j < frame_count)%nat ∧ j ≠ i ∧ j ∉ seen) → S (length seen) ≠ frame_count).
Proof.
  intros [Hnd Hlt] Hi Hnew.
  assert (∀ l, NoDup l → (∀ j, j ∈ l → (j < frame_count)%nat) → (length l <= frame_count)%nat) as Hlen.
  { intros l Hl Hin. rewrite <- (length_seq frame_count 0). apply submseteq_length, NoDup_submseteq;
      [done|]. intros j Hj. apply elem_of_seq. specialize (Hin j Hj). lia. }
  split.
  - apply (Hlen (i :: seen)); [by constructor|set_solver].
  - intros (j & Hj & Hne & Hns) Heq.
    enough (length (j :: i :: seen) <= frame_count)%nat by (cbn in *; lia).
    apply Hlen; [constructor; [set_solver|by constructor]|set_solver].
Qed.

(** [seen] was begun at [t0], not before [start]. *)
Definition begun (start t0 : Z) (seen : list nat) : Prop := seen ≠ [] → start <= t0.

Lemma begun_survives start t0 seen e :
  begun start t0 seen → e <= start + ReassemblyTimeoutMs → survives e (own_state t0 seen).
Proof. destruct seen as [|i seen]; [done|]. intros Hb He. specialize (Hb ltac:(done)). cbn. lia. Qed.

(** Before the last chunk nothing of the frame is delivered. *)
Lemma trace_partial start tail trace :
  ∀ T t0 seen t u u' i,
  agrees frame_key T (own_state t0 seen) t u → seen_ok seen → begun start t0 seen → start <= T →
  timed T (start + ReassemblyTimeoutMs) (trace ++ tail) →
  Forall (λ m, arrival_ok m.2) trace →
  processSubscription is_open (other_messages trace) u = (inr tt, u') →
  (i < frame_count)%nat → i ∉ received seen (chunk_arrivals trace) →
  ∃ T' t1 t', processSubscription is_open (messages trace) t = (inr tt, t')
    ∧ agrees frame_key T' (own_state t1 (received seen (chunk_arrivals trace))) t' u'
    ∧ begun start t1 (received seen (chunk_arrivals trace))
    ∧ timed T' (start + ReassemblyTimeoutMs) tail ∧ start <= T'.
Proof.
  induction trace as [|[[e nowMs] a] trace IH]; intros T t0 seen t u u' i Hag Hseen Hbegun HT
    Htimed Hok Hu Hi Hmissing.
  - injection Hu as <-. by exists T, t0, t.
  - cbn [app timed] in Htimed. destruct Htimed as ((HTe & Hnow) & Hstop & Htimed).
    apply Forall_cons in Hok as [Ha Hok].
    pose proof (begun_survives start t0 seen e Hbegun ltac:(lia)) as Hse.
    pose proof (begun_survives start t0 seen nowMs Hbegun ltac:(lia)) as Hsn.
    destruct a as [i'|data]; cbn [arrival_ok snd] in Ha.
    + change (received seen (chunk_arrivals _)) with
        (received (if decide (i' ∈ seen) then seen else seen ++ [i']) (chunk_arrivals trace)) in *.
      change (other_messages _) with (other_messages trace) in Hu.
      assert (i' ∈ seen ∨ S (length seen) ≠ frame_count) as Hmore.
      { destruct (decide (i' ∈ seen)) as [|Hnew]; [by left|]. right.
        apply (seen_incomplete seen i' Hseen Ha Hnew). exists i.
        rewrite elem_of_received in Hmissing. set_solver. }
      destruct (process_own T t0 seen t u e nowMs i' Hag Hseen Ha) as (t1 & Hstep & Hag1); [lia| |done|].
      { intros Hne. specialize (Hbegun Hne). lia. }
      cbn [messages List.map processSubscription for_each fst snd]. unfold processSubscription.
      cbn [for_each]. setoid_rewrite M_bind_inr.
      destruct (decide (i' ∈ seen)) as [Hin|Hnew].
      * apply agrees_later with (e := nowMs) in Hag1; [|done..].
        destruct (IH nowMs t0 seen t1 u u' i) as (T' & t2 & t' & Hrun & Hrest); try done; [lia|].
        exists T', t2, t'. split; [by exists tt, t1|done].
      * assert (begun start (created t0 nowMs seen) (seen ++ [i'])) as Hbegun'.
        { intros _. destruct seen; cbn; [lia|by apply Hbegun]. }
        apply agrees_later with (e := nowMs) in Hag1; [|done|by apply (begun_survives start); [|lia]].
        assert (seen_ok (seen ++ [i'])) as Hseen'.
        { pose proof (received_ok seen [i'] Hseen) as Hr. cbn in Hr.
          rewrite decide_False in Hr by done. apply Hr. by intros j ->%list_elem_of_singleton. }
        destruct (IH nowMs (created t0 nowMs seen) (seen ++ [i']) t1 u u' i)
          as (T' & t2 & t' & Hrun & Hrest); try done; [lia|].
        exists T', t2, t'. split; [by exists tt, t1|done].
    + change (chunk_arrivals _) with (chunk_arrivals trace) in *.
      change (other_messages _) with (((e, nowMs), data) :: other_messages trace) in Hu.
      unfold processSubscription in Hu. cbn [for_each] in Hu.
      apply M_bind_inr in Hu as ([] & u1 & Hu1 & Hu).
      destruct (process_foreign _ _ _ _ _ _ _ _ _ _ Hag HTe Hse Ha Hu1) as (t1 & Hstep & Hag1).
      apply agrees_later with (e := nowMs) in Hag1; [|done..].
      destruct (IH nowMs t0 seen t1 u1 u' i) as (T' & t2 & t' & Hrun & Hrest); try done; [lia|].
      exists T', t2, t'. split; [|done]. unfold processSubscription. cbn [messages List.map for_each].
      apply M_bind_inr. by exists tt, t1.
Qed.
Lemma frame_messages_chunks :
  MaxDirectNatsRelayEncodedBytes
    < Z.of_nat (length (encodeJson (toWireEnvelope (RelayFrameEnvelope target payload)))) →
  frame_messages target id payload
  = List.map (λ i, arrival_data (ArriveChunk i)) (seq 0 frame_count).
Proof.
  intros Hlarge. unfold frame_messages. rewrite (proj2 (Z.ltb_lt _ _)) by done.
  unfold frame_chunks. rewrite List.map_map. unfold arrival_data, frame_chunk.
  by destruct frame_count_eq as [<- _].
Qed.

(** C8: a frame too large for one message is published as its chunks, and the other
    node delivers it to its socket exactly once: whatever order the chunks arrive
    in, whatever copies and other messages (of any content, which do not end the
    loop) arrive between them within the timeout, nothing of the frame is delivered
    before the last missing chunk and the whole payload with it; the state of the
    frame is then gone.  A text loses a byte order mark at its start. *)
Theorem chunked_frame_relayed (trace : list ((Z * Z) * arrival)) (t u : NatsTransport)
    (socket : nat) (start e nowMs : Z) (i : nat) :
  JsMap.wf t.(chunkReassemblyByKey) → JsMap.get t.(chunkReassemblyByKey) frame_key = None →
  target.(target_nodeId) = t.(nats_nodeId) →
  JsMap.get t.(nats_socketsByPeerKey) (createPeerKey target) = Some socket → is_open socket = true →
  timed start (start + ReassemblyTimeoutMs) (trace ++ [((e, nowMs), ArriveChunk i)]) →
  Forall (λ m, arrival_ok m.2) trace →
  processSubscription is_open (other_messages trace) t = (inr tt, u) →
  (i < frame_count)%nat → i ∉ chunk_arrivals trace →
  (∀ j, (j < frame_count)%nat → j = i ∨ j ∈ chunk_arrivals trace) →
  (MaxDirectNatsRelayEncodedBytes
     < Z.of_nat (length (encodeJson (toWireEnvelope (RelayFrameEnvelope target payload)))) →
   frame_messages target id payload
   = List.map (λ i, arrival_data (ArriveChunk i)) (seq 0 frame_count)) ∧
  ∃ t1 t2,
    processSubscription is_open (messages trace) t = (inr tt, t1) ∧
    t1.(nats_socket_calls) = u.(nats_socket_calls) ∧
    process_message is_open ((e, nowMs), arrival_data (ArriveChunk i)) t1 = (inr tt, t2) ∧
    t2.(nats_socket_calls) = u.(nats_socket_calls) ++ [SocketSend socket (relayed_payload payload)] ∧
    JsMap.get t2.(chunkReassemblyByKey) frame_key = None.
Proof.
  intros Hwf Hfree Hnode Hsocket Hopen Htimed Hok Hu Hi Hlast Hall. split; [apply frame_messages_chunks|].
  assert (seen_ok []) as Hnil by (split; [constructor|set_solver]).
  assert (i ∉ received [] (chunk_arrivals trace)) as Hnew by (rewrite elem_of_received; set_solver).
  assert (agrees frame_key start (own_state start []) t t) as Hag.
  { apply same_agrees; [done|]. split; try done. by destruct t. }
  destruct (trace_partial start [((e, nowMs), ArriveChunk i)] trace start start [] t t u i
    Hag Hnil ltac:(by intros []) (Z.le_refl _) Htimed Hok Hu Hi Hnew)
    as (T' & t0 & t1 & Hrun & Hag1 & Hbegun & Htail & HT).
  assert (seen_ok (received [] (chunk_arrivals trace))) as Hseen.
  { apply received_ok; [done|]. intros j Hj. clear -Hj Hok. unfold chunk_arrivals in Hj.
    apply list_elem_of_omap in Hj as ([[e nowMs] [j'|]] & Hin & [= <-]).
    rewrite Forall_forall in Hok. exact (Hok _ Hin). }
  assert (S (length (received [] (chunk_arrivals trace))) = frame_count) as Hcount.
  { destruct (seen_incomplete _ i Hseen Hi Hnew) as [Hle _].
    enough (length (seq 0 frame_count) <= length (i :: received [] (chunk_arrivals trace)))%nat
      by (rewrite length_seq in *; cbn in *; lia).
    apply submseteq_length, NoDup_submseteq; [apply NoDup_seq|]. intros j Hj%elem_of_seq.
    apply elem_of_cons. rewrite elem_of_received. destruct (Hall j ltac:(lia)); auto. }
  cbn [timed] in Htail. destruct Htail as ((HTe & Hnow) & Hstop & _).
  destruct (process_last _ t0 _ t1 u e nowMs i Hag1 Hseen Hi HTe) as
    (t2 & Hstep & Hag2 & Hnode2 & Hsockets2 & Hkey2); [|done..|].
  { intros Hne. specialize (Hbegun Hne). lia. }
  destruct (processSubscription_keeps (messages trace) t) as [Hnode1 Hsockets1].
  rewrite Hrun in Hnode1, Hsockets1. cbn [snd] in *.
  exists t1. eexists. rewrite Hstep, deliverLocalEnvelope_eq. unfold local_result, local_calls.
  cbn [envelope_target]. rewrite Hnode2, Hsockets2, Hnode1, Hsockets1, bool_decide_true by done.
  cbn [negb]. rewrite Hsocket, Hopen. cbn [negb].
  destruct (apart_local is_open t1 u (RelayFrameEnvelope target payload) (agrees_apart _ _ _ _ _ Hag1))
    as (_ & _ & Hc1).
  destruct (apart_local is_open t2 u (RelayFrameEnvelope target payload) (agrees_apart _ _ _ _ _ Hag2))
    as (_ & _ & Hc2).
  split_and!; try done. cbn. by rewrite Hc2.
Qed.
End Frame.

(** A frame for another node is published on the subject of that node, as one
    message or as chunks; no message is longer than the limit, as long as the target
    takes no more than 200000 bytes, and one message delivers its payload unchanged. *)
Theorem frames_published `{Base64Laws} `{ZodLaws} is_open publish_error randomUUID target payload t :
  (∀ n, publish_error n = None) → t.(nats_started) = true →
  target.(target_nodeId) ≠ t.(nats_nodeId) →
  target_ok target → payload_ok payload → payload_fits payload →
  text_ok (randomUUID t.(uuids_drawn)) →
  Z.of_nat (String.length (JSON_stringify (target_json target))
            + String.length (string_text (randomUUID t.(uuids_drawn)))) <= 200000 →
  ∃ t' sent,
    nats_deliverEnvelope is_open publish_error randomUUID (RelayFrameEnvelope target payload) t
      = (inr tt, t') ∧
    t'.(published) = t.(published)
      ++ List.map (pair (relaySubject t.(subjectPrefix) target.(target_nodeId))) sent ∧
    Forall (λ data, Z.of_nat (length data) <= MaxDirectNatsRelayEncodedBytes) sent ∧
    (Z.of_nat (length (encodeJson (toWireEnvelope (RelayFrameEnvelope target payload))))
       <= MaxDirectNatsRelayEncodedBytes →
     ∃ data, sent = [data] ∧ ∀ times receiver,
       process_message is_open (times, data) receiver
       = deliverLocalEnvelope is_open (RelayFrameEnvelope target payload) receiver).
Proof.
  intros Hok Hstarted Hnode Htarget Hpayload Hfits Hid Hlen.
  pose proof (deliver_published publish_error randomUUID is_open target payload t
    Hok Hstarted Hnode Hfits) as Hpublished.
  destruct (nats_deliverEnvelope _ _ _ _ t) as [result t']. destruct Hpublished as [-> Hpublished].
  exists t', (frame_messages target (randomUUID t.(uuids_drawn)) payload).
  split_and!; [done|done| |].
  - apply Forall_forall. intros data. by apply frame_message_length.
  - intros Hdirect. unfold frame_messages. rewrite (proj2 (Z.ltb_ge _ _)) by done.
    eexists. split; [done|]. intros times receiver. unfold process_message, decodeEnvelope.
    cbn [fst snd]. rewrite parse_encode; cycle 1.
    { destruct payload as [text|data]; cbn; (split; [done|]); [done|by apply well_formed_base64]. }
    destruct payload as [text|data]; cbn; [done|].
    unfold mbind, M_bind, try_catch, mret, M_ret. by rewrite base64_roundtrip.
Qed.

(** An envelope for another node on this node's subject makes [deliverLocalEnvelope]
    throw outside the loop's [try]: the messages after it are not processed. *)
Lemma misaddressed_envelope_ends_loop `{Base64} `{ZodLaws} is_open target text times ms t :
  target_ok target → well_formed text → target.(target_nodeId) ≠ t.(nats_nodeId) →
  processSubscription is_open ((times, encodeJson (WireFrame target (WireText text))) :: ms) t
  = (inl (PlainError "Expected local relay envelope to target current gateway node."), t).
Proof.
  intros Htarget Htext Hnode. unfold processSubscription. cbn [for_each].
  unfold process_message, decodeEnvelope, mbind, M_bind, try_catch. cbn [fst snd].
  rewrite parse_encode by done. cbn. unfold deliverLocalEnvelope. cbn [envelope_target].
  by rewrite bool_decide_false.
Qed.

(** ** Witnesses *)

Definition demo_target : RelayTarget := mkTarget "sbi_1" SideConnection "node-b" "session-1".

(** 1000000 bytes: two chunks. *)
Definition demo_payload : RelayPayload := BinaryPayload (replicate (Z.to_nat 1000000) 7).

Definition demo_receiver : NatsTransport :=
  mkNats "node-b" "mistle" JsMap.empty [(createPeerKey demo_target, 5%nat)] true 0 [] [].

Lemma demo_target_ok : target_ok demo_target.
Proof. repeat split; try discriminate; by apply (bool_decide_unpack _). Qed.

Lemma demo_id_ok : text_ok "uuid".
Proof. split; [discriminate|]. by apply well_formed_ascii. Qed.

Lemma demo_payload_ok : payload_ok demo_payload.
Proof. apply Forall_replicate. split; lia. Qed.

Lemma demo_payload_length :
  Z.of_nat (length (describeRelayFramePayload demo_payload).1) = 1000000.
Proof. cbn [describeRelayFramePayload demo_payload fst]. rewrite length_replicate. lia. Qed.

Lemma demo_payload_fits : payload_fits demo_payload.
Proof. unfold payload_fits. by rewrite demo_payload_length. Qed.

Lemma demo_frame_count : frame_count demo_payload = 2%nat.
Proof. unfold frame_count, frame_bytes_of. by rewrite demo_payload_length. Qed.

Lemma chunked_frame_relayed_witness :
  ∃ t1 t2,
    @processSubscription reference_base64 reference_zod (λ _, true)
      [((0, 0), @arrival_data reference_base64 demo_target "uuid" demo_payload (ArriveChunk 1));
       ((10, 11), [1; 2; 3]);
       ((20, 20), @arrival_data reference_base64 demo_target "uuid" demo_payload (ArriveChunk 1))]
      demo_receiver = (inr tt, t1) ∧
    t1.(nats_socket_calls) = [] ∧
    @process_message reference_base64 reference_zod (λ _, true)
      ((30, 31), @arrival_data reference_base64 demo_target "uuid" demo_payload (ArriveChunk 0)) t1
      = (inr tt, t2) ∧
    t2.(nats_socket_calls) = [SocketSend 5 demo_payload].
Proof.
  destruct (@chunked_frame_relayed reference_base64 reference_base64_laws reference_zod
    reference_zod_laws (λ _, true) demo_target "uuid" demo_payload demo_target_ok demo_id_ok
    demo_payload_ok demo_payload_fits
    [((0, 0), ArriveChunk 1); ((10, 11), ArriveOther [1; 2; 3]); ((20, 20), ArriveChunk 1)]
    demo_receiver demo_receiver 5%nat 0 30 31 0%nat) as [_ (t1 & t2 & Hrun & Hc1 & Hlast & Hc2 & _)].
  - apply JsMap.wf_empty.
  - reflexivity.
  - reflexivity.
  - vm_compute. reflexivity.
  - reflexivity.
  - cbn. unfold ReassemblyTimeoutMs. lia.
  - assert (1 < frame_count demo_payload)%nat by (rewrite demo_frame_count; lia).
    constructor; [done|]. constructor; [by vm_compute|]. by constructor; [|constructor].
  - vm_compute. reflexivity.
  - rewrite demo_frame_count. lia.
  - cbn. set_solver.
  - rewrite demo_frame_count. intros j Hj. cbn. assert (j = 0 ∨ j = 1)%nat as [-> | ->] by lia; set_solver.
  - exists t1, t2. by split_and!.
Defined.

Lemma frames_published_witness :
  ∃ t' sent,
    @nats_deliverEnvelope reference_base64 (λ _, true) (λ _, None) (λ _, "uuid")
      (RelayFrameEnvelope demo_target demo_payload)
      (mkNats "node-a" "mistle" JsMap.empty JsMap.empty true 0 [] []) = (inr tt, t') ∧
    t'.(published) = List.map (pair "mistle.relay.node-b") sent ∧
    Forall (λ data, Z.of_nat (length data) <= 900000) sent.
Proof.
  destruct (@frames_published reference_base64 reference_base64_laws reference_zod reference_zod_laws
    (λ _, true) (λ _, None) (λ _, "uuid") demo_target demo_payload
    (mkNats "node-a" "mistle" JsMap.empty JsMap.empty true 0 [] []))
    as (t' & sent & Hrun & Hpublished & Hlen & _).
  - reflexivity.
  - reflexivity.
  - discriminate.
  - apply demo_target_ok.
  - apply demo_payload_ok.
  - apply demo_payload_fits.
  - apply demo_id_ok.
  - vm_compute. discriminate.
  - exists t', sent. split; [done|]. split; [|done]. exact Hpublished.
Defined.
