(* ===== verification/PortAccessHost.v ===== *)
(** * Port access host names (packages/port-access-auth/src/port-access-host.ts)

    The host name under which a port of a sandbox is published:
    [p-<port>--<base32 of the sandbox id>.<base domain>].  [encodeBase32] and
    [decodeBase32] keep their bits in a [number] used as a 32-bit integer: the shifts
    wrap around ([shl32]).  The theorems compare both with the sequence of bits they
    stand for, and derive the host names that are parsed.

    The regular expression is built from the base domain with only its dots escaped;
    [match_host] is its match for base domains of host name characters.  [trim] is
    the language's, over the UTF-8 bytes of a string; [toLowerCase] is an argument, of
    which nothing is assumed. *)

From S2P Require Import Prelude JsMap Json DataFrame Text Locale.
Local Open Scope Z_scope.

(** ** 32-bit operations of the language *)

Definition to_int32 (x : Z) : Z := (x + 2 ^ 31) `mod` 2 ^ 32 - 2 ^ 31.
Definition shl32 (x : Z) (n : nat) : Z := to_int32 (Z.shiftl (to_int32 x) (Z.of_nat n)).
Definition or32 (x y : Z) : Z := Z.lor (to_int32 x) (to_int32 y).
Definition sar32 (x : Z) (n : nat) : Z := Z.shiftr (to_int32 x) (Z.of_nat n).
Definition and32 (x y : Z) : Z := Z.land (to_int32 x) (to_int32 y).

(** ** Errors and configuration *)

Inductive PortAccessHostErrorCode : Type :=
| BASE_DOMAIN_REQUIRED | HOST_REQUIRED | SANDBOX_INSTANCE_ID_REQUIRED | PORT_INVALID
| HOST_FORMAT_INVALID | HOST_SANDBOX_ID_INVALID.

Record PortAccessHostError : Type := mkHostError {
  host_error_code : PortAccessHostErrorCode;
  host_error_message : string;
}.

Record ParsedPortAccessHost : Type := mkParsedHost {
  parsed_sandboxInstanceId : string;
  parsed_port : Z;
  parsed_host : string;
}.

Definition invalid_token : PortAccessHostError :=
  mkHostError HOST_SANDBOX_ID_INVALID "Port Access host sandbox token is invalid.".

(** ** Base 32 *)

Definition Base32Alphabet : string := "abcdefghijklmnopqrstuvwxyz234567".

(** [Base32Alphabet[index]] *)
Definition base32_char (index : Z) : string :=
  match String.get (Z.to_nat index) Base32Alphabet with Some c => String c "" | None => "" end.

(** [Base32Characters.get(character)] *)
Definition Base32Characters (c : Ascii.ascii) : option Z :=
  Z.of_nat <$> String.index 0 (String c "") Base32Alphabet.

(** [while (bitsInBuffer >= 5)]; every turn takes bits away. *)
Fixpoint encode_drain (fuel : nat) (buffer : Z) (bitsInBuffer : nat) (encoded : string)
    : nat * string :=
  match fuel with
  | O => (bitsInBuffer, encoded)
  | S fuel =>
      if (5 <=? bitsInBuffer)%nat then
        let bitsInBuffer := (bitsInBuffer - 5)%nat in
        encode_drain fuel buffer bitsInBuffer
          (encoded +:+ base32_char (and32 (sar32 buffer bitsInBuffer) 31))
      else (bitsInBuffer, encoded)
  end.

Fixpoint encode_loop (buffer : Z) (bitsInBuffer : nat) (encoded : string) (bytes : list Z)
    : Z * nat * string :=
  match bytes with
  | [] => (buffer, bitsInBuffer, encoded)
  | byte :: bytes =>
      let buffer := or32 (shl32 buffer 8) byte in
      let bitsInBuffer := (bitsInBuffer + 8)%nat in
      let '(bitsInBuffer, encoded) := encode_drain bitsInBuffer buffer bitsInBuffer encoded in
      encode_loop buffer bitsInBuffer encoded bytes
  end.

Definition encodeBase32 (bytes : list Z) : string :=
  let '(buffer, bitsInBuffer, encoded) := encode_loop 0 0 "" bytes in
  if (0 <? bitsInBuffer)%nat
  then encoded +:+ base32_char (and32 (shl32 buffer (5 - bitsInBuffer)) 31)
  else encoded.

(** [while (bitsInBuffer >= 8)] *)
Fixpoint decode_drain (fuel : nat) (buffer : Z) (bitsInBuffer : nat) (decoded : list Z)
    : nat * list Z :=
  match fuel with
  | O => (bitsInBuffer, decoded)
  | S fuel =>
      if (8 <=? bitsInBuffer)%nat then
        let bitsInBuffer := (bitsInBuffer - 8)%nat in
        decode_drain fuel buffer bitsInBuffer (decoded ++ [and32 (sar32 buffer bitsInBuffer) 255])
      else (bitsInBuffer, decoded)
  end.

Fixpoint decode_loop (buffer : Z) (bitsInBuffer : nat) (decoded : list Z) (value : string)
    : PortAccessHostError + Z * nat * list Z :=
  match value with
  | EmptyString => inr (buffer, bitsInBuffer, decoded)
  | String character value =>
      match Base32Characters character with
      | None => inl invalid_token
      | Some decodedCharacter =>
          let buffer := or32 (shl32 buffer 5) decodedCharacter in
          let bitsInBuffer := (bitsInBuffer + 5)%nat in
          let '(bitsInBuffer, decoded) := decode_drain bitsInBuffer buffer bitsInBuffer decoded in
          decode_loop buffer bitsInBuffer decoded value
      end
  end.

Definition decodeBase32 (value : string) : PortAccessHostError + list Z :=
  match decode_loop 0 0 [] value with
  | inl error => inl error
  | inr (buffer, bitsInBuffer, decoded) =>
      if (0 <? bitsInBuffer)%nat && negb (and32 (shl32 buffer (8 - bitsInBuffer)) 255 =? 0)
      then inl invalid_token
      else inr decoded
  end.

(** ** Strings of the language *)

Definition trimToUndefined (value : string) : option string :=
  let trimmed := trim value in if trimmed =?= "" then None else Some trimmed.

(** The characters of [[a-z2-7]]. *)
Definition is_base32 (c : Ascii.ascii) : bool :=
  ((97 <=? code c) && (code c <=? 122)) || ((50 <=? code c) && (code c <=? 55)).

Fixpoint span_base32 (s : string) : string * string :=
  match s with
  | String c s' =>
      if is_base32 c then let (t, r) := span_base32 s' in (String c t, r) else ("", s)
  | EmptyString => ("", "")
  end.

(** [hostPattern.exec(host)]: the groups [port] and [encodedSandboxId]. *)
Definition match_host (baseDomain host : string) : option (string * string) :=
  s ← strip_prefix "p-" host;
  let (port, s) := span_digits s in
  if port =?= "" then None
  else
    s ← strip_prefix "--" s;
    let (encodedSandboxId, s) := span_base32 s in
    if encodedSandboxId =?= "" then None
    else
      s ← strip_prefix ("." +:+ baseDomain) s;
      if s =?= "" then Some (port, encodedSandboxId)
      else
        s ← strip_prefix ":" s;
        let (edgePort, s) := span_digits s in
        if (edgePort =?= "") || negb (s =?= "") then None else Some (port, encodedSandboxId).

(** ** Host names *)

Section Hosts.
Context (toLowerCase : string → string).

Definition normalizeBaseDomain (baseDomain : string) : PortAccessHostError + string :=
  match trimToUndefined baseDomain with
  | None => inl (mkHostError BASE_DOMAIN_REQUIRED "Port Access baseDomain is required.")
  | Some normalizedBaseDomain => inr (toLowerCase normalizedBaseDomain)
  end.

Definition toHostSafeSandboxId (sandboxInstanceId : string) : PortAccessHostError + string :=
  match trimToUndefined sandboxInstanceId with
  | None =>
      inl (mkHostError SANDBOX_INSTANCE_ID_REQUIRED "Port Access sandboxInstanceId is required.")
  | Some normalizedSandboxInstanceId =>
      inr (encodeBase32 (TextEncoder_encode normalizedSandboxInstanceId))
  end.

Definition parsePortNumber (port : number) : PortAccessHostError + Z :=
  if negb (Number_isInteger port) || (integer_of port <? 1) || (65535 <? integer_of port)
  then inl (mkHostError PORT_INVALID "Port Access port must be an integer between 1 and 65535.")
  else inr (integer_of port).

(** The host name of a port and a token. *)
Definition host_text (port : Z) (encodedSandboxId baseDomain : string) : string :=
  "p-" +:+ String_of_number port +:+ "--" +:+ encodedSandboxId +:+ "." +:+ baseDomain.

Definition derivePortAccessHost (baseDomain sandboxInstanceId : string) (port : number)
    : PortAccessHostError + string :=
  match normalizeBaseDomain baseDomain with
  | inl error => inl error
  | inr baseDomain =>
      match parsePortNumber port with
      | inl error => inl error
      | inr port =>
          match toHostSafeSandboxId sandboxInstanceId with
          | inl error => inl error
          | inr encodedSandboxId => inr (host_text port encodedSandboxId baseDomain)
          end
      end
  end.

Definition parsePortAccessHost (baseDomain host : string)
    : PortAccessHostError + ParsedPortAccessHost :=
  match normalizeBaseDomain baseDomain with
  | inl error => inl error
  | inr baseDomain =>
      match trimToUndefined host with
      | None => inl (mkHostError HOST_REQUIRED "Port Access host is required.")
      | Some normalizedHost =>
          match match_host baseDomain (toLowerCase normalizedHost) with
          | None => inl (mkHostError HOST_FORMAT_INVALID "Port Access host format is invalid.")
          | Some (port, encodedSandboxId) =>
              (* [Number.parseInt(match.groups.port, 10)] *)
              match parsePortNumber (Int (digits_value 0 port)) with
              | inl error => inl error
              | inr port =>
                  match decodeBase32 encodedSandboxId with
                  | inl error => inl error
                  | inr decoded =>
                      let sandboxInstanceId := TextDecoder_decode decoded in
                      if sandboxInstanceId =?= "" then inl invalid_token
                      else inr (mkParsedHost sandboxInstanceId port
                                  (host_text port encodedSandboxId baseDomain))
                  end
              end
          end
      end
  end.
End Hosts.

(** ** Bits *)

(** The low [n] bits of [x], the highest first. *)
Fixpoint low_bits (n : nat) (x : Z) : list bool :=
  match n with O => [] | S n => Z.testbit x (Z.of_nat n) :: low_bits n x end.

Lemma low_bits_length n x : length (low_bits n x) = n.
Proof. induction n; cbn; congruence. Qed.

Lemma low_bits_ext n x y :
  (∀ i, 0 <= i < Z.of_nat n → Z.testbit x i = Z.testbit y i) → low_bits n x = low_bits n y.
Proof.
  induction n as [|n IH]; intros Heq; [done|]. cbn. rewrite Heq by lia. f_equal. apply IH.
  intros. apply Heq. lia.
Qed.

Lemma to_int32_testbit x i : 0 <= i < 32 → Z.testbit (to_int32 x) i = Z.testbit x i.
Proof.
  intros Hi. unfold to_int32.
  assert (∀ y, Z.testbit (y `mod` 2 ^ 32) i = Z.testbit y i) as Hmod
    by (intros y; apply Z.mod_pow2_bits_low; lia).
  rewrite <- (Hmod (_ - _)), <- (Hmod x). f_equal.
  rewrite Zminus_mod_idemp_l. f_equal. lia.
Qed.

Lemma low_bits_int32 n x : (n <= 32)%nat → low_bits n (to_int32 x) = low_bits n x.
Proof. intros. apply low_bits_ext. intros. apply to_int32_testbit. lia. Qed.

Lemma low_bits_app n k x :
  low_bits (n + k) x = low_bits n (Z.shiftr x (Z.of_nat k)) ++ low_bits k x.
Proof.
  induction n as [|n IH]; [done|]. cbn. rewrite IH. f_equal.
  rewrite Z.shiftr_spec by lia. f_equal. lia.
Qed.

(** Pushing a symbol of [k] bits: what the loops do to the buffer. *)
Lemma low_bits_push n k x symbol :
  (n + k <= 32)%nat → 0 <= symbol < 2 ^ Z.of_nat k →
  low_bits (n + k) (or32 (shl32 x k) symbol) = low_bits n x ++ low_bits k symbol.
Proof.
  intros Hn Hsymbol. rewrite low_bits_app. f_equal; apply low_bits_ext; intros i Hi.
  - rewrite Z.shiftr_spec by lia. unfold or32. rewrite Z.lor_spec, !to_int32_testbit by lia.
    unfold shl32. rewrite to_int32_testbit, Z.shiftl_spec, to_int32_testbit by lia.
    replace (Z.testbit symbol (i + Z.of_nat k)) with false; [rewrite orb_false_r; f_equal; lia|].
    symmetry. destruct (decide (symbol = 0)) as [->|]; [apply Z.testbit_0_l|].
    apply Z.bits_above_log2; [lia|].
    apply Z.log2_lt_pow2; [lia|]. eapply Z.lt_le_trans; [apply Hsymbol|].
    apply Z.pow_le_mono_r; lia.
  - unfold or32. rewrite Z.lor_spec, !to_int32_testbit by lia. unfold shl32.
    rewrite to_int32_testbit, Z.shiftl_spec_low by lia. done.
Qed.

Lemma land_ones_low_bits k x : low_bits k (Z.land x (Z.ones (Z.of_nat k))) = low_bits k x.
Proof.
  apply low_bits_ext. intros i Hi. rewrite Z.land_spec, Z.ones_spec_low by lia.
  apply andb_true_r.
Qed.

(** Taking a symbol of [k] bits out of a buffer of [n + k]. *)
Lemma low_bits_pop n k x mask :
  (n + k <= 32)%nat → mask = Z.ones (Z.of_nat k) → (k < 32)%nat →
  low_bits (n + k) x = low_bits k (and32 (sar32 x n) mask) ++ low_bits n x
  ∧ 0 <= and32 (sar32 x n) mask < 2 ^ Z.of_nat k.
Proof.
  intros Hn -> Hk.
  assert (to_int32 (Z.ones (Z.of_nat k)) = Z.ones (Z.of_nat k)) as Hones.
  { unfold to_int32. rewrite Z.ones_equiv. assert (2 ^ Z.of_nat k <= 2 ^ 31)
      by (apply Z.pow_le_mono_r; lia). assert (0 < 2 ^ Z.of_nat k) by (apply Z.pow_pos_nonneg; lia).
    rewrite Z.mod_small; lia. }
  unfold and32. rewrite Hones. split.
  - rewrite land_ones_low_bits. rewrite Nat.add_comm, low_bits_app. f_equal.
    rewrite low_bits_int32 by lia. apply low_bits_ext. intros i Hi. unfold sar32.
    rewrite !Z.shiftr_spec by lia. by rewrite to_int32_testbit by lia.
  - rewrite Z.land_ones by lia. apply Z.mod_pos_bound. apply Z.pow_pos_nonneg; lia.
Qed.

Lemma low_bits_inj k x y :
  0 <= x < 2 ^ Z.of_nat k → 0 <= y < 2 ^ Z.of_nat k → low_bits k x = low_bits k y → x = y.
Proof.
  intros Hx Hy Heq. rewrite <- (Z.mod_small x (2 ^ Z.of_nat k)), <- (Z.mod_small y (2 ^ Z.of_nat k)) by done.
  apply Z.bits_inj'. intros i Hi. destruct (decide (i < Z.of_nat k)).
  - rewrite !Z.mod_pow2_bits_low by lia. clear Hx Hy. induction k as [|k IH]; [lia|].
    cbn in Heq. injection Heq as Hbit Heq. destruct (decide (i = Z.of_nat k)) as [->|]; [done|].
    apply IH; [done|lia].
  - by rewrite !Z.mod_pow2_bits_high by lia.
Qed.

Lemma low_bits_zero n : low_bits n 0 = replicate n false.
Proof. induction n; cbn; [done|]. by rewrite Z.testbit_0_l, IHn. Qed.

(** ** The loops keep the bits *)

(** The bits of a sequence of symbols of [k] bits. *)
Definition bits_of (k : nat) (l : list Z) : list bool := List.concat (List.map (low_bits k) l).

Definition symbols (k : nat) (l : list Z) : Prop := Forall (λ x, 0 <= x < 2 ^ Z.of_nat k) l.

Lemma bits_of_app k a b : bits_of k (a ++ b) = bits_of k a ++ bits_of k b.
Proof. unfold bits_of. by rewrite List.map_app, List.concat_app. Qed.

Lemma bits_of_single k x : bits_of k [x] = low_bits k x.
Proof. apply app_nil_r. Qed.

Lemma bits_of_length k l : length (bits_of k l) = (k * length l)%nat.
Proof.
  induction l as [|x l IH]; [cbn; lia|]. change (x :: l) with ([x] ++ l).
  rewrite bits_of_app, bits_of_single, length_app, low_bits_length, IH. cbn. lia.
Qed.

(** Symbols are determined by their bits. *)
Lemma bits_of_inj k a b r r' :
  (0 < k)%nat → symbols k a → symbols k b → length a = length b →
  bits_of k a ++ r = bits_of k b ++ r' → a = b ∧ r = r'.
Proof.
  intros Hk Ha. revert b. induction Ha as [|x a Hx _ IH]; intros [|y b] Hb Hlen Heq; try done.
  change (x :: a) with ([x] ++ a) in Heq. change (y :: b) with ([y] ++ b) in Heq.
  rewrite !bits_of_app, !bits_of_single, <- !app_assoc in Heq.
  apply app_inj_1 in Heq as [Hxy Heq]; [|by rewrite !low_bits_length].
  apply Forall_cons in Hb as [Hy Hb]. apply low_bits_inj in Hxy as ->; [|done..].
  injection Hlen as Hlen. by destruct (IH b Hb Hlen Heq) as [-> ->].
Qed.

(** The text of a sequence of symbols, and the symbols of a text. *)
Fixpoint base32_text (l : list Z) : string :=
  match l with [] => "" | x :: l => base32_char x +:+ base32_text l end.

Fixpoint base32_symbols (s : string) : option (list Z) :=
  match s with
  | EmptyString => Some []
  | String c s => x ← Base32Characters c; l ← base32_symbols s; Some (x :: l)
  end.

Lemma base32_text_app a b : base32_text (a ++ b) = base32_text a +:+ base32_text b.
Proof. induction a as [|x a IH]; [done|]. cbn. by rewrite IH, string_app_assoc. Qed.

Lemma base32_alphabet x :
  0 <= x < 32 → ∃ c, base32_char x = String c "" ∧ Base32Characters c = Some x.
Proof.
  intros Hx. assert (∀ k, (k < 32)%nat → match base32_char (Z.of_nat k) with
    | String c EmptyString => Base32Characters c =?= Some (Z.of_nat k) | _ => false end = true) as Hall.
  { intros k Hk. assert (forallb (λ k, match base32_char (Z.of_nat k) with
      | String c EmptyString => Base32Characters c =?= Some (Z.of_nat k) | _ => false end)
      (seq 0 32) = true) as Hseq by by vm_compute.
    rewrite List.forallb_forall in Hseq. apply Hseq, List.in_seq. lia. }
  specialize (Hall (Z.to_nat x) ltac:(lia)). rewrite Z2Nat.id in Hall by lia.
  destruct (base32_char x) as [|c [|]]; try done. bools. by exists c.
Qed.

Lemma base32_characters c x :
  Base32Characters c = Some x → 0 <= x < 32 ∧ base32_char x = String c "".
Proof.
  assert (∀ n, (n < 256)%nat → match Base32Characters (Ascii.ascii_of_nat n) with
    | Some x => (0 <=? x) && (x <? 32) && (base32_char x =?= String (Ascii.ascii_of_nat n) "")
    | None => true end = true) as Hall.
  { intros n Hn. assert (forallb (λ n, match Base32Characters (Ascii.ascii_of_nat n) with
      | Some x => (0 <=? x) && (x <? 32) && (base32_char x =?= String (Ascii.ascii_of_nat n) "")
      | None => true end) (seq 0 256) = true) as Hseq by by vm_compute.
    rewrite List.forallb_forall in Hseq. apply Hseq, List.in_seq. lia. }
  specialize (Hall (Ascii.nat_of_ascii c) (Ascii.nat_ascii_bounded c)).
  rewrite Ascii.ascii_nat_embedding in Hall. intros Hc. rewrite Hc in Hall. bools. split; [lia|done].
Qed.

Lemma base32_characters_ok c x : Base32Characters c = Some x → is_base32 c = true.
Proof.
  intros Hc. destruct (base32_characters c x Hc) as [Hx Hchar].
  assert (∀ k, (k < 32)%nat → match base32_char (Z.of_nat k) with
    | String c EmptyString => is_base32 c | _ => false end = true) as Hall.
  { intros k Hk. assert (forallb (λ k, match base32_char (Z.of_nat k) with
      | String c EmptyString => is_base32 c | _ => false end) (seq 0 32) = true) as Hseq by by vm_compute.
    rewrite List.forallb_forall in Hseq. apply Hseq, List.in_seq. lia. }
  specialize (Hall (Z.to_nat x) ltac:(lia)). by rewrite Z2Nat.id, Hchar in Hall by lia.
Qed.

Lemma base32_symbols_text l : symbols 5 l → base32_symbols (base32_text l) = Some l.
Proof.
  induction 1 as [|x l Hx _ IH]; [done|]. destruct (base32_alphabet x Hx) as (c & Hc & Hx').
  cbn [base32_text]. rewrite Hc, app_String, app_empty_l. cbn [base32_symbols].
  rewrite Hx'. cbn. by rewrite IH.
Qed.

Lemma base32_text_symbols s l : base32_symbols s = Some l → symbols 5 l ∧ base32_text l = s.
Proof.
  revert l. induction s as [|c s IH]; intros l Hl; [injection Hl as <-; by split; [constructor|]|]. cbn [base32_symbols] in Hl.
  destruct (Base32Characters c) as [x|] eqn:Hc; [|done]. cbn [mbind option_bind] in Hl.
  destruct (base32_symbols s) as [l'|]; [|done]. injection Hl as <-.
  destruct (IH l' eq_refl) as [Hl' <-]. destruct (base32_characters c x Hc) as [Hx Hcx].
  split; [by constructor|]. cbn [base32_text]. by rewrite Hcx.
Qed.

(** One drain of the encoder: the symbols taken out and the bits left. *)
Lemma encode_drain_spec fuel buffer n encoded :
  (n <= fuel)%nat → (n <= 32)%nat →
  ∃ out, encode_drain fuel buffer n encoded = (length (low_bits n buffer) - 5 * length out, encoded +:+ base32_text out)%nat
    ∧ symbols 5 out ∧ (5 * length out <= n)%nat ∧ (n - 5 * length out < 5)%nat
    ∧ low_bits n buffer = bits_of 5 out ++ low_bits (n - 5 * length out) buffer.
Proof.
  rewrite low_bits_length.
  revert n encoded. induction fuel as [|fuel IH]; intros n encoded Hn Hn32.
  - exists []. cbn. rewrite string_app_nil_r, Nat.sub_0_r. repeat split; try lia. constructor.
  - cbn [encode_drain]. destruct (Nat.leb_spec 5 n) as [Hle|Hlt].
    + destruct (IH (n - 5)%nat (encoded +:+ base32_char (and32 (sar32 buffer (n - 5)) 31)))
        as (out & -> & Hout & Hlen & Hrest & Hbits); [lia..|].
      destruct (low_bits_pop (n - 5) 5 buffer 31) as [Hpop Hrange]; [lia|done|lia|].
      exists (and32 (sar32 buffer (n - 5)) 31 :: out). cbn [length base32_text].
      rewrite string_app_assoc. split_and!; [f_equal; lia|by constructor|lia|lia|].
      replace (n - 5 + 5)%nat with n in Hpop by lia. rewrite Hpop, Hbits.
      change (?x :: out) with ([x] ++ out). rewrite bits_of_app, bits_of_single, <- app_assoc.
      by replace (n - 5 - 5 * length out)%nat with (n - 5 * S (length out))%nat by lia.
    + exists []. cbn [length base32_text]. rewrite string_app_nil_r, Nat.mul_0_r, Nat.sub_0_r.
      repeat split; try lia. constructor.
Qed.

Lemma decode_drain_spec fuel buffer n decoded :
  (n <= fuel)%nat → (n <= 32)%nat →
  ∃ out, decode_drain fuel buffer n decoded = (n - 8 * length out, decoded ++ out)%nat
    ∧ symbols 8 out ∧ (8 * length out <= n)%nat ∧ (n - 8 * length out < 8)%nat
    ∧ low_bits n buffer = bits_of 8 out ++ low_bits (n - 8 * length out) buffer.
Proof.
  revert n decoded. induction fuel as [|fuel IH]; intros n decoded Hn Hn32.
  - exists []. cbn. rewrite app_nil_r, Nat.sub_0_r. repeat split; try lia. constructor.
  - cbn [decode_drain]. destruct (Nat.leb_spec 8 n) as [Hle|Hlt].
    + destruct (IH (n - 8)%nat (decoded ++ [and32 (sar32 buffer (n - 8)) 255]))
        as (out & -> & Hout & Hlen & Hrest & Hbits); [lia..|].
      destruct (low_bits_pop (n - 8) 8 buffer 255) as [Hpop Hrange]; [lia|done|lia|].
      exists (and32 (sar32 buffer (n - 8)) 255 :: out). cbn [length].
      rewrite <- app_assoc. split_and!; [f_equal; lia|by constructor|lia|lia|].
      replace (n - 8 + 8)%nat with n in Hpop by lia. rewrite Hpop, Hbits.
      change (?x :: out) with ([x] ++ out). rewrite bits_of_app, bits_of_single, <- app_assoc.
      by replace (n - 8 - 8 * length out)%nat with (n - 8 * S (length out))%nat by lia.
    + exists []. cbn [length]. rewrite app_nil_r, Nat.mul_0_r, Nat.sub_0_r.
      repeat split; try lia. constructor.
Qed.

Lemma encode_loop_spec bytes buffer n encoded :
  symbols 8 bytes → (n < 5)%nat →
  ∃ out buffer' n', encode_loop buffer n encoded bytes = (buffer', n', encoded +:+ base32_text out)
    ∧ symbols 5 out ∧ (n' < 5)%nat
    ∧ low_bits n buffer ++ bits_of 8 bytes = bits_of 5 out ++ low_bits n' buffer'.
Proof.
  intros Hbytes. revert buffer n encoded. induction Hbytes as [|byte bytes Hbyte _ IH];
    intros buffer n encoded Hn.
  - exists [], buffer, n. cbn. rewrite string_app_nil_r, app_nil_r. repeat split; [constructor|done].
  - cbn [encode_loop]. set (b := or32 (shl32 buffer 8) byte).
    destruct (encode_drain_spec (n + 8) b (n + 8) encoded) as (out & Hdrain & Hout & Hle & Hlt & Hbits);
      [lia..|]. rewrite Hdrain, low_bits_length.
    destruct (IH b (n + 8 - 5 * length out)%nat (encoded +:+ base32_text out) Hlt)
      as (out' & b' & n' & -> & Hout' & Hn' & Hbits').
    exists (out ++ out'), b', n'. rewrite base32_text_app, string_app_assoc. split_and!; [done| |done|].
    + by apply Forall_app.
    + change (byte :: bytes) with ([byte] ++ bytes). rewrite bits_of_app, bits_of_single, app_assoc.
      rewrite <- (low_bits_push n 8 buffer byte) by (done || lia). fold b.
      by rewrite Hbits, bits_of_app, <- !app_assoc, Hbits'.
Qed.

Lemma decode_loop_spec value buffer n decoded :
  (n < 8)%nat →
  match base32_symbols value with
  | None => decode_loop buffer n decoded value = inl invalid_token
  | Some l => ∃ out buffer' n', decode_loop buffer n decoded value = inr (buffer', n', decoded ++ out)
      ∧ symbols 8 out ∧ (n' < 8)%nat ∧ low_bits n buffer ++ bits_of 5 l = bits_of 8 out ++ low_bits n' buffer'
  end.
Proof.
  revert buffer n decoded. induction value as [|c value IH]; intros buffer n decoded Hn.
  - exists [], buffer, n. cbn. rewrite !app_nil_r. repeat split; [constructor|done].
  - cbn [decode_loop base32_symbols]. destruct (Base32Characters c) as [x|] eqn:Hc; [|done].
    cbn [mbind option_bind]. set (b := or32 (shl32 buffer 5) x).
    destruct (decode_drain_spec (n + 5) b (n + 5) decoded) as (out & Hdrain & Hout & Hle & Hlt & Hbits);
      [lia..|]. rewrite Hdrain. specialize (IH b (n + 5 - 8 * length out)%nat (decoded ++ out) Hlt).
    destruct (base32_symbols value) as [l|]; [|done].
    destruct IH as (out' & b' & n' & -> & Hout' & Hn' & Hbits').
    exists (out ++ out'), b', n'. rewrite <- app_assoc. split_and!; [done| |done|].
    + by apply Forall_app.
    + change (x :: l) with ([x] ++ l). rewrite bits_of_app, bits_of_single, app_assoc.
      rewrite <- (low_bits_push n 5 buffer x) by (lia || by apply (base32_characters c)). fold b.
      by rewrite Hbits, bits_of_app, <- !app_assoc, Hbits'.
Qed.

(** ** The codec *)

Lemma low_bits_shl n k x :
  (n + k <= 32)%nat → low_bits (n + k) (shl32 x k) = low_bits n x ++ replicate k false.
Proof.
  intros Hn. rewrite <- low_bits_zero, <- low_bits_push by (lia || (split; [lia|apply Z.pow_pos_nonneg; lia])).
  unfold or32. rewrite Z.lor_0_r. by rewrite low_bits_int32.
Qed.

Lemma and32_ones k x mask :
  (k < 32)%nat → mask = Z.ones (Z.of_nat k) →
  low_bits k (and32 x mask) = low_bits k x ∧ 0 <= and32 x mask < 2 ^ Z.of_nat k.
Proof.
  intros Hk ->. destruct (low_bits_pop 0 k x (Z.ones (Z.of_nat k))) as [Hbits Hrange]; [lia|done|done|].
  assert (∀ y, and32 (sar32 x 0) y = and32 x y) as Hsar.
  { intros y. unfold and32, sar32. f_equal. rewrite Z.shiftr_0_r. unfold to_int32.
    pose proof (Z.mod_pos_bound (x + 2 ^ 31) (2 ^ 32) ltac:(lia)). rewrite (Z.mod_small (_ - _ + _)); lia. }
  rewrite Hsar in *. split; [|done]. cbn in Hbits. by rewrite app_nil_r in Hbits.
Qed.

(** The text of bytes: their bits, filled up with zeros. *)
Lemma encodeBase32_bits b :
  symbols 8 b →
  ∃ l r, base32_symbols (encodeBase32 b) = Some l ∧ symbols 5 l ∧ (r < 5)%nat ∧
    bits_of 5 l = bits_of 8 b ++ replicate r false.
Proof.
  intros Hb. unfold encodeBase32.
  destruct (encode_loop_spec b 0 0 "" Hb ltac:(lia)) as (out & buffer & n & -> & Hout & Hn & Hbits).
  rewrite app_empty_l. cbn [low_bits app] in Hbits. rewrite Hbits. destruct (Nat.ltb_spec 0 n) as [Hpos|Hzero].
  - destruct (and32_ones 5 (shl32 buffer (5 - n)) 31) as [Hlow Hrange]; [lia|done|].
    exists (out ++ [and32 (shl32 buffer (5 - n)) 31]), (5 - n)%nat.
    assert (symbols 5 (out ++ [and32 (shl32 buffer (5 - n)) 31])) as Hl.
    { apply Forall_app. split; [done|]. by constructor. }
    replace (base32_text out +:+ base32_char (and32 (shl32 buffer (5 - n)) 31))
      with (base32_text (out ++ [and32 (shl32 buffer (5 - n)) 31])).
    2:{ rewrite base32_text_app. cbn. by rewrite string_app_nil_r. }
    rewrite base32_symbols_text by done. split_and!; [done|done|lia|].
    rewrite bits_of_app, bits_of_single, Hlow, <- app_assoc. f_equal.
    rewrite <- low_bits_shl by lia. f_equal. lia.
  - exists out, 0%nat. assert (n = 0%nat) as -> by lia. rewrite base32_symbols_text by done.
    by rewrite !app_nil_r.
Qed.

(** Exactly the texts of bytes whose rest of less than eight bits is zero decode. *)
Lemma decodeBase32_bits s b :
  decodeBase32 s = inr b ↔
  ∃ l r, base32_symbols s = Some l ∧ symbols 8 b ∧ (r < 8)%nat ∧
    bits_of 5 l = bits_of 8 b ++ replicate r false.
Proof.
  unfold decodeBase32. pose proof (decode_loop_spec s 0 0 [] ltac:(lia)) as Hloop.
  destruct (base32_symbols s) as [l|]; [|rewrite Hloop; split; [done|by intros (? & ? & ? & _)]].
  destruct Hloop as (out & buffer & n & -> & Hout & Hn & Hbits). cbn [low_bits app] in *.
  assert ((0 <? n)%nat && negb (and32 (shl32 buffer (8 - n)) 255 =? 0) = false
    ↔ low_bits n buffer = replicate n false) as Hcheck.
  { destruct (and32_ones 8 (shl32 buffer (8 - n)) 255) as [Hlow Hrange]; [lia|done|].
    pose proof (low_bits_shl n (8 - n) buffer ltac:(lia)) as Hshl.
    replace (n + (8 - n))%nat with 8%nat in Hshl by lia.
    assert (replicate 8 false = replicate n false ++ replicate (8 - n) false) as Hzeros
      by (rewrite <- replicate_add; f_equal; lia).
    split.
    - intros Hb. destruct (decide (n = 0%nat)) as [->|]; [done|].
      rewrite (proj2 (Nat.ltb_lt 0 n)) in Hb by lia. cbn [andb] in Hb. bools.
      rewrite Hb, low_bits_zero, Hzeros, Hshl in Hlow. by apply app_inj_2 in Hlow as [-> _].
    - intros Hz. apply andb_false_iff. right. apply negb_false_iff, Z.eqb_eq.
      apply (low_bits_inj 8); [done|by split|]. rewrite Hlow, Hshl, Hz, low_bits_zero. by rewrite Hzeros. }
  destruct (_ && _) eqn:Htest.
  - split; [done|]. intros (l' & r & [= <-] & Hb & Hr & Heq). rewrite Hbits in Heq.
    assert (length out = length b) as Hlen.
    { pose proof (f_equal length Heq) as Hl. rewrite !length_app, !bits_of_length, low_bits_length,
        length_replicate in Hl. lia. }
    apply bits_of_inj in Heq as [_ Heq]; [|lia|done..].
    assert (n = r) as <- by (apply (f_equal length) in Heq; by rewrite low_bits_length, length_replicate in Heq).
    by apply Hcheck in Heq.
  - rewrite (proj1 Hcheck eq_refl) in Hbits. split.
    + intros [= <-]. by exists l, n.
    + intros (l' & r & [= <-] & Hb & Hr & Heq). rewrite Hbits in Heq.
      assert (length out = length b) as Hlen.
      { pose proof (f_equal length Heq) as Hl. rewrite !length_app, !bits_of_length,
          !length_replicate in Hl. lia. }
      by apply bits_of_inj in Heq as [-> _]; [|lia|..].
Qed.

Lemma decode_encodeBase32 b : symbols 8 b → decodeBase32 (encodeBase32 b) = inr b.
Proof.
  intros Hb. apply decodeBase32_bits. destruct (encodeBase32_bits b Hb) as (l & r & Hl & _ & Hr & Hbits).
  exists l, r. split_and!; [done|done|lia|done].
Qed.

(** C39: For byte strings of any length, the wrap-around of the 32-bit buffer does not
    show: the base 32 text is the bits of the bytes, five at a time and filled up
    with zeros; decoding it gives the bytes back; and the texts that decode to some
    bytes are their own text and, at most, that text with one more "a". *)
Theorem base32_exact (b : list Z) :
  bytes b →
  (∃ l r, encodeBase32 b = base32_text l ∧ symbols 5 l ∧ (r < 5)%nat ∧
     bits_of 5 l = bits_of 8 b ++ replicate r false) ∧
  decodeBase32 (encodeBase32 b) = inr b ∧
  (∀ s, decodeBase32 s = inr b → s = encodeBase32 b ∨ s = encodeBase32 b +:+ "a").
Proof.
  intros Hb. change (symbols 8 b) in Hb.
  destruct (encodeBase32_bits b Hb) as (l & r & Hl & Hl5 & Hr & Hbits).
  destruct (base32_text_symbols _ _ Hl) as [_ Htext]. split; [by exists l, r|].
  split; [by apply decode_encodeBase32|]. intros s Hs.
  apply decodeBase32_bits in Hs as (l' & r' & Hl' & _ & Hr' & Hbits').
  destruct (base32_text_symbols _ _ Hl') as [Hl5' Htext'].
  pose proof (f_equal length Hbits) as Hlen. pose proof (f_equal length Hbits') as Hlen'.
  rewrite !length_app, !bits_of_length, !length_replicate in Hlen, Hlen'.
  assert (r' = r ∨ r' = r + 5)%nat as [-> | ->] by lia.
  - left. rewrite <- Hbits' in Hbits. rewrite <- (app_nil_r (bits_of 5 l)), <- (app_nil_r (bits_of 5 l')) in Hbits.
    apply bits_of_inj in Hbits as [-> _]; [congruence|lia|done|done|lia].
  - right. assert (bits_of 5 (l ++ [0]) ++ [] = bits_of 5 l' ++ []) as Heq.
    { rewrite !app_nil_r, bits_of_app, Hbits, Hbits', replicate_add, <- app_assoc. done. }
    apply bits_of_inj in Heq as [<- _]; [|lia| |done|rewrite length_app; cbn; lia].
    + rewrite base32_text_app, Htext in Htext'. by change (base32_text [0]) with "a" in Htext'.
    + apply Forall_app. split; [done|]. by repeat constructor.
Qed.

(** ** Deriving and parsing *)

Lemma span_base32_app t rest :
  is_Some (base32_symbols t) → (∀ c r, rest = String c r → is_base32 c = false) →
  span_base32 (t +:+ rest) = (t, rest).
Proof.
  intros Ht Hrest. induction t as [|c t IH].
  - rewrite app_empty_l. destruct rest as [|c rest]; [done|]. cbn. by rewrite (Hrest c rest).
  - rewrite app_String. cbn [span_base32]. cbn [base32_symbols] in Ht.
    destruct (Base32Characters c) as [x|] eqn:Hc; [|by destruct Ht].
    rewrite (base32_characters_ok c x Hc). cbn [mbind option_bind] in Ht.
    destruct (base32_symbols t); [|by destruct Ht]. by rewrite IH by eauto.
Qed.

Lemma number_digits n :
  1 <= n →
  all_digits (String_of_number n) = true ∧ digits_value 0 (String_of_number n) = n
  ∧ String_of_number n ≠ "".
Proof.
  intros Hn. destruct n as [|p|p]; [lia| |lia]. rewrite String_of_number_pos.
  destruct (pretty_N_go_digits (N.pos p) "" eq_refl) as [Hall Hvalue].
  destruct (pretty_N_go_first (N.pos p) "" ltac:(lia)) as (c & t & Hfirst & _).
  split_and!; [done|by rewrite (Hvalue 0)|by rewrite Hfirst].
Qed.

(** What may follow a host name: nothing, or the port of the edge. *)
Definition edge_suffix (suffix : string) : Prop :=
  suffix = "" ∨ ∃ edgePort, suffix = ":" +:+ edgePort ∧ edgePort ≠ "" ∧ all_digits edgePort = true.

Lemma match_host_text port token baseDomain suffix :
  1 <= port → is_Some (base32_symbols token) → token ≠ "" → edge_suffix suffix →
  match_host baseDomain (host_text port token baseDomain +:+ suffix)
  = Some (String_of_number port, token).
Proof.
  intros Hport Htoken Hne Hsuffix. destruct (number_digits port Hport) as (Hdigits & _ & Hnumber).
  unfold match_host, host_text. rewrite !string_app_assoc, strip_prefix_app. cbn [mbind option_bind].
  rewrite span_digits_app by done. rewrite bool_decide_false by done.
  rewrite strip_prefix_app. cbn [mbind option_bind].
  rewrite span_base32_app; [|done|by intros c r [= <- <-]].
  rewrite bool_decide_false by done.
  rewrite <- (string_app_assoc "." baseDomain suffix), strip_prefix_app. cbn [mbind option_bind].
  destruct Hsuffix as [-> | (edge & -> & Hedge & Hall)]; [done|].
  rewrite bool_decide_false by done. rewrite strip_prefix_app. cbn [mbind option_bind].
  rewrite <- (string_app_nil_r edge), span_digits_app by done. by rewrite bool_decide_false.
Qed.

Section Hosts_theory.
Context (toLowerCase : string → string).

(** A host name derived for a port and a (trimmed) sandbox id is parsed, whatever its case and
    white space and with the port of the edge or without, to that port and sandbox id
    and to itself; and a host name that is parsed has a port in range and a sandbox
    id. *)
Theorem port_access_host_roundtrip (baseDomain domain sandboxInstanceId : string) (port : Z) :
  normalizeBaseDomain toLowerCase baseDomain = inr domain →
  trim sandboxInstanceId = sandboxInstanceId → sandboxInstanceId ≠ "" → well_formed sandboxInstanceId →
  1 <= port <= 65535 →
  ∃ host,
    derivePortAccessHost toLowerCase baseDomain sandboxInstanceId (Int port) = inr host ∧
    (∀ h suffix, edge_suffix suffix → toLowerCase (trim h) = host +:+ suffix → trim h ≠ "" →
       parsePortAccessHost toLowerCase baseDomain h
       = inr (mkParsedHost sandboxInstanceId port host)) ∧
    (∀ h parsed, parsePortAccessHost toLowerCase baseDomain h = inr parsed →
       1 <= parsed.(parsed_port) <= 65535 ∧ parsed.(parsed_sandboxInstanceId) ≠ "").
Proof.
  intros Hdomain Htrim Hne Hwf Hport.
  set (token := encodeBase32 (bytes_of sandboxInstanceId)).
  assert (parsePortNumber (Int port) = inr port) as Hparse.
  { unfold parsePortNumber. cbn.
    by rewrite (proj2 (Z.ltb_ge port 1)), (proj2 (Z.ltb_ge 65535 port)) by lia. }
  exists (host_text port token domain). split_and!.
  - unfold derivePortAccessHost, toHostSafeSandboxId, trimToUndefined.
    rewrite Hdomain, Hparse, Htrim, bool_decide_false by done. by rewrite TextEncoder_well_formed.
  - intros h suffix Hsuffix Hlower Hh. unfold parsePortAccessHost. rewrite Hdomain.
    unfold trimToUndefined. rewrite (bool_decide_false (trim h = "")) by done. rewrite Hlower.
    destruct (encodeBase32_bits (bytes_of sandboxInstanceId) (bytes_of_ok _))
      as (l & r & Hl & _ & _ & Hbits).
    rewrite match_host_text; [|lia|by exists l| |done].
    + destruct (number_digits port) as (_ & -> & _); [lia|]. rewrite Hparse.
      unfold token. rewrite decode_encodeBase32 by apply bytes_of_ok.
      rewrite decode_well_formed by (done || by apply trimmed_no_byte_order_mark).
      by rewrite bool_decide_false.
    + unfold token. intros Htoken. rewrite Htoken in Hl. injection Hl as <-.
      destruct sandboxInstanceId; [done|]. discriminate.
  - intros h parsed. unfold parsePortAccessHost. rewrite Hdomain.
    destruct (trimToUndefined h); [|done]. destruct (match_host _ _) as [[digits token']|]; [|done].
    unfold parsePortNumber. cbn [Number_isInteger negb orb integer_of].
    destruct ((digits_value 0 digits <? 1) || (65535 <? digits_value 0 digits)) eqn:Hrange; [done|].
    destruct (decodeBase32 token') as [|decoded]; [done|].
    destruct (TextDecoder_decode decoded =?= "") eqn:Hempty; [done|]. intros [= <-]. cbn. bools. split; [lia|done].
Qed.
End Hosts_theory.

(** ** Witnesses *)

Lemma base32_exact_witness :
  decodeBase32 (encodeBase32 [115; 98; 105; 95; 49; 255; 0; 128]) = inr [115; 98; 105; 95; 49; 255; 0; 128].
Proof. apply base32_exact. by repeat constructor. Defined.

Lemma port_access_host_roundtrip_witness :
  derivePortAccessHost ascii_lower " Example.COM" "sbi_1" (Int 8080)
    = inr "p-8080--onrgsxzr.example.com" ∧
  parsePortAccessHost ascii_lower " Example.COM" "P-8080--onrgsxzr.example.com:443 "
    = inr (mkParsedHost "sbi_1" 8080 "p-8080--onrgsxzr.example.com").
Proof.
  destruct (port_access_host_roundtrip ascii_lower " Example.COM" "example.com" "sbi_1" 8080)
    as (host & Hderive & Hparse & _).
  - vm_compute. reflexivity.
  - vm_compute. reflexivity.
  - discriminate.
  - by apply well_formed_ascii.
  - lia.
  - assert (derivePortAccessHost ascii_lower " Example.COM" "sbi_1" (Int 8080)
      = inr "p-8080--onrgsxzr.example.com") as Hhost by (vm_compute; reflexivity).
    rewrite Hhost in Hderive. injection Hderive as <-. split; [done|].
    apply (Hparse _ ":443").
    + right. exists "443". by repeat split.
    + vm_compute. reflexivity.
    + vm_compute. discriminate.
Defined.

(** The host name of the repository's own test. *)
Example derive_test_host :
  derivePortAccessHost ascii_lower "mistle.localhost" "sbi_roundtrip_001" (Int 5173)
  = inr "p-5173--onrgsx3sn52w4zduojuxaxzqgayq.mistle.localhost".
Proof. vm_compute. reflexivity. Qed.
