(* ===== verification/HealthMonitor.v ===== *)
(** * The health monitor of a websocket (tunnel/session/websocket-health-monitor.ts)

    [startWebSocketHealthMonitor] is a closure over a dozen variables that its timers
    and socket listeners share.  [Monitor] holds these variables; each timer and
    listener is a function on it.  A timer is armed while its handle is defined, so
    that a cancelled timer does not fire; the listeners are attached while the monitor
    is not stopped.  [step] is one event: the clock readings of a handler, the state of
    the socket and the outcome of a write are arguments of the event.

    What the monitor calls (its callbacks and [rawSocket.ping]) is recorded in order;
    the snapshot of the socket some callbacks carry is left out. *)

From S2P Require Import Prelude JsMap Json DataFrame Text Zod.
Local Open Scope Z_scope.

Inductive WebSocketHealthControlFrameKind : Type := FrameClose | FrameError | FramePing | FramePong.

(** ** Ping payloads *)

Definition createHealthPingPayload (pingSeq sentAtMs : Z) : list Z :=
  TextEncoder_encode (JSON_stringify (JObject
    [("type", JString "mistle.tunnel.health_ping"); ("pingSeq", JNumber (Int pingSeq));
     ("sentAtMs", JNumber (Int sentAtMs))])).

Definition parseHealthPingPayload (data : list Z) : option (number * number) :=
  match JSON_parse (Buffer_toString data) with
  | Some (JObject fields) =>
      let parsed := JObject fields in
      if negb (string_field parsed "type" =?= "mistle.tunnel.health_ping") then None
      else match field parsed "pingSeq", field parsed "sentAtMs" with
           | Some (JNumber pingSeq), Some (JNumber sentAtMs) => Some (pingSeq, sentAtMs)
           | _, _ => None
           end
  | _ => None
  end.

(** ** The variables *)

(** What is known of the last ping. *)
Record PingVars : Type := mkPingVars {
  pingSentAtMs : option Z;
  pingSeq : option Z;
  pingScheduleDelayMs : option Z;
  pingWriteCallbackAtMs : option Z;
  pingWriteDurationMs : option Z;
}.
Definition no_ping : PingVars := mkPingVars None None None None None.

Record PongVars : Type := mkPongVars {
  consecutiveMissedPongs : Z;
  lastPongAtMs : Z;
  lastPongReceivedAtMs : option Z;
  lastPongPingSeq : option number;
}.

Record FrameVars : Type := mkFrameVars {
  lastControlFrame : option WebSocketHealthControlFrameKind;
  lastControlFrameAtMs : option Z;
  lastPeerPingAtMs : option Z;
}.

Inductive HealthCall : Type :=
| CallPing (payload : list Z)
| CallPongReceived (expectedPingSeq : option Z) (lastPongAgeMs : Z) (matched : bool)
    (pingSeq : option number) (receivedAtMs : Z)
| CallRoundTripTime (roundTripTimeMs : Z)
| CallRecovered (consecutiveMissedPongs lastPongAgeMs : Z) (pingSeq : option number)
| CallPeerPing (payloadLen : nat) (receivedAtMs : Z)
| CallSocketClosed (code : Z) (observedAtMs : Z)
| CallSocketError (observedAtMs : Z)
| CallMissedPong (consecutiveMissedPongs lastPongAgeMs pingSeq pingSentAtMs pongTimeoutDriftMs : Z)
| CallUnhealthy
| CallPingWriteFailed (pingSeq callbackAtMs writeDurationMs : Z)
| CallPingWriteCompleted (pingSeq callbackAtMs writeDurationMs : Z).

Record Monitor : Type := mkMonitor {
  healthy : bool;
  stopped : bool;
  (** The handle of the ping timer, with [scheduledPingAtMs]. *)
  pingHandle : option Z;
  (** The handle of the pong timeout, with [timeoutScheduledAtMs]. *)
  pongTimeoutHandle : option Z;
  ping : PingVars;
  pong : PongVars;
  frames : FrameVars;
  nextPingSeq : Z;
  (** The writes whose callback is still to come: sequence number and time sent. *)
  pendingWrites : list (Z * Z);
  calls : list HealthCall;
}.

Definition with_health (h st : bool) (m : Monitor) : Monitor :=
  mkMonitor h st m.(pingHandle) m.(pongTimeoutHandle) m.(ping) m.(pong) m.(frames) m.(nextPingSeq)
    m.(pendingWrites) m.(calls).
Definition with_timers (p q : option Z) (m : Monitor) : Monitor :=
  mkMonitor m.(healthy) m.(stopped) p q m.(ping) m.(pong) m.(frames) m.(nextPingSeq)
    m.(pendingWrites) m.(calls).
Definition with_ping (p : PingVars) (m : Monitor) : Monitor :=
  mkMonitor m.(healthy) m.(stopped) m.(pingHandle) m.(pongTimeoutHandle) p m.(pong) m.(frames)
    m.(nextPingSeq) m.(pendingWrites) m.(calls).
Definition with_pong (p : PongVars) (m : Monitor) : Monitor :=
  mkMonitor m.(healthy) m.(stopped) m.(pingHandle) m.(pongTimeoutHandle) m.(ping) p m.(frames)
    m.(nextPingSeq) m.(pendingWrites) m.(calls).
Definition with_frames (f : FrameVars) (m : Monitor) : Monitor :=
  mkMonitor m.(healthy) m.(stopped) m.(pingHandle) m.(pongTimeoutHandle) m.(ping) m.(pong) f
    m.(nextPingSeq) m.(pendingWrites) m.(calls).
Definition with_writes (next : Z) (w : list (Z * Z)) (m : Monitor) : Monitor :=
  mkMonitor m.(healthy) m.(stopped) m.(pingHandle) m.(pongTimeoutHandle) m.(ping) m.(pong)
    m.(frames) next w m.(calls).
Definition call (c : HealthCall) (m : Monitor) : Monitor :=
  mkMonitor m.(healthy) m.(stopped) m.(pingHandle) m.(pongTimeoutHandle) m.(ping) m.(pong)
    m.(frames) m.(nextPingSeq) m.(pendingWrites) (m.(calls) ++ [c]).

Section Monitor.
Context (pingIntervalMs pongTimeoutMs maxConsecutiveMissedPongs : Z).

Definition cleanupTimers : Monitor → Monitor := with_timers None None.

Definition markUnhealthy (m : Monitor) : Monitor :=
  if m.(stopped) || negb m.(healthy) then m
  else call CallUnhealthy (cleanupTimers (with_health false m.(stopped) m)).

Definition stopForClosedSocket (m : Monitor) : Monitor :=
  if m.(stopped) then m else cleanupTimers (with_health m.(healthy) true m).

Definition scheduleNextPing (nowMs : Z) (m : Monitor) : Monitor :=
  if m.(stopped) || negb m.(healthy) then m
  else match m.(pingHandle) with
       | Some _ => m
       | None => with_timers (Some (nowMs + pingIntervalMs)) m.(pongTimeoutHandle) m
       end.

(** The parts of [onPong] for a matching pong. *)
Definition observeRoundTrip (nowMs : Z) (m : Monitor) : Monitor :=
  match m.(ping).(pingSentAtMs) with
  | None => m
  | Some sentAt =>
      with_ping (mkPingVars None m.(ping).(pingSeq) m.(ping).(pingScheduleDelayMs)
        m.(ping).(pingWriteCallbackAtMs) m.(ping).(pingWriteDurationMs))
        (call (CallRoundTripTime (nowMs - sentAt)) m)
  end.

Definition reportRecovered (nowMs : Z) (seq : option number) (m : Monitor) : Monitor :=
  if 0 <? m.(pong).(consecutiveMissedPongs) then
    call (CallRecovered m.(pong).(consecutiveMissedPongs) (nowMs - m.(pong).(lastPongAtMs)) seq) m
  else m.

Definition matchedPong (nowMs scheduleNowMs : Z) (pongPayload : option (number * number))
    (m : Monitor) : Monitor :=
  let m := observeRoundTrip nowMs m in
  let seq := match pongPayload with
             | Some (seq, _) => Some seq
             | None => Int <$> m.(ping).(pingSeq)
             end in
  let m := reportRecovered nowMs seq m in
  let m := with_pong (mkPongVars 0 nowMs (Some nowMs) seq) m in
  let m := with_ping (mkPingVars m.(ping).(pingSentAtMs) None m.(ping).(pingScheduleDelayMs)
             m.(ping).(pingWriteCallbackAtMs) m.(ping).(pingWriteDurationMs)) m in
  scheduleNextPing scheduleNowMs (with_timers m.(pingHandle) None m).

(** [onPong]; [scheduleNowMs] is the clock in [scheduleNextPing]. *)
Definition onPong (nowMs scheduleNowMs : Z) (data : list Z) (m : Monitor) : Monitor :=
  if m.(stopped) then m
  else
    let pongPayload := parseHealthPingPayload data in
    let m := with_frames (mkFrameVars (Some FramePong) (Some nowMs) m.(frames).(lastPeerPingAtMs)) m in
    let matched := match pongPayload, m.(ping).(pingSeq) with
                   | None, _ | _, None => true
                   | Some (seq, _), Some expected => seq =?= Int expected
                   end in
    let m := call (CallPongReceived m.(ping).(pingSeq) (nowMs - m.(pong).(lastPongAtMs)) matched
                     (fst <$> pongPayload) nowMs) m in
    if negb matched then m else matchedPong nowMs scheduleNowMs pongPayload m.

Definition onPing (nowMs : Z) (data : list Z) (m : Monitor) : Monitor :=
  if m.(stopped) then m
  else call (CallPeerPing (length data) nowMs)
         (with_frames (mkFrameVars (Some FramePing) (Some nowMs) (Some nowMs)) m).

Definition onClose (nowMs code : Z) (m : Monitor) : Monitor :=
  stopForClosedSocket
    (call (CallSocketClosed code nowMs)
       (with_frames (mkFrameVars (Some FrameClose) (Some nowMs) m.(frames).(lastPeerPingAtMs)) m)).

Definition onError (nowMs : Z) (m : Monitor) : Monitor :=
  if m.(stopped) then m
  else call (CallSocketError nowMs)
         (with_frames (mkFrameVars (Some FrameError) (Some nowMs) m.(frames).(lastPeerPingAtMs)) m).

(** The ping timer, scheduled for [scheduledPingAtMs], fires. *)
Definition pingTimer (scheduledPingAtMs timeoutNowMs sentNowMs : Z) (isOpen : bool) (m : Monitor)
    : Monitor :=
  let m := with_timers None m.(pongTimeoutHandle) m in
  if m.(stopped) || negb m.(healthy) then m
  else if negb isOpen then stopForClosedSocket m
  else
    let m := with_timers m.(pingHandle) (Some (timeoutNowMs + pongTimeoutMs)) m in
    let seq := m.(nextPingSeq) in
    let m := with_ping (mkPingVars (Some sentNowMs) (Some seq) (Some (sentNowMs - scheduledPingAtMs))
               None None) m in
    call (CallPing (createHealthPingPayload seq sentNowMs))
      (with_writes (seq + 1) (m.(pendingWrites) ++ [(seq, sentNowMs)]) m).

(** The pong timeout fires. *)
Definition pongTimer (timeoutScheduledAtMs nowMs sentNowMs scheduleNowMs : Z) (isOpen : bool)
    (m : Monitor) : Monitor :=
  let m := with_timers m.(pingHandle) None m in
  if negb isOpen then stopForClosedSocket m
  else
    let timedOutPingSentAtMs := default sentNowMs m.(ping).(pingSentAtMs) in
    let timedOutPingSeq := default 0 m.(ping).(pingSeq) in
    let m := with_ping no_ping m in
    let missed := m.(pong).(consecutiveMissedPongs) + 1 in
    let m := with_pong (mkPongVars missed m.(pong).(lastPongAtMs) m.(pong).(lastPongReceivedAtMs)
               m.(pong).(lastPongPingSeq)) m in
    let m := call (CallMissedPong missed (nowMs - m.(pong).(lastPongAtMs)) timedOutPingSeq
               timedOutPingSentAtMs (nowMs - timeoutScheduledAtMs)) m in
    if maxConsecutiveMissedPongs <=? missed then markUnhealthy m
    else scheduleNextPing scheduleNowMs m.

(** The callback of the write of ping [seq], sent at [sentAt]. *)
Definition pingWritten (seq sentAt callbackAtMs : Z) (failed isOpen : bool) (m : Monitor) : Monitor :=
  let writeDurationMs := callbackAtMs - sentAt in
  let m := if m.(ping).(pingSeq) =?= Some seq
           then with_ping (mkPingVars m.(ping).(pingSentAtMs) m.(ping).(pingSeq)
                  m.(ping).(pingScheduleDelayMs) (Some callbackAtMs) (Some writeDurationMs)) m
           else m in
  if failed then
    let m := call (CallPingWriteFailed seq callbackAtMs writeDurationMs) m in
    if negb isOpen then stopForClosedSocket m else markUnhealthy m
  else call (CallPingWriteCompleted seq callbackAtMs writeDurationMs) m.

Definition monitor_stop (m : Monitor) : Monitor := stopForClosedSocket m.

(** The state when the monitor starts; [None] where it throws. *)
Definition startWebSocketHealthMonitor (hasRawSocket : bool) (nowMs scheduleNowMs : Z)
    : option Monitor :=
  if negb hasRawSocket || (maxConsecutiveMissedPongs <? 1) then None
  else Some (scheduleNextPing scheduleNowMs
    (mkMonitor true false None None no_ping (mkPongVars 0 nowMs None None)
       (mkFrameVars None None None) 1 [] [])).

(** [getSnapshot()] *)
Record WebSocketHealthSnapshot : Type := mkSnapshot {
  snapshot_healthy : bool;
  snapshot_consecutiveMissedPongs : Z;
  snapshot_lastPongAgeMs : Z;
  snapshot_frames : FrameVars;
  snapshot_lastPongAtMs : option Z;
  snapshot_lastPongPingSeq : option number;
  snapshot_pingInFlight : bool;
  snapshot_pingSeq : option Z;
}.

Definition getSnapshot (nowMs : Z) (m : Monitor) : WebSocketHealthSnapshot :=
  mkSnapshot m.(healthy) m.(pong).(consecutiveMissedPongs) (nowMs - m.(pong).(lastPongAtMs)) m.(frames)
    m.(pong).(lastPongReceivedAtMs) m.(pong).(lastPongPingSeq)
    (bool_decide (is_Some m.(ping).(pingSentAtMs))) m.(ping).(pingSeq).

(** ** Events *)

Inductive event : Type :=
| EvPong (nowMs scheduleNowMs : Z) (data : list Z)
| EvPing (nowMs : Z) (data : list Z)
| EvClose (nowMs code : Z)
| EvError (nowMs : Z)
| EvPingTimer (timeoutNowMs sentNowMs : Z) (isOpen : bool)
| EvPongTimer (nowMs sentNowMs scheduleNowMs : Z) (isOpen : bool)
| EvWritten (seq sentAt callbackAtMs : Z) (failed isOpen : bool)
| EvStop.

(** What may happen next: timers that are armed, listeners that are attached, the
    callback of a pending write. *)
Inductive step (m : Monitor) : event → Monitor → Prop :=
| step_pong nowMs scheduleNowMs data :
    m.(stopped) = false → step m (EvPong nowMs scheduleNowMs data) (onPong nowMs scheduleNowMs data m)
| step_ping nowMs data : m.(stopped) = false → step m (EvPing nowMs data) (onPing nowMs data m)
| step_close nowMs code : m.(stopped) = false → step m (EvClose nowMs code) (onClose nowMs code m)
| step_error nowMs : m.(stopped) = false → step m (EvError nowMs) (onError nowMs m)
| step_ping_timer at_ timeoutNowMs sentNowMs isOpen :
    m.(pingHandle) = Some at_ →
    step m (EvPingTimer timeoutNowMs sentNowMs isOpen) (pingTimer at_ timeoutNowMs sentNowMs isOpen m)
| step_pong_timer at_ nowMs sentNowMs scheduleNowMs isOpen :
    m.(pongTimeoutHandle) = Some at_ →
    step m (EvPongTimer nowMs sentNowMs scheduleNowMs isOpen)
      (pongTimer at_ nowMs sentNowMs scheduleNowMs isOpen m)
| step_written seq sentAt callbackAtMs failed isOpen before after :
    m.(pendingWrites) = before ++ (seq, sentAt) :: after →
    step m (EvWritten seq sentAt callbackAtMs failed isOpen)
      (pingWritten seq sentAt callbackAtMs failed isOpen
         (with_writes m.(nextPingSeq) (before ++ after) m))
| step_stop : step m EvStop (monitor_stop m).

Inductive steps (m : Monitor) : list event → Monitor → Prop :=
| steps_nil : steps m [] m
| steps_cons e m1 es m2 : step m e m1 → steps m1 es m2 → steps m (e :: es) m2.
End Monitor.

(** ** Theorems *)

Definition running (m : Monitor) : bool := m.(healthy) && negb m.(stopped).

(** The pings sent and the calls of [onUnhealthy] among the calls. *)
Definition ping_calls (l : list HealthCall) : list (list Z) :=
  omap (λ c, match c with CallPing payload => Some payload | _ => None end) l.
Definition unhealthy_calls (l : list HealthCall) : nat :=
  length (List.filter (λ c, match c with CallUnhealthy => true | _ => false end) l).

(** The pings with sequence numbers from 1. *)
Definition pings_numbered (l : list (list Z)) (next : Z) : Prop :=
  ∃ times, l = imap (λ i sentAt, createHealthPingPayload (Z.of_nat i + 1) sentAt) times
           ∧ next = Z.of_nat (length times) + 1.

Section Theory.
Context (pingIntervalMs pongTimeoutMs maxMissed : Z).
Notation step := (step pingIntervalMs pongTimeoutMs maxMissed).
Notation steps := (steps pingIntervalMs pongTimeoutMs maxMissed).

Record monitor_ok (m : Monitor) : Prop := mkOk {
  (** While the monitor runs exactly one timer is armed, otherwise none. *)
  ok_timers :
    if running m then (is_Some m.(pingHandle) ∧ m.(pongTimeoutHandle) = None)
                      ∨ (m.(pingHandle) = None ∧ is_Some m.(pongTimeoutHandle))
    else m.(pingHandle) = None ∧ m.(pongTimeoutHandle) = None;
  (** It is waiting for a pong while the timeout is armed. *)
  ok_flight :
    running m = true →
    (is_Some m.(ping).(pingSeq) ↔ is_Some m.(pongTimeoutHandle)) ∧
    (is_Some m.(ping).(pingSentAtMs) ↔ is_Some m.(pongTimeoutHandle));
  ok_missed :
    0 <= m.(pong).(consecutiveMissedPongs) ∧
    (running m = true → m.(pong).(consecutiveMissedPongs) < maxMissed);
  ok_unhealthy : unhealthy_calls m.(calls) = if m.(healthy) then 0%nat else 1%nat;
  ok_pings : pings_numbered (ping_calls m.(calls)) m.(nextPingSeq);
}.

Lemma ping_calls_app a b : ping_calls (a ++ b) = ping_calls a ++ ping_calls b.
Proof. apply omap_app. Qed.

Lemma unhealthy_calls_app a b : unhealthy_calls (a ++ b) = (unhealthy_calls a + unhealthy_calls b)%nat.
Proof. unfold unhealthy_calls. by rewrite List.filter_app, length_app. Qed.

Lemma pings_numbered_snoc l next sentAt :
  pings_numbered l next → pings_numbered (l ++ [createHealthPingPayload next sentAt]) (next + 1).
Proof.
  intros (times & -> & ->). exists (times ++ [sentAt]). split.
  - rewrite imap_app. cbn. by rewrite Nat.add_0_r.
  - rewrite length_app. cbn. lia.
Qed.

(** A change of the variables that keeps what [monitor_ok] reads. *)
Lemma call_ok c m :
  (∀ payload, c ≠ CallPing payload) → c ≠ CallUnhealthy → monitor_ok m → monitor_ok (call c m).
Proof.
  intros Hping Hun [Ht Hf Hm Hu Hp]. split; try done; cbn -[unhealthy_calls ping_calls].
  - rewrite unhealthy_calls_app, Hu. destruct c; cbn; try lia; done.
  - rewrite ping_calls_app. replace (ping_calls [c]) with (@nil (list Z)); [by rewrite app_nil_r|].
    destruct c; try done. by destruct (Hping payload).
Qed.

Lemma frames_ok f m : monitor_ok m → monitor_ok (with_frames f m).
Proof. by intros [Ht Hf Hm Hu Hp]. Qed.

Lemma writes_ok w m : monitor_ok m → monitor_ok (with_writes m.(nextPingSeq) w m).
Proof. by intros [Ht Hf Hm Hu Hp]. Qed.

(** Stopping and giving up clear the timers. *)
Lemma stop_ok m :
  (m.(stopped) = true → m.(pingHandle) = None ∧ m.(pongTimeoutHandle) = None) →
  0 <= m.(pong).(consecutiveMissedPongs) →
  unhealthy_calls m.(calls) = (if m.(healthy) then 0%nat else 1%nat) →
  pings_numbered (ping_calls m.(calls)) m.(nextPingSeq) →
  monitor_ok (stopForClosedSocket m).
Proof.
  intros Ht Hm Hu Hp. unfold stopForClosedSocket. destruct (stopped m) eqn:Hs.
  - split; try done; unfold running; rewrite Hs, andb_false_r; [by apply Ht|done|by split].
  - split; cbn -[unhealthy_calls ping_calls]; unfold running; cbn -[unhealthy_calls ping_calls]; try done; rewrite andb_false_r; [done|done|by split].
Qed.

Lemma unhealthy_ok m :
  running m = true → 0 <= m.(pong).(consecutiveMissedPongs) →
  unhealthy_calls m.(calls) = 0%nat → pings_numbered (ping_calls m.(calls)) m.(nextPingSeq) →
  monitor_ok (markUnhealthy m).
Proof.
  unfold running. intros [Hh Hs]%andb_true_iff Hm Hu Hp. apply negb_true_iff in Hs.
  unfold markUnhealthy. rewrite Hh, Hs. cbn [orb negb]. split; cbn -[unhealthy_calls ping_calls]; unfold running; cbn -[unhealthy_calls ping_calls]; try done.
  - by rewrite unhealthy_calls_app, Hu.
  - by rewrite ping_calls_app, app_nil_r.
Qed.

Lemma not_running_unhealthy m : running m = false → markUnhealthy m = m.
Proof.
  unfold running, markUnhealthy. intros Hr. destruct (healthy m), (stopped m); done.
Qed.

(** Arming the ping timer of a running monitor without timers. *)
Lemma schedule_ok now m :
  running m = true → m.(pongTimeoutHandle) = None →
  m.(ping).(pingSeq) = None → m.(ping).(pingSentAtMs) = None →
  0 <= m.(pong).(consecutiveMissedPongs) < maxMissed →
  unhealthy_calls m.(calls) = 0%nat → pings_numbered (ping_calls m.(calls)) m.(nextPingSeq) →
  monitor_ok (scheduleNextPing pingIntervalMs now m).
Proof.
  intros Hr Hpong Hseq Hsent Hm Hu Hp. unfold scheduleNextPing.
  pose proof Hr as Hr'. unfold running in Hr'. apply andb_true_iff in Hr' as [Hh Hs].
  apply negb_true_iff in Hs. rewrite Hh, Hs. cbn [orb negb].
  destruct (pingHandle m) as [at_|] eqn:Hping; split; cbn -[unhealthy_calls ping_calls]; rewrite ?Hh; try done.
  - rewrite Hr, Hping. left. by split; [eexists|].
  - intros _. rewrite Hseq, Hsent, Hpong. done.
  - split; [lia|]. intros. lia.
  - replace (running _) with (running m) by done. rewrite Hr. left. by split; [eexists|].
  - intros _. rewrite Hseq, Hsent, Hpong. done.
  - split; [lia|]. intros. lia.
Qed.
Ltac recorded_calls :=
  repeat (rewrite unhealthy_calls_app || rewrite ping_calls_app);
  cbn [unhealthy_calls ping_calls omap list_omap List.filter length];
  rewrite ?Nat.add_0_r, ?app_nil_r.

(** [m'] differs from [m] in what [monitor_ok] does not depend on, once stopped or
    given up. *)
Lemma not_running_ok m m' :
  running m = false → running m' = false → monitor_ok m →
  m'.(pingHandle) = None → m'.(pongTimeoutHandle) = None →
  0 <= m'.(pong).(consecutiveMissedPongs) → m'.(healthy) = m.(healthy) →
  unhealthy_calls m'.(calls) = unhealthy_calls m.(calls) →
  ping_calls m'.(calls) = ping_calls m.(calls) → m'.(nextPingSeq) = m.(nextPingSeq) →
  monitor_ok m'.
Proof.
  intros Hr Hr' [Ht Hf Hm Hu Hp] H1 H2 H3 H4 H5 H6 H7. split; rewrite ?Hr'; try done.
  - by rewrite H4, H5.
  - by rewrite H6, H7.
Qed.

Lemma scheduleNextPing_stopped now m :
  running m = false → scheduleNextPing pingIntervalMs now m = m.
Proof. unfold running, scheduleNextPing. by destruct (healthy m), (stopped m). Qed.

(** What a matching pong leaves behind. *)
Definition round_trip_calls (now : Z) (m : Monitor) : list HealthCall :=
  match m.(ping).(pingSentAtMs) with Some sentAt => [CallRoundTripTime (now - sentAt)] | None => [] end.
Definition recovered_calls (now : Z) (seq : option number) (m : Monitor) : list HealthCall :=
  if 0 <? m.(pong).(consecutiveMissedPongs) then
    [CallRecovered m.(pong).(consecutiveMissedPongs) (now - m.(pong).(lastPongAtMs)) seq] else [].
Definition pong_calls (now : Z) (seq : option number) (m : Monitor) : list HealthCall :=
  round_trip_calls now m ++ recovered_calls now seq m.

Lemma observeRoundTrip_eq now m :
  observeRoundTrip now m
  = mkMonitor m.(healthy) m.(stopped) m.(pingHandle) m.(pongTimeoutHandle)
      (mkPingVars None m.(ping).(pingSeq) m.(ping).(pingScheduleDelayMs)
         m.(ping).(pingWriteCallbackAtMs) m.(ping).(pingWriteDurationMs))
      m.(pong) m.(frames) m.(nextPingSeq) m.(pendingWrites) (m.(calls) ++ round_trip_calls now m).
Proof.
  unfold observeRoundTrip, round_trip_calls. destruct m as [h st ph qh [[sentAt|] seq d w1 w2] p f n w c];
    [done|]. cbn. by rewrite app_nil_r.
Qed.

Lemma reportRecovered_eq now seq m :
  reportRecovered now seq m
  = mkMonitor m.(healthy) m.(stopped) m.(pingHandle) m.(pongTimeoutHandle) m.(ping) m.(pong)
      m.(frames) m.(nextPingSeq) m.(pendingWrites) (m.(calls) ++ recovered_calls now seq m).
Proof.
  unfold reportRecovered, recovered_calls. destruct (0 <? _); [done|]. rewrite app_nil_r. by destruct m.
Qed.

Lemma matchedPong_eq now schedule payload m :
  matchedPong pingIntervalMs now schedule payload m
  = let seq := match payload with Some (seq, _) => Some seq | None => Int <$> m.(ping).(pingSeq) end in
    scheduleNextPing pingIntervalMs schedule
      (mkMonitor m.(healthy) m.(stopped) m.(pingHandle) None
         (mkPingVars None None m.(ping).(pingScheduleDelayMs) m.(ping).(pingWriteCallbackAtMs)
            m.(ping).(pingWriteDurationMs))
         (mkPongVars 0 now (Some now) seq) m.(frames) m.(nextPingSeq) m.(pendingWrites)
         (m.(calls) ++ pong_calls now seq m)).
Proof.
  unfold matchedPong, pong_calls. rewrite observeRoundTrip_eq, reportRecovered_eq.
  unfold with_timers, with_ping, with_pong. cbn -[scheduleNextPing]. by rewrite <- app_assoc.
Qed.

Lemma pong_calls_quiet now seq m :
  ping_calls (pong_calls now seq m) = [] ∧ unhealthy_calls (pong_calls now seq m) = 0%nat.
Proof.
  unfold pong_calls, round_trip_calls, recovered_calls. by destruct (pingSentAtMs _), (0 <? _).
Qed.

Lemma matchedPong_ok now schedule payload m :
  0 < maxMissed → monitor_ok m → monitor_ok (matchedPong pingIntervalMs now schedule payload m).
Proof.
  intros Hmax Hok. rewrite matchedPong_eq. cbv zeta.
  generalize (match payload with Some (seq, _) => Some seq | None => Int <$> m.(ping).(pingSeq) end) as seq.
  intros seq.
  destruct (pong_calls_quiet now seq m) as [Hping Hun]. pose proof Hok as [Ht Hf [Hm _] Hu Hp].
  destruct (running m) eqn:Hr.
  - apply schedule_ok; try done; cbn -[unhealthy_calls ping_calls].
    + rewrite unhealthy_calls_app, Hun, Hu. unfold running in Hr. by apply andb_true_iff in Hr as [-> _].
    + by rewrite ping_calls_app, Hping, app_nil_r.
  - rewrite scheduleNextPing_stopped by done.
    apply (not_running_ok m); try done; cbn -[unhealthy_calls ping_calls].
    + by apply Ht.
    + by rewrite unhealthy_calls_app, Hun, Nat.add_0_r.
    + by rewrite ping_calls_app, Hping, app_nil_r.
Qed.

Lemma onPong_ok now schedule data m :
  0 < maxMissed → monitor_ok m → monitor_ok (onPong pingIntervalMs now schedule data m).
Proof.
  intros Hmax Hok. unfold onPong. destruct (stopped m); [done|]. cbv zeta.
  destruct (negb _); [|apply matchedPong_ok; [done|]]; (apply call_ok; [done|done|]; by apply frames_ok).
Qed.

Lemma ok_not_stopped m : monitor_ok m → is_Some m.(pingHandle) ∨ is_Some m.(pongTimeoutHandle) → running m = true.
Proof.
  intros [Ht _ _ _ _] Hsome. destruct (running m); [done|]. destruct Ht as [H1 H2].
  rewrite H1, H2 in Hsome. by destruct Hsome as [[]|[]].
Qed.

Lemma stopForClosedSocket_ok m : monitor_ok m → monitor_ok (stopForClosedSocket m).
Proof.
  intros [Ht Hf [Hm _] Hu Hp]. apply stop_ok; try done. intros Hs. unfold running in Ht.
  by rewrite Hs, andb_false_r in Ht.
Qed.

Lemma pingTimer_ok at_ timeoutNow sentNow isOpen m :
  m.(pingHandle) = Some at_ → monitor_ok m →
  monitor_ok (pingTimer pongTimeoutMs at_ timeoutNow sentNow isOpen m).
Proof.
  intros Hat Hok. assert (running m = true) as Hr by (apply ok_not_stopped; [done|left; by eexists]).
  destruct Hok as [Ht Hf [Hm Hlt] Hu Hp]. rewrite Hr in Ht. destruct Ht as [[_ Hpong]|[Hnone _]];
    [|by rewrite Hat in Hnone].
  unfold pingTimer. cbv zeta. cbn [stopped healthy with_timers].
  pose proof Hr as Hr'. unfold running in Hr'. apply andb_true_iff in Hr' as [Hh Hs].
  apply negb_true_iff in Hs. rewrite Hh, Hs. cbn [orb negb]. destruct isOpen; cbn [negb].
  - split; cbn -[unhealthy_calls ping_calls createHealthPingPayload].
    + replace (running _) with (running m) by done. rewrite Hr. right. by split; [|eexists].
    + intros _. repeat split; by eexists.
    + by split.
    + by recorded_calls.
    + recorded_calls. by apply pings_numbered_snoc.
  - by apply stop_ok.
Qed.

Lemma pongTimer_ok at_ now sentNow schedule isOpen m :
  m.(pongTimeoutHandle) = Some at_ → monitor_ok m →
  monitor_ok (pongTimer pingIntervalMs maxMissed at_ now sentNow schedule isOpen m).
Proof.
  intros Hat Hok. assert (running m = true) as Hr by (apply ok_not_stopped; [done|right; by eexists]).
  destruct Hok as [Ht Hf [Hm Hlt] Hu Hp]. rewrite Hr in Ht. destruct Ht as [[_ Hnone]|[Hping _]];
    [by rewrite Hat in Hnone|].
  pose proof Hr as Hr'. unfold running in Hr'. apply andb_true_iff in Hr' as [Hh Hs].
  apply negb_true_iff in Hs. rewrite Hh in Hu. unfold pongTimer. cbv zeta. destruct isOpen; cbn [negb].
  - destruct (maxMissed <=? _) eqn:Hlast; [apply unhealthy_ok|apply schedule_ok]; try done;
      cbn -[unhealthy_calls ping_calls] in *; try (by recorded_calls); bools; lia.
  - apply stop_ok; cbn; by rewrite ?Hh.
Qed.

Lemma pingWritten_ok seq sentAt callbackAt failed isOpen m :
  monitor_ok m → monitor_ok (pingWritten seq sentAt callbackAt failed isOpen m).
Proof.
  intros Hok. unfold pingWritten. cbv zeta.
  set (m1 := if _ =?= _ then _ else m).
  assert (monitor_ok m1) as Hok1.
  { unfold m1. case_bool_decide; [|done]. destruct Hok as [Ht Hf Hm Hu Hp]. by split. }
  destruct failed; [|by apply call_ok].
  assert (monitor_ok (call (CallPingWriteFailed seq callbackAt (callbackAt - sentAt)) m1)) as Hok2
    by by apply call_ok.
  destruct (negb isOpen); [by apply stopForClosedSocket_ok|].
  revert Hok2. generalize (call (CallPingWriteFailed seq callbackAt (callbackAt - sentAt)) m1) as m2.
  intros m2 Hok2. destruct (running m2) eqn:Hr; [|by rewrite not_running_unhealthy].
  destruct Hok2 as [Ht Hf [Hm Hlt] Hu Hp]. apply unhealthy_ok; try done.
  rewrite Hu. unfold running in Hr. by apply andb_true_iff in Hr as [-> _].
Qed.

Lemma step_ok m e m' : 0 < maxMissed → monitor_ok m → step m e m' → monitor_ok m'.
Proof.
  intros Hmax Hok Hstep. destruct Hstep.
  - by apply onPong_ok.
  - unfold onPing. destruct (stopped m); [done|]. apply call_ok; [done|done|]. by apply frames_ok.
  - apply stopForClosedSocket_ok, call_ok; [done|done|]. by apply frames_ok.
  - unfold onError. destruct (stopped m); [done|]. apply call_ok; [done|done|]. by apply frames_ok.
  - by apply pingTimer_ok.
  - by apply pongTimer_ok.
  - apply pingWritten_ok. by apply writes_ok.
  - by apply stopForClosedSocket_ok.
Qed.

Lemma steps_ok m es m' : 0 < maxMissed → monitor_ok m → steps m es m' → monitor_ok m'.
Proof. intros Hmax Hok Hsteps. induction Hsteps; eauto using step_ok. Qed.

Lemma start_ok raw now schedule m :
  startWebSocketHealthMonitor pingIntervalMs maxMissed raw now schedule = Some m →
  0 < maxMissed ∧ monitor_ok m ∧ running m = true ∧ m.(pong).(consecutiveMissedPongs) = 0
  ∧ m.(pingHandle) = Some (schedule + pingIntervalMs).
Proof.
  unfold startWebSocketHealthMonitor. destruct (negb raw || _) eqn:Hb; [done|]. intros [= <-]. bools.
  split; [lia|]. split; [|done]. apply schedule_ok; try done; cbn; [lia|]. by exists [].
Qed.

(** Once the monitor does not run, it stays so and nothing is sent or reported. *)
Lemma not_running_step m e m' :
  monitor_ok m → running m = false → step m e m' →
  running m' = false ∧ ping_calls m'.(calls) = ping_calls m.(calls)
  ∧ unhealthy_calls m'.(calls) = unhealthy_calls m.(calls) ∧ m'.(healthy) = m.(healthy).
Proof.
  intros [Ht _ _ _ _] Hr Hstep. rewrite Hr in Ht. destruct Ht as [Hping Hpong].
  assert (∀ m0, running m0 = false → running (stopForClosedSocket m0) = false
    ∧ (stopForClosedSocket m0).(calls) = m0.(calls) ∧ (stopForClosedSocket m0).(healthy) = m0.(healthy))
    as Hstop.
  { intros m0 Hr0. unfold stopForClosedSocket. destruct (stopped m0); [done|]. unfold running. cbn.
    by rewrite andb_false_r. }
  destruct Hstep; try (by rewrite ?Hping, ?Hpong in * ).
  - unfold onPong. destruct (stopped m) eqn:Hs; [done|]. cbv zeta. set (m1 := call _ _).
    assert (running m1 = false ∧ ping_calls m1.(calls) = ping_calls m.(calls)
      ∧ unhealthy_calls m1.(calls) = unhealthy_calls m.(calls) ∧ m1.(healthy) = m.(healthy))
      as (Hr1 & Hp1 & Hu1 & Hh1).
    { split; [done|]. cbn -[ping_calls unhealthy_calls]. by recorded_calls. }
    destruct (negb _); [done|]. rewrite matchedPong_eq. cbv zeta.
    destruct (pong_calls_quiet nowMs (match parseHealthPingPayload data with
      | Some (seq, _) => Some seq | None => Int <$> m1.(ping).(pingSeq) end) m1) as [Hpc Huc].
    rewrite scheduleNextPing_stopped by done. split; [done|]. cbn [calls healthy].
    rewrite unhealthy_calls_app, ping_calls_app, Hpc, Huc, app_nil_r, Nat.add_0_r. done.
  - unfold onPing. destruct (stopped m) eqn:Hs; [done|]. split; [by unfold running in *; cbn; rewrite Hs in *|].
    cbn -[ping_calls unhealthy_calls]. by recorded_calls.
  - unfold onClose. set (m1 := call _ _).
    destruct (Hstop m1 Hr) as (Hr1 & -> & ->). split; [done|]. cbn -[ping_calls unhealthy_calls].
    by recorded_calls.
  - unfold onError. destruct (stopped m) eqn:Hs; [done|]. split; [by unfold running in *; cbn; rewrite Hs in *|].
    cbn -[ping_calls unhealthy_calls]. by recorded_calls.
  - unfold pingWritten. cbv zeta. cbn [ping with_writes].
    set (m1 := if _ =?= _ then _ else _).
    assert (running m1 = false ∧ m1.(calls) = m.(calls) ∧ m1.(healthy) = m.(healthy)) as (Hr1 & Hc1 & Hh1)
      by (unfold m1; by case_bool_decide).
    destruct failed.
    + set (m2 := call _ m1). assert (running m2 = false) as Hr2 by done.
      assert (ping_calls m2.(calls) = ping_calls m.(calls) ∧
        unhealthy_calls m2.(calls) = unhealthy_calls m.(calls)) as [Hp2 Hu2].
      { unfold m2. cbn [calls call]. rewrite Hc1. by recorded_calls. }
      destruct (negb isOpen).
      * destruct (Hstop m2 Hr2) as (Hr3 & -> & ->). done.
      * by rewrite not_running_unhealthy.
    + split; [done|]. cbn [calls call healthy]. rewrite Hc1. by recorded_calls.
  - unfold monitor_stop. destruct (Hstop m Hr) as (Hr1 & -> & ->). done.
Qed.

(** C35: in every history of a monitor, exactly one of its two timers is armed while it runs and
    none afterwards; it waits for a pong exactly while the timeout is armed; it misses
    less pongs in a row than allowed; it reports the socket once, when it gives up;
    its pings are numbered from 1; and once stopped or given up it sends and reports
    nothing any more. *)
Theorem monitor_history (raw : bool) (now schedule : Z) (m0 m m' : Monitor) (es es' : list event) :
  startWebSocketHealthMonitor pingIntervalMs maxMissed raw now schedule = Some m0 →
  steps m0 es m → steps m es' m' →
  (if running m then (is_Some m.(pingHandle) ∧ m.(pongTimeoutHandle) = None)
                     ∨ (m.(pingHandle) = None ∧ is_Some m.(pongTimeoutHandle))
   else m.(pingHandle) = None ∧ m.(pongTimeoutHandle) = None) ∧
  (running m = true →
   (is_Some m.(ping).(pingSeq) ↔ is_Some m.(pongTimeoutHandle)) ∧
   m.(pong).(consecutiveMissedPongs) < maxMissed) ∧
  unhealthy_calls m.(calls) = (if m.(healthy) then 0%nat else 1%nat) ∧
  pings_numbered (ping_calls m.(calls)) m.(nextPingSeq) ∧
  (running m = false →
   running m' = false ∧ ping_calls m'.(calls) = ping_calls m.(calls) ∧
   unhealthy_calls m'.(calls) = unhealthy_calls m.(calls)).
Proof.
  intros Hstart Hsteps Hsteps'. destruct (start_ok _ _ _ _ Hstart) as (Hmax & Hok0 & _).
  pose proof (steps_ok _ _ _ Hmax Hok0 Hsteps) as Hok. pose proof Hok as [Ht Hf [_ Hm] Hu Hp].
  split_and!; try done.
  - intros Hr. split; [by apply Hf|by apply Hm].
  - clear Hsteps Ht Hf Hm Hu Hp. intros Hr. induction Hsteps' as [m|m e m1 es' m2 Hstep _ IH]; [done|].
    destruct (not_running_step _ _ _ Hok Hr Hstep) as (Hr1 & Hp1 & Hu1 & _).
    destruct (IH (step_ok _ _ _ Hmax Hok Hstep) Hr1) as (-> & -> & ->). done.
Qed.
(** *** A silent peer *)

(** The peer answers nothing while the socket stays open. *)
Definition silent (e : event) : bool :=
  match e with
  | EvPong _ _ _ | EvClose _ _ | EvStop => false
  | EvPingTimer _ _ isOpen | EvPongTimer _ _ _ isOpen => isOpen
  | EvWritten _ _ _ failed _ => negb failed
  | EvPing _ _ | EvError _ => true
  end.

Definition ping_firings (es : list event) : Z :=
  Z.of_nat (length (List.filter (λ e, match e with EvPingTimer _ _ _ => true | _ => false end) es)).
Definition pong_firings (es : list event) : Z :=
  Z.of_nat (length (List.filter (λ e, match e with EvPongTimer _ _ _ _ => true | _ => false end) es)).

Definition in_flight (m : Monitor) : Z := if m.(pongTimeoutHandle) then 1 else 0.

Lemma silent_not_running m es m' :
  0 < maxMissed → monitor_ok m → running m = false → steps m es m' →
  running m' = false ∧ m'.(healthy) = m.(healthy) ∧ ping_firings es = 0 ∧ pong_firings es = 0.
Proof.
  intros Hmax Hok Hr Hsteps. induction Hsteps as [m|m e m1 es m2 Hstep _ IH]; [done|].
  destruct (not_running_step _ _ _ Hok Hr Hstep) as (Hr1 & _ & _ & Hh1).
  destruct (IH (step_ok _ _ _ Hmax Hok Hstep) Hr1) as (Hr2 & Hh2 & Hping & Hpong).
  pose proof (ok_timers _ Hok) as Ht. rewrite Hr in Ht. destruct Ht as [H1 H2].
  rewrite Hh2, Hh1. destruct Hstep; try done; congruence.
Qed.

(** One event of a silent peer to a running monitor. *)
Lemma silent_step m e m' :
  monitor_ok m → running m = true → silent e = true → step m e m' →
  (running m' = true ∧
   m'.(pong).(consecutiveMissedPongs) = m.(pong).(consecutiveMissedPongs) + pong_firings [e]
   ∧ ping_firings [e] + in_flight m = pong_firings [e] + in_flight m') ∨
  (running m' = false ∧ m'.(healthy) = false ∧ ping_firings [e] = 0 ∧ pong_firings [e] = 1
   ∧ in_flight m = 1 ∧ m.(pong).(consecutiveMissedPongs) + 1 = maxMissed).
Proof.
  intros Hok Hr He Hstep. pose proof Hok as [Ht _ [_ Hmissed] _ _]. rewrite Hr in Ht.
  pose proof Hr as Hr'. unfold running in Hr'. apply andb_true_iff in Hr' as [Hh Hs].
  apply negb_true_iff in Hs. specialize (Hmissed Hr).
  destruct Hstep as [| | | |at_ timeoutNow sentNow isOpen Hat|at_ now sentNow schedule isOpen Hat
    |seq sentAt callbackAt failed isOpen before after Hpending|]; try done.
  - left. unfold onPing. rewrite Hs. unfold ping_firings, pong_firings, running, in_flight. cbn. rewrite Hh, Hs. repeat split; lia.
  - left. unfold onError. rewrite Hs. unfold ping_firings, pong_firings, running, in_flight. cbn. rewrite Hh, Hs. repeat split; lia.
  - left. cbn in He. subst isOpen. destruct Ht as [[_ Hpong]|[Hnone _]]; [|congruence].
    unfold pingTimer. cbn [stopped healthy with_timers]. rewrite Hh, Hs. cbn [orb negb].
    unfold ping_firings, pong_firings, running, in_flight. cbn. rewrite Hh, Hs, Hpong. repeat split; lia.
  - cbn in He. subst isOpen. destruct Ht as [[_ Hnone]|[Hping _]]; [congruence|].
    unfold pongTimer. cbn [negb]. destruct (maxMissed <=? _) eqn:Hlast; bools.
    + right. unfold markUnhealthy. cbn in *. rewrite Hh, Hs. unfold ping_firings, pong_firings, running, in_flight. cbn.
      rewrite Hat. repeat split; lia.
    + left. unfold scheduleNextPing. cbn in *. rewrite Hh, Hs, Hping. unfold ping_firings, pong_firings, running, in_flight. cbn.
      rewrite Hh, Hs, Hat. repeat split; lia.
  - left. cbn in He. apply negb_true_iff in He as ->. unfold pingWritten. cbv zeta.
    unfold ping_firings, pong_firings, running, in_flight. destruct (_ =?= _); cbn; rewrite Hh, Hs; repeat split; lia.
Qed.

Lemma firings_cons e es :
  ping_firings (e :: es) = ping_firings [e] + ping_firings es
  ∧ pong_firings (e :: es) = pong_firings [e] + pong_firings es.
Proof. unfold ping_firings, pong_firings. destruct e; cbn; lia. Qed.

Lemma silent_run m es m' :
  0 < maxMissed → monitor_ok m → running m = true → Forall (λ e, silent e = true) es →
  steps m es m' →
  (running m' = true ∧
   m'.(pong).(consecutiveMissedPongs) = m.(pong).(consecutiveMissedPongs) + pong_firings es
   ∧ ping_firings es + in_flight m = pong_firings es + in_flight m') ∨
  (running m' = false ∧ m'.(healthy) = false
   ∧ m.(pong).(consecutiveMissedPongs) + pong_firings es = maxMissed
   ∧ ping_firings es + in_flight m = pong_firings es).
Proof.
  intros Hmax Hok Hr Hsilent Hsteps. revert Hok Hr Hsilent.
  induction Hsteps as [m|m e m1 es m2 Hstep Hrest IH]; intros Hok Hr Hsilent.
  - left. unfold ping_firings, pong_firings. cbn. repeat split; [done|lia].
  - apply Forall_cons in Hsilent as [He Hes]. destruct (firings_cons e es) as [-> ->].
    pose proof (step_ok _ _ _ Hmax Hok Hstep) as Hok1.
    destruct (silent_step _ _ _ Hok Hr He Hstep) as [(Hr1 & Hm1 & Hb1)|(Hr1 & Hh1 & Hp1 & Hq1 & Hf & Hm1)].
    + destruct (IH Hok1 Hr1 Hes) as [(Hr2 & Hm2 & Hb2)|(Hr2 & Hh2 & Hm2 & Hb2)]; [left|right];
        repeat split; try done; lia.
    + right. destruct (silent_not_running _ _ _ Hmax Hok1 Hr1 Hrest) as (Hr2 & Hh2 & Hp2 & Hq2).
      rewrite Hh2. repeat split; try done; lia.
Qed.

(** C36: a peer that answers nothing is found out: from the start, the timers fire at most twice per
    allowed pong, and the monitor gives up with exactly the last of them; until then
    one of its timers is armed. *)
Theorem silent_peer_detected (raw : bool) (now schedule : Z) (m0 m : Monitor) (es : list event) :
  startWebSocketHealthMonitor pingIntervalMs maxMissed raw now schedule = Some m0 →
  Forall (λ e, silent e = true) es → steps m0 es m →
  ping_firings es + pong_firings es <= 2 * maxMissed ∧
  (m.(healthy) = true ↔ pong_firings es < maxMissed) ∧
  (m.(healthy) = false ↔ ping_firings es + pong_firings es = 2 * maxMissed) ∧
  (m.(healthy) = true → m.(pong).(consecutiveMissedPongs) = pong_firings es ∧
     (is_Some m.(pingHandle) ∨ is_Some m.(pongTimeoutHandle))).
Proof.
  intros Hstart Hsilent Hsteps. destruct (start_ok _ _ _ _ Hstart) as (Hmax & Hok & Hr & Hmissed & Hping).
  pose proof (ok_timers _ Hok) as Ht. rewrite Hr in Ht.
  assert (in_flight m0 = 0) as Hflight
    by (unfold in_flight; destruct Ht as [[_ ->]|[Hnone _]]; [done|congruence]).
  pose proof (steps_ok _ _ _ Hmax Hok Hsteps) as Hokm.
  destruct (silent_run _ _ _ Hmax Hok Hr Hsilent Hsteps) as [(Hrm & Hm & Hb)|(Hrm & Hh & Hm & Hb)];
    rewrite Hmissed, Hflight in *.
  - pose proof (proj2 (ok_missed _ Hokm) Hrm) as Hlt. pose proof (ok_timers _ Hokm) as Htm.
    rewrite Hrm in Htm. assert (m.(healthy) = true) as Hh by (unfold running in Hrm; by apply andb_true_iff in Hrm as [-> _]).
    rewrite Hh. assert (in_flight m <= 1) by (unfold in_flight; destruct (pongTimeoutHandle m); lia).
    split; [lia|]. split; [split; [lia|done]|]. split; [split; [done|lia]|].
    intros _. split; [lia|]. destruct Htm as [[? _]|[_ ?]]; auto.
  - rewrite Hh. split; [lia|]. split; [split; [done|lia]|]. split; [split; [lia|done]|done].
Qed.

(** *** Pongs *)

Lemma ping_payload_roundtrip seq sentAt :
  - MAX_SAFE_INTEGER <= seq <= MAX_SAFE_INTEGER → - MAX_SAFE_INTEGER <= sentAt <= MAX_SAFE_INTEGER →
  parseHealthPingPayload (createHealthPingPayload seq sentAt) = Some (Int seq, Int sentAt).
Proof.
  intros Hseq Hsent. unfold parseHealthPingPayload, createHealthPingPayload.
  set (v := JObject _). assert (well_formed (JSON_stringify v)) as Hwf.
  { apply well_formed_JSON. unfold v. cbn [json_well_formed fst snd].
    repeat match goal with |- _ ∧ _ => split | |- True => done end; by apply well_formed_ascii. }
  rewrite TextEncoder_well_formed, Buffer_toString_well_formed by done.
  rewrite JSON_roundtrip; [done|]. unfold v. split; [|done].
  apply (bool_decide_unpack _). by vm_compute.
Qed.

(** A pong that carries the payload of the ping in flight forgets the missed pongs and arms
    the next ping; one that carries the payload of any other ping changes neither the
    timers nor the missed pongs. *)
Theorem pong_answers_ping (m : Monitor) (seq seq' sentAt now schedule at_ : Z) :
  running m = true → m.(ping).(pingSeq) = Some seq → m.(pingHandle) = None →
  m.(pongTimeoutHandle) = Some at_ →
  - MAX_SAFE_INTEGER <= seq' <= MAX_SAFE_INTEGER → - MAX_SAFE_INTEGER <= sentAt <= MAX_SAFE_INTEGER →
  let m' := onPong pingIntervalMs now schedule (createHealthPingPayload seq' sentAt) m in
  running m' = true ∧
  (if decide (seq' = seq) then
     m'.(pong).(consecutiveMissedPongs) = 0 ∧ m'.(pong).(lastPongAtMs) = now ∧
     m'.(pingHandle) = Some (schedule + pingIntervalMs) ∧ m'.(pongTimeoutHandle) = None ∧
     m'.(ping).(pingSeq) = None
   else m'.(pong) = m.(pong) ∧ m'.(ping) = m.(ping) ∧ m'.(pingHandle) = None ∧
        m'.(pongTimeoutHandle) = Some at_).
Proof.
  intros Hr Hseq Hping Hpong Hs1 Hs2. pose proof Hr as Hr'. unfold running in Hr'.
  apply andb_true_iff in Hr' as [Hh Hs]. apply negb_true_iff in Hs.
  cbv zeta. unfold onPong. rewrite Hs, ping_payload_roundtrip by done. cbv zeta.
  cbn [ping with_frames fst fmap option_fmap option_map]. rewrite Hseq. case_decide as Hd.
  - subst seq'. rewrite bool_decide_true by done. cbn [negb]. rewrite matchedPong_eq. cbv zeta.
    unfold scheduleNextPing. cbn [stopped healthy pingHandle call with_frames].
    rewrite Hh, Hs, Hping. unfold running. cbn. by rewrite ?Hh, ?Hs.
  - rewrite bool_decide_false by congruence. cbn [negb]. unfold running. cbn. by rewrite ?Hh, ?Hs.
Qed.
End Theory.

(** ** Witnesses *)

(** One ping, one pong timeout, one ping that is answered, two more timeouts in a row. *)
Definition demo_events : list event :=
  [EvPingTimer 10 10 true; EvWritten 1 10 11 false true; EvPongTimer 15 15 15 true;
   EvPingTimer 25 25 true].

Definition demo_monitor : option Monitor :=
  m0 ← startWebSocketHealthMonitor 10 2 true 0 0;
  let m1 := pingTimer 5 10 10 10 true m0 in
  let m2 := pingWritten 1 10 11 false true (with_writes 2 [] m1) in
  let m3 := pongTimer 10 2 15 15 15 15 true m2 in
  Some (pingTimer 5 25 25 25 true m3).

Lemma demo_steps :
  ∃ m0 m, startWebSocketHealthMonitor 10 2 true 0 0 = Some m0 ∧ demo_monitor = Some m
    ∧ steps 10 5 2 m0 demo_events m.
Proof.
  eexists _, _. split; [reflexivity|]. split; [reflexivity|].
  eapply steps_cons; [by apply (step_ping_timer _ _ _ _ 10)|].
  eapply steps_cons; [by apply (step_written _ _ _ _ _ _ _ _ _ [] [])|].
  eapply steps_cons; [by apply (step_pong_timer _ _ _ _ 15)|].
  eapply steps_cons; [by apply (step_ping_timer _ _ _ _ 25)|]. constructor.
Qed.

Lemma monitor_history_witness :
  ∃ m, demo_monitor = Some m ∧ unhealthy_calls m.(calls) = 0%nat ∧
    pings_numbered (ping_calls m.(calls)) m.(nextPingSeq).
Proof.
  destruct demo_steps as (m0 & m & Hstart & Hm & Hsteps). exists m. split; [done|].
  destruct (monitor_history 10 5 2 true 0 0 m0 m m demo_events [] Hstart Hsteps (steps_nil _ _ _ m))
    as (_ & _ & Hu & Hp & _).
  split; [|exact Hp]. rewrite Hu. clear -Hm. vm_compute in Hm. injection Hm as <-. reflexivity.
Defined.

Lemma silent_peer_detected_witness :
  ∃ m, demo_monitor = Some m ∧ m.(pong).(consecutiveMissedPongs) = 1.
Proof.
  destruct demo_steps as (m0 & m & Hstart & Hm & Hsteps). exists m. split; [done|].
  destruct (silent_peer_detected 10 5 2 true 0 0 m0 m demo_events Hstart) as (_ & _ & _ & Hmissed);
    [by repeat constructor|done|].
  apply Hmissed. clear -Hm. vm_compute in Hm. injection Hm as <-. reflexivity.
Defined.

Lemma pong_answers_ping_witness :
  ∃ m, demo_monitor = Some m ∧
    (onPong 10 27 27 (createHealthPingPayload 2 25) m).(pong).(consecutiveMissedPongs) = 0.
Proof.
  destruct demo_monitor as [m|] eqn:Hm; [|exfalso; vm_compute in Hm; discriminate].
  exists m. split; [done|].
  assert (running m = true ∧ m.(ping).(pingSeq) = Some 2 ∧ m.(pingHandle) = None
    ∧ m.(pongTimeoutHandle) = Some 30) as (Hr & Hseq & Hping & Hpong)
    by (vm_compute in Hm; injection Hm as <-; repeat split).
  assert (- MAX_SAFE_INTEGER <= 2 <= MAX_SAFE_INTEGER) as H2
    by (apply (bool_decide_unpack _); by vm_compute).
  assert (- MAX_SAFE_INTEGER <= 25 <= MAX_SAFE_INTEGER) as H25
    by (apply (bool_decide_unpack _); by vm_compute).
  pose proof (pong_answers_ping 10 m 2 2 25 27 27 30 Hr Hseq Hping Hpong H2 H25) as [_ Hcase].
  rewrite decide_True in Hcase by done. exact (proj1 Hcase).
Defined.
