(* ===== verification/Protocol.v ===== *)
(** * The sandbox session protocol (packages/sandbox-session-protocol/src/stream-protocol.ts)

    The schemas of the control messages that travel as JSON text over the tunnel
    websockets, under the names of the source, and the functions that parse
    them.  The gateway tries several families of messages on one text, in an
    order that differs between the two sides of the tunnel; the theorems say
    that the order does not matter, and that a message survives being written
    out again, also under another stream id.

    The constants [PtyTransportWebSocketRoutePath], [PtyTransportTokenQueryParam]
    and [FileUploadResetCodes] are not used by any of this and are left out. *)

From S2P Require Import Prelude JsMap Json Zod.
Local Open Scope Z_scope.

(** ** Schemas *)

Definition PositiveIntegerSchema : schema := ZInt (Some 1) None.
Definition HttpResponseStatusSchema : schema := ZInt (Some 200) (Some 599).
Definition NonEmptyStringSchema : schema := ZNonEmptyString.
Definition AgentStreamChannelSchema : schema := ZObject [("kind", ZLiteral "agent")].
Definition ProcessesStreamChannelSchema : schema := ZObject [("kind", ZLiteral "processes")].
Definition FileUploadStreamChannelSchema : schema :=
  ZObject [("kind", ZLiteral "fileUpload");
   ("threadId", NonEmptyStringSchema);
   ("mimeType", NonEmptyStringSchema);
   ("originalFilename", NonEmptyStringSchema);
   ("sizeBytes", PositiveIntegerSchema)].
Definition ExecStreamChannelSchema : schema :=
  ZObject [("kind", ZLiteral "exec");
   ("command", NonEmptyStringSchema);
   ("args", ZOptional (ZArray NonEmptyStringSchema));
   ("cwd", ZOptional NonEmptyStringSchema);
   ("stdin", ZOptional ZString);
   ("timeoutMs", ZOptional PositiveIntegerSchema);
   ("maxOutputBytes", ZOptional PositiveIntegerSchema)].
Definition FileSearchStreamChannelSchema : schema :=
  ZObject [("kind", ZLiteral "fileSearch");
   ("cwd", NonEmptyStringSchema)].
Definition StreamChannelSchema : schema :=
  ZDiscriminatedUnion "kind"
  [AgentStreamChannelSchema;
   ProcessesStreamChannelSchema;
   FileUploadStreamChannelSchema;
   ExecStreamChannelSchema;
   FileSearchStreamChannelSchema].
Definition PTYResizeSignalSchema : schema :=
  ZObject [("type", ZLiteral "pty.resize");
   ("cols", PositiveIntegerSchema);
   ("rows", PositiveIntegerSchema)].
Definition StreamSignalSchema : schema :=
  ZDiscriminatedUnion "type"
  [PTYResizeSignalSchema].
Definition PTYExitEventSchema : schema :=
  ZObject [("type", ZLiteral "pty.exit");
   ("exitCode", ZInt None None)].
Definition FileUploadCompletedEventSchema : schema :=
  ZObject [("type", ZLiteral "fileUpload.completed");
   ("kind", ZEnum ["image"; "file"]);
   ("attachmentId", NonEmptyStringSchema);
   ("threadId", NonEmptyStringSchema);
   ("originalFilename", NonEmptyStringSchema);
   ("mimeType", NonEmptyStringSchema);
   ("sizeBytes", PositiveIntegerSchema);
   ("path", NonEmptyStringSchema)].
Definition ExecResultEventSchema : schema :=
  ZObject [("type", ZLiteral "exec.result");
   ("exitCode", ZInt None None);
   ("stdout", ZString);
   ("stderr", ZString);
   ("truncated", ZBoolean)].
Definition StreamEventSchema : schema :=
  ZDiscriminatedUnion "type"
  [PTYExitEventSchema;
   FileUploadCompletedEventSchema;
   ExecResultEventSchema].
Definition ProcessListenerSchema : schema :=
  ZObject [("port", PositiveIntegerSchema);
   ("bindAddress", NonEmptyStringSchema)].
Definition ProcessEntrySchema : schema :=
  ZObject [("pid", PositiveIntegerSchema);
   ("command", ZOptional NonEmptyStringSchema);
   ("listeners", ZArray ProcessListenerSchema)].
Definition ProcessesRefreshSchema : schema := ZObject [("type", ZLiteral "processes.refresh")].
Definition ProcessesSnapshotSchema : schema :=
  ZObject [("type", ZLiteral "processes.snapshot");
   ("observedAt", NonEmptyStringSchema);
   ("processes", ZArray ProcessEntrySchema)].
Definition ProcessesStreamMessageSchema : schema :=
  ZDiscriminatedUnion "type"
  [ProcessesRefreshSchema;
   ProcessesSnapshotSchema].
Definition FileSearchQuerySchema : schema :=
  ZObject [("type", ZLiteral "fileSearch.query");
   ("requestId", NonEmptyStringSchema);
   ("query", ZString);
   ("limit", ZOptional PositiveIntegerSchema)].
Definition FileSearchResultKindSchema : schema := ZEnum ["file"; "directory"].
Definition FileSearchResultItemSchema : schema :=
  ZObject [("path", NonEmptyStringSchema);
   ("kind", FileSearchResultKindSchema)].
Definition FileSearchResultsSchema : schema :=
  ZObject [("type", ZLiteral "fileSearch.results");
   ("requestId", NonEmptyStringSchema);
   ("query", ZString);
   ("items", ZArray FileSearchResultItemSchema)].
Definition FileSearchErrorSchema : schema :=
  ZObject [("type", ZLiteral "fileSearch.error");
   ("requestId", NonEmptyStringSchema);
   ("code", NonEmptyStringSchema);
   ("message", NonEmptyStringSchema)].
Definition FileSearchSelectSchema : schema :=
  ZObject [("type", ZLiteral "fileSearch.select");
   ("query", ZString);
   ("path", NonEmptyStringSchema)].
Definition FileSearchStreamMessageSchema : schema :=
  ZDiscriminatedUnion "type"
  [FileSearchQuerySchema;
   FileSearchResultsSchema;
   FileSearchErrorSchema;
   FileSearchSelectSchema].
Definition RepeatedHeaderValuesSchema : schema := ZRecord NonEmptyStringSchema (ZArray ZString).
Definition PortAccessTargetSchema : schema :=
  ZObject [("kind", ZLiteral "port");
   ("port", PositiveIntegerSchema)].
Definition PortsTargetAuthorizeSchema : schema :=
  ZObject [("type", ZLiteral "ports.target.authorize");
   ("requestId", NonEmptyStringSchema);
   ("target", PortAccessTargetSchema)].
Definition PortsTargetAuthorizeSuccessResultSchema : schema :=
  ZObject [("type", ZLiteral "ports.target.authorize.result");
   ("requestId", NonEmptyStringSchema);
   ("authorized", ZLiteralBoolean true);
   ("upstreamProtocol", ZEnum ["http"; "https"]);
   ("websocketCapable", ZBoolean)].
Definition PortsTargetAuthorizeFailureResultSchema : schema :=
  ZObject [("type", ZLiteral "ports.target.authorize.result");
   ("requestId", NonEmptyStringSchema);
   ("authorized", ZLiteralBoolean false);
   ("reason", ZEnum ["port_unreachable"; "unsupported_protocol"; "bootstrap_disconnected"])].
Definition PortsTargetAuthorizeResultSchema : schema :=
  ZUnion [PortsTargetAuthorizeSuccessResultSchema;
   PortsTargetAuthorizeFailureResultSchema].
Definition PortsControlMessageSchema : schema :=
  ZUnion [PortsTargetAuthorizeSchema;
   PortsTargetAuthorizeResultSchema].
Definition PortsTcpOpenSchema : schema :=
  ZObject [("type", ZLiteral "ports.tcp.open");
   ("streamId", PositiveIntegerSchema);
   ("target", PortAccessTargetSchema);
   ("upstreamProtocol", ZEnum ["http"; "https"])].
Definition PortsTcpConnectedSchema : schema :=
  ZObject [("type", ZLiteral "ports.tcp.connected");
   ("streamId", PositiveIntegerSchema)].
Definition PortsTcpCloseSchema : schema :=
  ZObject [("type", ZLiteral "ports.tcp.close");
   ("streamId", PositiveIntegerSchema);
   ("direction", ZEnum ["request"; "response"])].
Definition PortsTcpErrorSchema : schema :=
  ZObject [("type", ZLiteral "ports.tcp.error");
   ("streamId", PositiveIntegerSchema);
   ("code", ZEnum ["upstream_connect_failed"; "upstream_handshake_failed"; "upstream_io_error"]);
   ("message", NonEmptyStringSchema)].
Definition PortsHttpOpenSchema : schema :=
  ZObject [("type", ZLiteral "ports.http.open");
   ("streamId", PositiveIntegerSchema);
   ("target", PortAccessTargetSchema);
   ("upstreamProtocol", ZEnum ["http"; "https"]);
   ("request", ZObject [("method", NonEmptyStringSchema);
   ("path", NonEmptyStringSchema);
   ("query", ZOptional NonEmptyStringSchema);
   ("headers", RepeatedHeaderValuesSchema)])].
Definition PortsHttpResponseStartSchema : schema :=
  ZObject [("type", ZLiteral "ports.http.response.start");
   ("streamId", PositiveIntegerSchema);
   ("status", HttpResponseStatusSchema);
   ("headers", RepeatedHeaderValuesSchema)].
Definition PortsHttpBodyChunkSchema : schema :=
  ZObject [("type", ZLiteral "ports.http.body.chunk");
   ("streamId", PositiveIntegerSchema);
   ("direction", ZEnum ["request"; "response"]);
   ("bytes", ZString);
   ("encoding", ZLiteral "base64")].
Definition PortsHttpBodyEndSchema : schema :=
  ZObject [("type", ZLiteral "ports.http.body.end");
   ("streamId", PositiveIntegerSchema);
   ("direction", ZEnum ["request"; "response"])].
Definition PortsStreamCloseSchema : schema :=
  ZObject [("type", ZLiteral "ports.stream.close");
   ("streamId", PositiveIntegerSchema)].
Definition PortsStreamErrorSchema : schema :=
  ZObject [("type", ZLiteral "ports.stream.error");
   ("streamId", PositiveIntegerSchema);
   ("code", ZEnum ["upstream_connect_failed"; "upstream_handshake_failed"; "upstream_io_error"]);
   ("message", NonEmptyStringSchema)].
Definition PortsTransportMessageSchema : schema :=
  ZUnion [PortsTcpOpenSchema;
   PortsTcpConnectedSchema;
   PortsTcpCloseSchema;
   PortsTcpErrorSchema;
   PortsHttpOpenSchema;
   PortsHttpResponseStartSchema;
   PortsHttpBodyChunkSchema;
   PortsHttpBodyEndSchema;
   PortsStreamCloseSchema;
   PortsStreamErrorSchema].
Definition EgressTokenRequestSchema : schema :=
  ZObject [("type", ZLiteral "egress.token.request");
   ("requestId", NonEmptyStringSchema);
   ("actingUserId", ZOptional NonEmptyStringSchema)].
Definition EgressTokenResponseSchema : schema :=
  ZObject [("type", ZLiteral "egress.token.response");
   ("requestId", NonEmptyStringSchema);
   ("token", NonEmptyStringSchema);
   ("expiresAt", NonEmptyStringSchema);
   ("ttlMs", PositiveIntegerSchema)].
Definition EgressTokenErrorSchema : schema :=
  ZObject [("type", ZLiteral "egress.token.error");
   ("requestId", NonEmptyStringSchema);
   ("code", ZEnum ["invalid_sandbox_state"; "internal_error"]);
   ("message", NonEmptyStringSchema)].
Definition EgressTokenControlMessageSchema : schema :=
  ZDiscriminatedUnion "type"
  [EgressTokenRequestSchema;
   EgressTokenResponseSchema;
   EgressTokenErrorSchema].
Definition PtySessionLaunchSchema : schema :=
  ZObject [("session", ZEnum ["create"; "attach"]);
   ("cols", ZOptional PositiveIntegerSchema);
   ("rows", ZOptional PositiveIntegerSchema);
   ("cwd", ZOptional NonEmptyStringSchema);
   ("command", ZOptional NonEmptyStringSchema);
   ("args", ZOptional (ZArray NonEmptyStringSchema))].
Definition PtySessionOpenSchema : schema :=
  ZObject [("type", ZLiteral "pty.session.open");
   ("requestId", NonEmptyStringSchema);
   ("ptySessionId", NonEmptyStringSchema);
   ("transportUrl", ZUrl);
   ("transportToken", NonEmptyStringSchema);
   ("launch", PtySessionLaunchSchema)].
Definition PtySessionOpenedSchema : schema :=
  ZObject [("type", ZLiteral "pty.session.opened");
   ("requestId", NonEmptyStringSchema);
   ("ptySessionId", NonEmptyStringSchema)].
Definition PtySessionErrorSchema : schema :=
  ZObject [("type", ZLiteral "pty.session.error");
   ("requestId", NonEmptyStringSchema);
   ("ptySessionId", NonEmptyStringSchema);
   ("code", ZEnum ["transport_connect_failed"; "pty_create_failed"; "pty_attach_failed"; "internal_error"]);
   ("message", NonEmptyStringSchema)].
Definition PtySessionControlMessageSchema : schema :=
  ZDiscriminatedUnion "type"
  [PtySessionOpenSchema;
   PtySessionOpenedSchema;
   PtySessionErrorSchema].
Definition PtyTransportClientOpenSchema : schema :=
  ZObject [("type", ZLiteral "pty.transport.open");
   ("launch", PtySessionLaunchSchema)].
Definition StreamOpenSchema : schema :=
  ZObject [("type", ZLiteral "stream.open");
   ("streamId", PositiveIntegerSchema);
   ("channel", StreamChannelSchema)].
Definition StreamOpenOKSchema : schema :=
  ZObject [("type", ZLiteral "stream.open.ok");
   ("streamId", PositiveIntegerSchema)].
Definition StreamOpenErrorSchema : schema :=
  ZObject [("type", ZLiteral "stream.open.error");
   ("streamId", PositiveIntegerSchema);
   ("code", NonEmptyStringSchema);
   ("message", NonEmptyStringSchema)].
Definition StreamSignalMessageSchema : schema :=
  ZObject [("type", ZLiteral "stream.signal");
   ("streamId", PositiveIntegerSchema);
   ("signal", StreamSignalSchema)].
Definition StreamEventMessageSchema : schema :=
  ZObject [("type", ZLiteral "stream.event");
   ("streamId", PositiveIntegerSchema);
   ("event", StreamEventSchema)].
Definition StreamCloseSchema : schema :=
  ZObject [("type", ZLiteral "stream.close");
   ("streamId", PositiveIntegerSchema)].
Definition StreamCompleteSchema : schema :=
  ZObject [("type", ZLiteral "stream.complete");
   ("streamId", PositiveIntegerSchema)].
Definition StreamResetSchema : schema :=
  ZObject [("type", ZLiteral "stream.reset");
   ("streamId", PositiveIntegerSchema);
   ("code", NonEmptyStringSchema);
   ("message", NonEmptyStringSchema)].
Definition StreamWindowSchema : schema :=
  ZObject [("type", ZLiteral "stream.window");
   ("streamId", PositiveIntegerSchema);
   ("bytes", PositiveIntegerSchema)].
Definition TelemetrySignalSchema : schema := ZEnum ["logs"; "traces"].
Definition TelemetryFormatSchema : schema :=
  ZEnum ["mistle.sandbox-runtime.log.v1"; "otlp.http.traces.v1+json"].
Definition TelemetryOpenSchema : schema :=
  ZObject [("type", ZLiteral "telemetry.open");
   ("streamId", PositiveIntegerSchema);
   ("signal", TelemetrySignalSchema);
   ("format", TelemetryFormatSchema)].
Definition TelemetryOpenOKSchema : schema :=
  ZObject [("type", ZLiteral "telemetry.open.ok");
   ("streamId", PositiveIntegerSchema);
   ("initialWindowBytes", PositiveIntegerSchema)].
Definition TelemetryOpenErrorSchema : schema :=
  ZObject [("type", ZLiteral "telemetry.open.error");
   ("streamId", PositiveIntegerSchema);
   ("code", NonEmptyStringSchema);
   ("message", NonEmptyStringSchema)].
Definition TelemetryWindowSchema : schema :=
  ZObject [("type", ZLiteral "telemetry.window");
   ("streamId", PositiveIntegerSchema);
   ("bytes", PositiveIntegerSchema)].
Definition TelemetryCloseSchema : schema :=
  ZObject [("type", ZLiteral "telemetry.close");
   ("streamId", PositiveIntegerSchema)].
Definition TelemetryResetSchema : schema :=
  ZObject [("type", ZLiteral "telemetry.reset");
   ("streamId", PositiveIntegerSchema);
   ("code", NonEmptyStringSchema);
   ("message", NonEmptyStringSchema)].
Definition SandboxOperationKindSchema : schema :=
  ZEnum ["start"; "resume"; "setup_check"; "snapshot"; "stop"].
Definition OperationOpenSchema : schema :=
  ZObject [("type", ZLiteral "operation.open");
   ("streamId", PositiveIntegerSchema);
   ("operationId", NonEmptyStringSchema);
   ("operationKind", SandboxOperationKindSchema);
   ("format", ZLiteral "mistle.sandbox-operation.v1+jsonl")].
Definition OperationOpenOKSchema : schema :=
  ZObject [("type", ZLiteral "operation.open.ok");
   ("streamId", PositiveIntegerSchema);
   ("initialWindowBytes", PositiveIntegerSchema)].
Definition OperationOpenErrorSchema : schema :=
  ZObject [("type", ZLiteral "operation.open.error");
   ("streamId", PositiveIntegerSchema);
   ("code", NonEmptyStringSchema);
   ("message", NonEmptyStringSchema)].
Definition OperationWindowSchema : schema :=
  ZObject [("type", ZLiteral "operation.window");
   ("streamId", PositiveIntegerSchema);
   ("bytes", PositiveIntegerSchema)].
Definition OperationCloseSchema : schema :=
  ZObject [("type", ZLiteral "operation.close");
   ("streamId", PositiveIntegerSchema)].
Definition OperationResetSchema : schema :=
  ZObject [("type", ZLiteral "operation.reset");
   ("streamId", PositiveIntegerSchema);
   ("code", NonEmptyStringSchema);
   ("message", NonEmptyStringSchema)].
Definition SigningFormatSchema : schema := ZEnum ["ssh"].
Definition SigningRequestSchema : schema :=
  ZObject [("type", ZLiteral "signing.request");
   ("requestId", NonEmptyStringSchema);
   ("organizationId", NonEmptyStringSchema);
   ("sandboxInstanceId", NonEmptyStringSchema);
   ("actingUserId", NonEmptyStringSchema);
   ("providerFamily", NonEmptyStringSchema);
   ("integrationConnectionId", NonEmptyStringSchema);
   ("format", SigningFormatSchema);
   ("keyRef", NonEmptyStringSchema);
   ("grant", NonEmptyStringSchema);
   ("payload", ZString);
   ("encoding", ZLiteral "base64")].
Definition SigningSuccessResultSchema : schema :=
  ZObject [("type", ZLiteral "signing.result");
   ("requestId", NonEmptyStringSchema);
   ("ok", ZLiteralBoolean true);
   ("signature", ZString);
   ("encoding", ZLiteral "base64")].
Definition SigningFailureResultSchema : schema :=
  ZObject [("type", ZLiteral "signing.result");
   ("requestId", NonEmptyStringSchema);
   ("ok", ZLiteralBoolean false);
   ("code", NonEmptyStringSchema);
   ("message", NonEmptyStringSchema)].
Definition SigningControlMessageSchema : schema :=
  ZUnion [SigningRequestSchema;
   SigningSuccessResultSchema;
   SigningFailureResultSchema].
Definition SandboxKeepaliveStateSchema : schema :=
  ZObject [("type", ZLiteral "keepalive.state");
   ("ttlMs", PositiveIntegerSchema);
   ("active", ZBoolean)].
Definition SandboxRuntimeReadySchema : schema :=
  ZObject [("type", ZLiteral "runtime.ready");
   ("ready", ZBoolean)].
Definition StreamControlMessageSchema : schema :=
  ZDiscriminatedUnion "type"
  [StreamOpenSchema;
   StreamOpenOKSchema;
   StreamOpenErrorSchema;
   StreamSignalMessageSchema;
   StreamEventMessageSchema;
   StreamCloseSchema;
   StreamCompleteSchema;
   StreamResetSchema;
   StreamWindowSchema].
Definition TelemetryControlMessageSchema : schema :=
  ZDiscriminatedUnion "type"
  [TelemetryOpenSchema;
   TelemetryOpenOKSchema;
   TelemetryOpenErrorSchema;
   TelemetryWindowSchema;
   TelemetryCloseSchema;
   TelemetryResetSchema].
Definition OperationControlMessageSchema : schema :=
  ZDiscriminatedUnion "type"
  [OperationOpenSchema;
   OperationOpenOKSchema;
   OperationOpenErrorSchema;
   OperationWindowSchema;
   OperationCloseSchema;
   OperationResetSchema].
Definition BootstrapControlMessageSchema : schema :=
  ZDiscriminatedUnion "type"
  [StreamOpenOKSchema;
   StreamOpenErrorSchema;
   StreamEventMessageSchema;
   StreamCompleteSchema;
   StreamResetSchema;
   StreamWindowSchema;
   TelemetryOpenSchema;
   TelemetryCloseSchema;
   OperationOpenSchema;
   OperationCloseSchema;
   SandboxKeepaliveStateSchema;
   SandboxRuntimeReadySchema].

(** ** Parsing *)

(** [JSON.parse] never returns [undefined]. *)
Definition parseJSON (payload : string) : option json := JSON_parse payload.

Section Parsing.
Context `{Zod}.

Definition parseStreamControlMessage (payload : string) : option json :=
  match parseJSON payload with
  | None => None
  | Some parsedPayload => safeParse StreamControlMessageSchema parsedPayload
  end.

Definition parseTelemetryControlMessage (payload : string) : option json :=
  match parseJSON payload with
  | None => None
  | Some parsedPayload => safeParse TelemetryControlMessageSchema parsedPayload
  end.

Definition parseOperationControlMessage (payload : string) : option json :=
  match parseJSON payload with
  | None => None
  | Some parsedPayload => safeParse OperationControlMessageSchema parsedPayload
  end.

Definition parseSigningControlMessage (payload : string) : option json :=
  match parseJSON payload with
  | None => None
  | Some parsedPayload => safeParse SigningControlMessageSchema parsedPayload
  end.

Definition parseBootstrapControlMessage (payload : string) : option json :=
  match parseJSON payload with
  | None => None
  | Some parsedPayload => safeParse BootstrapControlMessageSchema parsedPayload
  end.

Definition parseProcessesStreamMessage (payload : string) : option json :=
  match parseJSON payload with
  | None => None
  | Some parsedPayload => safeParse ProcessesStreamMessageSchema parsedPayload
  end.

Definition parseFileSearchStreamMessage (payload : string) : option json :=
  match parseJSON payload with
  | None => None
  | Some parsedPayload => safeParse FileSearchStreamMessageSchema parsedPayload
  end.

Definition parsePortsControlMessage (payload : string) : option json :=
  match parseJSON payload with
  | None => None
  | Some parsedPayload => safeParse PortsControlMessageSchema parsedPayload
  end.

Definition parsePortsTransportMessage (payload : string) : option json :=
  match parseJSON payload with
  | None => None
  | Some parsedPayload => safeParse PortsTransportMessageSchema parsedPayload
  end.

Definition parseEgressTokenControlMessage (payload : string) : option json :=
  match parseJSON payload with
  | None => None
  | Some parsedPayload => safeParse EgressTokenControlMessageSchema parsedPayload
  end.

Definition parsePtySessionControlMessage (payload : string) : option json :=
  match parseJSON payload with
  | None => None
  | Some parsedPayload => safeParse PtySessionControlMessageSchema parsedPayload
  end.

Definition parsePtyTransportClientOpen (payload : string) : option json :=
  match parseJSON payload with
  | None => None
  | Some parsedPayload => safeParse PtyTransportClientOpenSchema parsedPayload
  end.
End Parsing.

(** The families of messages the gateway tries on one text. *)
Inductive message_family : Type :=
| PortsControlFamily | PortsTransportFamily | EgressTokenFamily | SigningFamily
| PtySessionFamily | StreamFamily | TelemetryControlFamily | OperationControlFamily
| BootstrapFamily.

#[export] Instance message_family_eq_dec : EqDecision message_family.
Proof. solve_decision. Defined.

Definition family_schema (f : message_family) : schema :=
  match f with
  | PortsControlFamily => PortsControlMessageSchema
  | PortsTransportFamily => PortsTransportMessageSchema
  | EgressTokenFamily => EgressTokenControlMessageSchema
  | SigningFamily => SigningControlMessageSchema
  | PtySessionFamily => PtySessionControlMessageSchema
  | StreamFamily => StreamControlMessageSchema
  | TelemetryControlFamily => TelemetryControlMessageSchema
  | OperationControlFamily => OperationControlMessageSchema
  | BootstrapFamily => BootstrapControlMessageSchema
  end.

Definition parse_family `{Zod} (f : message_family) (payload : string) : option json :=
  match f with
  | PortsControlFamily => parsePortsControlMessage payload
  | PortsTransportFamily => parsePortsTransportMessage payload
  | EgressTokenFamily => parseEgressTokenControlMessage payload
  | SigningFamily => parseSigningControlMessage payload
  | PtySessionFamily => parsePtySessionControlMessage payload
  | StreamFamily => parseStreamControlMessage payload
  | TelemetryControlFamily => parseTelemetryControlMessage payload
  | OperationControlFamily => parseOperationControlMessage payload
  | BootstrapFamily => parseBootstrapControlMessage payload
  end.

(** ** The type of a message *)

(** The values the ["type"] of a message of this schema can have. *)
Fixpoint message_types (s : schema) : list string :=
  match s with
  | ZObject _ => match discriminator "type" s with Some t => [t] | None => [] end
  | ZUnion options | ZDiscriminatedUnion _ options => List.concat (List.map message_types options)
  | _ => []
  end.

(** A union of objects, each with a literal ["type"]. *)
Fixpoint typed (s : schema) : bool :=
  match s with
  | ZObject shape => bool_decide (NoDup shape.*1) && bool_decide (is_Some (discriminator "type" s))
  | ZUnion options | ZDiscriminatedUnion _ options => forallb typed options
  | _ => false
  end.

Definition shared_with_bootstrap (f : message_family) : bool :=
  match f with
  | StreamFamily | TelemetryControlFamily | OperationControlFamily => true
  | _ => false
  end.

Section Types.
Context `{ZodLaws}.

Lemma typed_message s v w :
  typed s = true → safeParse s v = Some w →
  ∃ t, t ∈ message_types s ∧ field v "type" = Some (JString t) ∧ field w "type" = Some (JString t).
Proof.
  revert v w. induction s as [s Hleaf|s IH|k s IHk IH|s IH|shape IH|shape IH|options IH|key options IH|s IH]
    using schema_ind'; intros v w Ht Hw; try done.
  - by destruct s.
  - cbn [typed] in Ht. apply andb_true_iff in Ht as [Hnd%bool_decide_eq_true [t Hd]%bool_decide_eq_true].
    rewrite zod_object in Hw. destruct v as [| | | | |fields]; try done.
    destruct (parse_shape _ shape fields) as [r|] eqn:Hr; [|done]. simplify_eq/=.
    pose proof (parse_shape_get shape fields r "type" Hnd Hr) as Hget. exists t.
    destruct (shape_get shape "type") as [[]|] eqn:Hs; try done. simplify_eq.
    split; [by left|]. destruct (JsMap.get fields "type") as [v|]; [|by destruct Hget].
    destruct Hget as [Hget [w Hw]]. rewrite Hget. rewrite zod_literal in *.
    destruct v; try done. case_bool_decide; by simplify_eq.
  - rewrite zod_union in Hw. cbn [typed message_types] in *.
    induction options as [|o options IHo]; simpl in *; [done|].
    apply andb_true_iff in Ht as [Ho Ht]. apply Forall_cons in IH as [IH1 IH].
    destruct (safeParse o v) as [w'|] eqn:Hov.
    + simplify_eq. destruct (IH1 v w Ho Hov) as (t & Hin & Hf). exists t.
      split; [apply elem_of_app; by left|done].
    + destruct (IHo IH Ht Hw) as (t & Hin & Hf). exists t. split; [apply elem_of_app; by right|done].
  - rewrite zod_discriminated_union in Hw. cbn [typed message_types] in *.
    destruct (field v key) as [[| | |value| |]|]; try done. rewrite parse_discriminated_find in Hw.
    destruct (find_option key value options) as [o|] eqn:Ho; [|done].
    apply find_option_in in Ho as [Hin _]. rewrite forallb_Forall, Forall_forall in Ht.
    rewrite Forall_forall in IH. destruct (IH o Hin v w (Ht o Hin) Hw) as (t & Ht' & Hf).
    exists t. split; [|done]. apply list_elem_of_In, List.in_concat. exists (message_types o).
    split; [by apply List.in_map, list_elem_of_In|by apply list_elem_of_In].
Qed.

Lemma family_typed f : typed (family_schema f) = true.
Proof. by destruct f; vm_compute. Qed.

(** Different families have different types, except that bootstrap messages are
    also stream, telemetry or operation messages. *)
Lemma family_types_disjoint f g t :
  t ∈ message_types (family_schema f) → t ∈ message_types (family_schema g) →
  f = g ∨ (f = BootstrapFamily ∧ shared_with_bootstrap g = true) ∨
  (g = BootstrapFamily ∧ shared_with_bootstrap f = true).
Proof.
  assert (∀ l1 l2 : list string, bool_decide (Forall (λ t, t ∉ l2) l1) = true → t ∈ l1 → t ∉ l2) as Hdis.
  { intros l1 l2 Hl%bool_decide_eq_true Hin. rewrite Forall_forall in Hl. by apply Hl. }
  intros Hf Hg.
  destruct f, g; first [by left | by right; left | by right; right
    | exfalso; eapply Hdis; [|exact Hf|exact Hg]; vm_compute; reflexivity].
Qed.

Lemma find_option_cases key value options o :
  find_option key value options = Some o → ∃ o', o' ∈ options ∧ o' = o ∧ discriminator key o' = Some value.
Proof. intros [? ?]%find_option_in. eauto. Qed.

(** A bootstrap message has the same schema in its other family. *)
Lemma bootstrap_same_option f v w w' :
  shared_with_bootstrap f = true →
  safeParse (family_schema f) v = Some w → safeParse BootstrapControlMessageSchema v = Some w' →
  w = w'.
Proof.
  intros Hf Hw Hw'.
  assert (∃ options, family_schema f = ZDiscriminatedUnion "type" options ∧
    ∀ t o o', find_option "type" t options = Some o →
      match BootstrapControlMessageSchema with
      | ZDiscriminatedUnion _ boot => find_option "type" t boot = Some o' → o = o'
      | _ => True
      end) as (options & Heq & Hsame).
  { destruct f; try done; eexists; (split; [reflexivity|]); intros t o o' Ho; cbv beta iota delta [BootstrapControlMessageSchema];
      intros (o1 & Hin & <- & Hd)%find_option_cases;
      repeat (apply elem_of_cons in Hin as [->|Hin];
        [vm_compute in Hd; injection Hd as <-; vm_compute in Ho; by simplify_eq|]);
      by apply not_elem_of_nil in Hin. }
  rewrite Heq in Hw. unfold BootstrapControlMessageSchema in *.
  rewrite zod_discriminated_union in Hw, Hw'.
  destruct (field v "type") as [[| | |t| |]|]; try done.
  rewrite parse_discriminated_find in Hw, Hw'.
  destruct (find_option "type" t options) as [o|] eqn:Ho; [|done].
  destruct (find_option "type" t _) as [o'|] eqn:Ho' in Hw'; [|done].
  rewrite (Hsame t o o' Ho Ho') in Hw. congruence.
Qed.
End Types.

Lemma parse_family_schema `{Zod} f payload :
  parse_family f payload = (v ← parseJSON payload; safeParse (family_schema f) v).
Proof. by destruct f. Qed.

Lemma parse_family_type `{ZodLaws} f payload m :
  parse_family f payload = Some m →
  ∃ t, t ∈ message_types (family_schema f) ∧ field m "type" = Some (JString t).
Proof.
  rewrite parse_family_schema. destruct (parseJSON payload) as [v|]; [simpl|done]. intros Hm.
  destruct (typed_message _ _ _ (family_typed f) Hm) as (t & ? & _ & ?). eauto.
Qed.

(** The families of two parses of one text. *)
Lemma parsed_families `{ZodLaws} f g payload m m' :
  parse_family f payload = Some m → parse_family g payload = Some m' →
  f = g ∨ (f = BootstrapFamily ∧ shared_with_bootstrap g = true) ∨
  (g = BootstrapFamily ∧ shared_with_bootstrap f = true).
Proof.
  rewrite !parse_family_schema. destruct (parseJSON payload) as [v|]; [simpl|done].
  intros Hf Hg. destruct (typed_message _ _ _ (family_typed f) Hf) as (t & Htf & Hvt & _).
  destruct (typed_message _ _ _ (family_typed g) Hg) as (t' & Htg & Hvt' & _).
  rewrite Hvt in Hvt'. simplify_eq. by eapply family_types_disjoint.
Qed.

(** A text is a message of at most one family, except that a bootstrap message may
    also be a stream, telemetry or operation message, and is then the same
    message.  So it does not matter in which order a text is tried. *)
Theorem families_exclusive `{ZodLaws} (f g : message_family) (payload : string) (m m' : json) :
  parse_family f payload = Some m → parse_family g payload = Some m' →
  m = m' ∧
  (f = g ∨ (f = BootstrapFamily ∧ shared_with_bootstrap g = true) ∨
   (g = BootstrapFamily ∧ shared_with_bootstrap f = true)).
Proof.
  intros Hf Hg. pose proof (parsed_families _ _ _ _ _ Hf Hg) as Hfg. split; [|done].
  rewrite parse_family_schema in Hf, Hg.
  destruct (parseJSON payload) as [v|]; [simpl in *|done].
  destruct Hfg as [-> | [[-> Hs] | [-> Hs]]]; [congruence|symmetry|];
    by eapply bootstrap_same_option.
Qed.

(** ** Writing a message out *)

(** [{ ...message, streamId }] *)
Definition with_streamId (m : json) (streamId : number) : json :=
  match m with
  | JObject fields => JObject (JsMap.set fields "streamId" (JNumber streamId))
  | _ => m
  end.

(** Every option of a discriminated union is an object with a positive stream id. *)
Definition has_streamId (s : schema) : bool :=
  match s with
  | ZObject shape => match shape_get shape "streamId" with
                     | Some (ZInt (Some 1) None) => true
                     | _ => false
                     end
  | _ => false
  end.

Definition valid_message_streamId (n : Z) : Prop := 1 ≤ n ≤ MAX_SAFE_INTEGER.

Section Roundtrip.
Context `{ZodLaws}.

Lemma stream_id_message options v m :
  let s := ZDiscriminatedUnion "type" options in
  fixed s = true → forallb has_streamId options = true → safeParse s v = Some m →
  (∃ n, field m "streamId" = Some (JNumber (Int n)) ∧ valid_message_streamId n) ∧
  (∀ n, valid_message_streamId n →
    safeParse s (with_streamId m (Int n)) = Some (with_streamId m (Int n))).
Proof.
  intros s Hfixed Hids Hm. pose proof (parse_again s v m Hfixed Hm) as Hagain.
  unfold s in *. rewrite zod_discriminated_union in Hagain.
  destruct (field m "type") as [[| | |t| |]|] eqn:Htype; try done.
  rewrite parse_discriminated_find in Hagain.
  destruct (find_option "type" t options) as [o|] eqn:Ho; [|done].
  destruct (find_option_in _ _ _ _ Ho) as [Hin Hd].
  cbn [fixed] in Hfixed. rewrite forallb_Forall, Forall_forall in Hfixed, Hids.
  specialize (Hfixed o Hin). specialize (Hids o Hin). apply andb_true_iff in Hfixed as [Hfo _].
  destruct o as [| | | | | | | | | | |shape|shape| | | | |]; try done.
  cbn [fixed has_streamId] in Hfo, Hids. apply andb_true_iff in Hfo as [Hnd%bool_decide_eq_true _].
  destruct (shape_get shape "streamId") as [[| | |[[|[]|]|] [|]| | | | | | | | | | | | | |]|] eqn:Hshape; try done.
  rewrite zod_object in Hagain. destruct m as [| | | | |fields]; try done.
  destruct (parse_shape _ shape fields) as [r|] eqn:Hr; [|done]. simplify_eq/=.
  pose proof (parse_shape_get shape fields fields "streamId" Hnd Hr) as Hget. rewrite Hshape in Hget.
  destruct (JsMap.get fields "streamId") as [id|] eqn:Hid; [|by destruct Hget].
  destruct Hget as [Hparse _]. rewrite zod_int in Hparse. symmetry in Hparse.
  destruct id as [|b|[n|x]|s0|l|fs]; try done.
  destruct (in_range (Some 1) None n) eqn:Hrange; [|done]. split.
  - exists n. split; [done|]. unfold in_range, valid_message_streamId in *. bools. lia.
  - intros n' Hn'. rewrite zod_discriminated_union. cbn [field with_streamId].
    rewrite JsMap.get_set_ne by done. rewrite Htype, parse_discriminated_find, Ho, zod_object.
    rewrite (parse_shape_set shape fields "streamId" (ZInt (Some 1) None)); try done.
    rewrite zod_int. assert (in_range (Some 1) None n' = true) as ->; [|done].
    unfold in_range, valid_message_streamId in *.
    rewrite !andb_true_iff, !Z.leb_le. lia.
Qed.

(** The schema of the three families a stream id is replaced in. *)
Lemma shared_schema f :
  shared_with_bootstrap f = true →
  ∃ options, family_schema f = ZDiscriminatedUnion "type" options ∧
    fixed (family_schema f) = true ∧ forallb has_streamId options = true.
Proof.
  destruct f; try done; eexists; (split; [reflexivity|split; vm_compute; reflexivity]).
Qed.

Lemma plain_family f : plain_keys (family_schema f) = true.
Proof. destruct f; vm_compute; reflexivity. Qed.

Lemma written_message f w :
  fixed (family_schema f) = true → safeParse (family_schema f) w = Some w →
  parse_family f (JSON_stringify w) = Some w.
Proof.
  intros Hfixed Hw. rewrite parse_family_schema. unfold parseJSON.
  by rewrite JSON_roundtrip by eauto using parse_json_ok, plain_family.
Qed.

Lemma message_streamId f payload m :
  shared_with_bootstrap f = true → parse_family f payload = Some m →
  ∃ n, field m "streamId" = Some (JNumber (Int n)) ∧ valid_message_streamId n.
Proof.
  intros (options & Heq & Hfixed & Hids)%shared_schema.
  rewrite parse_family_schema. destruct (parseJSON payload) as [v|]; [simpl|done].
  rewrite Heq in *. intros Hm. by apply (stream_id_message options v m).
Qed.

(** A message with another stream id, written out, parses to itself. *)
Lemma restreamed_message f payload m n :
  shared_with_bootstrap f = true → parse_family f payload = Some m → valid_message_streamId n →
  parse_family f (JSON_stringify (with_streamId m (Int n))) = Some (with_streamId m (Int n)).
Proof.
  intros (options & Heq & Hfixed & Hids)%shared_schema. rewrite (parse_family_schema f payload).
  destruct (parseJSON payload) as [v|]; [cbn [mbind option_bind]|done]. intros Hm Hn.
  apply written_message; [done|]. rewrite Heq in *.
  by apply (stream_id_message options v m Hfixed Hids Hm).
Qed.

Lemma field_with_streamId m x x0 k :
  field m "streamId" = Some x0 →
  field (with_streamId m x) k = if decide (k = "streamId") then Some (JNumber x) else field m k.
Proof.
  destruct m as [| | | | |fields]; try done. intros _. cbn [field with_streamId].
  rewrite JsMap.get_set. by destruct (decide ("streamId" = k)), (decide (k = "streamId")).
Qed.

(** Putting the first id back gives the message back. *)
Lemma with_streamId_back m x x0 :
  field m "streamId" = Some (JNumber x0) → with_streamId (with_streamId m x) x0 = m.
Proof.
  destruct m as [| | | | |fields]; try done. simpl. intros Hget. f_equal.
  rewrite JsMap.set_set. by apply JsMap.set_same.
Qed.

(** A stream, telemetry or operation message carries a positive stream id, and
    the text [JSON.stringify] makes of it, with its own or any other stream id
    put in, parses back to exactly that message. *)
Theorem message_roundtrip (f : message_family) (payload : string) (m : json) :
  shared_with_bootstrap f = true → parse_family f payload = Some m →
  (∃ n, field m "streamId" = Some (JNumber (Int n)) ∧ valid_message_streamId n) ∧
  parse_family f (JSON_stringify m) = Some m ∧
  (∀ n, valid_message_streamId n →
    parse_family f (JSON_stringify (with_streamId m (Int n))) = Some (with_streamId m (Int n)) ∧
    field (with_streamId m (Int n)) "streamId" = Some (JNumber (Int n)) ∧
    ∀ k, k ≠ "streamId" → field (with_streamId m (Int n)) k = field m k).
Proof.
  intros Hf Hm. destruct (message_streamId f payload m Hf Hm) as (n & Hid & Hn).
  split; [by exists n|]. split.
  - pose proof (restreamed_message f payload m n Hf Hm Hn) as Hback.
    assert (with_streamId m (Int n) = m) as Heq; [|by rewrite Heq in Hback].
    rewrite <-(with_streamId_back m (Int n) (Int n) Hid) at 2.
    destruct m; try done. simpl. by rewrite JsMap.set_set.
  - intros n' Hn'. split; [by eapply restreamed_message|].
    split; [by rewrite (field_with_streamId _ _ _ _ Hid)|]. intros k Hk.
    rewrite (field_with_streamId _ _ _ _ Hid). by rewrite decide_False.
Qed.
End Roundtrip.

(** ** Witnesses *)

(** A text with ['] for the double quote. *)
Fixpoint quoted (s : string) : string :=
  match s with
  | EmptyString => EmptyString
  | String c s => String (if code c =? 39 then char 34 else c) (quoted s)
  end.

Definition demo_window : string :=
  quoted "{ 'bytes': 1e3, 'type': 'stream.window', 'extra': [null], 'streamId': 7 }".

Definition demo_window_message (id : Z) : json :=
  JObject [("type", JString "stream.window"); ("streamId", JNumber (Int id)); ("bytes", JNumber (Int 1000))].

Lemma families_exclusive_witness :
  let _ := reference_zod in
  parse_family StreamFamily demo_window = Some (demo_window_message 7) ∧
  parse_family BootstrapFamily demo_window = Some (demo_window_message 7) ∧
  ∀ f m, parse_family f demo_window = Some m → m = demo_window_message 7.
Proof.
  intros zod. pose proof reference_zod_laws as Hlaws.
  assert (parse_family StreamFamily demo_window = Some (demo_window_message 7)) as Hs
    by (vm_compute; reflexivity).
  split; [done|]. split; [vm_compute; reflexivity|]. intros f m Hm.
  by destruct (families_exclusive f StreamFamily demo_window m _ Hm Hs).
Defined.

Lemma message_roundtrip_witness :
  let _ := reference_zod in
  JSON_stringify (demo_window_message 9) =
    quoted "{'type':'stream.window','streamId':9,'bytes':1000}" ∧
  parse_family StreamFamily (JSON_stringify (demo_window_message 9)) = Some (demo_window_message 9).
Proof.
  intros zod. pose proof reference_zod_laws as Hlaws.
  assert (parse_family StreamFamily demo_window = Some (demo_window_message 7)) as Hs
    by (vm_compute; reflexivity).
  destruct (message_roundtrip StreamFamily demo_window _ eq_refl Hs) as (_ & _ & Hset).
  split; [vm_compute; reflexivity|].
  by destruct (Hset 9 ltac:(split; [done|by vm_compute])) as [? _].
Defined.
