(* ===== verification/Translator.v ===== *)
(** * The tunnel protocol translator (tunnel/protocol/tunnel-protocol-translator.ts)

    One websocket message in, one delivery decision out: the translator parses
    the message, finds the interactive stream it belongs to through the router of
    Forwarding.v, rewrites the stream id between the client's numbering and the
    tunnel's, and says where the result goes.

    The two port access services it consults (publishing/) are the interface
    [PublishingServices]; nothing is assumed of them here. *)

From S2P Require Import Prelude JsMap Json Zod Protocol.
From S2P Require Import DataFrame TunnelTypes TunnelSession SessionRegistry RuntimeState Forwarding.
Local Open Scope Z_scope.

Definition ReservedOperationStreamId : Z := 0xfffffffd.
Definition DirectPtyStreamId : Z := 1.

Record ReleaseInteractiveStream : Type := mkReleaseStream {
  releaseStream_clientSessionId : string;
  releaseStream_clientStreamId : number;
}.

Inductive TunnelProtocolDelivery : Type :=
| DeliverDrop
| DeliverForward (payload : RelayPayload)
    (targetBootstrapSessionId targetConnectionSessionId : option string)
| DeliverRespond (payload : RelayPayload)
| DeliverTelemetryOpen (message : json)
| DeliverTelemetryClose (message : json)
| DeliverTelemetryData (payload : list Z) (streamId : Z)
| DeliverTelemetryInvalidData (payloadKind streamId : Z)
| DeliverOperationOpen (message : json)
| DeliverOperationClose (message : json)
| DeliverOperationData (payload : list Z) (streamId : Z)
| DeliverOperationInvalidData (payloadKind streamId : Z)
| DeliverSigningRequest (message : json)
| DeliverEgressTokenRequest (message : json)
| DeliverPtyClientControl (payload : RelayPayload) (ptySessionId : string).

Record TunnelProtocolTranslation : Type := mkTranslation {
  delivery : TunnelProtocolDelivery;
  keepaliveControlMessage : option json;
  runtimeReadyControlMessage : option json;
  notifyBootstrapPeerOfReleasedStream : option (ClientStreamBinding * string);
  releaseInteractiveStream : option ReleaseInteractiveStream;
}.

Record TranslateTunnelInboundMessageInput : Type := mkTranslateInput {
  translate_clientSessionId : string;
  translate_payload : RelayPayload;
  translate_sandboxInstanceId : string;
  translate_sourcePeerSide : RelayPeerSide;
}.

(** ** Messages *)

Definition type_of (m : json) : string := string_field m "type".

(** [message.channel.kind] *)
Definition channel_kind (m : json) : string :=
  match field m "channel" with Some channel => string_field channel "kind" | None => "" end.

Definition replaceStreamId (message : json) (streamId : number) : string :=
  JSON_stringify (with_streamId message streamId).

Definition parse_stream_open `{Zod} (kind : string) (payload : string) : option json :=
  match parseStreamControlMessage payload with
  | None => None
  | Some message =>
      if negb (type_of message =?= "stream.open") || negb (channel_kind message =?= kind)
      then None else Some message
  end.

Definition parseAgentStreamOpen `{Zod} := parse_stream_open "agent".
Definition parseProcessesStreamOpen `{Zod} := parse_stream_open "processes".
Definition parseFileUploadStreamOpen `{Zod} := parse_stream_open "fileUpload".
Definition parseExecStreamOpen `{Zod} := parse_stream_open "exec".
Definition parseFileSearchStreamOpen `{Zod} := parse_stream_open "fileSearch".

Definition shouldReleaseStreamOnConnectionClose (binding : ClientStreamBinding) : bool :=
  negb (binding.(channelKind) =?= FileUploadChannel).

Definition shouldReleaseStreamOnBootstrapMessage (message : json) : bool :=
  (type_of message =?= "stream.open.error") || (type_of message =?= "stream.reset")
  || (type_of message =?= "stream.complete").

Definition error_message_json (type : string) (streamId : number) (code message : string) : json :=
  JObject [("type", JString type); ("streamId", JNumber streamId);
           ("code", JString code); ("message", JString message)].
Definition error_payload (type : string) (streamId : number) (code message : string) : string :=
  JSON_stringify (error_message_json type streamId code message).

Definition createStreamOpenErrorPayload (code message : string) (streamId : number) : string :=
  error_payload "stream.open.error" streamId code message.
Definition createStreamResetPayload (code message : string) (streamId : number) : string :=
  error_payload "stream.reset" streamId code message.

Definition createUnboundInteractiveStreamResetPayload (streamId : number) : string :=
  createStreamResetPayload "interactive_stream_not_found"
    "Interactive stream is not bound on this tunnel session." streamId.

Definition createInvalidStreamSignalResetPayload (streamId : number) : string :=
  createStreamResetPayload "invalid_stream_signal"
    "Stream signal is not valid for the bound interactive stream." streamId.

Definition createInvalidStreamDataResetPayload (channelKind : StreamChannelKind)
    (streamId : number) : string :=
  createStreamResetPayload "invalid_stream_data"
    (match channelKind with
     | FileUploadChannel => "File upload streams only accept raw-bytes data frames."
     | ProcessesChannel => "Processes streams only accept websocket text data frames."
     | FileSearchChannel => "File search streams only accept websocket text data frames."
     | AgentChannel | ExecChannel =>
         "Agent streams only accept websocket text or websocket binary data frames."
     end) streamId.

(** [inl] where the code throws the error again. *)
Definition toStreamOpenErrorPayload (error : JsError) (streamId : number) : JsError + string :=
  match error with
  | BootstrapTunnelNotConnectedError _ | GatewayForwardingUnavailableError _ _ _ _ _ _
  | GatewayForwardingPortAccessAuthorizationError bootstrap_not_connected _ =>
      inr (createStreamOpenErrorPayload "bootstrap_not_connected" (error_message error) streamId)
  | TunnelSessionBindingLimitExceededError _ =>
      inr (createStreamOpenErrorPayload "max_active_streams_exceeded" (error_message error) streamId)
  | _ => inl error
  end.

Definition createUnsupportedTextPayloadErrorMessage (side : RelayPeerSide) : string :=
  match side with
  | SideConnection => "Connection websocket text payloads must be valid stream control messages."
  | _ => "Bootstrap websocket text payloads must be valid bootstrap control messages."
  end.

Definition createUnsupportedBinaryPayloadErrorMessage (side : RelayPeerSide) : string :=
  match side with
  | SideConnection => "Connection websocket binary payloads must be valid tunnel data frames."
  | _ => "Bootstrap websocket binary payloads must be valid tunnel data frames."
  end.

Definition createUnsupportedConnectionTelemetryMessageError (messageType : string) : JsError :=
  TunnelProtocolViolationError
    ("Connection websocket cannot send telemetry control message type '" +:+ messageType +:+ "'.").

Definition createUnsupportedConnectionSigningMessageError (messageType : string) : JsError :=
  TunnelProtocolViolationError
    ("Connection websocket cannot send signing control message type '" +:+ messageType +:+ "'.").

Definition isConnectionControlMessageAllowed (message : json) : bool :=
  (type_of message =?= "stream.open") || (type_of message =?= "stream.signal")
  || (type_of message =?= "stream.close") || (type_of message =?= "stream.window").

Definition isBootstrapStreamControlMessageAllowed (message : json) : bool :=
  (type_of message =?= "stream.open.ok") || (type_of message =?= "stream.open.error")
  || (type_of message =?= "stream.complete") || (type_of message =?= "stream.event")
  || (type_of message =?= "stream.reset") || (type_of message =?= "stream.window").

Definition isBootstrapTelemetryControlMessageAllowed (message : json) : bool :=
  (type_of message =?= "telemetry.open") || (type_of message =?= "telemetry.close").

Definition isBootstrapOperationControlMessageAllowed (message : json) : bool :=
  (type_of message =?= "operation.open") || (type_of message =?= "operation.close").

Definition assertConnectionControlMessageAllowed {W} (message : json) : M JsError W unit :=
  if isConnectionControlMessageAllowed message then mret tt
  else throw (TunnelProtocolViolationError
    ("Connection websocket cannot send control message type '" +:+ type_of message +:+ "'.")).

Definition assertBootstrapControlMessageAllowed {W} (message : json) : M JsError W unit :=
  let controlMessageType := type_of message in
  if type_of message =?= "keepalive.state" then mret tt
  else if type_of message =?= "runtime.ready" then mret tt
  else if isBootstrapStreamControlMessageAllowed message then mret tt
  else if isBootstrapTelemetryControlMessageAllowed message then mret tt
  else if isBootstrapOperationControlMessageAllowed message then mret tt
  else throw (TunnelProtocolViolationError
    ("Bootstrap websocket cannot send control message type '" +:+ controlMessageType +:+ "'.")).

Definition isPayloadKindAllowedForChannel (channelKind : StreamChannelKind) (payloadKind : Z)
    : bool :=
  if channelKind =?= FileUploadChannel then payloadKind =? PayloadKindRawBytes
  else if (channelKind =?= ProcessesChannel) || (channelKind =?= FileSearchChannel)
  then payloadKind =? PayloadKindWebSocketText
  else (payloadKind =? PayloadKindWebSocketText) || (payloadKind =? PayloadKindWebSocketBinary).

Definition toReleaseInteractiveStream (binding : ClientStreamBinding) : ReleaseInteractiveStream :=
  mkReleaseStream binding.(clientSessionId) binding.(clientStreamId).

Definition createForwardDelivery := DeliverForward.
Definition createRespondDelivery := DeliverRespond.

(** [createTranslation({ delivery })] *)
Definition createTranslation (d : TunnelProtocolDelivery) : TunnelProtocolTranslation :=
  mkTranslation d None None None None.

Definition createStreamClosePayload (binding : ClientStreamBinding) : string :=
  JSON_stringify (JObject [("type", JString "stream.close");
                           ("streamId", JNumber (Int binding.(tunnelStreamId)))]).

Definition createReleasedInteractiveStreamResetPayload (binding : ClientStreamBinding) : string :=
  createStreamResetPayload "bootstrap_reconnected"
    "Sandbox bootstrap tunnel reconnected and invalidated the active interactive stream."
    binding.(clientStreamId).

Definition createBootstrapDisconnectedStreamResetPayload (binding : ClientStreamBinding) : string :=
  createStreamResetPayload "bootstrap_disconnected"
    "Sandbox bootstrap tunnel disconnected and invalidated the active interactive stream."
    binding.(clientStreamId).

(** ** The port access services (publishing/) *)

Inductive AuthorizeResolution : Type :=
| AuthorizeDrop
| AuthorizeForward (result : json) (targetConnectionSessionId : string).

Class PublishingServices (W : Type) : Type := {
  forwardConnectionTargetAuthorize (sandboxInstanceId clientSessionId : string) (request : json) :
    M JsError W unit;
  resolveTargetAuthorizeResult (sandboxInstanceId sourceBootstrapSessionId : string)
    (result : json) : M JsError W (option AuthorizeResolution);
  handleBootstrapTransportMessage (sandboxInstanceId sourceBootstrapSessionId : string)
    (message : json) : M JsError W bool;
  resolveForwardedBootstrapTransportMessage (sandboxInstanceId sourceBootstrapSessionId : string)
    (message : json) : M JsError W (option string);
  handleBootstrapStreamWindow (sandboxInstanceId sourceBootstrapSessionId : string)
    (message : json) : M JsError W bool;
  handleBootstrapDataFrame (sandboxInstanceId sourceBootstrapSessionId : string)
    (payload : list Z) : M JsError W bool;
}.

(** ** The translator *)

Section Translator.
Context {PortTarget AuthorizeResult W : Type}.
Context `{GatewayForwardingClientAdapter PortTarget AuthorizeResult W} `{Zod}
  `{PublishingServices W}.
Context (sourceNode : string) (resolve_owner : string → M JsError W SandboxOwnerResolution).
Notation Translated := (M JsError W TunnelProtocolTranslation).

Definition find_by_client (sandboxInstanceId peerSessionId : string) (clientStreamId : number)
    : M JsError W (option InteractiveStreamRoute) :=
  router_findInteractiveStreamByClient sourceNode resolve_owner
    (mkClientStreamInput sandboxInstanceId peerSessionId clientStreamId).

Definition find_by_tunnel (sandboxInstanceId : string) (tunnelStreamId : Z)
    : M JsError W (option InteractiveStreamRoute) :=
  router_findInteractiveStreamByTunnel sourceNode resolve_owner
    (mkTunnelInput sandboxInstanceId tunnelStreamId).

(** The clean-up of a stream whose data was refused. *)
Definition released_translation (d : TunnelProtocolDelivery) (route : InteractiveStreamRoute)
    : TunnelProtocolTranslation :=
  mkTranslation d None None
    (Some (route.(route_binding), route.(route_bootstrapTarget).(target_sessionId)))
    (Some (toReleaseInteractiveStream route.(route_binding))).

Definition translateConnectionStreamOpen (kind : StreamChannelKind)
    (peerSessionId : string) (message : json) (sandboxInstanceId : string) : Translated :=
  try_catch
    (route ← router_openInteractiveStream sourceNode resolve_owner
       (mkOpenInput sandboxInstanceId peerSessionId (number_field message "streamId") kind);
     mret (createTranslation (createForwardDelivery
       (TextPayload (replaceStreamId message (Int route.(route_binding).(tunnelStreamId))))
       (Some route.(route_bootstrapTarget).(target_sessionId)) None)))
    (λ error,
       match toStreamOpenErrorPayload error (number_field message "streamId") with
       | inl error => throw error
       | inr payload => mret (createTranslation (createRespondDelivery (TextPayload payload)))
       end).

(** The branch for control messages of a stream the connection has opened. *)
Definition translate_connection_control (peerSessionId sandboxInstanceId : string)
    (controlMessage : json) : Translated :=
  _ ← assertConnectionControlMessageAllowed controlMessage;
  let streamId := number_field controlMessage "streamId" in
  route ← find_by_client sandboxInstanceId peerSessionId streamId;
  match route with
  | None =>
      mret (createTranslation (createRespondDelivery
        (TextPayload (createUnboundInteractiveStreamResetPayload streamId))))
  | Some route =>
      if type_of controlMessage =?= "stream.signal" then
        mret (createTranslation (createRespondDelivery
          (TextPayload (createInvalidStreamSignalResetPayload streamId))))
      else
        mret (mkTranslation
          (createForwardDelivery
             (TextPayload (replaceStreamId controlMessage
                (Int route.(route_binding).(tunnelStreamId))))
             (Some route.(route_bootstrapTarget).(target_sessionId)) None)
          None None None
          (if (type_of controlMessage =?= "stream.close")
              && shouldReleaseStreamOnConnectionClose route.(route_binding)
           then Some (toReleaseInteractiveStream route.(route_binding)) else None))
  end.

Definition translateConnectionTextPayload (peerSessionId payload sandboxInstanceId : string)
    : Translated :=
  let opening kind message :=
    translateConnectionStreamOpen kind peerSessionId message sandboxInstanceId in
  let otherwise : Translated :=
    match parseAgentStreamOpen payload with
    | Some agentStreamOpen => opening AgentChannel agentStreamOpen
    | None =>
    match parseProcessesStreamOpen payload with
    | Some processesStreamOpen => opening ProcessesChannel processesStreamOpen
    | None =>
    match parseFileUploadStreamOpen payload with
    | Some fileUploadStreamOpen => opening FileUploadChannel fileUploadStreamOpen
    | None =>
    match parseExecStreamOpen payload with
    | Some execStreamOpen => opening ExecChannel execStreamOpen
    | None =>
    match parseFileSearchStreamOpen payload with
    | Some fileSearchStreamOpen => opening FileSearchChannel fileSearchStreamOpen
    | None =>
    match parseTelemetryControlMessage payload with
    | Some telemetryControlMessage =>
        throw (createUnsupportedConnectionTelemetryMessageError (type_of telemetryControlMessage))
    | None =>
    match parseOperationControlMessage payload with
    | Some operationControlMessage =>
        throw (TunnelProtocolViolationError
          ("Connection websocket cannot send operation control message type '"
           +:+ type_of operationControlMessage +:+ "'."))
    | None =>
    match parseSigningControlMessage payload with
    | Some signingControlMessage =>
        throw (createUnsupportedConnectionSigningMessageError (type_of signingControlMessage))
    | None =>
    match parseStreamControlMessage payload with
    | None =>
        throw (TunnelProtocolViolationError (createUnsupportedTextPayloadErrorMessage SideConnection))
    | Some controlMessage =>
        translate_connection_control peerSessionId sandboxInstanceId controlMessage
    end end end end end end end end end in
  match parsePortsControlMessage payload with
  | Some portsControlMessage =>
      if type_of portsControlMessage =?= "ports.target.authorize" then
        _ ← forwardConnectionTargetAuthorize sandboxInstanceId peerSessionId portsControlMessage;
        mret (createTranslation DeliverDrop)
      else otherwise
  | None => otherwise
  end.

(** The messages of port access streams a bootstrap tunnel may send. *)
Definition bootstrap_transport_types : list string :=
  ["ports.http.response.start"; "ports.http.body.chunk"; "ports.http.body.end";
   "ports.tcp.connected"; "ports.tcp.close"; "ports.tcp.error"; "ports.stream.error"].

(** The branch for the result of an authorization. *)
Definition translate_authorize_result (peerSessionId sandboxInstanceId : string) (result : json)
    : Translated :=
  resolution ← resolveTargetAuthorizeResult sandboxInstanceId peerSessionId result;
  match resolution with
  | Some (AuthorizeForward result target) =>
      mret (createTranslation
        (createForwardDelivery (TextPayload (JSON_stringify result)) None (Some target)))
  | Some AuthorizeDrop | None => mret (createTranslation DeliverDrop)
  end.

(** The branch for port access transport messages. *)
Definition translate_transport_message (peerSessionId payload sandboxInstanceId : string)
    (message : json) : Translated :=
  if bool_decide (type_of message ∈ bootstrap_transport_types) then
    handled ← handleBootstrapTransportMessage sandboxInstanceId peerSessionId message;
    if negb handled then
      target ← resolveForwardedBootstrapTransportMessage sandboxInstanceId peerSessionId message;
      match target with
      | Some target =>
          mret (createTranslation (createForwardDelivery (TextPayload payload) None (Some target)))
      | None => mret (createTranslation DeliverDrop)
      end
    else mret (createTranslation DeliverDrop)
  else throw (TunnelProtocolViolationError
    ("Bootstrap websocket cannot send ports transport message type '" +:+ type_of message +:+ "'.")).

(** The branch for bootstrap control messages. *)
Definition translate_bootstrap_control (peerSessionId sandboxInstanceId : string)
    (controlMessage : json) : Translated :=
  _ ← assertBootstrapControlMessageAllowed controlMessage;
  let type := type_of controlMessage in
  if type =?= "keepalive.state" then
    mret (mkTranslation DeliverDrop (Some controlMessage) None None None)
  else if type =?= "runtime.ready" then
    mret (mkTranslation DeliverDrop None (Some controlMessage) None None)
  else if type =?= "telemetry.open" then mret (createTranslation (DeliverTelemetryOpen controlMessage))
  else if type =?= "telemetry.close" then
    mret (createTranslation (DeliverTelemetryClose controlMessage))
  else if type =?= "operation.open" then
    mret (createTranslation (DeliverOperationOpen controlMessage))
  else if type =?= "operation.close" then
    mret (createTranslation (DeliverOperationClose controlMessage))
  else
    handled ← (if type =?= "stream.window"
               then handleBootstrapStreamWindow sandboxInstanceId peerSessionId controlMessage
               else mret false);
    if (handled : bool) then mret (createTranslation DeliverDrop)
    else
      route ← find_by_tunnel sandboxInstanceId (integer_of (number_field controlMessage "streamId"));
      match route with
      | None => mret (createTranslation DeliverDrop)
      | Some route =>
          mret (mkTranslation
            (createForwardDelivery
               (TextPayload (replaceStreamId controlMessage route.(route_binding).(clientStreamId)))
               None (Some route.(route_binding).(clientSessionId)))
            None None None
            (if shouldReleaseStreamOnBootstrapMessage controlMessage
             then Some (toReleaseInteractiveStream route.(route_binding)) else None))
      end.

(** The branch for terminal sessions. *)
Definition translate_pty_session (message : json) : Translated :=
  if type_of message =?= "pty.session.open" then
    throw (TunnelProtocolViolationError
      "Bootstrap websocket cannot send pty.session.open control messages.")
  else if type_of message =?= "pty.session.opened" then mret (createTranslation DeliverDrop)
  else
    mret (createTranslation (DeliverPtyClientControl
      (TextPayload (createStreamResetPayload (string_field message "code")
         (string_field message "message") (Int DirectPtyStreamId)))
      (string_field message "ptySessionId"))).

Definition translateBootstrapTextPayload (peerSessionId payload sandboxInstanceId : string)
    : Translated :=
  let otherwise : Translated :=
    match parsePortsTransportMessage payload with
    | Some portsTransportMessage =>
        translate_transport_message peerSessionId payload sandboxInstanceId portsTransportMessage
    | None =>
    match parseEgressTokenControlMessage payload with
    | Some egressTokenControlMessage =>
        if negb (type_of egressTokenControlMessage =?= "egress.token.request") then
          throw (TunnelProtocolViolationError
            ("Bootstrap websocket cannot send egress token control message type '"
             +:+ type_of egressTokenControlMessage +:+ "'."))
        else mret (createTranslation (DeliverEgressTokenRequest egressTokenControlMessage))
    | None =>
    match parseSigningControlMessage payload with
    | Some signingControlMessage =>
        if negb (type_of signingControlMessage =?= "signing.request") then
          throw (TunnelProtocolViolationError
            ("Bootstrap websocket cannot send signing control message type '"
             +:+ type_of signingControlMessage +:+ "'."))
        else mret (createTranslation (DeliverSigningRequest signingControlMessage))
    | None =>
    match parsePtySessionControlMessage payload with
    | Some ptySessionControlMessage => translate_pty_session ptySessionControlMessage
    | None =>
    match parseBootstrapControlMessage payload with
    | None =>
        throw (TunnelProtocolViolationError (createUnsupportedTextPayloadErrorMessage SideBootstrap))
    | Some controlMessage =>
        translate_bootstrap_control peerSessionId sandboxInstanceId controlMessage
    end end end end end in
  match parsePortsControlMessage payload with
  | Some portsControlMessage =>
      if type_of portsControlMessage =?= "ports.target.authorize.result"
      then translate_authorize_result peerSessionId sandboxInstanceId portsControlMessage
      else otherwise
  | None => otherwise
  end.

Definition translateConnectionBinaryPayload (peerSessionId : string) (payload : list Z)
    (sandboxInstanceId : string) : Translated :=
  match readDataFrameHeader payload with
  | None =>
      throw (TunnelProtocolViolationError (createUnsupportedBinaryPayloadErrorMessage SideConnection))
  | Some header =>
      let unbound := createTranslation (createRespondDelivery
        (TextPayload (createUnboundInteractiveStreamResetPayload (Int header.(header_streamId))))) in
      route ← find_by_client sandboxInstanceId peerSessionId (Int header.(header_streamId));
      match route with
      | None => mret unbound
      | Some route =>
          if negb (isPayloadKindAllowedForChannel route.(route_binding).(channelKind)
                     header.(header_payloadKind))
          then mret (released_translation (createRespondDelivery
                 (TextPayload (createInvalidStreamDataResetPayload
                    route.(route_binding).(channelKind) route.(route_binding).(clientStreamId))))
                 route)
          else
            match rewriteStreamId payload (Int route.(route_binding).(tunnelStreamId)) with
            | None => mret unbound
            | Some translatedPayload =>
                mret (createTranslation (createForwardDelivery (BinaryPayload translatedPayload)
                  (Some route.(route_bootstrapTarget).(target_sessionId)) None))
            end
      end
  end.

Definition translateBootstrapBinaryPayload (peerSessionId : string) (payload : list Z)
    (sandboxInstanceId : string) : Translated :=
  match readDataFrameHeader payload with
  | None =>
      throw (TunnelProtocolViolationError (createUnsupportedBinaryPayloadErrorMessage SideBootstrap))
  | Some header =>
      let streamId := header.(header_streamId) in
      handled ← handleBootstrapDataFrame sandboxInstanceId peerSessionId payload;
      if (handled : bool) then mret (createTranslation DeliverDrop)
      else
        route ← find_by_tunnel sandboxInstanceId streamId;
        match route with
        | None =>
            if negb (header.(header_payloadKind) =? PayloadKindRawBytes) then
              mret (createTranslation
                (if streamId =? ReservedOperationStreamId
                 then DeliverOperationInvalidData header.(header_payloadKind) streamId
                 else DeliverTelemetryInvalidData header.(header_payloadKind) streamId))
            else
              mret (createTranslation
                (if streamId =? ReservedOperationStreamId
                 then DeliverOperationData payload streamId
                 else DeliverTelemetryData payload streamId))
        | Some route =>
            if negb (isPayloadKindAllowedForChannel route.(route_binding).(channelKind)
                       header.(header_payloadKind))
            then mret (released_translation (createForwardDelivery
                   (TextPayload (createInvalidStreamDataResetPayload
                      route.(route_binding).(channelKind) route.(route_binding).(clientStreamId)))
                   None (Some route.(route_binding).(clientSessionId)))
                   route)
            else
              match rewriteStreamId payload route.(route_binding).(clientStreamId) with
              | None =>
                  mret (createTranslation (createRespondDelivery
                    (TextPayload (createUnboundInteractiveStreamResetPayload (Int streamId)))))
              | Some translatedPayload =>
                  mret (createTranslation (createForwardDelivery (BinaryPayload translatedPayload)
                    None (Some route.(route_binding).(clientSessionId))))
              end
        end
  end.

Definition translateInboundMessage (input : TranslateTunnelInboundMessageInput) : Translated :=
  let id := input.(translate_sandboxInstanceId) in
  let session := input.(translate_clientSessionId) in
  match input.(translate_payload) with
  | TextPayload payload =>
      if input.(translate_sourcePeerSide) =?= SideConnection
      then translateConnectionTextPayload session payload id
      else translateBootstrapTextPayload session payload id
  | BinaryPayload payload =>
      if input.(translate_sourcePeerSide) =?= SideConnection
      then translateConnectionBinaryPayload session payload id
      else translateBootstrapBinaryPayload session payload id
  end.
End Translator.
