(* ===== verification/TranslatorSpec.v ===== *)
(** * What the translator does with a message

    The properties of Translator.v, over any forwarding client with the laws of
    Forwarding.v, any zod with the laws of Zod.v and any port access services:
    what a message of a connection and of a bootstrap tunnel may cause, which
    messages are refused, and that a message crosses the tunnel and comes back
    unchanged. *)

From S2P Require Import Prelude JsMap Json Zod Protocol DataFrame.
From S2P Require Import TunnelTypes TunnelSession SessionRegistry RuntimeState Forwarding Translator.
Local Open Scope Z_scope.

(** The control messages a connection may send. *)
Definition connection_control_types : list string :=
  ["stream.open"; "stream.signal"; "stream.close"; "stream.window"].

Lemma connection_allowed_iff m :
  isConnectionControlMessageAllowed m = bool_decide (type_of m ∈ connection_control_types).
Proof.
  unfold isConnectionControlMessageAllowed, connection_control_types. apply eq_bool_prop_intro.
  rewrite !orb_True, !bool_decide_spec. set_solver.
Qed.

(** ** What a message may cause *)

Section Theory.
Context {PortTarget AuthorizeResult W : Type}.
Context `{InteractiveStreamLaws PortTarget AuthorizeResult W} `{ZodLaws} `{PublishingServices W}.
Context (sourceNode : string) (resolve_owner : string → M JsError W SandboxOwnerResolution).
Context (resolve_owner_ok : ∀ id w, stream_world_ok w → stream_world_ok (resolve_owner id w).2).
Notation translate := (translateInboundMessage sourceNode resolve_owner).
Notation opens := (router_openInteractiveStream sourceNode resolve_owner).
Notation finds_by_client := (find_by_client sourceNode resolve_owner).
Notation finds_by_tunnel := (find_by_tunnel sourceNode resolve_owner).

(** A binary message is a list of bytes. *)
Definition payload_ok (payload : RelayPayload) : Prop :=
  match payload with TextPayload _ => True | BinaryPayload b => bytes b end.

(** The stream a message is about, in the numbering of its sender. *)
Definition inbound_streamId (payload : RelayPayload) : option number :=
  match payload with
  | TextPayload text => (λ m, number_field m "streamId") <$> parseStreamControlMessage text
  | BinaryPayload bytes => (λ h, Int h.(header_streamId)) <$> readDataFrameHeader bytes
  end.

Lemma number_field_of m key n : field m key = Some (JNumber (Int n)) → number_field m key = Int n.
Proof. unfold number_field. by intros ->. Qed.

Lemma type_of_field m t : field m "type" = Some (JString t) → type_of m = t.
Proof. unfold type_of, string_field. by intros ->. Qed.

Lemma inbound_streamId_valid payload x :
  payload_ok payload → inbound_streamId payload = Some x →
  ∃ n, x = Int n ∧ valid_message_streamId n.
Proof.
  intros Hok. destruct payload as [text|b]; simpl.
  - destruct (parseStreamControlMessage text) as [m|] eqn:Hm; [|done]. intros [= <-].
    destruct (message_streamId StreamFamily text m eq_refl Hm) as (n & Hn & Hv).
    exists n. split; [by apply number_field_of|done].
  - destruct (readDataFrameHeader b) as [h|] eqn:Hh; [|done]. intros [= <-].
    destruct (readDataFrameHeader_inv _ _ Hok Hh) as (_ & _ & Hn & _).
    exists h.(header_streamId). split; [done|].
    unfold valid_stream_id, valid_message_streamId, MaxStreamId, MAX_SAFE_INTEGER in *. lia.
Qed.

(** An error message with a code and a text is a valid message of the stream. *)
Lemma error_payload_parses type n code message :
  type ∈ ["stream.open.error"; "stream.reset"] → valid_message_streamId n →
  code ≠ "" → message ≠ "" →
  parseStreamControlMessage (error_payload type (Int n) code message) =
    Some (error_message_json type (Int n) code message).
Proof.
  intros Htype Hn Hcode Hmessage. apply (written_message StreamFamily); [vm_compute; reflexivity|].
  assert (in_range (Some 1) None n = true) as Hrange.
  { unfold in_range, valid_message_streamId in *. rewrite !andb_true_iff, !Z.leb_le. lia. }
  assert (∀ type, safeParse (ZObject [("type", ZLiteral type); ("streamId", PositiveIntegerSchema);
      ("code", NonEmptyStringSchema); ("message", NonEmptyStringSchema)])
    (error_message_json type (Int n) code message) =
    Some (error_message_json type (Int n) code message)) as Hobject.
  { intros t. rewrite zod_object. cbn [error_message_json parse_shape].
    change (JsMap.get _ "type") with (Some (JString t)).
    change (JsMap.get _ "streamId") with (Some (JNumber (Int n))).
    change (JsMap.get _ "code") with (Some (JString code)).
    change (JsMap.get _ "message") with (Some (JString message)).
    unfold PositiveIntegerSchema, NonEmptyStringSchema.
    rewrite zod_literal, zod_int, Hrange, !zod_non_empty.
    rewrite (bool_decide_true (t = t)) by done. by rewrite !bool_decide_false. }
  cbn [family_schema]. unfold StreamControlMessageSchema.
  rewrite zod_discriminated_union. change (field _ "type") with (Some (JString type)).
  cbv iota. rewrite parse_discriminated_find.
  repeat (apply elem_of_cons in Htype as [->|Htype]; [apply Hobject|]).
  by apply not_elem_of_nil in Htype.
Qed.

(** The answer to a connection: an error of the stream its message is about. *)
Definition answers_stream (payload reply : RelayPayload) : Prop :=
  ∃ type x code message, inbound_streamId payload = Some x ∧
    type ∈ ["stream.open.error"; "stream.reset"] ∧
    reply = TextPayload (error_payload type x code message) ∧
    (message ≠ "" →
     parseStreamControlMessage (error_payload type x code message) =
       Some (error_message_json type x code message)).

Lemma answers_stream_intro payload x type code message :
  payload_ok payload → inbound_streamId payload = Some x →
  type ∈ ["stream.open.error"; "stream.reset"] → code ≠ "" →
  answers_stream payload (TextPayload (error_payload type x code message)).
Proof.
  intros Hok Hx Htype Hcode. exists type, x, code, message. split_and!; [done..|]. intros Hmessage.
  destruct (inbound_streamId_valid _ _ Hok Hx) as (n & -> & Hn). by apply error_payload_parses.
Qed.

(** What is forwarded: the message itself with the tunnel's stream id. *)
Definition forwards_stream (payload forwarded : RelayPayload) (route : InteractiveStreamRoute)
    : Prop :=
  let t := route.(route_binding).(tunnelStreamId) in
  match payload, forwarded with
  | TextPayload text, TextPayload text' =>
      ∃ m, parseStreamControlMessage text = Some m ∧
        type_of m ∈ ["stream.open"; "stream.close"; "stream.window"] ∧
        (t ≤ MAX_SAFE_INTEGER → parseStreamControlMessage text' = Some (with_streamId m (Int t)))
  | BinaryPayload bytes, BinaryPayload bytes' =>
      ∃ h, readDataFrameHeader bytes = Some h ∧
        isPayloadKindAllowedForChannel route.(route_binding).(channelKind) h.(header_payloadKind)
          = true ∧
        rewriteStreamId bytes (Int t) = Some bytes'
  | _, _ => False
  end.

(** The outcome of a message from the connection [session]. *)
Definition connection_confined (payload : RelayPayload) (id session : string) (w : W)
    (t : TunnelProtocolTranslation) (w' : W) : Prop :=
  t.(keepaliveControlMessage) = None ∧ t.(runtimeReadyControlMessage) = None ∧
  (∀ b target, t.(notifyBootstrapPeerOfReleasedStream) = Some (b, target) →
    b.(clientSessionId) = session) ∧
  (∀ r, t.(releaseInteractiveStream) = Some r →
    r.(releaseStream_clientSessionId) = session ∧
    inbound_streamId payload = Some r.(releaseStream_clientStreamId)) ∧
  match t.(delivery) with
  | DeliverDrop =>
      ∃ text m, payload = TextPayload text ∧ parsePortsControlMessage text = Some m ∧
        type_of m = "ports.target.authorize" ∧
        forwardConnectionTargetAuthorize id session m w = (inr tt, w')
  | DeliverRespond reply => answers_stream payload reply
  | DeliverForward forwarded (Some target) None =>
      ∃ stream route, inbound_streamId payload = Some stream ∧ is_route_of route session stream ∧
        ((∃ kind, opens (mkOpenInput id session stream kind) w = (inr route, w')) ∨
         finds_by_client id session stream w = (inr (Some route), w')) ∧
        target = route.(route_bootstrapTarget).(target_sessionId) ∧
        forwards_stream payload forwarded route
  | _ => False
  end.

Lemma forwards_text text m route :
  parseStreamControlMessage text = Some m →
  type_of m ∈ ["stream.open"; "stream.close"; "stream.window"] →
  1 ≤ route.(route_binding).(tunnelStreamId) →
  forwards_stream (TextPayload text)
    (TextPayload (replaceStreamId m (Int route.(route_binding).(tunnelStreamId)))) route.
Proof.
  intros Hm Htype Ht. exists m. split_and!; [done..|]. intros Hmax.
  by apply (restreamed_message StreamFamily text).
Qed.

Lemma open_error_payload error x reply :
  toStreamOpenErrorPayload error x = inr reply →
  ∃ code message, code ≠ "" ∧ reply = error_payload "stream.open.error" x code message.
Proof.
  unfold toStreamOpenErrorPayload, createStreamOpenErrorPayload.
  destruct error as [ | | | |errorCode errorMessage| | ]; try discriminate;
    try (destruct errorCode; try discriminate); intros Hreply; injection Hreply as <-;
    eexists _, _; (split; [|reflexivity]); discriminate.
Qed.

Lemma connection_open_confined kind session text m id w t w' :
  parseStreamControlMessage text = Some m → type_of m = "stream.open" → stream_world_ok w →
  translateConnectionStreamOpen sourceNode resolve_owner kind session m id w = (inr t, w') →
  connection_confined (TextPayload text) id session w t w'.
Proof.
  intros Hm Htype Hw. unfold translateConnectionStreamOpen, try_catch, mbind, M_bind.
  set (x := number_field m "streamId").
  assert (inbound_streamId (TextPayload text) = Some x) as Hx by (simpl; by rewrite Hm).
  destruct (opens _ w) as [[e|route] w1] eqn:Hopen.
  - destruct (toStreamOpenErrorPayload e x) as [e'|reply] eqn:He; [done|]. intros [= <- <-].
    split_and!; [done..|]. cbn. apply open_error_payload in He as (code & message & Hcode & ->).
    apply answers_stream_intro; [done|done|by left|done].
  - intros [= <- <-]. split_and!; [done..|]. cbn.
    destruct (router_open_laws sourceNode resolve_owner resolve_owner_ok _ _ _ _ Hw Hopen)
      as [_ Hroute]. destruct (Hroute route eq_refl) as [Hof Hk]. exists x, route.
    split_and!; [done|done|by left; exists kind|done|]. apply forwards_text; [done| |apply Hof].
    rewrite Htype. set_solver.
Qed.

Lemma parse_stream_open_some kind text m :
  parse_stream_open kind text = Some m →
  parseStreamControlMessage text = Some m ∧ type_of m = "stream.open".
Proof.
  unfold parse_stream_open. destruct (parseStreamControlMessage text) as [m'|]; [|done].
  destruct (_ || _) eqn:Hb; [done|]. intros [= ->]. bools. done.
Qed.

(** The branches of a text message from a connection. *)
Inductive connection_text_case (session text id : string)
    : M JsError W TunnelProtocolTranslation → Prop :=
| text_authorize m :
    parsePortsControlMessage text = Some m → type_of m = "ports.target.authorize" →
    connection_text_case session text id
      (_ ← forwardConnectionTargetAuthorize id session m; mret (createTranslation DeliverDrop))
| text_open kind m :
    parseStreamControlMessage text = Some m → type_of m = "stream.open" →
    connection_text_case session text id
      (translateConnectionStreamOpen sourceNode resolve_owner kind session m id)
| text_control m :
    parseStreamControlMessage text = Some m →
    parseTelemetryControlMessage text = None → parseOperationControlMessage text = None →
    parseSigningControlMessage text = None →
    connection_text_case session text id 
      (translate_connection_control sourceNode resolve_owner session id m)
| text_violation message :
    (parseStreamControlMessage text = None ∨ is_Some (parseTelemetryControlMessage text) ∨
     is_Some (parseOperationControlMessage text) ∨ is_Some (parseSigningControlMessage text)) →
    (∀ m, parsePortsControlMessage text = Some m → type_of m ≠ "ports.target.authorize") →
    connection_text_case session text id (throw (TunnelProtocolViolationError message)).

Lemma connection_text_cases session text id :
  connection_text_case session text id
    (translateConnectionTextPayload sourceNode resolve_owner session text id).
Proof.
  unfold translateConnectionTextPayload. cbv zeta.
  assert (∀ otherwise, (∀ m, parsePortsControlMessage text = Some m →
      type_of m ≠ "ports.target.authorize") ∧
      connection_text_case session text id otherwise ∨
      (∃ m, parsePortsControlMessage text = Some m ∧ type_of m = "ports.target.authorize") →
    connection_text_case session text id
      match parsePortsControlMessage text with
      | Some m => if type_of m =?= "ports.target.authorize"
                  then _ ← forwardConnectionTargetAuthorize id session m;
                       mret (createTranslation DeliverDrop)
                  else otherwise
      | None => otherwise
      end) as Hports.
  { intros otherwise. destruct (parsePortsControlMessage text) as [m|] eqn:Hm; [|naive_solver].
    case_bool_decide; naive_solver eauto using text_authorize. }
  apply Hports. destruct (parsePortsControlMessage text) as [m|] eqn:Hm;
    [destruct (decide (type_of m = "ports.target.authorize")); [right; eauto|]|];
    (left; split; [naive_solver|]);
    unfold parseAgentStreamOpen, parseProcessesStreamOpen, parseFileUploadStreamOpen,
      parseExecStreamOpen, parseFileSearchStreamOpen;
    repeat (match goal with
      | |- context [match parse_stream_open ?k text with _ => _ end] =>
          destruct (parse_stream_open k text) eqn:?;
          [eapply text_open; by eapply parse_stream_open_some|]
      end).
  all: destruct (parseTelemetryControlMessage text) eqn:Ht; [apply text_violation; naive_solver|].
  all: destruct (parseOperationControlMessage text) eqn:Ho; [apply text_violation; naive_solver|].
  all: destruct (parseSigningControlMessage text) eqn:Hsg; [apply text_violation; naive_solver|].
  all: destruct (parseStreamControlMessage text) eqn:Hs; [by apply text_control|].
  all: apply text_violation; naive_solver.
Qed.

Lemma respond_confined payload id session w x type code message w' :
  payload_ok payload → inbound_streamId payload = Some x →
  type ∈ ["stream.open.error"; "stream.reset"] → code ≠ "" →
  connection_confined payload id session w
    (createTranslation (createRespondDelivery (TextPayload (error_payload type x code message)))) w'.
Proof. intros. split_and!; [done..|]. by apply answers_stream_intro. Qed.

Lemma reset_type : "stream.reset" ∈ ["stream.open.error"; "stream.reset"].
Proof. right; left. Qed.

Ltac answer_reset :=
  unfold createUnboundInteractiveStreamResetPayload, createInvalidStreamSignalResetPayload,
    createInvalidStreamDataResetPayload, createStreamResetPayload;
  first [apply answers_stream_intro | apply respond_confined];
  [done | assumption | exact reset_type | discriminate].

Lemma assert_connection_allowed (m : json) (w : W) r w' :
  assertConnectionControlMessageAllowed m w = (inr r, w') →
  w' = w ∧ type_of m ∈ connection_control_types.
Proof.
  unfold assertConnectionControlMessageAllowed. rewrite connection_allowed_iff.
  case_bool_decide; [|done]. by intros [= _ <-].
Qed.

Lemma connection_control_confined session id text m w t w' :
  parseStreamControlMessage text = Some m → stream_world_ok w →
  translate_connection_control sourceNode resolve_owner session id m w = (inr t, w') →
  connection_confined (TextPayload text) id session w t w'.
Proof.
  intros Hm Hw. unfold translate_connection_control. set (x := number_field m "streamId").
  assert (inbound_streamId (TextPayload text) = Some x) as Hx by (simpl; by rewrite Hm).
  destruct (inbound_streamId_valid (TextPayload text) x I Hx) as (n & Hn & Hv).
  intros ([] & w1 & [-> Htype]%assert_connection_allowed & Heq)%M_bind_inr.
  apply M_bind_inr in Heq as (route & w1 & Hfind & Heq).
  destruct route as [route|]; cycle 1.
  { injection Heq as <- <-. answer_reset. }
  destruct (router_find_by_client_laws sourceNode resolve_owner resolve_owner_ok _ _ _ _ Hw Hfind)
    as [_ Hroute].
  assert (is_route_of route session x) as Hof.
  { apply Hroute; [done|]. exists n. split; [done|]. unfold valid_message_streamId in Hv. lia. }
  case_bool_decide as Hsignal.
  { injection Heq as <- <-. answer_reset. }
  injection Heq as <- <-. split_and!; [done..| |].
  - intros r Hr. cbn in Hr. destruct (_ && _); [|done]. injection Hr as <-.
    destruct Hof as (? & Hstream & _). split; [done|]. rewrite Hx. f_equal. by symmetry.
  - exists x, route. split_and!; [done|done|by right|done|].
    apply forwards_text; [done| |apply Hof].
    clear -Htype Hsignal. unfold connection_control_types in Htype. set_solver.
Qed.

Lemma connection_binary_confined session id b w t w' :
  bytes b → stream_world_ok w →
  translateConnectionBinaryPayload sourceNode resolve_owner session b id w = (inr t, w') →
  connection_confined (BinaryPayload b) id session w t w'.
Proof.
  intros Hb Hw. unfold translateConnectionBinaryPayload.
  destruct (readDataFrameHeader b) as [h|] eqn:Hh; [|done]. set (x := Int h.(header_streamId)).
  assert (inbound_streamId (BinaryPayload b) = Some x) as Hx by (simpl; by rewrite Hh).
  destruct (inbound_streamId_valid (BinaryPayload b) x Hb Hx) as (n & Hn & Hv).
  intros (route & w1 & Hfind & Heq)%M_bind_inr.
  destruct route as [route|]; cycle 1.
  { injection Heq as <- <-. answer_reset. }
  destruct (router_find_by_client_laws sourceNode resolve_owner resolve_owner_ok _ _ _ _ Hw Hfind)
    as [_ Hroute].
  assert (is_route_of route session x) as Hof.
  { apply Hroute; [done|]. exists n. split; [done|]. unfold valid_message_streamId in Hv. lia. }
  pose proof Hof as (Hsession & Hstream & Ht).
  destruct (isPayloadKindAllowedForChannel _ _) eqn:Hkind; cbn [negb] in Heq.
  - destruct (rewriteStreamId b _) as [b'|] eqn:Hb'; injection Heq as <- <-; [|answer_reset].
    split_and!; [done..|]. exists x, route. split_and!; [done|done|by right|done|].
    exists h. by split_and!.
  - injection Heq as <- <-. unfold released_translation. split_and!; [done..| | |].
    + by intros ? ? [= <- _].
    + intros r [= <-]. split; [done|]. rewrite Hx. f_equal. by symmetry.
    + cbn [delivery createRespondDelivery]. rewrite Hstream. answer_reset.
Qed.

(** A message from a connection only reaches streams of that connection.  It is
    dropped only when it is an authorization request, which the service got; it
    is answered only with an error of the stream it names, in a text the sender
    can parse; and otherwise it is forwarded unchanged but for the stream id, to
    the bootstrap session of a route the router holds for this session and this
    stream, with a payload kind the channel takes.  It never reaches telemetry,
    operations, signing, tokens or another connection, and releases no stream
    but its own. *)
Lemma connection_translated (input : TranslateTunnelInboundMessageInput) (w : W)
    (t : TunnelProtocolTranslation) (w' : W) :
  input.(translate_sourcePeerSide) = SideConnection → payload_ok input.(translate_payload) →
  stream_world_ok w → translate input w = (inr t, w') →
  connection_confined input.(translate_payload) input.(translate_sandboxInstanceId)
    input.(translate_clientSessionId) w t w'.
Proof.
  intros Hside Hok Hw. unfold translateInboundMessage. rewrite Hside.
  rewrite !bool_decide_true by done.
  destruct input.(translate_payload) as [text|b]; [|by apply connection_binary_confined].
  destruct (connection_text_cases input.(translate_clientSessionId) text
    input.(translate_sandboxInstanceId)) as [m Hm Htype|kind m Hm Htype|m Hm|message]; [| | |done].
  - intros ([] & w1 & Hcall & [= <- <-])%M_bind_inr. split_and!; [done..|].
    exists text, m. split_and!; done.
  - by apply connection_open_confined with (m := m).
  - by apply connection_control_confined.
Qed.

(** The branches of a text message from a bootstrap tunnel. *)
Definition bootstrap_families : list message_family :=
  [PortsControlFamily; PortsTransportFamily; EgressTokenFamily; SigningFamily; PtySessionFamily;
   BootstrapFamily].

Inductive bootstrap_text_case (session text id : string)
    : M JsError W TunnelProtocolTranslation → Prop :=
| text_authorize_result m :
    parsePortsControlMessage text = Some m → type_of m = "ports.target.authorize.result" →
    bootstrap_text_case session text id (translate_authorize_result session id m)
| text_transport m :
    parsePortsTransportMessage text = Some m →
    bootstrap_text_case session text id (translate_transport_message session text id m)
| text_egress m :
    parseEgressTokenControlMessage text = Some m → type_of m = "egress.token.request" →
    bootstrap_text_case session text id (mret (createTranslation (DeliverEgressTokenRequest m)))
| text_signing m :
    parseSigningControlMessage text = Some m → type_of m = "signing.request" →
    bootstrap_text_case session text id (mret (createTranslation (DeliverSigningRequest m)))
| text_pty m :
    parsePtySessionControlMessage text = Some m →
    bootstrap_text_case session text id (translate_pty_session m)
| text_bootstrap_control m :
    parseBootstrapControlMessage text = Some m →
    bootstrap_text_case session text id
      (translate_bootstrap_control sourceNode resolve_owner session id m)
| text_wrong_type f m message :
    parse_family f text = Some m →
    (f, type_of m) ∉ [(PortsControlFamily, "ports.target.authorize.result");
                      (EgressTokenFamily, "egress.token.request");
                      (SigningFamily, "signing.request")] →
    f ∈ [PortsControlFamily; EgressTokenFamily; SigningFamily] →
    bootstrap_text_case session text id (throw (TunnelProtocolViolationError message))
| text_unknown message :
    Forall (λ f, parse_family f text = None) bootstrap_families →
    bootstrap_text_case session text id (throw (TunnelProtocolViolationError message)).

Lemma bootstrap_text_cases session text id :
  bootstrap_text_case session text id
    (translateBootstrapTextPayload sourceNode resolve_owner session text id).
Proof.
  clear resolve_owner_ok. unfold translateBootstrapTextPayload. cbv zeta.
  destruct (parsePortsControlMessage text) as [m|] eqn:Hc;
    [destruct (decide (type_of m = "ports.target.authorize.result")) as [Ht|Ht];
      [rewrite bool_decide_true by done; by apply text_authorize_result|
       rewrite bool_decide_false by done]|].
  all: destruct (parsePortsTransportMessage text) as [mt|] eqn:Htr; [by apply text_transport|].
  all: destruct (parseEgressTokenControlMessage text) as [me|] eqn:He;
    [destruct (decide (type_of me = "egress.token.request")) as [Hte|Hte];
      [rewrite bool_decide_true by done; by apply text_egress|
       rewrite bool_decide_false by done; apply (text_wrong_type _ _ _ EgressTokenFamily me);
         [done|set_solver|set_solver]]|].
  all: destruct (parseSigningControlMessage text) as [ms|] eqn:Hsg;
    [destruct (decide (type_of ms = "signing.request")) as [Hts|Hts];
      [rewrite bool_decide_true by done; by apply text_signing|
       rewrite bool_decide_false by done; apply (text_wrong_type _ _ _ SigningFamily ms);
         [done|set_solver|set_solver]]|].
  all: destruct (parsePtySessionControlMessage text) as [mp|] eqn:Hp; [by apply text_pty|].
  all: destruct (parseBootstrapControlMessage text) as [mb|] eqn:Hb;
    [by apply text_bootstrap_control|].
  - apply (text_wrong_type _ _ _ PortsControlFamily m); [done|set_solver|set_solver].
  - apply text_unknown. repeat constructor; done.
Qed.

(** ** Which messages are refused *)

(** The messages each side may send. *)
Definition accepted_types (side : RelayPeerSide) : list (message_family * list string) :=
  match side with
  | SideConnection =>
      [(PortsControlFamily, ["ports.target.authorize"]);
       (StreamFamily, connection_control_types)]
  | _ =>
      [(PortsControlFamily, ["ports.target.authorize.result"]);
       (PortsTransportFamily, bootstrap_transport_types);
       (EgressTokenFamily, ["egress.token.request"]);
       (SigningFamily, ["signing.request"]);
       (PtySessionFamily, ["pty.session.opened"; "pty.session.error"]);
       (BootstrapFamily,
        ["stream.open.ok"; "stream.open.error"; "stream.event"; "stream.complete"; "stream.reset";
         "stream.window"; "telemetry.open"; "telemetry.close"; "operation.open"; "operation.close";
         "keepalive.state"; "runtime.ready"])]
  end.

Definition accepts (side : RelayPeerSide) (payload : RelayPayload) : bool :=
  match payload with
  | BinaryPayload b => bool_decide (is_Some (readDataFrameHeader b))
  | TextPayload text =>
      existsb (λ e, match parse_family e.1 text with
                    | Some m => bool_decide (type_of m ∈ e.2)
                    | None => false
                    end) (accepted_types side)
  end.

Lemma accepts_text side text :
  accepts side (TextPayload text) = true ↔
  ∃ f types m, (f, types) ∈ accepted_types side ∧ parse_family f text = Some m ∧ type_of m ∈ types.
Proof.
  cbn [accepts]. rewrite List.existsb_exists. split.
  - intros ([f types] & Hin%list_elem_of_In & Hm). cbn in Hm.
    destruct (parse_family f text) as [m|] eqn:Hf; [|done]. apply bool_decide_eq_true in Hm.
    by exists f, types, m.
  - intros (f & types & m & Hin & Hm & Ht). exists (f, types). split; [by apply list_elem_of_In|].
    cbn. rewrite Hm. by apply bool_decide_eq_true.
Qed.

Lemma accepts_intro side text f types m :
  parse_family f text = Some m → (f, types) ∈ accepted_types side → type_of m ∈ types →
  accepts side (TextPayload text) = true.
Proof. intros. apply accepts_text. by exists f, types, m. Qed.

(** Every control message of a bootstrap tunnel is one it may send. *)
Lemma parsed_type f text m : parse_family f text = Some m → type_of m ∈ message_types (family_schema f).
Proof.
  intros (t & Ht & Hf)%parse_family_type. by rewrite (type_of_field m t Hf).
Qed.

(** A call that never throws. *)
Definition quiet {A} (call : M JsError W A) : Prop := ∀ w, ∃ a w', call w = (inr a, w').

Lemma quiet_bind {A B} (call : M JsError W A) (k : A → M JsError W B) :
  quiet call → (∀ a, quiet (k a)) → quiet (call ≫= k).
Proof.
  intros Hcall Hk w. unfold mbind, M_bind. destruct (Hcall w) as (a & w1 & ->). apply Hk.
Qed.

Lemma quiet_ret {A} (a : A) : quiet (mret a).
Proof. intros w. by eexists _, _. Qed.

(** The services and the router do not throw. *)
Record collaborators_quiet : Prop := {
  quiet_authorize id session m : quiet (forwardConnectionTargetAuthorize id session m);
  quiet_result id session m : quiet (resolveTargetAuthorizeResult id session m);
  quiet_transport id session m : quiet (handleBootstrapTransportMessage id session m);
  quiet_forwarded id session m : quiet (resolveForwardedBootstrapTransportMessage id session m);
  quiet_window id session m : quiet (handleBootstrapStreamWindow id session m);
  quiet_frame id session b : quiet (handleBootstrapDataFrame id session b);
  quiet_open input : quiet (opens input);
  quiet_by_client id session stream : quiet (finds_by_client id session stream);
  quiet_by_tunnel id stream : quiet (finds_by_tunnel id stream);
}.

Definition refused {A} (call : M JsError W A) : Prop :=
  ∀ w, ∃ message, call w = (inl (TunnelProtocolViolationError message), w).

Lemma refused_throw {A} message : refused (throw (A := A) (TunnelProtocolViolationError message)).
Proof. intros w. by eexists. Qed.

Lemma refused_bind {A B} (call : M JsError W A) (k : A → M JsError W B) :
  refused call → refused (call ≫= k).
Proof. intros Hcall w. unfold mbind, M_bind. destruct (Hcall w) as [message ->]. by eexists. Qed.

Ltac quiet Q :=
  repeat (first
    [ apply quiet_ret | apply (quiet_authorize Q)
    | apply (quiet_result Q) | apply (quiet_transport Q) | apply (quiet_forwarded Q)
    | apply (quiet_window Q) | apply (quiet_frame Q) | apply (quiet_by_client Q)
    | apply (quiet_by_tunnel Q) | apply quiet_bind; [|intros ?]
    | match goal with |- quiet (match ?x with _ => _ end) => destruct x end ]).

Lemma two_families f g text m m' :
  parse_family f text = Some m → parse_family g text = Some m' →
  bool_decide (f = g) || (bool_decide (f = BootstrapFamily) && shared_with_bootstrap g)
  || (bool_decide (g = BootstrapFamily) && shared_with_bootstrap f) = true.
Proof.
  intros Hf Hg. destruct (parsed_families f g text m m' Hf Hg) as [->|[[-> ->]|[-> ->]]];
    by rewrite ?bool_decide_true, ?orb_true_r by done.
Qed.

Lemma connection_open_quiet kind session m id :
  collaborators_quiet → quiet (translateConnectionStreamOpen sourceNode resolve_owner kind session m id).
Proof.
  intros Q w. unfold translateConnectionStreamOpen, try_catch, mbind, M_bind.
  destruct (quiet_open Q (mkOpenInput id session (number_field m "streamId") kind) w)
    as (route & w1 & ->). by eexists _, _.
Qed.

Lemma connection_text_accepted session text id :
  collaborators_quiet → accepts SideConnection (TextPayload text) = true →
  quiet (translateConnectionTextPayload sourceNode resolve_owner session text id).
Proof.
  intros Q (f & types & m0 & Hin & Hm0 & Htype0)%accepts_text.
  destruct (connection_text_cases session text id) as [m Hm Htype|kind m Hm Htype|m Hm _ _ _|message Hbad Hports].
  - quiet Q.
  - by apply connection_open_quiet.
  - unfold translate_connection_control.
    apply elem_of_cons in Hin as [[= -> ->]|[[= -> ->]|[]%not_elem_of_nil]%elem_of_cons].
    { by pose proof (two_families _ StreamFamily _ _ _ Hm0 Hm). }
    cbn in Hm0. rewrite Hm in Hm0. injection Hm0 as ->.
    unfold assertConnectionControlMessageAllowed.
    rewrite connection_allowed_iff, (bool_decide_true (_ ∈ _)) by done. quiet Q.
  - exfalso. apply elem_of_cons in Hin as [[= -> ->]|[[= -> ->]|[]%not_elem_of_nil]%elem_of_cons].
    + apply (Hports m0 Hm0). by apply list_elem_of_singleton.
    + cbn in Hm0. destruct Hbad as [Hno|[[m Hm]|[[m Hm]|[m Hm]]]]; [by rewrite Hno in Hm0| | |].
      * by pose proof (two_families StreamFamily TelemetryControlFamily _ _ _ Hm0 Hm).
      * by pose proof (two_families StreamFamily OperationControlFamily _ _ _ Hm0 Hm).
      * by pose proof (two_families StreamFamily SigningFamily _ _ _ Hm0 Hm).
Qed.

Lemma connection_text_refused session text id :
  accepts SideConnection (TextPayload text) = false →
  refused (translateConnectionTextPayload sourceNode resolve_owner session text id).
Proof.
  intros Hno. destruct (connection_text_cases session text id) as [m Hm Htype|kind m Hm Htype|m Hm _ _ _|message Hbad Hports].
  - rewrite (accepts_intro SideConnection text PortsControlFamily ["ports.target.authorize"] m) in Hno;
      [done|done|by left|by rewrite Htype; left].
  - rewrite (accepts_intro SideConnection text StreamFamily connection_control_types m) in Hno;
      [done|done|by right; left|].
    rewrite Htype. left.
  - unfold translate_connection_control. apply refused_bind.
    unfold assertConnectionControlMessageAllowed.
    rewrite connection_allowed_iff. case_bool_decide; [|apply refused_throw].
    by rewrite (accepts_intro SideConnection text StreamFamily connection_control_types m) in Hno
      by (done || by right; left).
  - apply refused_throw.
Qed.

Lemma bootstrap_accepted_family f types :
  (f, types) ∈ accepted_types SideBootstrap → f ∈ bootstrap_families.
Proof.
  intros Hin. change bootstrap_families with (accepted_types SideBootstrap).*1.
  apply list_elem_of_fmap. by exists (f, types).
Qed.

(** Each family occurs once in the table. *)
Lemma bootstrap_accepted_once f types types' :
  (f, types) ∈ accepted_types SideBootstrap → (f, types') ∈ accepted_types SideBootstrap →
  types = types'.
Proof.
  assert (NoDup (accepted_types SideBootstrap).*1) as Hnd.
  { apply (bool_decide_unpack _). vm_compute. exact I. }
  rewrite !JsMap.elem_of_get by done. congruence.
Qed.

(** A bootstrap tunnel's text is of one family only. *)
Lemma bootstrap_family_unique f g text m m' :
  f ∈ bootstrap_families → g ∈ bootstrap_families →
  parse_family f text = Some m → parse_family g text = Some m' → f = g ∧ m = m'.
Proof.
  intros Hf Hg Hm Hm'. assert (f = g) as ->; [|by rewrite Hm in Hm'; simplify_eq].
  pose proof (two_families f g text m m' Hm Hm') as Hfg.
  unfold bootstrap_families in *.
  repeat (apply elem_of_cons in Hf as [->|Hf]);
    try (by apply not_elem_of_nil in Hf);
    repeat (apply elem_of_cons in Hg as [->|Hg]); try done; by apply not_elem_of_nil in Hg.
Qed.

Lemma translate_transport_quiet session text id m :
  collaborators_quiet → type_of m ∈ bootstrap_transport_types →
  quiet (translate_transport_message session text id m).
Proof.
  intros Q Htype. unfold translate_transport_message. rewrite bool_decide_true by done. quiet Q.
Qed.

Lemma translate_control_quiet session id m :
  collaborators_quiet → type_of m ∈ message_types BootstrapControlMessageSchema →
  quiet (translate_bootstrap_control sourceNode resolve_owner session id m).
Proof.
  intros Q Htype. unfold translate_bootstrap_control. apply quiet_bind.
  - unfold assertBootstrapControlMessageAllowed, isBootstrapStreamControlMessageAllowed,
      isBootstrapTelemetryControlMessageAllowed, isBootstrapOperationControlMessageAllowed.
    cbn in Htype.
    repeat (apply elem_of_cons in Htype as [->|Htype]; [apply quiet_ret|]).
    by apply not_elem_of_nil in Htype.
  - intros []. cbv zeta. quiet Q.
Qed.

Lemma bootstrap_text_accepted session text id :
  collaborators_quiet → accepts SideBootstrap (TextPayload text) = true →
  quiet (translateBootstrapTextPayload sourceNode resolve_owner session text id).
Proof.
  intros Q (f & types & m0 & Hin & Hm0 & Htype0)%accepts_text.
  pose proof (bootstrap_accepted_family f types Hin) as Hf.
  assert (∀ g types' m, (g, types') ∈ accepted_types SideBootstrap → parse_family g text = Some m →
    type_of m ∈ types') as Hacc.
  { intros g types' m Hg Hm.
    destruct (bootstrap_family_unique f g text m0 m Hf (bootstrap_accepted_family _ _ Hg) Hm0 Hm)
      as [-> ->]. by rewrite (bootstrap_accepted_once g types' types). }
  destruct (bootstrap_text_cases session text id)
    as [m Hm Htype|m Hm|m Hm Htype|m Hm Htype|m Hm|m Hm|g m message Hm Hno Hg|message Hnone].
  - unfold translate_authorize_result. quiet Q.
  - apply translate_transport_quiet; [done|]. eapply (Hacc PortsTransportFamily); [|done]. by right; left.
  - quiet Q.
  - quiet Q.
  - unfold translate_pty_session.
    assert (type_of m ≠ "pty.session.open"); [|rewrite bool_decide_false by done; quiet Q].
    assert (type_of m ∈ ["pty.session.opened"; "pty.session.error"]) as Hpty.
    { eapply (Hacc PtySessionFamily); [|done]. by do 4 right; left. }
    intros Heq. rewrite Heq in Hpty. revert Hpty. by apply (bool_decide_unpack (_ ∉ _)).
  - apply translate_control_quiet; [done|]. by apply (parsed_type BootstrapFamily text).
  - exfalso. unfold accepted_types in Hacc.
    apply elem_of_cons in Hg as [->|[->|[->|[]%not_elem_of_nil]%elem_of_cons]%elem_of_cons].
    + pose proof (Hacc PortsControlFamily _ m ltac:(by left) Hm) as Ht%list_elem_of_singleton.
      rewrite Ht in Hno. apply Hno. by left.
    + pose proof (Hacc EgressTokenFamily _ m ltac:(by do 2 right; left) Hm) as Ht%list_elem_of_singleton.
      rewrite Ht in Hno. apply Hno. by right; left.
    + pose proof (Hacc SigningFamily _ m ltac:(by do 3 right; left) Hm) as Ht%list_elem_of_singleton.
      rewrite Ht in Hno. apply Hno. by do 2 right; left.
  - exfalso. rewrite Forall_forall in Hnone. by rewrite Hnone in Hm0.
Qed.

Lemma bootstrap_text_refused session text id :
  accepts SideBootstrap (TextPayload text) = false →
  refused (translateBootstrapTextPayload sourceNode resolve_owner session text id).
Proof.
  intros Hno.
  assert (∀ f types m, parse_family f text = Some m → (f, types) ∈ accepted_types SideBootstrap →
    type_of m ∉ types) as Hbad.
  { intros f types m Hm Hin Ht. by rewrite (accepts_intro _ _ _ _ _ Hm Hin Ht) in Hno. }
  destruct (bootstrap_text_cases session text id)
    as [m Hm Htype|m Hm|m Hm Htype|m Hm Htype|m Hm|m Hm|g m message Hm Hg Hfam|message Hnone];
    try apply refused_throw.
  - destruct (Hbad PortsControlFamily _ m Hm ltac:(by left)). by rewrite Htype; left.
  - unfold translate_transport_message. rewrite bool_decide_false; [apply refused_throw|].
    apply (Hbad PortsTransportFamily _ m Hm). by right; left.
  - destruct (Hbad EgressTokenFamily _ m Hm ltac:(by do 2 right; left)). by rewrite Htype; left.
  - destruct (Hbad SigningFamily _ m Hm ltac:(by do 3 right; left)). by rewrite Htype; left.
  - unfold translate_pty_session. pose proof (parsed_type PtySessionFamily text m Hm) as Htype.
    pose proof (Hbad PtySessionFamily _ m Hm ltac:(by do 4 right; left)) as Hnot.
    cbn in Htype. apply elem_of_cons in Htype as [->|Htype]; [apply refused_throw|done].
  - destruct (Hbad BootstrapFamily _ m Hm ltac:(by do 5 right; left)).
    by apply (parsed_type BootstrapFamily text).
Qed.

(** C34: each side may send exactly the messages of [accepted_types] and, on a stream,
    data frames.  Anything else is a protocol violation, thrown before any stream
    is looked up or any service called; and as long as the router and the
    services do not throw, every message a side may send is translated. *)
Theorem inbound_messages_accepted (input : TranslateTunnelInboundMessageInput) :
  let side := if input.(translate_sourcePeerSide) =?= SideConnection
              then SideConnection else SideBootstrap in
  if accepts side input.(translate_payload) then
    collaborators_quiet → quiet (translate input)
  else refused (translate input).
Proof.
  unfold translateInboundMessage. cbv zeta.
  destruct input.(translate_payload) as [text|b]; case_bool_decide.
  - destruct (accepts SideConnection _) eqn:Hacc;
      [intros Q; by apply connection_text_accepted|by apply connection_text_refused].
  - destruct (accepts SideBootstrap _) eqn:Hacc;
      [intros Q; by apply bootstrap_text_accepted|by apply bootstrap_text_refused].
  - unfold translateConnectionBinaryPayload. cbn [accepts].
    destruct (readDataFrameHeader b) as [h|]; [|apply refused_throw].
    rewrite bool_decide_true by done. cbv zeta. intros Q. quiet Q.
  - unfold translateBootstrapBinaryPayload. cbn [accepts].
    destruct (readDataFrameHeader b) as [h|]; [|apply refused_throw].
    rewrite bool_decide_true by done. cbv zeta. intros Q. quiet Q.
Qed.

(** ** What a bootstrap tunnel's message may cause *)

(** The tunnel stream a message is about. *)
Definition tunnel_streamId (payload : RelayPayload) : option Z :=
  match payload with
  | TextPayload text =>
      (λ m, integer_of (number_field m "streamId")) <$> parseBootstrapControlMessage text
  | BinaryPayload b => header_streamId <$> readDataFrameHeader b
  end.

(** What is sent back to a client: the message with the client's stream id, or the
    reset of a stream whose data it may not take. *)
Definition returns_stream (payload forwarded : RelayPayload) (binding : ClientStreamBinding) : Prop :=
  match payload, forwarded with
  | TextPayload text, TextPayload text' =>
      ∃ m, parseBootstrapControlMessage text = Some m ∧
        type_of m ∈ ["stream.open.ok"; "stream.open.error"; "stream.event"; "stream.complete";
                     "stream.reset"; "stream.window"] ∧
        text' = JSON_stringify (with_streamId m binding.(clientStreamId))
  | BinaryPayload b, BinaryPayload b' =>
      ∃ h, readDataFrameHeader b = Some h ∧
        isPayloadKindAllowedForChannel binding.(channelKind) h.(header_payloadKind) = true ∧
        rewriteStreamId b binding.(clientStreamId) = Some b'
  | BinaryPayload b, TextPayload text =>
      ∃ h, readDataFrameHeader b = Some h ∧
        isPayloadKindAllowedForChannel binding.(channelKind) h.(header_payloadKind) = false ∧
        text = createInvalidStreamDataResetPayload binding.(channelKind) binding.(clientStreamId)
  | _, _ => False
  end.

(** A text of a family, of the given type. *)
Definition is_message (payload : RelayPayload) (f : message_family) (type : string) (m : json) : Prop :=
  ∃ text, payload = TextPayload text ∧ parse_family f text = Some m ∧ type_of m = type.

(** A data frame no interactive stream is bound to. *)
Definition is_unbound_frame (payload : RelayPayload) (id : string) (kind n : Z) (w' : W) : Prop :=
  ∃ b w1, payload = BinaryPayload b ∧
    readDataFrameHeader b = Some {| header_payloadKind := kind; header_streamId := n |} ∧
    finds_by_tunnel id n w1 = (inr None, w').

(** The outcome of a message from the bootstrap session [session]. *)
Definition bootstrap_effect (payload : RelayPayload) (id session : string)
    (t : TunnelProtocolTranslation) (w' : W) : Prop :=
  match t.(delivery) with
  | DeliverDrop => True
  | DeliverForward forwarded None (Some target) =>
      (∃ n w1 route, tunnel_streamId payload = Some n ∧
        finds_by_tunnel id n w1 = (inr (Some route), w') ∧
        route.(route_binding).(tunnelStreamId) = n ∧
        target = route.(route_binding).(clientSessionId) ∧
        returns_stream payload forwarded route.(route_binding)) ∨
      (∃ m w1, (∃ type, type ∈ bootstrap_transport_types ∧
          is_message payload PortsTransportFamily type m) ∧ forwarded = payload ∧
        resolveForwardedBootstrapTransportMessage id session m w1 = (inr (Some target), w')) ∨
      (∃ m result w1, is_message payload PortsControlFamily "ports.target.authorize.result" m ∧
        forwarded = TextPayload (JSON_stringify result) ∧
        resolveTargetAuthorizeResult id session m w1 = (inr (Some (AuthorizeForward result target)), w'))
  | DeliverForward _ _ _ => False
  | DeliverRespond reply =>
      ∃ b h w1 route n, payload = BinaryPayload b ∧ readDataFrameHeader b = Some h ∧
        finds_by_tunnel id h.(header_streamId) w1 = (inr (Some route), w') ∧
        route.(route_binding).(clientStreamId) = Int n ∧ MaxStreamId < n ∧
        reply = TextPayload (createUnboundInteractiveStreamResetPayload (Int h.(header_streamId)))
  | DeliverTelemetryOpen m => is_message payload BootstrapFamily "telemetry.open" m
  | DeliverTelemetryClose m => is_message payload BootstrapFamily "telemetry.close" m
  | DeliverOperationOpen m => is_message payload BootstrapFamily "operation.open" m
  | DeliverOperationClose m => is_message payload BootstrapFamily "operation.close" m
  | DeliverTelemetryData b n =>
      payload = BinaryPayload b ∧ is_unbound_frame payload id PayloadKindRawBytes n w' ∧
      n ≠ ReservedOperationStreamId
  | DeliverOperationData b n =>
      payload = BinaryPayload b ∧ is_unbound_frame payload id PayloadKindRawBytes n w' ∧
      n = ReservedOperationStreamId
  | DeliverTelemetryInvalidData kind n =>
      is_unbound_frame payload id kind n w' ∧ kind ≠ PayloadKindRawBytes ∧
      n ≠ ReservedOperationStreamId
  | DeliverOperationInvalidData kind n =>
      is_unbound_frame payload id kind n w' ∧ kind ≠ PayloadKindRawBytes ∧
      n = ReservedOperationStreamId
  | DeliverSigningRequest m => is_message payload SigningFamily "signing.request" m
  | DeliverEgressTokenRequest m => is_message payload EgressTokenFamily "egress.token.request" m
  | DeliverPtyClientControl reply ptySessionId =>
      ∃ m, is_message payload PtySessionFamily "pty.session.error" m ∧
        ptySessionId = string_field m "ptySessionId" ∧
        reply = TextPayload (createStreamResetPayload (string_field m "code")
                  (string_field m "message") (Int DirectPtyStreamId))
  end.

(** The side effects of the outcome. *)
Definition bootstrap_side_effects (payload : RelayPayload) (id : string)
    (t : TunnelProtocolTranslation) (w' : W) : Prop :=
  (∀ m, t.(keepaliveControlMessage) = Some m → is_message payload BootstrapFamily "keepalive.state" m) ∧
  (∀ m, t.(runtimeReadyControlMessage) = Some m → is_message payload BootstrapFamily "runtime.ready" m) ∧
  (∀ r, t.(releaseInteractiveStream) = Some r →
    ∃ n w1 route, tunnel_streamId payload = Some n ∧
      finds_by_tunnel id n w1 = (inr (Some route), w') ∧
      r = toReleaseInteractiveStream route.(route_binding)).

Lemma no_side_effects payload id d w' : bootstrap_side_effects payload id (createTranslation d) w'.
Proof. by split_and!. Qed.

Lemma assert_bootstrap_world m (w : W) r w' :
  assertBootstrapControlMessageAllowed m w = (inr r, w') → w' = w.
Proof.
  unfold assertBootstrapControlMessageAllowed. cbv zeta.
  repeat (match goal with |- (if ?b then _ else _) _ = _ → _ => destruct b end;
    [by intros [= _ <-]|]). done.
Qed.

Lemma bootstrap_control_effect session id text m w t w' :
  stream_world_ok w → (∀ id session m w, stream_world_ok w →
    stream_world_ok (handleBootstrapStreamWindow id session m w).2) →
  parseBootstrapControlMessage text = Some m →
  translate_bootstrap_control sourceNode resolve_owner session id m w = (inr t, w') →
  bootstrap_effect (TextPayload text) id session t w' ∧
  bootstrap_side_effects (TextPayload text) id t w'.
Proof.
  intros Hw Hwindow Hm.
  pose proof (parsed_type BootstrapFamily text m Hm) as Htype. cbn in Htype.
  assert (∀ type, type_of m = type → is_message (TextPayload text) BootstrapFamily type m) as Hmsg.
  { intros type Hty. by exists text. }
  assert (tunnel_streamId (TextPayload text) = Some (integer_of (number_field m "streamId"))) as Hid
    by (simpl; by rewrite Hm).
  unfold translate_bootstrap_control. intros ([] & w0 & Hassert & Heq)%M_bind_inr.
  assert (w0 = w) as ->.
  { by apply assert_bootstrap_world in Hassert. }
  cbv zeta in Heq.
  repeat (match type of Heq with
    | (if type_of m =?= ?s then _ else _) _ = _ =>
        destruct (decide (type_of m = s)) as [Hty|];
        [rewrite (bool_decide_true (type_of m = s)) in Heq by done; injection Heq as <- <-;
         split; [try exact I; by apply Hmsg|]; split_and!; try done;
         by intros ? [= <-]; apply Hmsg|rewrite (bool_decide_false (type_of m = s)) in Heq by done]
    end).
  apply M_bind_inr in Heq as (handled & w1 & Hhandled & Heq).
  assert (stream_world_ok w1) as Hw1.
  { case_bool_decide; [|by injection Hhandled as _ <-].
    pose proof (Hwindow id session m w Hw) as Hw'. by rewrite Hhandled in Hw'. }
  destruct handled; [injection Heq as <- <-; split; [done|apply no_side_effects]|].
  apply M_bind_inr in Heq as (route & w2 & Hfind & Heq).
  destruct route as [route|]; injection Heq as <- <-; [|split; [done|apply no_side_effects]].
  destruct (router_find_by_tunnel_laws sourceNode resolve_owner resolve_owner_ok _ _ _ _ Hw1 Hfind)
    as [_ Hroute]. destruct (Hroute route eq_refl) as [Ht _]. split.
  - left. eexists _, w1, route. split_and!; [exact Hid|done|done|done|].
    exists m. split_and!; [done| |done]. set_solver.
  - split_and!; [done..|]. cbn. intros r Hr. destruct (shouldReleaseStreamOnBootstrapMessage m); [|done].
    injection Hr as <-. by eexists _, w1, route.
Qed.

Lemma authorize_result_effect session id text m w t w' :
  parsePortsControlMessage text = Some m → type_of m = "ports.target.authorize.result" →
  translate_authorize_result session id m w = (inr t, w') →
  bootstrap_effect (TextPayload text) id session t w' ∧
  bootstrap_side_effects (TextPayload text) id t w'.
Proof.
  intros Hm Htype (resolution & w1 & Hcall & Heq)%M_bind_inr.
  destruct resolution as [[|result target]|]; injection Heq as <- <-;
    (split; [|apply no_side_effects]); try done.
  right; right. exists m, result, w. split_and!; [by exists text|done|done].
Qed.

Lemma transport_effect session id text m w t w' :
  parsePortsTransportMessage text = Some m →
  translate_transport_message session text id m w = (inr t, w') →
  bootstrap_effect (TextPayload text) id session t w' ∧
  bootstrap_side_effects (TextPayload text) id t w'.
Proof.
  intros Hm. unfold translate_transport_message. case_bool_decide as Htype; [|done].
  intros (handled & w1 & Hcall & Heq)%M_bind_inr.
  destruct handled; cbn [negb] in Heq;
    [injection Heq as <- <-; split; [done|apply no_side_effects]|].
  apply M_bind_inr in Heq as (target & w2 & Htarget & Heq).
  destruct target as [target|]; injection Heq as <- <-; (split; [|apply no_side_effects]); [|done].
  right; left. exists m, w1. split_and!; [exists (type_of m)|done|done].
  split; [done|]. by exists text.
Qed.

Lemma pty_effect session id text m w t w' :
  parsePtySessionControlMessage text = Some m → translate_pty_session m w = (inr t, w') →
  bootstrap_effect (TextPayload text) id session t w' ∧
  bootstrap_side_effects (TextPayload text) id t w'.
Proof.
  intros Hm. unfold translate_pty_session.
  case_bool_decide as Hopen; [done|]. case_bool_decide as Hopened;
    intros Heq; injection Heq as <- <-; (split; [|apply no_side_effects]); [done|].
  exists m. split_and!; [|done|done]. exists text. split_and!; [done|done|].
  pose proof (parsed_type PtySessionFamily text m Hm) as Htype. cbn in Htype. set_solver.
Qed.

Lemma rewriteStreamId_refused b n h :
  readDataFrameHeader b = Some h → 0 < n → rewriteStreamId b (Int n) = None → MaxStreamId < n.
Proof.
  unfold rewriteStreamId. intros -> Hn. cbn [Number_isInteger integer_of negb orb].
  destruct (n <=? 0) eqn:Hle; [bools; lia|]. cbn [orb].
  destruct (MaxStreamId <? n) eqn:Hlt; [|done]. by bools.
Qed.

Lemma bootstrap_binary_effect session id b w t w' :
  stream_world_ok w → (∀ id session b w, stream_world_ok w →
    stream_world_ok (handleBootstrapDataFrame id session b w).2) →
  translateBootstrapBinaryPayload sourceNode resolve_owner session b id w = (inr t, w') →
  bootstrap_effect (BinaryPayload b) id session t w' ∧
  bootstrap_side_effects (BinaryPayload b) id t w'.
Proof.
  intros Hw Hframe. unfold translateBootstrapBinaryPayload.
  destruct (readDataFrameHeader b) as [[kind n]|] eqn:Hh; [|done]. cbv zeta. cbn [header_payloadKind header_streamId].
  assert (tunnel_streamId (BinaryPayload b) = Some n) as Hid by (simpl; by rewrite Hh).
  intros (handled & w1 & Hhandled & Heq)%M_bind_inr.
  pose proof (Hframe id session b w Hw) as Hw1. rewrite Hhandled in Hw1. cbn [snd] in Hw1.
  destruct handled; [injection Heq as <- <-; split; [done|apply no_side_effects]|].
  apply M_bind_inr in Heq as (route & w2 & Hfind & Heq). destruct route as [route|]; cycle 1.
  { assert (w' = w2 ∧ is_unbound_frame (BinaryPayload b) id kind n w2) as [-> Hunbound].
    { split; [|by exists b, w1]. by destruct (negb _); injection Heq as _ <-. }
    destruct (Z.eqb_spec kind PayloadKindRawBytes) as [->|], (Z.eqb_spec n ReservedOperationStreamId);
      cbn [negb] in Heq; injection Heq as <-; (split; [by split_and!|apply no_side_effects]). }
  destruct (router_find_by_tunnel_laws sourceNode resolve_owner resolve_owner_ok _ _ _ _ Hw1 Hfind)
    as [_ Hroute]. destruct (Hroute route eq_refl) as [Ht (c & Hc & Hpos)].
  destruct (isPayloadKindAllowedForChannel _ _) eqn:Hkind; cbn [negb] in Heq; cycle 1.
  { injection Heq as <- <-. split.
    - left. exists n, w1, route. split_and!; [done..|]. by exists {| header_payloadKind := kind; header_streamId := n |}.
    - split_and!; [done..|]. intros r [= <-]. by exists n, w1, route. }
  destruct (rewriteStreamId b _) as [b'|] eqn:Hb'; injection Heq as <- <-;
    (split; [|apply no_side_effects]).
  - left. exists n, w1, route. split_and!; [done..|]. by exists {| header_payloadKind := kind; header_streamId := n |}.
  - rewrite Hc in Hb'. eexists b, _, w1, route, c. split_and!; [done|exact Hh|done|done| |done].
    by eapply rewriteStreamId_refused.
Qed.

(** C6: a message from a bootstrap tunnel never reaches a bootstrap tunnel again.  A
    stream message or data frame goes to the session its tunnel stream is bound
    for, as that session's own message of that stream, and nowhere else; an
    unbound data frame goes to telemetry, or to the operations when its id is the
    reserved one; every other delivery is a message of exactly its type.  The
    port access services choose the connection only for their own messages.
    The one answer the tunnel gets is the finding below: a bound stream whose
    client id is greater than [MaxStreamId] cannot be addressed by a frame, and
    its data is answered as if it were not bound. *)
Theorem bootstrap_messages_confined (input : TranslateTunnelInboundMessageInput) (w : W)
    (t : TunnelProtocolTranslation) (w' : W) :
  input.(translate_sourcePeerSide) ≠ SideConnection → stream_world_ok w →
  (∀ id session m w, stream_world_ok w → stream_world_ok (handleBootstrapStreamWindow id session m w).2) →
  (∀ id session b w, stream_world_ok w → stream_world_ok (handleBootstrapDataFrame id session b w).2) →
  translate input w = (inr t, w') →
  bootstrap_effect input.(translate_payload) input.(translate_sandboxInstanceId)
    input.(translate_clientSessionId) t w' ∧
  bootstrap_side_effects input.(translate_payload) input.(translate_sandboxInstanceId) t w'.
Proof.
  intros Hside Hw Hwindow Hframe. unfold translateInboundMessage.
  rewrite !bool_decide_false by done.
  destruct input.(translate_payload) as [text|b]; [|by apply bootstrap_binary_effect].
  destruct (bootstrap_text_cases input.(translate_clientSessionId) text
    input.(translate_sandboxInstanceId))
    as [m Hm Htype|m Hm|m Hm Htype|m Hm Htype|m Hm|m Hm|g m message|message]; try done.
  - by apply authorize_result_effect.
  - by apply transport_effect.
  - intros [= <- <-]. split; [by exists text|apply no_side_effects].
  - intros [= <- <-]. split; [by exists text|apply no_side_effects].
  - by apply pty_effect.
  - by apply bootstrap_control_effect.
Qed.
End Theory.

(** ** A stream's messages cross the tunnel unchanged *)

Lemma find_stream_option `{ZodLaws} v m :
  safeParse StreamControlMessageSchema v = Some m → type_of m = "stream.window" →
  safeParse StreamWindowSchema v = Some m ∧ field v "type" = Some (JString "stream.window").
Proof.
  intros Hm Htype. destruct (typed_message StreamControlMessageSchema v m (family_typed StreamFamily) Hm)
    as (t & _ & Hv & Ht). rewrite (type_of_field m t Ht) in Htype. subst t. split; [|done].
  unfold StreamControlMessageSchema in Hm. rewrite zod_discriminated_union, Hv in Hm.
  by rewrite parse_discriminated_find in Hm.
Qed.

(** A window message is also a bootstrap message. *)
Lemma window_is_bootstrap `{ZodLaws} text m :
  parseStreamControlMessage text = Some m → type_of m = "stream.window" →
  parseBootstrapControlMessage text = Some m.
Proof.
  unfold parseStreamControlMessage, parseBootstrapControlMessage.
  destruct (parseJSON text) as [v|]; [|done]. intros Hm Htype.
  destruct (find_stream_option v m Hm Htype) as [Hw Hv]. unfold BootstrapControlMessageSchema.
  by rewrite zod_discriminated_union, Hv, parse_discriminated_find.
Qed.

Section Echo.
Context {R : Type} `{TunnelSessionRegistryLaws R} {Probe : Type} (run_probe : Probe → bool).
Context {PortTarget AuthorizeResult : Type} (localNodeId : string).
Notation Registry := (TunnelSessionRegistry R Probe).
Context (authorizeHandler :
  option (GatewayForwardingTarget → string → PortTarget → M JsError Registry AuthorizeResult)).
Context (openPortHandler :
  option (GatewayForwardingTarget → OpenPortAccessStreamInput →
          M JsError Registry OpenPortAccessStreamResult)).
Context (releasePortHandler :
  GatewayForwardingTarget → ReleasePortAccessStreamInput → M JsError Registry unit).
Context `{ZodLaws} `{PublishingServices Registry}.
Context (sourceNode : string) (resolve_owner : string → M JsError Registry SandboxOwnerResolution).

(** The translator on the node that owns the sandbox. *)
Definition owner_client : GatewayForwardingClientAdapter PortTarget AuthorizeResult Registry :=
  local_client run_probe localNodeId authorizeHandler openPortHandler releasePortHandler.
Definition owner_translate : TranslateTunnelInboundMessageInput →
    M JsError Registry TunnelProtocolTranslation :=
  @translateInboundMessage _ _ _ owner_client _ _ sourceNode resolve_owner.

Definition to_bootstrap (payload : RelayPayload) (s : SandboxTunnelSession) : TunnelProtocolTranslation :=
  createTranslation (DeliverForward payload (Some s.(bootstrapTarget).(target_sessionId)) None).
Definition to_connection (payload : RelayPayload) (session : string) : TunnelProtocolTranslation :=
  createTranslation (DeliverForward payload None (Some session)).

Lemma owner_binary_out r id s session b frame h :
  owned_here localNodeId resolve_owner r id s → readDataFrameHeader frame = Some h →
  getBindingByClientStream s session (Int h.(header_streamId)) = Some b →
  isPayloadKindAllowedForChannel b.(channelKind) h.(header_payloadKind) = true →
  owner_translate (mkTranslateInput session (BinaryPayload frame) id SideConnection) r =
    (inr (match rewriteStreamId frame (Int b.(tunnelStreamId)) with
          | Some frame' => to_bootstrap (BinaryPayload frame') s
          | None => createTranslation (DeliverRespond
              (TextPayload (createUnboundInteractiveStreamResetPayload (Int h.(header_streamId)))))
          end), r).
Proof.
  intros Howned Hh Hb Hkind. unfold owner_translate, translateInboundMessage. cbn [translate_payload
    translate_sourcePeerSide translate_clientSessionId translate_sandboxInstanceId].
  rewrite bool_decide_true by done. unfold translateConnectionBinaryPayload. rewrite Hh. cbv zeta.
  unfold mbind, M_bind, find_by_client, owner_client. 
  rewrite owned_find_by_client with (s := s) by done.
  rewrite Hb. cbn -[rewriteStreamId]. rewrite Hkind. cbn -[rewriteStreamId].
  by destruct (rewriteStreamId frame _).
Qed.

Lemma owner_binary_back r id s bootstrap b frame h :
  owned_here localNodeId resolve_owner r id s → readDataFrameHeader frame = Some h →
  handleBootstrapDataFrame id bootstrap frame r = (inr false, r) →
  getBindingByTunnelStreamId s h.(header_streamId) = Some b →
  isPayloadKindAllowedForChannel b.(channelKind) h.(header_payloadKind) = true →
  owner_translate (mkTranslateInput bootstrap (BinaryPayload frame) id SideBootstrap) r =
    (inr (match rewriteStreamId frame b.(clientStreamId) with
          | Some frame' => to_connection (BinaryPayload frame') b.(clientSessionId)
          | None => createTranslation (DeliverRespond
              (TextPayload (createUnboundInteractiveStreamResetPayload (Int h.(header_streamId)))))
          end), r).
Proof.
  intros Howned Hh Hhandled Hb Hkind. unfold owner_translate, translateInboundMessage. cbn [translate_payload
    translate_sourcePeerSide translate_clientSessionId translate_sandboxInstanceId].
  rewrite bool_decide_false by done. unfold translateBootstrapBinaryPayload. rewrite Hh. cbv zeta.
  unfold mbind, M_bind, find_by_tunnel, owner_client. rewrite Hhandled.
  rewrite owned_find_by_tunnel with (s := s) by done.
  rewrite Hb. cbn -[rewriteStreamId]. rewrite Hkind. cbn -[rewriteStreamId].
  by destruct (rewriteStreamId frame _).
Qed.

Lemma owner_window_out r id s session b text m n :
  owned_here localNodeId resolve_owner r id s → parseStreamControlMessage text = Some m →
  type_of m = "stream.window" → number_field m "streamId" = Int n →
  getBindingByClientStream s session (Int n) = Some b →
  owner_translate (mkTranslateInput session (TextPayload text) id SideConnection) r =
    (inr (to_bootstrap (TextPayload (JSON_stringify (with_streamId m (Int b.(tunnelStreamId))))) s), r).
Proof.
  intros Howned Hm Htype Hn Hb. unfold owner_translate, translateInboundMessage. cbn [translate_payload
    translate_sourcePeerSide translate_clientSessionId translate_sandboxInstanceId].
  rewrite bool_decide_true by done.
  destruct (connection_text_cases (H:=owner_client) sourceNode resolve_owner session text id)
    as [m' Hm'|kind m' Hm' Htype'|m' Hm'|message [Hno|[[m' Hm']|[[m' Hm']|[m' Hm']]]]].
  - by pose proof (two_families PortsControlFamily StreamFamily _ _ _ Hm' Hm).
  - rewrite Hm in Hm'. injection Hm' as <-. by rewrite Htype in Htype'.
  - rewrite Hm in Hm'. injection Hm' as <-. unfold translate_connection_control,
      assertConnectionControlMessageAllowed. rewrite connection_allowed_iff, Htype.
    rewrite (bool_decide_true (_ ∈ _)) by (by right; right; right; left). cbv iota.
    rewrite M_bind_ret. cbv zeta. rewrite Hn. unfold mbind, M_bind, find_by_client, owner_client.
    rewrite owned_find_by_client with (s := s) by done. by rewrite Hb.
  - by rewrite Hm in Hno.
  - by pose proof (two_families StreamFamily TelemetryControlFamily _ _ _ Hm Hm').
  - by pose proof (two_families StreamFamily OperationControlFamily _ _ _ Hm Hm').
  - by pose proof (two_families StreamFamily SigningFamily _ _ _ Hm Hm').
Qed.

Lemma owner_window_back r id s bootstrap b text m n :
  owned_here localNodeId resolve_owner r id s → parseBootstrapControlMessage text = Some m →
  type_of m = "stream.window" → number_field m "streamId" = Int n →
  handleBootstrapStreamWindow id bootstrap m r = (inr false, r) →
  getBindingByTunnelStreamId s n = Some b →
  owner_translate (mkTranslateInput bootstrap (TextPayload text) id SideBootstrap) r =
    (inr (to_connection (TextPayload (JSON_stringify (with_streamId m b.(clientStreamId))))
            b.(clientSessionId)), r).
Proof.
  intros Howned Hm Htype Hn Hhandled Hb. unfold owner_translate, translateInboundMessage.
  cbn [translate_payload translate_sourcePeerSide translate_clientSessionId
       translate_sandboxInstanceId]. rewrite bool_decide_false by done.
  assert (∀ g m', g ∈ bootstrap_families → parse_family g text = Some m' →
    g = BootstrapFamily ∧ m' = m) as Honly.
  { intros g m' Hg Hm'. apply (bootstrap_family_unique g BootstrapFamily text); [done| |done|done].
    by do 5 right; left. }
  destruct (bootstrap_text_cases (H:=owner_client) sourceNode resolve_owner bootstrap text id)
    as [m' Hm'|m' Hm'|m' Hm'|m' Hm'|m' Hm'|m' Hm'|g m' message Hm' _ Hg|message Hno].
  - by destruct (Honly PortsControlFamily m' ltac:(by left) Hm').
  - by destruct (Honly PortsTransportFamily m' ltac:(by right; left) Hm').
  - by destruct (Honly EgressTokenFamily m' ltac:(by do 2 right; left) Hm').
  - by destruct (Honly SigningFamily m' ltac:(by do 3 right; left) Hm').
  - by destruct (Honly PtySessionFamily m' ltac:(by do 4 right; left) Hm').
  - destruct (Honly BootstrapFamily m' ltac:(by do 5 right; left) Hm') as [_ ->].
    unfold translate_bootstrap_control, assertBootstrapControlMessageAllowed,
      isBootstrapStreamControlMessageAllowed, shouldReleaseStreamOnBootstrapMessage.
    rewrite Htype, Hn. cbn [integer_of].
    cbv zeta. repeat match goal with |- context [bool_decide (?type = ?other)] =>
      first [rewrite (bool_decide_false (type = other)) by done
            |rewrite (bool_decide_true (type = other)) by done] end.
    cbn [orb]. cbv iota.
    rewrite M_bind_ret. unfold mbind, M_bind, find_by_tunnel, owner_client. rewrite Hhandled.
    rewrite owned_find_by_tunnel with (s := s) by done. by rewrite Hb.
  - destruct (Honly g m') as [-> _]; [set_solver|done|set_solver].
  - rewrite Forall_forall in Hno.
    assert (parse_family BootstrapFamily text = None) as Hnone by (apply Hno; by do 5 right; left).
    cbn in Hnone. by rewrite Hnone in Hm.
Qed.

(** On the node that owns the sandbox, what a client sends on a stream it has
    bound reaches the current bootstrap session under the tunnel's stream id and
    otherwise unchanged, and comes back from there as exactly what the client
    sent: a data frame of an allowed kind byte for byte, a window message as the
    same message under the client's stream id.  Nothing changes in the session. *)
Theorem interactive_stream_echo (r : Registry) (id : string) (s : SandboxTunnelSession)
    (session : string) (n : Z) (b : ClientStreamBinding) (bootstrap : string) :
  owned_here localNodeId resolve_owner r id s → session_ok s → 0 < n →
  getBindingByClientStream s session (Int n) = Some b →
  let t := b.(tunnelStreamId) in
  (∀ frame h, bytes frame → readDataFrameHeader frame = Some h → h.(header_streamId) = n →
    isPayloadKindAllowedForChannel b.(channelKind) h.(header_payloadKind) = true →
    t ≤ MaxStreamId →
    ∃ frame',
      owner_translate (mkTranslateInput session (BinaryPayload frame) id SideConnection) r =
        (inr (to_bootstrap (BinaryPayload frame') s), r) ∧
      readDataFrameHeader frame' =
        Some {| header_payloadKind := h.(header_payloadKind); header_streamId := t |} ∧
      drop DataFrameHeaderByteLength frame' = drop DataFrameHeaderByteLength frame ∧
      (handleBootstrapDataFrame id bootstrap frame' r = (inr false, r) →
       owner_translate (mkTranslateInput bootstrap (BinaryPayload frame') id SideBootstrap) r =
         (inr (to_connection (BinaryPayload frame) session), r))) ∧
  (∀ text m, parseStreamControlMessage text = Some m → type_of m = "stream.window" →
    number_field m "streamId" = Int n → t ≤ MAX_SAFE_INTEGER →
    let text' := JSON_stringify (with_streamId m (Int t)) in
    owner_translate (mkTranslateInput session (TextPayload text) id SideConnection) r =
      (inr (to_bootstrap (TextPayload text') s), r) ∧
    parseStreamControlMessage text' = Some (with_streamId m (Int t)) ∧
    (handleBootstrapStreamWindow id bootstrap (with_streamId m (Int t)) r = (inr false, r) →
     owner_translate (mkTranslateInput bootstrap (TextPayload text') id SideBootstrap) r =
       (inr (to_connection (TextPayload (JSON_stringify m)) session), r))).
Proof.
  intros Howned Hok Hn Hb t.
  destruct (bound_by_client_stream s session (Int n) b Hok ltac:(by exists n) Hb)
    as (Hsession & Hstream & Ht & Hback). split.
  - intros frame h Hbytes Hh Hid Hkind Hmax. subst n.
    destruct (readDataFrameHeader_inv frame h Hbytes Hh) as (payload & -> & Hv & Hk).
    exists (frame_bytes t h.(header_payloadKind) payload).
    rewrite owner_binary_out with (s := s) (b := b) (h := h) by done.
    assert (valid_stream_id t) as Hvt by done.
    rewrite rewriteStreamId_bytes by done. split_and!; [done|by apply readDataFrameHeader_bytes|done|].
    intros Hhandled.
    rewrite owner_binary_back with (s := s) (b := b)
      (h := {| header_payloadKind := h.(header_payloadKind); header_streamId := t |});
      try done; [|by apply readDataFrameHeader_bytes].
    by rewrite Hstream, Hsession, rewriteStreamId_bytes.
  - intros text m Hm Htype Hid Hmax text'.
    destruct (message_streamId StreamFamily text m eq_refl Hm) as (n0 & Hfield & _).
    assert (n0 = n) as ->. { rewrite (number_field_of m _ n0 Hfield) in Hid. congruence. }
    assert (valid_message_streamId t) as Hvt by done.
    pose proof (restreamed_message StreamFamily text m t eq_refl Hm Hvt) as Hparse.
    assert (type_of (with_streamId m (Int t)) = "stream.window") as Htype'.
    { unfold type_of, string_field. rewrite (field_with_streamId _ _ _ _ Hfield).
      by rewrite decide_False. }
    split; [by rewrite owner_window_out with (s := s) (b := b) (m := m) (n := n)|]. split; [done|].
    intros Hhandled.
    rewrite owner_window_back with (s := s) (b := b) (m := with_streamId m (Int t)) (n := t); try done.
    + by rewrite Hsession, Hstream, (with_streamId_back m _ _ Hfield).
    + by apply window_is_bootstrap.
    + apply number_field_of. by rewrite (field_with_streamId _ _ _ _ Hfield), decide_True.
Qed.
End Echo.

(** ** Witnesses *)

(** Services that take nothing. *)
Definition idle_services {W} : PublishingServices W := {|
  forwardConnectionTargetAuthorize _ _ _ := mret tt;
  resolveTargetAuthorizeResult _ _ _ := mret None;
  handleBootstrapTransportMessage _ _ _ := mret false;
  resolveForwardedBootstrapTransportMessage _ _ _ := mret None;
  handleBootstrapStreamWindow _ _ _ := mret false;
  handleBootstrapDataFrame _ _ _ := mret false;
|}.

#[local] Existing Instance reference_zod.
#[local] Existing Instance reference_zod_laws.
#[local] Existing Instance idle_services.

Definition demo_world : TunnelSessionRegistry MemoryRegistry bool := registry_run demo_ops demo_registry.
Definition demo_client : GatewayForwardingClientAdapter unit unit (TunnelSessionRegistry MemoryRegistry bool) :=
  owner_client (λ b, b) "node_a" None None (λ _ _, mret tt).
Definition demo_owner (id : string)
    : M JsError (TunnelSessionRegistry MemoryRegistry bool) SandboxOwnerResolution :=
  mret (OwnerLocal (mkOwner id "node_a" "session_1" "lease_1" 0)).
Definition demo_translate := @translateInboundMessage _ _ _ demo_client _ _ "node_a" demo_owner.
Definition demo_laws : @InteractiveStreamLaws _ _ _ demo_client := local_stream_laws _ _ _ _ _.

Lemma demo_world_ok : registry_ok demo_world.
Proof. by apply registry_run_ok, registry_empty_ok. Qed.

Definition demo_frame (id : Z) : list Z := [1; 0; 0; 0; id; 2; 104; 105].

Lemma bootstrap_messages_confined_witness :
  let input := mkTranslateInput "session_1" (BinaryPayload (demo_frame 2)) "sbi_1" SideBootstrap in
  ∃ t w', demo_translate input demo_world = (inr t, w') ∧
    t.(delivery) = DeliverForward (BinaryPayload (demo_frame 7)) None (Some "client_b") ∧
    bootstrap_effect (H:=demo_client) "node_a" demo_owner (BinaryPayload (demo_frame 2)) "sbi_1" "session_1" t w'.
Proof.
  intros input. destruct (demo_translate input demo_world) as [res w'] eqn:Heq.
  assert (res = (demo_translate input demo_world).1) as Hres by (by rewrite Heq).
  vm_compute in Hres. subst res. eexists _, w'. split; [reflexivity|]. split; [reflexivity|].
  apply (bootstrap_messages_confined (H:=demo_client) (H0:=demo_laws) "node_a" demo_owner
    (λ _ _ Hw, Hw) input demo_world);
    [done|apply demo_world_ok|by intros|by intros|exact Heq].
Defined.

Lemma demo_owned : ∃ s, owned_here "node_a" demo_owner demo_world "sbi_1" s ∧ session_ok s ∧
  getBindingByClientStream s "client_b" (Int 7) = Some (mkBinding ExecChannel "client_b" (Int 7) 2) ∧
  s.(bootstrapTarget) = demo_target.
Proof.
  destruct (view demo_world "sbi_1") as [s|] eqn:Hs; [|by vm_compute in Hs]. exists s.
  destruct (demo_world_ok _ _ Hs) as [Hok _].
  assert (getBindingByClientStream s "client_b" (Int 7) = Some (mkBinding ExecChannel "client_b" (Int 7) 2)
    ∧ s.(bootstrapTarget) = demo_target) as [Hb Ht].
  { vm_compute in Hs. injection Hs as <-. by vm_compute. }
  split_and!; [split; [done|]|done|done|done].
  eexists. split; [reflexivity|]. by rewrite Ht.
Qed.

Lemma interactive_stream_echo_witness :
  ∃ s frame', owned_here "node_a" demo_owner demo_world "sbi_1" s ∧
    demo_translate (mkTranslateInput "client_b" (BinaryPayload (demo_frame 7)) "sbi_1" SideConnection)
      demo_world = (inr (to_bootstrap (BinaryPayload frame') s), demo_world) ∧
    demo_translate (mkTranslateInput "session_1" (BinaryPayload frame') "sbi_1" SideBootstrap)
      demo_world = (inr (to_connection (BinaryPayload (demo_frame 7)) "client_b"), demo_world).
Proof.
  destruct demo_owned as (s & Hs & Hok & Hb & _).
  destruct (interactive_stream_echo (PortTarget:=unit) (AuthorizeResult:=unit) (λ b, b) "node_a" None None (λ _ _, mret tt) "node_a" demo_owner
    demo_world "sbi_1" s "client_b" 7 _ "session_1" Hs Hok ltac:(lia) Hb) as [Hbinary _].
  destruct (Hbinary (demo_frame 7) {| header_payloadKind := 2; header_streamId := 7 |})
    as (frame' & Hout & _ & _ & Hback);
    [|reflexivity|reflexivity|reflexivity|unfold MaxStreamId; simpl; lia|].
  { unfold bytes, byte_ok, demo_frame. repeat constructor; lia. }
  exists s, frame'. split; [done|]. split; [exact Hout|]. by apply Hback.
Defined.

(** A client whose calls all succeed. *)
Definition obliging_route : InteractiveStreamRoute :=
  mkRoute demo_target (mkBinding ExecChannel "client_b" (Int 7) 2).
Definition obliging_client : GatewayForwardingClientAdapter unit unit unit := {|
  client_openInteractiveStream _ _ := mret obliging_route;
  client_findInteractiveStreamByClient _ _ := mret None;
  client_findInteractiveStreamByTunnel _ _ := mret None;
  client_closeInteractiveStream _ _ := mret None;
  client_releaseClientSessionStreams _ _ := mret (mkReleaseResult None []);
  client_authorizePortAccessTarget _ _ _ := mret tt;
  client_openPortAccessStream _ _ := mret (mkOpenPortResult demo_target 1);
  client_releasePortAccessStream _ _ := mret tt;
|}.
Definition obliging_owner (id : string) : M JsError unit SandboxOwnerResolution :=
  mret (OwnerLocal (mkOwner id "node_a" "session_1" "lease_1" 0)).

Lemma inbound_messages_accepted_witness :
  quiet (@translateInboundMessage _ _ _ obliging_client _ _ "node_a" obliging_owner
    (mkTranslateInput "client_b" (TextPayload demo_window) "sbi_1" SideConnection)) ∧
  refused (@translateInboundMessage _ _ _ obliging_client _ _ "node_a" obliging_owner
    (mkTranslateInput "client_b" (TextPayload (quoted "{'type':'telemetry.open'}")) "sbi_1" SideConnection)).
Proof.
  split.
  - pose proof (inbound_messages_accepted (H:=obliging_client) "node_a" obliging_owner
      (mkTranslateInput "client_b" (TextPayload demo_window) "sbi_1" SideConnection)) as H.
    cbv zeta in H. replace (accepts _ _) with true in H by (vm_compute; reflexivity). apply H.
    split; intros; intros w; by eexists _, _.
  - pose proof (inbound_messages_accepted (H:=obliging_client) "node_a" obliging_owner
      (mkTranslateInput "client_b" (TextPayload (quoted "{'type':'telemetry.open'}")) "sbi_1" SideConnection)) as H.
    cbv zeta in H. by replace (accepts _ _) with false in H by (vm_compute; reflexivity).
Defined.
