(* ===== verification/StreamFrame.v ===== *)
(** * Which streams a message of a connection can change

    - [InteractiveStreamFrame]: what a forwarding client promises of the streams it does not
      return: opening or closing a stream leaves every other stream of every sandbox and
      client session as it is, and a lookup leaves all of them;
    - the in-process client of Forwarding.v keeps this promise ([local_stream_frame]), and so
      does the router over any client that does;
    - [translation_frame]: what the translation of a message of a connection (Translator.v)
      does to the streams, also when it ends with an error. *)

From S2P Require Import Prelude JsMap TunnelTypes TunnelSession SessionRegistry RuntimeState Forwarding.
From S2P Require Import Json Zod Protocol DataFrame Translator TranslatorSpec.
Local Open Scope Z_scope.

(** ** Bindings of streams *)

(** The binding of a client stream: of its sandbox, its client session and its number. *)
Notation bindings := (string → string → number → option ClientStreamBinding).

Definition same_bindings (b b' : bindings) : Prop :=
  ∀ id session stream, positive_integer stream → b' id session stream = b id session stream.

(** Every stream but this one is as it was. *)
Definition same_but (id session : string) (stream : number) (b b' : bindings) : Prop :=
  ∀ id' session' stream', positive_integer stream' → (id', session', stream') ≠ (id, session, stream) →
    b' id' session' stream' = b id' session' stream'.

Definition may_open (id session : string) (stream : number) (b b' : bindings) : Prop :=
  same_but id session stream b b' ∧
  (b' id session stream = b id session stream ∨ b id session stream = None).

Definition may_close (id session : string) (stream : number) (b b' : bindings) : Prop :=
  same_but id session stream b b' ∧
  (b' id session stream = b id session stream ∨ b' id session stream = None).

Lemma same_but_trans id session stream b1 b2 b3 :
  same_but id session stream b1 b2 → same_but id session stream b2 b3 → same_but id session stream b1 b3.
Proof. intros H12 H23 id' session' stream' Hpos Hne. by rewrite H23, H12. Qed.

Lemma same_bindings_but id session stream b b' : same_bindings b b' → same_but id session stream b b'.
Proof. intros Hsame id' session' stream' Hpos _. by apply Hsame. Qed.

(** ** The promise of a client *)

Class InteractiveStreamFrame {PortTarget AuthorizeResult W : Type}
    `{InteractiveStreamLaws PortTarget AuthorizeResult W} : Type := {
  stream_binding : W → bindings;
  frame_open target input w res w' :
    stream_world_ok w → client_openInteractiveStream target input w = (res, w') →
    may_open input.(open_sandboxInstanceId) input.(open_clientSessionId) input.(open_clientStreamId)
      (stream_binding w) (stream_binding w');
  frame_find_by_client target input w res w' :
    stream_world_ok w → client_findInteractiveStreamByClient target input w = (res, w') →
    same_bindings (stream_binding w) (stream_binding w');
  frame_close target input w res w' :
    stream_world_ok w → positive_integer input.(client_clientStreamId) →
    client_closeInteractiveStream target input w = (res, w') →
    stream_world_ok w' ∧
    may_close input.(client_sandboxInstanceId) input.(client_clientSessionId) input.(client_clientStreamId)
      (stream_binding w) (stream_binding w');
}.

(** ** The in-process client keeps it *)

Section LocalFrame.
Context {R : Type} `{TunnelSessionRegistryLaws R} {Probe : Type} (run_probe : Probe → bool).
Context {PortTarget AuthorizeResult : Type} (localNodeId : string).
Notation Registry := (TunnelSessionRegistry R Probe).
Context (authorizeHandler :
  option (GatewayForwardingTarget → string → PortTarget → M JsError Registry AuthorizeResult)).
Context (openPortHandler :
  option (GatewayForwardingTarget → OpenPortAccessStreamInput →
          M JsError Registry OpenPortAccessStreamResult)).
Context (releasePortHandler :
  GatewayForwardingTarget → ReleasePortAccessStreamInput → M JsError Registry unit).

Definition registry_binding (r : Registry) : bindings := λ id session stream,
  view r id ≫= λ s, getBindingByClientStream s session stream.

Lemma other_key session stream session' stream' :
  positive_integer stream → positive_integer stream' → (session', stream') ≠ (session, stream) →
  toClientBindingKey session stream ≠ toClientBindingKey session' stream'.
Proof.
  intros Hpos Hpos' Hne Hkey. apply Hne. by destruct (toClientBindingKey_inj _ _ _ _ Hpos Hpos' Hkey) as [-> ->].
Qed.

(** A session of one sandbox is replaced by one that only differs in one stream. *)
Lemma update_same_but (r r' : Registry) id session stream s s' :
  view r id = Some s → (∀ id', view r' id' = update_at (view r) id (Some s') id') →
  (∀ session' stream', positive_integer stream' → (session', stream') ≠ (session, stream) →
     getBindingByClientStream s' session' stream' = getBindingByClientStream s session' stream') →
  same_but id session stream (registry_binding r) (registry_binding r') ∧
  registry_binding r id session stream = getBindingByClientStream s session stream ∧
  registry_binding r' id session stream = getBindingByClientStream s' session stream.
Proof.
  intros Hs Hview Hother. unfold registry_binding. split_and!.
  - intros id' session' stream' Hpos Hne. rewrite Hview. unfold update_at.
    case_decide as Hid; [subst id'|done]. rewrite Hs. simpl. apply Hother; [done|]. congruence.
  - by rewrite Hs.
  - by rewrite Hview, update_at_eq.
Qed.

Lemma local_open_frame target input (r : Registry) res r' :
  registry_ok r → local_openInteractiveStream run_probe target input r = (res, r') →
  may_open input.(open_sandboxInstanceId) input.(open_clientSessionId) input.(open_clientStreamId)
    (registry_binding r) (registry_binding r').
Proof.
  intros Hr. assert (∀ id session stream, may_open id session stream (registry_binding r) (registry_binding r)) as Hsame.
  { intros id session stream. split; [by intros ? ? ?|by left]. }
  unfold local_openInteractiveStream, requireBootstrapTarget, mbind, M_bind.
  rewrite getBootstrapTarget_view.
  destruct (view r input.(open_sandboxInstanceId)) as [s|] eqn:Hs; [simpl|by intros [= <- <-]].
  case_bool_decide; [simpl|by intros [= <- <-]].
  destruct (isBootstrapSessionAvailable _ _ _); [simpl|by intros [= <- <-]].
  destruct (Hr _ _ Hs) as [Hok _].
  destruct (bind_view r input.(open_sandboxInstanceId) input.(open_channelKind)
    input.(open_clientSessionId) input.(open_clientStreamId) s Hs) as (r1 & Hbind & Hview).
  rewrite Hbind. intros Heq.
  assert (r' = r1) as -> by (destruct (bindClientStream _ _ _ s) as [[] ?]; by injection Heq).
  pose proof (bind_outcome_ok s input.(open_channelKind) input.(open_clientSessionId)
    input.(open_clientStreamId) Hok) as Ho.
  destruct (bindClientStream _ _ _ s) as [out s']. cbn [snd] in Hview.
  inversion Ho as [| | |Hpos Hnone _ _]; subst out s';
    (match type of Hview with context [Some ?s'] =>
       destruct (update_same_but r r1 input.(open_sandboxInstanceId) input.(open_clientSessionId)
         input.(open_clientStreamId) s s' Hs Hview) as (Hbut & Hown & Hown')
     end; [|split; [exact Hbut|]; rewrite Hown]);
    try done; try (rewrite Hown'; by left).
  - intros session' stream' Hpos' Hne. unfold getBindingByClientStream. simpl. unfold binding_key. simpl.
    apply JsMap.get_set_ne. by apply other_key.
  - by right.
Qed.

Lemma local_close_frame target input (r : Registry) res r' :
  registry_ok r → positive_integer input.(client_clientStreamId) →
  local_closeInteractiveStream target input r = (res, r') →
  registry_ok r' ∧
  may_close input.(client_sandboxInstanceId) input.(client_clientSessionId) input.(client_clientStreamId)
    (registry_binding r) (registry_binding r').
Proof.
  intros Hr Hpos. assert (∀ id session stream, may_close id session stream (registry_binding r) (registry_binding r)) as Hsame.
  { intros id session stream. split; [by intros ? ? ?|by left]. }
  unfold local_closeInteractiveStream, mbind, M_bind, gets. rewrite matching_view.
  destruct (view r input.(client_sandboxInstanceId)) as [s|] eqn:Hs; [|by intros [= <- <-]].
  destruct (decide _); [|by intros [= <- <-]].
  destruct (unbind_view r input.(client_sandboxInstanceId) input.(client_clientSessionId)
    input.(client_clientStreamId) s Hs) as (r1 & Hunbind & Hview).
  pose proof (registry_apply_ok (OnSandbox input.(client_sandboxInstanceId)
    (Unbind input.(client_clientSessionId) input.(client_clientStreamId))) r Hr) as Hok.
  simpl in Hok. rewrite Hunbind in Hok. rewrite Hunbind. intros Heq.
  assert (r' = r1) as -> by (destruct (unbindClientStream _ _ s) as [[|[]] ?]; by injection Heq).
  split; [done|]. revert Hview. unfold unbindClientStream. intros Hview.
  match type of Hview with context [Some ?s'] =>
    destruct (update_same_but r r1 input.(client_sandboxInstanceId) input.(client_clientSessionId)
      input.(client_clientStreamId) s s' Hs Hview) as (Hbut & Hown & Hown')
  end; [|split; [exact Hbut|]; rewrite Hown, Hown'].
  - intros session' stream' Hpos' Hne. destruct (JsMap.get _ _) as [b|]; [|done].
    unfold getBindingByClientStream. simpl. apply JsMap.get_delete_ne. by apply other_key.
  - unfold getBindingByClientStream. destruct (JsMap.get s.(bindingsByClientKey) _) as [b|] eqn:Hb.
    + right. simpl. apply JsMap.get_delete_eq.
    + left. simpl. by rewrite Hb.
Qed.

#[refine] Instance local_stream_frame :
  @InteractiveStreamFrame _ _ _
    (local_client run_probe localNodeId authorizeHandler openPortHandler releasePortHandler)
    (local_stream_laws run_probe localNodeId authorizeHandler openPortHandler releasePortHandler) := {
  stream_binding := registry_binding;
}.
Proof.
  - intros target input w res w' Hw Heq. destruct (asserting_cases _ _ _ _ _ _ _ Heq) as [Hop|[_ ->]].
    + exact (local_open_frame target input w res w' Hw Hop).
    + split; [by intros ? ? ?|by left].
  - intros target input w res w' Hw Heq. destruct (asserting_cases _ _ _ _ _ _ _ Heq) as [Hop|[_ ->]]; [|by intros ? ? ?].
    cbn in Hop. destruct (find_by_client_cases target input w) as [Hc|(s & b & _ & _ & Hc)];
      rewrite Hc in Hop; simplify_eq; by intros ? ? ?.
  - intros target input w res w' Hw Hpos Heq. destruct (asserting_cases _ _ _ _ _ _ _ Heq) as [Hop|[_ ->]].
    + exact (local_close_frame target input w res w' Hw Hpos Hop).
    + split; [done|]. split; [by intros ? ? ?|by left].
Defined.
End LocalFrame.

(** ** The router keeps it, whatever the targets it calls *)

Section RouterFrame.
Context {PortTarget AuthorizeResult W : Type}.
Context `{HF : InteractiveStreamFrame PortTarget AuthorizeResult W}.
Context (sourceNode : string) (resolve_owner : string → M JsError W SandboxOwnerResolution).
Context (resolve_owner_ok : ∀ id w, stream_world_ok w → stream_world_ok (resolve_owner id w).2).
Context (resolve_owner_keeps : ∀ id w,
  stream_world_ok w → same_bindings (stream_binding w) (stream_binding (resolve_owner id w).2)).

(** What the calls of a routed operation keep, it keeps. *)
Lemma routed_keeps {A} (I : W → Prop) id
    (call : GatewayForwardingTarget → M JsError W A) missing gone w targets result :
  (∀ w, I w → I (resolve_owner id w).2) → (∀ target w, I w → I (call target w).2) →
  (∀ w, (missing w).2 = w) → (∀ w, (gone w).2 = w) → I w →
  routed sourceNode resolve_owner id call missing gone w targets result → I result.2.
Proof.
  intros Hres Hcall Hmissing Hgone Hw Hrouted.
  assert (∀ w1 res w2, I w1 → resolve_owner id w1 = (res, w2) → I w2) as Hr'.
  { intros w1 res w2 Hw1 Heq. specialize (Hres w1 Hw1). by rewrite Heq in Hres. }
  assert (∀ target w1 res w2, I w1 → call target w1 = (res, w2) → I w2) as Hc'.
  { intros target w1 res w2 Hw1 Heq. specialize (Hcall target w1 Hw1). by rewrite Heq in Hcall. }
  destruct Hrouted; simpl; rewrite ?Hmissing, ?Hgone;
    repeat match goal with
      | HI : I ?w1, Hr : resolve_owner id ?w1 = (_, ?w2) |- _ => pose proof (Hr' _ _ _ HI Hr); clear Hr
      | HI : I ?w1, Hc : call _ ?w1 = (_, ?w2) |- _ => pose proof (Hc' _ _ _ _ HI Hc); clear Hc
      end; by try apply Hcall.
Qed.

Lemma may_open_step id session stream b1 b2 b3 :
  may_open id session stream b1 b2 → may_open id session stream b2 b3 → may_open id session stream b1 b3.
Proof.
  intros [Hbut [Heq|Hnone]] [Hbut' Hown]; (split; [by eapply same_but_trans|]); [|by right].
  rewrite <- Heq. exact Hown.
Qed.

Lemma may_close_step id session stream b1 b2 b3 :
  may_close id session stream b1 b2 → may_close id session stream b2 b3 → may_close id session stream b1 b3.
Proof.
  intros [Hbut Hown] [Hbut' [Heq|Hnone]]; (split; [by eapply same_but_trans|]); [|by right].
  rewrite Heq. exact Hown.
Qed.

Lemma same_may_open id session stream b b' : positive_integer stream →
  same_bindings b b' → may_open id session stream b b'.
Proof. intros Hpos Hsame. split; [by apply same_bindings_but|left; by apply Hsame]. Qed.

Lemma same_may_close id session stream b b' : positive_integer stream →
  same_bindings b b' → may_close id session stream b b'.
Proof. intros Hpos Hsame. split; [by apply same_bindings_but|left; by apply Hsame]. Qed.

Lemma same_bindings_refl b : same_bindings b b.
Proof. by intros ? ? ?. Qed.

Lemma router_open_frame input w res w' :
  stream_world_ok w → positive_integer input.(open_clientStreamId) →
  router_openInteractiveStream sourceNode resolve_owner input w = (res, w') →
  may_open input.(open_sandboxInstanceId) input.(open_clientSessionId) input.(open_clientStreamId)
    (stream_binding w) (stream_binding w').
Proof.
  intros Hw Hpos Heq. destruct (router_open_routed sourceNode resolve_owner input w) as [targets Hr].
  rewrite Heq in Hr.
  refine (proj2 (routed_keeps (λ w1, stream_world_ok w1 ∧ may_open _ _ _ (stream_binding w) (stream_binding w1))
    _ _ _ _ w targets _ _ _ _ _ _ Hr)); [| |done|done|].
  - intros w1 [Hw1 Hopen]. split; [by apply resolve_owner_ok|]. eapply may_open_step; [exact Hopen|].
    by apply same_may_open, resolve_owner_keeps.
  - intros target w1 [Hw1 Hopen]. destruct (client_openInteractiveStream target input w1) as [res1 w2] eqn:Hc.
    split; [by destruct (law_client_open _ _ _ _ _ Hw1 Hc)|]. eapply may_open_step; [exact Hopen|].
    by eapply frame_open.
  - split; [done|]. by apply same_may_open, same_bindings_refl.
Qed.

Lemma router_find_by_client_frame input w res w' :
  stream_world_ok w → router_findInteractiveStreamByClient sourceNode resolve_owner input w = (res, w') →
  same_bindings (stream_binding w) (stream_binding w').
Proof.
  intros Hw Heq. destruct (router_find_by_client_routed sourceNode resolve_owner input w) as [targets Hr].
  rewrite Heq in Hr.
  refine (proj2 (routed_keeps (λ w1, stream_world_ok w1 ∧ same_bindings (stream_binding w) (stream_binding w1))
    _ _ _ _ w targets _ _ _ _ _ _ Hr)); [| |done|done|split; [done|apply same_bindings_refl]].
  - intros w1 [Hw1 Hsame]. split; [by apply resolve_owner_ok|]. intros id' session' stream' Hpos.
    rewrite <- Hsame by done. by apply resolve_owner_keeps.
  - intros target w1 [Hw1 Hsame].
    destruct (client_findInteractiveStreamByClient target input w1) as [res1 w2] eqn:Hc.
    split; [by destruct (law_client_find_by_client _ _ _ _ _ Hw1 Hc)|]. intros id' session' stream' Hpos.
    rewrite <- Hsame by done. exact (frame_find_by_client _ _ _ _ _ Hw1 Hc _ _ _ Hpos).
Qed.

Lemma router_close_frame input w res w' :
  stream_world_ok w → positive_integer input.(client_clientStreamId) →
  router_closeInteractiveStream sourceNode resolve_owner input w = (res, w') →
  may_close input.(client_sandboxInstanceId) input.(client_clientSessionId) input.(client_clientStreamId)
    (stream_binding w) (stream_binding w').
Proof.
  intros Hw Hpos Heq.
  destruct (routed_of_once sourceNode resolve_owner input.(client_sandboxInstanceId)
    (λ t, client_closeInteractiveStream t input)
    (throw (BootstrapTunnelNotConnectedError input.(client_sandboxInstanceId))) (mret None) w
    (router_closeInteractiveStream sourceNode resolve_owner input w)) as [targets Hr];
    [apply resolveForwardingTarget_then|]. rewrite Heq in Hr.
  refine (proj2 (routed_keeps (λ w1, stream_world_ok w1 ∧ may_close _ _ _ (stream_binding w) (stream_binding w1))
    _ _ _ _ w targets _ _ _ _ _ _ Hr)); [| |done|done|].
  - intros w1 [Hw1 Hclose]. split; [by apply resolve_owner_ok|]. eapply may_close_step; [exact Hclose|].
    by apply same_may_close, resolve_owner_keeps.
  - intros target w1 [Hw1 Hclose]. destruct (client_closeInteractiveStream target input w1) as [res1 w2] eqn:Hc.
    destruct (frame_close _ _ _ _ _ Hw1 Hpos Hc) as [Hw2 Hframe].
    split; [done|]. by eapply may_close_step.
  - split; [done|]. by apply same_may_close, same_bindings_refl.
Qed.
End RouterFrame.

(** ** What a message of a connection does to the streams *)

(** A message that may open the stream it is about. *)
Definition opens_stream `{Zod} (payload : RelayPayload) : Prop :=
  ∃ text m, payload = TextPayload text ∧ parseStreamControlMessage text = Some m ∧ type_of m = "stream.open".

(** A message that may end it: the close of the client, or data that may be refused. *)
Definition ends_stream `{Zod} (payload : RelayPayload) : Prop :=
  match payload with
  | TextPayload text => ∃ m, parseStreamControlMessage text = Some m ∧ type_of m = "stream.close"
  | BinaryPayload _ => True
  end.

(** Every stream is as it was, but for the one the message is about: that one may have been opened
    when the message opens it, and closed when the message may end it. *)
Definition streams_confined `{Zod} (payload : RelayPayload) (id session : string) (b b' : bindings) : Prop :=
  ∀ id' session' stream', positive_integer stream' →
    b' id' session' stream' = b id' session' stream' ∨
    id' = id ∧ session' = session ∧ inbound_streamId payload = Some stream' ∧
      (opens_stream payload ∧ b id session stream' = None ∨
       ends_stream payload ∧ b' id session stream' = None).

Section TranslationFrame.
Context {PortTarget AuthorizeResult W : Type}.
Context `{HF : InteractiveStreamFrame PortTarget AuthorizeResult W}.
Context `{HZ : Zod, HZL : !ZodLaws} `{HS : PublishingServices W}.
Context (sourceNode : string) (resolve_owner : string → M JsError W SandboxOwnerResolution).
Context (resolve_owner_ok : ∀ id w, stream_world_ok w → stream_world_ok (resolve_owner id w).2).
Context (resolve_owner_keeps : ∀ id w,
  stream_world_ok w → same_bindings (stream_binding w) (stream_binding (resolve_owner id w).2)).
Context (authorize_keeps : ∀ id session m w, stream_world_ok w →
  same_bindings (stream_binding w) (stream_binding (forwardConnectionTargetAuthorize id session m w).2)).

(** What the translation has done: it has opened at most the stream of a message that opens one and
    asks for no clean-up; or it has left the streams alone, and asks for a clean-up only after a
    message that may end its stream. *)
Definition translated_streams (payload : RelayPayload) (id session : string) (w : W)
    (res : JsError + TunnelProtocolTranslation) (w1 : W) : Prop :=
  (opens_stream payload ∧ (∀ t, res = inr t → t.(releaseInteractiveStream) = None) ∧
   ∃ stream, inbound_streamId payload = Some stream ∧ positive_integer stream ∧
     may_open id session stream (stream_binding w) (stream_binding w1)) ∨
  (same_bindings (stream_binding w) (stream_binding w1) ∧
   ∀ t, res = inr t → is_Some t.(releaseInteractiveStream) → stream_world_ok w1 ∧ ends_stream payload).

Lemma inbound_positive payload stream :
  payload_ok payload → inbound_streamId payload = Some stream → positive_integer stream.
Proof.
  intros Hok Hstream. destruct (inbound_streamId_valid _ _ Hok Hstream) as (n & -> & Hn).
  exists n. split; [done|]. unfold valid_message_streamId in Hn. lia.
Qed.

Lemma open_streams kind session text m id w res w1 :
  parseStreamControlMessage text = Some m → type_of m = "stream.open" → stream_world_ok w →
  translateConnectionStreamOpen sourceNode resolve_owner kind session m id w = (res, w1) →
  translated_streams (TextPayload text) id session w res w1.
Proof.
  intros Hm Htype Hw Heq. left. split; [by exists text, m|].
  assert (inbound_streamId (TextPayload text) = Some (number_field m "streamId")) as Hx by (simpl; by rewrite Hm).
  pose proof (inbound_positive (TextPayload text) _ I Hx) as Hpos.
  revert Heq. unfold translateConnectionStreamOpen, try_catch, mbind, M_bind.
  destruct (router_openInteractiveStream _ _ _ w) as [out w2] eqn:Hopen. intros Heq.
  pose proof (router_open_frame sourceNode resolve_owner resolve_owner_ok resolve_owner_keeps
    (mkOpenInput id session (number_field m "streamId") kind) _ _ _ Hw Hpos Hopen) as Hframe.
  split; [|exists (number_field m "streamId")].
  - intros t ->. destruct out as [e|route]; [destruct (toStreamOpenErrorPayload _ _)|]; first [discriminate|by injection Heq as <- _].
  - split; [done|]. split; [done|].
    destruct out as [e|route]; [destruct (toStreamOpenErrorPayload _ _)|]; by injection Heq as _ <-.
Qed.

Lemma control_streams session text m id w res w1 :
  parseStreamControlMessage text = Some m → stream_world_ok w →
  translate_connection_control sourceNode resolve_owner session id m w = (res, w1) →
  translated_streams (TextPayload text) id session w res w1.
Proof.
  intros Hm Hw. unfold translate_connection_control, assertConnectionControlMessageAllowed.
  intros Heq. right. revert Heq. destruct (isConnectionControlMessageAllowed m); unfold mbind, M_bind; cycle 1.
  { intros [= <- <-]. split; [apply same_bindings_refl|done]. }
  unfold mret at 1, M_ret at 1. cbv beta iota. unfold find_by_client. destruct (router_findInteractiveStreamByClient _ _ _ _) as [out w2] eqn:Hfind.
  pose proof (router_find_by_client_frame sourceNode resolve_owner resolve_owner_ok resolve_owner_keeps
    _ _ _ _ Hw Hfind) as Hsame.
  destruct (router_find_by_client_laws sourceNode resolve_owner resolve_owner_ok _ _ _ _ Hw Hfind) as [Hw2 _].
  destruct out as [e|[route|]]; [|case_bool_decide|]; intros [= <- <-];
    (split; [exact Hsame|]); intros t Ht; try done; injection Ht as <-; try (by intros []).
  cbn [releaseInteractiveStream]. case_bool_decide as Htype; cbn [andb]; [|by intros []].
  intros _. split; [done|]. by exists m.
Qed.

Lemma binary_streams session b id w res w1 :
  stream_world_ok w →
  translateConnectionBinaryPayload sourceNode resolve_owner session b id w = (res, w1) →
  translated_streams (BinaryPayload b) id session w res w1.
Proof.
  intros Hw Heq. right. revert Heq. unfold translateConnectionBinaryPayload.
  destruct (readDataFrameHeader b) as [h|]; cycle 1.
  { intros [= <- <-]. split; [apply same_bindings_refl|done]. }
  cbv zeta. unfold find_by_client, mbind, M_bind.
  destruct (router_findInteractiveStreamByClient _ _ _ _) as [out w2] eqn:Hfind.
  pose proof (router_find_by_client_frame sourceNode resolve_owner resolve_owner_ok resolve_owner_keeps
    _ _ _ _ Hw Hfind) as Hsame.
  destruct (router_find_by_client_laws sourceNode resolve_owner resolve_owner_ok _ _ _ _ Hw Hfind) as [Hw2 _].
  intros Heq. assert (w1 = w2) as -> by (destruct out as [e|[route|]];
    [by injection Heq| |by injection Heq]; destruct (isPayloadKindAllowedForChannel _ _);
    [destruct (rewriteStreamId _ _)|]; by injection Heq).
  split; [exact Hsame|]. intros t _ _. by split.
Qed.

(** The translation of a message of a connection, also when it ends with an error. *)
Lemma translation_frame input w res w1 :
  input.(translate_sourcePeerSide) = SideConnection → stream_world_ok w →
  translateInboundMessage sourceNode resolve_owner input w = (res, w1) →
  translated_streams input.(translate_payload) input.(translate_sandboxInstanceId)
    input.(translate_clientSessionId) w res w1.
Proof.
  intros Hside Hw. unfold translateInboundMessage. rewrite Hside, !bool_decide_true by done.
  destruct input.(translate_payload) as [text|b]; [|by apply binary_streams].
  destruct (connection_text_cases sourceNode resolve_owner input.(translate_clientSessionId) text
    input.(translate_sandboxInstanceId)) as [m Hm Htype|kind m Hm Htype|m Hm|message].
  - intros Heq. right. revert Heq. unfold mbind, M_bind.
    pose proof (authorize_keeps input.(translate_sandboxInstanceId) input.(translate_clientSessionId) m w Hw) as Hsame.
    destruct (forwardConnectionTargetAuthorize _ _ m w) as [[e|[]] w2]; intros [= <- <-];
      (split; [exact Hsame|]); intros t Ht; [done|]. injection Ht as <-. by intros [].
  - intros Heq. by eapply open_streams.
  - intros Heq. by eapply control_streams.
  - intros [= <- <-]. right. split; [apply same_bindings_refl|done].
Qed.

(** The translation alone, and the translation with the clean-up it asks for. *)
Lemma translated_confined payload id session w res w1 :
  translated_streams payload id session w res w1 →
  streams_confined payload id session (stream_binding w) (stream_binding w1).
Proof.
  intros [(Hopens & _ & stream & Hstream & Hpos & Hbut & Hown)|[Hsame _]] id' session' stream' Hpos';
    [|left; by apply Hsame].
  destruct (decide ((id', session', stream') = (id, session, stream))) as [[= -> -> ->]|Hne]; [|left; by apply Hbut].
  destruct Hown as [Heq|Hnone]; [by left|]. right. repeat (split; [done|]). by left.
Qed.

Lemma released_confined payload id session w t w1 stream out w2 :
  translated_streams payload id session w (inr t) w1 → is_Some t.(releaseInteractiveStream) →
  inbound_streamId payload = Some stream → positive_integer stream →
  router_closeInteractiveStream sourceNode resolve_owner (mkClientStreamInput id session stream) w1 = (out, w2) →
  streams_confined payload id session (stream_binding w) (stream_binding w2).
Proof.
  intros [(_ & Hnone & _)|[Hsame Hends]] Hsome Hstream Hpos Hclose.
  { rewrite (Hnone t eq_refl) in Hsome. by destruct Hsome. }
  destruct (Hends t eq_refl Hsome) as [Hw1 Hend].
  destruct (router_close_frame sourceNode resolve_owner resolve_owner_ok resolve_owner_keeps
    (mkClientStreamInput id session stream) _ _ _ Hw1 Hpos Hclose) as [Hbut Hown]. cbn in Hbut, Hown.
  intros id' session' stream' Hpos'.
  destruct (decide ((id', session', stream') = (id, session, stream))) as [[= -> -> ->]|Hne].
  - destruct Hown as [Heq|Hnone]; [left; by rewrite Heq; apply Hsame|].
    right. repeat (split; [done|]). by right.
  - left. rewrite Hbut by done. by apply Hsame.
Qed.
End TranslationFrame.
