(* ===== verification/MessageHandler.v ===== *)
(** * Handling a websocket message of a tunnel

    tunnel/tunnel-websocket-message-handler.ts and tunnel/tunnel-peer-notifier.ts:
    [handleTunnelWebSocketMessage] translates the message (Translator.v), applies control
    messages to the runtime state of the gateway (RuntimeState.v), delivers the result
    through the relay coordinator (RelayCoordinator.v) or to a handler, and releases the stream
    a message has ended.  The handlers for telemetry, operations, signing and egress tokens
    are arguments, as in the code.

    The theorems compose those of the parts:
    - [connection_message_effects]: what a message of a connection changes on the gateway, and
      that of all streams of all sandboxes only its own can be opened or closed (StreamFrame.v);
    - [relayed_echo]: on the owner node of a sandbox, a frame of a client arrives at the
      socket of the bootstrap tunnel, and what the tunnel sends back on that stream arrives at
      the socket of the client, and nobody else gets anything. *)

From S2P Require Import Prelude JsMap Json Zod Protocol DataFrame TunnelTypes PeerRegistry RelayCoordinator.
From S2P Require Import TunnelSession SessionRegistry RuntimeState Forwarding Translator TranslatorSpec StreamFrame.
Local Open Scope Z_scope.

(** ** Payloads *)

(** [WSMessageReceive]: a text, an [ArrayBuffer], a view of one, or something else (a [Blob]). *)
Inductive WSMessageReceive : Type :=
| MessageText (text : string)
| MessageArrayBuffer (buffer : list Z)
| MessageView (buffer : list Z) (byteOffset byteLength : nat)
| MessageOther.

Definition toTunnelForwardPayload (data : WSMessageReceive) : option RelayPayload :=
  match data with
  | MessageText text => Some (TextPayload text)
  | MessageArrayBuffer buffer => Some (BinaryPayload buffer)
  | MessageView buffer byteOffset byteLength =>
      Some (BinaryPayload (take byteLength (drop byteOffset buffer)))
  | MessageOther => None
  end.

(** ** The state of the gateway a message is handled on *)

Record Gateway (W P T : Type) : Type := mkGateway {
  gateway_world : W;
  gateway_coordinator : TunnelRelayCoordinator P T;
  gateway_runtime : GatewayRuntime;
  (** what [currentSocket.send] was called with *)
  gateway_sent : list RelayPayload;
}.
Arguments mkGateway {W P T}.
Arguments gateway_world {W P T}.
Arguments gateway_coordinator {W P T}.
Arguments gateway_runtime {W P T}.
Arguments gateway_sent {W P T}.

(** [Promise.all] of calls that were all started, each running to its end before the next: all
    of them happen, and the error is the first one's. *)
Fixpoint promise_all {E S} (calls : list (M E S unit)) : M E S unit := λ s,
  match calls with
  | [] => (inr tt, s)
  | call :: calls =>
      let (res, s) := call s in
      let (rest, s) := promise_all calls s in
      (match res with inl e => inl e | inr _ => rest end, s)
  end.

Lemma promise_all_run {E S A} (f : A → M E S unit) l s :
  (promise_all (f <$> l) s).2 = foldl (λ s a, (f a s).2) s l.
Proof.
  revert s. induction l as [|a l IH]; intros s; [done|]. rewrite fmap_cons. cbn [promise_all foldl].
  rewrite <- IH. destruct (f a s) as [res s1]. cbn [snd]. by destruct (promise_all _ s1).
Qed.

Definition boolean_field (v : json) (key : string) : bool :=
  match field v key with Some (JBool b) => b | _ => false end.

Section Handler.
Context {PortTarget AuthorizeResult W : Type}.
Context `{GatewayForwardingClientAdapter PortTarget AuthorizeResult W} `{Zod} `{PublishingServices W}.
Context (sourceNode : string) (resolve_owner : string → M JsError W SandboxOwnerResolution).
Context {P Socket T : Type}.
Context `{LocalPeerRegistryAdapter P} `{RelayPeerResolver P} `{RelayTransportAdapter Socket T}.
Context (respond : DataPlaneCall → option JsError) (idleTimeoutMs : Z) (gatewayNodeId : string).
Notation GatewayState := (Gateway W P T).
Notation GatewayM := (M JsError GatewayState).

(** Calls on a part of the gateway. *)
Definition on_world {A} (op : M JsError W A) : GatewayM A := λ g,
  let (res, w) := op g.(gateway_world) in
  (res, mkGateway w g.(gateway_coordinator) g.(gateway_runtime) g.(gateway_sent)).
Definition on_coordinator {A} (op : M JsError (TunnelRelayCoordinator P T) A) : GatewayM A := λ g,
  let (res, c) := op g.(gateway_coordinator) in
  (res, mkGateway g.(gateway_world) c g.(gateway_runtime) g.(gateway_sent)).
Definition on_runtime {A} (op : M JsError GatewayRuntime A) : GatewayM A := λ g,
  let (res, r) := op g.(gateway_runtime) in
  (res, mkGateway g.(gateway_world) g.(gateway_coordinator) r g.(gateway_sent)).

(** [input.currentSocket.send(payload)] *)
Definition send_to_current_socket (payload : RelayPayload) : GatewayM unit := λ g,
  (inr tt, mkGateway g.(gateway_world) g.(gateway_coordinator) g.(gateway_runtime)
             (g.(gateway_sent) ++ [payload])).

(** *** tunnel-peer-notifier.ts *)

Definition notifyConnectionPeerOfReleasedInteractiveStreams
    (toPayload : option (ClientStreamBinding → string)) (sandboxInstanceId : string)
    (releasedBindings : list ClientStreamBinding) : GatewayM unit :=
  let toPayload := default createReleasedInteractiveStreamResetPayload toPayload in
  promise_all ((λ binding, on_coordinator
    (forwardPeerMessage sandboxInstanceId SideBootstrap (TextPayload (toPayload binding))
       (Some binding.(clientSessionId)))) <$> releasedBindings).

Definition notifyConnectionPeerOfBootstrapDisconnect : string → list ClientStreamBinding → GatewayM unit :=
  notifyConnectionPeerOfReleasedInteractiveStreams (Some createBootstrapDisconnectedStreamResetPayload).

Definition notifyBootstrapPeerOfReleasedInteractiveStreams (sandboxInstanceId : string)
    (targetBootstrapSessionId : option string) (releasedBindings : list ClientStreamBinding) : GatewayM unit :=
  promise_all ((λ binding, on_coordinator
    (forwardPeerMessage sandboxInstanceId SideConnection (TextPayload (createStreamClosePayload binding))
       targetBootstrapSessionId)) <$> releasedBindings).

(** *** The handler *)

Record HandleMessageInput : Type := mkHandleInput {
  handle_bootstrapOwnerLeaseId : option string;
  handle_clientSessionId : string;
  handle_payload : RelayPayload;
  handle_sandboxInstanceId : string;
  handle_sourcePeerSide : RelayPeerSide;
  handle_testEnvironmentId : option string;
  handleTelemetryDelivery : option (TunnelProtocolDelivery → GatewayM unit);
  handleOperationDelivery : option (TunnelProtocolDelivery → GatewayM unit);
  handleSigningDelivery : option (TunnelProtocolDelivery → GatewayM unit);
  handleEgressTokenRequestDelivery : option (TunnelProtocolDelivery → GatewayM unit);
}.

(** A handler that has to be there. *)
Definition call_handler (handler : option (TunnelProtocolDelivery → GatewayM unit)) (message : string)
    (d : TunnelProtocolDelivery) : GatewayM unit :=
  match handler with
  | None => throw (PlainError message)
  | Some handle => handle d
  end.

(** The lease that has to be there for a control message. *)
Definition with_owner_lease (input : HandleMessageInput) (what : string) (apply : string → GatewayM unit)
    : GatewayM unit :=
  match input.(handle_bootstrapOwnerLeaseId) with
  | None => throw (PlainError ("Bootstrap owner lease id is required when applying " +:+ what
                               +:+ " control messages."))
  | Some ownerLeaseId => apply ownerLeaseId
  end.

Definition deliver (input : HandleMessageInput) (d : TunnelProtocolDelivery) : GatewayM unit :=
  let id := input.(handle_sandboxInstanceId) in
  match d with
  | DeliverDrop => mret tt
  | DeliverTelemetryOpen _ | DeliverTelemetryClose _ | DeliverTelemetryData _ _
  | DeliverTelemetryInvalidData _ _ =>
      call_handler input.(handleTelemetryDelivery) "Telemetry delivery requires a telemetry handler." d
  | DeliverOperationOpen _ | DeliverOperationClose _ | DeliverOperationData _ _
  | DeliverOperationInvalidData _ _ =>
      call_handler input.(handleOperationDelivery) "Operation delivery requires an operation handler." d
  | DeliverSigningRequest _ =>
      call_handler input.(handleSigningDelivery) "Signing delivery requires a signing handler." d
  | DeliverEgressTokenRequest _ =>
      call_handler input.(handleEgressTokenRequestDelivery)
        "Egress token request delivery requires an egress token handler." d
  | DeliverPtyClientControl payload ptySessionId =>
      on_coordinator (forwardSessionPeerMessage id SidePtyClient ptySessionId payload)
  | DeliverRespond payload => send_to_current_socket payload
  | DeliverForward payload targetBootstrapSessionId targetConnectionSessionId =>
      on_coordinator (forwardPeerMessage id input.(handle_sourcePeerSide) payload
        (if input.(handle_sourcePeerSide) =?= SideConnection
         then targetBootstrapSessionId else targetConnectionSessionId))
  end.

(** What is done once the delivery is made. *)
Definition release_streams (input : HandleMessageInput) (translation : TunnelProtocolTranslation)
    : GatewayM unit :=
  let id := input.(handle_sandboxInstanceId) in
  _ ← match translation.(releaseInteractiveStream) with
      | None => mret tt
      | Some released =>
          _ ← on_world (router_closeInteractiveStream sourceNode resolve_owner
                (mkClientStreamInput id released.(releaseStream_clientSessionId)
                   released.(releaseStream_clientStreamId)));
          mret tt
      end;
  match translation.(notifyBootstrapPeerOfReleasedStream) with
  | None => mret tt
  | Some (binding, targetBootstrapSessionId) =>
      notifyBootstrapPeerOfReleasedInteractiveStreams id (Some targetBootstrapSessionId) [binding]
  end.

Definition is_drop (d : TunnelProtocolDelivery) : bool :=
  match d with DeliverDrop => true | _ => false end.

(** [nowMs] and [clock]: the readings of the clock when a control message is applied. *)
Definition apply_control_messages (nowMs clock : Z) (input : HandleMessageInput)
    (translation : TunnelProtocolTranslation) : GatewayM unit :=
  let id := input.(handle_sandboxInstanceId) in
  let env := input.(handle_testEnvironmentId) in
  _ ← match translation.(keepaliveControlMessage) with
      | None => mret tt
      | Some message =>
          with_owner_lease input "keepalive" (λ ownerLeaseId,
            on_runtime (keepalive_applyControlMessage respond idleTimeoutMs gatewayNodeId
              (boolean_field message "active") (integer_of (number_field message "ttlMs"))
              id ownerLeaseId env nowMs clock))
      end;
  match translation.(runtimeReadyControlMessage) with
  | None => mret tt
  | Some message =>
      with_owner_lease input "runtime readiness" (λ ownerLeaseId,
        on_runtime (readiness_applyControlMessage respond gatewayNodeId
          (boolean_field message "ready") id ownerLeaseId env nowMs))
  end.

Definition translate_input (input : HandleMessageInput) : TranslateTunnelInboundMessageInput :=
  mkTranslateInput input.(handle_clientSessionId) input.(handle_payload) input.(handle_sandboxInstanceId)
    input.(handle_sourcePeerSide).

Definition handleTunnelWebSocketMessage (nowMs clock : Z) (input : HandleMessageInput) : GatewayM unit :=
  translation ← on_world (translateInboundMessage sourceNode resolve_owner (translate_input input));
  _ ← apply_control_messages nowMs clock input translation;
  if is_drop translation.(delivery) then mret tt
  else
    _ ← deliver input translation.(delivery);
    release_streams input translation.
End Handler.

(** ** What a message of a connection changes *)

Section Effects.
Context {PortTarget AuthorizeResult W : Type}.
Context `{HC : GatewayForwardingClientAdapter PortTarget AuthorizeResult W}.
Context `{HLaws : !InteractiveStreamLaws, HF : !InteractiveStreamFrame}.
Context `{HZ : Zod, HZL : !ZodLaws} `{HS : PublishingServices W}.
Context (sourceNode : string) (resolve_owner : string → M JsError W SandboxOwnerResolution).
Context (resolve_owner_ok : ∀ id w, stream_world_ok w → stream_world_ok (resolve_owner id w).2).
Context (resolve_owner_keeps : ∀ id w,
  stream_world_ok w → same_bindings (stream_binding w) (stream_binding (resolve_owner id w).2)).
Context (authorize_keeps : ∀ id session m w, stream_world_ok w →
  same_bindings (stream_binding w) (stream_binding (forwardConnectionTargetAuthorize id session m w).2)).
Context {P Socket T : Type}.
Context `{HP : LocalPeerRegistryAdapter P} `{HR : RelayPeerResolver P} `{HT : RelayTransportAdapter Socket T}.
Context (respond : DataPlaneCall → option JsError) (idleTimeoutMs : Z) (gatewayNodeId : string).
Notation Coordinator := (TunnelRelayCoordinator P T).
Notation handle := (handleTunnelWebSocketMessage (Socket := Socket) sourceNode resolve_owner respond
  idleTimeoutMs gatewayNodeId).

(** Frames with these payloads are sent to the current bootstrap peer of the sandbox, and that is all. *)
Definition sent_to_bootstrap (id : string) (payloads : list RelayPayload) (c c' : Coordinator) : Prop :=
  c'.(coordinator_nodeId) = c.(coordinator_nodeId) ∧ c'.(peerRegistry) = c.(peerRegistry) ∧
  ∃ envelopes, c'.(relayTransport) = deliver_all envelopes c.(relayTransport) ∧
    Forall (λ e, ∃ target payload session, e = RelayFrameEnvelope target payload ∧ payload ∈ payloads ∧
      resolveBootstrapPeer c.(peerRegistry) id session = Some target) envelopes.

Lemma sent_to_bootstrap_nothing id c : sent_to_bootstrap id [] c c.
Proof. do 2 (split; [done|]). exists []. by split. Qed.

Lemma deliver_all_app es1 es2 (t : T) : deliver_all (es1 ++ es2) t = deliver_all es2 (deliver_all es1 t).
Proof. apply foldl_app. Qed.

Lemma sent_to_bootstrap_app id l1 l2 c c1 c2 :
  sent_to_bootstrap id l1 c c1 → sent_to_bootstrap id l2 c1 c2 → sent_to_bootstrap id (l1 ++ l2) c c2.
Proof.
  intros (Hn1 & Hp1 & es1 & Ht1 & Hall1) (Hn2 & Hp2 & es2 & Ht2 & Hall2).
  split; [congruence|]. split; [congruence|]. exists (es1 ++ es2).
  split; [by rewrite deliver_all_app, <- Ht1|]. rewrite Hp1 in Hall2. apply Forall_app.
  split; (eapply Forall_impl; [eassumption|]); intros e (target & payload & session & ? & ? & ?);
    exists target, payload, session; rewrite elem_of_app; auto.
Qed.

Lemma forward_from_connection id payload session c :
  sent_to_bootstrap id [payload] c (forwardPeerMessage (Socket := Socket) id SideConnection payload session c).2.
Proof.
  unfold forwardPeerMessage, mbind, M_bind, gets. rewrite bool_decide_true by done.
  destruct (resolveBootstrapPeer c.(peerRegistry) id session) as [target|] eqn:Htarget.
  - unfold on_transport. destruct (deliverEnvelope _ _) as [res t] eqn:Hd. cbn [snd].
    split; [done|]. split; [done|]. exists [toFrameEnvelope target payload]. split.
    { cbn. by rewrite Hd. }
    constructor; [|done]. exists target, payload, session. split; [done|]. split; [left|done].
  - cbn [snd]. split; [done|]. split; [done|]. by exists [].
Qed.

(** The payload is the message of the connection on a stream of its own, or tells the tunnel that
    such a stream is closed. *)
Definition own_stream_payload (payload : RelayPayload) (session : string) (sent : RelayPayload) : Prop :=
  (∃ stream route, inbound_streamId payload = Some stream ∧ is_route_of route session stream ∧
     forwards_stream payload sent route) ∨
  (∃ binding, binding.(clientSessionId) = session ∧ sent = TextPayload (createStreamClosePayload binding)).

(** The streams of the gateway after the message. *)
Notation confined input w w' :=
  (streams_confined input.(handle_payload) input.(handle_sandboxInstanceId) input.(handle_clientSessionId)
     (stream_binding w) (stream_binding w')).
Notation translated input w t w1 :=
  (translated_streams input.(handle_payload) input.(handle_sandboxInstanceId) input.(handle_clientSessionId)
     w (inr t) w1).

(** *** The steps after the translation *)

Lemma release_streams_effect (input : HandleMessageInput) t w g :
  payload_ok input.(handle_payload) →
  connection_confined sourceNode resolve_owner input.(handle_payload) input.(handle_sandboxInstanceId)
    input.(handle_clientSessionId) w t g.(gateway_world) →
  translated input w t g.(gateway_world) →
  let g' := (release_streams (Socket := Socket) sourceNode resolve_owner input t g).2 in
  g'.(gateway_runtime) = g.(gateway_runtime) ∧ g'.(gateway_sent) = g.(gateway_sent) ∧
  (∃ sent, sent_to_bootstrap input.(handle_sandboxInstanceId) sent g.(gateway_coordinator) g'.(gateway_coordinator) ∧
     Forall (own_stream_payload input.(handle_payload) input.(handle_clientSessionId)) sent) ∧
  confined input w g'.(gateway_world).
Proof.
  intros Hpayload (_ & _ & Hnotify & Hrelease & _) Htranslated g'. subst g'. unfold release_streams. cbv zeta.
  set (closing := match t.(releaseInteractiveStream) with None => _ | Some _ => _ end).
  assert (∃ res w1, closing g = (res, mkGateway w1 g.(gateway_coordinator) g.(gateway_runtime) g.(gateway_sent)) ∧
    confined input w w1) as (res & w1 & Hclosing & Hw1).
  { subst closing. destruct t.(releaseInteractiveStream) as [r|] eqn:Hr.
    - destruct (Hrelease r eq_refl) as [-> Hstream]. unfold on_world, mbind, M_bind.
      destruct (router_closeInteractiveStream _ _ _ _) as [out w1] eqn:Hclose.
      exists (match out with inl e => inl e | inr _ => inr tt end), w1. split; [by destruct out|].
      refine (released_confined sourceNode resolve_owner resolve_owner_ok resolve_owner_keeps _ _ _ _ t
        g.(gateway_world) r.(releaseStream_clientStreamId) out w1 Htranslated _ Hstream _ Hclose);
        [by rewrite Hr|exact (inbound_positive _ _ Hpayload Hstream)].
    - exists (inr tt), g.(gateway_world). split; [by destruct g|by eapply translated_confined]. }
  unfold mbind, M_bind. rewrite Hclosing. destruct res as [e|[]].
  { cbn. do 2 (split; [done|]). split; [|done]. exists []. split; [apply sent_to_bootstrap_nothing|done]. }
  destruct t.(notifyBootstrapPeerOfReleasedStream) as [[b target]|].
  - specialize (Hnotify b target eq_refl).
    unfold notifyBootstrapPeerOfReleasedInteractiveStreams. cbn [fmap list_fmap promise_all].
    unfold on_coordinator. cbn [gateway_coordinator].
    pose proof (forward_from_connection input.(handle_sandboxInstanceId)
      (TextPayload (createStreamClosePayload b)) (Some target) g.(gateway_coordinator)) as Hsent.
    destruct (forwardPeerMessage _ _ _ _ _) as [res c] eqn:Hf. cbn in Hsent |- *.
    do 2 (split; [done|]). split; [|done]. eexists. split; [exact Hsent|].
    constructor; [|done]. right. by exists b.
  - cbn. do 2 (split; [done|]). split; [|done]. exists []. split; [apply sent_to_bootstrap_nothing|done].
Qed.

Lemma no_replies (payload : RelayPayload) (sent : list RelayPayload) :
  ∃ replies, sent = sent ++ replies ∧ (length replies ≤ 1)%nat ∧ Forall (answers_stream payload) replies.
Proof. exists []. rewrite app_nil_r. split; [done|]. split; [simpl; lia|constructor]. Qed.

(** What the delivery of a message of a connection has done. *)
Definition connection_delivered (input : HandleMessageInput (W := W) (P := P) (T := T)) (g g' : Gateway W P T) : Prop :=
  g'.(gateway_runtime) = g.(gateway_runtime) ∧
  (∃ replies, g'.(gateway_sent) = g.(gateway_sent) ++ replies ∧ (length replies ≤ 1)%nat ∧
     Forall (answers_stream input.(handle_payload)) replies) ∧
  (∃ sent, sent_to_bootstrap input.(handle_sandboxInstanceId) sent g.(gateway_coordinator) g'.(gateway_coordinator) ∧
     Forall (own_stream_payload input.(handle_payload) input.(handle_clientSessionId)) sent).

Lemma nothing_delivered (input : HandleMessageInput (W := W) (P := P) (T := T)) (g : Gateway W P T) w :
  connection_delivered input g (mkGateway w g.(gateway_coordinator) g.(gateway_runtime) g.(gateway_sent)).
Proof.
  split; [done|]. split; [apply no_replies|]. exists []. split; [apply sent_to_bootstrap_nothing|done].
Qed.

Lemma released_after_delivery (input : HandleMessageInput (W := W) (P := P) (T := T)) t (g g2 g' : Gateway W P T) res :
  payload_ok input.(handle_payload) →
  connection_confined sourceNode resolve_owner input.(handle_payload) input.(handle_sandboxInstanceId)
    input.(handle_clientSessionId) g.(gateway_world) t g2.(gateway_world) →
  translated input g.(gateway_world) t g2.(gateway_world) →
  connection_delivered input g g2 →
  release_streams (Socket := Socket) sourceNode resolve_owner input t g2 = (res, g') →
  connection_delivered input g g' ∧ confined input g.(gateway_world) g'.(gateway_world).
Proof.
  intros Hpayload Hconf Htranslated (Hr2 & Hs2 & sent & Hsent & Hown) Hrun.
  pose proof (release_streams_effect input t _ g2 Hpayload Hconf Htranslated) as Heff. cbv zeta in Heff.
  rewrite Hrun in Heff. cbn [snd] in Heff. destruct Heff as (Hr & Hs & (sent' & Hsent' & Hown') & Hworld).
  split; [|exact Hworld]. split; [by rewrite Hr|]. split; [by rewrite Hs|].
  exists (sent ++ sent'). split; [by eapply sent_to_bootstrap_app|by apply Forall_app].
Qed.

(** A message of a connection, over any forwarding client with the laws and the frame. *)
Lemma connection_effects (input : HandleMessageInput) (g g' : Gateway W P T) (nowMs clock : Z)
    (res : JsError + unit) :
  input.(handle_sourcePeerSide) = SideConnection → payload_ok input.(handle_payload) →
  stream_world_ok g.(gateway_world) → handle nowMs clock input g = (res, g') →
  connection_delivered input g g' ∧ confined input g.(gateway_world) g'.(gateway_world).
Proof.
  intros Hside Hpayload Hw.
  unfold handleTunnelWebSocketMessage, mbind at 1, M_bind at 1, on_world.
  destruct (translateInboundMessage _ _ _ _) as [out w1] eqn:Htranslate.
  pose proof (translation_frame sourceNode resolve_owner resolve_owner_ok resolve_owner_keeps authorize_keeps
    (translate_input input) _ _ _ Hside Hw Htranslate) as Hframe.
  pose proof (translated_confined _ _ _ _ _ _ Hframe) as Hw1. destruct out as [e|t].
  { intros [= <- <-]. split; [apply nothing_delivered|exact Hw1]. }
  pose proof (connection_translated sourceNode resolve_owner resolve_owner_ok (translate_input input)
    _ _ _ Hside Hpayload Hw Htranslate) as Hconf.
  set (g1 := mkGateway w1 g.(gateway_coordinator) g.(gateway_runtime) g.(gateway_sent)).
  pose proof Hconf as (Hkeep & Hready & _ & _ & Hdelivery).
  assert (apply_control_messages (T := T) (W := W) respond idleTimeoutMs gatewayNodeId nowMs clock input t g1 = (inr tt, g1))
    as Hcontrol by (unfold apply_control_messages; by rewrite Hkeep, Hready).
  unfold mbind at 1, M_bind at 1. fold g1. rewrite Hcontrol.
  assert (∀ g2, gateway_world g2 = w1 → connection_delivered input g g2 →
    release_streams (Socket := Socket) sourceNode resolve_owner input t g2 = (res, g') →
    connection_delivered input g g' ∧ confined input g.(gateway_world) g'.(gateway_world)) as Hfinish.
  { intros g2 <- Hg2 Hrelease. exact (released_after_delivery input t g g2 g' res Hpayload Hconf Hframe Hg2 Hrelease). }
  unfold deliver. rewrite Hside, bool_decide_true by done.
  destruct t.(delivery) eqn:Hd; cbn [is_drop]; try done.
  - (* dropped *)
    intros [= <- <-]. split; [apply nothing_delivered|exact Hw1].
  - (* forwarded *)
    destruct targetBootstrapSessionId as [target|], targetConnectionSessionId; try done.
    destruct Hdelivery as (stream & route & Hstream & Hroute & _ & _ & Hforwards).
    unfold mbind, M_bind, on_coordinator. cbn [gateway_coordinator g1].
    pose proof (forward_from_connection input.(handle_sandboxInstanceId) payload (Some target)
      g.(gateway_coordinator)) as Hsent.
    destruct (forwardPeerMessage _ _ _ _ _) as [res1 c] eqn:Hf; cbn [snd] in Hsent.
    assert (connection_delivered input g (mkGateway w1 c g.(gateway_runtime) g.(gateway_sent))) as Hdelivered.
    { split; [done|]. split; [apply no_replies|]. eexists. split; [exact Hsent|].
      constructor; [|done]. left. by exists stream, route. }
    destruct res1 as [e|[]]; cbv beta iota; [|by apply Hfinish].
    intros [= <- <-]. by split.
  - (* answered *)
    unfold mbind, M_bind, send_to_current_socket. apply Hfinish; [done|].
    split; [done|]. split; [|exists []; split; [apply sent_to_bootstrap_nothing|done]].
    exists [payload]. split; [done|]. split; [done|]. by constructor.
Qed.
End Effects.

(** ** A message of a connection on a gateway with the in-process client *)

Section ConnectionMessage.
Context {R : Type} `{HR : TunnelSessionRegistryLaws R} {Probe : Type} (run_probe : Probe → bool).
Context {PortTarget AuthorizeResult : Type} (nodeId sourceNode : string).
Notation Registry := (TunnelSessionRegistry R Probe).
Context (authorizeHandler :
  option (GatewayForwardingTarget → string → PortTarget → M JsError Registry AuthorizeResult)).
Context (openPortHandler :
  option (GatewayForwardingTarget → OpenPortAccessStreamInput →
          M JsError Registry OpenPortAccessStreamResult)).
Context (releasePortHandler :
  GatewayForwardingTarget → ReleasePortAccessStreamInput → M JsError Registry unit).
Context `{HZ : Zod, HZL : !ZodLaws} `{HS : PublishingServices Registry}.
Context (resolve_owner : string → M JsError Registry SandboxOwnerResolution).
Context {P Socket T : Type}.
Context `{HP : LocalPeerRegistryAdapter P} `{HRP : RelayPeerResolver P} `{HT : RelayTransportAdapter Socket T}.
Context (respond : DataPlaneCall → option JsError) (idleTimeoutMs : Z) (gatewayNodeId : string).
#[local] Instance in_process_client : GatewayForwardingClientAdapter PortTarget AuthorizeResult Registry :=
  local_client run_probe nodeId authorizeHandler openPortHandler releasePortHandler.
Notation handle := (handleTunnelWebSocketMessage (Socket := Socket) (P := P) (T := T) sourceNode resolve_owner
  respond idleTimeoutMs gatewayNodeId).

(** A call that leaves the streams of all sandboxes alone. *)
Definition keeps_streams {A} (op : M JsError Registry A) : Prop := ∀ r,
  registry_ok r → registry_ok (op r).2 ∧ same_bindings (registry_binding r) (registry_binding (op r).2).

Lemma keeps_streams_same {A} (op : M JsError Registry A) : (∀ r, (op r).2 = r) → keeps_streams op.
Proof. intros Hop r Hr. rewrite Hop. split; [exact Hr|apply same_bindings_refl]. Qed.

End ConnectionMessage.

(** ** A frame and its answer through the gateway of the owner *)

Section RelayedEcho.
Context {R : Type} `{HR : TunnelSessionRegistryLaws R} {Probe : Type} (run_probe : Probe → bool).
Context {PortTarget AuthorizeResult : Type} (nodeId : string).
Notation Registry := (TunnelSessionRegistry R Probe).
Context (authorizeHandler :
  option (GatewayForwardingTarget → string → PortTarget → M JsError Registry AuthorizeResult)).
Context (openPortHandler :
  option (GatewayForwardingTarget → OpenPortAccessStreamInput →
          M JsError Registry OpenPortAccessStreamResult)).
Context (releasePortHandler :
  GatewayForwardingTarget → ReleasePortAccessStreamInput → M JsError Registry unit).
Context `{HZ : Zod, HZL : !ZodLaws} `{HS : PublishingServices Registry}.
Context (resolve_owner : string → M JsError Registry SandboxOwnerResolution).
Context (is_open : nat → bool) (respond : DataPlaneCall → option JsError) (idleTimeoutMs nowMs clock : Z).
#[local] Instance echo_transport : RelayTransportAdapter nat MemoryTransport := memory_transport is_open.
#[local] Instance echo_client : GatewayForwardingClientAdapter PortTarget AuthorizeResult Registry :=
  owner_client run_probe nodeId authorizeHandler openPortHandler releasePortHandler.
Notation OwnerGateway := (Gateway Registry MemoryPeers MemoryTransport).
Notation handle := (handleTunnelWebSocketMessage (Socket := nat) nodeId resolve_owner respond
  idleTimeoutMs nodeId nowMs clock).

(** The gateway after a frame has been sent on [socket] (when it is open). *)
Definition sent_on (socket : nat) (payload : RelayPayload) (g : OwnerGateway) : OwnerGateway :=
  mkGateway g.(gateway_world) (sent_to is_open socket payload g.(gateway_coordinator))
    g.(gateway_runtime) g.(gateway_sent).

(** A message that is only passed on. *)
Definition passed_on (input : HandleMessageInput (W := Registry) (P := MemoryPeers) (T := MemoryTransport))
    (payload : RelayPayload) (bootstrap connection : option string) (w : Registry) : Prop :=
  translateInboundMessage nodeId resolve_owner (translate_input input) w =
    (inr (createTranslation (DeliverForward payload bootstrap connection)), w).

(** A forwarded message goes to the socket of the peer it resolves to. *)
Lemma forward_to_current id side payload session c table att target socket :
  relay_inv nodeId att table c → (target, socket) ∈ att → valid_target target →
  target.(target_nodeId) = nodeId → isCurrentPeer c target = true →
  (if side =?= SideConnection then resolveBootstrapPeer c.(peerRegistry) id session
   else match session with
        | None => None
        | Some session => resolveConnectionPeer c.(peerRegistry) id session
        end) = Some target →
  forwardPeerMessage id side payload session c = (inr tt, sent_to is_open socket payload c).
Proof.
  intros Hinv Hin Hvalid Hnode Hcur Htarget.
  assert (deliverEnvelope (toFrameEnvelope target payload) c.(relayTransport) =
    (inr tt, (sent_to is_open socket payload c).(relayTransport))) as Hdeliver
    by exact (relay_inv_delivers is_open nodeId att table _ _ _ payload Hinv Hin Hvalid Hcur Hnode).
  unfold forwardPeerMessage, mbind, M_bind, gets. cbv beta. rewrite Htarget. unfold on_transport.
  by rewrite Hdeliver.
Qed.

Lemma handle_passed_on input payload bootstrap connection (g : OwnerGateway) c' :
  passed_on input payload bootstrap connection g.(gateway_world) →
  forwardPeerMessage input.(handle_sandboxInstanceId) input.(handle_sourcePeerSide) payload
    (if input.(handle_sourcePeerSide) =?= SideConnection then bootstrap else connection)
    g.(gateway_coordinator) = (inr tt, c') →
  handle input g = (inr tt, mkGateway g.(gateway_world) c' g.(gateway_runtime) g.(gateway_sent)).
Proof.
  intros Hpassed Hforward.
  unfold handleTunnelWebSocketMessage, mbind at 1, M_bind at 1, on_world.
  unfold passed_on in Hpassed. rewrite Hpassed.
  unfold mbind at 1, M_bind at 1, apply_control_messages. cbn -[forwardPeerMessage].
  unfold mbind, M_bind, on_coordinator. cbn -[forwardPeerMessage]. by rewrite Hforward.
Qed.

Lemma resolve_current_bootstrap (c : TunnelRelayCoordinator MemoryPeers MemoryTransport) t :
  t.(target_side) = SideBootstrap → isCurrentPeer c t = true →
  resolveBootstrapPeer c.(peerRegistry) t.(target_sandboxInstanceId) (Some t.(target_sessionId)) = Some t.
Proof.
  intros Hside Hcur. unfold isCurrentPeer in Hcur. rewrite Hside, bool_decide_true in Hcur by done.
  simpl. unfold local_resolveBootstrapPeer. simpl in Hcur |- *.
  destruct (memory_getBootstrapPeer _ _) as [u|]; [|done]. rewrite isSamePeerLocation_eq, bool_decide_eq_true in Hcur.
  subst u. by rewrite bool_decide_true.
Qed.

Lemma resolve_current_connection (c : TunnelRelayCoordinator MemoryPeers MemoryTransport) t :
  t.(target_side) = SideConnection → isCurrentPeer c t = true →
  resolveConnectionPeer c.(peerRegistry) t.(target_sandboxInstanceId) t.(target_sessionId) = Some t.
Proof.
  intros Hside Hcur. unfold isCurrentPeer in Hcur. rewrite Hside, bool_decide_false in Hcur by done.
  simpl. unfold local_resolveConnectionPeer, local_resolveSessionPeer. simpl in Hcur |- *.
  unfold descriptor in Hcur. rewrite Hside in Hcur. unfold memory_getSessionPeer in *.
  destruct (JsMap.get _ _) as [u|] eqn:Hget; [|done].
  rewrite isSamePeerLocation_eq, bool_decide_eq_true in Hcur. by subst u.
Qed.

(** C5: on the gateway that owns a sandbox, with the in-memory relay after any history of attaches
    and detaches with session ids of their own: a data frame a client sends on a stream it has
    bound is sent on the socket its bootstrap tunnel attached with, under the tunnel's stream id
    and otherwise unchanged; when the tunnel answers with that frame, and it is not one of the
    port access service, the client's own frame is sent on the socket of the client.  Nothing
    else on the gateway changes, and no other socket is used. *)
Theorem relayed_echo (g : OwnerGateway) (ops : list relay_op) (id session bootstrap : string)
    (s : SandboxTunnelSession) (b : ClientStreamBinding) (clientSocket tunnelSocket : nat)
    (frame : list Z) (h : TunnelDataFrameHeader) (input answer : HandleMessageInput) :
  owned_here nodeId resolve_owner g.(gateway_world) id s → session_ok s →
  getBindingByClientStream s session (Int h.(header_streamId)) = Some b → b.(tunnelStreamId) ≤ MaxStreamId →
  bytes frame → readDataFrameHeader frame = Some h →
  isPayloadKindAllowedForChannel b.(channelKind) h.(header_payloadKind) = true →
  relay_history_ok nodeId ops → valid_sandbox_id id →
  g.(gateway_coordinator) = relay_run is_open ops (createInMemoryTunnelRelayCoordinator nodeId) →
  let client := mkTarget id SideConnection nodeId session in
  let tunnel := mkTarget id SideBootstrap nodeId bootstrap in
  s.(bootstrapTarget) = tunnel →
  (client, clientSocket) ∈ attachments nodeId ops → (tunnel, tunnelSocket) ∈ attachments nodeId ops →
  isCurrentPeer g.(gateway_coordinator) client = true → isCurrentPeer g.(gateway_coordinator) tunnel = true →
  translate_input input = mkTranslateInput session (BinaryPayload frame) id SideConnection →
  ∃ frame', handle input g = (inr tt, sent_on tunnelSocket (BinaryPayload frame') g) ∧
    readDataFrameHeader frame' =
      Some {| header_payloadKind := h.(header_payloadKind); header_streamId := b.(tunnelStreamId) |} ∧
    drop DataFrameHeaderByteLength frame' = drop DataFrameHeaderByteLength frame ∧
    (translate_input answer = mkTranslateInput bootstrap (BinaryPayload frame') id SideBootstrap →
     handleBootstrapDataFrame id bootstrap frame' g.(gateway_world) = (inr false, g.(gateway_world)) →
     handle answer (sent_on tunnelSocket (BinaryPayload frame') g) =
       (inr tt, sent_on clientSocket (BinaryPayload frame) (sent_on tunnelSocket (BinaryPayload frame') g))).
Proof.
  intros Howned Hok Hb Hmax Hbytes Hh Hkind Hops Hid Hc client tunnel Hboot Hclient Htunnel Hcur Hcur' Hinput.
  pose proof (relay_history_inv is_open nodeId ops Hops) as Hinv. rewrite <- Hc in Hinv.
  destruct (readDataFrameHeader_inv frame h Hbytes Hh) as (payload & -> & Hv & Hk).
  destruct (bound_by_client_stream s session (Int h.(header_streamId)) b Hok
    ltac:(exists h.(header_streamId); unfold valid_stream_id in Hv; split; [done|lia]) Hb) as (Hsession & Hstream & Ht & Hback).
  assert (valid_stream_id b.(tunnelStreamId)) as Hvt by done.
  set (frame' := frame_bytes b.(tunnelStreamId) h.(header_payloadKind) payload).
  set (h' := {| header_payloadKind := h.(header_payloadKind); header_streamId := b.(tunnelStreamId) |}).
  assert (readDataFrameHeader frame' = Some h') as Hh' by (by apply readDataFrameHeader_bytes).
  exists frame'. unfold translate_input in *. split; [|split; [done|split; [done|]]].
  - eapply handle_passed_on.
    + unfold passed_on, translate_input. rewrite Hinput.
      pose proof (owner_binary_out run_probe nodeId authorizeHandler openPortHandler releasePortHandler
        nodeId resolve_owner g.(gateway_world) id s session b _ h Howned Hh Hb Hkind) as Hout.
      rewrite rewriteStreamId_bytes in Hout by done. exact Hout.
    + injection Hinput as _ _ -> ->. rewrite bool_decide_true, Hboot by done.
      eapply forward_to_current; try done.
      rewrite bool_decide_true by done. exact (resolve_current_bootstrap _ tunnel eq_refl Hcur').
  - intros Hanswer Hhandled.
    eapply (handle_passed_on answer _ _ _ (sent_on tunnelSocket (BinaryPayload frame') g)).
    + unfold passed_on, translate_input. rewrite Hanswer.
      pose proof (owner_binary_back run_probe nodeId authorizeHandler openPortHandler releasePortHandler
        nodeId resolve_owner g.(gateway_world) id s bootstrap b frame' h' Howned Hh' Hhandled Hback Hkind) as Hout.
      unfold frame' in Hout at 2. rewrite Hstream in Hout. cbn [header_payloadKind h'] in Hout. rewrite rewriteStreamId_bytes in Hout by done.
      rewrite Hsession in Hout. exact Hout.
    + injection Hanswer as _ _ -> ->. rewrite bool_decide_false by done.
      eapply (forward_to_current _ _ _ _ _ _ _ client);
        [by apply relay_inv_sent|exact Hclient|done|done|exact Hcur|].
      rewrite bool_decide_false by done. exact (resolve_current_connection _ client eq_refl Hcur).
Qed.
End RelayedEcho.

(** ** Witnesses *)

#[local] Existing Instance reference_zod.
#[local] Existing Instance reference_zod_laws.
#[local] Existing Instance idle_services.
#[local] Instance demo_relay : RelayTransportAdapter nat MemoryTransport := memory_transport (λ _, true).

Definition demo_attaches : list relay_op :=
  [RelayAttach "sbi_1" SideBootstrap 1 "session_1"; RelayAttach "sbi_1" SideConnection 2 "client_a";
   RelayAttach "sbi_1" SideConnection 3 "client_b"; RelayAttach "sbi_2" SideBootstrap 4 "session_2"].

Definition demo_gateway : Gateway (TunnelSessionRegistry MemoryRegistry bool) MemoryPeers MemoryTransport :=
  mkGateway demo_world (relay_run (λ _, true) demo_attaches (createInMemoryTunnelRelayCoordinator "node_a"))
    (mkGatewayRuntime JsMap.empty (mkKeepaliveStore JsMap.empty JsMap.empty) JsMap.empty []) [].

Definition demo_input (session : string) (side : RelayPeerSide) (payload : RelayPayload)
    : HandleMessageInput (W := TunnelSessionRegistry MemoryRegistry bool) (P := MemoryPeers) (T := MemoryTransport) :=
  mkHandleInput None session payload "sbi_1" side None None None None None.

#[local] Existing Instance demo_client.
Definition demo_handle := handleTunnelWebSocketMessage (P := MemoryPeers) (Socket := nat) "node_a" demo_owner
  (λ _, None) 30 "node_a" 0 0.

Lemma demo_attaches_ok : relay_history_ok "node_a" demo_attaches.
Proof.
  split_and!.
  - by apply (bool_decide_unpack _); vm_compute.
  - intros a Ha. vm_compute in Ha.
    repeat (apply elem_of_cons in Ha as [->|Ha]; [reflexivity|]). by apply elem_of_nil in Ha.
  - intros t Ht. unfold demo_attaches in Ht.
    repeat (apply elem_of_cons in Ht as [[=]|Ht]; subst). by apply elem_of_nil in Ht.
Qed.


Lemma relayed_echo_witness : ∃ frame',
  demo_handle (demo_input "client_b" SideConnection (BinaryPayload (demo_frame 7))) demo_gateway =
    (inr tt, sent_on (λ _, true) 1 (BinaryPayload frame') demo_gateway) ∧
  demo_handle (demo_input "session_1" SideBootstrap (BinaryPayload frame'))
      (sent_on (λ _, true) 1 (BinaryPayload frame') demo_gateway) =
    (inr tt, sent_on (λ _, true) 3 (BinaryPayload (demo_frame 7))
               (sent_on (λ _, true) 1 (BinaryPayload frame') demo_gateway)).
Proof.
  destruct demo_owned as (s & Hs & Hok & Hb & Ht).
  set (h := {| header_payloadKind := 2; header_streamId := 7 |}).
  exists (demo_frame 2).
  destruct (relayed_echo (PortTarget:=unit) (AuthorizeResult:=unit) (λ b, b) "node_a" None None (λ _ _, mret tt)
    demo_owner (λ _, true) (λ _, None) 30 0 0 demo_gateway demo_attaches "sbi_1" "client_b" "session_1" s _
    3 1 (demo_frame 7) h (demo_input "client_b" SideConnection (BinaryPayload (demo_frame 7)))
    (demo_input "session_1" SideBootstrap (BinaryPayload (demo_frame 2)))
    Hs Hok Hb) as (frame' & Hout & Hh & Hrest & Hback);
    [unfold MaxStreamId; simpl; lia| |reflexivity|reflexivity|apply demo_attaches_ok|reflexivity|reflexivity
    |exact Ht|do 2 right; left|left|reflexivity|reflexivity|reflexivity|].
  { unfold bytes, byte_ok, demo_frame. repeat constructor; lia. }
  assert (frame' = demo_frame 2) as ->.
  { pose proof (f_equal (λ p, p.2.(gateway_coordinator).(relayTransport).(socket_calls)) Hout) as Hcalls.
    vm_compute in Hcalls. injection Hcalls as Hcalls. by rewrite <- Hcalls. }
  split; [exact Hout|]. by apply Hback.
Defined.
