(* ===== verification/ForwardingReadiness.v ===== *)
(** * Readiness of forwarding, and the replacement of a gateway that does not recover

    - [GatewayForwardingReadinessState]: runtime/gateway-forwarding-readiness.ts, the state the
      forwarding adapter reports and the listeners are told;
    - [GatewayLifecycleState]: runtime/gateway-lifecycle.ts;
    - [Supervisor]: runtime/gateway-forwarding-recovery-supervisor.ts;
    - [replace_gateway]: the synchronous part of runtime/gateway-forwarding-replacement.ts, which
      the supervisor's [terminate] is (the drain that follows is in DrainRegistry.v).

    [forwarding_step] is one event of the gateway: a mark of the readiness, which is told to the
    supervisor while it listens; the supervisor's timer; a drain for another reason; the stop of
    the supervisor.  The clock readings are arguments of the events, and the telemetry of a
    transition is left out. *)

From S2P Require Import Prelude.
Local Open Scope Z_scope.

(** ** Readiness *)

Inductive GatewayForwardingReadinessStatus : Type := StatusNotReady | StatusChecking | StatusReady.
Inductive GatewayForwardingReadinessReason : Type :=
| LocalBackend | NatsDisconnected | NatsReconnected | Startup | StartupCheckFailed | Stopping
| SubscriptionStarted | SubscriptionExited | SubscriptionFailed | SelfCheckSucceeded | SelfCheckFailed.

#[export] Instance readiness_status_eq_dec : EqDecision GatewayForwardingReadinessStatus.
Proof. solve_decision. Defined.
#[export] Instance readiness_reason_eq_dec : EqDecision GatewayForwardingReadinessReason.
Proof. solve_decision. Defined.

Record GatewayForwardingReadinessState : Type := mkReadinessState {
  changedAtMs : Z;
  consecutiveFailedChecks : Z;
  lastCheckAtMs : option Z;
  notReadySinceMs : option Z;
  readiness_reason : GatewayForwardingReadinessReason;
  readiness_status : GatewayForwardingReadinessStatus;
}.

(** The state of a new [GatewayForwardingReadiness]: the clock is read twice. *)
Definition GatewayForwardingReadiness_new (changedNowMs sinceNowMs : Z) : GatewayForwardingReadinessState :=
  mkReadinessState changedNowMs 0 None (Some sinceNowMs) Startup StatusNotReady.

Definition isReady (state : GatewayForwardingReadinessState) : bool :=
  state.(readiness_status) =?= StatusReady.

(** The state after [transition]; the listeners are told in both cases. *)
Definition transition (previousState nextState : GatewayForwardingReadinessState)
    : GatewayForwardingReadinessState :=
  if (previousState.(readiness_status) =?= nextState.(readiness_status))
     && (previousState.(readiness_reason) =?= nextState.(readiness_reason))
  then mkReadinessState previousState.(changedAtMs) nextState.(consecutiveFailedChecks)
         nextState.(lastCheckAtMs) nextState.(notReadySinceMs) nextState.(readiness_reason)
         nextState.(readiness_status)
  else nextState.

Definition markChecking (reason : GatewayForwardingReadinessReason) (nowMs : Z)
    (state : GatewayForwardingReadinessState) : GatewayForwardingReadinessState :=
  transition state
    (mkReadinessState nowMs state.(consecutiveFailedChecks) state.(lastCheckAtMs) None reason StatusChecking).

Definition markReady (reason : GatewayForwardingReadinessReason) (nowMs : Z)
    (state : GatewayForwardingReadinessState) : GatewayForwardingReadinessState :=
  transition state
    (mkReadinessState nowMs
       (if reason =?= SelfCheckSucceeded then 0 else state.(consecutiveFailedChecks))
       (if reason =?= SelfCheckSucceeded then Some nowMs else state.(lastCheckAtMs))
       None reason StatusReady).

Definition markNotReady (reason : GatewayForwardingReadinessReason) (nowMs : Z)
    (state : GatewayForwardingReadinessState) : GatewayForwardingReadinessState :=
  transition state
    (mkReadinessState nowMs
       (if reason =?= SelfCheckFailed then state.(consecutiveFailedChecks) + 1
        else state.(consecutiveFailedChecks))
       (if reason =?= SelfCheckFailed then Some nowMs else state.(lastCheckAtMs))
       (Some (default nowMs state.(notReadySinceMs))) reason StatusNotReady).

(** ** Lifecycle *)

Inductive GatewayDrainReason : Type := ServiceRestart.

Inductive GatewayLifecycleState : Type :=
| Serving
| Draining (reason : GatewayDrainReason) (startedAtMs : Z).

Definition isServing (state : GatewayLifecycleState) : bool :=
  match state with Serving => true | Draining _ _ => false end.

Definition startDrain (reason : GatewayDrainReason) (nowMs : Z) (state : GatewayLifecycleState)
    : GatewayLifecycleState :=
  match state with
  | Draining _ _ => state
  | Serving => Draining reason nowMs
  end.

(** ** The supervisor *)

Inductive GatewayForwardingReplacementReason : Type :=
| ForwardingCheckFailureThreshold | ForwardingNotReadyTimeout.

Record Supervisor : Type := mkSupervisor {
  (** The timer, with the time it is due. *)
  notReadyReplacementTimer : option Z;
  listening : bool;
  terminated : bool;
}.

(** The gateway the supervisor works on; [replacements] are the reasons it was terminated for. *)
Record Forwarding : Type := mkForwarding {
  forwarding_readiness : GatewayForwardingReadinessState;
  forwarding_lifecycle : GatewayLifecycleState;
  supervisor : Supervisor;
  replacements : list GatewayForwardingReplacementReason;
}.

Definition with_supervisor (s : Supervisor) (f : Forwarding) : Forwarding :=
  mkForwarding f.(forwarding_readiness) f.(forwarding_lifecycle) s f.(replacements).

(** The handler of createGatewayForwardingReplacementHandler, up to the drain of the registry: only
    its first call does something. *)
Definition replace_gateway (reason : GatewayForwardingReplacementReason) (nowMs : Z) (f : Forwarding)
    : Forwarding :=
  match f.(replacements) with
  | [] => mkForwarding f.(forwarding_readiness) (startDrain ServiceRestart nowMs f.(forwarding_lifecycle))
            f.(supervisor) [reason]
  | _ => f
  end.

Section Supervisor.
Context (maxConsecutiveCheckFailures notReadyReplacementDelayMs : Z).

Definition terminate (reason : GatewayForwardingReplacementReason) (nowMs : Z) (f : Forwarding)
    : Forwarding :=
  replace_gateway reason nowMs (with_supervisor (mkSupervisor None f.(supervisor).(listening) true) f).

Definition handleReadinessState (nowMs : Z) (f : Forwarding) : Forwarding :=
  let state := f.(forwarding_readiness) in
  let s := f.(supervisor) in
  if s.(terminated) || negb (isServing f.(forwarding_lifecycle)) then f
  else if maxConsecutiveCheckFailures <=? state.(consecutiveFailedChecks) then
    terminate ForwardingCheckFailureThreshold nowMs f
  else if negb (state.(readiness_status) =?= StatusNotReady) then
    with_supervisor (mkSupervisor None s.(listening) s.(terminated)) f
  else
    match state.(notReadySinceMs) with
    | None => f
    | Some notReadySinceMs =>
        let elapsedMs := nowMs - notReadySinceMs in
        let remainingMs := notReadyReplacementDelayMs - elapsedMs in
        if remainingMs <=? 0 then terminate ForwardingNotReadyTimeout nowMs f
        else match s.(notReadyReplacementTimer) with
             | Some _ => f
             | None => with_supervisor
                         (mkSupervisor (Some (nowMs + remainingMs)) s.(listening) s.(terminated)) f
             end
    end.

(** [start], where it does not throw. *)
Definition supervisor_start (nowMs : Z) (f : Forwarding) : Forwarding :=
  handleReadinessState nowMs
    (with_supervisor (mkSupervisor f.(supervisor).(notReadyReplacementTimer) true f.(supervisor).(terminated)) f).

Definition supervisor_stop (f : Forwarding) : Forwarding :=
  with_supervisor (mkSupervisor None false f.(supervisor).(terminated)) f.

(** The timer fires. *)
Definition supervisor_timer (nowMs : Z) (f : Forwarding) : Forwarding :=
  handleReadinessState nowMs
    (with_supervisor (mkSupervisor None f.(supervisor).(listening) f.(supervisor).(terminated)) f).

(** ** Events *)

Inductive readiness_mark : Type :=
| MarkChecking (reason : GatewayForwardingReadinessReason)
| MarkReady (reason : GatewayForwardingReadinessReason)
| MarkNotReady (reason : GatewayForwardingReadinessReason).

Definition apply_mark (m : readiness_mark) (nowMs : Z)
    : GatewayForwardingReadinessState → GatewayForwardingReadinessState :=
  match m with
  | MarkChecking reason => markChecking reason nowMs
  | MarkReady reason => markReady reason nowMs
  | MarkNotReady reason => markNotReady reason nowMs
  end.

(** A mark, and what the listener of the supervisor does. *)
Definition forwarding_mark (m : readiness_mark) (nowMs listenerNowMs : Z) (f : Forwarding) : Forwarding :=
  let f := mkForwarding (apply_mark m nowMs f.(forwarding_readiness)) f.(forwarding_lifecycle)
             f.(supervisor) f.(replacements) in
  if f.(supervisor).(listening) then handleReadinessState listenerNowMs f else f.

Inductive forwarding_step (f : Forwarding) : Forwarding → Prop :=
| forwarding_step_mark m nowMs listenerNowMs : forwarding_step f (forwarding_mark m nowMs listenerNowMs f)
| forwarding_step_timer due nowMs :
    f.(supervisor).(notReadyReplacementTimer) = Some due → forwarding_step f (supervisor_timer nowMs f)
| forwarding_step_drain reason nowMs :
    forwarding_step f (mkForwarding f.(forwarding_readiness)
      (startDrain reason nowMs f.(forwarding_lifecycle)) f.(supervisor) f.(replacements))
| forwarding_step_start nowMs :
    f.(supervisor).(listening) = false → forwarding_step f (supervisor_start nowMs f)
| forwarding_step_stop : forwarding_step f (supervisor_stop f).

Definition forwarding_new (changedNowMs sinceNowMs : Z) : Forwarding :=
  mkForwarding (GatewayForwardingReadiness_new changedNowMs sinceNowMs) Serving
    (mkSupervisor None false false) [].
End Supervisor.

(** ** Theorems *)

Section ForwardingHistory.
Context (maxFailures delayMs : Z).
Notation handle := (handleReadinessState maxFailures delayMs).
Notation forwarding_step := (forwarding_step maxFailures delayMs).

(** What the supervisor is waiting for. *)
Definition replacement_due (f : Forwarding) : option Z :=
  (λ since, since + delayMs) <$> f.(forwarding_readiness).(notReadySinceMs).

Record forwarding_ok (f : Forwarding) : Prop := mkForwardingOk {
  fok_since : is_Some f.(forwarding_readiness).(notReadySinceMs) ↔
    f.(forwarding_readiness).(readiness_status) = StatusNotReady;
  fok_terminated : f.(supervisor).(terminated) = false ↔ f.(replacements) = [];
  fok_once : (length f.(replacements) ≤ 1)%nat;
  fok_draining : f.(forwarding_lifecycle) = Serving → f.(replacements) = [];
  fok_quiet : f.(supervisor).(listening) = false → f.(supervisor).(notReadyReplacementTimer) = None;
}.

(** The supervisor waits for the right time. *)
Definition watching (f : Forwarding) : Prop :=
  f.(forwarding_lifecycle) = Serving → f.(supervisor).(listening) = true →
  f.(forwarding_readiness).(consecutiveFailedChecks) < maxFailures ∧
  f.(supervisor).(notReadyReplacementTimer) = replacement_due f.

Lemma mark_since m nowMs state :
  is_Some (apply_mark m nowMs state).(notReadySinceMs) ↔
    (apply_mark m nowMs state).(readiness_status) = StatusNotReady.
Proof.
  destruct m; simpl; unfold markChecking, markReady, markNotReady, transition; case_match; simpl;
    (split; [try done; by intros [? ?]|try done; eauto]).
Qed.

(** A timer set before is due when the gateway has not been ready for the delay. *)
Definition timer_current (f : Forwarding) : Prop :=
  f.(supervisor).(notReadyReplacementTimer) = None ∨
  f.(forwarding_readiness).(readiness_status) ≠ StatusNotReady ∨
  f.(supervisor).(notReadyReplacementTimer) = replacement_due f.

(** What [handleReadinessState] does: nothing, wait or replace. *)
Inductive handled (nowMs : Z) (f : Forwarding) : Forwarding → Prop :=
| handled_not : f.(supervisor).(terminated) = true ∨ f.(forwarding_lifecycle) ≠ Serving → handled nowMs f f
| handled_waits : f.(forwarding_lifecycle) = Serving → f.(supervisor).(terminated) = false →
    f.(forwarding_readiness).(consecutiveFailedChecks) < maxFailures →
    (∀ since, f.(forwarding_readiness).(notReadySinceMs) = Some since → nowMs < since + delayMs) →
    handled nowMs f (with_supervisor (mkSupervisor (replacement_due f) f.(supervisor).(listening) false) f)
| handled_replaces reason : f.(forwarding_lifecycle) = Serving → f.(supervisor).(terminated) = false →
    (reason = ForwardingCheckFailureThreshold ∧ maxFailures <= f.(forwarding_readiness).(consecutiveFailedChecks) ∨
     reason = ForwardingNotReadyTimeout ∧ f.(forwarding_readiness).(consecutiveFailedChecks) < maxFailures ∧
       ∃ since, f.(forwarding_readiness).(notReadySinceMs) = Some since ∧ since + delayMs <= nowMs) →
    handled nowMs f (mkForwarding f.(forwarding_readiness) (Draining ServiceRestart nowMs)
      (mkSupervisor None f.(supervisor).(listening) true) [reason]).

Lemma handle_handled nowMs f :
  forwarding_ok f → (f.(forwarding_lifecycle) = Serving → timer_current f) → handled nowMs f (handle nowMs f).
Proof.
  intros Hok Htimer. unfold handleReadinessState.
  destruct (terminated f.(supervisor)) eqn:Ht; [apply handled_not; by left|].
  destruct (forwarding_lifecycle f) as [|reason at_] eqn:Hl; cbn [isServing negb orb]; cycle 1.
  { apply handled_not. right. by rewrite Hl. }
  pose proof (proj1 (fok_terminated f Hok) Ht) as Hnone. specialize (Htimer eq_refl).
  destruct (Z.leb_spec maxFailures f.(forwarding_readiness).(consecutiveFailedChecks)) as [Hmax|Hmax].
  { unfold terminate, replace_gateway. cbn. rewrite Hnone, Hl. apply handled_replaces; auto. }
  destruct (decide (f.(forwarding_readiness).(readiness_status) = StatusNotReady)) as [Hs|Hs]; cycle 1.
  { rewrite bool_decide_false by done. cbn [negb].
    replace None with (replacement_due f).
    - apply handled_waits; try done. intros since Hsince. exfalso. apply Hs, (fok_since f Hok). by eexists.
    - unfold replacement_due. destruct (notReadySinceMs _) as [since|] eqn:Hsince; [|done].
      exfalso. apply Hs, (fok_since f Hok). by eexists. }
  rewrite bool_decide_true by done. cbn [negb].
  destruct (proj2 (fok_since f Hok) Hs) as [since Hsince]. rewrite Hsince.
  destruct (Z.leb_spec (delayMs - (nowMs - since)) 0) as [Hdue|Hdue].
  { unfold terminate, replace_gateway. cbn. rewrite Hnone, Hl. apply handled_replaces; try done.
    right. split; [done|]. split; [done|]. exists since. split; [done|lia]. }
  assert (with_supervisor (mkSupervisor (replacement_due f) f.(supervisor).(listening) false) f =
    match f.(supervisor).(notReadyReplacementTimer) with
    | Some _ => f
    | None => with_supervisor (mkSupervisor (Some (nowMs + (delayMs - (nowMs - since))))
                f.(supervisor).(listening) false) f
    end) as <-.
  { unfold timer_current, replacement_due in *. rewrite Hsince in *. cbn in *.
    destruct (notReadyReplacementTimer _) as [due|] eqn:Hd.
    - destruct Htimer as [|[|Htimer]]; [done..|]. rewrite <- Htimer, <- Hd.
      destruct f as [r l [tm li te] rs]. simpl in *. by subst.
    - do 3 f_equal. lia. }
  apply handled_waits; try done. intros since' Hsince'. rewrite Hsince in Hsince'. injection Hsince' as <-. lia.
Qed.

Lemma handled_ok nowMs f f' :
  forwarding_ok f → f.(supervisor).(listening) = true → handled nowMs f f' → forwarding_ok f' ∧ watching f'.
Proof.
  intros Hok Hlisten Hh. pose proof Hok as [Hs Ht Ho Hd Hq]. destruct Hh as [Hnot|Hl Hte Hmax Hdue|reason Hl Hte Hr].
  - split; [done|]. intros Hserving. pose proof (proj2 Ht (Hd Hserving)). destruct Hnot as [?|?]; congruence.
  - pose proof (proj1 Ht Hte). split; [|done]. split; simpl; try done. intros; congruence.
  - split; [|done]. split; simpl; try done.
Qed.

Lemma mark_ok m nowMs f : forwarding_ok f →
  forwarding_ok (mkForwarding (apply_mark m nowMs f.(forwarding_readiness)) f.(forwarding_lifecycle)
    f.(supervisor) f.(replacements)).
Proof. intros [Hs Ht Ho Hd Hq]. split; simpl; try done. apply mark_since. Qed.

(** A state that stays not ready was not ready since the same time. *)
Lemma mark_keeps_since m nowMs state since :
  state.(notReadySinceMs) = Some since → (apply_mark m nowMs state).(readiness_status) = StatusNotReady →
  (apply_mark m nowMs state).(notReadySinceMs) = Some since.
Proof.
  intros Hs. destruct m; simpl; unfold markChecking, markReady, markNotReady, transition; case_match; simpl;
    rewrite ?Hs; done.
Qed.

Lemma mark_timer_current m nowMs f :
  f.(forwarding_lifecycle) = Serving → f.(supervisor).(listening) = true → watching f →
  timer_current (mkForwarding (apply_mark m nowMs f.(forwarding_readiness)) f.(forwarding_lifecycle)
    f.(supervisor) f.(replacements)).
Proof.
  intros Hl Hlisten [_ Htimer]; [done..|]. unfold timer_current, replacement_due in *. simpl. rewrite Htimer.
  destruct (decide ((apply_mark m nowMs f.(forwarding_readiness)).(readiness_status) = StatusNotReady)) as [Hs|];
    [|by right; left].
  destruct (notReadySinceMs (forwarding_readiness f)) as [since|] eqn:Hsince; [|by left].
  right; right. by rewrite (mark_keeps_since _ _ _ since Hsince Hs).
Qed.

(** A step does what one of its handlers does, or changes nothing that is being watched. *)
Lemma forwarding_step_ok f f' : forwarding_ok f → watching f → forwarding_step f f' →
  (forwarding_ok f' ∧ watching f' ∧ f'.(replacements) = f.(replacements)) ∨
  (∃ nowMs f0, forwarding_ok f0 ∧ f0.(supervisor).(listening) = true ∧ f0.(replacements) = f.(replacements) ∧
     f0.(forwarding_lifecycle) = f.(forwarding_lifecycle) ∧ handled nowMs f0 f').
Proof.
  intros Hok Hw Hstep. pose proof Hok as [Hs Ht Ho Hd Hq].
  destruct Hstep as [m nowMs listenerNowMs|due nowMs Hdue|reason nowMs|nowMs Hquiet|].
  - unfold forwarding_mark. simpl. destruct (listening (supervisor f)) eqn:Hlisten.
    + right. eexists listenerNowMs, _. split; [by apply mark_ok|]. do 3 (split; [done|]).
      apply handle_handled; [by apply mark_ok|]. intros Hl. by apply mark_timer_current.
    + left. split; [by apply mark_ok|]. split; [|done]. intros _ Hl. simpl in Hl. congruence.
  - right. assert (f.(supervisor).(listening) = true) as Hlisten.
    { destruct (listening _); [done|]. by rewrite Hq in Hdue. }
    set (f0 := with_supervisor (mkSupervisor None f.(supervisor).(listening) f.(supervisor).(terminated)) f).
    assert (forwarding_ok f0) as Hok0 by by split.
    exists nowMs, f0. do 4 (split; [done|]). apply handle_handled; [done|]. intros _. by left.
  - left. unfold startDrain. destruct (forwarding_lifecycle f) as [|r at_] eqn:Hl.
    + split; [by split|]. by split; [|].
    + split; [by split; simpl|]. split; [|done]. by intros.
  - right. set (f0 := with_supervisor (mkSupervisor f.(supervisor).(notReadyReplacementTimer) true
      f.(supervisor).(terminated)) f).
    assert (forwarding_ok f0) as Hok0 by by split.
    exists nowMs, f0. do 4 (split; [done|]). apply handle_handled; [done|]. intros _. left. by apply Hq.
  - left. split; [by split|]. split; [|done]. by intros _ [=].
Qed.

Lemma forwarding_reachable_ok a b f :
  rtc forwarding_step (forwarding_new a b) f → forwarding_ok f ∧ watching f.
Proof.
  intros Hr. remember (forwarding_new a b) as f0 eqn:Heq.
  assert (forwarding_ok f0 ∧ watching f0) as H0.
  { subst f0. split; [split; simpl; by eauto with lia|by intros _ [=]]. }
  clear Heq. induction Hr as [|f0 f1 f2 Hstep _ IH]; [done|]. apply IH. destruct H0 as [Hok Hw].
  destruct (forwarding_step_ok f0 f1 Hok Hw Hstep) as [(? & ? & _)|(now & fh & Hokh & Hl & _ & _ & Hh)]; [done|].
  by eapply handled_ok.
Qed.

(** C30: a gateway is replaced at most once, never while it is drained already, and for a reason: the
    self checks of forwarding failed [maxFailures] times in a row, or forwarding has not been ready
    for [delayMs].  While the gateway serves and its supervisor listens, fewer checks have failed,
    and the supervisor has a timer exactly while forwarding is not ready, due [delayMs] after it
    became so; when that timer fires in time the gateway is replaced. *)
Theorem forwarding_history (a b : Z) (f : Forwarding) :
  rtc forwarding_step (forwarding_new a b) f →
  (length f.(replacements) ≤ 1)%nat ∧
  (f.(forwarding_lifecycle) = Serving → f.(replacements) = [] ∧
     (f.(supervisor).(listening) = true →
        f.(forwarding_readiness).(consecutiveFailedChecks) < maxFailures ∧
        f.(supervisor).(notReadyReplacementTimer) = replacement_due f ∧
        ∀ nowMs due, replacement_due f = Some due → due <= nowMs →
          (supervisor_timer maxFailures delayMs nowMs f).(replacements) = [ForwardingNotReadyTimeout])) ∧
  (∀ f' reason, forwarding_step f f' → f.(replacements) = [] → reason ∈ f'.(replacements) →
     f.(forwarding_lifecycle) = Serving ∧ ∃ at_, f'.(forwarding_lifecycle) = Draining ServiceRestart at_ ∧
     match reason with
     | ForwardingCheckFailureThreshold => maxFailures <= f'.(forwarding_readiness).(consecutiveFailedChecks)
     | ForwardingNotReadyTimeout => f'.(forwarding_readiness).(readiness_status) = StatusNotReady ∧
         ∃ due, replacement_due f' = Some due ∧ due <= at_
     end).
Proof.
  intros [Hok Hw]%forwarding_reachable_ok. split; [apply Hok|]. split.
  - intros Hl. pose proof (fok_draining f Hok Hl) as Hnone. split; [done|]. intros Hlisten.
    destruct (Hw Hl Hlisten) as [Hmax Htimer]. do 2 (split; [done|]). intros nowMs due Hdue Hnow.
    set (f0 := with_supervisor (mkSupervisor None f.(supervisor).(listening) f.(supervisor).(terminated)) f).
    assert (forwarding_ok f0) as Hok0 by (destruct Hok; by split).
    pose proof (handle_handled nowMs f0 Hok0 ltac:(by left)) as Hh.
    unfold supervisor_timer. fold f0. unfold replacement_due in Hdue.
    apply fmap_Some in Hdue as (since & Hsince & ->).
    destruct Hh as [[Ht|Hd]|_ _ _ Hwaits|reason _ _ [[-> Hmax']|[-> _]]]; try done.
    + apply (fok_terminated f Hok) in Hnone. simpl in Ht. congruence.
    + specialize (Hwaits since Hsince). lia.
    + simpl in Hmax'. lia.
  - intros f' reason Hstep Hnone Hin.
    destruct (forwarding_step_ok f f' Hok Hw Hstep)
      as [(_ & _ & Hsame)|(nowMs & f0 & Hok0 & _ & Hrep & Hlife & Hh)].
    { rewrite Hsame, Hnone in Hin. by apply elem_of_nil in Hin. }
    destruct Hh as [_| |reason' Hl Hte Hr]; try (simpl in Hin; rewrite Hrep, Hnone in Hin; by apply elem_of_nil in Hin).
    simpl in Hin. apply list_elem_of_singleton in Hin as ->. split; [congruence|]. exists nowMs. split; [done|].
    destruct Hr as [[-> Hmax]|(-> & _ & since & Hsince & Hdue)]; [done|]. split.
    + simpl. apply (fok_since f0 Hok0). by eexists.
    + exists (since + delayMs). split; [|done]. unfold replacement_due. simpl. by rewrite Hsince.
Qed.
End ForwardingHistory.

(** ** Witnesses *)

Lemma forwarding_history_witness :
  let f := forwarding_mark 3 90000 (MarkNotReady NatsDisconnected) 2000 2001
    (forwarding_mark 3 90000 (MarkReady SelfCheckSucceeded) 1000 1001
       (supervisor_start 3 90000 1 (forwarding_new 0 0))) in
  f.(supervisor).(notReadyReplacementTimer) = Some 92000 ∧
  (supervisor_timer 3 90000 92000 f).(replacements) = [ForwardingNotReadyTimeout].
Proof.
  set (f1 := supervisor_start 3 90000 1 (forwarding_new 0 0)).
  set (f2 := forwarding_mark 3 90000 (MarkReady SelfCheckSucceeded) 1000 1001 f1).
  intros f. assert (rtc (forwarding_step 3 90000) (forwarding_new 0 0) f) as Hr.
  { eapply rtc_l; [by apply (forwarding_step_start _ _ _ 1)|]. eapply rtc_l; [by apply (forwarding_step_mark _ _ f1)|].
    apply rtc_once, forwarding_step_mark. }
  destruct (forwarding_history 3 90000 0 0 f Hr) as (_ & Hserving & _).
  destruct (Hserving eq_refl) as [_ Hlisten]. destruct (Hlisten eq_refl) as (_ & Htimer & Hfires).
  split; [exact Htimer|]. by apply (Hfires 92000 92000).
Defined.
