(* ===== verification/DrainRegistry.v ===== *)
(** * Draining the connections of a gateway (runtime/gateway-drain-registry.ts)

    A gateway that shuts down closes its websockets with code 4001 and ends its raw connections,
    waits for them to go, and breaks what is left.  [DrainRegistry] is the state of the class; the
    objects of [ServiceRestartDrainState], which a drain under way holds a reference to, are in
    [drain_states].  [closeForServiceRestart] is cut at its [await]: [DrainClosing] is one that waits,
    for the waiter or the timer that settle its promise, or goes on with its result.  The
    rest of runtime/gateway-forwarding-replacement.ts, which drains the gateway and then reports,
    is a drain with [then_report].

    A socket is its identity.  Of the sockets (of ws and of node:stream) the model has what the code
    reads: [readyState], which [close] moves to CLOSING at once and which never goes back, and
    [destroyed], which [destroy] sets; a raw connection calls the registered listener once, on
    "close".  The calls made on sockets are recorded. *)

From S2P Require Import Prelude JsMap ForwardingReadiness.
Local Open Scope Z_scope.

(** ** Sockets *)

Inductive ReadyState : Type := CONNECTING | OPEN | CLOSING | CLOSED.

#[export] Instance ready_state_eq_dec : EqDecision ReadyState.
Proof. solve_decision. Defined.

Definition readiness_rank (r : ReadyState) : Z :=
  match r with CONNECTING => 0 | OPEN => 1 | CLOSING => 2 | CLOSED => 3 end.

Inductive DrainCall : Type :=
| WebSocketClose (socket : nat) (code : Z) (reason : string)
| WebSocketTerminate (socket : nat)
| RawEnd (socket : nat)
| RawDestroy (socket : nat).

Definition GatewayWebSocketCloseCodes_SERVICE_RESTART : Z := 4001.
Definition drain_reason_text (reason : GatewayDrainReason) : string :=
  match reason with ServiceRestart => "service_restart" end.

(** ** The registry *)

Inductive GatewayDrainWebSocketCategory : Type := DirectEgress | PtyTransport | SandboxTunnel.
Inductive GatewayRawLongLivedConnectionCategory : Type := PortAccess.

#[export] Instance drain_category_eq_dec : EqDecision GatewayDrainWebSocketCategory.
Proof. solve_decision. Defined.

Record GatewayDrainRegistryCounts : Type := mkDrainCounts {
  rawLongLivedConnectionCount : nat;
  webSocketCount : nat;
}.

Record GatewayDrainRegistryCategoryCounts : Type := mkCategoryCounts {
  directEgressWebSocketCount : nat;
  portAccessRawConnectionCount : nat;
  ptyTransportWebSocketCount : nat;
  sandboxTunnelWebSocketCount : nat;
}.

Record GatewayDrainRegistryCloseResult : Type := mkCloseResult {
  result_counts : GatewayDrainRegistryCounts;
  result_categoryCounts : GatewayDrainRegistryCategoryCounts;
  forcedRawLongLivedConnectionCount : nat;
  forcedWebSocketCount : nat;
  graceful : bool;
  result_rawLongLivedConnectionEndCount : nat;
  result_serviceRestartWebSocketCloseCount : nat;
}.

Record ServiceRestartDrainState : Type := mkDrainState {
  rawLongLivedConnectionEndCount : nat;
  serviceRestartWebSocketCloseCount : nat;
}.

(** A [closeForServiceRestart] under way; its promise has a result once it is settled. *)
Record DrainClosing : Type := mkClosing {
  initialCounts : GatewayDrainRegistryCounts;
  initialCategoryCounts : GatewayDrainRegistryCategoryCounts;
  closing_drain : nat;
  closing_settled : option bool;
  then_report : option GatewayForwardingReplacementReason;
}.

Record DrainRegistry : Type := mkDrainRegistry {
  webSockets : JsMap.t Z (GatewayDrainWebSocketCategory * nat);
  rawConnections : JsMap.t Z (GatewayRawLongLivedConnectionCategory * nat);
  nextRegistrationId : Z;
  serviceRestartDrainState : option nat;
  drain_states : list ServiceRestartDrainState;
  closings : list DrainClosing;
  results : list GatewayDrainRegistryCloseResult;
  reports : list GatewayForwardingReplacementReason;
  ready_states : nat → ReadyState;
  destroyed : nat → bool;
  drain_calls : list DrainCall;
}.

Definition drain_registry_new (ready_states : nat → ReadyState) (destroyed : nat → bool) : DrainRegistry :=
  mkDrainRegistry JsMap.empty JsMap.empty 1 None [] [] [] [] ready_states destroyed [].

Definition activeCounts (d : DrainRegistry) : GatewayDrainRegistryCounts :=
  mkDrainCounts (JsMap.size d.(rawConnections)) (JsMap.size d.(webSockets)).

Definition activeCategoryCounts (d : DrainRegistry) : GatewayDrainRegistryCategoryCounts :=
  let category c := length (List.filter (λ registration, registration.1 =?= c) (JsMap.values d.(webSockets))) in
  mkCategoryCounts (category DirectEgress) (length (JsMap.values d.(rawConnections))) (category PtyTransport)
    (category SandboxTunnel).

Definition with_maps (ws : JsMap.t Z (GatewayDrainWebSocketCategory * nat))
    (raw : JsMap.t Z (GatewayRawLongLivedConnectionCategory * nat)) (next : Z) (d : DrainRegistry) : DrainRegistry :=
  mkDrainRegistry ws raw next d.(serviceRestartDrainState) d.(drain_states) d.(closings) d.(results) d.(reports)
    d.(ready_states) d.(destroyed) d.(drain_calls).
Definition with_closings (l : list DrainClosing) (d : DrainRegistry) : DrainRegistry :=
  mkDrainRegistry d.(webSockets) d.(rawConnections) d.(nextRegistrationId) d.(serviceRestartDrainState)
    d.(drain_states) l d.(results) d.(reports) d.(ready_states) d.(destroyed) d.(drain_calls).
Definition with_drain (current : option nat) (states : list ServiceRestartDrainState) (d : DrainRegistry)
    : DrainRegistry :=
  mkDrainRegistry d.(webSockets) d.(rawConnections) d.(nextRegistrationId) current states d.(closings)
    d.(results) d.(reports) d.(ready_states) d.(destroyed) d.(drain_calls).
Definition with_sockets (ready_states : nat → ReadyState) (destroyed : nat → bool) (calls : list DrainCall)
    (d : DrainRegistry) : DrainRegistry :=
  mkDrainRegistry d.(webSockets) d.(rawConnections) d.(nextRegistrationId) d.(serviceRestartDrainState)
    d.(drain_states) d.(closings) d.(results) d.(reports) ready_states destroyed (d.(drain_calls) ++ calls).

(** The calls on sockets. *)
Definition socket_closing (socket : nat) (ready_states : nat → ReadyState) (s : nat) : ReadyState :=
  if decide (s = socket) then (if ready_states s =?= CLOSED then CLOSED else CLOSING) else ready_states s.

(** *** Draining *)

Definition closeWebSocketForActiveServiceRestartDrain (socket : nat) (d : DrainRegistry) : DrainRegistry :=
  match d.(serviceRestartDrainState) with
  | None => d
  | Some drain =>
      if (d.(ready_states) socket =?= CLOSED) || (d.(ready_states) socket =?= CLOSING) then d
      else
        let d := with_sockets (socket_closing socket d.(ready_states)) d.(destroyed)
          [WebSocketClose socket GatewayWebSocketCloseCodes_SERVICE_RESTART (drain_reason_text ServiceRestart)] d in
        with_drain d.(serviceRestartDrainState)
          (alter (λ state, mkDrainState state.(rawLongLivedConnectionEndCount)
                             (state.(serviceRestartWebSocketCloseCount) + 1)) drain d.(drain_states)) d
  end.

Definition endRawConnectionForActiveServiceRestartDrain (socket : nat) (d : DrainRegistry) : DrainRegistry :=
  match d.(serviceRestartDrainState) with
  | None => d
  | Some drain =>
      if d.(destroyed) socket then d
      else
        let d := with_sockets d.(ready_states) d.(destroyed) [RawEnd socket] d in
        with_drain d.(serviceRestartDrainState)
          (alter (λ state, mkDrainState (state.(rawLongLivedConnectionEndCount) + 1)
                             state.(serviceRestartWebSocketCloseCount)) drain d.(drain_states)) d
  end.

Definition isEmpty (d : DrainRegistry) : bool :=
  ((JsMap.size d.(webSockets) =? 0) && (JsMap.size d.(rawConnections) =? 0))%nat.

(** [finish] of a [waitForEmpty]: only its first call settles the promise. *)
Definition finish_waiting (result : bool) (c : DrainClosing) : DrainClosing :=
  match c.(closing_settled) with
  | Some _ => c
  | None => mkClosing c.(initialCounts) c.(initialCategoryCounts) c.(closing_drain) (Some result) c.(then_report)
  end.

(** The waiters are those of the promises that are not settled. *)
Definition notifyIfEmpty (d : DrainRegistry) : DrainRegistry :=
  if negb (isEmpty d) then d else with_closings (finish_waiting true <$> d.(closings)) d.

(** *** Registration *)

Definition registerGatewayWebSocket (category : GatewayDrainWebSocketCategory) (socket : nat) (d : DrainRegistry)
    : Z * DrainRegistry :=
  let registrationId := d.(nextRegistrationId) in
  (registrationId,
   closeWebSocketForActiveServiceRestartDrain socket
     (with_maps (JsMap.set d.(webSockets) registrationId (category, socket)) d.(rawConnections)
        (registrationId + 1) d)).

(** The function that [registerGatewayWebSocket] returns. *)
Definition unregister_websocket (registrationId : Z) (d : DrainRegistry) : DrainRegistry :=
  notifyIfEmpty (with_maps (JsMap.delete d.(webSockets) registrationId) d.(rawConnections) d.(nextRegistrationId) d).

Definition registerRawLongLivedConnection (category : GatewayRawLongLivedConnectionCategory) (socket : nat)
    (d : DrainRegistry) : Z * DrainRegistry :=
  let registrationId := d.(nextRegistrationId) in
  (registrationId,
   endRawConnectionForActiveServiceRestartDrain socket
     (with_maps d.(webSockets) (JsMap.set d.(rawConnections) registrationId (category, socket))
        (registrationId + 1) d)).

(** [unregister], which the socket calls on "close" and the caller when it likes. *)
Definition unregister_raw (registrationId : Z) (d : DrainRegistry) : DrainRegistry :=
  notifyIfEmpty (with_maps d.(webSockets) (JsMap.delete d.(rawConnections) registrationId) d.(nextRegistrationId) d).

(** *** The drain of a service restart *)

(** The drain that is under way, or a new one. *)
Definition startServiceRestartDrain (d : DrainRegistry) : nat * DrainRegistry :=
  match d.(serviceRestartDrainState) with
  | Some drain => (drain, d)
  | None => (length d.(drain_states),
             with_drain (Some (length d.(drain_states))) (d.(drain_states) ++ [mkDrainState 0 0]) d)
  end.

(** [closeForServiceRestart] up to its [await]. *)
Definition closeForServiceRestart (report : option GatewayForwardingReplacementReason) (d : DrainRegistry)
    : DrainRegistry :=
  let counts := activeCounts d in
  let categoryCounts := activeCategoryCounts d in
  let (drain, d) := startServiceRestartDrain d in
  let d := foldl (λ d registration, closeWebSocketForActiveServiceRestartDrain registration.2 d) d
             (JsMap.values d.(webSockets)) in
  let d := foldl (λ d registration, endRawConnectionForActiveServiceRestartDrain registration.2 d) d
             (JsMap.values d.(rawConnections)) in
  with_closings (d.(closings) ++ [mkClosing counts categoryCounts drain
                                    (if isEmpty d then Some true else None) report]) d.

(** The loops that break what is left. *)
Definition terminate_websocket (socket : nat) (st : nat * DrainRegistry) : nat * DrainRegistry :=
  let (n, d) := st in
  if d.(ready_states) socket =?= CLOSED then (n, d)
  else (S n, with_sockets (socket_closing socket d.(ready_states)) d.(destroyed) [WebSocketTerminate socket] d).

Definition destroy_raw (socket : nat) (st : nat * DrainRegistry) : nat * DrainRegistry :=
  let (n, d) := st in
  if d.(destroyed) socket then (n, d)
  else (S n, with_sockets d.(ready_states) (λ s, if decide (s = socket) then true else d.(destroyed) s)
               [RawDestroy socket] d).

(** The rest of it, once its promise has settled; the drain [c] is taken out of the list. *)
Definition finish_closing (c : DrainClosing) (wasGraceful : bool) (d : DrainRegistry) : DrainRegistry :=
  let (forcedWs, d) :=
    if wasGraceful then (0%nat, d)
    else foldl (λ st registration, terminate_websocket registration.2 st) (0%nat, d) (JsMap.values d.(webSockets)) in
  let (forcedRaw, d) :=
    if wasGraceful then (0%nat, d)
    else foldl (λ st registration, destroy_raw registration.2 st) (0%nat, d) (JsMap.values d.(rawConnections)) in
  let state := default (mkDrainState 0 0) (d.(drain_states) !! c.(closing_drain)) in
  mkDrainRegistry d.(webSockets) d.(rawConnections) d.(nextRegistrationId) d.(serviceRestartDrainState)
    d.(drain_states) d.(closings)
    (d.(results) ++ [mkCloseResult c.(initialCounts) c.(initialCategoryCounts) forcedRaw forcedWs wasGraceful
                       state.(rawLongLivedConnectionEndCount) state.(serviceRestartWebSocketCloseCount)])
    (d.(reports) ++ option_list c.(then_report))
    d.(ready_states) d.(destroyed) d.(drain_calls).

Definition finishServiceRestartDrain (d : DrainRegistry) : DrainRegistry := with_drain None d.(drain_states) d.

(** *** Events *)

Inductive drain_step (d : DrainRegistry) : DrainRegistry → Prop :=
| drain_step_register_websocket category socket :
    drain_step d (registerGatewayWebSocket category socket d).2
| drain_step_unregister_websocket id : drain_step d (unregister_websocket id d)
| drain_step_register_raw category socket : drain_step d (registerRawLongLivedConnection category socket d).2
| drain_step_unregister_raw id : drain_step d (unregister_raw id d)
| drain_step_close report : drain_step d (closeForServiceRestart report d)
| drain_step_timeout before c after :
    d.(closings) = before ++ c :: after → c.(closing_settled) = None →
    drain_step d (with_closings (before ++ finish_waiting false c :: after) d)
| drain_step_continues before c after wasGraceful :
    d.(closings) = before ++ c :: after → c.(closing_settled) = Some wasGraceful →
    drain_step d (finish_closing c wasGraceful (with_closings (before ++ after) d))
| drain_step_finish : drain_step d (finishServiceRestartDrain d)
(** The sockets move on. *)
| drain_step_ready socket r :
    readiness_rank (d.(ready_states) socket) ≤ readiness_rank r →
    drain_step d (with_sockets (λ s, if decide (s = socket) then r else d.(ready_states) s) d.(destroyed) [] d)
| drain_step_destroyed socket :
    drain_step d (with_sockets d.(ready_states) (λ s, if decide (s = socket) then true else d.(destroyed) s) [] d).

(** ** Theorems *)

Definition closing_call (call : DrainCall) : bool := match call with WebSocketClose _ _ _ => true | _ => false end.
Definition ending_call (call : DrainCall) : bool := match call with RawEnd _ => true | _ => false end.
Definition closes (socket : nat) (call : DrainCall) : bool :=
  match call with WebSocketClose s _ _ => bool_decide (s = socket) | _ => false end.
Definition counted (f : DrainCall → bool) (d : DrainRegistry) : nat := length (List.filter f d.(drain_calls)).

Lemma counted_calls f rs des calls d :
  counted f (with_sockets rs des calls d) = (counted f d + length (List.filter f calls))%nat.
Proof. unfold counted, with_sockets. cbn. by rewrite List.filter_app, length_app. Qed.

Definition closed_for_restart (d : DrainRegistry) (socket : nat) : Prop := 2 ≤ readiness_rank (d.(ready_states) socket).
Definition ended_for_restart (d : DrainRegistry) (socket : nat) : Prop :=
  d.(destroyed) socket = true ∨ RawEnd socket ∈ d.(drain_calls).

(** What holds also between the steps of an operation. *)
Record drain_base (d : DrainRegistry) : Prop := mkDrainBase {
  db_current : ∀ drain, d.(serviceRestartDrainState) = Some drain → (drain < length d.(drain_states))%nat;
  db_closes : sum_list (serviceRestartWebSocketCloseCount <$> d.(drain_states)) = counted closing_call d;
  db_ends : sum_list (rawLongLivedConnectionEndCount <$> d.(drain_states)) = counted ending_call d;
  db_once : ∀ socket, (counted (closes socket) d ≤ 1)%nat ∧
    ((0 < counted (closes socket) d)%nat → closed_for_restart d socket);
  db_code : ∀ socket code reason, WebSocketClose socket code reason ∈ d.(drain_calls) →
    code = 4001 ∧ reason = "service_restart";
  db_waits : isEmpty d = true → ∀ c, c ∈ d.(closings) → is_Some c.(closing_settled);
}.

(** The sockets move on, and nothing else changes but the calls and the counts. *)
Record drain_grows (d d' : DrainRegistry) : Prop := mkDrainGrows {
  dg_webSockets : d'.(webSockets) = d.(webSockets);
  dg_rawConnections : d'.(rawConnections) = d.(rawConnections);
  dg_current : d'.(serviceRestartDrainState) = d.(serviceRestartDrainState);
  dg_closings : d'.(closings) = d.(closings);
  dg_states : length d'.(drain_states) = length d.(drain_states);
  dg_ready : ∀ socket, readiness_rank (d.(ready_states) socket) ≤ readiness_rank (d'.(ready_states) socket);
  dg_ended : ∀ socket, ended_for_restart d socket → ended_for_restart d' socket;
}.

Lemma drain_grows_refl d : drain_grows d d.
Proof. by split. Qed.

Lemma drain_grows_trans d d1 d2 : drain_grows d d1 → drain_grows d1 d2 → drain_grows d d2.
Proof. intros [] []. split; try congruence; [|naive_solver]. intros s. etransitivity; eauto. Qed.

Lemma sum_snoc {A} (f : A → nat) l a : sum_list (f <$> l ++ [a]) = (sum_list (f <$> l) + f a)%nat.
Proof. induction l as [|b l IH]; csimpl; [lia|]. rewrite IH. lia. Qed.

Lemma sum_alter {A} (f : A → nat) (g : A → A) l i :
  (i < length l)%nat → (∀ a, f (g a) = f a + 1)%nat → sum_list (f <$> alter g i l) = (sum_list (f <$> l) + 1)%nat.
Proof.
  intros Hi Hg. revert i Hi. induction l as [|a l IH]; intros [|i] Hi; csimpl in *; [lia..| |].
  - rewrite Hg. lia.
  - change (list_alter g i l) with (alter g i l). rewrite IH by lia. lia.
Qed.

Lemma sum_alter_same {A} (f : A → nat) (g : A → A) l i :
  (∀ a, f (g a) = f a) → sum_list (f <$> alter g i l) = sum_list (f <$> l).
Proof.
  intros Hg. revert i. induction l as [|a l IH]; intros [|i]; csimpl; [done|done| |].
  - by rewrite Hg.
  - change (list_alter g i l) with (alter g i l). by rewrite IH.
Qed.

Lemma socket_closing_rank socket rs s : readiness_rank (rs s) ≤ readiness_rank (socket_closing socket rs s).
Proof. unfold socket_closing. case_decide; [|lia]. case_bool_decide; [subst; by destruct (rs socket)|]. by destruct (rs s). Qed.

Lemma socket_closing_closed socket rs : 2 ≤ readiness_rank (socket_closing socket rs socket).
Proof. unfold socket_closing. rewrite decide_True by done. by case_bool_decide. Qed.

Lemma not_closed_rank r : r ≠ CLOSED → r ≠ CLOSING → readiness_rank r < 2.
Proof. by destruct r. Qed.

Lemma closed_rank r : r = CLOSED ∨ r = CLOSING → 2 ≤ readiness_rank r.
Proof. by intros [-> | ->]. Qed.

Lemma close_websocket_ok socket d : drain_base d →
  let d' := closeWebSocketForActiveServiceRestartDrain socket d in
  drain_base d' ∧ drain_grows d d' ∧ (is_Some d.(serviceRestartDrainState) → closed_for_restart d' socket).
Proof.
  intros Hok d'. unfold d', closeWebSocketForActiveServiceRestartDrain.
  destruct (serviceRestartDrainState d) as [drain|] eqn:Hdrain.
  2: { split; [done|]. split; [apply drain_grows_refl|by intros []]. }
  destruct (bool_decide (d.(ready_states) socket = CLOSED) || bool_decide (d.(ready_states) socket = CLOSING)) eqn:Hclosed.
  { split; [done|]. split; [apply drain_grows_refl|]. intros _. apply closed_rank.
    by apply orb_true_iff in Hclosed as [?%bool_decide_eq_true|?%bool_decide_eq_true]; [left|right]. }
  apply orb_false_iff in Hclosed as [Hne1%bool_decide_eq_false Hne2%bool_decide_eq_false].
  pose proof (not_closed_rank _ Hne1 Hne2) as Hrank. destruct Hok as [Hcur Hcl Hen Hon Hco Hwa].
  assert (counted (closes socket) d = 0%nat) as Hzero.
  { destruct (Hon socket) as [_ Hon2]. unfold closed_for_restart in Hon2.
    destruct (counted (closes socket) d); [done|]. specialize (Hon2 ltac:(lia)). lia. }
  split; [|split; [split|intros _; apply socket_closing_closed]]; try done.
  - pose proof (counted_calls) as Hcalls. unfold counted in *. split; unfold with_drain, with_sockets; cbn.
    + intros k Hk. rewrite length_alter. by apply Hcur.
    + rewrite sum_alter by (try done; by apply Hcur). rewrite Hcl. rewrite List.filter_app, length_app. simpl. lia.
    + rewrite sum_alter_same by done. rewrite Hen, List.filter_app, length_app. simpl. lia.
    + intros s. unfold closed_for_restart, counted. cbn. rewrite List.filter_app, length_app. cbn.
      destruct (Hon s) as [Hone Hs]. case_bool_decide as Heq; cbn.
      * subst s. unfold counted in Hzero. rewrite Hzero. split; [lia|]. intros _. apply socket_closing_closed.
      * rewrite Nat.add_0_r. split; [done|]. intros Hpos. specialize (Hs Hpos).
        unfold closed_for_restart in Hs. pose proof (socket_closing_rank socket d.(ready_states) s). lia.
    + intros s code reason [Hin|Hin%list_elem_of_singleton]%elem_of_app; [by eapply Hco|]. by simplify_eq.
    + exact Hwa.
  - cbn. by rewrite length_alter.
  - intros s. apply socket_closing_rank.
  - intros s [Hs|Hs]; [by left|right]. cbn. apply elem_of_app. by left.
Qed.

Lemma end_raw_ok socket d : drain_base d →
  let d' := endRawConnectionForActiveServiceRestartDrain socket d in
  drain_base d' ∧ drain_grows d d' ∧ (is_Some d.(serviceRestartDrainState) → ended_for_restart d' socket).
Proof.
  intros Hok d'. unfold d', endRawConnectionForActiveServiceRestartDrain.
  destruct (serviceRestartDrainState d) as [drain|] eqn:Hdrain.
  2: { split; [done|]. split; [apply drain_grows_refl|by intros []]. }
  destruct (d.(destroyed) socket) eqn:Hdes.
  { split; [done|]. split; [apply drain_grows_refl|]. by left. }
  destruct Hok as [Hcur Hcl Hen Hon Hco Hwa].
  split; [|split; [split|intros _; right]]; try done.
  - unfold counted in *. split; unfold with_drain, with_sockets; cbn.
    + intros k Hk. rewrite length_alter. by apply Hcur.
    + rewrite sum_alter_same by done. rewrite Hcl, List.filter_app, length_app. simpl. lia.
    + rewrite sum_alter by (try done; by apply Hcur). rewrite Hen, List.filter_app, length_app. simpl. lia.
    + intros s. unfold closed_for_restart, counted in *. cbn. rewrite List.filter_app, length_app. cbn.
      rewrite Nat.add_0_r. apply Hon.
    + intros s code reason [Hin|Hin%list_elem_of_singleton]%elem_of_app; [by eapply Hco|done].
    + exact Hwa.
  - cbn. by rewrite length_alter.
  - intros s [Hs|Hs]; [by left|right]. cbn. apply elem_of_app. by left.
  - cbn. apply elem_of_app. right. by left.
Qed.

Lemma fold_drain_ok (op : nat → DrainRegistry → DrainRegistry) (done_for : DrainRegistry → nat → Prop) {A} (l : list A)
    (socket : A → nat) d :
  (∀ s d, drain_base d → drain_base (op s d) ∧ drain_grows d (op s d) ∧
     (is_Some d.(serviceRestartDrainState) → done_for (op s d) s)) →
  (∀ d d' s, drain_grows d d' → done_for d s → done_for d' s) →
  drain_base d →
  let d' := foldl (λ d a, op (socket a) d) d l in
  drain_base d' ∧ drain_grows d d' ∧
  (is_Some d.(serviceRestartDrainState) → ∀ a, a ∈ l → done_for d' (socket a)).
Proof.
  intros Hop Hmono. revert d. induction l as [|a l IH]; intros d Hok; cbn [foldl].
  { split; [done|]. split; [apply drain_grows_refl|]. by intros _ a ?%elem_of_nil. }
  destruct (Hop (socket a) d Hok) as (Hok1 & Hg1 & Hd1). destruct (IH _ Hok1) as (Hok2 & Hg2 & Hd2).
  split; [done|]. split; [by eapply drain_grows_trans|].
  intros Hsome b [->|Hb]%elem_of_cons; [by eapply Hmono, Hd1|]. apply Hd2; [|done].
  by rewrite (dg_current _ _ Hg1).
Qed.

Lemma grows_closed d d' s : drain_grows d d' → closed_for_restart d s → closed_for_restart d' s.
Proof. intros Hg. unfold closed_for_restart. pose proof (dg_ready _ _ Hg s). lia. Qed.

Lemma grows_ended d d' s : drain_grows d d' → ended_for_restart d s → ended_for_restart d' s.
Proof. intros Hg. apply (dg_ended _ _ Hg). Qed.

Record drain_ok (d : DrainRegistry) : Prop := mkDrainOk {
  dok_base : drain_base d;
  dok_closed : is_Some d.(serviceRestartDrainState) →
    ∀ r, r ∈ JsMap.values d.(webSockets) → closed_for_restart d r.2;
  dok_ended : is_Some d.(serviceRestartDrainState) →
    ∀ r, r ∈ JsMap.values d.(rawConnections) → ended_for_restart d r.2;
}.

Lemma drain_ok_grows d d' : drain_ok d → drain_base d' → drain_grows d d' → drain_ok d'.
Proof.
  intros [_ Hws Hraw] Hok' Hg. split; [done|..]; rewrite (dg_current _ _ Hg), ?(dg_webSockets _ _ Hg), ?(dg_rawConnections _ _ Hg).
  - intros Hsome r Hr. by eapply grows_closed, Hws.
  - intros Hsome r Hr. by eapply grows_ended, Hraw.
Qed.

(** Changes of the maps, the waiting drains and the current one. *)
Lemma drain_base_maps ws raw next d :
  drain_base d → (isEmpty (with_maps ws raw next d) = true → isEmpty d = true) → drain_base (with_maps ws raw next d).
Proof. intros [? ? ? ? ? Hw] Hempty. split; try done. intros He. by apply Hw, Hempty. Qed.

Lemma drain_base_closings l d :
  drain_base d → (isEmpty d = true → ∀ c, c ∈ l → is_Some c.(closing_settled)) → drain_base (with_closings l d).
Proof. intros [? ? ? ? ? ?] Hw. by split. Qed.

Lemma finish_waiting_settled result c : is_Some (finish_waiting result c).(closing_settled).
Proof. unfold finish_waiting. destruct (closing_settled c) eqn:Hc; [by rewrite Hc|by eexists]. Qed.

(** Connections that go. *)
Lemma drain_ok_removed ws raw d :
  drain_ok d → (∀ r, r ∈ JsMap.values ws → r ∈ JsMap.values d.(webSockets)) →
  (∀ r, r ∈ JsMap.values raw → r ∈ JsMap.values d.(rawConnections)) →
  drain_ok (notifyIfEmpty (with_maps ws raw d.(nextRegistrationId) d)).
Proof.
  intros [[? ? ? ? ? Hw] Hclosed Hended] Hws Hraw.
  assert (∀ l, (isEmpty (with_maps ws raw d.(nextRegistrationId) d) = true → ∀ c, c ∈ l → is_Some c.(closing_settled)) →
    drain_ok (with_closings l (with_maps ws raw d.(nextRegistrationId) d))) as Hkeep.
  { intros l Hl. split; [by split|..]; cbn; intros Hsome r Hr; [by apply Hclosed, Hws|by apply Hended, Hraw]. }
  unfold notifyIfEmpty. destruct (isEmpty (with_maps ws raw (nextRegistrationId d) d)); cbn [negb].
  - apply Hkeep. intros _ c (c' & -> & _)%list_elem_of_fmap. apply finish_waiting_settled.
  - by apply (Hkeep d.(closings)).
Qed.

Lemma size_values_set {V} (m : JsMap.t Z V) id v : JsMap.size (JsMap.set m id v) ≠ 0%nat.
Proof. rewrite JsMap.size_set. case_decide as Hs; [|done]. destruct m; [by destruct Hs|done]. Qed.

Lemma register_websocket_ok category socket d : drain_ok d → drain_ok (registerGatewayWebSocket category socket d).2.
Proof.
  intros [Hok Hclosed Hended]. unfold registerGatewayWebSocket. cbn [snd].
  set (d1 := with_maps _ _ _ d).
  assert (drain_base d1) as Hok1.
  { apply drain_base_maps; [done|]. unfold isEmpty. cbn.
    intros [He%Nat.eqb_eq _]%andb_true_iff. by destruct (size_values_set _ _ _ He). }
  destruct (close_websocket_ok socket d1 Hok1) as (Hok2 & Hg & Hsocket).
  split; [done|..]; rewrite (dg_current _ _ Hg), ?(dg_webSockets _ _ Hg), ?(dg_rawConnections _ _ Hg); cbn; intros Hsome r Hr.
  - apply JsMap.elem_of_values_set in Hr as [->|Hr]; [by apply Hsocket|]. eapply grows_closed; [exact Hg|].
    by apply Hclosed.
  - eapply grows_ended; [exact Hg|]. by apply Hended.
Qed.

Lemma register_raw_ok category socket d : drain_ok d → drain_ok (registerRawLongLivedConnection category socket d).2.
Proof.
  intros [Hok Hclosed Hended]. unfold registerRawLongLivedConnection. cbn [snd].
  set (d1 := with_maps _ _ _ d).
  assert (drain_base d1) as Hok1.
  { apply drain_base_maps; [done|]. unfold isEmpty. cbn.
    intros [_ He%Nat.eqb_eq]%andb_true_iff. by destruct (size_values_set _ _ _ He). }
  destruct (end_raw_ok socket d1 Hok1) as (Hok2 & Hg & Hsocket).
  split; [done|..]; rewrite (dg_current _ _ Hg), ?(dg_webSockets _ _ Hg), ?(dg_rawConnections _ _ Hg); cbn; intros Hsome r Hr.
  - eapply grows_closed; [exact Hg|]. by apply Hclosed.
  - apply JsMap.elem_of_values_set in Hr as [->|Hr]; [by apply Hsocket|]. eapply grows_ended; [exact Hg|].
    by apply Hended.
Qed.

Lemma start_drain_ok d : drain_base d →
  let (drain, d') := startServiceRestartDrain d in
  drain_base d' ∧ is_Some d'.(serviceRestartDrainState) ∧ d'.(webSockets) = d.(webSockets) ∧
  d'.(rawConnections) = d.(rawConnections) ∧ d'.(closings) = d.(closings).
Proof.
  intros Hok. unfold startServiceRestartDrain. destruct (serviceRestartDrainState d) as [k|] eqn:Hk.
  { split; [done|]. split; [by rewrite Hk; eexists|done]. }
  destruct Hok as [Hcur Hcl Hen Hon Hco Hwa]. split; [|by split; [eexists|]].
  split; cbn; try done.
  - intros drain [= <-]. rewrite length_app. simpl. lia.
  - rewrite sum_snoc, Hcl. unfold counted. cbn. lia.
  - rewrite sum_snoc, Hen. unfold counted. cbn. lia.
Qed.

Lemma close_for_restart_ok report d : drain_ok d → drain_ok (closeForServiceRestart report d).
Proof.
  intros [Hok _ _]. unfold closeForServiceRestart. pose proof (start_drain_ok d Hok) as Hstart.
  destruct (startServiceRestartDrain d) as [drain d1]. destruct Hstart as (Hok1 & Hsome & Hws1 & Hraw1 & Hcl1).
  destruct (fold_drain_ok closeWebSocketForActiveServiceRestartDrain closed_for_restart (JsMap.values d1.(webSockets))
    snd d1 close_websocket_ok grows_closed Hok1) as (Hok2 & Hg2 & Hclosed).
  set (d2 := foldl _ d1 _) in *.
  destruct (fold_drain_ok endRawConnectionForActiveServiceRestartDrain ended_for_restart (JsMap.values d2.(rawConnections))
    snd d2 end_raw_ok grows_ended Hok2) as (Hok3 & Hg3 & Hended).
  set (d3 := foldl _ d2 _) in *.
  split.
  - apply drain_base_closings; [done|]. intros Hempty c [Hc| ->%list_elem_of_singleton]%elem_of_app.
    + by apply (db_waits _ Hok3 Hempty).
    + change (isEmpty d3 = true) in Hempty. cbn. rewrite Hempty. by eexists.
  - intros _ r Hr. change (r ∈ JsMap.values d3.(webSockets)) in Hr. apply (grows_closed d2 d3); [done|]. apply Hclosed; [done|].
    by rewrite (dg_webSockets _ _ Hg3), (dg_webSockets _ _ Hg2) in Hr.
  - intros _ r Hr. change (r ∈ JsMap.values d3.(rawConnections)) in Hr. apply Hended; [by rewrite (dg_current _ _ Hg2)|].
    by rewrite (dg_rawConnections _ _ Hg3) in Hr.
Qed.

(** Breaking what is left. *)
Lemma terminate_ok socket n d : drain_base d →
  let st := terminate_websocket socket (n, d) in drain_base st.2 ∧ drain_grows d st.2.
Proof.
  intros [Hcur Hcl Hen Hon Hco Hwa]. unfold terminate_websocket. case_bool_decide; cbn [snd].
  { split; [done|apply drain_grows_refl]. }
  split; split; try done.
  - rewrite counted_calls. cbn [List.filter closing_call length]. by rewrite Nat.add_0_r, <- Hcl.
  - rewrite counted_calls. cbn [List.filter ending_call length]. by rewrite Nat.add_0_r, <- Hen.
  - intros s. rewrite counted_calls, Nat.add_0_r. destruct (Hon s) as [Hone Hs]. split; [done|]. intros Hpos.
    specialize (Hs Hpos). unfold closed_for_restart in *. cbn.
    pose proof (socket_closing_rank socket d.(ready_states) s). lia.
  - intros s code reason [Hin|Hin%list_elem_of_singleton]%elem_of_app; [by eapply Hco|done].
  - intros s. apply socket_closing_rank.
  - intros s [Hs|Hs]; [by left|right]. cbn. apply elem_of_app. by left.
Qed.

Lemma destroy_ok socket n d : drain_base d →
  let st := destroy_raw socket (n, d) in drain_base st.2 ∧ drain_grows d st.2.
Proof.
  intros [Hcur Hcl Hen Hon Hco Hwa]. unfold destroy_raw. destruct (d.(destroyed) socket) eqn:Hdes; cbn [snd].
  { split; [done|apply drain_grows_refl]. }
  split; split; try done.
  - rewrite counted_calls. cbn [List.filter closing_call length]. by rewrite Nat.add_0_r, <- Hcl.
  - rewrite counted_calls. cbn [List.filter ending_call length]. by rewrite Nat.add_0_r, <- Hen.
  - intros s. rewrite counted_calls, Nat.add_0_r. apply Hon.
  - intros s code reason [Hin|Hin%list_elem_of_singleton]%elem_of_app; [by eapply Hco|done].
  - intros s [Hs|Hs]; [left; cbn; by case_decide|right]. cbn. apply elem_of_app. by left.
Qed.

Lemma fold_force_ok (op : nat → nat * DrainRegistry → nat * DrainRegistry) {A} (l : list A) (socket : A → nat) n d :
  (∀ s n d, drain_base d → drain_base (op s (n, d)).2 ∧ drain_grows d (op s (n, d)).2) → drain_base d →
  let st := foldl (λ st a, op (socket a) st) (n, d) l in drain_base st.2 ∧ drain_grows d st.2.
Proof.
  intros Hop. revert n d. induction l as [|a l IH]; intros n d Hok; cbn [foldl]; [split; [done|apply drain_grows_refl]|].
  destruct (Hop (socket a) n d Hok) as [Hok1 Hg1]. destruct (op (socket a) (n, d)) as [n1 d1].
  destruct (IH n1 d1 Hok1) as [Hok2 Hg2]. split; [done|]. by eapply drain_grows_trans.
Qed.

Lemma finish_closing_ok c wasGraceful d : drain_ok d → drain_ok (finish_closing c wasGraceful d).
Proof.
  intros Hok. unfold finish_closing.
  assert (∀ d', drain_ok d' → ∀ rs l, drain_ok (mkDrainRegistry d'.(webSockets) d'.(rawConnections)
    d'.(nextRegistrationId) d'.(serviceRestartDrainState) d'.(drain_states) d'.(closings) rs l d'.(ready_states)
    d'.(destroyed) d'.(drain_calls))) as Hresult.
  { intros d' [[] ? ?] rs l. by split. }
  destruct wasGraceful; [by apply Hresult|].
  destruct (fold_force_ok terminate_websocket (JsMap.values d.(webSockets)) snd 0 d terminate_ok (dok_base _ Hok))
    as [Hok1 Hg1].
  destruct (foldl _ (0%nat, d) _) as [n1 d1]. cbn [snd] in Hok1, Hg1.
  destruct (fold_force_ok destroy_raw (JsMap.values d1.(rawConnections)) snd 0 d1 destroy_ok Hok1) as [Hok2 Hg2].
  destruct (foldl _ (0%nat, d1) _) as [n2 d2]. cbn [snd] in Hok2, Hg2.
  apply Hresult. eapply drain_ok_grows; [exact Hok|done|by eapply drain_grows_trans].
Qed.

Lemma drain_step_ok d d' : drain_ok d → drain_step d d' → drain_ok d'.
Proof.
  intros Hok Hstep. pose proof Hok as [[Hcur Hcl Hen Hon Hco Hwa] Hclosed Hended].
  destruct Hstep as [category socket|id|category socket|id|report|before c after Hc Hset|before c after g Hc Hset
    | |socket r Hr|socket].
  - by apply register_websocket_ok.
  - apply drain_ok_removed; [done| |done]. intros r. apply JsMap.elem_of_values_delete.
  - by apply register_raw_ok.
  - apply drain_ok_removed; [done|done|]. intros r. apply JsMap.elem_of_values_delete.
  - by apply close_for_restart_ok.
  - split; [|done..]. apply drain_base_closings; [done|]. intros He c' Hc'. rewrite Hc in Hwa.
    apply elem_of_app in Hc' as [Hc'|[->|Hc']%elem_of_cons]; [|apply finish_waiting_settled|];
      apply (Hwa He); apply elem_of_app; [by left|by right; right].
  - apply finish_closing_ok. split; [|done..]. apply drain_base_closings; [done|]. intros He c' Hc'. apply (Hwa He).
    rewrite Hc. apply elem_of_app. apply elem_of_app in Hc' as [Hc'|Hc']; [by left|by right; right].
  - split; [by split|by intros []..].
  - eapply drain_ok_grows; [done| |].
    + split; cbn; try done; unfold counted in *; cbn; rewrite ?app_nil_r; try done.
      intros s. destruct (Hon s) as [Hone Hs]. split; [done|]. intros Hpos. specialize (Hs Hpos).
      unfold closed_for_restart in *. cbn. case_decide; [subst; lia|done].
    + split; cbn; try done; [intros s; case_decide; [by subst|done]|].
      intros s [Hs|Hs]; [by left|right]. cbn. by rewrite app_nil_r.
  - eapply drain_ok_grows; [done| |].
    + split; cbn; try done; unfold counted in *; cbn; by rewrite ?app_nil_r.
    + split; cbn; try done. intros s [Hs|Hs]; [left; cbn; by case_decide|right]. cbn. by rewrite app_nil_r.
Qed.

(** C31: while a gateway drains, no registered websocket is open and every registered raw connection
    has been ended, also those that are registered meanwhile; a websocket is closed at most once,
    always with code 4001; the counts of the drains are the calls that were made; and no drain waits
    once the registry is empty. *)
Theorem drain_history (ready_states : nat → ReadyState) (destroyed : nat → bool) (d : DrainRegistry) :
  rtc drain_step (drain_registry_new ready_states destroyed) d →
  (is_Some d.(serviceRestartDrainState) →
     (∀ r, r ∈ JsMap.values d.(webSockets) →
        d.(DrainRegistry.ready_states) r.2 = CLOSING ∨ d.(DrainRegistry.ready_states) r.2 = CLOSED) ∧
     (∀ r, r ∈ JsMap.values d.(rawConnections) →
        d.(DrainRegistry.destroyed) r.2 = true ∨ RawEnd r.2 ∈ d.(drain_calls))) ∧
  (∀ socket code reason, WebSocketClose socket code reason ∈ d.(drain_calls) →
     code = 4001 ∧ reason = "service_restart") ∧
  (∀ socket, (counted (closes socket) d ≤ 1)%nat) ∧
  sum_list (serviceRestartWebSocketCloseCount <$> d.(drain_states)) = counted closing_call d ∧
  sum_list (rawLongLivedConnectionEndCount <$> d.(drain_states)) = counted ending_call d ∧
  (isEmpty d = true → ∀ c, c ∈ d.(closings) → is_Some c.(closing_settled)).
Proof.
  intros Hrtc. assert (drain_ok d) as [[? ? ? Hon ? ?] Hclosed Hended].
  { remember (drain_registry_new ready_states destroyed) as d0 eqn:Hd0. assert (drain_ok d0) as Hok0.
    { subst d0. split; [split|by intros []..]; cbn; try done; [|by intros ? ? ? ?%elem_of_nil|by intros _ ? ?%elem_of_nil].
      intros s. unfold counted. cbn. split; lia. }
    clear Hd0. induction Hrtc as [|d0 d1 d2 Hstep _ IH]; [done|]. by eapply IH, drain_step_ok. }
  split_and!; try done; [|intros s; apply Hon].
  intros Hsome. split; [|by apply Hended]. intros r Hr. specialize (Hclosed Hsome r Hr).
  unfold closed_for_restart in Hclosed. destruct (DrainRegistry.ready_states d r.2); cbn in Hclosed; [lia|lia|by left|by right].
Qed.

(** *** What a drain ends with *)

Lemma terminate_fold (l : list (GatewayDrainWebSocketCategory * nat)) n d :
  let open_ := List.filter (λ r, negb (d.(ready_states) r.2 =?= CLOSED)) l in
  ∃ rs, foldl (λ st r, terminate_websocket r.2 st) (n, d) l =
    ((n + length open_)%nat, with_sockets rs d.(destroyed) (map (λ r, WebSocketTerminate r.2) open_) d).
Proof.
  revert n d. induction l as [|r l IH]; intros n d; cbn [foldl List.filter map].
  { exists d.(ready_states). cbn. unfold with_sockets. rewrite app_nil_r, Nat.add_0_r. by destruct d. }
  destruct (terminate_websocket r.2 (n, d)) as [n1 d1] eqn:Ht. unfold terminate_websocket in Ht.
  case_bool_decide as Hc; cbn [negb]; injection Ht as <- <-; [apply IH|].
  set (d1 := with_sockets _ _ _ d). destruct (IH (S n) d1) as [rs ->].
  assert (List.filter (λ r, negb (d1.(ready_states) r.2 =?= CLOSED)) l =
          List.filter (λ r, negb (d.(ready_states) r.2 =?= CLOSED)) l) as ->.
  { apply filter_ext. intros a. f_equal. apply bool_decide_ext. cbn. unfold socket_closing.
    case_decide as Ha; [|done]. case_bool_decide as Hra; [done|]. split; [done|by intros]. }
  exists rs. cbn. f_equal; [lia|]. unfold with_sockets. cbn. by rewrite <- app_assoc.
Qed.

Lemma destroy_fold (l : list (GatewayRawLongLivedConnectionCategory * nat)) n d :
  ∃ raws des, foldl (λ st r, destroy_raw r.2 st) (n, d) l =
      ((n + length raws)%nat, with_sockets d.(ready_states) des (map RawDestroy raws) d) ∧
    NoDup raws ∧ (∀ s, s ∈ raws ↔ s ∈ l.*2 ∧ d.(destroyed) s = false) ∧
    (∀ s, des s = true ↔ d.(destroyed) s = true ∨ s ∈ l.*2).
Proof.
  revert n d. induction l as [|r l IH]; intros n d; cbn [foldl].
  { exists [], d.(destroyed). cbn. unfold with_sockets. rewrite app_nil_r, Nat.add_0_r.
    split; [by destruct d|]. split; [constructor|]. split; intros s; cbn; rewrite elem_of_nil; intuition done. }
  destruct (destroy_raw r.2 (n, d)) as [n1 d1] eqn:Ht. unfold destroy_raw in Ht. rewrite fmap_cons.
  destruct (d.(destroyed) r.2) eqn:Hd; injection Ht as <- <-.
  { destruct (IH n d) as (raws & des & -> & Hnd & Hin & Hdes). exists raws, des. split; [done|]. split; [done|].
    split; intros s; [rewrite Hin|rewrite Hdes]; rewrite elem_of_cons;
      (destruct (decide (s = r.2)) as [->|]; [rewrite Hd|]; intuition congruence). }
  set (d1 := with_sockets _ _ _ d). destruct (IH (S n) d1) as (raws & des & -> & Hnd & Hin & Hdes).
  assert (∀ s, d1.(destroyed) s = if decide (s = r.2) then true else d.(destroyed) s) as Hd1 by done.
  exists (r.2 :: raws), des. split.
  { cbn. f_equal; [lia|]. unfold with_sockets. cbn. by rewrite <- app_assoc. }
  split; [constructor; [|done]|split; intros s].
  - rewrite Hin, Hd1, decide_True by done. by intros [].
  - rewrite !elem_of_cons, Hin, Hd1. case_decide as Hs; [subst; rewrite Hd|]; intuition congruence.
  - rewrite elem_of_cons, Hdes, Hd1. case_decide as Hs; [subst; rewrite Hd|]; intuition congruence.
Qed.

(** A drain whose connections went in time forces nothing; one that timed out terminates exactly
    the registered websockets that are not closed and destroys each registered raw connection
    that is not destroyed once, so that none is left; either way it ends with a result that counts
    what it did, and a replacement of the gateway is reported. *)
Theorem drain_finished (c : DrainClosing) (wasGraceful : bool) (d : DrainRegistry) :
  let state := default (mkDrainState 0 0) (d.(drain_states) !! c.(closing_drain)) in
  let left_open := List.filter (λ r, negb (d.(ready_states) r.2 =?= CLOSED)) (JsMap.values d.(webSockets)) in
  let d' := finish_closing c wasGraceful d in
  ∃ raws, d'.(drain_calls) = d.(drain_calls) ++
      (if wasGraceful then [] else map (λ r, WebSocketTerminate r.2) left_open ++ map RawDestroy raws) ∧
    d'.(results) = d.(results) ++
      [mkCloseResult c.(initialCounts) c.(initialCategoryCounts) (if wasGraceful then 0%nat else length raws)
         (if wasGraceful then 0%nat else length left_open) wasGraceful
         state.(rawLongLivedConnectionEndCount) state.(serviceRestartWebSocketCloseCount)] ∧
    d'.(reports) = d.(reports) ++ option_list c.(then_report) ∧
    NoDup raws ∧ (∀ s, s ∈ raws ↔ s ∈ (JsMap.values d.(rawConnections)).*2 ∧ d.(destroyed) s = false) ∧
    (wasGraceful = false → ∀ r, r ∈ JsMap.values d.(rawConnections) → d'.(destroyed) r.2 = true).
Proof.
  intros state left_open d'.
  destruct (terminate_fold (JsMap.values d.(webSockets)) 0 d) as [rs Hws]. fold left_open in Hws.
  set (d1 := with_sockets rs _ _ d) in Hws.
  destruct (destroy_fold (JsMap.values d.(rawConnections)) 0 d1) as (raws & des & Hraw & Hnd & Hin & Hdes).
  exists raws. unfold d', finish_closing. destruct wasGraceful.
  { cbn. rewrite app_nil_r. by split_and!. }
  rewrite Hws. change (rawConnections d1) with (rawConnections d). rewrite Hraw. cbn.
  split; [by rewrite <- app_assoc|]. split_and!; try done.
  intros _ r Hr. apply Hdes. right. by apply list_elem_of_fmap_2.
Qed.

(** ** Witnesses *)

(** Two websockets and a raw connection; one websocket closes, the timer fires, the drain ends. *)
Definition demo_registered : DrainRegistry :=
  (registerRawLongLivedConnection PortAccess 3 (registerGatewayWebSocket SandboxTunnel 2
    (registerGatewayWebSocket PtyTransport 1 (drain_registry_new (λ _, OPEN) (λ _, false))).2).2).2.
Definition demo_drained : DrainRegistry :=
  unregister_websocket 1 (closeForServiceRestart (Some ForwardingNotReadyTimeout) demo_registered).

Lemma demo_drained_runs : rtc drain_step (drain_registry_new (λ _, OPEN) (λ _, false)) demo_drained.
Proof.
  eapply rtc_l; [apply drain_step_register_websocket|]. eapply rtc_l; [apply drain_step_register_websocket|].
  eapply rtc_l; [apply drain_step_register_raw|]. eapply rtc_l; [apply drain_step_close|].
  apply rtc_once, drain_step_unregister_websocket.
Qed.

Lemma drain_history_witness :
  demo_drained.(drain_calls) =
    [WebSocketClose 1 4001 "service_restart"; WebSocketClose 2 4001 "service_restart"; RawEnd 3] ∧
  (counted (closes 1) demo_drained ≤ 1)%nat.
Proof.
  destruct (drain_history (λ _, OPEN) (λ _, false) demo_drained demo_drained_runs) as (_ & _ & Honce & _).
  split; [reflexivity|apply Honce].
Defined.

Example demo_forced :
  (finish_closing (mkClosing (activeCounts demo_registered) (activeCategoryCounts demo_registered) 0 (Some false) None)
     false demo_drained).(drain_calls) =
  demo_drained.(drain_calls) ++ [WebSocketTerminate 2; RawDestroy 3].
Proof. reflexivity. Qed.
