(* ===== verification/AttachmentRenewal.v ===== *)
(** * Renewal of a runtime attachment (startRuntimeAttachmentRenewal of
      tunnel/session/tunnel-session-service.ts)

    A closure over a few variables that a timer, a renewal under way, a listener of the readiness
    of forwarding (ForwardingReadiness.v) and the handle's [stop] share: [AttachmentRenewal].
    An [async] renewal is cut at its [await]s: [suspended] are the renewals that wait for a
    promise, with what it settles to.  A call on the store takes effect when it is made, as with the
    in-memory store (its [clearAttachment], which awaits its own read, is taken as one step), or
    fails with the error its event carries; other writers of the store are events of their own.
    The callbacks of a renewal are recorded; they are taken not to throw. *)

From S2P Require Import Prelude JsMap TunnelTypes RuntimeState ForwardingReadiness.
Local Open Scope Z_scope.

Definition status_text (status : GatewayForwardingReadinessStatus) : string :=
  match status with
  | StatusNotReady => "not_ready"
  | StatusChecking => "checking"
  | StatusReady => "ready"
  end.

(** [subject] is the forwarding subject of the gateway's readiness. *)
Definition ensureForwardingReadyForRuntimeAttachment (subject : string)
    (state : GatewayForwardingReadinessState) : JsError + unit :=
  if isReady state then inr tt
  else inl (GatewayForwardingNotReadyForRuntimeAttachmentError
    ("Gateway forwarding is " +:+ status_text state.(readiness_status)
     +:+ "; refusing sandbox runtime attachment write for subject '" +:+ subject +:+ "'.")).

(** ** The renewal *)

Module Attachment.
(** Where a renewal waits: for [getAttachment], or for [refreshRuntimeAttachment]. *)
Inductive Suspension : Type :=
| AwaitAttachment (result : JsError + option RuntimeAttachment)
| AwaitRefresh (result : JsError + unit).

Inductive Callback : Type := LeaseLost | RefreshFailed (error : JsError).

Record AttachmentRenewal : Type := mkRenewal {
  stopped : bool;
  renewalInFlight : bool;
  (** The handle, with the time the timer is due. *)
  scheduledHandle : option Z;
  subscribed : bool;
  suspended : list Suspension;
  callbacks : list Callback;
}.

(** The renewal and what it works on. *)
Record State : Type := mkState {
  renewal : AttachmentRenewal;
  readiness : GatewayForwardingReadinessState;
  socket_open : bool;
  attachments : AttachmentStore;
}.

Definition with_renewal (r : AttachmentRenewal) (s : State) : State :=
  mkState r s.(readiness) s.(socket_open) s.(attachments).
Definition with_attachments (a : AttachmentStore) (s : State) : State :=
  mkState s.(renewal) s.(readiness) s.(socket_open) a.

Definition with_handle (h : option Z) (s : State) : State :=
  let r := s.(renewal) in
  with_renewal (mkRenewal r.(stopped) r.(renewalInFlight) h r.(subscribed) r.(suspended) r.(callbacks)) s.
Definition with_flight (b : bool) (s : State) : State :=
  let r := s.(renewal) in
  with_renewal (mkRenewal r.(stopped) b r.(scheduledHandle) r.(subscribed) r.(suspended) r.(callbacks)) s.
Definition suspend (at_ : Suspension) (s : State) : State :=
  let r := s.(renewal) in
  with_renewal (mkRenewal r.(stopped) r.(renewalInFlight) r.(scheduledHandle) r.(subscribed)
                  (r.(suspended) ++ [at_]) r.(callbacks)) s.
Definition call_back (c : Callback) (s : State) : State :=
  let r := s.(renewal) in
  with_renewal (mkRenewal r.(stopped) r.(renewalInFlight) r.(scheduledHandle) r.(subscribed)
                  r.(suspended) (r.(callbacks) ++ [c])) s.

Section Renewal.
Context (subject sandboxInstanceId leaseId gatewayNodeId relaySessionId : string) (attachedAtMs : Z).

Definition own_attachment : RuntimeAttachment :=
  mkAttachment sandboxInstanceId leaseId gatewayNodeId relaySessionId attachedAtMs.

Definition cancelScheduledRenewal : State → State := with_handle None.

Definition stopRenewal (s : State) : State :=
  if s.(renewal).(stopped) then s
  else
    let r := s.(renewal) in
    cancelScheduledRenewal
      (with_renewal (mkRenewal true r.(renewalInFlight) r.(scheduledHandle) false r.(suspended) r.(callbacks)) s).

Definition scheduleNextRenewal (nowMs : Z) (s : State) : State :=
  if s.(renewal).(stopped) || negb (isReady s.(readiness)) then cancelScheduledRenewal s
  else match s.(renewal).(scheduledHandle) with
       | Some _ => s
       | None => with_handle (Some (nowMs + OWNER_LEASE_RENEW_INTERVAL_MS)) s
       end.

(** [renewRuntimeAttachment] up to its first [await]. *)
Definition renewRuntimeAttachment (nowMs : Z) (failure : option JsError) (s : State) : State :=
  let s := with_handle None s in
  if s.(renewal).(stopped) || negb (isReady s.(readiness)) then s
  else if negb s.(socket_open) then stopRenewal s
  else
    let s := with_flight true s in
    let (result, a) := store_call failure (getAttachment sandboxInstanceId nowMs) s.(attachments) in
    suspend (AwaitAttachment result) (with_attachments a s).

(** The [catch] of a renewal, and its [finally]. *)
Definition renewal_failed (e : JsError) (s : State) : State :=
  with_flight false (if s.(renewal).(stopped) then s else call_back (RefreshFailed e) (stopRenewal s)).

Definition lease_lost (s : State) : State := with_flight false (call_back LeaseLost (stopRenewal s)).

(** [refreshRuntimeAttachment] up to its [await]: it throws when forwarding is not ready. *)
Definition refreshRuntimeAttachment (nowMs : Z) (failure : option JsError) (s : State) : State :=
  match ensureForwardingReadyForRuntimeAttachment subject s.(readiness) with
  | inl e => suspend (AwaitRefresh (inl e)) s
  | inr _ =>
      let (result, a) := store_call failure
        (λ a, (tt, upsertAttachment own_attachment ATTACHMENT_TTL_MS nowMs a)) s.(attachments) in
      suspend (AwaitRefresh result) (with_attachments a s)
  end.

(** The rest of a renewal after an [await]. *)
Definition resume (at_ : Suspension) (nowMs : Z) (failure : option JsError) (s : State) : State :=
  match at_ with
  | AwaitAttachment (inl e) | AwaitRefresh (inl e) => renewal_failed e s
  | AwaitAttachment (inr None) => lease_lost s
  | AwaitAttachment (inr (Some current)) =>
      if negb (current.(attachment_ownerLeaseId) =?= leaseId)
         || negb (current.(attachment_sessionId) =?= relaySessionId) then lease_lost s
      else if negb (isReady s.(readiness)) then with_flight false s
      else refreshRuntimeAttachment nowMs failure s
  | AwaitRefresh (inr _) => scheduleNextRenewal nowMs (with_flight false s)
  end.

(** The listener of the readiness. *)
Definition readiness_listener (nowMs : Z) (failure : option JsError) (s : State) : State :=
  if s.(renewal).(stopped) then s
  else if negb (isReady s.(readiness)) then cancelScheduledRenewal s
  else if bool_decide (s.(renewal).(scheduledHandle) = None) && negb s.(renewal).(renewalInFlight)
       then renewRuntimeAttachment nowMs failure s
       else s.

(** [startRuntimeAttachmentRenewal] *)
Definition startRuntimeAttachmentRenewal (nowMs : Z) (readiness : GatewayForwardingReadinessState)
    (isOpen : bool) (a : AttachmentStore) : State :=
  scheduleNextRenewal nowMs (mkState (mkRenewal false false None true [] []) readiness isOpen a).

(** ** Events *)

Inductive event : Type :=
| TimerFires (nowMs : Z) (failure : option JsError)
| Resumes (nowMs : Z) (failure : option JsError)
| ReadinessMarked (mark : readiness_mark) (markNowMs nowMs : Z) (failure : option JsError)
| SocketCloses
| HandleStopped
(** Other writers of the store. *)
| OtherUpsert (attachment : RuntimeAttachment) (ttlMs nowMs : Z)
| OtherClear (ownerLeaseId : string) (clock : Z).

Inductive step (s : State) : event → State → Prop :=
| step_timer due nowMs failure : s.(renewal).(scheduledHandle) = Some due →
    step s (TimerFires nowMs failure) (renewRuntimeAttachment nowMs failure s)
| step_resume at_ before after nowMs failure : s.(renewal).(suspended) = before ++ at_ :: after →
    let r := s.(renewal) in
    step s (Resumes nowMs failure)
      (resume at_ nowMs failure
         (with_renewal (mkRenewal r.(stopped) r.(renewalInFlight) r.(scheduledHandle) r.(subscribed)
                          (before ++ after) r.(callbacks)) s))
| step_readiness mark markNowMs nowMs failure :
    let s' := mkState s.(renewal) (apply_mark mark markNowMs s.(readiness)) s.(socket_open) s.(attachments) in
    step s (ReadinessMarked mark markNowMs nowMs failure)
      (if s.(renewal).(subscribed) then readiness_listener nowMs failure s' else s')
| step_close : step s SocketCloses (mkState s.(renewal) s.(readiness) false s.(attachments))
| step_stop : step s HandleStopped (stopRenewal s)
| step_upsert attachment ttlMs nowMs :
    step s (OtherUpsert attachment ttlMs nowMs)
      (with_attachments (upsertAttachment attachment ttlMs nowMs s.(attachments)) s)
| step_clear ownerLeaseId clock :
    step s (OtherClear ownerLeaseId clock)
      (with_attachments (clearAttachment sandboxInstanceId ownerLeaseId clock s.(attachments)).2 s).

Inductive steps (s : State) : list event → State → Prop :=
| steps_nil : steps s [] s
| steps_cons e s1 es s2 : step s e s1 → steps s1 es s2 → steps s (e :: es) s2.
End Renewal.

(** *** Theorems *)

Section RenewalTheory.
Context (subject sandboxInstanceId leaseId gatewayNodeId relaySessionId : string) (attachedAtMs : Z).
Notation own := (own_attachment sandboxInstanceId leaseId gatewayNodeId relaySessionId attachedAtMs).
Notation start := startRuntimeAttachmentRenewal.
Notation step := (step subject sandboxInstanceId leaseId gatewayNodeId relaySessionId attachedAtMs).
Notation steps := (steps subject sandboxInstanceId leaseId gatewayNodeId relaySessionId attachedAtMs).
Notation renew := (renewRuntimeAttachment sandboxInstanceId).
Notation resume := (resume subject sandboxInstanceId leaseId gatewayNodeId relaySessionId attachedAtMs).

(** [busy]: a renewal is under way.  What is left of the renewal otherwise is either stopped, or
    waits for its timer, or for forwarding to become ready. *)
Record renewal_ok (busy : bool) (s : State) : Prop := mkRenewalOk {
  rok_flight : s.(renewal).(renewalInFlight) = busy;
  rok_handle : is_Some s.(renewal).(scheduledHandle) →
    s.(renewal).(stopped) = false ∧ isReady s.(readiness) = true ∧ busy = false;
  rok_running : s.(renewal).(stopped) = false → isReady s.(readiness) = true → busy = false →
    is_Some s.(renewal).(scheduledHandle);
  rok_subscribed : s.(renewal).(subscribed) = negb s.(renewal).(stopped);
  rok_callbacks : s.(renewal).(callbacks) = [] ∨
    (length s.(renewal).(callbacks) = 1%nat ∧ s.(renewal).(stopped) = true ∧ busy = false);
}.

(** As [renewal_ok], where the renewal under way is the one that waits. *)
Definition waiting_ok (s : State) : Prop :=
  ∃ busy, renewal_ok busy s ∧ length s.(renewal).(suspended) = (if busy then 1 else 0)%nat.

Lemma stopRenewal_stopped s : (stopRenewal s).(renewal).(stopped) = true.
Proof. unfold stopRenewal. by destruct (stopped (renewal s)) eqn:?. Qed.

Lemma renewal_stop_ok busy s : renewal_ok busy s → renewal_ok busy (stopRenewal s).
Proof.
  intros Hok. pose proof Hok as [Hf Hh Hr Hs Hc]. unfold stopRenewal.
  destruct (stopped (renewal s)) eqn:Hst; [exact Hok|].
  split; simpl; try done. left. destruct Hc as [->|(_ & ? & _)]; congruence.
Qed.

(** The end of a renewal that stops it. *)
Lemma ended_ok c s :
  renewal_ok true s → s.(renewal).(stopped) = true →
  renewal_ok false (with_flight false s) ∧ renewal_ok false (with_flight false (call_back c s)).
Proof.
  intros [Hf Hh Hr Hs Hc] Hst. assert (s.(renewal).(callbacks) = []) as Hnone.
  { by destruct Hc as [?|(_ & _ & [=])]. }
  split; split; simpl; try done; rewrite ?Hst; try done.
  - intros Hsome. by destruct (Hh Hsome) as (_ & _ & [=]).
  - by left.
  - intros Hsome. by destruct (Hh Hsome) as (_ & _ & [=]).
  - right. by rewrite Hnone.
Qed.

Lemma renewal_schedule_ok nowMs s : renewal_ok true s → renewal_ok false (scheduleNextRenewal nowMs (with_flight false s)).
Proof.
  intros [Hf Hh Hr Hs Hc].
  assert (s.(renewal).(scheduledHandle) = None) as Hnone.
  { destruct (scheduledHandle _) as [due|]; [|done]. by destruct (Hh ltac:(by eexists)) as (_ & _ & [=]). }
  assert (s.(renewal).(callbacks) = []) as Hcb by (by destruct Hc as [?|(_ & _ & [=])]).
  unfold scheduleNextRenewal. cbn. rewrite Hnone.
  destruct (stopped (renewal s)) eqn:Hst, (isReady (readiness s)) eqn:Hrd; simpl;
    split; simpl; try done; try (by left); rewrite ?Hst, ?Hrd; try done; try (by intros []); by eauto.
Qed.

Lemma renew_ok nowMs failure s :
  s.(renewal).(renewalInFlight) = false → s.(renewal).(suspended) = [] →
  s.(renewal).(subscribed) = negb s.(renewal).(stopped) →
  s.(renewal).(callbacks) = [] ∨
    (length s.(renewal).(callbacks) = 1%nat ∧ s.(renewal).(stopped) = true ∧ false = false) →
  waiting_ok (renew nowMs failure s).
Proof.
  intros Hf Hsus Hsub Hc. unfold renewRuntimeAttachment. cbn.
  destruct (stopped (renewal s) || negb (isReady (readiness s))) eqn:Hgo.
  { exists false. cbn. rewrite Hsus. split; [|done]. split; cbn; try done.
    intros Hst Hrd. by rewrite Hst, Hrd in Hgo. }
  apply orb_false_iff in Hgo as [Hst Hrd]. apply negb_false_iff in Hrd.
  assert (s.(renewal).(callbacks) = []) as Hnone by (destruct Hc as [?|(_ & ? & _)]; congruence).
  destruct (socket_open s); cbn [negb].
  - destruct (store_call _ _ _) as [result a]. exists true. cbn. rewrite Hsus. split; [|done].
    split; cbn; try done; by left.
  - exists false. unfold stopRenewal. cbn. rewrite Hst. cbn. rewrite Hsus. split; [|done].
    split; cbn; try done; by left.
Qed.

(** A renewal that ends without a callback while forwarding is not ready. *)
Lemma idle_ok s : renewal_ok true s → isReady s.(readiness) = false → renewal_ok false (with_flight false s).
Proof.
  intros [Hf Hh Hr Hs Hc] Hrd. split; cbn; rewrite ?Hrd; try done.
  - intros Hsome. by destruct (Hh Hsome) as (_ & _ & [=]).
  - left. by destruct Hc as [?|(_ & _ & [=])].
Qed.

Lemma resume_ok at_ nowMs failure s :
  renewal_ok true s → s.(renewal).(suspended) = [] → waiting_ok (resume at_ nowMs failure s).
Proof.
  intros Hok Hsus.
  assert (waiting_ok (lease_lost s)) as Hlost.
  { exists false. split; [apply ended_ok; [by apply renewal_stop_ok|apply stopRenewal_stopped]|].
    unfold lease_lost, stopRenewal. destruct (stopped (renewal s)); cbn; by rewrite Hsus. }
  assert (∀ e, waiting_ok (renewal_failed e s)) as Hfailed.
  { intros e. exists false. unfold renewal_failed. destruct (stopped (renewal s)) eqn:Hst.
    - split; [by apply (ended_ok LeaseLost)|cbn; by rewrite Hsus].
    - split; [apply ended_ok; [by apply renewal_stop_ok|apply stopRenewal_stopped]|].
      unfold stopRenewal. rewrite Hst. cbn. by rewrite Hsus. }
  destruct at_ as [[e|[current|]]|[e|[]]]; cbn [Attachment.resume]; try done.
  - destruct (_ || _); [done|]. destruct (isReady (readiness s)) eqn:Hrd; cbn [negb].
    + unfold refreshRuntimeAttachment, ensureForwardingReadyForRuntimeAttachment. rewrite Hrd.
      destruct (store_call _ _ _) as [result a]. exists true. destruct Hok as [Hf Hh Hr Hs Hc].
      split; [by split|]. cbn. by rewrite Hsus.
    + exists false. split; [by apply idle_ok|]. cbn. by rewrite Hsus.
  - exists false. split; [by apply renewal_schedule_ok|]. unfold scheduleNextRenewal. cbn.
    destruct (_ || _); cbn; [by rewrite Hsus|]. destruct (scheduledHandle _); cbn; by rewrite Hsus.
Qed.

Lemma waiting_step s e s' : waiting_ok s → step s e s' → waiting_ok s'.
Proof.
  intros (busy & Hok & Hlen) Hstep. pose proof Hok as [Hf Hh Hr Hs Hc].
  destruct Hstep as [due nowMs failure Hdue|at_ before after nowMs failure Hsus r|mark markNowMs nowMs failure s1
    | | |attachment ttlMs nowMs|ownerLeaseId clock].
  - destruct (Hh ltac:(by eexists)) as (Hst & Hrd & ->).
    apply renew_ok; [done|by apply nil_length_inv|done|]. destruct Hc as [?|(? & ? & _)]; [by left|by right].
  - rewrite Hsus, length_app in Hlen. cbn in Hlen. destruct busy; [|lia].
    destruct before, after; cbn in Hlen; try lia. apply resume_ok; [|done]. by split.
  - destruct (subscribed (renewal s)) eqn:Hsub.
    + unfold readiness_listener, s1. cbn. symmetry in Hs. apply negb_true_iff in Hs. rewrite Hs.
      assert (s.(renewal).(callbacks) = []) as Hcb by (destruct Hc as [?|(_ & ? & _)]; congruence).
      destruct (isReady (apply_mark mark markNowMs (readiness s))) eqn:Hrd; cbn [negb].
      * destruct (decide (scheduledHandle (renewal s) = None)) as [Hnone|Hsome].
        { rewrite bool_decide_true by done. rewrite Hf. cbn [andb].
          destruct busy; cbn [negb].
          - exists true. split; [|done]. split; cbn; rewrite ?Hnone, ?Hs, ?Hrd, ?Hsub; try done. by left.
          - apply renew_ok; cbn; [done|by apply nil_length_inv|by rewrite Hsub, Hs|].
            destruct Hc as [?|(? & ? & _)]; [by left|by right]. }
        rewrite bool_decide_false by done. cbn [andb].
        destruct (scheduledHandle (renewal s)) as [due|] eqn:Hdue; [|done].
        destruct (Hh ltac:(by eexists)) as (Hst & _ & ->).
        exists false. split; [|done]. split; cbn; rewrite ?Hdue, ?Hs, ?Hrd, ?Hsub; try done. by left.
      * exists busy. split; [|done]. split; cbn; rewrite ?Hrd, ?Hsub, ?Hs; try done. by left.
    + symmetry in Hs. apply negb_false_iff in Hs. exists busy. split; [|done]. unfold s1.
      split; cbn; rewrite ?Hs, ?Hsub; try done.
      * intros Hsome. destruct (Hh Hsome). congruence.
      * destruct Hc as [?|(? & _ & ?)]; auto.
  - exists busy. split; [by split|done].
  - exists busy. split; [by apply renewal_stop_ok|]. unfold stopRenewal. by destruct (stopped _).
  - exists busy. split; [by split|done].
  - exists busy. split; [by split|done].
Qed.

Lemma renewal_start_ok nowMs readiness isOpen a : waiting_ok (start nowMs readiness isOpen a).
Proof.
  exists false. unfold startRuntimeAttachmentRenewal, scheduleNextRenewal. cbn.
  destruct (isReady readiness) eqn:Hrd; cbn; (split; [|done]); split; cbn; rewrite ?Hrd; try done;
    try (by left); try (by intros []); by eauto.
Qed.

Lemma waiting_steps s es s' : waiting_ok s → steps s es s' → waiting_ok s'.
Proof. intros Hok Hsteps. revert Hok. induction Hsteps; intros; [done|]. eauto using waiting_step. Qed.

(** C29: at every moment at most one renewal is under way, and at most one callback is ever called,
    by a renewal that then ends for good.  A renewal that is not stopped never lapses silently:
    while forwarding is ready either its timer is set or a renewal is under way, and not both;
    while forwarding is not ready, or after the stop, no timer is set. *)
Theorem attachment_renewal_history (nowMs : Z) (readiness0 : GatewayForwardingReadinessState) (isOpen : bool)
    (a : AttachmentStore) (es : list event) (s : State) :
  steps (start nowMs readiness0 isOpen a) es s →
  let r := s.(renewal) in
  (length r.(suspended) ≤ 1)%nat ∧ (r.(renewalInFlight) = true ↔ r.(suspended) ≠ []) ∧
  (is_Some r.(scheduledHandle) ↔ r.(stopped) = false ∧ isReady s.(readiness) = true ∧ r.(suspended) = []) ∧
  (length r.(callbacks) ≤ 1)%nat ∧ (r.(callbacks) ≠ [] → r.(stopped) = true ∧ r.(suspended) = []).
Proof.
  intros Hsteps r. destruct (waiting_steps _ _ _ (renewal_start_ok nowMs readiness0 isOpen a) Hsteps)
    as (busy & [Hf Hh Hr Hs Hc] & Hlen). subst r.
  assert (suspended (renewal s) = [] ↔ busy = false) as Hbusy.
  { destruct busy, (suspended (renewal s)); simpl in Hlen; naive_solver. }
  split_and!.
  - destruct busy; lia.
  - rewrite Hf, Hbusy. by destruct busy.
  - rewrite Hbusy. split; [apply Hh|]. intros (? & ? & ?). by apply Hr.
  - destruct Hc as [->|[-> _]]; simpl; lia.
  - intros Hne. destruct Hc as [?|(_ & ? & ?)]; [done|]. split; [done|by apply Hbusy].
Qed.

(** *** The lease is kept while the platform is on time *)

(** What a platform does that is never later than [latency], when nothing fails, forwarding
    stays ready, the socket stays open and nobody else writes: it fires a timer not before it
    is due, and settles a promise after the event that made it. *)
Definition on_time (latency last : Z) (s : State) (e : event) (now : Z) : Prop :=
  (e = Resumes now None ∧ last ≤ now ≤ last + latency) ∨
  (e = TimerFires now None ∧ ∃ due, s.(renewal).(scheduledHandle) = Some due ∧ due ≤ now ≤ due + latency).

(** A run on time, from the time of the last event to the time of its own last event. *)
Inductive timely (latency : Z) : Z → State → list event → Z → State → Prop :=
| timely_nil t s : timely latency t s [] t s
| timely_cons t s e t1 s1 es t2 s2 :
    on_time latency t s e t1 → step s e s1 → timely latency t1 s1 es t2 s2 →
    timely latency t s (e :: es) t2 s2.

(** A renewal between two events, the last one at [last], with the attachment written at [t]. *)
Record renewing (latency t last : Z) (s : State) : Prop := mkRenewing {
  ren_running : s.(renewal).(stopped) = false;
  ren_quiet : s.(renewal).(callbacks) = [];
  ren_ready : isReady s.(readiness) = true;
  ren_open : s.(socket_open) = true;
  ren_own : JsMap.get s.(attachments) sandboxInstanceId = Some (mkAttachmentRecord own (t + ATTACHMENT_TTL_MS));
  ren_phase :
    (s.(renewal).(suspended) = [AwaitRefresh (inr tt)] ∧ s.(renewal).(scheduledHandle) = None ∧ last = t) ∨
    (s.(renewal).(suspended) = [] ∧
     s.(renewal).(scheduledHandle) = Some (last + OWNER_LEASE_RENEW_INTERVAL_MS) ∧ t ≤ last ≤ t + latency) ∨
    (s.(renewal).(suspended) = [AwaitAttachment (inr (Some own))] ∧ s.(renewal).(scheduledHandle) = None ∧
     t ≤ last ≤ t + OWNER_LEASE_RENEW_INTERVAL_MS + 2 * latency);
}.

Lemma step_resumes s at_ nowMs failure s' :
  s.(renewal).(suspended) = [at_] → step s (Resumes nowMs failure) s' →
  let r := s.(renewal) in
  s' = resume at_ nowMs failure
    (with_renewal (mkRenewal r.(stopped) r.(renewalInFlight) r.(scheduledHandle) r.(subscribed) [] r.(callbacks)) s).
Proof.
  intros Hsus Hstep. inversion Hstep as [|at' before after ? ? Hsus' r Hn Hs| | | | |]; subst.
  rewrite Hsus in Hsus'. destruct before as [|? [|]]; simplify_eq/=. done.
Qed.

Lemma resumes_one s at_ nowMs failure :
  s.(renewal).(suspended) = [at_] → ∃ s', step s (Resumes nowMs failure) s'.
Proof. intros Hsus. eexists. by apply (step_resume _ _ _ _ _ _ _ at_ [] []). Qed.

Section OnTime.
Context (latency : Z) (Hlatency : 0 ≤ latency) (Hbound : 3 * latency < 20000).

(** Whatever happens on time happens before the attachment expires. *)
Lemma renewing_live t last s e now :
  renewing latency t last s → on_time latency last s e now → now < t + ATTACHMENT_TTL_MS.
Proof.
  unfold ATTACHMENT_TTL_MS. intros [_ _ _ _ _ Hphase] Hon. unfold OWNER_LEASE_RENEW_INTERVAL_MS in Hphase.
  destruct Hon as [[-> ?]|(-> & due & Hdue & ?)],
    Hphase as [(_ & Hh & ?)|[(_ & Hh & ?)|(_ & Hh & ?)]]; try lia; rewrite Hh in Hdue; simplify_eq; lia.
Qed.

Lemma renewing_step t last s e now s' :
  renewing latency t last s → on_time latency last s e now → step s e s' →
  ∃ t', renewing latency t' now s'.
Proof.
  intros Hren Hon Hstep. pose proof (renewing_live _ _ _ _ _ Hren Hon) as Hlive.
  destruct Hren as [Hrun Hquiet Hready Hopen Hown Hphase].
  destruct Hon as [[-> Hnow]|(-> & due & Hdue & Hnow)].
  - destruct Hphase as [(Hsus & Hh & ->)|[(Hsus & Hh & Hlast)|(Hsus & Hh & Hlast)]].
    + exists t. apply step_resumes with (1 := Hsus) in Hstep. cbv zeta in Hstep.
      rewrite Hrun, Hh, Hquiet in Hstep. cbn in Hstep. unfold scheduleNextRenewal in Hstep. cbn in Hstep.
      rewrite Hready in Hstep. cbn in Hstep. subst s'. split; try done. right; left. cbn. split_and!; lia || done.
    + inversion Hstep as [|? before ? ? ? Hsus'| | | | |]; subst. rewrite Hsus in Hsus'. by destruct before.
    + exists now. apply step_resumes with (1 := Hsus) in Hstep. cbv zeta in Hstep.
      rewrite Hrun, Hh, Hquiet in Hstep. cbn in Hstep.
      rewrite !bool_decide_true in Hstep by done. cbn in Hstep. rewrite Hready in Hstep. cbn in Hstep.
      unfold refreshRuntimeAttachment, ensureForwardingReadyForRuntimeAttachment in Hstep. cbn in Hstep.
      rewrite Hready in Hstep. cbn in Hstep. subst s'. split; try done; cbn; [apply JsMap.get_set_eq|by left].
  - destruct Hphase as [(Hsus & Hh & ->)|[(Hsus & Hh & Hlast)|(Hsus & Hh & Hlast)]]; try congruence.
    exists t. inversion Hstep; subst. unfold renewRuntimeAttachment. cbn. rewrite Hrun, Hready, Hopen. cbn.
    unfold getAttachment. rewrite Hown. cbn. rewrite (proj2 (Z.ltb_lt _ _) Hlive). cbn.
    split; try done. right; right. cbn. rewrite Hsus. simplify_eq.
    unfold OWNER_LEASE_RENEW_INTERVAL_MS in *. split_and!; lia || done.
Qed.

Lemma renewing_timely t last s es last' s' :
  renewing latency t last s → timely latency last s es last' s' → ∃ t', renewing latency t' last' s'.
Proof.
  intros Hren Hrun. revert t Hren. induction Hrun as [last s|last s e t1 s1 es t2 s2 Hon Hstep _ IH];
    intros t Hren; [by exists t|].
  destruct (renewing_step _ _ _ _ _ _ Hren Hon Hstep) as [t' Hren']. by eapply IH.
Qed.

(** There is always something to happen. *)
Lemma renewing_next t last s :
  renewing latency t last s → ∃ e now s', on_time latency last s e now ∧ step s e s'.
Proof.
  intros [_ _ _ _ _ Hphase]. destruct Hphase as [(Hsus & _)|[(_ & Hh & _)|(Hsus & _)]].
  - destruct (resumes_one s _ last None Hsus) as [s' Hs']. exists (Resumes last None), last, s'.
    split; [left; split; [done|lia]|done].
  - eexists _, (last + OWNER_LEASE_RENEW_INTERVAL_MS), _. split; [right|by eapply step_timer].
    split; [done|]. eexists. split; [exact Hh|lia].
  - destruct (resumes_one s _ last None Hsus) as [s' Hs']. exists (Resumes last None), last, s'.
    split; [left; split; [done|lia]|done].
Qed.
End OnTime.

(** C33: A renewal that is started while forwarding is ready keeps the attachment alive, when
    timers fire and promises settle within a latency of less than 6.6 seconds, nothing fails,
    forwarding stays ready, the socket stays open and nobody else writes the attachment: at any
    time of any run the attachment of the session is stored, whatever happens next happens
    before it expires (so that it never lapses in between), something can happen next, and the
    renewal is neither stopped nor has it called a callback.  The time of the timer is the one
    the renewal set. *)
Theorem renewal_keeps_lease (latency writtenAt nowMs now : Z) (readiness0 : GatewayForwardingReadinessState)
    (a : AttachmentStore) (es : list event) (s : State) :
  0 ≤ latency → 3 * latency < 20000 → isReady readiness0 = true →
  JsMap.get a sandboxInstanceId = Some (mkAttachmentRecord own (writtenAt + ATTACHMENT_TTL_MS)) →
  writtenAt ≤ nowMs ≤ writtenAt + latency →
  timely latency nowMs (start nowMs readiness0 true a) es now s →
  (∃ expiresAtMs,
     JsMap.get s.(attachments) sandboxInstanceId = Some (mkAttachmentRecord own expiresAtMs) ∧
     ∀ e next, on_time latency now s e next → next < expiresAtMs) ∧
  (∃ e next s', on_time latency now s e next ∧ step s e s') ∧
  s.(renewal).(stopped) = false ∧ s.(renewal).(callbacks) = [].
Proof.
  intros Hlatency Hbound Hready Hown Hnow Hrun.
  assert (renewing latency writtenAt nowMs (start nowMs readiness0 true a)) as Hstart.
  { unfold startRuntimeAttachmentRenewal, scheduleNextRenewal. cbn. rewrite Hready. cbn.
    split; try done. right; left. cbn. split_and!; lia || done. }
  destruct (renewing_timely latency Hbound _ _ _ _ _ _ Hstart Hrun) as [t Hren].
  split; [|split; [by eapply renewing_next|by destruct Hren]].
  exists (t + ATTACHMENT_TTL_MS). split; [by destruct Hren|].
  intros e next. by apply (renewing_live latency Hbound t now s).
Qed.

(** A renewal that is waiting for its read when the tunnel is detached does not look at [stopped]
    again: the attachment that the detach clears is written again, and nothing renews or clears
    it until it expires. *)
Theorem stopped_renewal_writes (s : State) (expiresAtMs clock nowMs : Z) :
  s.(renewal).(suspended) = [AwaitAttachment (inr (Some own))] → isReady s.(readiness) = true →
  JsMap.get s.(attachments) sandboxInstanceId = Some (mkAttachmentRecord own expiresAtMs) → clock < expiresAtMs →
  ∃ s1 s2, steps s [HandleStopped; OtherClear leaseId clock] s1 ∧
    JsMap.get s1.(attachments) sandboxInstanceId = None ∧
    step s1 (Resumes nowMs None) s2 ∧ s2.(renewal).(stopped) = true ∧
    JsMap.get s2.(attachments) sandboxInstanceId = Some (mkAttachmentRecord own (nowMs + ATTACHMENT_TTL_MS)).
Proof.
  intros Hsus Hready Hown Hclock.
  assert (∃ s0, step s HandleStopped s0 ∧ s0.(renewal).(stopped) = true ∧ s0.(attachments) = s.(attachments) ∧
    s0.(readiness) = s.(readiness) ∧ s0.(renewal).(suspended) = s.(renewal).(suspended))
    as (s0 & Hstep0 & Hst & Ha & Hr & Hsu).
  { eexists. split; [apply step_stop|]. unfold stopRenewal. by destruct (stopped (renewal s)) eqn:?. }
  eexists. assert (∃ s2, step (with_attachments (clearAttachment sandboxInstanceId leaseId clock s0.(attachments)).2 s0)
    (Resumes nowMs None) s2) as [s2 Hstep2] by (eapply resumes_one; cbn; by rewrite Hsu).
  exists s2. split; [eapply steps_cons; [exact Hstep0|]; eapply steps_cons; [apply step_clear|constructor]|].
  split.
  { cbn. rewrite Ha. unfold clearAttachment, getAttachment. rewrite Hown. cbn.
    rewrite (proj2 (Z.ltb_lt _ _) Hclock), bool_decide_true by done. apply JsMap.get_delete_eq. }
  split; [done|]. eapply step_resumes in Hstep2; [|cbn; by rewrite Hsu]. cbn in Hstep2.
  rewrite !bool_decide_true, Hr, Hready in Hstep2 by done. cbn in Hstep2.
  unfold refreshRuntimeAttachment, ensureForwardingReadyForRuntimeAttachment in Hstep2. cbn in Hstep2.
  rewrite Hr, Hready in Hstep2. cbn in Hstep2. subst s2. split; [done|]. apply JsMap.get_set_eq.
Qed.
End RenewalTheory.
End Attachment.

(** ** Witnesses *)

Definition demo_ready : GatewayForwardingReadinessState :=
  apply_mark (MarkReady SelfCheckSucceeded) 5 (GatewayForwardingReadiness_new 0 0).
Definition demo_own : RuntimeAttachment := Attachment.own_attachment "sbi" "lease" "node" "session" 7.
Definition demo_attached : AttachmentStore := upsertAttachment demo_own 30000 7 JsMap.empty.
Definition demo_start : Attachment.State :=
  Attachment.startRuntimeAttachmentRenewal 8 demo_ready true demo_attached.

(** The timer fires. *)
Definition demo_reading : Attachment.State :=
  Attachment.renewRuntimeAttachment "sbi" 10008 None demo_start.

Lemma demo_reading_runs :
  Attachment.steps "subject" "sbi" "lease" "node" "session" 7 demo_start [Attachment.TimerFires 10008 None] demo_reading.
Proof. eapply Attachment.steps_cons; [by apply (Attachment.step_timer _ _ _ _ _ _ _ 10008)|constructor]. Qed.

Lemma attachment_renewal_history_witness :
  demo_reading.(Attachment.renewal).(Attachment.renewalInFlight) = true ∧
  (length demo_reading.(Attachment.renewal).(Attachment.suspended) ≤ 1)%nat.
Proof.
  destruct (Attachment.attachment_renewal_history "subject" "sbi" "lease" "node" "session" 7 8 demo_ready true
    demo_attached _ _ demo_reading_runs) as (Hlen & Hflight & _).
  split; [by apply Hflight|exact Hlen].
Defined.

(** Two rounds: the timer fires, the attachment is read and written, the write returns. *)
Definition demo_round (fires : Z) : list Attachment.event :=
  [Attachment.TimerFires fires None; Attachment.Resumes (fires + 1) None; Attachment.Resumes (fires + 2) None].

Lemma renewal_keeps_lease_witness : ∃ s expiresAtMs,
  Attachment.timely "subject" "sbi" "lease" "node" "session" 7 6000 8 demo_start
    (demo_round 10010 ++ demo_round 20020) 20022 s ∧
  JsMap.get s.(Attachment.attachments) "sbi" = Some (mkAttachmentRecord demo_own expiresAtMs) ∧
  36000 < expiresAtMs.
Proof.
  assert (∃ s, Attachment.timely "subject" "sbi" "lease" "node" "session" 7 6000 8 demo_start
    (demo_round 10010 ++ demo_round 20020) 20022 s ∧
    s.(Attachment.renewal).(Attachment.scheduledHandle) = Some 30022) as (s & Hrun & Hdue).
  { eexists. split.
    - do 2 (eapply Attachment.timely_cons;
        [right; split; [reflexivity|eexists; split; [reflexivity|vm_compute; split; discriminate]]
        |by eapply Attachment.step_timer|];
      do 2 (eapply Attachment.timely_cons;
        [left; split; [reflexivity|vm_compute; split; discriminate]|by eapply (Attachment.step_resume _ _ _ _ _ _ _ _ [] [])|])).
      apply Attachment.timely_nil.
    - reflexivity. }
  destruct (Attachment.renewal_keeps_lease "subject" "sbi" "lease" "node" "session" 7 6000 7 8 20022 demo_ready
    demo_attached (demo_round 10010 ++ demo_round 20020) s) as ((expiresAtMs & Hown & Hlive) & _);
    [lia|lia|reflexivity|reflexivity|lia|exact Hrun|].
  exists s, expiresAtMs. split; [exact Hrun|]. split; [exact Hown|].
  specialize (Hlive (Attachment.TimerFires 36022 None) 36022). enough (36022 < expiresAtMs) by lia.
  apply Hlive. right. split; [reflexivity|]. exists 30022. split; [exact Hdue|lia].
Defined.

Lemma stopped_renewal_writes_witness : ∃ s1 s2,
  Attachment.steps "subject" "sbi" "lease" "node" "session" 7 demo_reading
    [Attachment.HandleStopped; Attachment.OtherClear "lease" 10010] s1 ∧
  JsMap.get s1.(Attachment.attachments) "sbi" = None ∧
  s2.(Attachment.renewal).(Attachment.stopped) = true ∧
  JsMap.get s2.(Attachment.attachments) "sbi" = Some (mkAttachmentRecord demo_own 40012).
Proof.
  destruct (Attachment.stopped_renewal_writes "subject" "sbi" "lease" "node" "session" 7 demo_reading 30007 10010 10012)
    as (s1 & s2 & Hsteps & Hcleared & _ & Hst & Hown); [reflexivity..|].
  by exists s1, s2.
Defined.
