(* ===== verification/PresenceRenewal.v ===== *)
(** * Renewal of a presence lease (startPresenceLeaseRenewal of
      tunnel/session/tunnel-session-service.ts)

    A closure over a few variables that a timer, a renewal under way and the handle's [stop] share.
    An [async] renewal is cut at its [await]s: [suspended] are the renewals that wait for a
    promise, with what it settles to.  A call on the store takes effect when it is made, as with the
    in-memory store, or fails with the error its event carries; other writers of the store are
    events of their own.  The callbacks of a renewal are recorded; they are taken not to throw. *)

From S2P Require Import Prelude JsMap TunnelTypes RuntimeState.
Local Open Scope Z_scope.

Module Presence.
Inductive Suspension : Type :=
| AwaitTouch (result : JsError + unit)
| AwaitTouched.

Inductive Callback : Type := LeaseTouched | TouchFailed (error : JsError).

(** The handle of a timer that has fired is never read, so that [scheduled] is the timer that is
    armed. *)
Record State : Type := mkState {
  stopped : bool;
  scheduled : option Z;
  suspended : list Suspension;
  callbacks : list Callback;
  socket_open : bool;
  leases : PresenceStore;
}.

Definition with_timer (st : bool) (timer : option Z) (s : State) : State :=
  mkState st timer s.(suspended) s.(callbacks) s.(socket_open) s.(leases).
Definition with_suspended (l : list Suspension) (s : State) : State :=
  mkState s.(stopped) s.(scheduled) l s.(callbacks) s.(socket_open) s.(leases).
Definition call_back (c : Callback) (s : State) : State :=
  mkState s.(stopped) s.(scheduled) s.(suspended) (s.(callbacks) ++ [c]) s.(socket_open) s.(leases).

Section Renewal.
Context (sandboxInstanceId leaseId relaySessionId : string).

Definition scheduleNextRenewal (nowMs : Z) (s : State) : State :=
  if s.(stopped) then s else with_timer false (Some (nowMs + PRESENCE_LEASE_RENEW_INTERVAL_MS)) s.

(** [renewPresenceLease] up to its first [await]. *)
Definition renewPresenceLease (nowMs : Z) (failure : option JsError) (s : State) : State :=
  if s.(stopped) then s
  else if negb s.(socket_open) then with_timer true None s
  else
    let (result, leases) := store_call failure
      (λ l, (tt, touchLease sandboxInstanceId leaseId Dashboard relaySessionId PRESENCE_LEASE_TTL_MS nowMs l))
      s.(leases) in
    mkState s.(stopped) s.(scheduled) (s.(suspended) ++ [AwaitTouch result]) s.(callbacks)
      s.(socket_open) leases.

(** The [catch] of a renewal. *)
Definition touch_failed (e : JsError) (s : State) : State :=
  if s.(stopped) then s else call_back (TouchFailed e) (with_timer true None s).

(** The rest of a renewal after an [await]; [failure] is what [onLeaseTouched] rejects with. *)
Definition resume (at_ : Suspension) (nowMs : Z) (failure : option JsError) (s : State) : State :=
  match at_ with
  | AwaitTouch (inl e) => touch_failed e s
  | AwaitTouch (inr _) => with_suspended (s.(suspended) ++ [AwaitTouched]) (call_back LeaseTouched s)
  | AwaitTouched =>
      match failure with
      | Some e => touch_failed e s
      | None => scheduleNextRenewal nowMs s
      end
  end.

(** The [stop] of the handle. *)
Definition stop (s : State) : State := if s.(stopped) then s else with_timer true None s.

(** [startPresenceLeaseRenewal] *)
Definition startPresenceLeaseRenewal (nowMs : Z) (failure : option JsError) (isOpen : bool)
    (leases : PresenceStore) : State :=
  renewPresenceLease nowMs failure (mkState false None [] [] isOpen leases).

Inductive event : Type :=
| TimerFires (nowMs : Z) (failure : option JsError)
| Resumes (nowMs : Z) (failure : option JsError)
| SocketCloses
| HandleStopped
| OtherTouch (id lease : string) (source : SandboxPresenceLeaseSource) (session : string) (ttlMs nowMs : Z)
| OtherRelease (id lease : string) (clock : Z).

Inductive step (s : State) : event → State → Prop :=
| step_timer due nowMs failure : s.(scheduled) = Some due →
    step s (TimerFires nowMs failure) (renewPresenceLease nowMs failure (with_timer s.(stopped) None s))
| step_resume at_ before after nowMs failure : s.(suspended) = before ++ at_ :: after →
    step s (Resumes nowMs failure) (resume at_ nowMs failure (with_suspended (before ++ after) s))
| step_close : step s SocketCloses
    (mkState s.(stopped) s.(scheduled) s.(suspended) s.(callbacks) false s.(leases))
| step_stop : step s HandleStopped (stop s)
| step_touch id lease source session ttlMs nowMs :
    step s (OtherTouch id lease source session ttlMs nowMs)
      (mkState s.(stopped) s.(scheduled) s.(suspended) s.(callbacks) s.(socket_open)
         (touchLease id lease source session ttlMs nowMs s.(leases)))
| step_release id lease clock :
    step s (OtherRelease id lease clock)
      (mkState s.(stopped) s.(scheduled) s.(suspended) s.(callbacks) s.(socket_open)
         (releaseLease id lease clock s.(leases)).2).

Inductive steps (s : State) : list event → State → Prop :=
| steps_nil : steps s [] s
| steps_cons e s1 es s2 : step s e s1 → steps s1 es s2 → steps s (e :: es) s2.
End Renewal.

(** *** Theorems *)

Section RenewalTheory.
Context (sandboxInstanceId leaseId relaySessionId : string).
Notation start := (startPresenceLeaseRenewal sandboxInstanceId leaseId relaySessionId).
Notation step := (step sandboxInstanceId leaseId relaySessionId).
Notation steps := (steps sandboxInstanceId leaseId relaySessionId).
Notation renew := (renewPresenceLease sandboxInstanceId leaseId relaySessionId).

Definition failures (l : list Callback) : nat :=
  length (List.filter (λ c, match c with TouchFailed _ => true | LeaseTouched => false end) l).

(** Either stopped, or waiting for the timer, or touching the lease. *)
Record presence_ok (busy : bool) (s : State) : Prop := mkPresenceOk {
  pok_timer : is_Some s.(scheduled) ↔ s.(stopped) = false ∧ busy = false;
  pok_failures : (failures s.(callbacks) ≤ 1)%nat;
  pok_failed : failures s.(callbacks) = 1%nat → s.(stopped) = true;
}.

Definition touching_ok (s : State) : Prop :=
  ∃ busy, presence_ok busy s ∧ length s.(suspended) = (if busy then 1 else 0)%nat.

Lemma failures_touched l : failures (l ++ [LeaseTouched]) = failures l.
Proof. unfold failures. rewrite List.filter_app, length_app. cbn. lia. Qed.

Lemma failures_failed l e : failures (l ++ [TouchFailed e]) = S (failures l).
Proof. unfold failures. rewrite List.filter_app, length_app. cbn. lia. Qed.

Lemma presence_renew_ok nowMs failure s :
  s.(suspended) = [] → s.(scheduled) = None → (failures s.(callbacks) ≤ 1)%nat →
  (failures s.(callbacks) = 1%nat → s.(stopped) = true) → touching_ok (renew nowMs failure s).
Proof.
  intros Hsus Hnone Hle Hf. unfold renewPresenceLease.
  destruct (stopped s) eqn:Hst; [exists false; rewrite Hsus; split; [|done]; split; rewrite ?Hst, ?Hnone; try done|].
  { split; [by intros []|by intros [? _]]. }
  destruct (socket_open s); cbn [negb].
  - destruct (store_call _ _ _) as [result l]. exists true. cbn -[failures]. rewrite Hsus. split; [|done].
    split; cbn -[failures]; rewrite ?Hst, ?Hnone; try done. split; [by intros []|by intros [_ ?]].
  - exists false. cbn -[failures]. rewrite Hsus. split; [|done]. split; cbn -[failures]; try done. split; [by intros []|by intros [? _]].
Qed.

Lemma presence_resume_ok at_ nowMs failure s :
  presence_ok true s → s.(suspended) = [] → touching_ok (resume at_ nowMs failure s).
Proof.
  intros [Ht Hle Hf] Hsus.
  assert (s.(scheduled) = None) as Hnone.
  { destruct (scheduled s) as [due|]; [|done]. by destruct (proj1 Ht ltac:(by eexists)) as [_ [=]]. }
  assert (∀ e, touching_ok (touch_failed e s)) as Hfailed.
  { intros e. exists false. unfold touch_failed. destruct (stopped s) eqn:Hst.
    - rewrite Hsus. split; [|done]. split; rewrite ?Hst, ?Hnone; try done. split; [by intros []|by intros [? _]].
    - cbn -[failures]. rewrite Hsus. split; [|done]. split; cbn -[failures]; try done; [split; [by intros []|by intros [? _]]|].
      rewrite failures_failed. destruct (failures _) as [|n]; [lia|]. destruct n; [|lia]. by specialize (Hf eq_refl). }
  destruct at_ as [[e|[]]|]; cbn [Presence.resume]; [done| |destruct failure as [e|]; [done|]].
  - exists true. cbn -[failures]. rewrite Hsus. split; [|done]. split; cbn -[failures]; rewrite ?failures_touched; done.
  - exists false. unfold scheduleNextRenewal. destruct (stopped s) eqn:Hst; cbn -[failures]; rewrite Hsus; (split; [|done]).
    + split; rewrite ?Hst, ?Hnone; try done. split; [by intros []|by intros [? _]].
    + split; cbn -[failures]; done.
Qed.

Lemma presence_step s e s' : touching_ok s → step s e s' → touching_ok s'.
Proof.
  intros (busy & Hok & Hlen) Hstep. pose proof Hok as [Ht Hle Hf].
  destruct Hstep as [due nowMs failure Hdue|at_ before after nowMs failure Hsus| | | |].
  - destruct (proj1 Ht ltac:(by eexists)) as [_ ->]. by apply presence_renew_ok; [apply nil_length_inv| | |].
  - rewrite Hsus, length_app in Hlen. cbn in Hlen. destruct busy; [|lia].
    destruct before, after; cbn in Hlen; try lia. by apply presence_resume_ok; [split|].
  - exists busy. split; [by split|done].
  - exists busy. unfold stop. destruct (stopped s) eqn:Hst; [by split|]. split; [|done].
    split; cbn -[failures]; try done. split; [by intros []|by intros [? _]].
  - exists busy. split; [by split|done].
  - exists busy. split; [by split|done].
Qed.

Lemma presence_start_ok nowMs failure isOpen l : touching_ok (start nowMs failure isOpen l).
Proof. apply presence_renew_ok; cbn; try done; lia. Qed.

(** What others do with the leases. *)
Definition of_others (e : event) : Prop :=
  match e with OtherTouch _ _ _ _ _ _ | OtherRelease _ _ _ => True | _ => False end.

(** At every moment at most one touch of the presence lease is under way; a renewal that is not
    stopped has its timer set or is touching, and not both; the touch fails at most once, which
    stops it.  Once stopped it never touches the lease again, so that a lease released after the
    stop stays released. *)
Theorem presence_renewal_history (nowMs : Z) (failure : option JsError) (isOpen : bool) (l : PresenceStore)
    (es : list event) (s : State) :
  steps (start nowMs failure isOpen l) es s →
  (length s.(suspended) ≤ 1)%nat ∧
  (is_Some s.(scheduled) ↔ s.(stopped) = false ∧ s.(suspended) = []) ∧
  (failures s.(callbacks) ≤ 1)%nat ∧ (failures s.(callbacks) = 1%nat → s.(stopped) = true) ∧
  (∀ es' s', s.(stopped) = true → steps s es' s' →
     s'.(stopped) = true ∧ (Forall (λ e, ¬ of_others e) es' → s'.(leases) = s.(leases))).
Proof.
  intros Hsteps. assert (touching_ok s) as (busy & [Ht Hle Hf] & Hlen).
  { pose proof (presence_start_ok nowMs failure isOpen l) as Hok. revert Hok.
    induction Hsteps; intros; eauto using presence_step. }
  assert (suspended s = [] ↔ busy = false) as Hbusy.
  { destruct busy, (suspended s); simpl in Hlen; naive_solver. }
  split_and!; [destruct busy; lia|by rewrite Hbusy|done..|]. clear Hsteps Ht Hle Hf Hlen Hbusy.
  intros es' s' Hst Hsteps. induction Hsteps as [|s e s1 es' s2 Hstep _ IH]; [done|].
  assert (s1.(stopped) = true ∧ (¬ of_others e → s1.(leases) = s.(leases))) as [Hst1 Hl].
  { destruct Hstep as [due n f Hdue|at_ before after n f Hsus| | | |]; try done.
    - unfold renewPresenceLease. cbn. by rewrite Hst.
    - destruct at_ as [[e|[]]|]; cbn [Presence.resume]; [|done|destruct f as [e|]];
        unfold touch_failed, scheduleNextRenewal; cbn; by rewrite Hst.
    - unfold stop. by rewrite Hst. }
  destruct (IH Hst1) as [? Hall]. split; [done|]. intros [He Hes]%Forall_cons. rewrite Hall by done. by apply Hl.
Qed.
End RenewalTheory.
End Presence.

(** ** Witness *)

Lemma presence_renewal_history_witness :
  let s := Presence.startPresenceLeaseRenewal "sbi" "lease" "session" 3 None true JsMap.empty in
  s.(Presence.suspended) = [Presence.AwaitTouch (inr tt)] ∧ (length s.(Presence.suspended) ≤ 1)%nat.
Proof.
  intros s. split; [reflexivity|].
  apply (Presence.presence_renewal_history "sbi" "lease" "session" 3 None true JsMap.empty [] s). constructor.
Defined.
