(* ===== verification/DeadlineQueue.v ===== *)
(** * Serial deadline operations of a sandbox (deadlines/sandbox-deadline-lifecycle-coordinator.ts)

    [enqueue] chains an operation to the last transition of its sandbox, by its promise.  A
    transition is a promise and its place: it waits for the transition that was the last one when
    it was enqueued (if any), runs, and settles; the caller of [enqueue] then forgets it when it is
    still the last one.  [queue_step] is one of these events; when a promise that may run does so
    is up to the scheduler. *)

From S2P Require Import Prelude JsMap.

Inductive TransitionStatus : Type :=
| Waiting (previousTransition : option nat)
| Running
| Settled (rejected : bool).

Record Transition : Type := mkTransition {
  transition_sandboxInstanceId : string;
  transition_status : TransitionStatus;
}.

(** The transitions by the order of their creation, and the map to the last one of a sandbox. *)
Record DeadlineQueue : Type := mkQueue {
  transitions : list Transition;
  transitionsBySandboxInstanceId : JsMap.t string nat;
}.

Definition queue_new : DeadlineQueue := mkQueue [] JsMap.empty.

(** [enqueue] up to its [await]. *)
Definition enqueue (sandboxInstanceId : string) (q : DeadlineQueue) : DeadlineQueue :=
  let previousTransition := JsMap.get q.(transitionsBySandboxInstanceId) sandboxInstanceId in
  mkQueue (q.(transitions) ++ [mkTransition sandboxInstanceId (Waiting previousTransition)])
    (JsMap.set q.(transitionsBySandboxInstanceId) sandboxInstanceId (length q.(transitions))).

(** The [finally] of the [enqueue] that made transition [i]. *)
Definition forget (i : nat) (sandboxInstanceId : string) (q : DeadlineQueue) : DeadlineQueue :=
  if JsMap.get q.(transitionsBySandboxInstanceId) sandboxInstanceId =?= Some i
  then mkQueue q.(transitions) (JsMap.delete q.(transitionsBySandboxInstanceId) sandboxInstanceId)
  else q.

Definition with_status (i : nat) (t : Transition) (status : TransitionStatus) (q : DeadlineQueue) : DeadlineQueue :=
  mkQueue (<[i := mkTransition t.(transition_sandboxInstanceId) status]> q.(transitions))
    q.(transitionsBySandboxInstanceId).

Definition settled (status : TransitionStatus) : bool :=
  match status with Settled _ => true | _ => false end.

(** The promise a waiting transition waits for has settled. *)
Definition may_start (q : DeadlineQueue) (previousTransition : option nat) : Prop :=
  match previousTransition with
  | None => True
  | Some p => ∃ t, q.(transitions) !! p = Some t ∧ settled t.(transition_status) = true
  end.

Inductive queue_step (q : DeadlineQueue) : DeadlineQueue → Prop :=
| queue_step_enqueue id : queue_step q (enqueue id q)
| queue_step_starts i t previous :
    q.(transitions) !! i = Some t → t.(transition_status) = Waiting previous → may_start q previous →
    queue_step q (with_status i t Running q)
| queue_step_settles i t rejected :
    q.(transitions) !! i = Some t → t.(transition_status) = Running →
    queue_step q (with_status i t (Settled rejected) q)
| queue_step_forgets i t :
    q.(transitions) !! i = Some t → settled t.(transition_status) = true →
    queue_step q (forget i t.(transition_sandboxInstanceId) q).

(** ** Theorems *)

(** Transition [i] is one of sandbox [id]. *)
Definition of_sandbox (q : DeadlineQueue) (id : string) (i : nat) (t : Transition) : Prop :=
  q.(transitions) !! i = Some t ∧ t.(transition_sandboxInstanceId) = id.

(** All transitions of [id] before [n] have settled. *)
Definition settled_before (q : DeadlineQueue) (id : string) (n : nat) : Prop :=
  ∀ j t, j < n → of_sandbox q id j t → settled t.(transition_status) = true.

Record queue_ok (q : DeadlineQueue) : Prop := mkQueueOk {
  (** The map holds the last transition of a sandbox, or all of them have settled. *)
  qok_last : ∀ id,
    match JsMap.get q.(transitionsBySandboxInstanceId) id with
    | Some i => (∃ t, of_sandbox q id i t) ∧ ∀ j t, of_sandbox q id j t → j ≤ i
    | None => settled_before q id (length q.(transitions))
    end;
  (** A transition waits for the one before it. *)
  qok_waiting : ∀ id i t previous, of_sandbox q id i t → t.(transition_status) = Waiting previous →
    match previous with
    | Some p => p < i ∧ (∃ t', of_sandbox q id p t') ∧ ∀ j t', of_sandbox q id j t' → j < i → j ≤ p
    | None => settled_before q id i
    end;
  qok_started : ∀ id i t, of_sandbox q id i t →
    (∀ previous, t.(transition_status) ≠ Waiting previous) → settled_before q id i;
}.

Lemma of_sandbox_status i t status q id j t' :
  q.(transitions) !! i = Some t → of_sandbox (with_status i t status q) id j t' →
  (j = i ∧ t' = mkTransition t.(transition_sandboxInstanceId) status ∧ of_sandbox q id i t) ∨
  (j ≠ i ∧ of_sandbox q id j t').
Proof.
  intros Hi [Hj Hid]. simpl in Hj. destruct (decide (j = i)) as [->|Hne].
  - rewrite list_lookup_insert_eq in Hj by (by eapply lookup_lt_Some). injection Hj as <-. left. by split_and!.
  - rewrite list_lookup_insert_ne in Hj by done. right. by split_and!.
Qed.

Lemma of_sandbox_kept i t status q id j t' :
  q.(transitions) !! i = Some t → of_sandbox q id j t' → ∃ t'', of_sandbox (with_status i t status q) id j t''.
Proof.
  intros Hi [Hj Hid]. destruct (decide (j = i)) as [->|Hne].
  - rewrite Hi in Hj. injection Hj as <-. exists (mkTransition t.(transition_sandboxInstanceId) status).
    split; [|exact Hid]. simpl. by rewrite list_lookup_insert_eq by (by eapply lookup_lt_Some).
  - exists t'. split; [|done]. simpl. by rewrite list_lookup_insert_ne.
Qed.

Lemma settled_before_status i t status q id n :
  q.(transitions) !! i = Some t → (settled t.(transition_status) = true → settled status = true) →
  settled_before q id n → settled_before (with_status i t status q) id n.
Proof.
  intros Hi Hstatus Hq j t' Hj [(-> & -> & Ht)|[_ Ht]]%of_sandbox_status; [|by eapply Hq|done].
  simpl. by apply Hstatus, (Hq i).
Qed.

(** A transition starts or settles once all before it have settled. *)
Lemma status_ok i t status q :
  queue_ok q → q.(transitions) !! i = Some t → (∀ previous, status ≠ Waiting previous) →
  (settled t.(transition_status) = true → settled status = true) →
  settled_before q t.(transition_sandboxInstanceId) i → queue_ok (with_status i t status q).
Proof.
  intros Hok Hi Hnot Hstatus Hbefore. pose proof Hok as [Hlast Hwait Hstart]. split.
  - intros id. specialize (Hlast id). cbn [transitionsBySandboxInstanceId with_status].
    destruct (JsMap.get _ id) as [k|].
    + destruct Hlast as [[tk Hk] Hmax]. split; [by eapply of_sandbox_kept|].
      intros j t' [(-> & _ & Ht)|[_ Ht]]%of_sandbox_status; [by eapply Hmax|by eapply Hmax|done].
    + cbn [transitions with_status]. rewrite length_insert. by apply settled_before_status.
  - intros id j t' previous [(-> & -> & _)|[Hne Ht]]%of_sandbox_status Hw; [by destruct (Hnot previous)| |done].
    specialize (Hwait id j t' previous Ht Hw). destruct previous as [p|]; [|by apply settled_before_status].
    destruct Hwait as (Hp & [tp Htp] & Hmax). split; [done|]. split; [by eapply of_sandbox_kept|].
    intros k tk [(-> & _ & Hk)|[_ Hk]]%of_sandbox_status Hlt; [by eapply Hmax|by eapply Hmax|done].
  - intros id j t' [(-> & -> & [_ Hid])|[Hne Ht]]%of_sandbox_status Hs; [| |done].
    + apply settled_before_status; [done..|]. by rewrite <- Hid.
    + apply settled_before_status; [done..|]. by eapply Hstart.
Qed.

Lemma waiting_before q id i t previous :
  queue_ok q → of_sandbox q id i t → t.(transition_status) = Waiting previous → may_start q previous →
  settled_before q id i.
Proof.
  intros [Hlast Hwait Hstart] Hi Hw Hmay. specialize (Hwait id i t previous Hi Hw).
  destruct previous as [p|]; [|done]. destruct Hwait as (Hp & [tp Htp] & Hmax), Hmay as (t0 & Hget & Hset).
  pose proof Htp as [Hget' _]. rewrite Hget in Hget'. injection Hget' as ->.
  intros j t' Hj Ht'. destruct (decide (j = p)) as [->|Hne].
  - destruct Ht' as [Ht' _]. by simplify_eq.
  - pose proof (Hmax j t' Ht' Hj). refine (Hstart id p tp Htp _ j t' _ Ht'); [|lia].
    intros previous Hx. by rewrite Hx in Hset.
Qed.

Lemma of_sandbox_enqueued id q id' j t :
  of_sandbox (enqueue id q) id' j t →
  (j < length q.(transitions) ∧ of_sandbox q id' j t) ∨
  (j = length q.(transitions) ∧ id' = id ∧
   t.(transition_status) = Waiting (JsMap.get q.(transitionsBySandboxInstanceId) id)).
Proof.
  intros [Hj Hid]. cbn in Hj. apply lookup_app_Some in Hj as [Hj|[Hlen Hj]].
  - left. split; [by eapply lookup_lt_Some|done].
  - right. apply list_lookup_singleton_Some in Hj as [Hz <-]. split_and!; [lia|done|done].
Qed.

Lemma of_sandbox_still id q id' j t : of_sandbox q id' j t → of_sandbox (enqueue id q) id' j t.
Proof. intros [Hj Hid]. split; [|done]. cbn. by apply lookup_app_l_Some. Qed.

Lemma settled_before_enqueue id q id' n :
  n ≤ length q.(transitions) → settled_before q id' n → settled_before (enqueue id q) id' n.
Proof. intros Hn Hq j t Hj [[_ Ht]|(-> & _)]%of_sandbox_enqueued; [by eapply Hq|lia]. Qed.

Lemma of_sandbox_lt q id j t : of_sandbox q id j t → j < length q.(transitions).
Proof. intros [Hj _]. by eapply lookup_lt_Some. Qed.

Lemma enqueue_ok id q : queue_ok q → queue_ok (enqueue id q).
Proof.
  intros Hok. pose proof Hok as [Hlast Hwait Hstart]. split.
  - intros id'. cbn [enqueue transitionsBySandboxInstanceId transitions]. rewrite JsMap.get_set.
    destruct (decide (id = id')) as [<-|Hne].
    + split.
      * eexists. split; [cbn; by apply list_lookup_middle|done].
      * intros j t [[? _]|(-> & _)]%of_sandbox_enqueued; lia.
    + specialize (Hlast id'). destruct (JsMap.get _ id') as [k|].
      * destruct Hlast as [[tk Hk] Hmax]. split; [exists tk; by apply of_sandbox_still|].
        intros j t [[_ Ht]|(_ & ? & _)]%of_sandbox_enqueued; [by eapply Hmax|by subst].
      * intros j t _ [[? Ht]|(_ & ? & _)]%of_sandbox_enqueued; [by eapply Hlast|by subst].
  - intros id' j t previous [[Hlt Ht]|(-> & -> & Hst)]%of_sandbox_enqueued Hw.
    + specialize (Hwait id' j t previous Ht Hw). destruct previous as [p|].
      * destruct Hwait as (Hp & [tp Htp] & Hmax). split; [done|]. split; [exists tp; by apply of_sandbox_still|].
        intros k tk [[_ Hk]|(-> & _)]%of_sandbox_enqueued Hkj; [by eapply Hmax|lia].
      * apply settled_before_enqueue; [lia|done].
    + rewrite Hst in Hw. injection Hw as <-. specialize (Hlast id). destruct (JsMap.get _ id) as [p|].
      * destruct Hlast as [[tp Htp] Hmax]. split; [by eapply of_sandbox_lt|].
        split; [exists tp; by apply of_sandbox_still|].
        intros k tk [[_ Hk]|(-> & _)]%of_sandbox_enqueued Hkj; [by eapply Hmax|lia].
      * by apply settled_before_enqueue.
  - intros id' j t [[Hlt Ht]|(-> & -> & Hst)]%of_sandbox_enqueued Hs; [|by destruct (Hs _ Hst)].
    apply settled_before_enqueue; [lia|by eapply Hstart].
Qed.

Lemma forget_ok i t q :
  queue_ok q → q.(transitions) !! i = Some t → settled t.(transition_status) = true →
  queue_ok (forget i t.(transition_sandboxInstanceId) q).
Proof.
  intros Hok Hi Hset. pose proof Hok as [Hlast Hwait Hstart]. unfold forget. case_bool_decide as Hcur; [|done].
  split; [|exact Hwait|exact Hstart]. intros id. cbn [transitionsBySandboxInstanceId transitions].
  rewrite JsMap.get_delete. specialize (Hlast id). destruct (decide (_ = id)) as [<-|]; [|done].
  rewrite Hcur in Hlast. destruct Hlast as [_ Hmax]. intros j t' _ Ht'.
  destruct (decide (j = i)) as [->|Hne]; [destruct Ht' as [Ht' _]; cbn in Ht'; rewrite Hi in Ht'; by injection Ht' as <-|].
  pose proof (Hmax j t' Ht'). refine (Hstart _ i t (conj Hi eq_refl) _ j t' _ Ht'); [|lia].
  intros previous Hx. by rewrite Hx in Hset.
Qed.

Lemma queue_step_ok q q' : queue_ok q → queue_step q q' → queue_ok q'.
Proof.
  intros Hok [id|i t previous Hi Hw Hmay|i t rejected Hi Hr|i t Hi Hset].
  - by apply enqueue_ok.
  - apply status_ok; try done; [by rewrite Hw|]. by eapply waiting_before.
  - apply status_ok; try done. eapply (qok_started q Hok _ i t); [done|]. by rewrite Hr.
  - by apply forget_ok.
Qed.

Lemma queue_reachable_ok q : rtc queue_step queue_new q → queue_ok q.
Proof.
  intros Hr. remember queue_new as q0 eqn:Heq.
  assert (queue_ok q0) as H0.
  { subst q0. split; [intros id j t Hj; cbn in Hj; lia|intros id i t previous [Ht _]|intros id i t [Ht _]];
      cbn in Ht; by rewrite lookup_nil in Ht. }
  clear Heq. induction Hr; eauto using queue_step_ok.
Qed.

(** C32: the deadline operations of a sandbox run one at a time, in the order they were enqueued, and
    none is skipped when one before it fails: whenever one of them runs or has settled, all that
    were enqueued before it for the same sandbox have settled.  Nothing gets stuck: the first one
    that has not settled runs or may start.  A sandbox without an entry in the map has no
    operation left. *)
Theorem deadline_operations_serial (q : DeadlineQueue) (id : string) :
  rtc queue_step queue_new q →
  (∀ i t, of_sandbox q id i t → (∀ previous, t.(transition_status) ≠ Waiting previous) → settled_before q id i) ∧
  (∀ i t, of_sandbox q id i t → settled t.(transition_status) = false → settled_before q id i →
     t.(transition_status) = Running ∨ queue_step q (with_status i t Running q)) ∧
  (JsMap.get q.(transitionsBySandboxInstanceId) id = None →
     settled_before q id (length q.(transitions))).
Proof.
  intros Hok%queue_reachable_ok. pose proof Hok as [Hlast Hwait Hstart]. split; [by apply Hstart|]. split.
  - intros i t Hi Hset Hbefore. destruct (transition_status t) as [previous| |rejected] eqn:Hst; [|by left|done].
    right. eapply queue_step_starts; [apply Hi|exact Hst|].
    specialize (Hwait id i t previous Hi Hst). destruct previous as [p|]; [|done].
    destruct Hwait as (Hp & [tp Htp] & _). exists tp. split; [apply Htp|]. by eapply Hbefore.
  - intros Hnone. specialize (Hlast id). by rewrite Hnone in Hlast.
Qed.

(** ** Witness *)

Definition demo_queue : DeadlineQueue := enqueue "sbi" (enqueue "other" (enqueue "sbi" queue_new)).

Lemma demo_queue_reachable : rtc queue_step queue_new demo_queue.
Proof. do 3 (eapply rtc_l; [apply queue_step_enqueue|]). constructor. Qed.

Lemma deadline_operations_serial_witness :
  queue_step demo_queue (with_status 0 (mkTransition "sbi" (Waiting None)) Running demo_queue) ∧
  ¬ may_start demo_queue (Some 0).
Proof.
  destruct (deadline_operations_serial demo_queue "sbi" demo_queue_reachable) as (_ & Hprogress & _). split.
  - destruct (Hprogress 0 (mkTransition "sbi" (Waiting None))) as [[=]|Hstep]; [done|done| |exact Hstep].
    intros j t Hj. lia.
  - intros (t & [= <-] & [=]).
Defined.
