(* ===== verification/SessionService.v ===== *)
(** * Attaching and detaching the peers of a sandbox (tunnel/session/tunnel-session-service.ts)

    [TunnelSessionService] ties the parts of the gateway together: a websocket that comes or goes
    is a peer of the relay coordinator (RelayCoordinator.v), a session of the tunnel session
    registry (SessionRegistry.v), an attachment and deadlines of the runtime state
    (RuntimeState.v), and a presence lease.

    A method is a function on [SessionGateway].  [attachBootstrapPeer] is the synchronous part of
    the attach, up to the first [await] of its activation; [activate_rest] is the rest of the
    activation.  An operation given to the deadline coordinator runs at once, as it does when the
    queue of the sandbox is empty (DeadlineQueue.v has the queue).  The timers of the peer
    (HealthMonitor.v, AttachmentRenewal.v, PresenceRenewal.v) appear as the calls that start and
    stop them.  Log lines are left out. *)

From S2P Require Import Prelude JsMap TunnelTypes PeerRegistry RelayCoordinator TunnelSession SessionRegistry.
From S2P Require Import TtlTable RuntimeState Forwarding Json HealthMonitor Translator ForwardingReadiness AttachmentRenewal PresenceRenewal MessageHandler Text.
Local Open Scope Z_scope.

(** ** Data *)

Inductive BootstrapTunnelCloseCause : Type :=
| GatewayAttachFatalError | GatewayForwardingNotReady | GatewayHealthMissedPongs
| GatewayMessageHandlerError | GatewayOwnerLeaseLost | GatewayPresenceDeadlineFailed
| GatewayProtocolError | GatewayUnsupportedMessageType | PeerCloseFrame | TransportAbnormalClose
| TransportError.

#[export] Instance close_cause_eq_dec : EqDecision BootstrapTunnelCloseCause.
Proof. solve_decision. Defined.

Record BootstrapTunnelCloseContext : Type := mkCloseContext {
  context_cause : BootstrapTunnelCloseCause;
  context_gatewayInitiated : bool;
  context_initiatedAtMs : option Z;
  context_reason : string;
}.

Record BootstrapTunnelCloseDiagnostics : Type := mkDiagnostics {
  closeCause : BootstrapTunnelCloseCause;
  gatewayInitiatedClose : bool;
  closeInitiatedAtMs : option Z;
  closeCauseReason : string;
  socketAgeMs : Z;
  diagnostics_health : option WebSocketHealthSnapshot;
}.

(** The handles of a peer are the ones that were started for it. *)
Record AttachedTunnelPeer : Type := mkAttachedPeer {
  bootstrapCloseContext : option BootstrapTunnelCloseContext;
  openedAtMs : option Z;
  relayTarget : RelayTarget;
  leaseHeartbeatHandle : bool;
  presenceLeaseRenewalHandle : bool;
  websocketHealthHandle : bool;
}.

Inductive PeerHandle : Type := LeaseHeartbeat | PresenceLeaseRenewal | WebsocketHealth.

(** [isAvailable] of a bootstrap session: [() => false], or the state of its socket and its health
    monitor. *)
Inductive SessionProbe : Type :=
| NeverAvailable
| SocketHealthy (sessionId : string).

Inductive SessionCallback : Type :=
| OnFatalError (closeReason : string) (error : JsError)
| OnLeaseLost (closeReason : string)
| OnTransportUnhealthy (closeReason : string).

(** [Gateway] with the presence store and the variables of the service; what it called is recorded. *)
Record SessionGateway (R P T : Type) : Type := mkSessionGateway {
  tunnel_gateway : Gateway (TunnelSessionRegistry R SessionProbe) P T;
  presence_leases : PresenceStore;
  bootstrapCloseContextsBySessionId : JsMap.t string BootstrapTunnelCloseContext;
  started_handles : list (string * PeerHandle);
  stopped_handles : list (string * PeerHandle);
  session_callbacks : list SessionCallback;
}.
Arguments mkSessionGateway {R P T}.
Arguments tunnel_gateway {R P T}.
Arguments presence_leases {R P T}.
Arguments bootstrapCloseContextsBySessionId {R P T}.
Arguments started_handles {R P T}.
Arguments stopped_handles {R P T}.
Arguments session_callbacks {R P T}.

(** ** The service *)

Section Service.
Context {PortTarget AuthorizeResult R P Socket T : Type} `{TunnelSessionRegistryAdapter R}.
Notation Registry := (TunnelSessionRegistry R SessionProbe).
Context `{GatewayForwardingClientAdapter PortTarget AuthorizeResult Registry}.
Context (gatewayNodeId : string) (resolve_owner : string → M JsError Registry SandboxOwnerResolution).
Context `{LocalPeerRegistryAdapter P} `{RelayPeerResolver P} `{RelayTransportAdapter Socket T}.
Context (respond : DataPlaneCall → option JsError) (idleTimeoutMs bootstrapDisconnectGraceMs : Z).
Context (subject : string).
Notation State := (SessionGateway R P T).
Notation ServiceM := (M JsError State).

Definition on_gateway {A} (op : M JsError (Gateway Registry P T) A) : ServiceM A := λ s,
  let (res, g) := op s.(tunnel_gateway) in
  (res, mkSessionGateway g s.(presence_leases) s.(bootstrapCloseContextsBySessionId) s.(started_handles)
          s.(stopped_handles) s.(session_callbacks)).

Definition on_presence {A} (op : PresenceStore → A * PresenceStore) : ServiceM A := λ s,
  let (a, leases) := op s.(presence_leases) in
  (inr a, mkSessionGateway s.(tunnel_gateway) leases s.(bootstrapCloseContextsBySessionId) s.(started_handles)
            s.(stopped_handles) s.(session_callbacks)).

Definition on_contexts (f : JsMap.t string BootstrapTunnelCloseContext → JsMap.t string BootstrapTunnelCloseContext)
    : ServiceM unit := modify (λ s,
  mkSessionGateway s.(tunnel_gateway) s.(presence_leases) (f s.(bootstrapCloseContextsBySessionId))
    s.(started_handles) s.(stopped_handles) s.(session_callbacks)).

Definition start_handle (peer : RelayTarget) (handle : PeerHandle) : ServiceM unit := modify (λ s,
  mkSessionGateway s.(tunnel_gateway) s.(presence_leases) s.(bootstrapCloseContextsBySessionId)
    (s.(started_handles) ++ [(peer.(target_sessionId), handle)]) s.(stopped_handles) s.(session_callbacks)).

(** [handle?.stop()] *)
Definition stop_handle (peer : RelayTarget) (handle : PeerHandle) (defined : bool) : ServiceM unit := modify (λ s,
  if defined then
    mkSessionGateway s.(tunnel_gateway) s.(presence_leases) s.(bootstrapCloseContextsBySessionId)
      s.(started_handles) (s.(stopped_handles) ++ [(peer.(target_sessionId), handle)]) s.(session_callbacks)
  else s).

Definition call_back (c : SessionCallback) : ServiceM unit := modify (λ s,
  mkSessionGateway s.(tunnel_gateway) s.(presence_leases) s.(bootstrapCloseContextsBySessionId)
    s.(started_handles) s.(stopped_handles) (s.(session_callbacks) ++ [c])).

Definition current_peer_of (target : RelayTarget) : ServiceM bool :=
  gets (λ s, isCurrentPeer s.(tunnel_gateway).(gateway_coordinator) target).

(** The calls on the attachment store: they do not fail in memory. *)
Definition on_attachments {A} (op : AttachmentStore → A * AttachmentStore) : ServiceM A :=
  on_gateway (on_runtime (update (λ g,
    let (a, store) := op g.(rt_attachments) in
    (a, mkGatewayRuntime store g.(rt_keepalives) g.(rt_readiness) g.(rt_calls))))).

(** *** Close contexts *)

(** [this.bootstrapCloseContextsBySessionId.get(sessionId) ?? attachedPeer.bootstrapCloseContext] *)
Definition close_context (s : State) (peer : AttachedTunnelPeer) : option BootstrapTunnelCloseContext :=
  match JsMap.get s.(bootstrapCloseContextsBySessionId) peer.(relayTarget).(target_sessionId) with
  | Some context => Some context
  | None => peer.(bootstrapCloseContext)
  end.

(** The peer it returns is the attached peer, whose context it sets. *)
Definition recordBootstrapCloseContext (peer : AttachedTunnelPeer) (cause : BootstrapTunnelCloseCause)
    (gatewayInitiated : bool) (reason : string) (clock : Z) : ServiceM AttachedTunnelPeer :=
  existing ← gets (λ s, close_context s peer);
  let context := match existing with
                 | Some context => context
                 | None => mkCloseContext cause gatewayInitiated (Some clock) reason
                 end in
  _ ← on_contexts (λ m, JsMap.set m peer.(relayTarget).(target_sessionId) context);
  mret (mkAttachedPeer (Some context) peer.(openedAtMs) peer.(relayTarget) peer.(leaseHeartbeatHandle)
          peer.(presenceLeaseRenewalHandle) peer.(websocketHealthHandle)).

Definition markBootstrapCloseInitiated (peer : AttachedTunnelPeer) (cause : BootstrapTunnelCloseCause)
    (reason : string) (clock : Z) : ServiceM AttachedTunnelPeer :=
  recordBootstrapCloseContext peer cause true reason clock.

(** [closeEvent] is the code and the reason of the close event, where there was one; [health] is the
    snapshot of the peer's monitor. *)
Definition bootstrapCloseDiagnostics (s : State) (peer : AttachedTunnelPeer)
    (health : option WebSocketHealthSnapshot) (closeEvent : option (option Z * option string)) (nowMs : Z)
    : BootstrapTunnelCloseDiagnostics :=
  let closeContext := close_context s peer in
  let hasPeerCloseFrame :=
    match closeContext, closeEvent with
    | None, Some (Some closeCode, _) => negb (closeCode =?= 1005) && negb (closeCode =?= 1006)
    | _, _ => false
    end in
  let peerCloseReason := match closeEvent with Some (_, Some reason) => trim reason | _ => "" end in
  mkDiagnostics
    (match closeContext with
     | Some context => context.(context_cause)
     | None =>
         if hasPeerCloseFrame then PeerCloseFrame
         else match health with
              | Some health => if health.(snapshot_healthy) then TransportAbnormalClose else GatewayHealthMissedPongs
              | None => TransportAbnormalClose
              end
     end)
    (match closeContext with Some context => context.(context_gatewayInitiated) | None => false end)
    (closeContext ≫= context_initiatedAtMs)
    (match closeContext with
     | Some context => context.(context_reason)
     | None => if hasPeerCloseFrame
               then (if peerCloseReason =?= "" then "Bootstrap websocket peer sent close frame." else peerCloseReason)
               else "Bootstrap websocket closed without gateway cause."
     end)
    (match peer.(openedAtMs) with Some openedAtMs => Z.max 0 (nowMs - openedAtMs) | None => 0 end)
    health.

Definition closeCurrentBootstrapPeer (sandboxInstanceId : string) (cause : BootstrapTunnelCloseCause)
    (closeReason : string) (clock : Z) : ServiceM unit :=
  bootstrapPeer ← gets (λ s, coordinator_getBootstrapPeer s.(tunnel_gateway).(gateway_coordinator) sandboxInstanceId);
  match bootstrapPeer with
  | None => throw (PlainError ("Expected current bootstrap peer for sandbox '" +:+ sandboxInstanceId
                               +:+ "' while closing the session."))
  | Some bootstrapPeer =>
      _ ← on_contexts (λ m,
            if JsMap.has m bootstrapPeer.(target_sessionId) then m
            else JsMap.set m bootstrapPeer.(target_sessionId) (mkCloseContext cause true (Some clock) closeReason));
      on_gateway (on_coordinator (closePeer bootstrapPeer 1011 closeReason))
  end.

(** *** Bootstrap peers *)

Record AttachBootstrapInput : Type := mkAttachInput {
  attach_leaseId : string;
  attach_openedAtMs : option Z;
  attach_relaySessionId : string;
  attach_sandboxInstanceId : string;
  attach_socket : Socket;
  attach_testEnvironmentId : option string;
}.

Definition fatal (closeReason : string) (error : JsError) : ServiceM unit :=
  call_back (OnFatalError closeReason error).

(** [healthStart]: what [startWebSocketHealthMonitor] throws, or nothing. *)
Definition start_bootstrap_health (peer : AttachedTunnelPeer) (healthStart : option JsError) (clock : Z)
    : ServiceM AttachedTunnelPeer :=
  match healthStart with
  | None =>
      _ ← start_handle peer.(relayTarget) WebsocketHealth;
      mret (mkAttachedPeer peer.(bootstrapCloseContext) peer.(openedAtMs) peer.(relayTarget)
              peer.(leaseHeartbeatHandle) peer.(presenceLeaseRenewalHandle) true)
  | Some error =>
      peer ← recordBootstrapCloseContext peer GatewayAttachFatalError true
               "Failed to initialize bootstrap websocket health checks." clock;
      _ ← fatal "Failed to initialize bootstrap websocket health checks." error;
      mret peer
  end.

Definition upsert_own_attachment (input : AttachBootstrapInput) (attachedAtMs nowMs : Z) : ServiceM unit :=
  on_attachments (λ a,
    (tt, upsertAttachment (Attachment.own_attachment input.(attach_sandboxInstanceId) input.(attach_leaseId) gatewayNodeId
           input.(attach_relaySessionId) attachedAtMs) ATTACHMENT_TTL_MS nowMs a)).

(** The [catch] of [activateBootstrapAttachment]. *)
Definition activation_failed (peer : AttachedTunnelPeer) (error : JsError) (clock : Z) : ServiceM AttachedTunnelPeer :=
  let notReady := match error with GatewayForwardingNotReadyForRuntimeAttachmentError _ => true | _ => false end in
  let closeReason :=
    if notReady then "Gateway forwarding is not ready for sandbox runtime attachment."
    else "Failed to activate sandbox runtime attachment for attached bootstrap tunnel." in
  peer ← recordBootstrapCloseContext peer
           (if notReady then GatewayForwardingNotReady else GatewayAttachFatalError) true closeReason clock;
  _ ← fatal closeReason error;
  mret peer.

(** [activateBootstrapAttachment] up to its first [await]; the result says whether it goes on. *)
Definition activate_start (peer : AttachedTunnelPeer) (input : AttachBootstrapInput)
    (readiness : GatewayForwardingReadinessState) (isOpen : bool) (attachedAtMs clock : Z)
    : ServiceM (AttachedTunnelPeer * bool) :=
  current ← current_peer_of peer.(relayTarget);
  if negb isOpen || negb current then mret (peer, false)
  else
    match ensureForwardingReadyForRuntimeAttachment subject readiness with
    | inl error => peer ← activation_failed peer error clock; mret (peer, false)
    | inr _ => _ ← upsert_own_attachment input attachedAtMs clock; mret (peer, true)
    end.

(** The rest of it; a failure of the deadline service is only logged. *)
Definition activate_rest (peer : AttachedTunnelPeer) (input : AttachBootstrapInput) (clock : Z)
    : ServiceM AttachedTunnelPeer :=
  _ ← try_catch
        (current ← current_peer_of peer.(relayTarget);
         if negb current then mret tt
         else on_gateway (on_runtime (handleBootstrapAttach respond idleTimeoutMs
                input.(attach_sandboxInstanceId) input.(attach_leaseId) input.(attach_testEnvironmentId) clock)))
        (λ _, mret tt);
  _ ← start_handle peer.(relayTarget) LeaseHeartbeat;
  mret (mkAttachedPeer peer.(bootstrapCloseContext) peer.(openedAtMs) peer.(relayTarget) true
          peer.(presenceLeaseRenewalHandle) peer.(websocketHealthHandle)).

(** The rejected [void notifyConnectionPeerOfReleasedInteractiveStreams(...)]. *)
Definition notify_released (peer : AttachedTunnelPeer) (id : string) (released : list ClientStreamBinding) (clock : Z)
    : ServiceM AttachedTunnelPeer :=
  try_catch
    (_ ← on_gateway (notifyConnectionPeerOfReleasedInteractiveStreams None id released); mret peer)
    (λ error,
      peer ← recordBootstrapCloseContext peer GatewayAttachFatalError true
               "Failed notifying connection peer about released interactive streams." clock;
      _ ← fatal "Failed notifying connection peer about released interactive streams." error;
      mret peer).

(** The clock is read when the peer is attached; the later readings are the same here, as no time
    passes within the method. *)
Definition attachBootstrapPeer (input : AttachBootstrapInput) (readiness : GatewayForwardingReadinessState)
    (isOpen : bool) (healthStart : option JsError) (clock : Z) : ServiceM (AttachedTunnelPeer * bool) :=
  let id := input.(attach_sandboxInstanceId) in
  target ← on_gateway (on_coordinator
             (attachPeer id SideBootstrap input.(attach_socket) input.(attach_relaySessionId)));
  attachResult ← on_gateway (on_world (attachBootstrapSession target));
  let peer := mkAttachedPeer None (Some (default clock input.(attach_openedAtMs))) target false false false in
  peer ← start_bootstrap_health peer healthStart clock;
  '(peer, activating) ← activate_start peer input readiness isOpen clock clock;
  peer ← notify_released peer id attachResult.(attach_releasedBindings) clock;
  _ ← on_gateway (on_world
        (setBootstrapSessionAvailability id target.(target_sessionId) (SocketHealthy target.(target_sessionId))));
  mret (peer, activating).

(** The callbacks of the health monitor of a bootstrap peer. *)
Definition bootstrap_missed_pong (target : RelayTarget) (id leaseId : string) (env : option string) : ServiceM unit :=
  try_catch
    (current ← current_peer_of target;
     if negb current then mret tt else on_gateway (on_runtime (handleBootstrapDegraded respond id leaseId env)))
    (λ _, mret tt).
Definition bootstrap_recovered (target : RelayTarget) (id leaseId : string) (env : option string) : ServiceM unit :=
  try_catch
    (current ← current_peer_of target;
     if negb current then mret tt else on_gateway (on_runtime (handleBootstrapRecovered respond id leaseId env)))
    (λ _, mret tt).
Definition bootstrap_unhealthy (peer : AttachedTunnelPeer) (clock : Z) : ServiceM AttachedTunnelPeer :=
  peer ← recordBootstrapCloseContext peer GatewayHealthMissedPongs true
           "Sandbox bootstrap websocket stopped responding to ping." clock;
  _ ← call_back (OnTransportUnhealthy "Sandbox bootstrap websocket stopped responding to ping.");
  mret peer.

(** The callbacks of the renewal of its attachment. *)
Definition bootstrap_lease_lost (peer : AttachedTunnelPeer) (clock : Z) : ServiceM AttachedTunnelPeer :=
  peer ← recordBootstrapCloseContext peer GatewayOwnerLeaseLost true "Sandbox active attachment was replaced." clock;
  _ ← call_back (OnLeaseLost "Sandbox active attachment was replaced.");
  mret peer.
Definition bootstrap_refresh_failed (peer : AttachedTunnelPeer) (error : JsError) (clock : Z)
    : ServiceM AttachedTunnelPeer :=
  peer ← recordBootstrapCloseContext peer GatewayAttachFatalError true
           "Failed to refresh sandbox runtime attachment." clock;
  _ ← fatal "Failed to refresh sandbox runtime attachment." error;
  mret peer.

(** What [detachBootstrapPeer] gives to the deadline coordinator. *)
Definition record_disconnect (target : RelayTarget) (id leaseId : string) (env : option string) (clock : Z)
    : ServiceM unit :=
  current ← current_peer_of target;
  if negb current then mret tt
  else
    _ ← on_attachments (getAttachment id clock);
    _ ← on_attachments (clearAttachment id leaseId clock);
    _ ← on_gateway (on_runtime
          (handleBootstrapDisconnect respond bootstrapDisconnectGraceMs id leaseId env clock));
    _ ← on_attachments (getAttachment id clock);
    mret tt.

(** A failure to tell the clients is only logged. *)
Definition notify_disconnected (id : string) (released : list ClientStreamBinding) : ServiceM unit :=
  if (length released =? 0)%nat then mret tt
  else try_catch (on_gateway (notifyConnectionPeerOfBootstrapDisconnect id released)) (λ _, mret tt).

(** The detach of a peer that is current. *)
Definition detach_current (target : RelayTarget) (leaseId id : string) (env : option string) (clock : Z)
    : ServiceM unit :=
  _ ← record_disconnect target id leaseId env clock;
  detached ← on_gateway (on_world (detachBootstrapSession target));
  _ ← on_gateway (on_coordinator (detachPeerWithOptions target false));
  _ ← match detached with
      | Some detached => notify_disconnected id detached.(detach_releasedBindings)
      | None => mret tt
      end;
  on_contexts (λ m, JsMap.delete m target.(target_sessionId)).

Definition detachBootstrapPeer (peer : AttachedTunnelPeer) (leaseId id : string) (env : option string) (clock : Z)
    : ServiceM unit :=
  let target := peer.(relayTarget) in
  let session := target.(target_sessionId) in
  _ ← stop_handle target LeaseHeartbeat peer.(leaseHeartbeatHandle);
  _ ← stop_handle target WebsocketHealth peer.(websocketHealthHandle);
  _ ← on_gateway (on_world (setBootstrapSessionAvailability id session NeverAvailable));
  current ← current_peer_of target;
  if negb current then
    _ ← on_gateway (on_coordinator (detachPeerWithOptions target false));
    _ ← on_gateway (on_world (clearBootstrapSessionAvailability id session));
    on_contexts (λ m, JsMap.delete m session)
  else
    detach_current target leaseId id env clock.

(** *** Connection peers *)

Definition attachConnectionPeer (id relaySessionId : string) (socket : Socket) (isOpen : bool)
    (healthStart : option JsError) (clock : Z) : ServiceM AttachedTunnelPeer :=
  target ← on_gateway (on_coordinator (attachPeer id SideConnection socket relaySessionId));
  health ← match healthStart with
           | None => _ ← start_handle target WebsocketHealth; mret true
           | Some error => _ ← fatal "Failed to initialize connection websocket health checks." error; mret false
           end;
  _ ← (if isOpen then on_presence (λ l, (tt, touchLease id relaySessionId Dashboard relaySessionId
                                               PRESENCE_LEASE_TTL_MS clock l))
       else mret tt);
  _ ← start_handle target PresenceLeaseRenewal;
  mret (mkAttachedPeer None None target false true health).

Definition connection_unhealthy (peer : AttachedTunnelPeer) : ServiceM unit :=
  _ ← stop_handle peer.(relayTarget) PresenceLeaseRenewal peer.(presenceLeaseRenewalHandle);
  call_back (OnTransportUnhealthy "Sandbox connection websocket stopped responding to ping.").

(** [onLeaseTouched]: the deadline of the sandbox is moved while a bootstrap tunnel is attached. *)
Definition connection_lease_touched (id : string) (env : option string) (nowMs clock : Z) : ServiceM unit :=
  try_catch
    (activeSession ← on_attachments (getAttachment id nowMs);
     match activeSession with
     | None => mret tt
     | Some activeSession =>
         on_gateway (on_runtime (touchIdleDeadline respond idleTimeoutMs id
           activeSession.(attachment_ownerLeaseId) env clock))
     end)
    (λ _, mret tt).

(** [onTouchFailed]; [void ....catch(...)] *)
Definition connection_touch_failed (id : string) (clock : Z) : ServiceM unit :=
  try_catch
    (closeCurrentBootstrapPeer id GatewayPresenceDeadlineFailed "Failed to persist sandbox presence lease." clock)
    (λ _, mret tt).

Definition detachConnectionPeer (peer : AttachedTunnelPeer) (id : string) (clock : Z) : ServiceM unit :=
  let target := peer.(relayTarget) in
  _ ← stop_handle target PresenceLeaseRenewal peer.(presenceLeaseRenewalHandle);
  _ ← stop_handle target WebsocketHealth peer.(websocketHealthHandle);
  _ ← on_presence (releaseLease id target.(target_sessionId) clock);
  _ ← try_catch
        (result ← on_gateway (on_world (router_releaseClientSessionStreams gatewayNodeId resolve_owner
                    (mkReleaseInput id target.(target_sessionId))));
         on_gateway (notifyBootstrapPeerOfReleasedInteractiveStreams id
           (target_sessionId <$> result.(release_bootstrapTarget)) result.(release_releasedBindings)))
        (λ _, mret tt);
  on_gateway (on_coordinator (detachPeer target)).
End Service.

(** ** Theorems *)

(** Reading the attachment, clearing it and reading it again. *)
Lemma getAttachment_other id clock id' (a : AttachmentStore) :
  id' ≠ id → JsMap.get (getAttachment id clock a).2 id' = JsMap.get a id'.
Proof.
  intros Hne. unfold getAttachment. destruct (JsMap.get a id) as [rec|]; [|done].
  destruct (_ <? _); [done|]. by apply JsMap.get_delete_ne.
Qed.

Lemma getAttachment_again id clock (a : AttachmentStore) :
  getAttachment id clock (getAttachment id clock a).2 = getAttachment id clock a.
Proof.
  unfold getAttachment. destruct (JsMap.get a id) as [rec|] eqn:Hget; cbn; [|by rewrite Hget].
  destruct (clock <? _) eqn:Hlt; cbn; [by rewrite Hget, Hlt|]. by rewrite JsMap.get_delete_eq.
Qed.

Lemma clear_attachment_then id leaseId clock (a : AttachmentStore) :
  let a1 := (getAttachment id clock a).2 in
  let a2 := (clearAttachment id leaseId clock a1).2 in
  let a3 := (getAttachment id clock a2).2 in
  (∀ id', id' ≠ id → JsMap.get a3 id' = JsMap.get a id') ∧
  (getAttachment id clock a3).1 =
    match (getAttachment id clock a).1 with
    | Some att => if att.(attachment_ownerLeaseId) =?= leaseId then None else Some att
    | None => None
    end.
Proof.
  intros a1 a2 a3. assert (∀ id', id' ≠ id → JsMap.get a2 id' = JsMap.get a id') as Hother.
  { intros id' Hne. unfold a2, clearAttachment. unfold a1. rewrite getAttachment_again.
    pose proof (getAttachment_other id clock id' a Hne) as Hget.
    destruct (getAttachment id clock a) as [[att|] b]; cbn in Hget |- *; [|done].
    destruct (negb _); cbn; [done|]. by rewrite JsMap.get_delete_ne. }
  split.
  - intros id' Hne. unfold a3. rewrite getAttachment_other by done. by apply Hother.
  - unfold a3. rewrite getAttachment_again. unfold a2, clearAttachment, a1. rewrite getAttachment_again.
    pose proof (getAttachment_again id clock a) as Hagain.
    destruct (getAttachment id clock a) as [[att|] b] eqn:Hget; cbn in Hagain |- *; [|by rewrite Hagain].
    destruct (decide (att.(attachment_ownerLeaseId) = leaseId)) as [Heq|Hne].
    + rewrite !bool_decide_true by done. cbn. unfold getAttachment. by rewrite JsMap.get_delete_eq.
    + rewrite !bool_decide_false by done. cbn. by rewrite Hagain.
Qed.

Section ServiceTheory.
Context {PortTarget AuthorizeResult R P Socket T : Type} `{HR : TunnelSessionRegistryLaws R}.
Notation Registry := (TunnelSessionRegistry R SessionProbe).
Context `{HC : GatewayForwardingClientAdapter PortTarget AuthorizeResult Registry}.
Context (gatewayNodeId : string) (resolve_owner : string → M JsError Registry SandboxOwnerResolution).
Context `{HP : LocalPeerRegistryLaws P} `{HV : RelayPeerResolver P} `{HT : !RelayTransportAdapter Socket T}.
Context (respond : DataPlaneCall → option JsError) (idleTimeoutMs bootstrapDisconnectGraceMs : Z).
Context (subject : string).
Notation State := (SessionGateway R P T).
Implicit Types s : State.

(** The parts of the state. *)
Definition coordinator_of s := s.(tunnel_gateway).(gateway_coordinator).
Definition runtime_of s := s.(tunnel_gateway).(gateway_runtime).
Definition sessions_of s : string → option SandboxTunnelSession := view s.(tunnel_gateway).(gateway_world).

(** A peer that is not current is detached without any effect on the others. *)
Lemma detach_stale_peer c t :
  peers_ok c.(peerRegistry) → valid_target t → isCurrentPeer c t = false →
  detachPeerWithOptions (Socket := Socket) t false c =
    (inr tt, mkCoordinator c.(coordinator_nodeId) c.(peerRegistry) (unregisterLocalPeer t c.(relayTransport))).
Proof.
  intros Hp Ht Hcur. rewrite isCurrentPeer_current in Hcur.
  destruct (detachPeer_run (Socket := Socket) c t false Hp Ht) as (p' & Hrun & Hrem).
  pose proof (current_peer_remove t c.(peerRegistry) Hp Ht) as Hlaw. rewrite Hrem in Hlaw.
  destruct Hlaw as (_ & _ & Hfalse & _). rewrite Hrun, Hcur, Hfalse by done. done.
Qed.

(** The close of a bootstrap tunnel that has been replaced is harmless: it stops the timers of its
    own peer, forgets its own socket, its probe and its close context, and that is all.  The
    peers that are current stay so, no envelope is sent, the sessions and their streams stay as they
    are, and neither the attachment nor the deadlines of the sandbox are touched. *)
Theorem stale_detach_harmless s (peer : AttachedTunnelPeer) (leaseId id : string) (env : option string) (clock : Z) :
  let target := peer.(relayTarget) in
  peers_ok (coordinator_of s).(peerRegistry) → valid_target target →
  isCurrentPeer (coordinator_of s) target = false →
  ∃ s', detachBootstrapPeer (Socket := Socket) respond bootstrapDisconnectGraceMs peer leaseId id env clock s = (inr tt, s') ∧
    runtime_of s' = runtime_of s ∧ s'.(presence_leases) = s.(presence_leases) ∧
    (∀ id', sessions_of s' id' = sessions_of s id') ∧
    (∀ t, isCurrentPeer (coordinator_of s') t = isCurrentPeer (coordinator_of s) t) ∧
    (coordinator_of s').(relayTransport) = unregisterLocalPeer target (coordinator_of s).(relayTransport) ∧
    (∀ probe t, createBootstrapAvailabilityKey t.(target_sandboxInstanceId) t.(target_sessionId) ≠
                createBootstrapAvailabilityKey id target.(target_sessionId) →
       isBootstrapSessionAvailable probe s'.(tunnel_gateway).(gateway_world) t =
       isBootstrapSessionAvailable probe s.(tunnel_gateway).(gateway_world) t).
Proof.
  intros target Hp Ht Hcur. destruct s as [[w c r sent] leases contexts started stopped callbacks].
  unfold coordinator_of in *. cbn in Hp, Hcur.
  unfold detachBootstrapPeer, current_peer_of, stop_handle, on_gateway, on_world, on_coordinator, on_contexts,
    modify, gets, mbind, M_bind, setBootstrapSessionAvailability, clearBootstrapSessionAvailability.
  destruct (leaseHeartbeatHandle peer), (websocketHealthHandle peer); cbn -[detachPeerWithOptions JsMap.delete JsMap.set];
    fold target; rewrite Hcur; cbn -[detachPeerWithOptions JsMap.delete JsMap.set];
    rewrite detach_stale_peer by done; cbn -[JsMap.delete JsMap.set];
    (eexists; split; [reflexivity|]; cbn -[JsMap.delete JsMap.set]; split_and!; try done;
     unfold isBootstrapSessionAvailable; cbn -[JsMap.delete JsMap.set];
     intros probe t Hne; by rewrite JsMap.get_delete_ne, JsMap.get_set_ne by done).
Qed.

(** The frames the clients of released streams get. *)
Definition released_frames (p : P) (id : string) (toPayload : ClientStreamBinding → string)
    (released : list ClientStreamBinding) : list RelayEnvelope :=
  omap (λ binding,
    (λ peer, RelayFrameEnvelope peer (TextPayload (toPayload binding))) <$>
      resolveConnectionPeer p id binding.(clientSessionId)) released.

Lemma forward_to_connection id payload session c :
  (forwardPeerMessage (Socket := Socket) id SideBootstrap payload (Some session) c).2 =
  mkCoordinator c.(coordinator_nodeId) c.(peerRegistry)
    (deliver_all (option_list ((λ peer, RelayFrameEnvelope peer payload) <$>
       resolveConnectionPeer c.(peerRegistry) id session)) c.(relayTransport)).
Proof.
  unfold forwardPeerMessage, gets, mbind, M_bind. rewrite bool_decide_false by done.
  destruct (resolveConnectionPeer _ id session) as [peer|]; [|by destruct c].
  unfold on_transport, toFrameEnvelope. cbn. by destruct (deliverEnvelope _ _).
Qed.

Lemma notify_run toPayload id released (g : Gateway Registry P T) :
  (notifyConnectionPeerOfReleasedInteractiveStreams (Socket := Socket) toPayload id released g).2 =
  mkGateway g.(gateway_world)
    (mkCoordinator g.(gateway_coordinator).(coordinator_nodeId) g.(gateway_coordinator).(peerRegistry)
       (deliver_all (released_frames g.(gateway_coordinator).(peerRegistry) id
          (default createReleasedInteractiveStreamResetPayload toPayload) released)
          g.(gateway_coordinator).(relayTransport)))
    g.(gateway_runtime) g.(gateway_sent).
Proof.
  unfold notifyConnectionPeerOfReleasedInteractiveStreams. set (payload := default _ toPayload). clearbody payload.
  revert g. induction released as [|b released IH]; intros g; [by destruct g as [w [n p t] r sent]|].
  rewrite promise_all_run. cbn [foldl]. unfold on_coordinator at 2.
  pose proof (forward_to_connection id (TextPayload (payload b)) b.(clientSessionId) g.(gateway_coordinator)) as Hf.
  destruct (forwardPeerMessage _ _ _ _ _) as [res c]. cbn [snd] in Hf |- *. subst c.
  rewrite <- promise_all_run, IH. cbn. do 2 f_equal. unfold released_frames. cbn [omap list_omap].
  by destruct (resolveConnectionPeer _ id b.(clientSessionId)).
Qed.

(** What the deadline operation of a detach does. *)
Lemma record_disconnect_run s target id leaseId env clock :
  isCurrentPeer (coordinator_of s) target = true →
  (∀ call, call ∈ [DeleteSandboxInstanceDeadline id IdleDeadline leaseId env; ApplyBootstrapDetached id leaseId env;
     PutSandboxInstanceDeadline id DisconnectDeadline leaseId (clock + bootstrapDisconnectGraceMs) env] →
     respond call = None) →
  ∃ attachments', record_disconnect respond bootstrapDisconnectGraceMs target id leaseId env clock s =
    (inr tt, mkSessionGateway
      (mkGateway s.(tunnel_gateway).(gateway_world) (coordinator_of s)
        (mkGatewayRuntime attachments' (runtime_of s).(rt_keepalives) (runtime_of s).(rt_readiness)
          ((runtime_of s).(rt_calls) ++
             [DeleteSandboxInstanceDeadline id IdleDeadline leaseId env; ApplyBootstrapDetached id leaseId env;
              PutSandboxInstanceDeadline id DisconnectDeadline leaseId (clock + bootstrapDisconnectGraceMs) env]))
        s.(tunnel_gateway).(gateway_sent))
      s.(presence_leases) s.(bootstrapCloseContextsBySessionId) s.(started_handles) s.(stopped_handles)
      s.(session_callbacks)) ∧
    (∀ id', id' ≠ id → JsMap.get attachments' id' = JsMap.get (runtime_of s).(rt_attachments) id') ∧
    (getAttachment id clock attachments').1 =
      match (getAttachment id clock (runtime_of s).(rt_attachments)).1 with
      | Some a => if a.(attachment_ownerLeaseId) =?= leaseId then None else Some a
      | None => None
      end.
Proof.
  intros Hcur Hrespond. destruct s as [[w c r sent] leases contexts started stopped callbacks].
  unfold coordinator_of, runtime_of in *. cbn in Hcur.
  pose proof (clear_attachment_then id leaseId clock r.(rt_attachments)) as Hclear.
  unfold record_disconnect, current_peer_of, on_attachments, on_gateway, on_runtime, handleBootstrapDisconnect,
    clearIdleDeadline, data_plane, update, gets, mbind, M_bind.
  cbn -[getAttachment clearAttachment]. rewrite Hcur. cbn -[getAttachment clearAttachment].
  destruct (getAttachment id clock (rt_attachments r)) as [prev a1] eqn:Hprev. cbn -[getAttachment clearAttachment].
  destruct (clearAttachment id leaseId clock a1) as [cleared a2] eqn:Hcleared. cbn -[getAttachment clearAttachment].
  rewrite !Hrespond by (clear resolve_owner; set_solver). cbn -[getAttachment clearAttachment].
  destruct (getAttachment id clock a2) as [next a3] eqn:Hnext. cbn -[getAttachment clearAttachment].
  exists a3. cbn [fst snd] in Hclear. destruct Hclear as [Hother Hown].
  rewrite Hcleared in Hother, Hown. cbn [snd] in Hother, Hown. rewrite Hnext in Hother, Hown.
  split; [by rewrite <- !app_assoc|]. by split.
Qed.

(** Detaching a current peer without telling the opposite side. *)
Lemma detach_current_peer c t :
  peers_ok c.(peerRegistry) → valid_target t → isCurrentPeer c t = true →
  ∃ p', detachPeerWithOptions (Socket := Socket) t false c =
      (inr tt, mkCoordinator c.(coordinator_nodeId) p' (unregisterLocalPeer t c.(relayTransport))) ∧
    peers_ok p' ∧
    ∀ (transport : T) u, valid_target u →
      isCurrentPeer (mkCoordinator c.(coordinator_nodeId) p' transport) u =
      isCurrentPeer c u && negb (bool_decide (slot t = slot u)).
Proof.
  intros Hp Ht Hcur. rewrite isCurrentPeer_current in Hcur.
  destruct (detachPeer_run (Socket := Socket) c t false Hp Ht) as (p' & Hrun & Hrem).
  pose proof (current_peer_remove t c.(peerRegistry) Hp Ht) as Hlaw. rewrite Hrem, Hcur in Hlaw.
  destruct Hlaw as (Hp' & _ & _ & Htrue). exists p'. rewrite Hrun, Hcur.
  split; [done|]. split; [done|]. intros transport u Hu. rewrite !isCurrentPeer_current. cbn [peerRegistry].
  rewrite Htrue by done. destruct (decide (slot t = slot u)) as [Hs|Hs].
  - by rewrite (bool_decide_true (slot t = slot u)), andb_false_r.
  - by rewrite (bool_decide_false (slot t = slot u)), andb_true_r.
Qed.

Lemma detach_session (w : Registry) t ss :
  view w t.(target_sandboxInstanceId) = Some ss → ss.(bootstrapTarget) = t →
  ∃ w', detachBootstrapSession t w =
      (inr (Some (mkDetachResult t (JsMap.values ss.(bindingsByTunnelStreamId)))), w') ∧
    ∀ id, view w' id = update_at (view w) t.(target_sandboxInstanceId) None id.
Proof.
  intros Hview Ht. pose proof (law_detach t w.(registry_adapter)) as Hlaw. unfold view in Hview.
  unfold detachBootstrapSession, on_adapter, clearBootstrapSessionAvailability, modify, mbind, M_bind.
  destruct (adapter_detachBootstrapSession t _) as [res a]. rewrite Hview, decide_True in Hlaw by done.
  destruct Hlaw as (_ & -> & Hviews).
  eexists. split; [reflexivity|]. done.
Qed.

Lemma notify_disconnected_run id released s :
  let g := s.(tunnel_gateway) in
  notify_disconnected (Socket := Socket) id released s =
  (inr tt, mkSessionGateway
    (mkGateway g.(gateway_world)
      (mkCoordinator g.(gateway_coordinator).(coordinator_nodeId) g.(gateway_coordinator).(peerRegistry)
         (deliver_all (released_frames g.(gateway_coordinator).(peerRegistry) id
            createBootstrapDisconnectedStreamResetPayload released) g.(gateway_coordinator).(relayTransport)))
      g.(gateway_runtime) g.(gateway_sent))
    s.(presence_leases) s.(bootstrapCloseContextsBySessionId) s.(started_handles) s.(stopped_handles)
    s.(session_callbacks)).
Proof.
  intros g. unfold notify_disconnected. destruct released as [|b released].
  { subst g. by destruct s as [[w [n p t] r sent] leases contexts started stopped callbacks]. }
  cbn [length Nat.eqb]. unfold try_catch, on_gateway.
  pose proof (notify_run (Some createBootstrapDisconnectedStreamResetPayload) id (b :: released) g) as Hrun.
  unfold notifyConnectionPeerOfBootstrapDisconnect. fold g.
  destruct (notifyConnectionPeerOfReleasedInteractiveStreams _ _ _ g) as [[e|[]] g']; cbn [snd] in Hrun; by subst g'.
Qed.

(** C16: the close of the current bootstrap tunnel of a sandbox, when the data plane answers: the
    sandbox loses its session, its peer and the attachment of this lease; the data plane is told, in
    this order, to drop the idle deadline, that the tunnel is gone, and to stop the sandbox after
    the grace period; every client with a stream on the tunnel gets one reset for each of its
    streams; the other sandboxes and peers are as before. *)
Theorem current_detach s (peer : AttachedTunnelPeer) (ss : SandboxTunnelSession) (leaseId id : string)
    (env : option string) (clock : Z) :
  let target := peer.(relayTarget) in
  let calls := [DeleteSandboxInstanceDeadline id IdleDeadline leaseId env; ApplyBootstrapDetached id leaseId env;
     PutSandboxInstanceDeadline id DisconnectDeadline leaseId (clock + bootstrapDisconnectGraceMs) env] in
  peers_ok (coordinator_of s).(peerRegistry) → valid_target target → target.(target_sandboxInstanceId) = id →
  isCurrentPeer (coordinator_of s) target = true →
  sessions_of s id = Some ss → ss.(bootstrapTarget) = target →
  (∀ call, call ∈ calls → respond call = None) →
  ∃ s', detachBootstrapPeer (Socket := Socket) respond bootstrapDisconnectGraceMs peer leaseId id env clock s = (inr tt, s') ∧
    (∀ id', sessions_of s' id' = update_at (sessions_of s) id None id') ∧
    (∀ u, valid_target u → isCurrentPeer (coordinator_of s') u =
       isCurrentPeer (coordinator_of s) u && negb (bool_decide (slot target = slot u))) ∧
    (runtime_of s').(rt_calls) = (runtime_of s).(rt_calls) ++ calls ∧
    (getAttachment id clock (runtime_of s').(rt_attachments)).1 =
      match (getAttachment id clock (runtime_of s).(rt_attachments)).1 with
      | Some a => if a.(attachment_ownerLeaseId) =?= leaseId then None else Some a
      | None => None
      end ∧
    (coordinator_of s').(relayTransport) =
      deliver_all (released_frames (coordinator_of s').(peerRegistry) id
                     createBootstrapDisconnectedStreamResetPayload (JsMap.values ss.(bindingsByTunnelStreamId)))
        (unregisterLocalPeer target (coordinator_of s).(relayTransport)).
Proof.
  intros target calls Hp Ht Hid Hcur Hview Hboot Hrespond.
  destruct s as [[w c r sent] leases contexts started stopped callbacks].
  unfold coordinator_of, runtime_of, sessions_of in *. cbn in Hp, Hcur, Hview |- *.
  destruct (detach_current_peer c target Hp Ht Hcur) as (p' & Hdetach & _ & Hcurrents).
  set (w1 := mkRegistry w.(registry_adapter) (JsMap.set w.(bootstrapAvailabilityByKey)
    (createBootstrapAvailabilityKey id target.(target_sessionId)) NeverAvailable)).
  destruct (detach_session w1 target ss ltac:(by rewrite Hid) Hboot) as (w2 & Hsession & Hviews).
  assert (∃ stops, detachBootstrapPeer (Socket := Socket) respond bootstrapDisconnectGraceMs peer leaseId id env clock
    (mkSessionGateway (mkGateway w c r sent) leases contexts started stopped callbacks) =
    detach_current (Socket := Socket) respond bootstrapDisconnectGraceMs target leaseId id env clock
      (mkSessionGateway (mkGateway w1 c r sent) leases contexts started stops callbacks)) as [stops ->].
  { unfold detachBootstrapPeer, current_peer_of, stop_handle, on_gateway, on_world, modify, gets, mbind, M_bind,
      setBootstrapSessionAvailability.
    destruct (leaseHeartbeatHandle peer), (websocketHealthHandle peer);
      cbn -[detach_current detachPeerWithOptions JsMap.set]; fold target; rewrite Hcur;
      cbn -[detach_current JsMap.set]; by eexists. }
  unfold detach_current. unfold mbind at 1, M_bind at 1.
  destruct (record_disconnect_run (mkSessionGateway (mkGateway w1 c r sent) leases contexts started stops callbacks)
    target id leaseId env clock Hcur Hrespond) as (attachments' & -> & _ & Hatt).
  cbn [tunnel_gateway gateway_world gateway_runtime gateway_sent presence_leases started_handles stopped_handles
    session_callbacks bootstrapCloseContextsBySessionId] in *. unfold coordinator_of, runtime_of in *. cbn in Hatt |- *.
  unfold on_gateway, on_world, on_coordinator. unfold mbind at 1, M_bind at 1.
  cbn -[detachBootstrapSession detachPeerWithOptions notify_disconnected]. rewrite Hsession.
  cbn -[detachPeerWithOptions notify_disconnected]. unfold mbind at 1, M_bind at 1.
  cbn -[detachPeerWithOptions notify_disconnected]. rewrite Hdetach. cbn -[notify_disconnected].
  unfold mbind, M_bind. rewrite notify_disconnected_run. cbn.
  eexists. split; [reflexivity|]. cbn. split_and!; try done.
  - intros id'. rewrite Hviews, Hid. done.
  - intros u Hu. by apply Hcurrents.
Qed.

(** *** Attaching a tunnel *)

Lemma attach_session (w : Registry) (t : RelayTarget) :
  ∃ w', attachBootstrapSession t w =
      (inr (mkAttachResult (bootstrapTarget <$> view w t.(target_sandboxInstanceId))
              (match view w t.(target_sandboxInstanceId) with
               | Some ss => JsMap.values ss.(bindingsByTunnelStreamId)
               | None => []
               end)), w') ∧
    ∀ id, view w' id = update_at (view w) t.(target_sandboxInstanceId)
                         (Some (new_session t (registry_limit w.(registry_adapter)))) id.
Proof.
  destruct (law_attach t w.(registry_adapter)) as (a & Hrun & Hview & _).
  unfold attachBootstrapSession, on_adapter, clearBootstrapSessionAvailability, modify, mbind, M_bind. cbn.
  rewrite Hrun. by eexists.
Qed.

(** What telling the clients of the released streams leaves, whether or not it fails. *)
Lemma notify_released_run s (peer : AttachedTunnelPeer) id released clock :
  let g := s.(tunnel_gateway) in
  ∃ peer' s', notify_released (Socket := Socket) peer id released clock s = (inr peer', s') ∧
    peer'.(relayTarget) = peer.(relayTarget) ∧ peer'.(websocketHealthHandle) = peer.(websocketHealthHandle) ∧
    s'.(tunnel_gateway) =
      mkGateway g.(gateway_world)
        (mkCoordinator g.(gateway_coordinator).(coordinator_nodeId) g.(gateway_coordinator).(peerRegistry)
           (deliver_all (released_frames g.(gateway_coordinator).(peerRegistry) id
              createReleasedInteractiveStreamResetPayload released) g.(gateway_coordinator).(relayTransport)))
        g.(gateway_runtime) g.(gateway_sent) ∧
    s'.(presence_leases) = s.(presence_leases) ∧ s'.(started_handles) = s.(started_handles).
Proof.
  intros g. unfold notify_released, try_catch, on_gateway. unfold mbind at 1, M_bind at 1.
  pose proof (notify_run None id released g) as Hrun. fold g.
  destruct (notifyConnectionPeerOfReleasedInteractiveStreams _ _ _ g) as [[e|[]] g']; cbn [snd] in Hrun; subst g'.
  - unfold recordBootstrapCloseContext, fatal, call_back, on_contexts, modify, gets, mbind, M_bind. cbn -[deliver_all].
    eexists _, _. split; [reflexivity|]. done.
  - eexists _, _. split; [reflexivity|]. done.
Qed.

(** The attach up to the clients of the old session, when forwarding is ready. *)
Lemma attach_until_notified (g : Gateway Registry P T) leases contexts started stopped callbacks
    (input : AttachBootstrapInput) readiness clock target c1 w1 replaced released :
  let id := input.(attach_sandboxInstanceId) in
  let peer0 := mkAttachedPeer None (Some (default clock input.(attach_openedAtMs))) target false false true in
  let runtime1 := mkGatewayRuntime
    (upsertAttachment (Attachment.own_attachment id input.(attach_leaseId) gatewayNodeId
       input.(attach_relaySessionId) clock) ATTACHMENT_TTL_MS clock g.(gateway_runtime).(rt_attachments))
    g.(gateway_runtime).(rt_keepalives) g.(gateway_runtime).(rt_readiness) g.(gateway_runtime).(rt_calls) in
  attachPeer id SideBootstrap input.(attach_socket) input.(attach_relaySessionId) g.(gateway_coordinator) = (inr target, c1) →
  attachBootstrapSession target g.(gateway_world) = (inr (mkAttachResult replaced released), w1) →
  isCurrentPeer c1 target = true → isReady readiness = true →
  attachBootstrapPeer gatewayNodeId subject input readiness true None clock
    (mkSessionGateway g leases contexts started stopped callbacks) =
  (peer ← notify_released peer0 id released clock;
   _ ← on_gateway (on_world (setBootstrapSessionAvailability id target.(target_sessionId)
         (SocketHealthy target.(target_sessionId))));
   mret (peer, true))
    (mkSessionGateway (mkGateway w1 c1 runtime1 g.(gateway_sent)) leases contexts
       (started ++ [(target.(target_sessionId), WebsocketHealth)]) stopped callbacks).
Proof.
  intros id peer0 runtime1 Hattach Hsession Hnow Hready. destruct g as [w c r sent]. cbn in Hattach, Hsession, runtime1.
  fold id in Hattach.
  set (clean := mkSessionGateway (mkGateway w c r sent) leases contexts started stopped callbacks).
  assert (on_gateway (on_coordinator (attachPeer id SideBootstrap input.(attach_socket) input.(attach_relaySessionId)))
    clean = (inr target, mkSessionGateway (mkGateway w c1 r sent) leases contexts started stopped callbacks)) as Hfirst.
  { unfold on_gateway, on_coordinator. cbn -[attachPeer]. by rewrite Hattach. }
  assert (on_gateway (on_world (attachBootstrapSession target))
    (mkSessionGateway (mkGateway w c1 r sent) leases contexts started stopped callbacks) =
    (inr (mkAttachResult replaced released),
     mkSessionGateway (mkGateway w1 c1 r sent) leases contexts started stopped callbacks)) as Hsecond.
  { unfold on_gateway, on_world. cbn -[attachBootstrapSession]. by rewrite Hsession. }
  unfold attachBootstrapPeer. fold id. rewrite (M_bind_run _ _ _ _ _ Hfirst), (M_bind_run _ _ _ _ _ Hsecond).
  erewrite (M_bind_run (start_bootstrap_health _ _ _)) by reflexivity.
  set (active := mkSessionGateway (mkGateway w1 c1 runtime1 sent) leases contexts
    (started ++ [(target.(target_sessionId), WebsocketHealth)]) stopped callbacks).
  erewrite (M_bind_run (activate_start _ _ _ _ _ _ _ _) _ _ (peer0, true) active); [reflexivity|].
  unfold activate_start, current_peer_of, gets. unfold mbind at 1, M_bind at 1. cbn -[upsert_own_attachment mbind].
  rewrite Hnow. unfold ensureForwardingReadyForRuntimeAttachment. rewrite Hready. reflexivity.
Qed.

(** C17: a bootstrap tunnel attaches while its socket is open and forwarding is ready: it is the current
    peer of the sandbox and the one it replaces is closed; the sandbox gets a session without
    streams, and the clients of the streams of the old session get one reset for each; the
    attachment is the one of the new lease; and the activation goes on. *)
Theorem bootstrap_attach s (input : AttachBootstrapInput) (readiness : GatewayForwardingReadinessState)
    (clock : Z) (t1 : T) :
  let id := input.(attach_sandboxInstanceId) in
  let target := attached_target (coordinator_of s) id SideBootstrap input.(attach_relaySessionId) in
  let old := current_peer (coordinator_of s).(peerRegistry) target in
  let released := match sessions_of s id with
                  | Some ss => JsMap.values ss.(bindingsByTunnelStreamId)
                  | None => []
                  end in
  peers_ok (coordinator_of s).(peerRegistry) → valid_sandbox_id id →
  registerLocalPeer target input.(attach_socket) (coordinator_of s).(relayTransport) = (inr tt, t1) →
  isReady readiness = true →
  ∃ peer s',
    attachBootstrapPeer gatewayNodeId subject input readiness true None clock s = (inr (peer, true), s') ∧
    peer.(relayTarget) = target ∧ peer.(websocketHealthHandle) = true ∧
    (∀ u, valid_target u → isCurrentPeer (coordinator_of s') u =
       if decide (slot target = slot u) then bool_decide (u = target) else isCurrentPeer (coordinator_of s) u) ∧
    (∃ limit, ∀ id', sessions_of s' id' = update_at (sessions_of s) id (Some (new_session target limit)) id') ∧
    (coordinator_of s').(relayTransport) =
      deliver_all
        (map (λ old, RelayCloseEnvelope old 1012 "Replaced by newer sandbox tunnel connection.") (option_list old)
         ++ released_frames (coordinator_of s').(peerRegistry) id createReleasedInteractiveStreamResetPayload released)
        t1 ∧
    (getAttachment id clock (runtime_of s').(rt_attachments)).1 =
      Some (Attachment.own_attachment id input.(attach_leaseId) gatewayNodeId input.(attach_relaySessionId) clock) ∧
    (∀ run_probe, isBootstrapSessionAvailable run_probe s'.(tunnel_gateway).(gateway_world) target =
       run_probe (SocketHealthy input.(attach_relaySessionId))).
Proof.
  intros id target old released Hp Hid Hreg Hready.
  destruct s as [[w c r sent] leases contexts started stopped callbacks].
  unfold coordinator_of, runtime_of, sessions_of in *. cbn in Hp, Hreg, old, released |- *. fold id in Hreg.
  destruct (attachPeer_spec c id SideBootstrap input.(attach_socket) input.(attach_relaySessionId) t1 Hp Hid Hreg)
    as (c1 & Hattach & _ & _ & Htransport & Hcur).
  destruct (attach_session w target) as (w1 & Hsession & Hviews).
  change (target_sandboxInstanceId target) with id in Hsession, Hviews. fold released in Hsession.
  assert (isCurrentPeer c1 target = true) as Hnow.
  { rewrite Hcur by exact Hid. fold target. by rewrite decide_True, bool_decide_true. }
  rewrite (attach_until_notified (mkGateway w c r sent) _ _ _ _ _ _ _ _ _ _ _ _ _ Hattach Hsession Hnow Hready).
  set (active := mkSessionGateway _ _ _ _ _ _). set (peer0 := mkAttachedPeer _ _ _ _ _ _).
  destruct (notify_released_run active peer0 id released clock) as (peer & s2 & Hnotify & Htarget & Hhealth & Hg & _).
  rewrite (M_bind_run _ _ _ _ _ Hnotify).
  destruct s2 as [g2 leases2 contexts2 started2 stopped2 callbacks2]. cbn -[deliver_all] in Hg. subst g2.
  eexists peer, _. split; [reflexivity|]. split; [exact Htarget|]. split; [exact Hhealth|].
  cbn -[deliver_all JsMap.set getAttachment]. split_and!.
  - exact Hcur.
  - by eexists.
  - rewrite Htransport. unfold deliver_all. rewrite foldl_app. f_equal.
    unfold attached_target, current_peer. cbn [target_side target_sandboxInstanceId].
    by destruct (getBootstrapPeer (peerRegistry c) id).
  - unfold getAttachment, upsertAttachment. rewrite JsMap.get_set_eq. simpl.
    destruct (Z.ltb_spec clock (clock + ATTACHMENT_TTL_MS)) as [|Hle]; [done|unfold ATTACHMENT_TTL_MS in Hle; lia].
  - intros run_probe. unfold isBootstrapSessionAvailable. cbn -[JsMap.set]. by rewrite JsMap.get_set_eq.
Qed.

(** *** Connections *)

(** The closing frames the bootstrap peer gets. *)
Definition closing_frames (p : P) (id : string) (session : option string) (released : list ClientStreamBinding)
    : list RelayEnvelope :=
  omap (λ binding,
    (λ peer, RelayFrameEnvelope peer (TextPayload (createStreamClosePayload binding))) <$>
      resolveBootstrapPeer p id session) released.

Lemma closing_frames_current p id session released target :
  resolveBootstrapPeer p id session = Some target →
  closing_frames p id session released =
  map (λ b, RelayFrameEnvelope target (TextPayload (createStreamClosePayload b))) released.
Proof.
  intros Htarget. unfold closing_frames. rewrite Htarget.
  induction released as [|b l IH]; [done|]. cbn [map]. by rewrite <- IH.
Qed.

Lemma forward_to_bootstrap id payload session c :
  (forwardPeerMessage (Socket := Socket) id SideConnection payload session c).2 =
  mkCoordinator c.(coordinator_nodeId) c.(peerRegistry)
    (deliver_all (option_list ((λ peer, RelayFrameEnvelope peer payload) <$>
       resolveBootstrapPeer c.(peerRegistry) id session)) c.(relayTransport)).
Proof.
  unfold forwardPeerMessage, gets, mbind, M_bind. rewrite bool_decide_true by done.
  destruct (resolveBootstrapPeer _ id session) as [peer|]; [|by destruct c].
  unfold on_transport, toFrameEnvelope. cbn. by destruct (deliverEnvelope _ _).
Qed.

Lemma notify_bootstrap_run id session released (g : Gateway Registry P T) :
  (notifyBootstrapPeerOfReleasedInteractiveStreams (Socket := Socket) id session released g).2 =
  mkGateway g.(gateway_world)
    (mkCoordinator g.(gateway_coordinator).(coordinator_nodeId) g.(gateway_coordinator).(peerRegistry)
       (deliver_all (closing_frames g.(gateway_coordinator).(peerRegistry) id session released)
          g.(gateway_coordinator).(relayTransport)))
    g.(gateway_runtime) g.(gateway_sent).
Proof.
  unfold notifyBootstrapPeerOfReleasedInteractiveStreams. revert g.
  induction released as [|b released IH]; intros g; [by destruct g as [w [n p t] r sent]|].
  rewrite promise_all_run. cbn [foldl]. unfold on_coordinator at 2.
  pose proof (forward_to_bootstrap id (TextPayload (createStreamClosePayload b)) session g.(gateway_coordinator)) as Hf.
  destruct (forwardPeerMessage _ _ _ _ _) as [res c]. cbn [snd] in Hf |- *. subst c.
  rewrite <- promise_all_run, IH. cbn. do 2 f_equal. unfold closing_frames. cbn [omap list_omap].
  by destruct (resolveBootstrapPeer _ id session).
Qed.

(** What the streams of the connection are released with. *)
Definition released_by (id session : string) (w : Registry) : (JsError + ReleaseClientSessionStreamsResult) * Registry :=
  router_releaseClientSessionStreams gatewayNodeId resolve_owner (mkReleaseInput id session) w.

(** The part of a connection's detach that tells the bootstrap tunnel: its errors are swallowed. *)
Lemma release_and_notify s id session :
  let g := s.(tunnel_gateway) in
  try_catch
    (result ← on_gateway (on_world (router_releaseClientSessionStreams gatewayNodeId resolve_owner
                (mkReleaseInput id session)));
     on_gateway (notifyBootstrapPeerOfReleasedInteractiveStreams (Socket := Socket) id
       (target_sessionId <$> result.(release_bootstrapTarget)) result.(release_releasedBindings)))
    (λ _, mret tt) s =
  (inr tt, mkSessionGateway
    (mkGateway (released_by id session g.(gateway_world)).2
      (mkCoordinator g.(gateway_coordinator).(coordinator_nodeId) g.(gateway_coordinator).(peerRegistry)
         (deliver_all
            (match (released_by id session g.(gateway_world)).1 with
             | inr result => closing_frames g.(gateway_coordinator).(peerRegistry) id
                 (target_sessionId <$> result.(release_bootstrapTarget)) result.(release_releasedBindings)
             | inl _ => []
             end) g.(gateway_coordinator).(relayTransport)))
      g.(gateway_runtime) g.(gateway_sent))
    s.(presence_leases) s.(bootstrapCloseContextsBySessionId) s.(started_handles) s.(stopped_handles)
    s.(session_callbacks)).
Proof.
  intros g. subst g. unfold released_by. destruct s as [[w c r sent] leases contexts started stopped callbacks].
  unfold try_catch, on_gateway, on_world, mbind, M_bind.
  cbn -[router_releaseClientSessionStreams notifyBootstrapPeerOfReleasedInteractiveStreams].
  destruct (router_releaseClientSessionStreams _ _ _ w) as [[e|result] w1].
  { cbn. by destruct c. }
  cbn -[notifyBootstrapPeerOfReleasedInteractiveStreams].
  pose proof (notify_bootstrap_run id (target_sessionId <$> result.(release_bootstrapTarget))
    result.(release_releasedBindings) (mkGateway w1 c r sent)) as Hrun.
  destruct (notifyBootstrapPeerOfReleasedInteractiveStreams _ _ _ _) as [[e|[]] g']; cbn [snd] in Hrun; by subst g'.
Qed.

(** A connection is always detached: its timers are stopped, its presence lease is released, its streams
    are released where the router gets at them, the tunnel is told to close each of them, and the
    peer is gone; nobody else is told. *)
Lemma connection_detach_run s (peer : AttachedTunnelPeer) id clock :
  let target := peer.(relayTarget) in
  let g := s.(tunnel_gateway) in
  let released := released_by id target.(target_sessionId) g.(gateway_world) in
  peers_ok (coordinator_of s).(peerRegistry) → valid_target target → target.(target_side) = SideConnection →
  ∃ s', detachConnectionPeer (Socket := Socket) gatewayNodeId resolve_owner peer id clock s = (inr tt, s') ∧
    s'.(presence_leases) = (releaseLease id target.(target_sessionId) clock s.(presence_leases)).2 ∧
    s'.(tunnel_gateway).(gateway_world) = released.2 ∧ runtime_of s' = runtime_of s ∧
    (∀ u, valid_target u → isCurrentPeer (coordinator_of s') u =
       isCurrentPeer (coordinator_of s) u && negb (bool_decide (u = target))) ∧
    (coordinator_of s').(relayTransport) = unregisterLocalPeer target
      (deliver_all (match released.1 with
                    | inr result => closing_frames (coordinator_of s).(peerRegistry) id
                        (target_sessionId <$> result.(release_bootstrapTarget)) result.(release_releasedBindings)
                    | inl _ => []
                    end) (coordinator_of s).(relayTransport)).
Proof.
  intros target g released Hp Ht Hside. unfold coordinator_of, runtime_of in *. fold g in Hp |- *.
  set (session := target.(target_sessionId)) in *.
  assert (∃ stops, detachConnectionPeer (Socket := Socket) gatewayNodeId resolve_owner peer id clock s =
    (_ ← try_catch
        (result ← on_gateway (on_world (router_releaseClientSessionStreams gatewayNodeId resolve_owner
                    (mkReleaseInput id session)));
         on_gateway (notifyBootstrapPeerOfReleasedInteractiveStreams (Socket := Socket) id
           (target_sessionId <$> result.(release_bootstrapTarget)) result.(release_releasedBindings)))
        (λ _, mret tt);
     on_gateway (on_coordinator (detachPeer (Socket := Socket) target)))
      (mkSessionGateway g (releaseLease id session clock s.(presence_leases)).2
         s.(bootstrapCloseContextsBySessionId) s.(started_handles) stops s.(session_callbacks))) as [stops ->].
  { destruct s as [g0 leases contexts started stopped callbacks]. unfold g.
    unfold detachConnectionPeer, stop_handle, on_presence, modify, mbind at 1 2 3, M_bind at 1 2 3.
    cbn -[releaseLease try_catch]. fold target session.
    destruct (presenceLeaseRenewalHandle peer), (websocketHealthHandle peer); cbn -[releaseLease try_catch];
      destruct (releaseLease id session clock leases) as [b leases']; by eexists. }
  unfold mbind at 1, M_bind at 1. rewrite release_and_notify. cbn [tunnel_gateway presence_leases
    bootstrapCloseContextsBySessionId started_handles stopped_handles session_callbacks].
  set (c1 := mkCoordinator _ _ _).
  destruct (detachPeer_spec (Socket := Socket) c1 target Hp Ht) as (c2 & notified & Hdetach & _ & _ & Htransport & _ & Hnotified & Hcur).
  unfold on_gateway, on_coordinator. cbn [gateway_coordinator tunnel_gateway]. rewrite Hdetach.
  eexists. split; [reflexivity|]. cbn. split_and!; try done.
  rewrite Htransport. assert (notified = []) as ->; [|done].
  destruct notified as [|u l]; [done|]. destruct (proj1 (Hnotified u) ltac:(left)) as (_ & _ & Hopp).
  unfold opposite in Hopp. rewrite Hside in Hopp. by destruct Hopp.
Qed.
End ServiceTheory.

(** *** Connections of a sandbox this node owns *)

Section OwnerTheory.
Context {PortTarget AuthorizeResult R P Socket T : Type} `{HR : TunnelSessionRegistryLaws R}.
Notation Registry := (TunnelSessionRegistry R SessionProbe).
Context (run_probe : SessionProbe → bool) (gatewayNodeId : string).
Context (authorizeHandler :
  option (GatewayForwardingTarget → string → PortTarget → M JsError Registry AuthorizeResult)).
Context (openPortHandler :
  option (GatewayForwardingTarget → OpenPortAccessStreamInput → M JsError Registry OpenPortAccessStreamResult)).
Context (releasePortHandler : GatewayForwardingTarget → ReleasePortAccessStreamInput → M JsError Registry unit).
Context (resolve_owner : string → M JsError Registry SandboxOwnerResolution).
Context `{HP : LocalPeerRegistryLaws P} `{HV : RelayPeerResolver P} `{HT : !RelayTransportAdapter Socket T}.
Implicit Types s : SessionGateway R P T.

#[local] Instance the_client : GatewayForwardingClientAdapter PortTarget AuthorizeResult Registry :=
  local_client run_probe gatewayNodeId authorizeHandler openPortHandler releasePortHandler.

(** A connection of a sandbox whose tunnel this node owns goes away: exactly its streams leave the
    session of the sandbox, and no other stream; the tunnel gets one [stream.close] for each of
    them and nothing else; its presence lease, and no other, is gone, and so is the peer. *)
Theorem connection_detach s (peer : AttachedTunnelPeer) (ss : SandboxTunnelSession) (id : string)
    (t clock : Z) (leases : string → string → option InMemoryPresenceLeaseRecord) :
  let target := peer.(relayTarget) in
  let session := target.(target_sessionId) in
  peers_ok (coordinator_of s).(peerRegistry) → valid_target target → target.(target_side) = SideConnection →
  owned_here gatewayNodeId resolve_owner s.(tunnel_gateway).(gateway_world) id ss → session_ok ss →
  resolveBootstrapPeer (coordinator_of s).(peerRegistry) id (Some ss.(bootstrapTarget).(target_sessionId)) =
    Some ss.(bootstrapTarget) →
  t ≤ clock → tracks presence_expiresAtMs t s.(presence_leases) leases →
  ∃ s' ss' released,
    detachConnectionPeer (Socket := Socket) gatewayNodeId resolve_owner peer id clock s = (inr tt, s') ∧
    (∀ b, b ∈ released ↔ getBindingByTunnelStreamId ss b.(tunnelStreamId) = Some b ∧ b.(clientSessionId) = session) ∧
    (∀ id', sessions_of s' id' = update_at (sessions_of s) id (Some ss') id') ∧
    (∀ stream, getBindingByTunnelStreamId ss' stream =
       match getBindingByTunnelStreamId ss stream with
       | Some b => if b.(clientSessionId) =?= session then None else Some b
       | None => None
       end) ∧
    (coordinator_of s').(relayTransport) = unregisterLocalPeer target
      (deliver_all (map (λ b, RelayFrameEnvelope ss.(bootstrapTarget) (TextPayload (createStreamClosePayload b))) released)
         (coordinator_of s).(relayTransport)) ∧
    tracks presence_expiresAtMs clock s'.(presence_leases) (put2 leases id session None) ∧
    (∀ u, valid_target u → isCurrentPeer (coordinator_of s') u =
       isCurrentPeer (coordinator_of s) u && negb (bool_decide (u = target))) ∧
    runtime_of s' = runtime_of s.
Proof.
  intros target session Hp Ht Hside Howned Hok Hboot Hclock Hleases.
  destruct (owned_release run_probe gatewayNodeId authorizeHandler openPortHandler releasePortHandler
    gatewayNodeId resolve_owner s.(tunnel_gateway).(gateway_world) id ss session Howned)
    as (released & w' & Hrel & Hrouter & Hview).
  change (local_client run_probe gatewayNodeId authorizeHandler openPortHandler releasePortHandler) with the_client
    in Hrouter.
  destruct (connection_detach_run gatewayNodeId resolve_owner s peer id clock Hp Ht Hside)
    as (s' & Hrun & Hlease & Hworld & Hruntime & Hcur & Htransport).
  unfold released_by in Hworld, Htransport. fold target session in Hworld, Htransport, Hlease.
  rewrite Hrouter in Hworld, Htransport. cbn -[closing_frames deliver_all] in Hworld, Htransport.
  pose proof (proj2 (release_spec ss Hok) session) as Hspec.
  destruct (releaseClientSessionBindings session ss) as [r ss'] eqn:Hss.
  destruct Hspec as (released' & -> & Hin & Hget & _). cbn in Hrel. injection Hrel as <-.
  exists s', ss', released'. split; [exact Hrun|]. split; [exact Hin|].
  split. { intros id'. unfold sessions_of. by rewrite Hworld, Hview. }
  split; [exact Hget|]. split.
  - rewrite Htransport. by rewrite (closing_frames_current _ _ _ _ _ Hboot).
  - split; [|done]. rewrite Hlease.
    pose proof (proj1 (proj2 (presence_spec t clock _ _ Hclock Hleases)) id session) as Hpres.
    by destruct (releaseLease id session clock _) as [b leases'], Hpres.
Qed.
End OwnerTheory.

(** ** Witnesses *)

#[local] Instance demo_relay : RelayTransportAdapter nat MemoryTransport := memory_transport (λ _, true).

Definition service_world : TunnelSessionRegistry MemoryRegistry SessionProbe :=
  registry_run demo_ops (mkRegistry (mkMemoryRegistry JsMap.empty (Some 8)) JsMap.empty).
Definition service_owner (id : string)
    : M JsError (TunnelSessionRegistry MemoryRegistry SessionProbe) SandboxOwnerResolution :=
  mret (OwnerLocal (mkOwner id "node_a" "session_1" "lease_1" 0)).
Definition service_client : GatewayForwardingClientAdapter unit unit (TunnelSessionRegistry MemoryRegistry SessionProbe) :=
  local_client (λ _, true) "node_a" None None (λ _ _, mret tt).
Definition demo_lease : RuntimeAttachment := Attachment.own_attachment "sbi_1" "lease_1" "node_a" "session_1" 0.

(** Tunnels of two sandboxes, and two connections of the first, both with a stream. *)
Definition demo_service : SessionGateway MemoryRegistry MemoryPeers MemoryTransport :=
  mkSessionGateway
    (mkGateway service_world (relay_run (λ _, true) demo_attaches (createInMemoryTunnelRelayCoordinator "node_a"))
      (mkGatewayRuntime (upsertAttachment demo_lease 100 0 JsMap.empty)
         (mkKeepaliveStore JsMap.empty JsMap.empty) JsMap.empty []) [])
    (touchLease "sbi_1" "client_a" Dashboard "client_a" 100 0 JsMap.empty) JsMap.empty [] [] [].

Definition demo_peer (session : string) (side : RelayPeerSide) : AttachedTunnelPeer :=
  mkAttachedPeer None (Some 0) (mkTarget "sbi_1" side "node_a" session) true true true.

Lemma demo_service_ok : peers_ok (coordinator_of demo_service).(peerRegistry).
Proof. apply (relay_history_inv (λ _, true) _ _ demo_attaches_ok). Qed.

Lemma stale_detach_harmless_witness : ∃ s',
  detachBootstrapPeer (Socket := nat) (λ _, None) 30 (demo_peer "session_0" SideBootstrap) "lease_0" "sbi_1" None 50
    demo_service = (inr tt, s') ∧ runtime_of s' = runtime_of demo_service.
Proof.
  destruct (stale_detach_harmless (Socket := nat) (λ _, None) 30 demo_service (demo_peer "session_0" SideBootstrap)
    "lease_0" "sbi_1" None 50 demo_service_ok eq_refl eq_refl) as (s' & Hrun & Hruntime & _).
  by exists s'.
Defined.

Lemma current_detach_witness : ∃ s',
  detachBootstrapPeer (Socket := nat) (λ _, None) 30 (demo_peer "session_1" SideBootstrap) "lease_1" "sbi_1" None 50
    demo_service = (inr tt, s') ∧
  (getAttachment "sbi_1" 50 (runtime_of s').(rt_attachments)).1 = None ∧
  (runtime_of s').(rt_calls) =
    [DeleteSandboxInstanceDeadline "sbi_1" IdleDeadline "lease_1" None; ApplyBootstrapDetached "sbi_1" "lease_1" None;
     PutSandboxInstanceDeadline "sbi_1" DisconnectDeadline "lease_1" 80 None].
Proof.
  destruct (sessions_of demo_service "sbi_1") as [ss|] eqn:Hs; [|by vm_compute in Hs].
  assert (ss.(bootstrapTarget) = demo_target) as Hboot.
  { vm_compute in Hs. by injection Hs as <-. }
  destruct (current_detach (Socket := nat) (λ _, None) 30 demo_service (demo_peer "session_1" SideBootstrap) ss
    "lease_1" "sbi_1" None 50 demo_service_ok eq_refl eq_refl eq_refl Hs Hboot (λ _ _, eq_refl))
    as (s' & Hrun & _ & _ & Hcalls & Hatt & _).
  exists s'. split; [exact Hrun|]. split; [|exact Hcalls]. rewrite Hatt. by vm_compute.
Defined.

Lemma bootstrap_attach_witness : ∃ peer s',
  let input := mkAttachInput "lease_2" None "session_9" "sbi_1" 9%nat None in
  attachBootstrapPeer "node_a" "gateway" input demo_ready true None 50 demo_service = (inr (peer, true), s') ∧
  (getAttachment "sbi_1" 50 (runtime_of s').(rt_attachments)).1 =
    Some (Attachment.own_attachment "sbi_1" "lease_2" "node_a" "session_9" 50) ∧
  (coordinator_of s').(relayTransport).(socket_calls) =
    [SocketClose 1 1012 "Replaced by newer sandbox tunnel connection.";
     SocketSend 2 (TextPayload (createReleasedInteractiveStreamResetPayload (mkBinding AgentChannel "client_a" (Int 1) 1)));
     SocketSend 3 (TextPayload (createReleasedInteractiveStreamResetPayload (mkBinding ExecChannel "client_b" (Int 7) 2)))].
Proof.
  set (input := mkAttachInput "lease_2" None "session_9" "sbi_1" 9%nat None).
  edestruct (bootstrap_attach (Socket := nat) "node_a" "gateway" demo_service input demo_ready 50)
    as (peer & s' & Hrun & _ & _ & _ & _ & _ & Hatt & _);
    [exact demo_service_ok|reflexivity|vm_compute; reflexivity|reflexivity|].
  exists peer, s'. split; [exact Hrun|]. split; [exact Hatt|].
  replace s' with (attachBootstrapPeer "node_a" "gateway" input demo_ready true None 50 demo_service).2
    by (by rewrite Hrun).
  by vm_compute.
Defined.

Lemma connection_detach_witness : ∃ s',
  detachConnectionPeer (H0 := service_client) (Socket := nat) "node_a" service_owner
    (demo_peer "client_a" SideConnection) "sbi_1" 50 demo_service = (inr tt, s') ∧
  (sessions_of s' "sbi_1" ≫= λ ss, getBindingByTunnelStreamId ss 1) = None ∧
  (sessions_of s' "sbi_1" ≫= λ ss, getBindingByTunnelStreamId ss 2) =
    Some (mkBinding ExecChannel "client_b" (Int 7) 2).
Proof.
  destruct (sessions_of demo_service "sbi_1") as [ss|] eqn:Hs; [|by vm_compute in Hs].
  assert (ss.(bootstrapTarget) = demo_target ∧
    getBindingByTunnelStreamId ss 1 = Some (mkBinding AgentChannel "client_a" (Int 1) 1) ∧
    getBindingByTunnelStreamId ss 2 = Some (mkBinding ExecChannel "client_b" (Int 7) 2)) as (Hboot & Hone & Htwo).
  { vm_compute in Hs. injection Hs as <-. by vm_compute. }
  assert (session_ok ss) as Hok.
  { refine (proj1 (registry_run_ok demo_ops _ _ "sbi_1" ss Hs)). by apply registry_empty_ok. }
  destruct (connection_detach (PortTarget := unit) (AuthorizeResult := unit) (Socket := nat) (λ _, true) "node_a"
    None None (λ _ _, mret tt) service_owner demo_service (demo_peer "client_a" SideConnection) ss "sbi_1" 0 50
    (put2 (λ _ _, None) "sbi_1" "client_a" (Some (mkPresence "sbi_1" "client_a" Dashboard "client_a" 100))))
    as (s' & ss' & released & Hrun & _ & Hsessions & Hget & _);
    [exact demo_service_ok|reflexivity|reflexivity| |exact Hok|by rewrite Hboot|done| |].
  - split; [exact Hs|]. eexists. split; [reflexivity|]. by rewrite Hboot.
  - unfold demo_service. cbn [presence_leases]. by apply (tracks_set presence_expiresAtMs), tracks_empty.
  - exists s'. split; [exact Hrun|]. rewrite Hsessions, update_at_eq. cbn. rewrite !Hget, Hone, Htwo.
    clear. by split.
Defined.
