(* ===== verification/JsNumber.v ===== *)
(** * Numbers of the language: doubles and the texts they come from

    Elsewhere a number that is no exact integer is kept by its text.  Where the code compares
    such numbers, or makes a number of a string, the texts have to be read: [Number_of] is
    [Number(text)] of the language, with the rounding of a decimal to the nearest double, and
    [strictly_equal] is [===] on numbers.

    A finite double is the integer multiple of 2^-1074 (the least positive double) it is;
    [-0], which nothing here tells from [0], is [0]. *)

From S2P Require Import Prelude Json Text.
Local Open Scope Z_scope.

Inductive double : Type :=
| Finite (units : Z)             (* units * 2^-1074 *)
| Infinite (negative : bool)
| NotANumber.

#[export] Instance double_eq_dec : EqDecision double.
Proof. solve_decision. Defined.

Definition UNIT : Z := 2 ^ 1074.

(** The integer a finite double is, if it is one ([Number.isInteger]). *)
Definition double_integer (x : double) : option Z :=
  match x with
  | Finite units => if units `mod` UNIT =? 0 then Some (units `div` UNIT) else None
  | _ => None
  end.

(** [p / q] rounded to an integer, halves to the even one. *)
Definition round_half_even (p q : Z) : Z :=
  let n := p `div` q in
  let r := 2 * (p `mod` q) in
  if r <? q then n else if q <? r then n + 1 else if Z.even n then n else n + 1.

(** [floor (log2 (p / q))] *)
Definition log2_quotient (p q : Z) : Z :=
  let l := Z.log2 p - Z.log2 q in
  if q * 2 ^ Z.max 0 l <=? p * 2 ^ Z.max 0 (- l) then l else l - 1.

(** The double nearest to [p / q], in units: 53 bits of it, or the bits above the unit. *)
Definition round_quotient (negative : bool) (p q : Z) : double :=
  let k := Z.max 0 (log2_quotient p q - 52 + 1074) in
  let units := 2 ^ k * round_half_even (p * UNIT) (q * 2 ^ k) in
  if 2 ^ (1024 + 1074) <=? units then Infinite negative
  else Finite (if negative then - units else units).

(** The double nearest to [m * 10 ^ e], [m] not negative; exponents of which the result is an
    infinity or zero whatever the digits are not computed with. *)
Definition round_decimal (negative : bool) (m e : Z) : double :=
  if m =? 0 then Finite 0
  else if 400 <? e then Infinite negative
  else if Z.log2 m + 1 + 3 * e <? -1080 then Finite 0
  else if 0 <=? e then round_quotient negative (m * 10 ^ e) 1
  else round_quotient negative m (10 ^ (- e)).

(** ** [Number(text)] *)

(** The digits of a literal with a base, all of them. *)
Fixpoint based_digits (base acc : Z) (s : string) : option Z :=
  match s with
  | EmptyString => Some acc
  | String c s => d ← hex_digit c; if d <? base then based_digits base (acc * base + d) s else None
  end.

Definition based_literal (base : Z) (s : string) : double :=
  if s =?= "" then NotANumber
  else match based_digits base 0 s with
       | Some n => round_decimal false n 0
       | None => NotANumber
       end.

(** A decimal literal without its sign: digits with at most one point, and an exponent. *)
Definition decimal_literal (negative : bool) (s : string) : double :=
  if s =?= "Infinity" then Infinite negative
  else
    let (i, rest) := span_digits s in
    let (f, rest) := match rest with
      | String c rest' => if code c =? 46 then span_digits rest' else (EmptyString, rest)
      | EmptyString => (EmptyString, EmptyString)
      end in
    if (i =?= "") && (f =?= "") then NotANumber
    else match parse_exponent rest with
         | Some (e, EmptyString) =>
             round_decimal negative (digits_value 0 (i +:+ f)) (e - Z.of_nat (String.length f))
         | _ => NotANumber
         end.

Definition signed_literal (s : string) : double :=
  match s with
  | String c s' =>
      if code c =? 45 then decimal_literal true s'
      else if code c =? 43 then decimal_literal false s'
      else decimal_literal false s
  | EmptyString => NotANumber
  end.

Definition Number_of (text : string) : double :=
  let s := trim text in
  match s with
  | EmptyString => Finite 0
  | String z (String b digits) =>
      if negb (code z =? 48) then signed_literal s
      else if (code b =? 120) || (code b =? 88) then based_literal 16 digits
      else if (code b =? 111) || (code b =? 79) then based_literal 8 digits
      else if (code b =? 98) || (code b =? 66) then based_literal 2 digits
      else signed_literal s
  | _ => signed_literal s
  end.

(** ** Comparison *)

Definition double_of (x : number) : double :=
  match x with Int n => Finite (n * UNIT) | NonInteger text => Number_of text end.

(** [x === y] on numbers *)
Definition strictly_equal (x y : number) : bool :=
  match double_of x, double_of y with
  | Finite a, Finite b => a =? b
  | Infinite a, Infinite b => Bool.eqb a b
  | _, _ => false
  end.

Lemma UNIT_pos : 0 < UNIT.
Proof. by apply Z.pow_pos_nonneg. Qed.

Lemma strictly_equal_int n m : strictly_equal (Int n) (Int m) = (n =? m).
Proof.
  unfold strictly_equal, double_of. pose proof UNIT_pos. apply eq_bool_prop_intro.
  rewrite !Is_true_true, !Z.eqb_eq. split; [intros Heq; eapply Z.mul_cancel_r, Heq; lia|by intros ->].
Qed.

Lemma strictly_equal_sym x y : strictly_equal x y = strictly_equal y x.
Proof.
  unfold strictly_equal. destruct (double_of x) as [|[]|], (double_of y) as [|[]|]; auto using Z.eqb_sym.
Qed.

Lemma double_integer_int n : double_integer (Finite (n * UNIT)) = Some n.
Proof.
  cbn [double_integer]. pose proof UNIT_pos. rewrite Z.mod_mul, Z.div_mul by lia. done.
Qed.

Lemma double_integer_some x n : double_integer x = Some n ↔ x = Finite (n * UNIT).
Proof.
  split; [|intros ->; apply double_integer_int]. pose proof UNIT_pos as Hpos.
  destruct x as [units| |]; cbn [double_integer]; try done.
  destruct (Z.eqb_spec (units `mod` UNIT) 0) as [Hmod|]; [|done]. intros [= <-]. f_equal.
  rewrite Z.mul_comm. by apply Z.div_exact; [lia|].
Qed.

Example Number_of_decimals :
  Number_of "1.50" = Number_of "15e-1" ∧ Number_of " 0x1F " = double_of (Int 31) ∧
  Number_of "0.99999999999999999999" = double_of (Int 1) ∧ Number_of "1e400" = Infinite false ∧
  Number_of "-" = NotANumber ∧ Number_of "01." = double_of (Int 1) ∧
  Number_of "9007199254740993" = double_of (Int 9007199254740992) ∧ Number_of "5e-324" = Finite 1.
Proof. by vm_compute. Qed.
