(* ===== verification/TokenSearch.v ===== *)
(** * Searching strings: [includes], [startsWith], [endsWith] and [containsToken]

    The string functions of the language look at UTF-16 code units, so half of a surrogate
    pair is found in the whole one: [utf16] lists the code units of a string kept as its
    UTF-8 bytes.  [containsToken] is the loop of
    packages/integrations-core/src/triggers/operators.ts; which code points are letters,
    digits or marks ([\p{L}\p{N}\p{M}]) is a table of Unicode, a parameter.

    [contains_token_exact]: the loop ends and finds a token exactly when the string has an
    occurrence with no letter, digit, mark or underscore before or after it. *)

From S2P Require Import Prelude Json Text.
Local Open Scope Z_scope.

(** ** Code units *)

(** The code units of a code point. *)
Definition code_point_units (c : Z) : list Z :=
  if c <? 65536 then [c]
  else [55296 + (c - 65536) `div` 1024; 56320 + (c - 65536) `mod` 1024].

(** The code units of a string, from its bytes. *)
Fixpoint units_of_bytes (l : list Z) : list Z :=
  match l with
  | [] => []
  | b1 :: l1 =>
      if b1 <? 192 then b1 :: units_of_bytes l1
      else match l1 with
           | [] => [b1]
           | b2 :: l2 =>
               if b1 <? 224 then ((b1 - 192) * 64 + (b2 - 128)) :: units_of_bytes l2
               else match l2 with
                    | [] => [b1; b2]
                    | b3 :: l3 =>
                        if b1 <? 240
                        then (((b1 - 224) * 64 + (b2 - 128)) * 64 + (b3 - 128)) :: units_of_bytes l3
                        else match l3 with
                             | [] => [b1; b2; b3]
                             | b4 :: l4 =>
                                 code_point_units
                                   ((((b1 - 240) * 64 + (b2 - 128)) * 64 + (b3 - 128)) * 64 + (b4 - 128))
                                 ++ units_of_bytes l4
                             end
                    end
           end
  end.

Definition utf16 (s : string) : list Z := units_of_bytes (bytes_of s).

Definition is_leading (u : Z) : bool := (55296 <=? u) && (u <=? 56319).
Definition is_trailing (u : Z) : bool := (56320 <=? u) && (u <=? 57343).

(** The code points of code units, as a regular expression with the flag [u] reads them. *)
Fixpoint code_points (l : list Z) : list Z :=
  match l with
  | [] => []
  | u :: l1 =>
      match l1 with
      | [] => [u]
      | v :: l2 =>
          if is_leading u && is_trailing v
          then (65536 + (u - 55296) * 1024 + (v - 56320)) :: code_points l2
          else u :: code_points l1
      end
  end.

(** ** The search functions of the language *)

(** [value.startsWith(prefix)] *)
Fixpoint units_start_with (value prefix : list Z) : bool :=
  match prefix, value with
  | [], _ => true
  | u :: prefix, v :: value => (u =? v) && units_start_with value prefix
  | _ :: _, [] => false
  end.

(** [value.slice(from, to)], [from <= to] *)
Definition slice (value : list Z) (from to : nat) : list Z := take (to - from) (drop from value).

(** [value.endsWith(suffix)] *)
Definition units_end_with (value suffix : list Z) : bool :=
  (length suffix <=? length value)%nat
  && bool_decide (drop (length value - length suffix) value = suffix).

(** The first index not before [offset] at which [token] starts in [value], the code units
    from [offset] on. *)
Fixpoint index_from (value token : list Z) (offset : nat) : option nat :=
  if units_start_with value token then Some offset
  else match value with
       | [] => None
       | _ :: value => index_from value token (S offset)
       end.

(** [value.indexOf(token, from)]; [None] is [-1].  The token is not empty. *)
Definition indexOf (value token : list Z) (from : nat) : option nat :=
  index_from (drop from value) token from.

(** [value.includes(token)] *)
Definition units_include (value token : list Z) : bool := bool_decide (is_Some (index_from value token 0)).

(** ** What they find *)

Lemma units_start_with_spec value prefix :
  units_start_with value prefix = true ↔ ∃ rest, value = prefix ++ rest.
Proof.
  revert value. induction prefix as [|u prefix IH]; intros value; [split; [by exists value|by destruct value]|].
  destruct value as [|v value]; cbn [units_start_with]; [by split; [|intros [rest ?]]|].
  rewrite andb_true_iff, Z.eqb_eq, IH. naive_solver.
Qed.

Lemma units_end_with_spec value suffix :
  units_end_with value suffix = true ↔ ∃ before, value = before ++ suffix.
Proof.
  unfold units_end_with. rewrite andb_true_iff, Nat.leb_le, bool_decide_eq_true. split.
  - intros [Hlen Hdrop]. exists (take (length value - length suffix) value).
    by rewrite <- Hdrop at 2; rewrite take_drop.
  - intros [before ->]. rewrite length_app, Nat.add_sub, drop_app_length. split; [lia|done].
Qed.

(** The match [index_from] returns is one, and there is none before it. *)
Lemma index_from_some value token offset i :
  index_from value token offset = Some i →
  ∃ before after, value = before ++ token ++ after ∧ i = (offset + length before)%nat.
Proof.
  revert offset. induction value as [|v value IH]; intros offset; cbn [index_from];
    destruct (units_start_with _ token) eqn:Hstart.
  - intros [= <-]. apply units_start_with_spec in Hstart as [rest Hrest].
    exists [], rest. split; [done|]. simpl. lia.
  - done.
  - intros [= <-]. apply units_start_with_spec in Hstart as [rest Hrest].
    exists [], rest. split; [done|]. simpl. lia.
  - intros (before & after & -> & ->)%IH. exists (v :: before), after. split; [done|]. simpl. lia.
Qed.

Lemma index_from_least before token after offset :
  ∃ i, index_from (before ++ token ++ after) token offset = Some i ∧ (i <= offset + length before)%nat.
Proof.
  revert offset. induction before as [|u before IH]; intros offset.
  - exists offset. split; [|lia]. simpl.
    assert (units_start_with (token ++ after) token = true) as Hstart
      by (apply units_start_with_spec; by exists after).
    destruct (token ++ after); cbn [index_from]; by rewrite Hstart.
  - cbn [app index_from]. case_match; [exists offset; split; [done|lia]|].
    destruct (IH (S offset)) as (i & Hi & Hle). exists i. split; [done|]. simpl. lia.
Qed.

Lemma units_include_spec value token :
  units_include value token = true ↔ ∃ before after, value = before ++ token ++ after.
Proof.
  unfold units_include. rewrite bool_decide_eq_true. split.
  - intros [i (before & after & Hvalue & _)%index_from_some]. by exists before, after.
  - intros (before & after & ->). destruct (index_from_least before token after 0) as (i & -> & _). by exists i.
Qed.

Lemma indexOf_some value token from i :
  (from <= length value)%nat → indexOf value token from = Some i →
  ∃ before after, value = before ++ token ++ after ∧ i = length before ∧ (from <= i)%nat.
Proof.
  intros Hfrom (before & after & Hdrop & ->)%index_from_some.
  exists (take from value ++ before), after. rewrite length_app, length_take, Nat.min_l by done.
  split; [|lia]. by rewrite <- app_assoc, <- Hdrop, take_drop.
Qed.

Lemma indexOf_least before token after from :
  (from <= length before)%nat →
  ∃ i, indexOf (before ++ token ++ after) token from = Some i ∧ (i <= length before)%nat.
Proof.
  intros Hfrom. unfold indexOf. rewrite drop_app_le by done.
  destruct (index_from_least (drop from before) token after from) as (i & Hi & Hle).
  exists i. split; [done|]. rewrite length_drop in Hle. lia.
Qed.

(** ** The loop *)

(** The code points of the classes [\p{L}], [\p{N}] and [\p{M}] of Unicode. *)
Class Unicode : Type := { letter_digit_or_mark : Z → bool }.

Section Search.
Context `{Unicode}.

Definition word_code_point (c : Z) : bool := letter_digit_or_mark c || (c =? 95).

Definition isTokenBoundaryCharacter (value : list Z) : bool :=
  negb (existsb word_code_point (code_points value)).

(** [value.charCodeAt(index)], [index] inside [value] *)
Definition charCodeAt (value : list Z) (index : nat) : Z := nth index value 0.

Definition getCodePointBefore (value : list Z) (index : nat) : option (list Z) :=
  if (index <=? 0)%nat then None
  else if is_trailing (charCodeAt value (index - 1)) && (2 <=? index)%nat
          && is_leading (charCodeAt value (index - 2))
  then Some (slice value (index - 2) index)
  else Some (slice value (index - 1) index).

Definition getCodePointAfter (value : list Z) (index : nat) : option (list Z) :=
  if (length value <=? index)%nat then None
  else if is_leading (charCodeAt value index) && (index + 1 <? length value)%nat
          && is_trailing (charCodeAt value (index + 1))
  then Some (slice value index (index + 2))
  else Some (slice value index (index + 1)).

Definition is_boundary (character : option (list Z)) : bool :=
  match character with None => true | Some character => isTokenBoundaryCharacter character end.

(** [while (true)] of [containsToken] with a bound on its rounds; [None] when they run out. *)
Fixpoint token_loop (rounds : nat) (value token : list Z) (searchStartIndex : nat) : option bool :=
  match rounds with
  | O => None
  | S rounds =>
      match indexOf value token searchStartIndex with
      | None => Some false
      | Some matchedIndex =>
          let precedingCharacter := getCodePointBefore value matchedIndex in
          let followingCharacter := getCodePointAfter value (matchedIndex + length token) in
          let hasLeadingBoundary := is_boundary precedingCharacter in
          let hasTrailingBoundary := is_boundary followingCharacter in
          if hasLeadingBoundary && hasTrailingBoundary then Some true
          else token_loop rounds value token (matchedIndex + 1)
      end
  end.

(** Every round starts at a later index, and there is no match after the last one. *)
Definition containsToken (value token : string) : option bool :=
  let value := utf16 value in
  let token := utf16 token in
  if (length token =? 0)%nat then Some false
  else token_loop (S (length value)) value token 0.

(** ** The reference: occurrences between boundaries *)

(** The last and the first character of code units: a surrogate pair, or one unit. *)
Definition last_character (l : list Z) : option (list Z) :=
  match rev l with
  | [] => None
  | [u] => Some [u]
  | u :: v :: _ => if is_trailing u && is_leading v then Some [v; u] else Some [u]
  end.

Definition first_character (l : list Z) : option (list Z) :=
  match l with
  | [] => None
  | [u] => Some [u]
  | u :: v :: _ => if is_leading u && is_trailing v then Some [u; v] else Some [u]
  end.

(** [token] occurs in [value] between [before] and [after], with no word character beside it. *)
Definition token_at (value token before after : list Z) : Prop :=
  value = before ++ token ++ after
  ∧ is_boundary (last_character before) = true ∧ is_boundary (first_character after) = true.

Lemma code_point_before before rest :
  getCodePointBefore (before ++ rest) (length before) = last_character before.
Proof.
  unfold getCodePointBefore, last_character, charCodeAt, slice.
  destruct before as [|u before _] using rev_ind; [done|].
  destruct before as [|v before _] using rev_ind; [simpl; by rewrite andb_false_r|].
  rewrite !rev_app_distr, !length_app, <- !app_assoc. cbn [rev app length].
  replace (length before + 1 + 1)%nat with (length before + 2)%nat by lia.
  destruct (Nat.leb_spec (length before + 2) 0); [lia|].
  destruct (Nat.leb_spec 2 (length before + 2)); [|lia].
  replace (length before + 2 - 1)%nat with (length before + 1)%nat by lia.
  replace (length before + 2 - 2)%nat with (length before + 0)%nat by lia.
  rewrite !app_nth2_plus, !drop_app_add. cbn [nth drop]. rewrite andb_true_r.
  destruct (is_trailing u && is_leading v); cbn [andb].
  - by replace (length before + 2 - (length before + 0))%nat with 2%nat by lia.
  - by replace (length before + 2 - (length before + 1))%nat with 1%nat by lia.
Qed.

Lemma code_point_after front after :
  getCodePointAfter (front ++ after) (length front) = first_character after.
Proof.
  unfold getCodePointAfter, first_character, charCodeAt, slice. rewrite length_app, drop_app_length.
  rewrite app_nth2, Nat.sub_diag, app_nth2_plus by lia.
  destruct after as [|u [|v after]]; cbn [nth length].
  - by rewrite Nat.add_0_r, Nat.leb_refl.
  - destruct (Nat.leb_spec (length front + 1) (length front)); [lia|].
    destruct (Nat.ltb_spec (length front + 1) (length front + 1)); [lia|]. rewrite andb_false_r.
    simpl. by replace (length front + 1 - length front)%nat with 1%nat by lia.
  - destruct (Nat.leb_spec (length front + S (S (length after))) (length front)); [lia|].
    destruct (Nat.ltb_spec (length front + 1) (length front + S (S (length after)))); [|lia].
    rewrite andb_true_r. destruct (is_leading u && is_trailing v).
    + by replace (length front + 2 - length front)%nat with 2%nat by lia.
    + by replace (length front + 1 - length front)%nat with 1%nat by lia.
Qed.

Lemma boundaries_at before token after :
  is_boundary (getCodePointBefore (before ++ token ++ after) (length before))
  && is_boundary (getCodePointAfter (before ++ token ++ after) (length before + length token)) = true
  ↔ token_at (before ++ token ++ after) token before after.
Proof.
  rewrite code_point_before. rewrite (app_assoc before token after), <- length_app, code_point_after.
  unfold token_at. rewrite andb_true_iff, <- app_assoc. naive_solver.
Qed.

(** The loop ends, and finds the occurrences from its start index on. *)
Lemma token_loop_exact rounds value token start :
  token ≠ [] → (start <= length value)%nat → (length value - start < rounds)%nat →
  ∃ found, token_loop rounds value token start = Some found ∧
    (found = true ↔ ∃ before after, (start <= length before)%nat ∧ token_at value token before after).
Proof.
  intros Htoken. revert start. induction rounds as [|rounds IH]; intros start Hstart Hrounds; [lia|].
  cbn [token_loop]. destruct (indexOf value token start) as [i|] eqn:Hi; cycle 1.
  - exists false. split; [done|]. split; [done|]. intros (before & after & Hle & -> & _).
    by destruct (indexOf_least before token after start Hle) as (i & Hi' & _); simplify_eq.
  - pose proof (indexOf_some _ _ _ _ Hstart Hi) as (before & after & -> & -> & Hle).
    assert (0 < length token)%nat by (destruct token; [done|simpl; lia]).
    destruct (_ && _) eqn:Hbounded.
    + apply boundaries_at in Hbounded. exists true. split; [done|]. split; [|done].
      intros _. by exists before, after.
    + rewrite !length_app in *.
      destruct (IH (length before + 1)%nat) as (found & Hfound & Hspec); [lia..|].
      exists found. split; [done|]. rewrite Hspec.
      split; intros (before' & after' & Hle' & Hat); exists before', after'; (split; [|done]); [lia|].
      destruct (decide (length before' = length before)) as [Hlen|]; cycle 1.
      * pose proof (proj1 Hat) as Heq. rewrite Heq in Hi.
        destruct (indexOf_least before' token after' start Hle') as (i & Hi' & Hlei). simplify_eq. lia.
      * pose proof (proj1 Hat) as Heq. apply app_inj_1 in Heq as [<- Heq]; [|done].
        apply app_inv_head in Heq as <-. apply boundaries_at in Hat. congruence.
Qed.

End Search.

Lemma utf16_nil s : utf16 s = [] ↔ s = "".
Proof.
  split; [|by intros ->]. unfold utf16. destruct s as [|c s]; [done|]. cbn [bytes_of units_of_bytes].
  unfold code_point_units. repeat case_match; done.
Qed.

Lemma containsToken_exact `{Unicode} (value token : string) :
  ∃ found, containsToken value token = Some found ∧
    (found = true ↔ token ≠ "" ∧
       ∃ before after, token_at (utf16 value) (utf16 token) before after).
Proof.
  unfold containsToken. destruct (Nat.eqb_spec (length (utf16 token)) 0) as [Hlen|Hlen].
  - exists false. split; [done|]. split; [done|]. intros [Hne _]. apply length_zero_iff_nil in Hlen.
    by apply utf16_nil in Hlen.
  - assert (utf16 token ≠ []) as Hne by (intros Hnil; by rewrite Hnil in Hlen).
    destruct (token_loop_exact (S (length (utf16 value))) (utf16 value) (utf16 token) 0)
      as (found & Hfound & Hspec); [done|lia..|].
    exists found. split; [done|]. rewrite Hspec. split.
    + intros (before & after & _ & Hat). split; [intros ->; by apply Hne|]. eauto.
    + intros (_ & before & after & Hat). exists before, after. split; [lia|done].
Qed.

(** C37: [containsToken] ends on every string, and returns true exactly when the token is not
    empty and occurs with no letter, digit, mark or underscore directly before or after it; a
    surrogate pair beside the token counts as its one code point. *)
Theorem contains_token_exact `{Unicode} (value token : string) :
  (∃ found, containsToken value token = Some found)
  ∧ (containsToken value token = Some true ↔
       token ≠ "" ∧ ∃ before after, token_at (utf16 value) (utf16 token) before after).
Proof.
  destruct (containsToken_exact value token) as (found & -> & Hspec). split; [by exists found|].
  rewrite <- Hspec. split; [by intros [= ->]|by intros ->].
Qed.

(** A table of the Latin letters and digits of ISO 8859-1 and the CJK ideographs. *)
Definition reference_unicode : Unicode :=
  {| letter_digit_or_mark := λ c,
       ((48 <=? c) && (c <=? 57)) || ((65 <=? c) && (c <=? 90)) || ((97 <=? c) && (c <=? 122))
       || ((192 <=? c) && (c <=? 255)) || ((19968 <=? c) && (c <=? 40959)) |}.

(** The cases of the repository's tests of [containsToken]. *)
Example containsToken_cases :
  let found value := @containsToken reference_unicode value "@mistle" in
  found "@mistle, please help" = Some true ∧ found "@mistleé please help" = Some false ∧
  found "@mistle前 please help" = Some false ∧ found "x@mistle @mistle_ (@mistle)" = Some true ∧
  found "hi😀@mistle😀" = Some true ∧ found "" = Some false.
Proof. by vm_compute. Qed.
