(* ===== verification/PayloadFilter.v ===== *)
(** * Payload filters

    packages/webhooks/src/payload-filter.ts: the filters an event's payload must satisfy, and
    the schema that parses them from stored JSON.  The schema refers to itself ([z.lazy]); here
    it is unfolded [depth] times, and [schema_depth] shows that a value as deep as its size
    cannot tell it from the unbounded one.  The options ["all"] and ["any"] are parsed to ["and"] and
    ["or"]; [filter_of] reads a parsed object as a filter, with those transforms.

    [payload_filter_roundtrip]: what the parser accepts is a well-formed filter, and the JSON of
    a well-formed filter is parsed to that filter. *)

From S2P Require Import Prelude JsMap Json Zod.
Local Open Scope Z_scope.

Inductive WebhookPayloadFilterScalar : Type :=
| ScalarString (s : string)
| ScalarNumber (x : number)
| ScalarBoolean (b : bool)
| ScalarNull.

Definition WebhookPayloadFilterPath : Type := list string.

Inductive WebhookPayloadFilter : Type :=
| FilterAnd (filters : list WebhookPayloadFilter)
| FilterOr (filters : list WebhookPayloadFilter)
| FilterNot (filter : WebhookPayloadFilter)
| FilterEq (path : WebhookPayloadFilterPath) (value : WebhookPayloadFilterScalar)
| FilterNeq (path : WebhookPayloadFilterPath) (value : WebhookPayloadFilterScalar)
| FilterEqPath (path otherPath : WebhookPayloadFilterPath)
| FilterNeqPath (path otherPath : WebhookPayloadFilterPath)
| FilterIn (path : WebhookPayloadFilterPath) (values : list WebhookPayloadFilterScalar)
| FilterContains (path : WebhookPayloadFilterPath) (value : string)
| FilterContainsToken (path : WebhookPayloadFilterPath) (value : string)
| FilterStartsWith (path : WebhookPayloadFilterPath) (value : string)
| FilterEndsWith (path : WebhookPayloadFilterPath) (value : string)
| FilterExists (path : WebhookPayloadFilterPath)
| FilterNotExists (path : WebhookPayloadFilterPath).

(** Induction with the hypothesis for every nested filter. *)
Fixpoint filter_ind' (P : WebhookPayloadFilter → Prop)
    (Hand : ∀ fs, Forall P fs → P (FilterAnd fs)) (Hor : ∀ fs, Forall P fs → P (FilterOr fs))
    (Hnot : ∀ f, P f → P (FilterNot f))
    (Hleaf : ∀ f, match f with FilterAnd _ | FilterOr _ | FilterNot _ => False | _ => True end → P f)
    (f : WebhookPayloadFilter) : P f :=
  let rec := filter_ind' P Hand Hor Hnot Hleaf in
  let all := fix all fs := match fs return Forall P fs with
    | [] => List.Forall_nil _ | f :: fs => List.Forall_cons _ f fs (rec f) (all fs) end in
  match f with
  | FilterAnd fs => Hand fs (all fs)
  | FilterOr fs => Hor fs (all fs)
  | FilterNot f => Hnot f (rec f)
  | f => Hleaf f I
  end.

(** ** The schema *)

Definition WebhookPayloadFilterScalarSchema : schema := ZUnion [ZString; ZNumber; ZBoolean; ZNull].
Definition WebhookPayloadFilterPathSchema : schema := ZNonEmptyArray ZNonEmptyString.

(** The options of the union, around the schema of the nested filters. *)
Definition filter_options (nested : schema) : list schema :=
  let path := WebhookPayloadFilterPathSchema in
  let scalar := WebhookPayloadFilterScalarSchema in
  [ZStrictObject [("op", ZLiteral "and"); ("filters", ZNonEmptyArray nested)];
   ZStrictObject [("op", ZLiteral "or"); ("filters", ZNonEmptyArray nested)];
   ZStrictObject [("op", ZLiteral "all"); ("filters", ZNonEmptyArray nested)];
   ZStrictObject [("op", ZLiteral "any"); ("filters", ZNonEmptyArray nested)];
   ZStrictObject [("op", ZLiteral "not"); ("filter", nested)];
   ZStrictObject [("op", ZLiteral "eq"); ("path", path); ("value", scalar)];
   ZStrictObject [("op", ZLiteral "neq"); ("path", path); ("value", scalar)];
   ZStrictObject [("op", ZLiteral "eq_path"); ("path", path); ("otherPath", path)];
   ZStrictObject [("op", ZLiteral "neq_path"); ("path", path); ("otherPath", path)];
   ZStrictObject [("op", ZLiteral "in"); ("path", path); ("values", ZNonEmptyArray scalar)];
   ZStrictObject [("op", ZLiteral "contains"); ("path", path); ("value", ZString)];
   ZStrictObject [("op", ZLiteral "contains_token"); ("path", path); ("value", ZString)];
   ZStrictObject [("op", ZLiteral "starts_with"); ("path", path); ("value", ZString)];
   ZStrictObject [("op", ZLiteral "ends_with"); ("path", path); ("value", ZString)];
   ZStrictObject [("op", ZLiteral "exists"); ("path", path)];
   ZStrictObject [("op", ZLiteral "not_exists"); ("path", path)]].

(** [z.lazy(...)], unfolded [depth] times *)
Fixpoint WebhookPayloadFilterSchema (depth : nat) : schema :=
  match depth with
  | O => ZUnion []
  | S depth => ZUnion (filter_options (WebhookPayloadFilterSchema depth))
  end.

(** ** The parsed data *)

Definition string_of (v : json) : option string :=
  match v with JString s => Some s | _ => None end.

Definition path_of (v : json) : option WebhookPayloadFilterPath :=
  match v with JArray l => mapM string_of l | _ => None end.

Definition scalar_of (v : json) : option WebhookPayloadFilterScalar :=
  match v with
  | JString s => Some (ScalarString s)
  | JNumber x => Some (ScalarNumber x)
  | JBool b => Some (ScalarBoolean b)
  | JNull => Some ScalarNull
  | _ => None
  end.

(** The filters with two properties and the ones with three, by [op]. *)
Definition scalar_filter (op : string) : option (WebhookPayloadFilterPath → WebhookPayloadFilterScalar → WebhookPayloadFilter) :=
  if op =?= "eq" then Some FilterEq else if op =?= "neq" then Some FilterNeq else None.

Definition string_filter (op : string) : option (WebhookPayloadFilterPath → string → WebhookPayloadFilter) :=
  if op =?= "contains" then Some FilterContains
  else if op =?= "contains_token" then Some FilterContainsToken
  else if op =?= "starts_with" then Some FilterStartsWith
  else if op =?= "ends_with" then Some FilterEndsWith else None.

Definition compare_filter (op : string) : option (WebhookPayloadFilterPath → WebhookPayloadFilterPath → WebhookPayloadFilter) :=
  if op =?= "eq_path" then Some FilterEqPath else if op =?= "neq_path" then Some FilterNeqPath else None.

Definition leaf_filter (op : string) (p x : json) : option WebhookPayloadFilter :=
  path ← path_of p;
  match scalar_filter op, string_filter op, compare_filter op with
  | Some f, _, _ => f path <$> scalar_of x
  | _, Some f, _ => f path <$> string_of x
  | _, _, Some f => f path <$> path_of x
  | _, _, _ =>
      if op =?= "in"
      then match x with JArray l => FilterIn path <$> mapM scalar_of l | _ => None end
      else None
  end.

(** The filter a parsed object is; ["all"] becomes ["and"], and ["any"] ["or"]. *)
Fixpoint filter_of (v : json) : option WebhookPayloadFilter :=
  match v with
  | JObject [(_, JString op); (_, x)] =>
      if op =?= "not" then FilterNot <$> filter_of x
      else match x with
           | JArray l =>
               if (op =?= "and") || (op =?= "all") then FilterAnd <$> mapM filter_of l
               else if (op =?= "or") || (op =?= "any") then FilterOr <$> mapM filter_of l
               else if op =?= "exists" then FilterExists <$> path_of x
               else if op =?= "not_exists" then FilterNotExists <$> path_of x
               else None
           | _ => None
           end
  | JObject [(_, JString op); (_, p); (_, x)] => leaf_filter op p x
  | _ => None
  end.

(** ** The parsers *)

(** The issues of a failed parse, as the library lists them: where, and what is wrong. *)
Class ZodIssues : Type := { issues_of : json → list (list string * string) }.

Section Parse.
Context `{Zod, ZodIssues}.

Definition formatIssues (issues : list (list string * string)) : string :=
  String.concat "; "
    (List.map (λ issue,
       let path := String.concat "." issue.1 in
       (if path =?= "" then "<root>" else path) +:+ ": " +:+ issue.2) issues).

Definition WebhookPayloadFilterSchema_safeParse (input : json) : option WebhookPayloadFilter :=
  data ← safeParse (WebhookPayloadFilterSchema (json_size input)) input;
  filter_of data.

Definition parseWebhookPayloadFilter (input : json) : string + WebhookPayloadFilter :=
  match WebhookPayloadFilterSchema_safeParse input with
  | Some filter => inr filter
  | None => inl ("Webhook payload filter validation failed. " +:+ formatIssues (issues_of input))
  end.

(** [z.record(z.string().min(1), WebhookPayloadFilterSchema)] *)
Definition EventScopedWebhookPayloadFilterSchema (depth : nat) : schema :=
  ZRecord ZNonEmptyString (WebhookPayloadFilterSchema depth).

Definition event_filter (e : string * json) : option (string * WebhookPayloadFilter) :=
  f ← filter_of e.2; Some (e.1, f).

Definition event_scoped_of (v : json) : option (JsMap.t string WebhookPayloadFilter) :=
  match v with
  | JObject fields => mapM event_filter fields
  | _ => None
  end.

Definition parseEventScopedWebhookPayloadFilter (input : json)
    : string + JsMap.t string WebhookPayloadFilter :=
  match (data ← safeParse (EventScopedWebhookPayloadFilterSchema (json_size input)) input;
         event_scoped_of data) with
  | Some filters => inr filters
  | None => inl ("Event-scoped webhook payload filter validation failed. "
                 +:+ formatIssues (issues_of input))
  end.

End Parse.

(** ** The options are told apart by [op] *)

Section Options.
Context `{ZodLaws}.

Lemma strict_object_some shape v w :
  safeParse (ZStrictObject shape) v = Some w →
  ∃ fields r, v = JObject fields ∧ w = JObject r ∧ known_keys shape fields = true ∧
    parse_shape safeParse shape fields = Some r.
Proof.
  rewrite zod_strict_object. destruct v as [| | | | |fields]; try done.
  destruct (known_keys shape fields) eqn:Hknown; [|done]. rewrite zod_object.
  destruct (parse_shape safeParse shape fields) as [r|] eqn:Hr; [|done]. intros [= <-]. eauto 10.
Qed.

Lemma literal_some value v w : safeParse (ZLiteral value) v = Some w → v = JString value ∧ w = v.
Proof. rewrite zod_literal. destruct v; try done. case_bool_decide; naive_solver. Qed.

Lemma literal_self value : safeParse (ZLiteral value) (JString value) = Some (JString value).
Proof. rewrite zod_literal. by rewrite bool_decide_true. Qed.

(** An option whose first key is a literal. *)
Definition tagged (key : string) (o : schema) : option string :=
  match o with
  | ZStrictObject ((k, ZLiteral value) :: _) => if k =?= key then Some value else None
  | _ => None
  end.

Lemma tagged_some key o value :
  tagged key o = Some value → ∃ shape, o = ZStrictObject ((key, ZLiteral value) :: shape).
Proof.
  destruct o as [| | | | | | | | | | | |[|[k []] shape]| | | | |]; try done. simpl.
  case_bool_decide; [|done]. intros [= ->]. subst. by eexists.
Qed.

Lemma tagged_read key o value v w :
  tagged key o = Some value → safeParse o v = Some w → field v key = Some (JString value).
Proof.
  intros [shape ->]%tagged_some (fields & r & -> & -> & _ & Hr)%strict_object_some. simpl in *.
  destruct (JsMap.get fields key) as [x|]; [|done].
  destruct (safeParse (ZLiteral value) x) eqn:Hx; [|done]. by apply literal_some in Hx as [-> _].
Qed.

Fixpoint pick (key value : string) (options : list schema) : option schema :=
  match options with
  | [] => None
  | o :: options => if tagged key o =?= Some value then Some o else pick key value options
  end.

(** Of options with different literals, the union parses with the one the value names. *)
Lemma union_pick key options v :
  Forall (λ o, is_Some (tagged key o)) options → NoDup (tagged key <$> options) →
  safeParse (ZUnion options) v =
    match field v key with
    | Some (JString value) => o ← pick key value options; safeParse o v
    | _ => None
    end.
Proof.
  rewrite zod_union. induction options as [|o options IH]; intros Htagged Hnd.
  - simpl. repeat case_match; done.
  - apply Forall_cons in Htagged as [[value Hvalue] Htagged].
    apply NoDup_cons in Hnd as [Hnew Hnd]. specialize (IH Htagged Hnd). cbn [parse_first pick].
    destruct (safeParse o v) as [w|] eqn:Hw.
    + rewrite (tagged_read key o value v w) by done. rewrite Hvalue, bool_decide_true by done. simpl. by rewrite Hw.
    + rewrite IH. destruct (field v key) as [[| | |value'| |]|]; try done.
      case_bool_decide as Htag; [|done]. cbn [mbind option_bind]. rewrite Hw.
      destruct (pick key value' options) as [o'|] eqn:Hpick; [|done]. exfalso. apply Hnew.
      rewrite Htag. clear - Hpick. induction options as [|o1 options IH]; [done|]. simpl in *.
      case_bool_decide as H1; [rewrite H1; left|right; auto].
Qed.

(** The data of a shape without optional keys. *)
Lemma parse_required shape fields r :
  Forall (λ e, is_optional e.2 = false) shape →
  parse_shape safeParse shape fields = Some r →
  Forall2 (λ e f, e.1 = f.1 ∧ ∃ x, JsMap.get fields e.1 = Some x ∧ safeParse e.2 x = Some f.2) shape r.
Proof.
  intros Hrequired. revert r. induction Hrequired as [|[k s] shape Hs _ IH]; intros r Hr; simpl in *.
  - by simplify_eq.
  - destruct (JsMap.get fields k) as [x|] eqn:Hget; [|by rewrite Hs in Hr].
    destruct (safeParse s x) as [w|] eqn:Hw; [|done]. simpl in Hr.
    destruct (parse_shape _ shape fields) as [ws|]; [|done]. simplify_eq/=. constructor; eauto.
Qed.

(** Strict objects that differ in schemas which agree on the properties of the value. *)
Lemma strict_object_congr shape shape' v :
  Forall2 (λ e e', e.1 = e'.1 ∧ is_optional e.2 = is_optional e'.2 ∧
             ∀ x, field v e.1 = Some x → safeParse e.2 x = safeParse e'.2 x) shape shape' →
  safeParse (ZStrictObject shape) v = safeParse (ZStrictObject shape') v.
Proof.
  intros Hshapes. rewrite !zod_strict_object. destruct v as [| | | | |fields]; try done.
  rewrite !zod_object. unfold known_keys.
  assert (shape.*1 = shape'.*1 ∧ parse_shape safeParse shape fields = parse_shape safeParse shape' fields)
    as [-> ->]; [|done].
  induction Hshapes as [|[k s] [k' s'] shape shape' (Hk & Hopt & Hs) _ [IHk IH]]; [done|].
  simpl in Hk, Hopt, Hs. subst k'. split; [by apply (f_equal (cons k))|]. simpl. rewrite Hopt, IH.
  destruct (JsMap.get fields k) as [x|] eqn:Hget; [|done]. by rewrite (Hs x eq_refl).
Qed.

Lemma union_congr options options' v :
  Forall2 (λ o o', safeParse o v = safeParse o' v) options options' →
  safeParse (ZUnion options) v = safeParse (ZUnion options') v.
Proof.
  rewrite !zod_union. induction 1 as [|o o' options options' Ho _ IH]; [done|]. simpl. by rewrite Ho, IH.
Qed.

End Options.

(** ** The depth of the schema *)

Section Depth.
Context `{ZodLaws}.

Lemma filter_options_tagged s :
  Forall (λ o, is_Some (tagged "op" o)) (filter_options s) ∧ NoDup (tagged "op" <$> filter_options s).
Proof.
  split; [repeat (constructor; [by eexists|]); constructor|].
  change (tagged "op" <$> filter_options s) with (tagged "op" <$> filter_options ZNull).
  by apply (bool_decide_unpack _); vm_compute.
Qed.

(** A value is parsed by the option its [op] names. *)
Lemma filter_options_pick s v :
  safeParse (ZUnion (filter_options s)) v =
    match field v "op" with
    | Some (JString op) => o ← pick "op" op (filter_options s); safeParse o v
    | _ => None
    end.
Proof. destruct (filter_options_tagged s). by apply union_pick. Qed.

Lemma json_size_field v k x : field v k = Some x → (json_size x < json_size v)%nat.
Proof.
  destruct v as [| | | | |fields]; try done. cbn [field json_size]. intros Hget.
  assert ((k, x) ∈ fields) as Hin.
  { clear -Hget. induction fields as [|[k' x'] fields IH]; [done|]. simpl in Hget.
    case_decide; simplify_eq; [left|right; auto]. }
  clear Hget. induction fields as [|e fields IH]; [by apply not_elem_of_nil in Hin|]. simpl in *.
  apply elem_of_cons in Hin as [<-|Hin]; [simpl; lia|]. specialize (IH Hin). lia.
Qed.

Lemma json_size_element l x : x ∈ l → (json_size x < json_size (JArray l))%nat.
Proof.
  cbn [json_size]. induction l as [|y l IH]; [by intros []%not_elem_of_nil|]. simpl.
  intros [->|Hin]%elem_of_cons; [lia|]. specialize (IH Hin). lia.
Qed.

Lemma non_empty_array_congr s s' v :
  (∀ x, (json_size x < json_size v)%nat → safeParse s x = safeParse s' x) →
  safeParse (ZNonEmptyArray s) v = safeParse (ZNonEmptyArray s') v.
Proof.
  intros Hs. rewrite !zod_non_empty_array. destruct v as [| | | |l|]; try done.
  destruct l as [|x l]; [done|]. rewrite !zod_array. f_equal.
  assert (∀ y, y ∈ x :: l → safeParse s y = safeParse s' y) as Hl by auto using json_size_element.
  clear Hs. generalize dependent (x :: l). clear. induction l as [|y l IH]; intros Hl; [done|].
  simpl. rewrite (Hl y) by left. rewrite IH; [done|]. intros z Hz. apply Hl. by right.
Qed.

(** An option sees the nested schema at smaller values only. *)
Lemma filter_options_congr s s' v :
  is_optional s = is_optional s' →
  (∀ x, (json_size x < json_size v)%nat → safeParse s x = safeParse s' x) →
  safeParse (ZUnion (filter_options s)) v = safeParse (ZUnion (filter_options s')) v.
Proof.
  intros Hopt Hs. apply union_congr.
  assert (∀ k x, field v k = Some x → safeParse s x = safeParse s' x) as Hfield
    by eauto using json_size_field.
  assert (∀ k x, field v k = Some x → safeParse (ZNonEmptyArray s) x = safeParse (ZNonEmptyArray s') x)
    as Harray.
  { intros k x Hx. apply non_empty_array_congr. intros y Hy. apply Hs. apply json_size_field in Hx. lia. }
  repeat (constructor; [apply strict_object_congr; repeat constructor; eauto|]). constructor.
Qed.

Lemma filter_schema_optional depth : is_optional (WebhookPayloadFilterSchema depth) = false.
Proof. by destruct depth. Qed.

(** A schema as deep as a value's size parses it like any deeper one. *)
Lemma schema_depth v depth :
  (json_size v <= depth)%nat →
  safeParse (WebhookPayloadFilterSchema depth) v = safeParse (WebhookPayloadFilterSchema (json_size v)) v.
Proof.
  enough (∀ n m, (json_size v <= n)%nat → (json_size v <= m)%nat →
    safeParse (WebhookPayloadFilterSchema n) v = safeParse (WebhookPayloadFilterSchema m) v) as H1
    by (intros; by apply H1).
  induction v as [v IH] using (induction_ltof1 _ json_size). unfold ltof in IH. intros n m Hn Hm.
  destruct n as [|n]; [destruct v; simpl in Hn; lia|]. destruct m as [|m]; [destruct v; simpl in Hm; lia|].
  cbn [WebhookPayloadFilterSchema]. apply filter_options_congr; [by rewrite !filter_schema_optional|].
  intros x Hx. apply IH; lia.
Qed.

End Depth.

(** ** Well-formed filters and their JSON *)

Definition path_value (path : WebhookPayloadFilterPath) : json := JArray (JString <$> path).

Definition scalar_value (c : WebhookPayloadFilterScalar) : json :=
  match c with
  | ScalarString s => JString s
  | ScalarNumber x => JNumber x
  | ScalarBoolean b => JBool b
  | ScalarNull => JNull
  end.

Definition filter_object (op : string) (fields : list (string * json)) : json :=
  JObject (("op", JString op) :: fields).

Fixpoint filter_value (f : WebhookPayloadFilter) : json :=
  match f with
  | FilterAnd fs => filter_object "and" [("filters", JArray (List.map filter_value fs))]
  | FilterOr fs => filter_object "or" [("filters", JArray (List.map filter_value fs))]
  | FilterNot f => filter_object "not" [("filter", filter_value f)]
  | FilterEq p c => filter_object "eq" [("path", path_value p); ("value", scalar_value c)]
  | FilterNeq p c => filter_object "neq" [("path", path_value p); ("value", scalar_value c)]
  | FilterEqPath p q => filter_object "eq_path" [("path", path_value p); ("otherPath", path_value q)]
  | FilterNeqPath p q => filter_object "neq_path" [("path", path_value p); ("otherPath", path_value q)]
  | FilterIn p cs => filter_object "in" [("path", path_value p); ("values", JArray (scalar_value <$> cs))]
  | FilterContains p s => filter_object "contains" [("path", path_value p); ("value", JString s)]
  | FilterContainsToken p s => filter_object "contains_token" [("path", path_value p); ("value", JString s)]
  | FilterStartsWith p s => filter_object "starts_with" [("path", path_value p); ("value", JString s)]
  | FilterEndsWith p s => filter_object "ends_with" [("path", path_value p); ("value", JString s)]
  | FilterExists p => filter_object "exists" [("path", path_value p)]
  | FilterNotExists p => filter_object "not_exists" [("path", path_value p)]
  end.

(** The filters the type and the bounds of the schema allow: no empty list of filters, values or
    segments, no empty segment, no number the schema refuses. *)
Definition path_ok (path : WebhookPayloadFilterPath) : Prop := path ≠ [] ∧ Forall (λ s, s ≠ "") path.

Section WellFormed.
Context `{ZodLaws}.

Definition scalar_ok (c : WebhookPayloadFilterScalar) : Prop :=
  match c with ScalarNumber x => is_Some (safeParse ZNumber (JNumber x)) | _ => True end.

Fixpoint filter_ok (f : WebhookPayloadFilter) : Prop :=
  let fix all fs := match fs with [] => True | f :: fs => filter_ok f ∧ all fs end in
  match f with
  | FilterAnd fs | FilterOr fs => fs ≠ [] ∧ all fs
  | FilterNot f => filter_ok f
  | FilterEq p c | FilterNeq p c => path_ok p ∧ scalar_ok c
  | FilterEqPath p q | FilterNeqPath p q => path_ok p ∧ path_ok q
  | FilterIn p cs => path_ok p ∧ cs ≠ [] ∧ Forall scalar_ok cs
  | FilterContains p _ | FilterContainsToken p _ | FilterStartsWith p _ | FilterEndsWith p _
  | FilterExists p | FilterNotExists p => path_ok p
  end.

Lemma filter_ok_list fs :
  (fix all fs := match fs with [] => True | f :: fs => filter_ok f ∧ all fs end) fs ↔ Forall filter_ok fs.
Proof. induction fs as [|f fs IH]; [by split|]. by rewrite IH, Forall_cons. Qed.

(** *** What a part of a schema returns *)

Lemma non_empty_array_some s v w :
  safeParse (ZNonEmptyArray s) v = Some w →
  ∃ l, w = JArray l ∧ l ≠ [] ∧ Forall (λ x, ∃ y, safeParse s y = Some x) l.
Proof.
  rewrite zod_non_empty_array. destruct v as [| | | |[|y ys]|]; try done. rewrite zod_array.
  intros Hw. assert (∀ ys l, parse_list safeParse s ys = Some l →
    length l = length ys ∧ Forall (λ x, ∃ y, safeParse s y = Some x) l) as Hall.
  { clear. induction ys as [|y ys IH]; intros l Hl; simpl in Hl; [by simplify_eq|].
    destruct (safeParse s y) as [x|] eqn:Hx; [|done]. simpl in Hl.
    destruct (parse_list _ s ys) as [xs|]; [|done]. simplify_eq/=.
    destruct (IH xs eq_refl) as [-> Hxs]. split; [done|]. constructor; eauto. }
  destruct (parse_list safeParse s (y :: ys)) as [l|] eqn:Hl; [|done]. injection Hw as <-.
  destruct (Hall _ _ Hl) as [Hlen Hxs]. exists l. split; [done|]. split; [by destruct l|done].
Qed.

Lemma non_empty_array_self s l :
  l ≠ [] → Forall (λ x, safeParse s x = Some x) l → safeParse (ZNonEmptyArray s) (JArray l) = Some (JArray l).
Proof.
  intros Hne Hl. rewrite zod_non_empty_array. destruct l as [|x l]; [done|]. rewrite zod_array.
  clear Hne. generalize dependent (x :: l). clear. intros l Hl.
  assert (parse_list safeParse s l = Some l) as ->; [|done].
  induction Hl as [|x l Hx _ IH]; [done|]. simpl. rewrite Hx. simpl. by rewrite IH.
Qed.

Lemma path_some v w : safeParse WebhookPayloadFilterPathSchema v = Some w → ∃ p, w = path_value p ∧ path_ok p.
Proof.
  intros (l & -> & Hne & Hl)%non_empty_array_some.
  assert (∃ p, l = JString <$> p ∧ Forall (λ s, s ≠ "") p) as (p & -> & Hp).
  { clear Hne. induction Hl as [|x l [y Hy] _ (p & -> & Hp)]; [by exists []|].
    rewrite zod_non_empty in Hy. destruct y as [| | |s| |]; try done. case_bool_decide; [done|].
    simplify_eq. exists (s :: p). split; [done|]. by constructor. }
  exists p. split; [done|]. split; [by intros ->|done].
Qed.

Lemma path_self p : path_ok p → safeParse WebhookPayloadFilterPathSchema (path_value p) = Some (path_value p).
Proof.
  intros [Hne Hp]. apply non_empty_array_self; [by destruct p|]. apply Forall_fmap.
  eapply Forall_impl; [exact Hp|]. intros s Hs. simpl. rewrite zod_non_empty. by rewrite bool_decide_false.
Qed.

Lemma scalar_some v w : safeParse WebhookPayloadFilterScalarSchema v = Some w → ∃ c, w = scalar_value c ∧ scalar_ok c.
Proof.
  unfold WebhookPayloadFilterScalarSchema. rewrite zod_union. cbn [parse_first].
  rewrite zod_string, zod_boolean, zod_null.
  destruct (safeParse ZNumber v) as [w'|] eqn:Hnumber.
  - destruct (zod_number _ _ Hnumber) as [-> [x ->]]. intros [= <-]. exists (ScalarNumber x).
    split; [done|]. by eexists.
  - destruct v as [|b| |s| |]; try done; intros [= <-];
      [by exists ScalarNull|by exists (ScalarBoolean b)|by exists (ScalarString s)].
Qed.

Lemma scalar_self c : scalar_ok c → safeParse WebhookPayloadFilterScalarSchema (scalar_value c) = Some (scalar_value c).
Proof.
  unfold WebhookPayloadFilterScalarSchema. rewrite zod_union. cbn [parse_first].
  rewrite zod_string, zod_boolean, zod_null. intros Hok.
  destruct (safeParse ZNumber (scalar_value c)) as [w'|] eqn:Hnumber.
  - destruct (zod_number _ _ Hnumber) as [-> [x Hx]]. by destruct c.
  - destruct c as [s|x|b|]; try done. destruct Hok as [? Hok]. simpl in Hnumber. congruence.
Qed.

(** *** Reading them back *)

Lemma mapM_read {A} (read : json → option A) (value : A → json) l :
  Forall (λ a, read (value a) = Some a) l → mapM read (List.map value l) = Some l.
Proof. induction 1 as [|a l Ha _ IH]; [done|]. simpl. rewrite Ha. simpl. by rewrite IH. Qed.

Lemma path_of_value p : path_of (path_value p) = Some p.
Proof. apply (mapM_read string_of JString). by apply Forall_true. Qed.

Lemma scalar_of_value c : scalar_of (scalar_value c) = Some c.
Proof. by destruct c. Qed.

Lemma mapM_scalar_of cs : mapM scalar_of (scalar_value <$> cs) = Some cs.
Proof. apply (mapM_read scalar_of scalar_value), Forall_true. apply scalar_of_value. Qed.

Lemma filter_of_value f : filter_of (filter_value f) = Some f.
Proof.
  induction f as [fs IH|fs IH|f IH|f Hleaf] using filter_ind'.
  - change (FilterAnd <$> mapM filter_of (List.map filter_value fs) = Some (FilterAnd fs)). by rewrite mapM_read.
  - change (FilterOr <$> mapM filter_of (List.map filter_value fs) = Some (FilterOr fs)). by rewrite mapM_read.
  - change (FilterNot <$> filter_of (filter_value f) = Some (FilterNot f)). by rewrite IH.
  - destruct f as [| | |p c|p c|p q|p q|p cs|p s|p s|p s|p s|p|p]; try done;
      cbn -[mapM path_of scalar_of]; unfold leaf_filter; rewrite ?path_of_value; cbn -[mapM path_of scalar_of];
      rewrite ?path_of_value, ?scalar_of_value, ?mapM_scalar_of; done.
Qed.

Lemma mapM_nested l :
  l ≠ [] → Forall (λ w, ∃ f, filter_of w = Some f ∧ filter_ok f) l →
  ∃ fs, mapM filter_of l = Some fs ∧ fs ≠ [] ∧ Forall filter_ok fs.
Proof.
  intros Hne Hl. assert (∃ fs, mapM filter_of l = Some fs ∧ length fs = length l ∧ Forall filter_ok fs)
    as (fs & Hfs & Hlen & Hok).
  { clear Hne. induction Hl as [|w l (f & Hf & Hok) _ (fs & Hfs & Hlen & Hall)]; [by exists []|].
    exists (f :: fs). simpl. rewrite Hf. simpl. rewrite Hfs, Hlen. split; [done|]. split; [done|by constructor]. }
  exists fs. split; [done|]. split; [by destruct fs, l|done].
Qed.

Lemma scalars_some l :
  l ≠ [] → Forall (λ w, ∃ v, safeParse WebhookPayloadFilterScalarSchema v = Some w) l →
  ∃ cs, l = scalar_value <$> cs ∧ cs ≠ [] ∧ Forall scalar_ok cs.
Proof.
  intros Hne Hl. assert (∃ cs, l = scalar_value <$> cs ∧ Forall scalar_ok cs) as (cs & -> & Hok).
  { clear Hne. induction Hl as [|w l [v (c & -> & Hc)%scalar_some] _ (cs & -> & Hcs)]; [by exists []|].
    exists (c :: cs). split; [done|by constructor]. }
  exists cs. split; [done|]. split; [by intros ->|done].
Qed.

(** *** The data of a schema is a well-formed filter *)

Lemma pick_in key value options o : pick key value options = Some o → o ∈ options ∧ tagged key o = Some value.
Proof.
  induction options as [|o' options IH]; simpl; [done|]. case_bool_decide.
  - intros [= ->]. split; [left|done].
  - intros [? ?]%IH. split; [by right|done].
Qed.

(** The properties of the data of an option after [op]. *)
Lemma option_data op shape v w :
  Forall (λ e, is_optional e.2 = false) shape →
  safeParse (ZStrictObject (("op", ZLiteral op) :: shape)) v = Some w →
  ∃ r, w = filter_object op r ∧ Forall2 (λ e f, e.1 = f.1 ∧ ∃ x, safeParse e.2 x = Some f.2) shape r.
Proof.
  intros Hshape (fields & r & _ & -> & _ & Hr)%strict_object_some.
  apply parse_required in Hr; [|by constructor].
  inversion Hr as [|? [k y] ? r' [Hk (x & _ & Hx)] Hr']; subst. simpl in Hk, Hx. subst k.
  apply literal_some in Hx as [-> ->]. exists r'. split; [done|].
  eapply Forall2_impl; [exact Hr'|]. intros e f [He (z & _ & Hz)]. split; eauto.
Qed.

(** An option with one property after [op], and one with a path and another property. *)
Lemma option_one op k s v w :
  is_optional s = false → safeParse (ZStrictObject [("op", ZLiteral op); (k, s)]) v = Some w →
  ∃ x y, w = filter_object op [(k, y)] ∧ safeParse s x = Some y.
Proof.
  intros Hs (r & -> & Hr)%option_data; [|by repeat constructor].
  inversion Hr as [|? [k1 y] ? r' [Hk [x Hx]] Hr']; subst. inversion Hr'; subst. simpl in Hk, Hx. subst k1.
  by exists x, y.
Qed.

Lemma option_leaf {A} (make : WebhookPayloadFilterPath → A → WebhookPayloadFilter) (value : A → json)
    (ok : A → Prop) op k s v w :
  (∀ x y, safeParse s x = Some y → ∃ a, y = value a ∧ ok a) → is_optional s = false →
  (∀ p a, filter_value (make p a) = filter_object op [("path", path_value p); (k, value a)]) →
  (∀ p a, path_ok p → ok a → filter_ok (make p a)) →
  safeParse (ZStrictObject [("op", ZLiteral op); ("path", WebhookPayloadFilterPathSchema); (k, s)]) v = Some w →
  ∃ f, filter_of w = Some f ∧ filter_ok f.
Proof.
  intros Hdata Hs Hvalue Hok (r & -> & Hr)%option_data; [|by repeat constructor].
  inversion Hr as [|? [k1 y1] ? r1 [Hk1 [x1 Hx1]] Hr1]; subst. simpl in Hk1, Hx1. subst k1.
  inversion Hr1 as [|? [k2 y2] ? r2 [Hk2 [x2 Hx2]] Hr2]; subst. inversion Hr2; subst. simpl in Hk2, Hx2. subst k2.
  apply path_some in Hx1 as (p & -> & Hp). apply Hdata in Hx2 as (a & -> & Ha).
  exists (make p a). rewrite <- Hvalue, filter_of_value. auto.
Qed.

Lemma option_path make op v w :
  (∀ p, filter_value (make p) = filter_object op [("path", path_value p)]) →
  (∀ p, path_ok p → filter_ok (make p)) →
  safeParse (ZStrictObject [("op", ZLiteral op); ("path", WebhookPayloadFilterPathSchema)]) v = Some w →
  ∃ f, filter_of w = Some f ∧ filter_ok f.
Proof.
  intros Hvalue Hok (x & y & -> & (p & -> & Hp)%path_some)%option_one; [|done].
  exists (make p). rewrite <- Hvalue, filter_of_value. auto.
Qed.

(** An option with a list of nested filters, all well formed. *)
Lemma option_nested make op s v w :
  (∀ v w, safeParse s v = Some w → ∃ f, filter_of w = Some f ∧ filter_ok f) →
  (∀ l, filter_of (filter_object op [("filters", JArray l)]) = make <$> mapM filter_of l) →
  (∀ fs, filter_ok (make fs) = filter_ok (FilterAnd fs)) →
  safeParse (ZStrictObject [("op", ZLiteral op); ("filters", ZNonEmptyArray s)]) v = Some w →
  ∃ f, filter_of w = Some f ∧ filter_ok f.
Proof.
  intros Hs Hof Hok (x & y & -> & (l & -> & Hne & Hl)%non_empty_array_some)%option_one; [|done].
  rewrite Hof. destruct (mapM_nested l Hne) as (fs & -> & Hfs & Hall).
  - eapply Forall_impl; [exact Hl|]. intros z [z' Hz']. by eapply Hs.
  - exists (make fs). split; [done|]. rewrite Hok. cbn [filter_ok]. by rewrite filter_ok_list.
Qed.

Lemma string_some v w : safeParse ZString v = Some w → ∃ s, w = JString s ∧ True.
Proof. rewrite zod_string. destruct v; naive_solver. Qed.

Lemma scalars_of_schema v w :
  safeParse (ZNonEmptyArray WebhookPayloadFilterScalarSchema) v = Some w →
  ∃ cs, w = JArray (scalar_value <$> cs) ∧ (cs ≠ [] ∧ Forall scalar_ok cs).
Proof.
  intros (l & -> & Hne & Hl)%non_empty_array_some. destruct (scalars_some l Hne Hl) as (cs & -> & ? & ?). eauto.
Qed.

Lemma parsed_filter depth v w :
  safeParse (WebhookPayloadFilterSchema depth) v = Some w → ∃ f, filter_of w = Some f ∧ filter_ok f.
Proof.
  revert v w. induction depth as [|depth IH]; intros v w; [cbn; by rewrite zod_union|].
  cbn [WebhookPayloadFilterSchema]. rewrite filter_options_pick.
  destruct (field v "op") as [[| | |op| |]|]; try done.
  destruct (pick "op" op _) as [o|] eqn:Hpick; [|done]. cbn [mbind option_bind]. intros Hw.
  apply pick_in in Hpick as [Ho _]. pose proof (filter_schema_optional depth) as Hopt.
  unfold filter_options in Ho. repeat (apply elem_of_cons in Ho as [->|Ho]).
  - by apply (option_nested FilterAnd _ _ _ _ IH) in Hw.
  - by apply (option_nested FilterOr _ _ _ _ IH) in Hw.
  - by apply (option_nested FilterAnd _ _ _ _ IH) in Hw.
  - by apply (option_nested FilterOr _ _ _ _ IH) in Hw.
  - apply option_one in Hw as (x & y & -> & Hy); [|done]. destruct (IH _ _ Hy) as (f & Hf & Hok).
    exists (FilterNot f). split; [|done]. unfold filter_object. cbn -[filter_of].
    change (FilterNot <$> filter_of y = Some (FilterNot f)). by rewrite Hf.
  - by eapply (option_leaf FilterEq _ _ _ _ _ _ _ scalar_some eq_refl).
  - by eapply (option_leaf FilterNeq _ _ _ _ _ _ _ scalar_some eq_refl).
  - by eapply (option_leaf FilterEqPath _ _ _ _ _ _ _ path_some eq_refl).
  - by eapply (option_leaf FilterNeqPath _ _ _ _ _ _ _ path_some eq_refl).
  - by eapply (option_leaf FilterIn _ _ _ _ _ _ _ scalars_of_schema eq_refl).
  - by eapply (option_leaf FilterContains _ _ _ _ _ _ _ string_some eq_refl).
  - by eapply (option_leaf FilterContainsToken _ _ _ _ _ _ _ string_some eq_refl).
  - by eapply (option_leaf FilterStartsWith _ _ _ _ _ _ _ string_some eq_refl).
  - by eapply (option_leaf FilterEndsWith _ _ _ _ _ _ _ string_some eq_refl).
  - by eapply (option_path FilterExists).
  - by eapply (option_path FilterNotExists).
  - by apply not_elem_of_nil in Ho.
Qed.

(** *** The JSON of a well-formed filter is its own data *)

Lemma option_self op shape r s :
  pick "op" op (filter_options s) = Some (ZStrictObject (("op", ZLiteral op) :: shape)) →
  NoDup ("op" :: shape.*1) → fits shape r →
  safeParse (ZUnion (filter_options s)) (filter_object op r) = Some (filter_object op r).
Proof.
  intros Hpick Hnd Hfits. rewrite filter_options_pick.
  change (field (filter_object op r) "op") with (Some (JString op)).
  cbv beta iota. rewrite Hpick. cbn [mbind option_bind].
  apply parse_strict; [done|]. constructor; [|done]. split; [done|apply literal_self].
Qed.

Lemma nested_self s fs :
  fs ≠ [] → Forall (λ f, safeParse s (filter_value f) = Some (filter_value f)) fs →
  safeParse (ZNonEmptyArray s) (JArray (List.map filter_value fs)) = Some (JArray (List.map filter_value fs)).
Proof.
  intros Hne Hfs. apply non_empty_array_self; [by destruct fs|]. by apply Forall_fmap.
Qed.

Lemma scalars_self cs :
  cs ≠ [] ∧ Forall scalar_ok cs →
  safeParse (ZNonEmptyArray WebhookPayloadFilterScalarSchema) (JArray (scalar_value <$> cs))
  = Some (JArray (scalar_value <$> cs)).
Proof.
  intros [Hne Hcs]. apply non_empty_array_self; [by destruct cs|]. apply Forall_fmap.
  eapply Forall_impl; [exact Hcs|]. apply scalar_self.
Qed.

Lemma string_self s : safeParse ZString (JString s) = Some (JString s).
Proof. by rewrite zod_string. Qed.

Lemma nested_size op fs f :
  f ∈ fs → (json_size (filter_value f) < json_size (filter_object op [("filters", JArray (List.map filter_value fs))]))%nat.
Proof.
  intros Hf. assert (filter_value f ∈ List.map filter_value fs) as Hin by (by apply list_elem_of_fmap_2).
  apply json_size_element in Hin. unfold filter_object. cbn [json_size sum_list_with snd] in *. lia.
Qed.

Lemma nested_list_self op depth fs :
  Forall (λ f, ∀ depth, filter_ok f → (json_size (filter_value f) <= depth)%nat →
    safeParse (WebhookPayloadFilterSchema depth) (filter_value f) = Some (filter_value f)) fs →
  filter_ok (FilterAnd fs) →
  (json_size (filter_object op [("filters", JArray (List.map filter_value fs))]) <= S depth)%nat →
  fits [("filters", ZNonEmptyArray (WebhookPayloadFilterSchema depth))]
    [("filters", JArray (List.map filter_value fs))].
Proof.
  intros IH Hok Hdepth. cbn [filter_ok] in Hok. rewrite filter_ok_list in Hok. destruct Hok as [Hne Hok].
  constructor; [|constructor]. split; [done|]. apply nested_self; [done|].
  rewrite Forall_forall in *. intros f Hf. apply (IH f Hf); [auto|].
  pose proof (nested_size op fs f Hf). lia.
Qed.

Lemma filter_self f depth :
  filter_ok f → (json_size (filter_value f) <= depth)%nat →
  safeParse (WebhookPayloadFilterSchema depth) (filter_value f) = Some (filter_value f).
Proof.
  revert depth. induction f as [fs IH|fs IH|f IH|f Hleaf] using filter_ind'; intros depth Hok Hdepth;
    (destruct depth as [|depth]; [destruct f || simpl in Hdepth; simpl in Hdepth; lia|]);
    cbn [WebhookPayloadFilterSchema filter_value].
  - eapply option_self; [reflexivity|by apply (bool_decide_unpack _); vm_compute|]. by eapply nested_list_self.
  - eapply option_self; [reflexivity|by apply (bool_decide_unpack _); vm_compute|]. by eapply nested_list_self.
  - eapply option_self; [reflexivity|by apply (bool_decide_unpack _); vm_compute|].
    constructor; [|constructor]. split; [done|]. apply IH; [done|]. cbn [filter_value filter_object json_size sum_list_with snd] in Hdepth. lia.
  - destruct f as [| | |p c|p c|p q|p q|p cs|p s|p s|p s|p s|p|p]; try done; cbn [filter_ok] in Hok;
      destruct_and?;
      (eapply option_self; [reflexivity|by apply (bool_decide_unpack _); vm_compute|]);
      repeat constructor; cbn [fst snd];
      auto using path_self, scalar_self, scalars_self, string_self.
Qed.

(** ** The parsers *)

Context `{ZodIssues}.

(** An option with a list of filters, by its own name or by an alias. *)
Lemma parsed_list op make fs :
  (∀ s, pick "op" op (filter_options s) =
     Some (ZStrictObject [("op", ZLiteral op); ("filters", ZNonEmptyArray s)])) →
  (∀ l, filter_of (filter_object op [("filters", JArray l)]) = make <$> mapM filter_of l) →
  filter_ok (FilterAnd fs) →
  parseWebhookPayloadFilter (filter_object op [("filters", JArray (List.map filter_value fs))]) = inr (make fs).
Proof.
  intros Hpick Hof Hok. unfold parseWebhookPayloadFilter, WebhookPayloadFilterSchema_safeParse.
  rewrite <- (schema_depth _ (S (json_size (filter_object op [("filters", JArray (List.map filter_value fs))]))))
    by lia.
  cbn [WebhookPayloadFilterSchema].
  erewrite option_self; [|apply Hpick|by apply (bool_decide_unpack _); vm_compute|]; cycle 1.
  - eapply (nested_list_self op); [|done|lia]. apply Forall_forall. intros f _ depth. apply filter_self.
  - cbn [mbind option_bind]. rewrite Hof, mapM_read; [done|]. apply Forall_true, filter_of_value.
Qed.

Lemma parsed_filter_ok input f : parseWebhookPayloadFilter input = inr f → filter_ok f.
Proof.
  unfold parseWebhookPayloadFilter, WebhookPayloadFilterSchema_safeParse.
  destruct (safeParse _ input) as [w|] eqn:Hw; [|done].
  destruct (parsed_filter _ _ _ Hw) as (f' & Hf' & Hok). simpl. rewrite Hf'. by intros [= <-].
Qed.

Lemma parse_entries_ok depth fields r :
  parse_entries safeParse ZNonEmptyString (WebhookPayloadFilterSchema depth) fields = Some r →
  ∃ filters, mapM event_filter r = Some filters ∧
    Forall (λ e, e.1 ≠ "" ∧ filter_ok e.2) filters.
Proof.
  revert r. induction fields as [|[k v] fields IH]; intros r Hr; simpl in Hr; [simplify_eq; by exists []|].
  rewrite zod_non_empty in Hr. case_bool_decide as Hk; [done|]. simpl in Hr.
  destruct (safeParse _ v) as [w|] eqn:Hw; [|done]. simpl in Hr.
  destruct (parse_entries _ _ _ fields) as [ws|]; [|done]. simplify_eq/=.
  destruct (parsed_filter _ _ _ Hw) as (f & Hf & Hok). destruct (IH ws eq_refl) as (filters & Hfs & Hall).
  assert (event_filter (k, w) = Some (k, f)) as He by (unfold event_filter; simpl; by rewrite Hf).
  exists ((k, f) :: filters). split; [|by constructor].
  apply (mapM_Some_2 event_filter ((k, w) :: ws)). constructor; [done|]. by apply mapM_Some.
Qed.

(** Event-scoped filters have no empty event name, and well-formed filters. *)
Lemma event_scoped_ok input filters :
  parseEventScopedWebhookPayloadFilter input = inr filters → Forall (λ e, e.1 ≠ "" ∧ filter_ok e.2) filters.
Proof.
  unfold parseEventScopedWebhookPayloadFilter, EventScopedWebhookPayloadFilterSchema. rewrite zod_record.
  destruct input as [| | | | |fields]; try done.
  destruct (parse_entries _ _ _ fields) as [r|] eqn:Hr; [|done]. simpl.
  destruct (parse_entries_ok _ _ _ Hr) as (fs & Hfs & Hall). rewrite Hfs. by intros [= <-].
Qed.

End WellFormed.

(** C24: The parser of payload filters accepts only well-formed filters, parses the JSON of a
    well-formed filter to that filter and the aliases ["all"] and ["any"] to ["and"] and
    ["or"], and unfolding its recursive schema deeper than the size of a value changes nothing. *)
Theorem payload_filter_roundtrip `{ZodLaws, ZodIssues} :
  (∀ input f, parseWebhookPayloadFilter input = inr f → filter_ok f)
  ∧ (∀ f, filter_ok f → parseWebhookPayloadFilter (filter_value f) = inr f)
  ∧ (∀ fs, filter_ok (FilterAnd fs) →
       parseWebhookPayloadFilter (filter_object "all" [("filters", JArray (List.map filter_value fs))])
       = inr (FilterAnd fs))
  ∧ (∀ fs, filter_ok (FilterOr fs) →
       parseWebhookPayloadFilter (filter_object "any" [("filters", JArray (List.map filter_value fs))])
       = inr (FilterOr fs))
  ∧ (∀ input depth, (json_size input <= depth)%nat →
       safeParse (WebhookPayloadFilterSchema depth) input
       = safeParse (WebhookPayloadFilterSchema (json_size input)) input).
Proof.
  split; [apply parsed_filter_ok|]. split; [|split; [|split; [|apply schema_depth]]].
  - intros f Hok. unfold parseWebhookPayloadFilter, WebhookPayloadFilterSchema_safeParse.
    rewrite filter_self by done. cbn [mbind option_bind]. by rewrite filter_of_value.
  - intros fs Hok. by apply parsed_list.
  - intros fs Hok. by apply parsed_list.
Qed.

(** The library without its issues. *)
Definition reference_issues : ZodIssues := {| issues_of := λ _, [] |}.

Lemma payload_filter_roundtrip_witness :
  let f := FilterAnd [FilterNot (FilterExists ["draft"]); FilterIn ["labels"; "0"] [ScalarString "bug"; ScalarNull]] in
  @parseWebhookPayloadFilter reference_zod reference_issues (filter_value f) = inr f
  ∧ @parseWebhookPayloadFilter reference_zod reference_issues
      (filter_object "all" [("filters", JArray [filter_value (FilterExists ["draft"])])])
    = inr (FilterAnd [FilterExists ["draft"]]).
Proof.
  pose proof (@payload_filter_roundtrip reference_zod reference_zod_laws reference_issues) as (_ & Hself & Hall & _).
  split; [apply Hself|apply (Hall [FilterExists ["draft"]])]; cbn; unfold path_ok;
    repeat (done || constructor).
Defined.

(** What the parser refuses, or takes under another name. *)
Example parse_cases :
  let parse := @parseWebhookPayloadFilter reference_zod reference_issues in
  parse (filter_object "exists" [("path", JArray [])]) = inl "Webhook payload filter validation failed. "
  ∧ parse (filter_object "eq" [("path", JArray [JString "a"]); ("value", JNull); ("extra", JNull)])
    = inl "Webhook payload filter validation failed. "
  ∧ parse (JObject [("path", JArray [JString "a"]); ("op", JString "not_exists")]) = inr (FilterNotExists ["a"])
  ∧ parse (filter_object "any" [("filters", JArray [JObject [("filter", filter_value (FilterExists ["a"])); ("op", JString "not")]])])
    = inr (FilterOr [FilterNot (FilterExists ["a"])]).
Proof. by vm_compute. Qed.
