(* ===== verification/FilterEvaluation.v ===== *)
(** * Evaluating payload filters

    - packages/integrations-core/src/triggers/path.ts: [getValueAtPath], which reads a value of
      the payload along the segments of a path;
    - triggers/evaluate.ts and index.ts: the filters the two dialects share
      ([SharedFilter], [evaluateFilterNode]) and the trigger dialect;
    - apps/control-plane-worker/openworkflow/shared/webhook-payload-filter-evaluator.ts:
      [evaluateWebhookPayloadFilter], which evaluates a webhook filter by way of the shared ones
      where it can ([normalizeWebhookFilter]) and by itself where it cannot.

    A payload is a tree of JSON values, so the identity [===] compares on objects and arrays is
    their place in it; a value that was read carries its [location].  [undefined] is [None].

    [webhook_filter_meaning]: whichever way a filter is evaluated, the result is what the filter
    says ([holds]), a relation over the payload without cursors, loops or normal forms.
    [trigger_filter_agrees]: on a payload without arrays the two dialects agree. *)

From S2P Require Import Prelude JsMap Json JsNumber TokenSearch PayloadFilter.
Local Open Scope Z_scope.

(** ** Values of a payload *)

Inductive place : Type :=
| KeyStep (key : string)
| IndexStep (index : Z).

#[export] Instance place_eq_dec : EqDecision place.
Proof. solve_decision. Defined.

Definition location : Type := list place.

(** A value that was read, with its place in the payload; [None] is [undefined]. *)
Definition reference : Type := option (location * json).

(** [===] on values of which one is no object *)
Definition scalar_equal (v w : json) : bool :=
  match v, w with
  | JNull, JNull => true
  | JBool a, JBool b => Bool.eqb a b
  | JNumber x, JNumber y => strictly_equal x y
  | JString s, JString t => s =?= t
  | _, _ => false
  end.

(** [a === b] *)
Definition strict_equal (a b : reference) : bool :=
  match a, b with
  | None, None => true
  | Some (at_a, v), Some (at_b, w) =>
      match v, w with
      | JArray _, JArray _ | JObject _, JObject _ => at_a =?= at_b
      | _, _ => scalar_equal v w
      end
  | _, _ => false
  end.

(** ** Paths *)

Inductive PathPropertyAccessMode : Type := OwnAccess | PlainAccess.

Record GetValueAtPathOptions : Type := {
  allowArrayTraversal : bool;
  propertyAccess : PathPropertyAccessMode;
}.

Definition hasOwnProperty (target : JsMap.t string json) (key : string) : bool :=
  bool_decide (is_Some (JsMap.get target key)).

(** The properties of a JSON value have no getters. *)
Definition readOwnPropertyValue (target : JsMap.t string json) (key : string) : option json :=
  descriptor ← JsMap.get target key; Some descriptor.

Definition readObjectProperty (target : JsMap.t string json) (key : string)
    (propertyAccess : PathPropertyAccessMode) : option json :=
  match propertyAccess with
  | OwnAccess => if negb (hasOwnProperty target key) then None else readOwnPropertyValue target key
  | PlainAccess => if negb (hasOwnProperty target key) then None else JsMap.get target key
  end.

(** [array[index]] for an integer that is not negative *)
Definition array_element (l : list json) (index : Z) : option json :=
  if index <? Z.of_nat (length l) then nth_error l (Z.to_nat index) else None.

(** The body of the loop of [getValueAtPath]; [inr] is the next cursor, [inl] the early
    [return undefined]. *)
Definition path_step (options : GetValueAtPathOptions) (cursor : reference) (segment : string)
    : unit + reference :=
  match cursor with
  | Some (at_, JArray l) =>
      if negb (allowArrayTraversal options) then inl tt
      else match double_integer (Number_of segment) with
           | None => inl tt
           | Some segmentAsInteger =>
               if segmentAsInteger <? 0 then inl tt
               else inr (x ← array_element l segmentAsInteger;
                         Some (at_ ++ [IndexStep segmentAsInteger], x))
           end
  | Some (at_, JObject target) =>
      inr (x ← readObjectProperty target segment (propertyAccess options);
           Some (at_ ++ [KeyStep segment], x))
  | _ => inl tt
  end.

Definition getValueAtPath (payload : json) (path : list string) (options : GetValueAtPathOptions)
    : reference :=
  match fold_each (path_step options) (Some ([], payload)) path with
  | inr cursor => cursor
  | inl _ => None
  end.

(** [path.split(".")] *)
Fixpoint split_dots (s : string) : string * list string :=
  match s with
  | EmptyString => (EmptyString, [])
  | String c s =>
      let (first, rest) := split_dots s in
      if code c =? 46 then (EmptyString, first :: rest) else (String c first, rest)
  end.

Definition splitDotPath (path : string) : list string :=
  let (first, rest) := split_dots path in first :: rest.

(** ** Shared filters *)

Inductive SharedFilterScalar : Type :=
| SharedString (s : string)
| SharedNumber (x : number)
| SharedBoolean (b : bool).

Definition shared_value (c : SharedFilterScalar) : json :=
  match c with SharedString s => JString s | SharedNumber x => JNumber x | SharedBoolean b => JBool b end.

Inductive SharedFilter : Type :=
| SharedAll (filters : list SharedFilter)
| SharedAny (filters : list SharedFilter)
| SharedNot (filter : SharedFilter)
| SharedEq (path : list string) (value : SharedFilterScalar)
| SharedIn (path : list string) (values : list SharedFilterScalar)
| SharedContains (path : list string) (value : string)
| SharedContainsToken (path : list string) (value : string)
| SharedStartsWith (path : list string) (value : string)
| SharedExists (path : list string).

(** The resolved value when it is a string. *)
Definition resolved_string (v : reference) : option string :=
  match v with Some (_, JString s) => Some s | _ => None end.

(** [values.includes(value)]; [NaN], on which it differs from [===], is no JSON value. *)
Definition includes_value {A} (value_of : A → json) (values : list A) (value : json) : bool :=
  existsb (λ c, scalar_equal value (value_of c)) values.

Section Evaluate.
Context `{Unicode}.

(** [containsToken], whose loop ends ([containsToken_exact]) *)
Definition contains_token (value token : string) : bool := containsToken value token =?= Some true.

Fixpoint evaluateFilterNode (filter : SharedFilter) (resolveValueAtPath : list string → reference) : bool :=
  match filter with
  | SharedAll filters => forallb (λ nested, evaluateFilterNode nested resolveValueAtPath) filters
  | SharedAny filters => existsb (λ nested, evaluateFilterNode nested resolveValueAtPath) filters
  | SharedNot filter => negb (evaluateFilterNode filter resolveValueAtPath)
  | SharedExists path => bool_decide (is_Some (resolveValueAtPath path))
  | SharedEq path value => strict_equal (resolveValueAtPath path) (Some ([], shared_value value))
  | SharedIn path values =>
      match resolveValueAtPath path with
      | Some (_, (JString _ | JNumber _ | JBool _) as v) => includes_value shared_value values v
      | _ => false
      end
  | SharedContains path value =>
      match resolved_string (resolveValueAtPath path) with
      | Some s => units_include (utf16 s) (utf16 value)
      | None => false
      end
  | SharedContainsToken path value =>
      match resolved_string (resolveValueAtPath path) with
      | Some s => contains_token s value
      | None => false
      end
  | SharedStartsWith path value =>
      match resolved_string (resolveValueAtPath path) with
      | Some s => units_start_with (utf16 s) (utf16 value)
      | None => false
      end
  end.

(** ** The webhook dialect *)

Definition isWebhookPayloadFilterScalar (v : json) : bool :=
  match v with JString _ | JNumber _ | JBool _ | JNull => true | _ => false end.

(** A value the shared filters know, and [None] for [null]. *)
Definition shared_scalar (c : WebhookPayloadFilterScalar) : option SharedFilterScalar :=
  match c with
  | ScalarString s => Some (SharedString s)
  | ScalarNumber x => Some (SharedNumber x)
  | ScalarBoolean b => Some (SharedBoolean b)
  | ScalarNull => None
  end.

Fixpoint normalizeWebhookFilter (filter : WebhookPayloadFilter) : option SharedFilter :=
  match filter with
  | FilterAnd filters => SharedAll <$> mapM normalizeWebhookFilter filters
  | FilterOr filters => SharedAny <$> mapM normalizeWebhookFilter filters
  | FilterNot filter => SharedNot <$> normalizeWebhookFilter filter
  | FilterExists path => Some (SharedExists path)
  | FilterEq path value => SharedEq path <$> shared_scalar value
  | FilterIn path values => SharedIn path <$> mapM shared_scalar values
  | FilterContains path value => Some (SharedContains path value)
  | FilterContainsToken path value => Some (SharedContainsToken path value)
  | FilterStartsWith path value => Some (SharedStartsWith path value)
  | _ => None
  end.

Definition getWebhookPayloadValueAtPath (payload : json) (path : WebhookPayloadFilterPath) : reference :=
  getValueAtPath payload path {| allowArrayTraversal := true; propertyAccess := OwnAccess |}.

Fixpoint evaluateWebhookPayloadFilter (filter : WebhookPayloadFilter) (payload : json) : bool :=
  match normalizeWebhookFilter filter with
  | Some normalizedFilter => evaluateFilterNode normalizedFilter (getWebhookPayloadValueAtPath payload)
  | None =>
      let value := getWebhookPayloadValueAtPath payload in
      match filter with
      | FilterAnd filters => forallb (λ nested, evaluateWebhookPayloadFilter nested payload) filters
      | FilterOr filters => existsb (λ nested, evaluateWebhookPayloadFilter nested payload) filters
      | FilterNot filter => negb (evaluateWebhookPayloadFilter filter payload)
      | FilterExists path => bool_decide (is_Some (value path))
      | FilterNotExists path => negb (bool_decide (is_Some (value path)))
      | FilterEq path c => strict_equal (value path) (Some ([], scalar_value c))
      | FilterNeq path c => negb (strict_equal (value path) (Some ([], scalar_value c)))
      | FilterEqPath path otherPath => strict_equal (value path) (value otherPath)
      | FilterNeqPath path otherPath => negb (strict_equal (value path) (value otherPath))
      | FilterIn path values =>
          match value path with
          | Some (_, v) => if negb (isWebhookPayloadFilterScalar v) then false
                           else includes_value scalar_value values v
          | None => false
          end
      | FilterContains path text =>
          match resolved_string (value path) with
          | Some s => units_include (utf16 s) (utf16 text)
          | None => false
          end
      | FilterContainsToken path text =>
          match resolved_string (value path) with
          | Some s => contains_token s text
          | None => false
          end
      | FilterStartsWith path text =>
          match resolved_string (value path) with
          | Some s => units_start_with (utf16 s) (utf16 text)
          | None => false
          end
      | FilterEndsWith path text =>
          match resolved_string (value path) with
          | Some s => units_end_with (utf16 s) (utf16 text)
          | None => false
          end
      end
  end.

End Evaluate.

(** ** The trigger dialect *)

Inductive TriggerFilter : Type :=
| TriggerAll (filters : list TriggerFilter)
| TriggerAny (filters : list TriggerFilter)
| TriggerNot (filter : TriggerFilter)
| TriggerEq (path : string) (value : SharedFilterScalar)
| TriggerIn (path : string) (values : list (string + number))
| TriggerContains (path value : string)
| TriggerContainsToken (path value : string)
| TriggerStartsWith (path value : string)
| TriggerExists (path : string).

Fixpoint trigger_ind' (P : TriggerFilter → Prop)
    (Hall : ∀ fs, Forall P fs → P (TriggerAll fs)) (Hany : ∀ fs, Forall P fs → P (TriggerAny fs))
    (Hnot : ∀ f, P f → P (TriggerNot f))
    (Hleaf : ∀ f, match f with TriggerAll _ | TriggerAny _ | TriggerNot _ => False | _ => True end → P f)
    (f : TriggerFilter) : P f :=
  let rec := trigger_ind' P Hall Hany Hnot Hleaf in
  let all := fix all fs := match fs return Forall P fs with
    | [] => List.Forall_nil _ | f :: fs => List.Forall_cons _ f fs (rec f) (all fs) end in
  match f with
  | TriggerAll fs => Hall fs (all fs)
  | TriggerAny fs => Hany fs (all fs)
  | TriggerNot f => Hnot f (rec f)
  | f => Hleaf f I
  end.

Definition trigger_scalar (v : string + number) : SharedFilterScalar :=
  match v with inl s => SharedString s | inr x => SharedNumber x end.

Fixpoint normalizeTriggerFilter (filter : TriggerFilter) : SharedFilter :=
  match filter with
  | TriggerAll filters => SharedAll (List.map normalizeTriggerFilter filters)
  | TriggerAny filters => SharedAny (List.map normalizeTriggerFilter filters)
  | TriggerNot filter => SharedNot (normalizeTriggerFilter filter)
  | TriggerExists path => SharedExists (splitDotPath path)
  | TriggerEq path value => SharedEq (splitDotPath path) value
  | TriggerIn path values => SharedIn (splitDotPath path) (List.map trigger_scalar values)
  | TriggerContains path value => SharedContains (splitDotPath path) value
  | TriggerContainsToken path value => SharedContainsToken (splitDotPath path) value
  | TriggerStartsWith path value => SharedStartsWith (splitDotPath path) value
  end.

Definition evaluateTriggerFilter `{Unicode} (filter : TriggerFilter) (payload : json) : bool :=
  evaluateFilterNode (normalizeTriggerFilter filter)
    (λ path, getValueAtPath payload path {| allowArrayTraversal := false; propertyAccess := PlainAccess |}).

(** ** What a webhook filter says *)

(** The value a segment leads to, and the value a path leads to with its place. *)
Inductive leads_to : json → string → place → json → Prop :=
| child_key fields key v : JsMap.get fields key = Some v → leads_to (JObject fields) key (KeyStep key) v
| child_index l segment index v :
    Number_of segment = Finite (Z.of_nat index * UNIT) → nth_error l index = Some v →
    leads_to (JArray l) segment (IndexStep (Z.of_nat index)) v.

Inductive resolves : json → list string → location → json → Prop :=
| resolves_here v : resolves v [] [] v
| resolves_below v segment st x path at_ w :
    leads_to v segment st x → resolves x path at_ w → resolves v (segment :: path) (st :: at_) w.

Definition composite (v : json) : bool := match v with JArray _ | JObject _ => true | _ => false end.

(** Two values read from a payload are the same: equal scalars, or one object or array. *)
Definition same_value (payload : json) (path otherPath : list string) : Prop :=
  ∃ at_ v at' w, resolves payload path at_ v ∧ resolves payload otherPath at' w ∧
    (scalar_equal v w = true ∨ (at_ = at' ∧ v = w ∧ composite v = true)).

Definition missing (payload : json) (path : list string) : Prop := ¬ ∃ at_ v, resolves payload path at_ v.

(** The string a path leads to has a property. *)
Definition string_at (payload : json) (path : list string) (P : string → Prop) : Prop :=
  ∃ at_ s, resolves payload path at_ (JString s) ∧ P s.

Definition scalar_at (payload : json) (path : list string) (c : WebhookPayloadFilterScalar) : Prop :=
  ∃ at_ v, resolves payload path at_ v ∧ scalar_equal v (scalar_value c) = true.

Fixpoint holds `{Unicode} (payload : json) (filter : WebhookPayloadFilter) : Prop :=
  match filter with
  | FilterAnd fs => (fix all fs := match fs with [] => True | f :: fs => holds payload f ∧ all fs end) fs
  | FilterOr fs => (fix any fs := match fs with [] => False | f :: fs => holds payload f ∨ any fs end) fs
  | FilterNot f => ¬ holds payload f
  | FilterEq path c => scalar_at payload path c
  | FilterNeq path c => ¬ scalar_at payload path c
  | FilterEqPath path other => same_value payload path other ∨ (missing payload path ∧ missing payload other)
  | FilterNeqPath path other => ¬ (same_value payload path other ∨ (missing payload path ∧ missing payload other))
  | FilterIn path cs => Exists (scalar_at payload path) cs
  | FilterContains path t => string_at payload path (λ s, ∃ before after, utf16 s = before ++ utf16 t ++ after)
  | FilterContainsToken path t =>
      string_at payload path (λ s, t ≠ "" ∧ ∃ before after, token_at (utf16 s) (utf16 t) before after)
  | FilterStartsWith path t => string_at payload path (λ s, ∃ after, utf16 s = utf16 t ++ after)
  | FilterEndsWith path t => string_at payload path (λ s, ∃ before, utf16 s = before ++ utf16 t)
  | FilterExists path => ¬ missing payload path
  | FilterNotExists path => missing payload path
  end.

(** ** Paths lead where they say *)

Lemma array_element_spec l i x :
  0 <= i → array_element l i = Some x ↔ nth_error l (Z.to_nat i) = Some x.
Proof.
  intros Hi. unfold array_element. destruct (Z.ltb_spec i (Z.of_nat (length l))) as [|Hge]; [done|].
  split; [done|]. intros Hx. assert (nth_error l (Z.to_nat i) ≠ None) as Hlt%nth_error_Some by congruence. lia.
Qed.

Definition webhook_options : GetValueAtPathOptions :=
  {| allowArrayTraversal := true; propertyAccess := OwnAccess |}.

Lemma readObjectProperty_get target key access : readObjectProperty target key access = JsMap.get target key.
Proof.
  unfold readObjectProperty, readOwnPropertyValue, hasOwnProperty.
  destruct access, (JsMap.get target key); simpl; done.
Qed.

Lemma array_index l segment i st x :
  Number_of segment = Finite (i * UNIT) →
  leads_to (JArray l) segment st x ↔ 0 <= i ∧ st = IndexStep i ∧ array_element l i = Some x.
Proof.
  intros Hi. split.
  - inversion 1 as [|? ? index ? Hindex Hnth]; subst. rewrite Hi in Hindex. injection Hindex as Heq.
    pose proof UNIT_pos. apply Z.mul_cancel_r in Heq as ->; [|lia].
    split; [lia|]. split; [done|]. apply array_element_spec; [lia|]. by rewrite Nat2Z.id.
  - intros (Hpos & -> & Hx%array_element_spec); [|done]. replace i with (Z.of_nat (Z.to_nat i)) by lia.
    constructor; [|done]. rewrite Hi. do 2 f_equal. lia.
Qed.

(** One step of the loop goes to the child. *)
Lemma path_step_child v at_ segment at' x :
  path_step webhook_options (Some (at_, v)) segment = inr (Some (at', x)) ↔
  ∃ st, at' = at_ ++ [st] ∧ leads_to v segment st x.
Proof.
  destruct v as [| | | |l|fields]; try (split; [done|intros (? & _ & Hchild); inversion Hchild]);
    cbn [path_step webhook_options allowArrayTraversal propertyAccess negb].
  - destruct (double_integer (Number_of segment)) as [i|] eqn:Hi; cycle 1.
    { split; [done|]. intros (st & _ & Hchild). inversion Hchild as [|? ? index ? Hindex]; subst.
      by rewrite Hindex, double_integer_int in Hi. }
    apply double_integer_some in Hi. setoid_rewrite (array_index l segment i); [|done..].
    destruct (Z.ltb_spec i 0); [split; [done|intros (? & _ & ? & _); lia]|].
    destruct (array_element l i) as [y|]; cbn [mbind option_bind]; split; [|naive_solver|done|naive_solver].
    intros [= <- <-]. by exists (IndexStep i).
  - rewrite readObjectProperty_get. split.
    + destruct (JsMap.get fields segment) as [y|] eqn:Hy; [|done]. intros [= <- <-].
      exists (KeyStep segment). split; [done|by constructor].
    + intros (st & -> & Hchild). inversion Hchild as [? ? ? Hget|]; subst. by rewrite Hget.
Qed.

(** Nothing is read from a cursor that is [undefined]. *)
Lemma path_undefined options path r : fold_each (path_step options) None path ≠ inr (Some r).
Proof. by destruct path. Qed.

Lemma path_loop_resolves path v at_ at' w :
  fold_each (path_step webhook_options) (Some (at_, v)) path = inr (Some (at', w)) ↔
  ∃ below, at' = at_ ++ below ∧ resolves v path below w.
Proof.
  revert v at_. induction path as [|segment path IH]; intros v at_.
  - simpl. split; [intros [= <- <-]; exists []; rewrite app_nil_r; split; [done|constructor]|].
    intros (below & -> & Hres). inversion Hres; subst. by rewrite app_nil_r.
  - cbn [fold_each]. split.
    + destruct (path_step _ _ segment) as [|[[at1 x]|]] eqn:Hstep; cbn [mbind sum_bind]; [done| |].
      * apply path_step_child in Hstep as (st & -> & Hchild). intros (below & -> & Hres)%IH.
        exists (st :: below). split; [by rewrite <- app_assoc|by econstructor].
      * by intros ?%path_undefined.
    + intros (below & -> & Hres). inversion Hres as [|? ? st x ? below' ? Hchild Hrest]; subst.
      assert (path_step webhook_options (Some (at_, v)) segment = inr (Some (at_ ++ [st], x))) as ->
        by (apply path_step_child; eauto).
      cbn [mbind sum_bind]. apply IH. exists below'. by rewrite <- app_assoc.
Qed.

Lemma value_at_spec payload path at_ v :
  getWebhookPayloadValueAtPath payload path = Some (at_, v) ↔ resolves payload path at_ v.
Proof.
  unfold getWebhookPayloadValueAtPath, getValueAtPath. fold webhook_options.
  pose proof (path_loop_resolves path payload [] at_ v) as Hloop.
  destruct (fold_each _ _ path) as [|cursor].
  - split; [done|]. intros Hres. exfalso. assert (@inl unit reference u = inr (Some (at_, v))); [|done].
    apply Hloop. by exists at_.
  - split.
    + intros ->. destruct (proj1 Hloop eq_refl) as (below & -> & Hres). done.
    + intros Hres. assert (@inr unit _ cursor = inr (Some (at_, v))) as [= ->]; [|done].
      apply Hloop. by exists at_.
Qed.

Lemma value_missing payload path : getWebhookPayloadValueAtPath payload path = None ↔ missing payload path.
Proof.
  unfold missing. setoid_rewrite <- value_at_spec.
  destruct (getWebhookPayloadValueAtPath payload path) as [[at_ v]|]; split; naive_solver.
Qed.

(** What is at a place of the payload does not depend on the path that led there. *)
Lemma child_place v segment segment' st x y : leads_to v segment st x → leads_to v segment' st y → x = y.
Proof.
  destruct 1 as [fields key x Hx|l segment index x _ Hx]; inversion 1; subst; [congruence|].
  assert (index0 = index) as -> by lia. congruence.
Qed.

Lemma resolves_place v path path' at_ x y : resolves v path at_ x → resolves v path' at_ y → x = y.
Proof.
  intros Hx. revert path' y. induction Hx as [v|v segment st x path at_ w Hchild _ IH]; intros path' y Hy;
    inversion Hy as [|? ? ? x' ? ? ? Hchild' Hrest]; subst; [done|].
  rewrite (child_place _ _ _ _ _ _ Hchild Hchild') in IH. eauto.
Qed.

(** ** What each comparison decides *)

Section Meaning.
Context `{Unicode} (payload : json).
Local Notation value := (getWebhookPayloadValueAtPath payload).

Lemma strict_equal_scalar r c :
  strict_equal r (Some ([], scalar_value c)) = match r with Some (_, v) => scalar_equal v (scalar_value c) | None => false end.
Proof. by destruct r as [[at_ []]|], c. Qed.

Lemma eq_meaning path c : strict_equal (value path) (Some ([], scalar_value c)) = true ↔ scalar_at payload path c.
Proof.
  rewrite strict_equal_scalar. unfold scalar_at. setoid_rewrite <- value_at_spec.
  destruct (value path) as [[at_ v]|]; split; naive_solver.
Qed.

Lemma same_meaning path other :
  strict_equal (value path) (value other) = true ↔
  same_value payload path other ∨ (missing payload path ∧ missing payload other).
Proof.
  rewrite <- !value_missing. unfold same_value. setoid_rewrite <- value_at_spec.
  destruct (value path) as [[at_ v]|] eqn:Hv, (value other) as [[at' w]|] eqn:Hw; cbn [strict_equal];
    [|naive_solver..]. apply value_at_spec in Hv, Hw.
  assert ((match v, w with JArray _, JArray _ | JObject _, JObject _ => at_ =?= at'
           | _, _ => scalar_equal v w end = true)
    ↔ scalar_equal v w = true ∨ (at_ = at' ∧ v = w ∧ composite v = true)) as ->; [|naive_solver].
  split.
  - destruct v, w; try (intros ?; left; done); intros ->%bool_decide_eq_true; right;
      pose proof (resolves_place _ _ _ _ _ _ Hv Hw); done.
  - intros [Hequal|(-> & -> & Hcomp)]; [by destruct v, w|]. by destruct w; try done; apply bool_decide_eq_true.
Qed.

Lemma includes_meaning {A} (value_of : A → json) cs v :
  includes_value value_of cs v = true ↔ Exists (λ c, scalar_equal v (value_of c) = true) cs.
Proof. unfold includes_value. rewrite existsb_exists, Exists_exists. by setoid_rewrite list_elem_of_In. Qed.

Lemma in_meaning path cs :
  match value path with
  | Some (_, v) => if negb (isWebhookPayloadFilterScalar v) then false else includes_value scalar_value cs v
  | None => false
  end = true ↔ Exists (scalar_at payload path) cs.
Proof.
  unfold scalar_at. setoid_rewrite <- value_at_spec. rewrite Exists_exists.
  destruct (value path) as [[at_ v]|]; [|split; [done|naive_solver]].
  transitivity (includes_value scalar_value cs v = true).
  - destruct (isWebhookPayloadFilterScalar v) eqn:Hscalar; [done|]. rewrite includes_meaning, Exists_exists.
    split; [done|]. intros (c & _ & Hc). by destruct v, c.
  - rewrite includes_meaning, Exists_exists. naive_solver.
Qed.

Lemma string_meaning path (f : string → bool) (P : string → Prop) :
  (∀ s, f s = true ↔ P s) →
  match resolved_string (value path) with Some s => f s | None => false end = true ↔ string_at payload path P.
Proof.
  intros Hf. unfold string_at. setoid_rewrite <- value_at_spec.
  destruct (value path) as [[at_ []]|]; simpl; try (split; [done|naive_solver]).
  rewrite Hf. split; naive_solver.
Qed.

Lemma contains_token_meaning s t :
  contains_token s t = true ↔ t ≠ "" ∧ ∃ before after, token_at (utf16 s) (utf16 t) before after.
Proof.
  unfold contains_token. destruct (containsToken_exact s t) as (found & -> & Hspec).
  rewrite bool_decide_eq_true, <- Hspec. split; [by intros [= ->]|by intros ->].
Qed.

Lemma exists_meaning path : bool_decide (is_Some (value path)) = true ↔ ¬ missing payload path.
Proof. rewrite bool_decide_eq_true, <- value_missing. symmetry. apply not_eq_None_Some. Qed.

(** The shared scalars are the scalars but [null]. *)
Lemma shared_scalar_value c k : shared_scalar c = Some k → shared_value k = scalar_value c.
Proof. destruct c; naive_solver. Qed.

Lemma shared_in_meaning path cs ks :
  mapM shared_scalar cs = Some ks →
  evaluateFilterNode (SharedIn path ks) value = true ↔ Exists (scalar_at payload path) cs.
Proof.
  intros Hks%mapM_Some. rewrite <- in_meaning. cbn [evaluateFilterNode].
  destruct (value path) as [[at_ v]|]; [|done].
  assert (includes_value shared_value ks v = includes_value scalar_value cs v) as Heq.
  { induction Hks as [|c k cs ks Hk _ IH]; [done|]. cbn [includes_value existsb] in *.
    unfold includes_value in *. simpl. by rewrite IH, (shared_scalar_value c k). }
  destruct v; try done; cbn [isWebhookPayloadFilterScalar negb]; try by rewrite Heq.
  rewrite <- Heq. clear. induction ks as [|k ks IH]; [done|]. unfold includes_value in *. simpl. by destruct k.
Qed.

(** ** Both ways of evaluating a filter *)

Lemma forallb_meaning {A} (eval : A → bool) (P : A → Prop) fs :
  Forall (λ f, eval f = true ↔ P f) fs →
  forallb eval fs = true ↔ (fix all fs := match fs with [] => True | f :: fs => P f ∧ all fs end) fs.
Proof. induction 1 as [|f fs Hf _ IH]; [done|]. simpl. by rewrite andb_true_iff, Hf, IH. Qed.

Lemma existsb_meaning {A} (eval : A → bool) (P : A → Prop) fs :
  Forall (λ f, eval f = true ↔ P f) fs →
  existsb eval fs = true ↔ (fix any fs := match fs with [] => False | f :: fs => P f ∨ any fs end) fs.
Proof. induction 1 as [|f fs Hf _ IH]; [done|]. simpl. by rewrite orb_true_iff, Hf, IH. Qed.

Lemma negb_meaning b (P : Prop) : (b = true ↔ P) → negb b = true ↔ ¬ P.
Proof. destruct b; naive_solver. Qed.

(** The shared filter a webhook filter normalises to says the same. *)
Lemma normalized_meaning f g :
  normalizeWebhookFilter f = Some g → evaluateFilterNode g value = true ↔ holds payload f.
Proof.
  revert g. induction f as [fs IH|fs IH|f IH|f Hleaf] using filter_ind'; intros g Hg.
  - cbn [normalizeWebhookFilter] in Hg. destruct (mapM _ fs) as [gs|] eqn:Hgs; [|done]. injection Hg as <-.
    cbn [evaluateFilterNode holds]. apply mapM_Some in Hgs.
    induction Hgs as [|f g fs gs Hg _ IHgs]; [done|]. apply Forall_cons in IH as [Hf IH]. simpl.
    by rewrite andb_true_iff, (Hf g Hg), (IHgs IH).
  - cbn [normalizeWebhookFilter] in Hg. destruct (mapM _ fs) as [gs|] eqn:Hgs; [|done]. injection Hg as <-.
    cbn [evaluateFilterNode holds]. apply mapM_Some in Hgs.
    induction Hgs as [|f g fs gs Hg _ IHgs]; [done|]. apply Forall_cons in IH as [Hf IH]. simpl.
    by rewrite orb_true_iff, (Hf g Hg), (IHgs IH).
  - cbn [normalizeWebhookFilter] in Hg. destruct (normalizeWebhookFilter f) as [h|]; [|done]. injection Hg as <-.
    cbn [evaluateFilterNode holds]. by apply negb_meaning, IH.
  - destruct f as [| | |p c|p c|p q|p q|p cs|p s|p s|p s|p s|p|p]; try done; cbn [normalizeWebhookFilter] in Hg.
    + destruct (shared_scalar c) as [k|] eqn:Hk; [|done]. injection Hg as <-. cbn [evaluateFilterNode holds].
      rewrite (shared_scalar_value c k Hk). apply eq_meaning.
    + destruct (mapM shared_scalar cs) as [ks|] eqn:Hks; [|done]. injection Hg as <-. by apply shared_in_meaning.
    + injection Hg as <-. apply string_meaning. intros s'. apply units_include_spec.
    + injection Hg as <-. apply string_meaning. intros s'. apply contains_token_meaning.
    + injection Hg as <-. apply string_meaning. intros s'. apply units_start_with_spec.
    + injection Hg as <-. apply exists_meaning.
Qed.

Lemma evaluate_normalized f g :
  normalizeWebhookFilter f = Some g → evaluateWebhookPayloadFilter f payload = evaluateFilterNode g value.
Proof. intros Hg. destruct f; cbn [evaluateWebhookPayloadFilter]; by rewrite Hg. Qed.

Lemma evaluate_meaning f : evaluateWebhookPayloadFilter f payload = true ↔ holds payload f.
Proof.
  induction f as [fs IH|fs IH|f IH|f Hleaf] using filter_ind';
    (match goal with |- evaluateWebhookPayloadFilter ?f _ = true ↔ _ =>
       destruct (normalizeWebhookFilter f) as [g|] eqn:Hg
     end; [rewrite (evaluate_normalized _ _ Hg); by apply normalized_meaning|]).
  - cbn [evaluateWebhookPayloadFilter]. rewrite Hg. by apply forallb_meaning.
  - cbn [evaluateWebhookPayloadFilter]. rewrite Hg. by apply existsb_meaning.
  - cbn [evaluateWebhookPayloadFilter]. rewrite Hg. by apply negb_meaning.
  - destruct f as [| | |p c|p c|p q|p q|p cs|p s|p s|p s|p s|p|p]; try done;
      cbn [evaluateWebhookPayloadFilter holds]; rewrite Hg; clear Hg.
    + apply eq_meaning.
    + apply negb_meaning, eq_meaning.
    + apply same_meaning.
    + apply negb_meaning, same_meaning.
    + apply in_meaning.
    + apply string_meaning. intros s'. apply units_end_with_spec.
    + rewrite (negb_meaning _ _ (exists_meaning p)), <- value_missing.
      destruct (value p); naive_solver.
Qed.
End Meaning.

(** C11: The result of [evaluateWebhookPayloadFilter], by way of the shared filters or not, is
    true exactly when the payload satisfies the filter: paths lead through properties and array
    indices, comparisons are by value on scalars and by identity on objects, and the searches in
    strings look for occurrences in the UTF-16 code units. *)
Theorem webhook_filter_meaning `{Unicode} (payload : json) (f : WebhookPayloadFilter) :
  evaluateWebhookPayloadFilter f payload = true ↔ holds payload f.
Proof. apply evaluate_meaning. Qed.

(** ** The two dialects *)

(** A trigger filter in the webhook dialect. *)
Definition webhook_scalar (c : SharedFilterScalar) : WebhookPayloadFilterScalar :=
  match c with SharedString s => ScalarString s | SharedNumber x => ScalarNumber x | SharedBoolean b => ScalarBoolean b end.

Fixpoint webhook_filter (f : TriggerFilter) : WebhookPayloadFilter :=
  match f with
  | TriggerAll fs => FilterAnd (List.map webhook_filter fs)
  | TriggerAny fs => FilterOr (List.map webhook_filter fs)
  | TriggerNot f => FilterNot (webhook_filter f)
  | TriggerEq path c => FilterEq (splitDotPath path) (webhook_scalar c)
  | TriggerIn path vs => FilterIn (splitDotPath path) (List.map (λ v, webhook_scalar (trigger_scalar v)) vs)
  | TriggerContains path s => FilterContains (splitDotPath path) s
  | TriggerContainsToken path s => FilterContainsToken (splitDotPath path) s
  | TriggerStartsWith path s => FilterStartsWith (splitDotPath path) s
  | TriggerExists path => FilterExists (splitDotPath path)
  end.

(** A value with no array in it. *)
Fixpoint array_free (v : json) : bool :=
  match v with
  | JArray _ => false
  | JObject fields => forallb (λ e, array_free e.2) fields
  | _ => true
  end.

Lemma normalize_webhook_filter f : normalizeWebhookFilter (webhook_filter f) = Some (normalizeTriggerFilter f).
Proof.
  assert (∀ fs, Forall (λ f, normalizeWebhookFilter (webhook_filter f) = Some (normalizeTriggerFilter f)) fs →
    mapM normalizeWebhookFilter (List.map webhook_filter fs) = Some (List.map normalizeTriggerFilter fs)) as Hlist.
  { intros fs Hfs. apply mapM_Some_2. induction Hfs; by constructor. }
  induction f as [fs IH|fs IH|f IH|f Hleaf] using trigger_ind'.
  - change (SharedAll <$> mapM normalizeWebhookFilter (List.map webhook_filter fs)
      = Some (SharedAll (List.map normalizeTriggerFilter fs))). by rewrite Hlist.
  - change (SharedAny <$> mapM normalizeWebhookFilter (List.map webhook_filter fs)
      = Some (SharedAny (List.map normalizeTriggerFilter fs))). by rewrite Hlist.
  - cbn [webhook_filter normalizeWebhookFilter normalizeTriggerFilter]. by rewrite IH.
  - destruct f as [| | |p c|p vs|p s|p s|p s|p]; try done; cbn [webhook_filter normalizeWebhookFilter normalizeTriggerFilter].
    + by destruct c.
    + assert (mapM shared_scalar (List.map (λ v, webhook_scalar (trigger_scalar v)) vs) = Some (List.map trigger_scalar vs))
        as ->; [|done]. apply mapM_Some_2. induction vs as [|[] vs IH]; by constructor.
Qed.

Lemma array_free_property fields key v :
  array_free (JObject fields) = true → JsMap.get fields key = Some v → array_free v = true.
Proof.
  cbn [array_free]. induction fields as [|[k w] fields IH]; [done|]. simpl.
  intros [Hw Hfields]%andb_true_iff. case_decide; [by intros [= <-]|auto].
Qed.

(** Without arrays, the options of a path do not matter. *)
Lemma path_loop_options options options' path at_ v :
  array_free v = true →
  fold_each (path_step options) (Some (at_, v)) path = fold_each (path_step options') (Some (at_, v)) path.
Proof.
  revert at_ v. induction path as [|segment path IH]; intros at_ v Hv; [done|]. cbn [fold_each].
  destruct v as [| | | |l|fields]; try done. cbn [path_step]. rewrite !readObjectProperty_get.
  destruct (JsMap.get fields segment) as [x|] eqn:Hx; cbn [mbind sum_bind option_bind]; [|by destruct path].
  apply IH. by eapply array_free_property.
Qed.

Lemma evaluate_ext `{Unicode} f resolve resolve' :
  (∀ path, resolve path = resolve' path) →
  evaluateFilterNode (normalizeTriggerFilter f) resolve = evaluateFilterNode (normalizeTriggerFilter f) resolve'.
Proof.
  intros Hresolve. induction f as [fs IH|fs IH|f IH|f Hleaf] using trigger_ind'; cbn [normalizeTriggerFilter evaluateFilterNode].
  - induction IH as [|f fs Hf _ IH]; [done|]. simpl. by rewrite Hf, IH.
  - induction IH as [|f fs Hf _ IH]; [done|]. simpl. by rewrite Hf, IH.
  - by rewrite IH.
  - destruct f; try done; cbn [normalizeTriggerFilter evaluateFilterNode]; by rewrite Hresolve.
Qed.

(** On a payload without arrays, a trigger filter and the webhook filter with the same
    operations and the path split at its dots are evaluated to the same result. *)
Theorem trigger_filter_agrees `{Unicode} (f : TriggerFilter) (payload : json) :
  array_free payload = true →
  evaluateTriggerFilter f payload = evaluateWebhookPayloadFilter (webhook_filter f) payload.
Proof.
  intros Hfree. rewrite (evaluate_normalized _ _ _ (normalize_webhook_filter f)). apply evaluate_ext.
  intros path. unfold getWebhookPayloadValueAtPath, getValueAtPath.
  by rewrite (path_loop_options _ {| allowArrayTraversal := true; propertyAccess := OwnAccess |}).
Qed.

Lemma trigger_filter_agrees_witness :
  let payload := JObject [("comment", JObject [("body", JString "hi @mistle")])] in
  @evaluateTriggerFilter reference_unicode (TriggerContainsToken "comment.body" "@mistle") payload
  = @evaluateWebhookPayloadFilter reference_unicode (FilterContainsToken ["comment"; "body"] "@mistle") payload
  ∧ @evaluateTriggerFilter reference_unicode (TriggerContainsToken "comment.body" "@mistle") payload = true.
Proof.
  split; [|by vm_compute].
  exact (@trigger_filter_agrees reference_unicode (TriggerContainsToken "comment.body" "@mistle")
    (JObject [("comment", JObject [("body", JString "hi @mistle")])]) eq_refl).
Defined.

(** Cases from the repository's tests, and the corners of [Number(segment)] and [===]. *)
Example evaluate_cases :
  let payload := JObject [
    ("labels", JArray [JObject [("name", JString "bug")]; JObject [("name", JString "urgent")]]);
    ("attempts", JNumber (Int 3)); ("ratio", JNumber (NonInteger "1.50e0")); ("actor", JNull)] in
  let eval f := @evaluateWebhookPayloadFilter reference_unicode f payload in
  eval (FilterEq ["labels"; "1"; "name"] (ScalarString "urgent")) = true
  ∧ eval (FilterEq ["labels"; " 0x1 "; "name"] (ScalarString "urgent")) = true
  ∧ eval (FilterExists ["labels"; "2"; "name"]) = false
  ∧ eval (FilterEqPath ["labels"; "1"] ["labels"; "1.0"]) = true
  ∧ eval (FilterEqPath ["labels"; "0"] ["labels"; "1"]) = false
  ∧ eval (FilterEqPath ["missing"] ["labels"; "7"]) = true
  ∧ eval (FilterEq ["ratio"] (ScalarNumber (NonInteger "1.5"))) = true
  ∧ eval (FilterAnd [FilterEq ["actor"] ScalarNull; FilterIn ["attempts"] [ScalarNull; ScalarNumber (Int 3)]]) = true
  ∧ eval (FilterNeq ["missing"] ScalarNull) = true
  ∧ eval (FilterStartsWith ["labels"; "0"; "name"] "b") = true.
Proof. by vm_compute. Qed.
