(* ===== verification/ActorPolicy.v ===== *)
(** * Actor policies of webhook triggers

    Who may set off a trigger: apps/control-plane-worker/openworkflow/
    handle-integration-webhook-event/resolve-webhook-trigger-actor-policy.ts over the queries of
    shared/actor-policy-query-helpers.ts.  The actor of an event is read from its payload
    ([resolveWebhookEventActor]); a rule names a single actor or a relationship of actors, looked
    up in the resources an integration connection has synchronised.

    The tables are lists of rows (packages/db/src/control-plane/schema); a [select] with
    [limit(1)] is the first row, in an order the database chooses, that satisfies the [where];
    a comparison with a column that is null is not true.  One policy is evaluated on one state of
    the tables.

    [actor_policy_decides]: an event is let through exactly when there is no policy, or its actor
    is known, some rule of [anyOf] matches it and every rule of [noneOf] is known not to.
    [relationship_matched]: what a rule on relationships that matches has found in the tables. *)

From S2P Require Import Prelude JsMap Json Text JsNumber Locale.
Local Open Scope Z_scope.

(** ** Tables *)

Record ResourceRow : Type := {
  resource_id : string;
  resource_connectionId : string;
  resource_kind : string;
  resource_externalId : option string;
  resource_handle : string;
  resource_status : string;
  resource_removedAt : option string;
}.

Record ResourceStateRow : Type := {
  state_connectionId : string;
  state_kind : string;
  state_syncState : string;
  state_lastSyncedAt : option string;
}.

Record ResourceAttributeRow : Type := {
  attribute_connectionId : string;
  attribute_resourceKind : string;
  attribute_resourceHandle : string;
  attribute_key : string;
  attribute_value : string;
  attribute_valueType : string;
  attribute_removedAt : option string;
}.

Record RelationshipRow : Type := {
  relationship_connectionId : string;
  relationship_kind : string;
  subjectResourceId : option string;
  subjectResourceKind : string;
  subjectExternalId : option string;
  subjectHandle : string;
  objectResourceId : option string;
  objectResourceKind : string;
  objectExternalId : option string;
  objectHandle : string;
  scopeResourceId : option string;
  relationship_removedAt : option string;
}.

Record ResourceTables : Type := {
  integrationConnectionResources : list ResourceRow;
  integrationConnectionResourceStates : list ResourceStateRow;
  integrationConnectionResourceAttributes : list ResourceAttributeRow;
  integrationConnectionResourceRelationships : list RelationshipRow;
}.

Definition ResourceStatus_ACCESSIBLE : string := "accessible".
Definition SyncState_READY : string := "ready".

(** [eq(column, value)] on a column that may be null, and [isNull(column)] *)
Definition eq_nullable (column : option string) (value : string) : bool := column =?= Some value.
Definition isNull (column : option string) : bool := bool_decide (column = None).

(** [db.select().from(rows).where(condition).limit(1)], its [rows[0]] *)
Definition select_first {A} (rows : list A) (condition : A → bool) : option A := List.find condition rows.

(** ** References and results *)

Inductive ActorPolicyResourceReference : Type :=
| ByResourceId (resourceKind resourceId : string)
| ByExternalId (resourceKind externalId : string)
| ByHandle (resourceKind handle : string).

Definition reference_kind (r : ActorPolicyResourceReference) : string :=
  match r with ByResourceId kind _ | ByExternalId kind _ | ByHandle kind _ => kind end.

Inductive ActorPolicyQueryResultState : Type := DATA_UNAVAILABLE | MATCHED | NOT_MATCHED.

#[export] Instance query_state_eq_dec : EqDecision ActorPolicyQueryResultState.
Proof. solve_decision. Defined.

Record ActorPolicyQueryResult : Type := {
  result_state : ActorPolicyQueryResultState;
  result_reason : option string;
}.

Definition matched : ActorPolicyQueryResult := {| result_state := MATCHED; result_reason := None |}.
Definition notMatched : ActorPolicyQueryResult := {| result_state := NOT_MATCHED; result_reason := None |}.
Definition dataUnavailable (reason : string) : ActorPolicyQueryResult :=
  {| result_state := DATA_UNAVAILABLE; result_reason := Some reason |}.

(** ** actor-policy-query-helpers.ts *)

Section Queries.
Context (db : ResourceTables) (connectionId : string).

(** The conditions every look-up of an accessible resource has. *)
Definition accessible (kind : string) (row : ResourceRow) : bool :=
  (resource_connectionId row =?= connectionId) && (resource_kind row =?= kind)
  && (resource_status row =?= ResourceStatus_ACCESSIBLE) && isNull (resource_removedAt row).

Definition resolveAccessibleResourceById (resourceKind resourceId : string) : option ResourceRow :=
  select_first (integrationConnectionResources db)
    (λ row, accessible resourceKind row && (resource_id row =?= resourceId)).

Definition resolveAccessibleResourceByExternalId (resourceKind externalId : string) : option ResourceRow :=
  select_first (integrationConnectionResources db)
    (λ row, accessible resourceKind row && eq_nullable (resource_externalId row) externalId).

Definition resolveAccessibleResourceByHandle (resourceKind handle : string) : option ResourceRow :=
  select_first (integrationConnectionResources db)
    (λ row, accessible resourceKind row && (resource_handle row =?= handle)).

Definition resolveAccessibleResource (reference : ActorPolicyResourceReference) : option ResourceRow :=
  match reference with
  | ByResourceId kind id => resolveAccessibleResourceById kind id
  | ByExternalId kind externalId => resolveAccessibleResourceByExternalId kind externalId
  | ByHandle kind handle => resolveAccessibleResourceByHandle kind handle
  end.

Definition in_kind (kind : string) (row : ResourceRow) : bool :=
  (resource_connectionId row =?= connectionId) && (resource_kind row =?= kind).

Definition resourceRowExistsById (resourceKind resourceId : string) : bool :=
  bool_decide (is_Some (select_first (integrationConnectionResources db)
    (λ row, in_kind resourceKind row && (resource_id row =?= resourceId)))).

Definition resourceRowExistsByExternalId (resourceKind externalId : string) : bool :=
  bool_decide (is_Some (select_first (integrationConnectionResources db)
    (λ row, in_kind resourceKind row && eq_nullable (resource_externalId row) externalId))).

Definition resourceRowExistsByHandle (resourceKind handle : string) : bool :=
  bool_decide (is_Some (select_first (integrationConnectionResources db)
    (λ row, in_kind resourceKind row && (resource_handle row =?= handle)))).

Definition resourceRowExists (reference : ActorPolicyResourceReference) : bool :=
  match reference with
  | ByResourceId kind id => resourceRowExistsById kind id
  | ByExternalId kind externalId => resourceRowExistsByExternalId kind externalId
  | ByHandle kind handle => resourceRowExistsByHandle kind handle
  end.

(** The predicates on relationships; [None] when a resource named by its id is not found. *)
Definition createSubjectResolvedResourceIdentityPredicate (resource : ResourceRow) (row : RelationshipRow) : bool :=
  let handlePredicate :=
    (subjectResourceKind row =?= resource_kind resource) && (subjectHandle row =?= resource_handle resource) in
  match resource_externalId resource with
  | None => handlePredicate
  | Some externalId =>
      handlePredicate
      || ((subjectResourceKind row =?= resource_kind resource) && eq_nullable (subjectExternalId row) externalId)
  end.

Definition createSubjectRelationshipPredicate (reference : ActorPolicyResourceReference)
    (resource : option ResourceRow) : option (RelationshipRow → bool) :=
  match resource with
  | Some resource =>
      Some (λ row, eq_nullable (subjectResourceId row) (resource_id resource)
                   || (isNull (subjectResourceId row)
                       && createSubjectResolvedResourceIdentityPredicate resource row))
  | None =>
      match reference with
      | ByExternalId kind externalId =>
          Some (λ row, (subjectResourceKind row =?= kind) && eq_nullable (subjectExternalId row) externalId)
      | ByHandle kind handle =>
          Some (λ row, (subjectResourceKind row =?= kind) && (subjectHandle row =?= handle))
      | ByResourceId _ _ => None
      end
  end.

Definition createObjectResolvedResourceIdentityPredicate (resource : ResourceRow) (row : RelationshipRow) : bool :=
  let handlePredicate :=
    (objectResourceKind row =?= resource_kind resource) && (objectHandle row =?= resource_handle resource) in
  match resource_externalId resource with
  | None => handlePredicate
  | Some externalId =>
      handlePredicate
      || ((objectResourceKind row =?= resource_kind resource) && eq_nullable (objectExternalId row) externalId)
  end.

Definition createObjectRelationshipPredicate (reference : ActorPolicyResourceReference)
    (resource : option ResourceRow) : option (RelationshipRow → bool) :=
  match resource with
  | Some resource =>
      Some (λ row, eq_nullable (objectResourceId row) (resource_id resource)
                   || (isNull (objectResourceId row)
                       && createObjectResolvedResourceIdentityPredicate resource row))
  | None =>
      match reference with
      | ByExternalId kind externalId =>
          Some (λ row, (objectResourceKind row =?= kind) && eq_nullable (objectExternalId row) externalId)
      | ByHandle kind handle =>
          Some (λ row, (objectResourceKind row =?= kind) && (objectHandle row =?= handle))
      | ByResourceId _ _ => None
      end
  end.

Definition kind_synced (resourceKind : string) : bool :=
  match select_first (integrationConnectionResourceStates db)
          (λ row, (state_connectionId row =?= connectionId) && (state_kind row =?= resourceKind)) with
  | Some state => (state_syncState state =?= SyncState_READY) && negb (isNull (state_lastSyncedAt state))
  | None => false
  end.

Definition isResourceKindReadyForAttributes (resourceKind : string) : bool := kind_synced resourceKind.
Definition isActorSetResourceKindReadyForRelationships (resourceKind : string) : bool := kind_synced resourceKind.

Definition queryActorPolicyResourceAttribute (actor : ActorPolicyResourceReference)
    (attributeKey attributeValue valueType : string) : ActorPolicyQueryResult :=
  match resolveAccessibleResource actor with
  | None => dataUnavailable "actor_resource_unavailable"
  | Some actorResource =>
      if negb (isResourceKindReadyForAttributes (resource_kind actorResource))
      then dataUnavailable "actor_resource_kind_not_ready"
      else
        match select_first (integrationConnectionResourceAttributes db)
                (λ row, (attribute_connectionId row =?= connectionId)
                        && (attribute_resourceKind row =?= resource_kind actorResource)
                        && (attribute_resourceHandle row =?= resource_handle actorResource)
                        && (attribute_key row =?= attributeKey)
                        && isNull (attribute_removedAt row)) with
        | None => dataUnavailable "actor_attribute_unavailable"
        | Some attribute =>
            if negb (attribute_valueType attribute =?= valueType)
            then dataUnavailable "actor_attribute_type_unavailable"
            else if negb (attribute_value attribute =?= attributeValue) then notMatched
            else matched
        end
  end.

(** The condition on the relationships of the last query. *)
Definition relationship_condition (relationshipKind : string) (subjectPredicate objectPredicate : RelationshipRow → bool)
    (scopeResource : ResourceRow) (row : RelationshipRow) : bool :=
  (relationship_connectionId row =?= connectionId) && (relationship_kind row =?= relationshipKind)
  && subjectPredicate row && objectPredicate row
  && eq_nullable (scopeResourceId row) (resource_id scopeResource) && isNull (relationship_removedAt row).

Definition queryActorPolicyResourceRelationship (relationshipKind : string)
    (actor actorSet scope : ActorPolicyResourceReference) : ActorPolicyQueryResult :=
  let actorResource := resolveAccessibleResource actor in
  if bool_decide (actorResource = None) && resourceRowExists actor
  then dataUnavailable "actor_resource_unavailable"
  else match createSubjectRelationshipPredicate actor actorResource with
  | None => dataUnavailable "actor_resource_unavailable"
  | Some subjectPredicate =>
      let actorSetResource := resolveAccessibleResource actorSet in
      if bool_decide (actorSetResource = None) && resourceRowExists actorSet
      then dataUnavailable "actor_set_resource_unavailable"
      else match createObjectRelationshipPredicate actorSet actorSetResource with
      | None => dataUnavailable "actor_set_resource_unavailable"
      | Some objectPredicate =>
          match resolveAccessibleResource scope with
          | None => dataUnavailable "relationship_scope_resource_unavailable"
          | Some scopeResource =>
              if negb (isActorSetResourceKindReadyForRelationships (reference_kind actorSet))
              then dataUnavailable "actor_set_resource_kind_not_ready"
              else
                match select_first (integrationConnectionResourceRelationships db)
                        (relationship_condition relationshipKind subjectPredicate objectPredicate scopeResource) with
                | None => notMatched
                | Some _ => matched
                end
          end
      end
  end.

End Queries.

(** ** resolve-webhook-trigger-actor-policy.ts *)

Inductive WebhookTriggerActorPolicyRule : Type :=
| RelationshipRule (actorSet : ActorPolicyResourceReference) (relationshipKind : string)
    (scope : ActorPolicyResourceReference)
| ResourceRule (actor : ActorPolicyResourceReference).

Record WebhookTriggerActorPolicy : Type := {
  anyOf : option (list WebhookTriggerActorPolicyRule);
  noneOf : option (list WebhookTriggerActorPolicyRule);
}.

Record IntegrationWebhookEventActorReferenceCondition : Type := {
  payloadPath : list string;
  equals : string;
}.

Record IntegrationWebhookEventActorResourceReference : Type := {
  reference_resourceKind : string;
  externalIdPayloadPath : option (list string);
  handlePayloadPath : option (list string);
  reference_when : option IntegrationWebhookEventActorReferenceCondition;
}.

Definition IntegrationWebhookEventActorDefinition : Type := list IntegrationWebhookEventActorResourceReference.

Record ResolvedWebhookEventActor : Type := {
  actor_resourceKind : string;
  actor_externalId : option string;
  actor_handle : option string;
}.

Inductive WebhookTriggerActorPolicySkipReason : Type :=
| ACTOR_ATTRIBUTE_UNAVAILABLE
| ACTOR_MISSING
| ACTOR_POLICY_NOT_MATCHED
| MEMBERSHIP_SCOPE_UNAVAILABLE.

Inductive ResolvedWebhookTriggerActorPolicyResult : Type :=
| PolicyMatched
| PolicySkipped (reason : WebhookTriggerActorPolicySkipReason) (detail : string).

(** [value.toString()] on a number that is no exact integer *)
Class NumberText : Type := { double_text : double → string }.

(** Object.prototype has no property a segment leads to a string, a number or a plain object. *)
Fixpoint readPayloadPath (current : option json) (path : list string) : option json :=
  match path with
  | [] => current
  | segment :: path =>
      match current with
      | Some (JObject fields) => readPayloadPath (JsMap.get fields segment) path
      | _ => None
      end
  end.

Section Actor.
Context `{NumberText}.

Definition normalizePayloadReferenceValue (value : option json) : option string :=
  match value with
  | Some (JString s) => let trimmedValue := trim s in if trimmedValue =?= "" then None else Some trimmedValue
  | Some (JNumber (Int n)) => Some (String_of_number n)
  | Some (JNumber x) =>
      match double_of x with Finite units => Some (double_text (Finite units)) | _ => None end
  | _ => None
  end.

Definition resolvePayloadReferenceValue (payload : json) (payloadPath : option (list string)) : option string :=
  match payloadPath with
  | None => None
  | Some payloadPath => normalizePayloadReferenceValue (readPayloadPath (Some payload) payloadPath)
  end.

Definition isPayloadConditionMatched (condition : IntegrationWebhookEventActorReferenceCondition)
    (payload : json) : bool :=
  normalizePayloadReferenceValue (readPayloadPath (Some payload) (payloadPath condition)) =?= Some (equals condition).

Definition isActorReferenceConditionMatched (payload : json)
    (reference : IntegrationWebhookEventActorResourceReference) : bool :=
  match reference_when reference with
  | None => true
  | Some condition => isPayloadConditionMatched condition payload
  end.

Fixpoint resolve_references (payload : json) (references : list IntegrationWebhookEventActorResourceReference)
    : option ResolvedWebhookEventActor :=
  match references with
  | [] => None
  | reference :: references =>
      if negb (isActorReferenceConditionMatched payload reference) then resolve_references payload references
      else
        let externalId := resolvePayloadReferenceValue payload (externalIdPayloadPath reference) in
        let handle := resolvePayloadReferenceValue payload (handlePayloadPath reference) in
        if bool_decide (is_Some externalId) || bool_decide (is_Some handle)
        then Some {| actor_resourceKind := reference_resourceKind reference;
                     actor_externalId := externalId; actor_handle := handle |}
        else resolve_references payload references
  end.

Definition resolveWebhookEventActor (actorDefinition : option IntegrationWebhookEventActorDefinition)
    (payload : json) : option ResolvedWebhookEventActor :=
  match actorDefinition with
  | None => None
  | Some references => resolve_references payload references
  end.

End Actor.

Section Rules.
Context (db : ResourceTables) (connectionId : string).

Definition createResourceReferencePredicate (reference : ActorPolicyResourceReference) (row : ResourceRow) : bool :=
  match reference with
  | ByResourceId _ resourceId => resource_id row =?= resourceId
  | ByExternalId _ externalId => eq_nullable (resource_externalId row) externalId
  | ByHandle _ handle => resource_handle row =?= handle
  end.

Definition resolveActorPolicyResource (reference : ActorPolicyResourceReference) : option ResourceRow :=
  select_first (integrationConnectionResources db)
    (λ row, (resource_connectionId row =?= connectionId) && (resource_kind row =?= reference_kind reference)
            && createResourceReferencePredicate reference row
            && (resource_status row =?= ResourceStatus_ACCESSIBLE) && isNull (resource_removedAt row)).

Definition createEventActorResourceReference (actor : ResolvedWebhookEventActor)
    : string + ActorPolicyResourceReference :=
  match actor_externalId actor with
  | Some externalId => inr (ByExternalId (actor_resourceKind actor) externalId)
  | None =>
      match actor_handle actor with
      | Some handle => inr (ByHandle (actor_resourceKind actor) handle)
      | None => inl "Resolved webhook event actor is missing externalId and handle."
      end
  end.

Definition compareDirectReference (eventActor : ResolvedWebhookEventActor)
    (policyActor : ActorPolicyResourceReference) : option bool :=
  match actor_externalId eventActor, actor_handle eventActor, policyActor with
  | Some externalId, _, ByExternalId _ policyExternalId => Some (externalId =?= policyExternalId)
  | _, Some handle, ByHandle _ policyHandle => Some (handle =?= policyHandle)
  | _, _, _ => None
  end.

Definition evaluateSpecificActorRule (eventActor : ResolvedWebhookEventActor)
    (policyActor : ActorPolicyResourceReference) : string + ActorPolicyQueryResult :=
  if negb (actor_resourceKind eventActor =?= reference_kind policyActor) then inr notMatched
  else
    match compareDirectReference eventActor policyActor with
    | Some directComparison => inr (if directComparison then matched else notMatched)
    | None =>
        eventReference ← createEventActorResourceReference eventActor;
        match resolveActorPolicyResource eventReference with
        | None => inr (dataUnavailable "actor_resource_unavailable")
        | Some eventActorResource =>
            match resolveActorPolicyResource policyActor with
            | None => inr (dataUnavailable "actor_resource_unavailable")
            | Some policyActorResource =>
                inr (if resource_id eventActorResource =?= resource_id policyActorResource then matched else notMatched)
            end
        end
    end.

Definition evaluateActorPolicyRule (actor : ResolvedWebhookEventActor) (rule : WebhookTriggerActorPolicyRule)
    : string + ActorPolicyQueryResult :=
  match rule with
  | ResourceRule policyActor => evaluateSpecificActorRule actor policyActor
  | RelationshipRule actorSet relationshipKind scope =>
      reference ← createEventActorResourceReference actor;
      inr (queryActorPolicyResourceRelationship db connectionId relationshipKind reference actorSet scope)
  end.

(** The loop of [evaluateActorPolicyRules] *)
Fixpoint rules_loop (actor : ResolvedWebhookEventActor) (rules : list WebhookTriggerActorPolicyRule)
    (unavailableResult : option ActorPolicyQueryResult) : string + ActorPolicyQueryResult :=
  match rules with
  | [] => inr (default notMatched unavailableResult)
  | rule :: rules =>
      result ← evaluateActorPolicyRule actor rule;
      if result_state result =?= MATCHED then inr result
      else if (result_state result =?= DATA_UNAVAILABLE) && bool_decide (unavailableResult = None)
      then rules_loop actor rules (Some result)
      else rules_loop actor rules unavailableResult
  end.

Definition evaluateActorPolicyRules (actor : ResolvedWebhookEventActor)
    (rules : list WebhookTriggerActorPolicyRule) : string + ActorPolicyQueryResult :=
  if (length rules =? 0)%nat then inr matched else rules_loop actor rules None.

Definition evaluateActorPolicyExclusionRules (actor : ResolvedWebhookEventActor)
    (rules : list WebhookTriggerActorPolicyRule) : string + ActorPolicyQueryResult :=
  if (length rules =? 0)%nat then inr notMatched
  else
    result ← evaluateActorPolicyRules actor rules;
    if result_state result =?= MATCHED
    then inr {| result_state := MATCHED; result_reason := Some "actor_policy_excluded" |}
    else inr result.

Definition reason_starts_with (result : ActorPolicyQueryResult) (prefix : string) : bool :=
  match result_reason result with Some reason => starts_with reason prefix | None => false end.

Definition mapActorPolicyQueryResultToSkipReason (result : ActorPolicyQueryResult)
    : WebhookTriggerActorPolicySkipReason :=
  if (result_state result =?= NOT_MATCHED) || (result_reason result =?= Some "actor_policy_excluded")
  then ACTOR_POLICY_NOT_MATCHED
  else if reason_starts_with result "actor_attribute_" then ACTOR_ATTRIBUTE_UNAVAILABLE
  else if reason_starts_with result "relationship_scope_" || reason_starts_with result "actor_set_"
  then MEMBERSHIP_SCOPE_UNAVAILABLE
  else ACTOR_MISSING.

Definition state_value (state : ActorPolicyQueryResultState) : string :=
  match state with
  | DATA_UNAVAILABLE => "data_unavailable"
  | MATCHED => "matched"
  | NOT_MATCHED => "not_matched"
  end.

Definition skipped (result : ActorPolicyQueryResult) : ResolvedWebhookTriggerActorPolicyResult :=
  PolicySkipped (mapActorPolicyQueryResultToSkipReason result)
    (default (state_value (result_state result)) (result_reason result)).

(** The [noneOf] rules, at the end of the function *)
Definition resolve_exclusions (actor : ResolvedWebhookEventActor) (policy : WebhookTriggerActorPolicy)
    : string + ResolvedWebhookTriggerActorPolicyResult :=
  exclusionResult ← evaluateActorPolicyExclusionRules actor (default [] (noneOf policy));
  if result_state exclusionResult =?= NOT_MATCHED then inr PolicyMatched else inr (skipped exclusionResult).

Definition resolveWebhookTriggerActorPolicy `{NumberText}
    (actorDefinition : option IntegrationWebhookEventActorDefinition)
    (actorPolicy : option WebhookTriggerActorPolicy) (payload : json)
    : string + ResolvedWebhookTriggerActorPolicyResult :=
  match actorPolicy with
  | None => inr PolicyMatched
  | Some policy =>
      if bool_decide (anyOf policy = None) && bool_decide (noneOf policy = None)
      then inl "Webhook trigger actor policy must include at least one rule list."
      else
        match resolveWebhookEventActor actorDefinition payload with
        | None => inr (PolicySkipped ACTOR_MISSING "actor_missing")
        | Some actor =>
            match anyOf policy with
            | None => resolve_exclusions actor policy
            | Some rules =>
                result ← evaluateActorPolicyRules actor rules;
                if negb (result_state result =?= MATCHED) then inr (skipped result)
                else resolve_exclusions actor policy
            end
        end
  end.

End Rules.

(** ** Selecting rows *)

Lemma select_first_some {A} (rows : list A) condition row :
  select_first rows condition = Some row → row ∈ rows ∧ condition row = true.
Proof. intros [Hin Hcond]%List.find_some. by rewrite list_elem_of_In. Qed.

Lemma select_first_is_some {A} (rows : list A) condition :
  is_Some (select_first rows condition) ↔ ∃ row, row ∈ rows ∧ condition row = true.
Proof.
  split; [intros [row Hrow%select_first_some]; eauto|]. intros (row & Hin & Hcond).
  destruct (select_first rows condition) eqn:Hfirst; [by eexists|].
  apply list_elem_of_In, (List.find_none _ _ Hfirst) in Hin. congruence.
Qed.

(** Where no two rows satisfy the condition, the order of the rows does not matter. *)
Definition unique_row {A} (rows : list A) (condition : A → bool) : Prop :=
  ∀ row row', row ∈ rows → row' ∈ rows → condition row = true → condition row' = true → row = row'.

Lemma select_first_unique {A} (rows : list A) condition row :
  unique_row rows condition → select_first rows condition = Some row ↔ row ∈ rows ∧ condition row = true.
Proof.
  intros Hunique. split; [apply select_first_some|]. intros [Hin Hcond].
  destruct (proj2 (select_first_is_some rows condition)) as [row' Hrow']; [by eexists|].
  rewrite Hrow'. apply select_first_some in Hrow' as [Hin' Hcond']. f_equal. by apply Hunique.
Qed.

Lemma select_first_ext {A} (rows : list A) condition condition' :
  (∀ row, condition row = condition' row) → select_first rows condition = select_first rows condition'.
Proof.
  intros Heq. induction rows as [|row rows IH]; [done|].
  unfold select_first in *. cbn [List.find]. by rewrite Heq, IH.
Qed.

(** The unique indexes of the tables. *)
Record tables_ok (db : ResourceTables) : Prop := {
  unique_id : ∀ row row', row ∈ integrationConnectionResources db → row' ∈ integrationConnectionResources db →
    resource_id row = resource_id row' → row = row';
  unique_handle : ∀ row row', row ∈ integrationConnectionResources db → row' ∈ integrationConnectionResources db →
    resource_connectionId row = resource_connectionId row' → resource_kind row = resource_kind row' →
    resource_handle row = resource_handle row' → row = row';
  unique_externalId : ∀ row row', row ∈ integrationConnectionResources db → row' ∈ integrationConnectionResources db →
    resource_connectionId row = resource_connectionId row' → resource_kind row = resource_kind row' →
    resource_externalId row = resource_externalId row' → is_Some (resource_externalId row) → row = row';
  unique_state : ∀ row row', row ∈ integrationConnectionResourceStates db → row' ∈ integrationConnectionResourceStates db →
    state_connectionId row = state_connectionId row' → state_kind row = state_kind row' → row = row';
}.

(** A reference names a row; an accessible row of the connection. *)
Definition names (connectionId : string) (reference : ActorPolicyResourceReference) (row : ResourceRow) : Prop :=
  resource_connectionId row = connectionId ∧ resource_kind row = reference_kind reference
  ∧ createResourceReferencePredicate reference row = true.

Definition live_resource (row : ResourceRow) : Prop :=
  resource_status row = ResourceStatus_ACCESSIBLE ∧ resource_removedAt row = None.

Section Lookup.
Context (db : ResourceTables) (connectionId : string).
Local Notation resources := (integrationConnectionResources db).

Lemma resolve_condition reference row :
  (resource_connectionId row =?= connectionId) && (resource_kind row =?= reference_kind reference)
  && createResourceReferencePredicate reference row
  && (resource_status row =?= ResourceStatus_ACCESSIBLE) && isNull (resource_removedAt row) = true
  ↔ names connectionId reference row ∧ live_resource row.
Proof. unfold names, live_resource, isNull. rewrite !andb_true_iff, !bool_decide_eq_true. tauto. Qed.

(** The two look-ups of the two files are one. *)
Lemma resolve_agrees reference :
  resolveAccessibleResource db connectionId reference = resolveActorPolicyResource db connectionId reference.
Proof.
  assert (∀ a b c d e, a && b && d && e && c = a && b && c && d && e) as Hrotate by (by intros [] [] [] [] []).
  destruct reference; apply select_first_ext; intros row; unfold accessible; apply Hrotate.
Qed.

Hypothesis Hdb : tables_ok db.

Lemma names_unique reference row row' :
  row ∈ resources → row' ∈ resources → names connectionId reference row → names connectionId reference row' → row = row'.
Proof.
  intros Hin Hin' (Hc & Hk & Hp) (Hc' & Hk' & Hp'). destruct Hdb as [Hid Hhandle Hext _].
  destruct reference; unfold createResourceReferencePredicate, eq_nullable in *;
    apply bool_decide_eq_true in Hp, Hp'; [apply Hid|apply Hext|apply Hhandle]; try done; try congruence.
Qed.

Lemma resolve_some reference row :
  resolveActorPolicyResource db connectionId reference = Some row ↔
  row ∈ resources ∧ names connectionId reference row ∧ live_resource row.
Proof.
  unfold resolveActorPolicyResource. rewrite select_first_unique; [by rewrite resolve_condition|].
  intros r r' Hr Hr' [Hnames _]%resolve_condition [Hnames' _]%resolve_condition. by eapply names_unique.
Qed.
End Lookup.

(** ** The rules *)

Section RuleMeaning.
Context (db : ResourceTables) (connectionId : string).
Local Notation evaluate := (evaluateActorPolicyRule db connectionId).

(** An actor an event names: the resolution never returns another. *)
Definition named_actor (actor : ResolvedWebhookEventActor) : Prop :=
  is_Some (actor_externalId actor) ∨ is_Some (actor_handle actor).

Lemma resolved_actor_named `{NumberText} definition payload actor :
  resolveWebhookEventActor definition payload = Some actor → named_actor actor.
Proof.
  destruct definition as [references|]; [|done]. cbn [resolveWebhookEventActor].
  induction references as [|reference references IH]; [done|]. cbn [resolve_references].
  destruct (negb _); [done|]. destruct (_ || _) eqn:Hsome; [|done]. intros [= <-].
  apply orb_true_iff in Hsome as [Hsome|Hsome]; apply bool_decide_eq_true in Hsome; [by left|by right].
Qed.

(** The reference of an actor: by its external id, or else by its handle. *)
Definition actor_reference (actor : ResolvedWebhookEventActor) : ActorPolicyResourceReference :=
  match actor_externalId actor with
  | Some externalId => ByExternalId (actor_resourceKind actor) externalId
  | None => ByHandle (actor_resourceKind actor) (default "" (actor_handle actor))
  end.

Lemma actor_reference_some actor :
  named_actor actor → createEventActorResourceReference actor = inr (actor_reference actor).
Proof.
  unfold createEventActorResourceReference, actor_reference, named_actor.
  destruct (actor_externalId actor), (actor_handle actor); try done. intros [[]|[]]; done.
Qed.

(** The result of a rule for a named actor, which never is an error. *)
Definition specific_result (actor : ResolvedWebhookEventActor) (policyActor : ActorPolicyResourceReference)
    : ActorPolicyQueryResult :=
  if negb (actor_resourceKind actor =?= reference_kind policyActor) then notMatched
  else
    match compareDirectReference actor policyActor with
    | Some directComparison => if directComparison then matched else notMatched
    | None =>
        match resolveActorPolicyResource db connectionId (actor_reference actor),
              resolveActorPolicyResource db connectionId policyActor with
        | Some row, Some row' => if resource_id row =?= resource_id row' then matched else notMatched
        | _, _ => dataUnavailable "actor_resource_unavailable"
        end
    end.

Definition rule_result (actor : ResolvedWebhookEventActor) (rule : WebhookTriggerActorPolicyRule)
    : ActorPolicyQueryResult :=
  match rule with
  | ResourceRule policyActor => specific_result actor policyActor
  | RelationshipRule actorSet relationshipKind scope =>
      queryActorPolicyResourceRelationship db connectionId relationshipKind (actor_reference actor) actorSet scope
  end.

Lemma rule_result_inr actor rule : named_actor actor → evaluate actor rule = inr (rule_result actor rule).
Proof.
  intros Hnamed. destruct rule as [actorSet kind scope|policyActor]; cbn [evaluateActorPolicyRule rule_result].
  - by rewrite actor_reference_some.
  - unfold evaluateSpecificActorRule, specific_result. destruct (negb _); [done|].
    destruct (compareDirectReference actor policyActor); [done|]. rewrite actor_reference_some by done.
    cbn [mbind sum_bind]. by destruct (resolveActorPolicyResource db connectionId (actor_reference actor)),
      (resolveActorPolicyResource db connectionId policyActor).
Qed.

(** What the loop over rules returns. *)
Definition any_matched actor (rules : list WebhookTriggerActorPolicyRule) : Prop :=
  ∃ rule, rule ∈ rules ∧ result_state (rule_result actor rule) = MATCHED.
Definition none_matched actor (rules : list WebhookTriggerActorPolicyRule) : Prop :=
  ∀ rule, rule ∈ rules → result_state (rule_result actor rule) = NOT_MATCHED.

Lemma any_matched_cons actor rule rules :
  any_matched actor (rule :: rules) ↔ result_state (rule_result actor rule) = MATCHED ∨ any_matched actor rules.
Proof. unfold any_matched. setoid_rewrite elem_of_cons. naive_solver. Qed.

Lemma none_matched_cons actor rule rules :
  none_matched actor (rule :: rules) ↔ result_state (rule_result actor rule) = NOT_MATCHED ∧ none_matched actor rules.
Proof. unfold none_matched. setoid_rewrite elem_of_cons. naive_solver. Qed.

Lemma any_matched_nil actor : ¬ any_matched actor [].
Proof. by intros (? & []%not_elem_of_nil & _). Qed.

Lemma none_matched_nil actor : none_matched actor [].
Proof. by intros ? []%not_elem_of_nil. Qed.

Lemma rules_loop_exact actor rules unavailable :
  named_actor actor → (∀ u, unavailable = Some u → result_state u = DATA_UNAVAILABLE) →
  ∃ result, rules_loop db connectionId actor rules unavailable = inr result
    ∧ (result_state result = MATCHED ↔ any_matched actor rules)
    ∧ (result_state result = NOT_MATCHED ↔ unavailable = None ∧ none_matched actor rules).
Proof.
  intros Hnamed. revert unavailable. induction rules as [|rule rules IH]; intros unavailable Hunavailable;
    cbn [rules_loop].
  - exists (default notMatched unavailable). split; [done|].
    pose proof (any_matched_nil actor). pose proof (none_matched_nil actor).
    destruct unavailable as [u|]; [pose proof (Hunavailable u eq_refl) as Hu|]; cbn; intuition congruence.
  - rewrite rule_result_inr by done. cbn [mbind sum_bind].
    pose proof (any_matched_cons actor rule rules) as Hany. pose proof (none_matched_cons actor rule rules) as Hall.
    destruct (result_state (rule_result actor rule)) eqn:Hstate.
    + destruct (IH (if bool_decide (unavailable = None) then Some (rule_result actor rule) else unavailable))
        as (result & Hresult & Hmatched & Hnone).
      { intros u. case_bool_decide; [by intros [= <-]|auto]. }
      exists result. split; [by case_bool_decide|]. rewrite Hmatched, Hnone.
      split; [intuition congruence|]. case_bool_decide; intuition congruence.
    + exists (rule_result actor rule). split; [done|]. rewrite Hstate. intuition congruence.
    + destruct (IH unavailable Hunavailable) as (result & Hresult & Hmatched & Hnone).
      exists result. split; [done|]. rewrite Hmatched, Hnone. intuition congruence.
Qed.

Lemma rules_exact actor rules :
  named_actor actor →
  ∃ result, evaluateActorPolicyRules db connectionId actor rules = inr result
    ∧ (result_state result = MATCHED ↔ rules = [] ∨ any_matched actor rules).
Proof.
  intros Hnamed. unfold evaluateActorPolicyRules. destruct rules as [|rule rules].
  - exists matched. split; [done|]. split; [by left|done].
  - destruct (rules_loop_exact actor (rule :: rules) None Hnamed) as (result & Hresult & Hmatched & _); [done|].
    exists result. split; [done|]. rewrite Hmatched. split; [by right|by intros [|]].
Qed.

Lemma exclusions_exact actor rules :
  named_actor actor →
  ∃ result, evaluateActorPolicyExclusionRules db connectionId actor rules = inr result
    ∧ (result_state result = NOT_MATCHED ↔ none_matched actor rules).
Proof.
  intros Hnamed. unfold evaluateActorPolicyExclusionRules, evaluateActorPolicyRules. destruct rules as [|rule rules].
  - exists notMatched. split; [done|]. split; [intros _; apply none_matched_nil|done].
  - destruct (rules_loop_exact actor (rule :: rules) None Hnamed) as (result & Hresult & Hmatched & Hnone); [done|].
    cbn [length Nat.eqb]. rewrite Hresult. cbn [mbind sum_bind].
    case_bool_decide as Hstate; eexists; (split; [done|]); simpl.
    + split; [done|]. intros Hall. apply Hmatched in Hstate as (r & Hr & Hmatch). specialize (Hall r Hr). congruence.
    + rewrite Hnone. split; [by intros []|done].
Qed.
End RuleMeaning.

(** ** What the rules look for *)

Section TableMeaning.
Context (db : ResourceTables) (connectionId : string).
Local Notation resources := (integrationConnectionResources db).

Lemma row_exists reference :
  resourceRowExists db connectionId reference = true ↔ ∃ row, row ∈ resources ∧ names connectionId reference row.
Proof.
  destruct reference; cbn [resourceRowExists];
    unfold resourceRowExistsById, resourceRowExistsByExternalId, resourceRowExistsByHandle, names, in_kind;
    rewrite bool_decide_eq_true, select_first_is_some; cbn [reference_kind createResourceReferencePredicate];
    setoid_rewrite andb_true_iff; setoid_rewrite andb_true_iff; setoid_rewrite bool_decide_eq_true; naive_solver.
Qed.

(** One side of a relationship, its columns given, is the resource a reference names: the live
    resource that was found, or, when no resource of that name is known, the name itself. *)
Definition stands_for (reference : ActorPolicyResourceReference) (id : option string) (kind : string)
    (externalId : option string) (handle : string) : Prop :=
  (∃ r, r ∈ resources ∧ names connectionId reference r ∧ live_resource r ∧
     (id = Some (resource_id r) ∨
      (id = None ∧ kind = resource_kind r ∧
       (handle = resource_handle r ∨ (is_Some externalId ∧ externalId = resource_externalId r)))))
  ∨ ((¬ ∃ r, r ∈ resources ∧ names connectionId reference r) ∧
     match reference with
     | ByExternalId k e => kind = k ∧ externalId = Some e
     | ByHandle k h => kind = k ∧ handle = h
     | ByResourceId _ _ => False
     end).

(** The predicate of the two sides, over their columns. *)
Definition side_predicate (reference : ActorPolicyResourceReference) (resource : option ResourceRow)
    : option (option string → string → option string → string → bool) :=
  match resource with
  | Some r =>
      Some (λ id kind externalId handle,
        eq_nullable id (resource_id r)
        || (isNull id &&
            (let handlePredicate := (kind =?= resource_kind r) && (handle =?= resource_handle r) in
             match resource_externalId r with
             | None => handlePredicate
             | Some e => handlePredicate || ((kind =?= resource_kind r) && eq_nullable externalId e)
             end)))
  | None =>
      match reference with
      | ByExternalId k e => Some (λ _ kind externalId _, (kind =?= k) && eq_nullable externalId e)
      | ByHandle k h => Some (λ _ kind _ handle, (kind =?= k) && (handle =?= h))
      | ByResourceId _ _ => None
      end
  end.

Lemma subject_side reference resource :
  createSubjectRelationshipPredicate reference resource =
  (λ side row, side (subjectResourceId row) (subjectResourceKind row) (subjectExternalId row) (subjectHandle row))
    <$> side_predicate reference resource.
Proof. by destruct resource, reference. Qed.

Lemma object_side reference resource :
  createObjectRelationshipPredicate reference resource =
  (λ side row, side (objectResourceId row) (objectResourceKind row) (objectExternalId row) (objectHandle row))
    <$> side_predicate reference resource.
Proof. by destruct resource, reference. Qed.

(** The look-up of a side: a resource that exists but is not accessible makes it fail. *)
Definition side_lookup (reference : ActorPolicyResourceReference) :=
  let resource := resolveAccessibleResource db connectionId reference in
  if bool_decide (resource = None) && resourceRowExists db connectionId reference then None
  else side_predicate reference resource.

Hypothesis Hdb : tables_ok db.

Lemma resolve_spec reference row :
  resolveAccessibleResource db connectionId reference = Some row ↔
  row ∈ resources ∧ names connectionId reference row ∧ live_resource row.
Proof. rewrite resolve_agrees. by apply resolve_some. Qed.

Lemma side_lookup_spec reference id kind externalId handle :
  (∃ side, side_lookup reference = Some side ∧ side id kind externalId handle = true) ↔
  stands_for reference id kind externalId handle.
Proof.
  unfold side_lookup, stands_for. destruct (resolveAccessibleResource _ _ reference) as [r|] eqn:Hr.
  - pose proof (proj1 (resolve_spec reference r) Hr) as (Hin & Hnames & Hlive). cbn [side_predicate].
    rewrite bool_decide_false by done. cbn [andb]. split.
    + intros (side & [= <-] & Hside). left. exists r. split; [done|]. split; [done|]. split; [done|].
      unfold eq_nullable, isNull in Hside. rewrite orb_true_iff, andb_true_iff, !bool_decide_eq_true in Hside.
      destruct Hside as [Hid|[Hid Hside]]; [by left|right]. split; [done|].
      destruct (resource_externalId r) as [e|];
        rewrite ?orb_true_iff, ?andb_true_iff, !bool_decide_eq_true in Hside; [|by destruct Hside; auto].
      destruct Hside as [[? ?]|[? ->]]; auto.
    + intros [(r' & Hin' & Hnames' & _ & Hcols)|[Hnone _]]; [|by destruct Hnone; exists r].
      assert (r' = r) as -> by (by eapply (names_unique db connectionId Hdb)).
      eexists. split; [done|]. unfold eq_nullable, isNull.
      destruct Hcols as [->|(-> & -> & [->|[[e ->] He]])]; 
        [cbn beta; by rewrite (bool_decide_true (Some _ = Some _)) by done| |]; cbn beta.
      * destruct (resource_externalId r); by repeat case_bool_decide.
      * rewrite <- He. by repeat case_bool_decide.
  - assert (¬ ∃ r, r ∈ resources ∧ names connectionId reference r ∧ live_resource r) as Hnone
      by (intros (r & Hr'); apply resolve_spec in Hr'; congruence).
    rewrite bool_decide_true by done. cbn [andb].
    destruct (resourceRowExists db connectionId reference) eqn:Hexists.
    + apply row_exists in Hexists. split; [by intros (? & ? & _)|].
      intros [(r & Hr' & Hn & Hl & _)|[Hunknown _]]; [destruct Hnone; eauto|by destruct Hunknown].
    + assert (¬ ∃ r, r ∈ resources ∧ names connectionId reference r) as Hunknown
        by (rewrite <- row_exists; congruence).
      transitivity (match reference with
        | ByExternalId k e => kind = k ∧ externalId = Some e
        | ByHandle k h => kind = k ∧ handle = h
        | ByResourceId _ _ => False
        end).
      * destruct reference; cbn [side_predicate]; [by split; [intros (? & ? & _)|]| |];
          (split; [intros (side & [= <-] & [?%bool_decide_eq_true ?%bool_decide_eq_true]%andb_true_iff); done|]);
          intros [-> ->]; eexists; (split; [done|]); unfold eq_nullable; by rewrite !bool_decide_true.
      * split; [by right|]. intros [(r & Hr' & Hn & Hl & _)|[_ Hcols]]; [destruct Hnone; eauto|done].
Qed.
End TableMeaning.

(** ** The policy *)

Lemma resolve_exclusions_exact db connectionId actor policy :
  named_actor actor →
  ∃ result, resolve_exclusions db connectionId actor policy = inr result ∧
    (result = PolicyMatched ↔ ∀ rules, noneOf policy = Some rules → none_matched db connectionId actor rules).
Proof.
  intros Hnamed. unfold resolve_exclusions.
  destruct (exclusions_exact db connectionId actor (default [] (noneOf policy)) Hnamed) as (r & -> & Hr).
  cbn [mbind sum_bind].
  assert (none_matched db connectionId actor (default [] (noneOf policy)) ↔
    ∀ rules, noneOf policy = Some rules → none_matched db connectionId actor rules) as Hrules.
  { pose proof (none_matched_nil db connectionId actor).
    destruct (noneOf policy) as [rules|]; [|done]. split; [by intros ? ? [= <-]|auto]. }
  rewrite Hrules in Hr. case_bool_decide as Hstate; eexists; (split; [done|]).
  - split; [intros _; by apply Hr|done].
  - split; [done|]. intros Hall. by destruct Hstate; apply Hr.
Qed.

(** What a policy asks of an event: a known actor, a matching rule of [anyOf] where there is
    that list, and every rule of [noneOf] known not to match. *)
Definition policy_allows `{NumberText} (db : ResourceTables) (connectionId : string)
    (actorDefinition : option IntegrationWebhookEventActorDefinition) (payload : json)
    (policy : WebhookTriggerActorPolicy) : Prop :=
  ∃ actor, resolveWebhookEventActor actorDefinition payload = Some actor ∧
    (∀ rules, anyOf policy = Some rules → rules = [] ∨ any_matched db connectionId actor rules) ∧
    (∀ rules, noneOf policy = Some rules → none_matched db connectionId actor rules).

Lemma policy_exact `{NumberText} db connectionId actorDefinition policy payload :
  is_Some (anyOf policy) ∨ is_Some (noneOf policy) →
  ∃ result, resolveWebhookTriggerActorPolicy db connectionId actorDefinition (Some policy) payload = inr result ∧
    (result = PolicyMatched ↔ policy_allows db connectionId actorDefinition payload policy).
Proof.
  intros Hrules. cbn [resolveWebhookTriggerActorPolicy]. unfold policy_allows.
  destruct (_ && _) eqn:Hempty; [rewrite andb_true_iff, !bool_decide_eq_true in Hempty; destruct Hempty as [Hany Hnone];
    rewrite Hany, Hnone in Hrules; by destruct Hrules as [[]|[]]|clear Hempty Hrules].
  destruct (resolveWebhookEventActor actorDefinition payload) as [actor|] eqn:Hactor; cycle 1.
  { eexists. split; [done|]. split; [done|]. by intros (? & ? & _). }
  destruct (resolve_exclusions_exact db connectionId actor policy) as (r & Hr & Hnone);
    [by eapply resolved_actor_named|]. rewrite Hr.
  destruct (anyOf policy) as [rules|] eqn:Hany; cycle 1.
  { exists r. split; [done|]. rewrite Hnone. split; [by exists actor|]. by intros (? & [= <-] & _ & Hexcluded). }
  destruct (rules_exact db connectionId actor rules) as (u & -> & Hu); [by eapply resolved_actor_named|].
  cbn [mbind sum_bind]. case_bool_decide as Hstate; cbn [negb].
  - exists r. split; [done|]. rewrite Hnone. split; [|by intros (? & [= <-] & _ & Hexcluded)].
    intros Hexcluded. exists actor. split; [done|]. split; [|done]. intros ? [= <-]. by apply Hu.
  - eexists. split; [done|]. split; [done|]. intros (? & [= <-] & Hmatch & _). destruct Hstate. by apply Hu, Hmatch.
Qed.

(** C10: [resolveWebhookTriggerActorPolicy] fails only on a policy without rules.  It lets an event
    through exactly when there is no policy, or when the payload names an actor, some rule of
    [anyOf] (if there is that list) matches the actor and every rule of [noneOf] is known not to:
    missing data never lets an excluded actor through. *)
Theorem actor_policy_decides `{NumberText} (db : ResourceTables) (connectionId : string)
    (actorDefinition : option IntegrationWebhookEventActorDefinition)
    (actorPolicy : option WebhookTriggerActorPolicy) (payload : json) :
  match resolveWebhookTriggerActorPolicy db connectionId actorDefinition actorPolicy payload with
  | inl _ => ∃ policy, actorPolicy = Some policy ∧ anyOf policy = None ∧ noneOf policy = None
  | inr result =>
      result = PolicyMatched ↔
      ∀ policy, actorPolicy = Some policy → policy_allows db connectionId actorDefinition payload policy
  end.
Proof.
  destruct actorPolicy as [policy|]; [|by split].
  destruct (decide (anyOf policy = None ∧ noneOf policy = None)) as [[Hany Hnone]|Hrules].
  - cbn [resolveWebhookTriggerActorPolicy]. rewrite Hany, Hnone. by exists policy.
  - destruct (policy_exact db connectionId actorDefinition policy payload) as (r & -> & Hr).
    + rewrite <- !not_eq_None_Some. destruct (anyOf policy), (noneOf policy); naive_solver.
    + rewrite Hr. split; [by intros ? ? [= <-]|auto].
Qed.

Definition on_subject (side : option string → string → option string → string → bool) (row : RelationshipRow) : bool :=
  side (subjectResourceId row) (subjectResourceKind row) (subjectExternalId row) (subjectHandle row).
Definition on_object (side : option string → string → option string → string → bool) (row : RelationshipRow) : bool :=
  side (objectResourceId row) (objectResourceKind row) (objectExternalId row) (objectHandle row).

(** The query, by its three look-ups. *)
Lemma query_matched db connectionId relationshipKind actor actorSet scope :
  result_state (queryActorPolicyResourceRelationship db connectionId relationshipKind actor actorSet scope) = MATCHED ↔
  ∃ side side' s row, side_lookup db connectionId actor = Some side
    ∧ side_lookup db connectionId actorSet = Some side'
    ∧ resolveAccessibleResource db connectionId scope = Some s
    ∧ kind_synced db connectionId (reference_kind actorSet) = true
    ∧ row ∈ integrationConnectionResourceRelationships db
    ∧ relationship_condition connectionId relationshipKind (on_subject side) (on_object side') s row = true.
Proof.
  unfold queryActorPolicyResourceRelationship, side_lookup, isActorSetResourceKindReadyForRelationships.
  rewrite subject_side, object_side.
  destruct (bool_decide (resolveAccessibleResource db connectionId actor = None) && _);
    [split; [done|by intros (? & ? & ? & ? & ? & _)]|].
  destruct (side_predicate actor _) as [side|]; [|split; [done|by intros (? & ? & ? & ? & ? & _)]]. cbn [fmap option_fmap option_map].
  destruct (bool_decide (resolveAccessibleResource db connectionId actorSet = None) && _);
    [split; [done|by intros (? & ? & ? & ? & _ & ? & _)]|].
  destruct (side_predicate actorSet _) as [side'|]; [|split; [done|by intros (? & ? & ? & ? & _ & ? & _)]].
  cbn [fmap option_fmap option_map].
  destruct (resolveAccessibleResource db connectionId scope) as [s|]; [|split; [done|by intros (? & ? & ? & ? & _ & _ & ? & _)]].
  destruct (kind_synced db connectionId (reference_kind actorSet)); cbn [negb];
    [|split; [done|by intros (? & ? & ? & ? & _ & _ & _ & ? & _)]].
  change (select_first _ _) with (select_first (integrationConnectionResourceRelationships db)
    (relationship_condition connectionId relationshipKind (on_subject side) (on_object side') s)).
  destruct (select_first _ _) as [row|] eqn:Hfirst.
  - apply select_first_some in Hfirst as [Hin Hcond]. split; [|done]. intros _. by exists side, side', s, row.
  - split; [done|]. intros (? & ? & ? & row & [= <-] & [= <-] & [= <-] & _ & Hin & Hcond).
    destruct (proj2 (select_first_is_some _ _) (ex_intro _ row (conj Hin Hcond))) as [? Hsome]. congruence.
Qed.

(** A rule on relationships matches exactly when the connection has a relationship of its
    kind that has not been removed, between the resources its references stand for, in a scope
    that is a live resource, and the kind of the actor set has been synchronised; a resource that
    is known but not accessible stands for nothing. *)
Theorem relationship_matched (db : ResourceTables) (connectionId relationshipKind : string)
    (actor actorSet scope : ActorPolicyResourceReference) :
  tables_ok db →
  result_state (queryActorPolicyResourceRelationship db connectionId relationshipKind actor actorSet scope) = MATCHED ↔
  kind_synced db connectionId (reference_kind actorSet) = true
  ∧ ∃ row s, row ∈ integrationConnectionResourceRelationships db
    ∧ relationship_connectionId row = connectionId ∧ relationship_kind row = relationshipKind
    ∧ relationship_removedAt row = None
    ∧ stands_for db connectionId actor (subjectResourceId row) (subjectResourceKind row)
        (subjectExternalId row) (subjectHandle row)
    ∧ stands_for db connectionId actorSet (objectResourceId row) (objectResourceKind row)
        (objectExternalId row) (objectHandle row)
    ∧ s ∈ integrationConnectionResources db ∧ names connectionId scope s ∧ live_resource s
    ∧ scopeResourceId row = Some (resource_id s).
Proof.
  intros Hdb. setoid_rewrite <- (side_lookup_spec db connectionId Hdb).
  rewrite query_matched. setoid_rewrite (resolve_spec db connectionId Hdb). unfold relationship_condition.
  setoid_rewrite andb_true_iff. unfold on_subject, on_object, eq_nullable, isNull. split.
  - intros (side & side' & s & row & Hside & Hside' & (Hs & Hnames & Hlive) & Hsynced & Hrow & Hcond).
    rewrite !andb_true_iff, !bool_decide_eq_true in Hcond.
    destruct Hcond as [[[[[Hconnection Hkind] Hsubject] Hobject] Hscope] Hremoved].
    split; [done|]. exists row, s. eauto 20.
  - intros (Hsynced & row & s & Hrow & Hconnection & Hkind & Hremoved & (side & Hside & Hsubject) & (side' & Hside' & Hobject)
      & Hs & Hnames & Hlive & Hscope).
    exists side, side', s, row. repeat (split; [done|]). rewrite !andb_true_iff, !bool_decide_eq_true. done.
Qed.


(** A rule on one actor matches the same reference, or references to one live resource. *)
Lemma specific_actor_matched db connectionId actor policyActor :
  tables_ok db →
  result_state (specific_result db connectionId actor policyActor) = MATCHED ↔
  actor_resourceKind actor = reference_kind policyActor ∧
  match compareDirectReference actor policyActor with
  | Some same => same = true
  | None => ∃ row, row ∈ integrationConnectionResources db ∧ live_resource row
              ∧ names connectionId (actor_reference actor) row ∧ names connectionId policyActor row
  end.
Proof.
  intros Hdb. unfold specific_result. case_bool_decide as Hkind; cbn [negb]; [|split; [done|naive_solver]].
  destruct (compareDirectReference actor policyActor) as [[]|]; [by split|by split; [|intros []]|].
  pose proof (resolve_some db connectionId Hdb) as Hresolve.
  destruct (resolveActorPolicyResource db connectionId (actor_reference actor)) as [row|] eqn:Hrow; cycle 1.
  { split; [done|]. intros (_ & row & ? & ? & Hn & _). by rewrite (proj2 (Hresolve _ row)) in Hrow. }
  destruct (resolveActorPolicyResource db connectionId policyActor) as [row'|] eqn:Hrow'; cycle 1.
  { split; [done|]. intros (_ & r & ? & ? & _ & Hn). by rewrite (proj2 (Hresolve _ r)) in Hrow'. }
  apply Hresolve in Hrow as (Hin & Hn & Hlive), Hrow' as (Hin' & Hn' & Hlive').
  case_bool_decide as Hid; simpl; split; try done.
  - intros _. split; [done|]. assert (row = row') as -> by (by apply (unique_id db Hdb)).
    by exists row'.
  - intros (_ & r & Hr & _ & Hr1 & Hr2). destruct Hid.
    by rewrite (names_unique db connectionId Hdb _ row r Hin Hr Hn Hr1),
      (names_unique db connectionId Hdb _ row' r Hin' Hr Hn' Hr2).
Qed.

(** ** An example: a user in a team of an organisation *)

Definition example_resource (id kind externalId handle : string) : ResourceRow :=
  {| resource_id := id; resource_connectionId := "conn"; resource_kind := kind; resource_externalId := Some externalId;
     resource_handle := handle; resource_status := ResourceStatus_ACCESSIBLE; resource_removedAt := None |}.

Definition example_tables : ResourceTables := {|
  integrationConnectionResources :=
    [example_resource "u1" "user" "42" "alice"; example_resource "t1" "team" "7" "core"; example_resource "o1" "org" "1" "acme"];
  integrationConnectionResourceStates :=
    [{| state_connectionId := "conn"; state_kind := "team"; state_syncState := "ready"; state_lastSyncedAt := Some "now" |}];
  integrationConnectionResourceAttributes := [];
  integrationConnectionResourceRelationships :=
    [{| relationship_connectionId := "conn"; relationship_kind := "member";
        subjectResourceId := Some "u1"; subjectResourceKind := "user"; subjectExternalId := Some "42"; subjectHandle := "alice";
        objectResourceId := None; objectResourceKind := "team"; objectExternalId := None; objectHandle := "core";
        scopeResourceId := Some "o1"; relationship_removedAt := None |}];
|}.

Lemma example_tables_ok : tables_ok example_tables.
Proof.
  split; intros row row' Hrow Hrow'; cbn in Hrow, Hrow';
    repeat (apply elem_of_cons in Hrow as [->|Hrow]); try (by apply not_elem_of_nil in Hrow);
    repeat (apply elem_of_cons in Hrow' as [->|Hrow']); try (by apply not_elem_of_nil in Hrow'); done.
Qed.

Lemma relationship_matched_witness :
  tables_ok example_tables ∧
  ∃ row s, row ∈ integrationConnectionResourceRelationships example_tables
    ∧ stands_for example_tables "conn" (ByExternalId "user" "42") (subjectResourceId row) (subjectResourceKind row)
        (subjectExternalId row) (subjectHandle row)
    ∧ names "conn" (ByHandle "org" "acme") s ∧ scopeResourceId row = Some (resource_id s).
Proof.
  split; [exact example_tables_ok|].
  destruct (proj1 (relationship_matched example_tables "conn" "member" (ByExternalId "user" "42")
    (ByHandle "team" "core") (ByHandle "org" "acme") example_tables_ok) eq_refl)
    as (_ & row & s & Hrow & _ & _ & _ & Hsubject & _ & _ & Hscope & _ & Hid).
  exists row, s. auto.
Defined.

(** An event by alice, in the team: let through unless the team is excluded; without the data
    of the team an exclusion cannot be ruled out. *)
Example actor_policy_cases :
  let unused : NumberText := {| double_text := λ _, "" |} in
  let definition := Some [{| reference_resourceKind := "user"; externalIdPayloadPath := Some ["sender"; "id"];
                             handlePayloadPath := Some ["sender"; "login"]; reference_when := None |}] in
  let payload := JObject [("sender", JObject [("id", JNumber (Int 42)); ("login", JString " alice ")])] in
  let in_team := RelationshipRule (ByHandle "team" "core") "member" (ByHandle "org" "acme") in
  let elsewhere := RelationshipRule (ByHandle "group" "core") "member" (ByHandle "org" "acme") in
  let resolve policy := resolveWebhookTriggerActorPolicy example_tables "conn" definition (Some policy) payload in
  resolve {| anyOf := Some [in_team]; noneOf := None |} = inr PolicyMatched
  ∧ resolve {| anyOf := None; noneOf := Some [in_team] |} = inr (PolicySkipped ACTOR_POLICY_NOT_MATCHED "actor_policy_excluded")
  ∧ resolve {| anyOf := None; noneOf := Some [elsewhere] |}
    = inr (PolicySkipped MEMBERSHIP_SCOPE_UNAVAILABLE "actor_set_resource_kind_not_ready")
  ∧ resolve {| anyOf := Some [ResourceRule (ByHandle "user" "bob"); ResourceRule (ByResourceId "user" "u1")]; noneOf := None |}
    = inr PolicyMatched.
Proof. by vm_compute. Qed.
