(* ===== verification/TriggerRouting.v ===== *)
(** * Which triggers and sandboxes an event reaches

    - apps/control-plane-worker/openworkflow/handle-integration-webhook-event/
      resolve-webhook-trigger-targets.ts: the triggers of an organisation whose conditions an
      event of a webhook source satisfies, and the sandbox profiles they start;
    - shared/associated-resource-routing.ts: whether an event on a provider resource is routed to
      the sandbox the resource is associated with.

    Both put together the parser (PayloadFilter.v), the evaluator (FilterEvaluation.v) and the
    actor policies (ActorPolicy.v).  The tables are lists of rows in an order the database
    chooses; log lines are left out.  Errors are the messages of the exceptions.

    [resolved_targets]: on stored conditions that parse, the result lists, for every enabled
    trigger of the source and the organisation with a condition that holds, its targets, and
    nothing else.  [associated_event_supported] is the same for associated resources. *)

From S2P Require Import Prelude JsMap Json JsNumber TokenSearch Zod PayloadFilter FilterEvaluation ActorPolicy PlanTypes.
Local Open Scope Z_scope.

(** ** Rows *)

Record WebhookTriggerEventCondition : Type := {
  condition_eventType : string;
  condition_actorPolicy : option WebhookTriggerActorPolicy;
  condition_payloadFilter : option json;
}.

Record WebhookTriggerRow : Type := {
  webhook_triggerId : string;
  webhook_integrationWebhookSourceId : string;
  webhook_eventConditions : list WebhookTriggerEventCondition;
  webhook_conversationKeyTemplate : string;
}.

Record TriggerRow : Type := {
  trigger_id : string;
  trigger_organizationId : string;
  trigger_kind : string;
  trigger_enabled : bool;
}.

Record TriggerTargetRow : Type := {
  target_id : string;
  target_triggerId : string;
  target_sandboxProfileId : string;
  target_sandboxProfileVersion : Z;
}.

Record IntegrationTargetRow : Type := {
  integration_targetKey : string;
  integration_familyId : string;
  integration_variantId : string;
}.

Record ControlPlaneTables : Type := {
  webhookTriggers : list WebhookTriggerRow;
  triggers : list TriggerRow;
  triggerTargets : list TriggerTargetRow;
  integrationTargets : list IntegrationTargetRow;
  resource_tables : ResourceTables;
}.

Definition TriggerKinds_WEBHOOK : string := "webhook".

(** The events an integration definition knows, with the actor of each. *)
Record WebhookEventDefinition : Type := {
  event_eventType : string;
  event_actor : option IntegrationWebhookEventActorDefinition;
}.

Record ResolveWebhookTriggerTargetsInput : Type := {
  input_organizationId : string;
  input_integrationConnectionId : string;
  input_integrationWebhookSourceId : string;
  input_targetKey : string;
  input_eventType : string;
  input_payload : json;
  (** [integrationRegistry.getDefinition(...)], its [supportedWebhookEvents] *)
  input_getDefinition : string → string → option (option (list WebhookEventDefinition));
}.

Record ResolvedWebhookTriggerTarget : Type := {
  resolved_triggerId : string;
  resolved_triggerTargetId : string;
  resolved_sandboxProfileId : string;
  resolved_sandboxProfileVersion : Z;
  resolved_conversationKeyTemplate : string;
}.

(** ** resolve-webhook-trigger-targets.ts *)

Section Resolve.
Context `{Zod, ZodIssues, Unicode, NumberText}.
Context (db : ControlPlaneTables) (input : ResolveWebhookTriggerTargetsInput).

Definition isActorPolicyMatched (actorDefinition : option IntegrationWebhookEventActorDefinition)
    (actorPolicy : option WebhookTriggerActorPolicy) : string + bool :=
  result ← resolveWebhookTriggerActorPolicy (resource_tables db) (input_integrationConnectionId input)
             actorDefinition actorPolicy (input_payload input);
  inr (match result with PolicyMatched => true | PolicySkipped _ _ => false end).

(** The body of the loop of [isWebhookTriggerMatched]: [true] is its [return true]. *)
Definition condition_matched (actorDefinition : option IntegrationWebhookEventActorDefinition)
    (condition : WebhookTriggerEventCondition) : string + bool :=
  if negb (condition_eventType condition =?= input_eventType input) then inr false
  else
    match condition_payloadFilter condition with
    | None | Some JNull => isActorPolicyMatched actorDefinition (condition_actorPolicy condition)
    | Some stored =>
        filter ← parseWebhookPayloadFilter stored;
        if evaluateWebhookPayloadFilter filter (input_payload input)
        then isActorPolicyMatched actorDefinition (condition_actorPolicy condition)
        else inr false
    end.

Definition isWebhookTriggerMatched (actorDefinition : option IntegrationWebhookEventActorDefinition)
    (eventConditions : list WebhookTriggerEventCondition) : string + bool :=
  try_some (condition_matched actorDefinition) eventConditions.

Definition hasActorPolicy (rows : list WebhookTriggerRow) : bool :=
  existsb (λ row, existsb (λ condition, bool_decide (is_Some (condition_actorPolicy condition)))
                    (webhook_eventConditions row)) rows.

Definition resolveWebhookEventActorDefinition : string + option IntegrationWebhookEventActorDefinition :=
  match select_first (integrationTargets db) (λ row, integration_targetKey row =?= input_targetKey input) with
  | None => inl ("Integration target '" +:+ input_targetKey input +:+ "' was not found.")
  | Some target =>
      match input_getDefinition input (integration_familyId target) (integration_variantId target) with
      | None => inl ("Integration definition '" +:+ integration_familyId target +:+ "::"
                     +:+ integration_variantId target +:+ "' was not found.")
      | Some supportedWebhookEvents =>
          inr (definition ← List.find (λ candidate, event_eventType candidate =?= input_eventType input)
                              (default [] supportedWebhookEvents);
               event_actor definition)
      end
  end.

(** The loop that collects the eligible triggers *)
Fixpoint eligible_loop (actorDefinition : option IntegrationWebhookEventActorDefinition)
    (rows : list WebhookTriggerRow) : string + list WebhookTriggerRow :=
  match rows with
  | [] => inr []
  | row :: rows =>
      matched ← isWebhookTriggerMatched actorDefinition (webhook_eventConditions row);
      eligible ← eligible_loop actorDefinition rows;
      inr (if matched : bool then row :: eligible else eligible)
  end.

(** The loop that groups the targets by their trigger *)
Definition group_target (groups : JsMap.t string (list TriggerTargetRow)) (row : TriggerTargetRow)
    : JsMap.t string (list TriggerTargetRow) :=
  match JsMap.get groups (target_triggerId row) with
  | None => JsMap.set groups (target_triggerId row) [row]
  | Some rows => JsMap.set groups (target_triggerId row) (rows ++ [row])
  end.

Definition resolved_target (trigger : WebhookTriggerRow) (target : TriggerTargetRow) : ResolvedWebhookTriggerTarget := {|
  resolved_triggerId := webhook_triggerId trigger;
  resolved_triggerTargetId := target_id target;
  resolved_sandboxProfileId := target_sandboxProfileId target;
  resolved_sandboxProfileVersion := target_sandboxProfileVersion target;
  resolved_conversationKeyTemplate := webhook_conversationKeyTemplate trigger;
|}.

Definition enabled_trigger (ids : list string) (trigger : TriggerRow) : bool :=
  (trigger_organizationId trigger =?= input_organizationId input) && (trigger_kind trigger =?= TriggerKinds_WEBHOOK)
  && Bool.eqb (trigger_enabled trigger) true && bool_decide (trigger_id trigger ∈ ids).

Definition resolveWebhookTriggerTargets : string + list ResolvedWebhookTriggerTarget :=
  let candidateWebhookTriggers :=
    List.filter (λ row, webhook_integrationWebhookSourceId row =?= input_integrationWebhookSourceId input)
      (webhookTriggers db) in
  if (length candidateWebhookTriggers =? 0)%nat then inr []
  else
    let candidateTriggerIds := List.map webhook_triggerId candidateWebhookTriggers in
    let enabledTriggers := List.filter (enabled_trigger candidateTriggerIds) (triggers db) in
    let enabledTriggersById := List.map trigger_id enabledTriggers in
    let enabledCandidateWebhookTriggers :=
      List.filter (λ row, bool_decide (webhook_triggerId row ∈ enabledTriggersById)) candidateWebhookTriggers in
    actorDefinition ← (if hasActorPolicy enabledCandidateWebhookTriggers
                       then resolveWebhookEventActorDefinition else inr None);
    eligibleWebhookTriggers ← eligible_loop actorDefinition enabledCandidateWebhookTriggers;
    if (length eligibleWebhookTriggers =? 0)%nat then inr []
    else
      let eligibleTriggerIds := List.map webhook_triggerId eligibleWebhookTriggers in
      let targetRows := List.filter (λ row, bool_decide (target_triggerId row ∈ eligibleTriggerIds)) (triggerTargets db) in
      let targetsByTriggerId := foldl group_target JsMap.empty targetRows in
      inr (flat_map (λ trigger, List.map (resolved_target trigger)
             (default [] (JsMap.get targetsByTriggerId (webhook_triggerId trigger)))) eligibleWebhookTriggers).

End Resolve.

(** ** Conditions *)

Section Conditions.
Context `{ZodLaws, ZodIssues, Unicode, NumberText}.
Context (db : ControlPlaneTables) (input : ResolveWebhookTriggerTargetsInput).

(** The stored filter, if there is one: [undefined] and [null] are none. *)
Definition stored_filter (stored : option json) : option json :=
  match stored with Some JNull => None | stored => stored end.

(** Stored filters the parser takes, and policies with rules. *)
Definition filter_stored_ok (stored : option json) : Prop :=
  ∀ v, stored_filter stored = Some v → ∃ f, parseWebhookPayloadFilter v = inr f.

Definition condition_ok (condition : WebhookTriggerEventCondition) : Prop :=
  filter_stored_ok (condition_payloadFilter condition) ∧
  ∀ policy, condition_actorPolicy condition = Some policy → is_Some (anyOf policy) ∨ is_Some (noneOf policy).

(** What a stored filter asks of the payload. *)
Definition filter_holds (stored : option json) (payload : json) : Prop :=
  ∀ v, stored_filter stored = Some v → ∃ f, parseWebhookPayloadFilter v = inr f ∧ holds payload f.

Definition condition_holds (actorDefinition : option IntegrationWebhookEventActorDefinition)
    (condition : WebhookTriggerEventCondition) : Prop :=
  condition_eventType condition = input_eventType input
  ∧ filter_holds (condition_payloadFilter condition) (input_payload input)
  ∧ ∀ policy, condition_actorPolicy condition = Some policy →
      policy_allows (resource_tables db) (input_integrationConnectionId input) actorDefinition
        (input_payload input) policy.

Lemma actor_policy_matched actorDefinition condition :
  condition_ok condition →
  ∃ b, isActorPolicyMatched db input actorDefinition (condition_actorPolicy condition) = inr b ∧
    (b = true ↔ ∀ policy, condition_actorPolicy condition = Some policy →
       policy_allows (resource_tables db) (input_integrationConnectionId input) actorDefinition
         (input_payload input) policy).
Proof.
  intros [_ Hpolicy]. unfold isActorPolicyMatched.
  destruct (condition_actorPolicy condition) as [policy|]; [|by exists true].
  destruct (policy_exact (resource_tables db) (input_integrationConnectionId input) actorDefinition policy
    (input_payload input) (Hpolicy policy eq_refl)) as (r & -> & Hr).
  cbn [mbind sum_bind]. eexists. split; [done|]. transitivity (r = PolicyMatched); [by destruct r|].
  rewrite Hr. split; [by intros ? ? [= <-]|auto].
Qed.

Lemma condition_exact actorDefinition condition :
  condition_ok condition →
  ∃ b, condition_matched db input actorDefinition condition = inr b ∧
    (b = true ↔ condition_holds actorDefinition condition).
Proof.
  intros Hok. destruct (actor_policy_matched actorDefinition condition Hok) as (b & Hb & Hpolicy).
  unfold condition_matched, condition_holds. rewrite Hb.
  case_bool_decide as Htype; cbn [negb]; [|by exists false; split; [|split; [|intros []]]].
  destruct Hok as [Hstored _]. unfold filter_holds, filter_stored_ok in *.
  destruct (stored_filter (condition_payloadFilter condition)) as [v|] eqn:Hv.
  - destruct (Hstored v eq_refl) as [f Hf]. pose proof (evaluate_meaning (input_payload input) f) as Hmeaning.
    exists (evaluateWebhookPayloadFilter f (input_payload input) && b). split.
    + destruct (condition_payloadFilter condition) as [[]|]; try done; injection Hv as <-;
        rewrite Hf; cbn [mbind sum_bind]; by destruct (evaluateWebhookPayloadFilter _ _).
    + rewrite andb_true_iff, Hmeaning, Hpolicy. split.
      * intros [Hholds Hallows]. split; [done|]. split; [|done]. intros ? [= <-]. eauto.
      * intros (_ & Hholds & Hallows). destruct (Hholds v eq_refl) as (f' & Hf' & Hf'').
        assert (f' = f) as -> by congruence. done.
  - exists b. split; [destruct (condition_payloadFilter condition) as [[]|]; done|].
    rewrite Hpolicy. split; [done|]. by intros (_ & _ & ?).
Qed.

(** ** Triggers *)

Definition trigger_holds (actorDefinition : option IntegrationWebhookEventActorDefinition)
    (row : WebhookTriggerRow) : Prop :=
  Exists (condition_holds actorDefinition) (webhook_eventConditions row).

Lemma trigger_exact actorDefinition row :
  Forall condition_ok (webhook_eventConditions row) →
  ∃ b, isWebhookTriggerMatched db input actorDefinition (webhook_eventConditions row) = inr b ∧
    (b = true ↔ trigger_holds actorDefinition row).
Proof.
  intros Hok. apply try_some_exact. eapply Forall_impl; [exact Hok|]. intros condition. apply condition_exact.
Qed.

Lemma eligible_exact actorDefinition rows :
  Forall (λ row, Forall condition_ok (webhook_eventConditions row)) rows →
  ∃ eligible, eligible_loop db input actorDefinition rows = inr eligible ∧
    ∀ row, row ∈ eligible ↔ row ∈ rows ∧ trigger_holds actorDefinition row.
Proof.
  induction 1 as [|row rows Hok _ (eligible & Heligible & Hspec)]; cbn [eligible_loop].
  - exists []. split; [done|]. intros row. rewrite elem_of_nil. split; [done|by intros []].
  - destruct (trigger_exact actorDefinition row Hok) as (b & -> & Hb). rewrite Heligible. cbn [mbind sum_bind].
    eexists. split; [done|]. intros row'. destruct b; rewrite ?elem_of_cons, Hspec.
    + split; [intros [->|[? ?]]; (split; [auto|])|intros [[->|?] ?]; auto]; [by apply Hb|done].
    + split; [intros [? ?]; auto|]. intros [[->|Hin] Hholds]; [by apply Hb in Hholds|done].
Qed.

(** Without a policy, the actor of the event does not matter. *)
Lemma trigger_holds_actor actorDefinition actorDefinition' row :
  existsb (λ condition, bool_decide (is_Some (condition_actorPolicy condition))) (webhook_eventConditions row) = false →
  trigger_holds actorDefinition row ↔ trigger_holds actorDefinition' row.
Proof.
  unfold trigger_holds. generalize (webhook_eventConditions row). intros conditions.
  induction conditions as [|condition conditions IH]; [by rewrite !Exists_nil|]. cbn [existsb].
  intros [Hnone%bool_decide_eq_false Hrest]%orb_false_iff. rewrite !Exists_cons, (IH Hrest).
  apply eq_None_not_Some in Hnone. unfold condition_holds. rewrite Hnone.
  assert (∀ P : WebhookTriggerActorPolicy → Prop, (∀ policy, None = Some policy → P policy) ↔ True) as Hvacuous by done.
  by rewrite !Hvacuous.
Qed.
End Conditions.

(** ** Targets by trigger *)

Lemma groups_get rows groups id :
  JsMap.get (foldl group_target groups rows) id =
  match List.filter (λ row, target_triggerId row =?= id) rows with
  | [] => JsMap.get groups id
  | matching => Some (default [] (JsMap.get groups id) ++ matching)
  end.
Proof.
  revert groups. induction rows as [|row rows IH]; intros groups; [done|]. cbn [foldl List.filter]. rewrite IH.
  unfold group_target. case_bool_decide as Hid.
  - subst id. destruct (JsMap.get groups (target_triggerId row)) as [old|]; rewrite JsMap.get_set_eq; simpl;
      destruct (List.filter _ rows); by rewrite <- ?app_assoc.
  - destruct (JsMap.get groups (target_triggerId row)) as [old|]; by rewrite JsMap.get_set_ne.
Qed.

Lemma groups_elements rows id target :
  target ∈ default [] (JsMap.get (foldl group_target JsMap.empty rows) id) ↔ target ∈ rows ∧ target_triggerId target = id.
Proof.
  rewrite groups_get, JsMap.get_empty. cbn [default].
  assert (target ∈ List.filter (λ row, target_triggerId row =?= id) rows ↔ target ∈ rows ∧ target_triggerId target = id)
    as <- by (rewrite !list_elem_of_In, List.filter_In, bool_decide_eq_true; done).
  by destruct (List.filter _ rows).
Qed.

Lemma elem_of_filter_bool {A} (f : A → bool) (l : list A) x : x ∈ List.filter f l ↔ x ∈ l ∧ f x = true.
Proof. by rewrite !list_elem_of_In, List.filter_In. Qed.

Lemma elem_of_map {A B} (f : A → B) (l : list A) y : y ∈ List.map f l ↔ ∃ x, x ∈ l ∧ y = f x.
Proof. rewrite list_elem_of_In, List.in_map_iff. setoid_rewrite list_elem_of_In. naive_solver. Qed.

Section Targets.
Context `{ZodLaws, ZodIssues, Unicode, NumberText}.
Context (db : ControlPlaneTables) (input : ResolveWebhookTriggerTargetsInput).

(** A trigger of the source, enabled in the organisation. *)
Definition candidate (row : WebhookTriggerRow) : Prop :=
  row ∈ webhookTriggers db ∧ webhook_integrationWebhookSourceId row = input_integrationWebhookSourceId input
  ∧ ∃ trigger, trigger ∈ triggers db ∧ trigger_id trigger = webhook_triggerId row
      ∧ trigger_organizationId trigger = input_organizationId input
      ∧ trigger_kind trigger = TriggerKinds_WEBHOOK ∧ trigger_enabled trigger = true.

Definition candidates : list WebhookTriggerRow :=
  List.filter (λ row, webhook_integrationWebhookSourceId row =?= input_integrationWebhookSourceId input) (webhookTriggers db).

Definition enabled_candidates : list WebhookTriggerRow :=
  List.filter (λ row, bool_decide (webhook_triggerId row ∈
      List.map trigger_id (List.filter (enabled_trigger input (List.map webhook_triggerId candidates)) (triggers db))))
    candidates.

Lemma candidates_spec row :
  row ∈ candidates ↔
  row ∈ webhookTriggers db ∧ webhook_integrationWebhookSourceId row = input_integrationWebhookSourceId input.
Proof. unfold candidates. by rewrite elem_of_filter_bool, bool_decide_eq_true. Qed.

Lemma enabled_candidates_spec row : row ∈ enabled_candidates ↔ candidate row.
Proof.
  unfold enabled_candidates, candidate.
  rewrite elem_of_filter_bool, candidates_spec, bool_decide_eq_true, elem_of_map.
  setoid_rewrite elem_of_filter_bool. unfold enabled_trigger. split.
  - intros [[Hrow Hsource] (trigger & [Htrigger Henabled] & Hid)]. split; [done|]. split; [done|].
    rewrite !andb_true_iff, !bool_decide_eq_true in Henabled.
    destruct Henabled as [[[Horg Hkind] Hon%Bool.eqb_prop] _]. by exists trigger.
  - intros (Hrow & Hsource & trigger & Htrigger & Hid & Horg & Hkind & Hon). split; [done|].
    exists trigger. split; [|done]. split; [done|].
    rewrite !andb_true_iff, !bool_decide_eq_true, Hon. repeat (split; [done|]).
    apply elem_of_map. exists row. split; [by apply candidates_spec|done].
Qed.

(** Where no policy needs it, the actor of the event is not looked up. *)
Lemma used_definition actorDefinition :
  resolveWebhookEventActorDefinition db input = inr actorDefinition →
  ∃ used, (if hasActorPolicy enabled_candidates then resolveWebhookEventActorDefinition db input else inr None) = inr used
    ∧ ∀ row, row ∈ enabled_candidates →
        trigger_holds db input used row ↔ trigger_holds db input actorDefinition row.
Proof.
  intros Hdefinition. destruct (hasActorPolicy _) eqn:Hhas; [by exists actorDefinition|]. exists None. split; [done|].
  intros row Hrow. apply trigger_holds_actor. apply not_true_is_false. intros Hsome.
  apply not_true_iff_false in Hhas. apply Hhas. apply existsb_exists. exists row. by rewrite <- list_elem_of_In.
Qed.

(** The targets of a list of triggers, from the rows kept for them. *)
Lemma targets_of_spec eligible t :
  t ∈ flat_map (λ trigger, List.map (resolved_target trigger)
        (default [] (JsMap.get (foldl group_target JsMap.empty
           (List.filter (λ row, bool_decide (target_triggerId row ∈ List.map webhook_triggerId eligible)) (triggerTargets db)))
           (webhook_triggerId trigger)))) eligible ↔
  ∃ row target, row ∈ eligible ∧ target ∈ triggerTargets db ∧ target_triggerId target = webhook_triggerId row
    ∧ t = resolved_target row target.
Proof.
  rewrite list_elem_of_In, in_flat_map. setoid_rewrite <- list_elem_of_In. setoid_rewrite elem_of_map.
  setoid_rewrite groups_elements. setoid_rewrite elem_of_filter_bool. setoid_rewrite bool_decide_eq_true. split.
  - intros (row & Hrow & target & [[Htarget _] Hid] & ->). eauto 10.
  - intros (row & target & Hrow & Htarget & Hid & ->). exists row. split; [done|]. exists target.
    split; [|done]. split; [|done]. split; [done|]. rewrite Hid. apply elem_of_map. eauto.
Qed.

End Targets.

(** C9: On stored conditions that parse, [resolveWebhookTriggerTargets] returns exactly the targets
    of the enabled webhook triggers of the organisation and the source with a condition on the
    event's type whose payload filter the payload satisfies and whose actor policy lets the
    event's actor through. *)
Theorem resolved_targets `{ZodLaws, ZodIssues, Unicode, NumberText} (db : ControlPlaneTables)
    (input : ResolveWebhookTriggerTargetsInput) (actorDefinition : option IntegrationWebhookEventActorDefinition) :
  Forall (λ row, Forall condition_ok (webhook_eventConditions row)) (webhookTriggers db) →
  resolveWebhookEventActorDefinition db input = inr actorDefinition →
  ∃ targets, resolveWebhookTriggerTargets db input = inr targets ∧
    ∀ t, t ∈ targets ↔
      ∃ row target, candidate db input row ∧ Exists (condition_holds db input actorDefinition) (webhook_eventConditions row)
        ∧ target ∈ triggerTargets db ∧ target_triggerId target = webhook_triggerId row ∧ t = resolved_target row target.
Proof.
  intros Hok Hdefinition. unfold resolveWebhookTriggerTargets. cbn zeta.
  fold (candidates db input). fold (enabled_candidates db input).
  setoid_rewrite <- enabled_candidates_spec. fold (trigger_holds db input actorDefinition).
  destruct (Nat.eqb_spec (length (candidates db input)) 0) as [Hempty|_].
  { exists []. split; [done|]. intros t. rewrite elem_of_nil. split; [done|]. intros (row & _ & Hrow & _).
    apply enabled_candidates_spec in Hrow as (Hin & Hsource & _).
    apply length_zero_iff_nil in Hempty. apply (not_elem_of_nil row). rewrite <- Hempty. by apply candidates_spec. }
  destruct (used_definition db input actorDefinition Hdefinition) as (used & -> & Hused). cbn [mbind sum_bind].
  destruct (eligible_exact db input used (enabled_candidates db input)) as (eligible & -> & Heligible).
  { rewrite Forall_forall in *. intros row (Hin & _)%enabled_candidates_spec. by apply Hok. }
  cbn [mbind sum_bind]. eexists. split.
  { instantiate (1 := flat_map _ eligible). by destruct eligible. }
  intros t. rewrite targets_of_spec. unfold trigger_holds in *. split.
  - intros (row & target & Hrow & Hrest). apply Heligible in Hrow as [Hrow Hholds].
    exists row, target. split; [done|]. split; [by apply Hused|done].
  - intros (row & target & Hrow & Hholds & Hrest). exists row, target. split; [|done].
    apply Heligible. split; [done|]. by apply Hused.
Qed.

(** ** associated-resource-routing.ts

    The routing is the one of the runtime plan (PlanTypes.v). *)

(** The capability of the integration: [supportsRoutingEvent], where it has that function, on the
    event type, the payload, the rule and the type of the source event; it may throw. *)
Record AssociatedResourceEventsCapability : Type := {
  supportsRoutingEvent :
    option (string → json → AssociatedResourceEventRoutingResourceRule → string → string + bool);
}.

Section Associated.
Context `{Zod, ZodIssues, Unicode}.
Context (capability : AssociatedResourceEventsCapability) (eventType : string) (payload : json)
  (resourceKind sourceWebhookEventType : string).

Definition payloadFilterAllowsAssociatedResourceEvent (eventScopedPayloadFilter : option json) : string + bool :=
  match eventScopedPayloadFilter with
  | None => inr true
  | Some stored => filter ← parseWebhookPayloadFilter stored; inr (evaluateWebhookPayloadFilter filter payload)
  end.

Definition capability_supports (resource : AssociatedResourceEventRoutingResourceRule) : string + bool :=
  match supportsRoutingEvent capability with
  | None => inr true
  | Some supports => supports eventType payload resource sourceWebhookEventType
  end.

(** [resource.payloadFilter?.[eventType]] *)
Definition scoped_filter (resource : AssociatedResourceEventRoutingResourceRule) : option json :=
  filters ← rule_payloadFilter resource; JsMap.get filters eventType.

(** The body of the loop: [true] is its [return true]. *)
Definition rule_supports (resource : AssociatedResourceEventRoutingResourceRule) : string + bool :=
  if negb (rule_resourceKind resource =?= resourceKind) then inr false
  else
    supported ← capability_supports resource;
    if negb supported then inr false
    else if negb (bool_decide (eventType ∈ rule_eventTypes resource)) then inr false
    else payloadFilterAllowsAssociatedResourceEvent (scoped_filter resource).

Definition supportsAssociatedResourceEvent (routing : option AssociatedResourceEventRouting) : string + bool :=
  match routing with
  | None => inr false
  | Some routing => if negb (routing_enabled routing) then inr false else try_some rule_supports (routing_resources routing)
  end.

(** What a rule asks of an event. *)
Definition rule_holds (resource : AssociatedResourceEventRoutingResourceRule) : Prop :=
  rule_resourceKind resource = resourceKind ∧ capability_supports resource = inr true
  ∧ eventType ∈ rule_eventTypes resource
  ∧ ∀ v, scoped_filter resource = Some v → ∃ f, parseWebhookPayloadFilter v = inr f ∧ holds payload f.

(** Rules whose filter parses, on which the capability does not throw. *)
Definition rule_ok (resource : AssociatedResourceEventRoutingResourceRule) : Prop :=
  (∃ b, capability_supports resource = inr b)
  ∧ ∀ v, scoped_filter resource = Some v → ∃ f, parseWebhookPayloadFilter v = inr f.

Lemma rule_exact resource :
  rule_ok resource → ∃ b, rule_supports resource = inr b ∧ (b = true ↔ rule_holds resource).
Proof.
  intros [[supported Hsupported] Hstored]. unfold rule_supports, rule_holds. rewrite Hsupported.
  case_bool_decide as Hkind; cbn [negb]; [|by exists false; split; [|split; [|intros []]]].
  cbn [mbind sum_bind]. destruct supported; cbn [negb]; [|exists false; split; [done|split; [done|by intros (_ & ? & _)]]].
  case_bool_decide as Htype; cbn [negb]; [|exists false; split; [done|split; [done|by intros (_ & _ & ? & _)]]].
  unfold payloadFilterAllowsAssociatedResourceEvent.
  destruct (scoped_filter resource) as [v|] eqn:Hv; [|by exists true].
  destruct (Hstored v eq_refl) as [f Hf]. rewrite Hf. cbn [mbind sum_bind]. eexists. split; [done|].
  rewrite evaluate_meaning. split.
  - intros Hholds. repeat (split; [done|]). intros ? [= <-]. eauto.
  - intros (_ & _ & _ & Hholds). destruct (Hholds v eq_refl) as (f' & Hf' & ?). by assert (f' = f) as -> by congruence.
Qed.

End Associated.

(** On rules whose filters parse, an event on an associated resource is supported exactly when
    routing is enabled and a rule of the resource's kind lists the event type, is supported by
    the integration, and has no filter for the event or one the payload satisfies. *)
Theorem associated_event_supported `{Zod, ZodIssues, Unicode} (capability : AssociatedResourceEventsCapability)
    (eventType : string) (payload : json) (resourceKind sourceWebhookEventType : string)
    (routing : option AssociatedResourceEventRouting) :
  (∀ r, routing = Some r → Forall (rule_ok capability eventType payload sourceWebhookEventType) (routing_resources r)) →
  ∃ b, supportsAssociatedResourceEvent capability eventType payload resourceKind sourceWebhookEventType routing = inr b
    ∧ (b = true ↔ ∃ r, routing = Some r ∧ routing_enabled r = true
         ∧ Exists (rule_holds capability eventType payload resourceKind sourceWebhookEventType) (routing_resources r)).
Proof.
  intros Hok. destruct routing as [r|]; [|exists false; split; [done|split; [done|by intros (? & ? & _)]]].
  cbn [supportsAssociatedResourceEvent]. specialize (Hok r eq_refl).
  destruct (routing_enabled r) eqn:Henabled; cbn [negb]; [|exists false; split; [done|split; [done|]]].
  - destruct (try_some_exact (rule_supports capability eventType payload resourceKind sourceWebhookEventType)
      (rule_holds capability eventType payload resourceKind sourceWebhookEventType) (routing_resources r)) as (b & -> & Hb).
    { eapply Forall_impl; [exact Hok|]. intros rule. apply rule_exact. }
    exists b. split; [done|]. rewrite Hb. split; [eauto|]. by intros (? & [= <-] & _ & ?).
  - by intros (? & [= <-] & ? & _); congruence.
Qed.

(** ** Examples: an event of a repository, in the tables of ActorPolicy.v *)

Section Example_.
Local Existing Instances reference_zod reference_issues reference_unicode.
Local Instance example_number_text : NumberText := {| double_text := λ _, "" |}.

Definition example_condition (filter : option json) (policy : option WebhookTriggerActorPolicy) : WebhookTriggerEventCondition :=
  {| condition_eventType := "issue.opened"; condition_actorPolicy := policy; condition_payloadFilter := filter |}.

Definition example_bug : json := filter_value (FilterContainsToken ["title"] "bug").

Definition example_team : WebhookTriggerActorPolicy :=
  {| anyOf := Some [RelationshipRule (ByHandle "team" "core") "member" (ByHandle "org" "acme")]; noneOf := None |}.

Definition example_db : ControlPlaneTables := {|
  webhookTriggers := [
    {| webhook_triggerId := "a"; webhook_integrationWebhookSourceId := "src";
       webhook_eventConditions := [example_condition (Some example_bug) None]; webhook_conversationKeyTemplate := "ka" |};
    {| webhook_triggerId := "b"; webhook_integrationWebhookSourceId := "src";
       webhook_eventConditions := [example_condition (Some JNull) (Some example_team)]; webhook_conversationKeyTemplate := "kb" |};
    {| webhook_triggerId := "c"; webhook_integrationWebhookSourceId := "src";
       webhook_eventConditions := [example_condition None None]; webhook_conversationKeyTemplate := "kc" |}];
  triggers := [
    {| trigger_id := "a"; trigger_organizationId := "org"; trigger_kind := "webhook"; trigger_enabled := true |};
    {| trigger_id := "b"; trigger_organizationId := "org"; trigger_kind := "webhook"; trigger_enabled := true |};
    {| trigger_id := "c"; trigger_organizationId := "org"; trigger_kind := "webhook"; trigger_enabled := false |}];
  triggerTargets := [
    {| target_id := "t1"; target_triggerId := "b"; target_sandboxProfileId := "p"; target_sandboxProfileVersion := 3 |};
    {| target_id := "t2"; target_triggerId := "c"; target_sandboxProfileId := "p"; target_sandboxProfileVersion := 3 |};
    {| target_id := "t3"; target_triggerId := "a"; target_sandboxProfileId := "q"; target_sandboxProfileVersion := 1 |}];
  integrationTargets := [{| integration_targetKey := "github"; integration_familyId := "github"; integration_variantId := "cloud" |}];
  resource_tables := example_tables;
|}.

Definition example_actor : IntegrationWebhookEventActorDefinition :=
  [{| reference_resourceKind := "user"; externalIdPayloadPath := Some ["sender"; "id"]; handlePayloadPath := None;
      reference_when := None |}].

Definition example_event (title : string) (sender : Z) : ResolveWebhookTriggerTargetsInput := {|
  input_organizationId := "org"; input_integrationConnectionId := "conn"; input_integrationWebhookSourceId := "src";
  input_targetKey := "github"; input_eventType := "issue.opened";
  input_payload := JObject [("title", JString title); ("sender", JObject [("id", JNumber (Int sender))])];
  input_getDefinition := λ _ _, Some (Some [{| event_eventType := "issue.opened"; event_actor := Some example_actor |}]);
|}.

Example example_targets :
  let ids title sender := match resolveWebhookTriggerTargets example_db (example_event title sender) with
                          | inr targets => Some (List.map resolved_triggerTargetId targets)
                          | inl _ => None
                          end in
  ids "a bug" 42 = Some ["t3"; "t1"] ∧ ids "a bug" 1 = Some ["t3"] ∧ ids "debugging" 42 = Some ["t1"] ∧ ids "" 1 = Some [].
Proof. by vm_compute. Qed.

Lemma example_ok : Forall (λ row, Forall condition_ok (webhook_eventConditions row)) (webhookTriggers example_db).
Proof.
  repeat (apply Forall_cons; split; [apply Forall_singleton; split|]); try apply Forall_nil_2; try done.
  - intros v [= <-]. eexists. by vm_compute.
  - intros policy [= <-]. left. by eexists.
Qed.

Lemma resolved_targets_witness :
  Forall (λ row, Forall condition_ok (webhook_eventConditions row)) (webhookTriggers example_db) ∧
  ∃ targets, resolveWebhookTriggerTargets example_db (example_event "a bug" 1) = inr targets ∧
    ∀ t, t ∈ targets → ∃ target, target ∈ triggerTargets example_db ∧ resolved_triggerTargetId t = target_id target.
Proof.
  split; [exact example_ok|].
  destruct (@resolved_targets reference_zod reference_zod_laws reference_issues reference_unicode example_number_text
    example_db (example_event "a bug" 1) (Some example_actor) example_ok eq_refl) as (targets & Htargets & Hspec).
  exists targets. split; [exact Htargets|].
  intros t (row & target & _ & _ & Hin & _ & ->)%Hspec. by exists target.
Defined.

Definition example_rule (filter : json) : AssociatedResourceEventRoutingResourceRule :=
  mkResourceRule "pull" ["comment"] None (Some [("comment", filter)]) None.

Lemma associated_event_supported_witness :
  let capability := {| supportsRoutingEvent := Some (λ _ _ _ _, inr true) |} in
  let payload := JObject [("title", JString "a bug")] in
  ∃ b, supportsAssociatedResourceEvent capability "comment" payload "pull" "source"
         (Some (mkRouting true [example_rule example_bug])) = inr b.
Proof.
  intros capability payload.
  destruct (@associated_event_supported reference_zod reference_issues reference_unicode capability "comment" payload
    "pull" "source" (Some (mkRouting true [example_rule example_bug]))) as (b & Hb & _).
  - intros r [= <-]. constructor; [|constructor]. split; [by exists true|]. intros v [= <-]. eexists. by vm_compute.
  - exists b. exact Hb.
Defined.

Example example_supported :
  let capability := {| supportsRoutingEvent := None |} in
  let supported title rules := supportsAssociatedResourceEvent capability "comment" (JObject [("title", JString title)]) "pull" "source"
    (Some (mkRouting true rules)) in
  supported "a bug" [example_rule example_bug] = inr true
  ∧ supported "debug" [example_rule example_bug; example_rule (filter_value (FilterExists ["title"]))] = inr true
  ∧ supported "debug" [example_rule example_bug] = inr false
  ∧ supported "debug" [example_rule JNull] = inl "Webhook payload filter validation failed. ".
Proof. by vm_compute. Qed.
End Example_.
