(* ===== verification/Programs.v ===== *)
(** * Asynchronous programs

    An [async] function whose calls run beside each other is a [program]: it
    returns, throws, or performs an operation and goes on with the answer, which
    may be a failure.  Between two operations other calls, and the environment,
    may change the world; [interleave] is that step relation on a pool of calls, and
    [exec] runs one call with only the environment beside it.

    [holds] is a program logic for such calls: what a call ends with, for every
    interference that [rely] allows, when each of its operations keeps [guar].
    [interleaving_sound] composes the calls of a pool.  [play] and [run] execute the
    relations with a function that answers the operations. *)

From S2P Require Import Prelude.

Section Programs.
Context {Op : Type → Type} {E : Type}.

Inductive program (A : Type) : Type :=
| Return (a : A)
| Throw (e : E)
| Perform {X : Type} (op : Op X) (k : E + X → program A).

#[global] Arguments Return {A}.
#[global] Arguments Throw {A}.
#[global] Arguments Perform {A X}.

#[global] Instance program_ret : MRet program := λ A a, Return a.

#[global] Instance program_bind : MBind program := λ A B f,
  fix go p := match p with
  | Return a => f a
  | Throw e => Throw e
  | Perform op k => Perform op (λ r, go (k r))
  end.

(** A call that ends with [r]. *)
Definition finish {A} (r : E + A) : program A :=
  match r with inl e => Throw e | inr a => Return a end.

(** [await op] *)
Definition perform {X} (op : Op X) : program X := Perform op finish.

(** [try { p } catch (error) { h(error) }] *)
Fixpoint catch {A} (p : program A) (h : E → program A) : program A :=
  match p with
  | Return a => Return a
  | Throw e => h e
  | Perform op k => Perform op (λ r, catch (k r) h)
  end.

(** [for (const a of l) { await body(a) }] *)
Fixpoint each {A} (l : list A) (body : A → program unit) : program unit :=
  match l with
  | [] => Return tt
  | a :: l => _ ← body a; each l body
  end.

(** The outcome of a call, as a value. *)
Definition attempt {A} (p : program A) : program (E + A) :=
  catch (a ← p; Return (inr a)) (λ e, Return (inl e)).

(** [await Promise.all(l.map(body))] of bodies that start in one turn: all of them are
    performed, and the whole rejects when one does. *)
Fixpoint together {A} (l : list A) (body : A → program unit) : program unit :=
  match l with
  | [] => Return tt
  | a :: l =>
      r ← attempt (body a);
      rest ← attempt (together l body);
      match r with inl e => Throw e | inr _ => finish rest end
  end.

Lemma bind_return {A B} (a : A) (f : A → program B) : (Return a ≫= f) = f a.
Proof. reflexivity. Qed.

Lemma bind_throw {A B} e (f : A → program B) : (Throw e ≫= f) = Throw e.
Proof. reflexivity. Qed.
End Programs.

Arguments program : clear implicits.

(** The program on a larger set of operations. *)
Fixpoint translate {Op Op' : Type → Type} {E A} (f : ∀ X, Op X → Op' X) (p : program Op E A)
    : program Op' E A :=
  match p with
  | Return a => Return a
  | Throw e => Throw e
  | Perform op k => Perform (f _ op) (λ r, translate f (k r))
  end.

(** ** Calls beside each other *)

Section Interleaving.
Context {Op : Type → Type} {E W : Type}.
Context (step : ∀ X, Op X → W → E + X → W → Prop) (env : W → W → Prop).

Inductive interleave {A} : W * list (program Op E A) → W * list (program Op E A) → Prop :=
| interleave_call w w' pool i X (op : Op X) k r :
    pool !! i = Some (Perform op k) → step X op w r w' →
    interleave (w, pool) (w', <[i := k r]> pool)
| interleave_env w w' pool : env w w' → interleave (w, pool) (w', pool).

(** One call with no other call beside it. *)
Inductive exec {A} : W → program Op E A → E + A → W → Prop :=
| exec_finish w r : exec w (finish r) r w
| exec_perform w w1 w2 w' X (op : Op X) k r o :
    rtc env w w1 → step X op w1 r w2 → exec w2 (k r) o w' →
    exec w (Perform op k) o w'.

Lemma rtc_env_pool {A} w w' (pool : list (program Op E A)) :
  rtc env w w' → rtc interleave (w, pool) (w', pool).
Proof.
  induction 1 as [|w w1 w' Hstep _ IH]; [done|].
  eapply rtc_l; [|exact IH]. by apply interleave_env.
Qed.

Lemma interleave_length {A} (w w' : W) (pool pool' : list (program Op E A)) :
  rtc interleave (w, pool) (w', pool') → length pool' = length pool.
Proof.
  intros Hreach. remember (w, pool) as c eqn:Hc. remember (w', pool') as c' eqn:Hc'.
  revert w pool Hc. induction Hreach as [c|c c1 c2 Hstep _ IH]; intros w pool ->; [by simplify_eq|].
  specialize (IH Hc'). inversion Hstep; subst; [|by eapply IH].
  rewrite (IH _ _ eq_refl). apply length_insert.
Qed.

(** A call run alone is a pool of one. *)
Lemma exec_interleave {A} w (p : program Op E A) o w' :
  exec w p o w' → rtc interleave (w, [p]) (w', [finish o]).
Proof.
  induction 1 as [|w w1 w2 w' X op k r o Henv Hstep _ IH]; [done|].
  etrans; [by apply rtc_env_pool|]. eapply rtc_l; [|exact IH].
  by eapply (interleave_call w1 w2 [Perform op k] 0).
Qed.

(** *** What a call ends with *)

Section Logic.
Context (rely guar : relation W).

Fixpoint holds {A} (p : program Op E A) (Post : W → E + A → Prop) (w : W) : Prop :=
  match p with
  | Return a => Post w (inr a)
  | Throw e => Post w (inl e)
  | Perform op k => ∀ w1 r w2, rely w w1 → step _ op w1 r w2 → guar w1 w2 ∧ holds (k r) Post w2
  end.

(** A postcondition the interference keeps. *)
Definition stable {A} (Post : W → A → Prop) : Prop := ∀ w w' a, rely w w' → Post w a → Post w' a.

Lemma holds_mono {A} (p : program Op E A) (P Q : W → E + A → Prop) w :
  (∀ w r, P w r → Q w r) → holds p P w → holds p Q w.
Proof.
  intros HPQ. revert w. induction p as [a|e|X op k IH]; intros w; simpl; [apply HPQ..|].
  intros Hp w1 r w2 Hrely Hstep. destruct (Hp w1 r w2 Hrely Hstep). eauto.
Qed.

Lemma holds_finish {A} (r : E + A) (P : W → E + A → Prop) w : holds (finish r) P w ↔ P w r.
Proof. by destruct r. Qed.

Lemma holds_bind {A B} (p : program Op E A) (f : A → program Op E B) (Q : W → E + B → Prop) w :
  holds p (λ w r, match r with inl e => Q w (inl e) | inr a => holds (f a) Q w end) w →
  holds (p ≫= f) Q w.
Proof.
  revert w. induction p as [a|e|X op k IH]; intros w; simpl; [done..|].
  intros Hp w1 r w2 Hrely Hstep. destruct (Hp w1 r w2 Hrely Hstep). eauto.
Qed.

Lemma holds_catch {A} (p : program Op E A) (h : E → program Op E A) (Q : W → E + A → Prop) w :
  holds p (λ w r, match r with inl e => holds (h e) Q w | inr a => Q w (inr a) end) w →
  holds (catch p h) Q w.
Proof.
  revert w. induction p as [a|e|X op k IH]; intros w; simpl; [done..|].
  intros Hp w1 r w2 Hrely Hstep. destruct (Hp w1 r w2 Hrely Hstep). eauto.
Qed.

Lemma holds_perform {X} (op : Op X) (Q : W → E + X → Prop) w :
  (∀ w1 r w2, rely w w1 → step X op w1 r w2 → guar w1 w2 ∧ Q w2 r) → holds (perform op) Q w.
Proof.
  simpl. intros Hop w1 r w2 Hrely Hstep. rewrite holds_finish. by apply Hop.
Qed.

Lemma holds_attempt {A} (p : program Op E A) (Q : W → E + (E + A) → Prop) w :
  holds p (λ w r, Q w (inr r)) w → holds (attempt p) Q w.
Proof.
  intros Hp. apply holds_catch, holds_bind. eapply holds_mono; [|exact Hp]. by intros w' [].
Qed.

(** Two facts about one call. *)
Lemma holds_and {A} (p : program Op E A) (P Q : W → E + A → Prop) w :
  holds p P w → holds p Q w → holds p (λ w r, P w r ∧ Q w r) w.
Proof.
  revert w. induction p as [a|e|X op k IH]; intros w; simpl; [done..|].
  intros Hp Hq w1 r w2 Hrely Hstep.
  destruct (Hp w1 r w2 Hrely Hstep), (Hq w1 r w2 Hrely Hstep). eauto.
Qed.

(** *** The calls of a pool *)

Context `{!PreOrder rely} (guar_rely : ∀ w w', guar w w' → rely w w').

(** A call and its interference together stay inside [rely]. *)
Lemma holds_track {A} (p : program Op E A) (Post : W → E + A → Prop) w :
  holds p Post w → holds p (λ w' r, rely w w' ∧ Post w' r) w.
Proof.
  revert w. induction p as [a|e|X op k IH]; intros w; simpl; [by split..|].
  intros Hp w1 r w2 Hrely Hstep. destruct (Hp w1 r w2 Hrely Hstep) as [Hguar Hk].
  split; [done|]. eapply holds_mono; [|by apply IH]. intros w' r' [Hw' Hr']. split; [|done].
  etrans; [exact Hrely|]. etrans; [by apply guar_rely|done].
Qed.

Context (env_rely : ∀ w w', env w w' → rely w w').

Lemma holds_rely {A} (p : program Op E A) (Post : W → E + A → Prop) w w' :
  stable Post → rely w w' → holds p Post w → holds p Post w'.
Proof.
  intros Hstable Hrely. destruct p as [a|e|X op k]; simpl; [by apply Hstable..|].
  intros Hp w1 r w2 Hrely1 Hstep. apply (Hp w1); [by etrans|done].
Qed.

Lemma interleaving_sound {A} (Post : nat → W → E + A → Prop) w pool w' pool' :
  (∀ i, stable (Post i)) →
  (∀ i p, pool !! i = Some p → holds p (Post i) w) →
  rtc interleave (w, pool) (w', pool') →
  rely w w' ∧ ∀ i p, pool' !! i = Some p → holds p (Post i) w'.
Proof.
  intros Hstable Hpool Hreach. remember (w, pool) as c eqn:Hc. remember (w', pool') as c' eqn:Hc'.
  revert w pool Hc Hpool. induction Hreach as [c|c c1 c2 Hstep _ IH]; intros w pool -> Hpool;
    [by simplify_eq|].
  inversion Hstep as [w0 w1 pool0 i X op k r Hi Hop|w0 w1 pool0 Henv]; simplify_eq.
  - assert (guar w w1 ∧ holds (k r) (Post i) w1) as [Hguar Hk].
    { apply (Hpool i _ Hi w r w1); [done|exact Hop]. }
    destruct (IH eq_refl w1 (<[i := k r]> pool) eq_refl) as [Hrely Hpost].
    { intros j p. destruct (decide (i = j)) as [<-|Hne].
      - rewrite list_lookup_insert_eq by (by eapply lookup_lt_Some). by intros [= <-].
      - rewrite list_lookup_insert_ne by done. intros Hj.
        apply (holds_rely p _ w); [done|by apply guar_rely|by apply Hpool]. }
    split; [|done]. etrans; [by apply guar_rely|done].
  - destruct (IH eq_refl w1 pool eq_refl) as [Hrely Hpost].
    { intros j p Hj. apply (holds_rely p _ w); [done|by apply env_rely|by apply Hpool]. }
    split; [|done]. etrans; [by apply env_rely|done].
Qed.
End Logic.

(** A call alone: the environment is the interference. *)
Lemma exec_sound {A} guar w (p : program Op E A) (Post : W → E + A → Prop) o w' :
  holds (rtc env) guar p Post w → exec w p o w' → Post w' o.
Proof.
  intros Hp Hexec. induction Hexec as [w r|w w1 w2 w' X op k r o Henv Hstep _ IH].
  - by apply holds_finish in Hp.
  - apply IH. by apply (Hp w1 r w2).
Qed.

(** *** Schedules *)

(** The call at each position of the schedule performs its next operation, unless the
    operation has to wait. *)
Fixpoint play_enabled {A} (enabled : ∀ X, Op X → W → option ((E + X) * W)) (schedule : list nat) (w : W)
    (pool : list (program Op E A)) : W * list (program Op E A) :=
  match schedule with
  | [] => (w, pool)
  | i :: schedule =>
      match pool !! i with
      | Some (Perform op k) =>
          match enabled _ op w with
          | Some (r, w') => play_enabled enabled schedule w' (<[i := k r]> pool)
          | None => play_enabled enabled schedule w pool
          end
      | _ => play_enabled enabled schedule w pool
      end
  end.

Lemma play_enabled_interleave {A} (enabled : ∀ X, Op X → W → option ((E + X) * W))
    (schedule : list nat) w (pool : list (program Op E A)) :
  (∀ X (op : Op X) w r w', enabled X op w = Some (r, w') → step X op w r w') →
  rtc interleave (w, pool) (play_enabled enabled schedule w pool).
Proof.
  intros Henabled. revert w pool. induction schedule as [|i schedule IH]; intros w pool; simpl; [done|].
  destruct (pool !! i) as [[| |X op k]|] eqn:Hi; [done..| |done].
  destruct (enabled X op w) as [[r w']|] eqn:Hop; [|done].
  eapply rtc_l; [|apply IH]. eapply interleave_call; [exact Hi|by apply Henabled].
Qed.

(** *** Execution *)

Context (answer : ∀ X, Op X → W → (E + X) * W).

Fixpoint run {A} (p : program Op E A) (w : W) : (E + A) * W :=
  match p with
  | Return a => (inr a, w)
  | Throw e => (inl e, w)
  | Perform op k => let (r, w') := answer _ op w in run (k r) w'
  end.

(** The call at each position of the schedule performs its next operation. *)
Fixpoint play {A} (schedule : list nat) (w : W) (pool : list (program Op E A))
    : W * list (program Op E A) :=
  match schedule with
  | [] => (w, pool)
  | i :: schedule =>
      match pool !! i with
      | Some (Perform op k) =>
          let (r, w') := answer _ op w in play schedule w' (<[i := k r]> pool)
      | _ => play schedule w pool
      end
  end.

(** A call that is not scheduled stays where it is. *)
Lemma play_other {A} schedule w (pool : list (program Op E A)) i :
  i ∉ schedule → (play schedule w pool).2 !! i = pool !! i.
Proof.
  revert w pool. induction schedule as [|j schedule IH]; intros w pool Hi; [done|].
  apply not_elem_of_cons in Hi as [Hne Hi]. cbn [play].
  destruct (pool !! j) as [[| |X op k]|]; [by apply IH..| |by apply IH].
  destruct (answer X op w) as [r w']. rewrite IH by done. by apply list_lookup_insert_ne.
Qed.

Lemma run_bind {A B} (p : program Op E A) (f : A → program Op E B) w :
  run (p ≫= f) w = match run p w with (inr a, w') => run (f a) w' | (inl e, w') => (inl e, w') end.
Proof.
  revert w. induction p as [a|e|X op k IH]; intros w; [done..|].
  cbn [mbind program_bind run]. destruct (answer X op w) as [r w']. apply IH.
Qed.

Lemma run_catch {A} (p : program Op E A) (h : E → program Op E A) w :
  run (catch p h) w = match run p w with (inl e, w') => run (h e) w' | r => r end.
Proof.
  revert w. induction p as [a|e|X op k IH]; intros w; [done| |].
  - cbn [catch run]. done.
  - cbn [catch run]. destruct (answer X op w) as [r w']. apply IH.
Qed.

Lemma run_attempt {A} (p : program Op E A) w :
  run (attempt p) w = (inr (run p w).1, (run p w).2).
Proof. unfold attempt. rewrite run_catch, run_bind. by destruct (run p w) as [[e|a] w']. Qed.

Lemma run_finish {A} (r : E + A) w : run (finish r) w = (r, w).
Proof. by destruct r. Qed.

Lemma run_perform {X} (op : Op X) w : run (perform op) w = answer X op w.
Proof. cbn [perform run]. destruct (answer X op w) as [r w']. apply run_finish. Qed.

Context (answer_step : ∀ X (op : Op X) w, step X op w (answer X op w).1 (answer X op w).2).

Lemma run_exec {A} (p : program Op E A) w : exec w p (run p w).1 (run p w).2.
Proof.
  revert w. induction p as [a|e|X op k IH]; intros w; simpl;
    [apply (exec_finish w (inr a))|apply (exec_finish w (inl e))|].
  pose proof (answer_step X op w) as Hstep. destruct (answer X op w) as [r w'].
  by eapply exec_perform.
Qed.

Lemma play_interleave {A} schedule w (pool : list (program Op E A)) :
  rtc interleave (w, pool) (play schedule w pool).
Proof.
  revert w pool. induction schedule as [|i schedule IH]; intros w pool; simpl; [done|].
  destruct (pool !! i) as [[| |X op k]|] eqn:Hi; [done..| |done].
  pose proof (answer_step X op w) as Hstep. destruct (answer X op w) as [r w'].
  eapply rtc_l; [|apply IH]. by eapply interleave_call.
Qed.
End Interleaving.

(** A program of a component inside a larger one. *)
Lemma holds_translate {Op Op' : Type → Type} {E W A} (f : ∀ X, Op X → Op' X)
    (step : ∀ X, Op X → W → E + X → W → Prop) (step' : ∀ X, Op' X → W → E + X → W → Prop)
    (rely guar : relation W) (p : program Op E A) Post w :
  (∀ X (op : Op X) w r w', step' X (f X op) w r w' → step X op w r w') →
  holds step rely guar p Post w → holds step' rely guar (translate f p) Post w.
Proof.
  intros Hf. revert w. induction p as [a|e|X op k IH]; intros w; simpl; [done..|].
  intros Hp w1 r w2 Hrely Hstep. apply Hf in Hstep.
  destruct (Hp w1 r w2 Hrely Hstep). eauto.
Qed.
