(* ===== verification/Cache.v ===== *)
(** * Caches (packages/cache/src)

    [CacheAdapter] is the interface of a key/value store with deadlines (cache.ts),
    with [contents], what is stored under a key with its deadline, as the view its
    laws are stated on.  The two implementations have the laws: [InMemoryCacheAdapter]
    over a [Map], and [ValkeyCacheAdapter] over a client of Valkey, which is not part
    of the repository and a class here.

    [cache_op] are the operations a call awaits, each with the time of the store at
    which it happens, and each of which may fail; [ReadClock] is the clock the users of
    the cache are given. *)

From S2P Require Import Prelude JsMap Programs.
Local Open Scope Z_scope.

(** ** The interface *)

(** The first argument of [adapter_get] and [adapter_set] is the time of the store. *)
Class CacheAdapter (S : Type) : Type := {
  adapter_get : Z → string → S → option string * S;
  adapter_set : Z → string → string → option Z → S → S;
  adapter_delete : string → S → S;
}.

(** What a read at time [now] returns of a stored value with its deadline. *)
Definition visible (now : Z) (stored : option (string * option Z)) : option string :=
  match stored with
  | Some (value, Some deadline) => if deadline <=? now then None else Some value
  | Some (value, None) => Some value
  | None => None
  end.

Class CacheAdapterLaws (S : Type) `{CacheAdapter S} : Type := {
  contents : S → string → option (string * option Z);
  get_result now key s : (adapter_get now key s).1 = visible now (contents s key);
  get_keeps now key s key' :
    contents (adapter_get now key s).2 key' = contents s key' ∨
    key' = key ∧ contents (adapter_get now key s).2 key' = None ∧ visible now (contents s key) = None;
  set_contents now key value ttlMs s key' :
    contents (adapter_set now key value ttlMs s) key' =
      if key' =?= key then Some (value, Z.add now <$> ttlMs) else contents s key';
  delete_contents key s key' :
    contents (adapter_delete key s) key' = if key' =?= key then None else contents s key';
}.

(** ** In memory *)

Module InMemoryCacheAdapter.

Record InMemoryCacheRecord : Type := mkRecord {
  expiresAtMs : option Z;
  value : string;
}.

Definition t : Type := JsMap.t string InMemoryCacheRecord.

Definition get (now : Z) (key : string) (recordsByKey : t) : option string * t :=
  match JsMap.get recordsByKey key with
  | None => (None, recordsByKey)
  | Some record =>
      if match record.(expiresAtMs) with Some deadline => deadline <=? now | None => false end
      then (None, JsMap.delete recordsByKey key)
      else (Some record.(value), recordsByKey)
  end.

Definition set (now : Z) (key v : string) (ttlMs : option Z) (recordsByKey : t) : t :=
  JsMap.set recordsByKey key
    (mkRecord match ttlMs with None => None | Some ttl => Some (now + ttl) end v).

Definition delete (key : string) (recordsByKey : t) : t := JsMap.delete recordsByKey key.

#[global] Instance adapter : CacheAdapter t :=
  {| adapter_get := get; adapter_set := set; adapter_delete := delete |}.

Definition stored (recordsByKey : t) (key : string) : option (string * option Z) :=
  (λ record, (record.(value), record.(expiresAtMs))) <$> JsMap.get recordsByKey key.

#[global] Program Instance laws : CacheAdapterLaws t := {| contents := stored |}.
Next Obligation.
  intros now key s. simpl. unfold get, stored, visible.
  destruct (JsMap.get s key) as [[[deadline|] v]|]; simpl; [|done..]. by destruct (deadline <=? now).
Qed.
Next Obligation.
  intros now key s key'. simpl. unfold get, stored, visible.
  destruct (JsMap.get s key) as [[[deadline|] v]|] eqn:Hget; cbn -[JsMap.delete]; [|by left..].
  destruct (deadline <=? now); [|by left]. cbn -[JsMap.delete]. rewrite JsMap.get_delete.
  case_decide; [right|by left]. by subst.
Qed.
Next Obligation.
  intros now key v ttlMs s key'. simpl. unfold set, stored. rewrite JsMap.get_set.
  case_decide; case_bool_decide; try congruence; simpl; by destruct ttlMs.
Qed.
Next Obligation.
  intros key s key'. cbn -[JsMap.delete]. unfold delete, stored. rewrite JsMap.get_delete.
  case_decide; case_bool_decide; by try congruence.
Qed.
End InMemoryCacheAdapter.

(** ** In Valkey *)

(** The commands of the client: [GET], [SET] without or with [PX], and [DEL]. *)
Class ValkeyClient (S : Type) : Type := {
  valkey_get : Z → string → S → option string;
  valkey_set : Z → string → string → option Z → S → S;
  valkey_del : string → S → S;
}.

Class ValkeyClientLaws (S : Type) `{ValkeyClient S} : Type := {
  valkey_contents : S → string → option (string * option Z);
  valkey_get_result now key s : valkey_get now key s = visible now (valkey_contents s key);
  valkey_set_contents now key value px s key' :
    valkey_contents (valkey_set now key value px s) key' =
      if key' =?= key then Some (value, Z.add now <$> px) else valkey_contents s key';
  valkey_del_contents key s key' :
    valkey_contents (valkey_del key s) key' = if key' =?= key then None else valkey_contents s key';
}.

Module ValkeyCacheAdapter.
Section Adapter.
Context {S : Type} `{ValkeyClientLaws S} (keyPrefix : string).

Definition buildKey (key : string) : string := keyPrefix +:+ ":" +:+ key.

Definition get (now : Z) (key : string) (s : S) : option string * S :=
  (valkey_get now (buildKey key) s, s).

Definition set (now : Z) (key value : string) (ttlMs : option Z) (s : S) : S :=
  match ttlMs with
  | None => valkey_set now (buildKey key) value None s
  | Some ttl => valkey_set now (buildKey key) value (Some ttl) s
  end.

Definition delete (key : string) (s : S) : S := valkey_del (buildKey key) s.

Definition adapter : CacheAdapter S :=
  {| adapter_get := get; adapter_set := set; adapter_delete := delete |}.

Lemma buildKey_eq key key' : (buildKey key' =?= buildKey key) = (key' =?= key).
Proof.
  apply bool_decide_ext. split; [|by intros ->]. unfold buildKey. intros Heq.
  by apply (inj (String.append keyPrefix)), (inj (String.append ":")) in Heq.
Qed.

Program Definition laws : @CacheAdapterLaws S adapter :=
  {| contents := λ s key, valkey_contents s (buildKey key) |}.
Next Obligation. intros now key s. apply valkey_get_result. Qed.
Next Obligation. by left. Qed.
Next Obligation.
  intros now key value ttlMs s key'. simpl. unfold set. rewrite <-buildKey_eq.
  destruct ttlMs; apply valkey_set_contents.
Qed.
Next Obligation. intros key s key'. simpl. rewrite <-buildKey_eq. apply valkey_del_contents. Qed.
End Adapter.
End ValkeyCacheAdapter.

(** ** The operations of a call *)

Inductive cache_op : Type → Type :=
| CacheGet (key : string) : cache_op (option string)
| CacheSet (key value : string) (ttlMs : option Z) : cache_op unit
| CacheDelete (key : string) : cache_op unit
| ReadClock : cache_op Z.

Section Operations.
Context {S E : Type} `{CacheAdapter S}.
(** The errors a failed command of the store rejects with. *)
Context (store_error : E → Prop).

(** An operation that changes the store to [s'] and answers [a], or fails, before
    or after the change. *)
Definition may_fail {X} (s s' : S) (a : X) (r : E + X) (s'' : S) : Prop :=
  match r with
  | inr x => x = a ∧ s'' = s'
  | inl e => store_error e ∧ (s'' = s ∨ s'' = s')
  end.

(** The commands read the store's own clock, at any [t]. *)
Definition cache_step {X} (op : cache_op X) (now : Z) : S → E + X → S → Prop :=
  match op in cache_op X return S → E + X → S → Prop with
  | CacheGet key => λ s r s', ∃ t, may_fail s (adapter_get t key s).2 (adapter_get t key s).1 r s'
  | CacheSet key value ttlMs => λ s r s', ∃ t, may_fail s (adapter_set t key value ttlMs s) tt r s'
  | CacheDelete key => λ s r s', may_fail s (adapter_delete key s) tt r s'
  | ReadClock => λ s r s', r = inr now ∧ s' = s
  end.

(** One outcome of an operation: no failure, and one clock for all. *)
Definition cache_answer {X} (op : cache_op X) (now : Z) : S → (E + X) * S :=
  match op in cache_op X return S → (E + X) * S with
  | CacheGet key => λ s, let (v, s') := adapter_get now key s in (inr v, s')
  | CacheSet key value ttlMs => λ s, (inr tt, adapter_set now key value ttlMs s)
  | CacheDelete key => λ s, (inr tt, adapter_delete key s)
  | ReadClock => λ s, (inr now, s)
  end.

Lemma cache_answer_step {X} (op : cache_op X) now s :
  cache_step op now s (cache_answer op now s).1 (cache_answer op now s).2.
Proof.
  destruct op as [key|key value ttlMs|key|]; simpl; [exists now|exists now| |done].
  - by destruct (adapter_get now key s).
  - done.
  - done.
Qed.
End Operations.
