(* ===== verification/CredentialCache.v ===== *)
(** * The credential cache of the egress proxy
      (apps/data-plane-gateway/src/egress/credential-cache.ts)

    Credentials are kept as JSON text under a key of the binding and the resolver
    they are for; an index per integration connection lists the keys
    [invalidateIntegrationConnection] deletes.

    [hit_credential]: beside any number of other calls, a hit returns a credential that
    was written under the same key and that, at a time the lookup read, was not within
    [refreshSkewMs] of the expiry written with it, and no stored text fails to parse.  CredentialInvalidation.v has the theorems on
    the index. *)

From S2P Require Import Prelude JsMap JsObject Json Text Locale Zod TokenSearch Programs Cache.
Local Open Scope Z_scope.

(** ** Types *)

Inductive failure_code : Type :=
| CredentialResolutionFailed
| CredentialInjectionFailed
| RequestMiddlewareFailed.

Inductive EgressError : Type :=
| ErrorMessage (message : string)                  (* new Error(...) *)
| GatewayManagedEgressUnsupportedRouteError (message : string) (failureCode : failure_code)
| Rejection (reason : string).                     (* a service rejects *)

Inductive key_resolver : Type :=
| KeyIntegrationConnection (connectionId secretType : string) (slotKey resolverKey : option string)
| KeyLinkedPrincipal (organizationId providerFamily : string) (integrationConnectionId : option string)
    (actingUserRequired : bool) (actingUserId credentialKind : option string)
| KeyMistleMcpToken (organizationId sandboxInstanceId apiKeyId : string)
| KeyMistleMcpSetupAssistantToken (organizationId sandboxInstanceId sandboxProfileId : string)
    (sandboxProfileVersion : number)
| KeyMistleMcpDesignerToken (organizationId sandboxInstanceId designerSessionId : string)
| KeyPlatformOpenAiApiKey
| KeyPlatformLangfuseSecretKey.

Record CredentialCacheKeyInput : Type := mkKeyInput {
  key_testEnvironmentId : option string;
  key_bindingId : string;
  key_credentialResolver : key_resolver;
}.

Inductive CachedCredential : Type :=
| ValueCredential (value : string) (expiresAt : option string)
| AwsSessionCredential (accessKeyId secretAccessKey sessionToken expiresAt : string).

Record CachedCredentialRecord : Type := mkCredentialRecord {
  record_credential : CachedCredential;
  record_expiresAtMs : Z;
}.

Inductive CredentialCacheLookupResult : Type :=
| CacheHit (credential : CachedCredential)
| CacheMiss
| CacheRefreshSkewExpired.

(** ** The stored text *)

Definition credential_shapes : list schema := [
  ZStrictObject [("kind", ZLiteral "value"); ("value", ZString); ("expiresAt", ZOptional ZString)];
  ZStrictObject [("kind", ZLiteral "aws_session"); ("accessKeyId", ZString);
    ("secretAccessKey", ZString); ("sessionToken", ZString); ("expiresAt", ZString)]].

Definition CachedCredentialRecordSchema : schema :=
  ZStrictObject [
    ("version", ZInt (Some 1) (Some 1));   (* z.literal(1) *)
    ("credential", ZDiscriminatedUnion "kind" credential_shapes);
    ("expiresAtMs", ZInt (Some 1) None)].

Definition CachedCredentialIndexSchema : schema := ZArray ZNonEmptyString.

Definition credential_json (credential : CachedCredential) : json :=
  match credential with
  | ValueCredential value expiresAt =>
      JObject match expiresAt with
              | None => [("kind", JString "value"); ("value", JString value)]
              | Some t => [("kind", JString "value"); ("value", JString value); ("expiresAt", JString t)]
              end
  | AwsSessionCredential accessKeyId secretAccessKey sessionToken expiresAt =>
      JObject [("kind", JString "aws_session"); ("accessKeyId", JString accessKeyId);
               ("secretAccessKey", JString secretAccessKey); ("sessionToken", JString sessionToken);
               ("expiresAt", JString expiresAt)]
  end.

(** [{ version: 1, ...entry }] *)
Definition stored_record_json (record : CachedCredentialRecord) : json :=
  JObject [("version", JNumber (Int 1)); ("credential", credential_json record.(record_credential));
           ("expiresAtMs", JNumber (Int record.(record_expiresAtMs)))].

Definition serializeCredentialRecord (record : CachedCredentialRecord) : string :=
  JSON_stringify (stored_record_json record).

(** The value of the type that a parsed object is. *)
Definition credential_of (v : json) : CachedCredential :=
  if string_field v "kind" =?= "value"
  then ValueCredential (string_field v "value")
         match field v "expiresAt" with Some (JString t) => Some t | _ => None end
  else AwsSessionCredential (string_field v "accessKeyId") (string_field v "secretAccessKey")
         (string_field v "sessionToken") (string_field v "expiresAt").

Definition record_of (v : json) : CachedCredentialRecord :=
  mkCredentialRecord (credential_of (default JNull (field v "credential")))
    (integer_of (number_field v "expiresAtMs")).

Definition strings_of (v : json) : list string :=
  match v with
  | JArray l => omap (λ v, match v with JString s => Some s | _ => None end) l
  | _ => []
  end.

(** [schema.parse(JSON.parse(text))] *)
Definition parse_text `{Zod} (s : schema) (text : string) : EgressError + json :=
  match JSON_parse text with
  | None => inl (ErrorMessage "SyntaxError")
  | Some v => match safeParse s v with
              | None => inl (ErrorMessage "ZodError")
              | Some data => inr data
              end
  end.

Definition parseCredentialRecord `{Zod} (serializedRecord : string)
    : EgressError + CachedCredentialRecord :=
  data ← parse_text CachedCredentialRecordSchema serializedRecord; inr (record_of data).

Definition serializeCredentialIndex (keys : list string) : string :=
  JSON_stringify (JArray (JString <$> keys)).

Definition parseCredentialIndex `{Zod} (serializedIndex : string) : EgressError + list string :=
  data ← parse_text CachedCredentialIndexSchema serializedIndex; inr (strings_of data).

(** ** Keys *)

(** [parts.join(":")] *)
Definition join (parts : list string) : string := String.concat ":" parts.

Definition credentialResolverKind (resolver : key_resolver) : string :=
  match resolver with
  | KeyIntegrationConnection _ _ _ _ => "integration_connection"
  | KeyLinkedPrincipal _ _ _ _ _ _ => "linked_principal"
  | KeyMistleMcpToken _ _ _ => "mistle_mcp_token"
  | KeyMistleMcpSetupAssistantToken _ _ _ _ => "mistle_mcp_setup_assistant_token"
  | KeyMistleMcpDesignerToken _ _ _ => "mistle_mcp_designer_token"
  | KeyPlatformOpenAiApiKey => "platform_openai_api_key"
  | KeyPlatformLangfuseSecretKey => "platform_langfuse_secret_key"
  end.

Definition String_of_bool (b : bool) : string := if b then "true" else "false".

(** The parts of the key after the resolver's kind. *)
Definition resolver_parts (resolver : key_resolver) : list string :=
  match resolver with
  | KeyIntegrationConnection connectionId secretType slotKey resolverKey =>
      [connectionId; secretType; default "" slotKey; default "" resolverKey]
  | KeyMistleMcpToken organizationId sandboxInstanceId apiKeyId =>
      [organizationId; sandboxInstanceId; apiKeyId]
  | KeyMistleMcpSetupAssistantToken organizationId sandboxInstanceId sandboxProfileId sandboxProfileVersion =>
      [organizationId; sandboxInstanceId; sandboxProfileId; String_of sandboxProfileVersion]
  | KeyMistleMcpDesignerToken organizationId sandboxInstanceId designerSessionId =>
      [organizationId; sandboxInstanceId; designerSessionId]
  | KeyPlatformOpenAiApiKey => []
  | KeyPlatformLangfuseSecretKey => []
  | KeyLinkedPrincipal organizationId providerFamily integrationConnectionId actingUserRequired
      actingUserId credentialKind =>
      [organizationId; providerFamily; default "" integrationConnectionId;
       String_of_bool actingUserRequired; default "" actingUserId; default "" credentialKind]
  end.

Definition key_parts (input : CredentialCacheKeyInput) : list string :=
  [default "" input.(key_testEnvironmentId); input.(key_bindingId);
   credentialResolverKind input.(key_credentialResolver)]
  ++ resolver_parts input.(key_credentialResolver).

Definition toCacheKey (input : CredentialCacheKeyInput) : string :=
  "gateway-egress-credential:" +:+ join (key_parts input).

Definition toConnectionIndexKey (testEnvironmentId : option string) (connectionId : string) : string :=
  "gateway-egress-credential-index:"
  +:+ join [default "" testEnvironmentId; "integration_connection"; connectionId].

Definition toConnectionIndexKeyForCacheKey (input : CredentialCacheKeyInput) : option string :=
  match input.(key_credentialResolver) with
  | KeyIntegrationConnection connectionId _ _ _ =>
      Some (toConnectionIndexKey input.(key_testEnvironmentId) connectionId)
  | _ => None
  end.

(** ** The cache *)

(** [Date.parse]: [None] is [NaN]. *)
Class DateParse : Type := { Date_parse : string → option Z }.

Definition credential_expiresAt (credential : CachedCredential) : option string :=
  match credential with
  | ValueCredential _ expiresAt => expiresAt
  | AwsSessionCredential _ _ _ expiresAt => Some expiresAt
  end.

Definition resolveExpiryMs `{DateParse} (credential : CachedCredential) (nowMs defaultTtlSeconds : Z)
    : EgressError + Z :=
  match credential_expiresAt credential with
  | None => inr (nowMs + defaultTtlSeconds * 1000)
  | Some expiresAt =>
      match Date_parse expiresAt with
      | None => inl (ErrorMessage ("Credential expiry timestamp '" +:+ expiresAt +:+ "' is invalid."))
      | Some expiresAtMs => inr expiresAtMs
      end
  end.

(** [.sort()] without a comparison: by UTF-16 code units. *)
Definition sort_strings : list string → list string :=
  sort (λ a b, compare_bytes (utf16 a) (utf16 b)).

(** [[...new Set(keys)]] *)
Definition distinct (keys : list string) : list string :=
  foldl (λ seen key, if bool_decide (key ∈ seen) then seen else seen ++ [key]) [] keys.

(** The private fields of a [CredentialCache] that are configuration. *)
Record CredentialCacheConfig : Type := mkCacheConfig {
  defaultTtlSeconds : Z;
  refreshSkewMs : Z;
}.

Definition new_config (defaultTtlSeconds refreshSkewSeconds : Z) : CredentialCacheConfig :=
  mkCacheConfig defaultTtlSeconds (refreshSkewSeconds * 1000).

Section CredentialCache.
Context `{Zod} `{DateParse} (this : CredentialCacheConfig).

Local Notation async := (program cache_op EgressError).

(** A synchronous part of a call, which may throw. *)
Definition sync {A} (r : EgressError + A) : async A := finish r.

Definition addToConnectionIndex (input : CredentialCacheKeyInput) (cacheKey : string) : async unit :=
  match toConnectionIndexKeyForCacheKey input with
  | None => mret tt
  | Some indexKey =>
      serializedIndex ← perform (CacheGet indexKey);
      indexKeys ← match serializedIndex with
                  | None => mret []
                  | Some text => sync (parseCredentialIndex text)
                  end;
      if bool_decide (cacheKey ∈ indexKeys) then mret tt
      else perform (CacheSet indexKey
             (serializeCredentialIndex (sort_strings (indexKeys ++ [cacheKey]))) None)
  end.

Definition removeFromConnectionIndex (input : CredentialCacheKeyInput) (cacheKey : string) : async unit :=
  match toConnectionIndexKeyForCacheKey input with
  | None => mret tt
  | Some indexKey =>
      serializedIndex ← perform (CacheGet indexKey);
      match serializedIndex with
      | None => mret tt
      | Some text =>
          indexKeys ← sync (parseCredentialIndex text);
          let nextIndexKeys := List.filter (λ key, negb (key =?= cacheKey)) indexKeys in
          if (length nextIndexKeys =? 0)%nat then perform (CacheDelete indexKey)
          else perform (CacheSet indexKey (serializeCredentialIndex nextIndexKeys) None)
      end
  end.

Definition getWithResult (input : CredentialCacheKeyInput) : async CredentialCacheLookupResult :=
  let key := toCacheKey input in
  serializedEntry ← perform (CacheGet key);
  match serializedEntry with
  | None => mret CacheMiss
  | Some text =>
      entry ← sync (parseCredentialRecord text);
      now ← perform ReadClock;
      let refreshBoundaryMs := entry.(record_expiresAtMs) - this.(refreshSkewMs) in
      if refreshBoundaryMs <=? now
      then (_ ← perform (CacheDelete key);
            _ ← removeFromConnectionIndex input key;
            mret CacheRefreshSkewExpired)
      else mret (CacheHit entry.(record_credential))
  end.

Definition set (input : CredentialCacheKeyInput) (credential : CachedCredential) : async unit :=
  let key := toCacheKey input in
  now ← perform ReadClock;
  expiresAtMs ← sync (resolveExpiryMs credential now this.(defaultTtlSeconds));
  if expiresAtMs <=? now
  then (_ ← perform (CacheDelete key); removeFromConnectionIndex input key)
  else
    _ ← perform (CacheSet key (serializeCredentialRecord (mkCredentialRecord credential expiresAtMs))
                   (Some (expiresAtMs - now)));
    addToConnectionIndex input key.

(** The deletions [Promise.all] awaits are commands of one turn, in the order of the keys. *)
Definition invalidateIntegrationConnection (testEnvironmentId : option string) (connectionId : string)
    : async nat :=
  let indexKey := toConnectionIndexKey testEnvironmentId connectionId in
  serializedIndex ← perform (CacheGet indexKey);
  match serializedIndex with
  | None => mret 0%nat
  | Some text =>
      indexKeys ← sync (parseCredentialIndex text);
      let cacheKeys := distinct indexKeys in
      _ ← together cacheKeys (λ cacheKey, perform (CacheDelete cacheKey));
      _ ← perform (CacheDelete indexKey);
      mret (length cacheKeys)
  end.
End CredentialCache.

(** ** The stored text is read back *)

Section Text.
Context `{ZodLaws}.

Lemma safeParse_optional_string v :
  safeParse (ZOptional ZString) v = match v with JString _ => Some v | _ => None end.
Proof. by rewrite zod_optional, zod_string. Qed.

Lemma parse_shape_step k s shape fields v ws :
  JsMap.get fields k = Some v → safeParse s v = Some v → parse_shape safeParse shape fields = Some ws →
  parse_shape safeParse ((k, s) :: shape) fields = Some ((k, v) :: ws).
Proof. intros Hget Hv Hws. simpl. by rewrite Hget, Hv, Hws. Qed.

Lemma parse_shape_absent k s shape fields ws :
  JsMap.get fields k = None → is_optional s = true → parse_shape safeParse shape fields = Some ws →
  parse_shape safeParse ((k, s) :: shape) fields = Some ws.
Proof. intros Hget Hs Hws. simpl. by rewrite Hget, Hs. Qed.

Lemma parse_literal_string value : safeParse (ZLiteral value) (JString value) = Some (JString value).
Proof. rewrite zod_literal. by rewrite bool_decide_true. Qed.

Lemma parse_strict_object shape fields :
  known_keys shape fields = true → parse_shape safeParse shape fields = Some fields →
  safeParse (ZStrictObject shape) (JObject fields) = Some (JObject fields).
Proof. intros Hknown Hparse. by rewrite zod_strict_object, Hknown, zod_object, Hparse. Qed.

(** The fields of an object that is written out, each by [leaf]. *)
Ltac parse_fields leaf :=
  repeat first [ reflexivity
    | eapply parse_shape_step; [reflexivity|solve [leaf]|]
    | eapply parse_shape_absent; [reflexivity|reflexivity|] ].

Lemma parse_credential_json credential :
  safeParse (ZDiscriminatedUnion "kind" credential_shapes) (credential_json credential)
    = Some (credential_json credential).
Proof.
  assert (∃ value shape fields, field (credential_json credential) "kind" = Some (JString value) ∧
    find_option "kind" value credential_shapes = Some (ZStrictObject shape) ∧
    credential_json credential = JObject fields ∧ known_keys shape fields = true ∧
    parse_shape safeParse shape fields = Some fields)
    as (value & shape & fields & Hfield & Hfind & Hjson & Hknown & Hparse).
  { destruct credential as [value [t|]|]; eexists _, _, _;
      (split; [reflexivity|]; split; [reflexivity|]; split; [reflexivity|]; split; [reflexivity|]);
      parse_fields ltac:(apply parse_literal_string || by rewrite ?safeParse_optional_string, ?zod_string). }
  by rewrite zod_discriminated_union, Hfield, parse_discriminated_find, Hfind, Hjson,
    parse_strict_object.
Qed.

Lemma credential_of_json credential : credential_of (credential_json credential) = credential.
Proof. by destruct credential as [value [t|]|]. Qed.

Definition storable (record : CachedCredentialRecord) : Prop :=
  1 <= record.(record_expiresAtMs) <= MAX_SAFE_INTEGER.

Lemma credential_json_ok credential : json_ok (credential_json credential).
Proof.
  destruct credential as [value [t|]|]; simpl;
    (split; [split; [apply (bool_decide_unpack _); by vm_compute|by repeat constructor]|done]).
Qed.

Lemma stored_record_json_ok record : storable record → json_ok (stored_record_json record).
Proof.
  intros [Hlo Hhi]. destruct record as [credential expiresAtMs].
  cbn -[credential_json Z.le MAX_SAFE_INTEGER]. unfold record_expiresAtMs in *.
  split; [split; [apply (bool_decide_unpack _); by vm_compute|by repeat constructor]|].
  pose proof (credential_json_ok credential). unfold MAX_SAFE_INTEGER in *. split_and!; [lia|lia|done|lia|lia|done].
Qed.

Lemma parse_record record :
  storable record → parseCredentialRecord (serializeCredentialRecord record) = inr record.
Proof.
  intros Hok. unfold parseCredentialRecord, serializeCredentialRecord, parse_text.
  rewrite JSON_roundtrip by by apply stored_record_json_ok.
  assert (in_range (Some 1) None record.(record_expiresAtMs) = true) as Hrange.
  { destruct Hok. unfold in_range, MAX_SAFE_INTEGER in *. rewrite !andb_true_iff, !Z.leb_le. lia. }
  unfold CachedCredentialRecordSchema, stored_record_json. rewrite parse_strict_object; [|reflexivity|].
  - destruct record as [credential expiresAtMs]. unfold record_of. simpl. by rewrite credential_of_json.
  - parse_fields ltac:(rewrite ?zod_int; first [reflexivity|apply parse_credential_json|by rewrite Hrange]).
Qed.

Lemma strings_of_strings keys : strings_of (JArray (JString <$> keys)) = keys.
Proof. simpl. induction keys as [|key keys IH]; [done|]. csimpl. by rewrite IH. Qed.

Lemma parse_index keys :
  Forall (λ key, key ≠ "") keys → parseCredentialIndex (serializeCredentialIndex keys) = inr keys.
Proof.
  intros Hkeys. unfold parseCredentialIndex, serializeCredentialIndex, parse_text.
  rewrite JSON_roundtrip; cycle 1.
  { apply json_ok_array, Forall_fmap, Forall_true. done. }
  unfold CachedCredentialIndexSchema. rewrite zod_array.
  assert (parse_list safeParse ZNonEmptyString (JString <$> keys) = Some (JString <$> keys)) as ->.
  { induction Hkeys as [|key keys Hkey _ IH]; [done|]. csimpl. rewrite zod_non_empty.
    rewrite bool_decide_false by done. simpl. by rewrite IH. }
  cbn -[strings_of]. by rewrite strings_of_strings.
Qed.
End Text.

(** ** Keys of parts without a colon *)

Lemma concat_inj (l l' : list string) :
  l ≠ [] → l' ≠ [] → Forall (λ s, has_char colon s = false) l →
  Forall (λ s, has_char colon s = false) l' → join l = join l' → l = l'.
Proof.
  intros Hl Hl' Hplain. revert l' Hl'. induction Hplain as [|a l Ha Hplain IH]; [done|].
  intros l' Hl' Hplain'. destruct Hplain' as [|a' l' Ha' Hplain']; [done|].
  assert (∀ a b (l : list string), join (a :: b :: l) = a +:+ ":" +:+ join (b :: l)) as Hjoin by done.
  assert (∀ a b, has_char colon (a +:+ ":" +:+ b) = true) as Hcolon.
  { intros c b. rewrite !has_char_app. change (has_char colon ":") with true. by rewrite orb_true_r. }
  destruct l as [|b l], l' as [|b' l']; rewrite ?Hjoin; intros Heq.
  - unfold join in Heq. simpl in Heq. by subst.
  - unfold join at 1 in Heq. simpl String.concat in Heq. subst. by rewrite Hcolon in Ha.
  - unfold join at 2 in Heq. simpl String.concat in Heq. subst. by rewrite Hcolon in Ha'.
  - apply key_inj_first in Heq as [-> Heq]; [|done..]. f_equal. by apply IH.
Qed.

(** No part of the key holds the separator. *)
Definition plain (input : CredentialCacheKeyInput) : Prop :=
  Forall (λ s, has_char colon s = false) (key_parts input).

Lemma toCacheKey_inj input input' :
  plain input → plain input' → toCacheKey input = toCacheKey input' → key_parts input = key_parts input'.
Proof.
  intros Hp Hp' Heq. apply (inj (String.append _)) in Heq. by apply concat_inj.
Qed.

(** The inputs name the same credential; an absent optional identifier is an empty one. *)
Definition same_resolver (r r' : key_resolver) : Prop :=
  match r, r' with
  | KeyIntegrationConnection connectionId secretType slotKey resolverKey,
    KeyIntegrationConnection connectionId' secretType' slotKey' resolverKey' =>
      connectionId = connectionId' ∧ secretType = secretType' ∧ default "" slotKey = default "" slotKey' ∧
      default "" resolverKey = default "" resolverKey'
  | KeyLinkedPrincipal organizationId providerFamily connection required user kind,
    KeyLinkedPrincipal organizationId' providerFamily' connection' required' user' kind' =>
      organizationId = organizationId' ∧ providerFamily = providerFamily' ∧
      default "" connection = default "" connection' ∧ required = required' ∧
      default "" user = default "" user' ∧ default "" kind = default "" kind'
  | KeyMistleMcpToken organizationId sandboxInstanceId apiKeyId,
    KeyMistleMcpToken organizationId' sandboxInstanceId' apiKeyId' =>
      organizationId = organizationId' ∧ sandboxInstanceId = sandboxInstanceId' ∧ apiKeyId = apiKeyId'
  | KeyMistleMcpSetupAssistantToken organizationId sandboxInstanceId profileId version,
    KeyMistleMcpSetupAssistantToken organizationId' sandboxInstanceId' profileId' version' =>
      organizationId = organizationId' ∧ sandboxInstanceId = sandboxInstanceId' ∧ profileId = profileId' ∧
      String_of version = String_of version'
  | KeyMistleMcpDesignerToken organizationId sandboxInstanceId designerSessionId,
    KeyMistleMcpDesignerToken organizationId' sandboxInstanceId' designerSessionId' =>
      organizationId = organizationId' ∧ sandboxInstanceId = sandboxInstanceId' ∧
      designerSessionId = designerSessionId'
  | KeyPlatformOpenAiApiKey, KeyPlatformOpenAiApiKey => True
  | KeyPlatformLangfuseSecretKey, KeyPlatformLangfuseSecretKey => True
  | _, _ => False
  end.

Definition same_input (input input' : CredentialCacheKeyInput) : Prop :=
  default "" input.(key_testEnvironmentId) = default "" input'.(key_testEnvironmentId) ∧
  input.(key_bindingId) = input'.(key_bindingId) ∧
  same_resolver input.(key_credentialResolver) input'.(key_credentialResolver).

Lemma key_parts_same input input' : key_parts input = key_parts input' → same_input input input'.
Proof.
  destruct input as [env bindingId r], input' as [env' bindingId' r']. unfold key_parts, same_input. simpl.
  intros Hkey. injection Hkey as Henv Hbinding Hkind Hparts. split; [done|]. split; [done|].
  destruct r, r'; try discriminate Hkind; simpl in *; try done; injection Hparts as Hparts;
    split_and!; try done. by destruct actingUserRequired, actingUserRequired0.
Qed.

Lemma toCacheKey_same input input' :
  plain input → plain input' → toCacheKey input = toCacheKey input' → same_input input input'.
Proof. intros. by apply key_parts_same, toCacheKey_inj. Qed.

Lemma toCacheKey_index input testEnvironmentId connectionId :
  toCacheKey input ≠ toConnectionIndexKey testEnvironmentId connectionId.
Proof. unfold toCacheKey, toConnectionIndexKey. intros Heq. discriminate Heq. Qed.

Lemma toCacheKey_nonempty input : toCacheKey input ≠ "".
Proof. discriminate. Qed.

(** Inputs of the same key have the same index. *)
Lemma key_parts_index input input' :
  key_parts input = key_parts input' →
  toConnectionIndexKeyForCacheKey input = toConnectionIndexKeyForCacheKey input'.
Proof.
  destruct input as [e b r], input' as [e' b' r']. unfold key_parts, toConnectionIndexKeyForCacheKey. simpl.
  intros Heq. injection Heq as He _ Hkind Hparts.
  destruct r, r'; try discriminate Hkind; try done; simpl in *.
  injection Hparts as -> _ _ _. unfold toConnectionIndexKey. by rewrite He.
Qed.

Lemma index_of_input input indexKey :
  toConnectionIndexKeyForCacheKey input = Some indexKey →
  ∃ testEnvironmentId connectionId, indexKey = toConnectionIndexKey testEnvironmentId connectionId.
Proof. unfold toConnectionIndexKeyForCacheKey. destruct (key_credentialResolver input); naive_solver. Qed.

Lemma sort_strings_perm keys : sort_strings keys ≡ₚ keys.
Proof. apply sort_perm. Qed.

Lemma index_key_inj testEnvironmentId connectionId testEnvironmentId' connectionId' :
  has_char colon (default "" testEnvironmentId) = false → has_char colon connectionId = false →
  has_char colon (default "" testEnvironmentId') = false → has_char colon connectionId' = false →
  toConnectionIndexKey testEnvironmentId connectionId = toConnectionIndexKey testEnvironmentId' connectionId' →
  default "" testEnvironmentId = default "" testEnvironmentId' ∧ connectionId = connectionId'.
Proof.
  intros ?? ?? Heq. apply (inj (String.append _)) in Heq. apply concat_inj in Heq; [by injection Heq|done|done|by repeat constructor..].
Qed.

(** ** Beside other calls *)

Class DateParseLaws `{DateParse} : Prop := {
  Date_parse_range text t : Date_parse text = Some t → - 8640000000000000 <= t <= 8640000000000000;
}.

Section Beside.
Context `{ZodLaws} `{DateParseLaws} (this : CredentialCacheConfig).
Context {S : Type} `{CacheAdapterLaws S} (store_error : EgressError → Prop).
Context {W : Type} (store : W → S) (clock : W → Z) (issued : W → string → CachedCredential → Prop).
Context {Event : Type} (happened : W → Event → Prop) (write_event : string → string → Z → Event).
Context (step : ∀ X, cache_op X → W → EgressError + X → W → Prop).

Definition later (w w' : W) : Prop :=
  clock w <= clock w' ∧ (∀ key credential, issued w key credential → issued w' key credential) ∧
  ∀ event, happened w event → happened w' event.

(** What a stored text is: the record of a credential that was issued for the key, written
    at some time with an expiry that [set] computed no later, or the list of an index. *)
Definition well_stored (w : W) (key text : string) : Prop :=
  (∀ input, key = toCacheKey input → ∃ record now written,
     text = serializeCredentialRecord record ∧ storable record ∧
     issued w key record.(record_credential) ∧ now <= written <= clock w ∧
     happened w (write_event key text written) ∧
     resolveExpiryMs record.(record_credential) now this.(defaultTtlSeconds)
       = inr record.(record_expiresAtMs)) ∧
  (∀ testEnvironmentId connectionId, key = toConnectionIndexKey testEnvironmentId connectionId →
     ∃ keys, text = serializeCredentialIndex keys ∧ Forall (λ key, key ≠ "") keys).

Definition well_formed_world (w : W) : Prop :=
  0 <= clock w <= 8640000000000000 ∧
  ∀ key text deadline, contents (store w) key = Some (text, deadline) → well_stored w key text.

(** What the other calls may do. *)
Definition beside (w w' : W) : Prop := later w w' ∧ (well_formed_world w → well_formed_world w').

Context (step_cache : ∀ X (op : cache_op X) w r w', step X op w r w' →
  cache_step store_error op (clock w) (store w) r (store w') ∧ clock w' = clock w ∧
  (∀ key credential, issued w key credential → issued w' key credential) ∧
  (∀ event, happened w event → happened w' event)).
Context (step_write : ∀ key value ttlMs w r w',
  step _ (CacheSet key value ttlMs) w r w' → happened w' (write_event key value (clock w))).

#[export] Instance beside_preorder : PreOrder beside.
Proof.
  split.
  - intros w. split; [split_and!; [lia|done|done]|done].
  - intros w1 w2 w3 [(Hc1 & Hi1 & He1) Hw1] [(Hc2 & Hi2 & He2) Hw2].
    split; [split_and!; [lia|eauto|eauto]|]; eauto.
Qed.

Lemma well_stored_later w w' key text : later w w' → well_stored w key text → well_stored w' key text.
Proof.
  intros (Hclock & Hissued & Hevents) [Hrecord Hindex]. split; [|done]. intros input Hkey.
  destruct (Hrecord input Hkey) as (record & now & written & -> & Hok & Hi & Hnow & Hwritten & Hexpiry).
  exists record, now, written. split_and!; [done|done|by apply Hissued|lia|lia|by apply Hevents|done].
Qed.

(** A step that leaves the store alone. *)
Lemma same_store_beside w w' :
  store w' = store w → clock w <= clock w' → (clock w <= 8640000000000000 → clock w' <= 8640000000000000) →
  (∀ key credential, issued w key credential → issued w' key credential) →
  (∀ event, happened w event → happened w' event) → beside w w'.
Proof.
  intros Hstore Hclock Hmax Hissued Hevents. assert (later w w') as Hlater by by split_and!.
  split; [done|]. intros [Hrange Hw]. split; [split; [lia|apply Hmax; lia]|].
  intros key text deadline. rewrite Hstore. intros Hget.
  eapply well_stored_later; [done|by eapply Hw].
Qed.

(** A step that stores only what is well stored. *)
Lemma step_beside {X} (op : cache_op X) w r w' :
  step X op w r w' →
  (∀ key text deadline, contents (store w') key = Some (text, deadline) →
     contents (store w) key = Some (text, deadline) ∨ well_stored w' key text) →
  beside w w'.
Proof.
  intros (_ & Hclock & Hissued & Hevents)%step_cache Hstored.
  assert (later w w') as Hlater by (split_and!; [lia|done|done]). split; [done|].
  intros [Hrange Hw]. split; [lia|]. intros key text deadline Hget.
  destruct (Hstored _ _ _ Hget); [|done]. apply (well_stored_later w); eauto.
Qed.

(** The rule of an operation: what it leaves stored, and what it answers. *)
Lemma holds_op {X} (op : cache_op X) (Answer : W → EgressError + X → Prop) Q w :
  well_formed_world w →
  (∀ w1 r w2, beside w w1 → well_formed_world w1 → step X op w1 r w2 →
     (∀ key text deadline, contents (store w2) key = Some (text, deadline) →
        contents (store w1) key = Some (text, deadline) ∨ well_stored w2 key text) ∧
     (beside w1 w2 → Answer w2 r)) →
  (∀ w' r, beside w w' → well_formed_world w' → Answer w' r → Q w' r) →
  holds step beside beside (perform op) Q w.
Proof.
  intros Hw Hop HQ. apply holds_perform. intros w1 r w2 Hw1 Hstep.
  assert (well_formed_world w1) as Hwf1 by by apply Hw1.
  destruct (Hop w1 r w2 Hw1 Hwf1 Hstep) as [Hstored Hanswer].
  pose proof (step_beside op w1 r w2 Hstep Hstored) as H12. split; [done|].
  apply HQ; [by etrans|by apply H12|by apply Hanswer].
Qed.

Lemma may_fail_store {X} (s s' : S) (a : X) r s'' :
  may_fail store_error s s' a r s'' → s'' = s ∨ s'' = s'.
Proof. destruct r; simpl; naive_solver. Qed.

Lemma may_fail_answer {X} (s s' : S) (a : X) r s'' :
  may_fail store_error s s' a r s'' → match r with inl e => store_error e | inr x => x = a end.
Proof. destruct r; simpl; naive_solver. Qed.

Lemma holds_get key Q w :
  well_formed_world w →
  (∀ w' r, beside w w' → well_formed_world w' →
     match r with
     | inl e => store_error e
     | inr x => ∀ text, x = Some text → well_stored w' key text
     end → Q w' r) →
  holds step beside beside (perform (CacheGet key)) Q w.
Proof.
  intros Hw. apply (holds_op _ (λ w' r, match r with
     | inl e => store_error e
     | inr x => ∀ text, x = Some text → well_stored w' key text end)); [done|].
  intros w1 r w2 _ Hwf1 Hstep. destruct (step_cache _ _ _ _ _ Hstep) as ([t Hget] & _). split.
  - intros key' text deadline. destruct (may_fail_store _ _ _ _ _ Hget) as [-> | ->]; [by left|].
    destruct (get_keeps t key (store w1) key') as [-> |(_ & -> & _)]; [by left|done].
  - intros H12. apply may_fail_answer in Hget. destruct r as [|x]; [done|]. intros text ->.
    rewrite get_result in Hget. eapply well_stored_later; [apply H12|].
    destruct (contents (store w1) key) as [[text' [deadline|]]|] eqn:Hc; simpl in Hget;
      [case_match|..]; simplify_eq; by eapply Hwf1.
Qed.

Lemma holds_set key value ttlMs Q w :
  well_formed_world w →
  (∀ w' written, later w w' → clock w <= written <= clock w' →
     happened w' (write_event key value written) → well_stored w' key value) →
  (∀ w' r, beside w w' → well_formed_world w' → match r with inl e => store_error e | inr _ => True end → Q w' r) →
  holds step beside beside (perform (CacheSet key value ttlMs)) Q w.
Proof.
  intros Hw Hvalue. apply (holds_op _ (λ _ r, match r with inl e => store_error e | inr _ => True end)); [done|].
  intros w1 r w2 [(Hclock & Hissued & Hevents) _] _ Hstep.
  destruct (step_cache _ _ _ _ _ Hstep) as ([t Hset] & Hc2 & Hi2 & He2).
  assert (well_stored w2 key value) as Hwritten.
  { apply (Hvalue w2 (clock w1)); [split_and!; [lia|eauto|eauto]|lia|by eapply step_write]. }
  split.
  - intros key' text deadline. destruct (may_fail_store _ _ _ _ _ Hset) as [-> | ->]; [by left|].
    rewrite set_contents. case_bool_decide; [|by left]. intros [= <- _]. subst. by right.
  - intros _. apply may_fail_answer in Hset. by destruct r.
Qed.

Lemma holds_delete key Q w :
  well_formed_world w →
  (∀ w' r, beside w w' → well_formed_world w' → match r with inl e => store_error e | inr _ => True end → Q w' r) →
  holds step beside beside (perform (CacheDelete key)) Q w.
Proof.
  intros Hw. apply (holds_op _ (λ _ r, match r with inl e => store_error e | inr _ => True end)); [done|].
  intros w1 r w2 _ _ Hstep. destruct (step_cache _ _ _ _ _ Hstep) as (Hdelete & _). split.
  - intros key' text deadline. destruct (may_fail_store _ _ _ _ _ Hdelete) as [-> | ->]; [by left|].
    rewrite delete_contents. case_bool_decide; [done|by left].
  - intros _. apply may_fail_answer in Hdelete. by destruct r.
Qed.

Lemma holds_clock Q w :
  well_formed_world w →
  (∀ w', beside w w' → well_formed_world w' → Q w' (inr (clock w'))) →
  holds step beside beside (perform ReadClock) Q w.
Proof.
  intros Hw HQ. apply (holds_op _ (λ w' r, r = inr (clock w'))); [done| |].
  - intros w1 r w2 _ _ Hstep. destruct (step_cache _ _ _ _ _ Hstep) as ([-> ->] & -> & _).
    split; [by left|done].
  - intros w' r Hw' Hwf ->. by apply HQ.
Qed.

(** *** The methods *)

Definition quiet {A} (r : EgressError + A) : Prop :=
  match r with inl e => store_error e | inr _ => True end.

Local Notation ok p Post := (holds step beside beside p Post).

Lemma well_stored_index w testEnvironmentId connectionId keys :
  Forall (λ key, key ≠ "") keys →
  well_stored w (toConnectionIndexKey testEnvironmentId connectionId) (serializeCredentialIndex keys).
Proof.
  intros Hkeys. split; [|by eauto]. intros input Heq. by apply eq_sym, toCacheKey_index in Heq.
Qed.

(** What is read from an index parses. *)
Lemma index_parses w testEnvironmentId connectionId text :
  well_stored w (toConnectionIndexKey testEnvironmentId connectionId) text →
  ∃ keys, parseCredentialIndex text = inr keys ∧ Forall (λ key, key ≠ "") keys.
Proof.
  intros [_ Hindex]. destruct (Hindex _ _ eq_refl) as (keys & -> & Hkeys).
  exists keys. by rewrite parse_index.
Qed.

Lemma ok_add input w :
  well_formed_world w → ok (addToConnectionIndex input (toCacheKey input)) (λ _, quiet) w.
Proof.
  intros Hw. unfold addToConnectionIndex.
  destruct (toConnectionIndexKeyForCacheKey input) as [indexKey|] eqn:Hkey; [|done].
  destruct (index_of_input _ _ Hkey) as (env & conn & ->).
  apply holds_bind, holds_get; [done|]. intros w1 [e|x] _ Hw1 Hx; [done|].
  assert (∃ keys, match x with None => mret [] | Some text => sync (parseCredentialIndex text) end
            = Return keys ∧ Forall (λ key, key ≠ "") keys) as (keys & -> & Hkeys).
  { destruct x as [text|]; [|by exists []].
    destruct (index_parses _ _ _ _ (Hx text eq_refl)) as (keys & -> & ?). by exists keys. }
  rewrite bind_return. case_bool_decide; [done|].
  apply holds_set; [done|intros w2 written _ _ _|by intros w2 r].
  apply well_stored_index. rewrite sort_strings_perm. apply Forall_app_2; [done|].
  by repeat constructor.
Qed.

Lemma ok_remove input w :
  well_formed_world w → ok (removeFromConnectionIndex input (toCacheKey input)) (λ _, quiet) w.
Proof.
  intros Hw. unfold removeFromConnectionIndex.
  destruct (toConnectionIndexKeyForCacheKey input) as [indexKey|] eqn:Hkey; [|done].
  destruct (index_of_input _ _ Hkey) as (env & conn & ->).
  apply holds_bind, holds_get; [done|]. intros w1 [e|[text|]] _ Hw1 Hx; [done| |done].
  destruct (index_parses _ _ _ _ (Hx text eq_refl)) as (keys & -> & Hkeys).
  unfold sync. cbn [finish]. rewrite bind_return.
  destruct (_ =? 0)%nat; [apply holds_delete; [done|by intros w2 r]|].
  apply holds_set; [done|intros w2 written _ _ _|by intros w2 r].
  apply well_stored_index. rewrite Forall_forall in *. intros key Hin.
  apply Hkeys. by apply elem_of_filter_map_bool in Hin as [? _].
Qed.

(** A hit that was looked up from [w0] on: the record written under the key last holds the
    credential and an expiry computed no later than it was written, and the clock that was
    read in the lookup is more than the skew before that expiry. *)
Definition fresh (w0 w : W) (key : string) (credential : CachedCredential) : Prop :=
  ∃ expiresAtMs stored written now,
    happened w (write_event key (serializeCredentialRecord (mkCredentialRecord credential expiresAtMs)) written) ∧
    stored <= written <= clock w ∧
    resolveExpiryMs credential stored this.(defaultTtlSeconds) = inr expiresAtMs ∧
    clock w0 <= now <= clock w ∧ now + this.(refreshSkewMs) < expiresAtMs.

Definition looked_up (w0 : W) (key : string) (w : W) (r : EgressError + CredentialCacheLookupResult) : Prop :=
  quiet r ∧ ∀ credential, r = inr (CacheHit credential) → issued w key credential ∧ fresh w0 w key credential.

Lemma ok_getWithResult input w :
  well_formed_world w → ok (getWithResult this input) (looked_up w (toCacheKey input)) w.
Proof.
  intros Hw. unfold getWithResult.
  apply holds_bind, holds_get; [done|]. intros w1 [e|[text|]] Hw01 Hw1 Hx; [done| |done].
  destruct (proj1 (Hx text eq_refl) input eq_refl)
    as (record & stored & written & -> & Hok & Hissued & Hstored & Hwritten & Hexpiry).
  rewrite parse_record by done. unfold sync. cbn [finish]. rewrite bind_return.
  apply holds_bind, holds_clock; [done|]. intros w2 Hw12 Hw2. cbn beta iota. case_match eqn:Hskew.
  - apply holds_bind, holds_delete; [done|]. intros w3 [e|[]] _ Hw3 Hr; [done|].
    apply holds_bind. eapply holds_mono; [|by apply ok_remove]. by intros w4 [].
  - split; [done|]. intros credential [= <-]. destruct Hw12 as [(Hclock & Hi & He) _], Hw01 as [[Hclock0 _] _].
    split; [by apply Hi|]. apply Z.leb_gt in Hskew.
    exists record.(record_expiresAtMs), stored, written, (clock w2).
    split_and!; [apply He; by destruct record|lia|lia|done|lia|lia|lia].
Qed.

Lemma expiry_bound credential now expiresAtMs :
  0 <= this.(defaultTtlSeconds) <= 10 ^ 11 → now <= 8640000000000000 →
  resolveExpiryMs credential now this.(defaultTtlSeconds) = inr expiresAtMs →
  expiresAtMs <= MAX_SAFE_INTEGER.
Proof.
  unfold resolveExpiryMs, MAX_SAFE_INTEGER. intros ? ?.
  destruct (credential_expiresAt credential) as [text|]; [|intros [= <-]; lia].
  destruct (Date_parse text) as [t|] eqn:Ht; [|done]. intros [= <-].
  apply Date_parse_range in Ht. lia.
Qed.

Lemma ok_set input credential w :
  0 <= this.(defaultTtlSeconds) <= 10 ^ 11 → well_formed_world w → issued w (toCacheKey input) credential →
  ok (set this input credential) (λ _ r, ∀ e, r = inl e →
    store_error e ∨ ∃ now, resolveExpiryMs credential now this.(defaultTtlSeconds) = inl e) w.
Proof.
  intros Httl Hw Hissued. unfold set. apply holds_bind, holds_clock; [done|].
  intros w1 Hw01 Hw1. cbn beta iota. destruct (resolveExpiryMs _ _ _) as [e|expiresAtMs] eqn:Hexpiry.
  { intros e' [= <-]. by eauto. }
  unfold sync. cbn [finish]. rewrite bind_return. case_match eqn:Hpast.
  - apply holds_bind, holds_delete; [done|]. intros w2 [e|[]] _ Hw2 Hr; [intros e' [= <-]; by left|].
    eapply holds_mono; [|by apply ok_remove]. intros w3 [] ? e' ?; simplify_eq. by left.
  - apply Z.leb_gt in Hpast. apply holds_bind, holds_set; [done| |].
    + intros w2 written (Hc2 & Hi2 & He2) Hwritten Hevent.
      split; [|intros ? ? Heq; by apply toCacheKey_index in Heq]. intros input' Heq.
      exists (mkCredentialRecord credential expiresAtMs), (clock w1), written.
      split_and!; [done| |by apply Hi2, Hw01|lia|lia|done|done].
      split; simpl; [destruct Hw1; lia|]. eapply expiry_bound; [done|apply Hw1|done].
    + intros w2 [e|[]] _ Hw2 Hr; [intros e' [= <-]; by left|].
      eapply holds_mono; [|by apply ok_add]. intros w3 [] ? e' ?; simplify_eq. by left.
Qed.

Lemma ok_together_delete keys w :
  well_formed_world w →
  ok (together keys (λ key, perform (CacheDelete key))) (λ w r, well_formed_world w ∧ quiet r) w.
Proof.
  revert w. induction keys as [|key keys IH]; intros w Hw; [done|]. cbn [together].
  apply holds_bind, holds_attempt, holds_delete; [done|]. intros w1 r _ Hw1 Hr.
  apply holds_bind, holds_attempt. eapply holds_mono; [|by apply IH].
  intros w2 rest [Hw2 Hrest]. destruct r; [by split|]. by apply holds_finish.
Qed.

Lemma ok_invalidate testEnvironmentId connectionId w :
  well_formed_world w →
  ok (invalidateIntegrationConnection testEnvironmentId connectionId) (λ _, quiet) w.
Proof.
  intros Hw. unfold invalidateIntegrationConnection.
  apply holds_bind, holds_get; [done|]. intros w1 [e|[text|]] _ Hw1 Hx; [done| |done].
  destruct (index_parses _ _ _ _ (Hx text eq_refl)) as (keys & -> & _).
  unfold sync. cbn [finish]. rewrite bind_return. apply holds_bind.
  eapply holds_mono; [|by apply ok_together_delete]. intros w2 [e|[]] [Hw2 Hr]; [done|].
  apply holds_bind, holds_delete; [done|]. by intros w3 [e|[]] _ _ ?.
Qed.

End Beside.

(** ** Calls of a cache, beside each other *)

Inductive cache_call : Type :=
| GetCall (input : CredentialCacheKeyInput)
| SetCall (input : CredentialCacheKeyInput) (credential : CachedCredential)
| InvalidateCall (testEnvironmentId : option string) (connectionId : string).

Inductive cache_outcome : Type :=
| LookedUp (result : CredentialCacheLookupResult)
| WasSet
| Invalidated (deletedEntryCount : nat).

Section Calls.
Context `{ZodLaws} `{DateParseLaws} (this : CredentialCacheConfig).
Context {S : Type} `{CacheAdapterLaws S} (store_error : EgressError → Prop).

Definition call_program (call : cache_call) : program cache_op EgressError cache_outcome :=
  match call with
  | GetCall input => result ← getWithResult this input; mret (LookedUp result)
  | SetCall input credential => _ ← set this input credential; mret WasSet
  | InvalidateCall testEnvironmentId connectionId =>
      count ← invalidateIntegrationConnection testEnvironmentId connectionId; mret (Invalidated count)
  end.

(** The store, and the clock in milliseconds. *)
Definition cache_world : Type := S * Z.

Definition world_step X (op : cache_op X) (w : cache_world) (r : EgressError + X) (w' : cache_world) : Prop :=
  cache_step store_error op w.2 w.1 r w'.1 ∧ w'.2 = w.2.

Definition time_passes (w w' : cache_world) : Prop := w'.1 = w.1 ∧ w.2 <= w'.2 <= 8640000000000000.

(** The same with every write of the adapter recorded: its key, its text and its time. *)
Definition written_entry : Type := string * string * Z.
Definition recorded_world : Type := cache_world * list written_entry.

Definition write_of {X} (op : cache_op X) (time : Z) : list written_entry :=
  match op with CacheSet key value _ => [(key, value, time)] | _ => [] end.

Definition recorded_step X (op : cache_op X) (w : recorded_world) (r : EgressError + X)
    (w' : recorded_world) : Prop :=
  world_step X op w.1 r w'.1 ∧ w'.2 = w.2 ++ write_of op w.1.2.

Definition recorded_time (w w' : recorded_world) : Prop := time_passes w.1 w'.1 ∧ w'.2 = w.2.

Definition recorded_store (w : recorded_world) : S := w.1.1.
Definition recorded_clock (w : recorded_world) : Z := w.1.2.
Definition was_written (w : recorded_world) (entry : written_entry) : Prop := entry ∈ w.2.
Definition entry_of (key text : string) (time : Z) : written_entry := (key, text, time).

Definition given (calls : list cache_call) (_ : recorded_world) (key : string) (credential : CachedCredential)
    : Prop := ∃ input, SetCall input credential ∈ calls ∧ key = toCacheKey input.

Local Notation good calls :=
  (well_formed_world this recorded_store recorded_clock (given calls) was_written entry_of).
Local Notation allowed calls :=
  (beside this recorded_store recorded_clock (given calls) was_written entry_of).
Local Notation fresh_hit := (fresh this recorded_clock was_written entry_of).

(** What a call ends with, looked at from [w0] on. *)
Definition call_post (calls : list cache_call) (w0 : recorded_world) (call : cache_call) (w : recorded_world)
    (r : EgressError + cache_outcome) : Prop :=
  match call with
  | GetCall input => (∀ e, r = inl e → store_error e) ∧
      ∀ credential, r = inr (LookedUp (CacheHit credential)) →
        given calls w (toCacheKey input) credential ∧ fresh_hit w0 w (toCacheKey input) credential
  | SetCall _ credential => ∀ e, r = inl e → store_error e ∨
      ∃ now, resolveExpiryMs credential now this.(defaultTtlSeconds) = inl e
  | InvalidateCall _ _ => ∀ e, r = inl e → store_error e
  end.

Lemma recorded_step_cache calls X (op : cache_op X) w r w' :
  recorded_step X op w r w' →
  cache_step store_error op (recorded_clock w) (recorded_store w) r (recorded_store w') ∧
  recorded_clock w' = recorded_clock w ∧
  (∀ key credential, given calls w key credential → given calls w' key credential) ∧
  ∀ entry, was_written w entry → was_written w' entry.
Proof.
  intros [[? ?] Hw]. split_and!; [done..|]. unfold was_written. rewrite Hw. set_solver.
Qed.

Lemma recorded_step_write key value ttlMs w r w' :
  recorded_step _ (CacheSet key value ttlMs) w r w' → was_written w' (entry_of key value (recorded_clock w)).
Proof. intros [_ Hw]. unfold was_written. rewrite Hw. apply elem_of_app. right. by left. Qed.

Lemma recorded_time_beside calls w w' : recorded_time w w' → allowed calls w w'.
Proof.
  intros [[Hstore Hclock] Hw]. apply same_store_beside; [done|unfold recorded_clock; lia..|done|].
  unfold was_written. by rewrite Hw.
Qed.

Lemma cache_call_ok calls call w :
  0 <= this.(defaultTtlSeconds) <= 10 ^ 11 → call ∈ calls → good calls w →
  holds recorded_step (allowed calls) (allowed calls) (call_program call) (call_post calls w call) w.
Proof.
  intros Httl Hcall Hw.
  destruct call as [input|input credential|env conn]; cbn [call_program call_post]; apply holds_bind.
  - eapply holds_mono; [|eapply (ok_getWithResult this store_error);
      [apply recorded_step_cache|apply recorded_step_write|done]].
    intros w' [e|result] [Hquiet Hhit]; [split; [by intros ? [= <-]|done]|].
    split; [done|]. intros credential [= ->]. by apply Hhit.
  - eapply holds_mono; [|eapply (ok_set this store_error);
      [apply recorded_step_cache|apply recorded_step_write|done|done|by exists input]].
    intros w' [e|[]] Hr; [|done]. intros e' [= <-]. by apply Hr.
  - eapply holds_mono; [|eapply (ok_invalidate this store_error); [apply recorded_step_cache|done]].
    intros w' [e|n] Hr; [|done]. by intros e' [= <-].
Qed.

Lemma call_post_stable calls w0 call : stable (allowed calls) (call_post calls w0 call).
Proof.
  intros w w' r [(Hclock & _ & Hevents) _]. destruct call as [input| |]; simpl; [|done..].
  intros [He Hhit]. split; [done|]. intros credential Hr.
  destruct (Hhit credential Hr)
    as [Hgiven (expiresAtMs & stored & written & now & Hw & ? & ? & ? & ?)].
  split; [done|]. exists expiresAtMs, stored, written, now.
  split_and!; [by apply Hevents|lia|lia|done|lia|lia|lia].
Qed.

(** The pool after any prefix of a run: the world is well formed, and a call that has not
    begun ends with what it does from there. *)
Lemma calls_prefix calls w0 w pool :
  0 <= this.(defaultTtlSeconds) <= 10 ^ 11 → good calls w0 →
  rtc (interleave recorded_step recorded_time) (w0, call_program <$> calls) (w, pool) →
  good calls w ∧
  ∀ j p call, pool !! j = Some p → calls !! j = Some call →
    holds recorded_step (allowed calls) (allowed calls) p (call_post calls w0 call) w.
Proof.
  intros Httl Hw Hreach.
  eapply (interleaving_sound recorded_step recorded_time (allowed calls) (allowed calls))
    with (Post := λ j w r, ∀ call, calls !! j = Some call → call_post calls w0 call w r) in Hreach.
  - destruct Hreach as [[_ Hgood] Hpost]. split; [by apply Hgood|]. intros j p call Hp Hj.
    eapply holds_mono; [|exact (Hpost j p Hp)]. intros w' r Hr. by apply Hr.
  - done.
  - apply recorded_time_beside.
  - intros j w1 w2 r Hrely Hr call' Hj. by eapply call_post_stable, Hr.
  - intros j q Hq. rewrite list_lookup_fmap in Hq. destruct (calls !! j) as [call'|] eqn:Hj; [|done].
    simplify_eq/=. eapply holds_mono; [|apply cache_call_ok; [done|by eapply list_elem_of_lookup_2|done]].
    by intros w' r Hr call'' [= <-].
Qed.

(** A call that begins at [w0], wherever that is in a run. *)
Lemma call_from calls w0 pool0 w pool i call r :
  0 <= this.(defaultTtlSeconds) <= 10 ^ 11 → good calls w0 → call ∈ calls →
  pool0 !! i = Some (call_program call) →
  (∀ j p, pool0 !! j = Some p → ∃ Post, holds recorded_step (allowed calls) (allowed calls) p Post w0) →
  rtc (interleave recorded_step recorded_time) (w0, pool0) (w, pool) →
  pool !! i = Some (finish r) → call_post calls w0 call w r.
Proof.
  intros Httl Hw Hcall Hi Hothers Hreach Hr.
  eapply (interleaving_sound recorded_step recorded_time (allowed calls) (allowed calls))
    with (Post := λ j w r, j = i → call_post calls w0 call w r) in Hreach.
  - destruct Hreach as [_ Hpost]. specialize (Hpost i _ Hr). apply holds_finish in Hpost. by apply Hpost.
  - done.
  - apply recorded_time_beside.
  - intros j w1 w2 r' Hrely Hr' Hj. by eapply call_post_stable, Hr'.
  - intros j p Hp. destruct (decide (j = i)) as [->|Hne].
    + simplify_eq. eapply holds_mono; [|by apply cache_call_ok]. by intros w' r' Hr' _.
    + destruct (Hothers j p Hp) as [Post Hholds]. eapply holds_mono; [|exact Hholds]. by intros w' r' _ ?.
Qed.

Lemma fresh_expiry w0 (w : recorded_world) key credential :
  fresh_hit w0 w key credential →
  ∃ expiresAtMs stored written now,
    (key, serializeCredentialRecord (mkCredentialRecord credential expiresAtMs), written) ∈ w.2 ∧
    stored <= written <= w.1.2 ∧
    match credential_expiresAt credential with
    | Some text => Date_parse text = Some expiresAtMs
    | None => expiresAtMs = stored + this.(defaultTtlSeconds) * 1000
    end ∧
    w0.1.2 <= now <= w.1.2 ∧ now + this.(refreshSkewMs) < expiresAtMs.
Proof.
  intros (expiresAtMs & stored & written & now & Hw & Hstored & Hexpiry & Hnow).
  exists expiresAtMs, stored, written, now. split_and!; try apply Hstored; try apply Hnow; [exact Hw|].
  unfold resolveExpiryMs in Hexpiry. destruct (credential_expiresAt credential) as [text|];
    [destruct (Date_parse text); by simplify_eq|by simplify_eq].
Qed.

(** C13: In any interleaving of lookups, stores and invalidations that starts with an
    empty store, and with failures of the store at any point: a lookup, begun at [w0], fails
    only when the store does, so no stored text is ever unreadable; and a hit returns a
    credential that some call stored under the same key.  A record of it with its expiry was
    written under the key, the expiry (its own timestamp, or the default lifetime) was
    computed at a time no later than that write, and the expiry is more than the refresh skew
    after a time at which the lookup was running.  When no identifier holds a colon, the same
    key means the same binding, the same test environment and the same resolver. *)
Theorem hit_credential calls s0 t0 w0 pool0 w pool i input r :
  0 <= this.(defaultTtlSeconds) <= 10 ^ 11 →
  (∀ key, contents s0 key = None) → 0 <= t0 <= 8640000000000000 →
  rtc (interleave recorded_step recorded_time) ((s0, t0, []), call_program <$> calls) (w0, pool0) →
  calls !! i = Some (GetCall input) → pool0 !! i = Some (call_program (GetCall input)) →
  rtc (interleave recorded_step recorded_time) (w0, pool0) (w, pool) →
  pool !! i = Some (finish r) →
  (∀ e, r = inl e → store_error e) ∧
  ∀ credential, r = inr (LookedUp (CacheHit credential)) →
    (∃ expiresAtMs stored written now,
       (toCacheKey input, serializeCredentialRecord (mkCredentialRecord credential expiresAtMs), written)
         ∈ w.2 ∧
       stored <= written <= w.1.2 ∧
       match credential_expiresAt credential with
       | Some text => Date_parse text = Some expiresAtMs
       | None => expiresAtMs = stored + this.(defaultTtlSeconds) * 1000
       end ∧
       w0.1.2 <= now <= w.1.2 ∧ now + this.(refreshSkewMs) < expiresAtMs) ∧
    ∃ input', SetCall input' credential ∈ calls ∧ toCacheKey input' = toCacheKey input ∧
      (plain input → plain input' → same_input input' input).
Proof.
  intros Httl Hempty Ht0 Hbefore Hcall Hi Hreach Hr.
  assert (good calls (s0, t0, [])) as Hw.
  { split; [done|]. intros key text deadline Hget. unfold recorded_store in Hget. simpl in Hget.
    by rewrite Hempty in Hget. }
  destruct (calls_prefix _ _ _ _ Httl Hw Hbefore) as [Hw0 Hpool0].
  assert (length pool0 = length calls) as Hlen.
  { apply interleave_length in Hbefore. by rewrite Hbefore, length_fmap. }
  destruct (call_from calls w0 pool0 w pool i (GetCall input) r) as [He Hhit]; try done.
  { by eapply list_elem_of_lookup_2. }
  { intros j p Hj. destruct (lookup_lt_is_Some_2 calls j) as [call' Hj'];
      [rewrite <-Hlen; by eapply lookup_lt_Some|]. eexists. by eapply Hpool0. }
  split; [done|]. intros credential Heq. destruct (Hhit credential Heq) as [(input' & Hin & Hkey) Hfresh].
  split; [by apply fresh_expiry|]. exists input'. split_and!; [done|done|]. intros. by apply toCacheKey_same.
Qed.

End Calls.

(** ** Concrete services *)

Definition reference_date_parse : DateParse := {|
  Date_parse text := match JSON_parse text with
                     | Some (JNumber (Int t)) => if bool_decide (Z.abs t <= 8640000000000000) then Some t else None
                     | _ => None
                     end |}.

Lemma reference_date_parse_laws : @DateParseLaws reference_date_parse.
Proof.
  split. intros text t. simpl. destruct (JSON_parse text) as [[| |[n|]| | |]|]; try done.
  case_bool_decide; [|done]. intros [= ->]. lia.
Qed.

Definition example_config : CredentialCacheConfig := new_config 300 30.

Definition example_world : @cache_world InMemoryCacheAdapter.t := (JsMap.empty, 1000).

Definition example_input (bindingId : string) : CredentialCacheKeyInput :=
  mkKeyInput None bindingId (KeyIntegrationConnection "icn_reauthorized" "api_key" None None).

Definition example_answer X (op : cache_op X) (w : @cache_world InMemoryCacheAdapter.t)
    : (EgressError + X) * @cache_world InMemoryCacheAdapter.t :=
  let (r, s) := cache_answer op w.2 w.1 in (r, (s, w.2)).

Definition no_store_error (_ : EgressError) : Prop := False.

Lemma example_answer_step X (op : cache_op X) w :
  world_step no_store_error X op w (example_answer X op w).1 (example_answer X op w).2.
Proof.
  pose proof (cache_answer_step (S := InMemoryCacheAdapter.t) no_store_error op w.2 w.1) as Hstep.
  unfold example_answer. by destruct (cache_answer op w.2 w.1).
Qed.

Definition example_program (call : cache_call) : program cache_op EgressError cache_outcome :=
  @call_program reference_zod reference_date_parse example_config call.

Definition set_and_lookup : list cache_call := [
  SetCall (example_input "bind_first") (ValueCredential "token-1" None);
  GetCall (example_input "bind_first")].

Definition recorded_answer X (op : cache_op X) (w : @recorded_world InMemoryCacheAdapter.t)
    : (EgressError + X) * @recorded_world InMemoryCacheAdapter.t :=
  let (r, c) := example_answer X op w.1 in (r, (c, w.2 ++ write_of op w.1.2)).

Lemma recorded_answer_step X (op : cache_op X) w :
  recorded_step no_store_error X op w (recorded_answer X op w).1 (recorded_answer X op w).2.
Proof.
  pose proof (example_answer_step X op w.1) as Hstep. unfold recorded_answer.
  by destruct (example_answer X op w.1).
Qed.

Definition recorded_start : @recorded_world InMemoryCacheAdapter.t := (example_world, []).

(** The store, and then the lookup, which begins after it. *)
Definition store_run := play recorded_answer [0; 0; 0; 0]%nat recorded_start (example_program <$> set_and_lookup).
Definition hit_run := play recorded_answer [1; 1]%nat store_run.1 store_run.2.

Lemma recorded_play schedule w pool :
  rtc (interleave (recorded_step no_store_error) recorded_time) (w, pool)
    ((play recorded_answer schedule w pool).1, (play (A := cache_outcome) recorded_answer schedule w pool).2).
Proof.
  pose proof (play_interleave _ recorded_time _ recorded_answer_step schedule w pool) as Hplay.
  by destruct (play _ _ _ _).
Qed.

Lemma store_run_steps :
  rtc (interleave (recorded_step no_store_error) recorded_time)
    (recorded_start, example_program <$> set_and_lookup) (store_run.1, store_run.2).
Proof. exact (recorded_play [0; 0; 0; 0]%nat recorded_start (example_program <$> set_and_lookup)). Qed.

Lemma hit_run_steps :
  rtc (interleave (recorded_step no_store_error) recorded_time)
    (store_run.1, store_run.2) (hit_run.1, hit_run.2).
Proof. exact (recorded_play [1; 1]%nat store_run.1 store_run.2). Qed.

Lemma hit_credential_witness :
  ∃ expiresAtMs now, now + 30000 < expiresAtMs ∧ 1000 <= now ∧ expiresAtMs <= 301000.
Proof.
  destruct (@hit_credential reference_zod reference_zod_laws reference_date_parse reference_date_parse_laws
    example_config _ _ InMemoryCacheAdapter.laws no_store_error set_and_lookup JsMap.empty 1000
    store_run.1 store_run.2 hit_run.1 hit_run.2 1
    (example_input "bind_first") (inr (LookedUp (CacheHit (ValueCredential "token-1" None)))))
    as [_ Hhit].
  - by vm_compute.
  - done.
  - done.
  - exact store_run_steps.
  - done.
  - unfold store_run. rewrite play_other by (intros Hin; set_solver). done.
  - exact hit_run_steps.
  - by vm_compute.
  - destruct (Hhit _ eq_refl) as [(expiresAtMs & stored & written & now & _ & Hstored & Hexpiry & Hnow & Hfresh) _].
    exists expiresAtMs, now. assert (hit_run.1.1.2 = 1000) as Hclock by by vm_compute.
    assert (store_run.1.1.2 = 1000) as Hclock0 by by vm_compute.
    change (refreshSkewMs example_config) with 30000 in Hfresh. rewrite Hclock in Hstored, Hnow.
    rewrite Hclock0 in Hnow. simpl in Hexpiry. subst expiresAtMs. lia.
Defined.
