(* ===== verification/CredentialInvalidation.v ===== *)
(** * Invalidating the credentials of a connection
      (apps/data-plane-gateway/src/egress/credential-cache.ts)

    The index of a connection against the records in the store.  [invalidation_exact]:
    when calls run one after another, [invalidateIntegrationConnection] removes every
    credential of its connection and nothing else.  [concurrent_sets_survive]: the two
    commands with which [addToConnectionIndex] reads and replaces the index are not one
    step, and a credential stored meanwhile stays after the invalidation. *)

From S2P Require Import Prelude JsMap JsObject Json Text Locale Zod TokenSearch Programs Cache CredentialCache.
Local Open Scope Z_scope.

Definition view : Type := string → option (string * option Z).

Definition update_view (key : string) (stored : option (string * option Z)) (v : view) : view :=
  λ key', if key' =?= key then stored else v key'.

Definition index_keys (v : view) (indexKey : string) (keys : list string) : Prop :=
  v indexKey = Some (serializeCredentialIndex keys, None).

(** The key of a record in the index [indexKey]. *)
Definition key_of_index (indexKey key : string) : Prop :=
  ∃ input, plain input ∧ key = toCacheKey input ∧ toConnectionIndexKeyForCacheKey input = Some indexKey.

(** Every record of a connection, but the one under [pending], is in its index. *)
Definition indexed_but (pending : option string) (v : view) : Prop :=
  ∀ input indexKey, plain input → toConnectionIndexKeyForCacheKey input = Some indexKey →
    pending ≠ Some (toCacheKey input) → is_Some (v (toCacheKey input)) →
    ∃ keys, index_keys v indexKey keys ∧ toCacheKey input ∈ keys.

(** An index lists keys of its own connection and has no deadline. *)
Definition index_sound (v : view) : Prop :=
  ∀ testEnvironmentId connectionId stored,
    v (toConnectionIndexKey testEnvironmentId connectionId) = Some stored →
    ∃ keys, stored = (serializeCredentialIndex keys, None) ∧
      Forall (key_of_index (toConnectionIndexKey testEnvironmentId connectionId)) keys.

Definition indexed (v : view) : Prop := indexed_but None v ∧ index_sound v.

(** ** What the commands do to the records and the indexes *)

Lemma update_view_eq key stored v : update_view key stored v key = stored.
Proof. unfold update_view. by rewrite bool_decide_true. Qed.

Lemma update_view_ne key key' stored v : key' ≠ key → update_view key stored v key' = v key'.
Proof. intros. unfold update_view. by rewrite bool_decide_false. Qed.

Lemma key_nonempty indexKey key : key_of_index indexKey key → key ≠ "".
Proof. intros (input & _ & -> & _). apply toCacheKey_nonempty. Qed.

Lemma indexed_but_weaken pending v : indexed_but None v → indexed_but pending v.
Proof. intros Hv input indexKey Hp Hi _. by apply Hv. Qed.

(** A record is stored or removed. *)
Lemma indexed_but_record input stored v :
  indexed_but (Some (toCacheKey input)) v →
  indexed_but (Some (toCacheKey input)) (update_view (toCacheKey input) stored v).
Proof.
  intros Hv input' indexKey Hp Hi Hne Hget.
  rewrite update_view_ne in Hget by congruence.
  destruct (Hv input' indexKey Hp Hi Hne Hget) as (keys & Hkeys & Hin). exists keys. split; [|done].
  unfold index_keys. destruct (toConnectionIndexKeyForCacheKey input') as [indexKey'|] eqn:Hindex; [|done].
  destruct (index_of_input _ _ Hindex) as (env & conn & ->). simplify_eq.
  rewrite update_view_ne; [done|]. intros Heq. by apply eq_sym, toCacheKey_index in Heq.
Qed.

Lemma index_sound_record input stored v :
  index_sound v → index_sound (update_view (toCacheKey input) stored v).
Proof.
  intros Hv env conn s Hs. rewrite update_view_ne in Hs; [by apply Hv|].
  intros Heq. by apply eq_sym, toCacheKey_index in Heq.
Qed.

(** A removed record needs no entry. *)
Lemma indexed_but_removed input v :
  plain input → indexed_but (Some (toCacheKey input)) v → v (toCacheKey input) = None → indexed_but None v.
Proof.
  intros Hp Hv Hnone input' indexKey Hp' Hi _ Hget.
  destruct (decide (toCacheKey input = toCacheKey input')) as [Heq|Hne].
  - rewrite <-Heq, Hnone in Hget. by destruct Hget.
  - apply (Hv input' indexKey); [done|done|congruence|done].
Qed.

(** An index is replaced by [keys], which keeps its other keys. *)
Lemma indexed_but_index pending env conn keys v :
  (∀ keys', index_keys v (toConnectionIndexKey env conn) keys' →
     ∀ key, key ∈ keys' → pending ≠ Some key → key ∈ keys) →
  indexed_but pending v →
  indexed_but pending
    (update_view (toConnectionIndexKey env conn) (Some (serializeCredentialIndex keys, None)) v).
Proof.
  intros Hkeep Hv input indexKey Hp Hi Hne Hget.
  rewrite update_view_ne in Hget by apply toCacheKey_index.
  destruct (Hv input indexKey Hp Hi Hne Hget) as (keys' & Hkeys' & Hin).
  unfold index_keys. destruct (decide (indexKey = toConnectionIndexKey env conn)) as [->|Hother].
  - exists keys. rewrite update_view_eq. split; [done|]. by apply (Hkeep keys').
  - exists keys'. by rewrite update_view_ne.
Qed.

Lemma index_sound_index env conn keys v :
  Forall (key_of_index (toConnectionIndexKey env conn)) keys → index_sound v →
  index_sound (update_view (toConnectionIndexKey env conn) (Some (serializeCredentialIndex keys, None)) v).
Proof.
  intros Hkeys Hv env' conn' s Hs.
  destruct (decide (toConnectionIndexKey env' conn' = toConnectionIndexKey env conn)) as [Heq|Hne].
  - rewrite Heq, update_view_eq in Hs. injection Hs as <-. exists keys. by rewrite Heq.
  - rewrite update_view_ne in Hs by done. by apply Hv.
Qed.

(** The pending record is in its index. *)
Lemma indexed_from_but input indexKey keys v :
  plain input → toConnectionIndexKeyForCacheKey input = Some indexKey →
  indexed_but (Some (toCacheKey input)) v → index_keys v indexKey keys → toCacheKey input ∈ keys →
  indexed_but None v.
Proof.
  intros Hp Hi Hv Hkeys Hin input' indexKey' Hp' Hi' _ Hget.
  destruct (decide (toCacheKey input = toCacheKey input')) as [Heq|Hne].
  - exists keys. rewrite <-Heq. split; [|done].
    apply toCacheKey_inj, key_parts_index in Heq; [|done..]. congruence.
  - apply (Hv input' indexKey'); [done|done|congruence|done].
Qed.

(** An index is removed that has no key but the pending one. *)
Lemma indexed_but_dropped pending env conn v :
  (∀ keys, index_keys v (toConnectionIndexKey env conn) keys → ∀ key, key ∈ keys → pending = Some key) →
  indexed_but pending v → indexed_but pending (update_view (toConnectionIndexKey env conn) None v).
Proof.
  intros Hempty Hv input indexKey Hp Hi Hne Hget.
  rewrite update_view_ne in Hget by apply toCacheKey_index.
  destruct (Hv input indexKey Hp Hi Hne Hget) as (keys & Hkeys & Hin). exists keys. split; [|done].
  unfold index_keys. rewrite update_view_ne; [done|]. intros ->.
  by apply Hne, (Hempty keys).
Qed.

Lemma index_sound_dropped env conn v :
  index_sound v → index_sound (update_view (toConnectionIndexKey env conn) None v).
Proof.
  intros Hv env' conn' s. unfold update_view. case_bool_decide; [done|]. apply Hv.
Qed.

(** Only the records matter that are there. *)
Definition same_view (v v' : view) : Prop := ∀ key, v key = v' key.

#[export] Instance same_view_equivalence : Equivalence same_view.
Proof. split; unfold same_view; [done|congruence|congruence]. Qed.

#[export] Instance indexed_but_proper pending : Proper (same_view ==> impl) (indexed_but pending).
Proof.
  intros v v' Heq Hv input indexKey Hp Hi Hne Hget. rewrite <-Heq in Hget.
  destruct (Hv input indexKey Hp Hi Hne Hget) as (keys & Hkeys & Hin). exists keys.
  unfold index_keys in *. by rewrite <-Heq.
Qed.

#[export] Instance index_sound_proper : Proper (same_view ==> impl) index_sound.
Proof. intros v v' Heq Hv env conn s Hs. rewrite <-Heq in Hs. by apply Hv. Qed.

#[export] Instance update_view_proper key stored : Proper (same_view ==> same_view) (update_view key stored).
Proof. intros v v' Heq key'. unfold update_view. by rewrite Heq. Qed.

(** ** One call after another *)

Lemma serializeCredentialIndex_inj keys keys' :
  serializeCredentialIndex keys = serializeCredentialIndex keys' → keys = keys'.
Proof.
  intros Heq. apply (f_equal JSON_parse) in Heq. unfold serializeCredentialIndex in Heq.
  assert (∀ keys : list string, json_ok (JArray (JString <$> keys))) as Hok.
  { intros l. by apply json_ok_array, Forall_fmap, Forall_true. }
  rewrite !JSON_roundtrip in Heq by done. injection Heq as Heq. apply list_fmap_eq_inj in Heq; [done|by intros ?? [=]].
Qed.

Lemma index_keys_fun v indexKey keys keys' :
  index_keys v indexKey keys → index_keys v indexKey keys' → keys = keys'.
Proof.
  unfold index_keys. intros Hk Hk'. apply serializeCredentialIndex_inj. congruence.
Qed.

Section Alone.
Context `{ZodLaws} `{DateParse} (this : CredentialCacheConfig).
Context {S : Type} `{CacheAdapterLaws S} (store_error : EgressError → Prop).

Local Notation world_step := (world_step store_error).
Local Notation cache_world := (@cache_world S).

Definition stored (w : cache_world) : view := contents w.1.

(** What holds when the call returns. *)
Definition returns {A} (P : cache_world → A → Prop) (w : cache_world) (r : EgressError + A) : Prop :=
  match r with inl _ => True | inr a => P w a end.

Definition alone {A} (p : program cache_op EgressError A) (P : cache_world → A → Prop) : cache_world → Prop :=
  holds world_step (rtc time_passes) (λ _ _, True) p (returns P).

Lemma time_passes_store (w w' : cache_world) : rtc time_passes w w' → w'.1 = w.1.
Proof. induction 1 as [|w w1 w' [Heq _] _ IH]; [done|]. congruence. Qed.

Lemma alone_bind {A B} (p : program cache_op EgressError A) (f : A → program cache_op EgressError B) P w :
  alone p (λ w' a, alone (f a) P w') w → alone (p ≫= f) P w.
Proof. intros Hp. apply holds_bind. eapply holds_mono; [|exact Hp].
  intros w' [e|a] Hr; [done|exact Hr].
Qed.

Lemma alone_mono {A} (p : program cache_op EgressError A) (P Q : cache_world → A → Prop) w :
  (∀ w' a, P w' a → Q w' a) → alone p P w → alone p Q w.
Proof. intros HPQ. apply holds_mono. intros w' [|a]; [done|apply HPQ]. Qed.

Lemma alone_get key P w :
  (∀ w' x t, x = visible t (stored w key) →
     same_view (stored w') (stored w) ∨
     x = None ∧ same_view (stored w') (update_view key None (stored w)) → P w' x) →
  alone (perform (CacheGet key)) P w.
Proof.
  intros HP. apply holds_perform. intros w1 r w2 Hw1%time_passes_store [[t Hget] _]. split; [done|].
  destruct r as [e|x]; [done|]. destruct Hget as [-> Hstore].
  apply (HP w2 _ t); [by rewrite get_result, Hw1|].
  unfold same_view, stored. rewrite Hstore, Hw1 in *. clear w2 Hstore.
  pose proof (get_keeps t key w.1) as Hkeeps. rewrite get_result.
  destruct (contents (adapter_get t key w.1).2 key) as [c|] eqn:Hc.
  - left. intros key'. destruct (Hkeeps key') as [|(-> & Hnone & _)]; congruence.
  - destruct (Hkeeps key) as [Hsame|(_ & _ & Hvisible)].
    + left. intros key'. destruct (Hkeeps key') as [|(-> & Hnone & _)]; congruence.
    + right. split; [done|]. intros key'. unfold update_view. case_bool_decide as Hk; [by subst|].
      by destruct (Hkeeps key') as [|(? & _)].
Qed.

(** A text without a deadline is read as it is. *)
Lemma alone_get_index key P w :
  (∀ text deadline, stored w key = Some (text, deadline) → deadline = None) →
  (∀ w', same_view (stored w') (stored w) → P w' (fst <$> stored w key)) →
  alone (perform (CacheGet key)) P w.
Proof.
  intros Hdeadline HP. apply alone_get. intros w' x t Hx Hview.
  destruct (stored w key) as [[text deadline]|] eqn:Hkey; simpl in *.
  - rewrite (Hdeadline _ _ eq_refl) in Hx. subst x. destruct Hview as [Hview|[? _]]; [|done]. by apply HP.
  - subst x. apply HP. destruct Hview as [Hview|[_ Hview]]; [done|]. rewrite Hview. intros key'.
    unfold update_view. case_bool_decide; congruence.
Qed.

Lemma alone_set key value ttlMs P w :
  (∀ w' deadline, (ttlMs = None → deadline = None) →
     same_view (stored w') (update_view key (Some (value, deadline)) (stored w)) → P w' tt) →
  alone (perform (CacheSet key value ttlMs)) P w.
Proof.
  intros HP. apply holds_perform. intros w1 r w2 Hw1%time_passes_store [[t Hset] _]. split; [done|].
  destruct r as [e|[]]; [done|]. destruct Hset as [_ Hstore].
  apply (HP w2 (Z.add t <$> ttlMs)); [by intros ->|].
  intros key'. unfold stored, update_view. by rewrite Hstore, Hw1, set_contents.
Qed.

Lemma alone_delete key P w :
  (∀ w', same_view (stored w') (update_view key None (stored w)) → P w' tt) →
  alone (perform (CacheDelete key)) P w.
Proof.
  intros HP. apply holds_perform. intros w1 r w2 Hw1%time_passes_store [Hdelete _]. split; [done|].
  destruct r as [e|[]]; [done|]. destruct Hdelete as [_ Hstore]. apply HP.
  intros key'. unfold stored, update_view. by rewrite Hstore, Hw1, delete_contents.
Qed.

Lemma alone_clock P w :
  (∀ w' now, same_view (stored w') (stored w) → P w' now) → alone (perform ReadClock) P w.
Proof.
  intros HP. apply holds_perform. intros w1 r w2 Hw1%time_passes_store [[-> Hstore] _].
  split; [done|]. apply HP. intros key. unfold stored. by rewrite Hstore, Hw1.
Qed.

Lemma alone_sync {A B} (r : EgressError + A) (f : A → program cache_op EgressError B) P w :
  (∀ a, r = inr a → alone (f a) P w) → alone (sync r ≫= f) P w.
Proof. intros Hf. destruct r as [e|a]; [done|]. by apply (Hf a). Qed.

(** *** The index *)

Definition same_records (v v' : view) : Prop := ∀ input, v' (toCacheKey input) = v (toCacheKey input).

Lemma index_deadline v env conn text deadline :
  index_sound v → v (toConnectionIndexKey env conn) = Some (text, deadline) → deadline = None.
Proof. intros Hv Hs. by destruct (Hv _ _ _ Hs) as (? & [= _ ->] & _). Qed.

Lemma same_records_index env conn s v : same_records v (update_view (toConnectionIndexKey env conn) s v).
Proof. intros input. apply update_view_ne, toCacheKey_index. Qed.

(** What the index of the input holds, read and parsed. *)
Lemma index_read v env conn text deadline :
  index_sound v → v (toConnectionIndexKey env conn) = Some (text, deadline) →
  ∃ keys, index_keys v (toConnectionIndexKey env conn) keys ∧
    Forall (key_of_index (toConnectionIndexKey env conn)) keys ∧ parseCredentialIndex text = inr keys.
Proof.
  intros Hv Hs. destruct (Hv _ _ _ Hs) as (keys & [= -> ->] & Hkeys). exists keys. split_and!; [done|done|].
  apply parse_index. eapply Forall_impl; [exact Hkeys|]. intros key. apply key_nonempty.
Qed.

(** *** The methods *)

Lemma alone_remove input w :
  plain input → indexed_but (Some (toCacheKey input)) (stored w) → index_sound (stored w) →
  alone (removeFromConnectionIndex input (toCacheKey input)) (λ w' _,
    indexed_but (Some (toCacheKey input)) (stored w') ∧ index_sound (stored w') ∧
    same_records (stored w) (stored w')) w.
Proof.
  intros Hp Hbut Hsound. unfold removeFromConnectionIndex.
  destruct (toConnectionIndexKeyForCacheKey input) as [indexKey|] eqn:Hkey; [|by split_and!].
  destruct (index_of_input _ _ Hkey) as (env & conn & ->).
  apply alone_bind, alone_get_index; [intros text deadline; by apply index_deadline|].
  intros w1 Hw1. destruct (stored w (toConnectionIndexKey env conn)) as [[text deadline]|] eqn:Hs; simpl; cycle 1.
  { split_and!; [by rewrite Hw1|by rewrite Hw1|]. intros input'. apply Hw1. }
  destruct (index_read _ _ _ _ _ Hsound Hs) as (keys & Hkeys & Hall & Hparse).
  apply alone_sync. intros indexKeys Hindex. rewrite Hparse in Hindex. injection Hindex as <-.
  set (next := List.filter _ keys).
  assert (∀ key, key ∈ next ↔ key ∈ keys ∧ key ≠ toCacheKey input) as Hnext.
  { intros key. unfold next. rewrite elem_of_filter_map_bool, negb_true_iff, bool_decide_eq_false. done. }
  destruct (length next =? 0)%nat eqn:Hlength.
  - apply alone_delete. intros w2 Hw2. rewrite Hw1 in Hw2. apply Nat.eqb_eq, nil_length_inv in Hlength.
    split_and!.
    + rewrite Hw2. apply indexed_but_dropped; [|done]. intros keys' Hkeys' key Hin.
      rewrite (index_keys_fun _ _ _ _ Hkeys' Hkeys) in Hin.
      destruct (decide (key = toCacheKey input)) as [->|]; [done|].
      assert (key ∈ next) as Hn by by apply Hnext. rewrite Hlength in Hn. by apply elem_of_nil in Hn.
    + rewrite Hw2. by apply index_sound_dropped.
    + intros input'. rewrite (Hw2 _). apply same_records_index.
  - apply alone_set. intros w2 d Hd Hw2. rewrite Hw1, (Hd eq_refl) in Hw2. split_and!.
    + rewrite Hw2. apply indexed_but_index; [|done]. intros keys' Hkeys' key Hin Hne.
      rewrite (index_keys_fun _ _ _ _ Hkeys' Hkeys) in Hin. apply Hnext. split; congruence.
    + rewrite Hw2. apply index_sound_index; [|done]. rewrite Forall_forall in *.
      intros key [Hin _]%Hnext. by apply Hall.
    + intros input'. rewrite (Hw2 _). apply same_records_index.
Qed.

Lemma alone_add input w :
  plain input → indexed_but (Some (toCacheKey input)) (stored w) → index_sound (stored w) →
  alone (addToConnectionIndex input (toCacheKey input)) (λ w' _, indexed (stored w')) w.
Proof.
  intros Hp Hbut Hsound. unfold addToConnectionIndex.
  destruct (toConnectionIndexKeyForCacheKey input) as [indexKey|] eqn:Hkey; cycle 1.
  { split; [|done]. intros input' indexKey' Hp' Hi _ Hget. apply (Hbut input' indexKey'); try done.
    intros Heq%(inj Some). apply toCacheKey_inj in Heq; [|done..]. apply key_parts_index in Heq. congruence. }
  destruct (index_of_input _ _ Hkey) as (env & conn & ->).
  assert (key_of_index (toConnectionIndexKey env conn) (toCacheKey input)) as Hown by by exists input.
  apply alone_bind, alone_get_index; [intros text deadline; by apply index_deadline|]. intros w1 Hw1.
  assert (∀ keys, Forall (key_of_index (toConnectionIndexKey env conn)) keys →
    (∀ keys', index_keys (stored w) (toConnectionIndexKey env conn) keys' → keys' = keys) →
    alone (perform (CacheSet (toConnectionIndexKey env conn)
      (serializeCredentialIndex (sort_strings (keys ++ [toCacheKey input]))) None))
      (λ w' _, indexed (stored w')) w1) as Hset.
  { intros keys Hall Hkeys. apply alone_set. intros w2 d Hd Hw2. rewrite Hw1, (Hd eq_refl) in Hw2.
    assert (∀ key, key ∈ sort_strings (keys ++ [toCacheKey input]) ↔ key ∈ keys ∨ key = toCacheKey input) as Hin.
    { intros key. by rewrite sort_strings_perm, elem_of_app, list_elem_of_singleton. }
    split; rewrite Hw2.
    - eapply (indexed_from_but input); [done|done| | |].
      + apply indexed_but_index; [|done]. intros keys' Hkeys' key Hk _. rewrite (Hkeys _ Hkeys') in Hk.
        apply Hin. by left.
      + unfold index_keys. apply update_view_eq.
      + apply Hin. by right.
    - apply index_sound_index; [|done]. rewrite sort_strings_perm. apply Forall_app_2; [done|by constructor]. }
  destruct (stored w (toConnectionIndexKey env conn)) as [[text deadline]|] eqn:Hs; cbn [fmap option_fmap option_map fst].
  - destruct (index_read _ _ _ _ _ Hsound Hs) as (keys & Hkeys & Hall & Hparse).
    apply alone_sync. intros indexKeys Hindex. rewrite Hparse in Hindex. injection Hindex as <-.
    case_bool_decide as Hin; [|by apply Hset; eauto using index_keys_fun].
    split; rewrite Hw1; [|done]. by eapply (indexed_from_but input).
  - apply (Hset []); [done|]. unfold index_keys. by rewrite Hs.
Qed.

Lemma alone_set_call input credential w :
  plain input → indexed (stored w) →
  alone (set this input credential) (λ w' _, indexed (stored w')) w.
Proof.
  intros Hp [Hbut Hsound]. unfold set. apply alone_bind, alone_clock. intros w1 now Hw1.
  apply alone_sync. intros expiresAtMs _.
  assert (indexed_but (Some (toCacheKey input)) (stored w)) as Hpending by by apply indexed_but_weaken.
  case_match; apply alone_bind.
  - apply alone_delete. intros w2 Hw2. rewrite Hw1 in Hw2.
    eapply alone_mono; [|apply alone_remove; [done|rewrite Hw2..];
      [by apply indexed_but_record|by apply index_sound_record]].
    intros w3 [] (Hbut3 & Hsound3 & Hsame). split; [|done].
    apply (indexed_but_removed input); [done|done|]. by rewrite Hsame, (Hw2 _), update_view_eq.
  - apply alone_set. intros w2 d _ Hw2. rewrite Hw1 in Hw2.
    apply alone_add; [done|rewrite Hw2..]; [by apply indexed_but_record|by apply index_sound_record].
Qed.

Lemma alone_getWithResult input w :
  plain input → indexed (stored w) →
  alone (getWithResult this input) (λ w' r,
    indexed (stored w') ∧ (stored w (toCacheKey input) = None → r = CacheMiss)) w.
Proof.
  intros Hp [Hbut Hsound]. unfold getWithResult. apply alone_bind, alone_get. intros w1 x t Hx Hw1.
  assert (indexed_but (Some (toCacheKey input)) (stored w)) as Hpending by by apply indexed_but_weaken.
  assert (indexed (stored w1)) as [Hbut1 Hsound1].
  { destruct Hw1 as [Hw1|[_ Hw1]]; (split; rewrite Hw1); [done|done| |by apply index_sound_record].
    apply (indexed_but_removed input); [done|by apply indexed_but_record|apply update_view_eq]. }
  destruct x as [text|]; [|by repeat split].
  assert (stored w (toCacheKey input) ≠ None) as Hsome by (intros Heq; by rewrite Heq in Hx).
  apply alone_sync. intros record _. apply alone_bind, alone_clock. intros w2 now Hw2.
  case_match; [|by repeat split; rewrite ?Hw2].
  apply alone_bind, alone_delete. intros w3 Hw3. rewrite Hw2 in Hw3. apply alone_bind.
  eapply alone_mono; [|apply alone_remove; [done|rewrite Hw3..];
    [by apply indexed_but_record, indexed_but_weaken|by apply index_sound_record]].
  intros w4 [] (Hbut4 & Hsound4 & Hsame). split; [|done]. split; [|done].
  apply (indexed_but_removed input); [done|done|]. by rewrite Hsame, (Hw3 _), update_view_eq.
Qed.
(** *** Invalidation *)

Definition without (keys : list string) (v : view) : view :=
  λ key, if bool_decide (key ∈ keys) then None else v key.

Lemma alone_together_delete keys v w :
  same_view (stored w) v →
  alone (together keys (λ key, perform (CacheDelete key))) (λ w' _, same_view (stored w') (without keys v)) w.
Proof.
  revert v w. induction keys as [|key keys IH]; intros v w Hw.
  { intros key. unfold without. by rewrite Hw, bool_decide_false by apply not_elem_of_nil. }
  cbn [together]. apply holds_bind, holds_attempt.
  eapply holds_mono; 
    [|apply (alone_delete key (λ w1 _, same_view (stored w1) (update_view key None (stored w)))); by intros]. intros w1 [e|[]] Hw1.
  - apply holds_bind, holds_attempt. eapply holds_mono; [|exact (IH (stored w1) w1 (reflexivity _))].
    by intros w2 rest _.
  - apply holds_bind, holds_attempt. eapply holds_mono; [|exact (IH _ w1 Hw1)].
    intros w2 [e|[]] Hw2; [done|]. intros key'. rewrite (Hw2 key'). unfold without, update_view.
    rewrite (bool_decide_ext (key' ∈ key :: keys) (key' = key ∨ key' ∈ keys)) by apply elem_of_cons.
    rewrite bool_decide_or. by repeat case_bool_decide.
Qed.

Lemma elem_of_distinct keys key : key ∈ distinct keys ↔ key ∈ keys.
Proof.
  unfold distinct. assert (∀ seen, key ∈ foldl (λ seen key, if bool_decide (key ∈ seen) then seen else seen ++ [key])
    seen keys ↔ key ∈ seen ∨ key ∈ keys) as Hgen.
  { induction keys as [|k keys IH]; intros seen; simpl; [rewrite elem_of_nil; tauto|]. rewrite IH, elem_of_cons.
    case_bool_decide; [|rewrite elem_of_app, list_elem_of_singleton; tauto].
    split; [tauto|]. intros [?|[->|?]]; tauto. }
  rewrite Hgen, elem_of_nil. tauto.
Qed.

(** The records of the connection are gone, and nothing else. *)
Definition invalidated (indexKey : string) (v v' : view) : Prop :=
  ∀ input, plain input →
    v' (toCacheKey input) =
      if toConnectionIndexKeyForCacheKey input =?= Some indexKey then None else v (toCacheKey input).

Lemma invalidated_view env conn keys v :
  indexed v → index_keys v (toConnectionIndexKey env conn) keys →
  Forall (key_of_index (toConnectionIndexKey env conn)) keys →
  let v' := update_view (toConnectionIndexKey env conn) None (without (distinct keys) v) in
  invalidated (toConnectionIndexKey env conn) v v' ∧ indexed v'.
Proof.
  intros [Hbut Hsound] Hkeys Hall v'.
  assert (∀ input, plain input → toCacheKey input ∈ keys →
    toConnectionIndexKeyForCacheKey input = Some (toConnectionIndexKey env conn)) as Hown.
  { intros input Hp Hin. rewrite Forall_forall in Hall. destruct (Hall _ Hin) as (input' & Hp' & Heq & <-).
    by apply key_parts_index, toCacheKey_inj. }
  assert (invalidated (toConnectionIndexKey env conn) v v') as Hinv.
  { intros input Hp. unfold v'. rewrite update_view_ne by apply toCacheKey_index. unfold without.
    case_bool_decide as Hin; rewrite elem_of_distinct in Hin.
    - by rewrite bool_decide_true by by apply Hown.
    - case_bool_decide as Hi; [|done]. apply eq_None_not_Some. intros Hget.
      destruct (Hbut input _ Hp Hi ltac:(done) Hget) as (keys' & Hkeys' & Hin').
      by rewrite (index_keys_fun _ _ _ _ Hkeys' Hkeys) in Hin'. }
  split; [done|]. split.
  - intros input indexKey Hp Hi _ Hget. rewrite (Hinv input Hp), Hi in Hget.
    case_bool_decide as Hother; [by destruct Hget|].
    destruct (Hbut input indexKey Hp Hi ltac:(done) Hget) as (keys' & Hkeys' & Hin). exists keys'. split; [|done].
    destruct (index_of_input _ _ Hi) as (env' & conn' & ->).
    unfold index_keys, v'. rewrite update_view_ne by congruence. unfold without. rewrite bool_decide_false; [done|].
    rewrite elem_of_distinct. intros Hin'. rewrite Forall_forall in Hall.
    destruct (Hall _ Hin') as (input' & _ & Heq & _). by apply eq_sym, toCacheKey_index in Heq.
  - apply index_sound_dropped. intros env' conn' s. unfold without. case_bool_decide; [done|]. apply Hsound.
Qed.

Lemma alone_invalidate env conn w :
  indexed (stored w) →
  alone (invalidateIntegrationConnection env conn) (λ w' _,
    invalidated (toConnectionIndexKey env conn) (stored w) (stored w') ∧ indexed (stored w')) w.
Proof.
  intros [Hbut Hsound]. unfold invalidateIntegrationConnection.
  apply alone_bind, alone_get_index; [intros text deadline; by apply index_deadline|]. intros w1 Hw1.
  destruct (stored w (toConnectionIndexKey env conn)) as [[text deadline]|] eqn:Hs; cbn [fmap option_fmap option_map fst].
  - destruct (index_read _ _ _ _ _ Hsound Hs) as (keys & Hkeys & Hall & Hparse).
    apply alone_sync. intros indexKeys Hindex. rewrite Hparse in Hindex. injection Hindex as <-.
    apply alone_bind. eapply alone_mono; [|exact (alone_together_delete _ _ _ Hw1)]. intros w2 [] Hw2.
    apply alone_bind, alone_delete. intros w3 Hw3. rewrite Hw2 in Hw3.
    destruct (invalidated_view env conn keys (stored w)) as [Hinv [Hbut' Hsound']]; [done..|].
    split; [|split; by rewrite Hw3]. intros input Hp. rewrite (Hw3 _). by apply Hinv.
  - split; [|split; by rewrite Hw1]. intros input Hp. rewrite (Hw1 _).
    case_bool_decide as Hi; [|done]. apply eq_None_not_Some. intros Hget.
    destruct (Hbut input _ Hp Hi ltac:(done) Hget) as (keys & Hkeys & _).
    unfold index_keys in Hkeys. congruence.
Qed.

(** Calls one after another, each of which returns. *)
Inductive serves : list cache_call → cache_world → cache_world → Prop :=
| serves_nil w : serves [] w w
| serves_cons call calls w outcome w1 w2 :
    exec world_step time_passes w (call_program this call) (inr outcome) w1 →
    serves calls w1 w2 → serves (call :: calls) w w2.

Definition plain_call (call : cache_call) : Prop :=
  match call with
  | GetCall input | SetCall input _ => plain input
  | InvalidateCall _ _ => True
  end.

Lemma serves_indexed calls w w' :
  Forall plain_call calls → serves calls w w' → indexed (stored w) → indexed (stored w').
Proof.
  intros Hplain Hserves. induction Hserves as [|call calls w outcome w1 w2 Hexec _ IH]; [done|].
  apply Forall_cons in Hplain as [Hp Hplain]. intros Hw. apply IH; [done|].
  assert (alone (call_program this call) (λ w' _, indexed (stored w')) w) as Hcall;
    [|by apply (exec_sound _ _ _ _ _ _ _ _ Hcall Hexec)].
  destruct call as [input|input credential|env conn]; apply alone_bind;
    (eapply alone_mono; [|first [by apply alone_getWithResult|by apply alone_set_call|by apply alone_invalidate]]).
  - by intros w3 r [Hw3 _].
  - by intros w3 [] Hw3.
  - by intros w3 n [_ Hw3].
Qed.

Lemma indexed_empty w : (∀ key, stored w key = None) → indexed (stored w).
Proof.
  intros Hw. split.
  - intros input indexKey _ _ _ Hget. rewrite Hw in Hget. by destruct Hget.
  - intros env conn s Hs. by rewrite Hw in Hs.
Qed.

(** C14: After any calls one after another that return, from an empty store, with
    identifiers without colons, invalidating a connection removes the credential of every
    binding of that connection (and test environment), leaves the record of every other
    resolver as it was, and the next lookup of a removed one misses. *)
Theorem invalidation_exact calls w0 w1 env conn count w2 :
  (∀ key, stored w0 key = None) → Forall plain_call calls → serves calls w0 w1 →
  exec world_step time_passes w1 (invalidateIntegrationConnection env conn) (inr count) w2 →
  (∀ input, plain input → stored w2 (toCacheKey input) =
     if toConnectionIndexKeyForCacheKey input =?= Some (toConnectionIndexKey env conn) then None
     else stored w1 (toCacheKey input)) ∧
  ∀ input result w3, plain input →
    toConnectionIndexKeyForCacheKey input = Some (toConnectionIndexKey env conn) →
    exec world_step time_passes w2 (getWithResult this input) (inr result) w3 → result = CacheMiss.
Proof.
  intros Hempty Hplain Hserves Hexec.
  pose proof (serves_indexed _ _ _ Hplain Hserves (indexed_empty _ Hempty)) as Hw1.
  destruct (exec_sound _ _ _ _ _ _ _ _ (alone_invalidate env conn w1 Hw1) Hexec) as [Hinv Hw2].
  split; [exact Hinv|]. intros input result w3 Hp Hi Hget.
  destruct (exec_sound _ _ _ _ _ _ _ _ (alone_getWithResult input w2 Hp Hw2) Hget) as [_ Hmiss].
  apply Hmiss. by rewrite (Hinv input Hp), bool_decide_true.
Qed.
End Alone.

(** ** Two stores beside each other *)

(** Two bindings of one connection store a credential each: the first call reads the
    index, the second one adds its key, and the first one replaces the index. *)
Definition example_sets : list cache_call := [
  SetCall (example_input "bind_first") (ValueCredential "token-1" None);
  SetCall (example_input "bind_second") (ValueCredential "token-2" None)].

Definition after_sets := play example_answer [0; 0; 0; 1; 1; 1; 1; 0]%nat example_world (example_program <$> example_sets).
Definition after_invalidation :=
  run example_answer (example_program (InvalidateCall None "icn_reauthorized")) after_sets.1.
Definition after_lookup :=
  run example_answer (example_program (GetCall (example_input "bind_second"))) after_invalidation.2.

(** Two calls that store the credentials of two bindings of one connection can run
    beside each other so that both return and the connection is then invalidated, and a lookup
    still hits the second binding's credential: the two commands of [addToConnectionIndex] that
    read and replace the index lose an entry. *)
Theorem concurrent_sets_survive :
  rtc (interleave (world_step no_store_error) time_passes)
    (example_world, example_program <$> example_sets) (after_sets.1, [Return WasSet; Return WasSet]) ∧
  exec (world_step no_store_error) time_passes after_sets.1
    (example_program (InvalidateCall None "icn_reauthorized")) (inr (Invalidated 1)) after_invalidation.2 ∧
  exec (world_step no_store_error) time_passes after_invalidation.2
    (example_program (GetCall (example_input "bind_second")))
    (inr (LookedUp (CacheHit (ValueCredential "token-2" None)))) after_lookup.2 ∧
  toConnectionIndexKeyForCacheKey (example_input "bind_second")
    = Some (toConnectionIndexKey None "icn_reauthorized") ∧ plain (example_input "bind_second").
Proof.
  split_and!.
  - pose proof (play_interleave _ time_passes _ example_answer_step [0; 0; 0; 1; 1; 1; 1; 0]%nat
      example_world (example_program <$> example_sets)) as Hplay.
    assert (after_sets.2 = [Return WasSet; Return WasSet]) as <- by by vm_compute.
    by destruct after_sets eqn:Heq; unfold after_sets in Heq; rewrite Heq in Hplay.
  - pose proof (run_exec _ time_passes _ example_answer_step
      (example_program (InvalidateCall None "icn_reauthorized")) after_sets.1) as Hrun.
    assert (after_invalidation.1 = inr (Invalidated 1)) as <- by by vm_compute. exact Hrun.
  - pose proof (run_exec _ time_passes _ example_answer_step
      (example_program (GetCall (example_input "bind_second"))) after_invalidation.2) as Hrun.
    assert (after_lookup.1 = inr (LookedUp (CacheHit (ValueCredential "token-2" None)))) as <- by by vm_compute.
    exact Hrun.
  - by vm_compute.
  - repeat (constructor; [by vm_compute|]). constructor.
Qed.

Definition sets_in_turn : list cache_call := [
  SetCall (example_input "bind_first") (ValueCredential "token-1" None);
  SetCall (mkKeyInput None "bind_other" (KeyIntegrationConnection "icn_other" "api_key" None None))
    (ValueCredential "token-3" None)].

Definition ran (w : @cache_world InMemoryCacheAdapter.t) (call : cache_call) :=
  run example_answer (example_program call) w.

Lemma ran_exec w call outcome :
  (ran w call).1 = inr outcome →
  exec (world_step no_store_error) time_passes w (example_program call) (inr outcome) (ran w call).2.
Proof. intros <-. exact (run_exec _ time_passes _ example_answer_step (example_program call) w). Qed.

Lemma invalidation_exact_witness :
  let w1 := (foldl (λ w call, (ran w call).2) example_world sets_in_turn) in
  let w2 := (run example_answer (@invalidateIntegrationConnection reference_zod None "icn_reauthorized") w1).2 in
  stored w2 (toCacheKey (example_input "bind_first")) = None ∧
  stored w2 (toCacheKey (mkKeyInput None "bind_other" (KeyIntegrationConnection "icn_other" "api_key" None None)))
    ≠ None.
Proof.
  intros w1 w2.
  assert (∀ input, plain input → stored w2 (toCacheKey input) =
     if toConnectionIndexKeyForCacheKey input =?= Some (toConnectionIndexKey None "icn_reauthorized") then None
     else stored w1 (toCacheKey input)) as Hexact.
  { apply (@invalidation_exact reference_zod reference_zod_laws reference_date_parse
      example_config _ _ InMemoryCacheAdapter.laws no_store_error sets_in_turn example_world w1 None
      "icn_reauthorized" 1 w2).
    - done.
    - repeat (constructor; [repeat (constructor; [by vm_compute|]); constructor|]). constructor.
    - eapply serves_cons; [apply ran_exec; by vm_compute|].
      eapply serves_cons; [apply ran_exec; by vm_compute|]. apply serves_nil.
    - pose proof (run_exec _ time_passes _ example_answer_step
        (@invalidateIntegrationConnection reference_zod None "icn_reauthorized") w1) as Hrun.
      assert ((run example_answer (@invalidateIntegrationConnection reference_zod None "icn_reauthorized") w1).1
        = inr 1%nat) as <- by by vm_compute. exact Hrun. }
  split; rewrite Hexact by (repeat (constructor; [by vm_compute|]); constructor); by vm_compute.
Defined.
