(* ===== verification/CredentialResolution.v ===== *)
(** * The credentials of egress requests
      (apps/data-plane-gateway/src/egress/managed-egress-request.ts)

    How the gateway finds the credential of a resolver: in the credential cache, or from
    the control plane, a minted token or the platform's configuration.  The services
    answer operations of [egress_op]; the world keeps what they answered.

    [resolved_credential]: beside any number of other calls, the credential a resolver
    gets was issued by the service of a resolver with the same cache key. *)

From S2P Require Import Prelude JsMap JsObject Json Text Locale Zod PlanTypes Programs Cache CredentialCache.
Local Open Scope Z_scope.

Definition MistleMcpTokenTtlSeconds : Z := 300.

(** The platform's own credentials: the API key of OpenAI and the secret key of Langfuse. *)
Record GatewayPlatformCredentialConfig : Type := mkPlatformCredentials {
  platform_openai : option string;
  platform_langfuse : option string;
}.

Inductive CredentialResolverInput : Type :=
| InputIntegrationConnection (connectionId secretType : string) (slotKey resolverKey : option string)
| InputLinkedPrincipal (organizationId providerFamily : string) (integrationConnectionId : option string)
    (actingUserRequired resolutionRequired : bool) (actingUserId credentialKind : option string)
| InputMistleMcpToken (organizationId sandboxInstanceId apiKeyId : string)
| InputMistleMcpSetupAssistantToken (organizationId sandboxInstanceId sandboxProfileId : string)
    (sandboxProfileVersion : number)
| InputMistleMcpDesignerToken (organizationId sandboxInstanceId designerSessionId : string)
| InputPlatformOpenAiApiKey
| InputPlatformLangfuseSecretKey.

(** ** Resolvers of a route *)

(** A copy of the fields of the kind. *)
Definition toCredentialResolverRef (resolver : EgressCredentialResolverRef) : EgressCredentialResolverRef :=
  match resolver with
  | IntegrationConnectionResolver connectionId secretType slotKey resolverKey =>
      IntegrationConnectionResolver connectionId secretType slotKey resolverKey
  | MistleMcpTokenResolver apiKeyId => MistleMcpTokenResolver apiKeyId
  | MistleMcpSetupAssistantTokenResolver sandboxProfileId sandboxProfileVersion =>
      MistleMcpSetupAssistantTokenResolver sandboxProfileId sandboxProfileVersion
  | MistleMcpDesignerTokenResolver designerSessionId => MistleMcpDesignerTokenResolver designerSessionId
  | PlatformOpenAiApiKeyResolver => PlatformOpenAiApiKeyResolver
  | PlatformLangfuseSecretKeyResolver => PlatformLangfuseSecretKeyResolver
  | LinkedPrincipalResolver providerFamily integrationConnectionId credentialKind actingUserRequired
      resolutionRequired =>
      LinkedPrincipalResolver providerFamily integrationConnectionId credentialKind actingUserRequired
        resolutionRequired
  end.

Definition missing_actingUserId : EgressError :=
  GatewayManagedEgressUnsupportedRouteError
    "Linked-principal credential resolver is missing actingUserId." CredentialResolutionFailed.

Definition toCredentialResolverInputFromRef (organizationId sandboxInstanceId : string)
    (actingUserId : option string) (credentialResolver : EgressCredentialResolverRef)
    : EgressError + CredentialResolverInput :=
  match credentialResolver with
  | IntegrationConnectionResolver connectionId secretType slotKey resolverKey =>
      inr (InputIntegrationConnection connectionId secretType slotKey resolverKey)
  | MistleMcpTokenResolver apiKeyId =>
      inr (InputMistleMcpToken organizationId sandboxInstanceId apiKeyId)
  | MistleMcpSetupAssistantTokenResolver sandboxProfileId sandboxProfileVersion =>
      inr (InputMistleMcpSetupAssistantToken organizationId sandboxInstanceId sandboxProfileId
             sandboxProfileVersion)
  | MistleMcpDesignerTokenResolver designerSessionId =>
      inr (InputMistleMcpDesignerToken organizationId sandboxInstanceId designerSessionId)
  | PlatformOpenAiApiKeyResolver => inr InputPlatformOpenAiApiKey
  | PlatformLangfuseSecretKeyResolver => inr InputPlatformLangfuseSecretKey
  | LinkedPrincipalResolver providerFamily integrationConnectionId credentialKind actingUserRequired
      resolutionRequired =>
      if actingUserRequired && bool_decide (actingUserId = None) then inl missing_actingUserId
      else inr (InputLinkedPrincipal organizationId providerFamily integrationConnectionId
                  actingUserRequired resolutionRequired actingUserId credentialKind)
  end.

(** The resolvers of a request: the one to use, and the one to fall back to. *)
Record SelectedResolvers : Type := mkSelected {
  primaryResolver : CredentialResolverInput;
  fallbackResolver : option CredentialResolverInput;
}.

(** [selectCredentialResolverForRequest] once the definition has selected a resolver. *)
Definition select_resolvers (organizationId sandboxInstanceId : string) (actingUserId : option string)
    (defaultCredentialResolver selectedResolver : EgressCredentialResolverRef)
    : EgressError + SelectedResolvers :=
  let to_input := toCredentialResolverInputFromRef organizationId sandboxInstanceId actingUserId in
  defaultIntegrationConnectionFallback ←
    match defaultCredentialResolver with
    | IntegrationConnectionResolver _ _ _ _ =>
        resolver ← to_input defaultCredentialResolver; inr (Some resolver)
    | _ => inr None
    end;
  match selectedResolver, defaultIntegrationConnectionFallback with
  | LinkedPrincipalResolver _ _ _ _ false, Some fallback =>
      match to_input selectedResolver with
      | inr primary => inr (mkSelected primary (Some fallback))
      | inl error =>
          match error with
          | GatewayManagedEgressUnsupportedRouteError _ CredentialResolutionFailed =>
              inr (mkSelected fallback None)
          | _ => inl error
          end
      end
  | _, _ => primary ← to_input selectedResolver; inr (mkSelected primary None)
  end.

Definition createCredentialCacheKey (testEnvironmentId : option string) (bindingId : string)
    (resolver : CredentialResolverInput) : CredentialCacheKeyInput :=
  mkKeyInput testEnvironmentId bindingId
    match resolver with
    | InputIntegrationConnection connectionId secretType slotKey resolverKey =>
        KeyIntegrationConnection connectionId secretType slotKey resolverKey
    | InputMistleMcpToken organizationId sandboxInstanceId apiKeyId =>
        KeyMistleMcpToken organizationId sandboxInstanceId apiKeyId
    | InputMistleMcpSetupAssistantToken organizationId sandboxInstanceId sandboxProfileId
        sandboxProfileVersion =>
        KeyMistleMcpSetupAssistantToken organizationId sandboxInstanceId sandboxProfileId
          sandboxProfileVersion
    | InputMistleMcpDesignerToken organizationId sandboxInstanceId designerSessionId =>
        KeyMistleMcpDesignerToken organizationId sandboxInstanceId designerSessionId
    | InputPlatformOpenAiApiKey => KeyPlatformOpenAiApiKey
    | InputPlatformLangfuseSecretKey => KeyPlatformLangfuseSecretKey
    | InputLinkedPrincipal organizationId providerFamily integrationConnectionId actingUserRequired _
        actingUserId credentialKind =>
        KeyLinkedPrincipal organizationId providerFamily integrationConnectionId actingUserRequired
          actingUserId credentialKind
    end.

Definition shouldUseCredentialCache (resolver : CredentialResolverInput) : bool :=
  match resolver with
  | InputLinkedPrincipal _ _ None _ _ _ _ => false
  | _ => true
  end.

(** ** The services *)

Inductive McpTokenClaims : Type :=
| ApiKeyClaims (sub organizationId apiKeyId : string)
| SetupAssistantClaims (sub organizationId sandboxProfileId : string) (sandboxProfileVersion : number)
| DesignerClaims (sub organizationId designerSessionId : string).

Record ResolveIntegrationCredentialInput : Type := mkIntegrationRequest {
  integration_testEnvironmentId : option string;
  integration_bindingId : string;
  integration_connectionId : string;
  integration_secretType : string;
  integration_slotKey : option string;
  integration_resolverKey : option string;
}.

Record ResolveIdentityLinkPrincipalCredentialInput : Type := mkPrincipalRequest {
  principal_testEnvironmentId : option string;
  principal_organizationId : string;
  principal_actingUserId : string;
  principal_providerFamily : string;
  principal_integrationConnectionId : option string;
  principal_credentialKind : option string;
}.

(** What the AWS signer is given. *)
Record SigningInput : Type := mkSigning {
  signing_credential : string * string * string;   (* accessKeyId, secretAccessKey, sessionToken *)
  signing_region : string;
  signing_service : string;
  signing_uriEscapePath : bool;
  signing_method : string;
  signing_protocol : string;
  signing_hostname : string;
  signing_path : string;
  signing_query : JsMap.t string (list string);
  signing_headers : JsMap.t string string;
  signing_port : option Z;
  signing_body : option (list Z);
}.

(** The operations a call awaits. [MintMcpToken] answers the token with the text of its expiry. *)
Inductive egress_op : Type → Type :=
| Cached {X} (op : cache_op X) : egress_op X
| ResolveIntegrationCredential (input : ResolveIntegrationCredentialInput) : egress_op CachedCredential
| ResolveIdentityLinkPrincipalCredential (input : ResolveIdentityLinkPrincipalCredentialInput)
    : egress_op CachedCredential
| MintMcpToken (claims : McpTokenClaims) (ttlSeconds : Z) : egress_op (string * string)
| Sign (input : SigningInput) : egress_op (JsMap.t string string).

Section Resolution.
Context `{Zod} `{DateParse} (this : CredentialCacheConfig).
Context (platformCredentials : option GatewayPlatformCredentialConfig).

Local Notation async := (program egress_op EgressError).

Definition cached {A} (p : program cache_op EgressError A) : async A := translate (@Cached) p.

Definition mint (claims : McpTokenClaims) : async CachedCredential :=
  mintedToken ← perform (MintMcpToken claims MistleMcpTokenTtlSeconds);
  mret (ValueCredential mintedToken.1 (Some mintedToken.2)).

(** The credential from its service. *)
Definition resolve_at_service (testEnvironmentId : option string) (bindingId : string)
    (resolver : CredentialResolverInput) : async CachedCredential :=
  match resolver with
  | InputIntegrationConnection connectionId secretType slotKey resolverKey =>
      perform (ResolveIntegrationCredential
        (mkIntegrationRequest testEnvironmentId bindingId connectionId secretType slotKey resolverKey))
  | InputMistleMcpToken organizationId sandboxInstanceId apiKeyId =>
      mint (ApiKeyClaims sandboxInstanceId organizationId apiKeyId)
  | InputMistleMcpSetupAssistantToken organizationId sandboxInstanceId sandboxProfileId
      sandboxProfileVersion =>
      mint (SetupAssistantClaims sandboxInstanceId organizationId sandboxProfileId sandboxProfileVersion)
  | InputMistleMcpDesignerToken organizationId sandboxInstanceId designerSessionId =>
      mint (DesignerClaims sandboxInstanceId organizationId designerSessionId)
  | InputPlatformOpenAiApiKey =>
      match platformCredentials ≫= platform_openai with
      | None => Throw (GatewayManagedEgressUnsupportedRouteError
          "Platform OpenAI credential resolver requires gateway platform credential config."
          CredentialResolutionFailed)
      | Some apiKey => mret (ValueCredential apiKey None)
      end
  | InputPlatformLangfuseSecretKey =>
      match platformCredentials ≫= platform_langfuse with
      | None => Throw (GatewayManagedEgressUnsupportedRouteError
          "Platform Langfuse credential resolver requires gateway platform Langfuse credential config."
          CredentialResolutionFailed)
      | Some secretKey => mret (ValueCredential secretKey None)
      end
  | InputLinkedPrincipal organizationId providerFamily integrationConnectionId _ _ actingUserId
      credentialKind =>
      match actingUserId with
      | None => Throw missing_actingUserId
      | Some actingUserId =>
          perform (ResolveIdentityLinkPrincipalCredential
            (mkPrincipalRequest testEnvironmentId organizationId actingUserId providerFamily
               integrationConnectionId credentialKind))
      end
  end.

Definition resolveCredentialWithCache (testEnvironmentId : option string) (bindingId : string)
    (resolver : CredentialResolverInput) : async CachedCredential :=
  let cacheKey := createCredentialCacheKey testEnvironmentId bindingId resolver in
  let useCredentialCache := shouldUseCredentialCache resolver in
  cacheLookup ← (if useCredentialCache then cached (getWithResult this cacheKey) else mret CacheMiss);
  match cacheLookup with
  | CacheHit credential => mret credential
  | _ =>
      resolvedCredential ← resolve_at_service testEnvironmentId bindingId resolver;
      _ ← (if useCredentialCache then cached (set this cacheKey resolvedCredential) else mret tt);
      mret resolvedCredential
  end.

Definition resolveCredentialWithFallback (testEnvironmentId : option string) (bindingId : string)
    (resolvers : SelectedResolvers) : async CachedCredential :=
  catch (resolveCredentialWithCache testEnvironmentId bindingId resolvers.(primaryResolver))
    (λ error,
       match resolvers.(fallbackResolver) with
       | None => Throw error
       | Some fallback => resolveCredentialWithCache testEnvironmentId bindingId fallback
       end).
End Resolution.

(** ** What the services answered *)

Inductive service_answer : Type :=
| IntegrationAnswer (input : ResolveIntegrationCredentialInput) (credential : CachedCredential)
| PrincipalAnswer (input : ResolveIdentityLinkPrincipalCredentialInput) (credential : CachedCredential)
| MintAnswer (claims : McpTokenClaims) (token expiresAt : string)
| SignAnswer (input : SigningInput) (headers : JsMap.t string string).

Record egress_world (S : Type) : Type := mkWorld {
  world_store : S;
  world_clock : Z;
  world_answers : list service_answer;
}.
Arguments mkWorld {S}.
Arguments world_store {S}.
Arguments world_clock {S}.
Arguments world_answers {S}.

Section Beside.
Context `{ZodLaws} `{DateParseLaws} (this : CredentialCacheConfig).
Context (platformCredentials : option GatewayPlatformCredentialConfig).
Context {S : Type} `{CacheAdapterLaws S} (store_error service_error : EgressError → Prop).

Local Notation world := (egress_world S).

(** A service answers anything, or fails. *)
Definition service_step {X} (record : X → option service_answer) (w : world) (r : EgressError + X) (w' : world)
    : Prop :=
  match r with
  | inl e => service_error e ∧ w' = w
  | inr x => w' = mkWorld w.(world_store) w.(world_clock)
                    (w.(world_answers) ++ match record x with Some answer => [answer] | None => [] end)
  end.

Definition egress_step X (op : egress_op X) : world → EgressError + X → world → Prop :=
  match op in egress_op X return world → EgressError + X → world → Prop with
  | Cached op => λ w r w',
      cache_step store_error op w.(world_clock) w.(world_store) r w'.(world_store) ∧
      w'.(world_clock) = w.(world_clock) ∧ w'.(world_answers) = w.(world_answers)
  | ResolveIntegrationCredential input => service_step (λ credential, Some (IntegrationAnswer input credential))
  | ResolveIdentityLinkPrincipalCredential input =>
      service_step (λ credential, Some (PrincipalAnswer input credential))
  | MintMcpToken claims _ => service_step (λ minted, Some (MintAnswer claims minted.1 minted.2))
  | Sign input => service_step (λ headers, Some (SignAnswer input headers))
  end.

Definition clock_ticks (w w' : world) : Prop :=
  w'.(world_store) = w.(world_store) ∧ w'.(world_answers) = w.(world_answers) ∧
  w.(world_clock) <= w'.(world_clock) <= 8640000000000000.

(** The credential is the platform's, or was answered to the request of the resolver. *)
Definition service_source (w : world) (testEnvironmentId : option string) (bindingId : string)
    (resolver : CredentialResolverInput) (credential : CachedCredential) : Prop :=
  let minted claims := ∃ token expiresAt, credential = ValueCredential token (Some expiresAt) ∧
    MintAnswer claims token expiresAt ∈ w.(world_answers) in
  match resolver with
  | InputIntegrationConnection connectionId secretType slotKey resolverKey =>
      IntegrationAnswer (mkIntegrationRequest testEnvironmentId bindingId connectionId secretType slotKey
        resolverKey) credential ∈ w.(world_answers)
  | InputLinkedPrincipal organizationId providerFamily integrationConnectionId _ _ actingUserId
      credentialKind =>
      ∃ userId, actingUserId = Some userId ∧
        PrincipalAnswer (mkPrincipalRequest testEnvironmentId organizationId userId providerFamily
          integrationConnectionId credentialKind) credential ∈ w.(world_answers)
  | InputMistleMcpToken organizationId sandboxInstanceId apiKeyId =>
      minted (ApiKeyClaims sandboxInstanceId organizationId apiKeyId)
  | InputMistleMcpSetupAssistantToken organizationId sandboxInstanceId sandboxProfileId version =>
      minted (SetupAssistantClaims sandboxInstanceId organizationId sandboxProfileId version)
  | InputMistleMcpDesignerToken organizationId sandboxInstanceId designerSessionId =>
      minted (DesignerClaims sandboxInstanceId organizationId designerSessionId)
  | InputPlatformOpenAiApiKey =>
      ∃ apiKey, platformCredentials ≫= platform_openai = Some apiKey ∧ credential = ValueCredential apiKey None
  | InputPlatformLangfuseSecretKey =>
      ∃ secretKey, platformCredentials ≫= platform_langfuse = Some secretKey ∧
        credential = ValueCredential secretKey None
  end.

Definition issued_for (w : world) (key : string) (credential : CachedCredential) : Prop :=
  ∃ testEnvironmentId bindingId resolver,
    key = toCacheKey (createCredentialCacheKey testEnvironmentId bindingId resolver) ∧
    service_source w testEnvironmentId bindingId resolver credential.

Lemma service_source_answers w w' testEnvironmentId bindingId resolver credential :
  (∀ answer, answer ∈ w.(world_answers) → answer ∈ w'.(world_answers)) →
  service_source w testEnvironmentId bindingId resolver credential →
  service_source w' testEnvironmentId bindingId resolver credential.
Proof.
  intros Hanswers. destruct resolver; simpl; [apply Hanswers| | | | |done|done];
    [intros (userId & ? & ?); exists userId; by auto|..];
    intros (token & expiresAt & ? & ?); exists token, expiresAt; by auto.
Qed.

Lemma issued_answers w w' key credential :
  (∀ answer, answer ∈ w.(world_answers) → answer ∈ w'.(world_answers)) →
  issued_for w key credential → issued_for w' key credential.
Proof.
  intros Hanswers (env & bindingId & resolver & Hkey & Hsource). exists env, bindingId, resolver.
  split; [done|]. by eapply service_source_answers.
Qed.

(** What a world keeps beside its credentials: the answers of the services.  The writes of
    the cache are not recorded. *)
Definition answered (w : world) (event : option service_answer) : Prop :=
  match event with Some answer => answer ∈ w.(world_answers) | None => True end.

Definition unrecorded (_ _ : string) (_ : Z) : option service_answer := None.

Lemma answered_later w w' :
  (∀ answer, answer ∈ w.(world_answers) → answer ∈ w'.(world_answers)) →
  ∀ event, answered w event → answered w' event.
Proof. by intros Hanswers [answer|]; [apply Hanswers|]. Qed.

Local Notation good := (well_formed_world this world_store world_clock issued_for answered unrecorded).
Local Notation allowed := (beside this world_store world_clock issued_for answered unrecorded).
Local Notation ok p Post := (holds egress_step allowed allowed p Post).

Lemma cached_step X (op : cache_op X) w r w' :
  egress_step X (Cached op) w r w' →
  cache_step store_error op (world_clock w) (world_store w) r (world_store w') ∧
  world_clock w' = world_clock w ∧
  (∀ key credential, issued_for w key credential → issued_for w' key credential) ∧
  ∀ event, answered w event → answered w' event.
Proof.
  intros (Hstep & Hclock & Hanswers). split_and!; [done|done| |].
  - intros key credential. apply issued_answers. by rewrite Hanswers.
  - apply answered_later. by rewrite Hanswers.
Qed.

Lemma unrecorded_write key value ttlMs w r w' :
  egress_step unit (Cached (CacheSet key value ttlMs)) w r w' →
  answered w' (unrecorded key value (world_clock w)).
Proof. done. Qed.

Lemma ok_cached {A} (p : program cache_op EgressError A) Post w :
  holds (λ X op, egress_step X (Cached op)) allowed allowed p Post w → ok (cached p) Post w.
Proof. by apply holds_translate. Qed.

Lemma service_beside {X} (record : X → option service_answer) w r w' :
  service_step record w r w' → allowed w w'.
Proof.
  destruct r as [e|x]; simpl; [intros [_ ->]; reflexivity|intros ->].
  assert (∀ answer, answer ∈ w.(world_answers) → answer ∈ w.(world_answers) ++
    match record x with Some answer => [answer] | None => [] end) as Hanswers.
  { intros answer Hin. apply elem_of_app. by left. }
  apply same_store_beside; [done|simpl; lia|done| |by apply answered_later].
  intros key credential. by apply issued_answers.
Qed.

(** A credential is used for a resolver when the service of a resolver with its key issued it. *)
Definition used_for (w : world) (testEnvironmentId : option string) (bindingId : string)
    (resolver : CredentialResolverInput) (credential : CachedCredential) : Prop :=
  issued_for w (toCacheKey (createCredentialCacheKey testEnvironmentId bindingId resolver)) credential.

Lemma ok_service testEnvironmentId bindingId resolver w :
  ok (resolve_at_service platformCredentials testEnvironmentId bindingId resolver)
    (λ w' r, ∀ credential, r = inr credential →
       service_source w' testEnvironmentId bindingId resolver credential) w.
Proof.
  assert (∀ claims, ok (mint claims) (λ w' r, ∀ credential, r = inr credential →
    ∃ token expiresAt, credential = ValueCredential token (Some expiresAt) ∧
      MintAnswer claims token expiresAt ∈ w'.(world_answers)) w) as Hmint.
  { intros claims. apply holds_bind, holds_perform. intros w1 r w2 _ Hstep.
    split; [by eapply service_beside|]. destruct r as [e|[token expiresAt]]; [done|].
    intros credential [= <-]. exists token, expiresAt. split; [done|].
    simpl in Hstep. subst w2. simpl. apply elem_of_app. right. by left. }
  destruct resolver as [| | | | | |]; cbn [resolve_at_service]; [..|]; try apply Hmint.
  - apply holds_perform. intros w1 r w2 _ Hstep. split; [by eapply service_beside|].
    intros credential ->. simpl in Hstep. subst w2. simpl. apply elem_of_app. right. by left.
  - destruct actingUserId as [userId|]; [|done].
    apply holds_perform. intros w1 r w2 _ Hstep. split; [by eapply service_beside|].
    intros credential ->. exists userId. split; [done|]. simpl in Hstep. subst w2. simpl.
    apply elem_of_app. right. by left.
  - destruct (platformCredentials ≫= platform_openai) as [apiKey|] eqn:Hkey; [|done].
    intros credential [= <-]. by exists apiKey.
  - destruct (platformCredentials ≫= platform_langfuse) as [secretKey|] eqn:Hkey; [|done].
    intros credential [= <-]. by exists secretKey.
Qed.
(** What holds of a world is kept by the calls beside. *)
Lemma good_later w w' : allowed w w' → good w → good w'.
Proof. intros [_ Hgood]. exact Hgood. Qed.

Lemma used_later w w' testEnvironmentId bindingId resolver credential :
  allowed w w' → used_for w testEnvironmentId bindingId resolver credential →
  used_for w' testEnvironmentId bindingId resolver credential.
Proof. intros [(_ & Hissued & _) _]. apply Hissued. Qed.

Lemma service_used w testEnvironmentId bindingId resolver credential :
  service_source w testEnvironmentId bindingId resolver credential →
  used_for w testEnvironmentId bindingId resolver credential.
Proof. intros Hsource. by exists testEnvironmentId, bindingId, resolver. Qed.

Definition credential_used testEnvironmentId bindingId resolver (w : world) (r : EgressError + CachedCredential)
    : Prop :=
  ∀ credential, r = inr credential → used_for w testEnvironmentId bindingId resolver credential.

Context (Httl : 0 <= this.(defaultTtlSeconds) <= 10 ^ 11).

(** A lookup of the resolver's own key, when there is one. *)
Lemma ok_lookup testEnvironmentId bindingId resolver w :
  good w →
  let cacheKey := createCredentialCacheKey testEnvironmentId bindingId resolver in
  ok (if shouldUseCredentialCache resolver then cached (getWithResult this cacheKey) else mret CacheMiss)
    (λ w' r, ∀ credential, r = inr (CacheHit credential) →
       used_for w' testEnvironmentId bindingId resolver credential) w.
Proof.
  intros Hw cacheKey. destruct (shouldUseCredentialCache resolver); [|done].
  apply ok_cached. eapply holds_mono; [|eapply ok_getWithResult; [apply cached_step|apply unrecorded_write|done]].
  intros w' r [_ Hhit] credential Hr. by apply Hhit.
Qed.

(** Storing an issued credential. *)
Lemma ok_store testEnvironmentId bindingId resolver credential w :
  good w → used_for w testEnvironmentId bindingId resolver credential →
  let cacheKey := createCredentialCacheKey testEnvironmentId bindingId resolver in
  ok (if shouldUseCredentialCache resolver then cached (set this cacheKey credential) else mret tt)
    (λ _ _, True) w.
Proof.
  intros Hw Hused cacheKey. destruct (shouldUseCredentialCache resolver); [|done].
  apply ok_cached. eapply holds_mono; [|eapply ok_set; [apply cached_step|apply unrecorded_write|exact Httl|done|exact Hused]]. done.
Qed.

Lemma ok_resolveCredentialWithCache testEnvironmentId bindingId resolver w :
  good w →
  ok (resolveCredentialWithCache this platformCredentials testEnvironmentId bindingId resolver)
    (credential_used testEnvironmentId bindingId resolver) w.
Proof.
  intros Hw. unfold resolveCredentialWithCache. apply holds_bind.
  eapply holds_mono; [|apply holds_track; [apply _|done|by apply ok_lookup]].
  intros w1 [e|lookup] [H01 Hhit]; [done|].
  assert (ok (resolvedCredential ← resolve_at_service platformCredentials testEnvironmentId bindingId resolver;
      _ ← (if shouldUseCredentialCache resolver
           then cached (set this (createCredentialCacheKey testEnvironmentId bindingId resolver) resolvedCredential)
           else mret tt);
      mret resolvedCredential) (credential_used testEnvironmentId bindingId resolver) w1) as Hservice.
  { apply holds_bind. eapply holds_mono; [|apply holds_track; [apply _|done|apply ok_service]].
    intros w2 [e|credential] [H12 Hsource]; [done|].
    pose proof (service_used _ _ _ _ _ (Hsource credential eq_refl)) as Hused.
    apply holds_bind. eapply holds_mono; 
      [|apply holds_track; [apply _|done|]; apply ok_store; [by eapply good_later, good_later|exact Hused]].
    intros w3 [e|[]] [H23 _]; [done|]. intros c [= <-]. by eapply used_later. }
  destruct lookup as [credential| |]; [|exact Hservice..]. intros c [= <-]. by apply Hhit.
Qed.

(** The credential of a request is the primary resolver's or the fallback's. *)
Definition selected_used testEnvironmentId bindingId (resolvers : SelectedResolvers) (w : world)
    (credential : CachedCredential) : Prop :=
  used_for w testEnvironmentId bindingId resolvers.(primaryResolver) credential ∨
  ∃ fallback, resolvers.(fallbackResolver) = Some fallback ∧
    used_for w testEnvironmentId bindingId fallback credential.

Lemma ok_resolveCredentialWithFallback testEnvironmentId bindingId resolvers w :
  good w →
  ok (resolveCredentialWithFallback this platformCredentials testEnvironmentId bindingId resolvers)
    (λ w' r, ∀ credential, r = inr credential → selected_used testEnvironmentId bindingId resolvers w' credential) w.
Proof.
  intros Hw. apply holds_catch.
  eapply holds_mono; [|apply holds_track; [apply _|done|by apply ok_resolveCredentialWithCache]].
  intros w1 [e|credential] [H01 Hused].
  - destruct resolvers.(fallbackResolver) as [fallback|] eqn:Hfallback; [|done].
    eapply holds_mono; [|apply ok_resolveCredentialWithCache; by eapply good_later].
    intros w2 r Hused2 credential Hr. right. exists fallback. by split; [|apply Hused2].
  - intros c [= <-]. left. by apply Hused.
Qed.

(** The resolvers name the same credential; an absent optional identifier is an empty one,
    and whether a linked principal is required does not matter. *)
Definition alike (r r' : CredentialResolverInput) : Prop :=
  match r, r' with
  | InputIntegrationConnection connectionId secretType slotKey resolverKey,
    InputIntegrationConnection connectionId' secretType' slotKey' resolverKey' =>
      connectionId = connectionId' ∧ secretType = secretType' ∧ default "" slotKey = default "" slotKey' ∧
      default "" resolverKey = default "" resolverKey'
  | InputLinkedPrincipal organizationId providerFamily connection required _ user kind,
    InputLinkedPrincipal organizationId' providerFamily' connection' required' _ user' kind' =>
      organizationId = organizationId' ∧ providerFamily = providerFamily' ∧
      default "" connection = default "" connection' ∧ required = required' ∧
      default "" user = default "" user' ∧ default "" kind = default "" kind'
  | InputMistleMcpToken organizationId sandboxInstanceId apiKeyId,
    InputMistleMcpToken organizationId' sandboxInstanceId' apiKeyId' =>
      organizationId = organizationId' ∧ sandboxInstanceId = sandboxInstanceId' ∧ apiKeyId = apiKeyId'
  | InputMistleMcpSetupAssistantToken organizationId sandboxInstanceId profileId version,
    InputMistleMcpSetupAssistantToken organizationId' sandboxInstanceId' profileId' version' =>
      organizationId = organizationId' ∧ sandboxInstanceId = sandboxInstanceId' ∧ profileId = profileId' ∧
      String_of version = String_of version'
  | InputMistleMcpDesignerToken organizationId sandboxInstanceId designerSessionId,
    InputMistleMcpDesignerToken organizationId' sandboxInstanceId' designerSessionId' =>
      organizationId = organizationId' ∧ sandboxInstanceId = sandboxInstanceId' ∧
      designerSessionId = designerSessionId'
  | InputPlatformOpenAiApiKey, InputPlatformOpenAiApiKey => True
  | InputPlatformLangfuseSecretKey, InputPlatformLangfuseSecretKey => True
  | _, _ => False
  end.

(** Without colons, one cache key is one binding, test environment and resolver. *)
Lemma cache_key_alike testEnvironmentId bindingId resolver testEnvironmentId' bindingId' resolver' :
  plain (createCredentialCacheKey testEnvironmentId bindingId resolver) →
  plain (createCredentialCacheKey testEnvironmentId' bindingId' resolver') →
  toCacheKey (createCredentialCacheKey testEnvironmentId bindingId resolver) =
  toCacheKey (createCredentialCacheKey testEnvironmentId' bindingId' resolver') →
  default "" testEnvironmentId = default "" testEnvironmentId' ∧ bindingId = bindingId' ∧ alike resolver resolver'.
Proof.
  intros Hp Hp' Hkey. destruct (toCacheKey_same _ _ Hp Hp' Hkey) as (Henv & Hbinding & Hsame).
  split; [done|]. split; [done|]. by destruct resolver, resolver'.
Qed.
End Beside.
