(* ===== verification/Fetch.v ===== *)
(** * What the egress proxy uses of the platform: headers, URLs and percent encoding

    [Headers] is a map from lower-case names to the values in the order they were
    appended; names that are no tokens, and values with forbidden characters, throw.
    [URLs] is the class of the platform's URL objects with the setters the code calls, and
    its laws are that a setter leaves the other parts alone.
    [encodeURIComponent] is defined, with its inverse. *)

From S2P Require Import Prelude JsMap Json DataFrame Text Locale TokenSearch CredentialCache.
Local Open Scope Z_scope.

Definition TypeError : EgressError := ErrorMessage "TypeError".

Module Headers.

Definition t : Type := JsMap.t string (list string).

Definition token_byte (b : Z) : bool :=
  ((48 <=? b) && (b <=? 57)) || ((65 <=? b) && (b <=? 90)) || ((97 <=? b) && (b <=? 122))
  || bool_decide (b ∈ [33; 35; 36; 37; 38; 39; 42; 43; 45; 46; 94; 95; 96; 124; 126]).

Definition valid_name (name : string) : bool :=
  negb (name =?= "") && forallb token_byte (bytes_of name).

Definition http_whitespace (b : Z) : bool := bool_decide (b ∈ [9; 10; 13; 32]).

Fixpoint drop_whitespace (l : list Z) : list Z :=
  match l with
  | [] => []
  | b :: l' => if http_whitespace b then drop_whitespace l' else l
  end.

(** Whitespace at the ends is dropped. *)
Definition normalize (value : string) : string :=
  string_of_bytes (rev (drop_whitespace (rev (drop_whitespace (bytes_of value))))).

(** A value is a byte string without NUL and line breaks. *)
Definition valid_value (value : string) : bool :=
  forallb (λ u, (u <=? 255) && negb (bool_decide (u ∈ [0; 10; 13]))) (utf16 value).

Definition empty : t := JsMap.empty.

Definition get (h : t) (name : string) : option (list string) := JsMap.get h (ascii_lower name).

Definition checked (name value : string) (update : string → string → t) : EgressError + t :=
  let normalized := normalize value in
  if valid_name name && valid_value normalized then inr (update (ascii_lower name) normalized)
  else inl TypeError.

Definition append_value (h : t) (name value : string) : EgressError + t :=
  checked name value (λ name value, JsMap.set h name (default [] (JsMap.get h name) ++ [value])).

Definition set (h : t) (name value : string) : EgressError + t :=
  checked name value (λ name value, JsMap.set h name [value]).

Definition delete (h : t) (name : string) : t := JsMap.delete h (ascii_lower name).

Definition keys (h : t) : list string := JsMap.keys h.

(** The value of a name as one text; the parts of a cookie are joined by [";"]. *)
Definition combine (name : string) (values : list string) : string :=
  String.concat (if name =?= "cookie" then "; " else ", ") values.

(** [Object.fromEntries(headers.entries())] *)
Definition entries (h : t) : JsMap.t string string :=
  List.map (λ e, (e.1, combine e.1 e.2)) h.

Lemma set_get h name value h' :
  set h name value = inr h' →
  ∀ name', get h' name' =
    if ascii_lower name' =?= ascii_lower name then Some [normalize value] else get h name'.
Proof.
  unfold set, checked, get. case_match; [|done]. intros [= <-] name'. rewrite JsMap.get_set.
  case_bool_decide; case_decide; congruence.
Qed.

Lemma append_get h name value h' :
  append_value h name value = inr h' →
  ∀ name', get h' name' =
    if ascii_lower name' =?= ascii_lower name then Some (default [] (get h name) ++ [normalize value])
    else get h name'.
Proof.
  unfold append_value, checked, get. case_match; [|done]. intros [= <-] name'. rewrite JsMap.get_set.
  case_bool_decide; case_decide; congruence.
Qed.

Lemma delete_get h name name' :
  get (delete h name) name' = if ascii_lower name' =?= ascii_lower name then None else get h name'.
Proof.
  unfold delete, get. rewrite JsMap.get_delete. case_bool_decide; case_decide; congruence.
Qed.
End Headers.

(** ** URLs *)

Class URLs : Type := {
  URL : Type;
  new_URL : string → option URL;
  href : URL → string;
  protocol : URL → string;
  host : URL → string;
  hostname : URL → string;
  port : URL → string;
  pathname : URL → string;
  searchParams : URL → list (string * string);
  with_pathname : string → URL → URL;
  with_search : string → URL → URL;
  with_hash : string → URL → URL;
  with_searchParam : string → string → URL → URL;
}.

(** Where a request to the URL is sent. *)
Definition authority `{URLs} (u : URL) : string * string := (protocol u, host u).

Class URLLaws `{URLs} : Prop := {
  new_URL_href u u' : new_URL (href u) = Some u' → u' = u;
  pathname_authority path u : authority (with_pathname path u) = authority u;
  search_authority search u : authority (with_search search u) = authority u;
  hash_authority hash u : authority (with_hash hash u) = authority u;
  searchParam_authority name value u : authority (with_searchParam name value u) = authority u;
}.

Definition new_URL_or_throw `{URLs} (text : string) : EgressError + URL :=
  match new_URL text with None => inl TypeError | Some u => inr u end.

(** *** A reference instance: texts [scheme://host/path?query#hash], without dot segments
    and percent encoding. *)

Definition url_parts (text : string) : option (string * string * string) :=
  let (scheme, rest) := split_at_char colon text in
  rest ← strip_prefix "://" rest;
  let (host, rest) := split_at_char (Ascii.ascii_of_nat 47) rest in
  if (scheme =?= "") || (host =?= "") then None else Some (scheme +:+ ":", host, rest).

Definition text_protocol (u : string) : string := default "" ((λ p, p.1.1) <$> url_parts u).
Definition text_host (u : string) : string := default "" ((λ p, p.1.2) <$> url_parts u).
Definition text_rest (u : string) : string := default "" (snd <$> url_parts u).

(** The path, the query with its mark and the hash with its mark. *)
Definition split_rest (u : string) : string * string * string :=
  let (rest, hash) := split_at_char (Ascii.ascii_of_nat 35) (text_rest u) in
  let (path, search) := split_at_char (Ascii.ascii_of_nat 63) rest in
  (path, search, hash).

(** A text of the same authority replaces the URL. *)
Definition replace_url (u candidate : string) : string :=
  if ((text_protocol candidate, text_host candidate) =?= (text_protocol u, text_host u)) then candidate else u.

Definition assemble (u path search hash : string) : string :=
  replace_url u (text_protocol u +:+ "//" +:+ text_host u +:+ path +:+ search +:+ hash).

Definition reference_url_objects : URLs := {|
  URL := string;
  new_URL text := if bool_decide (is_Some (url_parts text)) then Some text else None;
  href := id;
  protocol := text_protocol;
  host := text_host;
  hostname u := (split_at_char colon (text_host u)).1;
  port u := match (split_at_char colon (text_host u)).2 with String _ port => port | "" => "" end;
  pathname u := match (split_rest u).1.1 with "" => "/" | path => path end;
  searchParams u := match (split_rest u).1.2 with
                    | String _ search => let (name, value) := split_at_char (Ascii.ascii_of_nat 61) search in
                                         [(name, match value with String _ value => value | "" => "" end)]
                    | "" => []
                    end;
  with_pathname path u := assemble u path (split_rest u).1.2 (split_rest u).2;
  with_search search u := assemble u (split_rest u).1.1 search (split_rest u).2;
  with_hash hash u := assemble u (split_rest u).1.1 (split_rest u).1.2 hash;
  with_searchParam name value u :=
    assemble u (split_rest u).1.1 ("?" +:+ name +:+ "=" +:+ value) (split_rest u).2;
|}.

Lemma reference_url_objects_laws : @URLLaws reference_url_objects.
Proof.
  assert (∀ u candidate, (text_protocol (replace_url u candidate), text_host (replace_url u candidate))
    = (text_protocol u, text_host u)) as Hreplace.
  { intros u candidate. unfold replace_url. by case_bool_decide. }
  split; intros *; [|unfold authority; simpl; apply Hreplace..].
  simpl. case_bool_decide; [by intros [= ->]|done].
Qed.

(** ** Percent encoding *)

Definition unreserved (b : Z) : bool :=
  ((48 <=? b) && (b <=? 57)) || ((65 <=? b) && (b <=? 90)) || ((97 <=? b) && (b <=? 122))
  || bool_decide (b ∈ [33; 39; 40; 41; 42; 45; 46; 95; 126]).

Definition upper_hex (n : Z) : Z := if n <? 10 then 48 + n else 55 + n.

Definition encode_byte (b : Z) : list Z :=
  if unreserved b then [b] else [37; upper_hex (b `div` 16); upper_hex (b `mod` 16)].

Definition encodeURIComponent (s : string) : string :=
  string_of_bytes (List.concat (List.map encode_byte (bytes_of s))).

Definition hex_value (b : Z) : Z := if b <? 65 then b - 48 else b - 55.

Fixpoint decode_component (l : list Z) : list Z :=
  match l with
  | 37 :: h :: l :: rest => (16 * hex_value h + hex_value l) :: decode_component rest
  | b :: rest => b :: decode_component rest
  | [] => []
  end.

Lemma upper_hex_spec n :
  0 <= n < 16 → hex_value (upper_hex n) = n ∧
  (48 <= upper_hex n <= 57 ∨ 65 <= upper_hex n <= 70).
Proof.
  intros Hn. unfold upper_hex, hex_value. destruct (n <? 10) eqn:Hlt.
  - apply Z.ltb_lt in Hlt. rewrite (proj2 (Z.ltb_lt (48 + n) 65)) by lia. lia.
  - apply Z.ltb_ge in Hlt. rewrite (proj2 (Z.ltb_ge (55 + n) 65)) by lia. lia.
Qed.

Lemma byte_halves b : byte_ok b → 0 <= b `div` 16 < 16 ∧ 0 <= b `mod` 16 < 16.
Proof.
  unfold byte_ok. intros Hb. split; [|by apply Z.mod_pos_bound].
  split; [apply Z.div_pos; lia|apply Z.div_lt_upper_bound; lia].
Qed.

(** Encoded bytes are unreserved, or the percent sign. *)
Lemma encode_byte_plain b :
  byte_ok b → Forall (λ b', byte_ok b' ∧ (b' = 37 ∨ unreserved b' = true)) (encode_byte b).
Proof.
  intros Hb. unfold encode_byte. destruct (unreserved b) eqn:Hu; [by apply Forall_singleton; auto|].
  destruct (byte_halves b Hb) as [H1%upper_hex_spec H2%upper_hex_spec].
  assert (∀ n, 48 <= n <= 57 ∨ 65 <= n <= 70 → byte_ok n ∧ unreserved n = true) as Hhex.
  { intros n Hn. unfold byte_ok, unreserved. split; [lia|].
    destruct Hn as [[??]|[??]]; rewrite !orb_true_iff, !andb_true_iff, !Z.leb_le; lia. }
  apply Forall_cons; split; [split; [unfold byte_ok; lia|by left]|].
  apply Forall_cons; split; [|apply Forall_singleton]; (split; [|right]); first [apply Hhex, H1|apply Hhex, H2].
Qed.

Lemma decode_encoded b rest :
  byte_ok b → decode_component (encode_byte b ++ rest) = b :: decode_component rest.
Proof.
  intros Hb. unfold encode_byte. destruct (unreserved b) eqn:Hu.
  - simpl. destruct b as [|p|p]; [done| |done].
    assert (Zpos p ≠ 37) as Hne by (intros Heq; rewrite Heq in Hu; by vm_compute in Hu).
    repeat (destruct p as [p|p|]; try done).
  - destruct (byte_halves b Hb) as [[H1 _]%upper_hex_spec [H2 _]%upper_hex_spec]. simpl.
    rewrite H1, H2. by rewrite <-Z.div_mod.
Qed.

Lemma encoded_bytes s :
  Forall (λ b', byte_ok b' ∧ (b' = 37 ∨ unreserved b' = true)) (List.concat (List.map encode_byte (bytes_of s))).
Proof.
  pose proof (bytes_of_ok s) as Hs. unfold bytes in Hs. induction Hs as [|b l Hb _ IH]; simpl; [done|].
  apply Forall_app_2; [by apply encode_byte_plain|done].
Qed.

(** The encoded text decodes to the text. *)
Lemma decode_encodeURIComponent s :
  string_of_bytes (decode_component (bytes_of (encodeURIComponent s))) = s.
Proof.
  unfold encodeURIComponent. rewrite bytes_of_string_of; cycle 1.
  { unfold bytes. eapply Forall_impl; [apply encoded_bytes|]. by intros b [? _]. }
  rewrite <-(string_of_bytes_of s) at 2. f_equal.
  pose proof (bytes_of_ok s) as Hs. unfold bytes in Hs. induction Hs as [|b l Hb _ IH]; [done|].
  simpl. by rewrite decode_encoded, IH.
Qed.

(** The encoded text is one path segment. *)
Lemma encoded_segment s c :
  c ∈ [35; 47; 63] → c ∉ bytes_of (encodeURIComponent s).
Proof.
  unfold encodeURIComponent. rewrite bytes_of_string_of; cycle 1.
  { unfold bytes. eapply Forall_impl; [apply encoded_bytes|]. by intros b [? _]. }
  intros Hc Hin. pose proof (encoded_bytes s) as Hall. rewrite Forall_forall in Hall.
  destruct (Hall c Hin) as [_ [->|Hu]].
  - by repeat (apply elem_of_cons in Hc as [Hc|Hc]; [done|]); apply elem_of_nil in Hc.
  - repeat (apply elem_of_cons in Hc as [->|Hc]; [by vm_compute in Hu|]). by apply elem_of_nil in Hc.
Qed.
