(* ===== verification/ManagedEgress.v ===== *)
(** * Requests of the egress proxy
      (apps/data-plane-gateway/src/egress/managed-egress-request.ts,
       packages/integrations-definitions/src/egress-credential-resolver.server.ts,
       packages/integrations-definitions/src/egress-request-middleware.server.ts)

    The request a sandbox makes is sent to the upstream of its route with the headers
    the hop needs removed, the middleware of the integration applied, and the route's
    credential written where its [authInjection] says.

    [managed_request]: beside any number of other calls, a request that is built goes to
    the upstream's authority with the caller's method, and carries a credential that was
    issued for the route's binding and the selected resolver.
    [outgoing_headers_exact] and [forward_path_exact] say which headers and which path are
    sent; [query_bag] says for which queries an AWS request can be signed at all. *)

From S2P Require Import Prelude JsMap JsObject Json DataFrame Text Locale Zod PlanTypes Programs Cache CredentialCache Fetch CredentialResolution.
Local Open Scope Z_scope.

Record GatewayEgressHttpRequest : Type := mkGatewayRequest {
  gateway_actingUserId : option string;
  gateway_authority : string;
  gateway_headers : JsMap.t string (list string);
  gateway_method : string;
  gateway_path : string;
  gateway_query : option string;
  gateway_https : bool;
}.

(** ** Paths *)

Definition slash : Ascii.ascii := Ascii.ascii_of_nat 47.

Definition normalizePath (path : string) : string :=
  if path =?= "" then "/" else if starts_with path "/" then path else "/" +:+ path.

(** [s.slice(1)] of a text that starts with a slash. *)
Definition drop_first (s : string) : string :=
  match s with EmptyString => EmptyString | String _ s => s end.

Definition joinPath (basePath suffixPath : string) : string :=
  let normalizedBasePath := if ends_with basePath slash then drop_last basePath else basePath in
  let normalizedSuffixPath := if starts_with suffixPath "/" then drop_first suffixPath else suffixPath in
  if (normalizedBasePath =?= "") || (normalizedBasePath =?= "/") then
    if normalizedSuffixPath =?= "" then "/" else "/" +:+ normalizedSuffixPath
  else if normalizedSuffixPath =?= "" then normalizedBasePath
  else normalizedBasePath +:+ "/" +:+ normalizedSuffixPath.

Definition resolveForwardPath (basePath targetPath : string) : string :=
  let normalizedBasePath := normalizePath basePath in
  let normalizedTargetPath := normalizePath targetPath in
  if negb (normalizedBasePath =?= "/")
     && ((normalizedTargetPath =?= normalizedBasePath)
         || starts_with normalizedTargetPath (normalizedBasePath +:+ "/"))
  then normalizedTargetPath
  else joinPath normalizedBasePath normalizedTargetPath.

(** ** Headers *)

Section Headers.
Context `{Locale}.

Definition isUpgradeRequest (headers : JsMap.t string (list string)) : bool :=
  match JsMap.get headers "upgrade" with
  | Some values => existsb (λ value, toLowerCase value =?= "websocket") values
  | None => false
  end.

(** The appends of all values of all names. *)
Definition append_all_headers (headers : JsMap.t string (list string)) : EgressError + Headers.t :=
  fold_each (λ h entry, fold_each (λ h value, Headers.append_value h entry.1 value) h entry.2)
    Headers.empty headers.

Definition hop_headers : list string := [
  "content-length"; "forwarded"; "host"; "keep-alive"; "proxy-authenticate"; "proxy-authorization";
  "proxy-connection"; "te"; "trailer"; "transfer-encoding"; "via"; "x-forwarded-for";
  "x-forwarded-host"; "x-forwarded-port"; "x-forwarded-proto"; "x-real-ip"].

Definition delete_all (h : Headers.t) (names : list string) : Headers.t := foldl Headers.delete h names.

Definition buildOutgoingRequestHeaders (headers : JsMap.t string (list string)) (preserveUpgradeHeaders : bool)
    : EgressError + Headers.t :=
  appended ← append_all_headers headers;
  let outgoingHeaders := delete_all appended hop_headers in
  outgoingHeaders ←
    if preserveUpgradeHeaders then Headers.set outgoingHeaders "connection" "Upgrade"
    else inr (Headers.delete (Headers.delete outgoingHeaders "connection") "upgrade");
  inr (delete_all outgoingHeaders
         (List.filter (λ headerName, starts_with (ascii_lower headerName) "cf-") (Headers.keys outgoingHeaders))).
End Headers.

Definition applyAdditionalHeaders (additionalHeaders : JsMap.t string string) (outgoingHeaders : Headers.t)
    : EgressError + Headers.t :=
  fold_each (λ h entry, Headers.set h entry.1 entry.2) outgoingHeaders additionalHeaders.

(** ** Requests *)

Section Requests.
Context `{URLs}.

Record MutableManagedEgressRequest : Type := mkRequest {
  request_body : option (list Z);
  request_headers : Headers.t;
  request_method : string;
  request_url : URL;
}.

(** The copy shares nothing with the request; a value is its own copy, and the URL is
    parsed again. *)
Definition cloneManagedRequest (request : MutableManagedEgressRequest)
    : EgressError + MutableManagedEgressRequest :=
  url ← new_URL_or_throw (href request.(request_url));
  inr (mkRequest request.(request_body) request.(request_headers) request.(request_method) url).

Definition createUpstreamUrl (request : GatewayEgressHttpRequest) (upstreamBaseUrl : string)
    : EgressError + URL :=
  upstreamUrl ← new_URL_or_throw upstreamBaseUrl;
  let upstreamUrl := with_pathname (resolveForwardPath (pathname upstreamUrl) request.(gateway_path)) upstreamUrl in
  let upstreamUrl :=
    with_search match request.(gateway_query) with None => "" | Some query => "?" +:+ query end upstreamUrl in
  inr (with_hash "" upstreamUrl).

Definition createSessionLinkUrl (controlPlanePublicBaseUrl sandboxInstanceId : string) : EgressError + string :=
  sessionLinkUrl ← new_URL_or_throw controlPlanePublicBaseUrl;
  let sessionLinkUrl :=
    with_pathname (joinPath (pathname sessionLinkUrl) ("p/sessions/" +:+ encodeURIComponent sandboxInstanceId))
      sessionLinkUrl in
  inr (href (with_hash "" (with_search "" sessionLinkUrl))).

(** *** The integrations *)

Record MiddlewareContext : Type := mkMiddlewareContext {
  ctx_sandboxInstanceId : string;
  ctx_sessionUrl : string;
}.

Record IntegrationEgressRequestMiddleware : Type := mkMiddleware {
  middleware_id : string;
  handle : MiddlewareContext → MutableManagedEgressRequest → EgressError + MutableManagedEgressRequest;
}.

Record ResolverSelection : Type := mkSelection {
  selection_organizationId : string;
  selection_actingUserId : option string;
  selection_request : MutableManagedEgressRequest;
  selection_defaultCredentialResolver : EgressCredentialResolverRef;
}.

(** The parts of an integration definition the proxy uses. *)
Record EgressDefinition : Type := mkEgressDefinition {
  egressRequestMiddleware : option (list IntegrationEgressRequestMiddleware);
  resolveEgressCredentialResolver : option (ResolverSelection → EgressError + EgressCredentialResolverRef);
}.

(** [createIntegrationRegistry().getDefinition] *)
Definition EgressRegistry : Type := string → string → option EgressDefinition.

Definition resolveDefinitionEgressRequestMiddleware (definition : option EgressDefinition)
    (middlewareId : string) : option IntegrationEgressRequestMiddleware :=
  middlewares ← definition ≫= egressRequestMiddleware;
  List.find (λ middleware, middleware.(middleware_id) =?= middlewareId) middlewares.

Definition resolveDefinitionEgressCredentialResolver (definition : option EgressDefinition)
    (selection : ResolverSelection) : EgressError + EgressCredentialResolverRef :=
  match definition ≫= resolveEgressCredentialResolver with
  | None => inr selection.(selection_defaultCredentialResolver)
  | Some resolve => resolve selection
  end.

(** The checks that the values are of their classes are left to the types. *)
Definition validateMiddlewareRequestResult (previousRequest candidateRequest : MutableManagedEgressRequest)
    (middlewareId : string) : EgressError + MutableManagedEgressRequest :=
  if negb (candidateRequest.(request_method) =?= previousRequest.(request_method)) then
    inl (ErrorMessage ("Request middleware '" +:+ middlewareId +:+ "' must not change the HTTP method."))
  else if negb (href candidateRequest.(request_url) =?= href previousRequest.(request_url)) then
    inl (ErrorMessage ("Request middleware '" +:+ middlewareId +:+ "' must not change the target URL."))
  else cloneManagedRequest candidateRequest.

Definition apply_middleware (registry : EgressRegistry) (controlPlanePublicBaseUrl sandboxInstanceId : string)
    (route : EgressCredentialRoute) (currentRequest : MutableManagedEgressRequest) (middlewareId : string)
    : EgressError + MutableManagedEgressRequest :=
  match resolveDefinitionEgressRequestMiddleware
          (registry route.(route_familyId) route.(route_variantId)) middlewareId with
  | None => inl (GatewayManagedEgressUnsupportedRouteError
      ("Failed to resolve egress request middleware '" +:+ middlewareId +:+ "' for managed egress route '"
       +:+ route.(egressRuleId) +:+ "'.") RequestMiddlewareFailed)
  | Some middleware =>
      sessionUrl ← createSessionLinkUrl controlPlanePublicBaseUrl sandboxInstanceId;
      copy ← cloneManagedRequest currentRequest;
      candidate ← handle middleware (mkMiddlewareContext sandboxInstanceId sessionUrl) copy;
      validateMiddlewareRequestResult currentRequest candidate middlewareId
  end.

Definition applyRequestMiddleware (registry : EgressRegistry)
    (controlPlanePublicBaseUrl sandboxInstanceId : string) (route : EgressCredentialRoute)
    (request : MutableManagedEgressRequest) : EgressError + MutableManagedEgressRequest :=
  fold_each (apply_middleware registry controlPlanePublicBaseUrl sandboxInstanceId route) request
    (default [] route.(route_body).(requestMiddleware)).

Definition selectCredentialResolverForRequest (registry : EgressRegistry)
    (organizationId sandboxInstanceId : string) (actingUserId : option string)
    (route : EgressCredentialRoute) (request : MutableManagedEgressRequest) : EgressError + SelectedResolvers :=
  let defaultCredentialResolver := toCredentialResolverRef route.(route_body).(credentialResolver) in
  copy ← cloneManagedRequest request;
  selectedCredentialResolver ←
    resolveDefinitionEgressCredentialResolver (registry route.(route_familyId) route.(route_variantId))
      (mkSelection organizationId actingUserId copy defaultCredentialResolver);
  select_resolvers organizationId sandboxInstanceId actingUserId defaultCredentialResolver
    (toCredentialResolverRef selectedCredentialResolver).

(** *** Credentials in the request *)

Definition resolveValueCredential (context : string) (credential : CachedCredential) : EgressError + string :=
  match credential with
  | ValueCredential value _ => inr value
  | _ => inl (GatewayManagedEgressUnsupportedRouteError
      (context +:+ " requires a string credential value.") CredentialInjectionFailed)
  end.

Definition resolveAwsSessionCredential (context : string) (credential : CachedCredential)
    : EgressError + (string * string * string) :=
  match credential with
  | AwsSessionCredential accessKeyId secretAccessKey sessionToken _ =>
      inr (accessKeyId, secretAccessKey, sessionToken)
  | _ => inl (GatewayManagedEgressUnsupportedRouteError
      (context +:+ " requires AWS session credentials.") CredentialInjectionFailed)
  end.

Definition prependCredentialPathSegment (pathname secretValue segmentPrefix : string) : EgressError + string :=
  if secretValue =?= "" then inl (GatewayManagedEgressUnsupportedRouteError
      "Path segment auth injection requires a non-empty credential value." CredentialInjectionFailed)
  else
    let credentialSegment := encodeURIComponent (segmentPrefix +:+ secretValue) in
    let normalizedPathname := if starts_with pathname "/" then pathname else "/" +:+ pathname in
    inr (if normalizedPathname =?= "/" then "/" +:+ credentialSegment
         else "/" +:+ credentialSegment +:+ normalizedPathname).

(** [Buffer.from(credentials, "utf8").toString("base64")] *)
Definition toBasicAuthorizationValue (secretValue : string) (username : option string) : string :=
  let credentials := match username with
                     | None => secretValue
                     | Some username => username +:+ ":" +:+ secretValue
                     end in
  "Basic " +:+ encode64 (TextEncoder_encode credentials).

Definition with_headers (request : MutableManagedEgressRequest) (h : Headers.t) : MutableManagedEgressRequest :=
  mkRequest request.(request_body) h request.(request_method) request.(request_url).
Definition with_url (request : MutableManagedEgressRequest) (u : URL) : MutableManagedEgressRequest :=
  mkRequest request.(request_body) request.(request_headers) request.(request_method) u.

(** The injections that are not a signature. *)
Definition applyAuthInjection (authInjection : AuthInjection) (secretValue : string)
    (request : MutableManagedEgressRequest) : EgressError + MutableManagedEgressRequest :=
  match authInjection with
  | AuthBearer target =>
      h ← Headers.set request.(request_headers) target ("Bearer " +:+ secretValue);
      inr (with_headers request h)
  | AuthBasic target username =>
      h ← Headers.set request.(request_headers) target (toBasicAuthorizationValue secretValue username);
      inr (with_headers request h)
  | AuthHeader target credentialPrefix =>
      h ← Headers.set request.(request_headers) target (default "" credentialPrefix +:+ secretValue);
      inr (with_headers request h)
  | AuthQuery target => inr (with_url request (with_searchParam target secretValue request.(request_url)))
  | AuthPathSegmentPrefix segmentPrefix =>
      path ← prependCredentialPathSegment (pathname request.(request_url)) secretValue segmentPrefix;
      inr (with_url request (with_pathname path request.(request_url)))
  | AuthAwsSigv4 _ _ => inr request
  end.
End Requests.

(** ** Signed requests *)

(** What every object literal inherits. *)
Definition object_prototype : list string := [
  "constructor"; "__defineGetter__"; "__defineSetter__"; "hasOwnProperty"; "__lookupGetter__";
  "__lookupSetter__"; "isPrototypeOf"; "propertyIsEnumerable"; "toString"; "valueOf"; "__proto__";
  "toLocaleString"].

(** One parameter: an inherited member is neither absent nor a string, and has no [push].
    A single value is kept as a string, several as an array. *)
Definition add_query_parameter (queryParameters : JsMap.t string (list string)) (parameter : string * string)
    : EgressError + JsMap.t string (list string) :=
  match JsMap.get queryParameters parameter.1 with
  | Some values => inr (JsObject.set queryParameters parameter.1 (values ++ [parameter.2]))
  | None =>
      if bool_decide (parameter.1 ∈ object_prototype) then inl TypeError
      else inr (JsObject.set queryParameters parameter.1 [parameter.2])
  end.

Definition toQueryParameterBag (searchParams : list (string * string))
    : EgressError + JsMap.t string (list string) :=
  fold_each add_query_parameter JsMap.empty searchParams.

(** [Number.parseInt(text, 10)] of digits. *)
Definition resolveUpstreamPort (port : string) : EgressError + option Z :=
  if port =?= "" then inr None
  else match (span_digits port).1 with
       | "" => inl (ErrorMessage ("Upstream URL port '" +:+ port +:+ "' is invalid."))
       | digits => inr (Some (digits_value 0 digits))
       end.

Section Build.
Context `{Zod} `{DateParse} `{Locale} `{URLs}.

Local Notation async := (program egress_op EgressError).

Definition applyAwsSigV4AuthInjection (service region : string) (credential : string * string * string)
    (request : MutableManagedEgressRequest) : async MutableManagedEgressRequest :=
  let upstreamUrl := request.(request_url) in
  port ← finish (resolveUpstreamPort (port upstreamUrl));
  headersToSign ← finish (Headers.set request.(request_headers) "host" (host upstreamUrl));
  query ← finish (toQueryParameterBag (searchParams upstreamUrl));
  signedHeaders ← perform (Sign (mkSigning credential region service (negb (service =?= "s3"))
    request.(request_method) (protocol upstreamUrl) (hostname upstreamUrl) (pathname upstreamUrl) query
    (Headers.entries headersToSign) port request.(request_body)));
  let outgoingHeaders := delete_all request.(request_headers) (Headers.keys request.(request_headers)) in
  h ← finish (fold_each (λ h entry, Headers.set h entry.1 entry.2) outgoingHeaders signedHeaders);
  mret (with_headers request h).

(** The services a gateway builds its requests with. *)
Record EgressGateway : Type := mkEgressGateway {
  gateway_cache : CredentialCacheConfig;
  gateway_platformCredentials : option GatewayPlatformCredentialConfig;
  gateway_registry : EgressRegistry;
  gateway_controlPlanePublicBaseUrl : string;
}.

Record ManagedEgressInput : Type := mkInput {
  input_body : option (list Z);
  input_organizationId : string;
  input_request : GatewayEgressHttpRequest;
  input_route : EgressCredentialRoute;
  input_sandboxInstanceId : string;
  input_testEnvironmentId : option string;
}.

(** The request before its credential: to the upstream, and changed by the middleware. *)
Definition prepare_request (gateway : EgressGateway) (input : ManagedEgressInput)
    : EgressError + MutableManagedEgressRequest :=
  let request := input.(input_request) in
  let route := input.(input_route) in
  h ← buildOutgoingRequestHeaders request.(gateway_headers) (isUpgradeRequest request.(gateway_headers));
  url ← createUpstreamUrl request route.(route_body).(upstream_baseUrl);
  let outgoingRequest := mkRequest input.(input_body) h request.(gateway_method) url in
  if bool_decide (is_Some route.(route_body).(requestMiddleware))
  then applyRequestMiddleware gateway.(gateway_registry) gateway.(gateway_controlPlanePublicBaseUrl)
         input.(input_sandboxInstanceId) route outgoingRequest
  else inr outgoingRequest.

(** One additional header with a credential of its own. *)
Definition add_credential_header (gateway : EgressGateway) (input : ManagedEgressInput)
    (request : MutableManagedEgressRequest) (header : string * EgressCredentialResolverRef)
    : async MutableManagedEgressRequest :=
  resolver ← finish (toCredentialResolverInputFromRef input.(input_organizationId)
    input.(input_sandboxInstanceId) input.(input_request).(gateway_actingUserId) header.2);
  headerCredential ← resolveCredentialWithCache gateway.(gateway_cache) gateway.(gateway_platformCredentials)
    input.(input_testEnvironmentId) input.(input_route).(route_bindingId) resolver;
  value ← finish (resolveValueCredential ("Additional credential-backed header '" +:+ header.1 +:+ "'")
    headerCredential);
  h ← finish (Headers.set request.(request_headers) header.1 value);
  mret (with_headers request h).

Fixpoint add_credential_headers (gateway : EgressGateway) (input : ManagedEgressInput)
    (request : MutableManagedEgressRequest) (l : list (string * EgressCredentialResolverRef))
    : async MutableManagedEgressRequest :=
  match l with
  | [] => mret request
  | header :: l =>
      request ← add_credential_header gateway input request header;
      add_credential_headers gateway input request l
  end.

(** The telemetry attributes that are returned beside the request are left out. *)
Definition inject_credential (route : EgressCredentialRoute) (credential : CachedCredential)
    (request : MutableManagedEgressRequest) : async MutableManagedEgressRequest :=
  match route.(route_body).(authInjection) with
  | AuthAwsSigv4 service region =>
      session ← finish (resolveAwsSessionCredential "HTTP SigV4 auth injection" credential);
      applyAwsSigV4AuthInjection service region session request
  | injection =>
      secretValue ← finish (resolveValueCredential "HTTP egress auth injection" credential);
      finish (applyAuthInjection injection secretValue request)
  end.

Definition buildManagedEgressRequest (gateway : EgressGateway) (input : ManagedEgressInput)
    : async MutableManagedEgressRequest :=
  let route := input.(input_route) in
  outgoingRequest ← finish (prepare_request gateway input);
  resolvers ← finish (selectCredentialResolverForRequest gateway.(gateway_registry)
    input.(input_organizationId) input.(input_sandboxInstanceId)
    input.(input_request).(gateway_actingUserId) route outgoingRequest);
  credential ← resolveCredentialWithFallback gateway.(gateway_cache) gateway.(gateway_platformCredentials)
    input.(input_testEnvironmentId) route.(route_bindingId) resolvers;
  h ← finish match route.(route_body).(additionalHeaders) with
             | Some additionalHeaders => applyAdditionalHeaders additionalHeaders outgoingRequest.(request_headers)
             | None => inr outgoingRequest.(request_headers)
             end;
  outgoingRequest ← add_credential_headers gateway input (with_headers outgoingRequest h)
    (default [] route.(route_body).(additionalCredentialHeaders));
  inject_credential route credential outgoingRequest.
End Build.

(** ** Which headers are sent *)

Definition header_values (h : Headers.t) (n : string) : list string := default [] (Headers.get h n).

Lemma delete_all_values names h n :
  header_values (delete_all h names) n =
    if bool_decide (ascii_lower n ∈ ascii_lower <$> names) then [] else header_values h n.
Proof.
  revert h. induction names as [|name names IH]; intros h; [done|].
  change (delete_all h (name :: names)) with (delete_all (Headers.delete h name) names).
  rewrite IH. unfold header_values. rewrite Headers.delete_get, fmap_cons.
  rewrite (bool_decide_ext (ascii_lower n ∈ ascii_lower name :: _)
    (ascii_lower n = ascii_lower name ∨ ascii_lower n ∈ ascii_lower <$> names)) by apply elem_of_cons.
  rewrite bool_decide_or. by repeat case_bool_decide.
Qed.

(** The values of a name, over all spellings of it. *)
Definition sent_values (headers : JsMap.t string (list string)) (n : string) : list string :=
  List.concat (List.map (λ e, if ascii_lower n =?= ascii_lower e.1 then Headers.normalize <$> e.2 else []) headers).

Lemma append_values name values h h' n :
  fold_each (λ h value, Headers.append_value h name value) h values = inr h' →
  header_values h' n =
    header_values h n ++ (if ascii_lower n =?= ascii_lower name then Headers.normalize <$> values else []).
Proof.
  revert h. induction values as [|value values IH]; intros h; cbn [fold_each].
  - intros [= ->]. case_bool_decide; by rewrite app_nil_r.
  - intros (h1 & Happend & Hrest)%sum_bind_inr. rewrite (IH _ Hrest). unfold header_values.
    rewrite (Headers.append_get _ _ _ _ Happend). case_bool_decide as Hn; [|done].
    unfold Headers.get. rewrite Hn, fmap_cons. simpl. by rewrite <-app_assoc.
Qed.

Lemma append_all_values headers h h' n :
  fold_each (λ h entry, fold_each (λ h value, Headers.append_value h entry.1 value) h entry.2) h headers = inr h' →
  header_values h' n = header_values h n ++ sent_values headers n.
Proof.
  revert h. induction headers as [|[name values] headers IH]; intros h; cbn [fold_each].
  - intros [= ->]. unfold sent_values. simpl. by rewrite app_nil_r.
  - intros (h1 & Happend & Hrest)%sum_bind_inr. rewrite (IH _ Hrest), (append_values _ _ _ _ n Happend).
    unfold sent_values. simpl. by rewrite app_assoc.
Qed.

(** The last loop drops the names that start with [cf-]. *)
Lemma cf_dropped h n :
  ascii_lower n = n →
  (if bool_decide (n ∈ ascii_lower <$>
        List.filter (λ headerName, starts_with (ascii_lower headerName) "cf-") (Headers.keys h))
   then [] else header_values h n) = if starts_with n "cf-" then [] else header_values h n.
Proof.
  intros Hn. case_bool_decide as Hin.
  - apply list_elem_of_fmap in Hin as (k & -> & [_ Hk]%elem_of_filter_map_bool). by rewrite Hk.
  - destruct (starts_with n "cf-") eqn:Hcf; [|done]. unfold header_values, Headers.get. rewrite Hn.
    destruct (JsMap.get h n) as [values|] eqn:Hget; [|done]. exfalso. apply Hin.
    apply list_elem_of_fmap. exists n. split; [done|]. apply elem_of_filter_map_bool. rewrite Hn. split; [|done].
    apply JsMap.elem_of_keys. by rewrite Hget.
Qed.

(** C15: The values that are sent under a header name are the caller's values of that
    name, trimmed and in order over all spellings, except for: the headers of the hop, of
    forwarding and of proxies, which are dropped; every [cf-] header, dropped; and
    [connection] and [upgrade], which are dropped unless the request is a websocket upgrade,
    which sends [connection: Upgrade]. *)
Theorem outgoing_headers_exact headers preserveUpgradeHeaders h n :
  buildOutgoingRequestHeaders headers preserveUpgradeHeaders = inr h → ascii_lower n = n →
  header_values h n =
    if bool_decide (n ∈ hop_headers) || starts_with n "cf-" then []
    else if n =?= "connection" then (if preserveUpgradeHeaders then ["Upgrade"] else [])
    else if (n =?= "upgrade") && negb preserveUpgradeHeaders then []
    else sent_values headers n.
Proof.
  intros (appended & Happend & Hrest)%sum_bind_inr Hn.
  apply sum_bind_inr in Hrest as (h1 & Hupgrade & Hh). injection Hh as <-.
  apply (append_all_values _ _ _ n) in Happend. simpl in Happend.
  rewrite delete_all_values, Hn, cf_dropped by done.
  destruct (starts_with n "cf-") eqn:Hcf; [by rewrite orb_true_r|]. rewrite orb_false_r.
  assert (header_values (delete_all appended hop_headers) n =
    if bool_decide (n ∈ hop_headers) then [] else sent_values headers n) as Hhop.
  { rewrite delete_all_values, Hn, Happend. by change (ascii_lower <$> hop_headers) with hop_headers. }
  destruct preserveUpgradeHeaders; [rewrite andb_false_r|rewrite andb_true_r].
  - unfold header_values in *. rewrite (Headers.set_get _ _ _ _ Hupgrade), Hn.
    change (ascii_lower "connection") with "connection".
    destruct (decide (n = "connection")) as [->|Hc]; [by vm_compute|]. by rewrite !(bool_decide_false (n = _)).
  - apply (inj inr) in Hupgrade as <-. unfold header_values in *. rewrite !Headers.delete_get, Hn.
    change (ascii_lower "connection") with "connection". change (ascii_lower "upgrade") with "upgrade".
    destruct (decide (n = "upgrade")) as [->|Hu]; [by vm_compute|].
    destruct (decide (n = "connection")) as [->|Hc]; [by vm_compute|].
    by rewrite !(bool_decide_false (n = _)).
Qed.

(** ** Which path is sent *)

Lemma starts_with_slash s : starts_with s "/" = true ↔ ∃ rest, s = String slash rest.
Proof. apply starts_with_spec. Qed.

Lemma normalizePath_slash path : ∃ rest, normalizePath path = String slash rest.
Proof.
  unfold normalizePath. case_bool_decide; [by exists ""|].
  destruct (starts_with path "/") eqn:Hs; [by apply starts_with_slash|by exists path].
Qed.

(** The base path without its last slash; a path of slashes only is empty. *)
Definition base_of (basePath : string) : string :=
  let base := normalizePath basePath in
  let base := if ends_with base slash then drop_last base else base in
  if base =?= "/" then "" else base.

Lemma base_split basePath :
  ∃ s, normalizePath basePath = base_of basePath +:+ s ∧ (s = "" ∧ base_of basePath ≠ "" ∨ starts_with s "/" = true).
Proof.
  destruct (normalizePath_slash basePath) as [b Hb]. unfold base_of.
  destruct (ends_with (normalizePath basePath) slash) eqn:He.
  - apply ends_with_spec in He. case_bool_decide as Hd.
    + exists (normalizePath basePath). split; [done|right]. apply starts_with_slash. by exists b.
    + exists "/". split; [done|by right].
  - case_bool_decide as Hd; [by rewrite Hd in He|]. exists "". rewrite string_app_nil_r. split; [done|left].
    split; [done|]. by rewrite Hb.
Qed.

Lemma joinPath_base basePath target t :
  target = String slash t →
  joinPath (normalizePath basePath) target =
    if t =?= "" then (if base_of basePath =?= "" then "/" else base_of basePath)
    else base_of basePath +:+ target.
Proof.
  intros ->. unfold joinPath, base_of. rewrite (proj2 (starts_with_slash _)) by by eexists.
  cbn [drop_first]. set (b := if ends_with _ slash then _ else _).
  destruct (decide (b = "")) as [->|Hb]; [by repeat case_bool_decide|].
  destruct (decide (b = "/")) as [->|Hb']; [by repeat case_bool_decide|].
  by rewrite !(bool_decide_false (b = _)) by done.
Qed.

(** The path sent upstream lies under the base path of the upstream: it is the base
    path (without a trailing slash), alone or followed by a slash and more.  A target path
    that already is the base path or lies under it is sent as it is, and any other is
    appended to it.  (Dot segments are left to the URL parser.) *)
Theorem forward_path_exact basePath targetPath :
  let base := base_of basePath in
  let target := normalizePath targetPath in
  let path := resolveForwardPath basePath targetPath in
  (∃ rest, path = base +:+ rest ∧ (rest = "" ∧ base ≠ "" ∨ starts_with rest "/" = true)) ∧
  path = if negb (normalizePath basePath =?= "/")
            && ((target =?= normalizePath basePath) || starts_with target (normalizePath basePath +:+ "/"))
         then target
         else if target =?= "/" then (if base =?= "" then "/" else base) else base +:+ target.
Proof.
  intros base target path. unfold path, resolveForwardPath. fold target.
  destruct (normalizePath_slash targetPath) as [t Ht]. fold target in Ht.
  destruct (base_split basePath) as (s & Hsplit & Hs). fold base in Hsplit, Hs.
  rewrite (joinPath_base _ _ t) by done. fold base.
  assert ((target =?= "/") = (t =?= "")) as Hroot.
  { rewrite Ht. apply bool_decide_ext. split; [by intros [= ->]|by intros ->]. }
  rewrite Hroot. split; [|done]. clearbody base target. case_match eqn:Hunder.
  - apply andb_true_iff in Hunder as [_ Hunder]. apply orb_true_iff in Hunder as [Heq|Hprefix].
    + apply bool_decide_eq_true in Heq. exists s. by rewrite Heq.
    + apply starts_with_spec in Hprefix as [rest Hrest]. exists (s +:+ "/" +:+ rest).
      split; [by rewrite Hrest, Hsplit, !string_app_assoc|right].
      destruct Hs as [[-> _]|[s' ->]%starts_with_slash]; apply starts_with_slash; by eexists.
  - clear Hunder Hroot. destruct (decide (t = "")) as [->|Hne]; [rewrite bool_decide_true by done|rewrite bool_decide_false by done].
    + case_bool_decide as Hbase; [exists "/"; split; [by rewrite Hbase|by right]|].
      exists "". rewrite string_app_nil_r. split; [done|by left].
    + exists target. split; [done|right]. apply starts_with_slash. by exists t.
Qed.

(** ** The path segment of a credential *)

(** A credential put into the path is one segment at its front: the segment has no
    slash, question mark or hash, decodes to the prefix and the secret, and the path follows
    it unchanged (with a leading slash, and nothing for the root). *)
Theorem credential_segment_exact path secretValue segmentPrefix result :
  prependCredentialPathSegment path secretValue segmentPrefix = inr result →
  ∃ segment, result = "/" +:+ segment +:+ (if normalizePath path =?= "/" then "" else normalizePath path) ∧
    (∀ c, c ∈ [35; 47; 63] → c ∉ bytes_of segment) ∧
    string_of_bytes (decode_component (bytes_of segment)) = segmentPrefix +:+ secretValue ∧
    secretValue ≠ "".
Proof.
  unfold prependCredentialPathSegment. case_bool_decide as Hempty; [done|]. intros Hresult.
  exists (encodeURIComponent (segmentPrefix +:+ secretValue)). split_and!;
    [|intros c; apply encoded_segment|apply decode_encodeURIComponent|done].
  assert ((if starts_with path "/" then path else "/" +:+ path) = normalizePath path) as Hnormal.
  { unfold normalizePath. destruct (decide (path = "")) as [->|Hp]; [by vm_compute|].
    by rewrite (bool_decide_false (path = "")). }
  rewrite Hnormal in Hresult. apply (inj inr) in Hresult as <-.
  case_bool_decide; [by rewrite string_app_nil_r|done].
Qed.

(** ** Queries of signed requests *)

Definition query_values (l : list (string * string)) (key : string) : list string :=
  (List.filter (λ p, p.1 =?= key) l).*2.

Lemma add_parameters l bag :
  JsMap.wf bag → (∀ p, p ∈ l → p.1 ∉ object_prototype) →
  ∃ bag', fold_each add_query_parameter bag l = inr bag' ∧ JsMap.wf bag' ∧
    ∀ key, default [] (JsMap.get bag' key) = default [] (JsMap.get bag key) ++ query_values l key.
Proof.
  revert bag. induction l as [|[k v] l IH]; intros bag Hwf Hnames; cbn [fold_each].
  { exists bag. split_and!; [done|done|]. intros key. unfold query_values. simpl. by rewrite app_nil_r. }
  assert (∃ values, default [] (JsMap.get bag k) ++ [v] = values ∧
    add_query_parameter bag (k, v) = inr (JsObject.set bag k values)) as (values & Hvalues & ->).
  { unfold add_query_parameter. simpl. destruct (JsMap.get bag k); [by eexists|].
    rewrite bool_decide_false; [by eexists|]. apply (Hnames (k, v)). by left. }
  cbn [mbind sum_bind].
  destruct (IH (JsObject.set bag k values)) as (bag' & -> & Hwf' & Hget);
    [by apply JsObject.wf_object_set|intros p Hp; apply Hnames; by right|].
  exists bag'. split_and!; [done|done|]. intros key. rewrite Hget, JsObject.get_object_set by done.
  unfold query_values. simpl. case_bool_decide as Hk; case_decide; try congruence.
  subst. simpl. by rewrite <-app_assoc.
Qed.

Lemma inherited_parameter l bag p :
  p ∈ l → p.1 ∈ object_prototype → (∀ key, key ∈ object_prototype → JsMap.get bag key = None) →
  JsMap.wf bag → fold_each add_query_parameter bag l = inl TypeError.
Proof.
  intros Hp Hin. revert bag. induction l as [|q l IH]; intros bag Hnone Hwf; [by apply elem_of_nil in Hp|].
  cbn [fold_each]. unfold add_query_parameter at 2.
  destruct (decide (q.1 ∈ object_prototype)) as [Hq|Hq].
  { by rewrite (Hnone _ Hq), bool_decide_true. }
  apply elem_of_cons in Hp as [->|Hp]; [done|].
  assert (∀ values, fold_each add_query_parameter (JsObject.set bag q.1 values) l = inl TypeError) as Hrest.
  { intros values. apply IH; [done| |by apply JsObject.wf_object_set]. intros key Hkey.
    rewrite JsObject.get_object_set by done. case_decide; [by subst|by apply Hnone]. }
  destruct (JsMap.get bag q.1); [apply Hrest|]. rewrite bool_decide_false by done. apply Hrest.
Qed.

(** A query that is built has the values of each name, in order. *)
Lemma query_bag_values l bag :
  toQueryParameterBag l = inr bag → ∀ key, default [] (JsMap.get bag key) = query_values l key.
Proof.
  intros Hbag. unfold toQueryParameterBag in Hbag.
  destruct (decide (Exists (λ p, p.1 ∈ object_prototype) l)) as [Hin|Hout].
  - apply Exists_exists in Hin as (p & Hp & Hin).
    rewrite (inherited_parameter l JsMap.empty p) in Hbag;
      [done|done|done|intros; apply JsMap.get_empty|apply JsMap.wf_empty].
  - destruct (add_parameters l JsMap.empty) as (bag' & Hbag' & _ & Hget); [apply JsMap.wf_empty| |].
    { intros p Hp Hin. apply Hout, Exists_exists. by exists p. }
    rewrite Hbag in Hbag'. by apply (inj inr) in Hbag' as <-.
Qed.

(** The query of a request to be signed: when no parameter has the name of a member
    every object inherits, the bag has the values of each name in order, and when one has
    (as [constructor] or [toString]) building the request throws. *)
Theorem query_bag l :
  ((∀ p, p ∈ l → p.1 ∉ object_prototype) →
     ∃ bag, toQueryParameterBag l = inr bag ∧ ∀ key, default [] (JsMap.get bag key) = query_values l key) ∧
  ((∃ p, p ∈ l ∧ p.1 ∈ object_prototype) → toQueryParameterBag l = inl TypeError).
Proof.
  split.
  - intros Hnames. destruct (add_parameters l JsMap.empty) as (bag & Hbag & _ & Hget);
      [by apply JsMap.wf_empty|done|]. by exists bag.
  - intros (p & Hp & Hin). by eapply inherited_parameter; [| |intros; apply JsMap.get_empty|apply JsMap.wf_empty].
Qed.

(** ** Requests beside each other *)

Section Built.
Context `{ZodLaws} `{DateParseLaws} `{Locale} `{URLLaws}.

(** *** The upstream and the method *)

Definition sent_to (baseUrl : string) (u : URL) : Prop :=
  ∃ upstream, new_URL baseUrl = Some upstream ∧ authority u = authority upstream.

Lemma createUpstreamUrl_sent request baseUrl u :
  createUpstreamUrl request baseUrl = inr u → sent_to baseUrl u.
Proof.
  unfold createUpstreamUrl, new_URL_or_throw. destruct (new_URL baseUrl) as [upstream|] eqn:Hnew; [|done].
  intros Hu. apply (inj inr) in Hu as <-. exists upstream. split; [done|].
  by rewrite hash_authority, search_authority, pathname_authority.
Qed.

(** Middleware cannot move the request. *)
Lemma apply_middleware_url registry baseUrl sandboxInstanceId route request middlewareId request' :
  apply_middleware registry baseUrl sandboxInstanceId route request middlewareId = inr request' →
  request'.(request_url) = request.(request_url) ∧ request'.(request_method) = request.(request_method).
Proof.
  unfold apply_middleware. destruct (resolveDefinitionEgressRequestMiddleware _ _) as [middleware|]; [|done].
  intros (sessionUrl & _ & (copy & _ & (candidate & _ & Hvalid)%sum_bind_inr)%sum_bind_inr)%sum_bind_inr.
  unfold validateMiddlewareRequestResult in Hvalid. case_bool_decide as Hmethod; [|done].
  case_bool_decide as Hhref; [|done]. simpl in Hvalid.
  unfold cloneManagedRequest, new_URL_or_throw in Hvalid. rewrite Hhref in Hvalid.
  destruct (new_URL (href request.(request_url))) as [u|] eqn:Hnew; [|done].
  apply (inj inr) in Hvalid as <-. simpl. split; [|done]. by apply new_URL_href.
Qed.

Lemma applyRequestMiddleware_url registry baseUrl sandboxInstanceId route request request' :
  applyRequestMiddleware registry baseUrl sandboxInstanceId route request = inr request' →
  request'.(request_url) = request.(request_url) ∧ request'.(request_method) = request.(request_method).
Proof.
  unfold applyRequestMiddleware. revert request.
  induction (default [] _) as [|middlewareId l IH]; intros request; cbn [fold_each]; [by intros [= ->]|].
  intros (request1 & [<- <-]%apply_middleware_url & Hrest)%sum_bind_inr. by apply IH.
Qed.

Definition kept (input : ManagedEgressInput) (request : MutableManagedEgressRequest) : Prop :=
  sent_to input.(input_route).(route_body).(upstream_baseUrl) request.(request_url) ∧
  request.(request_method) = input.(input_request).(gateway_method).

Lemma prepare_request_kept gateway input request :
  prepare_request gateway input = inr request → kept input request.
Proof.
  unfold prepare_request. intros (h & _ & (u & Hu%createUpstreamUrl_sent & Hrequest)%sum_bind_inr)%sum_bind_inr.
  case_bool_decide.
  - apply applyRequestMiddleware_url in Hrequest as [Hurl Hmethod]. unfold kept. by rewrite Hurl, Hmethod.
  - by apply (inj inr) in Hrequest as <-.
Qed.

(** *** The credential *)

(** The value a name has in a list of headers where a later one replaces an earlier one. *)
Definition signed_value (headers : JsMap.t string string) (n : string) : option string :=
  last (List.filter (λ e, ascii_lower n =?= ascii_lower e.1) headers).*2.

(** The headers of the request are those that the signer answered, and no others, when it
    was asked to sign with this session, for this service and region, the method, the URL,
    the query and the body that the request has, for the host it is sent to. *)
Definition signed_with (answers : list service_answer) (session : string * string * string)
    (service region : string) (request : MutableManagedEgressRequest) : Prop :=
  let u := request.(request_url) in
  ∃ query headers upstreamPort signed,
    SignAnswer (mkSigning session region service (negb (service =?= "s3")) request.(request_method)
      (protocol u) (hostname u) (pathname u) query headers upstreamPort request.(request_body)) signed ∈ answers ∧
    (∀ key, default [] (JsMap.get query key) = query_values (searchParams u) key) ∧
    JsMap.get headers "host" = Some (Headers.normalize (host u)) ∧
    resolveUpstreamPort (port u) = inr upstreamPort ∧
    ∀ n, Headers.get request.(request_headers) n =
           (λ value, [Headers.normalize value]) <$> signed_value signed n.

(** Where the request carries the credential. *)
Definition carries (answers : list service_answer) (injection : AuthInjection) (credential : CachedCredential)
    (request : MutableManagedEgressRequest) : Prop :=
  let value_in target text := Headers.get request.(request_headers) target = Some [Headers.normalize text] in
  match injection with
  | AuthAwsSigv4 service region => ∃ accessKeyId secretAccessKey sessionToken expiresAt,
      credential = AwsSessionCredential accessKeyId secretAccessKey sessionToken expiresAt ∧
      signed_with answers (accessKeyId, secretAccessKey, sessionToken) service region request
  | _ => ∃ value expiresAt, credential = ValueCredential value expiresAt ∧
      match injection with
      | AuthBearer target => value_in target ("Bearer " +:+ value)
      | AuthBasic target username => value_in target (toBasicAuthorizationValue value username)
      | AuthHeader target credentialPrefix => value_in target (default "" credentialPrefix +:+ value)
      | AuthQuery target => ∃ u, request.(request_url) = with_searchParam target value u
      | AuthPathSegmentPrefix segmentPrefix => ∃ u path, request.(request_url) = with_pathname path u ∧
          prependCredentialPathSegment (pathname u) value segmentPrefix = inr path
      | AuthAwsSigv4 _ _ => True
      end
  end.

Lemma signed_all_get l h h' n :
  fold_each (λ h entry, Headers.set h entry.1 entry.2) h l = inr h' →
  Headers.get h' n =
    match signed_value l n with Some value => Some [Headers.normalize value] | None => Headers.get h n end.
Proof.
  revert h. induction l as [|[name value] l IH]; intros h; cbn [fold_each]; [by intros [= ->]|].
  intros (h1 & Hset & Hrest)%sum_bind_inr. rewrite (IH _ Hrest), (Headers.set_get _ _ _ _ Hset n).
  unfold signed_value. simpl. case_bool_decide; [|done]. rewrite fmap_cons, last_cons. by destruct (last _).
Qed.

Lemma ascii_lower_idemp s : ascii_lower (ascii_lower s) = ascii_lower s.
Proof.
  induction s as [|c s IH]; [done|]. simpl. rewrite IH. f_equal.
  destruct c as [[] [] [] [] [] [] [] []]; reflexivity.
Qed.

(** Nothing is left of the headers when all of them are deleted. *)
Lemma delete_all_keys h n : Headers.get (delete_all h (Headers.keys h)) n = None.
Proof.
  assert (∀ names h, Headers.get (delete_all h names) n =
    if bool_decide (ascii_lower n ∈ ascii_lower <$> names) then None else Headers.get h n) as Hall.
  { intros names. induction names as [|name names IH]; intros h'; [done|].
    change (delete_all h' (name :: names)) with (delete_all (Headers.delete h' name) names).
    rewrite IH, Headers.delete_get, fmap_cons.
    rewrite (bool_decide_ext (ascii_lower n ∈ ascii_lower name :: _)
      (ascii_lower n = ascii_lower name ∨ ascii_lower n ∈ ascii_lower <$> names)) by apply elem_of_cons.
    rewrite bool_decide_or. by repeat case_bool_decide. }
  rewrite Hall. case_bool_decide as Hin; [done|]. unfold Headers.get.
  destruct (JsMap.get h (ascii_lower n)) as [values|] eqn:Hget; [|done]. exfalso. apply Hin.
  apply list_elem_of_fmap. exists (ascii_lower n). split; [by rewrite ascii_lower_idemp|].
  apply JsMap.elem_of_keys. by rewrite Hget.
Qed.

Lemma entries_get h n : JsMap.get (Headers.entries h) n = Headers.combine n <$> JsMap.get h n.
Proof.
  induction h as [|[k values] h IH]; [done|]. unfold Headers.entries, JsMap.get in *. simpl.
  case_decide; [by subst|exact IH].
Qed.

Lemma applyAuthInjection_ok answers input injection value expiresAt request request' :
  (∀ service region, injection ≠ AuthAwsSigv4 service region) → kept input request →
  applyAuthInjection injection value request = inr request' →
  kept input request' ∧ carries answers injection (ValueCredential value expiresAt) request'.
Proof.
  intros Hinjection [[upstream [Hnew Hsent]] Hmethod]. unfold kept, sent_to.
  assert (∀ h target text, Headers.set request.(request_headers) target text = inr h →
    Headers.get h target = Some [Headers.normalize text]) as Hset.
  { intros h target text Hh. by rewrite (Headers.set_get _ _ _ _ Hh), bool_decide_true. }
  destruct injection as [target|target username|target credentialPrefix|target|segmentPrefix|service region];
    cbn [applyAuthInjection]; [| | | | |by edestruct Hinjection].
  1-3: intros (h & Hh%Hset & Hrequest)%sum_bind_inr; apply (inj inr) in Hrequest as <-;
    (split; [by eauto|by exists value, expiresAt]).
  - intros Hrequest. apply (inj inr) in Hrequest as <-. simpl. rewrite searchParam_authority.
    split; [by eauto|]. exists value, expiresAt. split; [done|]. by eexists.
  - intros (path & Hpath & Hrequest)%sum_bind_inr. apply (inj inr) in Hrequest as <-. simpl.
    rewrite pathname_authority. split; [by eauto|]. exists value, expiresAt. split; [done|].
    by exists request.(request_url), path.
Qed.

Context {S : Type} `{CacheAdapterLaws S} (store_error service_error : EgressError → Prop).
Context (gateway : EgressGateway) (Httl : 0 <= gateway.(gateway_cache).(defaultTtlSeconds) <= 10 ^ 11).

Local Notation good := (well_formed_world gateway.(gateway_cache) world_store world_clock
  (issued_for gateway.(gateway_platformCredentials)) answered unrecorded).
Local Notation allowed := (beside gateway.(gateway_cache) world_store world_clock
  (issued_for gateway.(gateway_platformCredentials)) answered unrecorded).
Local Notation step := (egress_step (S := S) store_error service_error).

(** What holds of the result of a call that returns. *)
Definition yields {A} (P : egress_world S → A → Prop) (w : egress_world S) (r : EgressError + A) : Prop :=
  ∀ a, r = inr a → P w a.

Local Notation ok p P := (holds step allowed allowed p (yields P)).

Lemma ok_bind {A B} (p : program egress_op EgressError A) (f : A → program egress_op EgressError B) P w :
  good w → ok p (λ w' a, good w' → ok (f a) P w') w → ok (p ≫= f) P w.
Proof.
  intros Hw Hp. apply holds_bind. eapply holds_mono; [|apply holds_track; [apply _|done|exact Hp]].
  intros w' [e|a] [Hbeside Ha]; [by intros ? [=]|]. apply Ha; [done|]. by eapply good_later.
Qed.

Lemma ok_finish {A B} (r : EgressError + A) (f : A → program egress_op EgressError B) P w :
  (∀ a, r = inr a → ok (f a) P w) → ok (finish r ≫= f) P w.
Proof. intros Hf. destruct r as [e|a]; [by intros ? [=]|]. by apply (Hf a). Qed.

Lemma ok_add_credential_headers input request l w :
  good w → kept input request →
  ok (add_credential_headers gateway input request l) (λ _ request', kept input request') w.
Proof.
  revert request w. induction l as [|header l IH]; intros request w Hw Hrequest; [by intros ? [= <-]|].
  cbn [add_credential_headers]. apply ok_bind; [done|]. unfold add_credential_header.
  apply ok_finish. intros resolver _. apply ok_bind; [done|].
  eapply holds_mono; [|apply (ok_resolveCredentialWithCache _ _ store_error service_error Httl); exact Hw].
  intros w1 r _ credential _ Hw1. apply ok_finish. intros value _. apply ok_finish. intros h _.
  intros request' [= <-] _. by apply IH.
Qed.

Lemma ok_sign input service region session request w :
  good w → kept input request →
  ok (applyAwsSigV4AuthInjection service region session request)
    (λ w' request', kept input request' ∧ signed_with w'.(world_answers) session service region request') w.
Proof.
  intros Hw Hrequest. unfold applyAwsSigV4AuthInjection.
  apply ok_finish. intros upstreamPort Hport. apply ok_finish. intros headers Hheaders.
  apply ok_finish. intros query Hquery.
  apply ok_bind; [done|]. apply holds_perform. intros w1 r w2 _ Hstep.
  split; [by eapply service_beside|]. intros signed -> _. apply ok_finish. intros h' Hh' request' [= <-].
  split; [done|]. exists query, (Headers.entries headers), upstreamPort, signed. split_and!.
  - simpl in Hstep. subst w2. simpl. apply elem_of_app. right. by left.
  - by apply query_bag_values.
  - rewrite entries_get. pose proof (Headers.set_get _ _ _ _ Hheaders "host") as Hhost.
    rewrite bool_decide_true in Hhost by done. unfold Headers.get in Hhost.
    change (ascii_lower "host") with "host" in Hhost. by rewrite Hhost.
  - done.
  - intros n. simpl. rewrite (signed_all_get _ _ _ n Hh'), delete_all_keys. by destruct (signed_value signed n).
Qed.

Lemma ok_inject input credential request w :
  good w → kept input request →
  ok (inject_credential input.(input_route) credential request) (λ w' request', kept input request' ∧
    carries w'.(world_answers) input.(input_route).(route_body).(authInjection) credential request') w.
Proof.
  intros Hw Hrequest. unfold inject_credential.
  set (injection := input.(input_route).(route_body).(authInjection)).
  assert (∀ injection, (∀ service region, injection ≠ AuthAwsSigv4 service region) →
    ok (secretValue ← finish (resolveValueCredential "HTTP egress auth injection" credential);
        finish (applyAuthInjection injection secretValue request))
      (λ w' request', kept input request' ∧ carries w'.(world_answers) injection credential request') w)
    as Hplain.
  { intros injection' Hinjection. apply ok_finish. intros value Hvalue.
    destruct credential as [value' expiresAt|]; [|done]. apply (inj inr) in Hvalue as ->.
    apply holds_finish. intros request' Hrequest'. by eapply applyAuthInjection_ok. }
  destruct injection as [target|target username|target prefix|target|segmentPrefix|service region];
    [by apply Hplain..|].
  apply ok_finish. intros session Hsession. destruct credential as [|accessKeyId secret token expiresAt]; [done|].
  apply (inj inr) in Hsession as <-.
  eapply holds_mono; [|by apply ok_sign]. intros w' r Hr request' Heq. destruct (Hr request' Heq) as [? ?].
  split; [done|]. by exists accessKeyId, secret, token, expiresAt.
Qed.

(** What a request that is built is. *)
Definition built (input : ManagedEgressInput) (w : egress_world S) (request : MutableManagedEgressRequest) : Prop :=
  kept input request ∧ ∃ prepared resolvers credential,
    prepare_request gateway input = inr prepared ∧
    selectCredentialResolverForRequest gateway.(gateway_registry) input.(input_organizationId)
      input.(input_sandboxInstanceId) input.(input_request).(gateway_actingUserId) input.(input_route) prepared
      = inr resolvers ∧
    carries w.(world_answers) input.(input_route).(route_body).(authInjection) credential request ∧
    selected_used gateway.(gateway_platformCredentials) input.(input_testEnvironmentId)
      input.(input_route).(route_bindingId) resolvers w credential.

Lemma carries_later w w' injection credential request :
  allowed w w' → carries w.(world_answers) injection credential request →
  carries w'.(world_answers) injection credential request.
Proof.
  intros [(_ & _ & Hevents) _]. destruct injection; [done..|].
  intros (accessKeyId & secret & token & expiresAt & -> & query & headers & upstreamPort & signed & Hanswer & Hrest).
  exists accessKeyId, secret, token, expiresAt. split; [done|]. exists query, headers, upstreamPort, signed.
  split; [|done]. exact (Hevents (Some _) Hanswer).
Qed.

Lemma selected_later w w' testEnvironmentId bindingId resolvers credential :
  allowed w w' →
  selected_used gateway.(gateway_platformCredentials) testEnvironmentId bindingId resolvers w credential →
  selected_used gateway.(gateway_platformCredentials) testEnvironmentId bindingId resolvers w' credential.
Proof.
  intros Hbeside [Hused|(fallback & Hfallback & Hused)]; [left|right; exists fallback; split; [done|]];
    by eapply used_later.
Qed.

Lemma ok_build input w :
  good w → ok (buildManagedEgressRequest gateway input) (built input) w.
Proof.
  intros Hw. unfold buildManagedEgressRequest.
  apply ok_finish. intros prepared Hprepared. apply ok_finish. intros resolvers Hresolvers.
  apply ok_bind; [done|].
  eapply holds_mono; [|apply (ok_resolveCredentialWithFallback _ _ store_error service_error Httl); exact Hw].
  intros w1 r Hused credential Hr Hw1. specialize (Hused credential Hr).
  apply ok_finish. intros h _. apply ok_bind; [done|].
  pose proof (prepare_request_kept _ _ _ Hprepared) as Hkept.
  eapply holds_mono; [|apply holds_track; [apply _|done|]; apply ok_add_credential_headers; [exact Hw1|exact Hkept]].
  intros w2 r2 [H12 Hr2] request Hrequest Hw2. specialize (Hr2 request Hrequest).
  eapply holds_mono; [|apply holds_track; [apply _|done|]; by apply ok_inject].
  intros w3 r3 [H23 Hr3] request' Hrequest'. destruct (Hr3 request' Hrequest') as [Hkept' Hcarries].
  split; [done|]. exists prepared, resolvers, credential. split_and!; [done|done|done|].
  eapply selected_later; [|exact Hused]. by etrans.
Qed.
(** *** The calls of a gateway *)

Inductive gateway_call : Type :=
| BuildCall (input : ManagedEgressInput)
| InvalidateConnectionCall (testEnvironmentId : option string) (connectionId : string).

Inductive gateway_outcome : Type :=
| BuiltRequest (request : MutableManagedEgressRequest)
| InvalidatedConnection (deletedEntryCount : nat).

Definition gateway_program (call : gateway_call) : program egress_op EgressError gateway_outcome :=
  match call with
  | BuildCall input => request ← buildManagedEgressRequest gateway input; mret (BuiltRequest request)
  | InvalidateConnectionCall testEnvironmentId connectionId =>
      count ← cached (invalidateIntegrationConnection testEnvironmentId connectionId);
      mret (InvalidatedConnection count)
  end.

Definition call_yields (call : gateway_call) (w : egress_world S) (outcome : gateway_outcome) : Prop :=
  match call, outcome with
  | BuildCall input, BuiltRequest request => built input w request
  | BuildCall _, _ => False
  | _, _ => True
  end.

Lemma gateway_call_ok call w : good w → ok (gateway_program call) (call_yields call) w.
Proof.
  intros Hw. destruct call as [input|env connectionId]; cbn [gateway_program].
  - apply ok_bind; [done|]. eapply holds_mono; [|by apply ok_build].
    intros w' r Hr request Hrequest _ outcome [= <-]. by apply Hr.
  - apply ok_bind; [done|]. apply ok_cached.
    eapply holds_mono; [|eapply (ok_invalidate _ store_error); [apply cached_step|exact Hw]].
    by intros w' r _ count _ _ outcome [= <-].
Qed.

Lemma built_later input w w' request : allowed w w' → built input w request → built input w' request.
Proof.
  intros Hbeside (Hkept & prepared & resolvers & credential & ? & ? & ? & Hused). split; [done|].
  exists prepared, resolvers, credential.
  split_and!; [done|done|by eapply carries_later|by eapply selected_later].
Qed.

Lemma gateway_history calls s0 t0 w pool i call outcome :
  (∀ key, contents s0 key = None) → 0 <= t0 <= 8640000000000000 →
  rtc (interleave step clock_ticks) (mkWorld s0 t0 [], gateway_program <$> calls) (w, pool) →
  calls !! i = Some call → pool !! i = Some (Return outcome) → call_yields call w outcome.
Proof.
  intros Hempty Ht0 Hreach Hcall Houtcome.
  assert (good (mkWorld s0 t0 [])) as Hw.
  { split; [done|]. intros key text deadline Hget. simpl in Hget. by rewrite Hempty in Hget. }
  eapply (interleaving_sound step clock_ticks allowed allowed)
    with (Post := λ i, yields (λ w outcome, ∀ call, calls !! i = Some call → call_yields call w outcome)) in Hreach.
  - destruct Hreach as [_ Hpost]. by eapply (Hpost i _ Houtcome).
  - done.
  - intros w1 w2 (Hstore & Hanswers & Hclock). apply same_store_beside; [done|lia|lia| |].
    + intros key credential. apply issued_answers. by rewrite Hanswers.
    + apply answered_later. by rewrite Hanswers.
  - intros j w1 w2 r Hbeside Hr outcome' Heq call' Hj. specialize (Hr outcome' Heq call' Hj).
    destruct call' as [input|]; [|done]. destruct outcome'; [|done]. by eapply built_later.
  - intros j p Hp. rewrite list_lookup_fmap in Hp. destruct (calls !! j) as [call'|] eqn:Hj; [|done].
    simplify_eq/=. eapply holds_mono; [|by apply gateway_call_ok].
    intros w' r Hr outcome' Heq call'' [= <-]. by apply Hr.
Qed.

(** C12: Beside any number of other requests and invalidations, with failures of the
    store and of the services at any point, a request that is built goes to the protocol and
    host of the route's upstream with the caller's method, and carries, where the route's
    injection says, a credential of the primary resolver selected for the request or of its
    fallback.  (A request signed for AWS has the headers, and only the headers, that the signer
    answered for this credential, method, URL, query and body.)  The credential is one that the
    service of a resolver answered (or the platform's own), whose cache key is that of this
    resolver for the route's binding.  When no identifier holds a colon the same key means the
    same binding, test environment and resolver. *)
Theorem managed_request calls s0 t0 w pool i input request :
  (∀ key, contents s0 key = None) → 0 <= t0 <= 8640000000000000 →
  rtc (interleave step clock_ticks) (mkWorld s0 t0 [], gateway_program <$> calls) (w, pool) →
  calls !! i = Some (BuildCall input) → pool !! i = Some (Return (BuiltRequest request)) →
  sent_to input.(input_route).(route_body).(upstream_baseUrl) request.(request_url) ∧
  request.(request_method) = input.(input_request).(gateway_method) ∧
  ∃ prepared resolvers resolver credential,
    prepare_request gateway input = inr prepared ∧
    selectCredentialResolverForRequest gateway.(gateway_registry) input.(input_organizationId)
      input.(input_sandboxInstanceId) input.(input_request).(gateway_actingUserId) input.(input_route) prepared
      = inr resolvers ∧
    (resolver = resolvers.(primaryResolver) ∨ resolvers.(fallbackResolver) = Some resolver) ∧
    carries w.(world_answers) input.(input_route).(route_body).(authInjection) credential request ∧
    ∃ testEnvironmentId bindingId resolver',
      let key := createCredentialCacheKey input.(input_testEnvironmentId) input.(input_route).(route_bindingId) resolver in
      let key' := createCredentialCacheKey testEnvironmentId bindingId resolver' in
      service_source gateway.(gateway_platformCredentials) w testEnvironmentId bindingId resolver' credential ∧
      toCacheKey key = toCacheKey key' ∧
      (plain key → plain key' →
       default "" input.(input_testEnvironmentId) = default "" testEnvironmentId ∧
       input.(input_route).(route_bindingId) = bindingId ∧ alike resolver resolver').
Proof.
  intros Hempty Ht0 Hreach Hcall Hrequest.
  destruct (gateway_history _ _ _ _ _ _ _ _ Hempty Ht0 Hreach Hcall Hrequest)
    as ([Hsent Hmethod] & prepared & resolvers & credential & Hprepared & Hresolvers & Hcarries & Hused).
  split; [done|]. split; [done|].
  assert (∃ resolver, (resolver = resolvers.(primaryResolver) ∨ resolvers.(fallbackResolver) = Some resolver) ∧
    used_for gateway.(gateway_platformCredentials) w input.(input_testEnvironmentId)
      input.(input_route).(route_bindingId) resolver credential) as (resolver & Hresolver & Hissued).
  { destruct Hused as [?|(fallback & ? & ?)]; eexists; eauto. }
  exists prepared, resolvers, resolver, credential. split_and!; [done..|].
  destruct Hissued as (env & bindingId & resolver' & Hkey & Hsource). exists env, bindingId, resolver'.
  split_and!; [done|done|]. intros. by apply cache_key_alike.
Qed.
End Built.

(** ** Concrete services *)

Definition example_route : EgressCredentialRoute :=
  mkRoute "egr_1" "bind_1" "openai" "openai-default"
    (mkBindingRoute ["api.openai.com"] None None "https://api.openai.com/v1" (AuthBearer "Authorization")
       None None (IntegrationConnectionResolver "icn_1" "api_key" None None) None).

Definition example_egress_input : ManagedEgressInput :=
  mkInput None "org_1"
    (mkGatewayRequest None "api.openai.com"
       [("Accept", ["application/json"]); ("Host", ["sandbox"]); ("CF-Ray", ["1"])] "POST" "/v1/responses" None true)
    example_route "sbi_1" None.

Definition example_gateway : @EgressGateway reference_url_objects :=
  @mkEgressGateway reference_url_objects example_config None (λ _ _, None) "https://app.example".

(** The control plane answers a token for each connection, and the other services fail. *)
Definition example_egress_answer X (op : egress_op X) (w : egress_world InMemoryCacheAdapter.t)
    : (EgressError + X) * egress_world InMemoryCacheAdapter.t :=
  match op in egress_op X return (EgressError + X) * egress_world InMemoryCacheAdapter.t with
  | Cached op => let (r, s) := cache_answer op w.(world_clock) w.(world_store) in
                 (r, mkWorld s w.(world_clock) w.(world_answers))
  | ResolveIntegrationCredential input =>
      let credential := ValueCredential ("token of " +:+ input.(integration_connectionId)) None in
      (inr credential, mkWorld w.(world_store) w.(world_clock)
                         (w.(world_answers) ++ [IntegrationAnswer input credential]))
  | _ => (inl (Rejection "unavailable"), w)
  end.

Definition any_error (_ : EgressError) : Prop := True.

Lemma example_egress_answer_step X (op : egress_op X) w :
  egress_step no_store_error any_error X op w
    (example_egress_answer X op w).1 (example_egress_answer X op w).2.
Proof.
  destruct op as [X op|input|input|claims ttl|input]; [|by destruct w..].
  pose proof (cache_answer_step (S := InMemoryCacheAdapter.t) no_store_error op w.(world_clock) w.(world_store)) as Hstep.
  unfold example_egress_answer. by destruct (cache_answer op _ _).
Qed.

Definition example_gateway_program : @gateway_call → program egress_op EgressError (@gateway_outcome reference_url_objects) :=
  @gateway_program reference_zod reference_date_parse reference_locale reference_url_objects example_gateway.

Definition two_requests : list gateway_call := [BuildCall example_egress_input; BuildCall example_egress_input].

(** The first request asks the control plane, the second one finds its credential. *)
Definition egress_run :=
  play example_egress_answer (replicate 8 0%nat ++ replicate 8 1%nat) (mkWorld JsMap.empty 1000 [])
    (example_gateway_program <$> two_requests).

Definition example_built : @MutableManagedEgressRequest reference_url_objects :=
  @mkRequest reference_url_objects None [("accept", ["application/json"]); ("authorization", ["Bearer token of icn_1"])] "POST"
    "https://api.openai.com/v1/responses".

Lemma second_request_built : egress_run.2 !! 1%nat = Some (Return (BuiltRequest example_built)).
Proof.
  vm_cast_no_check (eq_refl (Some (Return (Op := egress_op) (E := EgressError)
    (@BuiltRequest reference_url_objects example_built)))).
Qed.

Lemma managed_request_witness :
  @sent_to reference_url_objects "https://api.openai.com/v1" (request_url example_built) ∧
  request_method example_built = "POST" ∧
  ∃ credential, @carries reference_url_objects (world_answers egress_run.1) (AuthBearer "Authorization") credential example_built.
Proof.
  assert (0 <= (gateway_cache example_gateway).(defaultTtlSeconds) <= 10 ^ 11) as Httl by done.
  pose proof (play_interleave _ clock_ticks _ example_egress_answer_step (replicate 8 0%nat ++ replicate 8 1%nat)
    (mkWorld JsMap.empty 1000 []) (example_gateway_program <$> two_requests)) as Hplay.
  assert (rtc (interleave (egress_step no_store_error any_error) clock_ticks)
    (mkWorld JsMap.empty 1000 [], example_gateway_program <$> two_requests) (egress_run.1, egress_run.2)) as Hreach.
  { unfold egress_run. by destruct (play _ _ _ _). }
  destruct (@managed_request reference_zod reference_zod_laws reference_date_parse reference_date_parse_laws
    reference_locale reference_url_objects reference_url_objects_laws _ _ InMemoryCacheAdapter.laws
    no_store_error any_error example_gateway Httl two_requests JsMap.empty 1000 egress_run.1 egress_run.2 1
    example_egress_input example_built (λ _, eq_refl) ltac:(lia) Hreach eq_refl second_request_built)
    as (Hsent & Hmethod & prepared & resolvers & resolver & credential & _ & _ & _ & Hcarries & _).
  split; [exact Hsent|]. split; [exact Hmethod|]. by exists credential.
Defined.

Lemma outgoing_headers_exact_witness :
  ∃ h, buildOutgoingRequestHeaders [("Accept", ["a"; " b "]); ("Host", ["sandbox"]); ("CF-Ray", ["1"]); ("accept", ["c"])]
         false = inr h ∧ header_values h "accept" = ["a"; "b"; "c"] ∧ header_values h "host" = [].
Proof.
  set (headers := [("Accept", ["a"; " b "]); ("Host", ["sandbox"]); ("CF-Ray", ["1"]); ("accept", ["c"])]).
  assert (buildOutgoingRequestHeaders headers false = inr [("accept", ["a"; "b"; "c"])]) as Hbuild by by vm_compute.
  exists [("accept", ["a"; "b"; "c"])]. split; [exact Hbuild|]. split.
  - by rewrite (outgoing_headers_exact _ _ _ "accept" Hbuild eq_refl).
  - by rewrite (outgoing_headers_exact _ _ _ "host" Hbuild eq_refl).
Defined.

Lemma credential_segment_exact_witness :
  ∃ segment, "/bot%2Fs%3F1/sendMessage" = "/" +:+ segment +:+ "/sendMessage" ∧
    string_of_bytes (decode_component (bytes_of segment)) = "bot/s?1".
Proof.
  destruct (credential_segment_exact "/sendMessage" "/s?1" "bot" "/bot%2Fs%3F1/sendMessage")
    as (segment & Hresult & _ & Hdecode & _); [by vm_compute|].
  exists segment. split; [|exact Hdecode]. rewrite Hresult. by vm_compute.
Defined.
