(* ===== verification/OperationRecords.v ===== *)
(** * Records of sandbox operations
      (gateway/tunnel/operation-ingress/sandbox-operation-ingress-service.ts)

    A sandbox reports the progress and the output of its operations as lines of JSON.
    [parseOperationRecord] reads such a line, [payload_lines] cuts a payload into lines.

    [operation_record_roundtrip]: a line is accepted exactly when it is the JSON of an
    object whose members describe the record, and the text written for a record is read
    back as that record. *)

From S2P Require Import Prelude JsMap JsObject DataFrame Json Text.
Local Open Scope Z_scope.

(** ** Data (packages/db/src/data-plane/schema/sandbox-operation-events.ts) *)

Inductive SandboxLifecyclePhase : Type :=
| PhaseDeadline | PhaseProvider | PhaseStorageProvision | PhaseStorageAttach | PhaseSandboxd
| PhaseOperationStream | PhaseGitIdentity | PhaseEgress | PhaseRuntimePlan | PhaseSetupScript
| PhaseRuntimeProcesses | PhaseRuntimeAdapters | PhaseAgentEndpoint | PhaseReady | PhaseRunning
| PhaseSnapshot | PhaseStop | PhaseTeardown.

Inductive SandboxLifecycleStatus : Type :=
| PhaseStarted | PhaseCompleted | PhaseFailed | PhaseWarning.

Inductive SandboxOperationEventSource : Type := SourceWorker | SourceGateway | SourceSandboxd.

Inductive SandboxOperationTranscriptStream : Type := StreamStdout | StreamStderr | StreamSystem.

#[export] Instance SandboxLifecyclePhase_eq_dec : EqDecision SandboxLifecyclePhase.
Proof. solve_decision. Defined.

Definition phase_value (phase : SandboxLifecyclePhase) : string :=
  match phase with
  | PhaseDeadline => "deadline"
  | PhaseProvider => "provider"
  | PhaseStorageProvision => "storage_provision"
  | PhaseStorageAttach => "storage_attach"
  | PhaseSandboxd => "sandboxd"
  | PhaseOperationStream => "operation_stream"
  | PhaseGitIdentity => "git_identity"
  | PhaseEgress => "egress"
  | PhaseRuntimePlan => "runtime_plan"
  | PhaseSetupScript => "setup_script"
  | PhaseRuntimeProcesses => "runtime_processes"
  | PhaseRuntimeAdapters => "runtime_adapters"
  | PhaseAgentEndpoint => "agent_endpoint"
  | PhaseReady => "ready"
  | PhaseRunning => "running"
  | PhaseSnapshot => "snapshot"
  | PhaseStop => "stop"
  | PhaseTeardown => "teardown"
  end.

Definition phase_status_value (status : SandboxLifecycleStatus) : string :=
  match status with
  | PhaseStarted => "started"
  | PhaseCompleted => "completed"
  | PhaseFailed => "failed"
  | PhaseWarning => "warning"
  end.

Definition source_value (source : SandboxOperationEventSource) : string :=
  match source with
  | SourceWorker => "worker"
  | SourceGateway => "gateway"
  | SourceSandboxd => "sandboxd"
  end.

Definition transcript_stream_value (stream : SandboxOperationTranscriptStream) : string :=
  match stream with
  | StreamStdout => "stdout"
  | StreamStderr => "stderr"
  | StreamSystem => "system"
  end.

(** A [Record<string, unknown>] of [JSON.parse]. *)
Notation JsonFields := (JsMap.t string json).

Inductive OperationRecord : Type :=
| LifecycleRecord (attributes : JsonFields) (message observedAt : string)
    (phase : SandboxLifecyclePhase) (source : option SandboxOperationEventSource)
    (status : SandboxLifecycleStatus)
| TranscriptRecord (observedAt : string) (payloadBytes : list Z)
    (phase : option SandboxLifecyclePhase) (source : option SandboxOperationEventSource)
    (stream : SandboxOperationTranscriptStream).

(** ** Reading a record *)

(** The [SyntaxError] of [JSON.parse], or an [Error] with its message. *)
Inductive RecordError : Type :=
| NotJson
| RecordMessage (message : string).

Definition field_error (key problem : string) : RecordError :=
  RecordMessage ("Operation record field '" +:+ key +:+ "' " +:+ problem).

Definition readString (record : JsonFields) (key : string) : RecordError + string :=
  match JsMap.get record key with
  | Some (JString value) => inr value
  | _ => inl (field_error key "must be a string.")
  end.

Definition readNonEmptyString (record : JsonFields) (key : string) : RecordError + string :=
  value ← readString record key;
  if value =?= "" then inl (field_error key "must be non-empty.") else inr value.

Definition readOptionalNonEmptyString (record : JsonFields) (key : string)
    : RecordError + option string :=
  match JsMap.get record key with
  | None => inr None
  | Some _ => value ← readNonEmptyString record key; inr (Some value)
  end.

(** [switch (value) { case …: return value; }], then [throw]: the first of [cases] with
    that text. *)
Definition switch {A} (cases : list A) (text_of : A → string) (error : RecordError) (value : string)
    : RecordError + A :=
  match List.find (λ a, value =?= text_of a) cases with
  | Some a => inr a
  | None => inl error
  end.

Definition lifecycle_phase_cases : list SandboxLifecyclePhase :=
  [PhaseProvider; PhaseStorageProvision; PhaseStorageAttach; PhaseSandboxd; PhaseOperationStream;
   PhaseGitIdentity; PhaseEgress; PhaseRuntimePlan; PhaseSetupScript; PhaseRuntimeProcesses;
   PhaseRuntimeAdapters; PhaseAgentEndpoint; PhaseReady; PhaseRunning; PhaseSnapshot; PhaseStop;
   PhaseTeardown].

Definition readLifecyclePhase (record : JsonFields) (key : string)
    : RecordError + SandboxLifecyclePhase :=
  value ← readNonEmptyString record key;
  switch lifecycle_phase_cases phase_value (field_error key "is not a supported lifecycle phase.") value.

Definition readLifecycleStatus (record : JsonFields) (key : string)
    : RecordError + SandboxLifecycleStatus :=
  value ← readNonEmptyString record key;
  switch [PhaseStarted; PhaseCompleted; PhaseFailed; PhaseWarning] phase_status_value
    (field_error key "is not a supported lifecycle status.") value.

Definition readOptionalOperationSource (record : JsonFields) (key : string)
    : RecordError + option SandboxOperationEventSource :=
  value ← readOptionalNonEmptyString record key;
  match value with
  | None => inr None
  | Some value =>
      source ← switch [SourceWorker; SourceGateway; SourceSandboxd] source_value
        (field_error key "is not a supported source.") value;
      inr (Some source)
  end.

Definition readTranscriptStream (record : JsonFields) (key : string)
    : RecordError + SandboxOperationTranscriptStream :=
  value ← readNonEmptyString record key;
  switch [StreamStdout; StreamStderr; StreamSystem] transcript_stream_value
    (field_error key "is not a supported transcript stream.") value.

Definition readRecordAttributes (record : JsonFields) : RecordError + JsonFields :=
  match JsMap.get record "attributes" with
  | None => inr JsMap.empty
  | Some (JObject value) => inr value
  | Some _ => inl (RecordMessage "Lifecycle operation record attributes must be an object.")
  end.

(** [record[key] === text] *)
Definition field_is (record : JsonFields) (key text : string) : bool :=
  match JsMap.get record key with Some (JString value) => value =?= text | _ => false end.

Section Records.
Context `{Base64}.

Definition decodeBase64Payload (value : string) : RecordError + list Z :=
  let buffer := base64_decode value in
  if (length buffer =? 0)%nat || negb (base64_encode buffer =?= value) then
    inl (RecordMessage "Transcript operation record payloadBase64 must contain valid base64 bytes.")
  else inr buffer.

Definition parseOperationRecord (line : string) : RecordError + OperationRecord :=
  match JSON_parse line with
  | None => inl NotJson
  | Some (JObject record) =>
      if field_is record "kind" "lifecycle" then
        source ← readOptionalOperationSource record "source";
        observedAt ← readNonEmptyString record "observedAt";
        phase ← readLifecyclePhase record "phase";
        status ← readLifecycleStatus record "status";
        message ← readString record "message";
        attributes ← readRecordAttributes record;
        inr (LifecycleRecord attributes message observedAt phase source status)
      else if field_is record "kind" "transcript" then
        payloadBase64 ← readNonEmptyString record "payloadBase64";
        source ← readOptionalOperationSource record "source";
        observedAt ← readNonEmptyString record "observedAt";
        payloadBytes ← decodeBase64Payload payloadBase64;
        phase ← match JsMap.get record "phase" with
                | Some JNull => inr None
                | _ => phase ← readLifecyclePhase record "phase"; inr (Some phase)
                end;
        stream ← readTranscriptStream record "stream";
        inr (TranscriptRecord observedAt payloadBytes phase source stream)
      else inl (RecordMessage "Operation record kind must be lifecycle or transcript.")
  | Some _ => inl (RecordMessage "Operation record must be a JSON object.")
  end.

(** ** Lines of a payload *)

(** [text.split(newline)] *)
Fixpoint split_newlines (text : string) : list string :=
  match text with
  | EmptyString => [""]
  | String c text =>
      if code c =? 10 then "" :: split_newlines text
      else match split_newlines text with
           | line :: lines => String c line :: lines
           | [] => [String c ""]
           end
  end.

Definition payload_lines (payload : list Z) : list string :=
  List.filter (λ line, negb (line =?= "")) (split_newlines (TextDecoder_decode payload)).
End Records.

(** ** What a record is *)

(** The members of the object that describe the record. *)
Inductive describes `{Base64} (record : JsonFields) : OperationRecord → Prop :=
| describes_lifecycle attributes message observedAt phase source status :
    JsMap.get record "kind" = Some (JString "lifecycle") →
    JsMap.get record "source" = JString ∘ source_value <$> source →
    JsMap.get record "observedAt" = Some (JString observedAt) → observedAt ≠ "" →
    JsMap.get record "phase" = Some (JString (phase_value phase)) → phase ≠ PhaseDeadline →
    JsMap.get record "status" = Some (JString (phase_status_value status)) →
    JsMap.get record "message" = Some (JString message) →
    (JsMap.get record "attributes" = Some (JObject attributes) ∨
     JsMap.get record "attributes" = None ∧ attributes = JsMap.empty) →
    describes record (LifecycleRecord attributes message observedAt phase source status)
| describes_transcript observedAt payloadBytes phase source stream :
    JsMap.get record "kind" = Some (JString "transcript") →
    JsMap.get record "source" = JString ∘ source_value <$> source →
    JsMap.get record "observedAt" = Some (JString observedAt) → observedAt ≠ "" →
    JsMap.get record "payloadBase64" = Some (JString (base64_encode payloadBytes)) →
    bytes payloadBytes → payloadBytes ≠ [] →
    JsMap.get record "phase" = Some (from_option (JString ∘ phase_value) JNull phase) →
    phase ≠ Some PhaseDeadline →
    JsMap.get record "stream" = Some (JString (transcript_stream_value stream)) →
    describes record (TranscriptRecord observedAt payloadBytes phase source stream).

(** What [JSON.stringify] makes of a record. *)
Definition record_json `{Base64} (r : OperationRecord) : json :=
  let with_source (source : option SandboxOperationEventSource) (fields : JsonFields) :=
    fields ++ from_option (λ source, [("source", JString (source_value source))]) [] source in
  match r with
  | LifecycleRecord attributes message observedAt phase source status =>
      JObject (with_source source
        [("kind", JString "lifecycle"); ("observedAt", JString observedAt);
         ("phase", JString (phase_value phase)); ("status", JString (phase_status_value status));
         ("message", JString message); ("attributes", JObject attributes)])
  | TranscriptRecord observedAt payloadBytes phase source stream =>
      JObject (with_source source
        [("kind", JString "transcript"); ("observedAt", JString observedAt);
         ("payloadBase64", JString (base64_encode payloadBytes));
         ("phase", from_option (JString ∘ phase_value) JNull phase);
         ("stream", JString (transcript_stream_value stream))])
  end.

(** The records that can be reported: their data fits into JSON. *)
Definition record_ok (r : OperationRecord) : Prop :=
  match r with
  | LifecycleRecord attributes _ observedAt phase _ _ =>
      observedAt ≠ "" ∧ phase ≠ PhaseDeadline ∧ json_ok (JObject attributes)
  | TranscriptRecord observedAt payloadBytes phase _ _ =>
      observedAt ≠ "" ∧ bytes payloadBytes ∧ payloadBytes ≠ [] ∧ phase ≠ Some PhaseDeadline
  end.

(** ** The readers *)

Lemma readString_inr record key value :
  readString record key = inr value ↔ JsMap.get record key = Some (JString value).
Proof. unfold readString. case_match; [case_match|]; naive_solver. Qed.

Lemma readNonEmptyString_inr record key value :
  readNonEmptyString record key = inr value ↔
  JsMap.get record key = Some (JString value) ∧ value ≠ "".
Proof.
  unfold readNonEmptyString. rewrite sum_bind_inr. setoid_rewrite readString_inr.
  split; [intros (a & Ha & Hif); case_bool_decide; by simplify_eq|].
  intros [Ha Hne]. exists value. by rewrite bool_decide_false.
Qed.

(** A [switch] on a field accepts the texts of its cases. *)
Lemma switch_inr {A} (cases : list A) text_of error record key a :
  (∀ b, b ∈ cases → text_of b ≠ "") → Inj (=) (=) text_of →
  (value ← readNonEmptyString record key; switch cases text_of error value) = inr a ↔
  JsMap.get record key = Some (JString (text_of a)) ∧ a ∈ cases.
Proof.
  intros Hne Hinj. rewrite sum_bind_inr. setoid_rewrite readNonEmptyString_inr. unfold switch.
  split.
  - intros (value & [Hget _] & Hfind). destruct (List.find _ _) as [b|] eqn:Hb; [|done].
    injection Hfind as ->. apply List.find_some in Hb as [Hin Heq]. bools. subst.
    split; [done|by apply list_elem_of_In].
  - intros [Hget Hin]. exists (text_of a). split; [by auto|].
    destruct (List.find _ _) as [b|] eqn:Hb.
    + apply List.find_some in Hb as [_ Heq]. bools. by rewrite (inj text_of a b Heq).
    + apply list_elem_of_In in Hin. apply (List.find_none _ _ Hb) in Hin. by bools.
Qed.

#[export] Instance phase_value_inj : Inj (=) (=) phase_value.
Proof. by intros [] []. Qed.
#[export] Instance phase_status_value_inj : Inj (=) (=) phase_status_value.
Proof. by intros [] []. Qed.
#[export] Instance source_value_inj : Inj (=) (=) source_value.
Proof. by intros [] []. Qed.
#[export] Instance transcript_stream_value_inj : Inj (=) (=) transcript_stream_value.
Proof. by intros [] []. Qed.

Lemma readLifecyclePhase_inr record key phase :
  readLifecyclePhase record key = inr phase ↔
  JsMap.get record key = Some (JString (phase_value phase)) ∧ phase ≠ PhaseDeadline.
Proof.
  unfold readLifecyclePhase. rewrite switch_inr; [|by intros []|apply _].
  apply and_iff_compat_l. unfold lifecycle_phase_cases. split; [intros Hin ->; set_solver|].
  intros. destruct phase; [done|set_solver..].
Qed.

Lemma readLifecycleStatus_inr record key status :
  readLifecycleStatus record key = inr status ↔
  JsMap.get record key = Some (JString (phase_status_value status)).
Proof.
  unfold readLifecycleStatus. rewrite switch_inr; [|by intros []|apply _].
  split; [by intros []|]. intros. split; [done|]. destruct status; set_solver.
Qed.

Lemma readTranscriptStream_inr record key stream :
  readTranscriptStream record key = inr stream ↔
  JsMap.get record key = Some (JString (transcript_stream_value stream)).
Proof.
  unfold readTranscriptStream. rewrite switch_inr; [|by intros []|apply _].
  split; [by intros []|]. intros. split; [done|]. destruct stream; set_solver.
Qed.

Lemma readOptionalOperationSource_inr record key source :
  readOptionalOperationSource record key = inr source ↔
  JsMap.get record key = JString ∘ source_value <$> source.
Proof.
  unfold readOptionalOperationSource, readOptionalNonEmptyString.
  destruct (JsMap.get record key) as [v|] eqn:Hget; [|destruct source; naive_solver].
  pose proof (λ a, switch_inr [SourceWorker; SourceGateway; SourceSandboxd] source_value
    (field_error key "is not a supported source.") record key a
    ltac:(by intros []) source_value_inj) as Hswitch. revert Hswitch.
  destruct (readNonEmptyString record key) as [e|value]; cbn [mbind sum_bind]; intros Hswitch.
  - split; [done|]. destruct source as [source|]; [|done]. rewrite <- Hget. intros Heq.
    exfalso. assert (@inl RecordError _ e = inr source) as Hbad; [|done].
    apply Hswitch. split; [done|]. destruct source; set_solver.
  - rewrite sum_bind_inr. setoid_rewrite Hswitch. rewrite <- Hget. split.
    + intros (a & [Ha _] & [= <-]). done.
    + destruct source as [source|]; [|by rewrite Hget]. intros Heq. exists source.
      split; [|done]. split; [done|]. destruct source; set_solver.
Qed.

Lemma readRecordAttributes_inr record attributes :
  readRecordAttributes record = inr attributes ↔
  JsMap.get record "attributes" = Some (JObject attributes) ∨
  JsMap.get record "attributes" = None ∧ attributes = JsMap.empty.
Proof. unfold readRecordAttributes. case_match; [case_match|]; naive_solver. Qed.

Lemma field_is_true record key text :
  field_is record key text = true ↔ JsMap.get record key = Some (JString text).
Proof.
  unfold field_is. destruct (JsMap.get record key) as [[]|]; rewrite ?bool_decide_eq_true; naive_solver.
Qed.

(** ** Lines that JSON text is made of *)

(** A text without control characters. *)
Definition printable (s : string) : Prop := Forall (λ b, 32 <= b) (bytes_of s).

Lemma printable_app a b : printable (a +:+ b) ↔ printable a ∧ printable b.
Proof. unfold printable. by rewrite bytes_of_app, Forall_app. Qed.

Lemma printable_cons c s : printable (String c s) ↔ 32 <= code c ∧ printable s.
Proof. unfold printable. cbn [bytes_of]. by rewrite Forall_cons. Qed.

Lemma printable_empty : printable "".
Proof. constructor. Qed.

Lemma printable_byte n s : 32 <= n < 128 → printable s → printable (String (byte n) s).
Proof. intros Hn Hs. apply printable_cons. rewrite code_byte by (unfold byte_ok; lia). split; [lia|done]. Qed.

Lemma printable_number n : printable (String_of_number n).
Proof.
  assert (∀ x s, printable s → printable (pretty_N_go x s)) as Hgo.
  { intros x. induction (N.lt_wf_0 x) as [x _ IH]; intros s Hs.
    assert (x = 0 ∨ 0 < x)%N as [->|?] by lia; [by rewrite pretty_N_go_0|].
    rewrite pretty_N_go_step by done. apply IH; [by apply N.div_lt|]. apply printable_cons.
    split; [|done]. destruct (pretty_N_char_digit_code (x `mod` 10)) as [_ ->]; [by apply N.mod_lt|].
    pose proof (N2Z.is_nonneg (x `mod` 10)). lia. }
  destruct n as [|p|p].
  - apply (printable_byte 48); [done|constructor].
  - rewrite String_of_number_pos. apply Hgo, printable_empty.
  - rewrite String_of_number_neg. apply printable_cons. split; [by vm_compute|apply Hgo, printable_empty].
Qed.

(** Escapes leave no control characters. *)
Lemma printable_chars s : printable (chars_text s).
Proof.
  assert (∀ n, 0 <= n < 16 → 32 <= code (hex_code n)) as Hhex.
  { intros n Hn. unfold hex_code. destruct (n <? 10) eqn:?; bools;
      (change (32 <= code (byte (n + 48))) || change (32 <= code (byte (n + 87))));
      rewrite code_byte; unfold byte_ok; lia. }
  induction s as [|c s IH]; [by repeat constructor|]. cbn [chars_text]. cbv zeta.
  assert (0 <= code c) as Hpos by apply (code_ok c).
  repeat match goal with
  | |- context [if ?b then _ else _] => destruct b eqn:?
  end; bools; rewrite !printable_cons; split_and?; try done.
  - apply Hhex. split; [by apply Z.div_pos|apply Z.div_lt_upper_bound; lia].
  - by apply Hhex, Z.mod_pos_bound.
Qed.

Lemma printable_string_text s : printable (string_text s).
Proof. apply printable_cons. split; [by vm_compute|apply printable_chars]. Qed.

Lemma printable_comma_separated l : Forall printable l → printable (comma_separated l).
Proof.
  induction 1 as [|t l Ht Hl IH]; [constructor|]. cbn [comma_separated].
  destruct l; [done|]. rewrite !printable_app. split_and!; [done|by repeat constructor|done].
Qed.

Lemma printable_JSON v : json_ok v → printable (JSON_stringify v).
Proof.
  induction v as [|b|x|s|l IH|fields IH] using json_ind'; cbn [json_ok JSON_stringify].
  - by repeat constructor.
  - by destruct b; repeat constructor.
  - destruct x; [intros; apply printable_number|done].
  - intros _. apply printable_string_text.
  - intros Hl. rewrite !printable_app. split_and!; [by repeat constructor| |by repeat constructor].
    apply printable_comma_separated. induction IH as [|v l Hv _ IH]; constructor; naive_solver.
  - intros [_ Hl]. rewrite !printable_app. split_and!; [by repeat constructor| |by repeat constructor].
    apply printable_comma_separated. induction IH as [|f l Hf _ IH]; constructor; [|naive_solver].
    rewrite !printable_app. split_and!; [apply printable_string_text|by repeat constructor|].
    apply Hf, Hl.
Qed.

(** Lines, each with its newline. *)
Definition lines_text (lines : list string) : string :=
  foldr (λ line text, line +:+ String (char 10) text) "" lines.

Lemma split_newlines_line line text :
  printable line → split_newlines (line +:+ String (char 10) text) = line :: split_newlines text.
Proof.
  induction line as [|c line IH]; [done|]. rewrite printable_cons. intros [Hc Hline].
  change (String c line +:+ String (char 10) text) with (String c (line +:+ String (char 10) text)).
  cbn [split_newlines]. rewrite IH by done. destruct (code c =? 10) eqn:Hten; [|done].
  apply Z.eqb_eq in Hten. lia.
Qed.

Lemma split_lines_text lines :
  Forall printable lines → split_newlines (lines_text lines) = lines ++ [""].
Proof.
  induction 1 as [|line lines Hline _ IH]; [done|]. cbn [lines_text foldr].
  rewrite split_newlines_line by done. cbn [app]. by f_equal.
Qed.

Lemma well_formed_lines lines : Forall well_formed lines → well_formed (lines_text lines).
Proof.
  induction 1 as [|line lines Hline _ IH]; [apply well_formed_empty|]. cbn [lines_text foldr].
  apply well_formed_app; [done|]. by apply (well_formed_app (String (char 10) "")); [apply well_formed_ascii|].
Qed.

(** Lines of text are read back from their bytes. *)
Lemma payload_lines_text lines :
  Forall (λ line, line ≠ "" ∧ printable line ∧ well_formed line) lines →
  starts_with_byte_order_mark (lines_text lines) = false →
  payload_lines (bytes_of (lines_text lines)) = lines.
Proof.
  intros Hlines Hmark. unfold payload_lines.
  rewrite decode_well_formed; [|apply well_formed_lines; eapply Forall_impl; [exact Hlines|naive_solver]|done].
  rewrite split_lines_text by (eapply Forall_impl; [exact Hlines|naive_solver]).
  clear Hmark. induction Hlines as [|line lines [Hne _] _ IH]; [done|].
  cbn [app List.filter]. by rewrite bool_decide_false, IH by done.
Qed.

Section Exact.
Context `{Base64Laws}.

Lemma decodeBase64Payload_inr value payload :
  decodeBase64Payload value = inr payload ↔
  value = base64_encode payload ∧ bytes payload ∧ payload ≠ [].
Proof.
  unfold decodeBase64Payload. split.
  - case_match eqn:Hif; [done|]. intros [= <-]. apply orb_false_iff in Hif as [Hlen Hsame]. bools.
    split_and!; [done|apply base64_bytes|]. intros Hnil. by rewrite Hnil in Hlen.
  - intros (-> & Hbytes & Hne). rewrite base64_roundtrip, bool_decide_true by done.
    by destruct payload.
Qed.

Lemma base64_nonempty payload : bytes payload → payload ≠ [] → base64_encode payload ≠ "".
Proof.
  intros Hbytes Hne Hempty. pose proof (base64_length payload Hbytes) as Hlength.
  rewrite Hempty in Hlength. destruct payload as [|b payload]; [done|].
  pose proof (Nat.div_str_pos (length (b :: payload) + 2) 3 ltac:(simpl; lia)) as Hpos.
  cbn [String.length] in Hlength. lia.
Qed.

(** What the transcript branch reads as the phase. *)
Lemma optional_phase_inr record phase :
  match JsMap.get record "phase" with
  | Some JNull => inr None
  | _ => phase ← readLifecyclePhase record "phase"; inr (Some phase)
  end = inr phase ↔
  JsMap.get record "phase" = Some (from_option (JString ∘ phase_value) JNull phase) ∧
  phase ≠ Some PhaseDeadline.
Proof.
  transitivity (JsMap.get record "phase" = Some JNull ∧ phase = None ∨
    ∃ p, readLifecyclePhase record "phase" = inr p ∧ phase = Some p).
  - destruct (JsMap.get record "phase") as [[]|] eqn:Hget; rewrite ?sum_bind_inr;
      try naive_solver.
    split; [intros [= <-]; by left|]. intros [[_ ->]|(p & Hp & ->)]; [done|].
    apply readLifecyclePhase_inr in Hp as [? _]. congruence.
  - setoid_rewrite readLifecyclePhase_inr. destruct phase; simpl; naive_solver.
Qed.

#[local] Opaque readString readNonEmptyString readLifecyclePhase readLifecycleStatus
  readOptionalOperationSource readTranscriptStream readRecordAttributes decodeBase64Payload.

Lemma parse_describes record r line :
  JSON_parse line = Some (JObject record) →
  parseOperationRecord line = inr r ↔ describes record r.
Proof.
  intros Hparse. unfold parseOperationRecord. rewrite Hparse.
  destruct (field_is record "kind" "lifecycle") eqn:Hlife; [|destruct (field_is record "kind" "transcript") eqn:Htrans].
  - apply field_is_true in Hlife. repeat setoid_rewrite sum_bind_inr.
    setoid_rewrite readOptionalOperationSource_inr. setoid_rewrite readNonEmptyString_inr.
    setoid_rewrite readLifecyclePhase_inr. setoid_rewrite readLifecycleStatus_inr.
    setoid_rewrite readString_inr. setoid_rewrite readRecordAttributes_inr.
    split; [|inversion 1; simplify_eq; naive_solver].
    intros (? & ? & ? & [? ?] & ? & [? ?] & ? & ? & ? & ? & ? & ? & [= <-]). by constructor.
  - apply field_is_true in Htrans. repeat setoid_rewrite sum_bind_inr.
    setoid_rewrite readOptionalOperationSource_inr. setoid_rewrite readNonEmptyString_inr.
    setoid_rewrite decodeBase64Payload_inr. setoid_rewrite optional_phase_inr.
    setoid_rewrite readTranscriptStream_inr. split.
    + intros (? & [? ?] & ? & ? & ? & [? ?] & ? & (-> & ? & ?) & ? & [? ?] & ? & ? & [= <-]).
      by constructor.
    + inversion 1 as [|observedAt payload phase source stream]; simplify_eq.
      exists (base64_encode payload). split; [split; [done|]|by naive_solver].
      by apply base64_nonempty.
  - split; [done|]. pose proof (proj2 (field_is_true record "kind" "lifecycle")) as Hl.
    pose proof (proj2 (field_is_true record "kind" "transcript")) as Ht.
    inversion 1; naive_solver congruence.
Qed.

Ltac plain_keys :=
  cbn [app from_option]; repeat (apply Forall_cons; split; [reflexivity|]); apply Forall_nil.

(** Every record is described by an object that survives its text. *)
Lemma record_json_describes r :
  record_ok r → ∃ record, record_json r = JObject record ∧ json_ok (JObject record) ∧ describes record r.
Proof.
  destruct r as [attributes message observedAt phase source status|observedAt payload phase source stream];
    cbn [record_ok].
  - intros (Hobs & Hphase & Hattr). eexists. split; [reflexivity|].
    split; [|destruct source; constructor; try done; by left].
    destruct source; (split; [split; [by apply (bool_decide_unpack _)|by plain_keys]|]);
      cbn; do 5 (split; [done|]); (split; [exact Hattr|by split_and?]).
  - intros (Hobs & Hbytes & Hne & Hphase). eexists. split; [reflexivity|].
    split; [|destruct source; by constructor].
    destruct source; (split; [split; [by apply (bool_decide_unpack _)|by plain_keys]|]);
      destruct phase; cbn; by split_and!.
Qed.

Lemma record_line_ok r :
  record_ok r → json_well_formed (record_json r) →
  let line := JSON_stringify (record_json r) in line ≠ "" ∧ printable line ∧ well_formed line.
Proof.
  intros (record & Heq & Hok & _)%record_json_describes Hwf. rewrite Heq in *.
  split; [done|]. split; [by apply printable_JSON|by apply well_formed_JSON].
Qed.

Lemma parse_record_json r :
  record_ok r → parseOperationRecord (JSON_stringify (record_json r)) = inr r.
Proof.
  intros (record & Heq & Hok & Hr)%record_json_describes. rewrite Heq.
  apply (parse_describes record); [by apply JSON_roundtrip|done].
Qed.

(** The bytes of a payload that reports [records], a line each. *)
Definition records_payload (records : list OperationRecord) : list Z :=
  bytes_of (lines_text (JSON_stringify ∘ record_json <$> records)).

Lemma records_payload_lines records :
  Forall record_ok records → Forall (json_well_formed ∘ record_json) records →
  payload_lines (records_payload records) = JSON_stringify ∘ record_json <$> records.
Proof.
  intros Hok Hwf. apply payload_lines_text.
  - apply Forall_fmap, Forall_forall. rewrite Forall_forall in Hok, Hwf. intros r Hr.
    apply record_line_ok; [by apply Hok|by apply Hwf].
  - destruct Hok as [|r records (record & Heq & _)%record_json_describes _]; [done|].
    cbn [fmap list_fmap lines_text foldr compose]. by rewrite Heq.
Qed.

(** C38: A line is accepted exactly when it is the JSON of an object whose members describe
    the record: its kind, an observation time that is not empty, a phase other than
    the worker's deadline, a status or the canonical base64 of some bytes.  Every list
    of such records can be sent: cut into lines, and each line parsed, the payload with
    the text [JSON.stringify] writes for each of them gives the records again. *)
Theorem operation_record_roundtrip :
  (∀ line r, parseOperationRecord line = inr r ↔
     ∃ record, JSON_parse line = Some (JObject record) ∧ describes record r) ∧
  (∀ records, Forall record_ok records → Forall (json_well_formed ∘ record_json) records →
     try_map parseOperationRecord (payload_lines (records_payload records)) = inr records).
Proof.
  split.
  - intros line r. split.
    + intros Hr. destruct (JSON_parse line) as [[]|] eqn:Hparse;
        try (unfold parseOperationRecord in Hr; rewrite Hparse in Hr; done).
      eexists. split; [done|]. by eapply parse_describes.
    + intros (record & Hparse & Hr). by eapply parse_describes.
  - intros records Hok Hwf. rewrite records_payload_lines by done.
    apply try_map_inr, Forall2_fmap_l, Forall_Forall2_diag.
    eapply Forall_impl; [exact Hok|]. intros r Hr. by apply parse_record_json.
Qed.
End Exact.

(** A line of output and the end of the operation. *)
Definition demo_records : list OperationRecord :=
  [TranscriptRecord "2026-01-01T00:00:00Z" [104; 105; 10] (Some PhaseSetupScript) None StreamStdout;
   LifecycleRecord [("exitCode", JNumber (Int 0))] "done" "2026-01-01T00:00:01Z" PhaseReady
     (Some SourceSandboxd) PhaseCompleted].

Lemma operation_record_roundtrip_witness :
  try_map (parseOperationRecord (H := reference_base64))
    (payload_lines (records_payload (H := reference_base64) demo_records)) = inr demo_records.
Proof.
  apply (operation_record_roundtrip (H := reference_base64)).
  - repeat constructor; try done; by apply (bool_decide_unpack _); vm_compute.
  - by repeat constructor.
Defined.
