(* ===== verification/OperationEvents.v ===== *)
(** * The events of sandbox operations in the database
      (packages/db/src/data-plane/sandbox-operation-event-writer.ts)

    The gateway and the workers store the events of an operation with
    [insertSandboxOperationEvent], a transaction that numbers them.  Any number of them
    run beside each other: [event_step] is one statement of one of them, and it may fail
    at any statement.  Of the database it says what is documented: a statement sees the
    committed rows (READ COMMITTED), and [pg_advisory_xact_lock] waits until no other
    transaction holds the lock, which the end of a transaction releases.  The lock is
    taken on a hash of the operation; nothing is assumed of the hash.

    [operation_events_numbered]: the committed events of every operation are numbered
    from 1, without gaps and in the order in which they were committed, and they are
    those of the transactions that have succeeded. *)

From S2P Require Import Prelude JsMap Json OperationRecords.
Local Open Scope Z_scope.

Inductive SandboxOperationEventRecordKind : Type := RecordKindLifecycle | RecordKindTranscript.

Record InsertSandboxOperationEventInput : Type := mkEventInput {
  event_attributes : JsonFields;
  event_message : string;
  event_observedAt : string;
  event_operationId : string;
  event_operationKind : string;
  event_payloadBytes : option (list Z);
  event_phase : option SandboxLifecyclePhase;
  event_recordKind : SandboxOperationEventRecordKind;
  event_sandboxInstanceId : string;
  event_source : SandboxOperationEventSource;
  event_status : option SandboxLifecycleStatus;
  event_stream : option SandboxOperationTranscriptStream;
}.

(** A row of [sandboxOperationEvents], without its id and creation time. *)
Record SandboxOperationEventRow : Type := mkEventRow {
  row_event : InsertSandboxOperationEventInput;
  row_sequence : Z;
}.

(** The operation an event belongs to, by the columns the writer selects on. *)
Definition event_operation (event : InsertSandboxOperationEventInput) : string * string :=
  (event.(event_sandboxInstanceId), event.(event_operationId)).

Definition operation_rows (operation : string * string) (rows : list SandboxOperationEventRow)
    : list SandboxOperationEventRow :=
  List.filter (λ row, event_operation row.(row_event) =?= operation) rows.

(** [orderBy: desc(sequence)] *)
Definition by_sequence_desc (a b : SandboxOperationEventRow) : Z :=
  b.(row_sequence) - a.(row_sequence).

Definition readNextSandboxOperationSequence (operation : string * string)
    (rows : list SandboxOperationEventRow) : Z :=
  let lastEvent := head (sort by_sequence_desc (operation_rows operation rows)) in
  default 0 (row_sequence <$> lastEvent) + 1.

(** Where a transaction stands: what its next statement is, or how it has ended. *)
Inductive TransactionStatus : Type :=
| BeforeLock
| BeforeRead
| BeforeInsert (nextSequence : Z)
| BeforeCommit (nextSequence : Z)
| Committed (sequence : Z)
| RolledBack.

Record EventTransaction : Type := mkEventTransaction {
  transaction_input : InsertSandboxOperationEventInput;
  transaction_progress : TransactionStatus;
}.

(** [advisory_locks] has the transaction that holds a lock. *)
Record EventStore : Type := mkEventStore {
  committed_rows : list SandboxOperationEventRow;
  advisory_locks : gmap Z nat;
  event_transactions : list EventTransaction;
}.

Section Writers.
Context (hashtext : string → Z).

Definition operation_lock (input : InsertSandboxOperationEventInput) : Z :=
  hashtext (input.(event_sandboxInstanceId) +:+ ":" +:+ input.(event_operationId)).

Definition progress (i : nat) (t : EventTransaction) (status : TransactionStatus) (s : EventStore)
    : list EventTransaction :=
  <[i := mkEventTransaction t.(transaction_input) status]> s.(event_transactions).

Definition acquireSandboxOperationEventSequenceLock (i : nat) (t : EventTransaction) (s : EventStore)
    : EventStore :=
  mkEventStore s.(committed_rows) (<[operation_lock t.(transaction_input) := i]> s.(advisory_locks))
    (progress i t BeforeRead s).

Definition read_sequence (i : nat) (t : EventTransaction) (s : EventStore) : EventStore :=
  let nextSequence :=
    readNextSandboxOperationSequence (event_operation t.(transaction_input)) s.(committed_rows) in
  mkEventStore s.(committed_rows) s.(advisory_locks) (progress i t (BeforeInsert nextSequence) s).

(** The row is the transaction's own until it commits. *)
Definition insert_row (i : nat) (t : EventTransaction) (nextSequence : Z) (s : EventStore) : EventStore :=
  mkEventStore s.(committed_rows) s.(advisory_locks) (progress i t (BeforeCommit nextSequence) s).

Definition commit_row (i : nat) (t : EventTransaction) (sequence : Z) (s : EventStore) : EventStore :=
  mkEventStore (s.(committed_rows) ++ [mkEventRow t.(transaction_input) sequence])
    (delete (operation_lock t.(transaction_input)) s.(advisory_locks))
    (progress i t (Committed sequence) s).

(** A transaction that fails gives its lock back if it has it. *)
Definition rollback (i : nat) (t : EventTransaction) (s : EventStore) : EventStore :=
  mkEventStore s.(committed_rows) (filter (λ l, l.2 ≠ i) s.(advisory_locks))
    (progress i t RolledBack s).

Definition ended (status : TransactionStatus) : bool :=
  match status with Committed _ | RolledBack => true | _ => false end.

Inductive event_step (s : EventStore) : EventStore → Prop :=
| step_begin input :
    event_step s (mkEventStore s.(committed_rows) s.(advisory_locks)
      (s.(event_transactions) ++ [mkEventTransaction input BeforeLock]))
| step_lock i t :
    s.(event_transactions) !! i = Some t → t.(transaction_progress) = BeforeLock →
    s.(advisory_locks) !! operation_lock t.(transaction_input) = None →
    event_step s (acquireSandboxOperationEventSequenceLock i t s)
| step_read i t :
    s.(event_transactions) !! i = Some t → t.(transaction_progress) = BeforeRead →
    event_step s (read_sequence i t s)
| step_insert i t nextSequence :
    s.(event_transactions) !! i = Some t → t.(transaction_progress) = BeforeInsert nextSequence →
    event_step s (insert_row i t nextSequence s)
| step_commit i t sequence :
    s.(event_transactions) !! i = Some t → t.(transaction_progress) = BeforeCommit sequence →
    event_step s (commit_row i t sequence s)
| step_rollback i t :
    s.(event_transactions) !! i = Some t → ended t.(transaction_progress) = false →
    event_step s (rollback i t s).

Definition event_store (rows : list SandboxOperationEventRow) : EventStore := mkEventStore rows ∅ [].

(** ** Theorems *)

(** The events of every operation are numbered from 1 in their order. *)
Definition numbered (rows : list SandboxOperationEventRow) : Prop :=
  ∀ operation, row_sequence <$> operation_rows operation rows =
    seqZ 1 (Z.of_nat (length (operation_rows operation rows))).

(** The row of a transaction that has succeeded. *)
Definition committed_row (t : EventTransaction) : option SandboxOperationEventRow :=
  match t.(transaction_progress) with
  | Committed sequence => Some (mkEventRow t.(transaction_input) sequence)
  | _ => None
  end.

Definition next_number (rows : list SandboxOperationEventRow) (input : InsertSandboxOperationEventInput) : Z :=
  Z.of_nat (length (operation_rows (event_operation input) rows)) + 1.

(** What a transaction that has taken its lock relies on. *)
Definition transaction_ok (s : EventStore) (i : nat) (t : EventTransaction) : Prop :=
  match t.(transaction_progress) with
  | BeforeLock | Committed _ | RolledBack => True
  | BeforeRead => s.(advisory_locks) !! operation_lock t.(transaction_input) = Some i
  | BeforeInsert n | BeforeCommit n =>
      s.(advisory_locks) !! operation_lock t.(transaction_input) = Some i ∧
      n = next_number s.(committed_rows) t.(transaction_input)
  end.

Record events_ok (rows : list SandboxOperationEventRow) (s : EventStore) : Prop := mkEventsOk {
  eok_numbered : numbered s.(committed_rows);
  eok_rows : s.(committed_rows) ≡ₚ rows ++ omap committed_row s.(event_transactions);
  eok_transactions : ∀ i t, s.(event_transactions) !! i = Some t → transaction_ok s i t;
}.

Lemma by_sequence_consistent : consistent by_sequence_desc.
Proof. unfold by_sequence_desc. split; intros; lia. Qed.

(** On numbered rows the next number is free. *)
Lemma next_sequence_spec rows input :
  numbered rows →
  readNextSandboxOperationSequence (event_operation input) rows = next_number rows input.
Proof.
  intros Hnum. specialize (Hnum (event_operation input)). unfold readNextSandboxOperationSequence, next_number.
  set (l := operation_rows _ _) in *. clearbody l. f_equal.
  pose proof (sort_in_order by_sequence_desc l by_sequence_consistent) as Hsorted.
  pose proof (λ row, elem_of_sort by_sequence_desc row l) as Hin.
  assert (∀ n, n ∈ row_sequence <$> l ↔ 1 <= n <= Z.of_nat (length l)) as Hmem.
  { intros n. rewrite Hnum, elem_of_seqZ. lia. }
  destruct (sort by_sequence_desc l) as [|row rows'] eqn:Hsort.
  { destruct l as [|row l]; [done|]. by assert (row ∈ []) as ?%elem_of_nil by (apply Hin; left). }
  cbn [head fmap option_fmap option_map default from_option id].
  assert (row_sequence row ∈ row_sequence <$> l) as Hrow.
  { apply list_elem_of_fmap. exists row. split; [done|]. apply Hin. left. }
  apply Hmem in Hrow. assert (Z.of_nat (length l) ∈ row_sequence <$> l) as (last & Hlen & Hlast)%list_elem_of_fmap
    by (apply Hmem; lia).
  apply Hin in Hlast. rewrite elem_of_cons in Hlast.
  apply StronglySorted_inv in Hsorted as [_ Hall]. rewrite Forall_forall in Hall.
  destruct Hlast as [<-|Hlast]; [lia|]. specialize (Hall _ Hlast). unfold by_sequence_desc in Hall. lia.
Qed.

Lemma operation_rows_app operation rows row :
  operation_rows operation (rows ++ [row]) =
  operation_rows operation rows ++ (if event_operation row.(row_event) =?= operation then [row] else []).
Proof. unfold operation_rows. by rewrite List.filter_app. Qed.

Lemma numbered_app rows input :
  numbered rows → numbered (rows ++ [mkEventRow input (next_number rows input)]).
Proof.
  intros Hnum operation. rewrite operation_rows_app. cbn [row_event].
  destruct (decide (event_operation input = operation)) as [<-|Hne].
  - rewrite bool_decide_true by done. rewrite fmap_app, Hnum, length_app. cbn [fmap list_fmap row_sequence length].
    unfold next_number. rewrite Nat2Z.inj_add, seqZ_app by lia. f_equal. rewrite seqZ_cons, seqZ_nil by lia. f_equal. lia.
  - rewrite bool_decide_false by done. by rewrite app_nil_r.
Qed.

(** What the step of a transaction changes: the transaction, and what the others rely on. *)
Lemma transactions_progress s s' i t status :
  s.(event_transactions) !! i = Some t → s'.(event_transactions) = progress i t status s →
  transaction_ok s' i (mkEventTransaction t.(transaction_input) status) →
  (∀ j t', j ≠ i → s.(event_transactions) !! j = Some t' → transaction_ok s j t' → transaction_ok s' j t') →
  (∀ j t', s.(event_transactions) !! j = Some t' → transaction_ok s j t') →
  ∀ j t', s'.(event_transactions) !! j = Some t' → transaction_ok s' j t'.
Proof.
  intros Hi -> Hnew Hother Hok j t'. unfold progress. destruct (decide (i = j)) as [<-|Hne].
  - rewrite list_lookup_insert_eq by (by eapply lookup_lt_Some). by intros [= <-].
  - rewrite list_lookup_insert_ne by done. eauto.
Qed.

(** A transaction relies on its lock and on the rows of its operation. *)
Lemma transaction_ok_kept s s' i t :
  (∀ k, s.(advisory_locks) !! k = Some i → s'.(advisory_locks) !! k = Some i) →
  (s.(advisory_locks) !! operation_lock t.(transaction_input) = Some i →
   next_number s'.(committed_rows) t.(transaction_input) = next_number s.(committed_rows) t.(transaction_input)) →
  transaction_ok s i t → transaction_ok s' i t.
Proof.
  intros Hlocks Hrows. unfold transaction_ok. destruct t.(transaction_progress); [done|by auto|..|done|done];
    (intros [Hl ->]; split; [by apply Hlocks|by rewrite Hrows]).
Qed.

(** Two transactions on the same operation do not both hold the lock. *)
Lemma next_number_other s i j t t' sequence :
  j ≠ i → s.(advisory_locks) !! operation_lock t.(transaction_input) = Some i →
  s.(advisory_locks) !! operation_lock t'.(transaction_input) = Some j →
  next_number (s.(committed_rows) ++ [mkEventRow t.(transaction_input) sequence]) t'.(transaction_input) =
  next_number s.(committed_rows) t'.(transaction_input).
Proof.
  intros Hne Hi Hj. unfold next_number. rewrite operation_rows_app. cbn [row_event].
  rewrite bool_decide_false; [by rewrite app_nil_r|]. intros Heq. apply Hne.
  assert (operation_lock t.(transaction_input) = operation_lock t'.(transaction_input)) as Hsame.
  { unfold operation_lock. injection Heq as -> ->. done. }
  rewrite Hsame in Hi. congruence.
Qed.

(** The rows of the transactions that have succeeded. *)
Lemma committed_progress s i t status :
  s.(event_transactions) !! i = Some t → ended t.(transaction_progress) = false →
  omap committed_row (progress i t status s) ≡ₚ
  omap committed_row s.(event_transactions) ++
    option_list (committed_row (mkEventTransaction t.(transaction_input) status)).
Proof.
  intros Hi Hend. unfold progress. pose proof (lookup_lt_Some _ _ _ Hi) as Hlt.
  rewrite insert_take_drop by done. rewrite <-(take_drop_middle _ _ _ Hi) at 3.
  rewrite !omap_app. cbn [omap list_omap].
  assert (committed_row t = None) as -> by (unfold committed_row; by destruct t.(transaction_progress)).
  destruct (committed_row _); cbn [option_list]; [|by rewrite app_nil_r].
  etransitivity; [symmetry; apply Permutation_middle|apply Permutation_cons_append].
Qed.

Lemma events_ok_unchanged rows s i t status :
  events_ok rows s → s.(event_transactions) !! i = Some t → ended t.(transaction_progress) = false →
  ended status = false ∨ status = RolledBack →
  s.(committed_rows) ≡ₚ rows ++ omap committed_row (progress i t status s).
Proof.
  intros [_ Hrows _] Hi Hend Hstatus. rewrite (committed_progress s i t status Hi Hend), Hrows.
  assert (committed_row (mkEventTransaction t.(transaction_input) status) = None) as ->
    by (unfold committed_row; by destruct status, Hstatus).
  cbn [option_list]. by rewrite app_nil_r.
Qed.

Lemma event_step_ok rows s s' : events_ok rows s → event_step s s' → events_ok rows s'.
Proof.
  intros Hok Hstep. pose proof Hok as [Hnum Hrows Htrans].
  destruct Hstep as [input|i t Hi Hp Hfree|i t Hi Hp|i t n Hi Hp|i t n Hi Hp|i t Hi Hend].
  - split; cbn; [done|by rewrite omap_app; cbn; rewrite app_nil_r|].
    intros j t [Hj|[_ Hj]]%lookup_app_Some; [by apply (Htrans j t Hj)|].
    destruct (j - _)%nat; simplify_eq/=. done.
  - split; [done|eapply (events_ok_unchanged rows s i t); [done..|by rewrite Hp|by auto]|].
    eapply transactions_progress; [done|reflexivity|apply lookup_insert_eq| |done].
    intros j t' Hne Hj. apply transaction_ok_kept; [|done]. intros k Hk.
    cbn [advisory_locks acquireSandboxOperationEventSequenceLock].
    rewrite lookup_insert_ne; [done|]. intros <-. congruence.
  - split; [done|eapply (events_ok_unchanged rows s i t); [done..|by rewrite Hp|by auto]|].
    eapply transactions_progress; [done|reflexivity| |by intros; eapply transaction_ok_kept|done].
    specialize (Htrans i t Hi). unfold transaction_ok in *. rewrite Hp in Htrans.
    split; [done|by apply next_sequence_spec].
  - split; [done|eapply (events_ok_unchanged rows s i t); [done..|by rewrite Hp|by auto]|].
    eapply transactions_progress; [done|reflexivity| |by intros; eapply transaction_ok_kept|done].
    specialize (Htrans i t Hi). unfold transaction_ok in *. by rewrite Hp in Htrans.
  - pose proof (Htrans i t Hi) as Hlock. unfold transaction_ok in Hlock. rewrite Hp in Hlock.
    destruct Hlock as [Hlock ->]. split.
    + by apply numbered_app.
    + cbn [committed_rows event_transactions commit_row].
      rewrite committed_progress by (done || by rewrite Hp). rewrite (assoc_L (++)). by apply Permutation_app.
    + eapply transactions_progress; [done|reflexivity|done| |done].
      intros j t' Hne Hj Ht'. apply (transaction_ok_kept s); [| |done].
      * intros k Hk. cbn [advisory_locks commit_row]. rewrite lookup_delete_ne; [done|]. intros <-. congruence.
      * intros Hl. by eapply next_number_other.
  - split; [done|eapply (events_ok_unchanged rows s i t); by auto|].
    eapply transactions_progress; [done|reflexivity|done| |done].
    intros j t' Hne Hj. apply transaction_ok_kept; [|done]. intros k Hk. cbn [advisory_locks rollback].
    by apply map_lookup_filter_Some.
Qed.

(** C21: However the transactions of concurrent writers interleave and fail, the committed
    events of every operation are numbered 1, 2, 3, … in the order in which they were
    committed; and the rows added to the table are, with their numbers, the events of
    exactly the transactions that have succeeded.  Two operations with the same hash
    only wait for each other. *)
Theorem operation_events_numbered (rows : list SandboxOperationEventRow) (s : EventStore) :
  numbered rows → rtc event_step (event_store rows) s →
  (∀ operation, row_sequence <$> operation_rows operation s.(committed_rows) =
     seqZ 1 (Z.of_nat (length (operation_rows operation s.(committed_rows))))) ∧
  s.(committed_rows) ≡ₚ rows ++ omap committed_row s.(event_transactions).
Proof.
  intros Hnum Hreach. assert (events_ok rows s) as [Hnumbered Hrows _]; [|by split].
  assert (events_ok rows (event_store rows)) as Hstart by (split; [done|by rewrite app_nil_r|done]).
  clear Hnum. induction Hreach; eauto using event_step_ok.
Qed.
End Writers.

Definition demo_event (message : string) : InsertSandboxOperationEventInput :=
  mkEventInput JsMap.empty message "2026-01-01T00:00:00Z" "op1" "start" None (Some PhaseReady)
    RecordKindLifecycle "sbi1" SourceSandboxd (Some PhaseCompleted) None.

(** Two writers at once: the second takes the lock when the first has committed. *)
Lemma two_writers : ∃ s, rtc (event_step (λ _, 0)) (event_store []) s ∧
  s.(committed_rows) = [mkEventRow (demo_event "a") 1; mkEventRow (demo_event "b") 2].
Proof.
  eexists. split.
  - do 2 (eapply rtc_l; [by apply step_begin|]).
    eapply rtc_l; [by apply (step_lock _ _ 0%nat (mkEventTransaction (demo_event "a") BeforeLock))|].
    eapply rtc_l; [by apply (step_read _ _ 0%nat (mkEventTransaction (demo_event "a") BeforeRead))|].
    eapply rtc_l; [by apply (step_insert _ _ 0%nat (mkEventTransaction (demo_event "a") (BeforeInsert 1)))|].
    eapply rtc_l; [by apply (step_commit _ _ 0%nat (mkEventTransaction (demo_event "a") (BeforeCommit 1)))|].
    eapply rtc_l; [by apply (step_lock _ _ 1%nat (mkEventTransaction (demo_event "b") BeforeLock))|].
    eapply rtc_l; [by apply (step_read _ _ 1%nat (mkEventTransaction (demo_event "b") BeforeRead))|].
    eapply rtc_l; [by apply (step_insert _ _ 1%nat (mkEventTransaction (demo_event "b") (BeforeInsert 2)))|].
    eapply rtc_l; [by apply (step_commit _ _ 1%nat (mkEventTransaction (demo_event "b") (BeforeCommit 2)))|].
    apply rtc_refl.
  - reflexivity.
Qed.

Lemma operation_events_numbered_witness : ∃ s, rtc (event_step (λ _, 0)) (event_store []) s ∧
  row_sequence <$> operation_rows ("sbi1", "op1") s.(committed_rows) = seqZ 1 2.
Proof.
  destruct two_writers as (s & Hreach & Hrows). exists s. split; [exact Hreach|].
  destruct (operation_events_numbered (λ _, 0) [] s ltac:(done) Hreach) as [-> _]. by rewrite Hrows.
Defined.
