(* ===== verification/OperationIngress.v ===== *)
(** * The operation ingress service
      (gateway/tunnel/operation-ingress/sandbox-operation-ingress-service.ts)

    The service keeps a session per bootstrap connection (FlowControl.v), reads the
    records a sandbox sends on its streams (OperationRecords.v) and stores them as events
    of the operation (OperationEvents.v), at most [MaxPersistedTranscriptBytesPerOperation]
    bytes of output while a stream of the operation is open.

    Deliveries are programs that run beside each other (Programs.v): a [Turn] is code that
    runs in one piece, and a delivery waits for the one before it on its connection
    and for the database, which may fail.  Session objects are shared, so there is a
    heap of them; [operation_effects] records what the service has asked for, opened, sent and
    cleared, in order.

    [transcript_budget]: in any interleaving the output stored for an operation since its
    budget was last cleared is what the counter says and within the limit, in all it is within the
    limit for every stream opened for the operation, and every event comes from a line a sandbox has
    sent for an operation it has opened.  Its proof keeps [service_good] through every turn.
    [reported_records_stored]: a payload of records that fits is stored record by record.
    [failed_data_resets]: the stream of some data stays open exactly when no line was bad and the
    database has accepted every event; otherwise it is closed with one reset. *)

From S2P Require Import Prelude JsMap DataFrame Json Text FlowControl OperationRecords OperationEvents Programs.
Local Open Scope Z_scope.

(** The kinds of [OperationDelivery]. *)
Inductive OperationDelivery : Type :=
| OperationOpenDelivery (input : OpenOperationInput)
| OperationCloseDelivery (streamId : Z)
| OperationDataDelivery (payload : list Z) (streamId : Z)
| OperationInvalidDataDelivery (payloadKind streamId : Z).

Record SessionKeyInput : Type := mkSessionKey {
  key_relaySessionId : string;
  key_sandboxInstanceId : string;
}.

Definition toSessionKey (input : SessionKeyInput) : string :=
  input.(key_sandboxInstanceId) +:+ ":" +:+ input.(key_relaySessionId).

Definition MaxOperationRecordBytes : Z := 64 * 1024.
Definition MaxPersistedTranscriptBytesPerOperation : Z := 1024 * 1024.

(** [`${sandboxInstanceId}:${operationId}`] *)
Definition operationKey (sandboxInstanceId : string) (info : OperationInfo) : string :=
  sandboxInstanceId +:+ ":" +:+ info.(operationId).

(** A call of [insertSandboxOperationEvent], a stream that was opened, a message sent on a
    connection, and the deletions from the map of budgets. *)
Inductive OperationEffect : Type :=
| EventStored (event : InsertSandboxOperationEventInput)
| StreamOpened (connection : SessionKeyInput) (operation : OperationInfo)
| ControlSent (connection : SessionKeyInput) (message : IngressControlMessage)
| BudgetCleared (operationKey : string)
| BudgetsDropped.

Inductive OperationIngressError : Type :=
| InvalidFrame (message : string)
| InvalidRecord (error : RecordError)
| InsertRejected.

(** [#sessions] refers into [session_heap], [#deliveryChains] into [deliveries], which has
    for every delivery whether its promise has settled. *)
Record SandboxOperationIngressService : Type := mkOperationService {
  session_heap : gmap nat BootstrapOperationSession;
  deliveries : list bool;
  deliveryChains : JsMap.t string nat;
  operation_sessions : JsMap.t string nat;
  persistedTranscriptBytesByOperation : JsMap.t string Z;
  operation_effects : list OperationEffect;
}.

Notation Service := SandboxOperationIngressService.

Definition new_operation_service : Service :=
  mkOperationService ∅ [] JsMap.empty JsMap.empty JsMap.empty [].

Definition with_heap (heap : gmap nat BootstrapOperationSession) (s : Service) : Service :=
  mkOperationService heap s.(deliveries) s.(deliveryChains) s.(operation_sessions)
    s.(persistedTranscriptBytesByOperation) s.(operation_effects).
Definition with_deliveries (l : list bool) (chains : JsMap.t string nat) (s : Service) : Service :=
  mkOperationService s.(session_heap) l chains s.(operation_sessions)
    s.(persistedTranscriptBytesByOperation) s.(operation_effects).
Definition with_sessions (sessions : JsMap.t string nat) (s : Service) : Service :=
  mkOperationService s.(session_heap) s.(deliveries) s.(deliveryChains) sessions
    s.(persistedTranscriptBytesByOperation) s.(operation_effects).
Definition with_budgets (budgets : JsMap.t string Z) (effect : option OperationEffect) (s : Service)
    : Service :=
  mkOperationService s.(session_heap) s.(deliveries) s.(deliveryChains) s.(operation_sessions)
    budgets (s.(operation_effects) ++ option_list effect).

Definition session_at (ref : nat) (s : Service) : BootstrapOperationSession :=
  default (new_operation_session DefaultStreamWindowBytes OperationWindowGrantBatchBytes)
    (s.(session_heap) !! ref).
Definition put_session (ref : nat) (session : BootstrapOperationSession) (s : Service) : Service :=
  with_heap (<[ref := session]> s.(session_heap)) s.

(** A method of the session object [ref]. *)
Definition on_session {A} (ref : nat) (method : BootstrapOperationSession → A * BootstrapOperationSession)
    (s : Service) : A * Service :=
  let (a, session) := method (session_at ref s) in (a, put_session ref session s).

Definition sendControlMessage (c : SessionKeyInput) (message : IngressControlMessage) (s : Service)
    : Service :=
  with_budgets s.(persistedTranscriptBytesByOperation) (Some (ControlSent c message)) s.

(** What the proofs keep of a stream that was opened; the service changes nothing else here. *)
Definition record_opened (c : SessionKeyInput) (stream : ActiveBootstrapOperationStream) (s : Service)
    : Service :=
  with_budgets s.(persistedTranscriptBytesByOperation) (Some (StreamOpened c stream.(stream_info))) s.

Definition clearTranscriptBudget (sandboxInstanceId : string) (stream : ActiveBootstrapOperationStream)
    (s : Service) : Service :=
  let key := operationKey sandboxInstanceId stream.(stream_info) in
  with_budgets (JsMap.delete s.(persistedTranscriptBytesByOperation) key) (Some (BudgetCleared key)) s.

Definition clear_if_closed (sandboxInstanceId : string) (stream : option ActiveBootstrapOperationStream)
    (s : Service) : Service :=
  from_option (λ stream, clearTranscriptBudget sandboxInstanceId stream s) s stream.

Definition deleteSessionIfEmpty (sessionKey : string) (ref : nat) (s : Service) : Service :=
  if (operation_streamCount (session_at ref s) =? 0)%nat
  then with_sessions (JsMap.delete s.(operation_sessions) sessionKey) s
  else s.

(** [session.closeStream], and the budget of what it closed. *)
Definition close_stream (c : SessionKeyInput) (ref : nat) (streamId : Z) (s : Service) : Service :=
  let (closedStream, s) := on_session ref (operation_closeStream streamId) s in
  clear_if_closed c.(key_sandboxInstanceId) closedStream s.

Definition handleOpen (c : SessionKeyInput) (input : OpenOperationInput) (s : Service) : Service :=
  let sessionKey := toSessionKey c in
  let (ref, s) :=
    match JsMap.get s.(operation_sessions) sessionKey with
    | Some ref => (ref, s)
    | None =>
        let ref := fresh (dom s.(session_heap)) in
        (ref, put_session ref
           (new_operation_session DefaultStreamWindowBytes OperationWindowGrantBatchBytes) s)
    end in
  let (openResult, s) := on_session ref (operation_openStream input) s in
  match openResult with
  | OpenRejected response => deleteSessionIfEmpty sessionKey ref (sendControlMessage c response s)
  | OpenAccepted response stream =>
      let s := record_opened c stream (with_sessions (JsMap.set s.(operation_sessions) sessionKey ref) s) in
      sendControlMessage c response s
  end.

(** What [handleData] goes on to store. *)
Record AcceptedData : Type := mkAcceptedData {
  data_session : nat;
  data_stream : ActiveBootstrapOperationStream;
  data_payload : list Z;
}.

(** [handleData] up to [persistRecords]. *)
Definition accept_data (c : SessionKeyInput) (payload : list Z) (streamId : Z) (ref : nat)
    : M OperationIngressError Service (option AcceptedData) := λ s,
  match decodeDataFrame payload with
  | inl message => (inl (InvalidFrame message), s)
  | inr frame =>
      let (consumeResult, s) := on_session ref
        (operation_consumeWindow (Z.of_nat (length frame.(frame_payload))) streamId) s in
      match consumeResult with
      | ConsumeReset response stream =>
          let s := clear_if_closed c.(key_sandboxInstanceId) stream s in
          (inr None, deleteSessionIfEmpty (toSessionKey c) ref (sendControlMessage c response s))
      | ConsumeOk stream => (inr (Some (mkAcceptedData ref stream frame.(frame_payload))), s)
      end
  end.

(** [processDelivery] up to [persistRecords]. *)
Definition receive_delivery (c : SessionKeyInput) (delivery : OperationDelivery)
    : M OperationIngressError Service (option AcceptedData) := λ s,
  let not_found streamId :=
    sendControlMessage c (createOperationReset streamId "operation_stream_not_found"
      ("Operation stream " +:+ String_of_number streamId +:+ " is not open on this bootstrap session.")) s in
  match delivery, JsMap.get s.(operation_sessions) (toSessionKey c) with
  | OperationOpenDelivery input, _ => (inr None, handleOpen c input s)
  | OperationCloseDelivery _, None => (inr None, s)
  | OperationDataDelivery _ streamId, None | OperationInvalidDataDelivery _ streamId, None =>
      (inr None, not_found streamId)
  | OperationDataDelivery payload streamId, Some ref => accept_data c payload streamId ref s
  | OperationInvalidDataDelivery _ streamId, Some ref =>
      let s := close_stream c ref streamId s in
      let s := sendControlMessage c (createOperationReset streamId "invalid_operation_payload_kind"
        "Operation streams only accept raw-bytes payloads.") s in
      (inr None, deleteSessionIfEmpty (toSessionKey c) ref s)
  | OperationCloseDelivery streamId, Some ref =>
      (inr None, deleteSessionIfEmpty (toSessionKey c) ref (close_stream c ref streamId s))
  end.

Section Service.
Context `{Base64}.

(** The bytes a record counts for. *)
Definition transcript_bytes (r : OperationRecord) : Z :=
  match r with TranscriptRecord _ payloadBytes _ _ _ => Z.of_nat (length payloadBytes) | _ => 0 end.

(** The event of a record. *)
Definition record_event (sandboxInstanceId : string) (info : OperationInfo) (r : OperationRecord)
    : InsertSandboxOperationEventInput :=
  match r with
  | LifecycleRecord attributes message observedAt phase source status =>
      mkEventInput attributes message observedAt info.(operationId) info.(operationKind) None (Some phase)
        RecordKindLifecycle sandboxInstanceId (default SourceSandboxd source) (Some status) None
  | TranscriptRecord observedAt payloadBytes phase source stream =>
      mkEventInput JsMap.empty "" observedAt info.(operationId) info.(operationKind) (Some payloadBytes) phase
        RecordKindTranscript sandboxInstanceId (default SourceSandboxd source) None (Some stream)
  end.

(** A line of [persistRecords] up to its [await]: whether an event is being stored. *)
Definition persist_line (sandboxInstanceId : string) (info : OperationInfo) (line : string)
    : M OperationIngressError Service bool := λ s,
  if MaxOperationRecordBytes <? Z.of_nat (String.length line) then (inr false, s)
  else match parseOperationRecord line with
  | inl error => (inl (InvalidRecord error), s)
  | inr record =>
      let transcriptBytes := transcript_bytes record in
      let key := operationKey sandboxInstanceId info in
      let persistedBytes := default 0 (JsMap.get s.(persistedTranscriptBytesByOperation) key) in
      if (0 <? transcriptBytes) &&
         (MaxPersistedTranscriptBytesPerOperation <? persistedBytes + transcriptBytes)
      then (inr false, s)
      else
        let budgets :=
          if 0 <? transcriptBytes
          then JsMap.set s.(persistedTranscriptBytesByOperation) key (persistedBytes + transcriptBytes)
          else s.(persistedTranscriptBytesByOperation) in
        (inr true, with_budgets budgets (Some (EventStored (record_event sandboxInstanceId info record))) s)
  end.

(** The [catch] of [handleData], and what follows [persistRecords] when it succeeds. *)
Definition data_failed (c : SessionKeyInput) (ref : nat) (streamId : Z) (s : Service) : Service :=
  let s := close_stream c ref streamId s in
  let s := sendControlMessage c (createOperationReset streamId "operation_ingest_failed"
    "Gateway failed to ingest operation records.") s in
  deleteSessionIfEmpty (toSessionKey c) ref s.

Definition data_persisted (c : SessionKeyInput) (ref : nat) (streamId : Z) (s : Service) : Service :=
  let (replenishWindow, s) := on_session ref (operation_grantWindowIfNeeded streamId) s in
  from_option (λ message, sendControlMessage c message s) s replenishWindow.

(** ** Deliveries *)

Inductive ingress_op : Type → Type :=
| Turn {A : Type} (code : M OperationIngressError Service A) : ingress_op A
| AwaitDelivery (promise : nat) : ingress_op unit
| AwaitInsert : ingress_op unit.

Notation Delivery := (program ingress_op OperationIngressError).

Definition turn {A} (code : M OperationIngressError Service A) : Delivery A := perform (Turn code).

Definition persistRecords (sandboxInstanceId : string) (info : OperationInfo) (payload : list Z)
    : Delivery unit :=
  each (payload_lines payload) (λ line,
    storing ← turn (persist_line sandboxInstanceId info line);
    if storing : bool then perform AwaitInsert else Return tt).

(** [handleData] from [persistRecords] on. *)
Definition store_data (c : SessionKeyInput) (data : AcceptedData) : Delivery unit :=
  let streamId := data.(data_stream).(stream_streamId) in
  persisted ← attempt (persistRecords c.(key_sandboxInstanceId) data.(data_stream).(stream_info)
                         data.(data_payload));
  match persisted with
  | inl _ => turn (modify (data_failed c data.(data_session) streamId))
  | inr _ => turn (modify (data_persisted c data.(data_session) streamId))
  end.

Definition processDelivery (c : SessionKeyInput) (delivery : OperationDelivery) : Delivery unit :=
  accepted ← turn (receive_delivery c delivery);
  from_option (store_data c) (Return tt) accepted.

(** The promise of a delivery takes the place of the last one of its connection. *)
Definition chain_delivery (c : SessionKeyInput) (s : Service) : (option nat * nat) * Service :=
  let sessionKey := toSessionKey c in
  let promise := length s.(deliveries) in
  ((JsMap.get s.(deliveryChains) sessionKey, promise),
   with_deliveries (s.(deliveries) ++ [false]) (JsMap.set s.(deliveryChains) sessionKey promise) s).

Definition settle_delivery (promise : nat) (s : Service) : Service :=
  with_deliveries (<[promise := true]> s.(deliveries)) s.(deliveryChains) s.

(** The [finally] of [handleDelivery]. *)
Definition forget_delivery (c : SessionKeyInput) (promise : nat) (s : Service) : Service :=
  if JsMap.get s.(deliveryChains) (toSessionKey c) =?= Some promise
  then with_deliveries s.(deliveries) (JsMap.delete s.(deliveryChains) (toSessionKey c)) s
  else s.

Definition handleDelivery (c : SessionKeyInput) (delivery : OperationDelivery) : Delivery unit :=
  '(previousDelivery, currentDelivery) ← turn (update (chain_delivery c));
  _ ← from_option (λ promise, perform (AwaitDelivery promise)) (Return tt) previousDelivery;
  result ← attempt (processDelivery c delivery);
  _ ← turn (modify (settle_delivery currentDelivery));
  _ ← turn (modify (forget_delivery c currentDelivery));
  finish result.

Definition detachBootstrapSession (c : SessionKeyInput) (s : Service) : Service :=
  let sessionKey := toSessionKey c in
  let s := match JsMap.get s.(operation_sessions) sessionKey with
           | None => s
           | Some ref =>
               let (streams, s) := on_session ref operation_closeAllStreams s in
               let s := foldl (λ s stream, clearTranscriptBudget c.(key_sandboxInstanceId) stream s) s streams in
               with_sessions (JsMap.delete s.(operation_sessions) sessionKey) s
           end in
  with_deliveries s.(deliveries) (JsMap.delete s.(deliveryChains) sessionKey) s.

Definition shutdown (s : Service) : Service :=
  with_budgets JsMap.empty (Some BudgetsDropped)
    (with_sessions JsMap.empty (with_deliveries s.(deliveries) JsMap.empty s)).

(** ** Interleavings *)

(** A delivery that is waited for has settled; the database may reject an event. *)
Definition ingress_op_step A (op : ingress_op A)
    : Service → OperationIngressError + A → Service → Prop :=
  match op in ingress_op A return Service → OperationIngressError + A → Service → Prop with
  | Turn code => λ s r s', code s = (r, s')
  | AwaitDelivery promise => λ s r s', s.(deliveries) !! promise = Some true ∧ r = inr tt ∧ s' = s
  | AwaitInsert => λ s r s', (r = inr tt ∨ r = inl InsertRejected) ∧ s' = s
  end.

Inductive ingress_env (s : Service) : Service → Prop :=
| env_detach c : ingress_env s (detachBootstrapSession c s)
| env_shutdown : ingress_env s (shutdown s).

(** ** The budget *)

Definition event_bytes (event : InsertSandboxOperationEventInput) : Z :=
  from_option (λ payload, Z.of_nat (length payload)) 0 event.(event_payloadBytes).

Definition event_key (event : InsertSandboxOperationEventInput) : string :=
  event.(event_sandboxInstanceId) +:+ ":" +:+ event.(event_operationId).

(** What an effect does to the bytes stored under a key since its budget was cleared. *)
Definition count_effect (key : string) (n : Z) (effect : OperationEffect) : Z :=
  match effect with
  | EventStored event => if event_key event =?= key then n + event_bytes event else n
  | BudgetCleared cleared => if cleared =?= key then 0 else n
  | BudgetsDropped => 0
  | ControlSent _ _ | StreamOpened _ _ => n
  end.

Definition stored_bytes (key : string) (effects : list OperationEffect) : Z :=
  foldl (count_effect key) 0 effects.
#[global] Arguments stored_bytes : simpl never.

(** How much of something a list of effects adds up to. *)
Fixpoint tally (f : OperationEffect → Z) (effects : list OperationEffect) : Z :=
  match effects with [] => 0 | effect :: effects => f effect + tally f effects end.

Lemma tally_app f effects effect : tally f (effects ++ [effect]) = tally f effects + f effect.
Proof. induction effects as [|e effects IH]; cbn; [lia|]. rewrite IH. lia. Qed.

(** The output stored under a key, ever. *)
Definition bytes_stored (key : string) (effect : OperationEffect) : Z :=
  match effect with EventStored event => if event_key event =?= key then event_bytes event else 0 | _ => 0 end.

(** The key of a budget ends with the id of its operation. *)
Definition key_of_operation (key : string) (info : OperationInfo) : bool :=
  let suffix := ":" +:+ info.(operationId) in
  String.substring (String.length key - String.length suffix) (String.length suffix) key =?= suffix.

Definition opening (key : string) (effect : OperationEffect) : Z :=
  match effect with StreamOpened _ info => if key_of_operation key info then 1 else 0 | _ => 0 end.
Definition clearing (key : string) (effect : OperationEffect) : Z :=
  match effect with BudgetCleared cleared => if cleared =?= key then 1 else 0 | _ => 0 end.
Definition dropping (effect : OperationEffect) : Z :=
  match effect with BudgetsDropped => 1 | _ => 0 end.

Lemma substring_app a b : String.substring (String.length a) (String.length b) (a +:+ b) = b.
Proof.
  induction a as [|ch a IH]; [|exact IH]. change ("" +:+ b) with b.
  induction b as [|ch b IH]; [done|]. exact (f_equal (String ch) IH).
Qed.

Lemma length_app_string a b : String.length (a +:+ b) = (String.length a + String.length b)%nat.
Proof. induction a as [|ch a IH]; [done|]. exact (f_equal S IH). Qed.

Lemma key_of_operation_key sandbox info : key_of_operation (operationKey sandbox info) info = true.
Proof.
  unfold key_of_operation, operationKey. cbv zeta.
  set (suffix := ":" +:+ info.(operationId)). rewrite length_app_string.
  replace (String.length sandbox + String.length suffix - String.length suffix)%nat
    with (String.length sandbox) by lia.
  rewrite substring_app. by apply bool_decide_true.
Qed.

(** *** Where effects come from *)

Section Ledger.
Context (inputs : list (SessionKeyInput * OperationDelivery)).
(** Whether the service is never shut down. *)
Context (lasting : bool).

(** A connection with this session key has opened a stream for this operation. *)
Definition opened_on (sessionKey : string) (effects : list OperationEffect) (info : OperationInfo) : Prop :=
  ∃ c, StreamOpened c info ∈ effects ∧ toSessionKey c = sessionKey.

(** What is given to the database after these effects: a line, short enough and parsed, of
    data one of the connections has sent, as an event of its sandbox and of an operation it
    has opened a stream for. *)
Definition reported (before : list OperationEffect) (event : InsertSandboxOperationEventInput) : Prop :=
  ∃ c payload streamId frame line r info,
    (c, OperationDataDelivery payload streamId) ∈ inputs ∧ decodeDataFrame payload = inr frame ∧
    line ∈ payload_lines frame.(frame_payload) ∧
    Z.of_nat (String.length line) <= MaxOperationRecordBytes ∧ parseOperationRecord line = inr r ∧
    event = record_event c.(key_sandboxInstanceId) info r ∧ opened_on (toSessionKey c) before info.

(** A stream is only opened when its connection asks for it. *)
Definition requested (c : SessionKeyInput) (info : OperationInfo) : Prop :=
  ∃ input, (c, OperationOpenDelivery input) ∈ inputs ∧ input.(openOperation_format) = OperationStreamFormat ∧
    info = mkOperationInfo input.(openOperation_operationId) input.(openOperation_operationKind).

Record ledger_ok (budgets : JsMap.t string Z) (effects : list OperationEffect) : Prop := mkLedgerOk {
  good_counter key : stored_bytes key effects = default 0 (JsMap.get budgets key);
  good_limit key : 0 <= default 0 (JsMap.get budgets key) <= MaxPersistedTranscriptBytesPerOperation;
  good_total key : tally (bytes_stored key) effects <=
    MaxPersistedTranscriptBytesPerOperation * (tally (clearing key) effects + tally dropping effects)
      + stored_bytes key effects;
  good_drops : lasting = true → tally dropping effects = 0;
  good_events n event : effects !! n = Some (EventStored event) → reported (take n effects) event;
  good_openings n c info : effects !! n = Some (StreamOpened c info) → requested c info;
}.

Lemma stored_bytes_app key effects effect :
  stored_bytes key (effects ++ [effect]) = count_effect key (stored_bytes key effects) effect.
Proof. unfold stored_bytes. by rewrite foldl_app. Qed.

Lemma opened_on_mono sessionKey effects effects' info :
  effects `prefix_of` effects' → opened_on sessionKey effects info → opened_on sessionKey effects' info.
Proof. intros [rest ->] (c & Hc & Hkey). exists c. split; [|done]. apply elem_of_app. by left. Qed.

(** One effect more. *)
Lemma ledger_append budgets budgets' effects effect :
  ledger_ok budgets effects →
  (∀ key, count_effect key (stored_bytes key effects) effect = default 0 (JsMap.get budgets' key)) →
  (∀ key, 0 <= default 0 (JsMap.get budgets' key) <= MaxPersistedTranscriptBytesPerOperation) →
  (lasting = true → dropping effect = 0) →
  (∀ event, effect = EventStored event → reported effects event) →
  (∀ c info, effect = StreamOpened c info → requested c info) →
  ledger_ok budgets' (effects ++ [effect]).
Proof.
  intros [Hcount Hlimit Htotal Hdrops Hevents Hopenings] Hcount' Hlimit' Hdrop Hevent Hopening. split.
  - intros key. by rewrite stored_bytes_app.
  - exact Hlimit'.
  - intros key. specialize (Htotal key). specialize (Hlimit key). specialize (Hcount key).
    rewrite stored_bytes_app, !tally_app. unfold MaxPersistedTranscriptBytesPerOperation in *.
    destruct effect; cbn [bytes_stored clearing dropping count_effect]; try case_bool_decide; lia.
  - intros Hlasting. rewrite tally_app, Hdrops, Hdrop by done. done.
  - intros n event [[Hn Hin]|[-> Heq]]%lookup_snoc_Some.
    + rewrite take_app_le by lia. by apply Hevents.
    + rewrite take_app_length. by apply Hevent.
  - intros n c info [[Hn Hin]|[-> Heq]]%lookup_snoc_Some; [by eapply Hopenings|by apply Hopening].
Qed.

(** *** The streams that are open *)

(** How many of these streams are of operations the key may stand for. *)
Definition owed (key : string) (streams : list ActiveBootstrapOperationStream) : Z :=
  foldr (λ stream n, (if key_of_operation key stream.(stream_info) then 1 else 0) + n) 0 streams.

Definition open_streams_of (session : BootstrapOperationSession) : list ActiveBootstrapOperationStream :=
  option_list (JsMap.get session.(operation_streamsById) OperationStreamId).

Definition live (key : string) (heap : gmap nat BootstrapOperationSession) : Z :=
  map_fold (λ _ session n, owed key (open_streams_of session) + n) 0 heap.

Definition session_good (session : BootstrapOperationSession) : Prop :=
  session_ok session ∧ JsMap.wf session.(operation_streamsById).

(** [debt]: streams that are closed but whose budget is not cleared yet. *)
Record sessions_good (debt : list ActiveBootstrapOperationStream) (s : Service) : Prop := mkSessionsGood {
  good_clears key : tally (clearing key) s.(operation_effects) + live key s.(session_heap) + owed key debt
    <= tally (opening key) s.(operation_effects);
  good_heap ref session : s.(session_heap) !! ref = Some session → session_good session;
  good_refs sessionKey ref : JsMap.get s.(operation_sessions) sessionKey = Some ref →
    is_Some (s.(session_heap) !! ref);
  good_streams sessionKey ref id stream : JsMap.get s.(operation_sessions) sessionKey = Some ref →
    JsMap.get (session_at ref s).(operation_streamsById) id = Some stream →
    opened_on sessionKey s.(operation_effects) stream.(stream_info);
  good_owners sessionKey sessionKey' ref : JsMap.get s.(operation_sessions) sessionKey = Some ref →
    JsMap.get s.(operation_sessions) sessionKey' = Some ref → sessionKey = sessionKey';
}.

Lemma session_at_put ref session s : session_at ref (put_session ref session s) = session.
Proof. unfold session_at. cbn. by rewrite lookup_insert_eq. Qed.

Lemma owed_app key l1 l2 : owed key (l1 ++ l2) = owed key l1 + owed key l2.
Proof. unfold owed. induction l1 as [|stream l1 IH]; cbn [foldr app]; lia. Qed.

Lemma owed_pos key l : 0 <= owed key l.
Proof. unfold owed. induction l as [|stream l IH]; cbn [foldr]; [done|]. case_match; lia. Qed.

Lemma live_put key ref session heap :
  live key (<[ref := session]> heap) +
    from_option (λ session, owed key (open_streams_of session)) 0 (heap !! ref) =
  live key heap + owed key (open_streams_of session).
Proof.
  unfold live. rewrite <-insert_delete_eq, map_fold_insert_L; [|intros; lia|apply lookup_delete_eq].
  destruct (heap !! ref) as [old|] eqn:Hold; cbn [from_option].
  - rewrite (map_fold_delete_L _ _ ref old heap); [lia|intros; lia|done].
  - rewrite delete_id by done. lia.
Qed.

Lemma new_session_good : session_good (new_operation_session DefaultStreamWindowBytes OperationWindowGrantBatchBytes).
Proof. split; [by intros id stream|]. apply JsMap.wf_empty. Qed.

Lemma session_at_good debt s ref : sessions_good debt s → session_good (session_at ref s).
Proof.
  intros Hs. unfold session_at. destruct (s.(session_heap) !! ref) as [session|] eqn:Hin; cbn [default].
  - by eapply good_heap.
  - apply new_session_good.
Qed.

Lemma live_put_session key ref session s :
  live key (put_session ref session s).(session_heap) + owed key (open_streams_of (session_at ref s)) =
  live key s.(session_heap) + owed key (open_streams_of session).
Proof.
  rewrite <-(live_put key ref session). unfold session_at. cbn [put_session with_heap session_heap].
  destruct (s.(session_heap) !! ref); [done|]. cbn [default from_option]. f_equal.
Qed.

(** A method that opens no stream: [gone] are the streams it has closed. *)
Record session_step (session session' : BootstrapOperationSession)
    (gone : list ActiveBootstrapOperationStream) : Prop := mkSessionStep {
  step_good : session_good session';
  step_streams id stream : JsMap.get session'.(operation_streamsById) id = Some stream →
    ∃ stream', JsMap.get session.(operation_streamsById) id = Some stream' ∧
      stream.(stream_info) = stream'.(stream_info);
  step_owed key : owed key gone + owed key (open_streams_of session') <= owed key (open_streams_of session);
}.

Lemma session_at_put_ne ref ref' session s : ref ≠ ref' →
  session_at ref' (put_session ref session s) = session_at ref' s.
Proof. intros Hne. unfold session_at. cbn. by rewrite lookup_insert_ne. Qed.

Lemma sessions_put debt gone ref session' s :
  sessions_good debt s → session_step (session_at ref s) session' gone →
  sessions_good (gone ++ debt) (put_session ref session' s).
Proof.
  intros Hs Hstep. pose proof Hs as [Hclears Hheap Hrefs Hstreams Howners].
  destruct Hstep as [Hgood Hof Howed]. split; [| | | |exact Howners].
  - intros key. specialize (Hclears key). specialize (Howed key). rewrite owed_app.
    pose proof (live_put_session key ref session' s) as Hlive. cbn [put_session with_heap operation_effects] in *. lia.
  - intros ref' session Hin. cbn in Hin. apply lookup_insert_Some in Hin as [[_ <-]|[_ Hin]]; [done|by eapply Hheap].
  - intros sessionKey ref' Hget. cbn in Hget |- *. apply lookup_insert_is_Some'. right. by eapply Hrefs.
  - intros sessionKey ref' id stream Hget Hstream. cbn in Hget.
    destruct (decide (ref = ref')) as [<-|Hne].
    + rewrite session_at_put in Hstream. destruct (Hof id stream Hstream) as (stream' & Hold & ->).
      by eapply Hstreams.
    + rewrite session_at_put_ne in Hstream by done. by eapply Hstreams.
Qed.

Lemma sessions_on_session {A} debt gone ref (method : BootstrapOperationSession → A * BootstrapOperationSession) s :
  sessions_good debt s → session_step (session_at ref s) (method (session_at ref s)).2 gone →
  sessions_good (gone ++ debt) (on_session ref method s).2.
Proof. intros Hs Hstep. unfold on_session. destruct (method _) as [a session']. by apply sessions_put. Qed.

(** A stream may be replaced by one of the same operation. *)
Lemma step_replace session session' id stream stream' :
  session_good session → JsMap.get session.(operation_streamsById) id = Some stream →
  stream'.(stream_info) = stream.(stream_info) → JsMap.wf session'.(operation_streamsById) →
  becomes session session' (put_stream session.(operation_streamsById) id (Some stream')) →
  session_step session session' [].
Proof.
  intros [Hok _] Hget Hinfo Hwf (Hok' & _ & _ & Hstreams). cbn in Hstreams.
  destruct (Hok _ _ Hget) as [_ ->]. split; [by split| |].
  - intros id' new. rewrite Hstreams. unfold put_stream. case_decide; [|by eauto].
    intros [= <-]. subst id'. by exists stream.
  - intros key. unfold open_streams_of. rewrite Hstreams, Hget. unfold put_stream. rewrite decide_True by done.
    change (owed key [stream'] <= owed key [stream]). unfold owed, foldr. by rewrite Hinfo.
Qed.

(** A stream that is there may be closed. *)
Lemma step_close session session' id :
  session_good session → JsMap.wf session'.(operation_streamsById) →
  becomes session session' (put_stream session.(operation_streamsById) id None) →
  session_step session session' (option_list (JsMap.get session.(operation_streamsById) id)).
Proof.
  intros [Hok _] Hwf (Hok' & _ & _ & Hstreams). cbn in Hstreams. split; [by split| |].
  - intros id' new. rewrite Hstreams. unfold put_stream. case_decide; [done|by eauto].
  - intros key. unfold open_streams_of. rewrite Hstreams. unfold put_stream. case_decide as Hid.
    + subst id. change (owed key (option_list None)) with 0. lia.
    + destruct (JsMap.get session.(operation_streamsById) id) as [stream|] eqn:Hget; cbn [option_list]; [|done].
      destruct (Hok _ _ Hget) as [_ ->]. done.
Qed.

Lemma step_same session : session_good session → session_step session session [].
Proof. intros Hgood. split; [done|by eauto|]. intros key. done. Qed.

Lemma single_values (m : JsMap.t Z ActiveBootstrapOperationStream) k :
  JsMap.wf m → (∀ id stream, JsMap.get m id = Some stream → id = k) → JsMap.values m = option_list (JsMap.get m k).
Proof.
  intros Hwf Hall. assert (∀ id stream, (id, stream) ∈ m → id = k) as Hin.
  { intros id stream Hm%JsMap.elem_of_get; [by eapply Hall|done]. }
  destruct m as [|[k1 v1] [|[k2 v2] m]].
  - done.
  - assert (k1 = k) as -> by (eapply (Hin k1 v1); left). cbn [JsMap.get]. by rewrite decide_True.
  - exfalso. assert (k1 = k) as -> by (eapply (Hin k1 v1); left).
    assert (k2 = k) as -> by (eapply (Hin k2 v2); right; left).
    unfold JsMap.wf, JsMap.keys in Hwf. cbn in Hwf. apply NoDup_cons in Hwf as [Hnot _]. apply Hnot. left.
Qed.

Lemma step_closeAll session :
  session_good session →
  session_step session (operation_closeAllStreams session).2 (operation_closeAllStreams session).1.
Proof.
  intros [Hok Hwf]. split; [split; [by intros id stream|apply JsMap.wf_empty]|by intros id stream|].
  intros key. cbn [fst operation_closeAllStreams]. unfold open_streams_of.
  rewrite <- (single_values session.(operation_streamsById)); [cbn; lia|done|].
  intros id stream Hget. by destruct (Hok _ _ Hget).
Qed.

Lemma step_closeStream id session :
  session_good session →
  session_step session (operation_closeStream id session).2 (option_list (operation_closeStream id session).1).
Proof.
  intros Hgood. pose proof (law_close (T := BootstrapOperationSession) id session (proj1 Hgood)) as Hlaw.
  cbn [session_closeStream operation_session] in Hlaw.
  assert (JsMap.wf (operation_closeStream id session).2.(operation_streamsById)) as Hwf.
  { destruct Hgood as [_ Hwf]. unfold operation_closeStream.
    destruct (JsMap.get _ _); [by apply JsMap.wf_delete|done]. }
  destruct (operation_closeStream id session) as [result session']. destruct Hlaw as [-> Hbecomes].
  by apply step_close.
Qed.

Lemma step_grant id session :
  session_good session → session_step session (operation_grantWindowIfNeeded id session).2 [].
Proof.
  intros Hgood. pose proof (law_grant (T := BootstrapOperationSession) id session (proj1 Hgood)) as Hlaw.
  cbn [session_grantWindowIfNeeded operation_session session_streams] in Hlaw.
  assert (JsMap.wf (operation_grantWindowIfNeeded id session).2.(operation_streamsById)) as Hwf.
  { destruct Hgood as [_ Hwf]. unfold operation_grantWindowIfNeeded.
    destruct (JsMap.get _ _); [|done]. destruct (_ <? _); [done|by apply JsMap.wf_set]. }
  destruct (operation_grantWindowIfNeeded id session) as [result session'].
  destruct (JsMap.get _ id) as [stream|] eqn:Hget; [|destruct Hlaw as [_ ->]; by apply step_same].
  case_decide; [|destruct Hlaw as [_ ->]; by apply step_same].
  destruct Hlaw as [_ Hbecomes]. by apply (step_replace _ _ id stream (granted stream)).
Qed.

Lemma step_consume n id session :
  session_good session →
  session_step session (operation_consumeWindow n id session).2
    match (operation_consumeWindow n id session).1 with
    | ConsumeOk _ => []
    | ConsumeReset _ stream => option_list stream
    end ∧
  ∀ stream, (operation_consumeWindow n id session).1 = ConsumeOk stream →
    ∃ stream', JsMap.get session.(operation_streamsById) id = Some stream' ∧
      stream.(stream_info) = stream'.(stream_info).
Proof.
  intros Hgood. pose proof (law_consume (T := BootstrapOperationSession) n id session (proj1 Hgood)) as Hlaw.
  cbn [session_consumeWindow operation_session session_streams] in Hlaw.
  assert (JsMap.wf (operation_consumeWindow n id session).2.(operation_streamsById)) as Hwf.
  { destruct Hgood as [_ Hwf]. unfold operation_consumeWindow, operation_closeStream.
    destruct (JsMap.get _ id); [|done]. destruct (_ <? _); [|by apply JsMap.wf_set].
    destruct (JsMap.get _ _); [by apply JsMap.wf_delete|done]. }
  destruct (operation_consumeWindow n id session) as [result session']. cbn [fst snd] in *.
  destruct (JsMap.get _ id) as [stream|] eqn:Hget; cycle 1.
  { destruct Hlaw as (-> & family & code & message & ->). split; [by apply step_same|done]. }
  case_decide.
  - destruct Hlaw as [-> Hbecomes]. split; [by apply (step_replace _ _ id stream (consumed stream n))|].
    intros _ [= <-]. by exists stream.
  - destruct Hlaw as [(family & code & message & ->) Hbecomes]. split; [|done].
    pose proof (step_close _ _ id Hgood Hwf Hbecomes) as Hstep. by rewrite Hget in Hstep.
Qed.

(** *** The operations keep both *)

(** The service after the effects [base]. *)
Definition service_good (base : list OperationEffect) (debt : list ActiveBootstrapOperationStream)
    (s : Service) : Prop :=
  base `prefix_of` s.(operation_effects) ∧
  ledger_ok s.(persistedTranscriptBytesByOperation) s.(operation_effects) ∧ sessions_good debt s.

Lemma sessions_append debt debt' budgets effect s :
  sessions_good debt s →
  (∀ key, clearing key effect + owed key debt' <= owed key debt + opening key effect) →
  sessions_good debt' (with_budgets budgets (Some effect) s).
Proof.
  intros [Hclears Hheap Hrefs Hstreams Howners] Hdebt. split; [|done|done| |done].
  - intros key. specialize (Hclears key). specialize (Hdebt key).
    cbn [with_budgets operation_effects session_heap]. change (option_list (Some effect)) with [effect].
    rewrite !tally_app. lia.
  - intros sessionKey ref id stream Hget Hstream. eapply opened_on_mono; [|by eapply Hstreams].
    by apply prefix_app_r.
Qed.

Lemma good_append base debt debt' budgets' effect s :
  service_good base debt s →
  (∀ key, count_effect key (stored_bytes key s.(operation_effects)) effect = default 0 (JsMap.get budgets' key)) →
  (∀ key, 0 <= default 0 (JsMap.get budgets' key) <= MaxPersistedTranscriptBytesPerOperation) →
  (lasting = true → dropping effect = 0) →
  (∀ event, effect = EventStored event → reported s.(operation_effects) event) →
  (∀ c info, effect = StreamOpened c info → requested c info) →
  (∀ key, clearing key effect + owed key debt' <= owed key debt + opening key effect) →
  service_good base debt' (with_budgets budgets' (Some effect) s).
Proof.
  intros (Hbase & Hledger & Hsessions) Hcount Hlimit Hdrop Hevent Hopening Hdebt. split_and!.
  - by apply prefix_app_r.
  - by eapply ledger_append.
  - by eapply sessions_append.
Qed.

Lemma good_send base debt c message s :
  service_good base debt s → service_good base debt (sendControlMessage c message s).
Proof.
  intros Hs. pose proof Hs as (_ & [Hcount Hlimit _ _ _ _] & _). apply good_append with debt; try done.
  intros key. cbn [clearing opening]. lia.
Qed.

Lemma good_clear base debt sandbox stream s :
  service_good base (stream :: debt) s → service_good base debt (clearTranscriptBudget sandbox stream s).
Proof.
  intros Hs. pose proof Hs as (_ & [Hcount Hlimit _ _ _ _] & _).
  unfold clearTranscriptBudget. set (cleared := operationKey sandbox stream.(stream_info)).
  apply good_append with (stream :: debt); try done.
  - intros key. rewrite JsMap.get_delete, Hcount. cbn [count_effect]. by case_bool_decide; case_decide.
  - intros key. rewrite JsMap.get_delete. case_decide; [done|apply Hlimit].
  - intros key. cbn [clearing opening]. change (owed key (stream :: debt)) with
      ((if key_of_operation key stream.(stream_info) then 1 else 0) + owed key debt).
    case_bool_decide as Hkey; [|case_match; lia]. subst key. unfold cleared. rewrite key_of_operation_key. lia.
Qed.

Lemma good_clear_if_closed base debt sandbox stream s :
  service_good base (option_list stream ++ debt) s → service_good base debt (clear_if_closed sandbox stream s).
Proof. destruct stream; [apply good_clear|done]. Qed.

Lemma good_clear_all base debt sandbox streams s :
  service_good base (streams ++ debt) s →
  service_good base debt (foldl (λ s stream, clearTranscriptBudget sandbox stream s) s streams).
Proof. revert s. induction streams as [|stream streams IH]; intros s Hs; [done|]. by apply IH, good_clear. Qed.

Lemma good_on_session {A} base debt gone ref (method : BootstrapOperationSession → A * BootstrapOperationSession) s :
  service_good base debt s →
  (session_good (session_at ref s) → session_step (session_at ref s) (method (session_at ref s)).2 gone) →
  service_good base (gone ++ debt) (on_session ref method s).2.
Proof.
  intros (Hbase & Hledger & Hsessions) Hstep.
  pose proof (sessions_on_session debt gone ref method s Hsessions (Hstep (session_at_good _ _ ref Hsessions))) as Hs'.
  revert Hs'. unfold on_session. destruct (method _) as [a session']. by intros Hs'.
Qed.

Lemma good_with_sessions_delete base debt sessionKey s :
  service_good base debt s →
  service_good base debt (with_sessions (JsMap.delete s.(operation_sessions) sessionKey) s).
Proof.
  intros (Hbase & Hledger & [Hclears Hheap Hrefs Hstreams Howners]). split; [done|]. split; [done|].
  assert (∀ k ref, JsMap.get (JsMap.delete s.(operation_sessions) sessionKey) k = Some ref →
    JsMap.get s.(operation_sessions) k = Some ref) as Hold.
  { intros k ref. rewrite JsMap.get_delete. by case_decide. }
  split; [done|done| | |].
  - intros k ref Hget. by eapply Hrefs, Hold.
  - intros k ref id stream Hget. apply Hstreams, Hold. exact Hget.
  - intros k k' ref Hget Hget'. by eapply Howners; apply Hold.
Qed.

Lemma good_delete_if_empty base debt sessionKey ref s :
  service_good base debt s → service_good base debt (deleteSessionIfEmpty sessionKey ref s).
Proof. intros Hs. unfold deleteSessionIfEmpty. destruct (_ =? _)%nat; [by apply good_with_sessions_delete|done]. Qed.

Lemma good_close_stream base c ref streamId s :
  service_good base [] s → service_good base [] (close_stream c ref streamId s).
Proof.
  intros Hs. unfold close_stream.
  pose proof (good_on_session base [] (option_list (operation_closeStream streamId (session_at ref s)).1) ref
    (operation_closeStream streamId) s Hs (step_closeStream streamId _)) as Hclosed.
  revert Hclosed. unfold on_session.
  destruct (operation_closeStream streamId (session_at ref s)) as [stream session']. cbn [fst snd].
  apply good_clear_if_closed.
Qed.

Lemma good_with_deliveries base debt l chains s :
  service_good base debt s → service_good base debt (with_deliveries l chains s).
Proof. intros (Hbase & Hledger & [? ? ? ? ?]). split; [done|]. split; [done|]. by split. Qed.

Lemma good_detach base c s : service_good base [] s → service_good base [] (detachBootstrapSession c s).
Proof.
  intros Hs. unfold detachBootstrapSession. cbv zeta. apply good_with_deliveries.
  destruct (JsMap.get _ _) as [ref|]; [|done].
  pose proof (good_on_session base [] (operation_closeAllStreams (session_at ref s)).1 ref
    operation_closeAllStreams s Hs (step_closeAll _)) as Hclosed.
  revert Hclosed. unfold on_session. destruct (operation_closeAllStreams (session_at ref s)) as [streams session'].
  cbn [fst snd]. intros Hclosed. by apply good_with_sessions_delete, good_clear_all.
Qed.

Lemma good_shutdown base s : lasting = false → service_good base [] s → service_good base [] (shutdown s).
Proof.
  intros Hlasting Hs. unfold shutdown. apply good_append with []; try done.
  - apply (good_with_deliveries base [] s.(deliveries) JsMap.empty) in Hs as (Hbase & Hledger & [Hclears Hheap _ _ _]).
    split; [done|]. split; [done|]. by split.
  - by rewrite Hlasting.
Qed.

Lemma good_failed base c ref streamId s :
  service_good base [] s → service_good base [] (data_failed c ref streamId s).
Proof. intros Hs. unfold data_failed. by apply good_delete_if_empty, good_send, good_close_stream. Qed.

Lemma good_persisted base c ref streamId s :
  service_good base [] s → service_good base [] (data_persisted c ref streamId s).
Proof.
  intros Hs. unfold data_persisted.
  pose proof (good_on_session base [] [] ref (operation_grantWindowIfNeeded streamId) s Hs (step_grant streamId _)) as Hg.
  destruct (on_session _ _ _) as [[message|] s1]; [by apply good_send|exact Hg].
Qed.

Lemma open_accepted input session response stream session' :
  session_good session → operation_openStream input session = (OpenAccepted response stream, session') →
  input.(openOperation_format) = OperationStreamFormat ∧
  stream.(stream_info) = mkOperationInfo input.(openOperation_operationId) input.(openOperation_operationKind) ∧
  session_good session' ∧ JsMap.get session.(operation_streamsById) OperationStreamId = None ∧
  ∀ id, JsMap.get session'.(operation_streamsById) id =
    put_stream session.(operation_streamsById) OperationStreamId (Some stream) id.
Proof.
  intros [Hok Hwf]. pose proof (law_open (T := BootstrapOperationSession) input session Hok) as Hlaw.
  revert Hlaw. cbn [session_openStream operation_session]. unfold operation_openStream. cbv zeta.
  case_bool_decide as Hid; cbn [negb]; [|done]. case_bool_decide as Hformat; cbn [negb]; [|done].
  destruct (JsMap.has _ _); [done|]. intros (family & _ & Hnone & _ & _ & Hok' & _ & _ & Hstreams) [= <- <- <-].
  cbn in Hstreams. split; [done|]. split; [done|]. split; [split; [done|by apply JsMap.wf_set]|].
  rewrite Hid in *. by split.
Qed.

Lemma open_rejected input session response session' :
  operation_openStream input session = (OpenRejected response, session') → session' = session.
Proof. unfold operation_openStream. cbv zeta. repeat case_match; by intros [= <-]. Qed.

(** A stream more is live once it is opened, and one more is recorded as opened. *)
Lemma live_opening key ref session' (stream : ActiveBootstrapOperationStream) s {c sessionKey} :
  JsMap.get (session_at ref s).(operation_streamsById) OperationStreamId = None →
  JsMap.get session'.(operation_streamsById) OperationStreamId =
    put_stream (session_at ref s).(operation_streamsById) OperationStreamId (Some stream) OperationStreamId →
  tally (clearing key) s.(operation_effects) + live key s.(session_heap) + owed key []
    <= tally (opening key) s.(operation_effects) →
  let s' := record_opened c stream
    (with_sessions (JsMap.set s.(operation_sessions) sessionKey ref) (put_session ref session' s)) in
  tally (clearing key) s'.(operation_effects) + live key s'.(session_heap) + owed key []
    <= tally (opening key) s'.(operation_effects).
Proof.
  intros Hnone Hstream Hclears s'. pose proof (live_put_session key ref session' s) as Hlive.
  unfold open_streams_of in Hlive. rewrite Hnone, Hstream in Hlive. unfold put_stream in Hlive.
  rewrite decide_True in Hlive by done. change (owed key (option_list None)) with 0 in Hlive.
  change (owed key (option_list (Some stream))) with ((if key_of_operation key stream.(stream_info) then 1 else 0) + 0)
    in Hlive. change s'.(operation_effects) with (s.(operation_effects) ++ [StreamOpened c stream.(stream_info)]).
  change s'.(session_heap) with (put_session ref session' s).(session_heap).
  rewrite !tally_app. cbn [clearing opening]. change (owed key []) with 0 in *. lia.
Qed.

(** The session a stream is opened on: that of the connection, or a new one. *)
Lemma good_opening base c ref session' response stream input s :
  (c, OperationOpenDelivery input) ∈ inputs → service_good base [] s → is_Some (s.(session_heap) !! ref) →
  (JsMap.get s.(operation_sessions) (toSessionKey c) = Some ref ∨
   ∀ sessionKey, JsMap.get s.(operation_sessions) sessionKey ≠ Some ref) →
  (∀ sessionKey id stream, JsMap.get (session_at ref s).(operation_streamsById) id = Some stream →
     sessionKey = toSessionKey c → opened_on sessionKey s.(operation_effects) stream.(stream_info)) →
  operation_openStream input (session_at ref s) = (OpenAccepted response stream, session') →
  service_good base [] (record_opened c stream
    (with_sessions (JsMap.set s.(operation_sessions) (toSessionKey c) ref) (put_session ref session' s))).
Proof.
  intros Hinput Hs Hsome Hfound Hopened Hopen. pose proof Hs as (Hbase & Hledger & Hsessions).
  destruct (open_accepted _ _ _ _ _ (session_at_good _ _ ref Hsessions) Hopen)
    as (Hformat & Hinfo & Hgood & Hnone & Hstreams).
  pose proof Hsessions as [Hclears Hheap Hrefs Hof Howners].
  pose proof Hledger as [Hcount Hlimit _ _ _ _].
  split; [by apply prefix_app_r|]. split.
  { eapply ledger_append; [exact Hledger|done..|]. intros c' info [= <- <-]. exists input. by rewrite Hinfo. }
  split.
  - intros key. exact (live_opening key ref session' stream s Hnone (Hstreams OperationStreamId) (Hclears key)).
  - intros ref' session Hin. cbn in Hin. apply lookup_insert_Some in Hin as [[_ <-]|[_ Hin]]; [done|by eapply Hheap].
  - intros k ref' Hget. cbn in Hget |- *. apply lookup_insert_is_Some'. rewrite JsMap.get_set in Hget.
    case_decide; [left; by injection Hget|right; by eapply Hrefs].
  - intros k ref' id new Hget Hnew. cbn in Hget.
    change (opened_on k (s.(operation_effects) ++ [StreamOpened c stream.(stream_info)]) new.(stream_info)).
    change (session_at ref' (record_opened c stream (with_sessions
      (JsMap.set s.(operation_sessions) (toSessionKey c) ref) (put_session ref session' s))))
      with (session_at ref' (put_session ref session' s)) in Hnew.
    assert (∀ info, opened_on k s.(operation_effects) info →
      opened_on k (s.(operation_effects) ++ [StreamOpened c stream.(stream_info)]) info) as Hmono.
    { intros info. apply opened_on_mono. by apply prefix_app_r. }
    rewrite JsMap.get_set in Hget. destruct (decide (ref = ref')) as [<-|Hne].
    + rewrite session_at_put in Hnew. rewrite Hstreams in Hnew.
      assert (k = toSessionKey c) as ->.
      { case_decide; [done|]. destruct Hfound as [Hc|Hfree]; [by eapply Howners|by destruct (Hfree k)]. }
      unfold put_stream in Hnew. destruct (decide (OperationStreamId = id)); [|by apply Hmono; eapply Hopened].
      injection Hnew as <-. exists c. split; [|done]. apply elem_of_app. right. left.
    + rewrite session_at_put_ne in Hnew by done. case_decide; [congruence|]. by eapply Hmono, Hof.
  - intros k k' ref' Hget Hget'. cbn in Hget, Hget'. rewrite JsMap.get_set in Hget, Hget'.
    repeat case_decide; simplify_eq; try done; destruct Hfound as [Hc|Hfree];
      first [by eapply Howners|by edestruct Hfree].
Qed.

Lemma good_put_new base s :
  let ref := fresh (dom s.(session_heap)) in
  service_good base [] s → service_good base [] (put_session ref
    (new_operation_session DefaultStreamWindowBytes OperationWindowGrantBatchBytes) s) ∧
  s.(session_heap) !! ref = None ∧ ∀ sessionKey, JsMap.get s.(operation_sessions) sessionKey ≠ Some ref.
Proof.
  intros ref (Hbase & Hledger & Hsessions).
  assert (s.(session_heap) !! ref = None) as Hnone by (apply not_elem_of_dom, is_fresh).
  split; [split; [done|split; [done|]]|split; [done|]].
  - apply (sessions_put [] []); [done|]. unfold session_at. rewrite Hnone. apply step_same, new_session_good.
  - intros sessionKey Hget. destruct (good_refs _ _ Hsessions _ _ Hget) as [session Hin]. congruence.
Qed.

Lemma good_handleOpen base c input s :
  (c, OperationOpenDelivery input) ∈ inputs → service_good base [] s → service_good base [] (handleOpen c input s).
Proof.
  intros Hinput Hs. unfold handleOpen. cbv zeta.
  set (found := match JsMap.get _ _ with Some ref => _ | None => _ end).
  assert (service_good base [] found.2 ∧ is_Some (found.2.(session_heap) !! found.1) ∧
    (JsMap.get found.2.(operation_sessions) (toSessionKey c) = Some found.1 ∨
     (∀ sessionKey, JsMap.get found.2.(operation_sessions) sessionKey ≠ Some found.1)) ∧
    (∀ sessionKey id stream, JsMap.get (session_at found.1 found.2).(operation_streamsById) id = Some stream →
       sessionKey = toSessionKey c → opened_on sessionKey found.2.(operation_effects) stream.(stream_info)))
    as (Hfound & Hsome & Howner & Hopened).
  { subst found. destruct (JsMap.get s.(operation_sessions) (toSessionKey c)) as [ref|] eqn:Hget; cbn [fst snd].
    - pose proof Hs as (_ & _ & Hsessions). split; [done|]. split; [by eapply good_refs|]. split; [by left|].
      intros sessionKey id stream Hstream ->. by eapply good_streams.
    - destruct (good_put_new base s Hs) as (Hnew & _ & Hfree). split; [done|].
      split; [cbn; rewrite lookup_insert_eq; by eexists|]. split; [by right|].
      intros sessionKey id stream. by rewrite session_at_put. }
  clearbody found. destruct found as [ref s1]. cbn [fst snd] in *. unfold on_session.
  destruct (operation_openStream input (session_at ref s1)) as [[response stream|response] session'] eqn:Hopen.
  - apply good_send. exact (good_opening base c ref session' response stream input s1 Hinput Hfound Hsome Howner Hopened Hopen).
  - apply good_delete_if_empty, good_send.
    apply open_rejected in Hopen as ->. destruct Hfound as (Hbase & Hledger & Hsessions).
    split; [done|]. split; [done|]. apply (sessions_put [] []); [done|].
    by apply step_same, (session_at_good [] s1 ref).
Qed.

(** What [handleData] goes on to store: the payload of the data a connection has sent, for an
    operation it has opened a stream for. *)
Definition accepted_from (c : SessionKeyInput) (delivery : OperationDelivery) (effects : list OperationEffect)
    (data : AcceptedData) : Prop :=
  ∃ payload streamId frame, delivery = OperationDataDelivery payload streamId ∧
    decodeDataFrame payload = inr frame ∧ data.(data_payload) = frame.(frame_payload) ∧
    opened_on (toSessionKey c) effects data.(data_stream).(stream_info).

Lemma good_accept base c payload streamId ref s :
  service_good base [] s → JsMap.get s.(operation_sessions) (toSessionKey c) = Some ref →
  let (r, s') := accept_data c payload streamId ref s in
  service_good base [] s' ∧
  ∀ data, r = inr (Some data) → accepted_from c (OperationDataDelivery payload streamId) s'.(operation_effects) data.
Proof.
  intros Hs Hget. unfold accept_data.
  destruct (decodeDataFrame payload) as [message|frame] eqn:Hframe; [by split|].
  pose proof Hs as (_ & _ & Hsessions).
  set (n := Z.of_nat (length frame.(frame_payload))).
  destruct (step_consume n streamId (session_at ref s) (session_at_good _ _ ref Hsessions)) as [Hstep Hinfo].
  pose proof (good_on_session base [] _ ref (operation_consumeWindow n streamId) s Hs (λ _, Hstep)) as Hconsumed.
  unfold on_session in *. destruct (operation_consumeWindow n streamId (session_at ref s)) as [[stream|response stream] session'];
    cbn [fst snd] in *.
  - split; [exact Hconsumed|]. intros data [= <-]. exists payload, streamId, frame.
    do 3 (split; [done|]). cbn [data_stream put_session with_heap operation_effects].
    destruct (Hinfo stream eq_refl) as (stream' & Hstream & ->). by eapply good_streams.
  - split; [|done]. by apply good_delete_if_empty, good_send, good_clear_if_closed.
Qed.

Lemma good_receive base c delivery s :
  (c, delivery) ∈ inputs → service_good base [] s →
  let (r, s') := receive_delivery c delivery s in
  service_good base [] s' ∧ ∀ data, r = inr (Some data) → accepted_from c delivery s'.(operation_effects) data.
Proof.
  intros Hinput Hs. unfold receive_delivery.
  destruct delivery; [split; [by apply good_handleOpen|done]|..];
    destruct (JsMap.get _ _) as [ref|] eqn:Hget; try (split; [|done]);
    auto using good_delete_if_empty, good_send, good_close_stream. by apply good_accept.
Qed.

Lemma event_bytes_record sandbox info r : event_bytes (record_event sandbox info r) = transcript_bytes r.
Proof. by destruct r. Qed.

Lemma event_key_record sandbox info r : event_key (record_event sandbox info r) = operationKey sandbox info.
Proof. by destruct r. Qed.

Lemma transcript_bytes_pos r : 0 <= transcript_bytes r.
Proof. destruct r; cbn; lia. Qed.

Lemma good_persist_line base c payload streamId frame info line s :
  (c, OperationDataDelivery payload streamId) ∈ inputs → decodeDataFrame payload = inr frame →
  line ∈ payload_lines frame.(frame_payload) → opened_on (toSessionKey c) s.(operation_effects) info →
  service_good base [] s → service_good base [] (persist_line c.(key_sandboxInstanceId) info line s).2.
Proof.
  intros Hinput Hframe Hline Hopened Hs. unfold persist_line.
  destruct (Z.ltb_spec MaxOperationRecordBytes (Z.of_nat (String.length line))); [done|].
  destruct (parseOperationRecord line) as [|r] eqn:Hparse; [done|]. cbv zeta.
  set (key := operationKey c.(key_sandboxInstanceId) info). set (used := default 0 _).
  destruct ((0 <? transcript_bytes r) && _) eqn:Hfull; [done|].
  pose proof Hs as (_ & [Hcount Hlimit _ _ _ _] & _). pose proof (transcript_bytes_pos r) as Hpos.
  assert (∀ k, default 0 (JsMap.get (if 0 <? transcript_bytes r
      then JsMap.set s.(persistedTranscriptBytesByOperation) key (used + transcript_bytes r)
      else s.(persistedTranscriptBytesByOperation)) k) =
    default 0 (JsMap.get s.(persistedTranscriptBytesByOperation) k) +
      (if decide (k = key) then transcript_bytes r else 0)) as Hget.
  { intros k. destruct (Z.ltb_spec 0 (transcript_bytes r)).
    - rewrite JsMap.get_set. case_decide; case_decide; simplify_eq; cbn; [done|lia].
    - case_decide; lia. }
  cbn [snd]. apply good_append with []; [done| | |done| |done|done].
  - intros k. rewrite Hget, Hcount. cbn [count_effect]. rewrite event_key_record, event_bytes_record. fold key.
    case_bool_decide; case_decide; simplify_eq; try done; lia.
  - intros k. rewrite Hget. specialize (Hlimit k). destruct (decide _) as [->|]; [|lia]. fold used in Hlimit |- *.
    apply andb_false_iff in Hfull as [Hfull|Hfull]; apply Z.ltb_ge in Hfull; lia.
  - intros event [= <-]. by exists c, payload, streamId, frame, line, r, info.
Qed.

(** *** Deliveries beside each other *)

(** What a turn of a delivery, or of the environment, keeps. *)
Definition evolves : relation Service := λ s s', ∀ base, service_good base [] s → service_good base [] s'.

#[local] Instance evolves_preorder : PreOrder evolves.
Proof. split; [by intros s base|]. intros s1 s2 s3 H12 H23 base Hs. by apply H23, H12. Qed.

Lemma good_base base base' debt s : service_good base debt s → base' `prefix_of` s.(operation_effects) → service_good base' debt s.
Proof. intros (_ & ? & ?) ?. by split. Qed.

Lemma evolves_prefix base s s' : service_good base [] s → evolves s s' →
  s.(operation_effects) `prefix_of` s'.(operation_effects).
Proof. intros Hs Hevolves. by apply (Hevolves s.(operation_effects)), (good_base base). Qed.

(** From a service that is well-formed and satisfies [Pre], in any interleaving. *)
Definition triple {A} (Pre : Service → Prop) (p : Delivery A) (Post : Service → OperationIngressError + A → Prop)
    : Prop := ∀ s, service_good [] [] s → Pre s →
  holds ingress_op_step evolves evolves p (λ s' r, service_good [] [] s' ∧ Post s' r) s.

(** What other deliveries cannot change. *)
Definition lasts (Pre : Service → Prop) : Prop :=
  ∀ s s', service_good [] [] s → evolves s s' → Pre s → Pre s'.

Lemma triple_turn {A} (Pre : Service → Prop) (code : M OperationIngressError Service A)
    (Post : Service → OperationIngressError + A → Prop) :
  lasts Pre →
  (∀ base s, service_good base [] s → Pre s →
     let (r, s') := code s in service_good base [] s' ∧ Post s' r) → triple Pre (turn code) Post.
Proof.
  intros Hlasts Hcode s Hs Hpre. apply holds_perform. intros s1 r s2 Hevolves Hstep. cbn in Hstep.
  pose proof (Hevolves [] Hs) as Hs1. pose proof (Hlasts s s1 Hs Hevolves Hpre) as Hpre1.
  assert (∀ base, service_good base [] s1 → service_good base [] s2 ∧ Post s2 r) as Hturn.
  { intros base Hbase. specialize (Hcode base s1 Hbase Hpre1). by rewrite Hstep in Hcode. }
  split; [intros base Hbase; by apply Hturn|by apply Hturn].
Qed.

Lemma triple_await Pre promise : lasts Pre → triple Pre (perform (AwaitDelivery promise)) (λ s r, r = inr tt ∧ Pre s).
Proof.
  intros Hlasts s Hs Hpre. apply holds_perform. intros s1 r s2 Hevolves (_ & -> & ->).
  split; [done|]. split; [by apply Hevolves|]. split; [done|by eapply Hlasts].
Qed.

Lemma triple_insert Pre : lasts Pre → triple Pre (perform AwaitInsert) (λ s _, Pre s).
Proof.
  intros Hlasts s Hs Hpre. apply holds_perform. intros s1 r s2 Hevolves (_ & ->).
  split; [done|]. split; [by apply Hevolves|by eapply Hlasts].
Qed.

Lemma triple_bind {A B} Pre (p : Delivery A) (f : A → Delivery B) P Q :
  triple Pre p P → (∀ s e, P s (inl e) → Q s (inl e)) → (∀ a, triple (λ s, P s (inr a)) (f a) Q) →
  triple Pre (p ≫= f) Q.
Proof.
  intros Hp Herr Hf s Hs Hpre. apply holds_bind. eapply holds_mono; [|by apply Hp].
  intros s' [e|a] [Hs' HP]; [split; [done|by apply Herr]|by apply Hf].
Qed.

Lemma triple_attempt {A} Pre (p : Delivery A) P :
  triple Pre p P → triple Pre (attempt p) (λ s r, ∃ r', r = inr r' ∧ P s r').
Proof.
  intros Hp s Hs Hpre. apply holds_attempt. eapply holds_mono; [|by apply Hp].
  intros s' r [Hs' HP]. split; [done|]. by exists r.
Qed.

Lemma triple_mono {A} (Pre Pre' : Service → Prop) (p : Delivery A) P Q :
  triple Pre p P → (∀ s, Pre' s → Pre s) → (∀ s r, P s r → Q s r) → triple Pre' p Q.
Proof.
  intros Hp Hpre HPQ s Hs Hpre'. eapply holds_mono; [|apply Hp; auto].
  intros s' r [? ?]. auto.
Qed.

Lemma triple_return {A} Pre (a : A) Post : (∀ s, Pre s → Post s (inr a)) → triple Pre (Return a) Post.
Proof. intros HPost s Hs Hpre. split; [done|by apply HPost]. Qed.

Lemma lasts_opened sessionKey info : lasts (λ s, opened_on sessionKey s.(operation_effects) info).
Proof. intros s s' Hs Hevolves. apply opened_on_mono. by eapply evolves_prefix. Qed.

Lemma lasts_pure (P : Prop) : lasts (λ _, P).
Proof. by intros s s'. Qed.

Lemma persistRecords_keeps c payload streamId frame info :
  (c, OperationDataDelivery payload streamId) ∈ inputs → decodeDataFrame payload = inr frame →
  triple (λ s, opened_on (toSessionKey c) s.(operation_effects) info)
    (persistRecords c.(key_sandboxInstanceId) info frame.(frame_payload)) (λ _ _, True).
Proof.
  intros Hinput Hframe. unfold persistRecords.
  assert (payload_lines frame.(frame_payload) ⊆ payload_lines frame.(frame_payload)) as Hsub by done.
  revert Hsub. generalize (payload_lines frame.(frame_payload)) at 1 3 as lines.
  induction lines as [|line lines IH]; intros Hsub; [by apply triple_return|]. cbn [each].
  set (opened := λ s : Service, opened_on (toSessionKey c) s.(operation_effects) info).
  assert (lasts opened) as Hlasts by apply lasts_opened.
  assert (line ∈ payload_lines frame.(frame_payload)) as Hline by (apply Hsub; left).
  apply triple_bind with (P := λ s _, opened s); [|done|intros _; apply IH; intros x Hx; apply Hsub; by right].
  apply triple_bind with (P := λ s _, opened s); [|done|].
  - apply triple_turn; [done|]. intros base s Hs Hopened.
    pose proof (good_persist_line base c payload streamId frame info line s Hinput Hframe Hline Hopened Hs) as Hs'.
    pose proof (good_persist_line s.(operation_effects) c payload streamId frame info line s Hinput Hframe Hline
      Hopened (good_base _ _ _ _ Hs (reflexivity _))) as (Hprefix & _).
    destruct (persist_line _ _ _ _) as [r s']. split; [exact Hs'|]. by eapply opened_on_mono.
  - intros [|]; [by apply triple_insert|by apply triple_return].
Qed.

(** How a delivery fails: its frame cannot be decoded. *)
Definition undecodable (delivery : OperationDelivery) (r : OperationIngressError + unit) : Prop :=
  match r with
  | inr _ => True
  | inl e => ∃ payload streamId message, delivery = OperationDataDelivery payload streamId ∧
      decodeDataFrame payload = inl message ∧ e = InvalidFrame message
  end.

Lemma receive_undecodable c delivery s e :
  (receive_delivery c delivery s).1 = inl e → undecodable delivery (inl e).
Proof.
  unfold receive_delivery, accept_data. destruct delivery as [|id|payload id|kind id]; cbn [fst]; try done;
    destruct (JsMap.get _ _) as [ref|]; cbn [fst]; try done.
  destruct (decodeDataFrame payload) as [message|frame] eqn:Hdecode.
  - intros [= <-]. by exists payload, id, message.
  - destruct (on_session _ _ _) as [[] ?]; done.
Qed.

(** After it has been received, a delivery has failed, is done, or has data to store. *)
Definition received (c : SessionKeyInput) (delivery : OperationDelivery) (s : Service)
    (r : OperationIngressError + option AcceptedData) : Prop :=
  match r with
  | inl e => undecodable delivery (inl e)
  | inr accepted => ∀ data, accepted = Some data → accepted_from c delivery s.(operation_effects) data
  end.

Lemma receive_keeps c delivery : (c, delivery) ∈ inputs →
  triple (λ _, True) (turn (receive_delivery c delivery)) (received c delivery).
Proof.
  intros Hinput. apply triple_turn; [apply lasts_pure|]. intros base s Hs _.
  pose proof (good_receive base c delivery s Hinput Hs) as Hgood.
  pose proof (receive_undecodable c delivery s) as Herr.
  destruct (receive_delivery c delivery s) as [[e|accepted] s']; cbn [fst] in Herr.
  - split; [by destruct Hgood|by apply Herr].
  - destruct Hgood as [Hs' Haccepted]. split; [done|]. intros data ->. by apply Haccepted.
Qed.

Lemma store_data_keeps c delivery data : (c, delivery) ∈ inputs →
  triple (λ s, accepted_from c delivery s.(operation_effects) data) (store_data c data) (λ _ r, r = inr tt).
Proof.
  intros Hinput. unfold store_data.
  apply triple_bind with (P := λ _ r, ∃ r', r = inr r').
  - intros s Hs (payload & streamId & frame & -> & Hframe & -> & Hopened).
    eapply holds_mono; [|exact (triple_attempt _ _ _ (persistRecords_keeps c payload streamId frame
      data.(data_stream).(stream_info) Hinput Hframe) s Hs Hopened)].
    intros s' r [Hs' (r' & -> & _)]. split; [done|by exists r'].
  - by intros s e [r' [=]].
  - intros [e|[]]; (apply triple_turn; [apply lasts_pure|]); intros base s Hs _;
      (split; [|done]); [by apply good_failed|by apply good_persisted].
Qed.

Lemma processDelivery_keeps c delivery : (c, delivery) ∈ inputs →
  triple (λ _, True) (processDelivery c delivery) (λ _, undecodable delivery).
Proof.
  intros Hinput. unfold processDelivery.
  apply triple_bind with (P := received c delivery); [by apply receive_keeps|done|].
  intros [data|]; cbn [from_option]; [|by apply triple_return].
  eapply triple_mono; [by apply (store_data_keeps c delivery data)| |by intros s r ->].
  intros s Hreceived. by apply Hreceived.
Qed.

Lemma handleDelivery_keeps c delivery : (c, delivery) ∈ inputs →
  triple (λ _, True) (handleDelivery c delivery) (λ _, undecodable delivery).
Proof.
  intros Hinput. unfold handleDelivery.
  apply triple_bind with (P := λ _ r, ∃ a, r = inr a).
  { apply triple_turn; [apply lasts_pure|]. intros base s Hs _.
    split; [by apply good_with_deliveries|by eexists]. }
  { by intros s e []. }
  intros [previous promise]. apply triple_bind with (P := λ _ r, r = inr tt); [|done|].
  { destruct previous; cbn [from_option]; [|by apply triple_return].
    eapply triple_mono; [apply (triple_await (λ _, True)); apply lasts_pure|done|]. by intros s r [-> _]. }
  intros []. apply triple_bind with (P := λ _ r, ∃ r', r = inr r' ∧ undecodable delivery r').
  { eapply triple_mono; [apply triple_attempt; by apply processDelivery_keeps|done|done]. }
  { by intros s e (? & [=] & _). }
  intros r. apply triple_bind with (P := λ _ r', r' = inr tt ∧ undecodable delivery r); [|by intros s e [[=] _]|].
  { apply triple_turn; [apply lasts_pure|]. intros base s Hs (r' & [= <-] & Hr).
    split; [by apply good_with_deliveries|done]. }
  intros []. apply triple_bind with (P := λ _ r', r' = inr tt ∧ undecodable delivery r); [|by intros s e [[=] _]|].
  { apply triple_turn; [apply lasts_pure|]. intros base s Hs [_ Hr]. split; [|done].
    unfold modify, forget_delivery. destruct (_ =?= _); [by apply good_with_deliveries|done]. }
  intros [] s Hs [_ Hr]. by apply holds_finish.
Qed.

Lemma new_service_good : service_good [] [] new_operation_service.
Proof.
  split; [done|]. split.
  - split; try done; by intros ? ?.
  - split; try done; by intros ? ?.
Qed.

Lemma interleaved_deliveries (env : Service → Service → Prop) s' pool :
  (∀ s s', env s s' → evolves s s') →
  rtc (interleave ingress_op_step env)
    (new_operation_service, (λ i, handleDelivery i.1 i.2) <$> inputs) (s', pool) →
  service_good [] [] s' ∧
  ∀ i e, pool !! i = Some (Throw e) → ∃ c delivery, inputs !! i = Some (c, delivery) ∧ undecodable delivery (inl e).
Proof.
  intros Henv Hreach.
  set (Post := λ i (s : Service) (r : OperationIngressError + unit), service_good [] [] s ∧ ∀ e, r = inl e →
    ∃ c delivery, inputs !! i = Some (c, delivery) ∧ undecodable delivery (inl e)).
  assert (∀ i p, ((λ i, handleDelivery i.1 i.2) <$> inputs) !! i = Some p →
    holds ingress_op_step evolves evolves p (Post i) new_operation_service) as Hpool.
  { intros i p Hp. apply list_lookup_fmap_Some in Hp as ([c delivery] & -> & Hi).
    eapply holds_mono; [|apply handleDelivery_keeps; [by eapply list_elem_of_lookup_2|apply new_service_good|done]].
    intros s r [Hs Hr]. split; [done|]. intros e ->. by exists c, delivery. }
  destruct (interleaving_sound ingress_op_step env evolves evolves (λ _ _ H, H)
    Henv Post _ _ _ _ ltac:(intros i w w' a Hevolves [Hw Ha]; split; [by apply Hevolves|done]) Hpool Hreach)
    as [Hkeep Hthrown].
  split; [apply Hkeep, new_service_good|]. intros i e Hi. by apply (Hthrown i _ Hi).
Qed.

Lemma live_pos key heap : 0 <= live key heap.
Proof.
  unfold live. apply (map_fold_weak_ind (λ n _, 0 <= n)); [done|].
  intros ref session m n _ Hn. pose proof (owed_pos key (open_streams_of session)). lia.
Qed.

(** Every clearing but the last ends the budget of a stream that was opened. *)
Lemma opened_total s key :
  lasting = true → service_good [] [] s →
  tally (bytes_stored key) s.(operation_effects) <=
    MaxPersistedTranscriptBytesPerOperation * (tally (opening key) s.(operation_effects) + 1).
Proof.
  intros Hlasting (_ & [Hcount Hlimit Htotal Hdrops _ _] & [Hclears _ _ _ _]).
  specialize (Htotal key). specialize (Hclears key). specialize (Hlimit key). rewrite Hcount, Hdrops in Htotal by done.
  pose proof (live_pos key s.(session_heap)). change (owed key []) with 0 in Hclears.
  unfold MaxPersistedTranscriptBytesPerOperation in *. lia.
Qed.
End Ledger.

(** Connections that are detached, and no shutdown. *)
Definition detaching (s s' : Service) : Prop := ∃ c, s' = detachBootstrapSession c s.

(** C19: However any number of deliveries, on any connections, interleave with each other,
    with detached connections, with a shutdown and with a database that fails: for every
    operation, the output given to the database since the budget of the operation was
    last cleared is exactly what the service has counted, and never more than
    [MaxPersistedTranscriptBytesPerOperation]; and until a shutdown, the output given to the database
    in all is at most that for each stream that has been opened for the operation, and once more.
    A stream is only opened for an operation its connection has asked for.  Every event given
    to the database is the one of a line, of at most [MaxOperationRecordBytes] and parsed, of data a
    connection has sent; it is an event of the sandbox of this connection, and of an operation for
    which a stream had been opened before under the key of this connection.  A delivery is only
    rejected when it is data in a frame that cannot be decoded. *)
Theorem transcript_budget (inputs : list (SessionKeyInput * OperationDelivery)) (s' : Service)
    (pool : list (Delivery unit)) :
  let start := (new_operation_service, (λ i, handleDelivery i.1 i.2) <$> inputs) in
  rtc (interleave ingress_op_step ingress_env) start (s', pool) →
  (∀ key, stored_bytes key s'.(operation_effects) =
     default 0 (JsMap.get s'.(persistedTranscriptBytesByOperation) key) ∧
     0 <= stored_bytes key s'.(operation_effects) <= MaxPersistedTranscriptBytesPerOperation) ∧
  (rtc (interleave ingress_op_step detaching) start (s', pool) →
   ∀ key, tally (bytes_stored key) s'.(operation_effects) <=
     MaxPersistedTranscriptBytesPerOperation * (tally (opening key) s'.(operation_effects) + 1)) ∧
  (∀ n c info, s'.(operation_effects) !! n = Some (StreamOpened c info) → ∃ input,
     (c, OperationOpenDelivery input) ∈ inputs ∧ input.(openOperation_format) = OperationStreamFormat ∧
     info = mkOperationInfo input.(openOperation_operationId) input.(openOperation_operationKind)) ∧
  (∀ n event, s'.(operation_effects) !! n = Some (EventStored event) →
     ∃ c payload streamId frame line r info opener,
       (c, OperationDataDelivery payload streamId) ∈ inputs ∧ decodeDataFrame payload = inr frame ∧
       line ∈ payload_lines frame.(frame_payload) ∧
       Z.of_nat (String.length line) <= MaxOperationRecordBytes ∧ parseOperationRecord line = inr r ∧
       event = record_event c.(key_sandboxInstanceId) info r ∧
       StreamOpened opener info ∈ take n s'.(operation_effects) ∧ toSessionKey opener = toSessionKey c) ∧
  (∀ i e, pool !! i = Some (Throw e) → ∃ c payload streamId message,
     inputs !! i = Some (c, OperationDataDelivery payload streamId) ∧
     decodeDataFrame payload = inl message ∧ e = InvalidFrame message).
Proof.
  intros start Hreach.
  destruct (interleaved_deliveries inputs false ingress_env s' pool) as [(_ & Hledger & _) Hthrown];
    [|exact Hreach|].
  { intros s1 s2 [c|] base Hs; [by apply good_detach|by apply good_shutdown]. }
  destruct Hledger as [Hcount Hlimit _ _ Hevents Hopenings].
  split; [|split; [|split; [|split]]].
  - intros key. split; [apply Hcount|]. by rewrite Hcount.
  - intros Hlasting key.
    destruct (interleaved_deliveries inputs true detaching s' pool) as [Hgood _];
      [by intros s1 s2 [c ->] base Hs; apply good_detach|exact Hlasting|].
    by apply (opened_total inputs true).
  - exact Hopenings.
  - intros n event Hin. destruct (Hevents n event Hin) as (c & payload & streamId & frame & line & r & info
      & ? & ? & ? & ? & ? & ? & opener & ? & ?). by exists c, payload, streamId, frame, line, r, info, opener.
  - intros i e Hi. destruct (Hthrown i e Hi) as (c & delivery & Hin & payload & id & message & -> & ? & ?).
    by exists c, payload, id, message.
Qed.

(** ** What is stored of a payload *)

(** [s'] is [s] after [events] have been given to the database. *)
Record stores (events : list InsertSandboxOperationEventInput) (s s' : Service) : Prop := mkStores {
  stores_heap : s'.(session_heap) = s.(session_heap);
  stores_sessions : s'.(operation_sessions) = s.(operation_sessions);
  stores_deliveries : s'.(deliveries) = s.(deliveries);
  stores_chains : s'.(deliveryChains) = s.(deliveryChains);
  stores_effects : s'.(operation_effects) = s.(operation_effects) ++ (EventStored <$> events);
}.

Lemma stores_nothing s : stores [] s s.
Proof. split; [done..|]. by rewrite app_nil_r. Qed.

Lemma stores_app events events' s s1 s2 :
  stores events s s1 → stores events' s1 s2 → stores (events ++ events') s s2.
Proof.
  intros [H1 H2 H3 H4 H5] [K1 K2 K3 K4 K5]. split; [congruence..|].
  rewrite K5, H5, fmap_app. by rewrite (assoc_L (++)).
Qed.

(** A line stores one event or none. *)
Lemma persist_line_stores sandbox info line s :
  ∃ events, stores events s (persist_line sandbox info line s).2 ∧
    match (persist_line sandbox info line s).1 with
    | inr true => length events = 1%nat
    | _ => events = []
    end.
Proof.
  unfold persist_line. case_match; [exists []; split; [apply stores_nothing|done]|].
  destruct (parseOperationRecord line) as [|r]; [exists []; split; [apply stores_nothing|done]|].
  cbv zeta. case_match; [exists []; split; [apply stores_nothing|done]|].
  exists [record_event sandbox info r]. by split.
Qed.

(** The line of a record within the budget. *)
Lemma persist_line_record sandbox info line r s :
  let key := operationKey sandbox info in
  let used := default 0 (JsMap.get s.(persistedTranscriptBytesByOperation) key) in
  Z.of_nat (String.length line) <= MaxOperationRecordBytes → parseOperationRecord line = inr r →
  used + transcript_bytes r <= MaxPersistedTranscriptBytesPerOperation →
  ∃ s', persist_line sandbox info line s = (inr true, s') ∧ stores [record_event sandbox info r] s s' ∧
    default 0 (JsMap.get s'.(persistedTranscriptBytesByOperation) key) = used + transcript_bytes r.
Proof.
  intros key used Hlen Hparse Hfits. unfold persist_line. fold key. fold used.
  destruct (Z.ltb_spec MaxOperationRecordBytes (Z.of_nat (String.length line))); [lia|]. rewrite Hparse. cbv zeta.
  destruct (Z.ltb_spec MaxPersistedTranscriptBytesPerOperation (used + transcript_bytes r)); [lia|].
  rewrite andb_false_r. eexists. split; [reflexivity|]. split; [by split|].
  cbn [with_budgets persistedTranscriptBytesByOperation]. pose proof (transcript_bytes_pos r).
  destruct (Z.ltb_spec 0 (transcript_bytes r)); [by rewrite JsMap.get_set_eq|]. fold used. lia.
Qed.

(** A database that accepts every event, with no other delivery. *)
Definition accepting A (op : ingress_op A) : Service → (OperationIngressError + A) * Service :=
  match op in ingress_op A return Service → (OperationIngressError + A) * Service with
  | Turn code => code
  | AwaitDelivery _ => λ s, (inr tt, s)
  | AwaitInsert => λ s, (inr tt, s)
  end.

Notation total_transcript records := (foldr (λ r n, transcript_bytes r + n) 0 records).

Lemma run_persist_lines sandbox info (lines : list string) records s :
  let key := operationKey sandbox info in
  let used := default 0 (JsMap.get s.(persistedTranscriptBytesByOperation) key) in
  Forall2 (λ line r, Z.of_nat (String.length line) <= MaxOperationRecordBytes ∧
                     parseOperationRecord line = inr r) lines records →
  used + total_transcript records <= MaxPersistedTranscriptBytesPerOperation →
  ∃ s', run accepting (each lines (λ line,
      storing ← turn (persist_line sandbox info line);
      if storing : bool then perform AwaitInsert else Return tt)) s = (inr tt, s') ∧
    stores (record_event sandbox info <$> records) s s' ∧
    default 0 (JsMap.get s'.(persistedTranscriptBytesByOperation) key) = used + total_transcript records.
Proof.
  intros key used Hlines. subst used. revert s.
  induction Hlines as [|line r lines records [Hlen Hparse] _ IH]; intros s Hfits.
  { exists s. split; [done|]. split; [apply stores_nothing|]. cbn. lia. }
  assert (0 <= total_transcript records) as Hpos.
  { clear. induction records as [|r records IH]; cbn; [done|]. pose proof (transcript_bytes_pos r). lia. }
  cbn [foldr] in Hfits.
  destruct (persist_line_record sandbox info line r s Hlen Hparse) as (s1 & Hline & Hstores & Hused);
    [fold key; lia|]. fold key in Hused.
  destruct (IH s1) as (s' & Hrun & Hstores' & Hused'); [lia|]. exists s'. split_and!.
  - cbn [each]. rewrite run_bind, run_bind. unfold turn. rewrite run_perform. cbn [accepting].
    rewrite Hline. cbn iota. rewrite run_perform. exact Hrun.
  - exact (stores_app [_] _ _ _ _ Hstores Hstores').
  - cbn [foldr]. lia.
Qed.

(** The session [ref] of the connection has the stream open. *)
Record stream_open (c : SessionKeyInput) (ref : nat) (stream : ActiveBootstrapOperationStream) (s : Service)
    : Prop := mkStreamOpen {
  open_session : JsMap.get s.(operation_sessions) (toSessionKey c) = Some ref;
  open_stream : JsMap.get (session_at ref s).(operation_streamsById) stream.(stream_streamId) = Some stream;
}.

(** Data within the window is taken from it. *)
Lemma receive_data c ref stream payload frame s :
  stream_open c ref stream s → decodeDataFrame payload = inr frame →
  Z.of_nat (length frame.(frame_payload)) <= stream.(remainingWindowBytes) →
  let stream' := consumed stream (Z.of_nat (length frame.(frame_payload))) in
  ∃ s', receive_delivery c (OperationDataDelivery payload stream.(stream_streamId)) s =
      (inr (Some (mkAcceptedData ref stream' frame.(frame_payload))), s') ∧
    stream_open c ref stream' s' ∧
    s'.(operation_effects) = s.(operation_effects) ∧
    s'.(persistedTranscriptBytesByOperation) = s.(persistedTranscriptBytesByOperation) ∧
    (session_at ref s').(operation_windowGrantBatchBytes) = (session_at ref s).(operation_windowGrantBatchBytes).
Proof.
  intros [Hsession Hstream] Hframe Hfits. unfold receive_delivery, accept_data.
  rewrite Hsession, Hframe. unfold on_session, operation_consumeWindow. rewrite Hstream.
  destruct (Z.ltb_spec stream.(remainingWindowBytes) (Z.of_nat (length frame.(frame_payload)))); [lia|].
  eexists. split; [reflexivity|]. split; [|by rewrite session_at_put].
  split; [done|]. rewrite session_at_put. cbn [operation_streamsById with_operation_streams stream_streamId consumed].
  by rewrite JsMap.get_set_eq.
Qed.

(** The window message after data has been stored, and the stream with it. *)
Definition replenish_effects (c : SessionKeyInput) (stream : ActiveBootstrapOperationStream) (batch : Z)
    : list OperationEffect :=
  if batch <=? stream.(consumedSinceLastWindowGrantBytes)
  then [ControlSent c (StreamWindow OperationFamily stream.(stream_streamId)
          stream.(consumedSinceLastWindowGrantBytes))]
  else [].

Definition replenished (stream : ActiveBootstrapOperationStream) (batch : Z) : ActiveBootstrapOperationStream :=
  if batch <=? stream.(consumedSinceLastWindowGrantBytes) then granted stream else stream.

Lemma data_persisted_spec c ref stream s :
  let batch := (session_at ref s).(operation_windowGrantBatchBytes) in
  let s' := data_persisted c ref stream.(stream_streamId) s in
  stream_open c ref stream s →
  stream_open c ref (replenished stream batch) s' ∧
  s'.(operation_effects) = s.(operation_effects) ++ replenish_effects c stream batch ∧
  s'.(persistedTranscriptBytesByOperation) = s.(persistedTranscriptBytesByOperation).
Proof.
  intros batch s' [Hsession Hstream]. subst s'. unfold data_persisted, on_session, operation_grantWindowIfNeeded.
  rewrite Hstream. fold batch. unfold replenish_effects, replenished.
  rewrite Z.leb_antisym. destruct (_ <? batch) eqn:Hbatch; cbn [negb from_option].
  - rewrite app_nil_r. split; [|done]. split; [done|]. by rewrite session_at_put.
  - split; [|done]. split; [done|].
    change (JsMap.get (session_at ref (put_session ref
      (with_operation_streams (session_at ref s) (JsMap.set (session_at ref s).(operation_streamsById)
        stream.(stream_streamId) (granted stream))) s)).(operation_streamsById) stream.(stream_streamId)
      = Some (granted stream)).
    rewrite session_at_put. cbn [operation_streamsById with_operation_streams]. by rewrite JsMap.get_set_eq.
Qed.

Lemma stream_open_stores events c ref stream s s' :
  stores events s s' → stream_open c ref stream s → stream_open c ref stream s'.
Proof. intros [Hheap Hsessions _ _ _] [? ?]. split; unfold session_at; by rewrite ?Hheap, ?Hsessions. Qed.

(** Records that a payload of data may report at once: they survive their text, their
    lines are short, and the budget of the operation has room for their output. *)
Record reportable (sandboxInstanceId : string) (info : OperationInfo) (records : list OperationRecord)
    (s : Service) : Prop := mkReportable {
  reportable_ok : Forall record_ok records;
  reportable_text : Forall (json_well_formed ∘ record_json) records;
  reportable_short : Forall (λ r, Z.of_nat (String.length (JSON_stringify (record_json r)))
    <= MaxOperationRecordBytes) records;
  reportable_budget :
    default 0 (JsMap.get s.(persistedTranscriptBytesByOperation) (operationKey sandboxInstanceId info))
      + total_transcript records <= MaxPersistedTranscriptBytesPerOperation;
}.

Lemma reportable_lines `{!Base64Laws} sandbox info records s :
  reportable sandbox info records s →
  Forall2 (λ line r, Z.of_nat (String.length line) <= MaxOperationRecordBytes ∧
                     parseOperationRecord line = inr r) (payload_lines (records_payload records)) records.
Proof.
  intros [Hok Htext Hshort _]. rewrite records_payload_lines by done.
  apply Forall2_fmap_l, Forall_Forall2_diag. rewrite Forall_forall in Hok, Hshort |- *.
  intros r Hr. split; [by apply Hshort|by apply parse_record_json, Hok].
Qed.

Lemma run_data `{!Base64Laws} c ref stream payload frame records s :
  stream_open c ref stream s → decodeDataFrame payload = inr frame →
  frame.(frame_payload) = records_payload records →
  reportable c.(key_sandboxInstanceId) stream.(stream_info) records s →
  Z.of_nat (length (records_payload records)) <= stream.(remainingWindowBytes) →
  let stream' := consumed stream (Z.of_nat (length (records_payload records))) in
  let batch := (session_at ref s).(operation_windowGrantBatchBytes) in
  let key := operationKey c.(key_sandboxInstanceId) stream.(stream_info) in
  ∃ s', run accepting (processDelivery c (OperationDataDelivery payload stream.(stream_streamId))) s = (inr tt, s') ∧
    stream_open c ref (replenished stream' batch) s' ∧
    s'.(operation_effects) = s.(operation_effects)
      ++ (EventStored ∘ record_event c.(key_sandboxInstanceId) stream.(stream_info) <$> records)
      ++ replenish_effects c stream' batch ∧
    default 0 (JsMap.get s'.(persistedTranscriptBytesByOperation) key) =
      default 0 (JsMap.get s.(persistedTranscriptBytesByOperation) key) + total_transcript records.
Proof.
  intros Hopen Hframe Hpayload Hrecords Hfits stream' batch key.
  destruct (receive_data c ref stream payload frame s Hopen Hframe ltac:(by rewrite Hpayload))
    as (s1 & Hreceive & Hopen1 & Heffects & Hbudgets & Hbatch).
  rewrite Hpayload in Hreceive, Hopen1. fold stream' in Hreceive, Hopen1.
  destruct (run_persist_lines c.(key_sandboxInstanceId) stream.(stream_info) _ _ s1
    (reportable_lines _ _ _ _ Hrecords)) as (s2 & Hrun & Hstores & Hused).
  { rewrite Hbudgets. apply (reportable_budget _ _ _ _ Hrecords). }
  pose proof (stream_open_stores _ _ _ _ _ _ Hstores Hopen1) as Hopen2.
  destruct (data_persisted_spec c ref stream' s2 Hopen2) as (Hopen3 & Heffects3 & Hbudgets3).
  assert ((session_at ref s2).(operation_windowGrantBatchBytes) = batch) as Hbatch2.
  { unfold batch, session_at. rewrite (stores_heap _ _ _ Hstores). exact Hbatch. }
  rewrite Hbatch2 in Hopen3, Heffects3.
  exists (data_persisted c ref stream'.(stream_streamId) s2). split_and!.
  - unfold processDelivery, store_data. rewrite run_bind. unfold turn. rewrite run_perform. cbn [accepting].
    rewrite Hreceive. cbn [from_option data_stream data_payload data_session stream_info consumed stream'].
    rewrite run_bind, run_attempt. unfold persistRecords, turn in *. rewrite Hrun. cbn [fst snd].
    by rewrite run_perform.
  - exact Hopen3.
  - rewrite Heffects3, (stores_effects _ _ _ Hstores), Heffects. rewrite <- list_fmap_compose.
    by rewrite (assoc_L (++)).
  - rewrite Hbudgets3. fold key in Hused. by rewrite Hused, Hbudgets.
Qed.

Lemma run_handleDelivery c delivery s :
  let promise := length s.(deliveries) in
  let processed := run accepting (processDelivery c delivery) (chain_delivery c s).2 in
  run accepting (handleDelivery c delivery) s =
    (processed.1, forget_delivery c promise (settle_delivery promise processed.2)).
Proof.
  intros promise processed. unfold handleDelivery. rewrite run_bind. unfold turn at 1. rewrite run_perform.
  cbn [accepting update chain_delivery]. rewrite run_bind.
  assert (∀ previous s', run accepting (from_option (λ promise, perform (AwaitDelivery promise)) (Return tt) previous) s'
    = (inr tt, s')) as Hprevious by (by intros [|] s'; cbn [from_option]; rewrite ?run_perform).
  rewrite Hprevious, run_bind, run_attempt. unfold turn.
  rewrite run_bind, run_perform. cbn [accepting modify]. rewrite run_bind, run_perform. cbn [accepting modify].
  by rewrite run_finish.
Qed.

(** The bookkeeping of promises changes nothing else. *)
Lemma forget_settle_open c c' promise ref stream s :
  stream_open c ref stream s → stream_open c ref stream (forget_delivery c' promise (settle_delivery promise s)).
Proof. intros [? ?]. unfold forget_delivery. by case_match. Qed.

Lemma forget_settle_effects c promise s :
  let s' := forget_delivery c promise (settle_delivery promise s) in
  s'.(operation_effects) = s.(operation_effects) ∧
  s'.(persistedTranscriptBytesByOperation) = s.(persistedTranscriptBytesByOperation).
Proof. unfold forget_delivery. by case_match. Qed.

(** C20: A sandbox that reports records on its open stream, a line each, in a payload that
    fits into its window, has them all stored when the database accepts them: one event
    for each record, in their order, of the operation of the stream.  The output they
    carry is added to the budget of the operation; the stream stays open, and once
    [OperationWindowGrantBatchBytes] bytes have been consumed the sandbox is granted
    them again.  Nothing else is stored or sent. *)
Theorem reported_records_stored `{!Base64Laws} (c : SessionKeyInput) (ref : nat)
    (stream : ActiveBootstrapOperationStream) (kind : Z) (records : list OperationRecord) (s : Service) :
  let payload := records_payload records in
  let stream' := consumed stream (Z.of_nat (length payload)) in
  let batch := (session_at ref s).(operation_windowGrantBatchBytes) in
  let key := operationKey c.(key_sandboxInstanceId) stream.(stream_info) in
  stream_open c ref stream s → valid_stream_id stream.(stream_streamId) → supported_kind kind →
  reportable c.(key_sandboxInstanceId) stream.(stream_info) records s →
  Z.of_nat (length payload) <= stream.(remainingWindowBytes) →
  ∃ s', run accepting (handleDelivery c (OperationDataDelivery
            (frame_bytes stream.(stream_streamId) kind payload) stream.(stream_streamId))) s = (inr tt, s') ∧
    s'.(operation_effects) = s.(operation_effects)
      ++ (EventStored ∘ record_event c.(key_sandboxInstanceId) stream.(stream_info) <$> records)
      ++ replenish_effects c stream' batch ∧
    stream_open c ref (replenished stream' batch) s' ∧
    default 0 (JsMap.get s'.(persistedTranscriptBytesByOperation) key) =
      default 0 (JsMap.get s.(persistedTranscriptBytesByOperation) key) + total_transcript records.
Proof.
  intros payload stream' batch key Hopen Hid Hkind Hrecords Hfits. rewrite run_handleDelivery.
  destruct (run_data c ref stream (frame_bytes stream.(stream_streamId) kind payload) _ records
    (chain_delivery c s).2 ltac:(by destruct Hopen) (decodeDataFrame_bytes _ _ _ Hid Hkind) eq_refl
    ltac:(by destruct Hrecords) Hfits) as (s' & Hrun & Hopen' & Heffects & Hused).
  rewrite Hrun. cbn [fst snd]. eexists. split; [reflexivity|].
  destruct (forget_settle_effects c (length s.(deliveries)) s') as [-> ->].
  split; [exact Heffects|]. split; [by apply forget_settle_open|exact Hused].
Qed.

(** ** A database that may fail *)

(** The service with what the database has answered to the events it was given. *)
Notation Answered := (Service * list bool)%type.

Definition answer_of A (op : ingress_op A) : OperationIngressError + A → list bool :=
  match op in ingress_op A return OperationIngressError + A → list bool with
  | AwaitInsert => λ r, [match r with inl _ => false | inr _ => true end]
  | Turn _ | AwaitDelivery _ => λ _, []
  end.

Definition answered_step A (op : ingress_op A) (w : Answered) (r : OperationIngressError + A) (w' : Answered) : Prop :=
  ingress_op_step A op w.1 r w'.1 ∧ w'.2 = w.2 ++ answer_of A op r.

(** A delivery with no other beside it. *)
Notation alone := (rtc (λ _ _ : Answered, False)).
Notation ends p Post := (holds answered_step alone (λ _ _, True) p Post).

Lemma alone_same w w' : alone w w' → w' = w.
Proof. by destruct 1. Qed.

Lemma ends_turn {A} (code : M OperationIngressError Service A) (Post : Answered → OperationIngressError + A → Prop) w :
  Post ((code w.1).2, w.2) (code w.1).1 → ends (turn code) Post w.
Proof.
  intros Hpost. apply holds_perform. intros w1 r [s2 answers2] ->%alone_same [Hstep Hanswers]. cbn in Hstep, Hanswers.
  rewrite app_nil_r in Hanswers. subst answers2. by rewrite Hstep in Hpost.
Qed.

Lemma ends_insert (Post : Answered → OperationIngressError + unit → Prop) w :
  Post (w.1, w.2 ++ [true]) (inr tt) → Post (w.1, w.2 ++ [false]) (inl InsertRejected) → ends (perform AwaitInsert) Post w.
Proof.
  intros Hok Hrejected. apply holds_perform. intros w1 r [s2 answers2] ->%alone_same [[Hr Hs] Hanswers].
  cbn in Hr, Hs, Hanswers. subst s2 answers2. by destruct Hr as [-> | ->].
Qed.

(** The event a line may be stored as. *)
Definition line_event (sandboxInstanceId : string) (info : OperationInfo) (line : string)
    : option InsertSandboxOperationEventInput :=
  match parseOperationRecord line with
  | inr r => Some (record_event sandboxInstanceId info r)
  | inl _ => None
  end.

(** A line that the service reads: short enough, but no record. *)
Definition bad_line (line : string) : Prop :=
  Z.of_nat (String.length line) <= MaxOperationRecordBytes ∧ ∃ error, parseOperationRecord line = inl error.

(** What the database has answered when storing the lines has ended so: every event got its
    answer; storing succeeds when no line is bad and all events were accepted, and it
    fails at a bad line or at the first event that is rejected. *)
Definition answers_end (lines : list string) (answers : list bool) (r : OperationIngressError + unit) : Prop :=
  match r with
  | inr _ => Forall (λ line, ¬ bad_line line) lines ∧ Forall (eq true) answers
  | inl InsertRejected => ∃ accepted, answers = accepted ++ [false] ∧ Forall (eq true) accepted
  | inl _ => Exists bad_line lines ∧ Forall (eq true) answers
  end.

(** The events are those of some of the lines, in their order. *)
Definition lines_stored (sandboxInstanceId : string) (info : OperationInfo) (lines : list string) (w w' : Answered)
    (r : OperationIngressError + unit) : Prop :=
  ∃ events answers, stores events w.1 w'.1 ∧ sublist events (omap (line_event sandboxInstanceId info) lines) ∧
    w'.2 = w.2 ++ answers ∧ length answers = length events ∧ answers_end lines answers r.

(** What [persist_line] stores is the event of its line. *)
Lemma persist_line_cases sandbox info line s :
  let (r, s') := persist_line sandbox info line s in
  match r with
  | inr true => ¬ bad_line line ∧ ∃ event, line_event sandbox info line = Some event ∧ stores [event] s s'
  | inr false => ¬ bad_line line ∧ s' = s
  | inl e => bad_line line ∧ e ≠ InsertRejected ∧ s' = s
  end.
Proof.
  unfold persist_line, line_event, bad_line. destruct (Z.ltb_spec MaxOperationRecordBytes (Z.of_nat (String.length line))).
  { split; [|done]. intros [? _]. lia. }
  destruct (parseOperationRecord line) as [error|r]; [by split; [split; [done|by exists error]|]|]. cbv zeta.
  assert (¬ (Z.of_nat (String.length line) <= MaxOperationRecordBytes ∧ ∃ error, inr (A := RecordError) r = inl error)) as Hnot
    by (by intros (_ & error & [=])).
  destruct ((0 <? transcript_bytes r) && _); cbv iota beta; [by split|].
  split; [done|]. eexists. by split.
Qed.

(** A line that is stored, or not, before the others. *)
Lemma lines_stored_cons sandbox info line lines events answers w w1 w' r :
  stores events w.1 w1.1 → sublist events (option_list (line_event sandbox info line)) →
  w1.2 = w.2 ++ answers → length answers = length events → Forall (eq true) answers → ¬ bad_line line →
  lines_stored sandbox info lines w1 w' r → lines_stored sandbox info (line :: lines) w w' r.
Proof.
  intros Hstores Hsub Hanswers Hlen Htrue Hgood (events' & answers' & Hstores' & Hsub' & Hanswers' & Hlen' & Hend).
  exists (events ++ events'), (answers ++ answers').
  split; [by eapply stores_app|]. split; [|split; [|split]].
  - cbn [omap list_omap]. destruct (line_event _ _ _); [by apply (sublist_app _ [_])|by apply (sublist_app _ [])].
  - by rewrite Hanswers', Hanswers, (assoc_L (++)).
  - rewrite !length_app. lia.
  - destruct r as [e|]; cbn [answers_end] in *; [destruct e|].
    1, 2: destruct Hend; split; [by apply Exists_cons_tl|by apply Forall_app].
    + destruct Hend as (accepted & -> & Hall). exists (answers ++ accepted).
      split; [by rewrite (assoc_L (++))|by apply Forall_app].
    + destruct Hend. split; [by constructor|by apply Forall_app].
Qed.

Lemma ends_persist_lines sandbox info lines w :
  ends (each lines (λ line,
      storing ← turn (persist_line sandbox info line);
      if storing : bool then perform AwaitInsert else Return tt))
    (lines_stored sandbox info lines w) w.
Proof.
  revert w. induction lines as [|line lines IH]; intros w.
  { exists [], []. rewrite app_nil_r. split; [apply stores_nothing|]. by repeat split. }
  cbn [each]. apply holds_bind, holds_bind, ends_turn.
  pose proof (persist_line_cases sandbox info line w.1) as Hline.
  destruct (persist_line sandbox info line w.1) as [[e|[]] s1]; cbn [fst snd].
  - destruct Hline as (Hbad & Hne & ->). exists [], []. rewrite app_nil_r.
    split; [apply stores_nothing|]. split; [apply sublist_nil_l|]. do 2 (split; [done|]).
    destruct e; cbn [answers_end]; try done; by split; [apply Exists_cons_hd|].
  - destruct Hline as (Hgood & event & Hevent & Hstores).
    assert (sublist [event] (option_list (line_event sandbox info line))) as Hsub by (by rewrite Hevent).
    apply ends_insert; cbn [fst snd].
    + eapply holds_mono; [|apply IH]. intros w' r Hrest.
      by eapply (lines_stored_cons _ _ _ _ [event] [true] w (s1, w.2 ++ [true])); [..|exact Hrest]; try done; constructor.
    + exists [event], [false]. split; [done|]. split; [|split; [done|split; [done|by exists []]]].
      cbn [omap list_omap]. rewrite Hevent. apply sublist_skip, sublist_nil_l.
  - destruct Hline as [Hgood ->]. refine (holds_mono _ _ _ _ _ _ _ _ (IH (w.1, w.2))). intros w' r Hrest.
    eapply (lines_stored_cons _ _ _ _ [] [] w (w.1, w.2)); [apply stores_nothing|apply sublist_nil_l|by rewrite app_nil_r|done..|exact Hrest].
Qed.

Definition ingest_failed_effects (c : SessionKeyInput) (stream : ActiveBootstrapOperationStream)
    : list OperationEffect :=
  [BudgetCleared (operationKey c.(key_sandboxInstanceId) stream.(stream_info));
   ControlSent c (createOperationReset stream.(stream_streamId) "operation_ingest_failed"
     "Gateway failed to ingest operation records.")].

(** The stream is gone, with its budget, and the session with its last stream. *)
Record stream_dropped (c : SessionKeyInput) (ref : nat) (stream : ActiveBootstrapOperationStream) (s : Service)
    : Prop := mkStreamDropped {
  dropped_stream : JsMap.get (session_at ref s).(operation_streamsById) stream.(stream_streamId) = None;
  dropped_budget : JsMap.get s.(persistedTranscriptBytesByOperation)
    (operationKey c.(key_sandboxInstanceId) stream.(stream_info)) = None;
  dropped_session : (∀ id, JsMap.get (session_at ref s).(operation_streamsById) id = None) →
    JsMap.get s.(operation_sessions) (toSessionKey c) = None;
}.

Lemma data_failed_spec c ref stream s :
  let s' := data_failed c ref stream.(stream_streamId) s in
  stream_open c ref stream s →
  s'.(operation_effects) = s.(operation_effects) ++ ingest_failed_effects c stream ∧
  stream_dropped c ref stream s'.
Proof.
  intros s' [Hsession Hstream]. subst s'. unfold data_failed, close_stream, on_session, operation_closeStream.
  rewrite Hstream. cbn [clear_if_closed from_option]. cbv zeta.
  set (s1 := sendControlMessage _ _ _).
  assert (session_at ref s1 = with_operation_streams (session_at ref s)
    (JsMap.delete (session_at ref s).(operation_streamsById) stream.(stream_streamId))) as Hat
    by apply session_at_put.
  assert (s1.(operation_effects) = s.(operation_effects) ++ ingest_failed_effects c stream) as Heffects
    by (cbn; by rewrite <-(assoc_L (++))).
  assert (stream_dropped c ref stream (deleteSessionIfEmpty (toSessionKey c) ref s1)) as Hdropped.
  { unfold deleteSessionIfEmpty. destruct (Nat.eqb_spec (operation_streamCount (session_at ref s1)) 0) as [Hz|Hz].
    - split; [change (session_at ref _) with (session_at ref s1); rewrite Hat; apply JsMap.get_delete_eq
             |apply JsMap.get_delete_eq|intros _; apply JsMap.get_delete_eq].
    - split; [rewrite Hat; apply JsMap.get_delete_eq|apply JsMap.get_delete_eq|].
      intros Hnone. destruct Hz. by apply JsMap.size_zero. }
  split; [|done]. unfold deleteSessionIfEmpty. by case_match.
Qed.

End Service.

(** ** Examples *)

(** A database that accepts every event, with deliveries that wait for each other. *)
Definition enabled_op A (op : ingress_op A) (s : Service)
    : option ((OperationIngressError + A) * Service) :=
  match op in ingress_op A return option ((OperationIngressError + A) * Service) with
  | Turn code => Some (code s)
  | AwaitDelivery promise => if s.(deliveries) !! promise =?= Some true then Some (inr tt, s) else None
  | AwaitInsert => Some (inr tt, s)
  end.

Lemma enabled_op_step A (op : ingress_op A) s r s' :
  enabled_op A op s = Some (r, s') → ingress_op_step A op s r s'.
Proof.
  destruct op as [A code|promise|]; cbn.
  - by intros [= ->].
  - case_bool_decide; [|done]. by intros [= <- <-].
  - intros [= <- <-]. split; [by left|done].
Qed.

Definition demo_connection : SessionKeyInput := mkSessionKey "relay1" "sbi1".
Definition demo_stream : ActiveBootstrapOperationStream :=
  mkStream 0 (mkOperationInfo "op1" "start") DefaultStreamWindowBytes OperationStreamId.
Definition demo_open : OperationDelivery :=
  OperationOpenDelivery (mkOpenOperation OperationStreamFormat "op1" "start" OperationStreamId).
Definition demo_data : OperationDelivery :=
  OperationDataDelivery
    (frame_bytes OperationStreamId PayloadKindRawBytes (records_payload (H := reference_base64) demo_records))
    OperationStreamId.

(** Two deliveries of one connection, the second one scheduled while it has to wait. *)
Definition demo_run : Service * list (program ingress_op OperationIngressError unit) :=
  play_enabled enabled_op [0; 1; 1; 0; 0; 1; 0; 1; 1; 1; 1; 1; 1; 1; 1; 1]%nat new_operation_service
    ((λ i, handleDelivery (H := reference_base64) i.1 i.2) <$>
       [(demo_connection, demo_open); (demo_connection, demo_data)]).

Lemma demo_run_reaches :
  rtc (interleave ingress_op_step ingress_env)
    (new_operation_service, (λ i, handleDelivery (H := reference_base64) i.1 i.2) <$>
       [(demo_connection, demo_open); (demo_connection, demo_data)]) (demo_run.1, demo_run.2).
Proof.
  rewrite <- surjective_pairing. unfold demo_run. apply play_enabled_interleave.
  apply enabled_op_step.
Qed.

Lemma demo_run_counter :
  JsMap.get demo_run.1.(persistedTranscriptBytesByOperation) "sbi1:op1" = Some 3.
Proof. by vm_compute. Qed.

Lemma transcript_budget_witness :
  stored_bytes "sbi1:op1" demo_run.1.(operation_effects) = 3.
Proof.
  destruct (transcript_budget (H := reference_base64) [(demo_connection, demo_open); (demo_connection, demo_data)]
    demo_run.1 demo_run.2 demo_run_reaches) as [Hbudget _].
  destruct (Hbudget "sbi1:op1") as [-> _]. by rewrite demo_run_counter.
Defined.

Definition opened_service : Service :=
  handleOpen demo_connection (mkOpenOperation OperationStreamFormat "op1" "start" OperationStreamId)
    new_operation_service.
Definition opened_ref : nat :=
  default 0%nat (JsMap.get opened_service.(operation_sessions) (toSessionKey demo_connection)).

Lemma opened_stream : stream_open demo_connection opened_ref demo_stream opened_service.
Proof. by split; vm_compute. Qed.

Lemma demo_records_reportable :
  reportable (H := reference_base64) "sbi1" demo_stream.(stream_info) demo_records opened_service.
Proof.
  split; [|by repeat constructor|by repeat constructor; vm_compute|by vm_compute].
  repeat constructor; try done; by apply (bool_decide_unpack _); vm_compute.
Qed.

Lemma reported_records_stored_witness :
  ∃ s', run accepting (handleDelivery (H := reference_base64) demo_connection demo_data) opened_service = (inr tt, s') ∧
    s'.(operation_effects) = [StreamOpened demo_connection demo_stream.(stream_info);
        ControlSent demo_connection (createOperationOpenOk OperationStreamId DefaultStreamWindowBytes)]
      ++ (EventStored ∘ record_event "sbi1" demo_stream.(stream_info) <$> demo_records).
Proof.
  destruct (reported_records_stored (H := reference_base64) demo_connection opened_ref demo_stream
    PayloadKindRawBytes demo_records opened_service opened_stream ltac:(done) ltac:(by left)
    demo_records_reportable ltac:(by vm_compute)) as (s' & Hrun & Heffects & _).
  exists s'. split; [exact Hrun|]. rewrite Heffects. by vm_compute.
Defined.

(** The next turn of a delivery that runs alone. *)
Lemma exec_turn {A B} (code : M OperationIngressError Service A) k s answers (r : OperationIngressError + B) w' :
  exec answered_step (λ _ _, False) ((code s).2, answers) (k (code s).1) r w' →
  exec answered_step (λ _ _, False) (s, answers) (Perform (Turn code) k) r w'.
Proof.
  intros Hexec. eapply exec_perform; [apply rtc_refl| |exact Hexec].
  split; [cbn; by destruct (code s)|by rewrite app_nil_r].
Qed.

Lemma exec_rejected {B} k s answers (r : OperationIngressError + B) w' :
  exec answered_step (λ _ _, False) (s, answers ++ [false]) (k (inl InsertRejected)) r w' →
  exec answered_step (λ _ _, False) (s, answers) (Perform AwaitInsert k) r w'.
Proof.
  intros Hexec. eapply exec_perform; [apply rtc_refl| |exact Hexec]. split; [split; [by right|done]|done].
Qed.

(** The database rejects the first of the events. *)
Lemma demo_data_rejected : ∃ s', exec answered_step (λ _ _, False) (opened_service, [])
  (processDelivery (H := reference_base64) demo_connection demo_data) (inr tt) (s', [false]).
Proof.
  eexists. do 2 apply exec_turn. apply exec_rejected. apply exec_turn. apply (exec_finish _ _ _ (inr tt)).
Qed.


(** The budget of an operation whose output has reached the limit. *)
Definition exhausted_service : Service :=
  with_budgets (JsMap.set JsMap.empty "sbi1:op1" MaxPersistedTranscriptBytesPerOperation) None opened_service.

Definition stored_output (s : Service) : list (list Z) :=
  omap (λ effect, match effect with EventStored event => event.(event_payloadBytes) | _ => None end)
    s.(operation_effects).

(** More output is dropped while the stream is open; when the sandbox closes the stream
    and opens it again for the same operation, it is stored again. *)
Lemma reopened_operation_stores_again :
  let deliver delivery s :=
    (run accepting (handleDelivery (H := reference_base64) demo_connection delivery) s).2 in
  stored_output (deliver demo_data exhausted_service) = [] ∧
  stored_output (deliver demo_data (deliver demo_open
    (deliver (OperationCloseDelivery OperationStreamId) exhausted_service))) = [[104; 105; 10]].
Proof. by vm_compute. Qed.
