(* ===== verification/OperationQueue.v ===== *)
(** * The order of operation deliveries
      (gateway/tunnel/operation-ingress/sandbox-operation-ingress-service.ts)

    [handleDelivery] of OperationIngress.v chains the deliveries of a connection by their
    promises, as [enqueue] of DeadlineQueue.v chains the operations of a sandbox.
    [deliveries_refine_queue]: until a connection is detached, any interleaving of any
    number of deliveries is a run of that queue, with a transition per delivery that has
    been called; so the deliveries of a connection run one at a time in the order of
    their calls, whatever fails. *)

From S2P Require Import Prelude JsMap FlowControl OperationRecords OperationEvents Programs OperationIngress DeadlineQueue.

Section Queue.
Context `{Text.Base64}.
Notation Delivery := (program ingress_op OperationIngressError).

(** [handleDelivery] from [processDelivery] on, and from its end on. *)
Definition settle_and_forget (c : SessionKeyInput) (promise : nat) (result : OperationIngressError + unit)
    : Delivery unit :=
  _ ← turn (modify (settle_delivery promise));
  _ ← turn (modify (forget_delivery c promise));
  finish result.

Definition serve (c : SessionKeyInput) (promise : nat) (p : Delivery unit) : Delivery unit :=
  result ← attempt p; settle_and_forget c promise result.

(** The call of a delivery before and after it has taken its promise. *)
Lemma handleDelivery_serve c delivery :
  handleDelivery c delivery =
  ('(previousDelivery, currentDelivery) ← turn (update (chain_delivery c));
   _ ← from_option (λ promise, perform (AwaitDelivery promise)) (Return tt) previousDelivery;
   serve c currentDelivery (processDelivery c delivery)).
Proof. reflexivity. Qed.

(** Code that leaves the queue alone. *)
Definition same_queue : relation SandboxOperationIngressService := λ s s',
  s'.(deliveries) = s.(deliveries) ∧ s'.(deliveryChains) = s.(deliveryChains).

Definition undisturbing {A} (p : Delivery A) : Prop :=
  ∀ s, holds ingress_op_step (λ _ _, True) same_queue p (λ _ _, True) s.

(** Where the program of a delivery with a promise is, by the status of its transition. *)
Inductive phase (c : SessionKeyInput) (delivery : OperationDelivery) (promise : nat)
    : TransitionStatus → Delivery unit → Prop :=
| phase_waiting previous :
    phase c delivery promise (Waiting (Some previous))
      (_ ← perform (AwaitDelivery previous); serve c promise (processDelivery c delivery))
| phase_running p : undisturbing p → phase c delivery promise Running (serve c promise p)
| phase_settled rejected result :
    phase c delivery promise (Settled rejected)
      (_ ← turn (modify (forget_delivery c promise)); finish result)
| phase_ended rejected result : phase c delivery promise (Settled rejected) (finish result).

(** The queue of a pool: [owners] has the call of each promise. *)
Record queued (inputs : list (SessionKeyInput * OperationDelivery)) (owners : list nat)
    (s : SandboxOperationIngressService) (pool : list (Delivery unit)) (q : DeadlineQueue) : Prop := mkQueued {
  queued_chains : q.(transitionsBySandboxInstanceId) = s.(deliveryChains);
  queued_promises : s.(deliveries) = (λ t, settled t.(transition_status)) <$> q.(transitions);
  queued_owners : NoDup owners;
  queued_length : length owners = length q.(transitions);
  queued_called i j : owners !! i = Some j → ∃ c delivery t p,
    inputs !! j = Some (c, delivery) ∧ q.(transitions) !! i = Some t ∧
    t.(transition_sandboxInstanceId) = toSessionKey c ∧
    pool !! j = Some p ∧ phase c delivery i t.(transition_status) p;
  queued_uncalled j p : pool !! j = Some p → j ∉ owners → ∃ c delivery,
    inputs !! j = Some (c, delivery) ∧ p = handleDelivery c delivery;
}.

(** ** Deliveries do not disturb the queue while they run *)

Lemma undisturbing_turn {A} (code : M OperationIngressError SandboxOperationIngressService A) :
  (∀ s, same_queue s (code s).2) → undisturbing (turn code).
Proof.
  intros Hcode s. apply holds_perform. intros s1 r s2 _ Hstep. cbn in Hstep. specialize (Hcode s1).
  by rewrite Hstep in Hcode.
Qed.

Lemma undisturbing_bind {A B} (p : Delivery A) (f : A → Delivery B) :
  undisturbing p → (∀ a, undisturbing (f a)) → undisturbing (p ≫= f).
Proof.
  intros Hp Hf s. apply holds_bind. eapply holds_mono; [|apply Hp]. intros s' [e|a] _; [done|apply Hf].
Qed.

Lemma undisturbing_attempt {A} (p : Delivery A) : undisturbing p → undisturbing (attempt p).
Proof. intros Hp s. apply holds_attempt. eapply holds_mono; [|apply Hp]. done. Qed.

#[local] Instance any_change_preorder : @PreOrder SandboxOperationIngressService (λ _ _, True).
Proof. by split. Qed.

Lemma undisturbing_step {X A} (op : ingress_op X) (k : OperationIngressError + X → Delivery A) s r s' :
  undisturbing (Perform op k) → ingress_op_step X op s r s' → same_queue s s' ∧ undisturbing (k r).
Proof.
  intros Hp Hstep. destruct (Hp s s r s' I Hstep) as [Hsame Hk]. split; [done|]. intros s1.
  apply (holds_rely ingress_op_step (λ _ _, True) same_queue _ _ s'); done.
Qed.

Lemma same_queue_on_session {A} ref (method : BootstrapOperationSession → A * BootstrapOperationSession) s :
  same_queue s (on_session ref method s).2.
Proof. unfold on_session. by destruct (method _). Qed.

#[local] Instance same_queue_preorder : PreOrder same_queue.
Proof. split; [by intros s|]. intros s1 s2 s3 [? ?] [? ?]. split; congruence. Qed.

Lemma same_queue_delete_if_empty key ref s : same_queue s (deleteSessionIfEmpty key ref s).
Proof. unfold deleteSessionIfEmpty. by case_match. Qed.

Lemma same_queue_clear sandbox stream s : same_queue s (clear_if_closed sandbox stream s).
Proof. by destruct stream. Qed.

Lemma same_queue_close c ref streamId s : same_queue s (close_stream c ref streamId s).
Proof.
  unfold close_stream. pose proof (same_queue_on_session ref (operation_closeStream streamId) s) as Hsame.
  destruct (on_session _ _ _) as [stream s']. etrans; [exact Hsame|apply same_queue_clear].
Qed.

Lemma same_queue_failed c ref streamId s : same_queue s (data_failed c ref streamId s).
Proof.
  unfold data_failed. etrans; [apply (same_queue_close c ref streamId)|].
  etrans; [|apply same_queue_delete_if_empty]. done.
Qed.

Lemma same_queue_persisted c ref streamId s : same_queue s (data_persisted c ref streamId s).
Proof.
  unfold data_persisted, from_option. pose proof (same_queue_on_session ref (operation_grantWindowIfNeeded streamId) s) as Hsame.
  destruct (on_session _ _ _) as [message s']. etrans; [exact Hsame|]. by case_match.
Qed.

Lemma same_queue_persist_line sandbox info line s : same_queue s (persist_line sandbox info line s).2.
Proof. destruct (persist_line_stores sandbox info line s) as (events & [_ _ Hd Hc _] & _). by split. Qed.

Lemma same_queue_open c input s : same_queue s (handleOpen c input s).
Proof.
  unfold handleOpen. cbv zeta. set (found := match JsMap.get _ _ with Some ref => _ | None => _ end).
  assert (same_queue s found.2) as Hfound by (subst found; by case_match).
  clearbody found. destruct found as [ref s1]. cbn [snd] in Hfound. cbv beta iota.
  pose proof (same_queue_on_session ref (operation_openStream input) s1) as Hsame.
  destruct (on_session _ _ _) as [result s2]. etrans; [exact Hfound|]. etrans; [exact Hsame|].
  destruct result; [done|]. etrans; [|apply same_queue_delete_if_empty]. done.
Qed.

Lemma same_queue_receive c delivery s : same_queue s (receive_delivery c delivery s).2.
Proof.
  unfold receive_delivery, accept_data. destruct delivery as [input|id|payload id|kind id];
    [apply same_queue_open|..]; destruct (JsMap.get _ _) as [ref|]; cbn [snd]; try done.
  - etrans; [apply same_queue_close|apply same_queue_delete_if_empty].
  - destruct (DataFrame.decodeDataFrame payload) as [|frame]; [done|].
    pose proof (same_queue_on_session ref (operation_consumeWindow
      (Z.of_nat (length (DataFrame.frame_payload frame))) id) s) as Hsame.
    destruct (on_session _ _ _) as [[stream|response stream] s1]; cbn [snd] in *; [done|].
    etrans; [exact Hsame|]. etrans; [apply (same_queue_clear c.(key_sandboxInstanceId) stream)|].
    etrans; [|apply same_queue_delete_if_empty]. done.
  - etrans; [apply (same_queue_close c ref id)|]. etrans; [|apply same_queue_delete_if_empty]. done.
Qed.

Lemma undisturbing_insert : undisturbing (perform AwaitInsert).
Proof. intros s. apply holds_perform. by intros s1 r s2 _ [_ ->]. Qed.

Lemma undisturbing_process c delivery : undisturbing (processDelivery c delivery).
Proof.
  apply undisturbing_bind; [apply undisturbing_turn; intros; apply same_queue_receive|].
  intros [data|]; [|done]. apply undisturbing_bind.
  - apply undisturbing_attempt. unfold persistRecords.
    induction (payload_lines (data_payload data)) as [|line lines IH]; [done|]. cbn [each].
    apply undisturbing_bind; [|by intros []]. apply undisturbing_bind.
    + apply undisturbing_turn. intros. apply same_queue_persist_line.
    + intros []; [apply undisturbing_insert|done].
  - intros [e|[]]; apply undisturbing_turn; intros s; [apply same_queue_failed|apply same_queue_persisted].
Qed.

(** ** The refinement *)

(** The delivery [j] with promise [i] goes on to [p'] and its transition to [t']. *)
Lemma queued_update inputs owners s pool q i j c delivery t s' q' status p' :
  queued inputs owners s pool q → owners !! i = Some j → inputs !! j = Some (c, delivery) →
  q.(transitions) !! i = Some t → t.(transition_sandboxInstanceId) = toSessionKey c →
  q'.(transitions) = <[i := mkTransition t.(transition_sandboxInstanceId) status]> q.(transitions) →
  q'.(transitionsBySandboxInstanceId) = s'.(deliveryChains) →
  s'.(deliveries) = <[i := settled status]> s.(deliveries) →
  phase c delivery i status p' →
  queued inputs owners s' (<[j := p']> pool) q'.
Proof.
  intros [Hchains Hpromises Hnodup Hlength Hcalled Huncalled] Hi Hj Ht Hkey Htrans Hmap Hsettled Hphase.
  split; [done| |done|by rewrite Htrans, length_insert| |].
  - by rewrite Hsettled, Htrans, list_fmap_insert, Hpromises.
  - intros i' j' Hi'. rewrite Htrans. destruct (decide (i' = i)) as [->|Hne].
    + rewrite Hi in Hi'. injection Hi' as <-. destruct (Hcalled i j Hi) as (c0 & d0 & t0 & p0 & _ & _ & _ & Hp0 & _).
      exists c, delivery, (mkTransition t.(transition_sandboxInstanceId) status), p'.
      rewrite list_lookup_insert_eq by (by eapply lookup_lt_Some).
      rewrite list_lookup_insert_eq by (by eapply lookup_lt_Some). done.
    + destruct (Hcalled i' j' Hi') as (c0 & d0 & t0 & p0 & Hin & Ht0 & Hkey0 & Hp0 & Hphase0).
      assert (j' ≠ j) as Hne' by (intros ->; apply Hne; by eapply NoDup_lookup).
      exists c0, d0, t0, p0. rewrite !list_lookup_insert_ne by done. done.
  - intros j' p Hp Hnot. assert (j' ≠ j) as Hne by (intros ->; by apply Hnot; eapply list_elem_of_lookup_2).
    rewrite list_lookup_insert_ne in Hp by done. by apply Huncalled.
Qed.

(** A delivery that has been called takes the next promise. *)
Lemma queued_call inputs owners s pool q j c delivery p' status :
  queued inputs owners s pool q → j ∉ owners → inputs !! j = Some (c, delivery) → j < length pool →
  settled status = false → phase c delivery (length s.(deliveries)) status p' →
  queued inputs (owners ++ [j]) (chain_delivery c s).2 (<[j := p']> pool)
    (mkQueue (q.(transitions) ++ [mkTransition (toSessionKey c) status])
       (enqueue (toSessionKey c) q).(transitionsBySandboxInstanceId)).
Proof.
  intros [Hchains Hpromises Hnodup Hlength Hcalled Huncalled] Hnew Hj Hlt Hstatus Hphase.
  assert (length s.(deliveries) = length q.(transitions)) as Hlen by (by rewrite Hpromises, length_fmap).
  split.
  - cbn. by rewrite Hchains, Hlen.
  - cbn. rewrite fmap_app, Hpromises. cbn. by rewrite Hstatus.
  - apply NoDup_app. split; [done|]. split; [|apply NoDup_singleton]. by intros x Hx ->%list_elem_of_singleton.
  - cbn. rewrite !length_app. cbn. lia.
  - intros i j' [Hi|[Hlen' Hi]]%lookup_app_Some.
    + destruct (Hcalled i j' Hi) as (c0 & d0 & t0 & p0 & Hin & Ht0 & Hkey0 & Hp0 & Hphase0).
      exists c0, d0, t0, p0. assert (j' ≠ j) by (intros ->; by apply Hnew; eapply list_elem_of_lookup_2).
      rewrite list_lookup_insert_ne by done. split_and!; try done. by apply lookup_app_l_Some.
    + apply list_lookup_singleton_Some in Hi as [Hz <-].
      exists c, delivery, (mkTransition (toSessionKey c) status), p'.
      rewrite list_lookup_insert_eq by done. assert (i = length (transitions q)) as -> by lia.
      split_and!; try done; [|by rewrite <- Hlen]. cbn. by apply list_lookup_middle.
  - intros j' p Hp Hnot. rewrite elem_of_app, list_elem_of_singleton in Hnot.
    rewrite list_lookup_insert_ne in Hp by naive_solver. apply Huncalled; naive_solver.
Qed.

(** The first turn of a call: with no delivery before it, it starts at once. *)
Lemma step_call inputs owners s pool q j c delivery p' s' r :
  queued inputs owners s pool q → j ∉ owners → inputs !! j = Some (c, delivery) → j < length pool →
  chain_delivery c s = (r, s') →
  p' = (_ ← from_option (λ promise, perform (AwaitDelivery promise)) (Return tt) r.1;
        serve c r.2 (processDelivery c delivery)) →
  ∃ q', rtc queue_step q q' ∧ queued inputs (owners ++ [j]) s' (<[j := p']> pool) q'.
Proof.
  intros Hq Hnew Hj Hlt Hchain ->. pose proof (queued_chains _ _ _ _ _ Hq) as Hchains.
  assert (length s.(deliveries) = length q.(transitions)) as Hlen
    by (by rewrite (queued_promises _ _ _ _ _ Hq), length_fmap).
  replace s' with (chain_delivery c s).2 by (by rewrite Hchain).
  replace r with (JsMap.get s.(deliveryChains) (toSessionKey c), length s.(deliveries))
    by (unfold chain_delivery in Hchain; congruence).
  cbn [fst snd]. rewrite <- Hchains. destruct (JsMap.get _ _) as [previous|] eqn:Hprevious; cbn [from_option].
  - eexists. split; [apply rtc_once, (queue_step_enqueue q (toSessionKey c))|].
    unfold enqueue at 1. rewrite Hprevious. apply (queued_call _ _ _ _ _ j c delivery); try done. apply phase_waiting.
  - eexists. split.
    + eapply rtc_l; [apply (queue_step_enqueue q (toSessionKey c))|]. apply rtc_once.
      apply (queue_step_starts _ (length q.(transitions)) (mkTransition (toSessionKey c) (Waiting None)) None);
        [cbn; rewrite Hprevious; by apply list_lookup_middle|done..].
    + unfold with_status. cbn [enqueue transitions transition_sandboxInstanceId].
      rewrite insert_app_r_alt by lia. rewrite Nat.sub_diag. cbn [insert list_insert].
      apply (queued_call _ _ _ _ _ j c delivery); try done. apply phase_running, undisturbing_process.
Qed.

(** The next operation of a program. *)
Definition next_step {A} (s : SandboxOperationIngressService) (p : Delivery A)
    (s' : SandboxOperationIngressService) (p' : Delivery A) : Prop :=
  match p with
  | Perform op k => ∃ r, ingress_op_step _ op s r s' ∧ p' = k r
  | _ => False
  end.

Lemma next_finish {A} s (r : OperationIngressError + A) s' p' : ¬ next_step s (finish r) s' p'.
Proof. destruct r; by intros []. Qed.

(** What the program of a called delivery does next, on its transition. *)
Lemma phase_step c delivery i status p s s' p' q t :
  phase c delivery i status p → next_step s p s' p' →
  q.(transitions) !! i = Some t → t.(transition_status) = status →
  t.(transition_sandboxInstanceId) = toSessionKey c →
  q.(transitionsBySandboxInstanceId) = s.(deliveryChains) →
  s.(deliveries) = (λ t, settled t.(transition_status)) <$> q.(transitions) →
  ∃ q' status', rtc queue_step q q' ∧
    q'.(transitions) = <[i := mkTransition t.(transition_sandboxInstanceId) status']> q.(transitions) ∧
    q'.(transitionsBySandboxInstanceId) = s'.(deliveryChains) ∧
    s'.(deliveries) = <[i := settled status']> s.(deliveries) ∧
    phase c delivery i status' p'.
Proof.
  intros Hphase Hnext Ht Hstatus Hkey Hmap Hdel.
  assert (s.(deliveries) !! i = Some (settled t.(transition_status))) as Hset
    by (by rewrite Hdel, list_lookup_fmap, Ht).
  assert (mkTransition t.(transition_sandboxInstanceId) t.(transition_status) = t) as Heta by (by destruct t).
  destruct Hphase as [previous|p Hp|rejected result|rejected result].
  - destruct Hnext as (r & (Hprevious & -> & ->) & ->).
    exists (with_status i t Running q), Running. split_and!; try done.
    + apply rtc_once, (queue_step_starts q i t (Some previous)); [done..|].
      rewrite Hdel, list_lookup_fmap in Hprevious.
      destruct (q.(transitions) !! previous) as [tp|] eqn:Hget; [|done]. exists tp.
      split; [done|by injection Hprevious].
    + rewrite list_insert_id; [done|]. by rewrite Hset, Hstatus.
    + apply phase_running, undisturbing_process.
  - destruct p as [a|e|X op k].
    + destruct Hnext as (r & Hstep & ->). cbn in Hstep. injection Hstep as <- <-.
      exists (with_status i t (Settled false) q), (Settled false). split_and!; try done.
      * by apply rtc_once, queue_step_settles.
      * apply phase_settled.
    + destruct Hnext as (r & Hstep & ->). cbn in Hstep. injection Hstep as <- <-.
      exists (with_status i t (Settled true) q), (Settled true). split_and!; try done.
      * by apply rtc_once, queue_step_settles.
      * apply phase_settled.
    + destruct Hnext as (r & Hstep & ->).
      destruct (undisturbing_step op k s r s' Hp Hstep) as [[Hd Hc] Hk].
      exists q, Running. split_and!; [done| | | |by apply phase_running].
      * rewrite <- Hstatus, Heta. by rewrite list_insert_id.
      * by rewrite Hc.
      * rewrite Hd, <- Hstatus. by rewrite list_insert_id.
  - destruct Hnext as (r & Hstep & ->). cbn in Hstep. injection Hstep as <- <-.
    exists (forget i t.(transition_sandboxInstanceId) q), (Settled rejected).
    assert (settled t.(transition_status) = true) as Hsettled by (by rewrite Hstatus).
    split_and!; [by apply rtc_once, queue_step_forgets| | | |apply phase_ended].
    + rewrite <- Hstatus, Heta. unfold forget. case_bool_decide; cbn; by rewrite list_insert_id.
    + unfold forget, forget_delivery. rewrite Hkey, Hmap. case_bool_decide; cbn; by rewrite ?Hmap.
    + rewrite <- Hstatus. unfold forget_delivery. case_bool_decide; cbn; by rewrite list_insert_id.
  - by apply next_finish in Hnext.
Qed.

Notation reaches := (rtc (interleave ingress_op_step (λ _ _ : SandboxOperationIngressService, False))).

Lemma queued_step inputs owners s pool q s' pool' :
  queued inputs owners s pool q →
  interleave ingress_op_step (λ _ _, False) (s, pool) (s', pool') →
  ∃ owners' q', rtc queue_step q q' ∧ queued inputs owners' s' pool' q'.
Proof.
  intros Hq Hstep. inversion Hstep as [w w' pool0 j X op k r Hj Hop|]; simplify_eq; [|done].
  destruct (decide (j ∈ owners)) as [(i & Hi)%list_elem_of_lookup|Hnew].
  - destruct (queued_called _ _ _ _ _ Hq i j Hi) as (c & delivery & t & p & Hin & Ht & Hkey & Hp & Hphase).
    rewrite Hj in Hp. injection Hp as <-.
    destruct (phase_step c delivery i _ (Perform op k) s s' (k r) q t Hphase) as
      (q' & status & Hsteps & Htrans & Hmap & Hset & Hphase');
      [by exists r|done|done|done|apply Hq|apply Hq|].
    exists owners, q'. split; [done|]. by eapply queued_update.
  - destruct (queued_uncalled _ _ _ _ _ Hq j _ Hj Hnew) as (c & delivery & Hin & Hcall).
    assert (next_step s (handleDelivery c delivery) s' (k r)) as Hnext by (rewrite <- Hcall; by exists r).
    rewrite handleDelivery_serve in Hnext. destruct Hnext as (r' & Hcode & Hk).
    cbn in Hcode. injection Hcode as <- <-.
    destruct (step_call inputs owners s pool q j c delivery (k r) (chain_delivery c s).2 (chain_delivery c s).1 Hq Hnew Hin)
      as (q' & Hsteps & Hq'); [by eapply lookup_lt_Some|done|exact Hk|].
    by exists (owners ++ [j]), q'.
Qed.

Lemma queued_new inputs :
  queued inputs [] new_operation_service ((λ i, handleDelivery i.1 i.2) <$> inputs) queue_new.
Proof.
  split; [done|done|constructor|done|by intros i j ?|].
  intros j p ([c delivery] & -> & Hj)%list_lookup_fmap_Some _. by exists c, delivery.
Qed.

Lemma queued_reachable inputs s' pool :
  reaches (new_operation_service, (λ i, handleDelivery i.1 i.2) <$> inputs) (s', pool) →
  ∃ owners q, rtc queue_step queue_new q ∧ queued inputs owners s' pool q.
Proof.
  assert (∀ a b, reaches a b → ∀ owners q, queued inputs owners a.1 a.2 q →
    ∃ owners' q', rtc queue_step q q' ∧ queued inputs owners' b.1 b.2 q') as Hall.
  { induction 1 as [a|[s1 p1] [s2 p2] b Hstep _ IH]; intros owners q Hq; [by exists owners, q|].
    destruct (queued_step inputs owners s1 p1 q s2 p2 Hq Hstep) as (owners2 & q2 & Hsteps & Hq2).
    destruct (IH owners2 q2 Hq2) as (owners3 & q3 & Hsteps3 & Hq3). exists owners3, q3.
    split; [by etrans|done]. }
  intros Hreach. exact (Hall _ _ Hreach [] queue_new (queued_new inputs)).
Qed.

(** A delivery that has its promise but waits for the one before it. *)
Definition waits_for (c : SessionKeyInput) (delivery : OperationDelivery) (promise previous : nat) : Delivery unit :=
  _ ← perform (AwaitDelivery previous); serve c promise (processDelivery c delivery).

Lemma queued_of_sandbox inputs owners s pool q i j c delivery :
  queued inputs owners s pool q → owners !! i = Some j → inputs !! j = Some (c, delivery) →
  ∃ t p, of_sandbox q (toSessionKey c) i t ∧ pool !! j = Some p ∧ phase c delivery i t.(transition_status) p.
Proof.
  intros Hq Hi Hj. destruct (queued_called _ _ _ _ _ Hq i j Hi) as (c0 & d0 & t & p & Hin & Ht & Hkey & Hp & Hphase).
  rewrite Hj in Hin. injection Hin as <- <-. by exists t, p.
Qed.

Lemma queued_settled inputs owners s pool q i t :
  queued inputs owners s pool q → q.(transitions) !! i = Some t →
  s.(deliveries) !! i = Some (settled t.(transition_status)).
Proof. intros Hq Ht. by rewrite (queued_promises _ _ _ _ _ Hq), list_lookup_fmap, Ht. Qed.

(** C23: Until a connection is detached, any interleaving of any number of deliveries is a
    run of the queue of DeadlineQueue.v, with a transition for each delivery that has been
    called, in the order of the calls.  So of two deliveries of one connection, the
    later one waits until the earlier one has settled, whatever fails; and one that
    waits is stuck with an earlier delivery of its connection that has not settled, or may
    go on. *)
Theorem deliveries_refine_queue (inputs : list (SessionKeyInput * OperationDelivery))
    (s' : SandboxOperationIngressService) (pool : list (Delivery unit)) :
  reaches (new_operation_service, (λ i, handleDelivery i.1 i.2) <$> inputs) (s', pool) →
  ∃ owners q, rtc queue_step queue_new q ∧ queued inputs owners s' pool q ∧
    ∀ i j c delivery, owners !! i = Some j → inputs !! j = Some (c, delivery) →
      let earlier_settled := ∀ i' j' c' delivery', i' < i → owners !! i' = Some j' →
        inputs !! j' = Some (c', delivery') → toSessionKey c' = toSessionKey c →
        s'.(deliveries) !! i' = Some true in
      earlier_settled ∨ ∃ previous, pool !! j = Some (waits_for c delivery i previous) ∧
        (earlier_settled → s'.(deliveries) !! previous = Some true).
Proof.
  intros (owners & q & Hreach & Hq)%queued_reachable. exists owners, q. do 2 (split; [done|]).
  intros i j c delivery Hi Hj earlier_settled.
  pose proof (queue_reachable_ok q Hreach) as [_ Hwait Hstart].
  destruct (queued_of_sandbox _ _ _ _ _ i j c delivery Hq Hi Hj) as (t & p & Ht & Hp & Hphase).
  assert ((∃ previous, t.(transition_status) = Waiting previous) ∨ ∀ previous, t.(transition_status) ≠ Waiting previous)
    as [[previous Hw]|Hnot] by (destruct (transition_status t) as [previous| |]; [left; by exists previous|by right..]).
  - right. specialize (Hwait _ i t previous Ht Hw). rewrite Hw in Hphase. inversion Hphase as [prev| | |]; subst.
    exists prev. split; [done|]. intros Hearlier. destruct Hwait as (Hlt & (tp & Htp & Hkey) & _).
    destruct (lookup_lt_is_Some_2 owners prev) as [j' Hj'];
      [rewrite (queued_length _ _ _ _ _ Hq); by eapply lookup_lt_Some|].
    destruct (queued_called _ _ _ _ _ Hq prev j' Hj') as (c' & d' & t' & p' & Hin' & Ht' & Hkey' & _).
    apply (Hearlier prev j' c' d' Hlt Hj' Hin'). congruence.
  - left. intros i' j' c' delivery' Hlt Hi' Hj' Hkey.
    destruct (queued_of_sandbox _ _ _ _ _ i' j' c' delivery' Hq Hi' Hj') as (t' & p' & Ht' & _).
    rewrite (queued_settled _ _ _ _ _ i' t' Hq (proj1 Ht')). f_equal. rewrite Hkey in Ht'.
    apply (Hstart (toSessionKey c) i t Ht) with i'; done.
Qed.
End Queue.

(** ** Witness *)

(** The example of OperationIngress.v after the first delivery has taken its promise and
    the second one has been called. *)
Definition demo_waiting : SandboxOperationIngressService * list (program ingress_op OperationIngressError unit) :=
  play_enabled enabled_op [0; 1; 1]%nat new_operation_service
    ((λ i, handleDelivery (H := Text.reference_base64) i.1 i.2) <$>
       [(demo_connection, demo_open); (demo_connection, demo_data)]).

Lemma demo_waiting_reached :
  rtc (interleave ingress_op_step (λ _ _, False))
    (new_operation_service, (λ i, handleDelivery (H := Text.reference_base64) i.1 i.2) <$>
       [(demo_connection, demo_open); (demo_connection, demo_data)]) (demo_waiting.1, demo_waiting.2).
Proof.
  rewrite <- surjective_pairing. unfold demo_waiting. apply play_enabled_interleave. apply enabled_op_step.
Qed.

Lemma deliveries_refine_queue_witness :
  ∃ owners q, rtc queue_step queue_new q ∧
    queued (H := Text.reference_base64) [(demo_connection, demo_open); (demo_connection, demo_data)]
      owners demo_waiting.1 demo_waiting.2 q ∧
    length owners = 2 ∧ demo_waiting.1.(deliveries) = [false; false].
Proof.
  destruct (deliveries_refine_queue (H := Text.reference_base64)
    [(demo_connection, demo_open); (demo_connection, demo_data)] demo_waiting.1 demo_waiting.2
    demo_waiting_reached) as (owners & q & Hreach & Hq & _).
  exists owners, q. do 2 (split; [done|]).
  assert (demo_waiting.1.(deliveries) = [false; false]) as Hdel by by vm_compute.
  split; [|done]. rewrite (queued_length _ _ _ _ _ Hq).
  by rewrite <- (length_fmap (λ t, settled t.(transition_status))), <- (queued_promises _ _ _ _ _ Hq), Hdel.
Defined.
